(* ===== verification/_CoqProject ===== *)
-Q . S2P
Prelude.v
Md5.v
TacacsHeader.v
TacacsCursor.v
TacacsBody.v
TacacsSequence.v
TacacsObfuscate.v
TacacsTransport.v
TacacsServer.v
RadiusAttribute.v
RadiusDictionary.v
RadiusCodec.v
RadiusCrypto.v
RadiusReply.v
Sha256.v
Sha1Des.v
BoundedStore.v
RadiusCache.v
StableSort.v
Policy.v
Events.v
RadiusChallenge.v
RadiusJournal.v
Text.v
Encoding.v
MsChap.v
Credentials.v
Domain.v
SessionIndex.v
AaaAccounting.v
AaaAuthen.v
AaaAuthor.v
TacacsHandler.v
TacacsBridge.v
RadiusAccounting.v
NetAddr.v
RadiusPolicy.v
ClientMatch.v
RadiusUdp.v
Peap.v
RadiusAccess.v
RadiusEap.v
ConfigModel.v
ConfigValidate.v
ConfigSecrets.v
ConfigSpec.v
SecretSpec.v
StatePatch.v
PatchSpec.v
StateManager.v
StateSpec.v
StateHistory.v
StateTokens.v
ControlPlane.v
