(* ===== verification/Prelude.v ===== *)
(** * TacLab: a verification development

    TacLab is a laboratory AAA server: a TACACS+ server (RFC 8907 over TCP,
    with obfuscation, and RFC 9887 over TLS) and a RADIUS server (UDP and
    TLS), with an authorization policy engine, an in-memory event log and a
    REST/MCP control plane around them.  This library models the parts that
    decide what goes on the wire and who is let in, as executable definitions
    that follow the Go source line by line, and proves what makes them correct.

    ** Parts of the program and the files that model them

    A TACACS+ connection is read by a transport ([internal/tacacs/legacy],
    [internal/tacacs/tls]), which frames packets; the connection engine
    ([internal/tacacs/server]) owns one table of sessions per connection and a
    goroutine per session; each session decodes bodies with the codec
    ([internal/tacacs/codec]), checks the order of packets, calls a handler and
    encodes its answer.  The handler is the AAA service ([internal/aaa]), which
    holds the authentication conversations, verifies with
    [internal/credentials], asks the policy engine ([internal/policy]) and
    stores outcomes in the event ring ([internal/events]).  A RADIUS datagram
    is decoded by the codec ([internal/radius/codec],
    [internal/radius/attribute]), looked up in the retransmission cache
    ([internal/radius/udp]), checked against the Message-Authenticator policy
    ([internal/radius/server]) with the authenticators of
    [internal/radius/crypto], handled, signed and cached.  Users, groups,
    clients and tokens come from a configuration file ([internal/config]); the
    state manager ([internal/state]) lays the changes of the control plane over
    it and publishes immutable snapshots, which everything above reads.

    Shared:
    - [Prelude]: octets, slices and machine integers as [Z], the [result] type
      of fallible code, its notations, tactics and lemmas.
    - [Text], [Encoding], [NetAddr], [StableSort]: Go's text conversions,
      decimals and base64; addresses, masks and networks; the stable sort.
    - [Md5], [Sha256], [Sha1Des]: executable MD5, HMAC-MD5, SHA-256, SHA-1 and
      DES, with published test vectors.
    - [BoundedStore]: the interface ([SizedStore]) of the tables that account
      their bytes, with the sweep and the accounting proved once against it;
      [RadiusCache] and [RadiusChallenge] implement it.
    - [Domain]: the enumerations of [internal/domain] with their names.

    TACACS+:
    - [TacacsHeader], [TacacsCursor], [TacacsBody]: [codec/header.go],
      [cursor.go], [args.go], [ascii.go], [authen.go], [author.go],
      [acct.go], [chap.go]: headers, the bounds-checked cursor, arguments and
      the seven bodies.
    - [TacacsSequence]: [codec/version.go], [sequence.go]: the version matrix,
      the packet-order machine, single-connect negotiation.
    - [TacacsObfuscate]: [codec/obfuscate.go].
    - [TacacsTransport]: [legacy/transport.go], [tls/transport.go], over a
      byte stream; [PacketIO] is the interface both implement, and the
      properties are proved against its laws.
    - [TacacsServer]: [server/conn.go], [handler.go], [limits.go]: the
      connection as a state machine whose steps are the reader's and the
      session goroutines', in any interleaving.
    - [TacacsHandler], [TacacsBridge]: what a connection makes of any handler;
      [server/bridge.go], the AAA service as the handler, and the theorems
      about the two together.

    RADIUS:
    - [RadiusAttribute], [RadiusDictionary]: [radius/attribute]: the TLV
      stream, vendor attributes, the built-in dictionary, role checks.
    - [RadiusCodec]: [radius/codec]: header, bounds, discard reasons.
    - [RadiusCrypto]: [radius/crypto]: password hiding and the five validators.
    - [RadiusReply]: [radius/server/integrity.go], [reply.go], [stub.go].
    - [RadiusCache], [RadiusUdp]: [radius/udp/cache.go]; [process.go],
      [listener.go], [worker.go], [lifecycle.go]: the datagram pipeline, as
      steps of the receive loop and the workers.
    - [RadiusChallenge]: [radius/runtime/challenge_store.go],
      [radius/server/challenge.go].
    - [RadiusJournal]: [radius/udp/journal.go]: the semantic journal, with the
      handlers that use it as workers whose steps interleave.
    - [RadiusAccounting]: [radius/server/accounting.go]: the handler, as a
      program of calls to the journal, the sampler and the service.
    - [RadiusAccess]: [aaa/radius_access.go], [radius_access_attrs.go],
      [radius_mschap.go]; [radius/server/access.go], [mschap.go]: the decision
      of the facade, the evidence in a request and the reply.
    - [Peap]: [radius/eap/peap]: bodies, inner packets, fragments, tunnels over
      the interface [TLSConn], the registry.
    - [RadiusEap]: [server/access.go], [eap.go], [peap_access.go]: the whole
      handler as a program of calls ([prog]), and any number of them over one
      challenge table ([access_step]).
    - [SessionIndex]: [radius/runtime/session_index.go], [ulid.go]: the table
      that Change-of-Authorization looks sessions up in.

    Services:
    - [Policy]: [internal/policy], [domain/avpair.go] and the decisions of
      [domain/enums.go]: compilation and the first-match walk.
    - [RadiusPolicy]: [internal/policy/radius]: the compile-time dictionary,
      reply profiles, rules, and the first-match evaluation of access policy.
    - [Events]: [internal/events/ring.go]: the ring, cursor reads, fan-out.
    - [MsChap], [Credentials]: [internal/credentials]: CHAP and MS-CHAP
      responses; verifiers, the store, usernames, tokens and the service.
    - [AaaAccounting]: [aaa/account.go], [radius_accounting.go],
      [dictionary.go]: the service that stores accounting events.
    - [AaaAuthen]: [aaa/auth.go], [authn.go], [store.go]: the authentication
      conversations; the state manager is behind the interface [Publisher].
    - [AaaAuthor]: [aaa/author.go]: limits, the wire's attributes, the policy
      call, redaction.
    - [ClientMatch]: [config/match.go], [match_radius.go],
      [match_radius_tls.go]: which configured client a peer is.

    Configuration and state:
    - [ConfigModel]: [config/types.go], [endpoints.go]: the document, the
      projection between the TACACS+ fields of a client and its endpoints.
    - [ConfigValidate]: [config/validate.go], [radius_policy.go],
      [radius_dictionary.go], [wildcard.go]: [Validate].
    - [ConfigSecrets]: [config/secretpolicy.go]: the policy of shared secrets,
      their reuse and their rotation.
    - [ConfigSpec], [SecretSpec]: what a well-formed document is
      ([document_ok]); which secrets are accepted ([secrets_ok]).
    - [StatePatch], [PatchSpec]: [state/patch.go]: typed patches on users,
      groups and clients, and what they may change.
    - [StateManager]: [state/manager.go], [overlay.go], [compile.go],
      [snapshot.go], [domain/meta.go]: the overlay, the compilation of a
      snapshot, the operations.  The four kinds of object share one body
      through the class [Object].
    - [StateSpec], [StateHistory], [StateTokens]: the abstract view of a
      manager ([view_of]), what each operation does to it ([effect]), the
      invariant of every history, bearers and credential generations.
    - [ControlPlane]: the state manager as the [Publisher] of the AAA service
      and as the source of the listeners' snapshots.

    A Go struct is a record whose fields keep their names behind a prefix; a
    method is a function from the state to the new state and the result; a
    method under a mutex is one atomic step, and a run is a list of steps.

    ** What the theorems show

    - C9, C10, the TACACS+ codec: headers, arguments and bodies round
      trip in both directions on exactly the encodable values; the body budget
      holds; the cursor decoder of a START equals an offset-based reference,
      errors included.
    - C11, sessions: the version matrix accepts exactly the listed
      combinations; sequence numbers are 1, 2, 3, ... in any run, with at most
      66 packets by default; authorization and accounting are single-shot;
      single-connect is fixed by the first pair.
    - C12, obfuscation and transports: the pad is the MD5 chain of
      the RFC; written packets are read back in order; a refused packet leaves
      the stream aligned.
    - C13, C14, the connection: replies carry the right header and a
      readable body; errors are answered exactly where they may be; the session
      limit, the table, the negotiation gate and the packet order are
      invariants of every interleaving; draining is final.
    - C15, C16, C17, RADIUS packets: the attribute stream decoder is
      exact and classifies the first offence; vendor framing round trips; the
      dictionary check accepts exactly the legal sets; packets round trip
      within bounds.
    - C18, C19, RADIUS cryptography and policy: hiding is the
      RFC 2865 chain and unhiding reverses it; each validator accepts exactly
      the RFC checksum; signed replies verify; the Message-Authenticator policy
      is exact.
    - C20, C8, datagrams: the cache is bounded and truthful, a request
      is handled at most once per time to live, and under every interleaving a
      datagram is answered at most once, to its source, for an authentic
      request of the client that owns the address.
    - C21, C22, events: the ring refines a bounded list; a client that
      follows the cursor terminates and reads each matching event once;
      subscribers get every exported event in order or are told they were
      dropped.
    - C23, challenges: the State table is bounded and fail-closed; a
      challenge is continued once, by its peer, before it expires.
    - C24, C39, authorization: compilation carries exactly the
      configured rules; the first matching rule decides, in the order user,
      groups by priority and identifier, fallback; the service answers that
      decision for the attributes of the wire and shows nothing sensitive.
    - C27, RADIUS access policy: the engine is the
      configuration, its replies are legal by construction, and the first rule
      that holds decides, with a trace of every rule considered.
    - C28, C29, the accounting journal: under every interleaving of
      handlers an event is committed once per time to live and acknowledged
      exactly while committed; no handler waits for ever.
    - C30, the session index refines one table keyed by endpoint and session.
    - C31, C32, accounting: a record is acknowledged exactly when
      it was stored; the RADIUS handler answers only for events that are
      recorded, duplicate or unsampled and finishes its reservation once; the
      journal's key is the event's identity; counters are exact.
    - C33, client matching: once an index compiles, an address belongs
      to one client of longest prefix and least priority number or to none;
      with certificates a tie is possible only between names of one
      certificate, and is an error, never a guess.
    - C34, C35, C36, credentials: each verification accepts exactly the
      right material of a usable user; CHAP and MS-CHAP accept exactly the
      responses of the RFCs; unknown and unusable users cost the same work and
      answer the same text.  Lemma [Credentials.derive_then_verify]: a derived
      verifier verifies exactly its password.
    - C37, C38, authentication: a conversation follows a reference of four
      phases and ends.
    - C2, C3, RADIUS access: in every execution an
      Access-Accept answers an integrity-checked request and rests on a
      credential verified for that request or in the EAP conversation of that
      client and peer, and every request is answered; the decision itself is
      exact, legal and blind to secrets.
    - C40, PEAP: framing round trips, flights are reassembled
      whole, buffers are bounded; so is the registry (Lemma
      [Peap.registry_bounded]).
    - C1, the whole TACACS+ server: a PASS on the wire rests on a
      credential verified in that conversation and on a published change where
      one is due, a permission on the published policy, a SUCCESS on a stored
      record; no conversation outlives its session (Lemma
      [TacacsBridge.conversation_has_session]).
    - C25, the configuration: validation accepts exactly the well-formed
      documents and is idempotent.
    - C26, patches: a patch gives what it names and keeps the rest, and
      leaves no duty or endpoint without its credential.
    - C5, C4, the state manager: every state reached is coherent, and a
      call is a transaction that fails without effect or changes the published
      view as it says under the next revision.
    - C7, tokens: a bearer is let in exactly when it is the
      credential of a live token, and a credential generation stands for one
      credential along any history.
    - C6, the manager behind the protocols: the users whose
      passwords are accepted, the verifier checked after a change and the
      clients of the RADIUS listener are those of the published state.

    ** Fuel and bounds

    Recursions over octets that are not structural take fuel from the input:
    the attribute decoders one unit per octet (each step consumes two at
    least), the pad loop one unit per octet of the body (each step adds
    sixteen), password blocks one unit per octet.  The theorems are stated for
    the functions as called, so they include that the fuel suffices
    (C12, C15, C17, C18); [read_all] of the event ring is given one unit more
    than the number of matching events and proved to return.  Integers that Go
    keeps in [byte], [uint16], [uint32] and [uint64] are reduced where the code
    converts or wraps; [int] values that count octets in memory are not
    reduced.  The ring's identifiers are stated for fewer than 2^64 - 1 events, the credential generations for histories of
    fewer than 2^64 calls.  [classes_fuel] takes one unit per octet of a
    secret (Lemma [SecretSpec.classes_fuel_enough]).

    ** What is not modelled

    Sockets, TLS handshakes, deadlines, contexts, metrics, key wiping and
    logging have no effect on the modelled results.  Time is a parameter of
    each step, as are entropy and the secret files.  Maps are iterated in some
    order; the results do not depend on it.  Text added to error values is
    dropped where only the error's identity is used.  Code outside the
    repository is a parameter: Argon2id, MD4 and the PRECIS username profile of
    the credentials, regular expressions, the time-zone database and address
    text in the policy compiler (client matching parses addresses itself).
    Nil receivers are not modelled.  Reading a configuration file (YAML, its
    normalization and defaults, file permissions) is not modelled: the document
    it gives is the input.  The state manager takes the hash of a document and
    of an overlay, the dictionary compiled from the operator's files and the
    PRECIS profile as parameters; it keeps no compile warnings.

    The REST, OpenAPI and MCP adapters, the embedded UI and the command line
    are outside this library. *)

From Stdlib Require Export ZArith Lia Bool.
From stdpp Require Export base list option numbers.

#[global] Open Scope Z_scope.

(** ** Machine integers and byte sequences

    A Go [byte], [uint16] or [uint32] is a [Z] in range; a [[]byte] or a Go
    [string] (an immutable byte sequence) is a list of such [Z].  A nil slice
    and an empty slice are both [[]]: no modelled code tells them apart. *)

Abbreviation bytes := (list Z).

(** Go's [len], an [int]. *)
Definition len {A} (l : list A) : Z := Z.of_nat (length l).

(** The conversions [byte(x)], [uint16(x)] and [uint32(x)] truncate. *)
Definition to_u8 (x : Z) : Z := x mod 256.
Definition to_u16 (x : Z) : Z := x mod 65536.
Definition to_u32 (x : Z) : Z := x mod 4294967296.

Definition is_u8 (x : Z) : Prop := 0 <= x < 256.
Definition is_u16 (x : Z) : Prop := 0 <= x < 65536.
Definition is_u32 (x : Z) : Prop := 0 <= x < 4294967296.

#[export] Instance is_u8_dec x : Decision (is_u8 x).
Proof. unfold is_u8. apply _. Defined.
#[export] Instance is_u16_dec x : Decision (is_u16 x).
Proof. unfold is_u16. apply _. Defined.
#[export] Instance is_u32_dec x : Decision (is_u32 x).
Proof. unfold is_u32. apply _. Defined.

(** Byte-sequence equality, [bytes.Equal] and [==] on Go strings. *)
Definition bytes_eqb (a b : bytes) : bool := bool_decide (a = b).

(** [encoding/binary.BigEndian]: the readers take exactly the octets they
    use, the writers return them. *)
Definition be_u16 (b0 b1 : Z) : Z := Z.lor b1 (Z.shiftl b0 8).
Definition be_u32 (b0 b1 b2 b3 : Z) : Z :=
  Z.lor (Z.lor (Z.lor b3 (Z.shiftl b2 8)) (Z.shiftl b1 16)) (Z.shiftl b0 24).
Definition put_u16 (v : Z) : bytes := [to_u8 (Z.shiftr v 8); to_u8 v].
Definition put_u32 (v : Z) : bytes :=
  [to_u8 (Z.shiftr v 24); to_u8 (Z.shiftr v 16); to_u8 (Z.shiftr v 8); to_u8 v].

#[global] Arguments len : simpl never.
#[global] Arguments be_u16 : simpl never.
#[global] Arguments be_u32 : simpl never.
#[global] Arguments put_u16 : simpl never.
#[global] Arguments put_u32 : simpl never.
#[global] Arguments to_u8 : simpl never.

(** The slice expression [p[a:b]]; every modelled use is guarded so that
    [0 <= a <= b <= len p], where Go does not panic. *)
Definition slice {A} (p : list A) (a b : Z) : list A :=
  take (Z.to_nat (b - a)) (drop (Z.to_nat a) p).

(** The indexed read [p[i]], guarded in the same way. *)
Definition index (p : bytes) (i : Z) : Z := nth (Z.to_nat i) p 0.

(** [make([]byte, n)] and the builtin [copy(dst, src)]. *)
Definition make_bytes (n : Z) : bytes := replicate (Z.to_nat n) 0.
Definition copy_bytes (dst src : bytes) : bytes :=
  take (length dst) src ++ drop (length src) dst.

(** The in-place writes [b[i] = v] and [copy(b[off:], src)] on a buffer that
    no other slice aliases; every modelled use is in range. *)
Definition set_at (b : bytes) (i v : Z) : bytes := <[Z.to_nat i := v]> b.
Definition copy_at (b : bytes) (off : Z) (src : bytes) : bytes :=
  take (Z.to_nat off) b ++ copy_bytes (drop (Z.to_nat off) b) src.

(** [copy(b[lo:hi], src)] *)
Definition copy_range (b : bytes) (lo hi : Z) (src : bytes) : bytes :=
  take (Z.to_nat lo) b ++ copy_bytes (slice b lo hi) src ++ drop (Z.to_nat hi) b.

(** ** Fallible code

    A Go function that returns [(T, error)] with the zero value of [T] on
    every error path is a [result]; a function that returns a useful value
    next to an error returns the pair.  Error values are the sentinel of
    the package: the text [fmt.Errorf("%w: ...")] adds is not kept. *)
Inductive result (E A : Type) : Type :=
| Ok (a : A)
| Err (e : E).
Arguments Ok {E A} a.
Arguments Err {E A} e.

Definition rbind {E A B} (m : result E A) (k : A -> result E B) : result E B :=
  match m with Ok a => k a | Err e => Err e end.

(** [if err := cond; err != nil { return err }] *)
Definition guard {E} (b : bool) (e : E) : result E unit :=
  if b then Ok tt else Err e.

Definition is_ok {E A} (m : result E A) : bool :=
  match m with Ok _ => true | Err _ => false end.

#[export] Instance result_eq_dec {E A} `{EqDecision E, EqDecision A} :
  EqDecision (result E A).
Proof. solve_decision. Defined.

Declare Scope go_scope.
Delimit Scope go_scope with go.
Notation "'let!' x ':=' m 'in' k" := (rbind m (fun x => k))
  (at level 10, x pattern, m at level 100, k at level 200,
   format "'[v' 'let!'  x  ':='  m  'in' '/' k ']'") : go_scope.
Notation "m ';!' k" := (rbind m (fun _ => k))
  (at level 199, right associativity) : go_scope.
#[global] Open Scope go_scope.

(** ** Lemmas on [result] *)

(** [injection] would also simplify the two sides. *)
Lemma Ok_inj {E A} (a b : A) : @Ok E A a = Ok b -> a = b.
Proof. congruence. Qed.

Lemma rbind_Ok {E A B} (m : result E A) (k : A -> result E B) (b : B) :
  rbind m k = Ok b <-> exists a, m = Ok a /\ k a = Ok b.
Proof. destruct m; simpl; naive_solver. Qed.

Lemma rbind_Err {E A B} (m : result E A) (k : A -> result E B) (e : E) :
  rbind m k = Err e <-> m = Err e \/ exists a, m = Ok a /\ k a = Err e.
Proof. destruct m; simpl; naive_solver. Qed.

Lemma rbind_assoc {E A B C} (m : result E A) (f : A -> result E B) (g : B -> result E C) :
  rbind (rbind m f) g = rbind m (fun a => rbind (f a) g).
Proof. by destruct m. Qed.

Lemma guard_Ok {E} b (e : E) u : guard b e = Ok u <-> b = true.
Proof. destruct b, u; simpl; naive_solver. Qed.

Lemma guard_Err {E} b (e e' : E) : guard b e = Err e' <-> b = false /\ e' = e.
Proof. destruct b; simpl; naive_solver. Qed.

(** ** Lemmas on lengths *)

Lemma len_nil {A} : len (@nil A) = 0.
Proof. done. Qed.
Lemma len_cons {A} (x : A) l : len (x :: l) = 1 + len l.
Proof. unfold len. rewrite length_cons. lia. Qed.
Lemma len_app {A} (l k : list A) : len (l ++ k) = len l + len k.
Proof. unfold len. rewrite length_app, Nat2Z.inj_add. done. Qed.
Lemma len_snoc {A} (l : list A) x : len (l ++ [x]) = len l + 1.
Proof. rewrite len_app, len_cons, len_nil. lia. Qed.
Lemma len_nonneg {A} (l : list A) : 0 <= len l.
Proof. unfold len; lia. Qed.
Lemma len_zero {A} (l : list A) : len l = 0 <-> l = [].
Proof. unfold len; destruct l; simpl; split; intros; (done || lia). Qed.
Lemma len_to_nat {A} (l : list A) : Z.to_nat (len l) = length l.
Proof. unfold len; lia. Qed.
Lemma len_take {A} (l : list A) n :
  0 <= n <= len l -> len (take (Z.to_nat n) l) = n.
Proof. unfold len; rewrite length_take; lia. Qed.
Lemma len_drop {A} (l : list A) n :
  0 <= n <= len l -> len (drop (Z.to_nat n) l) = len l - n.
Proof. unfold len; rewrite length_drop; lia. Qed.

Create HintDb taclab.
#[export] Hint Resolve len_nonneg : taclab.
Create Rewrite HintDb len.
Lemma len_put_u16 v : len (put_u16 v) = 2.
Proof. done. Qed.
Lemma len_put_u32 v : len (put_u32 v) = 4.
Proof. done. Qed.
#[export] Hint Rewrite @len_nil @len_cons @len_app @len_to_nat len_put_u16 len_put_u32 : len.

Lemma slice_app_mid {A} (a b c : list A) :
  slice (a ++ b ++ c) (len a) (len a + len b) = b.
Proof.
  unfold slice. replace (len a + len b - len a) with (len b) by lia.
  rewrite !len_to_nat, drop_app_length, take_app_length. done.
Qed.

Lemma slice_0 {A} (p : list A) n : slice p 0 n = take (Z.to_nat n) p.
Proof. unfold slice. by rewrite Z.sub_0_r. Qed.

Lemma slice_all {A} (p : list A) : slice p 0 (len p) = p.
Proof. unfold slice. rewrite Z.sub_0_r, len_to_nat. simpl. by rewrite firstn_all. Qed.

Lemma len_slice {A} (p : list A) a b : 0 <= a <= b -> b <= len p -> len (slice p a b) = b - a.
Proof. unfold slice, len. intros. rewrite length_take, length_drop. lia. Qed.

Lemma len_make_bytes n : 0 <= n -> len (make_bytes n) = n.
Proof. unfold len, make_bytes. rewrite length_replicate. lia. Qed.

Lemma copy_bytes_full dst src : len dst = len src -> copy_bytes dst src = src.
Proof.
  unfold len, copy_bytes. intros H%Nat2Z.inj. rewrite H, firstn_all.
  rewrite <- H, drop_all. apply app_nil_r.
Qed.

Lemma len_copy_bytes dst src : len (copy_bytes dst src) = len dst.
Proof. unfold len, copy_bytes. rewrite length_app, length_take, length_drop. lia. Qed.

(** Writes at the boundary of a prefix leave the prefix alone. *)
Lemma set_at_app a x b v : set_at (a ++ x :: b) (len a) v = a ++ v :: b.
Proof.
  unfold set_at. rewrite len_to_nat.
  replace (length a) with (length a + 0)%nat by lia. by rewrite insert_app_r.
Qed.
Lemma copy_at_app a b src : copy_at (a ++ b) (len a) src = a ++ copy_bytes b src.
Proof. unfold copy_at. by rewrite len_to_nat, take_app_length, drop_app_length. Qed.
Lemma copy_bytes_app b c src : len b = len src -> copy_bytes (b ++ c) src = src ++ c.
Proof.
  unfold len, copy_bytes. intros H%Nat2Z.inj. rewrite length_app, <- H.
  rewrite take_ge by lia. by rewrite drop_app_length.
Qed.
Lemma copy_range_app a b c src :
  len src = len b -> copy_range (a ++ b ++ c) (len a) (len a + len b) src = a ++ src ++ c.
Proof.
  intros H. unfold copy_range. rewrite slice_app_mid, len_to_nat, take_app_length.
  f_equal. rewrite copy_bytes_full by done. f_equal.
  rewrite app_assoc. replace (len a + len b) with (len (a ++ b)) by apply len_app.
  by rewrite len_to_nat, drop_app_length.
Qed.
Lemma make_bytes_add m n : 0 <= m -> 0 <= n -> make_bytes (m + n) = make_bytes m ++ make_bytes n.
Proof. intros. unfold make_bytes. rewrite Z2Nat.inj_add by lia. apply replicate_add. Qed.
Lemma index_app_len a x b : index (a ++ x :: b) (len a) = x.
Proof. unfold index. rewrite len_to_nat, app_nth2 by lia. by rewrite Nat.sub_diag. Qed.
Lemma index_app_len_1 a x y b : index (a ++ x :: y :: b) (len a + 1) = y.
Proof.
  unfold index. rewrite Z2Nat.inj_add by (pose proof (len_nonneg a); lia).
  rewrite len_to_nat, app_nth2 by lia.
  by replace (length a + Z.to_nat 1 - length a)%nat with 1%nat by lia.
Qed.

(** An invariant of one step is an invariant of a run. *)
Lemma fold_left_invariant {A B} (f : A -> B -> A) (P : A -> Prop) (Q : B -> Prop) l a :
  P a -> (forall a b, P a -> Q b -> P (f a b)) -> Forall Q l -> P (fold_left f l a).
Proof.
  intros Ha Hstep Hl. revert a Ha. induction Hl as [|b l Hb Hl IH]; simpl; auto.
Qed.

(** ** Lemmas on machine integers *)

Lemma land_shiftl_low x y n : 0 <= n -> 0 <= x < 2 ^ n -> Z.land x (Z.shiftl y n) = 0.
Proof.
  intros Hn Hx. apply Z.bits_inj'; intros i Hi. rewrite Z.land_spec, Z.bits_0.
  destruct (Z_lt_le_dec i n).
  - rewrite Z.shiftl_spec_low by done. apply andb_false_r.
  - rewrite <- (Z.mod_small x (2 ^ n)) by done.
    rewrite Z.mod_pow2_bits_high by lia. done.
Qed.

Lemma lor_shiftl_add x y n : 0 <= n -> 0 <= x < 2 ^ n -> Z.lor x (Z.shiftl y n) = x + y * 2 ^ n.
Proof.
  intros Hn Hx. pose proof (land_shiftl_low x y n Hn Hx) as H.
  rewrite <- Z.lxor_lor, <- Z.add_nocarry_lxor by done.
  by rewrite Z.shiftl_mul_pow2.
Qed.

Lemma be_u16_add b0 b1 : is_u8 b1 -> be_u16 b0 b1 = b0 * 256 + b1.
Proof. unfold is_u8, be_u16. intros. rewrite lor_shiftl_add; lia. Qed.

Lemma be_u32_add b0 b1 b2 b3 :
  is_u8 b1 -> is_u8 b2 -> is_u8 b3 ->
  be_u32 b0 b1 b2 b3 = b0 * 16777216 + b1 * 65536 + b2 * 256 + b3.
Proof.
  unfold is_u8, be_u32. intros.
  rewrite (lor_shiftl_add b3 b2 8) by lia.
  rewrite (lor_shiftl_add _ b1 16) by lia.
  rewrite (lor_shiftl_add _ b0 24) by lia. lia.
Qed.

(** Linear arithmetic with [/] and [mod] by constants. *)
Ltac mod_lia := Z.to_euclidean_division_equations; lia.

Lemma to_u8_range x : is_u8 (to_u8 x).
Proof. unfold is_u8, to_u8. mod_lia. Qed.
Lemma to_u8_id x : is_u8 x -> to_u8 x = x.
Proof. unfold is_u8, to_u8. mod_lia. Qed.
Lemma to_u16_id x : is_u16 x -> to_u16 x = x.
Proof. unfold is_u16, to_u16. mod_lia. Qed.
Lemma to_u32_id x : is_u32 x -> to_u32 x = x.
Proof. unfold is_u32, to_u32. mod_lia. Qed.
#[export] Hint Resolve to_u8_range : taclab.

Lemma put_u16_bytes v : Forall is_u8 (put_u16 v).
Proof. unfold put_u16. repeat constructor; apply to_u8_range. Qed.
Lemma put_u32_bytes v : Forall is_u8 (put_u32 v).
Proof. unfold put_u32. repeat constructor; apply to_u8_range. Qed.

Lemma be_put_u16 v : is_u16 v -> be_u16 (to_u8 (Z.shiftr v 8)) (to_u8 v) = v.
Proof.
  intros Hv. rewrite be_u16_add by apply to_u8_range.
  rewrite Z.shiftr_div_pow2 by lia. unfold is_u16, to_u8 in *.
  change (2 ^ 8) with 256. mod_lia.
Qed.

Lemma be_put_u32 v :
  is_u32 v ->
  be_u32 (to_u8 (Z.shiftr v 24)) (to_u8 (Z.shiftr v 16)) (to_u8 (Z.shiftr v 8)) (to_u8 v) = v.
Proof.
  intros Hv. rewrite be_u32_add by apply to_u8_range.
  rewrite !Z.shiftr_div_pow2 by lia. unfold is_u32, to_u8 in *.
  change (2 ^ 8) with 256; change (2 ^ 16) with 65536; change (2 ^ 24) with 16777216.
  mod_lia.
Qed.

Lemma put_be_u16 b0 b1 : is_u8 b0 -> is_u8 b1 -> put_u16 (be_u16 b0 b1) = [b0; b1].
Proof.
  intros H0 H1. unfold put_u16. rewrite be_u16_add by done.
  rewrite Z.shiftr_div_pow2 by lia. unfold is_u8, to_u8 in *.
  change (2 ^ 8) with 256. repeat f_equal; mod_lia.
Qed.

Lemma put_be_u32 b0 b1 b2 b3 :
  is_u8 b0 -> is_u8 b1 -> is_u8 b2 -> is_u8 b3 ->
  put_u32 (be_u32 b0 b1 b2 b3) = [b0; b1; b2; b3].
Proof.
  intros H0 H1 H2 H3. unfold put_u32. rewrite be_u32_add by done.
  rewrite !Z.shiftr_div_pow2 by lia. unfold is_u8, to_u8 in *.
  change (2 ^ 8) with 256; change (2 ^ 16) with 65536; change (2 ^ 24) with 16777216.
  repeat f_equal; mod_lia.
Qed.

Lemma be_u16_range b0 b1 : is_u8 b0 -> is_u8 b1 -> is_u16 (be_u16 b0 b1).
Proof. intros H0 H1. rewrite be_u16_add by done. unfold is_u8, is_u16 in *. lia. Qed.
Lemma be_u32_range b0 b1 b2 b3 :
  is_u8 b0 -> is_u8 b1 -> is_u8 b2 -> is_u8 b3 -> is_u32 (be_u32 b0 b1 b2 b3).
Proof. intros. rewrite be_u32_add by done. unfold is_u8, is_u32 in *. lia. Qed.
#[export] Hint Resolve be_u16_range be_u32_range : taclab.

Lemma bytes_eqb_true a b : bytes_eqb a b = true <-> a = b.
Proof. unfold bytes_eqb. apply bool_decide_eq_true. Qed.

(** ** Tactics *)

(** Turn boolean tests in the context into propositions. *)
Ltac bool_hyps :=
  repeat match goal with
  | H : _ && _ = true |- _ => apply andb_true_iff in H; destruct H
  | H : _ || _ = false |- _ => apply orb_false_iff in H; destruct H
  | H : negb _ = true |- _ => apply negb_true_iff in H
  | H : negb _ = false |- _ => apply negb_false_iff in H
  | H : (_ =? _)%Z = true |- _ => apply Z.eqb_eq in H
  | H : (_ =? _)%Z = false |- _ => apply Z.eqb_neq in H
  | H : (_ <? _)%Z = true |- _ => apply Z.ltb_lt in H
  | H : (_ <? _)%Z = false |- _ => apply Z.ltb_ge in H
  | H : (_ <=? _)%Z = true |- _ => apply Z.leb_le in H
  | H : (_ <=? _)%Z = false |- _ => apply Z.leb_gt in H
  | H : bytes_eqb _ _ = true |- _ => apply bytes_eqb_true in H
  | H : bool_decide _ = true |- _ => apply bool_decide_eq_true in H
  | H : bool_decide _ = false |- _ => apply bool_decide_eq_false in H
  end.

(** Invert a chain of fallible steps that is known to succeed. *)
Ltac ok_steps :=
  repeat match goal with
  | H : rbind _ _ = Ok _ |- _ => apply rbind_Ok in H; destruct H as (? & ? & H)
  | H : guard _ _ = Ok _ |- _ => apply guard_Ok in H
  | H : Ok _ = Ok _ |- _ => injection H as H
  | H : Err _ = Ok _ |- _ => discriminate H
  | H : Ok _ = Err _ |- _ => discriminate H
  | H : None = Some _ |- _ => discriminate H
  | H : Some _ = None |- _ => discriminate H
  | H : Some _ = Some _ |- _ => injection H as H
  | H : (if ?b then _ else _) = Ok _ |- _ => destruct b eqn:?
  end.

(** Split [Forall] over cons and append. *)
Ltac forall_hyps :=
  repeat match goal with
  | H : Forall _ (_ :: _) |- _ => apply Forall_cons_1 in H; destruct H
  | H : Forall _ (_ ++ _) |- _ => apply Forall_app in H; destruct H
  end.

(** Length arithmetic: push [len] through the list constructors, record that
    every length is non-negative, then [lia]. *)
Ltac len_pos l :=
  lazymatch goal with
  | _ : 0 <= len l |- _ => fail
  | _ => pose proof (len_nonneg l)
  end.
Ltac len_lia :=
  autorewrite with len in *;
  repeat match goal with
  | |- context [len ?l] => len_pos l
  | H : context [len ?l] |- _ => len_pos l
  end; lia.

(** Decide a closed decidable proposition by evaluation. *)
Ltac decide_now := apply (bool_decide_unpack _); vm_compute; exact I.
