(* ===== verification/Md5.v ===== *)
(** MD5 and HMAC-MD5 as the Go standard library computes them (crypto/md5,
    crypto/hmac), executable, with the RFC 1321 and RFC 2202 vectors checked. The
    TACACS+ and RADIUS components use [md5] and [hmac_md5]; what they
    prove of them is their output shape. *)

From S2P Require Import Prelude.

Definition md5_Size : Z := 16.
Definition md5_BlockSize : nat := 64.

(** ** 32-bit words *)

Definition add32 (x y : Z) : Z := to_u32 (x + y).
Definition not32 (x : Z) : Z := 4294967295 - x.
Definition rotl32 (x s : Z) : Z := Z.lor (to_u32 (Z.shiftl x s)) (Z.shiftr x (32 - s)).

(** Little-endian octets. *)
Fixpoint le_bytes (n : nat) (x : Z) : bytes :=
  match n with O => [] | S n' => to_u8 x :: le_bytes n' (Z.shiftr x 8) end.
Fixpoint le_word (l : bytes) : Z :=
  match l with [] => 0 | b :: l' => b + 256 * le_word l' end.

(** Cut a list into pieces of [n]. *)
Fixpoint chunks {A} (fuel n : nat) (l : list A) : list (list A) :=
  match fuel, l with
  | O, _ | _, [] => []
  | S fuel', _ => take n l :: chunks fuel' n (drop n l)
  end.

(** ** The compression function *)

Definition md5_K : list Z :=
  [3614090360; 3905402710; 606105819; 3250441966; 4118548399; 1200080426; 2821735955; 4249261313;
   1770035416; 2336552879; 4294925233; 2304563134; 1804603682; 4254626195; 2792965006; 1236535329;
   4129170786; 3225465664; 643717713; 3921069994; 3593408605; 38016083; 3634488961; 3889429448;
   568446438; 3275163606; 4107603335; 1163531501; 2850285829; 4243563512; 1735328473; 2368359562;
   4294588738; 2272392833; 1839030562; 4259657740; 2763975236; 1272893353; 4139469664; 3200236656;
   681279174; 3936430074; 3572445317; 76029189; 3654602809; 3873151461; 530742520; 3299628645;
   4096336452; 1126891415; 2878612391; 4237533241; 1700485571; 2399980690; 4293915773; 2240044497;
   1873313359; 4264355552; 2734768916; 1309151649; 4149444226; 3174756917; 718787259; 3951481745].

Definition md5_shift (i : Z) : Z :=
  nth (Z.to_nat (4 * (i / 16) + i mod 4)) [7; 12; 17; 22; 5; 9; 14; 20; 4; 11; 16; 23; 6; 10; 15; 21] 0.

Record md5_state : Type := mkMd5 { m_a : Z; m_b : Z; m_c : Z; m_d : Z }.

Definition md5_init : md5_state := mkMd5 1732584193 4023233417 2562383102 271733878.

Definition md5_step (block : list Z) (st : md5_state) (i : Z) : md5_state :=
  let '(mkMd5 a b c d) := st in
  let '(f, g) :=
    if i <? 16 then (Z.lor (Z.land b c) (Z.land (not32 b) d), i)
    else if i <? 32 then (Z.lor (Z.land d b) (Z.land (not32 d) c), (5 * i + 1) mod 16)
    else if i <? 48 then (Z.lxor (Z.lxor b c) d, (3 * i + 5) mod 16)
    else (Z.lxor c (Z.lor b (not32 d)), (7 * i) mod 16) in
  let f := add32 (add32 (add32 f a) (nth (Z.to_nat i) md5_K 0)) (nth (Z.to_nat g) block 0) in
  mkMd5 d (add32 b (rotl32 f (md5_shift i))) b c.

Definition md5_block (st : md5_state) (chunk : bytes) : md5_state :=
  let block := map le_word (chunks 16 4 chunk) in
  let st' := fold_left (md5_step block) (map Z.of_nat (seq 0 64)) st in
  mkMd5 (add32 (m_a st) (m_a st')) (add32 (m_b st) (m_b st'))
        (add32 (m_c st) (m_c st')) (add32 (m_d st) (m_d st')).

Definition md5_pad (msg : bytes) : bytes :=
  msg ++ [128] ++ replicate (Z.to_nat ((55 - len msg) mod 64)) 0 ++ le_bytes 8 (8 * len msg).

(** [md5.Sum] *)
Definition md5 (msg : bytes) : bytes :=
  let padded := md5_pad msg in
  let st := fold_left md5_block (chunks (length padded) md5_BlockSize padded) md5_init in
  le_bytes 4 (m_a st) ++ le_bytes 4 (m_b st) ++ le_bytes 4 (m_c st) ++ le_bytes 4 (m_d st).

(** ** HMAC-MD5 *)

Definition hmac_key (key : bytes) : bytes :=
  let key := if (Z.of_nat md5_BlockSize <? len key) then md5 key else key in
  key ++ replicate (md5_BlockSize - length key) 0.

Definition hmac_md5 (key msg : bytes) : bytes :=
  let k := hmac_key key in
  md5 (map (Z.lxor 92) k ++ md5 (map (Z.lxor 54) k ++ msg)).

(** ** Lemmas *)

Lemma length_le_bytes n x : length (le_bytes n x) = n.
Proof. revert x. induction n; simpl; auto. Qed.

Lemma le_bytes_range n x : Forall is_u8 (le_bytes n x).
Proof. revert x. induction n; simpl; constructor; auto using to_u8_range. Qed.

Lemma len_md5 msg : len (md5 msg) = 16.
Proof. unfold md5, len. by rewrite !length_app, !length_le_bytes. Qed.

Lemma md5_range msg : Forall is_u8 (md5 msg).
Proof. unfold md5. rewrite !Forall_app. split_and!; apply le_bytes_range. Qed.

Lemma len_hmac_md5 key msg : len (hmac_md5 key msg) = 16.
Proof. apply len_md5. Qed.

Lemma hmac_md5_range key msg : Forall is_u8 (hmac_md5 key msg).
Proof. apply md5_range. Qed.

#[export] Hint Rewrite len_md5 len_hmac_md5 : len.
#[export] Hint Resolve md5_range hmac_md5_range : taclab.
#[global] Opaque md5 hmac_md5.

(** ** RFC 1321 and RFC 2202 test vectors *)

Example md5_empty : md5 [] =
  [212; 29; 140; 217; 143; 0; 178; 4; 233; 128; 9; 152; 236; 248; 66; 126].
Proof. vm_compute. reflexivity. Qed.

Example md5_abc : md5 [97; 98; 99] =
  [144; 1; 80; 152; 60; 210; 79; 176; 214; 150; 63; 125; 40; 225; 127; 114].
Proof. vm_compute. reflexivity. Qed.

Example md5_digits : md5 [49; 50; 51; 52; 53; 54; 55; 56; 57; 48; 49; 50; 51; 52; 53; 54; 55; 56; 57; 48; 49; 50; 51; 52; 53; 54; 55; 56; 57; 48; 49; 50; 51; 52; 53; 54; 55; 56; 57; 48; 49; 50; 51; 52; 53; 54; 55; 56; 57; 48; 49; 50; 51; 52; 53; 54; 55; 56; 57; 48; 49; 50; 51; 52; 53; 54; 55; 56; 57; 48; 49; 50; 51; 52; 53; 54; 55; 56; 57; 48] =
  [87; 237; 244; 162; 43; 227; 201; 85; 172; 73; 218; 46; 33; 7; 182; 122].
Proof. vm_compute. reflexivity. Qed.

Example hmac_jefe : hmac_md5 [74; 101; 102; 101]
  [119; 104; 97; 116; 32; 100; 111; 32; 121; 97; 32; 119; 97; 110; 116; 32; 102; 111; 114; 32; 110; 111; 116; 104; 105; 110; 103; 63] =
  [117; 12; 120; 62; 106; 176; 181; 3; 234; 168; 110; 49; 10; 93; 183; 56].
Proof. vm_compute. reflexivity. Qed.

Example hmac_long_key : hmac_md5 (replicate 80 170)
  [84; 101; 115; 116; 32; 85; 115; 105; 110; 103; 32; 76; 97; 114; 103; 101; 114; 32; 84; 104; 97; 110; 32; 66; 108; 111; 99; 107; 45; 83; 105; 122; 101; 32; 75; 101; 121; 32; 45; 32; 72; 97; 115; 104; 32; 75; 101; 121; 32; 70; 105; 114; 115; 116] =
  [107; 26; 183; 254; 75; 215; 191; 143; 11; 98; 230; 206; 97; 185; 208; 205].
Proof. vm_compute. reflexivity. Qed.
