(* ===== verification/TacacsHeader.v ===== *)
(** The TACACS+ common header (internal/tacacs/codec/header.go and the error
    values of errors.go): the record [Header], its decoder and encoder, the body
    budget, whole-packet decoding, the sequence increment and the reply to
    a packet of unknown type. *)

From S2P Require Import Prelude.

(** ** Constants and error values *)

Definition HeaderSize : Z := 12.
Definition MajorVer : Z := 12.
Definition TypeAuthen : Z := 1.
Definition TypeAuthor : Z := 2.
Definition TypeAcct : Z := 3.
Definition FlagUnencrypted : Z := 1.
Definition FlagSingleConnect : Z := 4.
Definition FlagKnownMask : Z := Z.lor FlagUnencrypted FlagSingleConnect.
Definition MaxBodyBytes : Z := 65536.

(** The sentinel errors of the package codec. *)
Inductive codec_error : Type :=
| ErrHeaderShort | ErrUnsupportedMajor | ErrUnknownType | ErrSeqZero | ErrSeqWrap
| ErrBodyTooLarge | ErrBodyShort
| ErrLengthMismatch | ErrNonPrintable | ErrFieldTooLong | ErrTooManyArgs | ErrArgument
| ErrCHAPLength | ErrMSCHAPLength | ErrAcctFlags | ErrFollow
| ErrSeqUnexpected | ErrSeqParity | ErrSessionClosed | ErrSessionMismatch
| ErrPrematurePacket | ErrTooManyContinues | ErrEntropy.

#[export] Instance codec_error_eq_dec : EqDecision codec_error.
Proof. solve_decision. Defined.

(** ** The header *)

Record Header : Type := mkHeader {
  Version : Z;
  Type_ : Z;
  SeqNo : Z;
  Flags : Z;
  SessionID : Z;
  Length : Z
}.

Definition zeroHeader : Header := mkHeader 0 0 0 0 0 0.

#[export] Instance header_eq_dec : EqDecision Header.
Proof. solve_decision. Defined.

(** The field widths of the Go struct. *)
Record wf_header (h : Header) : Prop := {
  wf_version : is_u8 (Version h);
  wf_type : is_u8 (Type_ h);
  wf_seq : is_u8 (SeqNo h);
  wf_flags : is_u8 (Flags h);
  wf_session : is_u32 (SessionID h);
  wf_length : is_u32 (Length h)
}.

Definition VersionByte (minor : Z) : Z := to_u8 (Z.lor (Z.shiftl MajorVer 4) (Z.land minor 15)).
Definition Major (h : Header) : Z := Z.shiftr (Version h) 4.
Definition Minor (h : Header) : Z := Z.land (Version h) 15.

Definition KnownType (h : Header) : bool :=
  (Type_ h =? TypeAuthen) || (Type_ h =? TypeAuthor) || (Type_ h =? TypeAcct).

Definition DecodeHeader (p : bytes) : result codec_error Header :=
  if len p <? HeaderSize then Err ErrHeaderShort
  else Ok {| Version := index p 0; Type_ := index p 1; SeqNo := index p 2; Flags := index p 3;
             SessionID := be_u32 (index p 4) (index p 5) (index p 6) (index p 7);
             Length := be_u32 (index p 8) (index p 9) (index p 10) (index p 11) |}.

Definition Header_Encode (h : Header) : bytes :=
  [Version h; Type_ h; SeqNo h; Flags h] ++ put_u32 (SessionID h) ++ put_u32 (Length h).

Definition set_Flags (f : Z) (h : Header) : Header :=
  mkHeader (Version h) (Type_ h) (SeqNo h) f (SessionID h) (Length h).
Definition set_SeqNo (n : Z) (h : Header) : Header :=
  mkHeader (Version h) (Type_ h) n (Flags h) (SessionID h) (Length h).
Definition set_Length (n : Z) (h : Header) : Header :=
  mkHeader (Version h) (Type_ h) (SeqNo h) (Flags h) (SessionID h) n.
Definition set_Version (v : Z) (h : Header) : Header :=
  mkHeader v (Type_ h) (SeqNo h) (Flags h) (SessionID h) (Length h).

Definition ClearUnknownFlags (h : Header) : Header :=
  set_Flags (Z.land (Flags h) FlagKnownMask) h.

Definition Header_Validate (h : Header) : option codec_error :=
  if negb (Major h =? MajorVer) then Some ErrUnsupportedMajor
  else if SeqNo h =? 0 then Some ErrSeqZero
  else None.

Definition ClampMaxBody (max : Z) : Z :=
  if (max =? 0) || (MaxBodyBytes <? max) then MaxBodyBytes else max.

Definition BodyBudget (h : Header) (max : Z) : Z :=
  let max := ClampMaxBody max in
  if max <? Length h then max else Length h.

Definition AllocateBody (h : Header) (max : Z) : result codec_error bytes :=
  let max := ClampMaxBody max in
  if max <? Length h then Err ErrBodyTooLarge
  else if Length h =? 0 then Ok []
  else Ok (make_bytes (Length h)).

(** The header comes back next to a body error, zero only when it could not
    be decoded. *)
Definition DecodePacket (p : bytes) (max : Z) : Header * result codec_error bytes :=
  match DecodeHeader p with
  | Err e => (zeroHeader, Err e)
  | Ok h =>
      match AllocateBody h max with
      | Err e => (h, Err e)
      | Ok body =>
          let need := HeaderSize + Length h in
          if len p <? need then (h, Err ErrBodyShort)
          else (h, Ok (copy_bytes body (slice p HeaderSize need)))
      end
  end.

Definition NextSeq (seq : Z) : result codec_error Z :=
  if seq =? 0 then Err ErrSeqZero
  else if seq =? 255 then Err ErrSeqWrap
  else Ok (to_u8 (seq + 1)).

Definition UnknownTypeReply (h : Header) : result codec_error Header :=
  let! seq := NextSeq (SeqNo h) in
  Ok (set_Length 0 (set_SeqNo seq h)).

(** [NewSessionID]: the reader is the octets it can still deliver, and
    [io.ReadFull] fails when there are fewer than four. *)
Definition NewSessionID (r : option bytes) : result codec_error Z :=
  match r with
  | None => Err ErrEntropy
  | Some src =>
      if len src <? 4 then Err ErrEntropy
      else Ok (be_u32 (index src 0) (index src 1) (index src 2) (index src 3))
  end.

(** ** Lemmas *)

Lemma NextSeq_Ok n m : is_u8 n -> NextSeq n = Ok m -> m = n + 1 /\ 1 <= n <= 254.
Proof.
  unfold NextSeq, is_u8. intros Hn H. ok_steps. bool_hyps. subst.
  rewrite to_u8_id; unfold is_u8; lia.
Qed.

Lemma ClampMaxBody_bound max : is_u32 max -> 1 <= ClampMaxBody max <= MaxBodyBytes.
Proof.
  unfold ClampMaxBody, is_u32, MaxBodyBytes. intros.
  destruct (_ || _) eqn:E; bool_hyps; lia.
Qed.

(** Twelve octets, named. *)
Lemma take12 (p : bytes) : HeaderSize <= len p ->
  exists b0 b1 b2 b3 b4 b5 b6 b7 b8 b9 b10 b11 rest,
    p = [b0; b1; b2; b3; b4; b5; b6; b7; b8; b9; b10; b11] ++ rest.
Proof.
  unfold HeaderSize, len. intros H.
  do 12 (destruct p as [|? p]; [simpl in H; lia|]). by repeat eexists.
Qed.

Lemma DecodeHeader_cons b0 b1 b2 b3 b4 b5 b6 b7 b8 b9 b10 b11 rest :
  DecodeHeader ([b0; b1; b2; b3; b4; b5; b6; b7; b8; b9; b10; b11] ++ rest) =
  Ok (mkHeader b0 b1 b2 b3 (be_u32 b4 b5 b6 b7) (be_u32 b8 b9 b10 b11)).
Proof.
  unfold DecodeHeader. rewrite len_app. pose proof (len_nonneg rest).
  replace (_ <? HeaderSize) with false; [done|].
  symmetry. apply Z.ltb_ge. unfold HeaderSize.
  change (len [b0; b1; b2; b3; b4; b5; b6; b7; b8; b9; b10; b11]) with 12. lia.
Qed.

Lemma DecodeHeader_encode_app h rest :
  wf_header h -> DecodeHeader (Header_Encode h ++ rest) = Ok h.
Proof.
  intros [? ? ? ? Hs Hl]. unfold Header_Encode, put_u32. simpl.
  pose proof (DecodeHeader_cons (Version h) (Type_ h) (SeqNo h) (Flags h)) as D.
  simpl in D. rewrite D, (be_put_u32 _ Hs), (be_put_u32 _ Hl). by destruct h.
Qed.

Lemma DecodeHeader_inv p h :
  DecodeHeader p = Ok h -> Forall is_u8 p ->
  wf_header h /\ exists rest, p = Header_Encode h ++ rest.
Proof.
  intros H Hp. assert (Hl : HeaderSize <= len p).
  { unfold DecodeHeader in H. ok_steps. by bool_hyps. }
  destruct (take12 p Hl) as (b0&b1&b2&b3&b4&b5&b6&b7&b8&b9&b10&b11&rest&->).
  rewrite DecodeHeader_cons in H. ok_steps; subst.
  apply Forall_app in Hp as [Hp _].
  forall_hyps.
  split; [constructor; simpl; auto with taclab|].
  exists rest. unfold Header_Encode. cbn [Version Type_ SeqNo Flags SessionID Length].
  by rewrite !put_be_u32.
Qed.

Lemma len_Header_Encode h : len (Header_Encode h) = HeaderSize.
Proof. done. Qed.

Lemma AllocateBody_Ok h max body :
  is_u32 (Length h) -> AllocateBody h max = Ok body ->
  len body = Length h /\ Length h <= ClampMaxBody max.
Proof.
  unfold AllocateBody, is_u32. intros Hl H. ok_steps; bool_hyps; subst.
  - rewrite len_nil. lia.
  - rewrite len_make_bytes; lia.
Qed.

(** ** Properties *)

(** The header codec is lossless: encoding a header whose fields fit their
    Go widths yields 12 octets from which [DecodeHeader] recovers it whatever
    follows, and every header decoded from octets re-encodes to the first 12
    of them (header.go, "so a decode/encode round-trip is lossless"). *)
Lemma header_roundtrip (h : Header) (p rest : bytes) :
  (wf_header h ->
   len (Header_Encode h) = HeaderSize /\ DecodeHeader (Header_Encode h ++ rest) = Ok h) /\
  (Forall is_u8 p -> DecodeHeader p = Ok h -> wf_header h /\ take 12 p = Header_Encode h).
Proof.
  split.
  - intros Hw. split; [apply len_Header_Encode|by apply DecodeHeader_encode_app].
  - intros Hp Hd. destruct (DecodeHeader_inv p h Hd Hp) as [Hw [r ->]].
    split; [done|]. by rewrite take_app_length' by done.
Qed.

(** [DecodePacket] is total and bounded: it returns a body only when the
    input holds a header and at least [Length] further octets and [Length] is within
    the clamped budget, which never exceeds 65536; the body is then exactly the
    [Length] octets after the header.  A [Length] above the budget is
    refused before any allocation, even when the octets are there. *)
Lemma DecodePacket_spec (p : bytes) (max : Z) (h : Header) (body : bytes) :
  Forall is_u8 p -> is_u32 max ->
  (DecodePacket p max = (h, Ok body) <->
   exists rest, wf_header h /\ p = Header_Encode h ++ body ++ rest /\
     len body = Length h /\ Length h <= ClampMaxBody max <= MaxBodyBytes).
Proof.
  intros Hp Hmax. pose proof (ClampMaxBody_bound max Hmax). unfold DecodePacket. split.
  - intros H0. destruct (DecodeHeader p) as [h'|] eqn:D; [|done].
    destruct (DecodeHeader_inv p h' D Hp) as [Hw [tl ->]].
    destruct (AllocateBody h' max) as [b|] eqn:A; [|done].
    destruct (AllocateBody_Ok _ _ _ (wf_length _ Hw) A) as [Hb Hc].
    destruct (_ <? _) eqn:Hn; [done|]. bool_hyps.
    assert (h' = h) as -> by congruence.
    assert (copy_bytes b (slice (Header_Encode h ++ tl) HeaderSize (HeaderSize + Length h)) = body)
      as <- by congruence.
    rewrite len_app, len_Header_Encode in Hn.
    assert (Hl : Length h <= len tl) by lia.
    exists (drop (Z.to_nat (Length h)) tl).
    assert (Hs : slice (Header_Encode h ++ tl) HeaderSize (HeaderSize + Length h)
                 = take (Z.to_nat (Length h)) tl).
    { unfold slice. rewrite Z.add_simpl_l. by rewrite <- (len_Header_Encode h), len_to_nat, drop_app_length. }
    destruct (wf_length _ Hw).
    rewrite Hs, copy_bytes_full by (rewrite len_take; lia).
    rewrite take_drop, len_take by lia. split_and!; done || lia.
  - intros (rest & Hw & -> & Hb & Hc).
    rewrite DecodeHeader_encode_app by done.
    destruct (AllocateBody h max) as [b|] eqn:A.
    + destruct (AllocateBody_Ok _ _ _ (wf_length _ Hw) A) as [Hb' _].
      replace (_ <? _) with false by (symmetry; apply Z.ltb_ge; pose proof (len_nonneg rest);
        rewrite !len_app, len_Header_Encode; lia).
      rewrite <- Hb, <- (len_Header_Encode h), slice_app_mid.
      by rewrite copy_bytes_full by congruence.
    + unfold AllocateBody in A. destruct (_ <? _) eqn:E in A; bool_hyps; [lia|].
      by destruct (_ =? _) in A.
Qed.

(** C9. Headers and packets.  The header codec is lossless: a header whose
    fields fit their Go widths is encoded to 12 octets from which
    [DecodeHeader] recovers it whatever follows, and a header decoded from
    octets re-encodes to the first 12 of them.  [DecodePacket] is total and
    bounded: it returns a body exactly when the octets are a header, that body
    and more octets, and [Length] is the body's and within the clamped budget,
    which never exceeds 65536. *)
Theorem packet_framing (p : bytes) :
  (forall h rest, wf_header h -> len (Header_Encode h) = HeaderSize /\ DecodeHeader (Header_Encode h ++ rest) = Ok h)
  /\ (forall h, Forall is_u8 p -> DecodeHeader p = Ok h -> wf_header h /\ take 12 p = Header_Encode h)
  /\ (forall max h body, Forall is_u8 p -> is_u32 max ->
      (DecodePacket p max = (h, Ok body) <->
       exists rest, wf_header h /\ p = Header_Encode h ++ body ++ rest /\
         len body = Length h /\ Length h <= ClampMaxBody max <= MaxBodyBytes)).
Proof.
  split; [intros h rest; exact (proj1 (header_roundtrip h p rest))|].
  split; [intros h; exact (proj2 (header_roundtrip h p []))|]. intros max h body. apply DecodePacket_spec.
Qed.

Lemma packet_framing_witness :
  let h := mkHeader 192 1 1 0 7 2 in
  let p := Header_Encode h ++ [9; 8] ++ [5] in
  DecodePacket p 100 = (h, Ok [9; 8]) /\ Length h <= ClampMaxBody 100 <= MaxBodyBytes.
Proof.
  intros h p.
  assert (Hp : Forall is_u8 p) by decide_now.
  assert (Hm : is_u32 100) by (split; lia).
  assert (Hd : DecodePacket p 100 = (h, Ok [9; 8])) by (vm_compute; reflexivity).
  split; [exact Hd|].
  destruct (proj1 (proj2 (proj2 (packet_framing p)) 100 h [9; 8] Hp Hm) Hd) as (_ & _ & _ & _ & H). exact H.
Defined.

