(* ===== verification/TacacsCursor.v ===== *)
(** Reading and writing TACACS+ body fields (internal/tacacs/codec: cursor.go,
    ascii.go, args.go): the cursor over a body, the length-width checks, the
    printable-text check, and authorization/accounting arguments. *)

From S2P Require Import Prelude TacacsHeader.

(** ** The cursor (cursor.go)

    The reads return the value and the advanced cursor; on an error the
    callers drop the cursor. *)

Record cursor : Type := mkCursor { c_b : bytes; c_off : Z }.

Definition remain (c : cursor) : Z := len (c_b c) - c_off c.

Definition read_u8 (c : cursor) : result codec_error (Z * cursor) :=
  if remain c <? 1 then Err ErrLengthMismatch
  else Ok (index (c_b c) (c_off c), mkCursor (c_b c) (c_off c + 1)).

Definition read_u16 (c : cursor) : result codec_error (Z * cursor) :=
  if remain c <? 2 then Err ErrLengthMismatch
  else Ok (be_u16 (index (c_b c) (c_off c)) (index (c_b c) (c_off c + 1)),
           mkCursor (c_b c) (c_off c + 2)).

Definition read_bytes (n : Z) (c : cursor) : result codec_error (bytes * cursor) :=
  if (n <? 0) || (remain c <? n) then Err ErrLengthMismatch
  else if n =? 0 then Ok ([], c)
  else Ok (slice (c_b c) (c_off c) (c_off c + n), mkCursor (c_b c) (c_off c + n)).

Definition cursor_done (c : cursor) : result codec_error unit :=
  guard (c_off c =? len (c_b c)) ErrLengthMismatch.

Definition u8len (b : bytes) : result codec_error Z :=
  if 255 <? len b then Err ErrFieldTooLong else Ok (to_u8 (len b)).
Definition u16len (b : bytes) : result codec_error Z :=
  if 65535 <? len b then Err ErrFieldTooLong else Ok (to_u16 (len b)).
Definition checkBodyCap (n : Z) : result codec_error unit :=
  if (n <? 0) || (MaxBodyBytes <? n) then Err ErrBodyTooLarge else Ok tt.

(** ** Printable text (ascii.go) *)

Fixpoint PrintableASCII (b : bytes) : bool :=
  match b with
  | [] => true
  | c :: b' => if (c <? 32) || (126 <? c) then false else PrintableASCII b'
  end.

Definition requirePrintable (b : bytes) : result codec_error unit :=
  if PrintableASCII b then Ok tt else Err ErrNonPrintable.

(** ** Arguments (args.go) *)

Definition ArgSepMandatory : Z := 61. (* '=' *)
Definition ArgSepOptional : Z := 42.  (* '*' *)

Record Argument : Type := mkArgument { arg_Name : bytes; Separator : Z; arg_Value : bytes }.

#[export] Instance argument_eq_dec : EqDecision Argument.
Proof. solve_decision. Defined.

Definition is_sep (c : Z) : bool := (c =? ArgSepMandatory) || (c =? ArgSepOptional).

Fixpoint containsArgSep (s : bytes) : bool :=
  match s with
  | [] => false
  | c :: s' => if is_sep c then true else containsArgSep s'
  end.

Definition Argument_Encode (a : Argument) : result codec_error bytes :=
  if bytes_eqb (arg_Name a) [] then Err ErrArgument
  else if containsArgSep (arg_Name a) then Err ErrArgument
  else if negb (is_sep (Separator a)) then Err ErrArgument
  else
    let n := len (arg_Name a) + 1 + len (arg_Value a) in
    if (n <? 2) || (255 <? n) then Err ErrFieldTooLong
    else
      let out := arg_Name a ++ Separator a :: arg_Value a in
      let! _ := requirePrintable out in
      Ok out.

(** The [range] loop of [ParseArgument]: index and value of the first
    separator, counting from [i]. *)
Fixpoint find_sep (i : Z) (raw : bytes) : option (Z * Z) :=
  match raw with
  | [] => None
  | c :: raw' => if is_sep c then Some (i, c) else find_sep (i + 1) raw'
  end.

(** [Ok None] is the source's [ok=false] with a nil error. *)
Definition ParseArgument (raw : bytes) : result codec_error (option Argument) :=
  if len raw =? 0 then Ok None
  else
    let! _ := requirePrintable raw in
    match find_sep 0 raw with
    | None => Err ErrArgument
    | Some (sep, kind) =>
        if sep <=? 0 then Err ErrArgument
        else Ok (Some (mkArgument (slice raw 0 sep) kind (slice raw (sep + 1) (len raw))))
    end.

Fixpoint encodeArgs_loop (args : list Argument) (lens payload : bytes)
  : result codec_error (bytes * bytes) :=
  match args with
  | [] => Ok (lens, payload)
  | a :: args' =>
      let! raw := Argument_Encode a in
      encodeArgs_loop args' (lens ++ [to_u8 (len raw)]) (payload ++ raw)
  end.

Definition encodeArgList (args : list Argument) : result codec_error (bytes * bytes) :=
  if 255 <? len args then Err ErrTooManyArgs else encodeArgs_loop args [] [].

Fixpoint readLens_loop (n : nat) (c : cursor) : result codec_error (bytes * cursor) :=
  match n with
  | O => Ok ([], c)
  | S n' =>
      let! (v, c) := read_u8 c in
      let! (vs, c) := readLens_loop n' c in
      Ok (v :: vs, c)
  end.

Definition readArgLens (n : Z) (c : cursor) : result codec_error (bytes * cursor) :=
  if (n <? 0) || (255 <? n) then Err ErrTooManyArgs
  else if remain c <? n then Err ErrLengthMismatch
  else readLens_loop (Z.to_nat n) c.

Fixpoint readArgs (lens : bytes) (c : cursor) : result codec_error (list Argument * cursor) :=
  match lens with
  | [] => Ok ([], c)
  | ln :: lens' =>
      let! (raw, c) := read_bytes ln c in
      let! a := ParseArgument raw in
      let! (out, c) := readArgs lens' c in
      Ok (match a with Some a => a :: out | None => out end, c)
  end.

(** ** The cursor as a position in [pre ++ suf]

    Every cursor of the decoders is [cur pre suf]: [pre] has been read, [suf]
    has not.  The lemmas below run each read forwards ([_cur]) and invert a
    read that succeeded ([_inv]). *)

Definition cur (pre suf : bytes) : cursor := mkCursor (pre ++ suf) (len pre).

Lemma cur_nil p : mkCursor p 0 = cur [] p.
Proof. done. Qed.

Lemma remain_cur pre suf : remain (cur pre suf) = len suf.
Proof. unfold remain, cur; simpl. rewrite len_app. lia. Qed.

Lemma index_cur (pre suf : bytes) i : 0 <= i -> index (pre ++ suf) (len pre + i) = index suf i.
Proof.
  intros Hi. unfold index, len. rewrite app_nth2 by lia. f_equal. lia.
Qed.

Lemma slice_cur (pre suf : bytes) n : 0 <= n ->
  slice (pre ++ suf) (len pre) (len pre + n) = take (Z.to_nat n) suf.
Proof.
  intros Hn. unfold slice. rewrite len_to_nat, drop_app_length.
  by replace (len pre + n - len pre) with n by lia.
Qed.

Lemma cur_snoc pre xs suf : mkCursor (pre ++ xs ++ suf) (len pre + len xs) = cur (pre ++ xs) suf.
Proof. unfold cur. by rewrite <- app_assoc, len_app. Qed.

Lemma read_u8_cur pre x suf : read_u8 (cur pre (x :: suf)) = Ok (x, cur (pre ++ [x]) suf).
Proof.
  unfold read_u8. rewrite remain_cur, len_cons.
  destruct (_ <? 1) eqn:E; bool_hyps; [pose proof (len_nonneg suf); lia|].
  rewrite <- cur_snoc. simpl. f_equal. f_equal.
  rewrite <- (Z.add_0_r (len pre)). by rewrite index_cur.
Qed.

Lemma read_u16_cur pre x y suf :
  read_u16 (cur pre (x :: y :: suf)) = Ok (be_u16 x y, cur (pre ++ [x; y]) suf).
Proof.
  unfold read_u16. rewrite remain_cur, !len_cons.
  destruct (_ <? 2) eqn:E; bool_hyps; [pose proof (len_nonneg suf); lia|].
  rewrite <- cur_snoc. simpl. f_equal. f_equal.
  rewrite index_cur by lia. rewrite <- (Z.add_0_r (len pre)) at 1. by rewrite index_cur.
Qed.

Lemma read_put_u16_cur pre v suf : is_u16 v ->
  read_u16 (cur pre (put_u16 v ++ suf)) = Ok (v, cur (pre ++ put_u16 v) suf).
Proof. intros Hv. unfold put_u16 at 1. simpl. by rewrite read_u16_cur, be_put_u16. Qed.

Lemma read_bytes_cur pre xs suf n : n = len xs ->
  read_bytes n (cur pre (xs ++ suf)) = Ok (xs, cur (pre ++ xs) suf).
Proof.
  intros ->. unfold read_bytes. rewrite remain_cur, len_app.
  pose proof (len_nonneg xs). pose proof (len_nonneg suf).
  destruct (_ || _) eqn:E.
  { apply orb_true_iff in E as [E|E]; bool_hyps; lia. }
  destruct (_ =? _) eqn:E0; bool_hyps.
  - apply len_zero in E0 as ->. by rewrite app_nil_r.
  - unfold cur at 1 2; simpl. rewrite slice_cur, len_to_nat, take_app_length by done.
    by rewrite <- cur_snoc.
Qed.

Lemma read_bytes_cur_end pre xs n : n = len xs ->
  read_bytes n (cur pre xs) = Ok (xs, cur (pre ++ xs) []).
Proof. intros Hn. rewrite <- (read_bytes_cur pre xs [] n) by done. by rewrite app_nil_r. Qed.

Lemma cursor_done_cur pre suf : cursor_done (cur pre suf) = guard (bool_decide (suf = [])) ErrLengthMismatch.
Proof.
  unfold cursor_done, cur; simpl. f_equal. rewrite len_app.
  apply eq_bool_prop_intro. rewrite !Is_true_true, Z.eqb_eq, bool_decide_eq_true, <- len_zero. lia.
Qed.

Lemma read_u8_inv pre suf x c :
  read_u8 (cur pre suf) = Ok (x, c) -> exists suf', suf = x :: suf' /\ c = cur (pre ++ [x]) suf'.
Proof.
  destruct suf as [|y suf].
  - unfold read_u8. by rewrite remain_cur.
  - rewrite read_u8_cur. intros [= -> <-]. eauto.
Qed.

Lemma read_u16_inv pre suf v c :
  read_u16 (cur pre suf) = Ok (v, c) ->
  exists x y suf', suf = x :: y :: suf' /\ v = be_u16 x y /\ c = cur (pre ++ [x; y]) suf'.
Proof.
  destruct suf as [|x [|y suf]].
  1, 2: unfold read_u16; by rewrite remain_cur.
  rewrite read_u16_cur. intros [= <- <-]. by repeat eexists.
Qed.

Lemma read_bytes_inv pre suf n xs c :
  read_bytes n (cur pre suf) = Ok (xs, c) ->
  exists suf', suf = xs ++ suf' /\ len xs = n /\ c = cur (pre ++ xs) suf'.
Proof.
  intros H. unfold read_bytes in H. rewrite remain_cur in H.
  destruct (_ || _) eqn:E; [done|]. bool_hyps.
  destruct (_ =? _) eqn:E0; bool_hyps.
  - injection H as <- <-. exists suf. rewrite app_nil_r, len_nil. auto.
  - unfold cur in H; simpl in H. rewrite slice_cur in H by lia. injection H as <- <-.
    exists (drop (Z.to_nat n) suf). rewrite take_drop, len_take by lia.
    split_and!; [done..|].
    unfold cur. rewrite <- app_assoc, take_drop, len_app, len_take by lia. done.
Qed.

Create Rewrite HintDb cursor.
#[export] Hint Rewrite cur_nil remain_cur read_u8_cur read_u16_cur cursor_done_cur : cursor.

(** Invert every successful read in the context, tracking the position. *)
Ltac read_inv :=
  repeat match goal with
  | H : read_u8 (mkCursor _ 0) = _ |- _ => rewrite cur_nil in H
  | H : read_u16 (mkCursor _ 0) = _ |- _ => rewrite cur_nil in H
  | H : read_u8 (cur _ _) = Ok (_, _) |- _ =>
      apply read_u8_inv in H; destruct H as (? & ? & ?); subst
  | H : read_u16 (cur _ _) = Ok (_, _) |- _ =>
      apply read_u16_inv in H; destruct H as (? & ? & ? & ? & ? & ?); subst
  | H : read_bytes _ (cur _ _) = Ok (_, _) |- _ =>
      apply read_bytes_inv in H; destruct H as (? & ? & ? & ?); subst
  | H : cursor_done (cur _ _) = Ok _ |- _ =>
      rewrite cursor_done_cur in H; apply guard_Ok, bool_decide_eq_true in H; subst
  end.

(** Run a decoder forwards over a body in wire form, read by read. *)
Ltac run_reads side :=
  repeat (first
    [ rewrite read_u8_cur | rewrite read_put_u16_cur by side
    | rewrite read_bytes_cur by side | rewrite read_bytes_cur_end by side
    | rewrite remain_cur | rewrite cursor_done_cur ]; cbn [rbind]).

(** ** Length widths and text *)

Lemma u8len_Ok b n : u8len b = Ok n <-> n = len b /\ len b <= 255.
Proof.
  unfold u8len. pose proof (len_nonneg b).
  destruct (_ <? _) eqn:E; bool_hyps; [split; [done|lia]|].
  rewrite to_u8_id by (unfold is_u8; lia). naive_solver lia.
Qed.

Lemma u16len_Ok b n : u16len b = Ok n <-> n = len b /\ len b <= 65535.
Proof.
  unfold u16len. pose proof (len_nonneg b).
  destruct (_ <? _) eqn:E; bool_hyps; [split; [done|lia]|].
  rewrite to_u16_id by (unfold is_u16; lia). naive_solver lia.
Qed.

Lemma checkBodyCap_Ok n u : checkBodyCap n = Ok u <-> 0 <= n <= MaxBodyBytes.
Proof.
  unfold checkBodyCap. destruct (_ || _) eqn:E.
  - apply orb_true_iff in E as [E|E]; bool_hyps; split; (done || lia).
  - bool_hyps. destruct u. split; (done || lia).
Qed.

Lemma requirePrintable_Ok b u : requirePrintable b = Ok u <-> PrintableASCII b = true.
Proof. unfold requirePrintable. destruct (PrintableASCII b), u; naive_solver. Qed.

(** Turn the successful width and text checks of the context into facts. *)
Ltac text_hyps :=
  repeat match goal with
  | H : requirePrintable _ = Ok _ |- _ => apply requirePrintable_Ok in H
  | H : u8len _ = Ok _ |- _ => apply u8len_Ok in H; destruct H; subst
  | H : u16len _ = Ok _ |- _ => apply u16len_Ok in H; destruct H; subst
  | H : checkBodyCap _ = Ok _ |- _ => apply checkBodyCap_Ok in H
  end.

Lemma PrintableASCII_Forall b : PrintableASCII b = true <-> Forall (fun c => 32 <= c <= 126) b.
Proof.
  induction b as [|c b IH]; simpl; [split; [constructor|done]|].
  rewrite list.Forall_cons, <- IH. destruct (_ || _) eqn:E.
  - apply orb_true_iff in E as [E|E]; bool_hyps; split; (done || lia).
  - bool_hyps. intuition lia.
Qed.

Lemma PrintableASCII_app a b :
  PrintableASCII (a ++ b) = PrintableASCII a && PrintableASCII b.
Proof. induction a as [|c a IH]; simpl; [done|]. by destruct (_ || _). Qed.

Lemma PrintableASCII_require b : PrintableASCII b = true -> requirePrintable b = Ok tt.
Proof. intros Hb. by apply requirePrintable_Ok. Qed.
Lemma u8len_fits b : len b <= 255 -> u8len b = Ok (len b).
Proof. intros Hb. by apply u8len_Ok. Qed.
Lemma u16len_fits b : len b <= 65535 -> u16len b = Ok (len b).
Proof. intros Hb. by apply u16len_Ok. Qed.
Lemma checkBodyCap_fits n : 0 <= n <= MaxBodyBytes -> checkBodyCap n = Ok tt.
Proof. intros Hn. by apply checkBodyCap_Ok. Qed.

(** ** Arguments: the wire form *)

Definition arg_wire (a : Argument) : bytes := arg_Name a ++ Separator a :: arg_Value a.

(** What [Argument_Encode] requires of an argument apart from its length. *)
Definition arg_wf (a : Argument) : Prop :=
  arg_Name a <> [] /\ containsArgSep (arg_Name a) = false /\
  is_sep (Separator a) = true /\ PrintableASCII (arg_wire a) = true.

Definition arg_encodable (a : Argument) : Prop := arg_wf a /\ len (arg_wire a) <= 255.

#[export] Instance arg_wf_dec a : Decision (arg_wf a).
Proof. unfold arg_wf. apply _. Defined.
#[export] Instance arg_encodable_dec a : Decision (arg_encodable a).
Proof. unfold arg_encodable. apply _. Defined.

Lemma len_arg_wire a : len (arg_wire a) = len (arg_Name a) + 1 + len (arg_Value a).
Proof. unfold arg_wire. rewrite len_app, len_cons. lia. Qed.

Lemma arg_wf_pos a : arg_wf a -> 2 <= len (arg_wire a).
Proof.
  intros (Hn & _). rewrite len_arg_wire. rewrite <- len_zero in Hn.
  pose proof (len_nonneg (arg_Name a)). pose proof (len_nonneg (arg_Value a)). lia.
Qed.

Lemma Argument_Encode_Ok a raw :
  Argument_Encode a = Ok raw <-> arg_encodable a /\ raw = arg_wire a.
Proof.
  unfold Argument_Encode, arg_encodable, arg_wf. fold (arg_wire a). rewrite <- len_arg_wire.
  unfold bytes_eqb. split.
  - intros H. ok_steps; bool_hyps; try discriminate.
    text_hyps. split_and!; done.
  - intros [[(Hn & Hc & Hs & Hp) Hl] ->].
    rewrite bool_decide_eq_false_2, Hc, Hs by done. simpl.
    assert (2 <= len (arg_wire a)) by (apply arg_wf_pos; done).
    destruct (_ || _) eqn:E; [apply orb_true_iff in E as [E|E]; bool_hyps; lia|].
    unfold requirePrintable. by rewrite Hp.
Qed.

Lemma find_sep_app i name k value :
  containsArgSep name = false -> is_sep k = true ->
  find_sep i (name ++ k :: value) = Some (i + len name, k).
Proof.
  revert i. induction name as [|c name IH]; simpl; intros i Hc Hk.
  - rewrite Hk, len_nil. by rewrite Z.add_0_r.
  - destruct (is_sep c); [done|]. rewrite IH by done. rewrite len_cons.
    do 2 f_equal. lia.
Qed.

Lemma find_sep_Some i raw j k :
  find_sep i raw = Some (j, k) ->
  exists name value, raw = name ++ k :: value /\ j = i + len name /\
    containsArgSep name = false /\ is_sep k = true.
Proof.
  revert i. induction raw as [|c raw IH]; simpl; intros i H; [done|].
  destruct (is_sep c) eqn:E.
  - injection H as <- <-. exists [], raw. rewrite len_nil. split_and!; (done || lia).
  - apply IH in H as (name & value & -> & -> & Hc & Hk).
    exists (c :: name), value. rewrite len_cons. simpl. rewrite E. split_and!; (done || lia).
Qed.

Lemma slice_parts (name value : bytes) k :
  slice (name ++ k :: value) 0 (len name) = name /\
  slice (name ++ k :: value) (len name + 1) (len (name ++ k :: value)) = value.
Proof.
  split.
  - unfold slice. rewrite Z.sub_0_r, len_to_nat. simpl. apply take_app_length.
  - pose proof (slice_app_mid (name ++ [k]) value []) as H.
    rewrite app_nil_r, <- app_assoc, len_app in H. simpl in H. rewrite len_app, len_cons.
    change (len [k]) with 1 in H.
    by rewrite Z.add_assoc.
Qed.

Lemma ParseArgument_Some raw a :
  ParseArgument raw = Ok (Some a) <-> arg_wf a /\ raw = arg_wire a.
Proof.
  unfold ParseArgument. split.
  - intros H. ok_steps. text_hyps.
    destruct (find_sep 0 raw) as [[j k]|] eqn:F; [|done].
    apply find_sep_Some in F as (name & value & -> & -> & Hc & Hk).
    ok_steps. bool_hyps. subst a. rewrite Z.add_0_l.
    destruct (slice_parts name value k) as [-> ->].
    split; [|done]. split_and!; simpl; try done.
    intros ->. done.
  - intros [(Hn & Hc & Hk & Hp) ->].
    destruct (_ =? 0) eqn:E; bool_hyps.
    { pose proof (arg_wf_pos a ltac:(done)). lia. }
    unfold requirePrintable. rewrite Hp. simpl.
    unfold arg_wire. rewrite find_sep_app by done. rewrite Z.add_0_l.
    pose proof (len_nonneg (arg_Name a)).
    destruct (_ <=? 0) eqn:E0; bool_hyps.
    { exfalso. apply Hn, len_zero. lia. }
    destruct (slice_parts (arg_Name a) (arg_Value a) (Separator a)) as [-> ->].
    by destruct a.
Qed.

Lemma ParseArgument_None raw : ParseArgument raw = Ok None <-> raw = [].
Proof.
  unfold ParseArgument. destruct (_ =? 0) eqn:E; bool_hyps.
  - apply len_zero in E as ->. done.
  - split; [|intros ->; by rewrite len_nil in E].
    intros H. ok_steps. destruct (find_sep 0 raw) as [[]|]; [|done]. by ok_steps.
Qed.

Definition args_lens (args : list Argument) : bytes := map (fun a => len (arg_wire a)) args.
Definition args_wire (args : list Argument) : bytes := concat (map arg_wire args).

Lemma encodeArgs_loop_Ok args lens payload r :
  encodeArgs_loop args lens payload = Ok r <->
  Forall arg_encodable args /\ r = (lens ++ args_lens args, payload ++ args_wire args).
Proof.
  revert lens payload. induction args as [|a args IH]; simpl; intros lens payload.
  - rewrite !app_nil_r. split; [intros [= <-]; auto|by intros [_ ->]].
  - rewrite rbind_Ok, list.Forall_cons. unfold args_lens, args_wire in *. simpl.
    assert (Hid : arg_encodable a -> to_u8 (len (arg_wire a)) = len (arg_wire a)).
    { intros [_ Hl]. apply to_u8_id. pose proof (len_nonneg (arg_wire a)). unfold is_u8. lia. }
    split.
    + intros (raw & [Ha ->]%Argument_Encode_Ok & [Hargs ->]%IH).
      rewrite Hid, <- !app_assoc by done. done.
    + intros [[Ha Hargs] ->]. exists (arg_wire a). split; [by apply Argument_Encode_Ok|].
      apply IH. rewrite Hid, <- !app_assoc by done. done.
Qed.

Lemma encodeArgList_Ok args r :
  encodeArgList args = Ok r <->
  Forall arg_encodable args /\ len args <= 255 /\ r = (args_lens args, args_wire args).
Proof.
  unfold encodeArgList. destruct (_ <? _) eqn:E; bool_hyps.
  - split; [done|]. intros (_ & ? & _). lia.
  - rewrite encodeArgs_loop_Ok. simpl. tauto.
Qed.

Lemma encodeArgList_fits args :
  Forall arg_encodable args -> len args <= 255 ->
  encodeArgList args = Ok (args_lens args, args_wire args).
Proof. intros. by apply encodeArgList_Ok. Qed.

Lemma args_lens_encodable args :
  Forall arg_wf args -> Forall is_u8 (args_lens args) -> Forall arg_encodable args.
Proof.
  unfold args_lens. induction args as [|a args IH]; simpl; intros Hw Hl; forall_hyps; constructor.
  - split; [done|]. unfold is_u8 in *. lia.
  - by apply IH.
Qed.

Lemma len_args_lens args : len (args_lens args) = len args.
Proof. unfold args_lens, len. by rewrite length_map. Qed.
#[export] Hint Rewrite len_args_lens : len.

Lemma readLens_loop_cur pre lens suf :
  readLens_loop (length lens) (cur pre (lens ++ suf)) = Ok (lens, cur (pre ++ lens) suf).
Proof.
  revert pre. induction lens as [|v lens IH]; simpl; intros pre; [by rewrite app_nil_r|].
  rewrite read_u8_cur. simpl. rewrite IH. simpl. by rewrite <- app_assoc.
Qed.

Lemma readLens_loop_inv n pre suf lens c :
  readLens_loop n (cur pre suf) = Ok (lens, c) ->
  exists suf', suf = lens ++ suf' /\ length lens = n /\ c = cur (pre ++ lens) suf'.
Proof.
  revert pre suf lens c. induction n as [|n IH]; simpl; intros pre suf lens c H.
  - injection H as <- <-. exists suf. by rewrite app_nil_r.
  - apply rbind_Ok in H as ([v c1] & H1 & H). read_inv.
    apply rbind_Ok in H as ([vs c2] & H2 & [= <- <-]).
    apply IH in H2 as (suf' & -> & <- & ->). exists suf'. by rewrite <- app_assoc.
Qed.

Lemma readArgLens_cur pre lens suf n :
  n = len lens -> n <= 255 -> readArgLens n (cur pre (lens ++ suf)) = Ok (lens, cur (pre ++ lens) suf).
Proof.
  intros -> Hn. unfold readArgLens. rewrite remain_cur, len_app.
  pose proof (len_nonneg lens). pose proof (len_nonneg suf).
  destruct (_ || _) eqn:E; [apply orb_true_iff in E as [E|E]; bool_hyps; lia|].
  bool_hyps. destruct (_ <? _) eqn:E1; bool_hyps; [lia|]. rewrite len_to_nat. apply readLens_loop_cur.
Qed.

Lemma readArgLens_inv n pre suf lens c :
  readArgLens n (cur pre suf) = Ok (lens, c) ->
  exists suf', suf = lens ++ suf' /\ len lens = n /\ n <= 255 /\ c = cur (pre ++ lens) suf'.
Proof.
  unfold readArgLens. intros H. ok_steps. bool_hyps.
  apply readLens_loop_inv in H as (suf' & -> & Hl & ->). exists suf'.
  split_and!; try done; unfold len; lia.
Qed.

Lemma readArgs_cur pre args suf :
  Forall arg_wf args ->
  readArgs (args_lens args) (cur pre (args_wire args ++ suf)) =
  Ok (args, cur (pre ++ args_wire args) suf).
Proof.
  revert pre. induction args as [|a args IH]; intros pre Hw; unfold args_lens, args_wire in *; simpl.
  - by rewrite app_nil_r.
  - forall_hyps. rewrite <- app_assoc, read_bytes_cur by done. simpl.
    rewrite (proj2 (ParseArgument_Some _ a)) by done. simpl.
    rewrite IH by done. simpl. by rewrite <- app_assoc.
Qed.

Lemma readArgs_cur_end pre args :
  Forall arg_wf args ->
  readArgs (args_lens args) (cur pre (args_wire args)) = Ok (args, cur (pre ++ args_wire args) []).
Proof. intros Hw. rewrite <- (readArgs_cur pre args []) by done. by rewrite app_nil_r. Qed.

(** A successful read of the arguments: the octets are cut into pieces of
    the announced lengths, the non-empty pieces are the wire forms of the
    returned arguments, in order. *)
Lemma readArgs_inv lens pre suf args c :
  readArgs lens (cur pre suf) = Ok (args, c) ->
  exists raws suf', suf = concat raws ++ suf' /\ c = cur (pre ++ concat raws) suf' /\
    lens = map len raws /\ Forall arg_wf args /\
    map arg_wire args = List.filter (fun r => negb (len r =? 0)) raws.
Proof.
  revert pre suf args c. induction lens as [|ln lens IH]; simpl; intros pre suf args c H.
  - injection H as <- <-. exists [], suf. simpl. rewrite app_nil_r. split_and!; auto.
  - apply rbind_Ok in H as ([raw c1] & H1 & H). read_inv.
    apply rbind_Ok in H as (a & Ha & H). apply rbind_Ok in H as ([out c2] & H2 & H).
    apply IH in H2 as (raws & suf' & -> & -> & -> & Hw & Hf).
    injection H as <- <-. exists (raw :: raws), suf'. simpl. rewrite <- !app_assoc.
    split_and!; try done.
    + destruct a as [a|]; [|done]. apply ParseArgument_Some in Ha as [? _]. by constructor.
    + destruct a as [a|].
      * apply ParseArgument_Some in Ha as [Ha ->]. pose proof (arg_wf_pos a Ha).
        destruct (_ =? 0) eqn:E; bool_hyps; [lia|]. simpl. by f_equal.
      * by apply ParseArgument_None in Ha as ->.
Qed.

(** When no announced length is zero the arguments are the whole payload. *)
Lemma readArgs_inv_all lens pre suf args c :
  readArgs lens (cur pre suf) = Ok (args, c) -> len args = len lens ->
  exists suf', suf = args_wire args ++ suf' /\ c = cur (pre ++ args_wire args) suf' /\
    lens = args_lens args /\ Forall arg_wf args.
Proof.
  intros H Hn. apply readArgs_inv in H as (raws & suf' & -> & -> & -> & Hw & Hf).
  exists suf'. unfold args_wire, args_lens.
  assert (Hall : List.filter (fun r => negb (len r =? 0)) raws = raws).
  { apply (f_equal length) in Hf. unfold len in Hn. rewrite !length_map in *.
    apply forallb_filter_id, filter_length_forallb. lia. }
  rewrite Hall in Hf. rewrite <- Hf, map_map. split_and!; done.
Qed.

(** ** Properties *)

(** Argument round trip: [Argument_Encode] and [ParseArgument] are inverse
    on exactly the arguments with a non-empty name free of separators, a
    separator '=' or '*', printable text and at most 255 octets; the value
    may itself contain separators, because the parser splits at the first. *)
Lemma argument_roundtrip (a : Argument) (raw : bytes) :
  (Argument_Encode a = Ok raw <-> ParseArgument raw = Ok (Some a) /\ len raw <= 255) /\
  (is_ok (Argument_Encode a) = true <-> arg_encodable a).
Proof.
  split.
  - rewrite Argument_Encode_Ok, ParseArgument_Some. unfold arg_encodable. naive_solver.
  - split.
    + destruct (Argument_Encode a) as [r|] eqn:E; [|done]. intros _.
      by apply Argument_Encode_Ok in E as [? _].
    + intros Ha. by rewrite (proj2 (Argument_Encode_Ok a _) (conj Ha eq_refl)).
Qed.
