(* ===== verification/TacacsBody.v ===== *)
(** TACACS+ packet bodies (internal/tacacs/codec: authen.go, author.go,
    acct.go, chap.go and the wire values of constants.go): the seven body
    types, their decoders and encoders, and the CHAP and MS-CHAP data
    layouts. *)

From S2P Require Import Prelude TacacsHeader TacacsCursor.

(** ** Wire values (constants.go) *)

Definition AuthenActionLogin : Z := 1.
Definition AuthenActionCHPASS : Z := 2.
Definition AuthenActionSendPass : Z := 3.
Definition AuthenActionSendAuth : Z := 4.
Definition AuthenTypeNotSet : Z := 0.
Definition AuthenTypeASCII : Z := 1.
Definition AuthenTypePAP : Z := 2.
Definition AuthenTypeCHAP : Z := 3.
Definition AuthenTypeARAP : Z := 4.
Definition AuthenTypeMSCHAP : Z := 5.
Definition AuthenTypeMSCHAPV2 : Z := 6.
Definition AuthenServiceNone : Z := 0.
Definition AuthenServiceLogin : Z := 1.
Definition AuthenServiceEnable : Z := 2.
Definition AuthenServicePPP : Z := 3.
Definition AuthenServiceARAP : Z := 4.
Definition AuthenServicePT : Z := 5.
Definition AuthenServiceRCMD : Z := 6.
Definition AuthenServiceX25 : Z := 7.
Definition AuthenServiceNASI : Z := 8.
Definition AuthenServiceFWProxy : Z := 9.
Definition AuthenStatusPass : Z := 1.
Definition AuthenStatusFail : Z := 2.
Definition AuthenStatusGetData : Z := 3.
Definition AuthenStatusGetUser : Z := 4.
Definition AuthenStatusGetPass : Z := 5.
Definition AuthenStatusRestart : Z := 6.
Definition AuthenStatusError : Z := 7.
Definition AuthenStatusFollow : Z := 33.
Definition ContinueFlagAbort : Z := 1.
Definition ContinueFlagKnownMask : Z := ContinueFlagAbort.
Definition ReplyFlagNoEcho : Z := 1.
Definition ReplyFlagKnownMask : Z := ReplyFlagNoEcho.
Definition AuthorStatusPassAdd : Z := 1.
Definition AuthorStatusPassRepl : Z := 2.
Definition AuthorStatusFail : Z := 16.
Definition AuthorStatusError : Z := 17.
Definition AuthorStatusFollow : Z := 33.
Definition AcctFlagStart : Z := 2.
Definition AcctFlagStop : Z := 4.
Definition AcctFlagWatchdog : Z := 8.
Definition AcctFlagWatchdogUpdate : Z := 10.
Definition AcctStatusSuccess : Z := 1.
Definition AcctStatusError : Z := 2.
Definition AcctStatusFollow : Z := 33.
Definition DefaultCHAPMinChallenge : Z := 8.
Definition MinCHAPChallenge : Z := 5.
Definition MSCHAPv1ChallengeLen : Z := 8.
Definition MSCHAPv2ChallengeLen : Z := 16.
Definition MSCHAPResponseLen : Z := 49.
Definition CHAPResponseLen : Z := 16.
Definition DefaultMaxContinues : Z := 32.

(** ** Authentication (authen.go) *)

Record AuthenStart : Type := mkAuthenStart {
  as_Action : Z; as_PrivLvl : Z; as_Type : Z; as_Service : Z;
  as_User : bytes; as_Port : bytes; as_RemAddr : bytes; as_Data : bytes
}.

#[export] Instance authen_start_eq_dec : EqDecision AuthenStart.
Proof. solve_decision. Defined.

Definition DecodeAuthenStart (p : bytes) : result codec_error AuthenStart :=
  let c := mkCursor p 0 in
  let! (action, c) := read_u8 c in
  let! (privLvl, c) := read_u8 c in
  let! (typ, c) := read_u8 c in
  let! (service, c) := read_u8 c in
  let! (userLen, c) := read_u8 c in
  let! (portLen, c) := read_u8 c in
  let! (remLen, c) := read_u8 c in
  let! (dataLen, c) := read_u8 c in
  let need := userLen + portLen + remLen + dataLen in
  let! _ := guard (remain c =? need) ErrLengthMismatch in
  let! (user, c) := read_bytes userLen c in
  let! (port, c) := read_bytes portLen c in
  let! (remAddr, c) := read_bytes remLen c in
  let! (data, c) := read_bytes dataLen c in
  let! _ := cursor_done c in
  let! _ := requirePrintable port in
  let! _ := requirePrintable remAddr in
  Ok (mkAuthenStart action privLvl typ service user port remAddr data).

Definition AuthenStart_Encode (s : AuthenStart) : result codec_error bytes :=
  let! _ := requirePrintable (as_Port s) in
  let! _ := requirePrintable (as_RemAddr s) in
  let! ul := u8len (as_User s) in
  let! pl := u8len (as_Port s) in
  let! rl := u8len (as_RemAddr s) in
  let! dl := u8len (as_Data s) in
  let n := 8 + ul + pl + rl + dl in
  let! _ := checkBodyCap n in
  Ok ([as_Action s; as_PrivLvl s; as_Type s; as_Service s; ul; pl; rl; dl] ++
      as_User s ++ as_Port s ++ as_RemAddr s ++ as_Data s).

Record AuthenContinue : Type := mkAuthenContinue {
  ac_Flags : Z; ac_UserMsg : bytes; ac_Data : bytes
}.

Definition AuthenContinue_Abort (c : AuthenContinue) : bool :=
  negb (Z.land (ac_Flags c) ContinueFlagAbort =? 0).

Definition DecodeAuthenContinue (p : bytes) : result codec_error AuthenContinue :=
  let c := mkCursor p 0 in
  let! (umLen, c) := read_u16 c in
  let! (dataLen, c) := read_u16 c in
  let! (flags, c) := read_u8 c in
  let need := umLen + dataLen in
  let! _ := guard (remain c =? need) ErrLengthMismatch in
  let! (userMsg, c) := read_bytes umLen c in
  let! (data, c) := read_bytes dataLen c in
  let! _ := cursor_done c in
  let! _ := requirePrintable userMsg in
  Ok (mkAuthenContinue flags userMsg data).

Definition AuthenContinue_Encode (c : AuthenContinue) : result codec_error bytes :=
  let! _ := requirePrintable (ac_UserMsg c) in
  let! ul := u16len (ac_UserMsg c) in
  let! dl := u16len (ac_Data c) in
  let n := 5 + ul + dl in
  let! _ := checkBodyCap n in
  Ok (put_u16 ul ++ put_u16 dl ++ [Z.land (ac_Flags c) ContinueFlagKnownMask] ++
      ac_UserMsg c ++ ac_Data c).

Record AuthenReply : Type := mkAuthenReply {
  ar_Status : Z; ar_Flags : Z; ar_ServerMsg : bytes; ar_Data : bytes
}.

Definition DecodeAuthenReply (p : bytes) : result codec_error AuthenReply :=
  let c := mkCursor p 0 in
  let! (status, c) := read_u8 c in
  let! (flags, c) := read_u8 c in
  let! (smLen, c) := read_u16 c in
  let! (dataLen, c) := read_u16 c in
  let need := smLen + dataLen in
  let! _ := guard (remain c =? need) ErrLengthMismatch in
  let! (serverMsg, c) := read_bytes smLen c in
  let! (data, c) := read_bytes dataLen c in
  let! _ := cursor_done c in
  let! _ := requirePrintable serverMsg in
  Ok (mkAuthenReply status flags serverMsg data).

Definition AuthenReply_Encode (r : AuthenReply) : result codec_error bytes :=
  if ar_Status r =? AuthenStatusFollow then Err ErrFollow
  else
    let! _ := requirePrintable (ar_ServerMsg r) in
    let! sl := u16len (ar_ServerMsg r) in
    let! dl := u16len (ar_Data r) in
    let n := 6 + sl + dl in
    let! _ := checkBodyCap n in
    Ok ([ar_Status r; Z.land (ar_Flags r) ReplyFlagKnownMask] ++ put_u16 sl ++ put_u16 dl ++
        ar_ServerMsg r ++ ar_Data r).

Definition NormalizeAuthenStatus (status : Z) : Z :=
  if status =? AuthenStatusFollow then AuthenStatusFail else status.

(** ** Authorization (author.go) *)

Record AuthorRequest : Type := mkAuthorRequest {
  aq_AuthenMethod : Z; aq_PrivLvl : Z; aq_AuthenType : Z; aq_Service : Z;
  aq_User : bytes; aq_Port : bytes; aq_RemAddr : bytes; aq_Args : list Argument
}.

Definition DecodeAuthorRequest (p : bytes) : result codec_error AuthorRequest :=
  let c := mkCursor p 0 in
  let! (authenMethod, c) := read_u8 c in
  let! (privLvl, c) := read_u8 c in
  let! (authenType, c) := read_u8 c in
  let! (service, c) := read_u8 c in
  let! (userLen, c) := read_u8 c in
  let! (portLen, c) := read_u8 c in
  let! (remLen, c) := read_u8 c in
  let! (argCnt, c) := read_u8 c in
  let! (lens, c) := readArgLens argCnt c in
  let! (user, c) := read_bytes userLen c in
  let! (port, c) := read_bytes portLen c in
  let! (remAddr, c) := read_bytes remLen c in
  let! (args, c) := readArgs lens c in
  let! _ := cursor_done c in
  let! _ := requirePrintable port in
  let! _ := requirePrintable remAddr in
  Ok (mkAuthorRequest authenMethod privLvl authenType service user port remAddr args).

Definition AuthorRequest_Encode (r : AuthorRequest) : result codec_error bytes :=
  let! _ := requirePrintable (aq_Port r) in
  let! _ := requirePrintable (aq_RemAddr r) in
  let! ul := u8len (aq_User r) in
  let! pl := u8len (aq_Port r) in
  let! rl := u8len (aq_RemAddr r) in
  let! (lens, payload) := encodeArgList (aq_Args r) in
  let n := 8 + len lens + ul + pl + rl + len payload in
  let! _ := checkBodyCap n in
  Ok ([aq_AuthenMethod r; aq_PrivLvl r; aq_AuthenType r; aq_Service r; ul; pl; rl; to_u8 (len lens)] ++
      lens ++ aq_User r ++ aq_Port r ++ aq_RemAddr r ++ payload).

Record AuthorResponse : Type := mkAuthorResponse {
  ap_Status : Z; ap_ServerMsg : bytes; ap_Data : bytes; ap_Args : list Argument
}.

Definition DecodeAuthorResponse (p : bytes) : result codec_error AuthorResponse :=
  let c := mkCursor p 0 in
  let! (status, c) := read_u8 c in
  let! (argCnt, c) := read_u8 c in
  let! (smLen, c) := read_u16 c in
  let! (dataLen, c) := read_u16 c in
  let! (lens, c) := readArgLens argCnt c in
  let! (serverMsg, c) := read_bytes smLen c in
  let! (data, c) := read_bytes dataLen c in
  let! (args, c) := readArgs lens c in
  let! _ := cursor_done c in
  let! _ := requirePrintable serverMsg in
  let! _ := requirePrintable data in
  Ok (mkAuthorResponse status serverMsg data args).

Definition AuthorResponse_Encode (r : AuthorResponse) : result codec_error bytes :=
  if ap_Status r =? AuthorStatusFollow then Err ErrFollow
  else
    let! _ := requirePrintable (ap_ServerMsg r) in
    let! _ := requirePrintable (ap_Data r) in
    let! sl := u16len (ap_ServerMsg r) in
    let! dl := u16len (ap_Data r) in
    let! (lens, payload) := encodeArgList (ap_Args r) in
    let n := 6 + len lens + sl + dl + len payload in
    let! _ := checkBodyCap n in
    Ok ([ap_Status r; to_u8 (len lens)] ++ put_u16 sl ++ put_u16 dl ++
        lens ++ ap_ServerMsg r ++ ap_Data r ++ payload).

Definition KnownAuthorStatus (status : Z) : bool :=
  (status =? AuthorStatusPassAdd) || (status =? AuthorStatusPassRepl) ||
  (status =? AuthorStatusFail) || (status =? AuthorStatusError) || (status =? AuthorStatusFollow).

(** ** Accounting (acct.go) *)

Record AcctRequest : Type := mkAcctRequest {
  cq_Flags : Z; cq_AuthenMethod : Z; cq_PrivLvl : Z; cq_AuthenType : Z; cq_Service : Z;
  cq_User : bytes; cq_Port : bytes; cq_RemAddr : bytes; cq_Args : list Argument
}.

Definition zeroAcctRequest : AcctRequest := mkAcctRequest 0 0 0 0 0 [] [] [] [].

Definition UseArguments (r : AcctRequest) : bool := negb (cq_Flags r =? AcctFlagWatchdog).

Definition ValidAcctFlags (flags : Z) : bool :=
  (flags =? AcctFlagStart) || (flags =? AcctFlagStop) ||
  (flags =? AcctFlagWatchdog) || (flags =? AcctFlagWatchdogUpdate).

(** The fields of the body up to the check of the flags. *)
Definition acctRequest_fields (p : bytes) : result codec_error AcctRequest :=
  let c := mkCursor p 0 in
  let! (flags, c) := read_u8 c in
  let! (authenMethod, c) := read_u8 c in
  let! (privLvl, c) := read_u8 c in
  let! (authenType, c) := read_u8 c in
  let! (service, c) := read_u8 c in
  let! (userLen, c) := read_u8 c in
  let! (portLen, c) := read_u8 c in
  let! (remLen, c) := read_u8 c in
  let! (argCnt, c) := read_u8 c in
  let! (lens, c) := readArgLens argCnt c in
  let! (user, c) := read_bytes userLen c in
  let! (port, c) := read_bytes portLen c in
  let! (remAddr, c) := read_bytes remLen c in
  let! (args, c) := readArgs lens c in
  let! _ := cursor_done c in
  let! _ := requirePrintable port in
  let! _ := requirePrintable remAddr in
  Ok (mkAcctRequest flags authenMethod privLvl authenType service user port remAddr args).

(** The request comes back next to [ErrAcctFlags] so that the caller can reply. *)
Definition DecodeAcctRequest (p : bytes) : AcctRequest * option codec_error :=
  match acctRequest_fields p with
  | Err e => (zeroAcctRequest, Some e)
  | Ok z => if ValidAcctFlags (cq_Flags z) then (z, None) else (z, Some ErrAcctFlags)
  end.

Definition AcctRequest_Encode (r : AcctRequest) : result codec_error bytes :=
  if negb (ValidAcctFlags (cq_Flags r)) then Err ErrAcctFlags
  else
    let! _ := requirePrintable (cq_Port r) in
    let! _ := requirePrintable (cq_RemAddr r) in
    let! ul := u8len (cq_User r) in
    let! pl := u8len (cq_Port r) in
    let! rl := u8len (cq_RemAddr r) in
    let args := if UseArguments r then cq_Args r else [] in
    let! (lens, payload) := encodeArgList args in
    let n := 9 + len lens + ul + pl + rl + len payload in
    let! _ := checkBodyCap n in
    Ok ([cq_Flags r; cq_AuthenMethod r; cq_PrivLvl r; cq_AuthenType r; cq_Service r;
         ul; pl; rl; to_u8 (len lens)] ++
        lens ++ cq_User r ++ cq_Port r ++ cq_RemAddr r ++ payload).

Record AcctReply : Type := mkAcctReply { cr_Status : Z; cr_ServerMsg : bytes; cr_Data : bytes }.

Definition DecodeAcctReply (p : bytes) : result codec_error AcctReply :=
  let c := mkCursor p 0 in
  let! (smLen, c) := read_u16 c in
  let! (dataLen, c) := read_u16 c in
  let! (status, c) := read_u8 c in
  let need := smLen + dataLen in
  let! _ := guard (remain c =? need) ErrLengthMismatch in
  let! (serverMsg, c) := read_bytes smLen c in
  let! (data, c) := read_bytes dataLen c in
  let! _ := cursor_done c in
  let! _ := requirePrintable serverMsg in
  let! _ := requirePrintable data in
  Ok (mkAcctReply status serverMsg data).

Definition AcctReply_Encode (r : AcctReply) : result codec_error bytes :=
  if cr_Status r =? AcctStatusFollow then Err ErrFollow
  else
    let! _ := requirePrintable (cr_ServerMsg r) in
    let! _ := requirePrintable (cr_Data r) in
    let! sl := u16len (cr_ServerMsg r) in
    let! dl := u16len (cr_Data r) in
    let n := 5 + sl + dl in
    let! _ := checkBodyCap n in
    Ok (put_u16 sl ++ put_u16 dl ++ [cr_Status r] ++ cr_ServerMsg r ++ cr_Data r).

(** ** CHAP and MS-CHAP data (chap.go) *)

(** [CHAPData] and [MSCHAPData] have the same fields. *)
Record CHAPData : Type := mkCHAPData { ch_ID : Z; ch_Challenge : bytes; ch_Response : bytes }.

Definition DecodeCHAPData (data : bytes) (minChallenge : Z) : result codec_error CHAPData :=
  let minChallenge := if minChallenge <=? 0 then DefaultCHAPMinChallenge else minChallenge in
  let minChallenge := if minChallenge <? MinCHAPChallenge then MinCHAPChallenge else minChallenge in
  if len data <? 1 + minChallenge + CHAPResponseLen then Err ErrCHAPLength
  else
    let n := len data - 1 - CHAPResponseLen in
    let ch := copy_bytes (make_bytes n) (slice data 1 (1 + n)) in
    let resp := copy_bytes (make_bytes CHAPResponseLen) (slice data (1 + n) (len data)) in
    Ok (mkCHAPData (index data 0) ch resp).

Definition decodeMSCHAP (data : bytes) (challengeLen : Z) : result codec_error CHAPData :=
  let want := 1 + challengeLen + MSCHAPResponseLen in
  if negb (len data =? want) then Err ErrMSCHAPLength
  else
    let ch := copy_bytes (make_bytes challengeLen) (slice data 1 (1 + challengeLen)) in
    let resp := copy_bytes (make_bytes MSCHAPResponseLen) (slice data (1 + challengeLen) (len data)) in
    Ok (mkCHAPData (index data 0) ch resp).

Definition DecodeMSCHAPv1Data (data : bytes) := decodeMSCHAP data MSCHAPv1ChallengeLen.
Definition DecodeMSCHAPv2Data (data : bytes) := decodeMSCHAP data MSCHAPv2ChallengeLen.

Definition EncodeCHAPData (d : CHAPData) : result codec_error bytes :=
  if negb (len (ch_Response d) =? CHAPResponseLen) then Err ErrCHAPLength
  else Ok ([ch_ID d] ++ ch_Challenge d ++ ch_Response d).

Definition EncodeMSCHAPData (d : CHAPData) : result codec_error bytes :=
  if negb (len (ch_Response d) =? MSCHAPResponseLen) then Err ErrMSCHAPLength
  else if negb ((len (ch_Challenge d) =? MSCHAPv1ChallengeLen) ||
                (len (ch_Challenge d) =? MSCHAPv2ChallengeLen)) then Err ErrMSCHAPLength
  else Ok ([ch_ID d] ++ ch_Challenge d ++ ch_Response d).

(** ** Lemmas: running and inverting the decoders *)

Lemma guard_true {E} (e : E) b : b = true -> guard b e = Ok tt.
Proof. by intros ->. Qed.

(** Side conditions of the reads and checks over a body in wire form. *)
Ltac wire_side :=
  first [ done | assumption
        | unfold is_u16; len_lia
        | rewrite len_args_lens; done ].

Ltac run_checks :=
  repeat (first
    [ rewrite guard_true by (apply Z.eqb_eq; len_lia)
    | rewrite PrintableASCII_require by assumption
    | rewrite bool_decide_eq_true_2 by done ]; cbn [rbind guard]).

Ltac run_args :=
  repeat (first
    [ rewrite readArgLens_cur by (rewrite ?len_args_lens; done)
    | rewrite readArgs_cur_end by done ]; cbn [rbind]).

Ltac run_decoder f :=
  unfold f; cbv zeta; rewrite cur_nil; cbn [app];
  repeat (progress (run_reads ltac:(wire_side); run_args; run_checks)).

(** Invert a decoder that succeeded, read by read. *)
Ltac decoder_inv H :=
  cbv zeta in H; rewrite ?cur_nil in H;
  repeat match type of H with
  | rbind ?m _ = Ok _ =>
      let v := fresh "v" in let Hm := fresh "Hm" in
      apply rbind_Ok in H; destruct H as (v & Hm & H);
      lazymatch type of v with (_ * _)%type => destruct v as [v ?] | _ => idtac end;
      cbn beta iota in H;
      repeat match goal with
      | A : readArgLens _ (cur _ _) = Ok (_, _) |- _ =>
          apply readArgLens_inv in A; destruct A as (? & ? & ? & ? & ?); subst
      end;
      read_inv; try (rewrite guard_Ok in Hm); text_hyps
  end.

(** Run an encoder over fields that fit. *)
Ltac enc_side := unfold MaxBodyBytes, is_u8, is_u16 in *; len_lia.
(** A 16-bit length field that was read is in range. *)
Ltac u16_fields :=
  repeat match goal with
  | H : len ?v = be_u16 ?a ?b |- _ =>
      lazymatch goal with
      | _ : is_u16 (be_u16 a b) |- _ => fail
      | _ => assert (is_u16 (be_u16 a b)) by (apply be_u16_range; done)
      end
  end.
Ltac rebuild_fields :=
  repeat match goal with
  | H : len ?v = be_u16 _ _ |- context [put_u16 (len ?v)] =>
      rewrite H, put_be_u16 by done; clear H
  end; cbn [app]; rewrite ?app_nil_r.

Ltac run_encoder :=
  repeat (first
    [ rewrite PrintableASCII_require by done
    | rewrite u8len_fits by enc_side
    | rewrite u16len_fits by enc_side
    | rewrite encodeArgList_fits by (done || enc_side)
    | rewrite checkBodyCap_fits by enc_side ]; cbn [rbind]).

(** Resolve the argument list of a decoded message whose count is full. *)
Ltac args_inv :=
  repeat match goal with
  | H : readArgs _ (cur _ _) = Ok (?args, _), Ha : len ?args = _ |- _ =>
      apply readArgs_inv_all in H; [|exact Ha]; destruct H as (? & ? & ? & ? & ?); subst
  end; read_inv.

(** Invert an encoder that succeeded. *)
Ltac encoder_inv H :=
  cbv zeta in H;
  repeat match type of H with
  | (if ?b then Err _ else _) = Ok _ => destruct b eqn:?; [discriminate H|]
  | rbind (encodeArgList _) _ = Ok _ =>
      let Ha := fresh "Hargs" in
      apply rbind_Ok in H; destruct H as (? & Ha & H);
      apply encodeArgList_Ok in Ha; destruct Ha as (? & ? & ->); cbn beta iota in H
  | rbind _ _ = Ok _ =>
      let v := fresh "v" in let Hm := fresh "Hm" in
      apply rbind_Ok in H; destruct H as (v & Hm & H); text_hyps
  end.

(** *** START *)

Lemma DecodeAuthenStart_wire s :
  PrintableASCII (as_Port s) = true -> PrintableASCII (as_RemAddr s) = true ->
  DecodeAuthenStart
    ([as_Action s; as_PrivLvl s; as_Type s; as_Service s;
      len (as_User s); len (as_Port s); len (as_RemAddr s); len (as_Data s)] ++
     as_User s ++ as_Port s ++ as_RemAddr s ++ as_Data s) = Ok s.
Proof. intros. run_decoder DecodeAuthenStart. by destruct s. Qed.

Lemma AuthenStart_Encode_Decode p s :
  AuthenStart_Encode s = Ok p -> DecodeAuthenStart p = Ok s.
Proof.
  unfold AuthenStart_Encode. intros H. encoder_inv H. injection H as <-.
  by apply DecodeAuthenStart_wire.
Qed.

Lemma DecodeAuthenStart_Encode p s :
  DecodeAuthenStart p = Ok s -> Forall is_u8 p -> AuthenStart_Encode s = Ok p.
Proof.
  unfold DecodeAuthenStart. intros H Hp. decoder_inv H. injection H as <-. forall_hyps.
  unfold AuthenStart_Encode; cbn. run_encoder. by rewrite app_nil_r.
Qed.

(** *** CONTINUE *)

Lemma DecodeAuthenContinue_wire c :
  PrintableASCII (ac_UserMsg c) = true -> len (ac_UserMsg c) <= 65535 -> len (ac_Data c) <= 65535 ->
  DecodeAuthenContinue
    (put_u16 (len (ac_UserMsg c)) ++ put_u16 (len (ac_Data c)) ++ [ac_Flags c] ++
     ac_UserMsg c ++ ac_Data c) = Ok c.
Proof.
  intros. pose proof (len_nonneg (ac_UserMsg c)). pose proof (len_nonneg (ac_Data c)).
  run_decoder DecodeAuthenContinue. by destruct c.
Qed.

Lemma AuthenContinue_Encode_Decode p c :
  AuthenContinue_Encode c = Ok p ->
  DecodeAuthenContinue p =
    Ok (mkAuthenContinue (Z.land (ac_Flags c) ContinueFlagKnownMask) (ac_UserMsg c) (ac_Data c)).
Proof.
  unfold AuthenContinue_Encode. intros H. encoder_inv H. injection H as <-.
  apply (DecodeAuthenContinue_wire (mkAuthenContinue _ _ _)); done.
Qed.

Lemma DecodeAuthenContinue_Encode p c :
  DecodeAuthenContinue p = Ok c -> Forall is_u8 p -> len p <= MaxBodyBytes ->
  Z.land (ac_Flags c) ContinueFlagKnownMask = ac_Flags c ->
  AuthenContinue_Encode c = Ok p.
Proof.
  unfold DecodeAuthenContinue. intros H Hp Hl Hf. decoder_inv H. injection H as <-. cbn in Hf.
  forall_hyps. u16_fields. unfold AuthenContinue_Encode; cbn [ac_Flags ac_UserMsg ac_Data].
  run_encoder. rewrite Hf. by rebuild_fields.
Qed.

(** *** REPLY *)

Lemma DecodeAuthenReply_wire r :
  PrintableASCII (ar_ServerMsg r) = true -> len (ar_ServerMsg r) <= 65535 -> len (ar_Data r) <= 65535 ->
  DecodeAuthenReply
    ([ar_Status r; ar_Flags r] ++ put_u16 (len (ar_ServerMsg r)) ++ put_u16 (len (ar_Data r)) ++
     ar_ServerMsg r ++ ar_Data r) = Ok r.
Proof.
  intros. pose proof (len_nonneg (ar_ServerMsg r)). pose proof (len_nonneg (ar_Data r)).
  run_decoder DecodeAuthenReply. by destruct r.
Qed.

Lemma AuthenReply_Encode_Decode p r :
  AuthenReply_Encode r = Ok p ->
  DecodeAuthenReply p =
    Ok (mkAuthenReply (ar_Status r) (Z.land (ar_Flags r) ReplyFlagKnownMask) (ar_ServerMsg r) (ar_Data r)).
Proof.
  unfold AuthenReply_Encode. intros H. encoder_inv H. injection H as <-.
  apply (DecodeAuthenReply_wire (mkAuthenReply _ _ _ _)); done.
Qed.

Lemma DecodeAuthenReply_Encode p r :
  DecodeAuthenReply p = Ok r -> Forall is_u8 p -> len p <= MaxBodyBytes ->
  Z.land (ar_Flags r) ReplyFlagKnownMask = ar_Flags r -> ar_Status r <> AuthenStatusFollow ->
  AuthenReply_Encode r = Ok p.
Proof.
  unfold DecodeAuthenReply. intros H Hp Hl Hf Hs. decoder_inv H. injection H as <-. cbn in Hf, Hs.
  forall_hyps. u16_fields.
  unfold AuthenReply_Encode; cbn [ar_Status ar_Flags ar_ServerMsg ar_Data].
  rewrite (proj2 (Z.eqb_neq _ _) Hs). run_encoder. rewrite Hf. by rebuild_fields.
Qed.

(** *** Authorization REQUEST *)

Lemma DecodeAuthorRequest_wire r :
  PrintableASCII (aq_Port r) = true -> PrintableASCII (aq_RemAddr r) = true ->
  Forall arg_wf (aq_Args r) -> len (aq_Args r) <= 255 ->
  DecodeAuthorRequest
    ([aq_AuthenMethod r; aq_PrivLvl r; aq_AuthenType r; aq_Service r;
      len (aq_User r); len (aq_Port r); len (aq_RemAddr r); len (aq_Args r)] ++
     args_lens (aq_Args r) ++ aq_User r ++ aq_Port r ++ aq_RemAddr r ++ args_wire (aq_Args r)) = Ok r.
Proof. intros. run_decoder DecodeAuthorRequest. by destruct r. Qed.

Lemma encodable_wf args : Forall arg_encodable args -> Forall arg_wf args.
Proof. apply Forall_impl. by intros a []. Qed.

Lemma to_u8_args_lens args : len args <= 255 -> to_u8 (len (args_lens args)) = len args.
Proof.
  intros. rewrite len_args_lens. apply to_u8_id. unfold is_u8. pose proof (len_nonneg args). lia.
Qed.

Lemma AuthorRequest_Encode_Decode p r :
  AuthorRequest_Encode r = Ok p -> DecodeAuthorRequest p = Ok r.
Proof.
  unfold AuthorRequest_Encode. intros H. encoder_inv H. injection H as <-.
  rewrite to_u8_args_lens by done. by apply DecodeAuthorRequest_wire; try apply encodable_wf.
Qed.

Lemma DecodeAuthorRequest_Encode p r :
  DecodeAuthorRequest p = Ok r -> Forall is_u8 p -> len p <= MaxBodyBytes ->
  len (aq_Args r) = index p 7 ->
  AuthorRequest_Encode r = Ok p.
Proof.
  unfold DecodeAuthorRequest. intros H Hp Hl Ha. decoder_inv H. injection H as <-.
  change (len v5 = len v7) in Ha. args_inv. forall_hyps.
  pose proof (args_lens_encodable v5 ltac:(done) ltac:(done)). rewrite len_args_lens in *.
  unfold AuthorRequest_Encode.
  cbn [aq_AuthenMethod aq_PrivLvl aq_AuthenType aq_Service aq_User aq_Port aq_RemAddr aq_Args].
  run_encoder. rewrite to_u8_args_lens by done. by rebuild_fields.
Qed.

(** *** Authorization RESPONSE *)

Lemma DecodeAuthorResponse_wire r :
  PrintableASCII (ap_ServerMsg r) = true -> PrintableASCII (ap_Data r) = true ->
  len (ap_ServerMsg r) <= 65535 -> len (ap_Data r) <= 65535 ->
  Forall arg_wf (ap_Args r) -> len (ap_Args r) <= 255 ->
  DecodeAuthorResponse
    ([ap_Status r; len (ap_Args r)] ++ put_u16 (len (ap_ServerMsg r)) ++ put_u16 (len (ap_Data r)) ++
     args_lens (ap_Args r) ++ ap_ServerMsg r ++ ap_Data r ++ args_wire (ap_Args r)) = Ok r.
Proof.
  intros. pose proof (len_nonneg (ap_ServerMsg r)). pose proof (len_nonneg (ap_Data r)).
  run_decoder DecodeAuthorResponse. by destruct r.
Qed.

Lemma AuthorResponse_Encode_Decode p r :
  AuthorResponse_Encode r = Ok p -> DecodeAuthorResponse p = Ok r.
Proof.
  unfold AuthorResponse_Encode. intros H. encoder_inv H. injection H as <-.
  rewrite to_u8_args_lens by done. by apply DecodeAuthorResponse_wire; try apply encodable_wf.
Qed.

Lemma DecodeAuthorResponse_Encode p r :
  DecodeAuthorResponse p = Ok r -> Forall is_u8 p -> len p <= MaxBodyBytes ->
  len (ap_Args r) = index p 1 -> ap_Status r <> AuthorStatusFollow ->
  AuthorResponse_Encode r = Ok p.
Proof.
  unfold DecodeAuthorResponse. intros H Hp Hl Ha Hs. decoder_inv H. injection H as <-.
  match type of Ha with len ?a = index (_ :: len ?l :: _) 1 => change (len a = len l) in Ha end.
  args_inv. forall_hyps. u16_fields. cbn in Hs.
  match goal with Hw : Forall arg_wf ?a |- _ =>
    pose proof (args_lens_encodable a ltac:(done) ltac:(done)) end.
  rewrite len_args_lens in *.
  unfold AuthorResponse_Encode; cbn [ap_Status ap_ServerMsg ap_Data ap_Args].
  rewrite (proj2 (Z.eqb_neq _ _) Hs). run_encoder. rewrite to_u8_args_lens by done.
  by rebuild_fields.
Qed.

(** *** Accounting REQUEST *)

Lemma acctRequest_wire r :
  PrintableASCII (cq_Port r) = true -> PrintableASCII (cq_RemAddr r) = true ->
  Forall arg_wf (cq_Args r) -> len (cq_Args r) <= 255 ->
  acctRequest_fields
    ([cq_Flags r; cq_AuthenMethod r; cq_PrivLvl r; cq_AuthenType r; cq_Service r;
      len (cq_User r); len (cq_Port r); len (cq_RemAddr r); len (cq_Args r)] ++
     args_lens (cq_Args r) ++ cq_User r ++ cq_Port r ++ cq_RemAddr r ++ args_wire (cq_Args r)) = Ok r.
Proof. intros. run_decoder acctRequest_fields. by destruct r. Qed.

(** What the wire form keeps of a request: WATCHDOG drops the arguments. *)
Definition acct_sent (r : AcctRequest) : AcctRequest :=
  mkAcctRequest (cq_Flags r) (cq_AuthenMethod r) (cq_PrivLvl r) (cq_AuthenType r) (cq_Service r)
    (cq_User r) (cq_Port r) (cq_RemAddr r) (if UseArguments r then cq_Args r else []).

Lemma AcctRequest_Encode_Decode p r :
  AcctRequest_Encode r = Ok p -> DecodeAcctRequest p = (acct_sent r, None).
Proof.
  unfold AcctRequest_Encode. intros H. encoder_inv H. apply Ok_inj in H as <-.
  rewrite to_u8_args_lens by done. unfold DecodeAcctRequest.
  change (cq_Flags r) with (cq_Flags (acct_sent r)) at 1.
  pose proof (acctRequest_wire (acct_sent r)) as W. cbn [acct_sent cq_Flags cq_AuthenMethod cq_PrivLvl
    cq_AuthenType cq_Service cq_User cq_Port cq_RemAddr cq_Args] in *.
  rewrite W by (done || by apply encodable_wf). bool_hyps. cbn.
  by match goal with Hv : ValidAcctFlags _ = true |- _ => rewrite Hv end.
Qed.

Lemma DecodeAcctRequest_Ok p r :
  DecodeAcctRequest p = (r, None) <-> acctRequest_fields p = Ok r /\ ValidAcctFlags (cq_Flags r) = true.
Proof.
  unfold DecodeAcctRequest. destruct (acctRequest_fields p) as [z|].
  - destruct (ValidAcctFlags (cq_Flags z)) eqn:E; (split; [by intros [= <-]|]);
      intros [[= ->] ?]; congruence.
  - split; [done|]. by intros [? _].
Qed.

Lemma DecodeAcctRequest_Encode p r :
  DecodeAcctRequest p = (r, None) -> Forall is_u8 p -> len p <= MaxBodyBytes ->
  len (cq_Args r) = index p 8 -> UseArguments r = true ->
  AcctRequest_Encode r = Ok p.
Proof.
  rewrite DecodeAcctRequest_Ok. unfold acctRequest_fields. intros [H Hv] Hp Hl Ha Hu.
  decoder_inv H. injection H as <-.
  match type of Ha with len ?a = index (_ :: _ :: _ :: _ :: _ :: _ :: _ :: _ :: len ?l :: _) 8 =>
    change (len a = len l) in Ha end.
  args_inv. forall_hyps.
  match goal with Hw : Forall arg_wf ?a |- _ =>
    pose proof (args_lens_encodable a ltac:(done) ltac:(done)) end.
  rewrite len_args_lens in *.
  unfold AcctRequest_Encode. rewrite Hv, Hu. cbn [negb].
  cbn [cq_Flags cq_AuthenMethod cq_PrivLvl cq_AuthenType cq_Service cq_User cq_Port cq_RemAddr cq_Args].
  run_encoder. rewrite to_u8_args_lens by done. by rebuild_fields.
Qed.

(** *** Accounting REPLY *)

Lemma DecodeAcctReply_wire r :
  PrintableASCII (cr_ServerMsg r) = true -> PrintableASCII (cr_Data r) = true ->
  len (cr_ServerMsg r) <= 65535 -> len (cr_Data r) <= 65535 ->
  DecodeAcctReply
    (put_u16 (len (cr_ServerMsg r)) ++ put_u16 (len (cr_Data r)) ++ [cr_Status r] ++
     cr_ServerMsg r ++ cr_Data r) = Ok r.
Proof.
  intros. pose proof (len_nonneg (cr_ServerMsg r)). pose proof (len_nonneg (cr_Data r)).
  run_decoder DecodeAcctReply. by destruct r.
Qed.

Lemma AcctReply_Encode_Decode p r : AcctReply_Encode r = Ok p -> DecodeAcctReply p = Ok r.
Proof.
  unfold AcctReply_Encode. intros H. encoder_inv H. injection H as <-.
  by apply DecodeAcctReply_wire.
Qed.

Lemma DecodeAcctReply_Encode p r :
  DecodeAcctReply p = Ok r -> Forall is_u8 p -> len p <= MaxBodyBytes ->
  cr_Status r <> AcctStatusFollow -> AcctReply_Encode r = Ok p.
Proof.
  unfold DecodeAcctReply. intros H Hp Hl Hs. decoder_inv H. injection H as <-. cbn in Hs.
  forall_hyps. u16_fields. unfold AcctReply_Encode; cbn [cr_Status cr_ServerMsg cr_Data].
  rewrite (proj2 (Z.eqb_neq _ _) Hs). run_encoder. by rebuild_fields.
Qed.

(** ** Sizes of encoded replies *)

Lemma AuthenReply_Encode_len r p : AuthenReply_Encode r = Ok p -> len p <= MaxBodyBytes.
Proof.
  unfold AuthenReply_Encode. intros H. encoder_inv H. apply Ok_inj in H as <-. len_lia.
Qed.
Lemma AuthorResponse_Encode_len r p : AuthorResponse_Encode r = Ok p -> len p <= MaxBodyBytes.
Proof.
  unfold AuthorResponse_Encode. intros H. encoder_inv H. apply Ok_inj in H as <-. len_lia.
Qed.
Lemma AcctReply_Encode_len r p : AcctReply_Encode r = Ok p -> len p <= MaxBodyBytes.
Proof.
  unfold AcctReply_Encode. intros H. encoder_inv H. apply Ok_inj in H as <-. len_lia.
Qed.

(** ** A reference decoder for START

    The body as RFC 8907 draws it: eight octets, then four fields that fill
    the rest exactly.  Offsets instead of a cursor, no partial state. *)
Definition authen_start_spec (p : bytes) : result codec_error AuthenStart :=
  match p with
  | a :: pl :: t :: sv :: ul :: ptl :: rl :: dl :: rest =>
      if negb (len rest =? ul + ptl + rl + dl) then Err ErrLengthMismatch
      else
        let port := slice rest ul (ul + ptl) in
        let rem := slice rest (ul + ptl) (ul + ptl + rl) in
        if PrintableASCII port && PrintableASCII rem
        then Ok (mkAuthenStart a pl t sv (slice rest 0 ul) port rem
                   (slice rest (ul + ptl + rl) (ul + ptl + rl + dl)))
        else Err ErrNonPrintable
  | _ => Err ErrLengthMismatch
  end.

Lemma read_bytes_take pre suf n : 0 <= n <= len suf ->
  read_bytes n (cur pre suf) =
  Ok (take (Z.to_nat n) suf, cur (pre ++ take (Z.to_nat n) suf) (drop (Z.to_nat n) suf)).
Proof.
  intros Hn. rewrite <- (take_drop (Z.to_nat n) suf) at 1.
  rewrite read_bytes_cur; [done|]. by rewrite len_take.
Qed.

Lemma read_u8_nil pre : read_u8 (cur pre []) = Err ErrLengthMismatch.
Proof. unfold read_u8. by rewrite remain_cur. Qed.

Lemma slice_drop {A} (l : list A) a b n : 0 <= a -> 0 <= n -> b = a + n ->
  slice l a b = take (Z.to_nat n) (drop (Z.to_nat a) l).
Proof. intros ? ? ->. unfold slice. by replace (a + n - a) with n by lia. Qed.

Lemma authen_start_fields pre rest ul ptl rl dl (k : bytes -> bytes -> bytes -> bytes -> result codec_error AuthenStart) :
  0 <= ul -> 0 <= ptl -> 0 <= rl -> 0 <= dl -> len rest = ul + ptl + rl + dl ->
  (let! (user, c) := read_bytes ul (cur pre rest) in
   let! (port, c) := read_bytes ptl c in
   let! (remAddr, c) := read_bytes rl c in
   let! (data, c) := read_bytes dl c in
   let! _ := cursor_done c in
   k user port remAddr data) =
  k (slice rest 0 ul) (slice rest ul (ul + ptl)) (slice rest (ul + ptl) (ul + ptl + rl))
    (slice rest (ul + ptl + rl) (ul + ptl + rl + dl)).
Proof.
  intros Hu Hp Hr Hd Hl.
  assert (D1 : len (drop (Z.to_nat ul) rest) = ptl + rl + dl) by (rewrite len_drop; lia).
  assert (D2 : len (drop (Z.to_nat ptl) (drop (Z.to_nat ul) rest)) = rl + dl)
    by (rewrite len_drop; lia).
  rewrite read_bytes_take by lia. cbn [rbind].
  rewrite read_bytes_take by lia. cbn [rbind].
  rewrite read_bytes_take by lia. cbn [rbind].
  rewrite read_bytes_take by (rewrite len_drop; lia). cbn [rbind].
  rewrite cursor_done_cur, bool_decide_eq_true_2
    by (apply len_zero; rewrite !len_drop; rewrite ?len_drop; lia). cbn [rbind guard].
  rewrite (slice_drop rest 0 ul ul), (slice_drop rest ul _ ptl),
    (slice_drop rest (ul + ptl) _ rl), (slice_drop rest (ul + ptl + rl) _ dl) by lia.
  rewrite !drop_drop. simpl. f_equal; do 2 f_equal; lia.
Qed.

(** ** CHAP lemmas *)

Lemma chap_slices (i : Z) (ch resp : bytes) :
  let data := i :: ch ++ resp in
  copy_bytes (make_bytes (len ch)) (slice data 1 (1 + len ch)) = ch /\
  copy_bytes (make_bytes (len resp)) (slice data (1 + len ch) (len data)) = resp.
Proof.
  cbv zeta. pose proof (len_nonneg ch). pose proof (len_nonneg resp).
  assert (S1 : slice (i :: ch ++ resp) 1 (1 + len ch) = ch) by apply (slice_app_mid [i] ch resp).
  assert (S2 : slice (i :: ch ++ resp) (1 + len ch) (len (i :: ch ++ resp)) = resp).
  { pose proof (slice_app_mid (i :: ch) resp []) as Hs.
    rewrite app_nil_r, len_cons in Hs. simpl in Hs. rewrite len_cons, len_app.
    by rewrite Z.add_assoc. }
  rewrite S1, S2, !copy_bytes_full by (rewrite len_make_bytes; lia). done.
Qed.

(** Cut CHAP-shaped data into identifier, challenge and response. *)
Lemma chap_split (data : bytes) r : 0 <= r -> 1 + r <= len data ->
  exists i ch resp, data = i :: ch ++ resp /\ len resp = r /\ len ch = len data - 1 - r.
Proof.
  intros Hr Hl. destruct data as [|i d]; [rewrite len_nil in Hl; lia|].
  rewrite len_cons in *. exists i, (take (Z.to_nat (len d - r)) d), (drop (Z.to_nat (len d - r)) d).
  rewrite take_drop, len_take, len_drop by lia. split_and!; (done || lia).
Qed.

Lemma DecodeCHAPData_app i ch resp minChallenge :
  len resp = CHAPResponseLen -> 8 <= len ch ->
  minChallenge <= len ch ->
  DecodeCHAPData (i :: ch ++ resp) minChallenge = Ok (mkCHAPData i ch resp).
Proof.
  intros Hr Hc Hm. unfold DecodeCHAPData. cbv zeta.
  rewrite len_cons, len_app, Hr in *.
  destruct (_ <? 1 + _ + _) eqn:E; bool_hyps.
  { unfold DefaultCHAPMinChallenge, MinCHAPChallenge in *.
    destruct (minChallenge <=? 0); destruct (_ <? 5) in E; lia. }
  replace (1 + (len ch + CHAPResponseLen) - 1 - CHAPResponseLen) with (len ch) by lia.
  destruct (chap_slices i ch resp) as [S1 S2].
  rewrite len_cons, len_app, Hr in S2. by rewrite S1, S2.
Qed.

(** ** Properties *)

(** The authentication START codec is a bijection: over octets, [p]
    decodes to [s] exactly when [s] encodes to [p]. In particular no two
    bodies decode to the same START and nothing is lost in either direction. *)
Lemma authen_start_bijection (p : bytes) (s : AuthenStart) :
  Forall is_u8 p -> (DecodeAuthenStart p = Ok s <-> AuthenStart_Encode s = Ok p).
Proof.
  intros Hp. split; intros H.
  - by apply DecodeAuthenStart_Encode.
  - by apply AuthenStart_Encode_Decode.
Qed.

(** [DecodeAuthenStart] computes the RFC layout on every input, errors
    included: a body whose component lengths do not fill it exactly is a length
    mismatch whatever its text, and otherwise port and remote address must be
    printable; the cursor reads never leave the body. *)
Lemma DecodeAuthenStart_reference (p : bytes) :
  Forall is_u8 p -> DecodeAuthenStart p = authen_start_spec p.
Proof.
  intros Hp. unfold DecodeAuthenStart, authen_start_spec. cbv zeta. rewrite cur_nil.
  do 8 (destruct p as [|? p]; [by rewrite read_u8_nil|forall_hyps; rewrite read_u8_cur; cbn [rbind]]).
  rewrite remain_cur. unfold is_u8 in *.
  destruct (len p =? _) eqn:E; bool_hyps; cbn [guard rbind negb]; [|done].
  rewrite (authen_start_fields _ p _ _ _ _ (fun user port remAddr data =>
    let! _ := requirePrintable port in let! _ := requirePrintable remAddr in
    Ok (mkAuthenStart _ _ _ _ user port remAddr data))) by lia.
  unfold requirePrintable.
  by destruct (PrintableASCII _), (PrintableASCII _).
Qed.

(** The authentication dialogue: a CONTINUE or REPLY that encodes is read back
    with its texts intact and only the defined flag bit kept; conversely a decoded
    body within the cap whose flags are all defined (and, for a REPLY, whose
    status is not FOLLOW, which [AuthenReply_Encode] refuses) re-encodes to the
    same octets. *)
Lemma authen_dialogue_roundtrip (p : bytes) (c : AuthenContinue) (r : AuthenReply) :
  (AuthenContinue_Encode c = Ok p ->
   DecodeAuthenContinue p = Ok (mkAuthenContinue (Z.land (ac_Flags c) 1) (ac_UserMsg c) (ac_Data c))) /\
  (AuthenReply_Encode r = Ok p ->
   DecodeAuthenReply p =
     Ok (mkAuthenReply (ar_Status r) (Z.land (ar_Flags r) 1) (ar_ServerMsg r) (ar_Data r)) /\
   ar_Status r <> AuthenStatusFollow) /\
  (Forall is_u8 p -> len p <= MaxBodyBytes ->
   (DecodeAuthenContinue p = Ok c -> Z.land (ac_Flags c) 1 = ac_Flags c ->
    AuthenContinue_Encode c = Ok p) /\
   (DecodeAuthenReply p = Ok r -> Z.land (ar_Flags r) 1 = ar_Flags r ->
    ar_Status r <> AuthenStatusFollow -> AuthenReply_Encode r = Ok p)).
Proof.
  split_and!.
  - apply AuthenContinue_Encode_Decode.
  - intros H. split; [by apply AuthenReply_Encode_Decode|].
    intros Hs. unfold AuthenReply_Encode in H. by rewrite Hs in H.
  - intros Hp Hl. split; intros.
    + by apply DecodeAuthenContinue_Encode.
    + by apply DecodeAuthenReply_Encode.
Qed.

(** Requests with arguments: an authorization or accounting REQUEST that
    encodes decodes to itself, argument order and separators included, except
    that WATCHDOG without update is sent without its arguments; a decoded
    body within the cap re-encodes to the same octets when every announced
    argument is present (zero-length ones are dropped by the decoder) and,
    for accounting, arguments are used. *)
Lemma argument_requests_roundtrip (p : bytes) (r : AuthorRequest) (q : AcctRequest) :
  (AuthorRequest_Encode r = Ok p -> DecodeAuthorRequest p = Ok r) /\
  (AcctRequest_Encode q = Ok p -> DecodeAcctRequest p = (acct_sent q, None)) /\
  (Forall is_u8 p -> len p <= MaxBodyBytes ->
   (DecodeAuthorRequest p = Ok r -> len (aq_Args r) = index p 7 -> AuthorRequest_Encode r = Ok p) /\
   (DecodeAcctRequest p = (q, None) -> len (cq_Args q) = index p 8 -> UseArguments q = true ->
    AcctRequest_Encode q = Ok p)).
Proof.
  split_and!.
  - apply AuthorRequest_Encode_Decode.
  - apply AcctRequest_Encode_Decode.
  - intros Hp Hl. split; intros.
    + by apply DecodeAuthorRequest_Encode.
    + by apply DecodeAcctRequest_Encode.
Qed.

(** Responses: an authorization RESPONSE or accounting REPLY that
    encodes decodes to itself and is never FOLLOW; a decoded body within the
    cap, not FOLLOW and (for authorization) with every announced argument
    present, re-encodes to the same octets. *)
Lemma responses_roundtrip (p : bytes) (r : AuthorResponse) (a : AcctReply) :
  (AuthorResponse_Encode r = Ok p ->
   DecodeAuthorResponse p = Ok r /\ ap_Status r <> AuthorStatusFollow) /\
  (AcctReply_Encode a = Ok p -> DecodeAcctReply p = Ok a /\ cr_Status a <> AcctStatusFollow) /\
  (Forall is_u8 p -> len p <= MaxBodyBytes ->
   (DecodeAuthorResponse p = Ok r -> len (ap_Args r) = index p 1 ->
    ap_Status r <> AuthorStatusFollow -> AuthorResponse_Encode r = Ok p) /\
   (DecodeAcctReply p = Ok a -> cr_Status a <> AcctStatusFollow -> AcctReply_Encode a = Ok p)).
Proof.
  split_and!.
  - intros H. split; [by apply AuthorResponse_Encode_Decode|].
    intros Hs. unfold AuthorResponse_Encode in H. by rewrite Hs in H.
  - intros H. split; [by apply AcctReply_Encode_Decode|].
    intros Hs. unfold AcctReply_Encode in H. by rewrite Hs in H.
  - intros Hp Hl. split; intros.
    + by apply DecodeAuthorResponse_Encode.
    + by apply DecodeAcctReply_Encode.
Qed.

(** CHAP data: whatever minimum the caller asks for, [DecodeCHAPData] accepts
    no challenge under 5 octets (under 8 when it asks for none); what it accepts
    is cut into identifier, challenge and 16-octet response without loss, so
    that encoding gives the data back. *)
Lemma DecodeCHAPData_floor (data : bytes) (minChallenge : Z) (d : CHAPData) :
  DecodeCHAPData data minChallenge = Ok d ->
  MinCHAPChallenge <= len (ch_Challenge d) /\ minChallenge <= len (ch_Challenge d) /\
  (minChallenge <= 0 -> DefaultCHAPMinChallenge <= len (ch_Challenge d)) /\
  EncodeCHAPData d = Ok data.
Proof.
  unfold DecodeCHAPData, MinCHAPChallenge, DefaultCHAPMinChallenge, CHAPResponseLen. cbv zeta.
  set (m := if _ <? 5 then 5 else _). intros H.
  assert (Hm : 5 <= m /\ minChallenge <= m /\ (minChallenge <= 0 -> 8 <= m)).
  { subst m. destruct (minChallenge <=? 0) eqn:?; [simpl; bool_hyps; lia|].
    destruct (_ <? 5) eqn:?; bool_hyps; lia. }
  clearbody m. destruct (_ <? _) eqn:E in H; [done|]. bool_hyps. apply Ok_inj in H.
  destruct (chap_split data 16) as (i & ch & resp & -> & Hr & Hc); [lia..|].
  destruct (chap_slices i ch resp) as [S1 S2]. rewrite <- Hc in H.
  rewrite Hr in S2. rewrite S1, S2 in H. subst d. cbn [ch_Challenge].
  split_and!; try lia.
  unfold EncodeCHAPData; cbn. by rewrite Hr.
Qed.

(** C10. The bodies of all seven messages, and CHAP data.  The decoder of an
    authentication START computes the RFC layout on every input, errors
    included: component lengths that do not fill the body are a length mismatch
    whatever the text, and otherwise port and remote address must be printable.
    A START decodes to [s] exactly when [s] encodes to it, so nothing is lost
    in either direction.  Every other body that encodes is read back as it was meant, in
    particular never FOLLOW, with the undefined flag bits cleared and the
    arguments of a pure WATCHDOG dropped; and a decoded body within the cap
    that the encoder may send re-encodes to the same octets.  Accepted CHAP data
    has a challenge of the floor at least and is split without loss. *)
Theorem message_bodies :
  (forall p, Forall is_u8 p ->
    DecodeAuthenStart p = authen_start_spec p
    /\ forall s, DecodeAuthenStart p = Ok s <-> AuthenStart_Encode s = Ok p)
  /\ (forall p c r,
      (AuthenContinue_Encode c = Ok p ->
       DecodeAuthenContinue p = Ok (mkAuthenContinue (Z.land (ac_Flags c) 1) (ac_UserMsg c) (ac_Data c))) /\
      (AuthenReply_Encode r = Ok p ->
       DecodeAuthenReply p = Ok (mkAuthenReply (ar_Status r) (Z.land (ar_Flags r) 1) (ar_ServerMsg r) (ar_Data r)) /\
       ar_Status r <> AuthenStatusFollow) /\
      (Forall is_u8 p -> len p <= MaxBodyBytes ->
       (DecodeAuthenContinue p = Ok c -> Z.land (ac_Flags c) 1 = ac_Flags c -> AuthenContinue_Encode c = Ok p) /\
       (DecodeAuthenReply p = Ok r -> Z.land (ar_Flags r) 1 = ar_Flags r ->
        ar_Status r <> AuthenStatusFollow -> AuthenReply_Encode r = Ok p)))
  /\ (forall p r q,
      (AuthorRequest_Encode r = Ok p -> DecodeAuthorRequest p = Ok r) /\
      (AcctRequest_Encode q = Ok p -> DecodeAcctRequest p = (acct_sent q, None)) /\
      (Forall is_u8 p -> len p <= MaxBodyBytes ->
       (DecodeAuthorRequest p = Ok r -> len (aq_Args r) = index p 7 -> AuthorRequest_Encode r = Ok p) /\
       (DecodeAcctRequest p = (q, None) -> len (cq_Args q) = index p 8 -> UseArguments q = true ->
        AcctRequest_Encode q = Ok p)))
  /\ (forall p r a,
      (AuthorResponse_Encode r = Ok p -> DecodeAuthorResponse p = Ok r /\ ap_Status r <> AuthorStatusFollow) /\
      (AcctReply_Encode a = Ok p -> DecodeAcctReply p = Ok a /\ cr_Status a <> AcctStatusFollow) /\
      (Forall is_u8 p -> len p <= MaxBodyBytes ->
       (DecodeAuthorResponse p = Ok r -> len (ap_Args r) = index p 1 ->
        ap_Status r <> AuthorStatusFollow -> AuthorResponse_Encode r = Ok p) /\
       (DecodeAcctReply p = Ok a -> cr_Status a <> AcctStatusFollow -> AcctReply_Encode a = Ok p)))
  /\ (forall data minChallenge d, DecodeCHAPData data minChallenge = Ok d ->
      MinCHAPChallenge <= len (ch_Challenge d) /\ minChallenge <= len (ch_Challenge d) /\
      (minChallenge <= 0 -> DefaultCHAPMinChallenge <= len (ch_Challenge d)) /\
      EncodeCHAPData d = Ok data).
Proof.
  split; [intros p Hp; split; [by apply DecodeAuthenStart_reference|intros s; by apply authen_start_bijection]|]. split; [exact authen_dialogue_roundtrip|].
  split; [exact argument_requests_roundtrip|]. split; [exact responses_roundtrip|]. exact DecodeCHAPData_floor.
Qed.
