(* ===== verification/TacacsSequence.v ===== *)
(** TACACS+ session rules (internal/tacacs/codec: version.go, sequence.go):
    the version/action/type/service matrix for authentication START, the per-session
    packet-order machine [Sequence] and the single-connect negotiation. *)

From S2P Require Import Prelude TacacsHeader TacacsBody.

(** ** The version matrix (version.go) *)

Inductive Flow : Type :=
| FlowNone | FlowASCIILogin | FlowPAPLogin | FlowCHAPLogin | FlowMSCHAPv1 | FlowMSCHAPv2
| FlowEnable | FlowASCIIChpass.

Inductive Disposition : Type := DispositionAccept | DispositionFail | DispositionError.

#[export] Instance flow_eq_dec : EqDecision Flow.
Proof. solve_decision. Defined.
#[export] Instance disposition_eq_dec : EqDecision Disposition.
Proof. solve_decision. Defined.

Definition AuthenStatus (d : Disposition) : Z :=
  match d with
  | DispositionFail => AuthenStatusFail
  | DispositionError => AuthenStatusError
  | DispositionAccept => 0
  end.

Definition KnownAuthenService (service : Z) : bool :=
  (service =? AuthenServiceNone) || (service =? AuthenServiceLogin) ||
  (service =? AuthenServiceEnable) || (service =? AuthenServicePPP) ||
  (service =? AuthenServicePT) || (service =? AuthenServiceRCMD) ||
  (service =? AuthenServiceX25) || (service =? AuthenServiceNASI) ||
  (service =? AuthenServiceFWProxy).

Definition classifyCHPASS (minor : Z) (s : AuthenStart) : Flow * Disposition :=
  if as_Service s =? AuthenServiceEnable then (FlowNone, DispositionFail)
  else if negb (as_Type s =? AuthenTypeASCII) then (FlowNone, DispositionError)
  else if (as_Service s =? AuthenServiceNone) || negb (KnownAuthenService (as_Service s))
  then (FlowASCIIChpass, DispositionFail)
  else if negb (minor =? 0) then (FlowASCIIChpass, DispositionFail)
  else (FlowASCIIChpass, DispositionAccept).

Definition loginFlow (typ : Z) : option Flow :=
  if typ =? AuthenTypeASCII then Some FlowASCIILogin
  else if typ =? AuthenTypePAP then Some FlowPAPLogin
  else if typ =? AuthenTypeCHAP then Some FlowCHAPLogin
  else if typ =? AuthenTypeMSCHAP then Some FlowMSCHAPv1
  else if typ =? AuthenTypeMSCHAPV2 then Some FlowMSCHAPv2
  else None.

Definition classifyLogin (minor : Z) (s : AuthenStart) : Flow * Disposition :=
  if as_Service s =? AuthenServiceEnable then
    if negb (minor =? 0) then (FlowEnable, DispositionFail) else (FlowEnable, DispositionAccept)
  else
    match loginFlow (as_Type s) with
    | None => (FlowNone, DispositionError)
    | Some flow =>
        if (as_Service s =? AuthenServiceNone) || negb (KnownAuthenService (as_Service s))
        then (flow, DispositionFail)
        else
          let want := if bool_decide (flow = FlowASCIILogin) then 0 else 1 in
          if negb (minor =? want) then (flow, DispositionFail) else (flow, DispositionAccept)
    end.

Definition ClassifyAuthenStart (minor : Z) (s : AuthenStart) : Flow * Disposition :=
  if (as_Action s =? AuthenActionSendAuth) || (as_Action s =? AuthenActionSendPass)
  then (FlowNone, DispositionError)
  else if as_Action s =? AuthenActionCHPASS then classifyCHPASS minor s
  else if as_Action s =? AuthenActionLogin then classifyLogin minor s
  else (FlowNone, DispositionError).

Definition ClassifyPacketMinor (typ minor : Z) : Disposition :=
  if (typ =? TypeAuthor) || (typ =? TypeAcct) then
    if negb (minor =? 0) then DispositionError else DispositionAccept
  else if typ =? TypeAuthen then
    if 1 <? minor then DispositionFail else DispositionAccept
  else DispositionError.

(** author.go and acct.go *)
Definition ClassifyAuthorMinor (minor : Z) : Disposition :=
  if negb (minor =? 0) then DispositionError else DispositionAccept.
Definition ClassifyAcctMinor (minor : Z) : Disposition :=
  if negb (minor =? 0) then DispositionError else DispositionAccept.

(** ** The packet-order machine (sequence.go) *)

Definition ClientSeq (seq : Z) : bool := seq mod 2 =? 1.
Definition ServerSeq (seq : Z) : bool := negb (seq =? 0) && (seq mod 2 =? 0).

Record Sequence : Type := mkSequence {
  sq_sessionID : Z;
  sq_typ : Z;
  sq_next : Z;
  sq_started : bool;
  sq_replied : bool;
  sq_closed : bool;
  sq_continues : Z;
  sq_maxCont : Z;
  sq_wrap : bool
}.

Definition NewSequence (sessionID typ : Z) : Sequence :=
  mkSequence sessionID typ 1 false false false 0 DefaultMaxContinues false.

Definition with_next (n : Z) (s : Sequence) : Sequence :=
  mkSequence (sq_sessionID s) (sq_typ s) n (sq_started s) (sq_replied s) (sq_closed s)
    (sq_continues s) (sq_maxCont s) (sq_wrap s).
Definition with_started (s : Sequence) : Sequence :=
  mkSequence (sq_sessionID s) (sq_typ s) (sq_next s) true (sq_replied s) (sq_closed s)
    (sq_continues s) (sq_maxCont s) (sq_wrap s).
Definition with_replied (s : Sequence) : Sequence :=
  mkSequence (sq_sessionID s) (sq_typ s) (sq_next s) (sq_started s) true (sq_closed s)
    (sq_continues s) (sq_maxCont s) (sq_wrap s).
(** [Close], and every assignment [s.closed = true]. *)
Definition Sequence_Close (s : Sequence) : Sequence :=
  mkSequence (sq_sessionID s) (sq_typ s) (sq_next s) (sq_started s) (sq_replied s) true
    (sq_continues s) (sq_maxCont s) (sq_wrap s).
Definition with_continues (n : Z) (s : Sequence) : Sequence :=
  mkSequence (sq_sessionID s) (sq_typ s) (sq_next s) (sq_started s) (sq_replied s) (sq_closed s)
    n (sq_maxCont s) (sq_wrap s).
Definition with_maxCont (n : Z) (s : Sequence) : Sequence :=
  mkSequence (sq_sessionID s) (sq_typ s) (sq_next s) (sq_started s) (sq_replied s) (sq_closed s)
    (sq_continues s) n (sq_wrap s).
Definition with_wrap (s : Sequence) : Sequence :=
  mkSequence (sq_sessionID s) (sq_typ s) (sq_next s) (sq_started s) (sq_replied s) (sq_closed s)
    (sq_continues s) (sq_maxCont s) true.

Definition SetMaxContinues (n : Z) (s : Sequence) : Sequence :=
  with_maxCont (if n <=? 0 then DefaultMaxContinues else n) s.

Definition single_shot (typ : Z) : bool := (typ =? TypeAuthor) || (typ =? TypeAcct).

(** The tail of [CheckRequest]: advance past an accepted client packet. *)
Definition advance_request (s : Sequence) (h : Header) : Sequence * option codec_error :=
  match NextSeq (SeqNo h) with
  | Err _ => (with_wrap s, None)
  | Ok next => (with_next next s, None)
  end.

Definition CheckRequest (s : Sequence) (h : Header) : Sequence * option codec_error :=
  if sq_closed s then (s, Some ErrSessionClosed)
  else if negb (SessionID h =? sq_sessionID s) || negb (Type_ h =? sq_typ s)
  then (s, Some ErrSessionMismatch)
  else
    match Header_Validate h with
    | Some e => (s, Some e)
    | None =>
        if negb (ClientSeq (SeqNo h)) then (s, Some ErrSeqParity)
        else if sq_started s && negb (sq_replied s) then (s, Some ErrPrematurePacket)
        else if negb (SeqNo h =? sq_next s) then (s, Some ErrSeqUnexpected)
        else if negb (sq_started s) then
          if negb (SeqNo h =? 1) then (s, Some ErrSeqUnexpected)
          else advance_request (with_started s) h
        else if single_shot (sq_typ s) then (Sequence_Close s, Some ErrSessionClosed)
        else
          let s := with_continues (sq_continues s + 1) s in
          if sq_maxCont s <? sq_continues s then (Sequence_Close s, Some ErrTooManyContinues)
          else advance_request s h
    end.

Definition NextReply (s : Sequence) (flags : Z) : Sequence * result codec_error Header :=
  if sq_closed s then (s, Err ErrSessionClosed)
  else if negb (sq_started s) then (s, Err ErrSeqUnexpected)
  else if sq_wrap s then (Sequence_Close s, Err ErrSeqWrap)
  else if negb (ServerSeq (sq_next s)) then (s, Err ErrSeqParity)
  else
    let seq := sq_next s in
    match NextSeq seq with
    | Err e => (Sequence_Close s, Err e)
    | Ok next =>
        let s := with_replied (with_next next s) in
        let s := if single_shot (sq_typ s) then Sequence_Close s else s in
        (s, Ok (mkHeader 0 (sq_typ s) seq flags (sq_sessionID s) 0))
    end.

(** ** Single-connect negotiation (sequence.go) *)

Record SingleConnect : Type := mkSingleConnect {
  sc_sawClient : bool; sc_client : bool; sc_done : bool; sc_ok : bool
}.

Definition newSingleConnect : SingleConnect := mkSingleConnect false false false false.

Definition flag_set (flags : Z) : bool := negb (Z.land flags FlagSingleConnect =? 0).

Definition OnClientFirst (flags : Z) (s : SingleConnect) : SingleConnect :=
  if sc_sawClient s || sc_done s then s
  else mkSingleConnect true (flag_set flags) (sc_done s) (sc_ok s).

Definition OnServerFirst (flags : Z) (s : SingleConnect) : SingleConnect * bool :=
  if sc_done s then (s, sc_ok s)
  else
    let ok := sc_sawClient s && sc_client s && flag_set flags in
    (mkSingleConnect (sc_sawClient s) (sc_client s) true ok, ok).

Definition Negotiated (s : SingleConnect) : bool := sc_ok s.
Definition Pending (s : SingleConnect) : bool := sc_sawClient s && negb (sc_done s).
Definition Complete (s : SingleConnect) : bool := sc_done s.
Definition AllowNewSession (s : SingleConnect) : option codec_error :=
  if negb (Negotiated s) then Some ErrPrematurePacket else None.
Definition NegotiateSingleConnect (firstPair : bool) (clientFlags serverFlags : Z) : bool :=
  if negb firstPair then false else flag_set clientFlags && flag_set serverFlags.

(** ** Runs of the packet-order machine

    Any caller, any order of calls.  [run_seq] also logs the sequence numbers
    that were accepted from the client or issued to it, oldest first. *)

Inductive seq_op : Type :=
| OpRequest (h : Header) | OpReply (flags : Z) | OpClose | OpSetMax (n : Z).

Definition seq_exec (st : Sequence * list Z) (op : seq_op) : Sequence * list Z :=
  let '(s, log) := st in
  match op with
  | OpRequest h =>
      match CheckRequest s h with
      | (s', None) => (s', log ++ [SeqNo h])
      | (s', Some _) => (s', log)
      end
  | OpReply flags =>
      match NextReply s flags with
      | (s', Ok h) => (s', log ++ [SeqNo h])
      | (s', Err _) => (s', log)
      end
  | OpClose => (Sequence_Close s, log)
  | OpSetMax n => (SetMaxContinues n s, log)
  end.

Definition run_seq (sid typ : Z) (ops : list seq_op) : Sequence * list Z :=
  fold_left seq_exec ops (NewSequence sid typ, []).

(** [1; 2; ...; n] *)
Definition upto (n : nat) : list Z := map Z.of_nat (seq 1 n).

(** The invariant that ties the machine to the log it has produced: [n]
    numbers in order, then [k] repetitions of 255 once the number space is
    used up. *)
Record seq_inv (s : Sequence) (log : list Z) (n k : nat) : Prop := {
  inv_log : log = upto n ++ replicate k 255;
  inv_started : sq_started s = bool_decide (n <> 0%nat);
  inv_replied : sq_replied s = bool_decide (2 <= n)%nat;
  inv_next : sq_wrap s = false -> sq_next s = Z.of_nat n + 1 /\ (n <= 254)%nat /\ k = 0%nat;
  inv_wrap : sq_wrap s = true -> sq_next s = 255 /\ n = 255%nat;
  inv_cpos : 0 <= sq_continues s;
  inv_conts : Z.of_nat n + Z.of_nat k <= 2 * sq_continues s + 2
}.

(** ** Lemmas *)

Lemma upto_S n : upto (S n) = upto n ++ [Z.of_nat (S n)].
Proof. unfold upto. by rewrite seq_S, map_app. Qed.

Lemma odd_even n : ClientSeq n = negb (n mod 2 =? 0).
Proof.
  unfold ClientSeq. pose proof (Z.mod_pos_bound n 2).
  destruct (n mod 2 =? 1) eqn:A, (n mod 2 =? 0) eqn:B; bool_hyps; try done; lia.
Qed.

Lemma CheckRequest_accept s h s' :
  CheckRequest s h = (s', None) ->
  sq_closed s = false /\ SeqNo h = sq_next s /\ ClientSeq (SeqNo h) = true /\
  SessionID h = sq_sessionID s /\ Type_ h = sq_typ s /\ Header_Validate h = None /\
  ((sq_started s = false /\ SeqNo h = 1 /\ advance_request (with_started s) h = (s', None)) \/
   (sq_started s = true /\ sq_replied s = true /\ single_shot (sq_typ s) = false /\
    sq_continues s + 1 <= sq_maxCont s /\
    advance_request (with_continues (sq_continues s + 1) s) h = (s', None))).
Proof.
  unfold CheckRequest. intros H.
  destruct (sq_closed s) eqn:Hc; [done|].
  destruct (_ || _) eqn:Hm in H; [done|].
  destruct (Header_Validate h) eqn:Hv; [done|].
  destruct (negb (ClientSeq _)) eqn:Hp in H; [done|].
  destruct (sq_started s && _) eqn:Hr in H; [done|].
  destruct (negb (SeqNo h =? sq_next s)) eqn:Hn in H; [done|].
  bool_hyps. split_and!; try done. destruct (sq_started s) eqn:Hs; cbn [negb] in H.
  - right. cbn [andb] in Hr. apply negb_false_iff in Hr.
    destruct (single_shot _) eqn:Ht in H; [done|]. cbv zeta in H.
    destruct (_ <? _) eqn:Hl in H; [done|]. bool_hyps. cbn in Hl. by split_and!.
  - left. destruct (negb (_ =? 1)) eqn:Hone in H; [done|]. bool_hyps. by split_and!.
Qed.

(** A refused request changes nothing but possibly the closed flag and the count. *)
Lemma CheckRequest_refuse s h s' e :
  CheckRequest s h = (s', Some e) ->
  s' = s \/ s' = Sequence_Close s \/
  s' = Sequence_Close (with_continues (sq_continues s + 1) s).
Proof.
  unfold CheckRequest, advance_request. intros H.
  repeat match type of H with
  | (if ?b then _ else _) = _ => destruct b
  | match ?m with _ => _ end = _ => destruct m
  | (let _ := _ in _) = _ => cbv zeta in H
  end; simplify_eq; auto.
Qed.

Lemma NextReply_issue s flags s' h :
  NextReply s flags = (s', Ok h) ->
  sq_closed s = false /\ sq_started s = true /\ sq_wrap s = false /\
  ServerSeq (sq_next s) = true /\
  h = mkHeader 0 (sq_typ s) (sq_next s) flags (sq_sessionID s) 0 /\
  exists next, NextSeq (sq_next s) = Ok next /\
    s' = let s1 := with_replied (with_next next s) in
         if single_shot (sq_typ s) then Sequence_Close s1 else s1.
Proof.
  unfold NextReply. intros H.
  destruct (sq_closed s) eqn:Hc; [done|].
  destruct (negb (sq_started s)) eqn:Hs in H; [done|].
  destruct (sq_wrap s) eqn:Hw; [done|].
  destruct (negb (ServerSeq _)) eqn:Hp in H; [done|]. bool_hyps.
  destruct (NextSeq (sq_next s)) as [next|e] eqn:Hn; [|done]. cbv zeta in H.
  split_and!; try done.
  - cbn in H. by destruct (single_shot (sq_typ s)); simplify_eq.
  - exists next. split; [done|]. cbn in *. by destruct (single_shot (sq_typ s)); simplify_eq.
Qed.

Lemma NextReply_refuse s flags s' e :
  NextReply s flags = (s', Err e) -> s' = s \/ s' = Sequence_Close s.
Proof.
  unfold NextReply. intros H.
  repeat match type of H with
  | (if ?b then _ else _) = _ => destruct b
  | match ?m with _ => _ end = _ => destruct m
  | (let _ := _ in _) = _ => cbv zeta in H
  end; simplify_eq; auto.
Qed.

Lemma seq_inv_close s log n k : seq_inv s log n k -> seq_inv (Sequence_Close s) log n k.
Proof. intros []; by constructor. Qed.

Lemma seq_inv_close_continues s log n k m :
  seq_inv s log n k -> sq_continues s <= m ->
  seq_inv (Sequence_Close (with_continues m s)) log n k.
Proof. intros [] ?; constructor; cbn; (done || lia). Qed.

Lemma seq_inv_new sid typ : seq_inv (NewSequence sid typ) [] 0 0.
Proof. constructor; cbn; done || lia. Qed.

(** An accepted client packet: either the next number, or 255 once more. *)
Lemma seq_inv_request s log n k h s' :
  seq_inv s log n k -> CheckRequest s h = (s', None) ->
  exists n' k', seq_inv s' (log ++ [SeqNo h]) n' k' /\ (n' + k' = S (n + k))%nat /\
    (n = 0%nat \/ (sq_replied s = true /\ single_shot (sq_typ s) = false)) /\
    sq_continues s' <= Z.max (sq_continues s) (sq_maxCont s) /\ sq_typ s' = sq_typ s /\
    sq_maxCont s' = sq_maxCont s /\ sq_closed s' = false.
Proof.
  intros [Hlog Hst Hrep Hnext Hwrap Hcpos Hcont] H.
  apply CheckRequest_accept in H as (Hc & Hseq & Hodd & _ & _ & _ & H).
  assert (Hadv : forall s1, sq_wrap s1 = sq_wrap s -> advance_request s1 h = (s', None) ->
    (sq_wrap s = false /\ (n <= 253)%nat /\ s' = with_next (Z.of_nat n + 2) s1) \/
    (s' = with_wrap s1 /\ ((sq_wrap s = false /\ n = 254%nat) \/ (sq_wrap s = true /\ n = 255%nat)))).
  { intros s1 Hw1. unfold advance_request. rewrite Hseq. destruct (sq_wrap s) eqn:Hw.
    - destruct (Hwrap eq_refl) as [-> ->]. cbn. intros [= <-]. right. auto.
    - destruct (Hnext eq_refl) as (-> & Hn & _). unfold NextSeq.
      destruct (_ =? 0) eqn:E0; bool_hyps; [lia|].
      destruct (_ =? 255) eqn:E1; bool_hyps; intros [= <-].
      + right. split; [done|]. left. split; [done|lia].
      + left. split_and!; [done|lia|]. f_equal. rewrite to_u8_id by (unfold is_u8; lia). lia. }
  destruct H as [(Hs0 & Hone & Ha)|(Hs1 & Hr1 & Hshot & Hlim & Ha)].
  - assert (n = 0%nat) as ->.
    { rewrite Hst in Hs0. by apply bool_decide_eq_false, dec_stable in Hs0. }
    apply Hadv in Ha as [(Hw & _ & ->)|[_ [[_ ?]|[_ ?]]]]; [|lia..|done].
    destruct (Hnext Hw) as (Hn1 & _ & ->).
    exists 1%nat, 0%nat. split; [|split_and!; auto; cbn; lia].
    constructor; cbn; try done; try (intros; lia);
      [by rewrite Hlog, Hone|congruence].
  - assert (Hn2 : (2 <= n)%nat) by (rewrite Hrep in Hr1; by apply bool_decide_eq_true in Hr1).
    apply Hadv in Ha as [(Hw & Hn & ->)|[-> Hcase]]; [| |done].
    + destruct (Hnext Hw) as (Hnx & _ & ->).
      exists (S n), 0%nat. split; [|split_and!; auto; cbn; lia].
      constructor; cbn -[upto]; try lia; try congruence.
      * rewrite Hlog, upto_S, !app_nil_r, Hseq, Hnx. do 2 f_equal. lia.
      * rewrite Hs1. symmetry. by apply bool_decide_eq_true.
      * rewrite Hr1. symmetry. apply bool_decide_eq_true. lia.
    + assert (Hk : exists n' k', (n' + k' = S (n + k))%nat /\ n' = 255%nat /\ sq_next s = 255 /\
          log ++ [SeqNo h] = upto n' ++ replicate k' 255).
      { destruct Hcase as [[Hw ->]|[Hw ->]].
        - destruct (Hnext Hw) as (Hnx & _ & ->). exists 255%nat, 0%nat. split_and!; try lia.
          rewrite Hlog, !app_nil_r, Hseq, Hnx. by rewrite (upto_S 254).
        - destruct (Hwrap Hw) as [Hnx _]. exists 255%nat, (S k). split_and!; try lia.
          rewrite Hlog, Hseq, Hnx, replicate_S_end. by rewrite app_assoc. }
      destruct Hk as (n' & k' & Hsum & -> & Hn255 & Hl). exists 255%nat, k'.
      split; [|split_and!; auto; cbn; lia].
      constructor; cbn -[upto]; try done; try lia.
Qed.

(** An issued reply is the next number, and it is even. *)
Lemma seq_inv_reply s log n k flags s' h :
  seq_inv s log n k -> NextReply s flags = (s', Ok h) ->
  seq_inv s' (log ++ [SeqNo h]) (S n) 0 /\ k = 0%nat /\ sq_typ s' = sq_typ s /\
  sq_maxCont s' = sq_maxCont s /\ sq_continues s' = sq_continues s /\
  (n <= 253)%nat /\ (Z.of_nat n) mod 2 = 1 /\
  sq_closed s' = single_shot (sq_typ s) /\ SeqNo h = Z.of_nat n + 1.
Proof.
  intros [Hlog Hst Hrep Hnext Hwrap Hcpos Hcont] H.
  apply NextReply_issue in H as (Hc & Hs & Hw & Hev & -> & next & Hn & ->).
  destruct (Hnext Hw) as (Hnx & Hle & ->). cbn [SeqNo].
  unfold ServerSeq in Hev. bool_hyps. rewrite Hnx in *.
  apply NextSeq_Ok in Hn as [-> Hb]; [|unfold is_u8; lia].
  assert (Hmod : Z.of_nat n mod 2 = 1) by mod_lia.
  assert (Hn1 : n <> 0%nat) by (intros ->; done).
  assert (n <= 253)%nat by mod_lia.
  assert (Hinv : seq_inv (with_replied (with_next (Z.of_nat n + 1 + 1) s))
                   (log ++ [Z.of_nat n + 1]) (S n) 0).
  { constructor; cbn -[upto]; try done; try lia.
    - rewrite Hlog, upto_S, !app_nil_r. do 2 f_equal. lia.
    - symmetry. apply bool_decide_eq_true. lia.
    - congruence.
    - mod_lia. }
  destruct (single_shot (sq_typ s)); cbv zeta; (split; [|split_and!; done || lia]);
    [by apply seq_inv_close|done].
Qed.

Lemma seq_exec_sessionID st op : sq_sessionID (fst (seq_exec st op)) = sq_sessionID (fst st).
Proof.
  destruct st as [s log], op; simpl; [| |done|done].
  - unfold CheckRequest, advance_request.
    repeat (case_match; simplify_eq; try done).
  - unfold NextReply. repeat (case_match; simplify_eq; try done).
Qed.

(** What a run preserves, for a session of type [typ]. *)
Definition run_inv (typ : Z) (st : Sequence * list Z) : Prop :=
  exists n k, seq_inv (fst st) (snd st) n k /\ sq_typ (fst st) = typ /\
    (single_shot typ = true -> (n + k <= 2)%nat /\ ((2 <= n)%nat -> sq_closed (fst st) = true)).

(** The continuation limit of a machine whose cap was never overridden. *)
Definition limit_inv (st : Sequence * list Z) : Prop :=
  exists n k, seq_inv (fst st) (snd st) n k /\ (n + k <= 66)%nat /\
    sq_maxCont (fst st) = 32 /\ (sq_closed (fst st) = false -> sq_continues (fst st) <= 32).

Definition keeps_cap (op : seq_op) : Prop := match op with OpSetMax _ => False | _ => True end.

Lemma seq_inv_setmax s log n k m : seq_inv s log n k -> seq_inv (SetMaxContinues m s) log n k.
Proof. intros []; by constructor. Qed.

Lemma run_inv_step typ st op : run_inv typ st -> run_inv typ (seq_exec st op).
Proof.
  destruct st as [s log]. intros (n & k & Hi & Ht & Hss). cbn [fst snd] in *. destruct op; simpl.
  - destruct (CheckRequest s h) as [s' [e|]] eqn:H.
    + destruct (CheckRequest_refuse s h s' e H) as [-> | [-> | ->]]; exists n, k; cbn [fst snd].
      * by split_and!.
      * split_and!; [by apply seq_inv_close|done|naive_solver].
      * split_and!; [by apply seq_inv_close_continues; [done|lia]|done|naive_solver].
    + destruct (seq_inv_request s log n k h s' Hi H) as (n' & k' & Hi' & Hsum & Hcase & _ & Ht' & _ & _).
      exists n', k'. cbn [fst snd]. split_and!; [done|congruence|]. intros Hs.
      destruct Hcase as [->|[_ Hs']]; [|congruence].
      destruct Hi as [_ _ _ Hnx Hwr _ _]. destruct (sq_wrap s); [by destruct (Hwr eq_refl)|].
      destruct (Hnx eq_refl) as (_ & _ & ->). split; [lia|]. intros Hn'. lia.
  - destruct (NextReply s flags) as [s' [h|e]] eqn:H.
    + destruct (seq_inv_reply s log n k flags s' h Hi H)
        as (Hi' & -> & Ht' & _ & _ & _ & Hodd & Hcl & _).
      exists (S n), 0%nat. cbn [fst snd]. split_and!; [done|congruence|]. intros Hs.
      rewrite Hcl, Ht, Hs. destruct (Hss Hs) as [Hle _].
      assert (n <> 2%nat) by (intros ->; done). split; [lia|done].
    + destruct (NextReply_refuse s flags s' e H) as [-> | ->]; exists n, k; cbn [fst snd].
      * by split_and!.
      * split_and!; [by apply seq_inv_close|done|naive_solver].
  - exists n, k. cbn [fst snd]. split_and!; [by apply seq_inv_close|done|naive_solver].
  - exists n, k. cbn [fst snd]. split_and!; [by apply seq_inv_setmax|done|naive_solver].
Qed.

Lemma limit_inv_step st op : limit_inv st -> keeps_cap op -> limit_inv (seq_exec st op).
Proof.
  destruct st as [s log]. intros (n & k & Hi & Hle & Hm & Hc) Hk. cbn [fst snd] in *.
  destruct op; simpl.
  - destruct (CheckRequest s h) as [s' [e|]] eqn:H.
    + destruct (CheckRequest_refuse s h s' e H) as [-> | [-> | ->]]; exists n, k; cbn [fst snd].
      * by split_and!.
      * split_and!; [by apply seq_inv_close|done..].
      * split_and!; [by apply seq_inv_close_continues; [done|lia]|done..].
    + pose proof (CheckRequest_accept _ _ _ H) as (Hopen & _).
      destruct (seq_inv_request s log n k h s' Hi H) as (n' & k' & Hi' & Hsum & _ & Hl & _ & Hm' & _).
      exists n', k'. cbn [fst snd]. specialize (Hc Hopen). rewrite Hm in *.
      pose proof (inv_conts _ _ _ _ Hi'). split_and!; (done || lia).
  - destruct (NextReply s flags) as [s' [h|e]] eqn:H.
    + pose proof (NextReply_issue _ _ _ _ H) as (Hopen & _).
      destruct (seq_inv_reply s log n k flags s' h Hi H)
        as (Hi' & -> & _ & Hm' & Hcs & _).
      exists (S n), 0%nat. cbn [fst snd]. specialize (Hc Hopen).
      pose proof (inv_conts _ _ _ _ Hi'). split_and!; (done || lia).
    + destruct (NextReply_refuse s flags s' e H) as [-> | ->]; exists n, k; cbn [fst snd].
      * by split_and!.
      * split_and!; [by apply seq_inv_close|done..].
  - exists n, k. cbn [fst snd]. split_and!; [by apply seq_inv_close|done..].
  - done.
Qed.

Lemma run_inv_run sid typ ops : run_inv typ (run_seq sid typ ops).
Proof.
  unfold run_seq. apply (fold_left_invariant _ _ (fun _ => True)).
  - exists 0%nat, 0%nat. split_and!; [apply seq_inv_new|done|intros _; cbn; lia].
  - intros st op Hst _. by apply run_inv_step.
  - by apply Forall_true.
Qed.

Lemma seq_inv_bound s log n k : seq_inv s log n k -> (n <= 255)%nat /\ ((0 < k)%nat -> n = 255%nat).
Proof.
  intros [_ _ _ Hnx Hwr _ _]. destruct (sq_wrap s).
  - by destruct (Hwr eq_refl) as [_ ->].
  - destruct (Hnx eq_refl) as (_ & ? & ->). split; lia.
Qed.

(** ** Runs of the single-connect negotiation *)

Inductive sc_op : Type := ScClient (flags : Z) | ScServer (flags : Z).

Definition sc_exec (s : SingleConnect) (op : sc_op) : SingleConnect :=
  match op with
  | ScClient f => OnClientFirst f s
  | ScServer f => fst (OnServerFirst f s)
  end.

Lemma sc_done_fixed s ops : sc_done s = true -> fold_left sc_exec ops s = s.
Proof.
  intros Hd. induction ops as [|op ops IH]; simpl; [done|].
  assert (sc_exec s op = s) as ->; [|done].
  destruct op; simpl; unfold OnClientFirst, OnServerFirst; rewrite Hd; [by rewrite orb_true_r|done].
Qed.

Lemma sc_clients_fixed f fs :
  fold_left sc_exec (map ScClient fs) (OnClientFirst f newSingleConnect) =
  mkSingleConnect true (flag_set f) false false.
Proof. induction fs as [|g fs IH]; simpl; [done|]. exact IH. Qed.

(** ** Lemmas on the matrix *)

Lemma usable_service svc : svc <> AuthenServiceEnable ->
  (svc =? AuthenServiceNone) || negb (KnownAuthenService svc) = false <->
  In svc [1; 3; 5; 6; 7; 8; 9].
Proof.
  unfold KnownAuthenService, AuthenServiceNone, AuthenServiceLogin, AuthenServiceEnable,
    AuthenServicePPP, AuthenServicePT, AuthenServiceRCMD, AuthenServiceX25, AuthenServiceNASI,
    AuthenServiceFWProxy. simpl. lia.
Qed.

Definition login_matrix : list (Z * Z * Flow) :=
  [(AuthenTypeASCII, 0, FlowASCIILogin); (AuthenTypePAP, 1, FlowPAPLogin);
   (AuthenTypeCHAP, 1, FlowCHAPLogin); (AuthenTypeMSCHAP, 1, FlowMSCHAPv1);
   (AuthenTypeMSCHAPV2, 1, FlowMSCHAPv2)].

Lemma login_matrix_spec typ minor f :
  In (typ, minor, f) login_matrix <->
  loginFlow typ = Some f /\ minor = if bool_decide (f = FlowASCIILogin) then 0 else 1.
Proof.
  unfold login_matrix, loginFlow. simpl. split.
  - by intros [[= <- <- <-]|[[= <- <- <-]|[[= <- <- <-]|[[= <- <- <-]|[[= <- <- <-]|[]]]]]].
  - intros [H ->].
    repeat match type of H with
    | (if ?b then _ else _) = _ => destruct b eqn:?
    end; simplify_eq; bool_hyps; subst; simpl; tauto.
Qed.

Lemma classifyLogin_accepts minor s f :
  classifyLogin minor s = (f, DispositionAccept) <->
  (as_Service s = AuthenServiceEnable /\ minor = 0 /\ f = FlowEnable) \/
  (In (as_Service s) [1; 3; 5; 6; 7; 8; 9] /\ In (as_Type s, minor, f) login_matrix).
Proof.
  rewrite login_matrix_spec. unfold classifyLogin.
  destruct (as_Service s =? AuthenServiceEnable) eqn:Es; bool_hyps.
  - rewrite Es. destruct (minor =? 0) eqn:Em; bool_hyps; simpl; (split; [naive_solver|]);
      (intros [(_ & ? & ->)|[Hin _]]; [done|unfold AuthenServiceEnable in Hin; lia]).
  - pose proof (usable_service _ Es) as Hu. destruct (loginFlow (as_Type s)) as [g|].
    + destruct ((_ =? _) || _) eqn:Eu.
      * split; [done|]. intros [[? _]|[Hin _]]; [done|]. by apply Hu in Hin.
      * destruct (minor =? _) eqn:Em; bool_hyps; (split; [|naive_solver]); [|done].
        intros [= <-]. right. by rewrite <- Hu.
    + split; [done|]. by intros [[? _]|[_ [? _]]].
Qed.

Lemma classifyCHPASS_accepts minor s f :
  classifyCHPASS minor s = (f, DispositionAccept) <->
  In (as_Service s) [1; 3; 5; 6; 7; 8; 9] /\ as_Type s = AuthenTypeASCII /\ minor = 0 /\
  f = FlowASCIIChpass.
Proof.
  unfold classifyCHPASS.
  destruct (as_Service s =? AuthenServiceEnable) eqn:Es; bool_hyps.
  { rewrite Es. split; [done|]. intros [Hin _]. unfold AuthenServiceEnable in Hin. simpl in Hin. lia. }
  pose proof (usable_service _ Es) as Hu.
  destruct (as_Type s =? AuthenTypeASCII) eqn:Et; bool_hyps; simpl negb; cbv iota; [|naive_solver].
  destruct ((_ =? _) || _) eqn:Eu.
  - split; [done|]. intros [Hin _]. by apply Hu in Hin.
  - destruct (minor =? 0) eqn:Em; bool_hyps; simpl negb; cbv iota; [|naive_solver].
    rewrite <- Hu. naive_solver.
Qed.

(** ** Properties *)

(** The START matrix accepts exactly: LOGIN with service ENABLE at minor 0, whatever
    the type; LOGIN with a known service other than NONE and ENABLE, as ASCII at
    minor 0 or as PAP, CHAP, MS-CHAP or MS-CHAPv2 at minor 1; and CHPASS with
    type ASCII, such a service, at minor 0. Everything else, the removed actions
    SENDPASS and SENDAUTH and the removed service ARAP included, is answered FAIL or ERROR. *)
Lemma ClassifyAuthenStart_accepts (minor : Z) (s : AuthenStart) (f : Flow) :
  ClassifyAuthenStart minor s = (f, DispositionAccept) <->
  (as_Action s = AuthenActionLogin /\ as_Service s = AuthenServiceEnable /\ minor = 0 /\ f = FlowEnable)
  \/ (In (as_Service s) [1; 3; 5; 6; 7; 8; 9] /\
      ((as_Action s = AuthenActionLogin /\ In (as_Type s, minor, f) login_matrix)
       \/ (as_Action s = AuthenActionCHPASS /\ as_Type s = AuthenTypeASCII /\ minor = 0 /\
           f = FlowASCIIChpass))).
Proof.
  unfold ClassifyAuthenStart.
  destruct (_ || _) eqn:Er.
  { split; [done|]. intros H.
    assert (as_Action s = AuthenActionLogin \/ as_Action s = AuthenActionCHPASS) as [Ha|Ha]
      by tauto; by rewrite Ha in Er. }
  destruct (as_Action s =? AuthenActionCHPASS) eqn:Ec; bool_hyps.
  { rewrite classifyCHPASS_accepts, Ec. naive_solver. }
  destruct (as_Action s =? AuthenActionLogin) eqn:El; bool_hyps.
  { rewrite classifyLogin_accepts. tauto. }
  split; [done|]. naive_solver.
Qed.

(** Packet order: whatever the order of requests, replies, closes and
    cap changes, the numbers a session accepts and issues are 1, 2, 3, ... without
    a gap, a repetition or a wrap past 255; only the last client number 255 can be
    accepted again, until the next reply closes the session. *)
Lemma sequence_in_order (sid typ : Z) (ops : list seq_op) :
  exists n k, snd (run_seq sid typ ops) = upto n ++ replicate k 255 /\
    (n <= 255)%nat /\ ((0 < k)%nat -> n = 255%nat).
Proof.
  destruct (run_inv_run sid typ ops) as (n & k & Hi & _).
  exists n, k. split; [apply (inv_log _ _ _ _ Hi)|]. by apply (seq_inv_bound _ _ _ _ Hi).
Qed.

(** Continuation limit: with the default cap a session accepts and issues at
    most 66 packets (the START, 32 CONTINUEs and a reply to each), so the
    sequence number never comes near 255 and the log is exactly 1..n. *)
Lemma sequence_default_limit (sid typ : Z) (ops : list seq_op) :
  Forall keeps_cap ops ->
  exists n, snd (run_seq sid typ ops) = upto n /\ (n <= 66)%nat.
Proof.
  intros Hops.
  assert (limit_inv (run_seq sid typ ops)) as (n & k & Hi & Hle & _).
  { unfold run_seq. apply (fold_left_invariant _ _ keeps_cap); [|apply limit_inv_step|done].
    exists 0%nat, 0%nat. split_and!; [apply seq_inv_new|lia|done|done]. }
  exists n. destruct (seq_inv_bound _ _ _ _ Hi) as [_ Hk].
  assert (k = 0%nat) as -> by lia. split; [|lia].
  by rewrite (inv_log _ _ _ _ Hi), app_nil_r.
Qed.

(** Authorization and accounting sessions are single-shot: at most one
    request is accepted and at most one reply issued, and the reply closes the session. *)
Lemma sequence_single_shot (sid typ : Z) (ops : list seq_op) :
  typ = TypeAuthor \/ typ = TypeAcct ->
  let '(s, log) := run_seq sid typ ops in
  log = [] \/ log = [1] \/ (log = [1; 2] /\ sq_closed s = true).
Proof.
  intros Ht. assert (Hs : single_shot typ = true) by (by destruct Ht as [-> | ->]).
  destruct (run_inv_run sid typ ops) as (n & k & Hi & _ & Hss). destruct (run_seq _ _ _) as [s log].
  cbn [fst snd] in *. destruct (Hss Hs) as [Hle Hcl].
  destruct (seq_inv_bound _ _ _ _ Hi) as [_ Hk]. rewrite (inv_log _ _ _ _ Hi).
  assert (k = 0%nat) as -> by lia. rewrite app_nil_r.
  destruct n as [|[|[|n]]]; [by left|by right; left| |lia].
  right; right. split; [done|]. apply Hcl. lia.
Qed.

(** Single-connect: the result is fixed by the first client packet and
    the first server reply, both with the flag set; client flags in between, and
    everything after, change nothing; a reply with no client packet never negotiates. *)
Lemma single_connect_first_pair (f g : Z) (fs : list Z) (rest : list sc_op) :
  Negotiated (fold_left sc_exec (ScClient f :: map ScClient fs ++ ScServer g :: rest) newSingleConnect)
    = NegotiateSingleConnect true f g /\
  Negotiated (fold_left sc_exec (ScServer g :: rest) newSingleConnect) = false.
Proof.
  split.
  - cbn [fold_left sc_exec]. rewrite fold_left_app, sc_clients_fixed. cbn [fold_left sc_exec].
    rewrite sc_done_fixed by done. done.
  - cbn [fold_left sc_exec]. by rewrite sc_done_fixed.
Qed.

(** C11. Which sessions open and in which order their packets go.  A START is
    accepted exactly as LOGIN with service ENABLE at minor 0, whatever the
    type; as LOGIN with a known service other than NONE and ENABLE, ASCII at
    minor 0 or PAP, CHAP, MS-CHAP or MS-CHAPv2 at minor 1; or as CHPASS with
    type ASCII, such a service, at minor 0.  Then, for any order of requests, replies, closes and cap
    changes.  The numbers a session accepts and issues are 1, 2, 3, ...
    without a gap, a repetition or a wrap past 255; only the last client number
    255 can be accepted again, until the next reply closes the session.  With
    the default cap there are at most 66 of them (the START, 32 CONTINUEs and a
    reply to each).  Authorization and accounting are single-shot: one request,
    one reply, which closes the session.  Single-connect is fixed by the first
    client packet and the first reply. *)
Theorem session_rules (sid typ : Z) (ops : list seq_op) :
  (forall minor s f, ClassifyAuthenStart minor s = (f, DispositionAccept) <->
    (as_Action s = AuthenActionLogin /\ as_Service s = AuthenServiceEnable /\ minor = 0 /\ f = FlowEnable)
    \/ (In (as_Service s) [1; 3; 5; 6; 7; 8; 9] /\
        ((as_Action s = AuthenActionLogin /\ In (as_Type s, minor, f) login_matrix)
         \/ (as_Action s = AuthenActionCHPASS /\ as_Type s = AuthenTypeASCII /\ minor = 0 /\ f = FlowASCIIChpass))))
  /\ (exists n k, snd (run_seq sid typ ops) = upto n ++ replicate k 255 /\
    (n <= 255)%nat /\ ((0 < k)%nat -> n = 255%nat))
  /\ (Forall keeps_cap ops -> exists n, snd (run_seq sid typ ops) = upto n /\ (n <= 66)%nat)
  /\ (typ = TypeAuthor \/ typ = TypeAcct ->
      let '(s, log) := run_seq sid typ ops in log = [] \/ log = [1] \/ (log = [1; 2] /\ sq_closed s = true))
  /\ (forall f g fs rest,
      Negotiated (fold_left sc_exec (ScClient f :: map ScClient fs ++ ScServer g :: rest) newSingleConnect)
        = NegotiateSingleConnect true f g /\
      Negotiated (fold_left sc_exec (ScServer g :: rest) newSingleConnect) = false).
Proof.
  split; [apply ClassifyAuthenStart_accepts|]. split; [apply sequence_in_order|]. split; [apply sequence_default_limit|].
  split; [apply sequence_single_shot|]. exact single_connect_first_pair.
Qed.
