(* ===== verification/TacacsObfuscate.v ===== *)
(** TACACS+ body obfuscation (internal/tacacs/codec/obfuscate.go). *)

From S2P Require Import Prelude Md5.

(** The loop [for len(pad) < n], [None] when the fuel runs out. *)
Fixpoint pad_loop (fuel : nat) (prefix : bytes) (n : Z) (pad prev : bytes) : option bytes :=
  if len pad <? n then
    match fuel with
    | O => None
    | S fuel' =>
        let prev := md5 (prefix ++ prev) in
        pad_loop fuel' prefix n (pad ++ prev) prev
    end
  else Some pad.

Definition obfuscationPad (sessionID version seqNo : Z) (key : bytes) (n : Z) : option bytes :=
  let prefix := put_u32 sessionID ++ key ++ [version; seqNo] in
  pad ← pad_loop (Z.to_nat n) prefix n [] [];
  Some (slice pad 0 n).

Fixpoint xor_bytes (body pad : bytes) : bytes :=
  match body, pad with
  | b :: body', p :: pad' => Z.lxor b p :: xor_bytes body' pad'
  | _, _ => []
  end.

Definition Obfuscate (sessionID version seqNo : Z) (key body : bytes) : option bytes :=
  if len body =? 0 then Some []
  else
    pad ← obfuscationPad sessionID version seqNo key (len body);
    Some (xor_bytes body pad).

(** ** Lemmas *)

(** Every turn adds 16 octets, so [n] turns are more than enough. *)
Lemma pad_loop_total fuel prefix n pad prev :
  n <= len pad + 16 * Z.of_nat fuel ->
  exists pad', pad_loop fuel prefix n pad prev = Some pad' /\ n <= len pad'.
Proof.
  revert pad prev. induction fuel as [|fuel IH]; intros pad prev Hn; simpl.
  - destruct (_ <? _) eqn:E; bool_hyps; [lia|eauto].
  - destruct (_ <? _) eqn:E; bool_hyps; [|eauto].
    apply IH. rewrite len_app, len_md5. lia.
Qed.

Lemma obfuscationPad_total sid v s key n : 0 <= n ->
  exists pad, obfuscationPad sid v s key n = Some pad /\ len pad = n.
Proof.
  intros Hn. unfold obfuscationPad.
  destruct (pad_loop_total (Z.to_nat n) (put_u32 sid ++ key ++ [v; s]) n [] []) as (pad & -> & Hl).
  { rewrite len_nil. lia. }
  simpl. eexists. split; [done|]. rewrite len_slice; lia.
Qed.

Lemma len_xor_bytes body pad : len body = len pad -> len (xor_bytes body pad) = len body.
Proof.
  revert pad. induction body as [|b body IH]; intros [|p pad]; simpl;
    rewrite ?len_nil, ?len_cons; try done; intros H.
  rewrite IH; lia.
Qed.

Lemma xor_bytes_involutive body pad : len body = len pad ->
  xor_bytes (xor_bytes body pad) pad = body.
Proof.
  revert pad. induction body as [|b body IH]; intros [|p pad]; simpl; try done.
  rewrite !len_cons. intros H. rewrite Z.lxor_assoc, Z.lxor_nilpotent, Z.lxor_0_r.
  f_equal. apply IH. lia.
Qed.

Lemma Obfuscate_roundtrip sid v s key body :
  exists out, Obfuscate sid v s key body = Some out /\ len out = len body /\
    Obfuscate sid v s key out = Some body.
Proof.
  unfold Obfuscate. destruct (len body =? 0) eqn:E; bool_hyps.
  - exists []. apply len_zero in E as ->. done.
  - destruct (obfuscationPad_total sid v s key (len body)) as (pad & Hp & Hl);
      [apply len_nonneg|].
    rewrite Hp. simpl. exists (xor_bytes body pad).
    rewrite len_xor_bytes by done. split_and!; [done..|].
    apply Z.eqb_neq in E as ->. rewrite Hp. simpl. by rewrite xor_bytes_involutive.
Qed.

(** ** The pad of RFC 8907 section 4.5 *)

(** MD5_1 = MD5(prefix), MD5_k = MD5(prefix, MD5_(k-1)); the pad is their
    concatenation, truncated. *)
Fixpoint md5_chain (prefix : bytes) (k : nat) : bytes :=
  match k with O => [] | S k' => md5 (prefix ++ md5_chain prefix k') end.

Fixpoint pad_blocks (prefix : bytes) (k : nat) : bytes :=
  match k with O => [] | S k' => pad_blocks prefix k' ++ md5_chain prefix (S k') end.

Lemma len_pad_blocks prefix k : len (pad_blocks prefix k) = 16 * Z.of_nat k.
Proof. induction k; simpl; [done|]. rewrite len_app, IHk, len_md5. lia. Qed.

Lemma pad_blocks_prefix prefix j k : (j <= k)%nat ->
  exists r, pad_blocks prefix k = pad_blocks prefix j ++ r.
Proof.
  induction 1 as [|k _ [r IH]]; [exists []; by rewrite app_nil_r|].
  simpl. rewrite IH, <- app_assoc. eauto.
Qed.

Lemma pad_blocks_slice prefix j k n :
  0 <= n <= 16 * Z.of_nat j -> (j <= k)%nat ->
  slice (pad_blocks prefix j) 0 n = slice (pad_blocks prefix k) 0 n.
Proof.
  intros Hn Hjk. destruct (pad_blocks_prefix prefix j k Hjk) as [r ->].
  rewrite !slice_0, take_app_le; [done|].
  pose proof (len_pad_blocks prefix j). unfold len in *. lia.
Qed.

Lemma pad_loop_blocks fuel prefix n j :
  n <= 16 * (Z.of_nat j + Z.of_nat fuel) ->
  exists k, pad_loop fuel prefix n (pad_blocks prefix j) (md5_chain prefix j) =
    Some (pad_blocks prefix k) /\ n <= 16 * Z.of_nat k.
Proof.
  revert j. induction fuel as [|fuel IH]; intros j Hn; simpl; rewrite len_pad_blocks;
    destruct (_ <? n) eqn:E; bool_hyps.
  - lia.
  - eauto.
  - apply (IH (S j)). lia.
  - eauto.
Qed.

(** ** Properties *)

(** The obfuscation pad is the MD5 chain of RFC 8907: for every length
    [n] the loop terminates, and gives the first [n] octets of MD5_1, MD5_2, ...
    over session id, key, version and sequence number; any number [k] of
    blocks that covers [n] gives the same pad. *)
Lemma obfuscationPad_chain (sid v s : Z) (key : bytes) (n : Z) (k : nat) :
  0 <= n <= 16 * Z.of_nat k ->
  obfuscationPad sid v s key n =
    Some (slice (pad_blocks (put_u32 sid ++ key ++ [v; s]) k) 0 n).
Proof.
  intros Hn. unfold obfuscationPad. set (prefix := _ ++ _).
  destruct (pad_loop_blocks (Z.to_nat n) prefix n 0) as (j & Hj & Hle); [lia|].
  simpl in Hj. rewrite Hj. simpl. f_equal.
  destruct (decide (j <= k)%nat).
  - apply pad_blocks_slice; lia.
  - symmetry. apply pad_blocks_slice; lia.
Qed.
