(* ===== verification/TacacsTransport.v ===== *)
(** The two packet transports (internal/tacacs/legacy/transport.go and
    internal/tacacs/tls/transport.go): framing a header and a body on a
    byte stream, with obfuscation on the legacy transport and the unencrypted
    flag on TLS.  [PacketIO] is the interface of internal/tacacs/server/io.go
    with the law the connection relies on.

    A stream is the list of octets still to be read; the connection's
    deadlines, its context and the wiping of key copies are not modelled. *)

From S2P Require Import Prelude Md5 TacacsHeader TacacsObfuscate.

(** Errors of [Read] and [Write]: a codec error, the flag errors of
    server/errors.go, a stream that ends early, the refusal of
    the legacy [Write]. *)
Inductive io_error : Type :=
| IoCodec (e : codec_error)
| ErrUnencrypted
| ErrMissingUnencrypted
| ErrIoShort
| ErrLegacyFlag.

#[export] Instance io_error_eq_dec : EqDecision io_error.
Proof. solve_decision. Defined.

(** [io.ReadFull] of [n] octets; a short stream is consumed. *)
Definition read_full (n : Z) (s : bytes) : option bytes * bytes :=
  if len s <? n then (None, []) else (Some (slice s 0 n), drop (Z.to_nat n) s).

(** [skipBody], the same in both packages. *)
Definition skipBody (h : Header) (maxBody : Z) (s : bytes) : option io_error * bytes :=
  let max := ClampMaxBody maxBody in
  if max <? Length h then (Some (IoCodec ErrBodyTooLarge), s)
  else if Length h =? 0 then (None, s)
  else match read_full (Length h) s with
       | (None, s) => (Some ErrIoShort, s)
       | (Some _, s) => (None, s)
       end.

Definition unencrypted (h : Header) : bool := negb (Z.land (Flags h) FlagUnencrypted =? 0).

(** The part of [Read] after the flag check: the body, still as on the wire. *)
Definition read_body (h : Header) (maxBody : Z) (s : bytes) : result io_error bytes * bytes :=
  match AllocateBody h maxBody with
  | Err e => (Err (IoCodec e), s)
  | Ok body =>
      if len body =? 0 then (Ok body, s)
      else match read_full (len body) s with
           | (None, s) => (Err ErrIoShort, s)
           | (Some b, s) => (Ok b, s)
           end
  end.

(** The header comes back next to body and flag errors. *)
Definition legacy_Read (secret : bytes) (maxBody : Z) (s : bytes)
  : Header * result io_error bytes * bytes :=
  match read_full HeaderSize s with
  | (None, s) => (zeroHeader, Err ErrIoShort, s)
  | (Some raw, s) =>
      match DecodeHeader raw with
      | Err e => (zeroHeader, Err (IoCodec e), s)
      | Ok h =>
          if unencrypted h then
            match skipBody h maxBody s with
            | (Some e, s) => (h, Err e, s)
            | (None, s) => (h, Err ErrUnencrypted, s)
            end
          else
            match read_body h maxBody s with
            | (Err e, s) => (h, Err e, s)
            | (Ok body, s) =>
                if len body =? 0 then (h, Ok body, s)
                else (h, Ok (default [] (Obfuscate (SessionID h) (Version h) (SeqNo h) secret body)), s)
            end
      end
  end.

Definition legacy_Write (secret : bytes) (h : Header) (body : bytes) : result io_error bytes :=
  if unencrypted h then Err ErrLegacyFlag
  else
    let out := if 0 <? len body
               then default [] (Obfuscate (SessionID h) (Version h) (SeqNo h) secret body)
               else body in
    Ok (Header_Encode (set_Length (to_u32 (len out)) h) ++ out).

Definition tls_Read (maxBody : Z) (s : bytes) : Header * result io_error bytes * bytes :=
  match read_full HeaderSize s with
  | (None, s) => (zeroHeader, Err ErrIoShort, s)
  | (Some raw, s) =>
      match DecodeHeader raw with
      | Err e => (zeroHeader, Err (IoCodec e), s)
      | Ok h =>
          if negb (unencrypted h) then
            match skipBody h maxBody s with
            | (Some e, s) => (h, Err e, s)
            | (None, s) => (h, Err ErrMissingUnencrypted, s)
            end
          else
            match read_body h maxBody s with
            | (Err e, s) => (h, Err e, s)
            | (Ok body, s) => (h, Ok body, s)
            end
      end
  end.

Definition tls_Write (h : Header) (body : bytes) : result io_error bytes :=
  let h := set_Flags (Z.lor (Flags h) FlagUnencrypted) h in
  let h := set_Length (to_u32 (len body)) h in
  Ok (Header_Encode h ++ body).

(** ** The interface *)

(** What a transport promises the connection: a packet that [Write] accepted
    is what [Read] on the other side returns, and [Read] leaves the stream at
    the next packet.  [pio_sent h n] is the header that travels. *)
Class PacketIO (T : Type) : Type := {
  pio_read : T -> Z -> bytes -> Header * result io_error bytes * bytes;
  pio_write : T -> Header -> bytes -> result io_error bytes;
  pio_sent : T -> Header -> Z -> Header;
  pio_framed : forall t maxBody h body wire rest,
    wf_header h -> len body <= ClampMaxBody maxBody -> len body < 4294967296 ->
    pio_write t h body = Ok wire ->
    pio_read t maxBody (wire ++ rest) = (pio_sent t h (len body), Ok body, rest)
}.

(** ** Lemmas *)

Lemma read_full_app (a rest : bytes) n : n = len a -> read_full n (a ++ rest) = (Some a, rest).
Proof.
  intros ->. unfold read_full. rewrite len_app.
  destruct (_ <? _) eqn:E; bool_hyps; [pose proof (len_nonneg rest); lia|].
  by rewrite slice_0, len_to_nat, drop_app_length, take_app_length.
Qed.

Lemma read_full_header h s : read_full HeaderSize (Header_Encode h ++ s) = (Some (Header_Encode h), s).
Proof. by rewrite read_full_app. Qed.

Lemma DecodeHeader_encode h : wf_header h -> DecodeHeader (Header_Encode h) = Ok h.
Proof. intros Hw. rewrite <- (app_nil_r (Header_Encode h)). by apply DecodeHeader_encode_app. Qed.

Lemma read_body_app h maxBody body rest :
  Length h = len body -> len body <= ClampMaxBody maxBody ->
  read_body h maxBody (body ++ rest) = (Ok body, rest).
Proof.
  intros Hl Hm. unfold read_body, AllocateBody. rewrite Hl.
  destruct (_ <? _) eqn:E; bool_hyps; [lia|].
  destruct (len body =? 0) eqn:E0; bool_hyps.
  - apply len_zero in E0 as ->. done.
  - pose proof (len_nonneg body).
    rewrite len_make_bytes by done. apply Z.eqb_neq in E0 as ->. by rewrite read_full_app.
Qed.

Lemma wf_set_Length h n : wf_header h -> is_u32 n -> wf_header (set_Length n h).
Proof. intros [] ?. by constructor. Qed.

Lemma lor_flag f : is_u8 f ->
  is_u8 (Z.lor f FlagUnencrypted) /\ Z.land (Z.lor f FlagUnencrypted) FlagUnencrypted = 1.
Proof.
  intros Hf. unfold is_u8, FlagUnencrypted in *. split.
  - split; [apply Z.lor_nonneg; lia|].
    destruct (decide (Z.lor f 1 = 0)) as [->|Hn]; [lia|].
    apply Z.log2_lt_pow2 with (b := 8); [pose proof (proj2 (Z.lor_nonneg f 1)); lia|].
    rewrite Z.log2_lor by lia. apply Z.max_lub_lt; [|done].
    destruct (decide (f = 0)) as [->|]; [done|]. apply Z.log2_lt_pow2; lia.
  - rewrite Z.land_lor_distr_l. change (Z.land 1 1) with 1.
    change 1 with (Z.ones 1). rewrite Z.land_ones by lia. change (2 ^ 1) with 2.
    pose proof (Z.mod_pos_bound f 2 ltac:(lia)).
    assert (f mod 2 = 0 \/ f mod 2 = 1) as [-> | ->] by lia; done.
Qed.

Lemma legacy_framed secret maxBody h body wire rest :
  wf_header h -> len body <= ClampMaxBody maxBody -> len body < 4294967296 ->
  legacy_Write secret h body = Ok wire ->
  legacy_Read secret maxBody (wire ++ rest) = (set_Length (len body) h, Ok body, rest).
Proof.
  intros Hw Hm Hb H. unfold legacy_Write in H. destruct (unencrypted h) eqn:Hu; [done|].
  pose proof (len_nonneg body).
  destruct (Obfuscate_roundtrip (SessionID h) (Version h) (SeqNo h) secret body)
    as (out & Ho & Hlo & Hback).
  assert (Hout : (if 0 <? len body then default []
    (Obfuscate (SessionID h) (Version h) (SeqNo h) secret body) else body) = out).
  { rewrite Ho. destruct (0 <? len body) eqn:E; bool_hyps; [done|].
    assert (body = []) as -> by (apply len_zero; lia). by injection Ho as <-. }
  rewrite Hout, Hlo, to_u32_id in H by (unfold is_u32; lia). apply Ok_inj in H as <-.
  unfold legacy_Read. rewrite <- app_assoc, read_full_header.
  rewrite DecodeHeader_encode by (apply wf_set_Length; [done|unfold is_u32; lia]).
  change (unencrypted (set_Length (len body) h)) with (unencrypted h). rewrite Hu.
  rewrite read_body_app by (cbn; lia). rewrite Hlo.
  destruct (len body =? 0) eqn:E; bool_hyps.
  - apply len_zero in E as ->. rewrite len_nil in Hlo. by apply len_zero in Hlo as ->.
  - cbn. by rewrite Hback.
Qed.

Lemma tls_framed maxBody h body wire rest :
  wf_header h -> len body <= ClampMaxBody maxBody -> len body < 4294967296 ->
  tls_Write h body = Ok wire ->
  tls_Read maxBody (wire ++ rest) =
    (set_Length (len body) (set_Flags (Z.lor (Flags h) FlagUnencrypted) h), Ok body, rest).
Proof.
  intros Hw Hm Hb H. unfold tls_Write in H. cbv zeta in H. pose proof (len_nonneg body).
  destruct (lor_flag (Flags h)) as [Hf Hu]; [apply Hw|].
  rewrite to_u32_id in H by (unfold is_u32; lia). apply Ok_inj in H as <-.
  set (h' := set_Length _ _).
  assert (Hw' : wf_header h').
  { destruct Hw. constructor; cbn; first [done|unfold is_u32; lia]. }
  unfold tls_Read. rewrite <- app_assoc, read_full_header, DecodeHeader_encode by done.
  assert (Hu' : unencrypted h' = true) by (unfold unencrypted; cbn; by rewrite Hu).
  rewrite Hu'. cbn [negb]. by rewrite read_body_app.
Qed.

(** ** Streams of packets, over any transport *)
Section Stream.
  Context `{P : PacketIO T} (t : T) (maxBody : Z).

(** Write a list of packets; the first refused one stops the writer. *)
Fixpoint write_all (ps : list (Header * bytes)) : result io_error bytes :=
  match ps with
  | [] => Ok []
  | (h, body) :: ps' =>
      let! w := pio_write t h body in
      let! ws := write_all ps' in
      Ok (w ++ ws)
  end.

(** Read [n] packets; the first error stops the reader. *)
Fixpoint read_all (n : nat) (s : bytes) : result io_error (list (Header * bytes) * bytes) :=
  match n with
  | O => Ok ([], s)
  | S n' =>
      match pio_read t maxBody s with
      | (_, Err e, _) => Err e
      | (h, Ok body, s) =>
          let! (ps, s) := read_all n' s in
          Ok ((h, body) :: ps, s)
      end
  end.

(** A packet the writer may be given: field widths and the reader's budget. *)
Definition sendable (p : Header * bytes) : Prop :=
  wf_header (fst p) /\ len (snd p) <= ClampMaxBody maxBody.

Lemma read_all_written ps wire rest :
  is_u32 maxBody -> Forall sendable ps -> write_all ps = Ok wire ->
  read_all (length ps) (wire ++ rest) =
    Ok (map (fun p => (pio_sent t (fst p) (len (snd p)), snd p)) ps, rest).
Proof.
  intros Hmax. revert wire. induction ps as [|[h body] ps IH]; simpl; intros wire Hps H.
  - by injection H as <-.
  - forall_hyps. destruct H0 as [Hw Hl]. cbn in Hw, Hl.
    apply rbind_Ok in H as (w & Hwr & H). apply rbind_Ok in H as (ws & Hws & [= <-]).
    pose proof (ClampMaxBody_bound maxBody Hmax). unfold MaxBodyBytes in *.
    rewrite <- app_assoc, (pio_framed t maxBody h body w) by (done || lia).
    rewrite IH by done. done.
Qed.
End Stream.

(** ** Instances *)

Record legacy_conn : Type := mkLegacyConn { lc_secret : bytes }.
Inductive tls_conn : Type := TlsConn.

#[export] Instance legacy_packet_io : PacketIO legacy_conn := {|
  pio_read c := legacy_Read (lc_secret c);
  pio_write c := legacy_Write (lc_secret c);
  pio_sent _ h n := set_Length n h;
  pio_framed c := legacy_framed (lc_secret c)
|}.

#[export] Instance tls_packet_io : PacketIO tls_conn := {|
  pio_read _ := tls_Read;
  pio_write _ := tls_Write;
  pio_sent _ h n := set_Length n (set_Flags (Z.lor (Flags h) FlagUnencrypted) h);
  pio_framed _ := tls_framed
|}.

(** ** Properties *)

(** A packet with the wrong unencrypted flag is skipped whole. *)
Lemma refused_aligned (secret : bytes) (maxBody : Z) (h : Header) (body rest : bytes) :
  wf_header h -> Length h = len body -> len body <= ClampMaxBody maxBody ->
  (unencrypted h = true ->
   legacy_Read secret maxBody (Header_Encode h ++ body ++ rest) = (h, Err ErrUnencrypted, rest)) /\
  (unencrypted h = false ->
   tls_Read maxBody (Header_Encode h ++ body ++ rest) = (h, Err ErrMissingUnencrypted, rest)).
Proof.
  intros Hw Hl Hm.
  assert (Hs : skipBody h maxBody (body ++ rest) = (None, rest)).
  { unfold skipBody. rewrite Hl. destruct (_ <? _) eqn:E; bool_hyps; [lia|].
    destruct (len body =? 0) eqn:E0; bool_hyps.
    - by apply len_zero in E0 as ->.
    - by rewrite read_full_app. }
  split; intros Hu.
  - unfold legacy_Read. by rewrite read_full_header, DecodeHeader_encode, Hu, Hs.
  - unfold tls_Read. by rewrite read_full_header, DecodeHeader_encode, Hu, Hs.
Qed.

(** C12. Packet streams.  Over any transport with the [PacketIO] law, and so over
    both the legacy and the TLS transport, the packets written one after the
    other are read back in order, each with its body and the header that was
    sent, and what follows them is untouched.  A packet with the wrong
    unencrypted flag (set on the legacy transport, clear on TLS) within the
    budget is refused with its header, and the stream is left exactly at the
    next packet, whatever its body holds.  The pad that hides a legacy body is
    the MD5 chain of RFC 8907 for every length: MD5_1, MD5_2, ... over session
    id, key, version and sequence number, cut to the length. *)
Theorem packet_streams (maxBody : Z) (rest : bytes) :
  is_u32 maxBody ->
  (forall T `{PacketIO T} (t : T) (ps : list (Header * bytes)) (wire : bytes),
    Forall (sendable maxBody) ps -> write_all t ps = Ok wire ->
    read_all t maxBody (length ps) (wire ++ rest) =
      Ok (map (fun p => (pio_sent t (fst p) (len (snd p)), snd p)) ps, rest)) /\
  (forall secret h body,
    wf_header h -> Length h = len body -> len body <= ClampMaxBody maxBody ->
    (unencrypted h = true ->
     legacy_Read secret maxBody (Header_Encode h ++ body ++ rest) = (h, Err ErrUnencrypted, rest)) /\
    (unencrypted h = false ->
     tls_Read maxBody (Header_Encode h ++ body ++ rest) = (h, Err ErrMissingUnencrypted, rest))) /\
  (forall sid v s key n k,
    0 <= n <= 16 * Z.of_nat k ->
    obfuscationPad sid v s key n = Some (slice (pad_blocks (put_u32 sid ++ key ++ [v; s]) k) 0 n)).
Proof.
  intros Hm. split; [|split; [|exact obfuscationPad_chain]].
  - intros T HT t ps wire Hs Hw. by apply read_all_written.
  - intros secret h body. apply refused_aligned.
Qed.

Lemma packet_streams_witness :
  let t := mkLegacyConn [115; 51; 99] in
  let ps := [(mkHeader 192 1 2 0 77 0, [1; 0; 0; 3]); (mkHeader 193 1 4 0 77 9, [])] in
  let h := mkHeader 192 1 1 1 7 2 in
  (exists wire, write_all t ps = Ok wire /\
   read_all t 0 (length ps) (wire ++ [9]) =
     Ok (map (fun p => (pio_sent t (fst p) (len (snd p)), snd p)) ps, [9])) /\
  legacy_Read [1] 0 (Header_Encode h ++ [5; 6] ++ [9]) = (h, Err ErrUnencrypted, [9]) /\
  obfuscationPad 1 192 1 [107] 20 = Some (slice (pad_blocks (put_u32 1 ++ [107] ++ [192; 1]) 2) 0 20).
Proof.
  intros t ps h. assert (is_u32 0) as H0 by (unfold is_u32; lia).
  destruct (packet_streams 0 [9] H0) as (H1 & H2 & H3). split; [|split; [|apply H3; lia]].
  - eexists. split; [reflexivity|]. apply (H1 _ _ t ps); [|reflexivity].
    repeat constructor; cbn; try done; unfold is_u32; lia.
  - apply (H2 [1] h [5; 6]); try reflexivity.
    + repeat constructor; unfold is_u8, is_u32; cbn; lia.
    + vm_compute. discriminate.
Defined.
