(* ===== verification/TacacsServer.v ===== *)
(** One TACACS+ connection (internal/tacacs/server: conn.go, handler.go,
    limits.go): dispatch of a packet to the handler, the read loop, the
    session goroutines and the table they share.

    [dispatch] and the reply builders are functions.  The connection is a
    transition relation [step] between the read loop ([main]), one goroutine
    per session ([task]) and the environment; each rule is one access to shared
    state, so the runs of [step] are the interleavings of the code.  A session
    is a cell of a store ([conn_heap]) and the table [conn_sessions] maps a session id to
    the cell, as the Go map holds a pointer: a dropped session may still be running
    while its id names a newer cell. *)

From stdpp Require Import gmap.
From S2P Require Import Prelude TacacsHeader TacacsCursor TacacsBody TacacsSequence TacacsTransport.

(** ** Limits (limits.go); durations are kept as numbers *)

Record Limits : Type := mkLimits {
  MaxConnections : Z; MaxSessionsPerConnection : Z; MaxPacketBodyBytes : Z;
  ReadTimeout : Z; WriteTimeout : Z; IdleTimeout : Z; HandshakeTimeout : Z;
  SingleConnectEnabled : bool; MaxLifetime : Z; ShutdownGrace : Z
}.

Definition second : Z := 1000000000.
Definition defaultMaxSessions : Z := 1024.
Definition defaultShutdownGrace : Z := 15 * second.

Definition or_default (x d : Z) : Z := if x <=? 0 then d else x.

Definition normalized (l : Limits) : Limits :=
  mkLimits (if MaxConnections l <? 0 then 0 else MaxConnections l)
    (or_default (MaxSessionsPerConnection l) defaultMaxSessions)
    (MaxPacketBodyBytes l)
    (or_default (ReadTimeout l) (15 * second)) (or_default (WriteTimeout l) (15 * second))
    (or_default (IdleTimeout l) (60 * second)) (or_default (HandshakeTimeout l) (10 * second))
    (SingleConnectEnabled l) (MaxLifetime l)
    (or_default (ShutdownGrace l) defaultShutdownGrace).

(** ** The handler interface (handler.go) *)

Inductive Transport : Type := TransportLegacy | TransportTLS.
#[export] Instance transport_eq_dec : EqDecision Transport.
Proof. solve_decision. Defined.

Record Identity : Type := mkIdentity {
  id_ClientID : bytes; id_Transport : Transport; id_Peer : bytes; id_Revision : Z
}.

Record Env : Type := mkEnv { env_Identity : Identity; env_SessionID : Z; env_ConnKey : Z }.

(** The AAA hook and the optional finalizer, over a handler state [H]; a handler
    error carries nothing the connection looks at. *)
Class Handler (H : Type) : Type := {
  h_AuthenStart : H -> Env -> AuthenStart -> H * result unit AuthenReply;
  h_AuthenContinue : H -> Env -> AuthenContinue -> H * result unit AuthenReply;
  h_Authorize : H -> Env -> AuthorRequest -> H * result unit AuthorResponse;
  h_Account : H -> Env -> AcctRequest -> H * result unit AcctReply;
  h_EndSession : H -> Env -> H
}.

(** [Stub], which has no finalizer. *)
Definition Stub_AuthenStart (_ : unit) (_ : Env) (_ : AuthenStart) : unit * result unit AuthenReply :=
  (tt, Ok (mkAuthenReply AuthenStatusError 0 [] [])).
Definition Stub_AuthenContinue (_ : unit) (_ : Env) (cont : AuthenContinue) : unit * result unit AuthenReply :=
  if AuthenContinue_Abort cont then (tt, Ok (mkAuthenReply AuthenStatusFail 0 [] []))
  else (tt, Ok (mkAuthenReply AuthenStatusError 0 [] [])).
Definition Stub_Authorize (_ : unit) (_ : Env) (_ : AuthorRequest) : unit * result unit AuthorResponse :=
  (tt, Ok (mkAuthorResponse AuthorStatusFail [] [] [])).
Definition Stub_Account (_ : unit) (_ : Env) (req : AcctRequest) : unit * result unit AcctReply :=
  if negb (ValidAcctFlags (cq_Flags req)) then (tt, Ok (mkAcctReply AcctStatusError [] []))
  else (tt, Ok (mkAcctReply AcctStatusSuccess [] [])).

#[export] Instance stub_handler : Handler unit := {|
  h_AuthenStart := Stub_AuthenStart; h_AuthenContinue := Stub_AuthenContinue;
  h_Authorize := Stub_Authorize; h_Account := Stub_Account; h_EndSession h _ := h
|}.

(** ** Dispatch of one packet *)

Record packet : Type := mkPacket { pk_hdr : Header; pk_body : bytes }.
Record outgoing : Type := mkOutgoing { og_hdr : Header; og_body : bytes; og_terminal : bool }.

(** An error of [dispatch]: a codec error, or [ErrSecretMismatch]. *)
Inductive srv_error : Type := SrvCodec (e : codec_error) | ErrSecretMismatch.

Definition lift_codec {A} (m : result codec_error A) : result srv_error A :=
  match m with Ok a => Ok a | Err e => Err (SrvCodec e) end.

Definition mapDecodeErr (tr : Transport) (e : codec_error) : srv_error :=
  if bool_decide (e = ErrLengthMismatch) && bool_decide (tr = TransportLegacy)
  then ErrSecretMismatch else SrvCodec e.

Definition authenTerminal (status : Z) : bool :=
  (status =? AuthenStatusPass) || (status =? AuthenStatusFail) ||
  (status =? AuthenStatusRestart) || (status =? AuthenStatusError).

Definition encodeAuthen (h : Header) (r : AuthenReply) (terminal : bool) : result srv_error outgoing :=
  let! body := lift_codec (AuthenReply_Encode r) in
  Ok (mkOutgoing (set_Length (to_u32 (len body)) h) body terminal).
Definition encodeAuthor (h : Header) (r : AuthorResponse) : result srv_error outgoing :=
  let! body := lift_codec (AuthorResponse_Encode r) in
  Ok (mkOutgoing (set_Length (to_u32 (len body)) h) body true).
Definition encodeAcct (h : Header) (r : AcctReply) : result srv_error outgoing :=
  let! body := lift_codec (AcctReply_Encode r) in
  Ok (mkOutgoing (set_Length (to_u32 (len body)) h) body true).

Definition authen_status (st : Z) : AuthenReply := mkAuthenReply st 0 [] [].
Definition author_status (st : Z) : AuthorResponse := mkAuthorResponse st [] [] [].
Definition acct_status (st : Z) : AcctReply := mkAcctReply st [] [].

Section Dispatch.
  Context {H : Type} `{Handler H} (ident : Identity) (connKey : Z).

Definition dispatchAuthen (hs : H) (env : Env) (hdr rh : Header) (body : bytes)
  : H * result srv_error outgoing :=
  if SeqNo hdr =? 1 then
    match DecodeAuthenStart body with
    | Err e => (hs, Err (mapDecodeErr (id_Transport ident) e))
    | Ok start =>
        let '(_, disp) := ClassifyAuthenStart (Minor hdr) start in
        if negb (bool_decide (disp = DispositionAccept))
        then (hs, encodeAuthen rh (authen_status (AuthenStatus disp)) true)
        else
          match h_AuthenStart hs env start with
          | (hs, Err _) => (hs, encodeAuthen rh (authen_status AuthenStatusError) true)
          | (hs, Ok reply) => (hs, encodeAuthen rh reply (authenTerminal (ar_Status reply)))
          end
    end
  else
    match DecodeAuthenContinue body with
    | Err e => (hs, Err (mapDecodeErr (id_Transport ident) e))
    | Ok cont =>
        match h_AuthenContinue hs env cont with
        | (hs, Err _) => (hs, encodeAuthen rh (authen_status AuthenStatusError) true)
        | (hs, Ok reply) =>
            (hs, encodeAuthen rh reply (authenTerminal (ar_Status reply) || AuthenContinue_Abort cont))
        end
    end.

Definition dispatchAuthor (hs : H) (env : Env) (hdr rh : Header) (body : bytes)
  : H * result srv_error outgoing :=
  if negb (bool_decide (ClassifyAuthorMinor (Minor hdr) = DispositionAccept))
  then (hs, encodeAuthor rh (author_status AuthorStatusError))
  else
    match DecodeAuthorRequest body with
    | Err e => (hs, Err (mapDecodeErr (id_Transport ident) e))
    | Ok req =>
        match h_Authorize hs env req with
        | (hs, Err _) => (hs, encodeAuthor rh (author_status AuthorStatusError))
        | (hs, Ok reply) => (hs, encodeAuthor rh reply)
        end
    end.

Definition dispatchAcct (hs : H) (env : Env) (hdr rh : Header) (body : bytes)
  : H * result srv_error outgoing :=
  if negb (bool_decide (ClassifyAcctMinor (Minor hdr) = DispositionAccept))
  then (hs, encodeAcct rh (acct_status AcctStatusError))
  else
    match DecodeAcctRequest body with
    | (_, Some e) =>
        if bool_decide (e = ErrAcctFlags)
        then (hs, encodeAcct rh (acct_status AcctStatusError))
        else (hs, Err (mapDecodeErr (id_Transport ident) e))
    | (req, None) =>
        match h_Account hs env req with
        | (hs, Err _) => (hs, encodeAcct rh (acct_status AcctStatusError))
        | (hs, Ok reply) => (hs, encodeAcct rh reply)
        end
    end.

Definition dispatch (seq : Sequence) (hs : H) (hdr : Header) (body : bytes)
  : Sequence * H * result srv_error outgoing :=
  match CheckRequest seq hdr with
  | (seq, Some e) => (seq, hs, Err (SrvCodec e))
  | (seq, None) =>
      match NextReply seq 0 with
      | (seq, Err e) => (seq, hs, Err (SrvCodec e))
      | (seq, Ok rh) =>
          let rh := set_Flags 0 (set_Version (Version hdr) rh) in
          let env := mkEnv ident (SessionID hdr) connKey in
          let '(hs, out) :=
            if Type_ hdr =? TypeAuthen then dispatchAuthen hs env hdr rh body
            else if Type_ hdr =? TypeAuthor then dispatchAuthor hs env hdr rh body
            else if Type_ hdr =? TypeAcct then dispatchAcct hs env hdr rh body
            else (hs, Err (SrvCodec ErrUnknownType)) in
          (seq, hs, out)
      end
  end.
End Dispatch.

(** [replyError] up to the write: the error body of the type (the encoder's
    error is ignored), the header without its flags. *)
Definition body_or_nil (m : result codec_error bytes) : bytes :=
  match m with Ok b => b | Err _ => [] end.

Definition error_body (typ : Z) : bytes :=
  if typ =? TypeAuthen then body_or_nil (AuthenReply_Encode (authen_status AuthenStatusError))
  else if typ =? TypeAuthor then body_or_nil (AuthorResponse_Encode (author_status AuthorStatusError))
  else if typ =? TypeAcct then body_or_nil (AcctReply_Encode (acct_status AcctStatusError))
  else [].

Definition error_packet (req : Header) : option (Header * bytes) :=
  if negb (KnownType req) then None
  else
    let seq := match NextSeq (SeqNo req) with
               | Ok n => Some n
               | Err _ => if negb (SeqNo req =? 0) then None else Some 1
               end in
    n ← seq;
    let body := error_body (Type_ req) in
    Some (mkHeader (Version req) (Type_ req) n 0 (SessionID req) (to_u32 (len body)), body).

(** ** The connection *)

(** Where a session goroutine is: not started, waiting in [select], past the receive, past
    the recheck, past the dispatch, past the second recheck, returned. *)
Inductive task : Type :=
| TNone | TIdle | TGot (p : packet) | TReady (p : packet)
| TReplied (p : packet) (r : result srv_error outgoing)
| TWrite (p : packet) (r : result srv_error outgoing) | TExit.

Record session : Type := mkSession {
  se_id : Z; se_typ : Z; se_seq : Sequence; se_in : option packet; se_done : bool; se_task : task
}.

Definition newSession (id typ : Z) : session :=
  mkSession id typ (NewSequence id typ) None false TNone.

Definition se_with_seq (q : Sequence) (s : session) : session :=
  mkSession (se_id s) (se_typ s) q (se_in s) (se_done s) (se_task s).
Definition se_with_in (i : option packet) (s : session) : session :=
  mkSession (se_id s) (se_typ s) (se_seq s) i (se_done s) (se_task s).
(** [stop] *)
Definition se_stop (s : session) : session :=
  mkSession (se_id s) (se_typ s) (se_seq s) (se_in s) true (se_task s).
Definition se_with_task (t : task) (s : session) : session :=
  mkSession (se_id s) (se_typ s) (se_seq s) (se_in s) (se_done s) t.

(** Where the read loop is: at its head, in [Read], past the lookup of an existing
    session, past the drain check for a new one, at [shouldClose], returned, and
    returned with [shutdownSessions] run. *)
Inductive main_phase : Type :=
| MTop (first : bool) | MRead (first : bool) | MExisting (r : nat) (p : packet)
| MCreate (p : packet) (first : bool) | MCheck | MDone | MShutdown.

Record conn (H : Type) : Type := mkConn {
  cn_sc : SingleConnect;
  cn_sessions : gmap Z nat;
  cn_heap : list session;
  cn_drain : bool;
  cn_closed : bool;
  cn_cancel : bool;
  cn_main : main_phase;
  cn_hs : H;
  cn_out : list (Header * bytes)
}.
Arguments mkConn {H}. Arguments cn_sc {H}. Arguments cn_sessions {H}. Arguments cn_heap {H}.
Arguments cn_drain {H}. Arguments cn_closed {H}. Arguments cn_cancel {H}. Arguments cn_main {H}.
Arguments cn_hs {H}. Arguments cn_out {H}.

Section Updates.
  Context {H : Type}.
Definition with_sc (x : SingleConnect) (c : conn H) : conn H :=
  mkConn x (cn_sessions c) (cn_heap c) (cn_drain c) (cn_closed c) (cn_cancel c) (cn_main c) (cn_hs c) (cn_out c).
Definition with_sessions (x : gmap Z nat) (c : conn H) : conn H :=
  mkConn (cn_sc c) x (cn_heap c) (cn_drain c) (cn_closed c) (cn_cancel c) (cn_main c) (cn_hs c) (cn_out c).
Definition with_heap (x : list session) (c : conn H) : conn H :=
  mkConn (cn_sc c) (cn_sessions c) x (cn_drain c) (cn_closed c) (cn_cancel c) (cn_main c) (cn_hs c) (cn_out c).
Definition with_drain (c : conn H) : conn H :=
  mkConn (cn_sc c) (cn_sessions c) (cn_heap c) true (cn_closed c) (cn_cancel c) (cn_main c) (cn_hs c) (cn_out c).
Definition with_closed (c : conn H) : conn H :=
  mkConn (cn_sc c) (cn_sessions c) (cn_heap c) (cn_drain c) true (cn_cancel c) (cn_main c) (cn_hs c) (cn_out c).
Definition with_cancel (c : conn H) : conn H :=
  mkConn (cn_sc c) (cn_sessions c) (cn_heap c) (cn_drain c) (cn_closed c) true (cn_main c) (cn_hs c) (cn_out c).
Definition with_main (x : main_phase) (c : conn H) : conn H :=
  mkConn (cn_sc c) (cn_sessions c) (cn_heap c) (cn_drain c) (cn_closed c) (cn_cancel c) x (cn_hs c) (cn_out c).
Definition with_hs (x : H) (c : conn H) : conn H :=
  mkConn (cn_sc c) (cn_sessions c) (cn_heap c) (cn_drain c) (cn_closed c) (cn_cancel c) (cn_main c) x (cn_out c).
Definition with_out (x : list (Header * bytes)) (c : conn H) : conn H :=
  mkConn (cn_sc c) (cn_sessions c) (cn_heap c) (cn_drain c) (cn_closed c) (cn_cancel c) (cn_main c) (cn_hs c) x.
Definition upd_session (r : nat) (f : session -> session) (c : conn H) : conn H :=
  with_heap (alter f r (cn_heap c)) c.
End Updates.

Section Connection.
  Context {H : Type} `{Handler H} (ident : Identity) (connKey : Z) (lim : Limits).

Definition newConn (hs : H) : conn H :=
  mkConn newSingleConnect ∅ [] false false false (MTop true) hs [].

Definition sessionCount (c : conn H) : Z := Z.of_nat (size (cn_sessions c)).

(** [write]; [wok] is what the transport answers. *)
Definition write (h : Header) (body : bytes) (wok : bool) (c : conn H) : conn H * bool :=
  if cn_closed c then (c, false)
  else if wok then (with_out (cn_out c ++ [(h, body)]) c, true)
  else (c, false).

Definition negotiateFlags (c : conn H) : conn H * Z :=
  let flags := if SingleConnectEnabled lim then FlagSingleConnect else 0 in
  let c := with_sc (fst (OnServerFirst flags (cn_sc c))) c in
  (c, if Negotiated (cn_sc c) then FlagSingleConnect else 0).

Definition replyError (req : Header) (wok : bool) (c : conn H) : conn H :=
  match error_packet req with
  | None => c
  | Some (h, body) =>
      let '(c, flags) := if negb (Complete (cn_sc c)) then negotiateFlags c else (c, 0) in
      fst (write (set_Flags flags h) body wok c)
  end.

Definition dropSession (r : nat) (c : conn H) : conn H :=
  match cn_heap c !! r with
  | None => c
  | Some s =>
      let c := upd_session r se_stop c in
      let c := if bool_decide (cn_sessions c !! se_id s = Some r)
               then with_sessions (delete (se_id s) (cn_sessions c)) c else c in
      with_hs (h_EndSession (cn_hs c) (mkEnv ident (se_id s) connKey)) c
  end.

(** [ctx.Done] or [s.done] is ready. *)
Definition stopped (s : session) (c : conn H) : bool := cn_cancel c || se_done s.

(** [offer]: a free inbox takes the packet; when the session is also stopped,
    [select] may take either case, [pick] says which. *)
Definition offer (r : nat) (p : packet) (pick : bool) (c : conn H) : conn H * bool :=
  match cn_heap c !! r with
  | None => (c, false)
  | Some s =>
      match se_in s with
      | Some _ => (c, false)
      | None =>
          if stopped s c && negb pick then (c, false)
          else (upd_session r (se_with_in (Some p)) c, true)
      end
  end.

Definition shouldClose (c : conn H) : bool :=
  if Pending (cn_sc c) then false
  else if negb (Negotiated (cn_sc c)) && (sessionCount c =? 0) then true
  else cn_drain c && (sessionCount c =? 0).

(** [dispatch] on the session of cell [r]. *)
Definition dispatch_at (r : nat) (s : session) (p : packet) (c : conn H)
  : conn H * result srv_error outgoing :=
  let '(seq, hs, out) := dispatch ident connKey (se_seq s) (cn_hs c) (pk_hdr p) (pk_body p) in
  (with_hs hs (upd_session r (se_with_seq seq) c), out).

(** The Boolean is true when the read loop must return. *)
Definition processFirst (r : nat) (s : session) (p : packet) (wok : bool) (c : conn H) : conn H * bool :=
  match dispatch_at r s p c with
  | (c, Err ErrSecretMismatch) => (dropSession r (with_drain (replyError (pk_hdr p) wok c)), true)
  | (c, Err (SrvCodec _)) => (dropSession r (replyError (pk_hdr p) wok c), false)
  | (c, Ok out) =>
      let '(c, flags) := negotiateFlags c in
      match write (set_Flags flags (og_hdr out)) (og_body out) wok c with
      | (c, false) => (dropSession r c, true)
      | (c, true) =>
          let closed := match cn_heap c !! r with Some s => sq_closed (se_seq s) | None => false end in
          if og_terminal out || closed then (dropSession r c, false)
          else (upd_session r (se_with_task TIdle) c, false)
      end
  end.

(** [handlePacket] up to the table lookup and the drain check; [inl] says that
    it is over (and whether the loop returns), [inr] where it goes on. *)
Definition handlePacket_head (p : packet) (first wok : bool) (c : conn H) : conn H * (bool + main_phase) :=
  let hdr := pk_hdr p in
  let c := if first then with_sc (OnClientFirst (Flags hdr) (cn_sc c)) c else c in
  if negb (KnownType hdr) then
    match UnknownTypeReply hdr with
    | Err _ => (with_drain c, inl true)
    | Ok reply =>
        let c := if negb (Complete (cn_sc c)) && first
                 then with_sc (fst (OnServerFirst (Flags reply) (cn_sc c))) c else c in
        (with_drain (fst (write reply [] wok c)), inl false)
    end
  else
    match Header_Validate hdr with
    | Some _ => (with_drain (replyError hdr wok c), inl false)
    | None =>
        match cn_sessions c !! SessionID hdr with
        | Some r => (c, inr (MExisting r p))
        | None => if cn_drain c then (replyError hdr wok c, inl false) else (c, inr (MCreate p first))
        end
    end.

(** The packet of a session in the table. *)
Definition handleExisting (r : nat) (p : packet) (wok pick : bool) (c : conn H) : conn H :=
  match cn_heap c !! r with
  | None => c
  | Some s =>
      if negb (se_typ s =? Type_ (pk_hdr p)) then dropSession r (replyError (pk_hdr p) wok c)
      else match offer r p pick c with
           | (c, true) => c
           | (c, false) => replyError (pk_hdr p) wok c
           end
  end.

(** The packet of a new session. *)
Definition handleCreate (p : packet) (first wok pick : bool) (c : conn H) : conn H * bool :=
  let hdr := pk_hdr p in
  if negb first && negb (bool_decide (AllowNewSession (cn_sc c) = None)) then (replyError hdr wok c, false)
  else if MaxSessionsPerConnection lim <=? sessionCount c then (replyError hdr wok c, false)
  else
    let r := length (cn_heap c) in
    let s := newSession (SessionID hdr) (Type_ hdr) in
    let c := with_sessions (<[SessionID hdr := r]> (cn_sessions c)) (with_heap (cn_heap c ++ [s]) c) in
    if first then processFirst r s p wok c
    else
      match offer r p pick (upd_session r (se_with_task TIdle) c) with
      | (c, true) => (c, false)
      | (c, false) => (dropSession r (replyError hdr wok c), false)
      end.

(** [handleReadError]: the two flag errors answer and drain, an oversized body answers
    and ends the loop, anything else ends it. *)
Definition handleReadError (hdr : Header) (e : io_error) (wok : bool) (c : conn H) : conn H * bool :=
  match e with
  | ErrUnencrypted | ErrMissingUnencrypted => (with_drain (replyError hdr wok c), false)
  | IoCodec ErrBodyTooLarge =>
      (with_drain (if KnownType hdr then replyError hdr wok c else c), true)
  | _ => (c, true)
  end.

Definition shutdownSessions (c : conn H) : conn H :=
  let live := map snd (map_to_list (cn_sessions c)) in
  with_heap (imap (fun i s => if bool_decide (i ∈ live) then se_stop s else s) (cn_heap c)) (with_closed c).

(** What [Read] returns, or that the loop gives up: context or lifetime. *)
Inductive read_event : Type :=
| RdPacket (p : packet) | RdError (h : Header) (e : io_error) | RdStop.

Definition after (stop : bool) (c : conn H) : conn H := with_main (if stop then MDone else MCheck) c.

Definition main_step (ev : read_event) (wok pick : bool) (c : conn H) : conn H :=
  match cn_main c with
  | MTop first =>
      match ev with
      | RdStop => with_main MDone c
      | _ => if cn_drain c && (sessionCount c =? 0) then with_main MDone c
             else with_main (MRead first) c
      end
  | MRead first =>
      match ev with
      | RdStop => with_main MDone c
      | RdError h e => let '(c, stop) := handleReadError h e wok c in after stop c
      | RdPacket p =>
          match handlePacket_head p first wok c with
          | (c, inl stop) => after stop c
          | (c, inr ph) => with_main ph c
          end
      end
  | MExisting r p => with_main MCheck (handleExisting r p wok pick c)
  | MCreate p first => let '(c, stop) := handleCreate p first wok pick c in after stop c
  | MCheck => with_main (if shouldClose c then MDone else MTop false) c
  | MDone => with_main MShutdown (shutdownSessions c)
  | MShutdown => c
  end.

(** [defer cs.dropSession(sess)] of [runSession], on every return. *)
Definition task_exit (r : nat) (c : conn H) : conn H :=
  dropSession r (upd_session r (se_with_task TExit) c).

(** One step of the goroutine of cell [r]; [quit] picks the [done] case of the [select]
    when it is ready together with a packet. *)
Definition task_step (r : nat) (quit wok : bool) (c : conn H) : conn H :=
  match cn_heap c !! r with
  | None => c
  | Some s =>
      match se_task s with
      | TNone | TExit => c
      | TIdle =>
          match se_in s with
          | Some p =>
              if stopped s c && quit then task_exit r c
              else upd_session r (fun s => se_with_task (TGot p) (se_with_in None s)) c
          | None => if stopped s c then task_exit r c else c
          end
      | TGot p => if stopped s c then task_exit r c else upd_session r (se_with_task (TReady p)) c
      | TReady p =>
          let '(c, out) := dispatch_at r s p c in
          upd_session r (se_with_task (TReplied p out)) c
      | TReplied p out =>
          if stopped s c then task_exit r c else upd_session r (se_with_task (TWrite p out)) c
      | TWrite p (Err e) =>
          let c := replyError (pk_hdr p) wok c in
          let c := match e with ErrSecretMismatch => with_drain c | SrvCodec _ => c end in
          task_exit r c
      | TWrite p (Ok out) =>
          match write (og_hdr out) (og_body out) wok c with
          | (c, false) => task_exit r c
          | (c, true) =>
              if og_terminal out || sq_closed (se_seq s) then task_exit r c
              else upd_session r (se_with_task TIdle) c
          end
      end
  end.

(** A step of the system: the read loop, a session goroutine, or the cancellation of
    the context. *)
Inductive step (c : conn H) : conn H -> Prop :=
| step_main ev wok pick : step c (main_step ev wok pick c)
| step_task r quit wok : step c (task_step r quit wok c)
| step_cancel : step c (with_cancel c).

Definition reachable (hs : H) (c : conn H) : Prop := rtc step (newConn hs) c.
End Connection.

(** ** Lemmas on dispatch *)

(** What the peer reads out of a reply body of the given packet type. *)
Definition reply_readable (typ : Z) (body : bytes) : Prop :=
  (typ = TypeAuthen /\ exists r, DecodeAuthenReply body = Ok r /\ ar_Status r <> AuthenStatusFollow) \/
  (typ = TypeAuthor /\ exists r, DecodeAuthorResponse body = Ok r /\ ap_Status r <> AuthorStatusFollow) \/
  (typ = TypeAcct /\ exists r, DecodeAcctReply body = Ok r /\ cr_Status r <> AcctStatusFollow).

Lemma set_Length_body (body : bytes) h :
  len body <= MaxBodyBytes -> set_Length (to_u32 (len body)) h = set_Length (len body) h.
Proof.
  intros Hb. rewrite to_u32_id; [done|]. unfold is_u32, MaxBodyBytes in *.
  pose proof (len_nonneg body). lia.
Qed.

Lemma encodeAuthen_Ok h r t out :
  encodeAuthen h r t = Ok out ->
  og_hdr out = set_Length (len (og_body out)) h /\ len (og_body out) <= MaxBodyBytes /\
  reply_readable TypeAuthen (og_body out).
Proof.
  unfold encodeAuthen. destruct (AuthenReply_Encode r) as [b|] eqn:E; [|done].
  intros [= <-]. cbn. pose proof (AuthenReply_Encode_len _ _ E).
  rewrite set_Length_body by done. split_and!; [done..|]. left. split; [done|].
  eexists. split; [by apply AuthenReply_Encode_Decode|]. cbn.
  unfold AuthenReply_Encode in E. destruct (_ =? _) eqn:Ef in E; [done|]. by bool_hyps.
Qed.

Lemma encodeAuthor_Ok h r out :
  encodeAuthor h r = Ok out ->
  og_hdr out = set_Length (len (og_body out)) h /\ len (og_body out) <= MaxBodyBytes /\
  reply_readable TypeAuthor (og_body out).
Proof.
  unfold encodeAuthor. destruct (AuthorResponse_Encode r) as [b|] eqn:E; [|done].
  intros [= <-]. cbn. pose proof (AuthorResponse_Encode_len _ _ E).
  rewrite set_Length_body by done. split_and!; [done..|]. right; left. split; [done|].
  eexists. split; [by apply AuthorResponse_Encode_Decode|].
  unfold AuthorResponse_Encode in E. destruct (_ =? _) eqn:Ef in E; [done|]. by bool_hyps.
Qed.

Lemma encodeAcct_Ok h r out :
  encodeAcct h r = Ok out ->
  og_hdr out = set_Length (len (og_body out)) h /\ len (og_body out) <= MaxBodyBytes /\
  reply_readable TypeAcct (og_body out).
Proof.
  unfold encodeAcct. destruct (AcctReply_Encode r) as [b|] eqn:E; [|done].
  intros [= <-]. cbn. pose proof (AcctReply_Encode_len _ _ E).
  rewrite set_Length_body by done. split_and!; [done..|]. right; right. split; [done|].
  eexists. split; [by apply AcctReply_Encode_Decode|].
  unfold AcctReply_Encode in E. destruct (_ =? _) eqn:Ef in E; [done|]. by bool_hyps.
Qed.

Section DispatchLemmas.
  Context {H : Type} `{Handler H} (ident : Identity) (connKey : Z).

Lemma dispatchAuthen_Ok hs env hdr rh body hs' out :
  dispatchAuthen ident hs env hdr rh body = (hs', Ok out) ->
  og_hdr out = set_Length (len (og_body out)) rh /\ len (og_body out) <= MaxBodyBytes /\
  reply_readable TypeAuthen (og_body out).
Proof.
  unfold dispatchAuthen. intros E. repeat case_match; simplify_eq; eauto using encodeAuthen_Ok.
Qed.

Lemma dispatchAuthor_Ok hs env hdr rh body hs' out :
  dispatchAuthor ident hs env hdr rh body = (hs', Ok out) ->
  og_hdr out = set_Length (len (og_body out)) rh /\ len (og_body out) <= MaxBodyBytes /\
  reply_readable TypeAuthor (og_body out).
Proof.
  unfold dispatchAuthor. intros E. repeat case_match; simplify_eq; eauto using encodeAuthor_Ok.
Qed.

Lemma dispatchAcct_Ok hs env hdr rh body hs' out :
  dispatchAcct ident hs env hdr rh body = (hs', Ok out) ->
  og_hdr out = set_Length (len (og_body out)) rh /\ len (og_body out) <= MaxBodyBytes /\
  reply_readable TypeAcct (og_body out).
Proof.
  unfold dispatchAcct. intros E. repeat case_match; simplify_eq; eauto using encodeAcct_Ok.
Qed.

(** The header [NextReply] allocates after an accepted request. *)
Lemma CheckRequest_NextReply s h s1 flags s2 rh :
  is_u8 (SeqNo h) -> CheckRequest s h = (s1, None) -> NextReply s1 flags = (s2, Ok rh) ->
  rh = mkHeader 0 (Type_ h) (SeqNo h + 1) flags (SessionID h) 0 /\
  ClientSeq (SeqNo h) = true /\ ServerSeq (SeqNo h + 1) = true.
Proof.
  intros Hu Hc Hr. apply NextReply_issue in Hr as (_ & _ & Hw & Hev & -> & _).
  apply CheckRequest_accept in Hc as (_ & _ & Hodd & Hsid & Htyp & _ & Hc).
  assert (Hadv : exists s0, sq_sessionID s0 = sq_sessionID s /\ sq_typ s0 = sq_typ s /\
                       advance_request s0 h = (s1, None)).
  { destruct Hc as [(_ & _ & Ha)|(_ & _ & _ & _ & Ha)]; eexists; split_and!; [| |exact Ha| | |exact Ha]; done. }
  destruct Hadv as (s0 & Hs0 & Ht0 & Ha). unfold advance_request in Ha.
  destruct (NextSeq (SeqNo h)) as [n|] eqn:En; injection Ha as <-; [|done].
  apply NextSeq_Ok in En as [-> _]; [|done]. cbn in *.
  rewrite Hs0, Ht0, Hsid, Htyp. done.
Qed.

Lemma dispatch_Ok seq hs hdr body seq' hs' out :
  is_u8 (SeqNo hdr) ->
  dispatch ident connKey seq hs hdr body = (seq', hs', Ok out) ->
  og_hdr out = mkHeader (Version hdr) (Type_ hdr) (SeqNo hdr + 1) 0 (SessionID hdr) (len (og_body out)) /\
  ClientSeq (SeqNo hdr) = true /\ ServerSeq (SeqNo hdr + 1) = true /\
  len (og_body out) <= MaxBodyBytes /\ reply_readable (Type_ hdr) (og_body out).
Proof.
  intros Hu. unfold dispatch.
  destruct (CheckRequest seq hdr) as [s1 [e|]] eqn:Hc; [done|].
  destruct (NextReply s1 0) as [s2 [rh|e]] eqn:Hr; [|done].
  destruct (CheckRequest_NextReply _ _ _ _ _ _ Hu Hc Hr) as (-> & Ho & He).
  set (rh := set_Flags _ _). set (env := mkEnv _ _ _). cbv zeta. intros E.
  assert (Hr' : forall typ, Type_ hdr = typ ->
    (og_hdr out = set_Length (len (og_body out)) rh /\ len (og_body out) <= MaxBodyBytes /\
     reply_readable typ (og_body out)) ->
    og_hdr out = mkHeader (Version hdr) (Type_ hdr) (SeqNo hdr + 1) 0 (SessionID hdr) (len (og_body out)) /\
    ClientSeq (SeqNo hdr) = true /\ ServerSeq (SeqNo hdr + 1) = true /\
    len (og_body out) <= MaxBodyBytes /\ reply_readable (Type_ hdr) (og_body out)).
  { intros typ Ht (-> & Hl & Hrd). rewrite Ht. subst rh. cbn. rewrite Ht. done. }
  destruct (Type_ hdr =? TypeAuthen) eqn:T1; bool_hyps.
  { destruct (dispatchAuthen _ _ _ _ _ _) as [h1 o1] eqn:D. simplify_eq.
    eapply Hr', dispatchAuthen_Ok; done. }
  destruct (Type_ hdr =? TypeAuthor) eqn:T2; bool_hyps.
  { destruct (dispatchAuthor _ _ _ _ _ _) as [h1 o1] eqn:D. simplify_eq.
    eapply Hr', dispatchAuthor_Ok; done. }
  destruct (Type_ hdr =? TypeAcct) eqn:T3; bool_hyps; [|done].
  destruct (dispatchAcct _ _ _ _ _ _) as [h1 o1] eqn:D. simplify_eq.
  eapply Hr', dispatchAcct_Ok; done.
Qed.

(** Dispatch moves the session's machine by one request and at most one reply. *)
Lemma dispatch_seq seq hs hdr body seq' hs' out log typ :
  dispatch ident connKey seq hs hdr body = (seq', hs', out) ->
  run_inv typ (seq, log) ->
  sq_sessionID seq' = sq_sessionID seq /\ exists log', run_inv typ (seq', log').
Proof.
  unfold dispatch. intros E Hi.
  pose proof (run_inv_step typ _ (OpRequest hdr) Hi) as Hi1.
  pose proof (seq_exec_sessionID (seq, log) (OpRequest hdr)) as Hs1. simpl in Hi1, Hs1.
  destruct (CheckRequest seq hdr) as [s1 [e|]]; [simplify_eq; eauto|].
  pose proof (run_inv_step typ _ (OpReply 0) Hi1) as Hi2.
  pose proof (seq_exec_sessionID (s1, log ++ [SeqNo hdr]) (OpReply 0)) as Hs2.
  simpl in Hi2, Hs2.
  destruct (NextReply s1 0) as [s2 [rh|e]]; simpl in *;
    [|simplify_eq; split; [congruence|eauto]].
  cbv zeta in E. destruct (if _ =? TypeAuthen then _ else _) as [h1 o1].
  simplify_eq. split; [congruence|eauto].
Qed.
End DispatchLemmas.

(** ** The connection invariant *)

(** The machine of a session cell is one that [NewSequence] reaches. *)
Definition good_session (s : session) : Prop :=
  sq_sessionID (se_seq s) = se_id s /\ exists log, run_inv (se_typ s) (se_seq s, log).

(** [wf_conn]: the table points at cells of the right id; the number of live sessions
    is within the limit; every cell's machine is well-formed; a second
    session exists only after a successful negotiation; and a negotiation that succeeded is
    over. *)
Record wf_conn {H} (lim : Limits) (c : conn H) : Prop := {
  wf_table : forall id r, cn_sessions c !! id = Some r ->
    exists s, cn_heap c !! r = Some s /\ se_id s = id;
  wf_bound : Z.of_nat (size (cn_sessions c)) <= MaxSessionsPerConnection lim;
  wf_cells : Forall good_session (cn_heap c);
  wf_gate : (2 <= length (cn_heap c))%nat -> Negotiated (cn_sc c) = true;
  wf_sc : Negotiated (cn_sc c) = true -> Complete (cn_sc c) = true
}.

(** Before the first packet is handled there is no session at all. *)
Definition first_inv {H} (c : conn H) : Prop :=
  match cn_main c with
  | MTop true | MRead true | MCreate _ true => cn_heap c = [] /\ cn_sessions c = ∅
  | _ => True
  end.

Section ConnLemmas.
  Context {H : Type} `{Handler H} (ident : Identity) (connKey : Z) (lim : Limits).
  Hypothesis Hlim : 1 <= MaxSessionsPerConnection lim.
  Notation wf := (wf_conn lim).

Lemma wf_frame (c c' : conn H) :
  wf c -> cn_sessions c' = cn_sessions c -> cn_heap c' = cn_heap c -> cn_sc c' = cn_sc c -> wf c'.
Proof. intros [] Es Eh Ec. constructor; rewrite ?Es, ?Eh, ?Ec; done. Qed.

Lemma wf_set_sc (c : conn H) x :
  wf c -> (Negotiated (cn_sc c) = true -> Negotiated x = true) ->
  (Negotiated x = true -> Complete x = true) -> wf (with_sc x c).
Proof. intros [] ? ?. constructor; cbn; auto. Qed.

Lemma wf_OnServerFirst (c : conn H) f : wf c -> wf (with_sc (fst (OnServerFirst f (cn_sc c))) c).
Proof.
  intros W. apply wf_set_sc; [done|..]; unfold OnServerFirst, Negotiated, Complete;
    destruct (sc_done (cn_sc c)) eqn:Hd; cbn; try done.
  intros Hn. pose proof (wf_sc _ _ W Hn) as Hc. unfold Complete in Hc. congruence.
Qed.

Lemma wf_OnClientFirst (c : conn H) f : wf c -> wf (with_sc (OnClientFirst f (cn_sc c)) c).
Proof.
  intros W. pose proof (wf_sc _ _ W). apply wf_set_sc; [done|..]; unfold OnClientFirst;
    destruct (_ || _); done.
Qed.

Lemma wf_upd (c : conn H) r f :
  wf c -> (forall s, se_id (f s) = se_id s) ->
  (forall s, good_session s -> good_session (f s)) -> wf (upd_session r f c).
Proof.
  intros [Ht Hb Hc Hg Hs] Hid Hgood. constructor; cbn; try done.
  - intros id r' Hr. destruct (Ht id r' Hr) as (s & Hs' & Hi).
    destruct (decide (r = r')) as [->|].
    + rewrite list_lookup_alter_eq, Hs'. simpl. eexists. split; [done|]. by rewrite Hid.
    + rewrite list_lookup_alter_ne by done. eauto.
  - apply Forall_alter; [done|]. intros. by apply Hgood.
  - by rewrite length_alter.
Qed.

Lemma good_frame s s' :
  good_session s -> se_id s' = se_id s -> se_typ s' = se_typ s -> se_seq s' = se_seq s -> good_session s'.
Proof. unfold good_session. intros Hg -> -> ->. exact Hg. Qed.

Lemma wf_upd_frame (c : conn H) r f :
  wf c -> (forall s, se_id (f s) = se_id s) -> (forall s, se_typ (f s) = se_typ s) ->
  (forall s, se_seq (f s) = se_seq s) -> wf (upd_session r f c).
Proof. intros W Hi Ht Hs. apply wf_upd; [done..|]. intros s Hg. by eapply good_frame. Qed.

Lemma wf_write (c : conn H) h b w : wf c -> wf (fst (write h b w c)).
Proof. intros W. unfold write. destruct (cn_closed c), w; by eapply wf_frame. Qed.

Lemma wf_negotiate (c : conn H) : wf c -> wf (fst (negotiateFlags lim c)).
Proof. apply wf_OnServerFirst. Qed.

Lemma wf_replyError (c : conn H) h w : wf c -> wf (replyError lim h w c).
Proof.
  intros W. unfold replyError. destruct (error_packet h) as [[h' b]|]; [|done].
  destruct (negb _); cbn.
  - apply wf_write. by apply (wf_negotiate c).
  - by apply wf_write.
Qed.

Lemma wf_drop (c : conn H) r : wf c -> wf (dropSession ident connKey r c).
Proof.
  intros W. unfold dropSession. destruct (cn_heap c !! r) as [s|]; [|done].
  assert (W1 : wf (upd_session r se_stop c)) by (by apply wf_upd_frame).
  case_bool_decide; [|by eapply wf_frame].
  destruct W1 as [Ht Hb Hc Hg Hs]. constructor; cbn in *; try done.
  - intros id r'. rewrite lookup_delete. case_decide; [done|]. apply Ht.
  - pose proof (map_size_delete (se_id s) (cn_sessions c)).
    destruct (cn_sessions c !! se_id s); simpl in *; lia.
Qed.

Lemma wf_offer (c : conn H) r p k : wf c -> wf (fst (offer r p k c)).
Proof.
  intros W. unfold offer. destruct (cn_heap c !! r) as [s|]; [|done].
  destruct (se_in s); [done|]. destruct (_ && _); [done|]. by apply wf_upd_frame.
Qed.

Lemma wf_exit (c : conn H) r : wf c -> wf (task_exit ident connKey r c).
Proof. intros W. apply wf_drop. by apply wf_upd_frame. Qed.

Lemma wf_dispatch_at (c : conn H) r s p :
  wf c -> cn_heap c !! r = Some s -> wf (fst (dispatch_at ident connKey r s p c)).
Proof.
  intros W Hr. unfold dispatch_at.
  destruct (dispatch _ _ _ _ _ _) as [[seq hs] out] eqn:D. cbn.
  assert (Hg : good_session s) by (by eapply Forall_lookup_1; [apply W|]).
  destruct Hg as [Hid [log Hlog]].
  destruct (dispatch_seq _ _ _ _ _ _ _ _ _ _ _ D Hlog) as [Hid' [log' Hlog']].
  assert (Halter : alter (se_with_seq seq) r (cn_heap c) = alter (fun _ => se_with_seq seq s) r (cn_heap c)).
  { apply list_alter_ext; [|done]. intros ? ?. congruence. }
  apply (wf_frame (upd_session r (se_with_seq seq) c)); try done.
  destruct W as [Ht Hb Hc Hgt Hs]. constructor; cbn; try done.
  - intros id r' Hr'. destruct (Ht id r' Hr') as (s' & Hs' & Hi).
    destruct (decide (r = r')) as [->|].
    + rewrite list_lookup_alter_eq, Hs'. by eexists.
    + rewrite list_lookup_alter_ne by done. eauto.
  - rewrite Halter. apply Forall_alter; [done|]. intros x _ _. split; cbn; [congruence|eauto].
  - by rewrite length_alter.
Qed.

Lemma wf_processFirst (c : conn H) r s p w :
  wf c -> cn_heap c !! r = Some s -> wf (fst (processFirst ident connKey lim r s p w c)).
Proof.
  intros W Hr. unfold processFirst.
  pose proof (wf_dispatch_at c r s p W Hr) as Wd.
  destruct (dispatch_at _ _ _ _ _ _) as [c1 [out|[e|]]]; cbn in Wd.
  - pose proof (wf_negotiate c1 Wd) as Wn. destruct (negotiateFlags lim c1) as [c2 fl].
    cbn in Wn. pose proof (wf_write c2 (set_Flags fl (og_hdr out)) (og_body out) w Wn) as Ww.
    destruct (write _ _ _ _) as [c3 [|]]; cbn in Ww; [|by apply wf_drop].
    destruct (_ || _); [by apply wf_drop|]. by apply wf_upd_frame.
  - apply wf_drop. by apply wf_replyError.
  - apply wf_drop. eapply wf_frame; [by apply (wf_replyError c1 (pk_hdr p) w)|done..].
Qed.

Lemma wf_head (c : conn H) p first w : wf c -> wf (fst (handlePacket_head lim p first w c)).
Proof.
  intros W. unfold handlePacket_head.
  set (c1 := if first then with_sc _ c else c).
  assert (W1 : wf c1) by (subst c1; destruct first; [by apply wf_OnClientFirst|done]).
  clearbody c1. destruct (negb (KnownType _)).
  - destruct (UnknownTypeReply _) as [rh|]; cbn; [|by eapply wf_frame].
    destruct (_ && _); (eapply wf_frame; [apply wf_write|done..]);
      [by apply wf_OnServerFirst|done].
  - destruct (Header_Validate _).
    { eapply wf_frame; [by apply (wf_replyError c1 (pk_hdr p) w)|done..]. }
    destruct (cn_sessions c1 !! _); [done|]. destruct (cn_drain c1); [by apply wf_replyError|done].
Qed.

Lemma wf_existing (c : conn H) r p w k : wf c -> wf (handleExisting ident connKey lim r p w k c).
Proof.
  intros W. unfold handleExisting. destruct (cn_heap c !! r) as [s|]; [|done].
  destruct (negb _); [by apply wf_drop, wf_replyError|].
  pose proof (wf_offer c r p k W). destruct (offer r p k c) as [c1 [|]]; [done|].
  by apply wf_replyError.
Qed.

Lemma good_new id typ : good_session (newSession id typ).
Proof. split; [done|]. exists []. apply (run_inv_run id typ []). Qed.

(** The new cell of [handleCreate]. *)
Lemma wf_insert (c : conn H) id typ :
  wf c -> sessionCount c < MaxSessionsPerConnection lim ->
  (cn_heap c <> [] -> Negotiated (cn_sc c) = true) ->
  wf (with_sessions (<[id := length (cn_heap c)]> (cn_sessions c))
        (with_heap (cn_heap c ++ [newSession id typ]) c)).
Proof.
  intros [Ht Hb Hc Hg Hs] Hn Hneg. constructor; cbn; try done.
  - intros id' r. rewrite lookup_insert. case_decide as Hid.
    + intros [= <-]. eexists. by rewrite list_lookup_middle.
    + intros Hr. destruct (Ht id' r Hr) as (s & Hs' & Hi). exists s.
      split; [by apply lookup_app_l_Some|done].
  - unfold sessionCount in Hn. rewrite map_size_insert. destruct (cn_sessions c !! id); simpl; lia.
  - apply Forall_app. split; [done|]. apply Forall_singleton, good_new.
  - rewrite length_app. simpl. intros Hl. apply Hneg. intros E. rewrite E in Hl. simpl in Hl. lia.
Qed.

Lemma wf_create (c : conn H) p first w k :
  wf c -> (first = true -> cn_heap c = []) ->
  wf (fst (handleCreate ident connKey lim p first w k c)).
Proof.
  intros W Hfirst. unfold handleCreate. cbv zeta.
  destruct (negb first && _) eqn:Hn; [by apply wf_replyError|].
  destruct (_ <=? _) eqn:Hm; [by apply wf_replyError|]. bool_hyps.
  set (s := newSession _ _). set (r := length _). set (c1 := with_sessions _ _).
  assert (W1 : wf c1).
  { apply wf_insert; [done..|]. intros Hne. destruct first; [by rewrite Hfirst in Hne|].
    cbn in Hn. apply negb_false_iff, bool_decide_eq_true in Hn. unfold AllowNewSession in Hn.
    by destruct (Negotiated (cn_sc c)). }
  assert (Hr : cn_heap c1 !! r = Some s) by (apply list_lookup_middle; done).
  destruct first; [by apply wf_processFirst|].
  assert (W2 : wf (upd_session r (se_with_task TIdle) c1)) by (by apply wf_upd_frame).
  pose proof (wf_offer _ r p k W2). destruct (offer _ _ _ _) as [c2 [|]]; [done|].
  by apply wf_drop, wf_replyError.
Qed.

Lemma wf_readError (c : conn H) h e w : wf c -> wf (fst (handleReadError lim h e w c)).
Proof.
  intros W. pose proof (wf_replyError c h w W).
  unfold handleReadError. destruct e as [[]| | | |]; try done; try by eapply wf_frame.
  destruct (KnownType h); [by eapply wf_frame|by apply (wf_frame c)].
Qed.

Lemma wf_shutdown (c : conn H) : wf c -> wf (shutdownSessions c).
Proof.
  intros [Ht Hb Hc Hg Hs]. unfold shutdownSessions. constructor; cbn; try done.
  - intros id r Hr. destruct (Ht id r Hr) as (s & Hs' & Hi). rewrite list_lookup_imap, Hs'.
    simpl. eexists. split; [done|]. by case_bool_decide.
  - apply Forall_lookup. intros i s. rewrite list_lookup_imap.
    destruct (cn_heap c !! i) as [s0|] eqn:E; simpl; [|done]. intros [= <-].
    pose proof (proj1 (Forall_lookup _ _) Hc i s0 E). case_bool_decide; [|done].
    by eapply good_frame.
  - by rewrite length_imap.
Qed.

Lemma wf_with_main (c : conn H) x : wf c -> wf (with_main x c).
Proof. intros W. by eapply wf_frame. Qed.

Lemma wf_main_step (c : conn H) ev w k :
  wf c -> first_inv c -> wf (main_step ident connKey lim ev w k c).
Proof.
  intros W F. unfold main_step. destruct (cn_main c) as [first|first|r p|p first| | |] eqn:M.
  - destruct ev; try (destruct (_ && _)); by apply wf_with_main.
  - destruct ev as [p|h e|]; [| |by apply wf_with_main].
    + pose proof (wf_head c p first w W). destruct (handlePacket_head _ _ _ _ _) as [c1 [|]];
        by apply wf_with_main.
    + pose proof (wf_readError c h e w W). destruct (handleReadError _ _ _ _ _) as [c1 stop].
      by apply wf_with_main.
  - by apply wf_with_main, wf_existing.
  - unfold first_inv in F. rewrite M in F.
    assert (Hf : first = true -> cn_heap c = []) by (intros ->; by destruct F).
    pose proof (wf_create c p first w k W Hf). destruct (handleCreate _ _ _ _ _ _ _ _) as [c1 stop].
    by apply wf_with_main.
  - by apply wf_with_main.
  - by apply wf_with_main, wf_shutdown.
  - done.
Qed.

Lemma wf_task_step (c : conn H) r q w : wf c -> wf (task_step ident connKey lim r q w c).
Proof.
  intros W. unfold task_step. destruct (cn_heap c !! r) as [s|] eqn:Hr; [|done].
  destruct (se_task s) as [| |p|p|p out|p [out|e]|]; try done.
  - destruct (se_in s); [destruct (_ && _)|destruct (stopped s c)]; try done;
      (by apply wf_exit) || by apply wf_upd_frame.
  - destruct (stopped s c); [by apply wf_exit|by apply wf_upd_frame].
  - pose proof (wf_dispatch_at c r s p W Hr). destruct (dispatch_at _ _ _ _ _ _) as [c1 out].
    by apply wf_upd_frame.
  - destruct (stopped s c); [by apply wf_exit|by apply wf_upd_frame].
  - pose proof (wf_write c (og_hdr out) (og_body out) w W). destruct (write _ _ _ _) as [c1 [|]];
      [|by apply wf_exit]. destruct (_ || _); [by apply wf_exit|by apply wf_upd_frame].
  - apply wf_exit. pose proof (wf_replyError c (pk_hdr p) w W). destruct e; [done|by eapply wf_frame].
Qed.

Lemma wf_new (hs : H) : wf (newConn hs).
Proof.
  constructor; cbn; try done; try lia. change (0 <= MaxSessionsPerConnection lim). lia.
Qed.

(** *** The first packet *)

Lemma task_step_main (c : conn H) r q w : cn_main (task_step ident connKey lim r q w c) = cn_main c.
Proof.
  assert (Hre : forall h w' (c' : conn H), cn_main (replyError lim h w' c') = cn_main c').
  { intros. unfold replyError, negotiateFlags, write. repeat (case_match; simplify_eq; try done). }
  assert (Hdr : forall r' (c' : conn H), cn_main (dropSession ident connKey r' c') = cn_main c').
  { intros. unfold dropSession. by repeat case_match. }
  unfold task_step, task_exit, dispatch_at, write.
  repeat (case_match; simplify_eq; rewrite ?Hdr; cbn; rewrite ?Hre; try done).
Qed.

Lemma task_step_nil (c : conn H) r q w : cn_heap c = [] -> task_step ident connKey lim r q w c = c.
Proof. intros E. unfold task_step. by rewrite E. Qed.

Lemma head_inr (c c' : conn H) p first w ph :
  handlePacket_head lim p first w c = (c', inr ph) ->
  cn_heap c' = cn_heap c /\ cn_sessions c' = cn_sessions c /\ cn_drain c' = cn_drain c /\
  ((exists r, ph = MExisting r p) \/ (ph = MCreate p first /\ cn_drain c = false)).
Proof.
  unfold handlePacket_head. intros E.
  destruct (negb (KnownType _)); [by destruct (UnknownTypeReply _)|].
  destruct (Header_Validate _); [done|].
  destruct first; cbn in E; destruct (cn_sessions c !! _); simplify_eq; cbn; eauto 10;
    destruct (cn_drain c) eqn:D; simplify_eq; cbn; split_and!; eauto.
Qed.

Lemma first_main_step (c : conn H) ev w k :
  first_inv c -> first_inv (main_step ident connKey lim ev w k c).
Proof.
  intros F. unfold main_step, first_inv in *. destruct (cn_main c) as [first|first|r p|p first| | |] eqn:M.
  - destruct ev; cbn; try done; destruct (_ && _); done.
  - destruct ev as [p|h e|]; [| |done].
    + destruct (handlePacket_head _ _ _ _ _) as [c1 [stop|ph]] eqn:E; [by destruct stop|].
      apply head_inr in E as (Eh & Es & _ & [[r ->]|[-> _]]); cbn; [done|].
      rewrite Eh, Es. by destruct first.
    + destruct (handleReadError _ _ _ _ _) as [c1 []]; done.
  - done.
  - destruct (handleCreate _ _ _ _ _ _ _ _) as [c1 []]; done.
  - cbn. destruct (shouldClose c); done.
  - done.
  - by rewrite M.
Qed.

Lemma inv_step (c c' : conn H) :
  step ident connKey lim c c' -> wf c /\ first_inv c -> wf c' /\ first_inv c'.
Proof.
  intros [ev w k|r q w|] [W F].
  - split; [by apply wf_main_step|by apply first_main_step].
  - split; [by apply wf_task_step|].
    unfold first_inv in *. rewrite task_step_main.
    destruct (cn_main c) as [[]|[]| |? []| | |]; try done; destruct F; by rewrite task_step_nil.
  - split; [by eapply wf_frame|done].
Qed.

Lemma reachable_inv hs (c : conn H) : reachable ident connKey lim hs c -> wf c /\ first_inv c.
Proof.
  apply (rtc_ind_r (fun c => wf c /\ first_inv c)); [split; [apply wf_new|done]|].
  intros c1 c2 _ Hs Hi. by apply (inv_step c1).
Qed.

(** *** Draining *)

(** Cells allocated, counting the one the read loop is about to allocate. *)
Definition potential (c : conn H) : nat :=
  length (cn_heap c) + match cn_main c with MCreate _ _ => 1 | _ => 0 end.

(** [c'] has the cells of [c], and drains when [c] does. *)
Definition keeps (c c' : conn H) : Prop :=
  length (cn_heap c') = length (cn_heap c) /\ (cn_drain c = true -> cn_drain c' = true).

Lemma keeps_trans (a b c : conn H) : keeps a b -> keeps b c -> keeps a c.
Proof. unfold keeps. intuition congruence. Qed.

Lemma keeps_refl (c : conn H) : keeps c c.
Proof. done. Qed.

Lemma keeps_upd (c : conn H) r f : keeps c (upd_session r f c).
Proof. split; cbn; [by rewrite length_alter|done]. Qed.

Lemma keeps_write (c : conn H) h b w : keeps c (fst (write h b w c)).
Proof. unfold write. destruct (cn_closed c), w; done. Qed.

Lemma keeps_replyError (c : conn H) h w : keeps c (replyError lim h w c).
Proof.
  unfold replyError. destruct (error_packet h) as [[h' b]|]; [|done].
  destruct (negb _); cbn; unfold write; cbn; destruct (cn_closed c), w; done.
Qed.

Lemma keeps_drop (c : conn H) r : keeps c (dropSession ident connKey r c).
Proof.
  unfold dropSession. destruct (cn_heap c !! r); [|done].
  eapply keeps_trans; [apply keeps_upd|]. by case_bool_decide.
Qed.

Lemma keeps_exit (c : conn H) r : keeps c (task_exit ident connKey r c).
Proof. eapply keeps_trans; [apply keeps_upd|apply keeps_drop]. Qed.

Lemma keeps_dispatch_at (c : conn H) r s p : keeps c (fst (dispatch_at ident connKey r s p c)).
Proof. unfold dispatch_at. destruct (dispatch _ _ _ _ _ _) as [[] ?]. apply keeps_upd. Qed.

Lemma keeps_offer (c : conn H) r p k : keeps c (fst (offer r p k c)).
Proof. unfold offer. repeat case_match; try done. apply keeps_upd. Qed.

Lemma keeps_processFirst (c : conn H) r s p w : keeps c (fst (processFirst ident connKey lim r s p w c)).
Proof.
  unfold processFirst. pose proof (keeps_dispatch_at c r s p) as K.
  destruct (dispatch_at _ _ _ _ _ _) as [c1 [out|[e|]]]; cbn in K; (eapply keeps_trans; [exact K|]).
  - destruct (negotiateFlags lim c1) as [c2 fl] eqn:En.
    assert (K2 : keeps c1 c2) by (unfold negotiateFlags in En; by simplify_eq).
    eapply keeps_trans; [exact K2|].
    pose proof (keeps_write c2 (set_Flags fl (og_hdr out)) (og_body out) w) as Kw.
    destruct (write _ _ _ _) as [c3 [|]]; cbn in Kw; (eapply keeps_trans; [exact Kw|]);
      [|apply keeps_drop]. destruct (_ || _); [apply keeps_drop|apply keeps_upd].
  - eapply keeps_trans; [apply keeps_replyError|apply keeps_drop].
  - eapply keeps_trans; [apply keeps_replyError|].
    eapply keeps_trans; [|apply keeps_drop]. done.
Qed.

Lemma keeps_task_step (c : conn H) r q w : keeps c (task_step ident connKey lim r q w c).
Proof.
  unfold task_step. destruct (cn_heap c !! r) as [s|] eqn:Hr; [|done].
  destruct (se_task s) as [| |p|p|p out|p [out|e]|]; try done.
  - destruct (se_in s); [destruct (_ && _)|destruct (stopped s c)]; try done;
      apply keeps_exit || apply keeps_upd.
  - destruct (stopped s c); [apply keeps_exit|apply keeps_upd].
  - pose proof (keeps_dispatch_at c r s p) as K. destruct (dispatch_at _ _ _ _ _ _) as [c1 out].
    eapply keeps_trans; [exact K|apply keeps_upd].
  - destruct (stopped s c); [apply keeps_exit|apply keeps_upd].
  - pose proof (keeps_write c (og_hdr out) (og_body out) w) as K. destruct (write _ _ _ _) as [c1 b].
    eapply keeps_trans; [exact K|].
    destruct b; [destruct (_ || _)|]; apply keeps_exit || apply keeps_upd.
  - eapply keeps_trans; [apply (keeps_replyError c (pk_hdr p) w)|].
    destruct e; (eapply keeps_trans; [|apply keeps_exit]); done.
Qed.

Lemma keeps_head_inl (c c' : conn H) p first w b :
  handlePacket_head lim p first w c = (c', inl b) -> keeps c c'.
Proof.
  unfold handlePacket_head. set (c1 := if first then with_sc _ c else c).
  assert (K1 : keeps c c1) by (subst c1; by destruct first). clearbody c1. intros E.
  eapply keeps_trans; [exact K1|].
  destruct (negb (KnownType _)).
  - destruct (UnknownTypeReply _) as [rh|]; simplify_eq; [|done].
    destruct (_ && _); unfold write; cbn; destruct (cn_closed c1), w; done.
  - destruct (Header_Validate _); simplify_eq.
    { eapply keeps_trans; [apply (keeps_replyError c1 (pk_hdr p) w)|done]. }
    destruct (cn_sessions c1 !! _); [done|].
    destruct (cn_drain c1) eqn:D; simplify_eq. apply keeps_replyError.
Qed.

Lemma drain_step (c c' : conn H) :
  step ident connKey lim c c' -> cn_drain c = true ->
  cn_drain c' = true /\ (potential c' <= potential c)%nat.
Proof.
  assert (Hk : forall a b : conn H, keeps a b -> cn_drain a = true -> cn_main b = cn_main a ->
    cn_drain b = true /\ (potential b <= potential a)%nat).
  { intros a b [Hl Hd] Da Hm. split; [auto|]. unfold potential. rewrite Hl, Hm. done. }
  assert (Hk' : forall (a b : conn H) x, keeps a b -> cn_drain a = true ->
    (match x with MCreate _ _ => False | _ => True end) ->
    cn_drain (with_main x b) = true /\ (potential (with_main x b) <= potential a)%nat).
  { intros a b x [Hl Hd] Da Hm. split; [by apply Hd|]. unfold potential. cbn. rewrite Hl.
    destruct x; try done; lia. }
  intros [ev w k|r q w|] D.
  - unfold main_step. destruct (cn_main c) as [first|first|r p|p first| | |] eqn:M.
    + destruct ev; try (destruct (_ && _)); by apply Hk'.
    + destruct ev as [p|h e|]; [| |by apply Hk'].
      * destruct (handlePacket_head _ _ _ _ _) as [c1 [stop|ph]] eqn:E.
        -- apply keeps_head_inl in E. destruct stop; by apply Hk'.
        -- apply head_inr in E as (Eh & _ & Ed & [[r ->]|[-> D']]); [|congruence].
           apply Hk'; [|done..]. split; congruence.
      * assert (K : keeps c (fst (handleReadError lim h e w c))).
        { pose proof (keeps_replyError c h w) as Kr. unfold handleReadError.
          destruct e as [[]| | | |]; try done; try (eapply keeps_trans; [exact Kr|done]).
          destruct (KnownType h); [eapply keeps_trans; [exact Kr|done]|done]. }
        destruct (handleReadError _ _ _ _ _) as [c1 []]; by apply Hk'.
    + apply Hk'; [|done..]. unfold handleExisting. destruct (cn_heap c !! r); [|done].
      destruct (negb _); [eapply keeps_trans; [apply keeps_replyError|apply keeps_drop]|].
      pose proof (keeps_offer c r p k) as K. destruct (offer r p k c) as [c1 []]; [done|].
      eapply keeps_trans; [exact K|apply keeps_replyError].
    + assert (K : (length (cn_heap (fst (handleCreate ident connKey lim p first w k c)))
                    <= S (length (cn_heap c)))%nat /\
                  cn_drain (fst (handleCreate ident connKey lim p first w k c)) = true).
      { unfold handleCreate. cbv zeta.
        destruct (_ && _).
        { destruct (keeps_replyError c (pk_hdr p) w) as [Kl Kd]. cbn. split; [lia|auto]. }
        destruct (_ <=? _).
        { destruct (keeps_replyError c (pk_hdr p) w) as [Kl Kd]. cbn. split; [lia|auto]. }
        set (c1 := with_sessions _ _). set (s := newSession _ _). set (r := length (cn_heap c)).
        assert (L1 : length (cn_heap c1) = S r)
          by (subst c1 r; cbn; rewrite length_app; simpl; lia).
        assert (D1 : cn_drain c1 = true) by done.
        destruct first.
        - destruct (keeps_processFirst c1 r s p w) as [Kl Kd]. split; [lia|auto].
        - pose proof (keeps_trans _ _ _ (keeps_upd c1 r (se_with_task TIdle))
            (keeps_offer (upd_session r (se_with_task TIdle) c1) r p k)) as K.
          destruct (offer _ _ _ _) as [c2 []]; [destruct K as [Kl Kd]; cbn in *; split; [lia|auto]|].
          destruct (keeps_trans _ _ _ K (keeps_trans _ _ _ (keeps_replyError c2 (pk_hdr p) w)
            (keeps_drop (replyError lim (pk_hdr p) w c2) r))) as [Kl Kd]. cbn in *. split; [lia|auto]. }
      destruct (handleCreate _ _ _ _ _ _ _ _) as [c1 stop]. destruct K as [Kl Kd]. cbn in Kl, Kd.
      unfold potential. rewrite M. destruct stop; cbn; split; (done || lia).
    + destruct (shouldClose c); by apply Hk'.
    + apply Hk'; [|done..]. unfold shutdownSessions. split; cbn; [by rewrite length_imap|done].
    + done.
  - apply Hk; [apply keeps_task_step|done|apply task_step_main].
  - done.
Qed.
End ConnLemmas.

Lemma normalized_sessions l : 1 <= MaxSessionsPerConnection (normalized l).
Proof. cbn. unfold or_default, defaultMaxSessions. destruct (_ <=? 0) eqn:E; bool_hyps; lia. Qed.

(** The error reply of each type reads back as ERROR with no text. *)
Lemma error_body_readable typ :
  typ = TypeAuthen /\ DecodeAuthenReply (error_body typ) = Ok (authen_status AuthenStatusError) \/
  typ = TypeAuthor /\ DecodeAuthorResponse (error_body typ) = Ok (author_status AuthorStatusError) \/
  typ = TypeAcct /\ DecodeAcctReply (error_body typ) = Ok (acct_status AcctStatusError) \/
  KnownType (mkHeader 0 typ 0 0 0 0) = false.
Proof.
  unfold KnownType; cbn.
  destruct (typ =? TypeAuthen) eqn:E1; bool_hyps; [subst; left; by split|].
  destruct (typ =? TypeAuthor) eqn:E2; bool_hyps; [subst; right; left; by split|].
  destruct (typ =? TypeAcct) eqn:E3; bool_hyps; [subst; right; right; left; by split|].
  by right; right; right.
Qed.

(** ** Properties *)

Lemma error_packet_ok (req : Header) :
  is_u8 (SeqNo req) ->
  (is_Some (error_packet req) <-> KnownType req = true /\ SeqNo req <> 255) /\
  (forall h b, error_packet req = Some (h, b) ->
    h = mkHeader (Version req) (Type_ req) (SeqNo req + 1) 0 (SessionID req) (len b) /\
    (Type_ req = TypeAuthen /\ DecodeAuthenReply b = Ok (authen_status AuthenStatusError) \/
     Type_ req = TypeAuthor /\ DecodeAuthorResponse b = Ok (author_status AuthorStatusError) \/
     Type_ req = TypeAcct /\ DecodeAcctReply b = Ok (acct_status AcctStatusError))).
Proof.
  intros Hu. unfold error_packet. destruct (KnownType req) eqn:K; cbn [negb].
  2: { split; [|done]. split; [by intros []|by intros [? _]]. }
  assert (Hn : match NextSeq (SeqNo req) with
               | Ok n => Some n
               | Err _ => if negb (SeqNo req =? 0) then None else Some 1
               end = if SeqNo req =? 255 then None else Some (SeqNo req + 1)).
  { unfold NextSeq. unfold is_u8 in Hu.
    destruct (SeqNo req =? 0) eqn:E0; bool_hyps; [by rewrite E0|].
    destruct (SeqNo req =? 255) eqn:E1; bool_hyps; [done|].
    rewrite to_u8_id; [done|]. unfold is_u8. lia. }
  rewrite Hn. clear Hn. destruct (SeqNo req =? 255) eqn:E; bool_hyps; cbn.
  { split; [|done]. split; [by intros []|by intros [_ ?]]. }
  split; [split; [done|eauto]|]. intros h b [= <- <-].
  assert (Hl : to_u32 (len (error_body (Type_ req))) = len (error_body (Type_ req))).
  { unfold error_body. repeat case_match; done. }
  rewrite Hl. split; [done|].
  destruct (error_body_readable (Type_ req)) as [?|[?|[?|Hk]]]; [tauto..|].
  unfold KnownType in K, Hk. cbn in Hk. congruence.
Qed.

(** C13. Replies of the connection.  Whatever the handler does, a reply that
    [dispatch] produces carries the request's version, type and session id, the
    next and even sequence number, flags 0 and the exact length of its body; the
    body is at most 65536 octets, decodes as the reply of that packet type and
    is never FOLLOW.  [replyError] answers exactly the packets of known type
    whose sequence number is not 255, with the request's version, type and
    session id, the next sequence number (1 when the request carried 0), no
    flags but the negotiated one and a body that reads back as ERROR for that
    type. *)
Theorem connection_replies {H} `{Handler H} (ident : Identity) (connKey : Z) (hdr : Header) :
  is_u8 (SeqNo hdr) ->
  (forall seq seq' (hs hs' : H) body out,
    dispatch ident connKey seq hs hdr body = (seq', hs', Ok out) ->
    og_hdr out = mkHeader (Version hdr) (Type_ hdr) (SeqNo hdr + 1) 0 (SessionID hdr) (len (og_body out)) /\
    ServerSeq (SeqNo hdr + 1) = true /\ len (og_body out) <= MaxBodyBytes /\
    reply_readable (Type_ hdr) (og_body out)) /\
  (is_Some (error_packet hdr) <-> KnownType hdr = true /\ SeqNo hdr <> 255) /\
  (forall h b, error_packet hdr = Some (h, b) ->
    h = mkHeader (Version hdr) (Type_ hdr) (SeqNo hdr + 1) 0 (SessionID hdr) (len b) /\
    (Type_ hdr = TypeAuthen /\ DecodeAuthenReply b = Ok (authen_status AuthenStatusError) \/
     Type_ hdr = TypeAuthor /\ DecodeAuthorResponse b = Ok (author_status AuthorStatusError) \/
     Type_ hdr = TypeAcct /\ DecodeAcctReply b = Ok (acct_status AcctStatusError))).
Proof.
  intros Hu. split; [|by apply error_packet_ok].
  intros seq seq' hs hs' body out D. destruct (dispatch_Ok _ _ _ _ _ _ _ _ _ Hu D) as (? & _ & ? & ? & ?). done.
Qed.

Lemma connection_replies_witness :
  let ident := mkIdentity [] TransportLegacy [] 0 in
  let hdr := mkHeader 192 TypeAuthor 1 0 7 8 in
  exists seq' out,
    dispatch ident 0 (NewSequence 7 TypeAuthor) tt hdr [6; 1; 1; 1; 0; 0; 0; 0] = (seq', tt, Ok out) /\
    og_hdr out = mkHeader 192 TypeAuthor 2 0 7 (len (og_body out)) /\
    ServerSeq 2 = true /\ len (og_body out) <= MaxBodyBytes /\ reply_readable TypeAuthor (og_body out) /\
    is_Some (error_packet hdr).
Proof.
  intros ident hdr.
  assert (D : exists seq' out, dispatch ident 0 (NewSequence 7 TypeAuthor) tt hdr
    [6; 1; 1; 1; 0; 0; 0; 0] = (seq', tt, Ok out)) by (eexists _, _; reflexivity).
  destruct D as (seq' & out & D). exists seq', out. split; [exact D|].
  assert (is_u8 (SeqNo hdr)) as Hu by (unfold is_u8; cbn; lia).
  destruct (connection_replies (H := unit) ident 0 hdr Hu) as (H1 & H2 & _).
  destruct (H1 (NewSequence 7 TypeAuthor) seq' tt tt [6; 1; 1; 1; 0; 0; 0; 0] out D) as (E1 & E2 & E3 & E4).
  split; [exact E1|]. split; [exact E2|]. split; [exact E3|]. split; [exact E4|].
  apply H2. split; [reflexivity|]. vm_compute. discriminate.
Defined.

(** Connection safety: in every state that any interleaving of the read loop, the
    session goroutines and cancellation reaches, whatever the peer sends and the
    handler answers, the number of live sessions is within the limit, the table
    maps an id only to a session of that id, a second session exists only if
    both sides negotiated single-connect, and the packet numbers
    of every session ever opened are in order. *)
Lemma reachable_safe {H} `{Handler H} (ident : Identity) (connKey : Z) (l : Limits) (hs : H)
  (c : conn H) :
  reachable ident connKey (normalized l) hs c ->
  sessionCount c <= MaxSessionsPerConnection (normalized l) /\
  (forall id r, cn_sessions c !! id = Some r -> exists s, cn_heap c !! r = Some s /\ se_id s = id) /\
  ((2 <= length (cn_heap c))%nat -> Negotiated (cn_sc c) = true) /\
  (forall r s, cn_heap c !! r = Some s -> exists log n k, seq_inv (se_seq s) log n k).
Proof.
  intros Hr.
  destruct (reachable_inv ident connKey _ (normalized_sessions l) _ _ Hr) as [[Ht Hb Hc Hg _] _].
  split_and!; try done. intros r s Hs.
  destruct (proj1 (Forall_lookup _ _) Hc r s Hs) as [_ (log & n & k & Hi & _)]. eauto.
Qed.

(** The first packet of a connection, read and handled. *)
Definition example_conn : conn unit :=
  let ident := mkIdentity [] TransportLegacy [] 0 in
  let lim := normalized (mkLimits 0 0 0 0 0 0 0 true 0 0) in
  let p := mkPacket (mkHeader 192 TypeAuthen 1 4 7 8) [1; 0; 1; 1; 0; 0; 0; 0] in
  let go := main_step ident 1 lim (RdPacket p) true true in
  go (go (go (newConn tt))).

(** Draining is final: once a connection drains it drains for ever, and from
    then on no session is opened, except the one whose drain check the
    read loop had already passed. *)
Lemma drain_final {H} `{Handler H} (ident : Identity) (connKey : Z) (lim : Limits)
  (c c' : conn H) :
  rtc (step ident connKey lim) c c' -> cn_drain c = true ->
  cn_drain c' = true /\
  (length (cn_heap c') <= length (cn_heap c) +
    match cn_main c with MCreate _ _ => 1 | _ => 0 end)%nat.
Proof.
  intros Hr Hd.
  assert (cn_drain c' = true /\ (potential c' <= potential c)%nat) as [Hd' Hp].
  { induction Hr as [c|c1 c2 c3 Hs _ IH]; [done|].
    destruct (drain_step ident connKey lim c1 c2 Hs Hd) as [Hd2 Hp2].
    destruct (IH Hd2) as [? ?]. split; [done|lia]. }
  split; [done|]. unfold potential in Hp. lia.
Qed.

(** C14. Connection safety: in every state that any interleaving of the read
    loop, the session goroutines and cancellation reaches, whatever the peer
    sends and the handler answers, the number of live sessions is within the
    limit, the table maps an id only to a session of that id, a second session
    exists only if both sides negotiated single-connect, and the packet numbers
    of every session ever opened are in order.  Draining is final: once a
    connection drains it drains for ever, and from then on no session is
    opened, except the one whose drain check the read loop had passed. *)
Theorem connection_safe {H} `{Handler H} (ident : Identity) (connKey : Z) (l : Limits) (hs : H) (c : conn H) :
  reachable ident connKey (normalized l) hs c ->
  sessionCount c <= MaxSessionsPerConnection (normalized l)
  /\ (forall id r, cn_sessions c !! id = Some r -> exists s, cn_heap c !! r = Some s /\ se_id s = id)
  /\ ((2 <= length (cn_heap c))%nat -> Negotiated (cn_sc c) = true)
  /\ (forall r s, cn_heap c !! r = Some s -> exists log n k, seq_inv (se_seq s) log n k)
  /\ (forall c', rtc (step ident connKey (normalized l)) c c' -> cn_drain c = true ->
      cn_drain c' = true /\
      (length (cn_heap c') <= length (cn_heap c) + match cn_main c with MCreate _ _ => 1 | _ => 0 end)%nat).
Proof.
  intros Hr. destruct (reachable_safe ident connKey l hs c Hr) as (H1 & H2 & H3 & H4).
  split; [done|]. split; [done|]. split; [done|]. split; [done|]. intros c'. apply drain_final.
Qed.

Lemma connection_safe_witness :
  reachable (mkIdentity [] TransportLegacy [] 0) 1 (normalized (mkLimits 0 0 0 0 0 0 0 true 0 0))
    tt example_conn /\
  length (cn_out example_conn) = 1%nat /\
  sessionCount example_conn <= MaxSessionsPerConnection (normalized (mkLimits 0 0 0 0 0 0 0 true 0 0)).
Proof.
  assert (R : reachable (mkIdentity [] TransportLegacy [] 0) 1
    (normalized (mkLimits 0 0 0 0 0 0 0 true 0 0)) tt example_conn).
  { do 3 (eapply rtc_l; [apply step_main|]). apply rtc_refl. }
  split; [exact R|]. split; [reflexivity|].
  exact (proj1 (connection_safe _ _ (mkLimits 0 0 0 0 0 0 0 true 0 0) _ _ R)).
Defined.

