(* ===== verification/RadiusAttribute.v ===== *)
(** * RADIUS attributes: the TLV stream and vendor attributes

    [internal/radius/attribute]: [raw.go], [set.go], [decode.go],
    [encode.go], [vendor.go] and the numbers of [types.go].  A [Raw] is one
    Type/Length/Value; a [RawSet] keeps order and duplicates.  The decoder
    walks the payload by offset, the encoder writes into a buffer of the
    summed size; both are modelled with their offsets, and proved against
    [tlvs], the concatenation of the encoded attributes. *)

From S2P Require Import Prelude.

(** ** Numbers of types.go *)

Definition TypeUserName := 1.
Definition TypeUserPassword := 2.
Definition TypeCHAPPassword := 3.
Definition TypeNASIPAddress := 4.
Definition TypeNASPort := 5.
Definition TypeServiceType := 6.
Definition TypeFramedProtocol := 7.
Definition TypeFramedIPAddress := 8.
Definition TypeFilterID := 11.
Definition TypeFramedMTU := 12.
Definition TypeReplyMessage := 18.
Definition TypeState := 24.
Definition TypeClass := 25.
Definition TypeVendorSpecific := 26.
Definition TypeSessionTimeout := 27.
Definition TypeIdleTimeout := 28.
Definition TypeCalledStationID := 30.
Definition TypeCallingStationID := 31.
Definition TypeNASIdentifier := 32.
Definition TypeProxyState := 33.
Definition TypeAcctStatusType := 40.
Definition TypeAcctDelayTime := 41.
Definition TypeAcctInputOctets := 42.
Definition TypeAcctOutputOctets := 43.
Definition TypeAcctSessionID := 44.
Definition TypeAcctAuthentic := 45.
Definition TypeAcctSessionTime := 46.
Definition TypeAcctInputPackets := 47.
Definition TypeAcctOutputPackets := 48.
Definition TypeAcctTerminateCause := 49.
Definition TypeAcctInputGigawords := 52.
Definition TypeAcctOutputGigawords := 53.
Definition TypeEventTimestamp := 55.
Definition TypeCHAPChallenge := 60.
Definition TypeNASPortType := 61.
Definition TypeEAPMessage := 79.
Definition TypeMessageAuthenticator := 80.
Definition TypeAcctInterimInterval := 85.
Definition TypeNASIPv6Address := 95.
Definition TypeErrorCause := 101.

Definition MaxValueLength := 253.
Definition DefaultMaxAttributes := 256.
Definition DefaultMaxValueBytes := 4096.

(** The sentinels of errors.go; [ErrVendorTLV] is [ErrVendorTLVMalformed]. *)
Inductive attribute_error :=
| ErrOverflow | ErrLength | ErrTooMany | ErrBudget | ErrValueTooLong
| ErrNotVSA | ErrVSAShort | ErrVSAValueLong | ErrVendorTLVMalformed | ErrVendorTLVLong
| ErrUnknownPacket | ErrIllegalRole | ErrCardinality | ErrMissingRequired
| ErrNotFirst | ErrValueLength.

#[export] Instance attribute_error_eq_dec : EqDecision attribute_error.
Proof. solve_decision. Defined.

(** ** Raw attributes and sets *)

Record Raw := mkRaw { Raw_Type : Z; Raw_Value : bytes }.

#[export] Instance Raw_eq_dec : EqDecision Raw.
Proof. solve_decision. Defined.

Definition WireLength (r : Raw) : Z := 2 + len (Raw_Value r).

(** A copy whose value does not alias the original's. *)
Definition Raw_Clone (r : Raw) : Raw :=
  if len (Raw_Value r) =? 0 then mkRaw (Raw_Type r) []
  else mkRaw (Raw_Type r) (copy_bytes (make_bytes (len (Raw_Value r))) (Raw_Value r)).

Definition RawSet := list Raw.

Definition RawSet_Len (s : RawSet) : Z := len s.
Definition ValueBytes (s : RawSet) : Z := fold_left (fun n a => n + len (Raw_Value a)) s 0.
Definition WireSize (s : RawSet) : Z := fold_left (fun n a => n + WireLength a) s 0.

(** The comma-ok result [(Raw, bool)] is an option. *)
Fixpoint First (s : RawSet) (typ : Z) : option Raw :=
  match s with
  | [] => None
  | a :: s => if Raw_Type a =? typ then Some a else First s typ
  end.

Definition AllOf (s : RawSet) (typ : Z) : RawSet :=
  fold_left (fun out a => if Raw_Type a =? typ then out ++ [a] else out) s [].

Definition RawSet_Clone (s : RawSet) : RawSet := map Raw_Clone s.

(** ** The payload decoder

    [off], [valueBytes] and [out] are the loop's variables; [out] grows by
    [append].  The loop ends because [off] grows by at least two, so
    [length payload] is enough fuel. *)
Fixpoint Decode_loop (fuel : nat) (payload : bytes) (maxAttrs maxValueBytes : Z)
    (off valueBytes : Z) (out : RawSet) : result attribute_error RawSet :=
  match fuel with
  | O => Ok out
  | S fuel =>
    if off <? len payload then
      let remain := len payload - off in
      if remain <? 2 then Err ErrOverflow else
      let typ := index payload off in
      let alen := index payload (off + 1) in
      if alen <? 2 then Err ErrLength else
      if alen >? remain then Err ErrOverflow else
      if len out >=? maxAttrs then Err ErrTooMany else
      let vlen := alen - 2 in
      if valueBytes + vlen >? maxValueBytes then Err ErrBudget else
      let val := if vlen >? 0
                 then copy_bytes (make_bytes vlen) (slice payload (off + 2) (off + alen))
                 else [] in
      Decode_loop fuel payload maxAttrs maxValueBytes (off + alen) (valueBytes + vlen)
        (out ++ [mkRaw typ val])
    else Ok out
  end.

Definition Decode (payload : bytes) (maxAttrs maxValueBytes : Z) : result attribute_error RawSet :=
  let maxAttrs := if maxAttrs <=? 0 then DefaultMaxAttributes else maxAttrs in
  let maxValueBytes := if maxValueBytes <=? 0 then DefaultMaxValueBytes else maxValueBytes in
  Decode_loop (length payload) payload maxAttrs maxValueBytes 0 0 [].

(** ** The payload encoder *)

(** The first loop: every value fits, and the summed size. *)
Fixpoint Encode_size (set : RawSet) (n : Z) : result attribute_error Z :=
  match set with
  | [] => Ok n
  | a :: set =>
    if len (Raw_Value a) >? MaxValueLength then Err ErrValueTooLong
    else Encode_size set (n + (2 + len (Raw_Value a)))
  end.

(** The second loop writes into [out] at [off]. *)
Fixpoint Encode_write (set : RawSet) (out : bytes) (off : Z) : bytes :=
  match set with
  | [] => out
  | a :: set =>
    let out := set_at out off (Raw_Type a) in
    let out := set_at out (off + 1) (to_u8 (2 + len (Raw_Value a))) in
    let out := copy_at out (off + 2) (Raw_Value a) in
    Encode_write set out (off + (2 + len (Raw_Value a)))
  end.

Definition Encode (set : RawSet) : result attribute_error bytes :=
  let! n := Encode_size set 0 in
  if n =? 0 then Ok []
  else Ok (Encode_write set (make_bytes n) 0).

(** ** Vendor-Specific framing (vendor.go) *)

Definition vendorIDSize := 4.
Definition VendorMicrosoft := 311.
Definition VendorTypeMSCHAPResponse := 1.
Definition VendorTypeMSCHAPError := 2.
Definition VendorTypeMSCHAPChallenge := 11.
Definition VendorTypeMSCHAP2Response := 25.
Definition VendorTypeMSCHAP2Success := 26.
Definition MSCHAPChallengeV1Len := 8.
Definition MSCHAPChallengeV2Len := 16.
Definition MSCHAPResponseWireLen := 50.
Definition MSCHAP2SuccessWireLen := 43.
Definition VendorCisco := 9.
Definition TypeCiscoAVPair := 1.
Definition MaxVendorTLVValue := MaxValueLength - vendorIDSize - 2.

Record VSA := mkVSA { VSA_Vendor : Z; VSA_Payload : bytes }.
Record VendorTLV := mkVendorTLV { VendorTLV_Type : Z; VendorTLV_Value : bytes }.

#[export] Instance VSA_eq_dec : EqDecision VSA.
Proof. solve_decision. Defined.
#[export] Instance VendorTLV_eq_dec : EqDecision VendorTLV.
Proof. solve_decision. Defined.

(** [binary.BigEndian.Uint32(p[:4])] *)
Definition be_u32_at (p : bytes) : Z := be_u32 (index p 0) (index p 1) (index p 2) (index p 3).

Definition ParseVSA (r : Raw) : result attribute_error VSA :=
  if negb (Raw_Type r =? TypeVendorSpecific) then Err ErrNotVSA else
  if len (Raw_Value r) <? vendorIDSize then Err ErrVSAShort else
  let vendor := be_u32_at (slice (Raw_Value r) 0 vendorIDSize) in
  let rest := slice (Raw_Value r) vendorIDSize (len (Raw_Value r)) in
  Ok (mkVSA vendor (if len rest >? 0 then copy_bytes (make_bytes (len rest)) rest else [])).

Definition VSA_Raw (v : VSA) : result attribute_error Raw :=
  if len (VSA_Payload v) >? MaxValueLength - vendorIDSize then Err ErrVSAValueLong else
  let val := make_bytes (vendorIDSize + len (VSA_Payload v)) in
  let val := copy_at val 0 (put_u32 (VSA_Vendor v)) in
  let val := copy_at val vendorIDSize (VSA_Payload v) in
  Ok (mkRaw TypeVendorSpecific val).

Fixpoint ParseVendorTLVs_loop (fuel : nat) (payload : bytes) (i : Z) (out : list VendorTLV)
    : result attribute_error (list VendorTLV) :=
  match fuel with
  | O => Ok out
  | S fuel =>
    if i <? len payload then
      let left := len payload - i in
      if left <? 2 then Err ErrVendorTLVMalformed else
      let typ := index payload i in
      let n := index payload (i + 1) in
      if n <? 2 then Err ErrVendorTLVMalformed else
      if n >? left then Err ErrVendorTLVMalformed else
      let vlen := n - 2 in
      let val := if vlen >? 0
                 then copy_bytes (make_bytes vlen) (slice payload (i + 2) (i + n))
                 else [] in
      ParseVendorTLVs_loop fuel payload (i + n) (out ++ [mkVendorTLV typ val])
    else Ok out
  end.

Definition ParseVendorTLVs (payload : bytes) : result attribute_error (list VendorTLV) :=
  if len payload =? 0 then Ok []
  else ParseVendorTLVs_loop (length payload) payload 0 [].

Fixpoint EncodeVendorTLVs_size (tlvs : list VendorTLV) (n : Z) : result attribute_error Z :=
  match tlvs with
  | [] => Ok n
  | t :: tlvs =>
    if len (VendorTLV_Value t) >? MaxVendorTLVValue then Err ErrVendorTLVLong
    else EncodeVendorTLVs_size tlvs (n + (2 + len (VendorTLV_Value t)))
  end.

Fixpoint EncodeVendorTLVs_write (tlvs : list VendorTLV) (out : bytes) (off : Z) : bytes :=
  match tlvs with
  | [] => out
  | t :: tlvs =>
    let out := set_at out off (VendorTLV_Type t) in
    let out := set_at out (off + 1) (to_u8 (2 + len (VendorTLV_Value t))) in
    let out := copy_at out (off + 2) (VendorTLV_Value t) in
    EncodeVendorTLVs_write tlvs out (off + (2 + len (VendorTLV_Value t)))
  end.

Definition EncodeVendorTLVs (tlvs : list VendorTLV) : result attribute_error bytes :=
  let! n := EncodeVendorTLVs_size tlvs 0 in
  if n =? 0 then Ok [] else
  if n >? MaxValueLength - vendorIDSize then Err ErrVSAValueLong else
  Ok (EncodeVendorTLVs_write tlvs (make_bytes n) 0).

Definition MicrosoftVSA (vendorType : Z) (value : bytes) : result attribute_error Raw :=
  let! payload := EncodeVendorTLVs [mkVendorTLV vendorType value] in
  VSA_Raw (mkVSA VendorMicrosoft payload).

(** The types [MicrosoftSecret] switches on. *)
Definition mschap_type (t : Z) : bool :=
  (t =? VendorTypeMSCHAPResponse) || (t =? VendorTypeMSCHAPError)
  || (t =? VendorTypeMSCHAPChallenge) || (t =? VendorTypeMSCHAP2Response)
  || (t =? VendorTypeMSCHAP2Success).

Definition MicrosoftSecret (r : Raw) : bool :=
  if negb (Raw_Type r =? TypeVendorSpecific) then false else
  match ParseVSA r with
  | Err _ => false
  | Ok vsa =>
    if negb (VSA_Vendor vsa =? VendorMicrosoft) then false else
    match ParseVendorTLVs (VSA_Payload vsa) with
    | Err _ => true
    | Ok tlvs => existsb (fun t => mschap_type (VendorTLV_Type t)) tlvs
    end
  end.

Definition EncodeCiscoAVPair (text : bytes) : result attribute_error Raw :=
  let! payload := EncodeVendorTLVs [mkVendorTLV TypeCiscoAVPair text] in
  VSA_Raw (mkVSA VendorCisco payload).

Definition DecodeCiscoAVPairs (r : Raw) : result attribute_error (list bytes) :=
  let! vsa := ParseVSA r in
  if negb (VSA_Vendor vsa =? VendorCisco) then Ok [] else
  let! tlvs := ParseVendorTLVs (VSA_Payload vsa) in
  Ok (fold_left (fun out tlv =>
        if VendorTLV_Type tlv =? TypeCiscoAVPair then out ++ [VendorTLV_Value tlv] else out)
      tlvs []).

(** ** The reference: a payload is the concatenation of its TLVs *)

Definition tlv (r : Raw) : bytes := Raw_Type r :: (2 + len (Raw_Value r)) :: Raw_Value r.
Definition tlvs (s : RawSet) : bytes := concat (map tlv s).
#[global] Arguments tlvs : simpl never.
#[global] Arguments ValueBytes : simpl never.

(** What the Go types and the one-octet Length allow. *)
Definition Raw_ok (r : Raw) : Prop :=
  is_u8 (Raw_Type r) /\ Forall is_u8 (Raw_Value r) /\ len (Raw_Value r) <= MaxValueLength.

#[export] Instance Raw_ok_dec r : Decision (Raw_ok r).
Proof. unfold Raw_ok. apply _. Defined.

(** The set respects the two budgets. *)
Definition in_budget (maxAttrs maxValueBytes : Z) (s : RawSet) : Prop :=
  len s <= maxAttrs /\ ValueBytes s <= maxValueBytes.

(** [rest] is where the decoder refuses, after reading [s]: with which error. *)
Definition stuck (maxAttrs maxValueBytes : Z) (s : RawSet) (rest : bytes) : option attribute_error :=
  match rest with
  | [] => None
  | [_] => Some ErrOverflow
  | _ :: n :: _ =>
    if n <? 2 then Some ErrLength
    else if len rest <? n then Some ErrOverflow
    else if maxAttrs <=? len s then Some ErrTooMany
    else if maxValueBytes <? ValueBytes s + (n - 2) then Some ErrBudget
    else None
  end.

(** *** Sizes *)

Lemma ValueBytes_fold s n :
  fold_left (fun n a => n + len (Raw_Value a)) s n = n + ValueBytes s.
Proof.
  unfold ValueBytes. revert n. induction s as [|a s IH]; intros n; simpl; [lia|].
  rewrite (IH (n + _)), (IH (0 + _)). lia.
Qed.
Lemma ValueBytes_cons a s : ValueBytes (a :: s) = len (Raw_Value a) + ValueBytes s.
Proof. unfold ValueBytes at 1. simpl. apply (ValueBytes_fold s). Qed.
Lemma ValueBytes_app s k : ValueBytes (s ++ k) = ValueBytes s + ValueBytes k.
Proof. unfold ValueBytes at 1. rewrite fold_left_app. apply ValueBytes_fold. Qed.
Lemma ValueBytes_nonneg s : 0 <= ValueBytes s.
Proof. induction s as [|a s IH]; [done|]. rewrite ValueBytes_cons. pose proof (len_nonneg (Raw_Value a)). lia. Qed.

Lemma len_tlv r : len (tlv r) = 2 + len (Raw_Value r).
Proof. unfold tlv. rewrite !len_cons. lia. Qed.
Lemma tlvs_cons a s : tlvs (a :: s) = tlv a ++ tlvs s.
Proof. done. Qed.
Lemma tlvs_app s k : tlvs (s ++ k) = tlvs s ++ tlvs k.
Proof. unfold tlvs. by rewrite map_app, concat_app. Qed.
Lemma len_tlvs s : len (tlvs s) = 2 * len s + ValueBytes s.
Proof.
  induction s as [|a s IH]; [done|].
  rewrite tlvs_cons, ValueBytes_cons, len_app, len_cons, len_tlv, IH. lia.
Qed.
Lemma ValueBytes_nil : ValueBytes [] = 0.
Proof. done. Qed.
#[export] Hint Rewrite len_tlv len_tlvs ValueBytes_nil ValueBytes_cons ValueBytes_app : len.
#[export] Hint Resolve ValueBytes_nonneg : taclab.

(** [AllOf] and [First] are the filter and its head. *)
Lemma AllOf_cons a s t : AllOf (a :: s) t = (if Raw_Type a =? t then [a] else []) ++ AllOf s t.
Proof.
  unfold AllOf. set (f := fun _ _ => _).
  assert (forall s out, fold_left f s out = out ++ fold_left f s []) as H.
  { clear. induction s as [|b s IH]; intros out; simpl; [by rewrite app_nil_r|].
    rewrite IH, (IH (f [] b)), app_assoc. f_equal. unfold f.
    destruct (Raw_Type b =? t); [done|by rewrite app_nil_r]. }
  simpl. by rewrite H.
Qed.
Lemma AllOf_app s k t : AllOf (s ++ k) t = AllOf s t ++ AllOf k t.
Proof. induction s as [|a s IH]; [done|]. simpl app. rewrite !AllOf_cons, IH. by rewrite app_assoc. Qed.
Lemma elem_of_AllOf s t a : a ∈ AllOf s t <-> a ∈ s /\ Raw_Type a = t.
Proof.
  induction s as [|b s IH].
  { split; [intros H; by apply elem_of_nil in H|intros [H _]; by apply elem_of_nil in H]. }
  rewrite AllOf_cons, elem_of_app, IH, elem_of_cons.
  destruct (Z.eqb_spec (Raw_Type b) t).
  - rewrite list_elem_of_singleton. naive_solver.
  - rewrite elem_of_nil. naive_solver.
Qed.
Lemma First_AllOf s t : First s t = head (AllOf s t).
Proof.
  induction s as [|a s IH]; [done|]. rewrite AllOf_cons. simpl. by destruct (Raw_Type a =? t).
Qed.
#[global] Arguments AllOf : simpl never.

Lemma WireSize_tlvs s : WireSize s = len (tlvs s).
Proof.
  unfold WireSize. enough (forall n, fold_left (fun n a => n + WireLength a) s n = n + len (tlvs s)) as H
    by apply H.
  induction s as [|a s IH]; intros n; simpl; [change (tlvs []) with (@nil Z); len_lia|].
  rewrite IH, tlvs_cons, len_app, len_tlv. unfold WireLength. lia.
Qed.

Lemma tlvs_bytes s : Forall Raw_ok s -> Forall is_u8 (tlvs s).
Proof.
  unfold Raw_ok, is_u8, MaxValueLength. induction 1 as [|a s (Ht & Hv & Hl) Hs IH]; [constructor|].
  rewrite tlvs_cons. apply Forall_app; split; [|done].
  constructor; [done|]. constructor; [|done]. pose proof (len_nonneg (Raw_Value a)). lia.
Qed.

(** *** The encoder writes the concatenation *)

Lemma Encode_size_ok s n :
  Forall (fun a => len (Raw_Value a) <= MaxValueLength) s -> Encode_size s n = Ok (n + len (tlvs s)).
Proof.
  intros H. revert n. induction H as [|a s Ha Hs IH]; intros n; simpl.
  - f_equal. change (tlvs []) with (@nil Z). len_lia.
  - rewrite Z.gtb_ltb. destruct (Z.ltb_spec MaxValueLength (len (Raw_Value a))); [lia|].
    rewrite IH, tlvs_cons, len_app, len_tlv. f_equal. lia.
Qed.

Lemma Encode_size_err s n :
  ~ Forall (fun a => len (Raw_Value a) <= MaxValueLength) s -> Encode_size s n = Err ErrValueTooLong.
Proof.
  revert n. induction s as [|a s IH]; intros n H; simpl; [by destruct H|].
  rewrite Z.gtb_ltb. destruct (Z.ltb_spec MaxValueLength (len (Raw_Value a))); [done|].
  apply IH. intros Hs. apply H. by constructor.
Qed.

Lemma write_tlv p r b c :
  len (Raw_Value r) <= MaxValueLength -> len b = len (Raw_Value r) ->
  copy_at (set_at (set_at (p ++ 0 :: 0 :: b ++ c) (len p) (Raw_Type r))
    (len p + 1) (to_u8 (2 + len (Raw_Value r)))) (len p + 2) (Raw_Value r)
  = (p ++ tlv r) ++ c.
Proof.
  intros Hr Hb. rewrite set_at_app.
  replace (p ++ Raw_Type r :: 0 :: b ++ c) with ((p ++ [Raw_Type r]) ++ 0 :: b ++ c) by by rewrite <- app_assoc.
  replace (len p + 1) with (len (p ++ [Raw_Type r])) by (rewrite len_app, len_cons, len_nil; lia).
  rewrite set_at_app, <- app_assoc. simpl.
  rewrite to_u8_id by (unfold is_u8, MaxValueLength in *; pose proof (len_nonneg (Raw_Value r)); lia).
  set (q := p ++ [Raw_Type r; 2 + len (Raw_Value r)]).
  replace (p ++ Raw_Type r :: 2 + len (Raw_Value r) :: b ++ c) with (q ++ b ++ c)
    by (unfold q; by rewrite <- app_assoc).
  replace (len p + 2) with (len q) by (unfold q; rewrite len_app, !len_cons, len_nil; lia).
  rewrite copy_at_app, copy_bytes_app by done. unfold q, tlv. by rewrite <- !app_assoc.
Qed.

Lemma Encode_write_tlvs s p :
  Forall (fun a => len (Raw_Value a) <= MaxValueLength) s ->
  Encode_write s (p ++ make_bytes (len (tlvs s))) (len p) = p ++ tlvs s.
Proof.
  intros H. revert p. induction H as [|a s Ha Hs IH]; intros p; simpl; [done|].
  rewrite tlvs_cons, len_app, len_tlv, make_bytes_add by (auto with taclab; len_lia).
  rewrite make_bytes_add by (auto with taclab; lia). change (make_bytes 2) with [0; 0].
  rewrite <- app_assoc. simpl.
  rewrite write_tlv by (rewrite ?len_make_bytes by apply len_nonneg; done).
  replace (len p + (2 + len (Raw_Value a))) with (len (p ++ tlv a)) by (rewrite len_app, len_tlv; lia).
  by rewrite IH, <- app_assoc.
Qed.

(** The encoder is the reference, or refuses the over-long value. *)
Lemma Encode_tlvs s :
  Encode s = if decide (Forall (fun a => len (Raw_Value a) <= MaxValueLength) s)
             then Ok (tlvs s) else Err ErrValueTooLong.
Proof.
  unfold Encode. destruct (decide _) as [H|H].
  - rewrite Encode_size_ok, Z.add_0_l by done. simpl. destruct (Z.eqb_spec (len (tlvs s)) 0) as [E|E].
    + apply len_zero in E. by rewrite E.
    + f_equal. apply (Encode_write_tlvs s []). done.
  - by rewrite Encode_size_err.
Qed.

Lemma Encode_ok s : Forall Raw_ok s -> Encode s = Ok (tlvs s).
Proof.
  intros H. rewrite Encode_tlvs, decide_True; [done|].
  revert H. apply Forall_impl. by intros a (_ & _ & ?).
Qed.

(** *** One round of the decoder *)

(** A prefix [p], then a TLV header with a length octet [n], then [rest]. *)
Lemma Decode_loop_step fuel p t n rest A V vb out :
  Decode_loop (S fuel) (p ++ t :: n :: rest) A V (len p) vb out =
  if n <? 2 then Err ErrLength
  else if 2 + len rest <? n then Err ErrOverflow
  else if A <=? len out then Err ErrTooMany
  else if V <? vb + (n - 2) then Err ErrBudget
  else Decode_loop fuel (p ++ t :: n :: rest) A V (len p + n) (vb + (n - 2))
         (out ++ [mkRaw t (take (Z.to_nat (n - 2)) rest)]).
Proof.
  assert (len (p ++ t :: n :: rest) = len p + (2 + len rest)) as Hl by (rewrite len_app, !len_cons; lia).
  pose proof (len_nonneg rest) as Hr. cbn [Decode_loop]. rewrite Hl.
  destruct (Z.ltb_spec (len p) (len p + (2 + len rest))); [|lia].
  replace (len p + (2 + len rest) - len p) with (2 + len rest) by lia.
  destruct (Z.ltb_spec (2 + len rest) 2); [lia|].
  rewrite index_app_len, index_app_len_1, !Z.gtb_ltb, Z.geb_leb.
  destruct (Z.ltb_spec n 2) as [?|H2]; [done|].
  destruct (Z.ltb_spec (2 + len rest) n) as [?|H3]; [done|].
  destruct (Z.leb_spec A (len out)) as [?|H4]; [done|].
  destruct (Z.ltb_spec V (vb + (n - 2))) as [?|H5]; [done|].
  repeat f_equal.
  assert (slice (p ++ t :: n :: rest) (len p + 2) (len p + n) = take (Z.to_nat (n - 2)) rest) as ->.
  { unfold slice. replace (len p + n - (len p + 2)) with (n - 2) by lia. f_equal.
    replace (p ++ t :: n :: rest) with ((p ++ [t; n]) ++ rest) by by rewrite <- app_assoc.
    replace (len p + 2) with (len (p ++ [t; n])) by (rewrite len_app, !len_cons, len_nil; lia).
    by rewrite len_to_nat, drop_app_length. }
  destruct (Z.ltb_spec 0 (n - 2)) as [?|H6].
  - apply copy_bytes_full. rewrite len_make_bytes by lia. rewrite len_take; lia.
  - replace (n - 2) with 0 by lia. done.
Qed.

Lemma Decode_loop_end fuel p A V vb out : Decode_loop fuel p A V (len p) vb out = Ok out.
Proof. destruct fuel; simpl; [done|]. by rewrite Z.ltb_irrefl. Qed.

(** A read TLV is appended to the prefix. *)
Lemma tlvs_snoc s t n rest :
  2 <= n <= 2 + len rest ->
  let a := mkRaw t (take (Z.to_nat (n - 2)) rest) in
  tlvs (s ++ [a]) ++ drop (Z.to_nat (n - 2)) rest = tlvs s ++ t :: n :: rest.
Proof.
  intros H a. rewrite tlvs_app, <- app_assoc. f_equal. unfold tlvs. simpl.
  rewrite app_nil_r. unfold tlv. simpl. rewrite len_take by lia.
  replace (2 + (n - 2)) with n by lia. by rewrite take_drop.
Qed.

Lemma Raw_ok_read t n rest :
  is_u8 t -> is_u8 n -> Forall is_u8 rest -> 2 <= n <= 2 + len rest ->
  Raw_ok (mkRaw t (take (Z.to_nat (n - 2)) rest)).
Proof.
  unfold Raw_ok, MaxValueLength, is_u8. intros Ht Hn Hr H. simpl. split_and!; [lia|lia|by apply Forall_take|].
  rewrite len_take; lia.
Qed.

Lemma Decode_loop_spec A V fuel rest out :
  (length rest <= fuel)%nat -> Forall is_u8 rest -> in_budget A V out ->
  match Decode_loop fuel (tlvs out ++ rest) A V (len (tlvs out)) (ValueBytes out) out with
  | Ok set => exists s, set = out ++ s /\ rest = tlvs s /\ Forall Raw_ok s /\ in_budget A V set
  | Err e => exists s rest', rest = tlvs s ++ rest' /\ Forall Raw_ok s
             /\ in_budget A V (out ++ s) /\ stuck A V (out ++ s) rest' = Some e
  end.
Proof.
  revert rest out. induction fuel as [|fuel IH]; intros rest out Hf Hr Hb.
  { destruct rest; simpl in Hf; [|lia]. simpl. exists []. by rewrite !app_nil_r. }
  destruct rest as [|t [|n rest]].
  - rewrite app_nil_r, Decode_loop_end. exists []. by rewrite !app_nil_r.
  - simpl. rewrite len_app, len_cons, len_nil.
    destruct (Z.ltb_spec (len (tlvs out)) (len (tlvs out) + (1 + 0))); [|lia].
    destruct (Z.ltb_spec (len (tlvs out) + (1 + 0) - len (tlvs out)) 2); [|lia].
    exists [], [t]. by rewrite !app_nil_r.
  - rewrite Decode_loop_step. forall_hyps.
    assert (forall e, stuck A V out (t :: n :: rest) = Some e ->
      exists s rest', t :: n :: rest = tlvs s ++ rest' /\ Forall Raw_ok s
        /\ in_budget A V (out ++ s) /\ stuck A V (out ++ s) rest' = Some e) as Hstuck.
    { intros e He. exists [], (t :: n :: rest). by rewrite !app_nil_r. }
    revert Hstuck. unfold stuck at 1. rewrite !len_cons.
    replace (1 + (1 + len rest)) with (2 + len rest) by lia. intros Hstuck.
    destruct (Z.ltb_spec n 2); [by apply Hstuck|].
    destruct (Z.ltb_spec (2 + len rest) n); [by apply Hstuck|].
    destruct (Z.leb_spec A (len out)); [by apply Hstuck|].
    destruct (Z.ltb_spec V (ValueBytes out + (n - 2))); [by apply Hstuck|]. clear Hstuck.
    set (a := mkRaw t (take (Z.to_nat (n - 2)) rest)).
    assert (2 <= n <= 2 + len rest) as Hn by lia.
    assert (Raw_ok a) as Ha by by apply Raw_ok_read.
    assert (len (Raw_Value a) = n - 2) as Hla by (apply len_take; lia).
    specialize (IH (drop (Z.to_nat (n - 2)) rest) (out ++ [a])).
    unfold a in IH at 2. rewrite (tlvs_snoc out t n rest Hn) in IH.
    assert (len (tlvs (out ++ [a])) = len (tlvs out) + n) as E1 by len_lia.
    assert (ValueBytes (out ++ [a]) = ValueBytes out + (n - 2)) as E2
      by len_lia.
    rewrite E1, E2 in IH.
    assert (tlv a ++ drop (Z.to_nat (n - 2)) rest = t :: n :: rest) as Et.
    { pose proof (tlvs_snoc [] t n rest Hn) as E. cbv zeta in E.
      change (tlvs ([] ++ [mkRaw t (take (Z.to_nat (n - 2)) rest)])) with (tlv a ++ []) in E.
      by rewrite app_nil_r in E. }
    assert (forall s, tlv a ++ (tlvs s) = tlvs (a :: s)) as Ec by done.
    destruct (Decode_loop _ _ _ _ _ _ _) as [set|e]; destruct IH as (s & IH).
    + rewrite length_drop. simpl in Hf. lia.
    + by apply Forall_drop.
    + unfold in_budget in *. split; [|lia]. rewrite len_app, len_cons, len_nil. lia.
    + destruct IH as (-> & Hd & Hs & Hbud). exists (a :: s). rewrite <- app_assoc in Hbud |- *.
      split_and!; [done| |by constructor|done]. by rewrite <- Ec, <- Hd, Et.
    + rewrite length_drop. simpl in Hf. lia.
    + by apply Forall_drop.
    + unfold in_budget in *. split; [|lia]. rewrite len_app, len_cons, len_nil. lia.
    + destruct IH as (rest' & Hd & Hs & Hbud & Hst). exists (a :: s), rest'.
      rewrite <- app_assoc in Hbud, Hst. split_and!; [|by constructor|done|done].
      by rewrite tlvs_cons, <- app_assoc, <- Hd, Et.
Qed.

(** A well-formed set in budget is read back. *)
Lemma Decode_loop_tlvs A V fuel s out :
  (length (tlvs s) <= fuel)%nat -> Forall Raw_ok s -> in_budget A V (out ++ s) ->
  Decode_loop fuel (tlvs out ++ tlvs s) A V (len (tlvs out)) (ValueBytes out) out = Ok (out ++ s).
Proof.
  revert fuel out. induction s as [|a s IH]; intros fuel out Hf Hs Hb.
  { unfold tlvs at 2. simpl. by rewrite !app_nil_r, Decode_loop_end. }
  forall_hyps. destruct a as [t v]. match goal with H : Raw_ok _ |- _ => destruct H as (Ht & Hv & Hl) end.
  simpl in Ht, Hv, Hl.
  rewrite tlvs_cons in Hf. rewrite tlvs_cons. destruct fuel as [|fuel]; [simpl in Hf; lia|].
  change (tlv (mkRaw t v) ++ tlvs s) with (t :: (2 + len v) :: (v ++ tlvs s)).
  rewrite Decode_loop_step. replace (2 + len v - 2) with (len v) by lia.
  unfold in_budget in Hb. rewrite len_app, len_cons, ValueBytes_app, ValueBytes_cons in Hb. simpl in Hb.
  pose proof (ValueBytes_nonneg s). pose proof (len_nonneg v). pose proof (len_nonneg s).
  pose proof (len_nonneg (tlvs s)). rewrite len_app.
  destruct (Z.ltb_spec (2 + len v) 2); [lia|].
  destruct (Z.ltb_spec (2 + (len v + len (tlvs s))) (2 + len v)); [lia|].
  destruct (Z.leb_spec A (len out)); [lia|].
  destruct (Z.ltb_spec V (ValueBytes out + len v)); [lia|].
  rewrite len_to_nat, take_app_length.
  specialize (IH fuel (out ++ [mkRaw t v])). rewrite <- !app_assoc in IH. simpl in IH.
  rewrite tlvs_app, <- app_assoc in IH. change (tlvs [mkRaw t v]) with (tlv (mkRaw t v) ++ []) in IH.
  rewrite app_nil_r in IH. simpl in IH. rewrite <- IH.
  - f_equal; [|].
    + rewrite len_app, len_tlv. simpl. lia.
    + rewrite ValueBytes_app, ValueBytes_cons. change (ValueBytes []) with 0. simpl. lia.
  - rewrite length_app in Hf. simpl in Hf. lia.
  - done.
  - unfold in_budget. rewrite len_app, len_cons, ValueBytes_app, ValueBytes_cons. simpl. lia.
Qed.

(** The limits [Decode] uses: non-positive arguments mean the defaults. *)
Definition max_attrs (n : Z) : Z := if n <=? 0 then DefaultMaxAttributes else n.
Definition max_value_bytes (n : Z) : Z := if n <=? 0 then DefaultMaxValueBytes else n.

Lemma max_attrs_pos n : 0 < max_attrs n.
Proof. unfold max_attrs, DefaultMaxAttributes. destruct (Z.leb_spec n 0); lia. Qed.
Lemma max_value_bytes_pos n : 0 < max_value_bytes n.
Proof. unfold max_value_bytes, DefaultMaxValueBytes. destruct (Z.leb_spec n 0); lia. Qed.

Lemma Decode_spec payload A V :
  Forall is_u8 payload ->
  match Decode payload A V with
  | Ok set => payload = tlvs set /\ Forall Raw_ok set /\ in_budget (max_attrs A) (max_value_bytes V) set
  | Err e => exists s rest, payload = tlvs s ++ rest /\ Forall Raw_ok s
             /\ in_budget (max_attrs A) (max_value_bytes V) s
             /\ stuck (max_attrs A) (max_value_bytes V) s rest = Some e
  end.
Proof.
  intros Hp. pose proof (max_attrs_pos A). pose proof (max_value_bytes_pos V).
  assert (in_budget (max_attrs A) (max_value_bytes V) []) as Hb
    by (unfold in_budget; rewrite len_nil, ValueBytes_nil; lia).
  pose proof (Decode_loop_spec _ _ (length payload) payload [] (le_n _) Hp Hb) as H1.
  change (Decode_loop _ _ _ _ _ _ _) with (Decode payload A V) in H1.
  destruct (Decode payload A V).
  - destruct H1 as (s & -> & H1). done.
  - destruct H1 as (s & rest & H1). by exists s, rest.
Qed.

Lemma Decode_tlvs s A V :
  Forall Raw_ok s -> in_budget (max_attrs A) (max_value_bytes V) s -> Decode (tlvs s) A V = Ok s.
Proof.
  intros Hs Hb. exact (Decode_loop_tlvs _ _ _ s [] (le_n _) Hs Hb).
Qed.

Lemma Decode_Ok payload A V set :
  Forall is_u8 payload -> Decode payload A V = Ok set ->
  payload = tlvs set /\ Forall Raw_ok set /\ in_budget (max_attrs A) (max_value_bytes V) set.
Proof. intros Hp E. pose proof (Decode_spec payload A V Hp) as H. by rewrite E in H. Qed.

(** The attribute payload codec is exact.  Decoding accepts a payload
    exactly when it is the encoding of a set within the attribute-count and
    value-byte budgets (non-positive limits mean 256 and 4096), returns that
    set, order and duplicates kept, and re-encoding returns the payload.  A
    refused payload splits into the attributes read so far and the first
    octets that do not form an attribute in budget, and the error is the one
    that position deserves ([stuck]).  The offset loop always ends. *)
Lemma stream_exact (payload : bytes) (A V : Z) :
  Forall is_u8 payload ->
  match Decode payload A V with
  | Ok set => Encode set = Ok payload /\ Forall Raw_ok set
              /\ in_budget (max_attrs A) (max_value_bytes V) set
  | Err e => exists s rest, Encode s = Ok (tlvs s) /\ payload = tlvs s ++ rest
             /\ in_budget (max_attrs A) (max_value_bytes V) s
             /\ stuck (max_attrs A) (max_value_bytes V) s rest = Some e
  end
  /\ (forall set, Forall Raw_ok set -> in_budget (max_attrs A) (max_value_bytes V) set ->
        exists wire, Encode set = Ok wire /\ Decode wire A V = Ok set /\ len wire = WireSize set).
Proof.
  intros Hp. split.
  - pose proof (Decode_spec payload A V Hp) as H. destruct (Decode payload A V).
    + destruct H as (-> & Ho & Hb). by rewrite Encode_ok.
    + destruct H as (s & rest & Hs & Ho & Hb & Hst). exists s, rest. by rewrite Encode_ok.
  - intros set Hs Hb. exists (tlvs set). by rewrite Encode_ok, Decode_tlvs, WireSize_tlvs.
Qed.


(** ** Vendor TLVs

    The vendor loop is the attribute loop without budgets and with one error. *)

Definition of_vtlv (t : VendorTLV) : Raw := mkRaw (VendorTLV_Type t) (VendorTLV_Value t).
Definition to_vtlv (r : Raw) : VendorTLV := mkVendorTLV (Raw_Type r) (Raw_Value r).

Lemma to_of_vtlv l : map to_vtlv (map of_vtlv l) = l.
Proof. rewrite map_map. rewrite <- (map_id l) at 2. apply map_ext. by intros []. Qed.
Lemma of_to_vtlv l : map of_vtlv (map to_vtlv l) = l.
Proof. rewrite map_map. rewrite <- (map_id l) at 2. apply map_ext. by intros []. Qed.

Lemma ParseVendorTLVs_loop_Decode fuel p A V i vb out :
  0 <= i -> len out + (len p - i) <= A -> vb + (len p - i) <= V ->
  ParseVendorTLVs_loop fuel p i out =
  match Decode_loop fuel p A V i vb (map of_vtlv out) with
  | Ok s => Ok (map to_vtlv s)
  | Err _ => Err ErrVendorTLVMalformed
  end.
Proof.
  revert i vb out. induction fuel as [|fuel IH]; intros i vb out Hi HA HV; simpl; [by rewrite to_of_vtlv|].
  destruct (Z.ltb_spec i (len p)); [|by rewrite to_of_vtlv].
  destruct (Z.ltb_spec (len p - i) 2); [done|].
  rewrite !Z.gtb_ltb, Z.geb_leb.
  destruct (Z.ltb_spec (index p (i + 1)) 2); [done|].
  destruct (Z.ltb_spec (len p - i) (index p (i + 1))); [done|].
  assert (len (map of_vtlv out) = len out) as El by (unfold len; by rewrite length_map). rewrite El.
  destruct (Z.leb_spec A (len out)); [lia|].
  destruct (Z.ltb_spec V (vb + (index p (i + 1) - 2))); [lia|].
  rewrite (IH _ (vb + (index p (i + 1) - 2))).
  - rewrite map_app. done.
  - lia.
  - rewrite len_app, len_cons, len_nil. lia.
  - lia.
Qed.

Lemma ParseVendorTLVs_Decode p :
  ParseVendorTLVs p =
  match Decode p (len p + 1) (len p + 1) with
  | Ok s => Ok (map to_vtlv s)
  | Err _ => Err ErrVendorTLVMalformed
  end.
Proof.
  unfold ParseVendorTLVs, Decode. pose proof (len_nonneg p).
  destruct (Z.leb_spec (len p + 1) 0); [lia|].
  destruct (Z.eqb_spec (len p) 0) as [E|E]; [apply len_zero in E; by subst|].
  apply (ParseVendorTLVs_loop_Decode _ _ _ _ _ 0 []); rewrite ?len_nil; lia.
Qed.

Definition VendorTLV_ok (t : VendorTLV) : Prop := Raw_ok (of_vtlv t).
Definition vtlvs (ts : list VendorTLV) : bytes := tlvs (map of_vtlv ts).

Lemma ParseVendorTLVs_vtlvs ts :
  Forall VendorTLV_ok ts -> ParseVendorTLVs (vtlvs ts) = Ok ts.
Proof.
  intros H. rewrite ParseVendorTLVs_Decode. unfold vtlvs. rewrite Decode_tlvs.
  - by rewrite to_of_vtlv.
  - by apply Forall_map.
  - unfold in_budget, max_attrs, max_value_bytes. rewrite len_tlvs.
    pose proof (ValueBytes_nonneg (map of_vtlv ts)). pose proof (len_nonneg (map of_vtlv ts)).
    destruct (Z.leb_spec (2 * len (map of_vtlv ts) + ValueBytes (map of_vtlv ts) + 1) 0); lia.
Qed.

Lemma ParseVendorTLVs_Ok p ts :
  Forall is_u8 p -> ParseVendorTLVs p = Ok ts -> p = vtlvs ts /\ Forall VendorTLV_ok ts.
Proof.
  intros Hp. rewrite ParseVendorTLVs_Decode. destruct (Decode _ _ _) as [s|] eqn:E; [|done].
  intros <-%Ok_inj. apply Decode_Ok in E as (-> & Hs & _); [|done].
  unfold vtlvs. rewrite of_to_vtlv. split; [done|]. apply Forall_map. revert Hs.
  apply Forall_impl. by intros [].
Qed.

(** The vendor encoder is the attribute encoder under tighter limits. *)
Lemma EncodeVendorTLVs_size_ok ts n :
  Forall (fun t => len (VendorTLV_Value t) <= MaxVendorTLVValue) ts ->
  EncodeVendorTLVs_size ts n = Ok (n + len (vtlvs ts)).
Proof.
  intros H. revert n. induction H as [|t ts Ht Hts IH]; intros n; simpl.
  - f_equal. change (vtlvs []) with (@nil Z). len_lia.
  - rewrite Z.gtb_ltb. destruct (Z.ltb_spec MaxVendorTLVValue (len (VendorTLV_Value t))); [lia|].
    rewrite IH. unfold vtlvs. rewrite map_cons, tlvs_cons, len_app, len_tlv. simpl. f_equal. lia.
Qed.

Lemma EncodeVendorTLVs_size_inv ts n m :
  EncodeVendorTLVs_size ts n = Ok m -> Forall (fun t => len (VendorTLV_Value t) <= MaxVendorTLVValue) ts.
Proof.
  revert n. induction ts as [|t ts IH]; intros n; simpl; [by constructor|].
  rewrite Z.gtb_ltb. destruct (Z.ltb_spec MaxVendorTLVValue (len (VendorTLV_Value t))); [done|].
  intros E. constructor; [done|]. by eapply IH.
Qed.

Lemma EncodeVendorTLVs_write_Encode ts out off :
  EncodeVendorTLVs_write ts out off = Encode_write (map of_vtlv ts) out off.
Proof. revert out off. induction ts as [|t ts IH]; intros out off; simpl; [done|]. apply IH. Qed.

Definition vendor_fits (ts : list VendorTLV) : Prop :=
  Forall (fun t => len (VendorTLV_Value t) <= MaxVendorTLVValue) ts
  /\ len (vtlvs ts) <= MaxValueLength - vendorIDSize.

Lemma EncodeVendorTLVs_ok ts : vendor_fits ts -> EncodeVendorTLVs ts = Ok (vtlvs ts).
Proof.
  intros [H1 H2]. unfold EncodeVendorTLVs. rewrite EncodeVendorTLVs_size_ok, Z.add_0_l by done. simpl.
  destruct (Z.eqb_spec (len (vtlvs ts)) 0) as [E|E]; [apply len_zero in E; by rewrite E|].
  rewrite Z.gtb_ltb. destruct (Z.ltb_spec (MaxValueLength - vendorIDSize) (len (vtlvs ts))); [lia|].
  f_equal. rewrite EncodeVendorTLVs_write_Encode. unfold vtlvs.
  apply (Encode_write_tlvs _ []). apply Forall_map. revert H1. apply Forall_impl.
  unfold MaxVendorTLVValue, MaxValueLength, vendorIDSize. intros t Ht. simpl. lia.
Qed.

Lemma EncodeVendorTLVs_Ok ts p : EncodeVendorTLVs ts = Ok p -> vendor_fits ts /\ p = vtlvs ts.
Proof.
  intros E. assert (vendor_fits ts) as Hf.
  { apply rbind_Ok in E as (n & Hn & E). pose proof (EncodeVendorTLVs_size_inv _ _ _ Hn) as Hs.
    split; [done|]. rewrite EncodeVendorTLVs_size_ok, Z.add_0_l in Hn by done. apply Ok_inj in Hn as <-.
    destruct (Z.eqb_spec (len (vtlvs ts)) 0) as [E0|_]; [rewrite E0; by unfold MaxValueLength, vendorIDSize|].
    rewrite Z.gtb_ltb in E.
    by destruct (Z.ltb_spec (MaxValueLength - vendorIDSize) (len (vtlvs ts))). }
  split; [done|]. rewrite EncodeVendorTLVs_ok in E by done. congruence.
Qed.

(** Vendor framing. *)
Lemma VSA_Raw_ok v :
  len (VSA_Payload v) <= MaxValueLength - vendorIDSize ->
  VSA_Raw v = Ok (mkRaw TypeVendorSpecific (put_u32 (VSA_Vendor v) ++ VSA_Payload v)).
Proof.
  intros H. unfold VSA_Raw. rewrite Z.gtb_ltb.
  destruct (Z.ltb_spec (MaxValueLength - vendorIDSize) (len (VSA_Payload v))); [lia|].
  repeat f_equal. pose proof (len_nonneg (VSA_Payload v)).
  rewrite make_bytes_add by (unfold vendorIDSize; lia).
  change (copy_at ?b 0 ?s) with (copy_bytes b s).
  rewrite copy_bytes_app by done.
  change vendorIDSize with (len (put_u32 (VSA_Vendor v))). rewrite copy_at_app, copy_bytes_full; [done|].
  rewrite len_make_bytes; lia.
Qed.

Lemma VSA_Raw_Ok v r :
  VSA_Raw v = Ok r ->
  len (VSA_Payload v) <= MaxValueLength - vendorIDSize
  /\ r = mkRaw TypeVendorSpecific (put_u32 (VSA_Vendor v) ++ VSA_Payload v).
Proof.
  intros E. destruct (decide (len (VSA_Payload v) <= MaxValueLength - vendorIDSize)) as [H|H].
  - rewrite VSA_Raw_ok in E by done. split; congruence.
  - unfold VSA_Raw in E. rewrite Z.gtb_ltb in E.
    destruct (Z.ltb_spec (MaxValueLength - vendorIDSize) (len (VSA_Payload v))); [done|lia].
Qed.

Lemma ParseVSA_put v p :
  is_u32 v -> ParseVSA (mkRaw TypeVendorSpecific (put_u32 v ++ p)) = Ok (mkVSA v p).
Proof.
  intros Hv. unfold ParseVSA. cbn [Raw_Type Raw_Value]. rewrite len_app, len_put_u32. pose proof (len_nonneg p).
  destruct (Z.ltb_spec (4 + len p) vendorIDSize); [unfold vendorIDSize in *; lia|].
  assert (slice (put_u32 v ++ p) vendorIDSize (4 + len p) = p) as ->.
  { pose proof (slice_app_mid (put_u32 v) p []) as E. rewrite app_nil_r, len_put_u32 in E. done. }
  assert (slice (put_u32 v ++ p) 0 vendorIDSize = put_u32 v) as -> by done.
  unfold be_u32_at, put_u32, index. simpl. rewrite be_put_u32 by done. repeat f_equal.
  rewrite Z.gtb_ltb. destruct (Z.ltb_spec 0 (len p)).
  - apply copy_bytes_full. by rewrite len_make_bytes.
  - symmetry. apply len_zero. lia.
Qed.

Lemma ParseVSA_Ok r v :
  Forall is_u8 (Raw_Value r) -> ParseVSA r = Ok v ->
  is_u32 (VSA_Vendor v) /\ r = mkRaw TypeVendorSpecific (put_u32 (VSA_Vendor v) ++ VSA_Payload v).
Proof.
  intros Hb E. pose proof E as E'. unfold ParseVSA in E'.
  destruct (Z.eqb_spec (Raw_Type r) TypeVendorSpecific) as [Et|]; simpl in E'; [|done].
  destruct (Z.ltb_spec (len (Raw_Value r)) vendorIDSize) as [|Hl]; [done|]. clear E'.
  destruct r as [t val]. simpl in *. subst t.
  destruct val as [|b0 [|b1 [|b2 [|b3 p]]]]; try (unfold vendorIDSize in Hl; rewrite ?len_cons, len_nil in Hl; lia).
  forall_hyps.
  assert (b0 :: b1 :: b2 :: b3 :: p = put_u32 (be_u32 b0 b1 b2 b3) ++ p) as Ep by by rewrite put_be_u32.
  rewrite Ep in E |- *. rewrite ParseVSA_put in E by by apply be_u32_range.
  apply Ok_inj in E as <-. split; [by apply be_u32_range|done].
Qed.

Lemma vtlvs_single t : vtlvs [t] = tlv (of_vtlv t).
Proof. unfold vtlvs, tlvs. simpl. by rewrite app_nil_r. Qed.

(** One vendor TLV under a vendor id, as [MicrosoftVSA] and [EncodeCiscoAVPair] write it. *)
Definition vendor_raw (vendor : Z) (t : VendorTLV) : Raw :=
  mkRaw TypeVendorSpecific (put_u32 vendor ++ vtlvs [t]).

Lemma vendor_raw_spec vendor t r :
  (let! payload := EncodeVendorTLVs [t] in VSA_Raw (mkVSA vendor payload)) = Ok r <->
  len (VendorTLV_Value t) <= MaxVendorTLVValue /\ r = vendor_raw vendor t.
Proof.
  split.
  - intros (p & Hp & E)%rbind_Ok. apply EncodeVendorTLVs_Ok in Hp as [[H1 H2] ->].
    apply VSA_Raw_Ok in E as [_ ->]. by forall_hyps.
  - intros [H ->]. assert (vendor_fits [t]) as Hf.
    { split; [by repeat constructor|]. rewrite vtlvs_single, len_tlv. revert H.
      unfold MaxVendorTLVValue, MaxValueLength, vendorIDSize. simpl. lia. }
    rewrite EncodeVendorTLVs_ok by done. simpl. by apply VSA_Raw_ok, Hf.
Qed.

Lemma parse_vendor_raw vendor t :
  is_u32 vendor -> VendorTLV_ok t ->
  exists v, ParseVSA (vendor_raw vendor t) = Ok v /\ VSA_Vendor v = vendor
            /\ ParseVendorTLVs (VSA_Payload v) = Ok [t].
Proof.
  intros Hv Ht. exists (mkVSA vendor (vtlvs [t])). split_and!; [by apply ParseVSA_put|done|].
  apply ParseVendorTLVs_vtlvs. by apply Forall_singleton.
Qed.

(** Vendor-Specific attributes.  (1) The vendor id and payload written
    by [VSA.Raw] are read back by [ParseVSA] and conversely, for payloads of
    at most 249 octets.  (2) The nested vendor TLVs encoded by
    [EncodeVendorTLVs] are parsed back, and any parsed payload that fits is
    re-encoded to the same octets.  (3) [EncodeCiscoAVPair] succeeds exactly
    for texts of at most 247 octets, and [DecodeCiscoAVPairs] reads the one
    text back.  (4) Every MS-CHAP vendor attribute [MicrosoftVSA] builds is
    classified secret, and a vendor-311 attribute whose nested TLVs do not
    parse is too. *)
Lemma vendor_attributes :
  (forall v r, is_u32 (VSA_Vendor v) -> Forall is_u8 (Raw_Value r) ->
     len (Raw_Value r) <= MaxValueLength -> (VSA_Raw v = Ok r <-> ParseVSA r = Ok v))
  /\ (forall ts p, Forall VendorTLV_ok ts -> EncodeVendorTLVs ts = Ok p -> ParseVendorTLVs p = Ok ts)
  /\ (forall ts p, Forall is_u8 p -> ParseVendorTLVs p = Ok ts -> vendor_fits ts ->
        EncodeVendorTLVs ts = Ok p)
  /\ (forall text, Forall is_u8 text ->
        (is_ok (EncodeCiscoAVPair text) = true <-> len text <= 247)
        /\ (forall r, EncodeCiscoAVPair text = Ok r -> DecodeCiscoAVPairs r = Ok [text]))
  /\ (forall t value r, is_u8 t -> Forall is_u8 value -> MicrosoftVSA t value = Ok r ->
        MicrosoftSecret r = mschap_type t)
  /\ (forall payload r, VSA_Raw (mkVSA VendorMicrosoft payload) = Ok r ->
        is_ok (ParseVendorTLVs payload) = false -> MicrosoftSecret r = true).
Proof.
  split_and!.
  - intros v r Hv Hr Hl. split.
    + intros [_ ->]%VSA_Raw_Ok. destruct v. by apply ParseVSA_put.
    + intros [_ ->]%ParseVSA_Ok; [|done]. apply VSA_Raw_ok. cbn [Raw_Value] in Hl.
      rewrite len_app, len_put_u32 in Hl. unfold vendorIDSize. lia.
  - intros ts p Hts [_ ->]%EncodeVendorTLVs_Ok. by apply ParseVendorTLVs_vtlvs.
  - intros ts p Hp [-> _]%ParseVendorTLVs_Ok Hf; [|done]. by apply EncodeVendorTLVs_ok.
  - intros text Ht. pose proof (vendor_raw_spec VendorCisco (mkVendorTLV TypeCiscoAVPair text)) as Hs.
    split; [|intros r [Hl ->]%Hs].
    + unfold is_ok. unfold EncodeCiscoAVPair. change 247 with MaxVendorTLVValue. split.
      * destruct (rbind _ _) as [r|]; [|done]. intros _. by destruct (proj1 (Hs r) eq_refl).
      * intros H. by rewrite (proj2 (Hs _) (conj H eq_refl)).
    + unfold DecodeCiscoAVPairs.
      destruct (parse_vendor_raw VendorCisco (mkVendorTLV TypeCiscoAVPair text)) as (v & -> & Ev & E).
      * by unfold is_u32, VendorCisco.
      * split_and!; [by unfold is_u8, TypeCiscoAVPair|done|].
        revert Hl. unfold MaxVendorTLVValue, MaxValueLength, vendorIDSize. simpl. lia.
      * simpl. by rewrite Ev, E.
  - intros t value r Ht Hval [Hl ->]%(vendor_raw_spec VendorMicrosoft (mkVendorTLV t value)).
    unfold MicrosoftSecret. simpl.
    destruct (parse_vendor_raw VendorMicrosoft (mkVendorTLV t value)) as (v & -> & Ev & E).
    + by unfold is_u32, VendorMicrosoft.
    + split_and!; [done|done|]. revert Hl. unfold MaxVendorTLVValue, MaxValueLength, vendorIDSize. simpl. lia.
    + rewrite Ev, E. simpl. apply orb_false_r.
  - intros payload r [_ ->]%VSA_Raw_Ok Hp. unfold MicrosoftSecret. cbn [VSA_Vendor VSA_Payload].
    rewrite ParseVSA_put by by unfold is_u32, VendorMicrosoft. simpl.
    by destruct (ParseVendorTLVs payload).
Qed.

(** C15. The attribute codec is exact.  Decoding accepts a payload
    exactly when it is the encoding of a set within the attribute-count and
    value-byte budgets (non-positive limits mean 256 and 4096), returns that
    set, order and duplicates kept, and re-encoding returns the payload.  A
    refused payload splits into the attributes read so far and the first
    octets that do not form an attribute in budget, and the error is the one
    that position deserves ([stuck]).  The offset loop always ends.
    Inside an attribute: a vendor id and payload written by [VSA.Raw] are read
    back and conversely, nested vendor TLVs too, [EncodeCiscoAVPair] succeeds
    exactly for texts of at most 247 octets, and every MS-CHAP vendor attribute,
    or a vendor-311 attribute that does not parse, is classified secret. *)
Theorem attribute_stream (payload : bytes) (A V : Z) :
  (Forall is_u8 payload ->
   match Decode payload A V with
   | Ok set => Encode set = Ok payload /\ Forall Raw_ok set
               /\ in_budget (max_attrs A) (max_value_bytes V) set
   | Err e => exists s rest, Encode s = Ok (tlvs s) /\ payload = tlvs s ++ rest
              /\ in_budget (max_attrs A) (max_value_bytes V) s
              /\ stuck (max_attrs A) (max_value_bytes V) s rest = Some e
   end)
  /\ (forall set, Forall Raw_ok set -> in_budget (max_attrs A) (max_value_bytes V) set ->
        exists wire, Encode set = Ok wire /\ Decode wire A V = Ok set /\ len wire = WireSize set)
  /\ (forall v r, is_u32 (VSA_Vendor v) -> Forall is_u8 (Raw_Value r) ->
     len (Raw_Value r) <= MaxValueLength -> (VSA_Raw v = Ok r <-> ParseVSA r = Ok v))
  /\ (forall ts p, Forall VendorTLV_ok ts -> EncodeVendorTLVs ts = Ok p -> ParseVendorTLVs p = Ok ts)
  /\ (forall ts p, Forall is_u8 p -> ParseVendorTLVs p = Ok ts -> vendor_fits ts ->
        EncodeVendorTLVs ts = Ok p)
  /\ (forall text, Forall is_u8 text ->
        (is_ok (EncodeCiscoAVPair text) = true <-> len text <= 247)
        /\ (forall r, EncodeCiscoAVPair text = Ok r -> DecodeCiscoAVPairs r = Ok [text]))
  /\ (forall t value r, is_u8 t -> Forall is_u8 value -> MicrosoftVSA t value = Ok r ->
        MicrosoftSecret r = mschap_type t)
  /\ (forall payload r, VSA_Raw (mkVSA VendorMicrosoft payload) = Ok r ->
        is_ok (ParseVendorTLVs payload) = false -> MicrosoftSecret r = true).
Proof.
  split; [intros Hp; exact (proj1 (stream_exact payload A V Hp))|].
  split; [exact (proj2 (stream_exact [] A V (List.Forall_nil _)))|]. exact vendor_attributes.
Qed.

Lemma attribute_stream_witness :
  match Decode [1; 3; 65; 25; 4; 1; 2; 80; 9; 0] 0 0 with
  | Ok set => Encode set = Ok [1; 3; 65; 25; 4; 1; 2; 80; 9; 0] /\ Forall Raw_ok set
              /\ in_budget (max_attrs 0) (max_value_bytes 0) set
  | Err e => exists s rest, Encode s = Ok (tlvs s)
             /\ [1; 3; 65; 25; 4; 1; 2; 80; 9; 0] = tlvs s ++ rest
             /\ in_budget (max_attrs 0) (max_value_bytes 0) s
             /\ stuck (max_attrs 0) (max_value_bytes 0) s rest = Some e
  end
  /\ Decode [1; 3; 65; 25; 4; 1; 2; 80; 9; 0] 0 0 = Err ErrOverflow.
Proof. split; [apply (proj1 (attribute_stream [1; 3; 65; 25; 4; 1; 2; 80; 9; 0] 0 0)); decide_now | reflexivity]. Defined.
