(* ===== verification/RadiusDictionary.v ===== *)
(** * RADIUS attributes: the dictionary and the packet-role check

    [internal/radius/attribute]: [definition.go], [key.go], [standard.go],
    [dictionary.go] and [sensitivity.go].  A [packetMask] is a 16-bit set of
    packet codes; [maskOf] and the constructors of the built-in table panic
    on a mistake in the table, which is [None] here, so that [Builtin]
    being [Some] says the process starts.  Operator dictionaries
    ([operator.go]) are not modelled: they come from YAML. *)

From stdpp Require Import gmap strings.
From S2P Require Import Prelude RadiusAttribute.

#[local] Open Scope Z_scope.

(** ** Packet codes and masks (definition.go) *)

Definition PacketAccessRequest := 1.
Definition PacketAccessAccept := 2.
Definition PacketAccessReject := 3.
Definition PacketAccountingRequest := 4.
Definition PacketAccountingResponse := 5.
Definition PacketAccessChallenge := 11.
Definition PacketDisconnectRequest := 40.
Definition PacketDisconnectACK := 41.
Definition PacketDisconnectNAK := 42.
Definition PacketCoARequest := 43.
Definition PacketCoAACK := 44.
Definition PacketCoANAK := 45.

Inductive ValueKind :=
| KindText | KindString | KindInteger | KindIPv4 | KindIPv6
| KindTime | KindOctets | KindVSA | KindUnknown.
Inductive Cardinality := CardinalitySingle | CardinalityMulti.
Inductive Sensitivity :=
| SensitivitySecret | SensitivityRestricted | SensitivityPublic | SensitivityUnknown.
Inductive AttributeSpace := SpaceIETF | SpaceVSA.

#[export] Instance ValueKind_eq_dec : EqDecision ValueKind.
Proof. solve_decision. Defined.
#[export] Instance Cardinality_eq_dec : EqDecision Cardinality.
Proof. solve_decision. Defined.
#[export] Instance Sensitivity_eq_dec : EqDecision Sensitivity.
Proof. solve_decision. Defined.
#[export] Instance AttributeSpace_eq_dec : EqDecision AttributeSpace.
Proof. solve_decision. Defined.

(** [iota]-shifted bits of a [packetMask] (uint16). *)
Definition bitAccessRequest := Z.shiftl 1 0.
Definition bitAccessAccept := Z.shiftl 1 1.
Definition bitAccessReject := Z.shiftl 1 2.
Definition bitAccountingRequest := Z.shiftl 1 3.
Definition bitAccountingResponse := Z.shiftl 1 4.
Definition bitAccessChallenge := Z.shiftl 1 5.
Definition bitDisconnectRequest := Z.shiftl 1 6.
Definition bitDisconnectACK := Z.shiftl 1 7.
Definition bitDisconnectNAK := Z.shiftl 1 8.
Definition bitCoARequest := Z.shiftl 1 9.
Definition bitCoAACK := Z.shiftl 1 10.
Definition bitCoANAK := Z.shiftl 1 11.

(** The comma-ok result is an option. *)
Definition packetBit (code : Z) : option Z :=
  if code =? PacketAccessRequest then Some bitAccessRequest
  else if code =? PacketAccessAccept then Some bitAccessAccept
  else if code =? PacketAccessReject then Some bitAccessReject
  else if code =? PacketAccountingRequest then Some bitAccountingRequest
  else if code =? PacketAccountingResponse then Some bitAccountingResponse
  else if code =? PacketAccessChallenge then Some bitAccessChallenge
  else if code =? PacketDisconnectRequest then Some bitDisconnectRequest
  else if code =? PacketDisconnectACK then Some bitDisconnectACK
  else if code =? PacketDisconnectNAK then Some bitDisconnectNAK
  else if code =? PacketCoARequest then Some bitCoARequest
  else if code =? PacketCoAACK then Some bitCoAACK
  else if code =? PacketCoANAK then Some bitCoANAK
  else None.

(** [None] is the panic on an unknown packet code. *)
Definition maskOf (codes : list Z) : option Z :=
  fold_left (fun m c => m ← m; b ← packetBit c; Some (Z.lor m b)) codes (Some 0).

Definition mask_has (m code : Z) : bool :=
  match packetBit code with Some b => negb (Z.land m b =? 0) | None => false end.

(** The array [all] of [packetMask.codes]. *)
Definition all_packets : list Z :=
  [PacketAccessRequest; PacketAccessAccept; PacketAccessReject; PacketAccountingRequest;
   PacketAccountingResponse; PacketAccessChallenge; PacketDisconnectRequest;
   PacketDisconnectACK; PacketDisconnectNAK; PacketCoARequest; PacketCoAACK; PacketCoANAK].

Definition mask_codes (m : Z) : list Z :=
  fold_left (fun out c => if mask_has m c then out ++ [c] else out) all_packets [].

Definition knownPacket (code : Z) : bool :=
  match packetBit code with Some _ => true | None => false end.

Definition requestPacket (code : Z) : bool :=
  (code =? PacketAccessRequest) || (code =? PacketAccountingRequest)
  || (code =? PacketDisconnectRequest) || (code =? PacketCoARequest).

(** ** Keys and definitions *)

Record Key := mkKey { Key_Vendor : Z; Key_Code : Z; Key_Space : AttributeSpace }.

#[export] Instance Key_eq_dec : EqDecision Key.
Proof. solve_decision. Defined.
#[export] Instance Key_countable : Countable Key.
Proof.
  refine (inj_countable'
    (fun k => (Key_Vendor k, Key_Code k, bool_decide (Key_Space k = SpaceVSA)))
    (fun '(v, c, s) => mkKey v c (if s : bool then SpaceVSA else SpaceIETF)) _).
  by intros [v c []].
Defined.

Definition IETFKey (code : Z) : Key := mkKey 0 code SpaceIETF.
Definition CiscoAVPairKey : Key := mkKey VendorCisco TypeCiscoAVPair SpaceVSA.

Record AttrDef := mkDef {
  Def_Name : string;
  Def_Vendor : Z;
  Def_Code : Z;
  Def_Kind : ValueKind;
  Def_Cardinality : Cardinality;
  Def_Sensitivity : Sensitivity;
  Def_Source : string;
  Def_MinOctets : Z;
  Def_MaxOctets : Z;
  Def_allowed : Z;
  Def_required : Z;
  Def_first : Z;
}.

#[export] Instance AttrDef_eq_dec : EqDecision AttrDef.
Proof. solve_decision. Defined.

Definition Def_Key (d : AttrDef) : Key :=
  if Def_Vendor d =? 0 then IETFKey (Def_Code d)
  else mkKey (Def_Vendor d) (Def_Code d) SpaceVSA.

Definition Def_AllowedIn (d : AttrDef) (packet : Z) : bool := mask_has (Def_allowed d) packet.
Definition RequiredIn (d : AttrDef) (packet : Z) : bool := mask_has (Def_required d) packet.
Definition MustBeFirst (d : AttrDef) (packet : Z) : bool := mask_has (Def_first d) packet.
Definition AllowedPackets (d : AttrDef) : list Z := mask_codes (Def_allowed d).

(** ** The built-in table (standard.go)

    The masks are evaluated first, so a panic there stops the constructor. *)

Definition SourceBuiltin : string := "builtin".
Definition DictionaryVersion : string := "builtin-mvp-1".
Definition NameCiscoAVPair : string := "Cisco-AVPair".

Definition define (name : string) (code : Z) (kind : ValueKind) (card : Cardinality)
    (sens : Sensitivity) (allow : option Z) : option AttrDef :=
  allow ← allow;
  let '(min, max) :=
    match kind with
    | KindInteger | KindIPv4 | KindTime => (4, 4)
    | KindIPv6 => (16, 16)
    | KindVSA => (vendorIDSize, MaxValueLength)
    | _ => (0, MaxValueLength)
    end in
  Some (mkDef name 0 code kind card sens "" min max allow 0 0).

Definition defineVendor (name : string) (vendor code : Z) (kind : ValueKind) (card : Cardinality)
    (sens : Sensitivity) (allow : option Z) : option AttrDef :=
  d ← define name code kind card sens allow;
  Some (mkDef (Def_Name d) vendor (Def_Code d) (Def_Kind d) (Def_Cardinality d) (Def_Sensitivity d)
    (Def_Source d) (Def_MinOctets d) (Def_MaxOctets d) (Def_allowed d) (Def_required d) (Def_first d)).

Definition withOctets (d : option AttrDef) (min max : Z) : option AttrDef :=
  d ← d;
  Some (mkDef (Def_Name d) (Def_Vendor d) (Def_Code d) (Def_Kind d) (Def_Cardinality d)
    (Def_Sensitivity d) (Def_Source d) min max (Def_allowed d) (Def_required d) (Def_first d)).

Definition require (d : option AttrDef) (codes : list Z) : option AttrDef :=
  d ← d; m ← maskOf codes;
  Some (mkDef (Def_Name d) (Def_Vendor d) (Def_Code d) (Def_Kind d) (Def_Cardinality d)
    (Def_Sensitivity d) (Def_Source d) (Def_MinOctets d) (Def_MaxOctets d) (Def_allowed d) m (Def_first d)).

Definition firstIn (d : option AttrDef) (codes : list Z) : option AttrDef :=
  d ← d; m ← maskOf codes;
  Some (mkDef (Def_Name d) (Def_Vendor d) (Def_Code d) (Def_Kind d) (Def_Cardinality d)
    (Def_Sensitivity d) (Def_Source d) (Def_MinOctets d) (Def_MaxOctets d) (Def_allowed d) (Def_required d) m).

Definition mvpDefinitions : list (option AttrDef) :=
  [
    define "User-Name" TypeUserName KindText CardinalitySingle SensitivityRestricted
      (maskOf [PacketAccessRequest; PacketAccessAccept; PacketAccessChallenge;
        PacketAccountingRequest; PacketDisconnectRequest; PacketCoARequest]);
    withOctets (define "User-Password" TypeUserPassword KindString CardinalitySingle
        SensitivitySecret
      (maskOf [PacketAccessRequest])) 16 128;
    withOctets (define "CHAP-Password" TypeCHAPPassword KindString CardinalitySingle
        SensitivitySecret
      (maskOf [PacketAccessRequest])) 17 17;
    define "NAS-IP-Address" TypeNASIPAddress KindIPv4 CardinalitySingle SensitivityRestricted
      (maskOf [PacketAccessRequest; PacketAccountingRequest; PacketDisconnectRequest;
        PacketCoARequest]);
    define "NAS-Port" TypeNASPort KindInteger CardinalitySingle SensitivityPublic
      (maskOf [PacketAccessRequest; PacketAccountingRequest; PacketDisconnectRequest;
        PacketCoARequest]);
    define "Service-Type" TypeServiceType KindInteger CardinalitySingle SensitivityPublic
      (maskOf [PacketAccessRequest; PacketAccessAccept; PacketAccessChallenge;
        PacketAccountingRequest]);
    define "Framed-Protocol" TypeFramedProtocol KindInteger CardinalitySingle SensitivityPublic
      (maskOf [PacketAccessRequest; PacketAccessAccept; PacketAccountingRequest]);
    define "Framed-IP-Address" TypeFramedIPAddress KindIPv4 CardinalitySingle SensitivityPublic
      (maskOf [PacketAccessRequest; PacketAccessAccept; PacketAccountingRequest]);
    define "Filter-Id" TypeFilterID KindText CardinalityMulti SensitivityPublic
      (maskOf [PacketAccessAccept]);
    define "Framed-MTU" TypeFramedMTU KindInteger CardinalitySingle SensitivityPublic
      (maskOf [PacketAccessRequest; PacketAccessAccept; PacketAccessChallenge]);
    define "Reply-Message" TypeReplyMessage KindText CardinalityMulti SensitivityPublic
      (maskOf [PacketAccessAccept; PacketAccessReject; PacketAccessChallenge; PacketCoARequest;
        PacketCoAACK; PacketDisconnectACK; PacketCoANAK; PacketDisconnectNAK]);
    define "State" TypeState KindString CardinalitySingle SensitivitySecret
      (maskOf [PacketAccessRequest; PacketAccessAccept; PacketAccessChallenge]);
    define "Class" TypeClass KindString CardinalityMulti SensitivityRestricted
      (maskOf [PacketAccessAccept; PacketAccountingRequest; PacketDisconnectRequest;
        PacketCoARequest]);
    define "Vendor-Specific" TypeVendorSpecific KindVSA CardinalityMulti SensitivityRestricted
      (maskOf [PacketAccessRequest; PacketAccessAccept; PacketAccessChallenge;
        PacketAccountingRequest]);
    define "Session-Timeout" TypeSessionTimeout KindInteger CardinalitySingle SensitivityPublic
      (maskOf [PacketAccessAccept; PacketAccessChallenge; PacketCoARequest]);
    define "Idle-Timeout" TypeIdleTimeout KindInteger CardinalitySingle SensitivityPublic
      (maskOf [PacketAccessAccept; PacketAccessChallenge; PacketCoARequest]);
    define "Called-Station-Id" TypeCalledStationID KindText CardinalitySingle SensitivityRestricted
      (maskOf [PacketAccessRequest; PacketAccountingRequest]);
    define "Calling-Station-Id" TypeCallingStationID KindText CardinalitySingle
        SensitivityRestricted
      (maskOf [PacketAccessRequest; PacketAccountingRequest]);
    define "NAS-Identifier" TypeNASIdentifier KindText CardinalitySingle SensitivityRestricted
      (maskOf [PacketAccessRequest; PacketAccountingRequest; PacketDisconnectRequest;
        PacketCoARequest]);
    define "Proxy-State" TypeProxyState KindString CardinalityMulti SensitivityPublic
      (maskOf [PacketAccessRequest; PacketAccessAccept; PacketAccessReject; PacketAccessChallenge;
        PacketAccountingRequest; PacketAccountingResponse; PacketDisconnectRequest;
        PacketDisconnectACK; PacketDisconnectNAK; PacketCoARequest; PacketCoAACK; PacketCoANAK]);
    require (define "Acct-Status-Type" TypeAcctStatusType KindInteger CardinalitySingle
        SensitivityPublic
      (maskOf [PacketAccountingRequest]))
      [PacketAccountingRequest];
    define "Acct-Delay-Time" TypeAcctDelayTime KindInteger CardinalitySingle SensitivityPublic
      (maskOf [PacketAccountingRequest]);
    define "Acct-Input-Octets" TypeAcctInputOctets KindInteger CardinalitySingle SensitivityPublic
      (maskOf [PacketAccountingRequest]);
    define "Acct-Output-Octets" TypeAcctOutputOctets KindInteger CardinalitySingle SensitivityPublic
      (maskOf [PacketAccountingRequest]);
    define "Acct-Session-Id" TypeAcctSessionID KindText CardinalitySingle SensitivityRestricted
      (maskOf [PacketAccountingRequest; PacketDisconnectRequest; PacketCoARequest]);
    define "Acct-Authentic" TypeAcctAuthentic KindInteger CardinalitySingle SensitivityPublic
      (maskOf [PacketAccountingRequest]);
    define "Acct-Session-Time" TypeAcctSessionTime KindInteger CardinalitySingle SensitivityPublic
      (maskOf [PacketAccountingRequest]);
    define "Acct-Input-Packets" TypeAcctInputPackets KindInteger CardinalitySingle SensitivityPublic
      (maskOf [PacketAccountingRequest]);
    define "Acct-Output-Packets" TypeAcctOutputPackets KindInteger CardinalitySingle
        SensitivityPublic
      (maskOf [PacketAccountingRequest]);
    define "Acct-Terminate-Cause" TypeAcctTerminateCause KindInteger CardinalitySingle
        SensitivityPublic
      (maskOf [PacketAccountingRequest]);
    define "Acct-Input-Gigawords" TypeAcctInputGigawords KindInteger CardinalitySingle
        SensitivityPublic
      (maskOf [PacketAccountingRequest]);
    define "Acct-Output-Gigawords" TypeAcctOutputGigawords KindInteger CardinalitySingle
        SensitivityPublic
      (maskOf [PacketAccountingRequest]);
    define "Event-Timestamp" TypeEventTimestamp KindTime CardinalitySingle SensitivityPublic
      (maskOf [PacketAccessRequest; PacketAccessAccept; PacketAccountingRequest;
        PacketDisconnectRequest; PacketCoARequest]);
    define "CHAP-Challenge" TypeCHAPChallenge KindString CardinalitySingle SensitivityPublic
      (maskOf [PacketAccessRequest]);
    define "NAS-Port-Type" TypeNASPortType KindInteger CardinalitySingle SensitivityPublic
      (maskOf [PacketAccessRequest; PacketAccountingRequest]);
    define "EAP-Message" TypeEAPMessage KindString CardinalityMulti SensitivityRestricted
      (maskOf [PacketAccessRequest; PacketAccessAccept; PacketAccessReject; PacketAccessChallenge]);
    firstIn (require (withOctets (define "Message-Authenticator" TypeMessageAuthenticator
        KindString CardinalitySingle SensitivitySecret
      (maskOf [PacketAccessRequest; PacketAccessAccept; PacketAccessReject; PacketAccessChallenge;
        PacketAccountingRequest; PacketAccountingResponse; PacketDisconnectRequest;
        PacketDisconnectACK; PacketDisconnectNAK; PacketCoARequest; PacketCoAACK; PacketCoANAK]))
        16 16)
      [PacketAccessAccept; PacketAccessReject; PacketAccessChallenge; PacketAccountingResponse;
        PacketDisconnectRequest; PacketDisconnectACK; PacketDisconnectNAK; PacketCoARequest;
        PacketCoAACK; PacketCoANAK])
      [PacketAccessAccept; PacketAccessReject; PacketAccessChallenge; PacketAccountingResponse;
        PacketDisconnectRequest; PacketDisconnectACK; PacketDisconnectNAK; PacketCoARequest;
        PacketCoAACK; PacketCoANAK];
    define "Acct-Interim-Interval" TypeAcctInterimInterval KindInteger CardinalitySingle
        SensitivityPublic
      (maskOf [PacketAccessAccept]);
    define "NAS-IPv6-Address" TypeNASIPv6Address KindIPv6 CardinalitySingle SensitivityRestricted
      (maskOf [PacketAccessRequest; PacketAccountingRequest; PacketDisconnectRequest;
        PacketCoARequest]);
    define "Error-Cause" TypeErrorCause KindInteger CardinalitySingle SensitivityPublic
      (maskOf [PacketDisconnectNAK; PacketCoANAK]);
    withOctets (defineVendor "MS-CHAP-Response" VendorMicrosoft VendorTypeMSCHAPResponse KindString
        CardinalitySingle SensitivitySecret
      (maskOf [PacketAccessRequest])) MSCHAPResponseWireLen MSCHAPResponseWireLen;
    defineVendor "MS-CHAP-Error" VendorMicrosoft VendorTypeMSCHAPError KindText CardinalitySingle
        SensitivitySecret
      (maskOf [PacketAccessReject]);
    withOctets (defineVendor "MS-CHAP-Challenge" VendorMicrosoft VendorTypeMSCHAPChallenge
        KindString CardinalitySingle SensitivitySecret
      (maskOf [PacketAccessRequest])) MSCHAPChallengeV1Len MSCHAPChallengeV2Len;
    withOctets (defineVendor "MS-CHAP2-Response" VendorMicrosoft VendorTypeMSCHAP2Response
        KindString CardinalitySingle SensitivitySecret
      (maskOf [PacketAccessRequest])) MSCHAPResponseWireLen MSCHAPResponseWireLen;
    withOctets (defineVendor "MS-CHAP2-Success" VendorMicrosoft VendorTypeMSCHAP2Success KindString
        CardinalitySingle SensitivitySecret
      (maskOf [PacketAccessAccept])) MSCHAP2SuccessWireLen MSCHAP2SuccessWireLen;
    defineVendor NameCiscoAVPair VendorCisco TypeCiscoAVPair KindText CardinalityMulti
        SensitivityRestricted
      (maskOf [PacketAccessRequest; PacketAccessAccept; PacketAccessReject; PacketAccessChallenge;
        PacketAccountingRequest])
  ].

(** ** The dictionary (dictionary.go) *)

Record Dictionary := mkDict {
  version : string;
  byName : gmap string AttrDef;
  byKey : gmap Key AttrDef;
  order : list AttrDef;
}.

Definition set_source (d : AttrDef) (s : string) : AttrDef :=
  mkDef (Def_Name d) (Def_Vendor d) (Def_Code d) (Def_Kind d) (Def_Cardinality d)
    (Def_Sensitivity d) s (Def_MinOctets d) (Def_MaxOctets d) (Def_allowed d) (Def_required d) (Def_first d).

(** One turn of the loop of [mustBuiltin]; [None] is a panic.  [order] is
    rebuilt in table order, which is what [d.order[i] = def] does. *)
Definition mustBuiltin_add (d : option Dictionary) (def : option AttrDef) : option Dictionary :=
  d ← d; def ← def;
  if bool_decide (Def_Name def = "") then None else
  match byName d !! Def_Name def with
  | Some _ => None
  | None =>
    let k := Def_Key def in
    match byKey d !! k with
    | Some _ => None
    | None =>
      let def := if bool_decide (Def_Source def = "") then set_source def SourceBuiltin else def in
      Some (mkDict (version d) (<[Def_Name def := def]> (byName d)) (<[k := def]> (byKey d))
              (order d ++ [def]))
    end
  end.

Definition mustBuiltin (defs : list (option AttrDef)) : option Dictionary :=
  fold_left mustBuiltin_add defs (Some (mkDict DictionaryVersion ∅ ∅ [])).

(** The package variable [builtin]; [None] would be a panic at start-up. *)
Definition Builtin : option Dictionary := mustBuiltin mvpDefinitions.

Definition LookupName (d : Dictionary) (name : string) : option AttrDef := byName d !! name.
Definition LookupKey (d : Dictionary) (k : Key) : option AttrDef := byKey d !! k.
Definition LookupIETF (d : Dictionary) (code : Z) : option AttrDef := LookupKey d (IETFKey code).

Definition AllowedIn (d : Dictionary) (code packet : Z) : bool :=
  match LookupIETF d code with
  | Some def => Def_AllowedIn def packet
  | None => requestPacket packet && knownPacket packet
  end.

Definition RequiredFirst (d : Dictionary) (packet : Z) : option AttrDef :=
  List.find (fun def => MustBeFirst def packet) (order d).

Definition SensitivityOf (d : Dictionary) (typ : Z) : Sensitivity :=
  match LookupIETF d typ with Some def => Def_Sensitivity def | None => SensitivityUnknown end.

Record Summary := mkSummary {
  Sum_Type : Z; Sum_Vendor : Z; Sum_Length : Z; Sum_Name : string;
  Sum_Sensitivity : Sensitivity; Sum_Known : bool;
}.

Definition namedVSASummary (d : Dictionary) (v : VSA) : option AttrDef :=
  match ParseVendorTLVs (VSA_Payload v) with
  | Ok [t] => LookupKey d (mkKey (VSA_Vendor v) (VendorTLV_Type t) SpaceVSA)
  | _ => None
  end.

Definition Summarize (d : Dictionary) (r : Raw) : Summary :=
  let typ := Raw_Type r in
  let n := len (Raw_Value r) in
  if typ =? TypeVendorSpecific then
    match ParseVSA r with
    | Ok v =>
      match namedVSASummary d v with
      | Some named => mkSummary typ (VSA_Vendor v) n (Def_Name named) (Def_Sensitivity named) true
      | None => mkSummary typ (VSA_Vendor v) n "Vendor-Specific" SensitivityRestricted true
      end
    | Err _ => mkSummary typ 0 n "Vendor-Specific" SensitivityRestricted true
    end
  else
    match LookupIETF d typ with
    | Some def => mkSummary typ 0 n (Def_Name def) (Def_Sensitivity def) true
    | None => mkSummary typ 0 n "" SensitivityUnknown false
    end.

Definition checkOctets (def : AttrDef) (raw : Raw) : result attribute_error unit :=
  let n := len (Raw_Value raw) in
  if (Def_MinOctets def >? 0) && (n <? Def_MinOctets def) then Err ErrValueLength
  else if (Def_MaxOctets def >? 0) && (n >? Def_MaxOctets def) then Err ErrValueLength
  else Ok tt.

(** The first loop of [CheckSet]: [i] is the index, [counts] the per-key tally. *)
Fixpoint CheckSet_attrs (d : Dictionary) (packet : Z) (set : RawSet) (i : Z) (counts : gmap Key Z)
    : result attribute_error (gmap Key Z) :=
  match set with
  | [] => Ok counts
  | raw :: set =>
    match LookupIETF d (Raw_Type raw) with
    | None =>
      if negb (requestPacket packet) then Err ErrIllegalRole
      else CheckSet_attrs d packet set (i + 1) counts
    | Some def =>
      if negb (Def_AllowedIn def packet) then Err ErrIllegalRole else
      if MustBeFirst def packet && negb (i =? 0) then Err ErrNotFirst else
      let! _ := checkOctets def raw in
      let k := Def_Key def in
      let n := default 0 (counts !! k) + 1 in
      if bool_decide (Def_Cardinality def = CardinalitySingle) && (n >? 1) then Err ErrCardinality
      else CheckSet_attrs d packet set (i + 1) (<[k := n]> counts)
    end
  end.

(** The second loop: required attributes. *)
Fixpoint CheckSet_required (packet : Z) (set : RawSet) (counts : gmap Key Z) (defs : list AttrDef)
    : result attribute_error unit :=
  match defs with
  | [] => Ok tt
  | def :: defs =>
    if negb (RequiredIn def packet) then CheckSet_required packet set counts defs else
    if default 0 (counts !! Def_Key def) >? 0 then
      if MustBeFirst def packet
         && match set with [] => true | a :: _ => negb (Raw_Type a =? Def_Code def) end
      then Err ErrNotFirst
      else CheckSet_required packet set counts defs
    else Err ErrMissingRequired
  end.

Definition CheckSet (d : Dictionary) (set : RawSet) (packet : Z) : result attribute_error unit :=
  if negb (knownPacket packet) then Err ErrUnknownPacket else
  let! counts := CheckSet_attrs d packet set 0 ∅ in
  CheckSet_required packet set counts (order d).

(** ** Well-formed dictionaries *)

(** The tables agree: [byKey] is indexed by the definition's own key, and
    holds exactly the definitions of [order]; [byName] likewise. *)
Record dict_wf (d : Dictionary) : Prop := {
  wf_byKey : forall k def, byKey d !! k = Some def -> Def_Key def = k /\ def ∈ order d;
  wf_order : forall def, def ∈ order d ->
    byKey d !! Def_Key def = Some def /\ byName d !! Def_Name def = Some def;
}.

Lemma set_source_key d s : Def_Key (set_source d s) = Def_Key d.
Proof. done. Qed.

Lemma mustBuiltin_add_wf d def d' :
  dict_wf d -> mustBuiltin_add (Some d) def = Some d' -> dict_wf d'.
Proof.
  intros [Hk Ho]. simpl. destruct def as [def|]; [|done]. simpl.
  destruct (bool_decide (Def_Name def = "")); [done|].
  destruct (byName d !! Def_Name def) eqn:En; [done|].
  destruct (byKey d !! Def_Key def) eqn:Ek; [done|].
  set (def' := if bool_decide (Def_Source def = "") then _ else _).
  assert (Def_Key def' = Def_Key def) as Edk by (unfold def'; by case_bool_decide).
  assert (Def_Name def' = Def_Name def) as Edn by (unfold def'; by case_bool_decide).
  intros E. injection E as <-. split; simpl.
  - intros k x. destruct (decide (k = Def_Key def)) as [->|Hne].
    + rewrite lookup_insert_eq. intros E. injection E as <-. split; [done|]. set_solver.
    + rewrite lookup_insert_ne by done. intros (H1 & H2)%Hk. split; [done|]. set_solver.
  - intros x Hx. apply elem_of_app in Hx as [Hx|Hx].
    + apply Ho in Hx as (H1 & H2). split; rewrite lookup_insert_ne; congruence.
    + apply list_elem_of_singleton in Hx as ->. rewrite Edk, Edn.
      by rewrite !lookup_insert_eq.
Qed.

Lemma fold_mustBuiltin_wf defs d d' :
  dict_wf d -> fold_left mustBuiltin_add defs (Some d) = Some d' -> dict_wf d'.
Proof.
  revert d. induction defs as [|def defs IH]; intros d Hd E.
  - simpl in E. by injection E as <-.
  - change (fold_left mustBuiltin_add defs (mustBuiltin_add (Some d) def) = Some d') in E.
    destruct (mustBuiltin_add (Some d) def) as [d1|] eqn:E1.
    + eapply IH; [|exact E]. by eapply mustBuiltin_add_wf.
    + exfalso. clear -E. assert (fold_left mustBuiltin_add defs None = None) as H by
        (clear; induction defs as [|? ? IH]; [done|exact IH]). congruence.
Qed.

Lemma mustBuiltin_wf defs d : mustBuiltin defs = Some d -> dict_wf d.
Proof.
  apply fold_mustBuiltin_wf. split; simpl.
  - intros k def H. by rewrite lookup_empty in H.
  - intros def H. by apply elem_of_nil in H.
Qed.

(** ** The role check, declaratively *)

(** A literal [0] earlier in the goal is convertible to [len []], so the
    empty length is replaced rather than rewritten. *)
Ltac len0 := replace (len (@nil Raw)) with 0 in * by done.

Definition octets_ok (def : AttrDef) (raw : Raw) : Prop :=
  (0 < Def_MinOctets def -> Def_MinOctets def <= len (Raw_Value raw))
  /\ (0 < Def_MaxOctets def -> len (Raw_Value raw) <= Def_MaxOctets def).

Lemma checkOctets_Ok def raw u : checkOctets def raw = Ok u <-> octets_ok def raw.
Proof.
  unfold checkOctets, octets_ok. destruct u. rewrite !Z.gtb_ltb.
  destruct (Z.ltb_spec 0 (Def_MinOctets def)); destruct (Z.ltb_spec (len (Raw_Value raw)) (Def_MinOctets def));
  destruct (Z.ltb_spec 0 (Def_MaxOctets def)); destruct (Z.ltb_spec (Def_MaxOctets def) (len (Raw_Value raw)));
  simpl; split; intros; try done; try lia.
Qed.

(** The attribute at index [i] may stand there. *)
Definition attr_legal (d : Dictionary) (packet i : Z) (raw : Raw) : Prop :=
  match LookupIETF d (Raw_Type raw) with
  | None => requestPacket packet = true
  | Some def => Def_AllowedIn def packet = true
                /\ (MustBeFirst def packet = true -> i = 0) /\ octets_ok def raw
  end.

(** A single-valued attribute occurs at most once. *)
Definition cardinality_ok (d : Dictionary) (set : RawSet) : Prop :=
  forall t def, LookupIETF d t = Some def -> Def_Cardinality def = CardinalitySingle ->
    len (AllOf set t) <= 1.

(** A required attribute occurs, at the front when it must. *)
Definition required_ok (d : Dictionary) (packet : Z) (set : RawSet) : Prop :=
  forall def, def ∈ order d -> RequiredIn def packet = true ->
    Def_Vendor def = 0 /\ AllOf set (Def_Code def) <> []
    /\ (MustBeFirst def packet = true -> exists a, head set = Some a /\ Raw_Type a = Def_Code def).

Fixpoint tally (d : Dictionary) (set : RawSet) (counts : gmap Key Z) : gmap Key Z :=
  match set with
  | [] => counts
  | raw :: set =>
    tally d set (match LookupIETF d (Raw_Type raw) with
      | Some def => <[Def_Key def := default 0 (counts !! Def_Key def) + 1]> counts
      | None => counts
      end)
  end.

Lemma LookupIETF_key d t def : dict_wf d -> LookupIETF d t = Some def -> Def_Key def = IETFKey t.
Proof. intros Hd H. by apply (wf_byKey d Hd) in H as [H _]. Qed.

Lemma IETFKey_inj a b : IETFKey a = IETFKey b -> a = b.
Proof. unfold IETFKey. congruence. Qed.

Lemma tally_lookup d set counts t :
  dict_wf d -> is_Some (LookupIETF d t) ->
  default 0 (tally d set counts !! IETFKey t) = default 0 (counts !! IETFKey t) + len (AllOf set t).
Proof.
  intros Hd [def Hdef]. revert counts. induction set as [|a set IH]; intros counts.
  { change (len (AllOf [] t)) with 0. simpl. lia. }
  simpl. rewrite IH, AllOf_cons, len_app.
  destruct (Z.eqb_spec (Raw_Type a) t) as [<-|Hne].
  - rewrite Hdef. rewrite (LookupIETF_key d _ _ Hd Hdef). rewrite lookup_insert_eq. simpl.
    change (len [a]) with 1. lia.
  - len0.
    destruct (LookupIETF d (Raw_Type a)) as [def'|] eqn:E; [|lia].
    rewrite (LookupIETF_key d _ _ Hd E). rewrite lookup_insert_ne; [lia|].
    intros H%IETFKey_inj. done.
Qed.

Lemma CheckSet_attrs_Ok d packet set i counts c :
  dict_wf d ->
  CheckSet_attrs d packet set i counts = Ok c <->
  c = tally d set counts
  /\ (forall j raw, set !! j = Some raw -> attr_legal d packet (i + Z.of_nat j) raw)
  /\ (forall t def, LookupIETF d t = Some def -> Def_Cardinality def = CardinalitySingle ->
        AllOf set t <> [] -> default 0 (counts !! IETFKey t) + len (AllOf set t) <= 1).
Proof.
  intros Hd. revert i counts. induction set as [|a set IH]; intros i counts.
  { simpl. split; [intros <-%Ok_inj|intros (-> & _)]; [|done]. split_and!; [done| |]; done. }
  cbn [CheckSet_attrs].
  assert (forall P : Z -> Raw -> Prop,
    (forall j raw, (a :: set) !! j = Some raw -> P (i + Z.of_nat j) raw) <->
    P i a /\ forall j raw, set !! j = Some raw -> P (i + 1 + Z.of_nat j) raw) as Hidx.
  { intros P. split.
    - intros H. split; [replace i with (i + Z.of_nat 0) by lia; by apply H|].
      intros j raw Hj. replace (i + 1 + Z.of_nat j) with (i + Z.of_nat (S j)) by lia. by apply H.
    - intros [H0 H] [|j] raw Hj; simpl in Hj.
      + injection Hj as <-. by rewrite Z.add_0_r.
      + replace (i + Z.of_nat (S j)) with (i + 1 + Z.of_nat j) by lia. by apply H. }
  rewrite (Hidx (attr_legal d packet)). unfold attr_legal at 1.
  change (tally d (a :: set) counts) with (tally d set (match LookupIETF d (Raw_Type a) with
    | Some def => <[Def_Key def := default 0 (counts !! Def_Key def) + 1]> counts
    | None => counts end)).
  destruct (LookupIETF d (Raw_Type a)) as [def|] eqn:El.
  2:{ destruct (requestPacket packet); simpl; [rewrite IH|split; [done|naive_solver]].
      assert (forall t def, LookupIETF d t = Some def -> AllOf (a :: set) t = AllOf set t) as HA.
      { intros t def Ht. rewrite AllOf_cons. destruct (Z.eqb_spec (Raw_Type a) t); [congruence|done]. }
      split; intros (H1 & H2 & H3).
      - split_and!; [done..|]. intros t def Ht. rewrite (HA t def Ht). by apply H3.
      - split_and!; [done|naive_solver|]. intros t def Ht. rewrite <- (HA t def Ht). by apply H3. }
  destruct (Def_AllowedIn def packet) eqn:Ea; simpl; [|split; [done|naive_solver]].
  destruct (MustBeFirst def packet && negb (i =? 0)) eqn:Ef.
  { bool_hyps. split; [done|]. naive_solver. }
  assert (MustBeFirst def packet = true -> i = 0) as Hfirst.
  { intros E. rewrite E in Ef. simpl in Ef. bool_hyps. done. }
  destruct (checkOctets def a) as [[]|e] eqn:Eo; simpl.
  2:{ split; [done|]. intros (_ & ((_ & _ & Ho) & _) & _). apply (checkOctets_Ok def a tt) in Ho. congruence. }
  apply checkOctets_Ok in Eo. pose proof (LookupIETF_key d _ _ Hd El) as Ek. rewrite Ek.
  set (n := default 0 (counts !! IETFKey (Raw_Type a)) + 1). rewrite Z.gtb_ltb.
  destruct (bool_decide (Def_Cardinality def = CardinalitySingle) && (1 <? n)) eqn:Ec.
  { bool_hyps. split; [done|]. intros (_ & _ & H3). exfalso.
    specialize (H3 _ _ El ltac:(done)). rewrite AllOf_cons, Z.eqb_refl in H3.
    specialize (H3 ltac:(done)). rewrite len_app, len_cons in H3; len0.
    pose proof (len_nonneg (AllOf set (Raw_Type a))). unfold n in *. lia. }
  rewrite IH. split; intros (H1 & H2 & H3).
  - split_and!; [done..| |].
    + done.
    + intros t def' Ht Hs Hne. rewrite AllOf_cons in Hne |- *. destruct (Z.eqb_spec (Raw_Type a) t) as [<-|Hn].
      * assert (def' = def) as -> by congruence. rewrite bool_decide_true in Ec by done. simpl in Ec. bool_hyps.
        rewrite len_app, len_cons; len0. destruct (AllOf set (Raw_Type a)) eqn:EA; [len0; unfold n in *; lia|].
        specialize (H3 _ _ El ltac:(done)). rewrite EA, lookup_insert_eq in H3. specialize (H3 ltac:(done)).
        simpl in H3. unfold n in *. lia.
      * specialize (H3 _ _ Ht Hs Hne). rewrite lookup_insert_ne in H3 by (intros E%IETFKey_inj; done). done.
  - split_and!; [done|naive_solver|]. intros t def' Ht Hs Hne. specialize (H3 _ _ Ht Hs).
    rewrite AllOf_cons in H3. destruct (decide (Raw_Type a = t)) as [Hn|Hn].
    + subst t. rewrite Z.eqb_refl in H3. specialize (H3 ltac:(done)). rewrite len_app, len_cons in H3; len0.
      rewrite lookup_insert_eq. simpl. unfold n. lia.
    + rewrite lookup_insert_ne by (intros E%IETFKey_inj; done).
      rewrite (proj2 (Z.eqb_neq _ _) Hn) in H3. by apply H3.
Qed.

Lemma tally_vsa d set counts k :
  dict_wf d -> Key_Space k = SpaceVSA -> tally d set counts !! k = counts !! k.
Proof.
  intros Hd Hk. revert counts. induction set as [|a set IH]; intros counts; simpl; [done|].
  rewrite IH. destruct (LookupIETF d (Raw_Type a)) as [def|] eqn:E; [|done].
  rewrite (LookupIETF_key d _ _ Hd E). rewrite lookup_insert_ne; [done|]. by intros <-.
Qed.

(** A definition of the dictionary was counted exactly when it is an IETF
    one that occurs in the set. *)
Lemma tally_pos d set def :
  dict_wf d -> def ∈ order d ->
  0 < default 0 (tally d set ∅ !! Def_Key def) <->
  Def_Vendor def = 0 /\ AllOf set (Def_Code def) <> [].
Proof.
  intros Hd Hdef. pose proof (wf_order d Hd def Hdef) as [Hk _]. unfold Def_Key in Hk |- *.
  destruct (Z.eqb_spec (Def_Vendor def) 0) as [E|E].
  - rewrite tally_lookup by (done || by exists def). rewrite lookup_empty. simpl.
    pose proof (len_nonneg (AllOf set (Def_Code def))).
    pose proof (len_zero (AllOf set (Def_Code def))).
    split; [intros H1; split; [done|]; intros E1; rewrite E1 in *; vm_compute in H1; done|].
    intros [_ Hne]. assert (len (AllOf set (Def_Code def)) <> 0) by tauto. lia.
  - rewrite tally_vsa by done. rewrite lookup_empty. simpl. split; [done|]. by intros [? _].
Qed.

Lemma CheckSet_required_Ok d packet set defs :
  dict_wf d -> (forall def, def ∈ defs -> def ∈ order d) ->
  CheckSet_required packet set (tally d set ∅) defs = Ok tt <->
  (forall def, def ∈ defs -> RequiredIn def packet = true ->
    Def_Vendor def = 0 /\ AllOf set (Def_Code def) <> []
    /\ (MustBeFirst def packet = true -> exists a, head set = Some a /\ Raw_Type a = Def_Code def)).
Proof.
  intros Hd. induction defs as [|def defs IH]; intros Hsub.
  { simpl. split; [intros _ def H; by apply elem_of_nil in H|done]. }
  assert (def ∈ order d) as Hin by (apply Hsub; set_solver).
  assert (forall P : AttrDef -> Prop, (forall x, x ∈ def :: defs -> P x) <-> P def /\ forall x, x ∈ defs -> P x)
    as Hcons by (intros P; set_solver).
  rewrite (Hcons (fun def => RequiredIn def packet = true -> _)), <- IH by set_solver.
  cbn [CheckSet_required]. destruct (RequiredIn def packet); simpl; [|naive_solver].
  pose proof (tally_pos d set def Hd Hin) as Ht. rewrite Z.gtb_ltb.
  destruct (Z.ltb_spec 0 (default 0 (tally d set ∅ !! Def_Key def))) as [Hp|Hp].
  - apply Ht in Hp as [Hv Hne]. destruct (MustBeFirst def packet) eqn:Ef; simpl; [|naive_solver].
    destruct set as [|a set]; simpl; [by destruct Hne|].
    destruct (Z.eqb_spec (Raw_Type a) (Def_Code def)) as [E|E]; simpl; [naive_solver|].
    split; [done|]. intros [H _]. destruct (H eq_refl) as (_ & _ & H1). destruct (H1 eq_refl) as (b & E1 & E2).
    simpl in E1. congruence.
  - split; [done|]. intros [H _]. destruct (H eq_refl) as (Hv & Hne & _). apply Z.le_ngt in Hp. tauto.
Qed.

Lemma CheckSet_Ok d set packet :
  dict_wf d ->
  CheckSet d set packet = Ok tt <->
  knownPacket packet = true
  /\ (forall j raw, set !! j = Some raw -> attr_legal d packet (Z.of_nat j) raw)
  /\ cardinality_ok d set /\ required_ok d packet set.
Proof.
  intros Hd. unfold CheckSet. destruct (knownPacket packet); simpl; [|naive_solver].
  assert (cardinality_ok d set <-> (forall t def, LookupIETF d t = Some def ->
    Def_Cardinality def = CardinalitySingle -> AllOf set t <> [] ->
    default 0 ((∅ : gmap Key Z) !! IETFKey t) + len (AllOf set t) <= 1)) as ->.
  { unfold cardinality_ok. split.
    - intros H t def H1 H2 _. rewrite lookup_empty. simpl. by eapply H.
    - intros H t def H1 H2. specialize (H t def H1 H2). rewrite lookup_empty in H. simpl in H.
      destruct (AllOf set t) eqn:E; [by vm_compute|]. by apply H. }
  pose proof (fun c => CheckSet_attrs_Ok d packet set 0 ∅ c Hd) as Ha.
  unfold required_ok. rewrite <- (CheckSet_required_Ok d packet set (order d) Hd) by done.
  split.
  - intros (c & Hc & Hr)%rbind_Ok. apply Ha in Hc as (-> & H1 & H2).
    split_and!; [done| |done|done]. intros j raw Hj. by apply (H1 j).
  - intros (_ & H1 & H2 & H3). apply rbind_Ok. exists (tally d set ∅).
    split; [|done]. apply Ha. split_and!; [done| |done]. intros j raw Hj. by apply H1.
Qed.

(** ** The built-in dictionary *)

Definition builtin : Dictionary :=
  match Builtin with Some d => d | None => mkDict "" ∅ ∅ [] end.

Lemma Builtin_starts : match Builtin with Some _ => true | None => false end = true.
Proof. vm_compute. reflexivity. Qed.

Lemma Builtin_builtin : Builtin = Some builtin.
Proof. pose proof Builtin_starts as H. unfold builtin. by destruct Builtin. Qed.

Lemma builtin_wf : dict_wf builtin.
Proof. apply (mustBuiltin_wf mvpDefinitions). exact Builtin_builtin. Qed.

(** The Access, Accounting and Dynamic-Authorization packets that are
    signed by their Message-Authenticator: every known packet except the
    Access-Request and the Accounting-Request. *)
Definition ma_first_packet (packet : Z) : bool :=
  knownPacket packet && negb (packet =? PacketAccessRequest)
  && negb (packet =? PacketAccountingRequest).

Definition MA_def : AttrDef :=
  match LookupIETF builtin TypeMessageAuthenticator with
  | Some d => d
  | None => mkDef "" 0 0 KindUnknown CardinalityMulti SensitivityUnknown "" 0 0 0 0 0
  end.

Lemma MA_def_facts :
  LookupIETF builtin TypeMessageAuthenticator = Some MA_def
  /\ Def_Code MA_def = TypeMessageAuthenticator /\ Def_Cardinality MA_def = CardinalitySingle
  /\ Def_MinOctets MA_def = 16 /\ Def_MaxOctets MA_def = 16.
Proof. vm_compute. done. Qed.

Lemma knownPacket_cases packet : knownPacket packet = true -> packet ∈ all_packets.
Proof.
  unfold knownPacket, packetBit, all_packets. rewrite list_elem_of_In.
  repeat match goal with |- context [packet =? ?c] =>
    destruct (Z.eqb_spec packet c) as [->|?]; [simpl; tauto|] end.
  done.
Qed.

Lemma MA_def_first packet :
  ma_first_packet packet = true -> RequiredIn MA_def packet = true /\ MustBeFirst MA_def packet = true.
Proof.
  intros H. assert (packet ∈ all_packets) as Hp.
  { apply knownPacket_cases. unfold ma_first_packet in H. by bool_hyps. }
  revert H. assert (Forall (fun p => ma_first_packet p = true ->
    RequiredIn MA_def p = true /\ MustBeFirst MA_def p = true) all_packets) as Hall.
  { unfold all_packets. repeat constructor; vm_compute; done. }
  rewrite list.Forall_forall in Hall. by apply Hall.
Qed.

#[local] Opaque builtin MA_def.

(** C16. The packet-role check of the built-in dictionary, which is
    constructed without panicking and whose name, key and order tables agree.
    [CheckSet] accepts a set exactly when the packet code is known, every
    attribute is allowed there (unknown types on requests only), first when
    it must be, and of legal length, every single-valued attribute occurs at
    most once, and every required attribute is present, in front when it
    must be.  Consequently a reply or Dynamic-Authorization packet that
    passes starts with a Message-Authenticator of sixteen octets, and
    contains no other. *)
Theorem CheckSet_spec (set : RawSet) (packet : Z) :
  (exists d, Builtin = Some d /\ d = builtin /\ dict_wf d)
  /\ (CheckSet builtin set packet = Ok tt <->
      knownPacket packet = true
      /\ (forall j raw, set !! j = Some raw -> attr_legal builtin packet (Z.of_nat j) raw)
      /\ cardinality_ok builtin set /\ required_ok builtin packet set)
  /\ (ma_first_packet packet = true -> CheckSet builtin set packet = Ok tt ->
      exists mac rest, set = mkRaw TypeMessageAuthenticator mac :: rest /\ len mac = 16
        /\ AllOf rest TypeMessageAuthenticator = []).
Proof.
  pose proof builtin_wf as Hd.
  split_and!; [exists builtin; split_and!; [exact Builtin_builtin|done|done]|by apply CheckSet_Ok|].
  intros Hp (Hk & Hl & Hc & Hr)%CheckSet_Ok; [|done].
  destruct (MA_def_first packet Hp) as [Hreq Hfst].
  destruct MA_def_facts as (Hlk & Hcode & Hcard & Hmin & Hmax).
  assert (MA_def ∈ order builtin) as Hin by by apply (wf_byKey _ Hd) in Hlk as [_ ?].
  destruct (Hr _ Hin Hreq) as (_ & _ & H1). destruct (H1 Hfst) as ([t mac] & Hhd & Ht).
  destruct set as [|b rest]; [discriminate Hhd|]. simpl in Hhd. injection Hhd as ->.
  simpl in Ht. rewrite Hcode in Ht. subst t. exists mac, rest. split; [done|].
  specialize (Hl 0%nat _ eq_refl). unfold attr_legal in Hl. simpl in Hl. rewrite Hlk in Hl.
  destruct Hl as (_ & _ & Ho). unfold octets_ok in Ho. rewrite Hmin, Hmax in Ho. simpl in Ho.
  specialize (Hc _ _ Hlk Hcard). rewrite AllOf_cons in Hc. simpl in Hc. rewrite len_cons in Hc.
  split; [lia|]. apply len_zero. pose proof (len_nonneg (AllOf rest TypeMessageAuthenticator)). lia.
Qed.
