(* ===== verification/RadiusCodec.v ===== *)
(** * RADIUS packets

    [internal/radius/codec]: [code.go], [bounds.go], [packet.go],
    [decode.go], [encode.go] and [errors.go].  A packet is a 20-octet header
    and an attribute payload ([RadiusAttribute]); the declared length is
    20..4096 and octets past it are padding. *)

From stdpp Require Import strings pretty.
From S2P Require Import Prelude RadiusAttribute.

#[local] Open Scope Z_scope.

Definition HeaderSize := 20.
Definition AuthenticatorSize := 16.
Definition MinPacketBytes := 20.
Definition MaxPacketBytes := 4096.
Definition DefaultMaxAttrs := DefaultMaxAttributes.
Definition DefaultMaxValues := DefaultMaxValueBytes.

(** ** Codes *)

Definition CodeAccessRequest := 1.
Definition CodeAccessAccept := 2.
Definition CodeAccessReject := 3.
Definition CodeAccountingRequest := 4.
Definition CodeAccountingResponse := 5.
Definition CodeAccessChallenge := 11.
Definition CodeDisconnectRequest := 40.
Definition CodeDisconnectACK := 41.
Definition CodeDisconnectNAK := 42.
Definition CodeCoARequest := 43.
Definition CodeCoAACK := 44.
Definition CodeCoANAK := 45.

(** A Go [switch] on one case list. *)
Definition one_of (c : Z) (cs : list Z) : bool := existsb (Z.eqb c) cs.

Definition Known (c : Z) : bool :=
  one_of c [CodeAccessRequest; CodeAccessAccept; CodeAccessReject;
            CodeAccountingRequest; CodeAccountingResponse; CodeAccessChallenge;
            CodeDisconnectRequest; CodeDisconnectACK; CodeDisconnectNAK;
            CodeCoARequest; CodeCoAACK; CodeCoANAK].
Definition Advertised (c : Z) : bool :=
  one_of c [CodeAccessRequest; CodeAccessAccept; CodeAccessReject;
            CodeAccountingRequest; CodeAccountingResponse; CodeAccessChallenge;
            CodeDisconnectRequest; CodeDisconnectACK; CodeDisconnectNAK;
            CodeCoARequest; CodeCoAACK; CodeCoANAK].
Definition DynamicAuthFamily (c : Z) : bool :=
  one_of c [CodeDisconnectRequest; CodeDisconnectACK; CodeDisconnectNAK;
            CodeCoARequest; CodeCoAACK; CodeCoANAK].
Definition AccessFamily (c : Z) : bool :=
  one_of c [CodeAccessRequest; CodeAccessAccept; CodeAccessReject; CodeAccessChallenge].
Definition AccountingFamily (c : Z) : bool :=
  (c =? CodeAccountingRequest) || (c =? CodeAccountingResponse).

Definition Code_String (c : Z) : string :=
  if c =? CodeAccessRequest then "Access-Request"
  else if c =? CodeAccessAccept then "Access-Accept"
  else if c =? CodeAccessReject then "Access-Reject"
  else if c =? CodeAccountingRequest then "Accounting-Request"
  else if c =? CodeAccountingResponse then "Accounting-Response"
  else if c =? CodeAccessChallenge then "Access-Challenge"
  else if c =? CodeDisconnectRequest then "Disconnect-Request"
  else if c =? CodeDisconnectACK then "Disconnect-ACK"
  else if c =? CodeDisconnectNAK then "Disconnect-NAK"
  else if c =? CodeCoARequest then "CoA-Request"
  else if c =? CodeCoAACK then "CoA-ACK"
  else if c =? CodeCoANAK then "CoA-NAK"
  else "Code(" +:+ pretty c +:+ ")".

(** ** Packets, headers, bounds *)

Record Packet := mkPacket {
  Code : Z;
  Identifier : Z;
  Authenticator : bytes;
  Attributes : RawSet;
}.

Record Header := mkHeader {
  H_Code : Z;
  H_Identifier : Z;
  H_Length : Z;
  H_Authenticator : bytes;
}.

Record Bounds := mkBounds {
  B_MaxPacketBytes : Z;
  B_MaxAttributes : Z;
  B_MaxValueBytes : Z;
}.

#[export] Instance Packet_eq_dec : EqDecision Packet.
Proof. solve_decision. Defined.

Definition DefaultBounds : Bounds := mkBounds MaxPacketBytes DefaultMaxAttrs DefaultMaxValues.

Definition normalized (b : Bounds) : Bounds :=
  let p := B_MaxPacketBytes b in
  let p := if (p <=? 0) || (p >? MaxPacketBytes) then MaxPacketBytes else p in
  let p := if p <? MinPacketBytes then MinPacketBytes else p in
  let a := if B_MaxAttributes b <=? 0 then DefaultMaxAttrs else B_MaxAttributes b in
  let v := if B_MaxValueBytes b <=? 0 then DefaultMaxValues else B_MaxValueBytes b in
  mkBounds p a v.

(** The sentinels of errors.go; the attribute sentinels are re-exported. *)
Inductive codec_error :=
| ErrHeaderShort | ErrInvalidLength | ErrPacketTooLarge
| ErrAttribute (e : attribute_error).

#[export] Instance codec_error_eq_dec : EqDecision codec_error.
Proof. solve_decision. Defined.

Definition lift_attr {A} (m : result attribute_error A) : result codec_error A :=
  match m with Ok a => Ok a | Err e => Err (ErrAttribute e) end.

Definition ReasonMalformedHeader : string := "discard_malformed_header".
Definition ReasonInvalidLength : string := "discard_invalid_length".
Definition ReasonInvalidCode : string := "discard_invalid_code".

(** The empty string is the reason of a nil error. *)
Definition DiscardReason (err : option codec_error) : string :=
  match err with
  | None => ""
  | Some ErrHeaderShort => ReasonMalformedHeader
  | Some (ErrInvalidLength | ErrPacketTooLarge) => ReasonInvalidLength
  | Some (ErrAttribute (ErrOverflow | ErrLength | ErrTooMany | ErrBudget | ErrValueTooLong)) =>
    ReasonInvalidLength
  | Some (ErrAttribute _) => ReasonMalformedHeader
  end.

(** ** Decoding *)

Definition DecodeHeader (p : bytes) : result codec_error Header :=
  if len p <? HeaderSize then Err ErrHeaderShort else
  Ok (mkHeader (index p 0) (index p 1) (be_u16 (index p 2) (index p 3))
        (copy_bytes (make_bytes AuthenticatorSize) (slice p 4 HeaderSize))).

Definition DecodeBounded (datagram : bytes) (b : Bounds) : result codec_error Packet :=
  let! h := DecodeHeader datagram in
  let b := normalized b in
  let declared := H_Length h in
  if declared <? MinPacketBytes then Err ErrInvalidLength else
  if declared >? B_MaxPacketBytes b then Err ErrInvalidLength else
  if declared >? len datagram then Err ErrInvalidLength else
  let! attrs := lift_attr (RadiusAttribute.Decode (slice datagram HeaderSize declared)
                             (B_MaxAttributes b) (B_MaxValueBytes b)) in
  Ok (mkPacket (H_Code h) (H_Identifier h) (H_Authenticator h) attrs).

Definition Decode (datagram : bytes) : result codec_error Packet :=
  DecodeBounded datagram DefaultBounds.

(** ** Encoding *)

Definition EncodeBounded (p : Packet) (b : Bounds) : result codec_error bytes :=
  let b := normalized b in
  if RawSet_Len (Attributes p) >? B_MaxAttributes b then Err (ErrAttribute ErrTooMany) else
  if ValueBytes (Attributes p) >? B_MaxValueBytes b then Err (ErrAttribute ErrBudget) else
  let! payload := lift_attr (RadiusAttribute.Encode (Attributes p)) in
  let n := HeaderSize + len payload in
  if n >? B_MaxPacketBytes b then Err ErrPacketTooLarge else
  let out := make_bytes n in
  let out := set_at out 0 (to_u8 (Code p)) in
  let out := set_at out 1 (Identifier p) in
  let out := copy_at out 2 (put_u16 (to_u16 n)) in
  let out := copy_range out 4 HeaderSize (Authenticator p) in
  let out := copy_at out HeaderSize payload in
  Ok out.

Definition Encode (p : Packet) : result codec_error bytes := EncodeBounded p DefaultBounds.

(** ** The reference wire form *)

Definition wire (p : Packet) : bytes :=
  [Code p; Identifier p] ++ put_u16 (HeaderSize + len (tlvs (Attributes p)))
  ++ Authenticator p ++ tlvs (Attributes p).

(** What the Go types guarantee of a packet. *)
Definition Packet_ok (p : Packet) : Prop :=
  is_u8 (Code p) /\ is_u8 (Identifier p) /\ len (Authenticator p) = AuthenticatorSize
  /\ Forall is_u8 (Authenticator p) /\ Forall Raw_ok (Attributes p).

(** Within the three budgets. *)
Definition Packet_fits (b : Bounds) (p : Packet) : Prop :=
  in_budget (B_MaxAttributes (normalized b)) (B_MaxValueBytes (normalized b)) (Attributes p)
  /\ HeaderSize + len (tlvs (Attributes p)) <= B_MaxPacketBytes (normalized b).

Lemma normalized_range b :
  MinPacketBytes <= B_MaxPacketBytes (normalized b) <= MaxPacketBytes
  /\ 0 < B_MaxAttributes (normalized b) /\ 0 < B_MaxValueBytes (normalized b).
Proof.
  unfold normalized, MinPacketBytes, MaxPacketBytes, DefaultMaxAttrs, DefaultMaxValues,
    DefaultMaxAttributes, DefaultMaxValueBytes. simpl.
  rewrite Z.gtb_ltb. split_and!;
  destruct (Z.leb_spec (B_MaxPacketBytes b) 0); destruct (Z.ltb_spec 4096 (B_MaxPacketBytes b)); simpl;
  destruct (Z.ltb_spec (B_MaxPacketBytes b) 20);
  destruct (Z.leb_spec (B_MaxAttributes b) 0); destruct (Z.leb_spec (B_MaxValueBytes b) 0); lia.
Qed.

Lemma max_attrs_normalized b : max_attrs (B_MaxAttributes (normalized b)) = B_MaxAttributes (normalized b).
Proof.
  pose proof (normalized_range b) as (_ & H & _). unfold max_attrs.
  destruct (Z.leb_spec (B_MaxAttributes (normalized b)) 0); lia.
Qed.
Lemma max_value_normalized b :
  max_value_bytes (B_MaxValueBytes (normalized b)) = B_MaxValueBytes (normalized b).
Proof.
  pose proof (normalized_range b) as (_ & _ & H). unfold max_value_bytes.
  destruct (Z.leb_spec (B_MaxValueBytes (normalized b)) 0); lia.
Qed.

Lemma len_wire p : len (Authenticator p) = 16 -> len (wire p) = HeaderSize + len (tlvs (Attributes p)).
Proof. intros H. unfold wire, HeaderSize. rewrite !len_app, H, len_put_u16, !len_cons, len_nil. lia. Qed.

Lemma wire_bytes p : Packet_ok p -> Forall is_u8 (wire p).
Proof.
  intros (H1 & H2 & H3 & H4 & H5). unfold wire. rewrite !Forall_app. split_and!;
    [constructor; [done|by apply Forall_singleton]|apply put_u16_bytes|done|by apply tlvs_bytes].
Qed.

(** The header octets, written over the zeroed buffer. *)
Lemma header_write c i n a rest :
  len a = 16 ->
  let out := copy_at (set_at (set_at (make_bytes 20 ++ rest) 0 c) 1 i) 2 (put_u16 n) in
  copy_range out 4 20 a
  = ([c; i] ++ put_u16 n ++ a) ++ rest.
Proof.
  intros Ha. assert (copy_bytes (replicate 16 0) a = a) as E by by apply copy_bytes_full.
  transitivity ([c; i] ++ put_u16 n ++ copy_bytes (replicate 16 0) a ++ rest); [reflexivity|].
  by rewrite E, <- !app_assoc.
Qed.

(** The encoder, on every branch. *)
Lemma EncodeBounded_spec p b :
  Packet_ok p ->
  EncodeBounded p b = if decide (Packet_fits b p) then Ok (wire p) else
    if B_MaxAttributes (normalized b) <? len (Attributes p) then Err (ErrAttribute ErrTooMany)
    else if B_MaxValueBytes (normalized b) <? ValueBytes (Attributes p) then Err (ErrAttribute ErrBudget)
    else Err ErrPacketTooLarge.
Proof.
  intros (Hc & Hi & Ha & _ & Hs). unfold EncodeBounded. cbv zeta.
  unfold RawSet_Len. rewrite !Z.gtb_ltb, Encode_ok by done. cbn [rbind lift_attr].
  assert (Packet_fits b p <-> len (Attributes p) <= B_MaxAttributes (normalized b)
    /\ ValueBytes (Attributes p) <= B_MaxValueBytes (normalized b)
    /\ HeaderSize + len (tlvs (Attributes p)) <= B_MaxPacketBytes (normalized b)) as Hf
    by (unfold Packet_fits, in_budget; tauto).
  destruct (Z.ltb_spec (B_MaxAttributes (normalized b)) (len (Attributes p))); [rewrite decide_False; [done|rewrite Hf; lia]|].
  destruct (Z.ltb_spec (B_MaxValueBytes (normalized b)) (ValueBytes (Attributes p))); [rewrite decide_False; [done|rewrite Hf; lia]|].
  rewrite Z.gtb_ltb.
  destruct (Z.ltb_spec (B_MaxPacketBytes (normalized b)) (HeaderSize + len (tlvs (Attributes p)))); [rewrite decide_False; [done|rewrite Hf; lia]|].
  rewrite decide_True by (rewrite Hf; lia). f_equal.
  pose proof (len_nonneg (tlvs (Attributes p))) as Hn.
  pose proof (normalized_range b) as ([_ Hmax] & _).
  rewrite make_bytes_add by (unfold HeaderSize; lia).
  rewrite to_u8_id by done. rewrite to_u16_id by (unfold is_u16, HeaderSize, MaxPacketBytes in *; lia).
  change HeaderSize with 20. rewrite header_write by done.
  replace 20 with (len ([Code p; Identifier p] ++ put_u16 (20 + len (tlvs (Attributes p))) ++ Authenticator p)) at 2
    by (rewrite !len_app, Ha, len_put_u16, !len_cons; done).
  rewrite copy_at_app, copy_bytes_full by by rewrite len_make_bytes.
  unfold wire. by rewrite <- !app_assoc.
Qed.

Lemma DecodeHeader_spec c i b2 b3 a rest :
  len a = 16 ->
  DecodeHeader (c :: i :: b2 :: b3 :: a ++ rest) = Ok (mkHeader c i (be_u16 b2 b3) a).
Proof.
  intros Ha. unfold DecodeHeader. pose proof (len_nonneg rest).
  assert (len (c :: i :: b2 :: b3 :: a ++ rest) = 20 + len rest) as -> by (rewrite !len_cons, len_app; lia).
  destruct (Z.ltb_spec (20 + len rest) HeaderSize); [unfold HeaderSize in *; lia|]. repeat f_equal.
  assert (slice (c :: i :: b2 :: b3 :: a ++ rest) 4 HeaderSize = a) as ->.
  { pose proof (slice_app_mid [c; i; b2; b3] a rest) as E. rewrite Ha in E. exact E. }
  by apply copy_bytes_full.
Qed.

(** Fewer than twenty octets are not a header. *)
Lemma DecodeHeader_short (p : bytes) : len p < 20 -> DecodeHeader p = Err ErrHeaderShort.
Proof. intros H. unfold DecodeHeader. destruct (Z.ltb_spec (len p) HeaderSize); [done|unfold HeaderSize in *; lia]. Qed.

Lemma datagram_split (d : bytes) :
  20 <= len d -> exists c i b2 b3 a rest, d = c :: i :: b2 :: b3 :: a ++ rest /\ len a = 16.
Proof.
  intros H. destruct d as [|c [|i [|b2 [|b3 d]]]]; try (vm_compute in H; by destruct H).
  rewrite !len_cons in H. exists c, i, b2, b3, (take 16 d), (drop 16 d).
  rewrite take_drop. split; [done|]. apply (len_take d 16). lia.
Qed.

Lemma DecodeBounded_wire p b pad :
  Packet_ok p -> Packet_fits b p -> DecodeBounded (wire p ++ pad) b = Ok p.
Proof.
  intros (Hc & Hi & Ha & Hab & Hs) [Hb Hn]. unfold DecodeBounded.
  pose proof (normalized_range b) as ([_ Hmax] & _). pose proof (len_nonneg (tlvs (Attributes p))).
  assert (wire p ++ pad = Code p :: Identifier p :: to_u8 (Z.shiftr (HeaderSize + len (tlvs (Attributes p))) 8)
    :: to_u8 (HeaderSize + len (tlvs (Attributes p))) :: Authenticator p ++ tlvs (Attributes p) ++ pad) as Ew.
  { unfold wire. change (put_u16 ?n) with [to_u8 (Z.shiftr n 8); to_u8 n]. simpl. by rewrite <- app_assoc. }
  rewrite Ew at 1. rewrite DecodeHeader_spec by done. cbn [rbind H_Length H_Code H_Identifier H_Authenticator].
  rewrite be_put_u16 by (unfold is_u16, HeaderSize, MaxPacketBytes in *; lia).
  rewrite !Z.gtb_ltb. unfold MinPacketBytes.
  destruct (Z.ltb_spec (HeaderSize + len (tlvs (Attributes p))) 20); [unfold HeaderSize in *; lia|].
  destruct (Z.ltb_spec (B_MaxPacketBytes (normalized b)) (HeaderSize + len (tlvs (Attributes p)))); [lia|].
  rewrite len_app, len_wire by done. pose proof (len_nonneg pad).
  destruct (Z.ltb_spec (HeaderSize + len (tlvs (Attributes p)) + len pad) (HeaderSize + len (tlvs (Attributes p)))); [lia|].
  assert (slice (wire p ++ pad) HeaderSize (HeaderSize + len (tlvs (Attributes p))) = tlvs (Attributes p)) as ->.
  { pose proof (slice_app_mid ([Code p; Identifier p] ++ put_u16 (HeaderSize + len (tlvs (Attributes p)))
      ++ Authenticator p) (tlvs (Attributes p)) pad) as E.
    rewrite !len_app, Ha, len_put_u16, !len_cons, len_nil in E.
    change (1 + (1 + 0) + (2 + AuthenticatorSize)) with HeaderSize in E. etransitivity; [|exact E].
    f_equal. unfold wire. by rewrite <- !app_assoc. }
  rewrite Decode_tlvs.
  - simpl. by destruct p.
  - done.
  - by rewrite max_attrs_normalized, max_value_normalized.
Qed.

Lemma DecodeBounded_Ok d b p :
  Forall is_u8 d -> DecodeBounded d b = Ok p ->
  Packet_ok p /\ Packet_fits b p /\ exists pad, d = wire p ++ pad.
Proof.
  intros Hd E. unfold DecodeBounded in E.
  destruct (Z.lt_ge_cases (len d) 20) as [Hs|Hl]; [rewrite DecodeHeader_short in E by done; discriminate E|].
  destruct (datagram_split d Hl) as (c & i & b2 & b3 & a & rest & -> & Ha).
  rewrite DecodeHeader_spec in E by done. cbn [rbind H_Length H_Code H_Identifier H_Authenticator] in E.
  forall_hyps. assert (Forall is_u8 a) as Hua by done. assert (Forall is_u8 rest) as Hur by done.
  assert (is_u16 (be_u16 b2 b3)) as Hn16 by by apply be_u16_range.
  rewrite !Z.gtb_ltb in E. unfold MinPacketBytes in E.
  destruct (Z.ltb_spec (be_u16 b2 b3) 20) as [|Hn1]; [done|].
  destruct (Z.ltb_spec (B_MaxPacketBytes (normalized b)) (be_u16 b2 b3)) as [|Hn2]; [done|].
  destruct (Z.ltb_spec (len (c :: i :: b2 :: b3 :: a ++ rest)) (be_u16 b2 b3)) as [|Hn3]; [done|].
  rewrite !len_cons, len_app, Ha in Hn3.
  assert (exists m, be_u16 b2 b3 = 20 + m) as [m Hm] by (exists (be_u16 b2 b3 - 20); lia).
  assert (slice (c :: i :: b2 :: b3 :: a ++ rest) HeaderSize (be_u16 b2 b3) = take (Z.to_nat m) rest) as Hsl.
  { pose proof (slice_app_mid ([c; i; b2; b3] ++ a) (take (Z.to_nat m) rest) (drop (Z.to_nat m) rest)) as E1.
    rewrite take_drop, len_app, Ha in E1. change (len [c; i; b2; b3] + 16) with HeaderSize in E1.
    rewrite len_take in E1 by lia. rewrite Hm. rewrite <- E1. done. }
  rewrite Hsl in E. apply rbind_Ok in E as (s & Hs & E). apply Ok_inj in E as <-.
  destruct (RadiusAttribute.Decode _ _ _) as [s'|] eqn:Ed; [|done]. simpl in Hs. apply Ok_inj in Hs as ->.
  apply Decode_Ok in Ed as (Et & Hok & Hbud); [|by apply Forall_take].
  rewrite max_attrs_normalized, max_value_normalized in Hbud.
  assert (len (tlvs s) = m) as Hlt by (rewrite <- Et; apply len_take; lia).
  split_and!; [done|split; cbn [Attributes]|exists (drop (Z.to_nat m) rest)].
  - done.
  - rewrite Hlt. unfold HeaderSize. lia.
  - unfold wire. cbn [Attributes Code Identifier Authenticator]. rewrite Hlt. change HeaderSize with 20. rewrite <- Hm, put_be_u16 by done.
    simpl. by rewrite <- Et, <- app_assoc, take_drop.
Qed.

Lemma DecodeBounded_reason d b e :
  Forall is_u8 d -> DecodeBounded d b = Err e ->
  DiscardReason (Some e) = if len d <? 20 then ReasonMalformedHeader else ReasonInvalidLength.
Proof.
  intros Hd. unfold DecodeBounded, DecodeHeader. change HeaderSize with 20 at 1.
  destruct (len d <? 20); simpl; [by intros [= <-]|].
  repeat match goal with |- (if ?c then _ else _) = _ -> _ => destruct c; [by intros [= <-]|] end.
  pose proof (Decode_spec (slice d HeaderSize (be_u16 (index d 2) (index d 3)))
    (B_MaxAttributes (normalized b)) (B_MaxValueBytes (normalized b))
    ltac:(unfold slice; by apply Forall_take, Forall_drop)) as Hs.
  destruct (RadiusAttribute.Decode _ _ _) as [s|ae]; simpl; [done|]. intros [= <-].
  destruct Hs as (s & [|x [|y rest]] & _ & _ & _ & Hst); simpl in Hst; [done|by injection Hst as <-|].
  repeat match type of Hst with (if ?c then _ else _) = _ => destruct c; [by injection Hst as <-|] end.
  done.
Qed.

(** C17. The packet codec.  For every packet the Go types can hold and every
    bounds value: encoding succeeds exactly when the attribute count, the
    value bytes and the total length are within the normalised bounds (at
    most 4096 octets), otherwise it reports the first exceeded budget; the
    encoding declares its own length, and decoding it, followed by any
    padding, returns the packet.  Conversely an accepted datagram is the
    canonical encoding of the packet returned, followed by padding that is
    ignored.  A refused datagram is discarded as a malformed header when it
    has fewer than twenty octets, and for its length otherwise. *)
Theorem packet_codec (b : Bounds) :
  (forall p, Packet_ok p ->
     EncodeBounded p b = (if decide (Packet_fits b p) then Ok (wire p) else
       if B_MaxAttributes (normalized b) <? len (Attributes p) then Err (ErrAttribute ErrTooMany)
       else if B_MaxValueBytes (normalized b) <? ValueBytes (Attributes p) then Err (ErrAttribute ErrBudget)
       else Err ErrPacketTooLarge))
  /\ (forall p w pad, Packet_ok p -> EncodeBounded p b = Ok w ->
        MinPacketBytes <= len w <= MaxPacketBytes
        /\ be_u16 (index w 2) (index w 3) = len w /\ DecodeBounded (w ++ pad) b = Ok p)
  /\ (forall d p, Forall is_u8 d -> DecodeBounded d b = Ok p ->
        exists w pad, EncodeBounded p b = Ok w /\ d = w ++ pad)
  /\ (forall d e, Forall is_u8 d -> DecodeBounded d b = Err e ->
        DiscardReason (Some e) = if len d <? 20 then ReasonMalformedHeader else ReasonInvalidLength).
Proof.
  pose proof (normalized_range b) as ([_ Hmax] & _).
  split_and!.
  - intros p Hp. by apply EncodeBounded_spec.
  - intros p w pad Hp E. rewrite EncodeBounded_spec in E by done. destruct (decide _) as [Hf|_].
    2:{ destruct (_ <? _) in E; [done|]. by destruct (_ <? _) in E. }
    apply Ok_inj in E as <-. pose proof Hp as (_ & _ & Ha & _). pose proof Hf as [_ Hn].
    pose proof (len_nonneg (tlvs (Attributes p))). rewrite len_wire by done.
    split_and!; [unfold HeaderSize, MinPacketBytes; lia|lia| |by apply DecodeBounded_wire].
    change (index (wire p) 2) with (to_u8 (Z.shiftr (HeaderSize + len (tlvs (Attributes p))) 8)).
    change (index (wire p) 3) with (to_u8 (HeaderSize + len (tlvs (Attributes p)))).
    apply be_put_u16. unfold is_u16, HeaderSize, MaxPacketBytes in *. lia.
  - intros d p Hd (Hok & Hf & pad & ->)%DecodeBounded_Ok; [|done]. exists (wire p), pad.
    split; [|done]. by rewrite EncodeBounded_spec, decide_True.
  - intros d e Hd E. by apply DecodeBounded_reason in E.
Qed.
