(* ===== verification/RadiusCrypto.v ===== *)
(** * RADIUS authenticators and password hiding

    [internal/radius/crypto]: the declared packet ([packet.go]),
    User-Password hiding ([user_password.go]), the Message-Authenticator
    ([message_authenticator.go]), the Response Authenticator
    ([response.go]), the Accounting-Request and Dynamic-Authorization
    authenticators ([accounting.go], [dynauth.go]).  MD5 and HMAC-MD5 are the
    executable definitions of [Md5].  The in-place loops keep their offsets;
    wiping and constant time are not observable in the model. *)

From S2P Require Import Prelude Md5 RadiusAttribute RadiusCodec.

Inductive crypto_error :=
| ErrEmptySecret | ErrPacketShort | ErrInvalidLength | ErrLengthMismatch
| ErrPasswordTooLong | ErrHiddenPassword
| ErrMissingMessageAuthenticator | ErrDuplicateMessageAuthenticator | ErrInvalidMessageAuthenticator
| ErrInvalidAccountingAuthenticator | ErrInvalidResponseAuthenticator | ErrInvalidDynAuthAuthenticator
| ErrCodec (e : codec_error) | ErrAttr (e : attribute_error).

#[export] Instance crypto_error_eq_dec : EqDecision crypto_error.
Proof. solve_decision. Defined.

Definition of_codec {A} (m : result codec_error A) : result crypto_error A :=
  match m with Ok a => Ok a | Err e => Err (ErrCodec e) end.
Definition of_attr {A} (m : result attribute_error A) : result crypto_error A :=
  match m with Ok a => Ok a | Err e => Err (ErrAttr e) end.

(** [subtle.ConstantTimeCompare(a, b) == 1]; [equal16] is the same on arrays. *)
Definition Equal (a b : bytes) : bool := bytes_eqb a b.
Definition equal16 (a b : bytes) : bool := bytes_eqb a b.

(** Hashing the concatenation of the parts. *)
Definition md5Concat (parts : list bytes) : bytes := md5 (concat parts).
Definition hmacMD5 (secret data : bytes) : bytes := hmac_md5 secret data.

(** ** The declared packet (packet.go) *)

Definition declaredHeader (packet : bytes) : result crypto_error (Header * bytes) :=
  if len packet <? HeaderSize then Err ErrPacketShort else
  let! h := of_codec (DecodeHeader packet) in
  let n := H_Length h in
  if (n <? MinPacketBytes) || (n >? MaxPacketBytes) || (n >? len packet) then Err ErrInvalidLength
  else Ok (h, slice packet 0 n).

(** ** User-Password (user_password.go) *)

Definition MaxUserPassword := 128.
Definition hiddenBlock := 16.

(** [dst[i+j] = src[i+j] ^ digest[j]] for the [n] values of [j] from [j]. *)
Fixpoint xor_block (n : nat) (dst src digest : bytes) (i j : Z) : bytes :=
  match n with
  | O => dst
  | S n =>
    xor_block n (set_at dst (i + j) (Z.lxor (index src (i + j)) (index digest j))) src digest i (j + 1)
  end.

(** The digest of one block: the secret and the request authenticator, or
    the secret and the previous hidden block. *)
Definition block_digest (secret reqAuth hidden : bytes) (i : Z) : bytes :=
  md5 (secret ++ if i =? 0 then reqAuth else slice hidden (i - hiddenBlock) i).

Fixpoint hide_loop (fuel : nat) (secret reqAuth padded hidden : bytes) (n i : Z) : bytes :=
  match fuel with
  | O => hidden
  | S fuel =>
    if i <? n then
      let digest := block_digest secret reqAuth hidden i in
      let hidden := xor_block (Z.to_nat hiddenBlock) hidden padded digest i 0 in
      hide_loop fuel secret reqAuth padded hidden n (i + hiddenBlock)
    else hidden
  end.

Definition HideUserPassword (secret reqAuth password : bytes) : result crypto_error bytes :=
  if len secret =? 0 then Err ErrEmptySecret else
  if len password >? MaxUserPassword then Err ErrPasswordTooLong else
  let n := ((len password + hiddenBlock - 1) / hiddenBlock) * hiddenBlock in
  let n := if n =? 0 then hiddenBlock else n in
  let padded := copy_bytes (make_bytes n) password in
  Ok (hide_loop (Z.to_nat n) secret reqAuth padded (make_bytes n) n 0).

Fixpoint unhide_loop (fuel : nat) (secret reqAuth hidden plain : bytes) (i : Z) : bytes :=
  match fuel with
  | O => plain
  | S fuel =>
    if i <? len hidden then
      let digest := block_digest secret reqAuth hidden i in
      let plain := xor_block (Z.to_nat hiddenBlock) plain hidden digest i 0 in
      unhide_loop fuel secret reqAuth hidden plain (i + hiddenBlock)
    else plain
  end.

(** [for end > 0 && plain[end-1] == 0 { end-- }] *)
Fixpoint strip_end (plain : bytes) (end_ : nat) : nat :=
  match end_ with
  | O => O
  | S e => if index plain (Z.of_nat e) =? 0 then strip_end plain e else end_
  end.

Definition UnhideUserPassword (secret reqAuth hidden : bytes) : result crypto_error bytes :=
  if len secret =? 0 then Err ErrEmptySecret else
  if (len hidden <? hiddenBlock) || (len hidden >? MaxUserPassword)
     || negb (len hidden mod hiddenBlock =? 0)
  then Err ErrHiddenPassword else
  let plain := unhide_loop (length hidden) secret reqAuth hidden (make_bytes (len hidden)) 0 in
  let end_ := strip_end plain (length plain) in
  Ok (copy_bytes (make_bytes (Z.of_nat end_)) (take end_ plain)).

(** ** Message-Authenticator (message_authenticator.go) *)

Definition messageAuthenticatorWireLen := 18.

(** [for i := 0; i < 16; i++ { work[at+i] = 0 }] *)
Fixpoint zero_octets (n : nat) (work : bytes) (at_ : Z) : bytes :=
  match n with
  | O => work
  | S n => zero_octets n (set_at work at_ 0) (at_ + 1)
  end.

Definition messageAuthenticatorValue (packet : bytes) : result crypto_error bytes :=
  let! (_, declared) := declaredHeader packet in
  let! attrs := of_attr (RadiusAttribute.Decode (slice declared HeaderSize (len declared)) 0 0) in
  match AllOf attrs TypeMessageAuthenticator with
  | [] => Err ErrMissingMessageAuthenticator
  | [a] =>
    if negb (len (Raw_Value a) =? AuthenticatorSize) then Err ErrInvalidMessageAuthenticator
    else Ok (copy_bytes (make_bytes AuthenticatorSize) (Raw_Value a))
  | _ => Err ErrDuplicateMessageAuthenticator
  end.

Fixpoint zeroMA_loop (fuel : nat) (work : bytes) (off cleared : Z) : result crypto_error (bytes * Z) :=
  match fuel with
  | O => Ok (work, cleared)
  | S fuel =>
    if off + 2 <=? len work then
      let alen := index work (off + 1) in
      if (alen <? 2) || (off + alen >? len work) then Err ErrInvalidLength else
      if index work off =? TypeMessageAuthenticator then
        if negb (alen =? messageAuthenticatorWireLen) then Err ErrInvalidMessageAuthenticator
        else zeroMA_loop fuel (zero_octets (Z.to_nat AuthenticatorSize) work (off + 2))
               (off + alen) (cleared + 1)
      else zeroMA_loop fuel work (off + alen) cleared
    else Ok (work, cleared)
  end.

Definition packetWithZeroedMA (packet : bytes) : result crypto_error bytes :=
  let! (_, declared) := declaredHeader packet in
  let! attrs := of_attr (RadiusAttribute.Decode (slice declared HeaderSize (len declared)) 0 0) in
  let! _ := match AllOf attrs TypeMessageAuthenticator with
            | [] => Err ErrMissingMessageAuthenticator
            | [a] => if negb (len (Raw_Value a) =? AuthenticatorSize)
                     then Err ErrInvalidMessageAuthenticator else Ok tt
            | _ => Err ErrDuplicateMessageAuthenticator
            end in
  let work := copy_bytes (make_bytes (len declared)) declared in
  let! (work, cleared) := zeroMA_loop (length work) work HeaderSize 0 in
  if negb (cleared =? 1) then Err ErrInvalidMessageAuthenticator else Ok work.

Definition MessageAuthenticator (secret packet : bytes) : result crypto_error bytes :=
  if len secret =? 0 then Err ErrEmptySecret else
  let! work := packetWithZeroedMA packet in
  Ok (hmacMD5 secret work).

Definition ValidateMessageAuthenticator (secret packet : bytes) : result crypto_error unit :=
  if len secret =? 0 then Err ErrEmptySecret else
  let! got := messageAuthenticatorValue packet in
  let! want := MessageAuthenticator secret packet in
  if negb (Equal got want) then Err ErrInvalidMessageAuthenticator else Ok tt.

(** ** Response Authenticator (response.go) *)

Definition ResponseAuthenticator (secret : bytes) (code id length : Z) (reqAuth : bytes)
    (attrs : RawSet) : result crypto_error bytes :=
  if len secret =? 0 then Err ErrEmptySecret else
  let! attrBytes := of_attr (RadiusAttribute.Encode attrs) in
  let computed := to_u16 (HeaderSize + len attrBytes) in
  let! length := (if length =? 0 then Ok computed
                  else if negb (length =? computed) then Err ErrLengthMismatch
                  else Ok length) in
  let hdr := [to_u8 code; id] ++ put_u16 length in
  Ok (md5Concat [hdr; reqAuth; attrBytes; secret]).

Definition ValidateResponseAuthenticator (secret packet reqAuth : bytes) : result crypto_error unit :=
  let! (h, declared) := declaredHeader packet in
  let! attrs := of_attr (RadiusAttribute.Decode (slice declared HeaderSize (len declared)) 0 0) in
  let! want := ResponseAuthenticator secret (H_Code h) (H_Identifier h) (H_Length h) reqAuth attrs in
  if negb (equal16 (H_Authenticator h) want) then Err ErrInvalidResponseAuthenticator else Ok tt.

(** ** Accounting-Request Authenticator (accounting.go) *)

Fixpoint zeroAccountingMA_loop (fuel : nat) (work : bytes) (off : Z) : bytes :=
  match fuel with
  | O => work
  | S fuel =>
    if off + 2 <=? len work then
      let alen := index work (off + 1) in
      if (alen <? 2) || (off + alen >? len work) then work else
      let work :=
        if (index work off =? TypeMessageAuthenticator) && (alen =? messageAuthenticatorWireLen)
        then zero_octets (Z.to_nat AuthenticatorSize) work (off + 2) else work in
      zeroAccountingMA_loop fuel work (off + alen)
    else work
  end.

Definition zeroAccountingMA (attrs : bytes) : bytes :=
  zeroAccountingMA_loop (length attrs) attrs 0.

Definition AccountingRequestAuthenticator (secret packetWithoutAuth : bytes) : result crypto_error bytes :=
  if len secret =? 0 then Err ErrEmptySecret else
  let! (_, declared) := declaredHeader packetWithoutAuth in
  let attrs := zeroAccountingMA (slice declared HeaderSize (len declared)) in
  Ok (md5Concat [slice declared 0 4; make_bytes 16; attrs; secret]).

Definition ValidateAccountingRequestAuthenticator (secret packet : bytes) : result crypto_error unit :=
  let! (h, _) := declaredHeader packet in
  let! want := AccountingRequestAuthenticator secret packet in
  if negb (equal16 (H_Authenticator h) want) then Err ErrInvalidAccountingAuthenticator else Ok tt.

(** ** Dynamic Authorization (dynauth.go) *)

Definition DynAuthRequestAuthenticator (secret packet : bytes) : result crypto_error bytes :=
  if len secret =? 0 then Err ErrEmptySecret else
  let! (_, declared) := declaredHeader packet in
  Ok (md5Concat [slice declared 0 4; make_bytes 16; slice declared HeaderSize (len declared); secret]).

Definition ValidateDynAuthRequestAuthenticator (secret packet : bytes) : result crypto_error unit :=
  let! (h, _) := declaredHeader packet in
  let! want := DynAuthRequestAuthenticator secret packet in
  if negb (equal16 (H_Authenticator h) want) then Err ErrInvalidDynAuthAuthenticator else Ok tt.

(** [clear(work[4:HeaderSize])] *)
Definition clear_authenticator (work : bytes) : bytes :=
  zero_octets (Z.to_nat (HeaderSize - 4)) work 4.

Definition DynAuthMessageAuthenticator (secret packet : bytes) : result crypto_error bytes :=
  if len secret =? 0 then Err ErrEmptySecret else
  let! work := packetWithZeroedMA packet in
  Ok (hmacMD5 secret (clear_authenticator work)).

Definition ValidateDynAuthMessageAuthenticator (secret packet : bytes) : result crypto_error unit :=
  let! got := messageAuthenticatorValue packet in
  let! want := DynAuthMessageAuthenticator secret packet in
  if negb (Equal got want) then Err ErrInvalidMessageAuthenticator else Ok tt.

(** ** Lemmas: in-place blocks *)

Definition xor_bytes (a b : bytes) : bytes := zip_with Z.lxor a b.

Lemma len_xor a b : len a = len b -> len (xor_bytes a b) = len a.
Proof. unfold len, xor_bytes. rewrite length_zip_with. lia. Qed.

Lemma xor_involutive a b : len a = len b -> xor_bytes (xor_bytes a b) b = a.
Proof.
  unfold len, xor_bytes. revert b. induction a as [|x a IH]; intros [|y b]; simpl; try done; try lia.
  intros H. rewrite IH by lia. f_equal. rewrite Z.lxor_assoc, Z.lxor_nilpotent. apply Z.lxor_0_r.
Qed.

Lemma xor_block_spec D dst1 dst2 R src1 B src2 D1 :
  len dst2 = len D -> len B = len D -> len src1 = len dst1 ->
  forall i j, i + j = len dst1 -> len D1 = j -> 0 <= i ->
  xor_block (length D) (dst1 ++ dst2 ++ R) (src1 ++ B ++ src2) (D1 ++ D) i j
  = dst1 ++ xor_bytes B D ++ R.
Proof.
  revert dst1 dst2 src1 B D1. induction D as [|d D IH]; intros dst1 dst2 src1 B D1 Hd HB Hs i j Hij HD1 Hi.
  - apply len_zero in Hd as ->. by destruct B.
  - destruct dst2 as [|x dst2]; [rewrite len_nil, len_cons in Hd; pose proof (len_nonneg D); lia|].
    destruct B as [|b B]; [rewrite len_nil, len_cons in HB; pose proof (len_nonneg D); lia|].
    rewrite !len_cons in Hd, HB. cbn [length xor_block].
    rewrite Hij at 1. cbn [app]. rewrite set_at_app.
    assert (index (src1 ++ b :: B ++ src2) (i + j) = b) as -> by (rewrite Hij, <- Hs; apply index_app_len).
    assert (index (D1 ++ d :: D) j = d) as -> by (rewrite <- HD1; apply index_app_len).
    specialize (IH (dst1 ++ [Z.lxor b d]) dst2 (src1 ++ [b]) B (D1 ++ [d])).
    rewrite <- !app_assoc in IH. cbn [app] in IH.
    rewrite IH; [done|lia|lia| | | |done]; rewrite ?len_app, ?len_cons, ?len_nil; lia.
Qed.

(** The block chain of RFC 2865 section 5.2 over 16-octet blocks. *)
Fixpoint hide_blocks (secret prev : bytes) (blocks : list bytes) : list bytes :=
  match blocks with
  | [] => []
  | b :: blocks =>
    let c := xor_bytes b (md5 (secret ++ prev)) in
    c :: hide_blocks secret c blocks
  end.

Fixpoint unhide_blocks (secret prev : bytes) (blocks : list bytes) : list bytes :=
  match blocks with
  | [] => []
  | c :: blocks => xor_bytes c (md5 (secret ++ prev)) :: unhide_blocks secret c blocks
  end.

Definition blocks_ok (bs : list bytes) : Prop := Forall (fun b => len b = 16) bs.

Lemma len_concat_blocks bs : blocks_ok bs -> len (concat bs) = 16 * len bs.
Proof.
  induction 1 as [|b bs Hb Hbs IH]; [done|]. simpl. rewrite len_app, len_cons, IH. lia.
Qed.

Lemma hide_blocks_ok secret prev bs : blocks_ok bs -> blocks_ok (hide_blocks secret prev bs).
Proof.
  intros H. revert prev. induction H as [|b bs Hb Hbs IH]; intros prev; simpl; constructor; [|apply IH].
  by rewrite len_xor; [|rewrite len_md5].
Qed.

Lemma unhide_hide_blocks secret prev bs :
  blocks_ok bs -> unhide_blocks secret prev (hide_blocks secret prev bs) = bs.
Proof.
  intros H. revert prev. induction H as [|b bs Hb Hbs IH]; intros prev; simpl; [done|].
  rewrite IH, xor_involutive; [done|]. by rewrite len_md5.
Qed.

Lemma length_hide_blocks secret prev bs : length (hide_blocks secret prev bs) = length bs.
Proof. revert prev. induction bs as [|b bs IH]; intros prev; simpl; [done|]. by rewrite IH. Qed.

(** Every multiple of sixteen is a sequence of blocks. *)
Lemma split_blocks n (p : bytes) : len p = 16 * Z.of_nat n -> exists bs, p = concat bs /\ blocks_ok bs /\ length bs = n.
Proof.
  revert p. induction n as [|n IH]; intros p Hp.
  - exists []. split_and!; [by apply len_zero|constructor|done].
  - destruct (IH (drop 16 p)) as (bs & E & Hb & Hn).
    { pose proof (len_drop p 16 ltac:(lia)) as E. change (Z.to_nat 16) with 16%nat in E. lia. }
    exists (take 16 p :: bs). split_and!.
    + simpl. by rewrite <- E, take_drop.
    + constructor; [|done]. apply (len_take p 16). lia.
    + simpl. by rewrite Hn.
Qed.

Section hiding.
Context (secret reqAuth : bytes).

(** The previous hidden block, or the request authenticator at the start. *)
Definition chain_prev (done_ : list bytes) : bytes :=
  match list.last done_ with Some c => c | None => reqAuth end.

Lemma block_digest_chain done_ R :
  blocks_ok done_ ->
  block_digest secret reqAuth (concat done_ ++ R) (16 * len done_) = md5 (secret ++ chain_prev done_).
Proof.
  intros H. unfold block_digest, chain_prev. do 2 f_equal.
  destruct done_ as [|c done_ _] using rev_ind; [done|].
  rewrite last_snoc. apply Forall_app in H as [H Hc]. apply Forall_cons_1 in Hc as [Hc _].
  pose proof (len_nonneg done_). rewrite len_app, len_cons, len_nil.
  destruct (Z.eqb_spec (16 * (len done_ + (1 + 0))) 0); [lia|].
  rewrite concat_app. simpl. rewrite app_nil_r, <- app_assoc.
  pose proof (slice_app_mid (concat done_) c R) as E. rewrite Hc, (len_concat_blocks done_) in E by exact H.
  etransitivity; [|exact E]. f_equal; unfold hiddenBlock; lia.
Qed.

Lemma chain_prev_snoc done_ c : chain_prev (done_ ++ [c]) = c.
Proof. unfold chain_prev. by rewrite last_snoc. Qed.

(** One turn of either loop: block [B] of the source at the offset of the blocks done. *)
Lemma xor_block_turn dst1 z R src1 B src2 D :
  len z = 16 -> len B = 16 -> len D = 16 -> len src1 = len dst1 ->
  xor_block (Z.to_nat hiddenBlock) (dst1 ++ z ++ R) (src1 ++ B ++ src2) D (len dst1) 0
  = dst1 ++ xor_bytes B D ++ R.
Proof.
  intros Hz HB HD Hs. replace (Z.to_nat hiddenBlock) with (length D).
  - apply (xor_block_spec D dst1 z R src1 B src2 []); rewrite ?len_nil; try lia.
    pose proof (len_nonneg dst1). lia.
  - unfold len, hiddenBlock in *. lia.
Qed.

Lemma hide_loop_spec todo fuel bdone pdone :
  (length todo < fuel)%nat -> blocks_ok todo -> blocks_ok bdone -> blocks_ok pdone -> len pdone = len bdone ->
  hide_loop fuel secret reqAuth (concat pdone ++ concat todo)
    (concat bdone ++ make_bytes (16 * len todo)) (16 * (len bdone + len todo)) (16 * len bdone)
  = concat bdone ++ concat (hide_blocks secret (chain_prev bdone) todo).
Proof.
  revert fuel bdone pdone. induction todo as [|b todo IH]; intros fuel bdone pdone Hf Ht Hb Hp Hl.
  - change (len (@nil bytes)) with 0. change (make_bytes (16 * 0)) with (@nil Z).
    destruct fuel as [|fuel]; cbn [hide_loop]; [done|].
    by destruct (Z.ltb_spec (16 * len bdone) (16 * (len bdone + 0))); [lia|].
  - destruct fuel as [|fuel]; [simpl in Hf; lia|]. apply Forall_cons_1 in Ht as [Hb1 Ht].
    cbn [hide_loop]. rewrite len_cons. pose proof (len_nonneg todo). pose proof (len_nonneg bdone).
    destruct (Z.ltb_spec (16 * len bdone) (16 * (len bdone + (1 + len todo)))); [|lia].
    rewrite block_digest_chain by done.
    replace (16 * (1 + len todo)) with (16 + 16 * len todo) by lia.
    rewrite make_bytes_add by lia.
    replace (16 * len bdone) with (len (concat bdone)) at 1 by by apply len_concat_blocks.
    cbn [concat].
    rewrite xor_block_turn; [|done|done|by rewrite len_md5|rewrite !len_concat_blocks by done; lia].
    set (c := xor_bytes b _).
    specialize (IH fuel (bdone ++ [c]) (pdone ++ [b])).
    rewrite !concat_app, <- !app_assoc, !len_app, !len_cons, !len_nil in IH. simpl in IH.
    rewrite !app_nil_r, chain_prev_snoc in IH.
    replace (16 * len bdone + hiddenBlock) with (16 * (len bdone + (1 + 0))) by (unfold hiddenBlock; lia).
    replace (16 * (len bdone + (1 + len todo))) with (16 * (len bdone + (1 + 0) + len todo)) by lia.
    cbn [hide_blocks]. fold c. rewrite IH; [done|simpl in Hf; lia|done| | |].
    + apply Forall_app. split; [done|]. apply Forall_singleton. unfold c. by rewrite len_xor; [|rewrite len_md5].
    + apply Forall_app. split; [done|]. by apply Forall_singleton.
    + lia.
Qed.

Lemma unhide_loop_spec todo fuel hdone pdone :
  (length todo < fuel)%nat -> blocks_ok todo -> blocks_ok hdone -> blocks_ok pdone -> len pdone = len hdone ->
  unhide_loop fuel secret reqAuth (concat hdone ++ concat todo)
    (concat pdone ++ make_bytes (16 * len todo)) (16 * len hdone)
  = concat pdone ++ concat (unhide_blocks secret (chain_prev hdone) todo).
Proof.
  revert fuel hdone pdone. induction todo as [|c todo IH]; intros fuel hdone pdone Hf Ht Hh Hp Hl.
  - change (len (@nil bytes)) with 0. change (make_bytes (16 * 0)) with (@nil Z). simpl concat.
    rewrite !app_nil_r. destruct fuel as [|fuel]; cbn [unhide_loop]; [done|].
    rewrite len_concat_blocks by done. by rewrite Z.ltb_irrefl.
  - destruct fuel as [|fuel]; [simpl in Hf; lia|]. apply Forall_cons_1 in Ht as [Hc Ht].
    cbn [unhide_loop]. rewrite len_cons. pose proof (len_nonneg todo). pose proof (len_nonneg hdone).
    assert (len (concat hdone ++ concat (c :: todo)) = 16 * (len hdone + (1 + len todo))) as ->.
    { rewrite len_app, !len_concat_blocks; [rewrite len_cons; lia|by constructor|done]. }
    destruct (Z.ltb_spec (16 * len hdone) (16 * (len hdone + (1 + len todo)))); [|lia].
    rewrite block_digest_chain by done.
    replace (16 * (1 + len todo)) with (16 + 16 * len todo) by lia.
    rewrite make_bytes_add by lia. cbn [concat].
    replace (16 * len hdone) with (len (concat pdone)) at 1 by (rewrite len_concat_blocks by done; lia).
    rewrite xor_block_turn; [|done|done|by rewrite len_md5|rewrite !len_concat_blocks by done; lia].
    set (b := xor_bytes c _).
    specialize (IH fuel (hdone ++ [c]) (pdone ++ [b])).
    rewrite !concat_app, <- !app_assoc, !len_app, !len_cons, !len_nil in IH. simpl in IH.
    rewrite !app_nil_r, chain_prev_snoc in IH.
    replace (16 * len hdone + hiddenBlock) with (16 * (len hdone + (1 + 0))) by (unfold hiddenBlock; lia).
    cbn [unhide_blocks]. fold b. rewrite IH; [done|simpl in Hf; lia|done| | |lia].
    + apply Forall_app. split; [done|]. by apply Forall_singleton.
    + apply Forall_app. split; [done|]. apply Forall_singleton. unfold b. by rewrite len_xor; [|rewrite len_md5].
Qed.
End hiding.

Lemma strip_end_spec (p : bytes) n :
  (n <= length p)%nat ->
  let e := strip_end p n in
  (e <= n)%nat /\ take n p = take e p ++ replicate (n - e) 0 /\ list.last (take e p) <> Some 0.
Proof.
  induction n as [|n IH]; intros Hn; simpl; [done|].
  assert (is_Some (p !! n)) as [x Hx] by (apply lookup_lt_is_Some; lia).
  assert (index p (Z.of_nat n) = x) as E.
  { unfold index. rewrite Nat2Z.id. by apply nth_lookup_Some. }
  rewrite E. destruct (Z.eqb_spec x 0) as [->|Hx0].
  - destruct (IH ltac:(lia)) as (H1 & H2 & H3). split_and!; [lia| |done].
    rewrite (take_S_r p n 0) by done. rewrite H2 at 1. rewrite <- app_assoc. f_equal.
    replace (S n - strip_end p n)%nat with (S (n - strip_end p n)) by lia.
    by rewrite replicate_S_end.
  - rewrite Nat.sub_diag, app_nil_r. split_and!; [lia|done|].
    rewrite (take_S_r p n x) by done. rewrite last_snoc. congruence.
Qed.

Lemma zeros_prefix (a b : bytes) n : a ++ b = replicate n 0 -> a = replicate (length a) 0.
Proof.
  intros H. symmetry. apply replicate_as_Forall. split; [done|].
  symmetry in H. apply replicate_as_Forall in H as [_ H]. by apply Forall_app in H as [H _].
Qed.

(** The padded length: the next multiple of sixteen, and never zero. *)
Definition hidden_blocks (n : Z) : Z := if n =? 0 then 1 else (n + 15) / 16.

Lemma hidden_blocks_range n : 0 <= n <= 128 -> 1 <= hidden_blocks n <= 8 /\ n <= 16 * hidden_blocks n.
Proof. unfold hidden_blocks. intros. destruct (Z.eqb_spec n 0); [lia|]. mod_lia. Qed.

(** The hidden value is the RFC chain over the padded blocks. *)
Lemma HideUserPassword_spec secret reqAuth pw :
  secret <> [] -> len pw <= 128 ->
  exists bs, blocks_ok bs /\ len bs = hidden_blocks (len pw)
    /\ concat bs = pw ++ make_bytes (16 * hidden_blocks (len pw) - len pw)
    /\ HideUserPassword secret reqAuth pw = Ok (concat (hide_blocks secret reqAuth bs)).
Proof.
  intros Hs Hl. pose proof (len_nonneg pw). pose proof (hidden_blocks_range (len pw) ltac:(lia)) as [Hb Hc].
  set (k := hidden_blocks (len pw)) in *.
  assert (len (pw ++ make_bytes (16 * k - len pw)) = 16 * Z.of_nat (Z.to_nat k)) as Hlen
    by (rewrite len_app, len_make_bytes; lia).
  destruct (split_blocks _ _ Hlen) as (bs & E & Hok & Hn). exists bs.
  assert (len bs = k) as Hbs by (unfold len; lia). split_and!; [done|done|done|].
  unfold HideUserPassword. destruct (Z.eqb_spec (len secret) 0) as [E0|_]; [by apply len_zero in E0|].
  rewrite Z.gtb_ltb. destruct (Z.ltb_spec MaxUserPassword (len pw)); [unfold MaxUserPassword in *; lia|].
  assert ((let n := (len pw + hiddenBlock - 1) / hiddenBlock * hiddenBlock in
           if n =? 0 then hiddenBlock else n) = 16 * k) as En.
  { cbv zeta. unfold k, hidden_blocks, hiddenBlock. replace (len pw + 16 - 1) with (len pw + 15) by lia.
    destruct (Z.eqb_spec (len pw) 0) as [->|]; [done|].
    destruct (Z.eqb_spec ((len pw + 15) / 16 * 16) 0); [|lia]. exfalso. mod_lia. }
  cbv zeta in En |- *. rewrite En. f_equal.
  assert (copy_bytes (make_bytes (16 * k)) pw = concat bs) as ->.
  { replace (16 * k) with (len pw + (16 * k - len pw)) by lia. rewrite make_bytes_add by lia.
    rewrite copy_bytes_app by (by rewrite len_make_bytes). done. }
  rewrite <- Hbs. apply (hide_loop_spec secret reqAuth bs _ [] []); [|done|constructor|constructor|done].
  unfold len in *. lia.
Qed.

(** User-Password hiding (RFC 2865 section 5.2).  With a non-empty
    secret, every password of at most 128 octets is hidden into the MD5 chain
    over its zero-padded 16-octet blocks, 16 to 128 octets and a multiple of
    sixteen; unhiding with the same secret and Request Authenticator returns
    the password without its trailing NULs, so exactly the password when it
    does not end in one.  Longer passwords, an empty secret, and hidden
    values of an illegal length are refused. *)
Definition password_hiding (secret reqAuth : bytes) : Prop :=
  (forall pw, secret <> [] -> len pw <= 128 ->
     exists bs hidden out, HideUserPassword secret reqAuth pw = Ok hidden
       /\ concat bs = pw ++ make_bytes (len hidden - len pw) /\ blocks_ok bs
       /\ hidden = concat (hide_blocks secret reqAuth bs)
       /\ 16 <= len hidden <= 128 /\ len hidden mod 16 = 0
       /\ UnhideUserPassword secret reqAuth hidden = Ok out
       /\ (exists k, pw = out ++ replicate k 0) /\ list.last out <> Some 0)
  /\ (forall pw, secret <> [] -> 128 < len pw ->
        HideUserPassword secret reqAuth pw = Err ErrPasswordTooLong)
  /\ (forall x, HideUserPassword [] reqAuth x = Err ErrEmptySecret
                /\ UnhideUserPassword [] reqAuth x = Err ErrEmptySecret)
  /\ (forall hidden, secret <> [] ->
        (is_ok (UnhideUserPassword secret reqAuth hidden) = true <->
         16 <= len hidden <= 128 /\ len hidden mod 16 = 0)).

Lemma user_password_hiding secret reqAuth : password_hiding secret reqAuth.
Proof.
  unfold password_hiding.
  split_and!; [|intros pw Hs Hl|done|intros h Hs].
  - intros pw Hs Hl. destruct (HideUserPassword_spec secret reqAuth pw Hs Hl) as (bs & Hok & Hbs & Ec & Eh).
    pose proof (len_nonneg pw). pose proof (hidden_blocks_range (len pw) ltac:(lia)) as [Hb Hc].
    set (k := hidden_blocks (len pw)) in *. set (hb := hide_blocks secret reqAuth bs) in *.
    assert (blocks_ok hb) as Hhb by by apply hide_blocks_ok.
    assert (len hb = k) as Hlhb by (unfold len, hb in *; rewrite length_hide_blocks; done).
    assert (len (concat hb) = 16 * k) as Hlh by (rewrite len_concat_blocks by done; lia).
    exists bs, (concat hb), (take (strip_end (concat bs) (length (concat bs))) (concat bs)).
    rewrite Hlh. destruct (strip_end_spec (concat bs) (length (concat bs)) (le_n _)) as (He1 & He2 & He3).
    set (e := strip_end _ _) in *. rewrite take_ge in He2 by lia.
    split_and!; [done|done|done|done|lia|lia|rewrite Z.mul_comm; by apply Z.mod_mul| | |done].
    + unfold UnhideUserPassword. destruct (Z.eqb_spec (len secret) 0) as [E0|_]; [by apply len_zero in E0|].
      rewrite Hlh. unfold hiddenBlock, MaxUserPassword. rewrite Z.gtb_ltb.
      destruct (Z.ltb_spec (16 * k) 16); [lia|]. destruct (Z.ltb_spec 128 (16 * k)); [lia|].
      replace (16 * k mod 16) with 0 by (symmetry; rewrite Z.mul_comm; by apply Z.mod_mul).
      cbn [Z.eqb negb orb].
      pose proof (unhide_loop_spec secret reqAuth hb (length (concat hb)) [] []) as Hu.
      simpl in Hu. rewrite Hlhb in Hu. change (16 * len []) with 0 in Hu.
      rewrite Hu by (try done; try constructor; unfold len in *; lia). clear Hu.
      change (chain_prev reqAuth []) with reqAuth. unfold hb. rewrite unhide_hide_blocks by done. fold e.
      f_equal. apply copy_bytes_full. rewrite len_make_bytes by lia. unfold len. rewrite length_take. lia.
    + assert (e <= length pw)%nat as Hle.
      { destruct (Nat.le_gt_cases e (length pw)) as [|Hgt]; [done|]. exfalso. apply He3.
        rewrite Ec, take_app_ge by lia. unfold make_bytes. rewrite take_replicate, last_app.
        replace (Nat.min (e - length pw) (Z.to_nat (16 * k - len pw))) with (S (e - length pw - 1)).
        - rewrite replicate_S_end, last_snoc. done.
        - assert (length (concat bs) = length pw + Z.to_nat (16 * k - len pw))%nat as El
            by (rewrite Ec, length_app; unfold make_bytes; by rewrite length_replicate). lia. }
      exists (length (drop e pw)). rewrite <- (take_drop e pw) at 1. rewrite Ec, take_app_le by done.
      f_equal. apply (zeros_prefix _ (make_bytes (16 * k - len pw)) (length (concat bs) - e)).
      rewrite <- drop_app_le, <- Ec by done. rewrite He2 at 1. apply drop_app_length'.
      rewrite length_take. lia.
  - unfold HideUserPassword. destruct (Z.eqb_spec (len secret) 0) as [E0|_]; [by apply len_zero in E0|].
    rewrite Z.gtb_ltb. by destruct (Z.ltb_spec MaxUserPassword (len pw)); [|unfold MaxUserPassword in *; lia].
  - unfold UnhideUserPassword. destruct (Z.eqb_spec (len secret) 0) as [E0|_]; [by apply len_zero in E0|].
    unfold hiddenBlock, MaxUserPassword. rewrite Z.gtb_ltb.
    destruct (Z.ltb_spec (len h) 16); simpl; [split; [done|lia]|].
    destruct (Z.ltb_spec 128 (len h)); simpl; [split; [done|lia]|].
    destruct (Z.eqb_spec (len h mod 16) 0); simpl; [split; [done|done]|]. split; [done|tauto].
Qed.

(** ** Lemmas: the authenticators on the wire form *)

Definition with_auth (a : bytes) (p : Packet) : Packet :=
  mkPacket (Code p) (Identifier p) a (Attributes p).
Definition zero_ma (r : Raw) : Raw :=
  if (Raw_Type r =? TypeMessageAuthenticator) && (len (Raw_Value r) =? 16)
  then mkRaw (Raw_Type r) (make_bytes 16) else r.
Definition zero_MA (p : Packet) : Packet :=
  mkPacket (Code p) (Identifier p) (Authenticator p) (map zero_ma (Attributes p)).

Lemma len_tlvs_zero_ma s : len (tlvs (map zero_ma s)) = len (tlvs s).
Proof.
  induction s as [|a s IH]; [done|]. rewrite map_cons, !tlvs_cons, !len_app, IH, !len_tlv. f_equal.
  unfold zero_ma. destruct (_ && _) eqn:E; [|done]. bool_hyps. simpl. rewrite len_make_bytes; lia.
Qed.

Lemma index_app_r (P b : bytes) i : 0 <= i -> index (P ++ b) (len P + i) = index b i.
Proof.
  intros Hi. unfold index. pose proof (len_nonneg P). rewrite Z2Nat.inj_add, len_to_nat by lia.
  rewrite app_nth2 by lia. f_equal. lia.
Qed.

Lemma declaredHeader_wire p pad :
  Packet_ok p -> Packet_fits DefaultBounds p ->
  declaredHeader (wire p ++ pad) =
  Ok (mkHeader (Code p) (Identifier p) (len (wire p)) (Authenticator p), wire p).
Proof.
  intros (Hc & Hi & Ha & _ & _) [_ Hn]. change (B_MaxPacketBytes (normalized DefaultBounds)) with 4096 in Hn.
  pose proof (len_nonneg (tlvs (Attributes p))). pose proof (len_nonneg pad).
  assert (Hw := len_wire p Ha). unfold HeaderSize in *. unfold declaredHeader.
  rewrite len_app. destruct (Z.ltb_spec (len (wire p) + len pad) HeaderSize); [unfold HeaderSize in *; lia|].
  assert (wire p ++ pad = Code p :: Identifier p :: to_u8 (Z.shiftr (len (wire p)) 8)
    :: to_u8 (len (wire p)) :: Authenticator p ++ tlvs (Attributes p) ++ pad) as Ew.
  { rewrite Hw. unfold wire. change (put_u16 ?n) with [to_u8 (Z.shiftr n 8); to_u8 n]. cbn [app].
    rewrite <- app_assoc. done. }
  rewrite Ew at 1. rewrite DecodeHeader_spec by done. cbn [rbind of_codec H_Length].
  rewrite be_put_u16 by (unfold is_u16; lia). unfold MinPacketBytes, MaxPacketBytes. rewrite !Z.gtb_ltb.
  destruct (Z.ltb_spec (len (wire p)) 20); [lia|]. destruct (Z.ltb_spec 4096 (len (wire p))); [lia|].
  destruct (Z.ltb_spec (len (wire p) + len pad) (len (wire p))); [lia|]. cbn [orb].
  by rewrite slice_0, len_to_nat, take_app_length.
Qed.

Lemma wire_attrs p :
  len (Authenticator p) = 16 -> slice (wire p) HeaderSize (len (wire p)) = tlvs (Attributes p).
Proof.
  intros Ha. pose proof (slice_app_mid ([Code p; Identifier p] ++ put_u16 (HeaderSize + len (tlvs (Attributes p)))
    ++ Authenticator p) (tlvs (Attributes p)) []) as E.
  rewrite app_nil_r, !len_app, Ha, len_put_u16, !len_cons, len_nil in E.
  change (1 + (1 + 0) + (2 + 16)) with HeaderSize in E.
  rewrite len_wire by done. etransitivity; [|exact E]. f_equal.
Qed.

Lemma Decode_wire_attrs p :
  Packet_ok p -> Packet_fits DefaultBounds p ->
  RadiusAttribute.Decode (slice (wire p) HeaderSize (len (wire p))) 0 0 = Ok (Attributes p).
Proof.
  intros (_ & _ & Ha & _ & Hs) [Hb _]. rewrite wire_attrs by done. by apply Decode_tlvs.
Qed.

(** *** Zeroing in place *)

Lemma zero_octets_spec n P b R :
  length b = n -> zero_octets n (P ++ b ++ R) (len P) = P ++ replicate n 0 ++ R.
Proof.
  revert P b. induction n as [|n IH]; intros P [|x b] Hb; simpl in Hb; try lia; [done|].
  cbn [zero_octets]. simpl. rewrite set_at_app. specialize (IH (P ++ [0]) b ltac:(lia)).
  rewrite len_snoc, <- !app_assoc in IH. simpl in IH. by rewrite IH.
Qed.

(** One attribute at the loop's offset: the reads, and the zeroing. *)
Lemma loop_reads P a s :
  (len P + 2 <=? len (P ++ tlvs (a :: s))) = true
  /\ index (P ++ tlvs (a :: s)) (len P) = Raw_Type a
  /\ index (P ++ tlvs (a :: s)) (len P + 1) = 2 + len (Raw_Value a)
  /\ (2 + len (Raw_Value a) <? 2) || (len P + (2 + len (Raw_Value a)) >? len (P ++ tlvs (a :: s))) = false.
Proof.
  rewrite tlvs_cons. pose proof (len_nonneg (Raw_Value a)). pose proof (len_nonneg (tlvs s)).
  rewrite !len_app, len_tlv, Z.gtb_ltb. split_and!.
  - apply Z.leb_le. lia.
  - apply index_app_len.
  - apply index_app_len_1.
  - apply orb_false_iff. split; apply Z.ltb_ge; lia.
Qed.

Lemma zero_value P a s :
  len (Raw_Value a) = 16 ->
  zero_octets (Z.to_nat AuthenticatorSize) (P ++ tlvs (a :: s)) (len P + 2)
  = P ++ tlv (mkRaw (Raw_Type a) (make_bytes 16)) ++ tlvs s.
Proof.
  intros Ha. pose proof (zero_octets_spec 16 (P ++ [Raw_Type a; 2 + len (Raw_Value a)]) (Raw_Value a) (tlvs s)) as E.
  rewrite len_app, !len_cons, len_nil, <- !app_assoc in E. cbn [app] in E.
  replace (len P + (1 + (1 + 0))) with (len P + 2) in E by lia.
  change (Z.to_nat AuthenticatorSize) with 16%nat. rewrite tlvs_cons. unfold tlv at 1. cbn [app].
  rewrite E by (unfold len in Ha; lia). unfold tlv. simpl. by rewrite Ha.
Qed.

Lemma zeroAccountingMA_loop_spec fuel P s :
  (length (tlvs s) <= fuel)%nat ->
  zeroAccountingMA_loop fuel (P ++ tlvs s) (len P) = P ++ tlvs (map zero_ma s).
Proof.
  revert fuel P. induction s as [|a s IH]; intros fuel P Hf.
  - change (tlvs (map zero_ma [])) with (@nil Z). change (tlvs []) with (@nil Z). rewrite app_nil_r.
    destruct fuel; cbn [zeroAccountingMA_loop]; [done|].
    destruct (Z.leb_spec (len P + 2) (len P)); [lia|done].
  - rewrite tlvs_cons, length_app in Hf. destruct fuel as [|fuel]; [simpl in Hf; lia|].
    cbn [zeroAccountingMA_loop]. destruct (loop_reads P a s) as (-> & -> & -> & ->).
    assert (forall v, len v = len (Raw_Value a) ->
      zeroAccountingMA_loop fuel (P ++ tlv (mkRaw (Raw_Type a) v) ++ tlvs s) (len P + (2 + len (Raw_Value a)))
      = P ++ tlv (mkRaw (Raw_Type a) v) ++ tlvs (map zero_ma s)) as Hnext.
    { intros v Hv. rewrite !app_assoc. rewrite <- (IH fuel) by (simpl in Hf; lia). f_equal.
      rewrite len_app, len_tlv. simpl. lia. }
    rewrite map_cons, (tlvs_cons (zero_ma a)). unfold zero_ma at 1. unfold messageAuthenticatorWireLen.
    replace (2 + len (Raw_Value a) =? 18) with (len (Raw_Value a) =? 16)
      by (destruct (Z.eqb_spec (len (Raw_Value a)) 16), (Z.eqb_spec (2 + len (Raw_Value a)) 18); lia).
    destruct ((Raw_Type a =? TypeMessageAuthenticator) && (len (Raw_Value a) =? 16)) eqn:E.
    + bool_hyps. rewrite zero_value by done. apply Hnext. by rewrite len_make_bytes.
    + rewrite tlvs_cons. destruct a as [t v]. by apply Hnext.
Qed.

Lemma zeroAccountingMA_spec s : zeroAccountingMA (tlvs s) = tlvs (map zero_ma s).
Proof. apply (zeroAccountingMA_loop_spec _ [] s). done. Qed.

Definition ma_lengths_ok (s : RawSet) : Prop :=
  Forall (fun a => Raw_Type a = TypeMessageAuthenticator -> len (Raw_Value a) = 16) s.

Lemma zeroMA_loop_spec fuel P s cl :
  (length (tlvs s) <= fuel)%nat -> ma_lengths_ok s ->
  zeroMA_loop fuel (P ++ tlvs s) (len P) cl
  = Ok (P ++ tlvs (map zero_ma s), cl + len (AllOf s TypeMessageAuthenticator)).
Proof.
  revert fuel P cl. induction s as [|a s IH]; intros fuel P cl Hf Hm.
  - change (tlvs (map zero_ma [])) with (@nil Z). change (tlvs []) with (@nil Z).
    change (len (AllOf [] _)) with 0. rewrite app_nil_r, Z.add_0_r.
    destruct fuel; cbn [zeroMA_loop]; [done|].
    destruct (Z.leb_spec (len P + 2) (len P)); [lia|done].
  - apply Forall_cons_1 in Hm as [Ha Hm].
    rewrite tlvs_cons, length_app in Hf. destruct fuel as [|fuel]; [simpl in Hf; lia|].
    cbn [zeroMA_loop]. destruct (loop_reads P a s) as (-> & -> & -> & ->).
    assert (forall v cl, len v = len (Raw_Value a) ->
      zeroMA_loop fuel (P ++ tlv (mkRaw (Raw_Type a) v) ++ tlvs s) (len P + (2 + len (Raw_Value a))) cl
      = Ok (P ++ tlv (mkRaw (Raw_Type a) v) ++ tlvs (map zero_ma s),
            cl + len (AllOf s TypeMessageAuthenticator))) as Hnext.
    { intros v cl' Hv. rewrite !app_assoc. rewrite <- (IH fuel) by (done || (simpl in Hf; lia)). f_equal.
      rewrite len_app, len_tlv. simpl. lia. }
    rewrite map_cons, (tlvs_cons (zero_ma a)). unfold zero_ma at 1. unfold messageAuthenticatorWireLen.
    rewrite AllOf_cons. destruct (Z.eqb_spec (Raw_Type a) TypeMessageAuthenticator) as [E|E].
    + specialize (Ha E). rewrite Ha. cbn [Z.add Z.eqb Pos.add Pos.succ Pos.eqb negb andb].
      rewrite zero_value by done. rewrite Ha in Hnext. cbn [Z.add Pos.add Pos.succ] in Hnext.
      rewrite Hnext by by rewrite len_make_bytes. do 2 f_equal.
      rewrite len_app. change (len [a]) with 1. lia.
    + rewrite tlvs_cons. destruct a as [t v]. simpl. by apply Hnext.
Qed.

(** *** The validators *)

(** The one Message-Authenticator of a set, or why there is none. *)
Definition the_MA (s : RawSet) : result crypto_error bytes :=
  match AllOf s TypeMessageAuthenticator with
  | [] => Err ErrMissingMessageAuthenticator
  | [a] => if decide (len (Raw_Value a) = 16) then Ok (Raw_Value a) else Err ErrInvalidMessageAuthenticator
  | _ => Err ErrDuplicateMessageAuthenticator
  end.

Definition wire_header (p : Packet) : bytes :=
  [Code p; Identifier p] ++ put_u16 (HeaderSize + len (tlvs (Attributes p))) ++ Authenticator p.

Lemma wire_split p : wire p = wire_header p ++ tlvs (Attributes p).
Proof. unfold wire, wire_header. by rewrite <- !app_assoc. Qed.

Lemma len_wire_header p : len (Authenticator p) = 16 -> len (wire_header p) = 20.
Proof. intros Ha. unfold wire_header. rewrite !len_app, Ha, len_put_u16, !len_cons. done. Qed.

Lemma wire_zero_MA p : wire (zero_MA p) = wire_header p ++ tlvs (map zero_ma (Attributes p)).
Proof. rewrite wire_split. unfold wire_header. simpl. by rewrite len_tlvs_zero_ma. Qed.

Lemma the_MA_lengths s mac : the_MA s = Ok mac -> ma_lengths_ok s /\ len (AllOf s TypeMessageAuthenticator) = 1 /\ len mac = 16.
Proof.
  unfold the_MA, ma_lengths_ok. intros H. destruct (AllOf s _) as [|a [|]] eqn:E; [done| |done].
  destruct (decide _) as [Ha|]; [|done]. apply Ok_inj in H as <-. split_and!; [|done|done].
  apply list.Forall_forall. intros b Hb Ht. assert (b ∈ AllOf s TypeMessageAuthenticator) as Hin
    by by apply elem_of_AllOf. rewrite E in Hin. by apply list_elem_of_singleton in Hin as ->.
Qed.

Lemma eqb_check {E} a b (e : E) : (if negb (bytes_eqb a b) then Err e else Ok tt) = Ok tt <-> a = b.
Proof.
  destruct (bytes_eqb a b) eqn:Eq; cbn [negb].
  - apply bytes_eqb_true in Eq. done.
  - split; [discriminate|]. intros H. apply bytes_eqb_true in H. congruence.
Qed.

Section wire.
Context (p : Packet) (pad : bytes) (Hok : Packet_ok p) (Hfit : Packet_fits DefaultBounds p).

Lemma auth_len : len (Authenticator p) = 16.
Proof. by destruct Hok as (_ & _ & ? & _). Qed.

Lemma messageAuthenticatorValue_wire : messageAuthenticatorValue (wire p ++ pad) = the_MA (Attributes p).
Proof.
  unfold messageAuthenticatorValue. rewrite declaredHeader_wire by done. cbn [rbind].
  rewrite Decode_wire_attrs by done. cbn [rbind of_attr]. unfold the_MA.
  destruct (AllOf _ _) as [|a [|]]; [done| |done]. change AuthenticatorSize with 16.
  destruct (decide (len (Raw_Value a) = 16)) as [E|E]; destruct (Z.eqb_spec (len (Raw_Value a)) 16);
    cbn [negb]; try done. f_equal. by apply copy_bytes_full.
Qed.

Lemma packetWithZeroedMA_wire :
  packetWithZeroedMA (wire p ++ pad) = let! _ := the_MA (Attributes p) in Ok (wire (zero_MA p)).
Proof.
  unfold packetWithZeroedMA. rewrite declaredHeader_wire by done. cbn [rbind].
  rewrite Decode_wire_attrs by done. cbn [rbind of_attr].
  destruct (the_MA (Attributes p)) as [mac|e] eqn:E.
  - destruct (the_MA_lengths _ _ E) as (Hm & H1 & _). revert E. unfold the_MA.
    destruct (AllOf (Attributes p) _) as [|a [|]] eqn:Ea; [done| |done].
    destruct (decide _) as [Hl|]; [|done]. intros _. rewrite Hl. cbn [negb Z.eqb rbind AuthenticatorSize Pos.eqb].
    rewrite copy_bytes_full by (rewrite len_make_bytes by apply len_nonneg; done).
    pose proof (zeroMA_loop_spec (length (wire p)) (wire_header p) (Attributes p) 0) as Hz.
    rewrite <- wire_split, (len_wire_header _ auth_len), Ea, Z.add_0_l in Hz.
    change HeaderSize with 20. rewrite Hz; [|rewrite wire_split, length_app; lia|done].
    change (len [a]) with 1. cbn [rbind Z.eqb Pos.eqb negb]. by rewrite wire_zero_MA.
  - revert E. unfold the_MA. change AuthenticatorSize with 16.
    destruct (AllOf (Attributes p) _) as [|a [|]]; cbn [rbind]; try congruence.
    destruct (decide _); [done|]. destruct (Z.eqb_spec (len (Raw_Value a)) 16); [done|].
    cbn [negb rbind]. congruence.
Qed.

Lemma ValidateMessageAuthenticator_wire secret :
  ValidateMessageAuthenticator secret (wire p ++ pad) = Ok tt <->
  secret <> [] /\ the_MA (Attributes p) = Ok (hmac_md5 secret (wire (zero_MA p))).
Proof.
  unfold ValidateMessageAuthenticator, MessageAuthenticator.
  rewrite messageAuthenticatorValue_wire, packetWithZeroedMA_wire.
  destruct (Z.eqb_spec (len secret) 0) as [E|E].
  { apply len_zero in E. split; [done|]. by intros [? _]. }
  assert (secret <> []) by (intros ->; done).
  destruct (the_MA (Attributes p)) as [mac|e]; cbn [rbind]; [|split; [done|by intros [_ ?]]].
  unfold Equal, hmacMD5. rewrite eqb_check. split; [intros <-; done|]. by intros [_ ?%Ok_inj].
Qed.

Lemma clear_authenticator_wire q :
  len (Authenticator q) = 16 -> clear_authenticator (wire q) = wire (with_auth (make_bytes 16) q).
Proof.
  intros Ha. unfold clear_authenticator. change (Z.to_nat (HeaderSize - 4)) with 16%nat.
  pose proof (zero_octets_spec 16 ([Code q; Identifier q] ++ put_u16 (HeaderSize + len (tlvs (Attributes q))))
    (Authenticator q) (tlvs (Attributes q))) as E.
  rewrite len_app, len_put_u16 in E. change (len [Code q; Identifier q] + 2) with 4 in E.
  unfold wire at 1. rewrite <- !app_assoc in E. rewrite E by (unfold len in Ha; lia).
  unfold wire, with_auth. simpl. done.
Qed.

Lemma ValidateDynAuthMessageAuthenticator_wire secret :
  ValidateDynAuthMessageAuthenticator secret (wire p ++ pad) = Ok tt <->
  secret <> [] /\
  the_MA (Attributes p) = Ok (hmac_md5 secret (wire (zero_MA (with_auth (make_bytes 16) p)))).
Proof.
  unfold ValidateDynAuthMessageAuthenticator, DynAuthMessageAuthenticator.
  rewrite messageAuthenticatorValue_wire, packetWithZeroedMA_wire.
  assert (clear_authenticator (wire (zero_MA p)) = wire (zero_MA (with_auth (make_bytes 16) p))) as Ec
    by by rewrite (clear_authenticator_wire (zero_MA p) auth_len).
  destruct (the_MA (Attributes p)) as [mac|e]; cbn [rbind]; [|split; [done|by intros [_ ?]]].
  destruct (Z.eqb_spec (len secret) 0) as [E|E].
  { apply len_zero in E. split; [done|]. by intros [? _]. }
  assert (secret <> []) by (intros ->; done). cbn [rbind]. rewrite Ec.
  unfold Equal, hmacMD5. rewrite eqb_check. split; [intros <-; done|]. by intros [_ ?%Ok_inj].
Qed.

Lemma wire_first4 : slice (wire p) 0 4 = [Code p; Identifier p] ++ put_u16 (HeaderSize + len (tlvs (Attributes p))).
Proof. by rewrite slice_0. Qed.

Lemma ValidateAccountingRequestAuthenticator_wire secret :
  ValidateAccountingRequestAuthenticator secret (wire p ++ pad) = Ok tt <->
  secret <> [] /\ Authenticator p = md5 (wire (zero_MA (with_auth (make_bytes 16) p)) ++ secret).
Proof.
  unfold ValidateAccountingRequestAuthenticator, AccountingRequestAuthenticator.
  rewrite declaredHeader_wire by done. cbn [rbind H_Authenticator].
  rewrite (wire_attrs p auth_len), zeroAccountingMA_spec, wire_first4.
  destruct (Z.eqb_spec (len secret) 0) as [E|E].
  { apply len_zero in E. split; [done|]. by intros [? _]. }
  assert (secret <> []) by (intros ->; done). cbn [rbind].
  assert (md5Concat [[Code p; Identifier p] ++ put_u16 (HeaderSize + len (tlvs (Attributes p)));
    make_bytes 16; tlvs (map zero_ma (Attributes p)); secret]
    = md5 (wire (zero_MA (with_auth (make_bytes 16) p)) ++ secret)) as ->.
  { unfold md5Concat. apply (f_equal md5). rewrite wire_zero_MA. unfold wire_header, with_auth.
    cbn [Code Identifier Authenticator Attributes concat]. rewrite app_nil_r, <- !app_assoc. reflexivity. }
  unfold equal16. rewrite eqb_check. tauto.
Qed.

Lemma ValidateDynAuthRequestAuthenticator_wire secret :
  ValidateDynAuthRequestAuthenticator secret (wire p ++ pad) = Ok tt <->
  secret <> [] /\ Authenticator p = md5 (wire (with_auth (make_bytes 16) p) ++ secret).
Proof.
  unfold ValidateDynAuthRequestAuthenticator, DynAuthRequestAuthenticator.
  rewrite declaredHeader_wire by done. cbn [rbind H_Authenticator].
  rewrite (wire_attrs p auth_len), wire_first4.
  destruct (Z.eqb_spec (len secret) 0) as [E|E].
  { apply len_zero in E. split; [done|]. by intros [? _]. }
  assert (secret <> []) by (intros ->; done). cbn [rbind].
  assert (md5Concat [[Code p; Identifier p] ++ put_u16 (HeaderSize + len (tlvs (Attributes p)));
    make_bytes 16; tlvs (Attributes p); secret]
    = md5 (wire (with_auth (make_bytes 16) p) ++ secret)) as ->.
  { unfold md5Concat. apply (f_equal md5). rewrite wire_split. unfold wire_header, with_auth.
    cbn [Code Identifier Authenticator Attributes concat]. rewrite app_nil_r, <- !app_assoc. reflexivity. }
  unfold equal16. rewrite eqb_check. tauto.
Qed.
End wire.

Lemma ResponseAuthenticator_spec secret p reqAuth l :
  Packet_ok p -> Packet_fits DefaultBounds p -> secret <> [] -> l = 0 \/ l = len (wire p) ->
  ResponseAuthenticator secret (Code p) (Identifier p) l reqAuth (Attributes p)
  = Ok (md5 (wire (with_auth reqAuth p) ++ secret)).
Proof.
  intros (Hc & Hi & Ha & _ & Hs) [_ Hn] Hsec Hl. unfold ResponseAuthenticator.
  change (B_MaxPacketBytes (normalized DefaultBounds)) with 4096 in Hn.
  pose proof (len_nonneg (tlvs (Attributes p))). rewrite (len_wire p Ha) in Hl. unfold HeaderSize in *.
  destruct (Z.eqb_spec (len secret) 0) as [E|E]; [by apply len_zero in E|].
  rewrite Encode_ok by done. cbn [rbind of_attr].
  rewrite to_u16_id by (unfold is_u16; lia). rewrite to_u8_id by done.
  assert ((if l =? 0 then Ok (20 + len (tlvs (Attributes p)))
    else if negb (l =? 20 + len (tlvs (Attributes p))) then Err ErrLengthMismatch else Ok l)
    = @Ok crypto_error Z (20 + len (tlvs (Attributes p)))) as ->.
  { destruct Hl as [->| ->]; [done|]. destruct (Z.eqb_spec (20 + len (tlvs (Attributes p))) 0); [done|].
    by rewrite Z.eqb_refl. }
  cbn [rbind]. apply (f_equal Ok). unfold md5Concat. apply (f_equal md5). unfold wire, with_auth, HeaderSize.
  cbn [Code Identifier Authenticator Attributes concat]. rewrite app_nil_r, <- !app_assoc. reflexivity.
Qed.

Lemma ValidateResponseAuthenticator_wire secret p pad reqAuth :
  Packet_ok p -> Packet_fits DefaultBounds p ->
  ValidateResponseAuthenticator secret (wire p ++ pad) reqAuth = Ok tt <->
  secret <> [] /\ Authenticator p = md5 (wire (with_auth reqAuth p) ++ secret).
Proof.
  intros Hok Hfit. unfold ValidateResponseAuthenticator.
  rewrite declaredHeader_wire by done. cbn [rbind].
  rewrite Decode_wire_attrs by done. cbn [rbind of_attr H_Code H_Identifier H_Length H_Authenticator].
  destruct (decide (secret = [])) as [->|Hs].
  { split; [done|]. by intros [? _]. }
  rewrite ResponseAuthenticator_spec by auto. cbn [rbind].
  unfold equal16. rewrite eqb_check. tauto.
Qed.

(** C18. User-Password hiding and the five packet authenticators.  A password of
    at most 128 octets is hidden as the RFC 2865 chain of MD5 pads and comes back
    without its trailing NULs; everything else is refused ([password_hiding]).
    For every datagram that decodes to
    a packet [p] (padding after the declared length included) and every
    secret: each validator accepts exactly when the secret is non-empty and
    the checksum the RFC defines over the packet's wire form agrees - the
    HMAC-MD5 with the one 16-octet Message-Authenticator zeroed (and the
    header authenticator zeroed for Dynamic Authorization), or the MD5 with
    the header authenticator replaced by zeros or by the Request
    Authenticator, followed by the secret.  A missing, repeated or
    wrong-sized Message-Authenticator never validates; the in-place zeroing
    loops agree with zeroing attribute by attribute. *)
Theorem authenticator_checks (datagram secret : bytes) (p : Packet) :
  Forall is_u8 datagram -> RadiusCodec.Decode datagram = Ok p ->
  let zeros := make_bytes 16 in
  (forall reqAuth, password_hiding secret reqAuth)
  /\ (ValidateMessageAuthenticator secret datagram = Ok tt <->
     secret <> [] /\ the_MA (Attributes p) = Ok (hmac_md5 secret (wire (zero_MA p))))
  /\ (ValidateDynAuthMessageAuthenticator secret datagram = Ok tt <->
     secret <> [] /\ the_MA (Attributes p) = Ok (hmac_md5 secret (wire (zero_MA (with_auth zeros p)))))
  /\ (ValidateAccountingRequestAuthenticator secret datagram = Ok tt <->
     secret <> [] /\ Authenticator p = md5 (wire (zero_MA (with_auth zeros p)) ++ secret))
  /\ (ValidateDynAuthRequestAuthenticator secret datagram = Ok tt <->
     secret <> [] /\ Authenticator p = md5 (wire (with_auth zeros p) ++ secret))
  /\ (forall reqAuth, ValidateResponseAuthenticator secret datagram reqAuth = Ok tt <->
     secret <> [] /\ Authenticator p = md5 (wire (with_auth reqAuth p) ++ secret)).
Proof.
  intros Hd (Hok & Hfit & pad & ->)%DecodeBounded_Ok; [|done]. cbv zeta.
  split; [intros reqAuth; apply user_password_hiding|].
  split_and!; [by apply ValidateMessageAuthenticator_wire|by apply ValidateDynAuthMessageAuthenticator_wire
    |by apply ValidateAccountingRequestAuthenticator_wire|by apply ValidateDynAuthRequestAuthenticator_wire|].
  intros reqAuth. by apply ValidateResponseAuthenticator_wire.
Qed.

(** An Accounting-Request with the identifier 7 and no attributes. *)
Definition sample_request : bytes := [4; 7; 0; 20] ++ md5 ([4; 7; 0; 20] ++ make_bytes 16 ++ [115]).

Lemma authenticator_checks_witness :
  exists p, RadiusCodec.Decode sample_request = Ok p
  /\ (ValidateAccountingRequestAuthenticator [115] sample_request = Ok tt <->
      [115] <> [] /\ Authenticator p = md5 (wire (zero_MA (with_auth (make_bytes 16) p)) ++ [115]))
  /\ ValidateAccountingRequestAuthenticator [115] sample_request = Ok tt.
Proof.
  destruct (RadiusCodec.Decode sample_request) as [p|e] eqn:H; [|exfalso; vm_compute in H; discriminate].
  exists p. split; [reflexivity|].
  assert (Forall is_u8 sample_request) as Hd by decide_now.
  pose proof (authenticator_checks sample_request [115] p Hd H) as C. cbv zeta in C.
  split; [exact (proj1 (proj2 (proj2 (proj2 C))))|vm_compute; reflexivity].
Defined.
