(* ===== verification/RadiusReply.v ===== *)
(** * RADIUS server: integrity checks and signed replies

    [internal/radius/server]: [integrity.go], [reply.go], [reasons.go] and
    the stub handler of [stub.go].  A request carries the decoded packet, its
    declared octets and the endpoint's secret and flags; the fields the
    modelled code does not read are left out. *)

From stdpp Require Import strings.
From S2P Require Import Prelude Md5 RadiusAttribute RadiusCodec RadiusCrypto.

#[local] Open Scope Z_scope.

(** ** Signed replies (reply.go) *)

Definition SignResponse (secret : bytes) (code id : Z) (reqAuth : bytes) (rest : RawSet)
    : result crypto_error bytes :=
  if len secret =? 0 then Err ErrEmptySecret else
  let attrs := [mkRaw TypeMessageAuthenticator (make_bytes AuthenticatorSize)] ++ rest in
  let! wire := of_codec (RadiusCodec.Encode (mkPacket code id reqAuth attrs)) in
  let! mac := MessageAuthenticator secret wire in
  let off := HeaderSize in
  if (len wire <? off + 2 + AuthenticatorSize)
     || negb (index wire off =? TypeMessageAuthenticator) || negb (index wire (off + 1) =? 18)
  then Err ErrInvalidMessageAuthenticator else
  let wire := copy_range wire (off + 2) (off + 18) mac in
  (* attrs[0].Value = mac *)
  let attrs := match attrs with a :: attrs => mkRaw (Raw_Type a) mac :: attrs | [] => [] end in
  let! ra := ResponseAuthenticator secret code id 0 reqAuth attrs in
  Ok (copy_range wire 4 20 ra).

Definition CopyProxyState (in_ : RawSet) : RawSet :=
  let found := AllOf in_ TypeProxyState in
  if RawSet_Len found =? 0 then [] else RawSet_Clone found.

Definition ReplyAccess (secret : bytes) (code id : Z) (reqAuth : bytes) (reqAttrs policy : RawSet)
    : result crypto_error bytes :=
  let rest := CopyProxyState reqAttrs in
  let rest := if RawSet_Len policy >? 0 then rest ++ policy else rest in
  SignResponse secret code id reqAuth rest.

Definition RejectAccess (secret : bytes) (id : Z) (reqAuth : bytes) (reqAttrs : RawSet)
    : result crypto_error bytes :=
  ReplyAccess secret CodeAccessReject id reqAuth reqAttrs [].

(** ** Reasons (reasons.go) *)

Definition ReasonMalformedHeader : string := "discard_malformed_header".
Definition ReasonInvalidCode : string := "discard_invalid_code".
Definition ReasonInvalidDynAuthAuth : string := "discard_invalid_dynauth_request_authenticator".
Definition ReasonInvalidAcctAuth : string := "discard_invalid_accounting_request_authenticator".
Definition ReasonInvalidMA : string := "discard_invalid_message_authenticator".
Definition ReasonMissingMA : string := "discard_missing_message_authenticator".
Definition ReasonEAPWithoutMA : string := "discard_eap_without_ma".
Definition ReasonProxyStateWithoutMA : string := "discard_proxy_state_without_ma".
Definition ReasonOverload : string := "drop_overload".
Definition ReasonUnsupportedMethod : string := "reject_unsupported_method".
Definition ReasonOK : string := "ok".

(** ** Requests (stub.go) *)

(** [domain.ListenerRole]: the RADIUS roles, and every other string. *)
Inductive ListenerRole := RoleAccess | RoleAccounting | RoleDynamicAuthorization | RoleOther.

Record Request := mkRequest {
  Role : ListenerRole;
  Req_Packet : Packet;
  Declared : bytes;
  Secret : bytes;
  RequireMessageAuthenticator : bool;
  LimitProxyState : bool;
}.

(** [ActionDiscard] sends nothing; [ActionReply] carries the response. *)
Inductive Result :=
| ActionDiscard (reason : string)
| ActionReply (reason : string) (response : bytes).

(** ** Integrity (integrity.go): the empty string accepts. *)

Definition declaredPacket (in_ : Request) : bytes :=
  if len (Declared in_) >? 0 then Declared in_ else
  match RadiusCodec.Encode (Req_Packet in_) with Ok raw => raw | Err _ => [] end.

(** [n := attrs.AllOf(typ).Len()] *)
Definition count (in_ : Request) (typ : Z) : Z :=
  RawSet_Len (AllOf (Attributes (Req_Packet in_)) typ).

Definition checkDynAuthIntegrity (in_ : Request) : string :=
  let mas := count in_ TypeMessageAuthenticator in
  if mas >? 1 then ReasonInvalidMA else
  let declared := declaredPacket in_ in
  if len declared =? 0 then ReasonMalformedHeader else
  if mas =? 0 then ReasonMissingMA else
  if negb (is_ok (ValidateDynAuthMessageAuthenticator (Secret in_) declared)) then ReasonInvalidMA else
  if negb (is_ok (ValidateDynAuthRequestAuthenticator (Secret in_) declared)) then ReasonInvalidDynAuthAuth
  else "".

Definition checkAccessIntegrity (in_ : Request) : string :=
  let mas := count in_ TypeMessageAuthenticator in
  if mas >? 1 then ReasonInvalidMA else
  let declared := declaredPacket in_ in
  if len declared =? 0 then ReasonMalformedHeader else
  if (mas =? 1) && negb (is_ok (ValidateMessageAuthenticator (Secret in_) declared))
  then ReasonInvalidMA else
  let maValid := mas =? 1 in
  if (count in_ TypeEAPMessage >? 0) && negb maValid then ReasonEAPWithoutMA else
  if RequireMessageAuthenticator in_ && negb maValid then ReasonMissingMA else
  if LimitProxyState in_ && (count in_ TypeProxyState >? 0) && negb maValid
  then ReasonProxyStateWithoutMA else "".

Definition checkAccountingMA (in_ : Request) : string :=
  let mas := count in_ TypeMessageAuthenticator in
  if mas =? 0 then "" else
  if mas >? 1 then ReasonInvalidMA else
  let declared := declaredPacket in_ in
  if len declared =? 0 then ReasonMalformedHeader else
  if negb (is_ok (ValidateMessageAuthenticator (Secret in_) declared)) then ReasonInvalidMA else "".

Definition CheckIntegrity (in_ : Request) : string :=
  match Role in_ with
  | RoleAccess => checkAccessIntegrity in_
  | RoleAccounting => checkAccountingMA in_
  | RoleDynamicAuthorization => checkDynAuthIntegrity in_
  | RoleOther => ReasonInvalidCode
  end.

(** ** The stub handler (stub.go); [cancelled] is [ctx != nil && ctx.Err() != nil]. *)
Definition Stub_Handle (cancelled : bool) (in_ : Request) : Result :=
  let p := Req_Packet in_ in
  if cancelled then ActionDiscard ReasonOverload else
  match Role in_ with
  | RoleAccess =>
    if negb (Code p =? CodeAccessRequest) then ActionDiscard ReasonInvalidCode else
    match SignResponse (Secret in_) CodeAccessReject (Identifier p) (Authenticator p)
            (CopyProxyState (Attributes p)) with
    | Err _ => ActionDiscard ReasonMalformedHeader
    | Ok wire => ActionReply ReasonUnsupportedMethod wire
    end
  | RoleAccounting =>
    if negb (Code p =? CodeAccountingRequest) then ActionDiscard ReasonInvalidCode else
    if negb (is_ok (ValidateAccountingRequestAuthenticator (Secret in_) (Declared in_)))
    then ActionDiscard ReasonInvalidAcctAuth else
    match SignResponse (Secret in_) CodeAccountingResponse (Identifier p) (Authenticator p)
            (CopyProxyState (Attributes p)) with
    | Err _ => ActionDiscard ReasonMalformedHeader
    | Ok wire => ActionReply ReasonOK wire
    end
  | RoleDynamicAuthorization | RoleOther => ActionDiscard ReasonInvalidCode
  end.

(** ** Lemmas *)

Lemma RawSet_Clone_id s : RawSet_Clone s = s.
Proof.
  unfold RawSet_Clone. rewrite <- (map_id s) at 2. apply map_ext. intros [t v]. unfold Raw_Clone. simpl.
  destruct (Z.eqb_spec (len v) 0) as [E|E]; [apply len_zero in E; by subst|].
  f_equal. apply copy_bytes_full. by rewrite len_make_bytes by apply len_nonneg.
Qed.

Lemma CopyProxyState_AllOf s : CopyProxyState s = AllOf s TypeProxyState.
Proof.
  unfold CopyProxyState, RawSet_Len. destruct (Z.eqb_spec (len (AllOf s TypeProxyState)) 0) as [E|E].
  - apply len_zero in E. by rewrite E.
  - apply RawSet_Clone_id.
Qed.

(** The packet a reply should be: Message-Authenticator first, then [rest]. *)
Definition reply_packet (code id : Z) (auth mac : bytes) (rest : RawSet) : Packet :=
  mkPacket code id auth (mkRaw TypeMessageAuthenticator mac :: rest).

Lemma reply_packet_fits code id auth mac auth' mac' rest b :
  len mac = len mac' -> Packet_fits b (reply_packet code id auth mac rest) ->
  Packet_fits b (reply_packet code id auth' mac' rest).
Proof.
  intros H [[H1 H2] H3]. unfold Packet_fits, in_budget, reply_packet in *. cbn [Attributes] in *.
  rewrite len_cons, ValueBytes_cons, tlvs_cons, len_app, len_tlv in *. cbn [Raw_Value] in *.
  rewrite <- H. done.
Qed.

Lemma wire_reply code id auth mac rest :
  wire (reply_packet code id auth mac rest)
  = ([code; id] ++ put_u16 (HeaderSize + (2 + len mac + len (tlvs rest))))
    ++ auth ++ ([TypeMessageAuthenticator; 2 + len mac] ++ mac ++ tlvs rest).
Proof.
  unfold wire, reply_packet. cbn [Attributes Code Identifier Authenticator].
  rewrite tlvs_cons, len_app, len_tlv. cbn [Raw_Value]. rewrite <- app_assoc. unfold tlv.
  cbn [Raw_Type Raw_Value app]. done.
Qed.

Lemma zero_MA_reply code id auth mac rest :
  len mac = 16 -> AllOf rest TypeMessageAuthenticator = [] ->
  zero_MA (reply_packet code id auth mac rest) = reply_packet code id auth (make_bytes 16) rest.
Proof.
  intros Hm Hr. unfold zero_MA, reply_packet. cbn [Attributes Code Identifier Authenticator map].
  f_equal. f_equal.
  - unfold zero_ma. cbn [Raw_Type Raw_Value]. by rewrite Hm.
  - rewrite <- (map_id rest) at 2. apply map_ext_in. intros a Ha. unfold zero_ma.
    destruct (Z.eqb_spec (Raw_Type a) TypeMessageAuthenticator) as [E|E]; [|done].
    exfalso. assert (a ∈ AllOf rest TypeMessageAuthenticator) as Hin
      by (apply elem_of_AllOf; split; [by apply list_elem_of_In|done]).
    rewrite Hr in Hin. by apply elem_of_nil in Hin.
Qed.

Lemma the_MA_reply mac rest :
  len mac = 16 -> AllOf rest TypeMessageAuthenticator = [] ->
  the_MA (mkRaw TypeMessageAuthenticator mac :: rest) = Ok mac.
Proof.
  intros Hm Hr. unfold the_MA. rewrite AllOf_cons, Hr. cbn [Raw_Type Z.eqb TypeMessageAuthenticator Pos.eqb app Raw_Value].
  by rewrite decide_True.
Qed.

(** What the arguments of [SignResponse] are: octets, a 16-octet Request
    Authenticator and well-formed attributes. *)
Definition reply_args (code id : Z) (reqAuth : bytes) (rest : RawSet) : Prop :=
  is_u8 code /\ is_u8 id /\ len reqAuth = 16 /\ Forall is_u8 reqAuth /\ Forall Raw_ok rest.

Lemma reply_packet_ok code id reqAuth auth mac rest :
  reply_args code id reqAuth rest -> len auth = 16 -> Forall is_u8 auth ->
  len mac = 16 -> Forall is_u8 mac -> Packet_ok (reply_packet code id auth mac rest).
Proof.
  intros (Hc & Hi & _ & _ & Hs) Ha Hab Hm Hmb. unfold Packet_ok, reply_packet. cbn.
  split_and!; try done. constructor; [|done]. split_and!; [done|done|].
  unfold MaxValueLength. cbn. lia.
Qed.

Lemma zeros16_ok : len (make_bytes 16) = 16 /\ Forall is_u8 (make_bytes 16).
Proof. split; [done|]. apply Forall_replicate. done. Qed.

(** The signed packet: the Message-Authenticator over the request
    authenticator, then the Response Authenticator over the result. *)
Definition reply_mac (secret : bytes) (code id : Z) (reqAuth : bytes) (rest : RawSet) : bytes :=
  hmac_md5 secret (wire (reply_packet code id reqAuth (make_bytes 16) rest)).
Definition signed_packet (secret : bytes) (code id : Z) (reqAuth : bytes) (rest : RawSet) : Packet :=
  let mac := reply_mac secret code id reqAuth rest in
  reply_packet code id (md5 (wire (reply_packet code id reqAuth mac rest) ++ secret)) mac rest.

Section sign.
Context (secret : bytes) (code id : Z) (reqAuth : bytes) (rest : RawSet).
Context (Hsec : secret <> []) (Hargs : reply_args code id reqAuth rest).
Let p0 := reply_packet code id reqAuth (make_bytes 16) rest.

Lemma p0_ok : Packet_ok p0.
Proof.
  destruct zeros16_ok. destruct Hargs as (? & ? & ? & ? & ?). by eapply reply_packet_ok.
Qed.

Lemma SignResponse_encode :
  RadiusCodec.Encode p0 = if decide (Packet_fits DefaultBounds p0) then Ok (wire p0) else
    RadiusCodec.Encode p0.
Proof.
  destruct (decide _) as [H|H]; [|done]. unfold RadiusCodec.Encode.
  by rewrite (EncodeBounded_spec p0 DefaultBounds p0_ok), decide_True.
Qed.

Lemma copy_mac mac :
  len mac = 16 ->
  copy_range (wire p0) 22 38 mac = wire (reply_packet code id reqAuth mac rest).
Proof.
  intros Hm. unfold p0. rewrite !wire_reply, Hm. destruct zeros16_ok as [Hz _]. rewrite Hz.
  destruct Hargs as (_ & _ & Ha & _).
  set (h := [code; id] ++ put_u16 (HeaderSize + (2 + 16 + len (tlvs rest)))).
  pose proof (copy_range_app (h ++ reqAuth ++ [TypeMessageAuthenticator; 2 + 16]) (make_bytes 16) (tlvs rest) mac) as E.
  assert (len (h ++ reqAuth ++ [TypeMessageAuthenticator; 2 + 16]) = 22) as El
    by (unfold h; rewrite !len_app, Ha, len_put_u16; done).
  rewrite El, Hz, <- !app_assoc in E. by apply E.
Qed.

Lemma copy_auth auth mac :
  len auth = 16 ->
  copy_range (wire (reply_packet code id reqAuth mac rest)) 4 20 auth
  = wire (reply_packet code id auth mac rest).
Proof.
  intros Hm. rewrite !wire_reply. destruct Hargs as (_ & _ & Ha & _).
  set (h := [code; id] ++ put_u16 (HeaderSize + (2 + len mac + len (tlvs rest)))).
  pose proof (copy_range_app h reqAuth ([TypeMessageAuthenticator; 2 + len mac] ++ mac ++ tlvs rest) auth) as E.
  assert (len h = 4) as El by (unfold h; rewrite !len_app, len_put_u16; done).
  rewrite El, Ha in E. apply E. lia.
Qed.

Lemma SignResponse_ok :
  AllOf rest TypeMessageAuthenticator = [] -> Packet_fits DefaultBounds p0 ->
  SignResponse secret code id reqAuth rest = Ok (wire (signed_packet secret code id reqAuth rest)).
Proof.
  intros Hno Hfit. destruct zeros16_ok as [Hz _]. unfold SignResponse.
  destruct (Z.eqb_spec (len secret) 0) as [E|_]; [by apply len_zero in E|].
  change (mkPacket code id reqAuth _) with p0.
  rewrite SignResponse_encode, decide_True by done. cbn [rbind of_codec].
  unfold MessageAuthenticator. destruct (Z.eqb_spec (len secret) 0) as [E|_]; [by apply len_zero in E|].
  pose proof (packetWithZeroedMA_wire p0 [] p0_ok Hfit) as E. rewrite app_nil_r in E. rewrite E. clear E.
  assert (the_MA (Attributes p0) = Ok (make_bytes 16)) as -> by by apply the_MA_reply.
  assert (zero_MA p0 = p0) as -> by by apply zero_MA_reply.
  cbn [rbind]. change (hmacMD5 secret (wire p0)) with (reply_mac secret code id reqAuth rest).
  set (mac := reply_mac secret code id reqAuth rest).
  assert (len mac = 16) as Hm by apply len_hmac_md5.
  destruct Hargs as (Hc & Hi & Ha & Hab & Hs).
  assert (len (wire p0) = 38 + len (tlvs rest)) as Hl.
  { unfold p0. rewrite wire_reply, !len_app, Ha, Hz, len_put_u16. change (len [code; id]) with 2.
    change (len [TypeMessageAuthenticator; 2 + 16]) with 2. lia. }
  pose proof (len_nonneg (tlvs rest)).
  destruct (Z.ltb_spec (len (wire p0)) (HeaderSize + 2 + AuthenticatorSize)); [unfold HeaderSize, AuthenticatorSize in *; lia|].
  assert (index (wire p0) HeaderSize = TypeMessageAuthenticator /\ index (wire p0) (HeaderSize + 1) = 18) as [-> ->].
  { unfold p0. rewrite wire_reply, Hz, app_assoc.
    set (h := ([code; id] ++ put_u16 (HeaderSize + (2 + 16 + len (tlvs rest)))) ++ reqAuth).
    assert (len h = HeaderSize) as <- by (unfold h; rewrite !len_app, Ha, len_put_u16; done).
    split; [apply index_app_len|apply index_app_len_1]. }
  cbn [negb orb Z.eqb TypeMessageAuthenticator Pos.eqb].
  change (HeaderSize + 2) with 22. change (HeaderSize + 18) with 38. rewrite copy_mac by done.
  cbn [app Raw_Type].
  pose proof (ResponseAuthenticator_spec secret (reply_packet code id (make_bytes 16) mac rest) reqAuth 0) as Er.
  cbn [Code Identifier Attributes reply_packet] in Er. rewrite Er; [|..].
  - cbn [rbind]. unfold with_auth. cbn [Code Identifier Attributes reply_packet].
    fold (reply_packet code id reqAuth mac rest). rewrite copy_auth by apply len_md5. reflexivity.
  - eapply reply_packet_ok; [by split_and!|apply zeros16_ok|apply zeros16_ok|done|apply hmac_md5_range].
  - eapply reply_packet_fits; [|exact Hfit]. by rewrite Hm.
  - done.
  - by left.
Qed.

Lemma signed_packet_ok : Packet_ok (signed_packet secret code id reqAuth rest).
Proof.
  eapply reply_packet_ok; [exact Hargs|apply len_md5|apply md5_range|apply len_hmac_md5|apply hmac_md5_range].
Qed.

Lemma signed_packet_fits : Packet_fits DefaultBounds p0 -> Packet_fits DefaultBounds (signed_packet secret code id reqAuth rest).
Proof. apply reply_packet_fits. unfold reply_mac. by rewrite len_hmac_md5. Qed.

Lemma SignResponse_err :
  ~ (AllOf rest TypeMessageAuthenticator = [] /\ Packet_fits DefaultBounds p0) ->
  is_ok (SignResponse secret code id reqAuth rest) = false.
Proof.
  intros Hno. unfold SignResponse.
  destruct (Z.eqb_spec (len secret) 0) as [E|_]; [by apply len_zero in E|].
  change (mkPacket code id reqAuth _) with p0. unfold RadiusCodec.Encode.
  rewrite (EncodeBounded_spec p0 DefaultBounds p0_ok).
  destruct (decide (Packet_fits DefaultBounds p0)) as [Hfit|_].
  - cbn [rbind of_codec]. unfold MessageAuthenticator.
    destruct (Z.eqb_spec (len secret) 0) as [E|_]; [by apply len_zero in E|].
    pose proof (packetWithZeroedMA_wire p0 [] p0_ok Hfit) as E. rewrite app_nil_r in E. rewrite E. clear E.
    assert (the_MA (Attributes p0) = Err ErrDuplicateMessageAuthenticator) as ->; [|done].
    unfold the_MA, p0, reply_packet. cbn [Attributes]. rewrite AllOf_cons.
    cbn [Raw_Type Z.eqb TypeMessageAuthenticator Pos.eqb app].
    destruct (AllOf rest TypeMessageAuthenticator) eqn:Ea; [|done]. exfalso. apply Hno. by split.
  - repeat match goal with |- context [if ?c then _ else _] => destruct c end; done.
Qed.
End sign.

(** What [SignResponse] does with the arguments of a reply. *)
Definition signs_exactly (secret : bytes) (code id : Z) (reqAuth : bytes) (rest : RawSet) : Prop :=
  (is_ok (SignResponse secret code id reqAuth rest) = true <->
     secret <> [] /\ AllOf rest TypeMessageAuthenticator = []
     /\ Packet_fits DefaultBounds (reply_packet code id reqAuth (make_bytes 16) rest))
  /\ (forall w, SignResponse secret code id reqAuth rest = Ok w ->
      exists p mac, RadiusCodec.Decode w = Ok p
        /\ Code p = code /\ Identifier p = id
        /\ Attributes p = mkRaw TypeMessageAuthenticator mac :: rest
        /\ ValidateResponseAuthenticator secret w reqAuth = Ok tt
        /\ ValidateMessageAuthenticator secret (copy_range w 4 20 reqAuth) = Ok tt)
  /\ (forall reqAttrs policy, rest = AllOf reqAttrs TypeProxyState ++ policy ->
      ReplyAccess secret code id reqAuth reqAttrs policy = SignResponse secret code id reqAuth rest).

Lemma sign_response_exact (secret : bytes) (code id : Z) (reqAuth : bytes) (rest : RawSet) :
  reply_args code id reqAuth rest -> signs_exactly secret code id reqAuth rest.
Proof.
  intros Hargs. destruct (decide (secret = [])) as [->|Hsec].
  { split_and!; [split; [done|by intros [? _]]|done|done]. }
  split_and!.
  - split; [|intros (_ & Hno & Hfit); by rewrite SignResponse_ok].
    intros Hok. split; [done|].
    destruct (decide (AllOf rest TypeMessageAuthenticator = [] /\
      Packet_fits DefaultBounds (reply_packet code id reqAuth (make_bytes 16) rest))) as [|Hn]; [done|].
    by rewrite SignResponse_err in Hok.
  - intros w Hw.
    destruct (decide (AllOf rest TypeMessageAuthenticator = [] /\
      Packet_fits DefaultBounds (reply_packet code id reqAuth (make_bytes 16) rest))) as [[Hno Hfit]|Hn].
    2:{ pose proof (SignResponse_err secret code id reqAuth rest Hargs Hn) as E. by rewrite Hw in E. }
    rewrite SignResponse_ok in Hw by done. apply Ok_inj in Hw as <-.
    set (p := signed_packet secret code id reqAuth rest).
    assert (Packet_ok p) as Hpok by by apply signed_packet_ok.
    assert (Packet_fits DefaultBounds p) as Hpfit by by apply signed_packet_fits.
    set (mac := reply_mac secret code id reqAuth rest).
    assert (len mac = 16) as Hm by apply len_hmac_md5.
    exists p, mac. split_and!; [| done | done | done | | ].
    + pose proof (DecodeBounded_wire p DefaultBounds [] Hpok Hpfit) as E. by rewrite app_nil_r in E.
    + pose proof (ValidateResponseAuthenticator_wire secret p [] reqAuth Hpok Hpfit) as E.
      rewrite app_nil_r in E. apply E. split; [done|]. reflexivity.
    + set (q := reply_packet code id reqAuth mac rest).
      assert (len (md5 (wire q ++ secret)) = 16) as Hla by apply len_md5.
      assert (copy_range (wire p) 4 20 reqAuth = wire q) as ->.
      { assert (Hargs' : reply_args code id (md5 (wire q ++ secret)) rest).
        { destruct Hargs as (? & ? & ? & ? & ?). split_and!; try done. apply md5_range. }
        apply (copy_auth code id (md5 (wire q ++ secret)) rest Hargs'). by destruct Hargs as (_ & _ & ? & _). }
      assert (Packet_ok q) as Hqok.
      { pose proof Hargs as (? & ? & ? & ? & ?).
        eapply reply_packet_ok; [exact Hargs|done|done|done|apply hmac_md5_range]. }
      assert (Packet_fits DefaultBounds q) as Hqfit by (eapply reply_packet_fits; [|exact Hfit]; by rewrite Hm).
      pose proof (ValidateMessageAuthenticator_wire q [] Hqok Hqfit secret) as E.
      rewrite app_nil_r in E. apply E. split; [done|].
      unfold q. rewrite (zero_MA_reply code id reqAuth mac rest) by done. by apply the_MA_reply.
  - intros reqAttrs policy ->. unfold ReplyAccess. rewrite CopyProxyState_AllOf. unfold RawSet_Len.
    rewrite Z.gtb_ltb. destruct (Z.ltb_spec 0 (len policy)) as [|E]; [done|].
    assert (policy = []) as -> by (apply len_zero; pose proof (len_nonneg policy); lia). by rewrite app_nil_r.
Qed.

#[local] Instance reply_args_dec code id reqAuth rest : Decision (reply_args code id reqAuth rest).
Proof. unfold reply_args. apply _. Defined.

(** ** Integrity *)

(** What the listener hands over: the declared octets decode to the packet. *)
Definition request_ok (in_ : Request) : Prop :=
  Forall is_u8 (Declared in_) /\ RadiusCodec.Decode (Declared in_) = Ok (Req_Packet in_).

Lemma request_declared in_ :
  request_ok in_ ->
  declaredPacket in_ = Declared in_ /\ 0 < len (Declared in_)
  /\ Packet_ok (Req_Packet in_) /\ Packet_fits DefaultBounds (Req_Packet in_)
  /\ exists pad, Declared in_ = wire (Req_Packet in_) ++ pad.
Proof.
  intros [Hb Hd]. apply DecodeBounded_Ok in Hd as (Hok & Hfit & pad & E); [|done].
  assert (0 < len (Declared in_)) as Hl.
  { rewrite E, len_app. destruct Hok as (_ & _ & Ha & _). rewrite (len_wire _ Ha). unfold HeaderSize.
    pose proof (len_nonneg pad). pose proof (len_nonneg (tlvs (Attributes (Req_Packet in_)))). lia. }
  split_and!; [|done|done|done|by exists pad].
  unfold declaredPacket. rewrite Z.gtb_ltb. by destruct (Z.ltb_spec 0 (len (Declared in_))); [|lia].
Qed.

(** Exactly one Message-Authenticator, of sixteen octets, and it verifies. *)
Definition ma_valid (in_ : Request) : Prop :=
  Secret in_ <> [] /\
  the_MA (Attributes (Req_Packet in_)) = Ok (hmac_md5 (Secret in_) (wire (zero_MA (Req_Packet in_)))).

Definition has (in_ : Request) (typ : Z) : Prop := AllOf (Attributes (Req_Packet in_)) typ <> [].

Lemma count_pos in_ t : (count in_ t >? 0) = true <-> has in_ t.
Proof.
  unfold count, RawSet_Len, has. rewrite Z.gtb_ltb, Z.ltb_lt. pose proof (len_nonneg (AllOf (Attributes (Req_Packet in_)) t)).
  pose proof (len_zero (AllOf (Attributes (Req_Packet in_)) t)).
  split; [intros ? E; rewrite E in *; vm_compute in H1; done|intros Hne].
  assert (len (AllOf (Attributes (Req_Packet in_)) t) <> 0) by tauto. lia.
Qed.

Lemma count_zero in_ t : count in_ t = 0 <-> ~ has in_ t.
Proof. unfold count, RawSet_Len, has. rewrite len_zero. destruct (AllOf _ _); naive_solver. Qed.

Lemma the_MA_count in_ mac : the_MA (Attributes (Req_Packet in_)) = Ok mac -> count in_ TypeMessageAuthenticator = 1.
Proof. intros (_ & H & _)%the_MA_lengths. exact H. Qed.

Lemma is_ok_unit {E} (m : result E unit) : is_ok m = true <-> m = Ok tt.
Proof. destruct m as [[]|]; simpl; naive_solver. Qed.

Lemma ValidateMA_request in_ :
  request_ok in_ ->
  is_ok (ValidateMessageAuthenticator (Secret in_) (Declared in_)) = true <-> ma_valid in_.
Proof.
  intros (_ & _ & Hok & Hfit & pad & E)%request_declared. rewrite is_ok_unit, E.
  by apply ValidateMessageAuthenticator_wire.
Qed.

Lemma access_integrity in_ :
  request_ok in_ ->
  checkAccessIntegrity in_ = ""%string <->
  (has in_ TypeMessageAuthenticator -> ma_valid in_)
  /\ (has in_ TypeEAPMessage \/ RequireMessageAuthenticator in_ = true
      \/ (LimitProxyState in_ = true /\ has in_ TypeProxyState) -> ma_valid in_).
Proof.
  intros Hr. pose proof (ValidateMA_request in_ Hr) as Hv.
  pose proof (request_declared in_ Hr) as (Ed & Hl & _). unfold checkAccessIntegrity. rewrite Ed.
  pose proof (count_pos in_ TypeEAPMessage) as He. pose proof (count_pos in_ TypeProxyState) as Hp.
  pose proof (count_zero in_ TypeMessageAuthenticator) as Hm0.
  assert (ma_valid in_ -> count in_ TypeMessageAuthenticator = 1) as Hm1 by (intros [_ H]; by eapply the_MA_count).
  rewrite Z.gtb_ltb. destruct (Z.ltb_spec 1 (count in_ TypeMessageAuthenticator)).
  { split; [done|]. intros [H1 _]. exfalso.
    assert (has in_ TypeMessageAuthenticator) as Hh by (apply count_pos; rewrite Z.gtb_ltb; apply Z.ltb_lt; lia).
    specialize (Hm1 (H1 Hh)). lia. }
  destruct (Z.eqb_spec (len (Declared in_)) 0); [lia|].
  destruct (Z.eqb_spec (count in_ TypeMessageAuthenticator) 1) as [E1|E1]; cbn [andb negb].
  - rewrite !andb_false_r. assert (has in_ TypeMessageAuthenticator) as Hh
      by (apply count_pos; rewrite Z.gtb_ltb; apply Z.ltb_lt; lia).
    destruct (is_ok _); cbn [negb]; [tauto|]. split; [done|]. intros [H1 _].
    apply H1, Hv in Hh. done.
  - rewrite !andb_true_r. assert (~ has in_ TypeMessageAuthenticator) as Hh.
    { apply Hm0. pose proof (len_nonneg (AllOf (Attributes (Req_Packet in_)) TypeMessageAuthenticator)).
      unfold count, RawSet_Len in *. lia. }
    assert (~ ma_valid in_) as Hnv by tauto.
    destruct (count in_ TypeEAPMessage >? 0); [split; [done|tauto]|].
    destruct (RequireMessageAuthenticator in_); [split; [done|tauto]|].
    destruct (LimitProxyState in_); simpl; [|split; [|done]; intros _; split; [tauto|]; intuition congruence].
    destruct (count in_ TypeProxyState >? 0); [split; [done|tauto]|].
    split; [|done]. intros _. split; [tauto|]. intuition congruence.
Qed.

Lemma accounting_integrity in_ :
  request_ok in_ ->
  checkAccountingMA in_ = ""%string <-> (has in_ TypeMessageAuthenticator -> ma_valid in_).
Proof.
  intros Hr. pose proof (ValidateMA_request in_ Hr) as Hv.
  pose proof (request_declared in_ Hr) as (Ed & Hl & _). unfold checkAccountingMA. rewrite Ed.
  assert (ma_valid in_ -> count in_ TypeMessageAuthenticator = 1) as Hm1 by (intros [_ H]; by eapply the_MA_count).
  destruct (Z.eqb_spec (count in_ TypeMessageAuthenticator) 0) as [E0|E0].
  { apply count_zero in E0. tauto. }
  assert (has in_ TypeMessageAuthenticator) as Hh by (intros E; apply E0; unfold count; by rewrite E).
  rewrite Z.gtb_ltb. destruct (Z.ltb_spec 1 (count in_ TypeMessageAuthenticator)).
  { split; [done|]. intros H1. specialize (Hm1 (H1 Hh)). lia. }
  destruct (Z.eqb_spec (len (Declared in_)) 0); [lia|].
  destruct (is_ok _); cbn [negb]; [tauto|]. split; [done|]. intros H1. apply H1, Hv in Hh. done.
Qed.

Lemma dynauth_integrity in_ :
  request_ok in_ ->
  checkDynAuthIntegrity in_ = ""%string <->
  Secret in_ <> []
  /\ the_MA (Attributes (Req_Packet in_)) =
       Ok (hmac_md5 (Secret in_) (wire (zero_MA (with_auth (make_bytes 16) (Req_Packet in_)))))
  /\ Authenticator (Req_Packet in_) =
       md5 (wire (with_auth (make_bytes 16) (Req_Packet in_)) ++ Secret in_).
Proof.
  intros Hr. pose proof (request_declared in_ Hr) as (Ed & Hl & Hok & Hfit & pad & E).
  unfold checkDynAuthIntegrity. rewrite Ed.
  pose proof (ValidateDynAuthMessageAuthenticator_wire _ pad Hok Hfit (Secret in_)) as Hv.
  pose proof (ValidateDynAuthRequestAuthenticator_wire _ pad Hok Hfit (Secret in_)) as Hq.
  rewrite <- E, <- is_ok_unit in Hv, Hq.
  rewrite Z.gtb_ltb. destruct (Z.ltb_spec 1 (count in_ TypeMessageAuthenticator)).
  { split; [done|]. intros (_ & H1%the_MA_count & _). lia. }
  destruct (Z.eqb_spec (len (Declared in_)) 0); [lia|].
  destruct (Z.eqb_spec (count in_ TypeMessageAuthenticator) 0).
  { split; [done|]. intros (_ & H1%the_MA_count & _). lia. }
  destruct (is_ok (ValidateDynAuthMessageAuthenticator _ _)); cbn [negb].
  - destruct (is_ok (ValidateDynAuthRequestAuthenticator _ _)); cbn [negb]; [tauto|].
    split; [done|]. intros (H1 & H2 & H3). assert (false = true) by (apply Hq; done). done.
  - split; [done|]. intros (H1 & H2 & H3). assert (false = true) by (apply Hv; done). done.
Qed.

(** What the endpoint's policy asks of a request. *)
Definition ma_policy (in_ : Request) : Prop :=
  match Role in_ with
  | RoleAccess =>
    (has in_ TypeMessageAuthenticator -> ma_valid in_)
    /\ (has in_ TypeEAPMessage \/ RequireMessageAuthenticator in_ = true
        \/ (LimitProxyState in_ = true /\ has in_ TypeProxyState) -> ma_valid in_)
  | RoleAccounting => has in_ TypeMessageAuthenticator -> ma_valid in_
  | RoleDynamicAuthorization =>
    Secret in_ <> []
    /\ the_MA (Attributes (Req_Packet in_)) =
         Ok (hmac_md5 (Secret in_) (wire (zero_MA (with_auth (make_bytes 16) (Req_Packet in_)))))
    /\ Authenticator (Req_Packet in_) =
         md5 (wire (with_auth (make_bytes 16) (Req_Packet in_)) ++ Secret in_)
  | RoleOther => False
  end.

Lemma CheckIntegrity_policy in_ : request_ok in_ -> CheckIntegrity in_ = ""%string <-> ma_policy in_.
Proof.
  intros Hr. unfold CheckIntegrity, ma_policy. destruct (Role in_).
  - by apply access_integrity.
  - by apply accounting_integrity.
  - by apply dynauth_integrity.
  - by split.
Qed.

(** The Message-Authenticator policy. *)
Definition policy_allows (in_ : Request) : Prop :=
  match Role in_ with
  | RoleAccess =>
    (has in_ TypeMessageAuthenticator -> ma_valid in_)
    /\ (has in_ TypeEAPMessage \/ RequireMessageAuthenticator in_ = true
        \/ (LimitProxyState in_ = true /\ has in_ TypeProxyState) -> ma_valid in_)
  | RoleAccounting => has in_ TypeMessageAuthenticator -> ma_valid in_
  | RoleDynamicAuthorization =>
    Secret in_ <> []
    /\ the_MA (Attributes (Req_Packet in_)) =
         Ok (hmac_md5 (Secret in_) (wire (zero_MA (with_auth (make_bytes 16) (Req_Packet in_)))))
    /\ Authenticator (Req_Packet in_) =
         md5 (wire (with_auth (make_bytes 16) (Req_Packet in_)) ++ Secret in_)
  | RoleOther => False
  end.

(** C19. Signed replies.  For any secret, Request Authenticator and reply
    attributes of the Go types, [SignResponse] succeeds exactly when the
    secret is non-empty, the attributes hold no Message-Authenticator and
    the reply fits in 4096 octets and 256 attributes.  The octets then decode
    to a packet whose first attribute is the Message-Authenticator and whose
    other attributes are the given ones, in order; the Response Authenticator
    validates against the Request Authenticator, and the Message-Authenticator
    validates once the header carries the Request Authenticator again, as
    RFC 3579 has the client check it.  A reply built for a request repeats
    its Proxy-State attributes unmodified before the policy attributes.
    For a request whose declared octets
    decode to its packet, [CheckIntegrity] accepts (returns no discard
    reason) exactly when: on an access endpoint, any Message-Authenticator
    present is the only one and verifies, and one is present when the packet
    carries EAP-Message, when the endpoint requires it, or when it limits
    Proxy-State and the packet carries one; on an accounting endpoint, any
    Message-Authenticator present is the only one and verifies; on a
    Dynamic-Authorization endpoint, one is present and verifies and the
    request checksum verifies too.  No other role is accepted. *)
Theorem signed_reply :
  (forall secret code id reqAuth rest, reply_args code id reqAuth rest -> signs_exactly secret code id reqAuth rest)
  /\ (forall in_, request_ok in_ -> CheckIntegrity in_ = ""%string <-> policy_allows in_).
Proof. split; [exact sign_response_exact|exact CheckIntegrity_policy]. Qed.

(** An Access-Request with a Proxy-State and no Message-Authenticator. *)
Definition bare_request (limit : bool) : Request :=
  mkRequest RoleAccess (mkPacket 1 7 (replicate 16 1) [mkRaw TypeProxyState [9; 9]])
    ([1; 7; 0; 24] ++ replicate 16 1 ++ [33; 4; 9; 9]) [115] false limit.

Lemma signed_reply_witness :
  reply_args CodeAccessReject 7 (replicate 16 1) [mkRaw TypeProxyState [9; 9]]
  /\ signs_exactly [115] CodeAccessReject 7 (replicate 16 1) [mkRaw TypeProxyState [9; 9]]
  /\ is_ok (SignResponse [115] CodeAccessReject 7 (replicate 16 1) [mkRaw TypeProxyState [9; 9]]) = true
  /\ request_ok (bare_request false)
  /\ (CheckIntegrity (bare_request false) = ""%string <-> policy_allows (bare_request false))
  /\ CheckIntegrity (bare_request false) = ""%string
  /\ CheckIntegrity (bare_request true) = ReasonProxyStateWithoutMA.
Proof.
  assert (reply_args CodeAccessReject 7 (replicate 16 1) [mkRaw TypeProxyState [9; 9]]) as H by decide_now.
  assert (request_ok (bare_request false)) as H' by (split; [decide_now|vm_compute; reflexivity]).
  split; [exact H|]. split; [exact (proj1 signed_reply _ _ _ _ _ H)|]. split; [vm_compute; reflexivity|].
  split; [exact H'|]. split; [exact (proj2 signed_reply _ H')|]. split; reflexivity.
Defined.
