(* ===== verification/Sha256.v ===== *)
(** SHA-256 as the Go standard library computes it (crypto/sha256),
    executable, with the FIPS 180-4 vectors checked.  The retransmission
    cache and the challenge store key their tables with it. *)

From S2P Require Import Prelude Md5.

Definition sha256_Size : Z := 32.
Definition sha256_BlockSize : nat := 64.

Definition rotr32 (x n : Z) : Z := Z.lor (Z.shiftr x n) (to_u32 (Z.shiftl x (32 - n))).

(** Big-endian octets and words. *)
Fixpoint be_bytes (n : nat) (x : Z) : bytes :=
  match n with O => [] | S n' => to_u8 (Z.shiftr x (8 * Z.of_nat n')) :: be_bytes n' x end.
Definition be_word (l : bytes) : Z := fold_left (fun acc b => 256 * acc + b) l 0.

Definition sha256_K : list Z :=
  [1116352408; 1899447441; 3049323471; 3921009573; 961987163; 1508970993; 2453635748; 2870763221;
   3624381080; 310598401; 607225278; 1426881987; 1925078388; 2162078206; 2614888103; 3248222580;
   3835390401; 4022224774; 264347078; 604807628; 770255983; 1249150122; 1555081692; 1996064986;
   2554220882; 2821834349; 2952996808; 3210313671; 3336571891; 3584528711; 113926993; 338241895;
   666307205; 773529912; 1294757372; 1396182291; 1695183700; 1986661051; 2177026350; 2456956037;
   2730485921; 2820302411; 3259730800; 3345764771; 3516065817; 3600352804; 4094571909; 275423344;
   430227734; 506948616; 659060556; 883997877; 958139571; 1322822218; 1537002063; 1747873779;
   1955562222; 2024104815; 2227730452; 2361852424; 2428436474; 2756734187; 3204031479; 3329325298].

(** The message schedule: word [t] from words [t-2], [t-7], [t-15], [t-16];
    the list is kept newest first. *)
Definition sha256_next (w : list Z) : Z :=
  let w2 := nth 1 w 0 in
  let w7 := nth 6 w 0 in
  let w15 := nth 14 w 0 in
  let w16 := nth 15 w 0 in
  let s0 := Z.lxor (Z.lxor (rotr32 w15 7) (rotr32 w15 18)) (Z.shiftr w15 3) in
  let s1 := Z.lxor (Z.lxor (rotr32 w2 17) (rotr32 w2 19)) (Z.shiftr w2 10) in
  add32 (add32 w16 s0) (add32 w7 s1).
Fixpoint sha256_extend (n : nat) (w : list Z) : list Z :=
  match n with O => w | S n' => sha256_extend n' (sha256_next w :: w) end.
Definition sha256_schedule (chunk : bytes) : list Z :=
  rev (sha256_extend 48 (rev (map be_word (chunks 16 4 chunk)))).

Definition sha256_init : list Z := [1779033703; 3144134277; 1013904242; 2773480762; 1359893119; 2600822924; 528734635; 1541459225].

Definition sha256_round (st : list Z) (kw : Z * Z) : list Z :=
  match st with
  | [a; b; c; d; e; f; g; h] =>
    let s1 := Z.lxor (Z.lxor (rotr32 e 6) (rotr32 e 11)) (rotr32 e 25) in
    let ch := Z.lxor (Z.land e f) (Z.land (not32 e) g) in
    let t1 := add32 (add32 (add32 h s1) (add32 ch (fst kw))) (snd kw) in
    let s0 := Z.lxor (Z.lxor (rotr32 a 2) (rotr32 a 13)) (rotr32 a 22) in
    let maj := Z.lxor (Z.lxor (Z.land a b) (Z.land a c)) (Z.land b c) in
    let t2 := add32 s0 maj in
    [add32 t1 t2; a; b; c; add32 d t1; e; f; g]
  | _ => st
  end.

Definition sha256_block (st : list Z) (chunk : bytes) : list Z :=
  zip_with add32 st (fold_left sha256_round (zip sha256_K (sha256_schedule chunk)) st).

Definition sha256_pad (msg : bytes) : bytes :=
  msg ++ [128] ++ replicate (Z.to_nat ((55 - len msg) mod 64)) 0 ++ be_bytes 8 (8 * len msg).

(** [sha256.Sum256] *)
Definition sha256 (msg : bytes) : bytes :=
  let padded := sha256_pad msg in
  concat (map (be_bytes 4)
    (fold_left sha256_block (chunks (length padded) sha256_BlockSize padded) sha256_init)).

(** ** FIPS 180-4 test vectors *)

Example sha256_empty : sha256 [] =
  [227; 176; 196; 66; 152; 252; 28; 20; 154; 251; 244; 200; 153; 111; 185; 36; 39; 174; 65; 228; 100; 155; 147; 76; 164; 149; 153; 27; 120; 82; 184; 85].
Proof. vm_compute. reflexivity. Qed.

Example sha256_abc : sha256 [97; 98; 99] =
  [186; 120; 22; 191; 143; 1; 207; 234; 65; 65; 64; 222; 93; 174; 34; 35; 176; 3; 97; 163; 150; 23; 122; 156; 180; 16; 255; 97; 242; 0; 21; 173].
Proof. vm_compute. reflexivity. Qed.

Example sha256_two_blocks : sha256
  [97; 98; 99; 100; 98; 99; 100; 101; 99; 100; 101; 102; 100; 101; 102; 103; 101; 102; 103; 104; 102; 103; 104; 105; 103; 104; 105; 106; 104; 105; 106; 107; 105; 106; 107; 108; 106; 107; 108; 109; 107; 108; 109; 110; 108; 109; 110; 111; 109; 110; 111; 112; 110; 111; 112; 113] =
  [36; 141; 106; 97; 210; 6; 56; 184; 229; 192; 38; 147; 12; 62; 96; 57; 163; 60; 228; 89; 100; 255; 33; 103; 246; 236; 237; 212; 25; 219; 6; 193].
Proof. vm_compute. reflexivity. Qed.


(** ** The digest's length *)

Lemma sha256_round_length st kw : length st = 8%nat -> length (sha256_round st kw) = 8%nat.
Proof. intros H. do 9 (destruct st as [|? st]; [done|]). done. Qed.
Lemma sha256_block_length st chunk : length st = 8%nat -> length (sha256_block st chunk) = 8%nat.
Proof.
  intros H. unfold sha256_block. rewrite length_zip_with. set (st' := fold_left _ _ _).
  assert (length st' = 8%nat) as ->; [|by rewrite H]. unfold st'. clear st'. generalize (zip sha256_K (sha256_schedule chunk)) as l. intros l.
  revert st H. induction l as [|kw l IH]; intros st H; [done|]. cbn [fold_left]. by apply IH, sha256_round_length.
Qed.
Lemma be_bytes_length n x : length (be_bytes n x) = n.
Proof. induction n as [|n IH]; [done|]. cbn [be_bytes length]. by f_equal. Qed.
Lemma len_sha256 msg : len (sha256 msg) = sha256_Size.
Proof.
  unfold sha256. set (cs := chunks _ _ _).
  assert (forall st, length st = 8%nat -> length (fold_left sha256_block cs st) = 8%nat) as Hf.
  { induction cs as [|c cs IH]; intros st H; [done|]. cbn [fold_left]. by apply IH, sha256_block_length. }
  specialize (Hf sha256_init eq_refl). unfold len. revert Hf. generalize (fold_left sha256_block cs sha256_init) as st. intros st Hst.
  assert (length (concat (map (be_bytes 4) st)) = 4 * length st)%nat as ->; [|by rewrite Hst].
  clear. induction st as [|w st IH]; [done|]. cbn [map concat]. rewrite length_app, be_bytes_length, IH. cbn [length]. lia.
Qed.

#[global] Opaque sha256.
