(* ===== verification/Sha1Des.v ===== *)
(** SHA-1 and DES as the Go standard library computes them (crypto/sha1,
    crypto/des), executable, with published vectors checked, and the runes and
    UTF-16 units of a Go string.  The MS-CHAP responses use them. *)

From S2P Require Import Prelude Md5 Sha256.

#[local] Open Scope Z_scope.

(** ** SHA-1 *)

(** The schedule, newest word first. *)
Definition sha1_next (w : list Z) : Z :=
  rotl32 (Z.lxor (Z.lxor (nth 2 w 0) (nth 7 w 0)) (Z.lxor (nth 13 w 0) (nth 15 w 0))) 1.
Fixpoint sha1_extend (n : nat) (w : list Z) : list Z :=
  match n with O => w | S n' => sha1_extend n' (sha1_next w :: w) end.
Definition sha1_schedule (chunk : bytes) : list Z := rev (sha1_extend 64 (rev (map be_word (chunks 16 4 chunk)))).

(** The function and constant of round [t]. *)
Definition sha1_f (t b c d : Z) : Z :=
  if t <? 20 then Z.lor (Z.land b c) (Z.land (not32 b) d)
  else if t <? 40 then Z.lxor (Z.lxor b c) d
  else if t <? 60 then Z.lor (Z.lor (Z.land b c) (Z.land b d)) (Z.land c d)
  else Z.lxor (Z.lxor b c) d.
Definition sha1_K (t : Z) : Z :=
  if t <? 20 then 1518500249 else if t <? 40 then 1859775393 else if t <? 60 then 2400959708 else 3395469782.

Definition sha1_round (st : list Z) (tw : Z * Z) : list Z :=
  match st with
  | [a; b; c; d; e] =>
    [add32 (add32 (rotl32 a 5) (sha1_f (fst tw) b c d)) (add32 (add32 e (sha1_K (fst tw))) (snd tw)); a; rotl32 b 30; c; d]
  | _ => st
  end.
Definition sha1_block (st : list Z) (chunk : bytes) : list Z :=
  zip_with add32 st (fold_left sha1_round (zip (map Z.of_nat (seq 0 80)) (sha1_schedule chunk)) st).
Definition sha1_init : list Z := [1732584193; 4023233417; 2562383102; 271733878; 3285377520].

(** [sha1.Sum] *)
Definition sha1 (msg : bytes) : bytes :=
  let padded := sha256_pad msg in
  concat (map (be_bytes 4) (fold_left sha1_block (chunks (length padded) 64 padded) sha1_init)).

Example sha1_empty : sha1 [] =
  [218; 57; 163; 238; 94; 107; 75; 13; 50; 85; 191; 239; 149; 96; 24; 144; 175; 216; 7; 9].
Proof. vm_compute. reflexivity. Qed.
Example sha1_abc : sha1 [97; 98; 99] =
  [169; 153; 62; 54; 71; 6; 129; 106; 186; 62; 37; 113; 120; 80; 194; 108; 156; 208; 216; 157].
Proof. vm_compute. reflexivity. Qed.

(** ** DES, on bits, most significant first *)

Definition byte_bits (b : Z) : list bool := map (Z.testbit b) [7; 6; 5; 4; 3; 2; 1; 0].
Definition bits_of_bytes (l : bytes) : list bool := concat (map byte_bits l).
Definition bits_value (l : list bool) : Z := fold_left (fun acc (b : bool) => 2 * acc + if b then 1 else 0) l 0.
Definition bytes_of_bits (l : list bool) : bytes := map bits_value (chunks (length l) 8 l).

(** A permutation table names the source bit of each result bit, from 1. *)
Definition permute (table : list nat) (l : list bool) : list bool := map (fun i => nth (i - 1) l false) table.

Definition des_IP : list nat :=
  [58; 50; 42; 34; 26; 18; 10; 2; 60; 52; 44; 36; 28; 20; 12; 4; 62; 54; 46; 38; 30; 22; 14; 6; 64; 56; 48; 40; 32; 24; 16; 8;
   57; 49; 41; 33; 25; 17; 9; 1; 59; 51; 43; 35; 27; 19; 11; 3; 61; 53; 45; 37; 29; 21; 13; 5; 63; 55; 47; 39; 31; 23; 15; 7]%nat.
Definition des_FP : list nat :=
  [40; 8; 48; 16; 56; 24; 64; 32; 39; 7; 47; 15; 55; 23; 63; 31; 38; 6; 46; 14; 54; 22; 62; 30; 37; 5; 45; 13; 53; 21; 61; 29;
   36; 4; 44; 12; 52; 20; 60; 28; 35; 3; 43; 11; 51; 19; 59; 27; 34; 2; 42; 10; 50; 18; 58; 26; 33; 1; 41; 9; 49; 17; 57; 25]%nat.
Definition des_E : list nat :=
  [32; 1; 2; 3; 4; 5; 4; 5; 6; 7; 8; 9; 8; 9; 10; 11; 12; 13; 12; 13; 14; 15; 16; 17;
   16; 17; 18; 19; 20; 21; 20; 21; 22; 23; 24; 25; 24; 25; 26; 27; 28; 29; 28; 29; 30; 31; 32; 1]%nat.
Definition des_P : list nat :=
  [16; 7; 20; 21; 29; 12; 28; 17; 1; 15; 23; 26; 5; 18; 31; 10; 2; 8; 24; 14; 32; 27; 3; 9; 19; 13; 30; 6; 22; 11; 4; 25]%nat.
Definition des_PC1 : list nat :=
  [57; 49; 41; 33; 25; 17; 9; 1; 58; 50; 42; 34; 26; 18; 10; 2; 59; 51; 43; 35; 27; 19; 11; 3; 60; 52; 44; 36;
   63; 55; 47; 39; 31; 23; 15; 7; 62; 54; 46; 38; 30; 22; 14; 6; 61; 53; 45; 37; 29; 21; 13; 5; 28; 20; 12; 4]%nat.
Definition des_PC2 : list nat :=
  [14; 17; 11; 24; 1; 5; 3; 28; 15; 6; 21; 10; 23; 19; 12; 4; 26; 8; 16; 7; 27; 20; 13; 2;
   41; 52; 31; 37; 47; 55; 30; 40; 51; 45; 33; 48; 44; 49; 39; 56; 34; 53; 46; 42; 50; 36; 29; 32]%nat.
Definition des_shifts : list nat := [1; 1; 2; 2; 2; 2; 2; 2; 1; 2; 2; 2; 2; 2; 2; 1]%nat.

Definition des_S : list (list Z) :=
  [[14; 4; 13; 1; 2; 15; 11; 8; 3; 10; 6; 12; 5; 9; 0; 7; 0; 15; 7; 4; 14; 2; 13; 1; 10; 6; 12; 11; 9; 5; 3; 8;
    4; 1; 14; 8; 13; 6; 2; 11; 15; 12; 9; 7; 3; 10; 5; 0; 15; 12; 8; 2; 4; 9; 1; 7; 5; 11; 3; 14; 10; 0; 6; 13];
   [15; 1; 8; 14; 6; 11; 3; 4; 9; 7; 2; 13; 12; 0; 5; 10; 3; 13; 4; 7; 15; 2; 8; 14; 12; 0; 1; 10; 6; 9; 11; 5;
    0; 14; 7; 11; 10; 4; 13; 1; 5; 8; 12; 6; 9; 3; 2; 15; 13; 8; 10; 1; 3; 15; 4; 2; 11; 6; 7; 12; 0; 5; 14; 9];
   [10; 0; 9; 14; 6; 3; 15; 5; 1; 13; 12; 7; 11; 4; 2; 8; 13; 7; 0; 9; 3; 4; 6; 10; 2; 8; 5; 14; 12; 11; 15; 1;
    13; 6; 4; 9; 8; 15; 3; 0; 11; 1; 2; 12; 5; 10; 14; 7; 1; 10; 13; 0; 6; 9; 8; 7; 4; 15; 14; 3; 11; 5; 2; 12];
   [7; 13; 14; 3; 0; 6; 9; 10; 1; 2; 8; 5; 11; 12; 4; 15; 13; 8; 11; 5; 6; 15; 0; 3; 4; 7; 2; 12; 1; 10; 14; 9;
    10; 6; 9; 0; 12; 11; 7; 13; 15; 1; 3; 14; 5; 2; 8; 4; 3; 15; 0; 6; 10; 1; 13; 8; 9; 4; 5; 11; 12; 7; 2; 14];
   [2; 12; 4; 1; 7; 10; 11; 6; 8; 5; 3; 15; 13; 0; 14; 9; 14; 11; 2; 12; 4; 7; 13; 1; 5; 0; 15; 10; 3; 9; 8; 6;
    4; 2; 1; 11; 10; 13; 7; 8; 15; 9; 12; 5; 6; 3; 0; 14; 11; 8; 12; 7; 1; 14; 2; 13; 6; 15; 0; 9; 10; 4; 5; 3];
   [12; 1; 10; 15; 9; 2; 6; 8; 0; 13; 3; 4; 14; 7; 5; 11; 10; 15; 4; 2; 7; 12; 9; 5; 6; 1; 13; 14; 0; 11; 3; 8;
    9; 14; 15; 5; 2; 8; 12; 3; 7; 0; 4; 10; 1; 13; 11; 6; 4; 3; 2; 12; 9; 5; 15; 10; 11; 14; 1; 7; 6; 0; 8; 13];
   [4; 11; 2; 14; 15; 0; 8; 13; 3; 12; 9; 7; 5; 10; 6; 1; 13; 0; 11; 7; 4; 9; 1; 10; 14; 3; 5; 12; 2; 15; 8; 6;
    1; 4; 11; 13; 12; 3; 7; 14; 10; 15; 6; 8; 0; 5; 9; 2; 6; 11; 13; 8; 1; 4; 10; 7; 9; 5; 0; 15; 14; 2; 3; 12];
   [13; 2; 8; 4; 6; 15; 11; 1; 10; 9; 3; 14; 5; 0; 12; 7; 1; 15; 13; 8; 10; 3; 7; 4; 12; 5; 6; 11; 0; 14; 9; 2;
    7; 11; 4; 1; 9; 12; 14; 2; 0; 6; 10; 13; 15; 3; 5; 8; 2; 1; 14; 7; 4; 10; 8; 13; 15; 12; 9; 0; 3; 5; 6; 11]].

(** One S-box: the outer bits choose the row, the inner ones the column. *)
Definition des_sbox (box : list Z) (six : list bool) : list bool :=
  let row := 2 * (if nth 0 six false then 1 else 0) + (if nth 5 six false then 1 else 0) in
  let v := nth (Z.to_nat (16 * row + bits_value (take 4 (drop 1 six)))) box 0 in
  map (Z.testbit v) [3; 2; 1; 0].

Definition xor_bits (a b : list bool) : list bool := zip_with xorb a b.

Definition des_f (r k : list bool) : list bool :=
  permute des_P (concat (zip_with des_sbox des_S (chunks 8 6 (xor_bits (permute des_E r) k)))).

Definition rotate {A} (n : nat) (l : list A) : list A := drop n l ++ take n l.

Fixpoint des_keys (shifts : list nat) (c d : list bool) : list (list bool) :=
  match shifts with
  | [] => []
  | n :: shifts => let c := rotate n c in let d := rotate n d in permute des_PC2 (c ++ d) :: des_keys shifts c d
  end.

Definition des_round (lr : list bool * list bool) (k : list bool) : list bool * list bool :=
  (snd lr, xor_bits (fst lr) (des_f (snd lr) k)).

(** [des.NewCipher(key)] and [Encrypt] on one block. *)
Definition des_encrypt (key data : bytes) : bytes :=
  let kp := permute des_PC1 (bits_of_bytes key) in
  let ip := permute des_IP (bits_of_bytes data) in
  let '(l, r) := fold_left des_round (des_keys des_shifts (take 28 kp) (drop 28 kp)) (take 32 ip, drop 32 ip) in
  bytes_of_bits (permute des_FP (r ++ l)).

Example des_vector :
  des_encrypt [19; 52; 87; 121; 155; 188; 223; 241] [1; 35; 69; 103; 137; 171; 205; 239]
  = [133; 232; 19; 84; 15; 10; 180; 5].
Proof. vm_compute. reflexivity. Qed.

(** ** Runes and UTF-16 *)

(** [utf8.DecodeRune] on a non-empty string: the rune and the octets after it. *)
Definition is_cont (b : Z) : bool := (128 <=? b) && (b <=? 191).
Definition decode_rune (b0 : Z) (s : bytes) : Z * bytes :=
  let bad := (65533, s) in
  if b0 <? 128 then (b0, s)
  else if (194 <=? b0) && (b0 <=? 223) then
    match s with
    | b1 :: s1 => if is_cont b1 then (Z.lor (Z.shiftl (Z.land b0 31) 6) (Z.land b1 63), s1) else bad
    | _ => bad
    end
  else if (224 <=? b0) && (b0 <=? 239) then
    match s with
    | b1 :: b2 :: s2 =>
      let lo := if b0 =? 224 then 160 else 128 in
      let hi := if b0 =? 237 then 159 else 191 in
      if (lo <=? b1) && (b1 <=? hi) && is_cont b2
      then (Z.lor (Z.lor (Z.shiftl (Z.land b0 15) 12) (Z.shiftl (Z.land b1 63) 6)) (Z.land b2 63), s2) else bad
    | _ => bad
    end
  else if (240 <=? b0) && (b0 <=? 244) then
    match s with
    | b1 :: b2 :: b3 :: s3 =>
      let lo := if b0 =? 240 then 144 else 128 in
      let hi := if b0 =? 244 then 143 else 191 in
      if (lo <=? b1) && (b1 <=? hi) && is_cont b2 && is_cont b3
      then (Z.lor (Z.lor (Z.shiftl (Z.land b0 7) 18) (Z.shiftl (Z.land b1 63) 12))
              (Z.lor (Z.shiftl (Z.land b2 63) 6) (Z.land b3 63)), s3) else bad
    | _ => bad
    end
  else bad.

(** [[]rune(string(s))], with one unit of fuel per octet. *)
Fixpoint runes_loop (fuel : nat) (s : bytes) : list Z :=
  match fuel, s with
  | S fuel, b :: s => let '(r, rest) := decode_rune b s in r :: runes_loop fuel rest
  | _, _ => []
  end.
Definition runes (s : bytes) : list Z := runes_loop (length s) s.

(** [utf16.Encode] *)
Definition utf16_units (r : Z) : list Z :=
  if (0 <=? r) && (r <? 55296) || (57344 <=? r) && (r <? 65536) then [r]
  else if (65536 <=? r) && (r <=? 1114111) then
    [55296 + Z.land (Z.shiftr (r - 65536) 10) 1023; 56320 + Z.land (r - 65536) 1023]
  else [65533].
Definition utf16_Encode (l : list Z) : list Z := concat (map utf16_units l).

Example runes_examples :
  utf16_Encode (runes [97; 195; 169; 226; 130; 172; 240; 159; 152; 128; 255; 195]) = [97; 233; 8364; 55357; 56832; 65533; 65533].
Proof. vm_compute. reflexivity. Qed.

(** ** Lemmas *)

Lemma len_be_bytes n x : length (be_bytes n x) = n.
Proof. induction n; simpl; auto. Qed.

(** The state keeps its five words. *)
Lemma sha1_round_length st tw : length st = 5%nat -> length (sha1_round st tw) = 5%nat.
Proof. by destruct st as [|a [|b [|c [|d [|e [|]]]]]]. Qed.
Lemma sha1_block_length st chunk : length st = 5%nat -> length (sha1_block st chunk) = 5%nat.
Proof.
  intros H. unfold sha1_block. rewrite length_zip_with, H.
  assert (forall l s, length s = 5%nat -> length (fold_left sha1_round l s) = 5%nat) as Hf
    by (induction l as [|x l IH]; simpl; auto using sha1_round_length).
  by rewrite Hf.
Qed.
Lemma sha1_fold_length l st : length st = 5%nat -> length (fold_left sha1_block l st) = 5%nat.
Proof. revert st. induction l as [|x l IH]; simpl; auto using sha1_block_length. Qed.

Lemma len_sha1 msg : len (sha1 msg) = 20.
Proof.
  unfold sha1. set (ws := fold_left _ _ _). assert (length ws = 5%nat) as H by by apply sha1_fold_length.
  destruct ws as [|a [|b [|c [|d [|e [|]]]]]]; done.
Qed.

Lemma len_des_encrypt key data : len (des_encrypt key data) = 8.
Proof. unfold des_encrypt. by destruct (fold_left _ _ _). Qed.

Lemma bits_value_bound l acc :
  0 <= acc -> 0 <= fold_left (fun acc (b : bool) => 2 * acc + if b then 1 else 0) l acc < (acc + 1) * 2 ^ Z.of_nat (length l).
Proof.
  revert acc. induction l as [|b l IH]; intros acc Ha; [simpl; lia|].
  simpl length. rewrite Nat2Z.inj_succ, Z.pow_succ_r by lia. simpl fold_left.
  assert (0 <= 2 * acc + (if b then 1 else 0)) as Hb by (destruct b; lia).
  specialize (IH _ Hb). pose proof (Z.pow_pos_nonneg 2 (Z.of_nat (length l))). destruct b; nia.
Qed.

Lemma bytes_of_bits_range l : Forall is_u8 (bytes_of_bits l).
Proof.
  unfold bytes_of_bits. generalize (length l) as fuel. intros fuel. revert l.
  induction fuel as [|fuel IH]; intros [|b l]; simpl chunks; cbn [map]; try constructor; [|apply IH].
  pose proof (bits_value_bound (b :: take 7 l) 0 ltac:(lia)) as H. unfold bits_value, is_u8.
  assert (2 ^ Z.of_nat (length (b :: take 7 l)) <= 2 ^ 8) by (apply Z.pow_le_mono_r; [lia|]; simpl; rewrite length_take; lia).
  change (2 ^ 8) with 256 in *. lia.
Qed.

Lemma des_encrypt_range key data : Forall is_u8 (des_encrypt key data).
Proof. unfold des_encrypt. destruct (fold_left _ _ _). apply bytes_of_bits_range. Qed.

(** DES reads the key through PC-1, which skips the parity bits. *)
Lemma des_encrypt_key k1 k2 data :
  permute des_PC1 (bits_of_bytes k1) = permute des_PC1 (bits_of_bytes k2) -> des_encrypt k1 data = des_encrypt k2 data.
Proof. unfold des_encrypt. by intros ->. Qed.

#[export] Hint Rewrite len_sha1 len_des_encrypt : len.
#[global] Opaque sha1 des_encrypt.
