(* ===== verification/BoundedStore.v ===== *)
(** * Byte-accounted tables

    What the retransmission cache, the accounting journal, the challenge
    store and the session index share: a map whose entries have a byte size,
    a running total, and a sweep that removes what has expired.  [SizedStore]
    is the interface a component offers (how one key is removed, and what
    that does to the total); the sweep and the accounting of the total are
    proved once against it. *)

From stdpp Require Import gmap.
From S2P Require Import Prelude.

#[local] Open Scope Z_scope.

(** ** The summed size of a table *)

Section total.
Context {K V : Type} `{Countable K} (size : V -> Z).

Definition total (m : gmap K V) : Z := map_fold (fun _ v acc => size v + acc) 0 m.

Lemma total_empty : total ∅ = 0.
Proof. apply map_fold_empty. Qed.

Lemma total_insert m k v : m !! k = None -> total (<[k := v]> m) = size v + total m.
Proof.
  intros Hk. unfold total. rewrite map_fold_insert_L; [done| |done]. intros. lia.
Qed.

Lemma total_delete m k v : m !! k = Some v -> total (delete k m) = total m - size v.
Proof.
  intros Hk. rewrite <- (insert_delete_id m k v) at 2 by done.
  rewrite total_insert by apply lookup_delete_eq. lia.
Qed.

Lemma total_update m k v w :
  m !! k = Some v -> total (<[k := w]> m) = total m - size v + size w.
Proof.
  intros Hk. rewrite <- insert_delete_eq, total_insert by apply lookup_delete_eq.
  rewrite (total_delete m k v) by done. lia.
Qed.

Lemma total_nonneg m : (forall k v, m !! k = Some v -> 0 <= size v) -> 0 <= total m.
Proof.
  induction m as [|k v m Hk IH] using map_ind; intros Hs; [by rewrite total_empty|].
  rewrite total_insert by done. pose proof (Hs k v (lookup_insert_eq m k v)).
  assert (0 <= total m); [|lia]. apply IH. intros k' v' Hk'.
  apply (Hs k'). rewrite lookup_insert_ne; [done|congruence].
Qed.

Lemma total_lookup m k v :
  (forall k v, m !! k = Some v -> 0 <= size v) -> m !! k = Some v -> size v <= total m.
Proof.
  intros Hs Hk. assert (0 <= total (delete k m)) as Hn.
  { apply total_nonneg. intros k' v' [_ H']%lookup_delete_Some. by apply (Hs k'). }
  rewrite (total_delete m k v) in Hn by done. lia.
Qed.
End total.

Lemma map_size_delete_le {K V} `{Countable K} (m : gmap K V) k : (size (delete k m) <= size m)%nat.
Proof. rewrite map_size_delete. destruct (m !! k); simpl; lia. Qed.

(** ** The interface *)

(** [St] is the component's state; [st_remove] is its [removeLocked], which
    subtracts the entry's size from the total and clamps it at zero. *)
Class SizedStore (St K V Cf : Type) `{Countable K} := {
  st_entries : St -> gmap K V;
  st_used : St -> Z;
  st_conf : St -> Cf;
  st_size : V -> Z;
  st_remove : St -> K -> St;
  remove_entries : forall s k, st_entries (st_remove s k) = delete k (st_entries s);
  remove_used : forall s k v, st_entries s !! k = Some v ->
    st_used (st_remove s k) = Z.max 0 (st_used s - st_size v);
  remove_absent : forall s k, st_entries s !! k = None -> st_remove s k = s;
  remove_conf : forall s k, st_conf (st_remove s k) = st_conf s;
}.

Section sweep.
Context {St K V Cf : Type} `{SizedStore St K V Cf}.

(** The running total is the summed size, and no size is negative. *)
Definition accounted (s : St) : Prop :=
  st_used s = total st_size (st_entries s)
  /\ forall k v, st_entries s !! k = Some v -> 0 <= st_size v.

(** [for k, e := range entries { if expired(e) { removeLocked(k) } }], in
    some order of the entries. *)
Definition sweep (expired : V -> bool) (s : St) : St :=
  foldr (fun '(k, v) s => if expired v then st_remove s k else s) s (map_to_list (st_entries s)).

Lemma accounted_used_nonneg s : accounted s -> 0 <= st_used s.
Proof. intros [-> Hs]. by apply total_nonneg. Qed.

Lemma remove_accounted s k : accounted s -> accounted (st_remove s k).
Proof.
  intros [Hu Hs]. destruct (st_entries s !! k) as [v|] eqn:Hk; [|by rewrite remove_absent].
  split.
  - rewrite (remove_used s k v), remove_entries, (total_delete _ _ k v) by done.
    pose proof (total_lookup st_size _ k v Hs Hk). lia.
  - intros k' v'. rewrite remove_entries. intros [_ H']%lookup_delete_Some. by apply (Hs k').
Qed.

(** Removing an entry never raises the total. *)
Lemma remove_used_le s k : accounted s -> st_used (st_remove s k) <= st_used s.
Proof.
  intros Ha. pose proof (accounted_used_nonneg s Ha) as Hn. destruct Ha as [Hu Hs].
  destruct (st_entries s !! k) as [v|] eqn:Hk; [|by rewrite remove_absent].
  rewrite (remove_used s k v) by done. pose proof (Hs k v Hk). lia.
Qed.

Lemma sweep_loop (expired : V -> bool) s l :
  NoDup l.*1 -> (forall k v, (k, v) ∈ l -> st_entries s !! k = Some v) -> accounted s ->
  let s' := foldr (fun '(k, v) s => if expired v then st_remove s k else s) s l in
  accounted s' /\ st_conf s' = st_conf s /\ st_used s' <= st_used s
  /\ forall k, st_entries s' !! k =
      match st_entries s !! k with
      | Some v => if expired v && bool_decide (k ∈ l.*1) then None else Some v
      | None => None
      end.
Proof.
  intros Hnd Hin Ha. induction l as [|[k v] l IH]; cbv zeta; cbn [foldr].
  { split_and!; [done|done|done|]. intros k. destruct (st_entries s !! k) as [v|]; [|done].
    rewrite bool_decide_false by set_solver. by rewrite andb_false_r. }
  apply list.NoDup_cons in Hnd as [Hk Hnd]. simpl in Hk.
  destruct (IH Hnd) as (Ha' & Hc & Hu & Hl); [intros; apply Hin; by right|].
  set (s' := foldr _ s l) in *.
  assert (st_entries s !! k = Some v) as Hkv by (apply Hin; by left).
  destruct (expired v) eqn:Ev.
  - split_and!; [by apply remove_accounted|by rewrite remove_conf|pose proof (remove_used_le s' k Ha'); lia|].
    intros k'. rewrite remove_entries. destruct (decide (k' = k)) as [->|Hne].
    + rewrite lookup_delete_eq, Hkv, Ev. cbn [andb]. rewrite bool_decide_true; [done|].
      rewrite fmap_cons. by left.
    + rewrite lookup_delete_ne, Hl by done. destruct (st_entries s !! k') as [v'|]; [|done].
      destruct (expired v'); cbn [andb]; [|done]. by rewrite (bool_decide_ext (k' ∈ ((k, v) :: l).*1) (k' ∈ l.*1)) by (rewrite fmap_cons; set_solver).
  - split_and!; [done|done|done|]. intros k'. rewrite Hl. destruct (decide (k' = k)) as [->|Hne].
    + rewrite Hkv, Ev. done.
    + destruct (st_entries s !! k') as [v'|]; [|done].
      destruct (expired v'); cbn [andb]; [|done]. by rewrite (bool_decide_ext (k' ∈ ((k, v) :: l).*1) (k' ∈ l.*1)) by (rewrite fmap_cons; set_solver).
Qed.

(** The sweep keeps exactly the live entries and the accounting. *)
Lemma sweep_spec (expired : V -> bool) s :
  accounted s ->
  accounted (sweep expired s) /\ st_conf (sweep expired s) = st_conf s
  /\ st_used (sweep expired s) <= st_used s
  /\ forall k, st_entries (sweep expired s) !! k =
      match st_entries s !! k with
      | Some v => if expired v then None else Some v
      | None => None
      end.
Proof.
  intros Ha. destruct (sweep_loop expired s (map_to_list (st_entries s))) as (H1 & H2 & H3 & H4); [..|done|].
  - apply NoDup_fst_map_to_list.
  - intros k v. apply elem_of_map_to_list.
  - split_and!; [done|done|done|]. intros k. unfold sweep. rewrite H4.
    destruct (st_entries s !! k) as [v|] eqn:Hk; [|done].
    rewrite bool_decide_true; [by rewrite andb_true_r|].
    apply list_elem_of_fmap. exists (k, v). split; [done|]. by apply elem_of_map_to_list.
Qed.

Lemma sweep_entries expired s :
  accounted s -> st_entries (sweep expired s) = filter (fun kv => expired kv.2 = false) (st_entries s).
Proof.
  intros Ha. apply map_eq. intros k. destruct (sweep_spec expired s Ha) as (_ & _ & _ & ->).
  symmetry. destruct (st_entries s !! k) as [v|] eqn:Hk.
  - destruct (expired v) eqn:Ev.
    + apply map_lookup_filter_None. right. intros w Hw. simpl. congruence.
    + by apply map_lookup_filter_Some.
  - apply map_lookup_filter_None. by left.
Qed.

Lemma sweep_size expired s : accounted s -> (size (st_entries (sweep expired s)) <= size (st_entries s))%nat.
Proof.
  intros Ha. rewrite sweep_entries by done. apply map_size_filter.
Qed.
End sweep.
