(* ===== verification/RadiusCache.v ===== *)
(** * RADIUS/UDP: the exact-response retransmission cache

    [internal/radius/udp/cache.go] (the TLS listener has the same code).
    Every method holds the cache's mutex, so a run of the listener is a
    sequence of atomic operations; [now] is the reading of the injected clock,
    in nanoseconds.  A slot is claimed by [Begin], then filled by [Complete] or
    dropped by [Abandon].  A nil cache, for which the methods do nothing, is
    not modelled: the listener always builds one. *)

From stdpp Require Import gmap strings.
From S2P Require Import Prelude BoundedStore Sha256 RadiusCodec RadiusReply.

#[local] Open Scope Z_scope.

(** ** Keys, fingerprints, entries *)

#[export] Instance ListenerRole_eq_dec : EqDecision ListenerRole.
Proof. solve_decision. Defined.
#[export] Instance ListenerRole_countable : Countable ListenerRole.
Proof.
  refine (inj_countable' (fun r => match r with
      RoleAccess => 0 | RoleAccounting => 1 | RoleDynamicAuthorization => 2 | RoleOther => 3 end)
    (fun n => if n =? 0 then RoleAccess else if n =? 1 then RoleAccounting
              else if n =? 2 then RoleDynamicAuthorization else RoleOther) _).
  by intros [].
Defined.

Record slotKey := mkSlotKey {
  sk_endpointID : string;
  sk_role : ListenerRole;
  sk_src : string;
  sk_listenerID : string;
  sk_code : Z;
  sk_id : Z;
}.

#[export] Instance slotKey_eq_dec : EqDecision slotKey.
Proof. solve_decision. Defined.
#[export] Instance slotKey_countable : Countable slotKey.
Proof.
  refine (inj_countable'
    (fun k => (sk_endpointID k, sk_role k, sk_src k, sk_listenerID k, sk_code k, sk_id k))
    (fun '(e, r, s, l, c, i) => mkSlotKey e r s l c i) _).
  by intros [].
Defined.

Record fingerprint := mkFingerprint { fp_auth : bytes; fp_digest : bytes }.

#[export] Instance fingerprint_eq_dec : EqDecision fingerprint.
Proof. solve_decision. Defined.

Definition fingerprintOf (declared : bytes) : fingerprint :=
  mkFingerprint
    (if len declared >=? HeaderSize
     then copy_bytes (make_bytes AuthenticatorSize) (slice declared 4 HeaderSize)
     else make_bytes AuthenticatorSize)
    (sha256 declared).

Definition sameFP (a b : fingerprint) : bool :=
  bytes_eqb (fp_auth a) (fp_auth b) && bytes_eqb (fp_digest a) (fp_digest b).

Record cacheEntry := mkCacheEntry {
  ce_pending : bool;
  ce_fp : fingerprint;
  ce_response : bytes;
  ce_expires : Z;
  ce_bytes : Z;
}.

(** The caps and the time to live are fixed by [newCache]. *)
Record cacheConf := mkCacheConf { maxEntries : Z; maxBytes : Z; ttl : Z }.

Record Cache := mkCache {
  entries : gmap slotKey cacheEntry;
  usedBytes : Z;
  conf : cacheConf;
}.

(** [Lookup] and the bytes returned with [LookupHit]. *)
Inductive Lookup :=
| LookupMiss | LookupHit (response : bytes) | LookupPending | LookupSaturated | LookupPurged.

Definition second := 1000000000.

Definition newCache (entries bytes ttl : Z) : Cache :=
  let entries := if entries <=? 0 then 1 else entries in
  let bytes := if bytes <=? 0 then 4096 else bytes in
  let ttl := if ttl <=? 0 then 15 * second else ttl in
  mkCache ∅ 0 (mkCacheConf entries bytes ttl).

(** ** Operations *)

Definition removeLocked (c : Cache) (key : slotKey) : Cache :=
  match entries c !! key with
  | None => c
  | Some e =>
    let used := usedBytes c - ce_bytes e in
    let used := if used <? 0 then 0 else used in
    mkCache (delete key (entries c)) used (conf c)
  end.

(** [!e.expires.After(now)] *)
Definition expired (now : Z) (e : cacheEntry) : bool := negb (now <? ce_expires e).

(** The loop over the map, in some order. *)
Definition expireLocked (c : Cache) (now : Z) : Cache :=
  foldr (fun '(k, e) c => if expired now e then removeLocked c k else c) c
    (map_to_list (entries c)).

Definition Begin (c : Cache) (now : Z) (key : slotKey) (fp : fingerprint) : Cache * Lookup :=
  let c := expireLocked c now in
  let reserve (c : Cache) (purged : bool) :=
    if Z.of_nat (size (entries c)) >=? maxEntries (conf c) then (c, LookupSaturated) else
    let e := mkCacheEntry true fp [] (now + ttl (conf c)) 0 in
    (mkCache (<[key := e]> (entries c)) (usedBytes c) (conf c),
     if purged then LookupPurged else LookupMiss) in
  match entries c !! key with
  | Some e =>
    if sameFP (ce_fp e) fp then
      if ce_pending e then (c, LookupPending) else (c, LookupHit (ce_response e))
    else reserve (removeLocked c key) true
  | None => reserve c false
  end.

Definition Complete (c : Cache) (now : Z) (key : slotKey) (fp : fingerprint) (response : bytes) : Cache :=
  match entries c !! key with
  | None => c
  | Some e =>
    if negb (ce_pending e) || negb (sameFP (ce_fp e) fp) then c else
    let n := len response in
    if usedBytes c + n >? maxBytes (conf c) then removeLocked c key else
    let e := mkCacheEntry false (ce_fp e) response (now + ttl (conf c)) n in
    mkCache (<[key := e]> (entries c)) (usedBytes c + n) (conf c)
  end.

Definition Abandon (c : Cache) (key : slotKey) (fp : fingerprint) : Cache :=
  match entries c !! key with
  | None => c
  | Some e => if negb (sameFP (ce_fp e) fp) then c else removeLocked c key
  end.

(** ** Runs *)

Inductive op :=
| OpBegin (key : slotKey) (fp : fingerprint)
| OpComplete (key : slotKey) (fp : fingerprint) (response : bytes)
| OpAbandon (key : slotKey) (fp : fingerprint).

Definition op_key (o : op) : slotKey :=
  match o with OpBegin k _ | OpComplete k _ _ | OpAbandon k _ => k end.

Definition step (c : Cache) (t : Z * op) : Cache :=
  match t.2 with
  | OpBegin k fp => (Begin c t.1 k fp).1
  | OpComplete k fp r => Complete c t.1 k fp r
  | OpAbandon k fp => Abandon c k fp
  end.

Definition run (c : Cache) (l : list (Z * op)) : Cache := fold_left step l c.

(** ** The interface instance *)

Lemma removeLocked_entries c k : entries (removeLocked c k) = delete k (entries c).
Proof. unfold removeLocked. destruct (entries c !! k) eqn:E; [done|]. by rewrite delete_id. Qed.
Lemma removeLocked_used c k e :
  entries c !! k = Some e -> usedBytes (removeLocked c k) = Z.max 0 (usedBytes c - ce_bytes e).
Proof.
  intros E. unfold removeLocked. rewrite E. simpl.
  destruct (Z.ltb_spec (usedBytes c - ce_bytes e) 0); lia.
Qed.
Lemma removeLocked_absent c k : entries c !! k = None -> removeLocked c k = c.
Proof. intros E. unfold removeLocked. by rewrite E. Qed.
Lemma removeLocked_conf c k : conf (removeLocked c k) = conf c.
Proof. unfold removeLocked. by destruct (entries c !! k). Qed.

#[export] Instance Cache_store : SizedStore Cache slotKey cacheEntry cacheConf := {|
  st_entries := entries; st_used := usedBytes; st_conf := conf;
  st_size := ce_bytes; st_remove := removeLocked;
  remove_entries := removeLocked_entries; remove_used := removeLocked_used;
  remove_absent := removeLocked_absent; remove_conf := removeLocked_conf;
|}.

Lemma expireLocked_sweep c now : expireLocked c now = sweep (expired now) c.
Proof. done. Qed.

(** ** The invariant *)

Record cache_inv (c : Cache) : Prop := {
  ci_accounted : accounted c;
  ci_entries : Z.of_nat (size (entries c)) <= maxEntries (conf c);
  ci_bytes : usedBytes c <= maxBytes (conf c);
  ci_entry : forall k e, entries c !! k = Some e ->
    ce_bytes e = len (ce_response e) /\ (ce_pending e = true -> ce_response e = []);
}.

Lemma newCache_inv e b t : cache_inv (newCache e b t).
Proof.
  split; simpl.
  - split; simpl; [by rewrite total_empty|]. intros k v H. by rewrite lookup_empty in H.
  - rewrite map_size_empty. destruct (Z.leb_spec e 0); lia.
  - destruct (Z.leb_spec b 0); lia.
  - intros k v H. by rewrite lookup_empty in H.
Qed.

Lemma remove_inv c k : cache_inv c -> cache_inv (removeLocked c k).
Proof.
  intros [Ha He Hb Hi]. pose proof (remove_accounted c k Ha) as Ha'.
  pose proof (remove_used_le c k Ha) as Hu.
  change (st_remove c k) with (removeLocked c k) in *. change (st_used ?c) with (usedBytes c) in Hu.
  pose proof (removeLocked_conf c k) as Ec. pose proof (removeLocked_entries c k) as Ee.
  split; [done| | |].
  - rewrite Ec, Ee. pose proof (map_size_delete_le (entries c) k). lia.
  - rewrite Ec. lia.
  - intros k' e. rewrite Ee. intros [_ H]%lookup_delete_Some. by apply (Hi k').
Qed.

Lemma expire_lookup c now k :
  accounted c ->
  entries (expireLocked c now) !! k =
  match entries c !! k with Some e => if expired now e then None else Some e | None => None end.
Proof. intros Ha. apply (sweep_spec (expired now) c Ha). Qed.

Lemma expire_inv c now : cache_inv c -> cache_inv (expireLocked c now).
Proof.
  intros [Ha He Hb Hi]. destruct (sweep_spec (expired now) c Ha) as (Ha' & Hc & Hu & Hl).
  pose proof (sweep_size (expired now) c Ha) as Hs.
  change (sweep (expired now) c) with (expireLocked c now) in *.
  change (st_conf ?c) with (conf c) in Hc. change (st_used ?c) with (usedBytes c) in Hu.
  change (st_entries ?c) with (entries c) in Hs, Hl.
  split; [done|rewrite Hc; lia|rewrite Hc; lia|].
  intros k e. rewrite Hl. destruct (entries c !! k) as [e'|] eqn:E; [|done].
  destruct (expired now e'); [done|]. intros [= <-]. by apply (Hi k).
Qed.

(** Storing an entry with a fresh size keeps the invariant. *)
Lemma store_inv c k e used :
  cache_inv c ->
  (entries c !! k = None /\ used = usedBytes c + ce_bytes e
   \/ exists e0, entries c !! k = Some e0 /\ used = usedBytes c - ce_bytes e0 + ce_bytes e) ->
  Z.of_nat (size (<[k := e]> (entries c))) <= maxEntries (conf c) -> used <= maxBytes (conf c) ->
  ce_bytes e = len (ce_response e) -> (ce_pending e = true -> ce_response e = []) ->
  cache_inv (mkCache (<[k := e]> (entries c)) used (conf c)).
Proof.
  intros [[Hu Hs] He Hb Hi] Hused Hsz Hub H1 H2. simpl in Hu. split; simpl; [|done|done|].
  - split; simpl.
    + destruct Hused as [[Hk ->]|(e0 & Hk & ->)].
      * rewrite total_insert by done. lia.
      * rewrite (total_update _ _ k e0) by done. lia.
    + intros k' e'. rewrite lookup_insert_Some. intros [[_ <-]|[_ H]]; [|by apply (Hs k')].
      rewrite H1. apply len_nonneg.
  - intros k' e'. rewrite lookup_insert_Some. intros [[_ <-]|[_ H]]; [done|by apply (Hi k')].
Qed.

Lemma Begin_inv c now k fp : cache_inv c -> cache_inv (Begin c now k fp).1.
Proof.
  intros Hinv. unfold Begin. apply (expire_inv c now) in Hinv. set (c' := expireLocked c now) in *. clearbody c'.
  assert (forall c2 purged, cache_inv c2 -> entries c2 !! k = None ->
    cache_inv (if Z.of_nat (size (entries c2)) >=? maxEntries (conf c2) then (c2, LookupSaturated) else
      (mkCache (<[k := mkCacheEntry true fp [] (now + ttl (conf c2)) 0]> (entries c2)) (usedBytes c2) (conf c2),
       if purged : bool then LookupPurged else LookupMiss)).1) as Hreserve.
  { intros c2 purged H2 Hk. rewrite Z.geb_leb. destruct (Z.leb_spec (maxEntries (conf c2)) (Z.of_nat (size (entries c2)))); [done|].
    apply store_inv; [done|left; simpl; split; [done|lia]| |by destruct H2|done|done].
    rewrite map_size_insert_None by done. lia. }
  destruct (entries c' !! k) as [e|] eqn:Ek.
  - destruct (sameFP (ce_fp e) fp); [by destruct (ce_pending e)|].
    apply (Hreserve (removeLocked c' k) true); [by apply remove_inv|].
    rewrite removeLocked_entries. apply lookup_delete_eq.
  - by apply (Hreserve c' false).
Qed.

Lemma Complete_inv c now k fp r : cache_inv c -> cache_inv (Complete c now k fp r).
Proof.
  intros Hinv. unfold Complete. destruct (entries c !! k) as [e|] eqn:Ek; [|done].
  destruct (negb (ce_pending e) || negb (sameFP (ce_fp e) fp)) eqn:E; [done|]. bool_hyps.
  rewrite Z.gtb_ltb. destruct (Z.ltb_spec (maxBytes (conf c)) (usedBytes c + len r)); [by apply remove_inv|].
  destruct (ci_entry c Hinv k e Ek) as [Hb Hp]. rewrite Hp in Hb by done.
  apply store_inv; [done|right; exists e; split; [done|]| |lia|done|done].
  - simpl. change (len []) with 0 in Hb. lia.
  - rewrite map_size_insert_Some by (by eexists). by destruct Hinv.
Qed.

Lemma Abandon_inv c k fp : cache_inv c -> cache_inv (Abandon c k fp).
Proof.
  intros Hinv. unfold Abandon. destruct (entries c !! k) as [e|]; [|done].
  destruct (negb _); [done|]. by apply remove_inv.
Qed.

Lemma step_inv c t : cache_inv c -> cache_inv (step c t).
Proof.
  intros Hinv. unfold step. destruct t.2; [by apply Begin_inv|by apply Complete_inv|by apply Abandon_inv].
Qed.

Lemma run_inv c l : cache_inv c -> cache_inv (run c l).
Proof.
  intros Hinv. apply (fold_left_invariant step cache_inv (fun _ => True)); [done| |by apply Forall_true].
  intros. by apply step_inv.
Qed.

(** A cached reply was completed, for that slot and that fingerprint. *)
Definition completed_in (l : list (Z * op)) (c : Cache) : Prop :=
  forall k e, entries c !! k = Some e -> ce_pending e = false ->
    exists t, (t, OpComplete k (ce_fp e) (ce_response e)) ∈ l.

Lemma sameFP_eq a b : sameFP a b = true <-> a = b.
Proof.
  unfold sameFP. destruct a as [a1 a2], b as [b1 b2]. simpl.
  rewrite andb_true_iff, !bytes_eqb_true. naive_solver.
Qed.

Lemma removeLocked_lookup c k k' e : entries (removeLocked c k) !! k' = Some e -> k' <> k /\ entries c !! k' = Some e.
Proof. rewrite removeLocked_entries. intros [? ?]%lookup_delete_Some. done. Qed.

(** The entry [Begin] returns with, when it is not the one it reserves. *)
Lemma Begin_entry c now k fp k' e :
  accounted c -> entries (Begin c now k fp).1 !! k' = Some e ->
  (k' = k /\ e = mkCacheEntry true fp [] (now + ttl (conf c)) 0) \/ entries c !! k' = Some e.
Proof.
  intros Ha. unfold Begin. pose proof (expire_lookup c now k') as He. specialize (He Ha).
  assert (conf (expireLocked c now) = conf c) as Hc by apply (sweep_spec (expired now) c Ha).
  set (c' := expireLocked c now) in *. clearbody c'.
  assert (entries c' !! k' = Some e -> entries c !! k' = Some e) as Hsub.
  { rewrite He. destruct (entries c !! k') as [e'|]; [|done]. by destruct (expired now e'). }
  destruct (entries c' !! k) as [e0|] eqn:Ek.
  - destruct (sameFP (ce_fp e0) fp); [destruct (ce_pending e0); intros; by right; apply Hsub|].
    destruct (_ >=? _); simpl.
    + intros [_ H]%removeLocked_lookup. right. by apply Hsub.
    + rewrite lookup_insert_Some. intros [[<- <-]|[_ [_ H]%removeLocked_lookup]].
      * left. by rewrite removeLocked_conf, Hc.
      * right. by apply Hsub.
  - destruct (_ >=? _); simpl; [intros; by right; apply Hsub|].
    rewrite lookup_insert_Some. intros [[<- <-]|[_ H]]; [left; by rewrite Hc|right; by apply Hsub].
Qed.

Lemma step_completed l c t : cache_inv c -> completed_in l c -> completed_in (l ++ [t]) (step c t).
Proof.
  intros Hinv Hl k e Hk Hp.
  assert (forall k e, entries c !! k = Some e -> ce_pending e = false ->
    exists t', (t', OpComplete k (ce_fp e) (ce_response e)) ∈ l ++ [t]) as Hold.
  { intros k0 e0 H1 H2. destruct (Hl k0 e0 H1 H2) as [t' Ht]. exists t'. apply elem_of_app. by left. }
  destruct t as [now o]. unfold step in Hk. simpl in Hk. destruct o as [k0 fp|k0 fp r|k0 fp].
  - apply Begin_entry in Hk as [[-> ->]|Hk]; [done|by apply Hold|apply Hinv].
  - unfold Complete in Hk. destruct (entries c !! k0) as [e0|] eqn:E0; [|by apply Hold].
    destruct (negb (ce_pending e0) || negb (sameFP (ce_fp e0) fp)) eqn:Eb; [by apply Hold|].
    bool_hyps. destruct (_ >? _) in Hk; [apply removeLocked_lookup in Hk as [_ Hk]; by apply Hold|].
    simpl in Hk. apply lookup_insert_Some in Hk as [[<- <-]|[_ Hk]]; [|by apply Hold].
    apply sameFP_eq in H0. simpl. rewrite H0. exists now. set_solver.
  - unfold Abandon in Hk. destruct (entries c !! k0) as [e0|]; [|by apply Hold].
    destruct (negb _) in Hk; [by apply Hold|]. apply removeLocked_lookup in Hk as [_ Hk]. by apply Hold.
Qed.

Lemma run_completed e b t l : completed_in l (run (newCache e b t) l).
Proof.
  induction l as [|x l IH] using rev_ind.
  - intros k e0 H. simpl in H. by rewrite lookup_empty in H.
  - unfold run. rewrite fold_left_app. simpl. apply step_completed; [|exact IH].
    apply run_inv, newCache_inv.
Qed.

Lemma Begin_hit c now k fp r :
  accounted c -> (Begin c now k fp).2 = LookupHit r ->
  exists e, entries c !! k = Some e /\ ce_fp e = fp /\ ce_pending e = false /\ ce_response e = r.
Proof.
  intros Ha. unfold Begin. pose proof (expire_lookup c now k Ha) as He.
  set (c' := expireLocked c now) in *. clearbody c'.
  destruct (entries c' !! k) as [e0|] eqn:Ek.
  - destruct (sameFP (ce_fp e0) fp) eqn:Ef.
    + destruct (ce_pending e0) eqn:Ep; [done|]. simpl. intros [= <-]. apply sameFP_eq in Ef.
      exists e0. split; [|done]. symmetry in He. destruct (entries c !! k) as [e1|]; [|done].
      by destruct (expired now e1).
    + by destruct (_ >=? _).
  - by destruct (_ >=? _).
Qed.

(** The cache is within its entry and byte caps, its byte count is the sum
    over its entries, unfinished slots hold no bytes, and a hit returns octets
    that a [Complete] of the history stored for the same slot and fingerprint. *)
Definition bounded_and_truthful (c : Cache) (l : list (Z * op)) : Prop :=
  Z.of_nat (size (entries c)) <= maxEntries (conf c)
  /\ usedBytes c <= maxBytes (conf c)
  /\ usedBytes c = total ce_bytes (entries c)
  /\ (forall k e, entries c !! k = Some e ->
        ce_bytes e = len (ce_response e) /\ (ce_pending e = true -> ce_response e = []))
  /\ (forall now k fp r, (Begin c now k fp).2 = LookupHit r -> exists t, (t, OpComplete k fp r) ∈ l).

Lemma cache_bounded (entries0 bytes0 ttl0 : Z) (l : list (Z * op)) :
  bounded_and_truthful (run (newCache entries0 bytes0 ttl0) l) l.
Proof.
  unfold bounded_and_truthful. set (c := run _ l). assert (cache_inv c) as Hinv by apply run_inv, newCache_inv.
  pose proof Hinv as [[Hu Hs] He Hb Hi]. split_and!; [done|done|done|done|].
  intros now k fp r H. apply Begin_hit in H as (e & He' & <- & Hp & <-); [|done].
  by apply (run_completed entries0 bytes0 ttl0 l k e).
Qed.

(** ** At most once *)

(** Operations that concern another slot, or repeat the request, before [until]. *)
Definition quiet (k : slotKey) (fp : fingerprint) (until : Z) (t : Z * op) : Prop :=
  t.1 < until /\ (op_key t.2 <> k \/ t.2 = OpBegin k fp).

Lemma expired_live now e : now < ce_expires e -> expired now e = false.
Proof. intros H. unfold expired. by rewrite (proj2 (Z.ltb_lt _ _) H). Qed.

Lemma Begin_other c now k fp k' e :
  accounted c -> k' <> k -> entries c !! k' = Some e -> now < ce_expires e ->
  entries (Begin c now k fp).1 !! k' = Some e.
Proof.
  intros Ha Hne Hk Hlive. unfold Begin. pose proof (expire_lookup c now k' Ha) as He.
  rewrite Hk, expired_live in He by done.
  set (c' := expireLocked c now) in *. clearbody c'.
  destruct (entries c' !! k) as [e0|].
  - destruct (sameFP _ _); [by destruct (ce_pending e0)|].
    assert (entries (removeLocked c' k) !! k' = Some e) as Hr
      by by rewrite removeLocked_entries, lookup_delete_ne.
    destruct (_ >=? _); simpl; [done|]. by rewrite lookup_insert_ne.
  - destruct (_ >=? _); simpl; [done|]. by rewrite lookup_insert_ne.
Qed.

(** A live slot answers its own request and stays as it is. *)
Lemma Begin_live c now k e :
  accounted c -> entries c !! k = Some e -> now < ce_expires e ->
  (Begin c now k (ce_fp e)).2 = (if ce_pending e then LookupPending else LookupHit (ce_response e))
  /\ entries (Begin c now k (ce_fp e)).1 !! k = Some e.
Proof.
  intros Ha Hk Hlive. unfold Begin. pose proof (expire_lookup c now k Ha) as He.
  rewrite Hk, expired_live in He by done. rewrite He.
  rewrite (proj2 (sameFP_eq _ _) eq_refl). by destruct (ce_pending e).
Qed.

Lemma quiet_run c k e l :
  cache_inv c -> entries c !! k = Some e -> Forall (quiet k (ce_fp e) (ce_expires e)) l ->
  entries (run c l) !! k = Some e.
Proof.
  intros Hinv Hk Hl. revert c Hinv Hk. induction Hl as [|[now o] l [Ht Ho] Hl IH]; intros c Hinv Hk; [done|].
  simpl. apply IH; [by apply step_inv|]. simpl in Ht, Ho. pose proof (ci_accounted c Hinv) as Ha.
  destruct Ho as [Hne| ->]; [|by apply Begin_live].
  destruct o as [k0 fp|k0 fp r|k0 fp]; simpl in *; unfold step; simpl.
  - by apply Begin_other.
  - unfold Complete. destruct (entries c !! k0) as [e0|]; [|done].
    destruct (_ || _); [done|]. destruct (_ >? _).
    + by rewrite removeLocked_entries, lookup_delete_ne.
    + simpl. by rewrite lookup_insert_ne.
  - unfold Abandon. destruct (entries c !! k0); [|done]. destruct (negb _); [done|].
    by rewrite removeLocked_entries, lookup_delete_ne.
Qed.

Lemma Begin_reserves c now k fp :
  accounted c -> (Begin c now k fp).2 = LookupMiss \/ (Begin c now k fp).2 = LookupPurged ->
  entries (Begin c now k fp).1 !! k = Some (mkCacheEntry true fp [] (now + ttl (conf c)) 0).
Proof.
  intros Ha. unfold Begin. assert (conf (expireLocked c now) = conf c) as Hc by apply (sweep_spec (expired now) c Ha).
  set (c' := expireLocked c now) in *. clearbody c'.
  destruct (entries c' !! k) as [e0|].
  - destruct (sameFP _ _); [destruct (ce_pending e0); simpl; intros [?|?]; done|].
    destruct (_ >=? _); simpl; [intros [?|?]; done|]. rewrite removeLocked_conf, Hc, lookup_insert_eq. done.
  - destruct (_ >=? _); simpl; [intros [?|?]; done|]. rewrite Hc, lookup_insert_eq. done.
Qed.

Lemma run_conf c l : cache_inv c -> conf (run c l) = conf c.
Proof.
  revert c. induction l as [|[now o] l IH]; intros c Hinv; [done|]. simpl. rewrite IH by by apply step_inv.
  pose proof (ci_accounted c Hinv) as Ha. unfold step. destruct o as [k fp|k fp r|k fp]; simpl.
  - unfold Begin. assert (conf (expireLocked c now) = conf c) as <- by apply (sweep_spec (expired now) c Ha).
    destruct (entries _ !! k) as [e|].
    + destruct (sameFP _ _); [by destruct (ce_pending e)|].
      destruct (_ >=? _); simpl; by rewrite removeLocked_conf.
    + by destruct (_ >=? _).
  - unfold Complete. destruct (entries c !! k); [|done]. destruct (_ || _); [done|].
    destruct (_ >? _); [by rewrite removeLocked_conf|done].
  - unfold Abandon. destruct (entries c !! k); [|done]. destruct (negb _); [done|]. by rewrite removeLocked_conf.
Qed.

(** Let [Begin] tell its caller to handle a request at [t0].  Whatever happens
    meanwhile to other slots, and however often the request is repeated, every
    repetition before [t0 + ttl] is told that it is pending; after the owner
    completes at [tc] with a reply that fits the byte cap, every repetition
    before [tc + ttl] receives exactly those octets; a reply that does not fit
    is not cached. *)
Definition handled_once (c : Cache) : Prop :=
  forall t0 tc k fp reply l l',
  (Begin c t0 k fp).2 = LookupMiss \/ (Begin c t0 k fp).2 = LookupPurged ->
  Forall (quiet k fp (t0 + ttl (conf c))) l ->
  let c1 := run (Begin c t0 k fp).1 l in
  let c2 := Complete c1 tc k fp reply in
  (forall t, t < t0 + ttl (conf c) -> (Begin c1 t k fp).2 = LookupPending)
  /\ (usedBytes c1 + len reply <= maxBytes (conf c) ->
      Forall (quiet k fp (tc + ttl (conf c))) l' ->
      forall t, t < tc + ttl (conf c) -> (Begin (run c2 l') t k fp).2 = LookupHit reply)
  /\ (maxBytes (conf c) < usedBytes c1 + len reply -> entries c2 !! k = None).

Lemma once_per_ttl (c : Cache) : cache_inv c -> handled_once c.
Proof.
  intros Hinv t0 tc k fp reply l l' Hb Hl c1 c2. pose proof (ci_accounted c Hinv) as Ha.
  pose proof (Begin_reserves c t0 k fp Ha Hb) as H0.
  assert (cache_inv (Begin c t0 k fp).1) as Hinv0 by by apply Begin_inv.
  assert (cache_inv c1) as Hinv1 by by apply run_inv.
  assert (conf c1 = conf c) as Hc1.
  { unfold c1. rewrite run_conf by done. apply (run_conf c [(t0, OpBegin k fp)] Hinv). }
  pose proof (quiet_run _ k _ l Hinv0 H0 Hl) as H1. fold c1 in H1.
  assert (c2 = if usedBytes c1 + len reply >? maxBytes (conf c1) then removeLocked c1 k else
    mkCache (<[k := mkCacheEntry false fp reply (tc + ttl (conf c1)) (len reply)]> (entries c1))
      (usedBytes c1 + len reply) (conf c1)) as Hc2.
  { unfold c2, Complete. rewrite H1. simpl. by rewrite (proj2 (sameFP_eq _ _) eq_refl). }
  split_and!.
  - intros t Ht. apply (Begin_live c1 t k _ (ci_accounted _ Hinv1) H1). done.
  - intros Hfit Hl' t Ht.
    assert (cache_inv c2) as Hinv2 by by apply Complete_inv.
    assert (entries c2 !! k = Some (mkCacheEntry false fp reply (tc + ttl (conf c)) (len reply))) as H2.
    { rewrite Hc2, Hc1, Z.gtb_ltb. destruct (Z.ltb_spec (maxBytes (conf c)) (usedBytes c1 + len reply)); [lia|].
      simpl. by rewrite lookup_insert_eq. }
    pose proof (quiet_run c2 k _ l' Hinv2 H2 Hl') as H3.
    by apply (Begin_live _ t k _ (ci_accounted _ (run_inv c2 l' Hinv2)) H3).
  - intros Hbig. rewrite Hc2, Hc1, Z.gtb_ltb.
    destruct (Z.ltb_spec (maxBytes (conf c)) (usedBytes c1 + len reply)); [|lia].
    rewrite removeLocked_entries. apply lookup_delete_eq.
Qed.

(** C20. The retransmission cache is bounded, truthful, and makes a request be
    handled at most once per time to live.  After any sequence of operations at
    any clock readings, a cache built with any configuration holds at most its
    entry and byte caps and accounts its bytes, and a hit returns exactly the
    octets a [Complete] stored for the same slot and the same fingerprint
    (Request Authenticator and SHA-256 of the packet).  A request whose [Begin]
    is a miss or a purge is then pending for its repetitions until it is
    completed, and from then on answered with the identical octets, whatever
    happens to other slots. *)
Theorem retransmission_cache (entries0 bytes0 ttl0 : Z) (l : list (Z * op)) :
  let c := run (newCache entries0 bytes0 ttl0) l in
  bounded_and_truthful c l /\ handled_once c.
Proof. intros c. split; [apply cache_bounded|]. apply once_per_ttl, run_inv, newCache_inv. Qed.

(** Two clients: the first one's request is repeated while the second one's
    is handled. *)
Definition slot_a : slotKey := mkSlotKey "ep" RoleAccess "10.0.0.1:1000" "radius" 1 7.
Definition slot_b : slotKey := mkSlotKey "ep" RoleAccess "10.0.0.2:1000" "radius" 1 7.
Definition fp_a : fingerprint := fingerprintOf ([1; 7; 0; 20] ++ replicate 16 1).

Lemma retransmission_cache_witness :
  let c := newCache 10 100 60 in
  let c1 := run (Begin c 5 slot_a fp_a).1 [(6, OpBegin slot_b fp_a); (7, OpBegin slot_a fp_a)] in
  (Begin c1 60 slot_a fp_a).2 = LookupPending
  /\ (Begin (run (Complete c1 8 slot_a fp_a [2; 7]) [(9, OpAbandon slot_b fp_a)]) 67 slot_a fp_a).2
     = LookupHit [2; 7].
Proof.
  intros c c1.
  assert (Forall (quiet slot_a fp_a (5 + ttl (conf c))) [(6, OpBegin slot_b fp_a); (7, OpBegin slot_a fp_a)]) as Hl.
  { constructor; [split; [done|left; discriminate]|].
    constructor; [split; [done|right; reflexivity]|constructor]. }
  assert ((Begin c 5 slot_a fp_a).2 = LookupMiss) as Hm by reflexivity.
  destruct (proj2 (retransmission_cache 10 100 60 []) 5 8 slot_a fp_a [2; 7] [(6, OpBegin slot_b fp_a); (7, OpBegin slot_a fp_a)]
    [(9, OpAbandon slot_b fp_a)] (or_introl Hm) Hl) as (H1 & H2 & _).
  split; [apply H1; vm_compute; reflexivity|].
  apply H2; [vm_compute; discriminate| |vm_compute; reflexivity].
  constructor; [split; [done|left; discriminate]|constructor].
Defined.
