(* ===== verification/StableSort.v ===== *)
(** * The standard library's stable sort

    [sort.SliceStable(s, less)] leaves [s] a sorted permutation of itself in
    which elements that [less] does not order keep their order.  Those three
    facts determine the result; insertion sort is an executable definition of
    it.  The policy compiler sorts rules and groups with it, by priority and
    then by identifier. *)

From Stdlib Require Import OrdersEx.
From stdpp Require Import sorting strings.
From S2P Require Import Prelude.

#[local] Open Scope Z_scope.

Section SliceStable.
Context {A : Type} (less : A -> A -> bool).

Fixpoint insert_stable (x : A) (l : list A) : list A :=
  match l with
  | [] => [x]
  | y :: tl => if less y x then y :: insert_stable x tl else x :: y :: tl
  end.

Definition SliceStable (l : list A) : list A := foldr insert_stable [] l.

Lemma insert_stable_perm x l : insert_stable x l ≡ₚ x :: l.
Proof.
  induction l as [|y l IH]; [done|]. cbn. destruct (less y x); [|done].
  rewrite IH. apply Permutation_swap.
Qed.

Lemma SliceStable_perm l : SliceStable l ≡ₚ l.
Proof. induction l as [|x l IH]; [done|]. cbn. by rewrite insert_stable_perm, IH. Qed.

(** [b] may follow [a]. *)
Definition in_order (a b : A) : Prop := less b a = false.

Lemma SliceStable_sorted l :
  Transitive in_order -> (forall a b, less a b = true -> less b a = false) ->
  StronglySorted in_order (SliceStable l).
Proof.
  intros Htr Has. induction l as [|x l IH]; [constructor|]. cbn.
  fold (SliceStable l). revert IH. generalize (SliceStable l). clear l. intros l Hl.
  induction Hl as [|y tl Htl IH Hf]; cbn; [repeat constructor|].
  destruct (less y x) eqn:E.
  - constructor; [done|]. rewrite insert_stable_perm. constructor; [by apply Has|done].
  - constructor; [by constructor|]. constructor; [done|].
    rewrite list.Forall_forall in Hf |- *. intros z Hz. apply (Htr _ y); [done|by apply Hf].
Qed.

(** The elements of a class that [less] does not order keep their order. *)
Lemma SliceStable_stable (p : A -> Prop) `{forall a, Decision (p a)} l :
  (forall a b, p a -> p b -> less a b = false) -> filter p (SliceStable l) = filter p l.
Proof.
  intros Hp. induction l as [|x l IH]; [done|]. cbn [SliceStable foldr]. fold (SliceStable l).
  rewrite filter_cons, <- IH. generalize (SliceStable l). clear IH l. intros l.
  induction l as [|y l IH]; cbn [insert_stable]; [by rewrite filter_cons, filter_nil|].
  destruct (less y x) eqn:E; [|by rewrite filter_cons].
  rewrite filter_cons, IH, filter_cons. destruct (decide (p x)) as [Hx|Hx], (decide (p y)) as [Hy|Hy]; try done.
  rewrite Hp in E by done. discriminate E.
Qed.
End SliceStable.

(** ** By priority, then by identifier *)

(** Go's [<] on strings is bytewise. *)
Definition str_ltb (a b : string) : bool := String.ltb a b.

Definition key_less (a b : Z * string) : bool :=
  if negb (a.1 =? b.1) then a.1 <? b.1 else str_ltb a.2 b.2.

Lemma str_ltb_spec a b : str_ltb a b = true <-> String_as_OT.lt a b.
Proof.
  unfold str_ltb, String.ltb. pose proof (String_as_OT.compare_spec a b) as H.
  change (String_as_OT.compare a b) with (String.compare a b) in H.
  pose proof String_as_OT.lt_strorder as [Hirr Htr].
  destruct (String.compare a b); inversion H as [He|He|He]; split; try done; intros H'; exfalso.
  - rewrite He in H'. by apply (Hirr b).
  - by apply (Hirr a), (Htr _ b).
Qed.

Lemma str_ltb_irrefl a : str_ltb a a = false.
Proof. apply not_true_iff_false. rewrite str_ltb_spec. apply String_as_OT.lt_strorder. Qed.

Lemma str_ltb_total a b : str_ltb a b = false -> str_ltb b a = false -> a = b.
Proof.
  unfold str_ltb, String.ltb. rewrite (String.compare_antisym b a).
  pose proof (String.compare_eq_iff a b) as H. destruct (String.compare a b); cbn; auto; discriminate.
Qed.

Lemma str_ltb_trans a b c : str_ltb a b = true -> str_ltb b c = true -> str_ltb a c = true.
Proof. rewrite !str_ltb_spec. apply String_as_OT.lt_strorder. Qed.

Lemma key_less_asym a b : key_less a b = true -> key_less b a = false.
Proof.
  unfold key_less. rewrite (Z.eqb_sym b.1). destruct (Z.eqb_spec a.1 b.1); cbn.
  - intros H. apply not_true_iff_false. intros H'. pose proof (str_ltb_trans _ _ _ H H') as Hc.
    by rewrite str_ltb_irrefl in Hc.
  - intros H%Z.ltb_lt. apply Z.ltb_ge. lia.
Qed.

#[export] Instance key_less_trans : Transitive (in_order key_less).
Proof.
  intros a b c. unfold in_order, key_less.
  destruct (Z.eqb_spec b.1 a.1), (Z.eqb_spec c.1 b.1), (Z.eqb_spec c.1 a.1); cbn; try lia.
  intros H1 H2. apply not_true_iff_false. intros H3. destruct (str_ltb a.2 b.2) eqn:E.
  - pose proof (str_ltb_trans _ _ _ H3 E). congruence.
  - rewrite (str_ltb_total a.2 b.2) in H3 by done. congruence.
Qed.
