(* ===== verification/Policy.v ===== *)
(** * The authorization policy engine

    [internal/policy]: compilation of users, groups and rules into an
    immutable engine, and the first-match walk that authorizes a service or a
    command, with its bounded trace.  [internal/domain/avpair.go] gives the
    attribute-value pairs.

    A compiled regular expression is its match function; [regexp.Compile],
    [net.ParseIP] and [time.LoadLocation] are parameters of the compiler: RE2,
    address text and the time-zone database are not modelled, and no property
    below depends on what they answer.  [now] is the reading of the engine's
    clock, zero for the zero time.  A nil engine is not modelled. *)

From Stdlib Require Import Ascii.
From stdpp Require Import gmap strings pretty sorting.
From S2P Require Import Prelude StableSort.

#[local] Open Scope Z_scope.

(** Go's [len] of a string, and [==]. *)
Definition slen (s : string) : Z := Z.of_nat (String.length s).
Definition str_eqb (a b : string) : bool := bool_decide (a = b).
Definition cat (a b : string) : string := String.append a b.

(** ** Attribute-value pairs *)

Definition AVPairMinEncodedLen := 2.
Definition AVPairMaxEncodedLen := 255.
Definition AVSepMandatory : ascii := "="%char.
Definition AVSepOptional : ascii := "*"%char.

Record AVPair := mkAVPair { av_Name : string; av_Separator : ascii; av_Value : string }.

Definition EncodedLen (p : AVPair) : Z := slen (av_Name p) + 1 + slen (av_Value p).

(** [strings.ContainsAny(s, "=*")] *)
Fixpoint containsSeparator (s : string) : bool :=
  match s with
  | EmptyString => false
  | String c s => bool_decide (c = AVSepMandatory) || bool_decide (c = AVSepOptional) || containsSeparator s
  end.

(** The message of [Validate]'s error. *)
Definition Validate (p : AVPair) : option string :=
  if str_eqb (av_Name p) "" then Some "AV pair name is required"%string
  else if containsSeparator (av_Name p) then Some "AV pair name must not contain = or *"%string
  else if negb (bool_decide (av_Separator p = AVSepMandatory) || bool_decide (av_Separator p = AVSepOptional))
  then Some "AV pair separator must be = or *"%string
  else if (EncodedLen p <? AVPairMinEncodedLen) || (EncodedLen p >? AVPairMaxEncodedLen)
  then Some "AV pair encoded length must be 2-255 bytes"%string
  else None.

(** [Error.Error()] of an error without a path. *)
Definition invalid_argument (message : string) : string := cat "invalid_argument: " message.

(** ** Decisions and statuses (enums.go) *)

(** [AuthorDecision] is a string type; any other value is [DecisionOther]. *)
Inductive AuthorDecision :=
| DecisionPermitAdd | DecisionPermitReplace | DecisionDeny | DecisionOther (s : string).
#[export] Instance AuthorDecision_eq_dec : EqDecision AuthorDecision.
Proof. solve_decision. Defined.

Definition AuthorDecision_String (d : AuthorDecision) : string :=
  match d with
  | DecisionPermitAdd => "permit_add"
  | DecisionPermitReplace => "permit_replace"
  | DecisionDeny => "deny"
  | DecisionOther s => s
  end%string.

Inductive AuthorStatus :=
| AuthorStatusPassAdd | AuthorStatusPassRepl | AuthorStatusFail | AuthorStatusError | AuthorStatusFollow.
#[export] Instance AuthorStatus_eq_dec : EqDecision AuthorStatus.
Proof. solve_decision. Defined.

Definition AuthorStatus_String (s : AuthorStatus) : string :=
  match s with
  | AuthorStatusPassAdd => "pass_add"
  | AuthorStatusPassRepl => "pass_repl"
  | AuthorStatusFail => "fail"
  | AuthorStatusError => "error"
  | AuthorStatusFollow => "follow"
  end%string.

Definition WireStatus (d : AuthorDecision) : AuthorStatus :=
  match d with
  | DecisionPermitAdd => AuthorStatusPassAdd
  | DecisionPermitReplace => AuthorStatusPassRepl
  | DecisionDeny => AuthorStatusFail
  | DecisionOther _ => AuthorStatusError
  end.

Inductive RuleKind := RuleKindService | RuleKindCommand.
#[export] Instance RuleKind_eq_dec : EqDecision RuleKind.
Proof. solve_decision. Defined.
Definition RuleKind_String (k : RuleKind) : string :=
  match k with RuleKindService => "service" | RuleKindCommand => "command" end%string.

(** ** The compiled engine (compile.go) *)

Record matcher := mkMatcher { m_exact : string; m_pattern : option (string -> bool) }.

Definition matcher_match (m : matcher) (s : string) : bool :=
  match m_pattern m with Some re => re s | None => str_eqb (m_exact m) s end.

Record compiledService := mkService {
  cs_id : string;
  cs_service : string;
  cs_protocol : option string;
  cs_action : AuthorDecision;
  cs_reply : list AVPair;
}.

Record compiledCommand := mkCommand {
  cc_id : string;
  cc_priority : Z;
  cc_action : AuthorDecision;
  cc_command : matcher;
  cc_args : matcher;
  cc_reason : string;
}.

Record compiledRuleSet := mkRuleSet { rs_services : list compiledService; rs_commands : list compiledCommand }.

Record limits := mkLimits { maxArgs : Z; maxArgBytes : Z; maxCmdBytes : Z; maxTraceSteps : Z }.

Record compiledUser := mkUser {
  cu_id : string;
  cu_enabled : bool;
  cu_groupIDs : list string;
  cu_rules : compiledRuleSet;
  cu_clientIDs : list string;
  cu_validAfter : option Z;
  cu_validBefore : option Z;
}.

Record compiledGroup := mkGroup { cg_id : string; cg_enabled : bool; cg_priority : Z; cg_rules : compiledRuleSet }.

Record compiledClient := mkClient { cl_id : string; cl_enabled : bool; cl_defaultGroupIDs : list string }.

Record Engine := mkEngine {
  e_users : gmap string compiledUser;
  e_groups : gmap string compiledGroup;
  e_clients : gmap string compiledClient;
  e_fallback : compiledRuleSet;
  e_limits : limits;
}.

(** The loop that appends the ids not yet seen. *)
Fixpoint add_ids (l : list string) (seen : gset string) (ids : list string) : gset string * list string :=
  match l with
  | [] => (seen, ids)
  | id :: l =>
    if str_eqb id "" then add_ids l seen ids
    else if bool_decide (id ∈ seen) then add_ids l seen ids
    else add_ids l ({[id]} ∪ seen) (ids ++ [id])
  end.

(** The loop that keeps the enabled groups. *)
Fixpoint enabled_groups (e : Engine) (ids : list string) : list compiledGroup :=
  match ids with
  | [] => []
  | id :: ids =>
    match e_groups e !! id with
    | Some g => if cg_enabled g then g :: enabled_groups e ids else enabled_groups e ids
    | None => enabled_groups e ids
    end
  end.

Definition group_less (a b : compiledGroup) : bool := key_less (cg_priority a, cg_id a) (cg_priority b, cg_id b).

Definition effectiveGroups (e : Engine) (u : compiledUser) (clientID : string) : list compiledGroup :=
  let '(seen, ids) := add_ids (cu_groupIDs u) ∅ [] in
  let '(_, ids) :=
    match e_clients e !! clientID with
    | Some c => if cl_enabled c then add_ids (cl_defaultGroupIDs c) seen ids else (seen, ids)
    | None => (seen, ids)
    end in
  SliceStable group_less (enabled_groups e ids).

(** ** Requests, traces, results (types.go) *)

Record Request := mkRequest {
  rq_UserID : string;
  rq_ClientID : string;
  rq_Service : string;
  rq_Protocol : string;
  rq_Cmd : string;
  rq_CmdArgs : list string;
  rq_Arguments : list AVPair;
  rq_AuthenMethod : string;
  rq_Privilege : Z;
  rq_Port : string;
  rq_RemoteAddr : string;
}.

Record TraceAV := mkTraceAV { ta_Name : string; ta_Separator : string; ta_Value : string }.

Record TraceStep := mkStep {
  ts_Source : string;
  ts_RuleID : string;
  ts_Kind : string;
  ts_Matched : bool;
  ts_Reason : string;
}.

Record TraceWinner := mkWinner { tw_Source : string; tw_RuleID : string; tw_Action : string }.

Record Trace := mkTrace {
  tr_Evaluator : string;
  tr_UserID : string;
  tr_ClientID : string;
  tr_Service : string;
  tr_Protocol : string;
  tr_Cmd : string;
  tr_CmdArgs : list string;
  tr_DisplayCmd : string;
  tr_RequestArguments : list TraceAV;
  tr_AuthenMethod : string;
  tr_Privilege : Z;
  tr_EffectiveGroupIDs : list string;
  tr_Steps : list TraceStep;
  tr_Winner : option TraceWinner;
  tr_Decision : string;
  tr_Status : string;
  tr_Arguments : list TraceAV;
  tr_DefaultDeny : string;
  tr_Error : string;
}.

(** [res_Decision] is [DecisionOther ""] on a processing error. *)
Record Result := mkResult {
  res_Decision : AuthorDecision;
  res_Status : AuthorStatus;
  res_Arguments : list AVPair;
  res_Trace : Trace;
}.

(** [strings.Join(args, " ")] *)
Definition joinArgs (args : list string) : string := String.concat " " args.

Definition displayCommand (cmd : string) (args : list string) : string :=
  if str_eqb cmd "" then joinArgs args
  else match args with [] => cmd | _ => cat cmd (cat " " (joinArgs args)) end.

Definition traceAVs (l : list AVPair) : list TraceAV :=
  map (fun p => mkTraceAV (av_Name p) (String (av_Separator p) EmptyString) (av_Value p)) l.

Definition newTrace (e : Engine) (kind : RuleKind) (req : Request) (groups : list compiledGroup) : Trace :=
  let display := displayCommand (rq_Cmd req) (rq_CmdArgs req) in
  let max := maxCmdBytes (e_limits e) in
  let display := if (0 <? max) && (slen display >? max) then String.substring 0 (Z.to_nat max) display else display in
  mkTrace (RuleKind_String kind) (rq_UserID req) (rq_ClientID req) (rq_Service req) (rq_Protocol req)
    (rq_Cmd req) (rq_CmdArgs req) display (traceAVs (rq_Arguments req)) (rq_AuthenMethod req)
    (rq_Privilege req) (map cg_id groups) [] None "" "" [] "" "".

(** Assignments to the fields of [tr]. *)
Definition tr_with_steps (tr : Trace) (steps : list TraceStep) : Trace :=
  mkTrace (tr_Evaluator tr) (tr_UserID tr) (tr_ClientID tr) (tr_Service tr) (tr_Protocol tr) (tr_Cmd tr)
    (tr_CmdArgs tr) (tr_DisplayCmd tr) (tr_RequestArguments tr) (tr_AuthenMethod tr) (tr_Privilege tr)
    (tr_EffectiveGroupIDs tr) steps (tr_Winner tr) (tr_Decision tr) (tr_Status tr) (tr_Arguments tr)
    (tr_DefaultDeny tr) (tr_Error tr).
Definition tr_with_outcome (tr : Trace) (winner : option TraceWinner) (decision status : string)
    (args : list TraceAV) (deny error : string) : Trace :=
  mkTrace (tr_Evaluator tr) (tr_UserID tr) (tr_ClientID tr) (tr_Service tr) (tr_Protocol tr) (tr_Cmd tr)
    (tr_CmdArgs tr) (tr_DisplayCmd tr) (tr_RequestArguments tr) (tr_AuthenMethod tr) (tr_Privilege tr)
    (tr_EffectiveGroupIDs tr) (tr_Steps tr) winner decision status args deny error.

(** ** Results (response.go) *)

Fixpoint buildReply_loop (reply : list AVPair) (lim : limits) (out : list AVPair) : result string (list AVPair) :=
  match reply with
  | [] => Ok out
  | p :: reply =>
    match Validate p with
    | Some message => Err (invalid_argument message)
    | None =>
      if (0 <? maxArgBytes lim) && (EncodedLen p >? maxArgBytes lim)
      then Err (invalid_argument "authorization argument exceeds max_argument_bytes")
      else buildReply_loop reply lim (out ++ [p])
    end
  end.

Definition buildReply (action : AuthorDecision) (reply : list AVPair) (lim : limits) : result string (list AVPair) :=
  if bool_decide (action = DecisionDeny) || (len reply =? 0) then Ok []
  else if (0 <? maxArgs lim) && (len reply >? maxArgs lim)
  then Err (invalid_argument "authorization response exceeds max_authorization_arguments")
  else buildReply_loop reply lim [].

Definition errorResult (tr : Trace) (reason : string) : Result :=
  mkResult (DecisionOther "") AuthorStatusError []
    (tr_with_outcome tr None "" (AuthorStatus_String AuthorStatusError) [] "" reason).

Definition finish (tr : Trace) (action : AuthorDecision) (reply : list AVPair) (lim : limits) : Result :=
  let status := WireStatus action in
  match buildReply action reply lim with
  | Err e => errorResult tr e
  | Ok avs =>
    mkResult action status avs
      (tr_with_outcome tr (tr_Winner tr) (AuthorDecision_String action) (AuthorStatus_String status)
         (traceAVs avs) (tr_DefaultDeny tr) (tr_Error tr))
  end.

Definition denyResult (tr : Trace) (reason : string) : Result :=
  let tr := tr_with_outcome tr None (tr_Decision tr) (tr_Status tr) (tr_Arguments tr) reason (tr_Error tr) in
  finish tr DecisionDeny [] (mkLimits 0 0 0 0).

Definition matchedResult (tr : Trace) (source ruleID : string) (action : AuthorDecision) (reply : list AVPair)
    (lim : limits) : Result :=
  let tr := tr_with_outcome tr (Some (mkWinner source ruleID (AuthorDecision_String action)))
              (tr_Decision tr) (tr_Status tr) (tr_Arguments tr) "" (tr_Error tr) in
  finish tr action reply lim.

(** ** Evaluation (evaluate.go) *)

Definition sourceUser : string := "user".
Definition sourceGroup : string := "group:".
Definition sourceFallback : string := "fallback".

Definition firstAV (args : list AVPair) (name : string) : option string :=
  av_Value <$> head (filter (fun p => av_Name p = name) args).
Definition allAV (args : list AVPair) (name : string) : list string :=
  av_Value <$> filter (fun p => av_Name p = name) args.

(** [extractFromAVs] and the defaults it gives to the empty fields. *)
Definition normalize (req : Request) : Request :=
  let args := rq_Arguments req in
  let svc := default "" (firstAV args "service") in
  let proto := default "" (firstAV args "protocol") in
  let cmdArgs := allAV args "cmd-arg" in
  mkRequest (rq_UserID req) (rq_ClientID req)
    (if str_eqb (rq_Service req) "" then svc else rq_Service req)
    (if str_eqb (rq_Protocol req) "" then proto else rq_Protocol req)
    (match firstAV args "cmd" with
     | Some cmd => if str_eqb (rq_Cmd req) "" then cmd else rq_Cmd req
     | None => rq_Cmd req
     end)
    (if (len (rq_CmdArgs req) =? 0) && (0 <? len cmdArgs) then cmdArgs else rq_CmdArgs req)
    args (rq_AuthenMethod req) (rq_Privilege req) (rq_Port req) (rq_RemoteAddr req).

Definition userValid (now : Z) (u : compiledUser) : bool :=
  if now =? 0 then true
  else if match cu_validAfter u with Some t => now <? t | None => false end then false
  else if match cu_validBefore u with Some t => negb (now <? t) | None => false end then false
  else true.

Definition clientAllowed (u : compiledUser) (clientID : string) : bool :=
  if len (cu_clientIDs u) =? 0 then true
  else if str_eqb clientID "" then false
  else existsb (fun id => str_eqb id clientID) (cu_clientIDs u).

Definition matchService (r : compiledService) (req : Request) : bool * string :=
  if negb (str_eqb (cs_service r) (rq_Service req)) then (false, "service mismatch"%string)
  else if match cs_protocol r with
          | Some p => negb (str_eqb p "") && negb (str_eqb p (rq_Protocol req))
          | None => false
          end then (false, "protocol mismatch"%string)
  else (true, "matched"%string).

Definition matchCommand (r : compiledCommand) (req : Request) : bool * string :=
  if negb (matcher_match (cc_command r) (rq_Cmd req)) then (false, "command mismatch"%string)
  else if negb (matcher_match (cc_args r) (joinArgs (rq_CmdArgs req))) then (false, "arguments mismatch"%string)
  else (true, "matched"%string).

Definition record (e : Engine) (tr : Trace) (step : TraceStep) : Trace :=
  if len (tr_Steps tr) >=? maxTraceSteps (e_limits e) then tr
  else tr_with_steps tr (tr_Steps tr ++ [step]).

(** [walkRules]: the result of the first match, or the trace after them all. *)
Fixpoint walk_services (e : Engine) (source : string) (rules : list compiledService) (req : Request) (tr : Trace)
    : Result + Trace :=
  match rules with
  | [] => inr tr
  | r :: rules =>
    let '(matched, reason) := matchService r req in
    let tr := record e tr (mkStep source (cs_id r) (RuleKind_String RuleKindService) matched reason) in
    if matched then inl (matchedResult tr source (cs_id r) (cs_action r) (cs_reply r) (e_limits e))
    else walk_services e source rules req tr
  end.

Fixpoint walk_commands (e : Engine) (source : string) (rules : list compiledCommand) (req : Request) (tr : Trace)
    : Result + Trace :=
  match rules with
  | [] => inr tr
  | r :: rules =>
    let '(matched, reason) := matchCommand r req in
    let reason := if matched && negb (str_eqb (cc_reason r) "") then cc_reason r else reason in
    let tr := record e tr (mkStep source (cc_id r) (RuleKind_String RuleKindCommand) matched reason) in
    if matched then inl (matchedResult tr source (cc_id r) (cc_action r) [] (e_limits e))
    else walk_commands e source rules req tr
  end.

Definition walkRules (e : Engine) (source : string) (rs : compiledRuleSet) (req : Request) (kind : RuleKind)
    (tr : Trace) : Result + Trace :=
  match kind with
  | RuleKindService => walk_services e source (rs_services rs) req tr
  | RuleKindCommand => walk_commands e source (rs_commands rs) req tr
  end.

Fixpoint walk_groups (e : Engine) (groups : list compiledGroup) (req : Request) (kind : RuleKind) (tr : Trace)
    : Result + Trace :=
  match groups with
  | [] => inr tr
  | g :: groups =>
    match walkRules e (cat sourceGroup (cg_id g)) (cg_rules g) req kind tr with
    | inl res => inl res
    | inr tr => walk_groups e groups req kind tr
    end
  end.

Definition evaluate (e : Engine) (now : Z) (req : Request) (kind : RuleKind) : Result :=
  let user := e_users e !! rq_UserID req in
  let groups := match user with
    | Some u => if cu_enabled u then effectiveGroups e u (rq_ClientID req) else []
    | None => []
    end in
  let tr := newTrace e kind req groups in
  match user with
  | None => denyResult tr "user not found"
  | Some u =>
    if negb (cu_enabled u) then denyResult tr "user disabled"
    else if negb (userValid now u) then denyResult tr "user not valid at evaluation time"
    else if negb (clientAllowed u (rq_ClientID req)) then denyResult tr "user not permitted on client"
    else
      match walkRules e sourceUser (cu_rules u) req kind tr with
      | inl res => res
      | inr tr =>
        match walk_groups e groups req kind tr with
        | inl res => res
        | inr tr =>
          match walkRules e sourceFallback (e_fallback e) req kind tr with
          | inl res => res
          | inr tr => denyResult tr (cat "no matching " (cat (RuleKind_String kind) " rule"))
          end
        end
      end
  end.

Definition commandKey (req : Request) : string := rq_Cmd req.

Definition Authorize (e : Engine) (now : Z) (req : Request) : Result :=
  let req := normalize req in
  if negb (str_eqb (commandKey req) "") then evaluate e now req RuleKindCommand
  else evaluate e now req RuleKindService.

Definition EvaluateService (e : Engine) (now : Z) (req : Request) : Result :=
  let req := normalize req in
  if negb (str_eqb (commandKey req) "")
  then denyResult (newTrace e RuleKindService req []) "service evaluator does not authorize commands"
  else evaluate e now req RuleKindService.

Definition EvaluateCommand (e : Engine) (now : Z) (req : Request) : Result :=
  let req := normalize req in
  if str_eqb (commandKey req) ""
  then denyResult (newTrace e RuleKindCommand req []) "command evaluator does not decide session requests"
  else evaluate e now req RuleKindCommand.

(** ** The argument dictionary (dictionary.go) *)

Inductive Encoding :=
| EncText | EncBoolean | EncNumeric | EncPrivilege | EncAddress | EncRepeatable | EncTimezone | EncEpoch | EncUnknown.

Record ArgSpec := mkArgSpec { as_Name : string; as_Encoding : Encoding; as_Known : bool; as_Repeatable : bool }.

Definition known (name : string) (enc : Encoding) : ArgSpec := mkArgSpec name enc true false.

Definition commonArgs : list ArgSpec :=
  [known "service" EncText;
   known "protocol" EncText;
   known "cmd" EncText;
   mkArgSpec "cmd-arg" EncRepeatable true true;
   known "acl" EncNumeric;
   known "inacl" EncText;
   known "outacl" EncText;
   known "addr" EncAddress;
   known "addr-pool" EncText;
   known "timeout" EncNumeric;
   known "idletime" EncNumeric;
   known "autocmd" EncText;
   known "noescape" EncBoolean;
   known "nohangup" EncBoolean;
   known "priv-lvl" EncPrivilege;
   known "timezone" EncTimezone;
   known "start_time" EncEpoch;
   known "stop_time" EncEpoch;
   known "task_id" EncText;
   known "elapsed_time" EncNumeric;
   known "event" EncText;
   known "reason" EncText;
   known "bytes" EncNumeric;
   known "bytes_in" EncNumeric;
   known "bytes_out" EncNumeric;
   known "paks" EncNumeric;
   known "paks_in" EncNumeric;
   known "paks_out" EncNumeric;
   known "err_msg" EncText].

(** [commonByName]: later entries would overwrite earlier ones. *)
Definition commonByName : gmap string ArgSpec :=
  fold_left (fun m s => <[as_Name s := s]> m) commonArgs ∅.

Definition LookupArg (name : string) : ArgSpec :=
  match commonByName !! name with
  | Some s => s
  | None => mkArgSpec name EncUnknown false false
  end.

Definition is_digit (c : ascii) : bool := (48 <=? Z.of_N (N_of_ascii c)) && (Z.of_N (N_of_ascii c) <=? 57).
Definition digit_value (c : ascii) : Z := Z.of_N (N_of_ascii c) - 48.

Fixpoint all_digits (s : string) : bool :=
  match s with EmptyString => true | String c s => is_digit c && all_digits s end.

(** The decimal value of a digit string, after [acc]. *)
Fixpoint decimal (s : string) (acc : Z) : Z :=
  match s with EmptyString => acc | String c s => decimal s (acc * 10 + digit_value c) end.

Definition maxUintDigits := 20.

(** [strconv.ParseUint(s, 10, 64)] on a non-empty digit string. *)
Definition ParseUint (s : string) : option Z :=
  if decimal s 0 <? 18446744073709551616 then Some (decimal s 0) else None.

Definition parseBoundedUint (s : string) : option Z :=
  if str_eqb s "" || (slen s >? maxUintDigits) then None
  else if negb (all_digits s) then None
  else if (slen s =? maxUintDigits) && str_ltb "18446744073709551615" s then None
  else ParseUint s.

(** [strconv.Atoi] *)
Definition Atoi (s : string) : option Z :=
  match s with
  | String c rest =>
    if bool_decide (c = "-"%char) || bool_decide (c = "+"%char) then
      if str_eqb rest "" || negb (all_digits rest) then None
      else Some (if bool_decide (c = "-"%char) then - decimal rest 0 else decimal rest 0)
    else if all_digits s then Some (decimal s 0) else None
  | EmptyString => None
  end.

(** The offset in seconds of [parseFixedOffset]'s location. *)
Definition parseFixedOffset (s : string) : option Z :=
  match s with
  | String c rest =>
    if (slen s <? 2) || negb (bool_decide (c = "+"%char) || bool_decide (c = "-"%char)) then None
    else
      let sign := if bool_decide (c = "-"%char) then -1 else 1 in
      let parsed :=
        if slen rest =? 2 then (fun h => (h, 0)) <$> Atoi rest
        else if slen rest =? 4 then
          match Atoi (String.substring 0 2 rest) with
          | Some h => (fun m => (h, m)) <$> Atoi (String.substring 2 2 rest)
          | None => None
          end
        else if (slen rest =? 5) && bool_decide (String.get 2 rest = Some ":"%char) then
          match Atoi (String.substring 0 2 rest) with
          | Some h => (fun m => (h, m)) <$> Atoi (String.substring 3 2 rest)
          | None => None
          end
        else None in
      match parsed with
      | Some (hours, mins) => if (hours >? 14) || (mins >? 59) then None else Some (sign * (hours * 3600 + mins * 60))
      | None => None
      end
  | EmptyString => None
  end.

(** [CodeInvalidArgument] and [CodeRegexInvalid], with the path; the messages
    are constants of the code and are not kept. *)
Inductive policy_error :=
| ErrArgument (path : string)
| ErrRegexInvalid (path : string).

(** ** Compilation *)

(** The configuration types the compiler reads (internal/config/types.go). *)
Record StringMatch := mkStringMatch { sm_Exact : string; sm_Pattern : string }.
Record ServiceRule := mkServiceRule {
  sr_Service : string; sr_Protocol : option string; sr_Action : AuthorDecision; sr_ReplyAttributes : list AVPair }.
Record CommandRule := mkCommandRule {
  cr_ID : string; cr_Priority : Z; cr_Action : AuthorDecision;
  cr_Command : StringMatch; cr_Arguments : StringMatch; cr_Reason : string }.
Record RuleSet := mkRules { Services : list ServiceRule; CommandRules : list CommandRule }.
Record Group := mkCfgGroup { gr_ID : string; gr_Priority : Z; gr_Enabled : bool; gr_Rules : RuleSet }.
Record User := mkCfgUser {
  us_ID : string; us_Enabled : bool; us_GroupIDs : list string; us_Rules : RuleSet;
  us_ClientIDs : list string; us_ValidAfter : option Z; us_ValidBefore : option Z }.
Record Client := mkCfgClient { ct_ID : string; ct_Enabled : bool; ct_DefaultGroupIDs : list string }.
Record Input := mkInput {
  in_Users : list User; in_Groups : list Group; in_Clients : list Client; in_Fallback : RuleSet; in_Limits : limits }.

Definition compileLimits (l : limits) : limits :=
  mkLimits (if maxArgs l <=? 0 then 256 else maxArgs l)
    (if maxArgBytes l <=? 0 then 65535 else maxArgBytes l)
    (if maxCmdBytes l <=? 0 then 65535 else maxCmdBytes l)
    (if maxTraceSteps l <=? 0 then 1000 else maxTraceSteps l).

(** [path + "[" + strconv.Itoa(i) + "]"] *)
Definition at_index (path : string) (i : Z) : string := cat path (cat "[" (cat (pretty i) "]")).

Section compile.
Variable regexp_Compile : string -> option (string -> bool).
Variable ParseIP : string -> bool.
(** Whether [time.LoadLocation] knows the name. *)
Variable IANALocation : string -> bool.

Definition LoadLocation (timezone : string) : bool :=
  str_eqb timezone "" || str_eqb timezone "UTC" || str_eqb timezone "Z" || IANALocation timezone
  || bool_decide (is_Some (parseFixedOffset timezone)).

(** Whether [ValidateValue] returns nil. *)
Definition ValidateValue (name value : string) : bool :=
  let spec := LookupArg name in
  if negb (as_Known spec) then true
  else match as_Encoding spec with
  | EncText | EncRepeatable => true
  | EncBoolean => str_eqb value "true" || str_eqb value "false"
  | EncNumeric | EncEpoch => bool_decide (is_Some (parseBoundedUint value))
  | EncPrivilege => match parseBoundedUint value with Some n => n <=? 15 | None => false end
  | EncAddress => ParseIP value
  | EncTimezone => LoadLocation value
  | EncUnknown => true
  end.

Definition ValidatePair (p : AVPair) : bool :=
  match Validate p with Some _ => false | None => ValidateValue (av_Name p) (av_Value p) end.

Fixpoint compileReply_loop (l : list AVPair) (path : string) (i : Z) (out : list AVPair)
    : result policy_error (list AVPair) :=
  match l with
  | [] => Ok out
  | p :: l =>
    if negb (ValidatePair p) then Err (ErrArgument (at_index path i))
    else compileReply_loop l path (i + 1) (out ++ [p])
  end.
Definition compileReply (l : list AVPair) (path : string) : result policy_error (list AVPair) :=
  compileReply_loop l path 0 [].

Definition compileMatcher (m : StringMatch) (path : string) : result policy_error matcher :=
  if negb (str_eqb (sm_Pattern m) "") then
    match regexp_Compile (sm_Pattern m) with
    | None => Err (ErrRegexInvalid (cat path ".pattern"))
    | Some re => Ok (mkMatcher "" (Some re))
    end
  else Ok (mkMatcher (sm_Exact m) None).

Fixpoint compileServices (l : list ServiceRule) (path : string) (i : Z) : result policy_error (list compiledService) :=
  match l with
  | [] => Ok []
  | r :: l =>
    let! reply := compileReply (sr_ReplyAttributes r) (cat (at_index (cat path ".services") i) ".reply_attributes") in
    let! rest := compileServices l path (i + 1) in
    Ok (mkService (at_index "services" i) (sr_Service r) (sr_Protocol r) (sr_Action r) reply :: rest)
  end.

Fixpoint compileCommands (l : list CommandRule) (path : string) (i : Z) : result policy_error (list compiledCommand) :=
  match l with
  | [] => Ok []
  | r :: l =>
    let! cmd := compileMatcher (cr_Command r) (cat (at_index (cat path ".command_rules") i) ".command") in
    let! args := compileMatcher (cr_Arguments r) (cat (at_index (cat path ".command_rules") i) ".arguments") in
    let! rest := compileCommands l path (i + 1) in
    Ok (mkCommand (cr_ID r) (cr_Priority r) (cr_Action r) cmd args (cr_Reason r) :: rest)
  end.

Definition command_less (a b : compiledCommand) : bool := key_less (cc_priority a, cc_id a) (cc_priority b, cc_id b).

Definition compileRuleSet (rs : RuleSet) (path : string) : result policy_error compiledRuleSet :=
  let! services := compileServices (Services rs) path 0 in
  let! commands := compileCommands (CommandRules rs) path 0 in
  Ok (mkRuleSet services (SliceStable command_less commands)).

Fixpoint compileGroups (l : list Group) (i : Z) (m : gmap string compiledGroup)
    : result policy_error (gmap string compiledGroup) :=
  match l with
  | [] => Ok m
  | g :: l =>
    let! rules := compileRuleSet (gr_Rules g) (at_index "groups" i) in
    compileGroups l (i + 1) (<[gr_ID g := mkGroup (gr_ID g) (gr_Enabled g) (gr_Priority g) rules]> m)
  end.

Fixpoint compileUsers (l : list User) (i : Z) (m : gmap string compiledUser)
    : result policy_error (gmap string compiledUser) :=
  match l with
  | [] => Ok m
  | u :: l =>
    let! rules := compileRuleSet (us_Rules u) (cat (at_index "users" i) ".rules") in
    compileUsers l (i + 1)
      (<[us_ID u := mkUser (us_ID u) (us_Enabled u) (us_GroupIDs u) rules (us_ClientIDs u)
                      (us_ValidAfter u) (us_ValidBefore u)]> m)
  end.

Definition Compile (i : Input) : result policy_error Engine :=
  let! groups := compileGroups (in_Groups i) 0 ∅ in
  let! users := compileUsers (in_Users i) 0 ∅ in
  let clients := fold_left (fun m c => <[ct_ID c := mkClient (ct_ID c) (ct_Enabled c) (ct_DefaultGroupIDs c)]> m)
                   (in_Clients i) ∅ in
  let! fallback := compileRuleSet (in_Fallback i) "fallback_rules" in
  Ok (mkEngine users groups clients fallback (compileLimits (in_Limits i))).
End compile.

(** A sign after the sign is read by [Atoi]: "+-5" is a fixed offset. *)
Example parseFixedOffset_signed : parseFixedOffset "+-5" = Some (-18000).
Proof. reflexivity. Qed.

(** ** The first-match rule *)

(** A rule as the walk meets it. *)
Record candidate := mkCandidate {
  ca_step : TraceStep;
  ca_action : AuthorDecision;
  ca_reply : list AVPair;
}.
Definition ca_matched (c : candidate) : bool := ts_Matched (ca_step c).

Definition service_candidate (source : string) (req : Request) (r : compiledService) : candidate :=
  let '(matched, reason) := matchService r req in
  mkCandidate (mkStep source (cs_id r) "service" matched reason) (cs_action r) (cs_reply r).
Definition command_candidate (source : string) (req : Request) (r : compiledCommand) : candidate :=
  let '(matched, reason) := matchCommand r req in
  mkCandidate (mkStep source (cc_id r) "command" matched
                 (if matched && negb (str_eqb (cc_reason r) "") then cc_reason r else reason)) (cc_action r) [].
Definition candidates (source : string) (rs : compiledRuleSet) (req : Request) (kind : RuleKind) : list candidate :=
  match kind with
  | RuleKindService => map (service_candidate source req) (rs_services rs)
  | RuleKindCommand => map (command_candidate source req) (rs_commands rs)
  end.
Definition group_candidates (groups : list compiledGroup) (req : Request) (kind : RuleKind) : list candidate :=
  concat (map (fun g => candidates (cat sourceGroup (cg_id g)) (cg_rules g) req kind) groups).

(** All rules in the order of the walk: the user's, the groups', the fallback. *)
Definition walk (e : Engine) (u : compiledUser) (req : Request) (kind : RuleKind) : list candidate :=
  candidates sourceUser (cu_rules u) req kind
  ++ group_candidates (effectiveGroups e u (rq_ClientID req)) req kind
  ++ candidates sourceFallback (e_fallback e) req kind.

(** The first rule that matches, and those before it. *)
Fixpoint first_match (l : list candidate) : option (list candidate * candidate) :=
  match l with
  | [] => None
  | c :: l =>
    if ca_matched c then Some ([], c)
    else match first_match l with Some (pre, c') => Some (c :: pre, c') | None => None end
  end.

Definition record_all (e : Engine) (tr : Trace) (l : list candidate) : Trace := fold_left (record e) (map ca_step l) tr.

Definition decided (e : Engine) (tr : Trace) (c : candidate) : Result :=
  matchedResult tr (ts_Source (ca_step c)) (ts_RuleID (ca_step c)) (ca_action c) (ca_reply c) (e_limits e).

(** What a walk over [l] gives. *)
Definition walk_result (e : Engine) (l : list candidate) (tr : Trace) : Result + Trace :=
  match first_match l with
  | Some (pre, c) => inl (decided e (record_all e tr (pre ++ [c])) c)
  | None => inr (record_all e tr l)
  end.

Lemma walk_result_cons e c l tr :
  walk_result e (c :: l) tr =
  let tr := record e tr (ca_step c) in if ca_matched c then inl (decided e tr c) else walk_result e l tr.
Proof.
  unfold walk_result. cbn [first_match]. destruct (ca_matched c); [done|].
  by destruct (first_match l) as [[pre c']|].
Qed.

Lemma walk_result_app e l1 l2 tr :
  walk_result e (l1 ++ l2) tr =
  match walk_result e l1 tr with inl res => inl res | inr tr => walk_result e l2 tr end.
Proof.
  revert tr. induction l1 as [|c l1 IH]; intros tr; [done|].
  rewrite <- app_comm_cons, !walk_result_cons. cbv zeta. destruct (ca_matched c); [done|]. apply IH.
Qed.

Lemma walkRules_result e source rs req kind tr :
  walkRules e source rs req kind tr = walk_result e (candidates source rs req kind) tr.
Proof.
  destruct kind; cbn [walkRules candidates].
  - revert tr. induction (rs_services rs) as [|r l IH]; intros tr; [done|]. cbn [map walk_services].
    rewrite walk_result_cons. unfold service_candidate at 1 2 3. destruct (matchService r req) as [[] reason]; [done|].
    apply IH.
  - revert tr. induction (rs_commands rs) as [|r l IH]; intros tr; [done|]. cbn [map walk_commands].
    rewrite walk_result_cons. unfold command_candidate at 1 2 3. destruct (matchCommand r req) as [[] reason]; [done|].
    apply IH.
Qed.

Lemma walk_groups_result e groups req kind tr :
  walk_groups e groups req kind tr = walk_result e (group_candidates groups req kind) tr.
Proof.
  revert tr. induction groups as [|g groups IH]; intros tr; [done|]. cbn [walk_groups].
  change (group_candidates (g :: groups) req kind)
    with (candidates (cat sourceGroup (cg_id g)) (cg_rules g) req kind ++ group_candidates groups req kind).
  rewrite walkRules_result, walk_result_app. by destruct (walk_result _ _ _).
Qed.

(** Why a request is refused before the walk, or its user. *)
Definition admission (e : Engine) (now : Z) (req : Request) : string + compiledUser :=
  match e_users e !! rq_UserID req with
  | None => inl "user not found"
  | Some u =>
    if negb (cu_enabled u) then inl "user disabled"
    else if negb (userValid now u) then inl "user not valid at evaluation time"
    else if negb (clientAllowed u (rq_ClientID req)) then inl "user not permitted on client"
    else inr u
  end%string.

Lemma evaluate_walk e now req kind :
  exists groups, let tr := newTrace e kind req groups in
  evaluate e now req kind =
  match admission e now req with
  | inl reason => denyResult tr reason
  | inr u =>
    match walk_result e (walk e u req kind) tr with
    | inl res => res
    | inr tr => denyResult tr (cat "no matching " (cat (RuleKind_String kind) " rule"))
    end
  end.
Proof.
  exists (match e_users e !! rq_UserID req with
          | Some u => if cu_enabled u then effectiveGroups e u (rq_ClientID req) else []
          | None => []
          end).
  cbv zeta. unfold evaluate, admission. destruct (e_users e !! rq_UserID req) as [u|]; [|reflexivity].
  destruct (cu_enabled u); cbn [negb]; [|reflexivity].
  destruct (negb (userValid now u)); [reflexivity|].
  destruct (negb (clientAllowed u (rq_ClientID req))); [reflexivity|].
  unfold walk. rewrite walkRules_result, walk_result_app.
  destruct (walk_result e (candidates sourceUser _ _ _) _) as [|tr]; [reflexivity|].
  rewrite walk_groups_result, walk_result_app. destruct (walk_result e (group_candidates _ _ _) _) as [|tr']; [reflexivity|].
  by rewrite walkRules_result.
Qed.

(** The trace keeps the first [max_trace_steps] rules considered. *)
Lemma record_all_steps e tr l :
  tr_Steps tr = [] ->
  record_all e tr l = tr_with_steps tr (take (Z.to_nat (maxTraceSteps (e_limits e))) (map ca_step l)).
Proof.
  intros H0. unfold record_all. set (max := maxTraceSteps (e_limits e)).
  enough (forall steps tr', (length (tr_Steps tr') <= Z.to_nat max)%nat ->
    fold_left (record e) steps tr' = tr_with_steps tr' (take (Z.to_nat max) (tr_Steps tr' ++ steps))) as H.
  { rewrite H, H0; [done|rewrite H0; simpl; lia]. }
  intros steps. induction steps as [|s steps IH]; intros tr' Hlen; cbn [fold_left].
  { rewrite app_nil_r, take_ge by done. by destruct tr'. }
  unfold record at 2. fold max. rewrite Z.geb_leb. destruct (Z.leb_spec max (len (tr_Steps tr'))) as [Hm|Hm].
  - rewrite IH by done. f_equal. rewrite !take_app_le by (unfold len in Hm; lia). done.
  - rewrite IH; [|cbn; rewrite length_app; cbn; unfold len in Hm; lia].
    cbn. unfold tr_with_steps. cbn. by rewrite <- app_assoc.
Qed.

(** The reply of a rule can be sent. *)
Definition reply_fits (lim : limits) (reply : list AVPair) : Prop :=
  (maxArgs lim <= 0 \/ len reply <= maxArgs lim)
  /\ Forall (fun p => Validate p = None /\ (maxArgBytes lim <= 0 \/ EncodedLen p <= maxArgBytes lim)) reply.

#[export] Instance reply_fits_dec lim reply : Decision (reply_fits lim reply).
Proof. unfold reply_fits. apply _. Defined.

Lemma buildReply_loop_spec reply lim out :
  if decide (Forall (fun p => Validate p = None /\ (maxArgBytes lim <= 0 \/ EncodedLen p <= maxArgBytes lim)) reply)
  then buildReply_loop reply lim out = Ok (out ++ reply)
  else exists e, buildReply_loop reply lim out = Err e.
Proof.
  revert out. induction reply as [|p reply IH]; intros out.
  { rewrite decide_True by constructor. by rewrite app_nil_r. }
  specialize (IH (out ++ [p])). cbn [buildReply_loop].
  destruct (Validate p) eqn:Hv.
  { rewrite decide_False; [by eexists|]. intros [[H _] _]%Forall_cons_1. congruence. }
  rewrite Z.gtb_ltb. destruct (Z.ltb_spec 0 (maxArgBytes lim)), (Z.ltb_spec (maxArgBytes lim) (EncodedLen p)); cbn [andb].
  { rewrite decide_False; [by eexists|]. intros [[_ H'] _]%Forall_cons_1. lia. }
  all: destruct (decide (Forall _ reply)) as [Hf|Hf];
    [rewrite decide_True by (apply Forall_cons_2; [split; [done|lia]|done]); by rewrite <- app_assoc in IH
    |rewrite decide_False; [done|by intros [_ ?]%Forall_cons_1]].
Qed.

Lemma buildReply_spec action reply lim :
  if decide (action = DecisionDeny) then buildReply action reply lim = Ok []
  else if decide (reply_fits lim reply) then buildReply action reply lim = Ok reply
  else exists e, buildReply action reply lim = Err e.
Proof.
  unfold buildReply. destruct (decide (action = DecisionDeny)) as [->|Ha]; [done|].
  rewrite bool_decide_eq_false_2 by done. cbn [orb].
  destruct (Z.eqb_spec (len reply) 0) as [H0|H0].
  { apply len_zero in H0. subst. rewrite decide_True; [done|]. split; [change (len (@nil AVPair)) with 0; lia|constructor]. }
  pose proof (buildReply_loop_spec reply lim []) as Hl. unfold reply_fits.
  rewrite Z.gtb_ltb. destruct (Z.ltb_spec 0 (maxArgs lim)), (Z.ltb_spec (maxArgs lim) (len reply)); cbn [andb].
  { rewrite decide_False; [by eexists|]. intros [H' _]. lia. }
  all: destruct (decide (Forall _ reply)); [rewrite decide_True by (split; [lia|done])|rewrite decide_False by tauto]; done.
Qed.

(** A request is refused. *)
Definition denied (res : Result) (reason : string) : Prop :=
  res_Decision res = DecisionDeny /\ res_Status res = AuthorStatusFail /\ res_Arguments res = []
  /\ tr_Winner (res_Trace res) = None /\ tr_DefaultDeny (res_Trace res) = reason.

Lemma denyResult_denied tr reason :
  denied (denyResult tr reason) reason /\ tr_Steps (res_Trace (denyResult tr reason)) = tr_Steps tr.
Proof. done. Qed.

(** A rule decided the request. *)
Definition decides (e : Engine) (c : candidate) (res : Result) : Prop :=
  if decide (ca_action c = DecisionDeny \/ reply_fits (e_limits e) (ca_reply c)) then
    res_Decision res = ca_action c /\ res_Status res = WireStatus (ca_action c)
    /\ res_Arguments res = (if decide (ca_action c = DecisionDeny) then [] else ca_reply c)
    /\ tr_Winner (res_Trace res) = Some (mkWinner (ts_Source (ca_step c)) (ts_RuleID (ca_step c))
                                           (AuthorDecision_String (ca_action c)))
  else res_Decision res = DecisionOther "" /\ res_Status res = AuthorStatusError /\ res_Arguments res = []
    /\ tr_Winner (res_Trace res) = None.

Lemma decided_decides e tr c :
  decides e c (decided e tr c) /\ tr_Steps (res_Trace (decided e tr c)) = tr_Steps tr.
Proof.
  unfold decides, decided, matchedResult, finish.
  pose proof (buildReply_spec (ca_action c) (ca_reply c) (e_limits e)) as H.
  destruct (decide (ca_action c = DecisionDeny)) as [Ha|Ha].
  - rewrite decide_True by auto. by rewrite H.
  - destruct (decide (reply_fits (e_limits e) (ca_reply c))) as [Hf|Hf].
    + rewrite decide_True by auto. by rewrite H.
    + rewrite decide_False by tauto. by destruct H as [err ->].
Qed.

(** Authorization is first-match.  A request is a command request when
    its command (explicit or from the arguments) is not empty, a service
    request otherwise, and only rules of that kind are considered.  A user
    that is unknown, disabled, outside its validity window or not permitted on
    the client is denied before any rule.  Otherwise the first rule that
    matches, in the order user, effective groups, fallback, decides: its
    action and, for a permit, exactly its reply attributes, or a processing
    error when the reply exceeds the limits; with no match the answer is
    deny.  A denied request carries no arguments, FOLLOW is never answered,
    and the trace holds the first [max_trace_steps] rules considered. *)
Definition first_match_decides (e : Engine) (now : Z) (req : Request) : Prop :=
  let req' := normalize req in
  let kind := if str_eqb (rq_Cmd req') "" then RuleKindService else RuleKindCommand in
  let res := Authorize e now req in
  let considered l := take (Z.to_nat (maxTraceSteps (e_limits e))) (map ca_step l) in
  match admission e now req' with
  | inl reason => denied res reason /\ tr_Steps (res_Trace res) = []
  | inr u =>
    let rules := walk e u req' kind in
    match first_match rules with
    | Some (pre, c) => decides e c res /\ tr_Steps (res_Trace res) = considered (pre ++ [c])
    | None => denied res (cat "no matching " (cat (RuleKind_String kind) " rule"))
              /\ tr_Steps (res_Trace res) = considered rules
    end
  end
  /\ (if str_eqb (rq_Cmd req') "" then res_Status (EvaluateCommand e now req) else res_Status (EvaluateService e now req))
     = AuthorStatusFail.

Lemma authorize_first_match (e : Engine) (now : Z) (req : Request) : first_match_decides e now req.
Proof.
  cbv beta delta [first_match_decides]. intros req' kind res considered. split.
  - assert (res = evaluate e now req' kind) as ->.
    { unfold res, Authorize, commandKey. fold req'. subst kind. by destruct (str_eqb (rq_Cmd req') ""). }
    destruct (evaluate_walk e now req' kind) as [groups ->]. cbv zeta.
    destruct (admission e now req') as [reason|u]; [apply denyResult_denied|].
    set (tr := newTrace e kind req' groups). assert (tr_Steps tr = []) as H0 by done. clearbody tr.
    unfold walk_result. destruct (first_match _) as [[pre c]|].
    + rewrite record_all_steps by done. destruct (decided_decides e (tr_with_steps tr (considered (pre ++ [c]))) c).
      split; done.
    + rewrite record_all_steps by done. apply denyResult_denied.
  - unfold EvaluateCommand, EvaluateService, commandKey. fold req'.
    by destruct (str_eqb (rq_Cmd req') "").
Qed.

(** Two rules of the user "u": the second one permits "show version". *)
Definition show_engine : Engine :=
  mkEngine
    {["u"%string := mkUser "u" true [] (mkRuleSet []
        [mkCommand "a" 1 DecisionDeny (mkMatcher "reload" None) (mkMatcher "" None) "";
         mkCommand "b" 2 DecisionPermitAdd (mkMatcher "show" None) (mkMatcher "version" None) "lab"]) [] None None]}
    ∅ ∅ (mkRuleSet [] []) (compileLimits (mkLimits 0 0 0 0)).
Example show_version_permitted :
  let req := mkRequest "u" "nas" "" "" "" [] [mkAVPair "cmd" AVSepMandatory "show"; mkAVPair "cmd-arg" AVSepMandatory "version"]
               "" 1 "" "" in
  res_Status (Authorize show_engine 5 req) = AuthorStatusPassAdd
  /\ map ts_RuleID (tr_Steps (res_Trace (Authorize show_engine 5 req))) = ["a"; "b"]%string.
Proof. vm_compute. split; reflexivity. Qed.

(** ** Compilation and the order of the walk *)

Lemma add_ids_spec l seen ids :
  (forall id, id ∈ seen <-> id ∈ ids) -> NoDup ids ->
  let '(seen', ids') := add_ids l seen ids in
  (forall id, id ∈ seen' <-> id ∈ ids') /\ NoDup ids'
  /\ forall id, id ∈ ids' <-> id ∈ ids \/ (id ∈ l /\ id <> ""%string).
Proof.
  revert seen ids. induction l as [|x l IH]; intros seen ids Hs Hnd; cbn [add_ids].
  { split_and!; [done|done|]. intros id. split; [by left|].
    intros [H|[H _]]; [done|by apply not_elem_of_nil in H]. }
  unfold str_eqb. case_bool_decide as Hx; [|case_bool_decide as Hin].
  - specialize (IH seen ids Hs Hnd). destruct (add_ids l seen ids) as [seen' ids'].
    destruct IH as (H1 & H2 & H3). split_and!; [done|done|]. intros id. rewrite H3, elem_of_cons. subst x. tauto.
  - specialize (IH seen ids Hs Hnd). destruct (add_ids l seen ids) as [seen' ids'].
    destruct IH as (H1 & H2 & H3). split_and!; [done|done|]. intros id. rewrite H3, elem_of_cons.
    apply Hs in Hin. split; [tauto|]. intros [|[ [ ->|] ?]]; auto.
  - specialize (IH ({[x]} ∪ seen) (ids ++ [x])). destruct (add_ids l ({[x]} ∪ seen) (ids ++ [x])) as [seen' ids'].
    destruct IH as (H1 & H2 & H3).
    { intros id. rewrite elem_of_union, elem_of_singleton, elem_of_app, list_elem_of_singleton, Hs. tauto. }
    { apply list.NoDup_app. split_and!; [done| |apply NoDup_singleton].
      intros y Hy ->%list_elem_of_singleton. by apply Hin, Hs. }
    split_and!; [done|done|]. intros id. rewrite H3, elem_of_app, list_elem_of_singleton, elem_of_cons.
    split; [intros [ [|Hx']|[ ]]; subst; auto|]. intros [|[ [ ->|] ?]]; auto.
Qed.

Section compile_facts.
Variable regexp_Compile : string -> option (string -> bool).
Variable ParseIP IANALocation : string -> bool.

Let valid_pair (p : AVPair) : Prop := ValidatePair ParseIP IANALocation p = true.

(** The compiled matcher is the configured one. *)
Definition matcher_of (m : StringMatch) (k : matcher) : Prop :=
  if str_eqb (sm_Pattern m) "" then forall s, matcher_match k s = str_eqb (sm_Exact m) s
  else exists re, regexp_Compile (sm_Pattern m) = Some re /\ forall s, matcher_match k s = re s.

Definition service_of (r : ServiceRule) (s : compiledService) : Prop :=
  cs_service s = sr_Service r /\ cs_protocol s = sr_Protocol r /\ cs_action s = sr_Action r
  /\ cs_reply s = sr_ReplyAttributes r /\ Forall valid_pair (cs_reply s).

Definition command_of (r : CommandRule) (k : compiledCommand) : Prop :=
  cc_id k = cr_ID r /\ cc_priority k = cr_Priority r /\ cc_action k = cr_Action r /\ cc_reason k = cr_Reason r
  /\ matcher_of (cr_Command r) (cc_command k) /\ matcher_of (cr_Arguments r) (cc_args k).

(** The services in the configured order; the commands by priority, then by
    identifier, and in the configured order where those agree. *)
Definition ruleset_of (rs : RuleSet) (c : compiledRuleSet) : Prop :=
  Forall2 service_of (Services rs) (rs_services c)
  /\ exists cmds, Forall2 command_of (CommandRules rs) cmds
     /\ rs_commands c ≡ₚ cmds /\ StronglySorted (in_order command_less) (rs_commands c)
     /\ forall key, filter (fun k => (cc_priority k, cc_id k) = key) (rs_commands c)
                    = filter (fun k => (cc_priority k, cc_id k) = key) cmds.

Lemma compileReply_loop_Ok l path i out out' :
  compileReply_loop ParseIP IANALocation l path i out = Ok out' -> out' = out ++ l /\ Forall valid_pair l.
Proof.
  revert i out. induction l as [|p l IH]; intros i out H; cbn in H.
  { injection H as <-. rewrite app_nil_r. split; [done|constructor]. }
  destruct (ValidatePair ParseIP IANALocation p) eqn:E; cbn in H; [|done].
  apply IH in H as [-> Hf]. rewrite <- app_assoc. split; [done|by constructor].
Qed.

Lemma compileMatcher_Ok m path k : compileMatcher regexp_Compile m path = Ok k -> matcher_of m k.
Proof.
  unfold compileMatcher, matcher_of. destruct (str_eqb (sm_Pattern m) ""); cbn; [by intros [= <-]|].
  destruct (regexp_Compile (sm_Pattern m)) as [re|]; [|done]. intros [= <-]. by exists re.
Qed.

Lemma compileServices_Ok l path i c :
  compileServices ParseIP IANALocation l path i = Ok c -> Forall2 service_of l c.
Proof.
  revert i c. induction l as [|r l IH]; intros i c H; cbn in H; [injection H as <-; constructor|].
  apply rbind_Ok in H as (reply & Hr & H). apply rbind_Ok in H as (rest & H & Hc). injection Hc as <-.
  apply compileReply_loop_Ok in Hr as [-> Hf]. constructor; [|by apply (IH (i + 1))]. by split_and!.
Qed.

Lemma compileCommands_Ok l path i c :
  compileCommands regexp_Compile l path i = Ok c -> Forall2 command_of l c.
Proof.
  revert i c. induction l as [|r l IH]; intros i c H; cbn in H; [injection H as <-; constructor|].
  apply rbind_Ok in H as (cmd & Hcmd & H). apply rbind_Ok in H as (args & Hargs & H).
  apply rbind_Ok in H as (rest & H & Hc). injection Hc as <-.
  constructor; [|by apply (IH (i + 1))]. split_and!; try done; by eapply compileMatcher_Ok.
Qed.

#[local] Instance command_less_trans : Transitive (in_order command_less).
Proof. intros a b c. apply key_less_trans. Qed.
#[local] Instance group_less_trans : Transitive (in_order group_less).
Proof. intros a b c. apply key_less_trans. Qed.

Lemma key_less_irrefl k : key_less k k = false.
Proof. destruct (key_less k k) eqn:E; [|done]. pose proof (key_less_asym _ _ E). congruence. Qed.

Lemma compileRuleSet_Ok rs path c :
  compileRuleSet regexp_Compile ParseIP IANALocation rs path = Ok c -> ruleset_of rs c.
Proof.
  unfold compileRuleSet. intros H. apply rbind_Ok in H as (services & Hs & H).
  apply rbind_Ok in H as (cmds & Hc & H). injection H as <-.
  split; [by eapply compileServices_Ok|]. exists cmds. cbn [rs_commands]. split_and!.
  - by eapply compileCommands_Ok.
  - apply SliceStable_perm.
  - apply SliceStable_sorted; [apply _|]. intros a b. apply key_less_asym.
  - intros key. apply SliceStable_stable. intros a b <- Hb. unfold command_less. rewrite <- Hb. apply key_less_irrefl.
Qed.

Definition group_of (id : string) (g : compiledGroup) (cfg : Group) : Prop :=
  cg_id g = id /\ gr_ID cfg = id /\ cg_enabled g = gr_Enabled cfg /\ cg_priority g = gr_Priority cfg
  /\ ruleset_of (gr_Rules cfg) (cg_rules g).

Lemma compileGroups_Ok l i m m' :
  compileGroups regexp_Compile ParseIP IANALocation l i m = Ok m' ->
  forall id g, m' !! id = Some g -> m !! id = Some g \/ exists cfg, cfg ∈ l /\ group_of id g cfg.
Proof.
  revert i m. induction l as [|cfg l IH]; intros i m H id g Hg; cbn in H; [injection H as <-; by left|].
  apply rbind_Ok in H as (rules & Hr & H). apply compileRuleSet_Ok in Hr.
  destruct (IH _ _ H id g Hg) as [Hm|(c & Hin & Hc)]; [|right; exists c; split; [by right|done]].
  apply lookup_insert_Some in Hm as [[<- <-]|[_ Hm]]; [|by left].
  right. exists cfg. split; [by left|]. by split_and!.
Qed.

Definition user_of (id : string) (u : compiledUser) (cfg : User) : Prop :=
  cu_id u = id /\ us_ID cfg = id /\ cu_enabled u = us_Enabled cfg /\ cu_groupIDs u = us_GroupIDs cfg
  /\ cu_clientIDs u = us_ClientIDs cfg /\ cu_validAfter u = us_ValidAfter cfg
  /\ cu_validBefore u = us_ValidBefore cfg /\ ruleset_of (us_Rules cfg) (cu_rules u).

Lemma compileUsers_Ok l i m m' :
  compileUsers regexp_Compile ParseIP IANALocation l i m = Ok m' ->
  forall id u, m' !! id = Some u -> m !! id = Some u \/ exists cfg, cfg ∈ l /\ user_of id u cfg.
Proof.
  revert i m. induction l as [|cfg l IH]; intros i m H id u Hu; cbn in H; [injection H as <-; by left|].
  apply rbind_Ok in H as (rules & Hr & H). apply compileRuleSet_Ok in Hr.
  destruct (IH _ _ H id u Hu) as [Hm|(c & Hin & Hc)]; [|right; exists c; split; [by right|done]].
  apply lookup_insert_Some in Hm as [[<- <-]|[_ Hm]]; [|by left].
  right. exists cfg. split; [by left|]. by split_and!.
Qed.

(** ** Effective groups *)

Lemma enabled_groups_spec e ids :
  (forall id g, e_groups e !! id = Some g -> cg_id g = id) -> NoDup ids ->
  NoDup (map cg_id (enabled_groups e ids))
  /\ forall g, g ∈ enabled_groups e ids <-> cg_enabled g = true /\ cg_id g ∈ ids /\ e_groups e !! cg_id g = Some g.
Proof.
  intros Hkey. induction ids as [|id ids IH]; intros Hnd; cbn [enabled_groups].
  { split; [constructor|]. intros g. split; [by intros ?%not_elem_of_nil|].
    intros (_ & H & _). by apply not_elem_of_nil in H. }
  apply list.NoDup_cons in Hnd as [Hid Hnd]. destruct (IH Hnd) as [H1 H2].
  assert (forall g, e_groups e !! id <> Some g \/ cg_enabled g = false -> (cg_enabled g = true /\ cg_id g ∈ ids /\ e_groups e !! cg_id g = Some g)
    <-> (cg_enabled g = true /\ cg_id g ∈ id :: ids /\ e_groups e !! cg_id g = Some g)) as Hskip.
  { intros g Hg. rewrite elem_of_cons. split; [tauto|]. intros (He & [Hi|Hi] & Hl); [|done].
    rewrite Hi in Hl. destruct Hg; congruence. }
  destruct (e_groups e !! id) as [g0|] eqn:Hg0.
  - pose proof (Hkey id g0 Hg0) as Hk. destruct (cg_enabled g0) eqn:Hen.
    + split.
      * cbn [map]. constructor; [|done]. intros Hin. apply list_elem_of_fmap in Hin as (g & Heq & Hg).
        apply H2 in Hg as (_ & Hg & _). congruence.
      * intros g. rewrite elem_of_cons, H2. split.
        -- intros [->|(He & Hi & Hl)]; [split_and!; [done|rewrite Hk; by left|by rewrite Hk]|].
           split_and!; [done|by right|done].
        -- intros (He & [Hi|Hi]%elem_of_cons & Hl); [left; congruence|right; done].
    + split; [done|]. intros g. rewrite H2. apply Hskip. destruct (decide (cg_enabled g = true)) as [He|He].
      * left. congruence.
      * right. by apply not_true_iff_false.
  - split; [done|]. intros g. rewrite H2. apply Hskip. by left.
Qed.

Lemma effectiveGroups_spec e u clientID :
  (forall id g, e_groups e !! id = Some g -> cg_id g = id) ->
  NoDup (map cg_id (effectiveGroups e u clientID))
  /\ StronglySorted (in_order group_less) (effectiveGroups e u clientID)
  /\ forall g, g ∈ effectiveGroups e u clientID <->
     cg_enabled g = true /\ e_groups e !! cg_id g = Some g /\ cg_id g <> ""%string
     /\ (cg_id g ∈ cu_groupIDs u
         \/ exists c, e_clients e !! clientID = Some c /\ cl_enabled c = true /\ cg_id g ∈ cl_defaultGroupIDs c).
Proof.
  intros Hkey. unfold effectiveGroups.
  pose proof (add_ids_spec (cu_groupIDs u) ∅ [] ltac:(set_solver) ltac:(constructor)) as H1.
  destruct (add_ids (cu_groupIDs u) ∅ []) as [seen ids]. destruct H1 as (Hs & Hnd & Hids).
  set (r := match e_clients e !! clientID with Some c => _ | None => _ end).
  assert (NoDup r.2 /\ forall id, id ∈ r.2 <-> id <> ""%string /\ (id ∈ cu_groupIDs u
    \/ exists c, e_clients e !! clientID = Some c /\ cl_enabled c = true /\ id ∈ cl_defaultGroupIDs c)) as [Hr1 Hr2].
  { subst r. destruct (e_clients e !! clientID) as [c|]; [destruct (cl_enabled c) eqn:Hc|].
    - pose proof (add_ids_spec (cl_defaultGroupIDs c) seen ids Hs Hnd) as H2.
      destruct (add_ids (cl_defaultGroupIDs c) seen ids) as [seen' ids']. destruct H2 as (_ & H2 & H3).
      split; [done|]. intros id. cbn [snd]. rewrite H3, Hids, elem_of_nil. split.
      + intros [[[]|[Hi Hne]]|[Hi Hne]]; (split; [done|]); [by left|right; by exists c].
      + intros [Hne [Hi|(c' & [= <-] & _ & Hi)]]; [left; right; done|by right].
    - split; [done|]. intros id. cbn [snd]. rewrite Hids, elem_of_nil. split.
      + intros [[]|[Hi Hne]]. split; [done|by left].
      + intros [Hne [Hi|(c' & [= <-] & Hc' & _)]]; [by right|congruence].
    - split; [done|]. intros id. cbn [snd]. rewrite Hids, elem_of_nil. split.
      + intros [[]|[Hi Hne]]. split; [done|by left].
      + intros [Hne [Hi|(c' & ? & _)]]; [by right|done]. }
  clearbody r. destruct r as [seen' ids']. cbn in Hr1, Hr2.
  destruct (enabled_groups_spec e ids' Hkey Hr1) as [E1 E2].
  pose proof (SliceStable_perm group_less (enabled_groups e ids')) as Hp. split_and!.
  - change (map cg_id) with (fmap cg_id : list compiledGroup -> list string). by rewrite Hp.
  - apply SliceStable_sorted; [apply _|]. intros a b. apply key_less_asym.
  - intros g. rewrite Hp, E2, Hr2. tauto.
Qed.

(** Compilation is faithful and fixes the order of the walk.  In a
    compiled engine every user, every group and the fallback carry their
    configured rules: the services in the configured order, the commands
    sorted by priority and then by identifier and otherwise in the configured
    order, every matcher the configured text or regular expression, and every
    reply attribute valid.  The effective groups of a user on a client are
    exactly the enabled groups named by the user or by the enabled client's
    defaults, each once, by priority and then by identifier. *)
Definition faithful_engine (i : Input) (e : Engine) : Prop :=
  (forall id g, e_groups e !! id = Some g -> exists cfg, cfg ∈ in_Groups i /\ group_of id g cfg)
  /\ (forall id u, e_users e !! id = Some u -> exists cfg, cfg ∈ in_Users i /\ user_of id u cfg)
  /\ ruleset_of (in_Fallback i) (e_fallback e)
  /\ e_limits e = compileLimits (in_Limits i)
  /\ forall u clientID,
     NoDup (map cg_id (effectiveGroups e u clientID))
     /\ StronglySorted (in_order group_less) (effectiveGroups e u clientID)
     /\ forall g, g ∈ effectiveGroups e u clientID <->
        cg_enabled g = true /\ e_groups e !! cg_id g = Some g /\ cg_id g <> ""%string
        /\ (cg_id g ∈ cu_groupIDs u
            \/ exists c, e_clients e !! clientID = Some c /\ cl_enabled c = true /\ cg_id g ∈ cl_defaultGroupIDs c).

Lemma compile_walk_order (i : Input) (e : Engine) :
  Compile regexp_Compile ParseIP IANALocation i = Ok e -> faithful_engine i e.
Proof.
  unfold Compile. intros H. apply rbind_Ok in H as (groups & Hg & H). apply rbind_Ok in H as (users & Hu & H).
  apply rbind_Ok in H as (fallback & Hf & H). injection H as <-. cbn [e_groups e_users e_fallback e_limits].
  assert (forall id g, groups !! id = Some g -> exists cfg, cfg ∈ in_Groups i /\ group_of id g cfg) as Hgroups.
  { intros id g Hid. destruct (compileGroups_Ok _ _ _ _ Hg id g Hid) as [H|H]; [by rewrite lookup_empty in H|done]. }
  split_and!; [done| |by eapply compileRuleSet_Ok|done|].
  - intros id u Hid. destruct (compileUsers_Ok _ _ _ _ Hu id u Hid) as [H|H]; [by rewrite lookup_empty in H|done].
  - intros u clientID. apply effectiveGroups_spec. cbn [e_groups]. intros id g Hid.
    destruct (Hgroups id g Hid) as (cfg & _ & Hk & _). done.
Qed.

End compile_facts.

(** A configuration with two groups, the second of higher precedence. *)
Definition example_input : Input :=
  mkInput [mkCfgUser "u" true ["g1"; "g2"; "g1"] (mkRules [] []) [] None None]
    [mkCfgGroup "g1" 20 true (mkRules [] []);
     mkCfgGroup "g2" 10 true (mkRules [] [mkCommandRule "a" 1 DecisionDeny (mkStringMatch "" "^sh") (mkStringMatch "" "") ""])]
    [mkCfgClient "nas" true ["g1"]] (mkRules [] []) (mkLimits 0 0 0 0).

Definition prefix_engine : result policy_error Engine :=
  Compile (fun p => Some (fun s => String.prefix p s)) (fun _ => false) (fun _ => false) example_input.
Definition walk_ids (r : result policy_error Engine) : option (list string) :=
  match r with
  | Ok e => (fun u => map cg_id (effectiveGroups e u "nas")) <$> e_users e !! "u"%string
  | Err _ => None
  end.

