(* ===== verification/Events.v ===== *)
(** * The event ring

    [internal/events/ring.go]: a bounded, overwrite-oldest log of events with
    cursor reads and live fan-out to subscribers.  Every method runs under
    the ring's mutex, so a run is a sequence of atomic operations.  A channel
    is the list of what was sent on it and the number of values taken from
    it; the consumers, the stdout goroutine among them, are operations of the
    run too.  An event is a value of the model: [CloneEvent] copies the
    argument slice and the two time pointers because Go would share them.
    [cancel] takes the mutex twice, so it is two operations; [Close] signals
    the subscribers after releasing the mutex, when they are already detached,
    and is one.  A nil ring and the metrics are not modelled. *)

From stdpp Require Import gmap strings list_numbers sorting.
From S2P Require Import Prelude.

#[local] Open Scope Z_scope.

Definition defaultCapacity := 10000.
Definition defaultStdoutBuffer := 256.
Definition defaultSubBuffer := 16.
Definition DefaultLimit := 50.
Definition MaxLimit := 200.
Definition SchemaVersion := 1.
Definition MaxSubscribers := 128.

(** ** Events *)

Record EventAV := mkEventAV { av_Name : string; av_Separator : string; av_Value : string }.

(** Times are nanoseconds since Go's zero time. *)
Record Event := mkEvent {
  ev_SchemaVersion : Z;
  ev_ID : Z;
  ev_Time : Z;
  ev_Category : string;
  ev_Type : string;
  ev_Result : string;
  ev_Transport : string;
  ev_ClientID : string;
  ev_SessionID : Z;
  ev_Revision : Z;
  ev_UserID : string;
  ev_Command : string;
  ev_TaskID : string;
  ev_Arguments : list EventAV;
  ev_StartTime : option Z;
  ev_StopTime : option Z;
  ev_AuthenMethod : string;
  ev_AuthenType : string;
  ev_Service : string;
  ev_Privilege : Z;
  ev_Port : string;
  ev_Remote : string;
  ev_Protocol : string;
  ev_Carrier : string;
  ev_ListenerRole : string;
  ev_ListenerID : string;
  ev_PacketCode : string;
  ev_Outcome : string;
  ev_ReasonCode : string;
  ev_EndpointID : string;
  ev_AcctSessionID : string;
  ev_SuppressExport : bool;
}.

(** [Event{}] *)
Definition Event_zero : Event :=
  mkEvent 0 0 0 "" "" "" "" "" 0 0 "" "" "" [] None None "" "" "" 0 "" "" "" "" "" "" "" "" "" "" "" false.

(** What [Accept] fills in: [e.ID], [e.SchemaVersion], [e.Time]. *)
Definition stamp (seq now : Z) (e : Event) : Event :=
  mkEvent (if ev_SchemaVersion e =? 0 then SchemaVersion else ev_SchemaVersion e) seq
    (if ev_Time e =? 0 then now else ev_Time e)
    (ev_Category e) (ev_Type e) (ev_Result e) (ev_Transport e) (ev_ClientID e) (ev_SessionID e)
    (ev_Revision e) (ev_UserID e) (ev_Command e) (ev_TaskID e) (ev_Arguments e) (ev_StartTime e)
    (ev_StopTime e) (ev_AuthenMethod e) (ev_AuthenType e) (ev_Service e) (ev_Privilege e)
    (ev_Port e) (ev_Remote e) (ev_Protocol e) (ev_Carrier e) (ev_ListenerRole e) (ev_ListenerID e)
    (ev_PacketCode e) (ev_Outcome e) (ev_ReasonCode e) (ev_EndpointID e) (ev_AcctSessionID e)
    (ev_SuppressExport e).

(** ** Channels, subscribers, the ring *)

Record channel := mkChannel { ch_cap : Z; ch_sent : list Event; ch_taken : nat }.

(** [select { case ch <- e: ... default: ... }] *)
Definition try_send (c : channel) (e : Event) : option channel :=
  if len (ch_sent c) - Z.of_nat (ch_taken c) <? ch_cap c
  then Some (mkChannel (ch_cap c) (ch_sent c ++ [e]) (ch_taken c)) else None.

(** The receiver's step, when the channel is not empty. *)
Definition receive (c : channel) : channel :=
  if Z.of_nat (ch_taken c) <? len (ch_sent c)
  then mkChannel (ch_cap c) (ch_sent c) (S (ch_taken c)) else c.

(** How far the subscription's [cancel] has come. *)
Inductive cancelled := NotCalled | Unsubscribed | Released.

(** [sb_drop]: the [drop] channel is closed. *)
Record subscriber := mkSubscriber { sb_ch : channel; sb_drop : bool; sb_cancel : cancelled }.

Definition signalDrop (s : subscriber) : subscriber := mkSubscriber (sb_ch s) true (sb_cancel s).

(** [r_subs] holds the identities of the attached subscribers, [r_heap] all
    subscribers ever admitted, by identity. *)
Record Ring := mkRing {
  r_cap : Z;
  r_seq : Z;
  r_buf : list Event;
  r_start : Z;
  r_n : Z;
  r_overwritten : Z;
  r_reject : bool;
  r_stdoutCh : option channel;
  r_stdoutDropped : Z;
  r_subs : list nat;
  r_heap : list subscriber;
  r_admitted : Z;
  r_closed : bool;
}.

Definition inc_u64 (x : Z) : Z := (x + 1) mod 18446744073709551616.

Definition NewWithOptions (capacity stdoutBuffer : Z) (stdout : bool) : Ring :=
  let capacity := if capacity <=? 0 then defaultCapacity else capacity in
  mkRing capacity 0 (replicate (Z.to_nat capacity) Event_zero) 0 0 0 false
    (if stdout
     then Some (mkChannel (if stdoutBuffer <=? 0 then defaultStdoutBuffer else stdoutBuffer) [] 0)
     else None)
    0 [] [] 0 false.

Definition SetReject (r : Ring) (v : bool) : Ring :=
  mkRing (r_cap r) (r_seq r) (r_buf r) (r_start r) (r_n r) (r_overwritten r) v
    (r_stdoutCh r) (r_stdoutDropped r) (r_subs r) (r_heap r) (r_admitted r) (r_closed r).

(** [r.buf[(r.start+i) % r.cap]] *)
Definition buf_at (r : Ring) (i : Z) : Event :=
  nth (Z.to_nat ((r_start r + i) mod r_cap r)) (r_buf r) Event_zero.

(** [r.buf[i] = e] *)
Definition buf_set (buf : list Event) (i : Z) (e : Event) : list Event := <[Z.to_nat i := e]> buf.

Definition Ring_store (r : Ring) (e : Event) : Ring :=
  if r_n r =? r_cap r then
    mkRing (r_cap r) (ev_ID e) (buf_set (r_buf r) (r_start r) e) ((r_start r + 1) mod r_cap r) (r_n r)
      (inc_u64 (r_overwritten r)) (r_reject r)
      (r_stdoutCh r) (r_stdoutDropped r) (r_subs r) (r_heap r) (r_admitted r) (r_closed r)
  else
    mkRing (r_cap r) (ev_ID e) (buf_set (r_buf r) ((r_start r + r_n r) mod r_cap r) e) (r_start r) (r_n r + 1)
      (r_overwritten r) (r_reject r)
      (r_stdoutCh r) (r_stdoutDropped r) (r_subs r) (r_heap r) (r_admitted r) (r_closed r).

(** [stop] is closed with [closed], under the mutex, so with the ring open only
    the send can be chosen. *)
Definition emitStdout (r : Ring) (e : Event) : Ring :=
  match r_stdoutCh r with
  | None => r
  | Some ch =>
    if ev_SuppressExport e then r
    else if r_closed r then r
    else
      let '(ch, dropped) := match try_send ch e with
        | Some ch => (ch, r_stdoutDropped r)
        | None => (ch, inc_u64 (r_stdoutDropped r))
        end in
      mkRing (r_cap r) (r_seq r) (r_buf r) (r_start r) (r_n r) (r_overwritten r) (r_reject r)
        (Some ch) dropped (r_subs r) (r_heap r) (r_admitted r) (r_closed r)
  end.

(** The loop of [fanoutLocked]: the subscribers kept, and all of them. *)
Fixpoint fanout_loop (subs : list nat) (heap : list subscriber) (e : Event) : list nat * list subscriber :=
  match subs with
  | [] => ([], heap)
  | id :: rest =>
    match heap !! id with
    | None => fanout_loop rest heap e
    | Some s =>
      match try_send (sb_ch s) e with
      | Some ch =>
        let '(kept, heap) := fanout_loop rest (<[id := mkSubscriber ch (sb_drop s) (sb_cancel s)]> heap) e in
        (id :: kept, heap)
      | None => fanout_loop rest (<[id := signalDrop s]> heap) e
      end
    end
  end.

Definition set_subs (r : Ring) (subs : list nat) (heap : list subscriber) (admitted : Z) : Ring :=
  mkRing (r_cap r) (r_seq r) (r_buf r) (r_start r) (r_n r) (r_overwritten r) (r_reject r)
    (r_stdoutCh r) (r_stdoutDropped r) subs heap admitted (r_closed r).

Definition fanoutLocked (r : Ring) (e : Event) : Ring :=
  if ev_SuppressExport e then r
  else let '(kept, heap) := fanout_loop (r_subs r) (r_heap r) e in
    set_subs r kept heap (r_admitted r).

(** The event returned has [ID] zero when nothing was stored. *)
Definition Accept (r : Ring) (now : Z) (e : Event) : Ring * Event :=
  if r_reject r then (r, Event_zero)
  else if r_closed r then (r, Event_zero)
  else
    let e := stamp (inc_u64 (r_seq r)) now e in
    let r := Ring_store r e in
    let r := emitStdout r e in
    let r := if 0 <? len (r_subs r) then fanoutLocked r e else r in
    (r, e).

(** ** Reads *)

(** [for i := 0; i < r.n; i++ { ... r.buf[(r.start+i)%r.cap] ... }] *)
Definition Snapshot (r : Ring) : list Event := map (buf_at r) (seqZ 0 (r_n r)).

Definition Len (r : Ring) : Z := r_n r.

Definition Latest (r : Ring) : option Event :=
  if r_n r =? 0 then None else Some (buf_at r (r_n r - 1)).

Record Query := mkQuery {
  q_AfterID : Z;
  q_Limit : Z;
  q_Categories : list string;
  q_Protocol : string;
  q_ListenerRole : string;
  q_PacketCode : string;
  q_Outcome : string;
}.

Record Page := mkPage {
  pg_Items : list Event;
  pg_NextAfterID : Z;
  pg_HasMore : bool;
  pg_Reset : bool;
  pg_Overwritten : Z;
  pg_OldestID : Z;
  pg_NewestID : Z;
}.

Definition str_eqb (a b : string) : bool := bool_decide (a = b).

Definition categorySet (cats : list string) : option (gset string) :=
  let out := list_to_set (filter (fun c => c <> ""%string) cats) : gset string in
  if bool_decide (size out = 0%nat) then None else Some out.

Definition categoryOK (want : option (gset string)) (got : string) : bool :=
  match want with None => true | Some s => bool_decide (got ∈ s) end.

Definition queryMatch (q : Query) (want : option (gset string)) (ev : Event) : bool :=
  if negb (categoryOK want (ev_Category ev)) then false
  else if negb (str_eqb (q_Protocol q) "")
          && negb (str_eqb (if str_eqb (ev_Protocol ev) "" then "tacacs" else ev_Protocol ev) (q_Protocol q)) then false
  else if negb (str_eqb (q_ListenerRole q) "") && negb (str_eqb (ev_ListenerRole ev) (q_ListenerRole q)) then false
  else if negb (str_eqb (q_PacketCode q) "") && negb (str_eqb (ev_PacketCode ev) (q_PacketCode q)) then false
  else if negb (str_eqb (q_Outcome q) "") && negb (str_eqb (ev_Outcome ev) (q_Outcome q)) then false
  else true.

Definition Match (q : Query) (ev : Event) : bool := queryMatch q (categorySet (q_Categories q)) ev.

(** The first loop of [readLocked]. *)
Fixpoint page_loop (q : Query) (want : option (gset string)) (limit : Z) (evs out : list Event) : list Event :=
  match evs with
  | [] => out
  | ev :: rest =>
    if len out <? limit then
      if (ev_ID ev <=? q_AfterID q) || ev_SuppressExport ev then page_loop q want limit rest out
      else if negb (queryMatch q want ev) then page_loop q want limit rest out
      else page_loop q want limit rest (out ++ [ev])
    else out
  end.

(** The second one. *)
Fixpoint more_loop (q : Query) (want : option (gset string)) (last : Z) (evs : list Event) : bool :=
  match evs with
  | [] => false
  | ev :: rest =>
    if (ev_ID ev <=? last) || ev_SuppressExport ev then more_loop q want last rest
    else if queryMatch q want ev then true
    else more_loop q want last rest
  end.

Definition readLocked (r : Ring) (q : Query) (limit : Z) : Page :=
  let want := categorySet (q_Categories q) in
  if r_n r =? 0 then mkPage [] 0 false false (r_overwritten r) 0 0
  else
    let oldest := ev_ID (buf_at r 0) in
    let newest := ev_ID (buf_at r (r_n r - 1)) in
    let reset := (0 <? q_AfterID q) && (1 <? oldest) && (q_AfterID q <? oldest - 1) in
    let evs := map (buf_at r) (seqZ 0 (r_n r)) in
    let out := page_loop q want limit evs [] in
    let next := match list.last out with Some ev => ev_ID ev | None => q_AfterID q end in
    mkPage out next (more_loop q want next evs) reset (r_overwritten r) oldest newest.

Definition Replay (r : Ring) (q : Query) : Page := readLocked r q (r_cap r).

Definition Read (r : Ring) (q : Query) : Page :=
  let limit := if q_Limit q <=? 0 then DefaultLimit else q_Limit q in
  let limit := if limit >? MaxLimit then MaxLimit else limit in
  readLocked r q limit.

(** ** Subscriptions *)

Definition TrySubscribe (r : Ring) (buf : Z) : Ring * option nat :=
  let buf := if buf <=? 0 then defaultSubBuffer else buf in
  let buf := if buf >? r_cap r then r_cap r else buf in
  if r_closed r || (r_admitted r >=? MaxSubscribers) then (r, None)
  else
    let id := length (r_heap r) in
    let sub := mkSubscriber (mkChannel buf [] 0) false NotCalled in
    (set_subs r (r_subs r ++ [id]) (r_heap r ++ [sub]) (r_admitted r + 1), Some id).

(** [detach] removes the first subscriber with that channel. *)
Fixpoint detach (subs : list nat) (id : nat) : list nat :=
  match subs with
  | [] => []
  | s :: rest => if (s =? id)%nat then rest else s :: detach rest id
  end.

(** The two halves of the [cancel] function; [sync.Once] runs it once. *)
Definition unsubscribe (r : Ring) (id : nat) : Ring :=
  match r_heap r !! id with
  | Some (mkSubscriber ch drop NotCalled) =>
    set_subs r (detach (r_subs r) id) (<[id := mkSubscriber ch drop Unsubscribed]> (r_heap r)) (r_admitted r)
  | _ => r
  end.
Definition release (r : Ring) (id : nat) : Ring :=
  match r_heap r !! id with
  | Some (mkSubscriber ch drop Unsubscribed) =>
    set_subs r (r_subs r) (<[id := mkSubscriber ch drop Released]> (r_heap r)) (r_admitted r - 1)
  | _ => r
  end.

Definition Close (r : Ring) : Ring :=
  if r_closed r then r
  else
    mkRing (r_cap r) (r_seq r) (r_buf r) (r_start r) (r_n r) (r_overwritten r) (r_reject r)
      (r_stdoutCh r) (r_stdoutDropped r) []
      (foldr (fun id heap => alter signalDrop id heap) (r_heap r) (r_subs r)) (r_admitted r) true.

(** ** Runs *)

Inductive op :=
| OpAccept (now : Z) (e : Event)
| OpSetReject (v : bool)
| OpSubscribe (buf : Z)
| OpUnsubscribe (id : nat)
| OpRelease (id : nat)
| OpReceive (id : nat)
| OpStdout
| OpClose.

(** The state after the operation, and the event it stored. *)
Definition step (r : Ring) (o : op) : Ring * list Event :=
  match o with
  | OpAccept now e =>
    let '(r', e') := Accept r now e in (r', if r_reject r || r_closed r then [] else [e'])
  | OpSetReject v => (SetReject r v, [])
  | OpSubscribe buf => ((TrySubscribe r buf).1, [])
  | OpUnsubscribe id => (unsubscribe r id, [])
  | OpRelease id => (release r id, [])
  | OpReceive id =>
    (set_subs r (r_subs r)
       (alter (fun s => mkSubscriber (receive (sb_ch s)) (sb_drop s) (sb_cancel s)) id (r_heap r))
       (r_admitted r), [])
  | OpStdout =>
    (mkRing (r_cap r) (r_seq r) (r_buf r) (r_start r) (r_n r) (r_overwritten r) (r_reject r)
       (receive <$> r_stdoutCh r) (r_stdoutDropped r) (r_subs r) (r_heap r) (r_admitted r) (r_closed r), [])
  | OpClose => (Close r, [])
  end.

(** A run, and the events stored in it, in order. *)
Fixpoint run (r : Ring) (l : list op) : Ring * list Event :=
  match l with
  | [] => (r, [])
  | o :: l =>
    let '(r1, e1) := step r o in
    let '(r2, e2) := run r1 l in
    (r2, e1 ++ e2)
  end.

(** ** The ring refines a bounded list *)

Definition lastn {A} (k : Z) (l : list A) : list A := drop (Z.to_nat (len l - k)) l.

Lemma lastn_all {A} k (l : list A) : len l <= k -> lastn k l = l.
Proof. intros H. unfold lastn. by replace (Z.to_nat (len l - k)) with 0%nat by lia. Qed.

Lemma len_lastn {A} k (l : list A) : 0 <= k -> len (lastn k l) = Z.min k (len l).
Proof. unfold lastn, len. rewrite length_drop. lia. Qed.

(** Appending to a full window drops its head. *)
Lemma lastn_snoc {A} k (l : list A) x :
  0 < k -> lastn k (l ++ [x]) = (if len l <? k then lastn k l else tail (lastn k l)) ++ [x].
Proof.
  intros Hk. unfold lastn. rewrite len_snoc. destruct (Z.ltb_spec (len l) k).
  - by replace (Z.to_nat (len l + 1 - k)) with 0%nat by lia; replace (Z.to_nat (len l - k)) with 0%nat by lia.
  - replace (Z.to_nat (len l + 1 - k)) with (S (Z.to_nat (len l - k))) by lia.
    rewrite drop_app_le by (unfold len in *; lia). f_equal.
    generalize (Z.to_nat (len l - k)). clear. induction l as [|a l IH]; intros [|n]; simpl; [done|done|done|].
    apply IH.
Qed.

(** [(start+i) % cap] without the division. *)
Lemma wrap_mod s i c : 0 <= s < c -> 0 <= i <= c -> (s + i) mod c = if s + i <? c then s + i else s + i - c.
Proof.
  intros Hs Hi. destruct (Z.ltb_spec (s + i) c); [by rewrite Z.mod_small by lia|].
  symmetry. apply (Z.mod_unique_pos _ _ 1); lia.
Qed.

Record log_shape (r : Ring) : Prop := {
  ls_cap : 0 < r_cap r;
  ls_buf : len (r_buf r) = r_cap r;
  ls_start : 0 <= r_start r < r_cap r;
  ls_n : 0 <= r_n r <= r_cap r;
}.

Lemma len_buf_set b i e : len (buf_set b i e) = len b.
Proof. unfold len, buf_set. by rewrite length_insert. Qed.

Lemma nth_buf_set b i j e :
  0 <= i < len b -> 0 <= j ->
  nth (Z.to_nat j) (buf_set b i e) Event_zero = if j =? i then e else nth (Z.to_nat j) b Event_zero.
Proof.
  intros Hi Hj. unfold buf_set. rewrite !nth_lookup. destruct (Z.eqb_spec j i) as [->|Hne].
  - rewrite list_lookup_insert_eq; [done|unfold len in Hi; lia].
  - rewrite list_lookup_insert_ne by lia. done.
Qed.

Lemma Snapshot_lookup r (i : nat) :
  Snapshot r !! i = if Z.of_nat i <? r_n r then Some (buf_at r (Z.of_nat i)) else None.
Proof.
  unfold Snapshot. change (map (buf_at r)) with (fmap (buf_at r) : list Z -> list Event).
  rewrite list_lookup_fmap. destruct (Z.ltb_spec (Z.of_nat i) (r_n r)).
  - by rewrite lookup_seqZ_lt by done.
  - by rewrite lookup_seqZ_ge by done.
Qed.

Lemma len_Snapshot r : 0 <= r_n r -> len (Snapshot r) = r_n r.
Proof. intros. unfold len, Snapshot. rewrite length_map, length_seqZ. lia. Qed.

(** Storing appends, and drops the oldest event of a full ring. *)
Lemma Snapshot_store r e :
  log_shape r ->
  Snapshot (Ring_store r e) = (if r_n r <? r_cap r then Snapshot r else tail (Snapshot r)) ++ [e].
Proof.
  intros [Hc Hb Hs Hn]. apply list_eq. intros i. pose proof (len_Snapshot r) as Hl.
  rewrite Snapshot_lookup. unfold Ring_store, buf_at.
  destruct (Z.eqb_spec (r_n r) (r_cap r)) as [Hf|Hf]; cbn [r_n r_buf r_start r_cap].
  - destruct (Z.ltb_spec (r_n r) (r_cap r)); [lia|].
    destruct (decide (Z.of_nat i < r_n r - 1)) as [Hi|Hi].
    + rewrite lookup_app_l by (rewrite length_tl; unfold len in Hl; lia).
      rewrite lookup_tail, Snapshot_lookup.
      destruct (Z.ltb_spec (Z.of_nat i) (r_n r)); [|lia].
      destruct (Z.ltb_spec (Z.of_nat (S i)) (r_n r)); [|lia]. f_equal. unfold buf_at.
      rewrite Z.add_mod_idemp_l by lia. replace (r_start r + 1 + Z.of_nat i) with (r_start r + Z.of_nat (S i)) by lia.
      rewrite nth_buf_set by (try apply Z.mod_pos_bound; lia).
      destruct (Z.eqb_spec ((r_start r + Z.of_nat (S i)) mod r_cap r) (r_start r)) as [He|]; [|done].
      rewrite wrap_mod in He by lia. destruct (Z.ltb_spec (r_start r + Z.of_nat (S i)) (r_cap r)); lia.
    + rewrite lookup_app_r by (rewrite length_tl; unfold len in Hl; lia).
      rewrite length_tl. destruct (Z.ltb_spec (Z.of_nat i) (r_n r)).
      * replace (i - (length (Snapshot r) - 1))%nat with 0%nat by (unfold len in Hl; lia). simpl. f_equal.
        rewrite Z.add_mod_idemp_l by lia. replace (r_start r + 1 + Z.of_nat i) with (r_start r + r_cap r) by lia.
        rewrite nth_buf_set by (try apply Z.mod_pos_bound; lia).
        rewrite wrap_mod by lia. destruct (Z.ltb_spec (r_start r + r_cap r) (r_cap r)); [lia|].
        by replace (r_start r + r_cap r - r_cap r =? r_start r) with true by (symmetry; apply Z.eqb_eq; lia).
      * symmetry. apply lookup_ge_None. simpl. unfold len in Hl. lia.
  - destruct (Z.ltb_spec (r_n r) (r_cap r)); [|lia].
    destruct (decide (Z.of_nat i < r_n r)) as [Hi|Hi].
    + rewrite lookup_app_l by (unfold len in Hl; lia). rewrite Snapshot_lookup.
      destruct (Z.ltb_spec (Z.of_nat i) (r_n r + 1)); [|lia].
      destruct (Z.ltb_spec (Z.of_nat i) (r_n r)); [|lia]. f_equal. unfold buf_at.
      rewrite nth_buf_set; [|rewrite Hb; apply Z.mod_pos_bound; lia|apply Z.mod_pos_bound; lia].
      destruct (Z.eqb_spec ((r_start r + Z.of_nat i) mod r_cap r) ((r_start r + r_n r) mod r_cap r)) as [He|]; [|done].
      rewrite !wrap_mod in He by lia.
      destruct (Z.ltb_spec (r_start r + Z.of_nat i) (r_cap r)), (Z.ltb_spec (r_start r + r_n r) (r_cap r)); lia.
    + rewrite lookup_app_r by (unfold len in Hl; lia).
      destruct (Z.ltb_spec (Z.of_nat i) (r_n r + 1)).
      * replace (i - length (Snapshot r))%nat with 0%nat by (unfold len in Hl; lia). simpl. f_equal.
        replace (Z.of_nat i) with (r_n r) by lia.
        rewrite nth_buf_set; [|rewrite Hb; apply Z.mod_pos_bound; lia|apply Z.mod_pos_bound; lia].
        by rewrite Z.eqb_refl.
      * symmetry. apply lookup_ge_None. simpl. unfold len in Hl. lia.
Qed.

(** Everything but the log leaves the log alone. *)
Definition same_log (r r' : Ring) : Prop :=
  r_cap r' = r_cap r /\ r_seq r' = r_seq r /\ r_buf r' = r_buf r /\ r_start r' = r_start r
  /\ r_n r' = r_n r /\ r_overwritten r' = r_overwritten r.

Lemma emitStdout_log r e : same_log r (emitStdout r e).
Proof.
  unfold emitStdout. destruct (r_stdoutCh r) as [ch|]; [|done].
  destruct (ev_SuppressExport e), (r_closed r); try done. by destruct (try_send ch e).
Qed.

Lemma fanoutLocked_log r e : same_log r (fanoutLocked r e).
Proof. unfold fanoutLocked. destruct (ev_SuppressExport e); [done|]. by destruct (fanout_loop _ _ _). Qed.

Lemma Accept_refused r now e : r_reject r = true \/ r_closed r = true -> Accept r now e = (r, Event_zero).
Proof. intros [H|H]; unfold Accept; rewrite H; [done|]. by destruct (r_reject r). Qed.

Lemma Accept_stored r now e :
  r_reject r = false -> r_closed r = false ->
  let e' := stamp (inc_u64 (r_seq r)) now e in
  (Accept r now e).2 = e' /\ same_log (Ring_store r e') (Accept r now e).1.
Proof.
  intros H1 H2 e'. unfold Accept. rewrite H1, H2. fold e'. split; [done|]. cbn [fst].
  destruct (emitStdout_log (Ring_store r e') e') as (A1 & A2 & A3 & A4 & A5 & A6).
  destruct (0 <? _); [|done].
  destruct (fanoutLocked_log (emitStdout (Ring_store r e') e') e') as (B1 & B2 & B3 & B4 & B5 & B6).
  unfold same_log. split_and!; congruence.
Qed.

Lemma unsubscribe_log r id : same_log r (unsubscribe r id).
Proof. unfold unsubscribe. by destruct (r_heap r !! id) as [[? ? []]|]. Qed.
Lemma release_log r id : same_log r (release r id).
Proof. unfold release. by destruct (r_heap r !! id) as [[? ? []]|]. Qed.
Lemma TrySubscribe_log r b : same_log r (TrySubscribe r b).1.
Proof. unfold TrySubscribe. by destruct (_ || _). Qed.
Lemma Close_log r : same_log r (Close r).
Proof. unfold Close. by destruct (r_closed r). Qed.

Lemma same_log_Snapshot r r' : same_log r r' -> Snapshot r' = Snapshot r.
Proof.
  intros (H1 & _ & H3 & H4 & H5 & _). unfold Snapshot. rewrite H5.
  apply map_ext. intros i. unfold buf_at. by rewrite H1, H3, H4.
Qed.

Definition two64 : Z := 18446744073709551616.

(** [acc] is everything stored so far. *)
Record log_inv (cap : Z) (r : Ring) (acc : list Event) : Prop := {
  li_shape : log_shape r;
  li_cap : r_cap r = cap;
  li_snapshot : Snapshot r = lastn cap acc;
  li_n : r_n r = Z.min cap (len acc);
  li_seq : r_seq r = len acc;
  li_overwritten : r_overwritten r = len acc - r_n r;
  li_ids : map ev_ID acc = seqZ 1 (len acc);
}.

Lemma log_inv_same cap r r' acc : same_log r r' -> log_inv cap r acc -> log_inv cap r' acc.
Proof.
  intros Hs [[S1 S2 S3 S4] H1 H2 H3 H4 H5 H6]. pose proof (same_log_Snapshot r r' Hs) as Hn.
  destruct Hs as (A1 & A2 & A3 & A4 & A5 & A6).
  constructor; [constructor| | | | | |]; congruence.
Qed.

Lemma NewWithOptions_log capacity sb out :
  log_inv (if capacity <=? 0 then defaultCapacity else capacity) (NewWithOptions capacity sb out) [].
Proof.
  unfold NewWithOptions. destruct (Z.leb_spec capacity 0) as [Hc|Hc]; unfold defaultCapacity;
    (constructor; [constructor|..]); cbn -[Z.to_nat replicate]; try done; try lia.
  - unfold len. rewrite length_replicate. lia.
  - by rewrite lastn_all by (change (len (@nil Event)) with 0; lia).
  - change (len (@nil Event)) with 0. lia.
Qed.

Lemma log_store_inv cap r acc e :
  log_inv cap r acc -> len acc + 1 < two64 -> ev_ID e = len acc + 1 ->
  log_inv cap (Ring_store r e) (acc ++ [e]).
Proof.
  intros [[S1 S2 S3 S4] H1 H2 H3 H4 H5 H6] Hb He.
  pose proof (len_nonneg acc). pose proof (Z.mod_pos_bound (r_start r + 1) (r_cap r)).
  assert (log_shape (Ring_store r e)) as Hsh.
  { unfold Ring_store. destruct (Z.eqb_spec (r_n r) (r_cap r));
      constructor; cbn; rewrite ?len_buf_set; lia. }
  constructor; [done|..].
  - unfold Ring_store. by destruct (r_n r =? r_cap r).
  - rewrite Snapshot_store by done. rewrite lastn_snoc by lia. rewrite H2, H3, H1.
    destruct (Z.ltb_spec (Z.min cap (len acc)) cap), (Z.ltb_spec (len acc) cap); (done || lia).
  - rewrite len_snoc. unfold Ring_store. destruct (Z.eqb_spec (r_n r) (r_cap r)); cbn; lia.
  - rewrite len_snoc. unfold Ring_store. destruct (r_n r =? r_cap r); cbn; lia.
  - rewrite len_snoc. unfold Ring_store, inc_u64. fold two64.
    destruct (Z.eqb_spec (r_n r) (r_cap r)); cbn; [rewrite Z.mod_small by lia|]; lia.
  - rewrite len_snoc, map_app, H6. rewrite seqZ_app by lia. f_equal. cbn [map].
    rewrite He, seqZ_cons by lia. cbn. f_equal. lia.
Qed.

Lemma log_step_inv cap r acc o :
  log_inv cap r acc -> len acc + 1 < two64 -> log_inv cap (step r o).1 (acc ++ (step r o).2).
Proof.
  intros Hi Hb. destruct o; cbn [step fst snd]; rewrite ?app_nil_r;
    try (apply (log_inv_same cap r); [|done];
         (done || apply TrySubscribe_log || apply unsubscribe_log || apply release_log || apply Close_log)).
  destruct (r_reject r || r_closed r) eqn:Er.
  { rewrite Accept_refused by (destruct (r_reject r); auto). cbn. by rewrite app_nil_r. }
  bool_hyps. destruct (Accept_stored r now e) as [H2 H1]; [done..|].
  destruct (Accept r now e) as [r' e'] eqn:Ha. cbn [fst snd] in *.
  pose proof (len_nonneg acc). pose proof (li_seq _ _ _ Hi) as Hs.
  assert (ev_ID e' = len acc + 1) as He.
  { rewrite H2. cbn. unfold inc_u64. fold two64. rewrite Z.mod_small by lia. lia. }
  apply (log_inv_same cap (Ring_store r e')).
  - by rewrite H2.
  - by apply log_store_inv.
Qed.

Lemma log_run_inv cap l r acc :
  log_inv cap r acc -> len acc + len (run r l).2 + 1 < two64 -> log_inv cap (run r l).1 (acc ++ (run r l).2).
Proof.
  revert r acc. induction l as [|o l IH]; intros r acc Hi Hb; cbn [run] in *; [by rewrite app_nil_r|].
  pose proof (log_step_inv cap r acc o Hi) as H1.
  destruct (step r o) as [r1 e1]. specialize (IH r1 (acc ++ e1)).
  destruct (run r1 l) as [r2 e2]. cbn [fst snd] in *. rewrite app_assoc.
  rewrite !len_app in *. pose proof (len_nonneg e1). pose proof (len_nonneg e2).
  apply IH; [apply H1|]; lia.
Qed.

(** An event of category "authen", for examples. *)
Definition event_of (category : string) : Event :=
  mkEvent 0 0 0 category "" "" "" "" 0 0 "" "" "" [] None None "" "" "" 0 "" "" "" "" "" "" "" "" "" "" "" false.

(** ** Cursor reads *)

(** The events a reader with that cursor is entitled to. *)
Definition matching (q : Query) (last : Z) (evs : list Event) : list Event :=
  filter (fun ev => last < ev_ID ev /\ ev_SuppressExport ev = false /\ Match q ev = true) evs.

Lemma matching_cons q last ev evs :
  matching q last (ev :: evs) =
  if negb ((ev_ID ev <=? last) || ev_SuppressExport ev) && Match q ev
  then ev :: matching q last evs else matching q last evs.
Proof.
  unfold matching. rewrite filter_cons. destruct (decide _) as [(H1 & H2 & H3)|Hn].
  - rewrite H2, H3, orb_false_r. by replace (ev_ID ev <=? last) with false by (symmetry; apply Z.leb_gt; lia).
  - destruct (Z.leb_spec (ev_ID ev) last); [done|]. destruct (ev_SuppressExport ev); [done|].
    destruct (Match q ev); [|done]. by destruct Hn.
Qed.

Lemma page_loop_spec q limit evs out :
  len out <= limit ->
  page_loop q (categorySet (q_Categories q)) limit evs out
  = take (Z.to_nat limit) (out ++ matching q (q_AfterID q) evs).
Proof.
  assert (forall o : list Event, len o <= limit -> o = take (Z.to_nat limit) o) as Ht.
  { intros o Ho. rewrite take_ge; [done|]. unfold len in Ho. lia. }
  revert out. induction evs as [|ev evs IH]; intros out Ho; cbn [page_loop].
  { rewrite app_nil_r. by apply Ht. }
  destruct (Z.ltb_spec (len out) limit).
  - rewrite matching_cons. destruct (_ || _); cbn [negb andb]; [by apply IH|]. fold (Match q ev).
    destruct (Match q ev); cbn [negb]; [|by apply IH].
    rewrite IH by (rewrite len_snoc; lia). by rewrite <- app_assoc.
  - rewrite take_app_le by (unfold len in *; lia). by apply Ht.
Qed.

Lemma more_loop_spec q last evs :
  more_loop q (categorySet (q_Categories q)) last evs = bool_decide (matching q last evs <> []).
Proof.
  induction evs as [|ev evs IH]; cbn [more_loop]; [done|]. rewrite matching_cons.
  destruct (_ || _); cbn [negb andb]; [done|]. fold (Match q ev). by destruct (Match q ev).
Qed.

Definition by_id (a b : Event) : Prop := ev_ID a < ev_ID b.

Lemma sorted_by_id evs k :
  map ev_ID evs = seqZ k (len evs) -> StronglySorted by_id evs /\ Forall (fun ev => k <= ev_ID ev) evs.
Proof.
  revert k. induction evs as [|ev evs IH]; intros k Hk; [by split; constructor|].
  rewrite len_cons, seqZ_cons in Hk by (pose proof (len_nonneg evs); lia). cbn [map] in Hk.
  injection Hk as Hid Hrest. replace (Z.pred (1 + len evs)) with (len evs) in Hrest by lia.
  destruct (IH _ Hrest) as [Hs Hf]. split; constructor; try done; [|lia|];
    eapply Forall_impl; try exact Hf; unfold by_id; cbn; intros; lia.
Qed.

Lemma sorted_drop n evs : StronglySorted by_id evs -> StronglySorted by_id (drop n evs).
Proof. revert n. induction evs as [|ev evs IH]; intros [|n] Hs; cbn; try done. apply IH. by inversion Hs. Qed.

Lemma sorted_matching q k evs : StronglySorted by_id evs -> StronglySorted by_id (matching q k evs).
Proof.
  intros Hs. induction Hs as [|ev evs Hs IH Hf]; [constructor|]. rewrite matching_cons.
  destruct (_ && _); [|done]. constructor; [done|].
  rewrite list.Forall_forall in Hf |- *. intros x [_ Hx]%list_elem_of_filter. by apply Hf.
Qed.

Lemma filter_all {A} (P : A -> Prop) `{forall x, Decision (P x)} l : Forall P l -> filter P l = l.
Proof. induction 1 as [|x l Hx Hl IH]; [done|]. rewrite filter_cons, decide_True by done. by rewrite IH. Qed.

(** Resuming after the last event of a prefix leaves the rest. *)
Lemma sorted_cut M (n : nat) e :
  StronglySorted by_id M -> list.last (take n M) = Some e ->
  filter (fun x => ev_ID e < ev_ID x) M = drop n M.
Proof.
  intros Hs. revert n. induction Hs as [|a M Hs IH Hf]; intros [|n] Hl; try done. cbn [take drop] in *.
  rewrite filter_cons. destruct (take n M) as [|b T] eqn:Et.
  - injection Hl as <-. rewrite decide_False by lia.
    assert (drop n M = M) as -> by (destruct n; [done|by destruct M]).
    by apply filter_all.
  - rewrite decide_False; [apply IH; by rewrite Et|].
    assert (e ∈ M) as He.
    { rewrite last_cons_cons in Hl. rewrite <- (take_drop n M), Et. apply elem_of_app. left. by apply last_Some_elem_of. }
    rewrite list.Forall_forall in Hf. specialize (Hf e He). unfold by_id in Hf. lia.
Qed.

Lemma lastn_sorted cap r acc : log_inv cap r acc -> StronglySorted by_id (Snapshot r).
Proof.
  intros Hi. rewrite (li_snapshot _ _ _ Hi). unfold lastn. apply sorted_drop.
  by apply (sorted_by_id acc 1), (li_ids _ _ _ Hi).
Qed.

(** The [k]-th retained event has the identifier [overwritten + k + 1]. *)
Lemma buf_at_id cap r acc k :
  log_inv cap r acc -> 0 <= k < r_n r -> ev_ID (buf_at r k) = r_overwritten r + k + 1.
Proof.
  intros [Hsh H1 H2 H3 H4 H5 H6] Hk. pose proof (Snapshot_lookup r (Z.to_nat k)) as Hl.
  rewrite Z2Nat.id in Hl by lia. destruct (Z.ltb_spec k (r_n r)); [|lia].
  rewrite H2 in Hl. unfold lastn in Hl. rewrite lookup_drop in Hl.
  apply (f_equal (fmap ev_ID)) in Hl. rewrite <- list_lookup_fmap in Hl. cbn in Hl.
  change (ev_ID <$> acc) with (map ev_ID acc) in Hl. rewrite H6 in Hl.
  apply lookup_seqZ in Hl as [Hl _]. rewrite Hl, H5. pose proof (ls_n _ Hsh). pose proof (len_nonneg acc). lia.
Qed.

Lemma matching_later q k e evs :
  e ∈ matching q k evs -> matching q (ev_ID e) evs = filter (fun x => ev_ID e < ev_ID x) (matching q k evs).
Proof.
  intros [[He _] _]%list_elem_of_filter. unfold matching. rewrite list_filter_filter.
  apply list_filter_iff. intros x. split; [intros (H1 & H2)|intros (H1 & _ & H2)]; split_and!; (done || lia || apply H2).
Qed.

Lemma readLocked_spec cap r acc q limit :
  log_inv cap r acc -> 0 < limit ->
  let M := matching q (q_AfterID q) (Snapshot r) in
  pg_Items (readLocked r q limit) = take (Z.to_nat limit) M
  /\ pg_HasMore (readLocked r q limit) = (limit <? len M)
  /\ pg_Reset (readLocked r q limit) = ((0 <? q_AfterID q) && (q_AfterID q <? r_overwritten r))
  /\ (M <> [] -> matching q (pg_NextAfterID (readLocked r q limit)) (Snapshot r) = drop (Z.to_nat limit) M).
Proof.
  intros Hi Hlim M. pose proof (lastn_sorted _ _ _ Hi) as Hs. pose proof (buf_at_id _ _ _ 0 Hi) as Hid.
  pose proof (li_shape _ _ _ Hi) as Hsh. pose proof (len_Snapshot r (proj1 (ls_n _ Hsh))) as Hlen.
  unfold readLocked. fold (Snapshot r). destruct (Z.eqb_spec (r_n r) 0) as [Hz|Hz].
  { rewrite Hz in Hlen. apply len_zero in Hlen. subst M. rewrite Hlen. cbn. rewrite take_nil.
    assert (r_overwritten r = 0) as ->.
    { pose proof (li_overwritten _ _ _ Hi). pose proof (li_n _ _ _ Hi). pose proof (ls_cap _ Hsh).
      pose proof (li_cap _ _ _ Hi). lia. }
    split_and!; [done|symmetry; apply Z.ltb_ge; change (len (@nil Event)) with 0; lia| |done].
    symmetry. apply andb_false_iff. destruct (Z.ltb_spec 0 (q_AfterID q)); [right; apply Z.ltb_ge; lia|by left]. }
  pose proof (ls_n _ Hsh). cbn [pg_Items pg_HasMore pg_Reset pg_NextAfterID].
  rewrite page_loop_spec by (change (len (@nil Event)) with 0; lia). rewrite app_nil_l. fold M.
  rewrite more_loop_spec. set (next := match list.last _ with Some ev => _ | None => _ end).
  assert (M <> [] -> matching q next (Snapshot r) = drop (Z.to_nat limit) M) as Hnext.
  { intros HM. destruct (list.last (take (Z.to_nat limit) M)) as [e|] eqn:El.
    - rewrite <- (sorted_cut M (Z.to_nat limit) e) by (apply sorted_matching || done; done).
      apply matching_later. apply last_Some_elem_of, elem_of_take in El as (i & Hi' & _).
      by apply list_elem_of_lookup_2 in Hi'.
    - apply last_None in El. destruct (Z.to_nat limit) eqn:En; [lia|]. by destruct M. }
  split_and!; [done| |rewrite (Hid ltac:(lia))|done].
  - destruct (decide (M = [])) as [HM|HM].
    + assert (next = q_AfterID q) as -> by (unfold next; by rewrite HM, take_nil).
      fold M. rewrite HM. rewrite bool_decide_eq_false_2 by auto.
      symmetry. apply Z.ltb_ge. change (len (@nil Event)) with 0. lia.
    + rewrite Hnext by done. destruct (Z.ltb_spec limit (len M)) as [Hl|Hl].
      * apply bool_decide_eq_true. intros Hd%(f_equal length). rewrite length_drop in Hd.
        unfold len in Hl. cbn in Hd. lia.
      * apply bool_decide_eq_false. intros Hd. apply Hd. apply drop_ge. unfold len in Hl. lia.
  - replace (r_overwritten r + 0 + 1 - 1) with (r_overwritten r) by lia.
    destruct (Z.ltb_spec 0 (q_AfterID q)); [cbn [andb]|done].
    destruct (Z.ltb_spec (q_AfterID q) (r_overwritten r)); [|by rewrite andb_false_r].
    by replace (1 <? r_overwritten r + 0 + 1) with true by (symmetry; apply Z.ltb_lt; lia).
Qed.

(** A client that follows the cursor until [HasMore] is false. *)
Definition with_AfterID (q : Query) (id : Z) : Query :=
  mkQuery id (q_Limit q) (q_Categories q) (q_Protocol q) (q_ListenerRole q) (q_PacketCode q) (q_Outcome q).

Fixpoint read_all (fuel : nat) (r : Ring) (q : Query) : option (list Event) :=
  match fuel with
  | O => None
  | S fuel =>
    let p := Read r q in
    if pg_HasMore p then app (pg_Items p) <$> read_all fuel r (with_AfterID q (pg_NextAfterID p))
    else Some (pg_Items p)
  end.

(** The clamp of [Read]. *)
Definition page_limit (q : Query) : Z :=
  Z.min MaxLimit (if q_Limit q <=? 0 then DefaultLimit else q_Limit q).

Lemma page_limit_pos q : 0 < page_limit q <= MaxLimit.
Proof. unfold page_limit, MaxLimit, DefaultLimit. destruct (Z.leb_spec (q_Limit q) 0); lia. Qed.

Lemma Read_limit r q : Read r q = readLocked r q (page_limit q).
Proof.
  unfold Read, page_limit. set (n := if q_Limit q <=? 0 then _ else _). f_equal.
  rewrite Z.gtb_ltb. destruct (Z.ltb_spec MaxLimit n); lia.
Qed.

Lemma read_all_spec cap r acc fuel q :
  log_inv cap r acc -> (length (matching q (q_AfterID q) (Snapshot r)) < fuel)%nat ->
  read_all fuel r q = Some (matching q (q_AfterID q) (Snapshot r)).
Proof.
  intros Hi. revert q. induction fuel as [|fuel IH]; intros q Hf; [lia|]. cbn [read_all].
  rewrite Read_limit. pose proof (page_limit_pos q) as Hp.
  destruct (readLocked_spec cap r acc q (page_limit q) Hi ltac:(lia)) as (HI & HM & _ & HN).
  set (M := matching q (q_AfterID q) (Snapshot r)) in *. rewrite HI, HM.
  destruct (Z.ltb_spec (page_limit q) (len M)) as [Hl|Hl].
  - rewrite IH; cbn [q_AfterID with_AfterID].
    + change (matching (with_AfterID q ?a)) with (matching q). rewrite HN.
      * cbn. by rewrite take_drop.
      * intros HM0. rewrite HM0 in Hl. change (len (@nil Event)) with 0 in Hl. lia.
    + change (matching (with_AfterID q ?a)) with (matching q). rewrite HN, length_drop; [unfold len in Hl; lia|].
      intros HM0. rewrite HM0 in Hl. change (len (@nil Event)) with 0 in Hl. lia.
  - rewrite take_ge by (unfold len in Hl; lia). done.
Qed.

(** Cursor reads: [Read] returns the
    first [limit] retained events (the limit clamped to 1..200) after the
    cursor that match the query and are not suppressed, in order; [HasMore]
    says exactly whether another matching event is retained; [Reset] says
    exactly that an event after a non-zero cursor was overwritten; [Replay]
    returns them all; and a client that follows [NextAfterID] while [HasMore]
    holds stops and has read each of them once, in order. *)
Definition read_exactly (r : Ring) (q : Query) : Prop :=
  let M := matching q (q_AfterID q) (Snapshot r) in
  pg_Items (Read r q) = take (Z.to_nat (page_limit q)) M
  /\ pg_HasMore (Read r q) = (page_limit q <? len M)
  /\ pg_Reset (Read r q) = ((0 <? q_AfterID q) && (q_AfterID q <? r_overwritten r))
  /\ pg_Items (Replay r q) = M /\ pg_HasMore (Replay r q) = false
  /\ read_all (S (length M)) r q = Some M.

Lemma read_pages (capacity sb : Z) (out : bool) (l : list op) (q : Query) :
  let r := (run (NewWithOptions capacity sb out) l).1 in
  len (run (NewWithOptions capacity sb out) l).2 + 1 < two64 -> read_exactly r q.
Proof.
  intros r Hb. unfold read_exactly. set (M := matching _ _ _). set (acc := (run _ l).2) in Hb.
  pose proof (log_run_inv _ l _ [] (NewWithOptions_log capacity sb out)) as Hi. fold r acc in Hi.
  specialize (Hi ltac:(change (len (@nil Event)) with 0; lia)). simpl in Hi.
  pose proof (page_limit_pos q). rewrite Read_limit.
  destruct (readLocked_spec _ r acc q (page_limit q) Hi ltac:(lia)) as (H1 & H2 & H3 & _).
  pose proof (li_shape _ _ _ Hi) as Hsh. pose proof (len_Snapshot r (proj1 (ls_n _ Hsh))) as Hn.
  destruct (readLocked_spec _ r acc q (r_cap r) Hi (ls_cap _ Hsh)) as (H4 & H5 & _).
  assert (len M <= r_cap r) as HM.
  { pose proof (ls_n _ Hsh). unfold M, matching. rewrite <- Hn in *. unfold len in *.
    epose proof (length_filter _ (Snapshot r)) as Hf. etransitivity; [apply Nat2Z.inj_le, Hf|]. lia. }
  split_and!; [done|done|done| | |].
  - unfold Replay. rewrite H4. apply take_ge. unfold len in HM. lia.
  - unfold Replay. rewrite H5. apply Z.ltb_ge. done.
  - eapply read_all_spec; [exact Hi|]. fold M. lia.
Qed.

(** C21. The ring is a bounded log.  After any history of accepts, reads,
    subscriptions and closes that stored fewer than 2^64 - 1 events, the
    events stored have the identifiers 1, 2, 3, ..., the snapshot is exactly
    the most recent [capacity] of them, oldest first, [Latest] is the last
    one, [Overwritten] counts the ones no longer retained, and the next
    accepted event gets the next identifier, unless the ring is closed or
    rejecting, when nothing changes.  Cursor reads return exactly the matching
    events page by page, and following the cursor stops with each of them read
    once ([read_exactly]). *)
Theorem ring_refines (capacity sb : Z) (out : bool) (l : list op) :
  let cap := if capacity <=? 0 then defaultCapacity else capacity in
  let r := (run (NewWithOptions capacity sb out) l).1 in
  let acc := (run (NewWithOptions capacity sb out) l).2 in
  len acc + 1 < two64 ->
  map ev_ID acc = seqZ 1 (len acc)
  /\ Snapshot r = lastn cap acc
  /\ Len r = Z.min cap (len acc)
  /\ Latest r = list.last acc
  /\ r_overwritten r = len acc - Len r
  /\ (forall now e, r_reject r || r_closed r = false -> (Accept r now e).2 = stamp (len acc + 1) now e)
  /\ (forall now e, r_reject r || r_closed r = true -> Accept r now e = (r, Event_zero))
  /\ (forall q, read_exactly r q).
Proof.
  intros cap r acc Hb. assert (forall q, read_exactly r q) as Hread by (intros q; by apply read_pages).
  pose proof (log_run_inv cap l _ [] (NewWithOptions_log capacity sb out)) as Hi. fold r acc in Hi.
  specialize (Hi ltac:(change (len (@nil Event)) with 0; lia)). simpl in Hi.
  pose proof (len_nonneg acc). destruct Hi as [Hsh H1 H2 H3 H4 H5 H6].
  split_and!; [done|done|done| |done| | |exact Hread].
  - unfold Latest. destruct (Z.eqb_spec (r_n r) 0) as [Hz|Hz].
    + pose proof (ls_cap _ Hsh). assert (len acc = 0) as Ha%len_zero by lia. by rewrite Ha.
    + pose proof (Snapshot_lookup r (Z.to_nat (r_n r - 1))) as Hl. pose proof (ls_n _ Hsh).
      rewrite Z2Nat.id in Hl by lia. destruct (Z.ltb_spec (r_n r - 1) (r_n r)); [|lia].
      rewrite <- Hl, H2, last_lookup. unfold lastn. rewrite lookup_drop. f_equal. unfold len in *. lia.
  - intros now e Hr. bool_hyps. destruct (Accept_stored r now e) as [-> _]; [done..|].
    unfold inc_u64. fold two64. by rewrite Z.mod_small, H4 by lia.
  - intros now e Hr. apply Accept_refused. by apply orb_true_iff.
Qed.

Lemma ring_refines_witness :
  map ev_ID (Snapshot (run (NewWithOptions 2 0 true)
    [OpAccept 7 (event_of "authen"); OpSubscribe 1; OpAccept 8 (event_of "acct"); OpAccept 9 (event_of "acct")]).1)
  = [2; 3].
Proof.
  destruct (ring_refines 2 0 true
    [OpAccept 7 (event_of "authen"); OpSubscribe 1; OpAccept 8 (event_of "acct"); OpAccept 9 (event_of "acct")])
    as (_ & Hs & _); [vm_compute; reflexivity|].
  etransitivity; [apply (f_equal (map ev_ID)); exact Hs|]. vm_compute. reflexivity.
Defined.

Lemma read_pages_example :
  let r := (run (NewWithOptions 2 0 false) (map (fun t => OpAccept t (event_of "acct")) [7; 8; 9])).1 in
  let q := mkQuery 1 1 ["acct"%string] "" "" "" "" in
  map ev_ID (pg_Items (Read r q)) = [2] /\ pg_HasMore (Read r q) = true
  /\ pg_Reset (Read r q) = false
  /\ (map ev_ID <$> read_all 3 r q) = Some [2; 3].
Proof.
  intros r q.
  destruct (read_pages 2 0 false (map (fun t => OpAccept t (event_of "acct")) [7; 8; 9]) q)
    as (H1 & H2 & H3 & _ & _ & H6); [vm_compute; reflexivity|].
  split_and!.
  - etransitivity; [apply (f_equal (map ev_ID)); exact H1|]. vm_compute. reflexivity.
  - etransitivity; [exact H2|]. vm_compute. reflexivity.
  - etransitivity; [exact H3|]. vm_compute. reflexivity.
  - etransitivity; [apply (f_equal (fmap (map ev_ID))); exact H6|]. vm_compute. reflexivity.
Qed.

(** ** Live delivery *)

(** What the fan-out loop does to one subscriber. *)
Definition delivered (e : Event) (s : subscriber) : subscriber :=
  match try_send (sb_ch s) e with
  | Some ch => mkSubscriber ch (sb_drop s) (sb_cancel s)
  | None => signalDrop s
  end.
Definition has_room (s : subscriber) : bool :=
  len (ch_sent (sb_ch s)) - Z.of_nat (ch_taken (sb_ch s)) <? ch_cap (sb_ch s).

Lemma fanout_loop_spec subs heap e :
  NoDup subs ->
  (forall id, (fanout_loop subs heap e).2 !! id
    = if decide (id ∈ subs) then delivered e <$> heap !! id else heap !! id)
  /\ (forall id, id ∈ (fanout_loop subs heap e).1 <->
      id ∈ subs /\ exists s, heap !! id = Some s /\ has_room s = true)
  /\ NoDup (fanout_loop subs heap e).1.
Proof.
  revert heap. induction subs as [|k subs IH]; intros heap Hnd; cbn [fanout_loop].
  { split_and!; [intros; by rewrite decide_False by set_solver|set_solver|constructor]. }
  apply list.NoDup_cons in Hnd as [Hk Hnd]. destruct (heap !! k) as [s|] eqn:Hs.
  - assert (forall s', let h := <[k := s']> heap in
      s' = delivered e s ->
      (forall id, (fanout_loop subs h e).2 !! id
        = if decide (id ∈ k :: subs) then delivered e <$> heap !! id else heap !! id)
      /\ (forall id, id ∈ (fanout_loop subs h e).1 <-> id ∈ subs /\ exists s, heap !! id = Some s /\ has_room s = true)
      /\ NoDup (fanout_loop subs h e).1) as Hgo.
    { intros s' h Hs'. destruct (IH h Hnd) as (H1 & H2 & H3). split_and!; [| |done].
      - intros id. rewrite H1. destruct (decide (id = k)) as [->|Hne].
        + rewrite decide_False, decide_True by set_solver. subst h.
          rewrite list_lookup_insert_eq by (by eapply lookup_lt_Some). by rewrite Hs, Hs'.
        + subst h. rewrite list_lookup_insert_ne by done.
          destruct (decide (id ∈ subs)); [rewrite decide_True by set_solver|rewrite decide_False by set_solver]; done.
      - intros id. rewrite H2. split; intros [Hi Hr]; (split; [done|]); subst h;
          rewrite list_lookup_insert_ne in *; set_solver. }
    unfold delivered, try_send in Hgo. pose proof (eq_refl (has_room s)) as Hr. unfold has_room at 1 in Hr.
    unfold try_send. destruct (_ <? _) eqn:El.
    + specialize (Hgo _ eq_refl). destruct (fanout_loop subs _ e) as [kept h']. cbn [fst snd] in *.
      destruct Hgo as (H1 & H2 & H3). split_and!; [done| |].
      * intros id. rewrite !elem_of_cons, H2. split; [intros [->|[Hi Hx]]; [split; [by left|by exists s]|split; [by right|done]]|].
        intros [[->|Hi] Hx]; [by left|right; done].
      * constructor; [rewrite H2; tauto|done].
    + destruct (Hgo _ eq_refl) as (H1 & H2 & H3). split_and!; [done| |done].
      intros id. rewrite H2, elem_of_cons. split; [intros [Hi Hx]; split; [by right|done]|].
      intros [[->|Hi] (s' & Hs' & Hx)]; [|split; [done|by exists s']].
      rewrite Hs in Hs'. injection Hs' as <-. unfold has_room in Hx. congruence.
  - destruct (IH heap Hnd) as (H1 & H2 & H3). split_and!; [| |done].
    + intros id. rewrite H1. destruct (decide (id = k)) as [->|Hne].
      * rewrite decide_False, decide_True by set_solver. by rewrite Hs.
      * destruct (decide (id ∈ subs)); [rewrite decide_True by set_solver|rewrite decide_False by set_solver]; done.
    + intros id. rewrite H2, elem_of_cons. split; [intros [Hi Hx]; split; [by right|done]|].
      intros [[->|Hi] (s' & Hs' & Hx)]; [congruence|split; [done|by exists s']].
Qed.

#[export] Instance cancelled_eq_dec : EqDecision cancelled.
Proof. solve_decision. Defined.

(** The subscriptions that hold an admission slot. *)
Definition unreleased (heap : list subscriber) : gset nat :=
  list_to_set (filter (fun id => sb_cancel <$> heap !! id <> Some Released) (seq 0 (length heap))).
#[global] Arguments unreleased : simpl never.

Lemma elem_of_unreleased heap id :
  id ∈ unreleased heap <-> exists s, heap !! id = Some s /\ sb_cancel s <> Released.
Proof.
  unfold unreleased. rewrite elem_of_list_to_set, list_elem_of_filter, elem_of_seq.
  destruct (heap !! id) as [s|] eqn:Hs; cbn.
  - apply lookup_lt_Some in Hs. split; [intros [H _]; exists s; split; congruence|].
    intros (s' & [= <-] & H). split; [congruence|lia].
  - apply lookup_ge_None in Hs. split; [intros [_ H]; lia|naive_solver].
Qed.

Lemma unreleased_ext heap heap' :
  (forall id, sb_cancel <$> heap' !! id = sb_cancel <$> heap !! id) -> unreleased heap' = unreleased heap.
Proof.
  intros H. apply set_eq. intros id. rewrite !elem_of_unreleased. specialize (H id).
  destruct (heap !! id) as [s|], (heap' !! id) as [s'|]; cbn in H; try discriminate H; [|naive_solver].
  injection H as H. split; intros (x & [= <-] & Hx); eexists; (split; [done|congruence]).
Qed.

Definition queued (c : channel) : Z := len (ch_sent c) - Z.of_nat (ch_taken c).

Record subs_inv (r : Ring) : Prop := {
  si_nodup : NoDup (r_subs r);
  si_attached : forall id, id ∈ r_subs r -> exists ch, r_heap r !! id = Some (mkSubscriber ch false NotCalled);
  si_queue : forall id s, r_heap r !! id = Some s -> 0 <= queued (sb_ch s) <= ch_cap (sb_ch s);
  si_admitted : r_admitted r = Z.of_nat (size (unreleased (r_heap r)));
  si_limit : r_admitted r <= MaxSubscribers;
  si_closed : r_closed r = true -> r_subs r = [];
}.

(** What the subscription [id] has been sent, of the events [live] that were
    stored since it was admitted. *)
Definition tracks (id : nat) (cap : Z) (live : list Event) (r : Ring) : Prop :=
  exists s, r_heap r !! id = Some s /\ ch_cap (sb_ch s) = cap
    /\ ch_sent (sb_ch s) `prefix_of` live
    /\ (id ∈ r_subs r -> ch_sent (sb_ch s) = live)
    /\ (id ∉ r_subs r -> sb_drop s = true \/ sb_cancel s <> NotCalled).

Definition exported (evs : list Event) : list Event := filter (fun e => ev_SuppressExport e = false) evs.

Lemma Accept_subs r now e :
  r_reject r = false -> r_closed r = false ->
  let e' := stamp (inc_u64 (r_seq r)) now e in
  let '(kept, heap) := if ev_SuppressExport e then (r_subs r, r_heap r) else fanout_loop (r_subs r) (r_heap r) e' in
  (Accept r now e).2 = e' /\ r_subs (Accept r now e).1 = kept /\ r_heap (Accept r now e).1 = heap
  /\ r_admitted (Accept r now e).1 = r_admitted r /\ r_closed (Accept r now e).1 = r_closed r.
Proof.
  intros H1 H2 e'. unfold Accept. rewrite H1, H2. fold e'.
  set (r1 := emitStdout _ _).
  assert (r_subs r1 = r_subs r /\ r_heap r1 = r_heap r /\ r_admitted r1 = r_admitted r /\ r_closed r1 = r_closed r)
    as (A1 & A2 & A3 & A4).
  { subst r1. unfold emitStdout, Ring_store. destruct (r_n r =? r_cap r); cbn;
      (destruct (r_stdoutCh r) as [ch|]; [|done]; destruct (ev_SuppressExport e), (r_closed r);
        [done..|by destruct (try_send ch e')]). }
  assert (ev_SuppressExport e' = ev_SuppressExport e) as He by done.
  destruct (Z.ltb_spec 0 (len (r_subs r1))) as [Hl|Hl].
  - unfold fanoutLocked. rewrite He. destruct (ev_SuppressExport e); [cbn; split_and!; congruence|].
    rewrite A1, A2. destruct (fanout_loop _ _ _) as [kept heap]. cbn. split_and!; congruence.
  - assert (r_subs r = []) as Hn.
    { rewrite A1 in Hl. pose proof (len_nonneg (r_subs r)). apply len_zero. lia. }
    rewrite Hn. cbn [fanout_loop]. destruct (ev_SuppressExport e); cbn; split_and!; congruence.
Qed.

Lemma delivered_cancel e s : sb_cancel (delivered e s) = sb_cancel s.
Proof. unfold delivered. by destruct (try_send _ _). Qed.

Lemma delivered_room e s :
  delivered e s = if has_room s
    then mkSubscriber (mkChannel (ch_cap (sb_ch s)) (ch_sent (sb_ch s) ++ [e]) (ch_taken (sb_ch s))) (sb_drop s) (sb_cancel s)
    else signalDrop s.
Proof. unfold delivered, try_send, has_room. by destruct (_ <? _). Qed.

Lemma Accept_subs_inv r now e : subs_inv r -> subs_inv (Accept r now e).1.
Proof.
  intros Hi. destruct (r_reject r || r_closed r) eqn:Er.
  { by rewrite Accept_refused by (destruct (r_reject r); auto). }
  bool_hyps. pose proof (Accept_subs r now e ltac:(done) ltac:(done)) as Ha. cbv zeta in Ha.
  destruct (Accept r now e) as [r' e']. cbn [fst snd] in Ha |- *. destruct Hi as [I1 I2 I3 I4 I5 I6].
  destruct (ev_SuppressExport e).
  { destruct Ha as (_ & A1 & A2 & A3 & A4). constructor; rewrite ?A1, ?A2, ?A3, ?A4; done. }
  pose proof (fanout_loop_spec (r_subs r) (r_heap r) (stamp (inc_u64 (r_seq r)) now e) I1) as (F1 & F2 & F3).
  destruct (fanout_loop _ _ _) as [kept heap]. cbn [fst snd] in F1, F2, F3.
  destruct Ha as (_ & A1 & A2 & A3 & A4).
  constructor; rewrite ?A1, ?A2, ?A3, ?A4; [done| | | |done|congruence].
  - intros id (Hin & s & Hs & Hr)%F2. destruct (I2 id Hin) as [ch Hch]. rewrite Hs in Hch. injection Hch as ->.
    rewrite F1, decide_True, Hs by done. cbn. rewrite delivered_room, Hr. by eexists.
  - intros id s. rewrite F1. destruct (decide (id ∈ r_subs r)); [|apply I3].
    destruct (r_heap r !! id) as [s0|] eqn:Hs0; cbn; [|done]. intros [= <-]. specialize (I3 id s0 Hs0).
    rewrite delivered_room. unfold has_room. destruct (Z.ltb_spec (len (ch_sent (sb_ch s0)) - Z.of_nat (ch_taken (sb_ch s0))) (ch_cap (sb_ch s0))); [|done].
    cbn. unfold queued in *. cbn. rewrite len_snoc. lia.
  - rewrite I4. do 2 f_equal. symmetry. apply unreleased_ext. intros id. rewrite F1.
    destruct (decide _); [|done]. destruct (r_heap r !! id); [|done]. cbn. by rewrite delivered_cancel.
Qed.

Lemma detach_spec subs id :
  NoDup subs -> NoDup (detach subs id) /\ forall k, k ∈ detach subs id <-> k ∈ subs /\ k <> id.
Proof.
  induction subs as [|s subs IH]; intros Hnd; cbn [detach]; [split; [done|set_solver]|].
  apply list.NoDup_cons in Hnd as [Hs Hnd]. destruct (IH Hnd) as [H1 H2].
  destruct (Nat.eqb_spec s id) as [->|Hne].
  - split; [done|]. set_solver.
  - split; [constructor; [rewrite H2; tauto|done]|]. intros k. rewrite !elem_of_cons, H2. naive_solver.
Qed.

Lemma subscribe_subs_inv r b : subs_inv r -> 0 < r_cap r -> subs_inv (TrySubscribe r b).1.
Proof.
  intros Hi Hc. pose proof Hi as [I1 I2 I3 I4 I5 _]. unfold TrySubscribe.
  set (buf := if (if b <=? 0 then _ else _) >? _ then _ else _).
  assert (0 < buf) as Hbuf.
  { subst buf. unfold defaultSubBuffer. destruct (Z.leb_spec b 0); destruct (_ >? _); lia. }
  destruct (r_closed r) eqn:Hcl; [exact Hi|].
  rewrite Z.geb_leb. destruct (Z.leb_spec MaxSubscribers (r_admitted r)); [exact Hi|].
  cbn [orb fst]. assert (length (r_heap r) ∉ r_subs r) as Hfresh.
  { intros Hin. destruct (I2 _ Hin) as [ch Hch%lookup_lt_Some]. lia. }
  constructor; cbn; try lia; try congruence.
  - apply list.NoDup_app. split_and!; [done|set_solver|apply NoDup_singleton].
  - intros id [Hin|Hin%list_elem_of_singleton]%elem_of_app.
    + destruct (I2 id Hin) as [ch Hch]. exists ch. by apply lookup_app_l_Some.
    + subst id. rewrite list_lookup_middle by done. by eexists.
  - intros id s [Hl|[Hl Hs]]%lookup_app_Some; [by apply (I3 id)|].
    apply list_lookup_singleton_Some in Hs as [_ <-]. cbn. unfold queued. cbn.
    change (len (@nil Event)) with 0. lia.
  - rewrite I4. replace (unreleased (r_heap r ++ [mkSubscriber (mkChannel buf [] 0) false NotCalled])) with ({[length (r_heap r)]} ∪ unreleased (r_heap r)).
    + rewrite size_union, size_singleton; [lia|]. apply disjoint_singleton_l.
      intros (s & Hs%lookup_lt_Some & _)%elem_of_unreleased. lia.
    + apply set_eq. intros id. rewrite elem_of_union, elem_of_singleton, !elem_of_unreleased. split.
      * intros [->|(s & Hs & Hr)]; [|exists s; split; [by apply lookup_app_l_Some|done]].
        rewrite list_lookup_middle by done. by eexists.
      * intros (s & [Hl|[Hl Hs]]%lookup_app_Some & Hr); [right; by exists s|left].
        apply list_lookup_singleton_Some in Hs as [Hs _]. lia.
Qed.

Lemma unsubscribe_subs_inv r id : subs_inv r -> subs_inv (unsubscribe r id).
Proof.
  intros Hi. pose proof Hi as [I1 I2 I3 I4 I5 I6]. unfold unsubscribe.
  destruct (r_heap r !! id) as [[ch drop []]|] eqn:Hs; try done.
  destruct (detach_spec (r_subs r) id I1) as [D1 D2]. pose proof (lookup_lt_Some _ _ _ Hs) as Hlt.
  constructor; cbn; [done| | | |done|].
  - intros k [Hk Hne]%D2. rewrite list_lookup_insert_ne by done. by apply I2.
  - intros k s. destruct (decide (k = id)) as [->|Hne].
    + rewrite list_lookup_insert_eq by done. intros [= <-]. cbn. apply (I3 id _ Hs).
    + rewrite list_lookup_insert_ne by done. apply I3.
  - rewrite I4. do 2 f_equal. apply set_eq. intros k. rewrite !elem_of_unreleased.
    destruct (decide (k = id)) as [->|Hne]; [|by rewrite list_lookup_insert_ne].
    rewrite list_lookup_insert_eq, Hs by done. naive_solver.
  - intros Hc. rewrite (I6 Hc) in *. done.
Qed.

Lemma release_subs_inv r id : subs_inv r -> subs_inv (release r id).
Proof.
  intros Hi. pose proof Hi as [I1 I2 I3 I4 I5 I6]. unfold release.
  destruct (r_heap r !! id) as [[ch drop []]|] eqn:Hs; try done.
  pose proof (lookup_lt_Some _ _ _ Hs) as Hlt.
  assert (id ∉ r_subs r) as Hnin.
  { intros Hin. destruct (I2 id Hin) as [ch' Hch]. congruence. }
  constructor; cbn; [done| | | |lia|done].
  - intros k Hk. rewrite list_lookup_insert_ne by (intros ->; done). by apply I2.
  - intros k s. destruct (decide (k = id)) as [->|Hne].
    + rewrite list_lookup_insert_eq by done. intros [= <-]. cbn. apply (I3 id _ Hs).
    + rewrite list_lookup_insert_ne by done. apply I3.
  - rewrite I4. assert (id ∈ unreleased (r_heap r)) as Hin.
    { apply elem_of_unreleased. eexists. split; [done|done]. }
    replace (unreleased (<[id := mkSubscriber ch drop Released]> (r_heap r))) with (unreleased (r_heap r) ∖ {[id]}).
    + rewrite size_difference by set_solver. rewrite size_singleton.
      assert (size ({[id]} : gset nat) <= size (unreleased (r_heap r)))%nat as Hsz
        by (apply subseteq_size; set_solver).
      rewrite size_singleton in Hsz. lia.
    + apply set_eq. intros k. rewrite elem_of_difference, elem_of_singleton, !elem_of_unreleased.
      destruct (decide (k = id)) as [->|Hne]; [|rewrite list_lookup_insert_ne by done; naive_solver].
      rewrite list_lookup_insert_eq by done. naive_solver.
Qed.

Lemma receive_queued c : 0 <= queued c <= ch_cap c -> 0 <= queued (receive c) <= ch_cap (receive c).
Proof. unfold queued, receive. intros H. destruct (Z.ltb_spec (Z.of_nat (ch_taken c)) (len (ch_sent c))); cbn; lia. Qed.

Lemma receive_sent c : ch_sent (receive c) = ch_sent c /\ ch_cap (receive c) = ch_cap c.
Proof. unfold receive. by destruct (_ <? _). Qed.

Lemma foldr_signal (subs : list nat) (heap : list subscriber) (id : nat) :
  foldr (fun id heap => alter signalDrop id heap) heap subs !! id
  = if decide (id ∈ subs) then signalDrop <$> heap !! id else heap !! id.
Proof.
  induction subs as [|s subs IH]; cbn [foldr]; [by rewrite decide_False by set_solver|].
  destruct (decide (id = s)) as [->|Hne].
  - rewrite list_lookup_alter_eq, IH, (decide_True (P := s ∈ s :: subs)) by set_solver.
    destruct (decide (s ∈ subs)); [|done]. by destruct (heap !! s).
  - rewrite list_lookup_alter_ne, IH by done.
    destruct (decide (id ∈ subs)); [rewrite decide_True by set_solver|rewrite decide_False by set_solver]; done.
Qed.

(** An operation on the ring, seen from the subscriptions. *)
Lemma step_subs_inv r o : subs_inv r -> 0 < r_cap r -> subs_inv (step r o).1.
Proof.
  intros Hi Hc. pose proof Hi as [I1 I2 I3 I4 I5 I6].
  destruct o as [now e|v|b|id|id|id| |]; cbn [step fst]; try (by constructor).
  - pose proof (Accept_subs_inv r now e Hi) as Ha. by destruct (Accept r now e).
  - by apply subscribe_subs_inv.
  - by apply unsubscribe_subs_inv.
  - by apply release_subs_inv.
  - constructor; cbn; [done| | | |done|done].
    + intros k Hk. destruct (I2 k Hk) as [ch Hch]. destruct (decide (k = id)) as [->|Hne].
      * rewrite list_lookup_alter_eq, Hch. cbn. by eexists.
      * rewrite list_lookup_alter_ne by done. by exists ch.
    + intros k s. destruct (decide (k = id)) as [->|Hne].
      * rewrite list_lookup_alter_eq. destruct (r_heap r !! id) as [s0|] eqn:Hs0; [|done].
        intros [= <-]. apply receive_queued. by apply (I3 id).
      * rewrite list_lookup_alter_ne by done. apply I3.
    + rewrite I4. do 2 f_equal. symmetry. apply unreleased_ext. intros k.
      destruct (decide (k = id)) as [->|Hne]; [|by rewrite list_lookup_alter_ne].
      rewrite list_lookup_alter_eq. by destruct (r_heap r !! id).
  - unfold Close. destruct (r_closed r) eqn:Hcl; [done|].
    constructor; cbn; [constructor|set_solver| | |done|done].
    + intros k s. rewrite foldr_signal. destruct (decide _); [|apply I3].
      destruct (r_heap r !! k) as [s0|] eqn:Hs0; [|done]. intros [= <-]. by apply (I3 k s0).
    + rewrite I4. do 2 f_equal. symmetry. apply unreleased_ext. intros k. rewrite foldr_signal.
      destruct (decide _); [|done]. by destruct (r_heap r !! k).
Qed.

Lemma Accept_tracks r now e id cap live :
  subs_inv r -> tracks id cap live r ->
  tracks id cap (live ++ exported (step r (OpAccept now e)).2) (step r (OpAccept now e)).1.
Proof.
  intros [I1 I2 I3 I4 I5 I6] (s & Hs & Hcap & Hpre & Hin & Hout). cbn [step]. unfold exported.
  destruct (r_reject r || r_closed r) eqn:Er.
  { rewrite Accept_refused by (destruct (r_reject r); auto). cbn. rewrite app_nil_r. by exists s. }
  bool_hyps. pose proof (Accept_subs r now e ltac:(done) ltac:(done)) as Ha. cbv zeta in Ha.
  destruct (Accept r now e) as [r' e']. cbn [fst snd] in Ha |- *. rewrite filter_cons, filter_nil.
  destruct (ev_SuppressExport e) eqn:Ee.
  { destruct Ha as (-> & A1 & A2 & _). rewrite decide_False by (cbn; congruence). rewrite app_nil_r.
    exists s. by rewrite A1, A2. }
  pose proof (fanout_loop_spec (r_subs r) (r_heap r) (stamp (inc_u64 (r_seq r)) now e) I1) as (F1 & F2 & F3).
  destruct (fanout_loop _ _ _) as [kept heap]. cbn [fst snd] in F1, F2, F3.
  destruct Ha as (-> & A1 & A2 & _). rewrite decide_True by done.
  unfold tracks. rewrite A1, A2, F1, Hs. destruct (decide (id ∈ r_subs r)) as [Hi'|Hi'].
  - exists (delivered (stamp (inc_u64 (r_seq r)) now e) s).
    change (delivered ?a <$> Some s) with (Some (delivered a s)). rewrite delivered_room.
    destruct (has_room s) eqn:Hr; cbn.
    + split_and!; [done|done|rewrite (Hin Hi'); done|intros _; by rewrite (Hin Hi')|].
      intros Hn. destruct Hn. apply F2. split; [done|by exists s].
    + split_and!; [done|done|by apply prefix_app_r| |by left].
      intros Hk. apply F2 in Hk as [_ (s' & Hs' & Hr')]. congruence.
  - exists s. split_and!; [done|done|by apply prefix_app_r| |intros _; by apply Hout].
    intros Hk. apply F2 in Hk as [Hk _]. done.
Qed.

(** Each operation extends what an admitted subscription has been sent by the
    exported events it stores, or detaches the subscription. *)
Lemma step_tracks r o id cap live :
  subs_inv r -> tracks id cap live r -> tracks id cap (live ++ exported (step r o).2) (step r o).1.
Proof.
  intros Hi (s & Hs & Hcap & Hpre & Hin & Hout). pose proof Hi as [I1 I2 I3 I4 I5 I6].
  pose proof (lookup_lt_Some _ _ _ Hs) as Hlt.
  destruct o as [now e|v|b|k|k|k| |]; cbn [step fst snd]; unfold exported; rewrite ?filter_nil, ?app_nil_r;
    try (by exists s).
  - by apply Accept_tracks; [|exists s].
  - unfold TrySubscribe. destruct (_ || _); [by exists s|]. cbn. exists s. split_and!; [|done|done| |].
    + cbn. by apply lookup_app_l_Some.
    + cbn. intros [Hk|Hk%list_elem_of_singleton]%elem_of_app; [by apply Hin|lia].
    + cbn. intros Hk. apply Hout. intros Hk'. apply Hk. apply elem_of_app. by left.
  - unfold unsubscribe. destruct (r_heap r !! k) as [[ch drop []]|] eqn:Hk; try (by exists s).
    destruct (detach_spec (r_subs r) k I1) as [_ D]. unfold tracks. cbn.
    destruct (decide (k = id)) as [->|Hne].
    + rewrite Hk in Hs. injection Hs as <-. rewrite list_lookup_insert_eq by done.
      eexists. split_and!; [done|done|done| |by right]. cbn. intros Hd%D. apply Hin. tauto.
    + rewrite list_lookup_insert_ne by done. exists s. split_and!; [done|done|done| |].
      * intros Hd%D. apply Hin. tauto.
      * intros Hn. apply Hout. intros Hk'. apply Hn, D. auto.
  - unfold release. destruct (r_heap r !! k) as [[ch drop []]|] eqn:Hk; try (by exists s).
    unfold tracks. cbn. destruct (decide (k = id)) as [->|Hne].
    + rewrite Hk in Hs. injection Hs as <-. rewrite list_lookup_insert_eq by done.
      eexists. split_and!; [done|done|done|exact Hin|by right].
    + rewrite list_lookup_insert_ne by done. by exists s.
  - unfold tracks. cbn. destruct (decide (k = id)) as [->|Hne].
    + rewrite list_lookup_alter_eq, Hs. destruct (receive_sent (sb_ch s)) as [R1 R2].
      eexists. split; [done|]. cbn. by rewrite R1, R2.
    + rewrite list_lookup_alter_ne by done. by exists s.
  - unfold Close. destruct (r_closed r); [by exists s|]. unfold tracks. cbn. rewrite foldr_signal, Hs.
    destruct (decide (id ∈ r_subs r)) as [Hi'|Hi'].
    + eexists. split_and!; [done|done|done|by intros ?%not_elem_of_nil|]. intros _. by left.
    + exists s. split_and!; [done|done|done|by intros ?%not_elem_of_nil|intros _; by apply Hout].
Qed.

Lemma step_cap r o : r_cap (step r o).1 = r_cap r.
Proof.
  destruct o; cbn [step fst]; try done.
  - destruct (r_reject r || r_closed r) eqn:Er.
    { by rewrite Accept_refused by (destruct (r_reject r); auto). }
    bool_hyps. destruct (Accept_stored r now e) as [_ [Hc _]]; [done..|].
    destruct (Accept r now e) as [r' e']. cbn [fst] in *. rewrite Hc. unfold Ring_store. by destruct (_ =? _).
  - apply TrySubscribe_log.
  - apply unsubscribe_log.
  - apply release_log.
  - apply Close_log.
Qed.

Lemma run_subs l r :
  subs_inv r -> 0 < r_cap r ->
  subs_inv (run r l).1 /\ r_cap (run r l).1 = r_cap r
  /\ forall id cap live, tracks id cap live r -> tracks id cap (live ++ exported (run r l).2) (run r l).1.
Proof.
  revert r. induction l as [|o l IH]; intros r Hi Hc; cbn [run].
  { split_and!; [done|done|]. intros id cap live Ht. cbn. by rewrite app_nil_r. }
  pose proof (step_subs_inv r o Hi Hc) as H1. pose proof (step_cap r o) as H2.
  pose proof (fun id cap live => step_tracks r o id cap live Hi) as H3.
  destruct (step r o) as [r1 e1]. cbn [fst snd] in *. specialize (IH r1 H1 ltac:(lia)).
  destruct (run r1 l) as [r2 e2]. cbn [fst snd] in *. destruct IH as (I1 & I2 & I3).
  split_and!; [done|congruence|]. intros id cap live Ht. unfold exported. rewrite list.filter_app, app_assoc.
  by apply I3, H3.
Qed.

Lemma NewWithOptions_subs capacity sb out :
  subs_inv (NewWithOptions capacity sb out) /\ 0 < r_cap (NewWithOptions capacity sb out).
Proof.
  split.
  - constructor; cbn; [constructor|set_solver|set_solver|done|done|done].
  - cbn. unfold defaultCapacity. destruct (Z.leb_spec capacity 0); lia.
Qed.

(** The buffer [TrySubscribe] gives a subscriber. *)
Definition sub_buffer (cap buf : Z) : Z := Z.min cap (if buf <=? 0 then defaultSubBuffer else buf).

Lemma TrySubscribe_new r buf :
  r_closed r = false -> r_admitted r < MaxSubscribers ->
  (TrySubscribe r buf).2 = Some (length (r_heap r))
  /\ tracks (length (r_heap r)) (sub_buffer (r_cap r) buf) [] (TrySubscribe r buf).1.
Proof.
  intros Hc Ha. unfold TrySubscribe. rewrite Hc, Z.geb_leb.
  destruct (Z.leb_spec MaxSubscribers (r_admitted r)); [lia|]. cbn [orb fst snd]. split; [done|].
  eexists. cbn. rewrite list_lookup_middle by done. split_and!; [done| |done|done|].
  - cbn. unfold sub_buffer. rewrite Z.gtb_ltb. destruct (Z.ltb_spec (r_cap r) (if buf <=? 0 then defaultSubBuffer else buf)); lia.
  - intros Hn. destruct Hn. apply elem_of_app. right. by apply list_elem_of_singleton.
Qed.

(** C22. Live delivery.  A subscription is admitted exactly while the ring is
    open and fewer than 128 admission slots are held.  Whatever then happens,
    an attached subscriber has been sent exactly the events stored since and
    not suppressed, in order, with no gap, and neither dropped nor cancelled;
    one that is no longer attached was
    sent a prefix of them, and its [dropped] channel is closed unless it
    cancelled; its queue never exceeds its buffer, so [Accept] cannot block;
    and the admission slots held are the subscriptions not yet released, at
    most 128 of them. *)
Theorem live_delivery (capacity sb : Z) (out : bool) (l1 l2 : list op) (buf : Z) :
  let r1 := (run (NewWithOptions capacity sb out) l1).1 in
  ((TrySubscribe r1 buf).2 = None <-> r_closed r1 = true \/ MaxSubscribers <= r_admitted r1)
  /\ forall id, (TrySubscribe r1 buf).2 = Some id ->
     let r2 := (run (TrySubscribe r1 buf).1 l2).1 in
     let live := exported (run (TrySubscribe r1 buf).1 l2).2 in
     exists s, r_heap r2 !! id = Some s
       /\ ch_sent (sb_ch s) `prefix_of` live
       /\ (id ∈ r_subs r2 -> ch_sent (sb_ch s) = live /\ sb_drop s = false /\ sb_cancel s = NotCalled)
       /\ (id ∉ r_subs r2 -> sb_drop s = true \/ sb_cancel s <> NotCalled)
       /\ 0 <= queued (sb_ch s) <= sub_buffer (r_cap r1) buf
       /\ r_admitted r2 = Z.of_nat (size (unreleased (r_heap r2))) /\ r_admitted r2 <= MaxSubscribers.
Proof.
  intros r1. destruct (NewWithOptions_subs capacity sb out) as [Hi0 Hc0].
  destruct (run_subs l1 _ Hi0 Hc0) as (Hi1 & Hc1 & _). fold r1 in Hi1, Hc1.
  assert ((TrySubscribe r1 buf).2 = None <-> r_closed r1 = true \/ MaxSubscribers <= r_admitted r1) as Hadm.
  { unfold TrySubscribe. rewrite Z.geb_leb. destruct (r_closed r1); [cbn; tauto|].
    destruct (Z.leb_spec MaxSubscribers (r_admitted r1)); cbn; [tauto|]. split; [done|intros [|]; [done|lia]]. }
  split; [done|]. intros id Hid r2 live.
  assert (r_closed r1 = false /\ r_admitted r1 < MaxSubscribers) as [Hcl Had].
  { destruct (r_closed r1) eqn:Hcl.
    - pose proof (proj2 Hadm (or_introl eq_refl)). congruence.
    - split; [done|]. apply Z.nle_gt. intros Ha. pose proof (proj2 Hadm (or_intror Ha)). congruence. }
  destruct (TrySubscribe_new r1 buf Hcl Had) as [Hid' Ht]. rewrite Hid' in Hid. injection Hid as <-.
  pose proof (subscribe_subs_inv r1 buf Hi1 ltac:(lia)) as Hi2.
  pose proof (TrySubscribe_log r1 buf) as [Hcap _].
  destruct (run_subs l2 _ Hi2 ltac:(lia)) as (Hi3 & _ & Ht3).
  destruct (Ht3 _ _ _ Ht) as (s & H1 & H2 & H3 & H4 & H5). exists s.
  pose proof (si_queue _ Hi3 _ _ H1) as Hq. rewrite H2 in Hq.
  split_and!; try done; [|apply Hq|apply Hq|apply (si_admitted _ Hi3)|apply (si_limit _ Hi3)].
  intros Hin. destruct (si_attached _ Hi3 _ Hin) as [ch Hch]. rewrite H1 in Hch. injection Hch as ->. auto.
Qed.

(** A slow subscriber is detached; another one is not. *)
Lemma live_delivery_witness :
  let r1 := (run (NewWithOptions 4 0 false) [OpSubscribe 2]).1 in
  let l2 := [OpAccept 7 (event_of "acct"); OpAccept 8 (event_of "acct"); OpReceive 0; OpAccept 9 (event_of "acct")] in
  exists s, r_heap (run (TrySubscribe r1 1).1 l2).1 !! 1%nat = Some s
    /\ ch_sent (sb_ch s) `prefix_of` exported (run (TrySubscribe r1 1).1 l2).2
    /\ r_subs (run (TrySubscribe r1 1).1 l2).1 = [0%nat] /\ sb_drop s = true.
Proof.
  intros r1 l2. destruct (live_delivery 4 0 false [OpSubscribe 2] l2 1) as [_ H].
  destruct (H 1%nat) as (s & H1 & H2 & _ & H4 & _); [vm_compute; reflexivity|]. exists s.
  split; [exact H1|]. split; [exact H2|]. split; [vm_compute; reflexivity|].
  vm_compute in H1. injection H1 as <-. reflexivity.
Defined.
