(* ===== verification/RadiusChallenge.v ===== *)
(** * RADIUS: the Access-Challenge State table

    [internal/radius/runtime/challenge_store.go] and the adapter functions of
    [internal/radius/server/challenge.go].  Every method of the store holds
    its mutex, so a run is a sequence of atomic operations; [now] is the
    reading of the injected clock, in nanoseconds.  Go strings are octet
    sequences here, because the store hashes and measures them.  A
    [netip.Addr] is valid ([Some]) or the zero value.  Wiping the MD5
    challenge of a removed entry and the saturation hook have no effect on the
    results; a nil store is not modelled. *)

From stdpp Require Import gmap.
From S2P Require Import Prelude BoundedStore Sha256 RadiusAttribute RadiusReply.

#[local] Open Scope Z_scope.

(** ** Binds *)

Inductive BindKind := BindUDPIP | BindTLSCert | BindOther.
#[export] Instance BindKind_eq_dec : EqDecision BindKind.
Proof. solve_decision. Defined.

Record ChallengeBind := mkBind { cb_Kind : BindKind; cb_SourceIP : option bytes; cb_CertFP : bytes }.
#[export] Instance ChallengeBind_eq_dec : EqDecision ChallengeBind.
Proof. solve_decision. Defined.

Definition zeroFP : bytes := make_bytes 32.

Definition addr_valid (a : option bytes) : bool := match a with Some _ => true | None => false end.

Definition Unset (b : ChallengeBind) : bool :=
  negb (addr_valid (cb_SourceIP b)) && bytes_eqb (cb_CertFP b) zeroFP.

Definition bind_match (b other : ChallengeBind) : bool :=
  if negb (bool_decide (cb_Kind b = cb_Kind other)) then false
  else match cb_Kind b with
  | BindUDPIP => addr_valid (cb_SourceIP b) && bool_decide (cb_SourceIP b = cb_SourceIP other)
  | BindTLSCert => negb (bytes_eqb (cb_CertFP b) zeroFP) && bytes_eqb (cb_CertFP b) (cb_CertFP other)
  | BindOther => false
  end.

(** ** The table *)

(** [Step] and [Method] are strings. *)
Record ChallengeIssue := mkIssue {
  is_State : bytes;
  is_EndpointID : bytes;
  is_ClientID : bytes;
  is_Bind : ChallengeBind;
  is_UserID : bytes;
  is_Method : bytes;
  is_EAPID : Z;
  is_EAPType : Z;
  is_Step : bytes;
  is_ReplyAttributes : RawSet;
  is_MD5Challenge : bytes;
  is_TunnelID : bytes;
  is_Revision : Z;
}.

Record ChallengeRecord := mkRecord {
  cr_EndpointID : bytes;
  cr_ClientID : bytes;
  cr_Bind : ChallengeBind;
  cr_UserID : bytes;
  cr_Method : bytes;
  cr_EAPID : Z;
  cr_EAPType : Z;
  cr_Step : bytes;
  cr_ReplyAttributes : RawSet;
  cr_MD5Challenge : bytes;
  cr_TunnelID : bytes;
  cr_Expires : Z;
  cr_Revision : Z;
}.

Record challengeEntry := mkEntry {
  en_endpointID : bytes;
  en_clientID : bytes;
  en_bind : ChallengeBind;
  en_userID : bytes;
  en_method : bytes;
  en_eapID : Z;
  en_eapType : Z;
  en_step : bytes;
  en_reply : RawSet;
  en_md5 : bytes;
  en_tunnelID : bytes;
  en_expires : Z;
  en_revision : Z;
  en_bytes : Z;
}.

(** What [NewChallengeStore] fixes. *)
Record challengeConf := mkConf { maxEntries : Z; maxBytes : Z; ttl : Z }.

Record ChallengeStore := mkStore {
  entries : gmap bytes challengeEntry;
  usedBytes : Z;
  conf : challengeConf;
  saturations : Z;
}.

Inductive IssueResult := IssueOK | IssueInvalid | IssueExists | IssueSaturated.
(** [ConsumeOK] comes with the record; the other results with an empty one. *)
Inductive ConsumeResult := ConsumeOK (r : ChallengeRecord) | ConsumeUnknown | ConsumeExpired | ConsumeBinding.

Definition second := 1000000000.

Definition NewChallengeStore (entries bytes ttl : Z) : ChallengeStore :=
  let entries := if entries <=? 0 then 4096 else entries in
  let bytes := if bytes <=? 0 then 1048576 else bytes in
  let ttl := if ttl <=? 0 then 30 * second else ttl in
  mkStore ∅ 0 (mkConf entries bytes ttl) 0.

Definition challengeKey (endpointID state : bytes) : bytes := sha256 (endpointID ++ state).

Definition entryBytes (e : challengeEntry) : Z :=
  32 + len (en_endpointID e) + len (en_clientID e) + len (en_userID e) + len (en_method e)
  + len (en_md5 e) + len (en_tunnelID e) + WireSize (en_reply e) + len (en_reply e) * 24 + 64.

Definition issueValid (i : ChallengeIssue) : bool :=
  if (len (is_State i) =? 0) || (len (is_EndpointID i) =? 0) || (len (is_ClientID i) =? 0) then false
  else match cb_Kind (is_Bind i) with
  | BindUDPIP => addr_valid (cb_SourceIP (is_Bind i))
  | BindTLSCert => negb (bytes_eqb (cb_CertFP (is_Bind i)) zeroFP)
  | BindOther => false
  end.

Definition removeLocked (s : ChallengeStore) (key : bytes) : ChallengeStore :=
  match entries s !! key with
  | None => s
  | Some e =>
    let used := usedBytes s - en_bytes e in
    let used := if used <? 0 then 0 else used in
    mkStore (delete key (entries s)) used (conf s) (saturations s)
  end.

(** [!e.expires.After(now)] *)
Definition expired (now : Z) (e : challengeEntry) : bool := negb (now <? en_expires e).

(** The loop over the map, in some order. *)
Definition expireLocked (s : ChallengeStore) (now : Z) : ChallengeStore :=
  foldr (fun '(k, e) s => if expired now e then removeLocked s k else s) s (map_to_list (entries s)).

(** The new entry of [Issue], and its size. *)
Definition newEntry (i : ChallengeIssue) (expires bytes : Z) : challengeEntry :=
  mkEntry (is_EndpointID i) (is_ClientID i) (is_Bind i) (is_UserID i) (is_Method i) (is_EAPID i)
    (is_EAPType i) (is_Step i) (RawSet_Clone (is_ReplyAttributes i)) (is_MD5Challenge i) (is_TunnelID i)
    expires (is_Revision i) bytes.

Definition Issue (s : ChallengeStore) (now : Z) (i : ChallengeIssue) : ChallengeStore * IssueResult :=
  if negb (issueValid i) then (s, IssueInvalid)
  else
    let key := challengeKey (is_EndpointID i) (is_State i) in
    let s := expireLocked s now in
    match entries s !! key with
    | Some _ => (s, IssueExists)
    | None =>
      let bytes := entryBytes (newEntry i (now + ttl (conf s)) 0) in
      let e := newEntry i (now + ttl (conf s)) bytes in
      if (Z.of_nat (size (entries s)) >=? maxEntries (conf s)) || (usedBytes s + bytes >? maxBytes (conf s))
      then (mkStore (entries s) (usedBytes s) (conf s) ((saturations s + 1) mod 18446744073709551616), IssueSaturated)
      else (mkStore (<[key := e]> (entries s)) (usedBytes s + bytes) (conf s) (saturations s), IssueOK)
    end.

Definition record_of (e : challengeEntry) : ChallengeRecord :=
  mkRecord (en_endpointID e) (en_clientID e) (en_bind e) (en_userID e) (en_method e) (en_eapID e)
    (en_eapType e) (en_step e) (RawSet_Clone (en_reply e)) (en_md5 e) (en_tunnelID e) (en_expires e)
    (en_revision e).

Definition Consume (s : ChallengeStore) (now : Z) (endpointID state clientID : bytes) (bind : ChallengeBind)
  : ChallengeStore * ConsumeResult :=
  if (len endpointID =? 0) || (len state =? 0) then (s, ConsumeUnknown)
  else
    let key := challengeKey endpointID state in
    match entries s !! key with
    | None => (s, ConsumeUnknown)
    | Some e =>
      if expired now e then (removeLocked s key, ConsumeExpired)
      else if negb (bytes_eqb (en_clientID e) clientID) || negb (bind_match (en_bind e) bind)
      then (s, ConsumeBinding)
      else (removeLocked s key, ConsumeOK (record_of e))
    end.

Definition Reset (s : ChallengeStore) : ChallengeStore :=
  foldr (fun '(k, _) s => removeLocked s k) s (map_to_list (entries s)).

Definition Len (s : ChallengeStore) (now : Z) : ChallengeStore * Z :=
  let s := expireLocked s now in (s, Z.of_nat (size (entries s))).

(** ** The adapter (challenge.go) *)

Inductive Carrier := CarrierUnset | CarrierRADIUSUDP | CarrierRADIUSTLS.

(** The fields of [Request] the adapter reads; [rq_PeerAddr] is
    [in.Peer.Addr()]. *)
Record challengeRequest := mkChallengeRequest {
  rq_Carrier : Carrier;
  rq_PeerAddr : option bytes;
  rq_TLSCertFP : bytes;
  rq_EndpointID : bytes;
  rq_ClientID : bytes;
  rq_Revision : Z;
}.

(** The reasons; the empty reason is [ReasonNone]. *)
Inductive challenge_reason :=
| ReasonNone | ReasonInvalidState | ReasonChallengeBinding | ReasonChallengeExpired | ReasonChallengeCapacity.

Definition requestCarrier (r : challengeRequest) : Carrier :=
  match rq_Carrier r with CarrierUnset => CarrierRADIUSUDP | c => c end.

(** [(state, present, reason)] *)
Definition extractState (attrs : RawSet) : bytes * bool * challenge_reason :=
  match AllOf attrs TypeState with
  | [] => ([], false, ReasonNone)
  | [a] => if len (Raw_Value a) =? 0 then ([], true, ReasonInvalidState) else (Raw_Value a, true, ReasonNone)
  | _ => ([], true, ReasonInvalidState)
  end.

Definition bindFromRequest (r : challengeRequest) : ChallengeBind * challenge_reason :=
  match requestCarrier r with
  | CarrierRADIUSTLS =>
    if bytes_eqb (rq_TLSCertFP r) zeroFP then (mkBind BindUDPIP None zeroFP, ReasonChallengeBinding)
    else (mkBind BindTLSCert None (rq_TLSCertFP r), ReasonNone)
  | _ =>
    match rq_PeerAddr r with
    | None => (mkBind BindUDPIP None zeroFP, ReasonChallengeBinding)
    | Some ip => (mkBind BindUDPIP (Some ip) zeroFP, ReasonNone)
    end
  end.

(** The defaults [IssueChallenge] takes from the request. *)
Definition fillIssue (r : challengeRequest) (i : ChallengeIssue) (bind : ChallengeBind) : ChallengeIssue :=
  mkIssue (is_State i)
    (if len (is_EndpointID i) =? 0 then rq_EndpointID r else is_EndpointID i)
    (if len (is_ClientID i) =? 0 then rq_ClientID r else is_ClientID i)
    bind (is_UserID i) (is_Method i) (is_EAPID i) (is_EAPType i) (is_Step i) (is_ReplyAttributes i)
    (is_MD5Challenge i) (is_TunnelID i)
    (if is_Revision i =? 0 then rq_Revision r else is_Revision i).

Definition IssueChallenge (s : ChallengeStore) (now : Z) (r : challengeRequest) (i : ChallengeIssue)
  : ChallengeStore * challenge_reason :=
  let '(bind, reason) := if Unset (is_Bind i) then bindFromRequest r else (is_Bind i, ReasonNone) in
  match reason with
  | ReasonNone =>
    let '(s, res) := Issue s now (fillIssue r i bind) in
    (s, match res with
        | IssueOK => ReasonNone
        | IssueSaturated => ReasonChallengeCapacity
        | IssueExists | IssueInvalid => ReasonInvalidState
        end)
  | reason => (s, reason)
  end.

(** The reason, and the record of a hit. *)
Definition consumeContinuation (s : ChallengeStore) (now : Z) (r : challengeRequest) (state : bytes)
  : ChallengeStore * (option ChallengeRecord * challenge_reason) :=
  let '(bind, reason) := bindFromRequest r in
  match reason with
  | ReasonNone =>
    let '(s, res) := Consume s now (rq_EndpointID r) state (rq_ClientID r) bind in
    (s, match res with
        | ConsumeOK rec => (Some rec, ReasonNone)
        | ConsumeExpired => (None, ReasonChallengeExpired)
        | ConsumeBinding => (None, ReasonChallengeBinding)
        | ConsumeUnknown => (None, ReasonInvalidState)
        end)
  | reason => (s, (None, reason))
  end.

(** ** Runs *)

Inductive op :=
| OpIssue (i : ChallengeIssue)
| OpConsume (endpointID state clientID : bytes) (bind : ChallengeBind)
| OpReset
| OpLen.

Definition step (s : ChallengeStore) (t : Z * op) : ChallengeStore :=
  match t.2 with
  | OpIssue i => (Issue s t.1 i).1
  | OpConsume e st c b => (Consume s t.1 e st c b).1
  | OpReset => Reset s
  | OpLen => (Len s t.1).1
  end.

Definition run (s : ChallengeStore) (l : list (Z * op)) : ChallengeStore := fold_left step l s.

(** ** The interface instance *)

Lemma chal_removeLocked_entries s k : entries (removeLocked s k) = delete k (entries s).
Proof. unfold removeLocked. destruct (entries s !! k) eqn:E; [done|]. by rewrite delete_id. Qed.
Lemma chal_removeLocked_used s k e :
  entries s !! k = Some e -> usedBytes (removeLocked s k) = Z.max 0 (usedBytes s - en_bytes e).
Proof.
  intros E. unfold removeLocked. rewrite E. simpl.
  destruct (Z.ltb_spec (usedBytes s - en_bytes e) 0); lia.
Qed.
Lemma chal_removeLocked_absent s k : entries s !! k = None -> removeLocked s k = s.
Proof. intros E. unfold removeLocked. by rewrite E. Qed.
Lemma chal_removeLocked_conf s k : conf (removeLocked s k) = conf s.
Proof. unfold removeLocked. by destruct (entries s !! k). Qed.

#[export] Instance Challenge_store : SizedStore ChallengeStore bytes challengeEntry challengeConf := {|
  st_entries := entries; st_used := usedBytes; st_conf := conf;
  st_size := en_bytes; st_remove := removeLocked;
  remove_entries := chal_removeLocked_entries; remove_used := chal_removeLocked_used;
  remove_absent := chal_removeLocked_absent; remove_conf := chal_removeLocked_conf;
|}.

(** [Reset] is the sweep that finds everything expired. *)
Lemma Reset_sweep s : Reset s = sweep (fun _ => true) s.
Proof. done. Qed.

(** ** The invariant *)

Record store_inv (s : ChallengeStore) : Prop := {
  si_accounted : accounted s;
  si_entries : Z.of_nat (size (entries s)) <= maxEntries (conf s);
  si_bytes : usedBytes s <= maxBytes (conf s);
  si_size : forall k e, entries s !! k = Some e -> en_bytes e = entryBytes e;
}.

Lemma WireSize_nonneg s : 0 <= WireSize s.
Proof. rewrite WireSize_tlvs. apply len_nonneg. Qed.

Lemma entryBytes_pos e : 96 <= entryBytes e.
Proof.
  unfold entryBytes. pose proof (WireSize_nonneg (en_reply e)). pose proof (len_nonneg (en_reply e)).
  pose proof (len_nonneg (en_endpointID e)). pose proof (len_nonneg (en_clientID e)).
  pose proof (len_nonneg (en_userID e)). pose proof (len_nonneg (en_method e)).
  pose proof (len_nonneg (en_md5 e)). pose proof (len_nonneg (en_tunnelID e)). lia.
Qed.

Lemma NewChallengeStore_inv e b t : store_inv (NewChallengeStore e b t).
Proof.
  split; simpl.
  - split; simpl; [by rewrite total_empty|]. intros k v H. by rewrite lookup_empty in H.
  - rewrite map_size_empty. destruct (Z.leb_spec e 0); lia.
  - destruct (Z.leb_spec b 0); lia.
  - intros k v H. by rewrite lookup_empty in H.
Qed.

Lemma chal_remove_inv s k : store_inv s -> store_inv (removeLocked s k).
Proof.
  intros [Ha He Hb Hi]. pose proof (remove_accounted s k Ha) as Ha'.
  pose proof (remove_used_le s k Ha) as Hu.
  change (st_remove s k) with (removeLocked s k) in *. change (st_used ?s) with (usedBytes s) in Hu.
  pose proof (chal_removeLocked_conf s k) as Ec. pose proof (chal_removeLocked_entries s k) as Ee.
  split; [done| | |].
  - rewrite Ec, Ee. pose proof (map_size_delete_le (entries s) k). lia.
  - rewrite Ec. lia.
  - intros k' e. rewrite Ee. intros [_ H]%lookup_delete_Some. by apply (Hi k').
Qed.

(** Every sweep keeps the invariant, and exactly what is not swept. *)
Lemma sweep_inv f s : store_inv s -> store_inv (sweep f s).
Proof.
  intros [Ha He Hb Hi]. destruct (sweep_spec f s Ha) as (Ha' & Hc & Hu & Hl).
  pose proof (sweep_size f s Ha) as Hs.
  change (st_conf ?s) with (conf s) in Hc. change (st_used ?s) with (usedBytes s) in Hu.
  change (st_entries ?s) with (entries s) in Hs, Hl.
  split; [done|rewrite Hc; lia|rewrite Hc; lia|].
  intros k e. rewrite Hl. destruct (entries s !! k) as [e'|] eqn:E; [|done].
  destruct (f e'); [done|]. intros [= <-]. by apply (Hi k).
Qed.

(** The entries still live at [now]. *)
Definition live (s : ChallengeStore) (now : Z) : gmap bytes challengeEntry :=
  filter (fun kv => expired now kv.2 = false) (entries s).

Lemma expire_live s now : accounted s -> entries (expireLocked s now) = live s now.
Proof. intros Ha. exact (sweep_entries (H0 := Challenge_store) (expired now) s Ha). Qed.

Lemma expire_conf s now : accounted s -> conf (expireLocked s now) = conf s.
Proof. intros Ha. apply (sweep_spec (expired now) s Ha). Qed.

Lemma expire_used s now : accounted s -> usedBytes (expireLocked s now) = total en_bytes (live s now).
Proof. intros Ha. rewrite <- expire_live by done. apply (sweep_spec (expired now) s Ha). Qed.

(** The size the new entry of an issue is charged. *)
Definition issueBytes (i : ChallengeIssue) : Z := entryBytes (newEntry i 0 0).

Lemma entryBytes_newEntry i x b : entryBytes (newEntry i x b) = issueBytes i.
Proof. done. Qed.

Lemma Issue_inv s now i : store_inv s -> store_inv (Issue s now i).1.
Proof.
  intros Hi. unfold Issue. destruct (negb (issueValid i)); [done|].
  assert (store_inv (expireLocked s now)) as Hx by by apply (sweep_inv (expired now)).
  set (x := expireLocked s now) in *. clearbody x. destruct (entries x !! _) eqn:Ek; [done|].
  rewrite !entryBytes_newEntry. destruct Hx as [[Hu Hs] He Hb Hz].
  destruct (_ || _) eqn:Efull; cbn [fst]; [by split|]. rewrite Z.geb_leb, Z.gtb_ltb in Efull.
  apply orb_false_iff in Efull as [E1%Z.leb_gt E2%Z.ltb_ge]. simpl in Hu, Hs.
  split; simpl; [split; simpl| |lia|].
  - rewrite total_insert by done. simpl. lia.
  - intros k' e. rewrite lookup_insert_Some. intros [[_ <-]|[_ H]]; [|by apply (Hs k')].
    pose proof (entryBytes_pos (newEntry i 0 0)). simpl. unfold issueBytes. lia.
  - rewrite map_size_insert_None by done. lia.
  - intros k' e. rewrite lookup_insert_Some. intros [[_ <-]|[_ H]]; [done|by apply (Hz k')].
Qed.

Lemma Consume_inv s now e st c b : store_inv s -> store_inv (Consume s now e st c b).1.
Proof.
  intros Hi. unfold Consume. destruct (_ || _); [done|]. destruct (entries s !! _); [|done].
  destruct (expired _ _); [by apply chal_remove_inv|]. destruct (_ || _); [done|by apply chal_remove_inv].
Qed.

Lemma chal_step_inv s t : store_inv s -> store_inv (step s t).
Proof.
  intros Hi. destruct t as [now []]; unfold step; cbn [fst snd].
  - by apply Issue_inv.
  - by apply Consume_inv.
  - by apply (sweep_inv (fun _ => true)).
  - by apply (sweep_inv (expired now)).
Qed.

Lemma chal_run_inv s l : store_inv s -> store_inv (run s l).
Proof. unfold run. revert s. induction l as [|t l IH]; intros s Hi; [done|]. by apply IH, chal_step_inv. Qed.

(** ** Capacity *)

Lemma Issue_spec s now i :
  accounted s -> issueValid i = true ->
  let k := challengeKey (is_EndpointID i) (is_State i) in
  let room := (Z.of_nat (size (live s now)) <? maxEntries (conf s))
              && (total en_bytes (live s now) + issueBytes i <=? maxBytes (conf s)) in
  (Issue s now i).2
  = match live s now !! k with Some _ => IssueExists | None => if room then IssueOK else IssueSaturated end
  /\ entries (Issue s now i).1
  = match live s now !! k with
    | Some _ => live s now
    | None => if room then <[k := newEntry i (now + ttl (conf s)) (issueBytes i)]> (live s now) else live s now
    end.
Proof.
  intros Ha Hv k room. unfold Issue. rewrite Hv. cbn [negb]. fold k.
  rewrite !entryBytes_newEntry, expire_conf, expire_used, expire_live by done.
  destruct (live s now !! k) as [e|]; [cbn [fst snd]; by rewrite expire_live|].
  assert (((Z.of_nat (size (live s now)) >=? maxEntries (conf s))
    || (total en_bytes (live s now) + issueBytes i >? maxBytes (conf s))) = negb room) as ->.
  { subst room. rewrite negb_andb, Z.geb_leb, Z.gtb_ltb, <- Z.leb_antisym, <- Z.ltb_antisym. done. }
  destruct room; cbn [negb fst snd entries]; done.
Qed.

(** [Issue] refuses an invalid challenge; otherwise it drops what has expired
    and stores the record exactly when its key is free and the live records
    leave room. *)
Definition issue_exact (s : ChallengeStore) : Prop :=
  forall now i,
    let k := challengeKey (is_EndpointID i) (is_State i) in
    let room := (Z.of_nat (size (live s now)) <? maxEntries (conf s))
                && (total entryBytes (live s now) + issueBytes i <=? maxBytes (conf s)) in
    if issueValid i then
      (Issue s now i).2 = match live s now !! k with Some _ => IssueExists | None => if room then IssueOK else IssueSaturated end
      /\ entries (Issue s now i).1
         = match live s now !! k with
           | Some _ => live s now
           | None => if room then <[k := newEntry i (now + ttl (conf s)) (issueBytes i)]> (live s now) else live s now
           end
    else Issue s now i = (s, IssueInvalid).

(** The challenge table is bounded and fail-closed.  After any history, it
    holds at most [maxEntries] records, and its byte counter is the summed
    size of the records and at most [maxBytes].  Issuing refuses an invalid
    challenge and changes nothing; otherwise it drops what has expired and
    then answers [IssueExists] exactly when a live record has the same key,
    [IssueSaturated] exactly when the live records leave no room, and
    [IssueOK] else, when the new record is stored; no live record is ever
    evicted or overwritten. *)
Lemma challenge_store_bounded (entries0 bytes0 ttl0 : Z) (l : list (Z * op)) :
  let s := run (NewChallengeStore entries0 bytes0 ttl0) l in
  Z.of_nat (size (entries s)) <= maxEntries (conf s)
  /\ usedBytes s = total entryBytes (entries s) /\ usedBytes s <= maxBytes (conf s)
  /\ issue_exact s.
Proof.
  intros s. assert (store_inv s) as Hi by apply chal_run_inv, NewChallengeStore_inv.
  assert (forall m, m ⊆ entries s -> total en_bytes m = total entryBytes m) as Htot.
  { intros m. induction m as [|k e m Hk IH] using map_ind; intros Hm; [by rewrite !total_empty|].
    rewrite !total_insert by done. rewrite IH.
    - f_equal. apply (si_size s Hi k). eapply lookup_weaken; [|exact Hm]. apply lookup_insert_eq.
    - etransitivity; [|exact Hm]. by apply insert_subseteq. }
  pose proof Hi as [Ha He Hb _]. split_and!; [done| |done|].
  - rewrite <- Htot by done. apply Ha.
  - intros now i k room. destruct (issueValid i) eqn:Hv; [|by unfold Issue; rewrite Hv].
    pose proof (Issue_spec s now i Ha Hv) as H. rewrite Htot in H by apply map_filter_subseteq. exact H.
Qed.

(** ** Continuations *)

(** Operations before [until] that leave the record [e] under [k] alone: any
    issue and count, and any continuation that is another key's or does not
    match. *)
Definition quiet (k : bytes) (e : challengeEntry) (until : Z) (t : Z * op) : Prop :=
  t.1 < until /\
  match t.2 with
  | OpIssue _ | OpLen => True
  | OpConsume ep st c b =>
    challengeKey ep st <> k \/ bytes_eqb (en_clientID e) c && bind_match (en_bind e) b = false
  | OpReset => False
  end.

Lemma live_lookup s now k e :
  entries s !! k = Some e -> now < en_expires e -> live s now !! k = Some e.
Proof.
  intros Hk Ht. apply map_lookup_filter_Some. split; [done|]. simpl. unfold expired.
  by rewrite (proj2 (Z.ltb_lt _ _) Ht).
Qed.

Lemma quiet_step s k e t :
  store_inv s -> entries s !! k = Some e -> quiet k e (en_expires e) t -> entries (step s t) !! k = Some e.
Proof.
  intros Hi Hk [Ht Hq]. destruct t as [now o]. cbn [fst snd] in *. pose proof (live_lookup s now k e Hk Ht) as Hl.
  pose proof (si_accounted s Hi) as Ha. destruct o as [i|ep st c b| |]; unfold step; cbn [fst snd]; [| |done|].
  - destruct (issueValid i) eqn:Hv; [|by unfold Issue; rewrite Hv].
    rewrite (proj2 (Issue_spec s now i Ha Hv)).
    destruct (live s now !! challengeKey (is_EndpointID i) (is_State i)) eqn:Ex; [done|].
    destruct (_ && _); [|done]. rewrite lookup_insert_ne; [done|]. intros Heq. rewrite Heq in Ex. congruence.
  - unfold Consume. destruct (_ || _); [done|].
    destruct (decide (challengeKey ep st = k)) as [Heq|Hne].
    + rewrite Heq, Hk. unfold expired. rewrite (proj2 (Z.ltb_lt _ _) Ht). cbn [negb].
      destruct Hq as [|Hq]; [done|]. by rewrite <- negb_andb, Hq.
    + destruct (entries s !! challengeKey ep st) as [e'|] eqn:E'; [|done].
      assert (entries (removeLocked s (challengeKey ep st)) !! k = Some e) as Hr
        by by rewrite chal_removeLocked_entries, lookup_delete_ne.
      destruct (expired now e'); [exact Hr|]. destruct (_ || _); [exact Hk|exact Hr].
  - change (entries (expireLocked s now) !! k = Some e). by rewrite expire_live.
Qed.

Lemma chal_quiet_run s k e l :
  store_inv s -> entries s !! k = Some e -> Forall (quiet k e (en_expires e)) l -> entries (run s l) !! k = Some e.
Proof.
  intros Hi Hk Hl. unfold run. revert s Hi Hk. induction Hl as [|t l Ht Hl IH]; intros s Hi Hk; [done|].
  apply IH; [by apply chal_step_inv|by apply quiet_step].
Qed.

Lemma bindFromRequest_shape r :
  (bindFromRequest r).2 = ReasonNone ->
  (exists ip, (bindFromRequest r).1 = mkBind BindUDPIP (Some ip) zeroFP)
  \/ (exists fp, fp <> zeroFP /\ (bindFromRequest r).1 = mkBind BindTLSCert None fp).
Proof.
  unfold bindFromRequest. destruct (requestCarrier r);
    try (destruct (rq_PeerAddr r) as [ip|]; [intros _; left; by exists ip|done]).
  destruct (bytes_eqb (rq_TLSCertFP r) zeroFP) eqn:E; [done|]. intros _. right. exists (rq_TLSCertFP r).
  split; [|done]. intros H. apply bytes_eqb_true in H. congruence.
Qed.

(** Two binds taken from requests match exactly when they are equal. *)
Lemma bindFromRequest_match r r' :
  (bindFromRequest r).2 = ReasonNone -> (bindFromRequest r').2 = ReasonNone ->
  bind_match (bindFromRequest r).1 (bindFromRequest r').1 = bool_decide ((bindFromRequest r).1 = (bindFromRequest r').1).
Proof.
  intros [(ip & ->)|(fp & Hfp & ->)]%bindFromRequest_shape [(ip' & ->)|(fp' & Hfp' & ->)]%bindFromRequest_shape;
    unfold bind_match; cbn [cb_Kind cb_SourceIP cb_CertFP addr_valid].
  - rewrite bool_decide_eq_true_2 by done. apply bool_decide_ext. split; congruence.
  - rewrite bool_decide_eq_false_2 by done. symmetry. by apply bool_decide_eq_false.
  - rewrite bool_decide_eq_false_2 by done. symmetry. by apply bool_decide_eq_false.
  - rewrite bool_decide_eq_true_2 by done. unfold bytes_eqb. rewrite (bool_decide_eq_false_2 (fp = zeroFP)) by done.
    apply bool_decide_ext. split; congruence.
Qed.

(** A challenge is continued once, by its peer, before it expires.  Let
    [IssueChallenge] store a challenge for the request [r] at [t0], without
    an explicit bind, and let any operations but a reset and a matching
    continuation follow before [t0 + ttl].  Then a continuation that presents
    the same octets of endpoint and State, with the same client and the same
    bind (source address on UDP, certificate on TLS), gets exactly the stored
    record and consumes it: repeating it is [ReasonInvalidState], whoever
    does.  Another client or bind is refused and consumes nothing; after
    [t0 + ttl] the answer is [ReasonChallengeExpired].  The endpoint enters
    only through the concatenation that is hashed. *)
Definition continued_once (s : ChallengeStore) (t0 : Z) (r : challengeRequest) (i : ChallengeIssue)
    (l : list (Z * op)) (r' : challengeRequest) (state : bytes) : Prop :=
  let i' := fillIssue r i (bindFromRequest r).1 in
  let k := challengeKey (is_EndpointID i') (is_State i') in
  let e := newEntry i' (t0 + ttl (conf s)) (issueBytes i') in
  let s1 := run (IssueChallenge s t0 r i).1 l in
  Unset (is_Bind i) = true -> (IssueChallenge s t0 r i).2 = ReasonNone ->
  Forall (quiet k e (t0 + ttl (conf s))) l ->
  rq_EndpointID r' ++ state = is_EndpointID i' ++ is_State i' -> rq_EndpointID r' <> [] -> state <> [] ->
  (bindFromRequest r').2 = ReasonNone ->
  forall t,
  if t <? t0 + ttl (conf s) then
    if bool_decide (is_ClientID i' = rq_ClientID r' /\ (bindFromRequest r).1 = (bindFromRequest r').1) then
      let s2 := removeLocked s1 k in
      consumeContinuation s1 t r' state = (s2, (Some (record_of e), ReasonNone))
      /\ forall t' clientID bind, (Consume s2 t' (rq_EndpointID r') state clientID bind).2 = ConsumeUnknown
    else consumeContinuation s1 t r' state = (s1, (None, ReasonChallengeBinding))
  else consumeContinuation s1 t r' state = (removeLocked s1 k, (None, ReasonChallengeExpired)).

Lemma continuation_once (s : ChallengeStore) t0 r i l r' state : store_inv s -> continued_once s t0 r i l r' state.
Proof.
  cbv beta delta [continued_once]. intros Hinv i' k e s1 Hun Hok Hl Hcat Hep Hst Hb' t.
  assert ((bindFromRequest r).2 = ReasonNone /\ (Issue s t0 i').2 = IssueOK
    /\ (IssueChallenge s t0 r i).1 = (Issue s t0 i').1) as (Hb & HI & HI1).
  { unfold IssueChallenge in *. rewrite Hun in *. subst i'. destruct (bindFromRequest r) as [b []]; try discriminate.
    cbn [fst] in *. destruct (Issue s t0 _) as [s' []]; try discriminate. done. }
  assert (issueValid i' = true) as Hv.
  { destruct (issueValid i') eqn:Hv; [done|]. unfold Issue in HI. rewrite Hv in HI. discriminate. }
  pose proof (Issue_spec s t0 i' (si_accounted s Hinv) Hv) as [H1 H2]. fold k in H1, H2. rewrite HI in H1.
  assert (entries s1 !! k = Some e) as Hk.
  { apply chal_quiet_run; [rewrite HI1; by apply Issue_inv| |done]. rewrite HI1, H2.
    destruct (live s t0 !! k); [discriminate|]. destruct (_ && _); [|discriminate]. by rewrite lookup_insert_eq. }
  clearbody s1. clear H1 H2 HI HI1 Hl Hok.
  assert (challengeKey (rq_EndpointID r') state = k) as Hkey by (unfold challengeKey, k; by rewrite Hcat).
  assert ((len (rq_EndpointID r') =? 0) || (len state =? 0) = false) as Hne.
  { apply orb_false_iff. split; apply Z.eqb_neq; by rewrite len_zero. }
  pose proof (bindFromRequest_match r r' Hb Hb') as Hm.
  assert (forall c b, Consume s1 t (rq_EndpointID r') state c b =
    if expired t e then (removeLocked s1 k, ConsumeExpired)
    else if negb (bytes_eqb (is_ClientID i') c) || negb (bind_match (bindFromRequest r).1 b) then (s1, ConsumeBinding)
    else (removeLocked s1 k, ConsumeOK (record_of e))) as Hcons.
  { intros c b. unfold Consume. rewrite Hne, Hkey, Hk. reflexivity. }
  unfold consumeContinuation. destruct (bindFromRequest r') as [b' reason'] eqn:Eb. cbn [fst snd] in *. subst reason'.
  rewrite Hcons. unfold expired. cbn [en_expires e newEntry].
  destruct (t <? t0 + ttl (conf s)); cbn [negb]; [|done].
  rewrite Hm. unfold bytes_eqb. destruct (decide (is_ClientID i' = rq_ClientID r')) as [Hc|Hc].
  - rewrite (bool_decide_eq_true_2 (is_ClientID i' = rq_ClientID r')) by done. cbn [negb orb].
    destruct (decide ((bindFromRequest r).1 = b')) as [Hbb|Hbb].
    + rewrite !bool_decide_eq_true_2 by done. cbn [negb]. split; [done|]. intros t' c b.
      unfold Consume. rewrite Hne, Hkey, chal_removeLocked_entries, lookup_delete_eq. done.
    + rewrite !bool_decide_eq_false_2 by tauto. done.
  - rewrite !bool_decide_eq_false_2 by tauto. done.
Qed.


(** A challenge of endpoint "e1" for the client "c" at 10.0.0.1. *)
Definition request_e1 : challengeRequest :=
  mkChallengeRequest CarrierUnset (Some [10; 0; 0; 1]) zeroFP [101; 49] [99] 1.
Definition challenge_e1 : ChallengeIssue :=
  mkIssue [120; 7] [] [] (mkBind BindUDPIP None zeroFP) [117] [] 1 4 [] [] [5; 6] [] 0.

Definition quiet_ops : list (Z * op) :=
  [(6, OpConsume [101; 49] [120; 7] [100] (mkBind BindUDPIP (Some [10; 0; 0; 1]) zeroFP)); (7, OpLen)].


(** The endpoint is not separated from the State in the key, and [Consume]
    does not compare it: a request for the endpoint "e1x" consumes the
    challenge issued for "e1". *)
Example other_endpoint_consumes :
  let s := (IssueChallenge (NewChallengeStore 2 0 60) 5 request_e1 challenge_e1).1 in
  let r' := mkChallengeRequest CarrierUnset (Some [10; 0; 0; 1]) zeroFP [101; 49; 120] [99] 1 in
  exists rec, (consumeContinuation s 6 r' [7]).2 = (Some rec, ReasonNone) /\ cr_EndpointID rec = [101; 49].
Proof. eexists. split; vm_compute; reflexivity. Qed.
