(* ===== verification/RadiusJournal.v ===== *)
(** * RADIUS accounting: the semantic journal

    [internal/radius/udp/journal.go]: which accounting events have been
    recorded, and which are being recorded now, so that a retransmission with
    a new Identifier or delay time is not recorded twice.  The journal's
    methods hold its mutex.  [Begin] is a loop that may wait on the channel of
    the request that is recording the same event, so a handler is a small
    state machine here ([worker]) and a run is an interleaving of the steps of
    any number of them.  The clock is monotonic, as Go's is: a step reads the
    later of its [now] and the last reading. *)

From stdpp Require Import gmap.
From S2P Require Import Prelude BoundedStore.

#[local] Open Scope Z_scope.

(** ** The journal *)

(** Strings are octets. *)
Record JournalKey := mkJournalKey {
  jk_EndpointID : bytes;
  jk_SrcIP : bytes;
  jk_SrcPort : Z;
  jk_SessionID : bytes;
  jk_StatusType : bytes;
  jk_NAS : bytes;
  jk_Fingerprint : bytes;
}.

#[export] Instance JournalKey_eq_dec : EqDecision JournalKey.
Proof. solve_decision. Defined.
#[export] Instance JournalKey_countable : Countable JournalKey.
Proof.
  refine (inj_countable'
    (fun k => (jk_EndpointID k, jk_SrcIP k, jk_SrcPort k, jk_SessionID k, jk_StatusType k, jk_NAS k, jk_Fingerprint k))
    (fun '(a, b, c, d, e, f, g) => mkJournalKey a b c d e f g) _).
  by intros [].
Defined.

Definition journalKeyBytes (k : JournalKey) : Z :=
  len (jk_EndpointID k) + len (jk_SrcIP k) + 2 + len (jk_SessionID k) + len (jk_StatusType k)
  + len (jk_NAS k) + len (jk_Fingerprint k).

Record journalConf := mkConf { maxEntries : Z; maxBytes : Z; ttl : Z }.

(** [jr_next] numbers the channels: the next [make(chan struct{})] is new.
    A channel is closed once [jr_pending] no longer holds it. *)
Record journal := mkJournal {
  jr_pending : gmap JournalKey nat;
  jr_pendingBytes : Z;
  jr_entries : gmap JournalKey Z;
  jr_sizes : gmap JournalKey Z;
  jr_usedBytes : Z;
  jr_conf : journalConf;
  jr_sat : Z;
  jr_next : nat;
}.

Definition second := 1000000000.

Definition newJournal (entries bytes ttl : Z) : journal :=
  let entries := if entries <=? 0 then 20000 else entries in
  let bytes := if bytes <=? 0 then 8388608 else bytes in
  let ttl := if ttl <=? 0 then 60 * second else ttl in
  mkJournal ∅ 0 ∅ ∅ 0 (mkConf entries bytes ttl) 0 0.

(** The body of the loop of [expireLocked]. *)
Definition forget (j : journal) (k : JournalKey) : journal :=
  let used := jr_usedBytes j - default 0 (jr_sizes j !! k) in
  let used := if used <? 0 then 0 else used in
  mkJournal (jr_pending j) (jr_pendingBytes j) (delete k (jr_entries j)) (delete k (jr_sizes j)) used
    (jr_conf j) (jr_sat j) (jr_next j).

(** The loop over the map, in some order. *)
Definition expireLocked (j : journal) (now : Z) : journal :=
  foldr (fun '(k, exp) j => if negb (now <? exp) then forget j k else j) j (map_to_list (jr_entries j)).

(** [exp, ok := j.entries[key]; ok && exp.After(now)] *)
Definition recorded (j : journal) (now : Z) (key : JournalKey) : bool :=
  match jr_entries j !! key with Some exp => now <? exp | None => false end.

Definition Seen (j : journal) (now : Z) (key : JournalKey) : journal * bool :=
  let j := expireLocked j now in (j, recorded j now key).

Definition saturate (j : journal) : journal :=
  mkJournal (jr_pending j) (jr_pendingBytes j) (jr_entries j) (jr_sizes j) (jr_usedBytes j) (jr_conf j)
    ((jr_sat j + 1) mod 18446744073709551616) (jr_next j).

Definition Remember (j : journal) (now : Z) (key : JournalKey) : journal * bool :=
  let j := expireLocked j now in
  if recorded j now key then
    (mkJournal (jr_pending j) (jr_pendingBytes j) (<[key := now + ttl (jr_conf j)]> (jr_entries j)) (jr_sizes j)
       (jr_usedBytes j) (jr_conf j) (jr_sat j) (jr_next j), true)
  else
    let n := journalKeyBytes key in
    if (Z.of_nat (size (jr_entries j)) >=? maxEntries (jr_conf j)) || (jr_usedBytes j + n >? maxBytes (jr_conf j))
    then (saturate j, false)
    else
      (mkJournal (jr_pending j) (jr_pendingBytes j) (<[key := now + ttl (jr_conf j)]> (jr_entries j))
         (<[key := n]> (jr_sizes j)) (jr_usedBytes j + n) (jr_conf j) (jr_sat j) (jr_next j), true).

(** One turn of [Begin]'s loop. *)
Inductive begin_result :=
| BeginRecorded            (* false, false, nil *)
| BeginWait (done : nat)   (* wait for the channel, then try again *)
| BeginSaturated           (* true, true, nil *)
| BeginOwner.              (* true, false, nil *)

Definition Begin_turn (j : journal) (now : Z) (key : JournalKey) : journal * begin_result :=
  let j := expireLocked j now in
  if recorded j now key then (j, BeginRecorded)
  else match jr_pending j !! key with
  | Some done => (j, BeginWait done)
  | None =>
    let n := journalKeyBytes key in
    if (Z.of_nat (size (jr_entries j)) + Z.of_nat (size (jr_pending j)) >=? maxEntries (jr_conf j))
       || (jr_usedBytes j + jr_pendingBytes j + n >? maxBytes (jr_conf j))
    then (saturate j, BeginSaturated)
    else
      (mkJournal (<[key := jr_next j]> (jr_pending j)) (jr_pendingBytes j + n) (jr_entries j) (jr_sizes j)
         (jr_usedBytes j) (jr_conf j) (jr_sat j) (S (jr_next j)), BeginOwner)
  end.

Definition Finish (j : journal) (now : Z) (key : JournalKey) (accepted : bool) : journal :=
  match jr_pending j !! key with
  | None => j
  | Some _ =>
    let n := journalKeyBytes key in
    if accepted then
      mkJournal (delete key (jr_pending j)) (jr_pendingBytes j - n) (<[key := now + ttl (jr_conf j)]> (jr_entries j))
        (<[key := n]> (jr_sizes j)) (jr_usedBytes j + n) (jr_conf j) (jr_sat j) (jr_next j)
    else
      mkJournal (delete key (jr_pending j)) (jr_pendingBytes j - n) (jr_entries j) (jr_sizes j)
        (jr_usedBytes j) (jr_conf j) (jr_sat j) (jr_next j)
  end.

(** ** The minute sampler *)

(** [ms_win] is the window's minute; [time.Time{}] is minute 0. *)
Record minuteSampler := mkSampler { ms_limit : Z; ms_win : Z; ms_count : Z }.

Definition minute := 60 * second.

Definition Allow (s : minuteSampler) (now : Z) : minuteSampler * bool :=
  if ms_limit s <=? 0 then (s, false)
  else
    let win := now - now mod minute in
    let s := if negb (win =? ms_win s) then mkSampler (ms_limit s) win 0 else s in
    if ms_count s >=? ms_limit s then (s, false)
    else (mkSampler (ms_limit s) (ms_win s) (ms_count s + 1), true).

(** ** Handlers *)

Inductive outcome :=
| Acknowledged     (* recorded before: reply without recording *)
| Recorded         (* recorded by this handler *)
| Failed           (* the sink refused: no reply *)
| Cancelled.       (* the context ended: no reply *)

(** Where a handler of [Accounting.Handle] is, for its event [k]. *)
Inductive worker :=
| WBegin (k : JournalKey)                              (* about to take a turn of [Begin] *)
| WWait (k : JournalKey) (done : nat)                  (* waiting for the channel *)
| WOwner (k : JournalKey) (began : Z)                  (* reserved: about to call the sink *)
| WSaturated (k : JournalKey)                          (* not reserved: about to call the sink *)
| WFinish (k : JournalKey) (began : Z) (accepted : bool)  (* about to call the deferred [Finish] *)
| WDone (k : JournalKey) (o : outcome).

(** An event recorded by an owner: when it was reserved and committed. *)
Record commit := mkCommit { cm_key : JournalKey; cm_began : Z; cm_finished : Z }.

Record system := mkSystem {
  sy_journal : journal;
  sy_workers : list worker;
  sy_clock : Z;
  sy_log : list commit;
}.

Inductive label :=
| LArrive (k : JournalKey)          (* a request reaches the journal *)
| LTurn (w : nat) (now : Z)         (* a turn of [Begin] *)
| LWake (w : nat)                   (* the channel is closed *)
| LCancel (w : nat)                 (* [ctx.Done()] *)
| LSink (w : nat) (accepted : bool) (* the sink answers *)
| LFinish (w : nat) (now : Z).

Definition with_worker (s : system) (w : nat) (x : worker) : system :=
  mkSystem (sy_journal s) (<[w := x]> (sy_workers s)) (sy_clock s) (sy_log s).

(** A label that is not enabled changes nothing. *)
Definition step (s : system) (l : label) : system :=
  match l with
  | LArrive k => mkSystem (sy_journal s) (sy_workers s ++ [WBegin k]) (sy_clock s) (sy_log s)
  | LTurn w now =>
    match sy_workers s !! w with
    | Some (WBegin k) =>
      let t := Z.max (sy_clock s) now in
      let '(j, r) := Begin_turn (sy_journal s) t k in
      let x := match r with
        | BeginRecorded => WDone k Acknowledged
        | BeginWait done => WWait k done
        | BeginSaturated => WSaturated k
        | BeginOwner => WOwner k t
        end in
      mkSystem j (<[w := x]> (sy_workers s)) t (sy_log s)
    | _ => s
    end
  | LWake w =>
    match sy_workers s !! w with
    | Some (WWait k done) =>
      if decide (jr_pending (sy_journal s) !! k = Some done) then s else with_worker s w (WBegin k)
    | _ => s
    end
  | LCancel w =>
    match sy_workers s !! w with
    | Some (WBegin k) | Some (WWait k _) => with_worker s w (WDone k Cancelled)
    | _ => s
    end
  | LSink w accepted =>
    match sy_workers s !! w with
    | Some (WOwner k began) => with_worker s w (WFinish k began accepted)
    | Some (WSaturated k) => with_worker s w (WDone k (if accepted then Recorded else Failed))
    | _ => s
    end
  | LFinish w now =>
    match sy_workers s !! w with
    | Some (WFinish k began accepted) =>
      let t := Z.max (sy_clock s) now in
      mkSystem (Finish (sy_journal s) t k accepted)
        (<[w := WDone k (if accepted then Recorded else Failed)]> (sy_workers s)) t
        (if accepted then sy_log s ++ [mkCommit k began t] else sy_log s)
    | _ => s
    end
  end.

Definition start (entries bytes ttl : Z) : system := mkSystem (newJournal entries bytes ttl) [] 0 [].
Definition run (s : system) (l : list label) : system := fold_left step l s.

(** ** The table's accounting *)

(** The sizes of the keys of a map. *)
Definition key_sizes {V} (m : gmap JournalKey V) : gmap JournalKey Z :=
  map_imap (fun k _ => Some (journalKeyBytes k)) m.

Lemma lookup_key_sizes {V} (m : gmap JournalKey V) k :
  key_sizes m !! k = (fun _ => journalKeyBytes k) <$> m !! k.
Proof. unfold key_sizes. rewrite map_lookup_imap. by destruct (m !! k). Qed.

Lemma key_sizes_insert {V} (m : gmap JournalKey V) k v :
  key_sizes (<[k := v]> m) = <[k := journalKeyBytes k]> (key_sizes m).
Proof. by apply map_imap_insert_Some. Qed.

Lemma key_sizes_delete {V} (m : gmap JournalKey V) k :
  key_sizes (delete k m) = delete k (key_sizes m).
Proof. apply map_imap_delete. Qed.

(** The bytes the keys of a map are charged. *)
Definition charge {V} (m : gmap JournalKey V) : Z := total id (key_sizes m).

Lemma journalKeyBytes_pos k : 0 < journalKeyBytes k.
Proof. unfold journalKeyBytes. len_lia. Qed.

Lemma key_sizes_nonneg {V} (m : gmap JournalKey V) k n : key_sizes m !! k = Some n -> 0 <= id n.
Proof.
  rewrite lookup_key_sizes. destruct (m !! k); intros [= <-]. unfold id.
  pose proof (journalKeyBytes_pos k). lia.
Qed.

Lemma charge_insert {V} (m : gmap JournalKey V) k v :
  m !! k = None -> charge (<[k := v]> m) = journalKeyBytes k + charge m.
Proof.
  intros Hk. unfold charge. rewrite key_sizes_insert, total_insert; [done|].
  by rewrite lookup_key_sizes, Hk.
Qed.

Lemma charge_delete {V} (m : gmap JournalKey V) k v :
  m !! k = Some v -> charge (delete k m) = charge m - journalKeyBytes k.
Proof.
  intros Hk. unfold charge. rewrite key_sizes_delete, (total_delete _ _ k (journalKeyBytes k)); [done|].
  by rewrite lookup_key_sizes, Hk.
Qed.

Lemma charge_nonneg {V} (m : gmap JournalKey V) : 0 <= charge m.
Proof. apply total_nonneg. intros k n. apply key_sizes_nonneg. Qed.

Lemma charge_lookup {V} (m : gmap JournalKey V) k v : m !! k = Some v -> journalKeyBytes k <= charge m.
Proof.
  intros Hk. apply (total_lookup id _ k); [intros k' n; apply key_sizes_nonneg|].
  by rewrite lookup_key_sizes, Hk.
Qed.

Record journal_ok (j : journal) : Prop := {
  jo_disjoint : forall k, is_Some (jr_pending j !! k) -> jr_entries j !! k = None;
  jo_sizes : jr_sizes j = key_sizes (jr_entries j);
  jo_used : jr_usedBytes j = charge (jr_entries j);
  jo_pendingBytes : jr_pendingBytes j = charge (jr_pending j);
  jo_count : Z.of_nat (size (jr_entries j)) + Z.of_nat (size (jr_pending j)) <= maxEntries (jr_conf j);
  jo_bytes : jr_usedBytes j + jr_pendingBytes j <= maxBytes (jr_conf j);
  jo_ttl : 0 < ttl (jr_conf j);
  jo_next : forall k d, jr_pending j !! k = Some d -> (d < jr_next j)%nat;
}.

Lemma newJournal_ok entries bytes ttl : journal_ok (newJournal entries bytes ttl).
Proof.
  unfold newJournal, second. split; simpl;
    try (repeat case_match; bool_hyps; rewrite ?map_size_empty; lia);
    intros; try done; try (by apply lookup_empty_Some in H).
Qed.

Lemma forget_ok j k : journal_ok j -> journal_ok (forget j k).
Proof.
  intros [Hd Hs Hu Hp Hc Hb Ht Hn]. unfold forget. split; simpl.
  - intros k' Hk'. rewrite lookup_delete_None. right. by apply Hd.
  - by rewrite Hs, key_sizes_delete.
  - rewrite Hs, lookup_key_sizes, Hu. destruct (jr_entries j !! k) as [e|] eqn:Ek; simpl.
    + rewrite (charge_delete _ k e) by done. pose proof (charge_lookup _ k e Ek). case_match; bool_hyps; lia.
    + rewrite delete_id by done. pose proof (charge_nonneg (jr_entries j)). case_match; bool_hyps; lia.
  - done.
  - pose proof (map_size_delete_le (jr_entries j) k). lia.
  - pose proof (charge_nonneg (jr_entries j)). rewrite Hs, lookup_key_sizes.
    pose proof (journalKeyBytes_pos k). destruct (jr_entries j !! k) as [e|] eqn:Ek; simpl.
    + pose proof (charge_lookup _ k e Ek). case_match; bool_hyps; lia.
    + case_match; bool_hyps; lia.
  - done.
  - done.
Qed.

Lemma decide_iff_ext {A} (P Q : Prop) `{Decision P, Decision Q} (x y : A) :
  (P <-> Q) -> (if decide P then x else y) = (if decide Q then x else y).
Proof. intros HPQ. do 2 case_decide; tauto || done. Qed.

(** The sweep drops the entries that have expired, and nothing else. *)
Lemma expire_loop now (l : list (JournalKey * Z)) j :
  journal_ok j ->
  let j' := foldr (fun '(k, exp) j => if negb (now <? exp) then forget j k else j) j l in
  journal_ok j' /\ jr_pending j' = jr_pending j /\ jr_conf j' = jr_conf j /\ jr_next j' = jr_next j
  /\ forall k, jr_entries j' !! k =
      if decide (Exists (fun kv => kv.1 = k /\ kv.2 <= now) l) then None else jr_entries j !! k.
Proof.
  intros Hj. induction l as [|[k exp] l IH]; cbv zeta; cbn [foldr].
  { by split_and!. }
  cbv zeta in IH. destruct IH as (Ho & Hp & Hc & Hn & He). set (j' := foldr _ j l) in *.
  destruct (now <? exp) eqn:El; cbn [negb]; bool_hyps.
  - split_and!; try done. intros k'. rewrite He.
    apply decide_iff_ext. rewrite List.Exists_cons. simpl. split; [by right|]. intros [ [? ?]|?]; [lia|done].
  - split_and!; [by apply forget_ok|done..|]. intros k'. simpl. destruct (decide (k' = k)) as [->|Hne].
    + rewrite lookup_delete_eq, decide_True; [done|]. apply List.Exists_cons. left. simpl. by split.
    + rewrite lookup_delete_ne, He by congruence. apply decide_iff_ext. rewrite List.Exists_cons. simpl.
      split; [by right|]. intros [ [? ?]|?]; [congruence|done].
Qed.

Lemma expire_spec j now :
  journal_ok j ->
  journal_ok (expireLocked j now) /\ jr_pending (expireLocked j now) = jr_pending j
  /\ jr_conf (expireLocked j now) = jr_conf j /\ jr_next (expireLocked j now) = jr_next j
  /\ forall k e, jr_entries (expireLocked j now) !! k = Some e <-> jr_entries j !! k = Some e /\ now < e.
Proof.
  intros Hj. destruct (expire_loop now (map_to_list (jr_entries j)) j Hj) as (H1 & H2 & H3 & H4 & H5).
  unfold expireLocked. split_and!; [done..|]. intros k e. rewrite H5.
  case_decide as Hd; rewrite list.Exists_exists in Hd.
  - split; [done|]. destruct Hd as ([k' e'] & Hin & <- & Hle). apply elem_of_map_to_list in Hin. simpl in *.
    intros [He ?]. rewrite He in Hin. injection Hin as ->. lia.
  - split; [|by intros []]. intros He. split; [done|]. apply Z.nle_gt. intros Hle. apply Hd.
    exists (k, e). split; [by apply elem_of_map_to_list|by split].
Qed.

(** After the sweep an entry is live: [recorded] is membership. *)
Lemma recorded_expire j now k :
  journal_ok j -> recorded (expireLocked j now) now k = bool_decide (is_Some (jr_entries (expireLocked j now) !! k)).
Proof.
  intros Hj. destruct (expire_spec j now Hj) as (_ & _ & _ & _ & He). unfold recorded.
  destruct (jr_entries (expireLocked j now) !! k) as [e|] eqn:Ek.
  - apply He in Ek as [_ Hlt]. rewrite bool_decide_true by done. by apply Z.ltb_lt.
  - rewrite bool_decide_false; [done|]. by intros [? ?].
Qed.

(** ** Begin and Finish *)

(** What one turn of [Begin] does, in each case. *)
Lemma Begin_turn_spec j now k j' r :
  journal_ok j -> Begin_turn j now k = (j', r) ->
  journal_ok j' /\ jr_conf j' = jr_conf j
  /\ (forall k' e, jr_entries j' !! k' = Some e <-> jr_entries j !! k' = Some e /\ now < e)
  /\ match r with
     | BeginRecorded => is_Some (jr_entries j' !! k) /\ jr_pending j' = jr_pending j /\ jr_next j' = jr_next j
     | BeginWait d => jr_pending j !! k = Some d /\ jr_pending j' = jr_pending j /\ jr_next j' = jr_next j
     | BeginSaturated => jr_pending j' = jr_pending j /\ jr_next j' = jr_next j
     | BeginOwner => jr_entries j' !! k = None /\ jr_pending j !! k = None
         /\ jr_pending j' = <[k := jr_next j]> (jr_pending j) /\ jr_next j' = S (jr_next j)
     end.
Proof.
  intros Hj. unfold Begin_turn. rewrite (recorded_expire j now k Hj).
  destruct (expire_spec j now Hj) as (Ho & Hp & Hc & Hn & He).
  set (i := expireLocked j now) in *. clearbody i.
  case_bool_decide as Hk; [intros [= <- <-]; by split_and!|].
  assert (jr_entries i !! k = None) as Hk' by (destruct (jr_entries i !! k); [|done]; by destruct Hk).
  rewrite Hp. destruct (jr_pending j !! k) as [d|] eqn:Ep; [intros [= <- <-]; by split_and!|].
  rewrite <- Hp in Ep |- *. destruct Ho as [Hd Hs Hu Hpb Hct Hb Ht Hx].
  case_match eqn:Eb; intros [= <- <-]; [by split_and!|].
  bool_hyps. split_and!; try done; [|by simpl; rewrite Hp, Hn|by simpl; rewrite Hn].
  split; simpl; try done.
  - intros k'. destruct (decide (k' = k)) as [->|Hne]; [done|]. rewrite lookup_insert_ne by done. apply Hd.
  - rewrite charge_insert by done. lia.
  - rewrite map_size_insert_None by done. lia.
  - lia.
  - intros k' d. rewrite lookup_insert_Some. intros [ [_ <-]|[_ Hl]]; [lia|]. apply Hx in Hl. lia.
Qed.

Lemma Finish_spec j now k accepted d :
  journal_ok j -> jr_pending j !! k = Some d ->
  let j' := Finish j now k accepted in
  journal_ok j' /\ jr_conf j' = jr_conf j /\ jr_next j' = jr_next j
  /\ jr_pending j' = delete k (jr_pending j)
  /\ jr_entries j' = (if accepted then <[k := now + ttl (jr_conf j)]> (jr_entries j) else jr_entries j).
Proof.
  intros [Hd Hs Hu Hpb Hct Hb Ht Hx] Hk. assert (jr_entries j !! k = None) as Hn by (apply Hd; by eexists).
  cbv zeta. unfold Finish. rewrite Hk.
  assert (forall k' d', delete k (jr_pending j) !! k' = Some d' -> (d' < jr_next j)%nat) as Hx'.
  { intros k' d' [_ Hl]%lookup_delete_Some. by apply (Hx k'). }
  pose proof (map_size_insert_None k (now + ttl (jr_conf j)) (jr_entries j) Hn) as Hz.
  assert (size (jr_pending j) = S (size (delete k (jr_pending j)))) as Hz'.
  { rewrite <- (insert_delete_id (jr_pending j) k d) at 1 by done. apply map_size_insert_None, lookup_delete_eq. }
  destruct accepted; (split_and!; [split; simpl|done..]); try done.
  - intros k' [Hne Hl]%lookup_delete_is_Some. rewrite lookup_insert_ne by done. by apply Hd.
  - by rewrite Hs, key_sizes_insert.
  - rewrite charge_insert by done. lia.
  - rewrite (charge_delete _ k d) by done. lia.
  - lia.
  - lia.
  - intros k' [Hne Hl]%lookup_delete_is_Some. by apply Hd.
  - rewrite (charge_delete _ k d) by done. lia.
  - lia.
  - pose proof (journalKeyBytes_pos k). lia.
Qed.

(** ** The invariant of a run *)

(** The event a handler owns, and when it was reserved. *)
Definition owner_of (x : worker) : option (JournalKey * Z) :=
  match x with WOwner k t | WFinish k t _ => Some (k, t) | _ => None end.

Definition owner_at (s : system) (w : nat) : option (JournalKey * Z) := sy_workers s !! w ≫= owner_of.

(** A commit is remembered for [ttl]. *)
Definition remembered (s : system) (c : commit) : Prop :=
  cm_finished c + ttl (jr_conf (sy_journal s)) <= sy_clock s
  \/ exists e, jr_entries (sy_journal s) !! cm_key c = Some e
      /\ cm_finished c + ttl (jr_conf (sy_journal s)) <= e.

Record system_ok (s : system) : Prop := {
  so_journal : journal_ok (sy_journal s);
  so_owned : forall w k t, owner_at s w = Some (k, t) -> is_Some (jr_pending (sy_journal s) !! k);
  so_unique : forall w w' k t t', owner_at s w = Some (k, t) -> owner_at s w' = Some (k, t') -> w = w';
  so_owner : forall k, is_Some (jr_pending (sy_journal s) !! k) -> exists w t, owner_at s w = Some (k, t);
  so_began : forall w k t, owner_at s w = Some (k, t) -> t <= sy_clock s
    /\ forall c, c ∈ sy_log s -> cm_key c = k -> cm_finished c + ttl (jr_conf (sy_journal s)) <= t;
  so_past : forall c, c ∈ sy_log s -> cm_began c <= cm_finished c <= sy_clock s;
  so_log : forall c, c ∈ sy_log s -> remembered s c;
  so_recorded : forall k e, jr_entries (sy_journal s) !! k = Some e ->
    exists c, c ∈ sy_log s /\ cm_key c = k /\ e = cm_finished c + ttl (jr_conf (sy_journal s));
  so_order : forall i j c d, (i < j)%nat -> sy_log s !! i = Some c -> sy_log s !! j = Some d ->
    cm_key c = cm_key d -> cm_finished c + ttl (jr_conf (sy_journal s)) <= cm_began d;
  so_wait : forall w k d, sy_workers s !! w = Some (WWait k d) -> (d < jr_next (sy_journal s))%nat;
}.

Lemma start_ok entries bytes ttl : system_ok (start entries bytes ttl).
Proof.
  split; simpl; try done; [apply newJournal_ok|..];
    try (intros *; unfold owner_at; simpl; by rewrite lookup_nil).
  - intros k. unfold newJournal. simpl. intros [? Hk]. by rewrite lookup_empty in Hk.
  - intros c Hc. by apply not_elem_of_nil in Hc.
  - intros c Hc. by apply not_elem_of_nil in Hc.
Qed.

Lemma owner_at_set s w y j x t log w' :
  sy_workers s !! w = Some y ->
  owner_at (mkSystem j (<[w := x]> (sy_workers s)) t log) w' =
    if decide (w' = w) then owner_of x else owner_at s w'.
Proof.
  intros Hw. unfold owner_at. simpl. case_decide as Hd.
  - subst w'. rewrite list_lookup_insert_eq; [done|]. by eapply lookup_lt_Some.
  - by rewrite list_lookup_insert_ne.
Qed.

(** A step that changes no ownership: the journal may forget what has
    expired, the clock may advance. *)
Lemma quiet_step_ok s w y x j t :
  system_ok s -> sy_workers s !! w = Some y -> owner_of x = owner_of y ->
  (forall k d, x = WWait k d -> (d < jr_next j)%nat) ->
  journal_ok j -> jr_conf j = jr_conf (sy_journal s) -> jr_pending j = jr_pending (sy_journal s) ->
  jr_next j = jr_next (sy_journal s) -> sy_clock s <= t ->
  (forall k e, jr_entries (sy_journal s) !! k = Some e -> jr_entries j !! k = Some e \/ e <= t) ->
  (forall k e, jr_entries j !! k = Some e -> jr_entries (sy_journal s) !! k = Some e) ->
  system_ok (mkSystem j (<[w := x]> (sy_workers s)) t (sy_log s)).
Proof.
  intros [Hj Hod Hun How Hbe Hpa Hlo Hre Hor Hwa] Hw Hx Hd Hj' Hc Hp Hn Ht He He'.
  assert (forall w', owner_at (mkSystem j (<[w := x]> (sy_workers s)) t (sy_log s)) w' = owner_at s w') as Ho.
  { intros w'. rewrite (owner_at_set s w y) by done. case_decide; [|done]. subst w'.
    unfold owner_at. by rewrite Hw, Hx. }
  split; unfold remembered; simpl; rewrite ?Hp, ?Hc; try done.
  - intros w' k t'. rewrite Ho. apply Hod.
  - intros w1 w2 k t1 t2. rewrite !Ho. apply Hun.
  - intros k Hk. destruct (How k Hk) as (w' & t' & Hw'). exists w', t'. by rewrite Ho.
  - intros w' k t'. rewrite Ho. intros Hk. destruct (Hbe _ _ _ Hk). split; [lia|done].
  - intros c Hin. specialize (Hpa c Hin). lia.
  - intros c Hin. destruct (Hlo c Hin) as [?|(e & Hl & ?)]; [left; lia|].
    destruct (He _ _ Hl) as [?|?]; [right; by exists e|left; lia].
  - intros k e Hk. by apply Hre, He'.
  - intros w' k d. rewrite list_lookup_insert_Some. intros [(_ & Hl & _)|[_ Hl]]; [by apply (Hd k)|].
    rewrite Hn. by apply (Hwa w' k).
Qed.

(** A handler reserves its event. *)
Lemma reserve_step_ok s w k j t :
  system_ok s -> sy_workers s !! w = Some (WBegin k) -> sy_clock s <= t ->
  Begin_turn (sy_journal s) t k = (j, BeginOwner) ->
  system_ok (mkSystem j (<[w := WOwner k t]> (sy_workers s)) t (sy_log s)).
Proof.
  intros [Hj Hod Hun How Hbe Hpa Hlo Hre Hor Hwa] Hw Ht HB.
  destruct (Begin_turn_spec _ _ _ _ _ Hj HB) as (Hj' & Hc & He & Hk & Hk' & Hp & Hn).
  assert (forall w', owner_at (mkSystem j (<[w := WOwner k t]> (sy_workers s)) t (sy_log s)) w'
    = if decide (w' = w) then Some (k, t) else owner_at s w') as Ho by (intros; by apply (owner_at_set s w (WBegin k))).
  assert (forall w' t', owner_at s w' = Some (k, t') -> False) as Hno.
  { intros w' t' Hw'. apply Hod in Hw' as [? Hw']. congruence. }
  assert (owner_at s w = None) as Hown by (unfold owner_at; by rewrite Hw).
  assert (forall c, c ∈ sy_log s -> remembered (mkSystem j (<[w := WOwner k t]> (sy_workers s)) t (sy_log s)) c) as Hrem.
  { intros c Hin. unfold remembered. simpl. rewrite Hc. destruct (Hlo c Hin) as [?|(e & Hl & ?)]; [left; lia|].
    destruct (Z_lt_le_dec t e); [right; exists e; by rewrite He|left; lia]. }
  split; simpl; rewrite ?Hp, ?Hc, ?Hn; try done.
  - intros w' k' t'. rewrite Ho. case_decide; [intros [= <- <-]; rewrite lookup_insert_eq; by eexists|].
    intros Hw'. destruct (decide (k' = k)) as [->|]; [by eapply Hno in Hw'|]. rewrite lookup_insert_ne by done.
    by apply (Hod w' k' t').
  - intros w1 w2 k' t1 t2. rewrite !Ho. do 2 case_decide; subst; try done.
    + intros [= <- <-] H2. by apply Hno in H2.
    + intros H1 [= <- <-]. by apply Hno in H1.
    + apply Hun.
  - intros k' [d Hd]. apply lookup_insert_Some in Hd as [ [<- _]|[Hne Hd]].
    + exists w, t. rewrite Ho. by rewrite decide_True.
    + destruct (How k') as (w' & t' & Hw'); [by eexists|]. exists w', t'. rewrite Ho, decide_False; [done|].
      intros ->. congruence.
  - intros w' k' t'. rewrite Ho. case_decide.
    + intros [= <- <-]. split; [done|]. intros c Hin Hck. destruct (Hrem c Hin) as [Hr|(e & Hl & _)].
      * simpl in Hr. by rewrite Hc in Hr.
      * simpl in Hl. rewrite Hck, Hk in Hl. done.
    + intros Hw'. destruct (Hbe _ _ _ Hw'). split; [lia|done].
  - intros c Hin. specialize (Hpa c Hin). lia.
  - intros k' e Hk''. by apply Hre, He.
  - intros w' k' d. rewrite list_lookup_insert_Some. intros [(_ & ? & _)|[_ Hl]]; [done|].
    apply Hwa in Hl. lia.
Qed.

(** A handler commits or releases its event. *)
Lemma finish_step_ok s w k began accepted t :
  system_ok s -> sy_workers s !! w = Some (WFinish k began accepted) -> sy_clock s <= t ->
  system_ok (mkSystem (Finish (sy_journal s) t k accepted)
    (<[w := WDone k (if accepted then Recorded else Failed)]> (sy_workers s)) t
    (if accepted then sy_log s ++ [mkCommit k began t] else sy_log s)).
Proof.
  intros [Hj Hod Hun How Hbe Hpa Hlo Hre Hor Hwa] Hw Ht.
  assert (owner_at s w = Some (k, began)) as Hown by (unfold owner_at; by rewrite Hw).
  destruct (Hod _ _ _ Hown) as [d Hd]. destruct (Hbe _ _ _ Hown) as [Hb Hbl].
  destruct (Finish_spec _ t k accepted d Hj Hd) as (Hj' & Hc & Hn & Hp & He).
  set (j := Finish _ _ _ _) in *. set (log := if accepted then sy_log s ++ _ else sy_log s).
  assert (jr_entries (sy_journal s) !! k = None) as Hnone by (apply (jo_disjoint _ Hj); by eexists).
  assert (forall c, c ∈ log -> c ∈ sy_log s \/ accepted = true /\ c = mkCommit k began t) as Hin.
  { intros c. unfold log. destruct accepted; [|by left].
    rewrite elem_of_app, list_elem_of_singleton. intros [?| ->]; [by left|by right]. }
  pose proof (owner_at_set s w (WFinish k began accepted) j (WDone k (if accepted then Recorded else Failed)) t log)
    as Ho. simpl in Ho.
  split; unfold remembered; simpl; rewrite ?Hp, ?Hc, ?Hn; try done.
  - intros w' k' t'. rewrite Ho by done. case_decide; [done|]. intros Hw'.
    rewrite lookup_delete_ne; [by apply (Hod w' k' t')|]. intros <-. by apply H, (Hun w' w k t' began).
  - intros w1 w2 k' t1 t2. rewrite !Ho by done. do 2 case_decide; [done..|]. apply Hun.
  - intros k' [Hne Hk']%lookup_delete_is_Some. destruct (How k' Hk') as (w' & t' & Hw'). exists w', t'.
    rewrite Ho, decide_False by (done || (intros ->; congruence)). done.
  - intros w' k' t'. rewrite Ho by done. case_decide; [done|]. intros Hw'. destruct (Hbe _ _ _ Hw') as [? Hbl'].
    split; [lia|]. intros c [Hci|[_ ->]]%Hin; [by apply Hbl'|]. simpl. intros ->. exfalso.
    by apply H, (Hun w' w k' t' began).
  - intros c [Hci|[_ ->]]%Hin; [specialize (Hpa c Hci); lia|simpl; lia].
  - intros c [Hci|[Ha ->]]%Hin.
    + destruct (Hlo c Hci) as [?|(e & Hl & ?)]; [left; lia|]. right. exists e. rewrite He. split; [|done].
      destruct accepted; [|done]. rewrite lookup_insert_ne by congruence. done.
    + simpl. right. rewrite He, Ha. eexists. by rewrite lookup_insert_eq.
  - intros k' e. rewrite He. unfold log. destruct accepted; [|apply Hre].
    rewrite lookup_insert_Some. intros [ [<- <-]|[_ Hk']].
    + exists (mkCommit k began t). split; [|done]. apply elem_of_app. right. by apply list_elem_of_singleton.
    + destruct (Hre k' e Hk') as (c & Hci & ?). exists c. split; [|done]. apply elem_of_app. by left.
  - intros i i' c c' Hi. unfold log. destruct accepted; [|by apply Hor].
    intros Hc1 Hc2 Hk. apply lookup_app_Some in Hc2 as [Hc2|[Hle Hc2] ].
    + apply lookup_lt_Some in Hc2 as Hlt. rewrite lookup_app_l in Hc1 by lia. by apply (Hor i i').
    + apply list_lookup_singleton_Some in Hc2 as [Hz <-]. rewrite lookup_app_l in Hc1 by lia. simpl in *.
      apply Hbl; [by eapply list_elem_of_lookup_2|done].
  - intros w' k' d'. rewrite list_lookup_insert_Some. intros [(_ & Hl & _)|[_ Hl]]; [done|].
    by apply (Hwa w' k').
Qed.

Lemma arrive_ok s k : system_ok s -> system_ok (step s (LArrive k)).
Proof.
  intros [Hj Hod Hun How Hbe Hpa Hlo Hre Hor Hwa]. simpl.
  assert (forall w, owner_at (mkSystem (sy_journal s) (sy_workers s ++ [WBegin k]) (sy_clock s) (sy_log s)) w
    = owner_at s w) as Ho.
  { intros w. unfold owner_at. simpl. destruct (decide (w < length (sy_workers s))%nat) as [Hl|Hl].
    - by rewrite lookup_app_l.
    - rewrite lookup_app_r, (lookup_ge_None_2 (sy_workers s)) by lia.
      by destruct (w - length (sy_workers s))%nat. }
  split; simpl; try done.
  - intros w k' t. rewrite Ho. apply Hod.
  - intros w w' k' t t'. rewrite !Ho. apply Hun.
  - intros k' Hk'. destruct (How k' Hk') as (w & t & Hw). exists w, t. by rewrite Ho.
  - intros w k' t. rewrite Ho. apply Hbe.
  - intros w k' d [Hl|[_ Hl]]%lookup_app_Some; [by apply (Hwa w k')|].
    by apply list_lookup_singleton_Some in Hl as [_ ?].
Qed.

Lemma turn_ok s w now : system_ok s -> system_ok (step s (LTurn w now)).
Proof.
  intros Hs. pose proof Hs as [Hj Hod Hun How Hbe Hpa Hlo Hre Hor Hwa]. simpl.
  destruct (sy_workers s !! w) as [y|] eqn:Hw; [|done]. destruct y as [k|k d|k b|k|k b a|k o]; try done.
  destruct (Begin_turn (sy_journal s) (Z.max (sy_clock s) now) k) as [j r] eqn:HB.
  destruct (Begin_turn_spec _ _ _ _ _ Hj HB) as (Hj' & Hc & He & Hr).
  assert (sy_clock s <= Z.max (sy_clock s) now) as Ht by lia.
  assert (forall k e, jr_entries (sy_journal s) !! k = Some e ->
    jr_entries j !! k = Some e \/ e <= Z.max (sy_clock s) now) as Hee.
  { intros k' e Hk'. destruct (Z_lt_le_dec (Z.max (sy_clock s) now) e); [left; by apply He|by right]. }
  assert (forall k e, jr_entries j !! k = Some e -> jr_entries (sy_journal s) !! k = Some e) as Hee'.
  { intros k' e Hk'. by apply He. }
  destruct r as [|d| |]; [| | |by apply reserve_step_ok].
  - destruct Hr as (_ & Hp & Hn). by apply (quiet_step_ok s w (WBegin k)).
  - destruct Hr as (Hk & Hp & Hn). apply (quiet_step_ok s w (WBegin k)); try done.
    intros k' d' [= <- <-]. rewrite Hn. by apply (jo_next _ Hj k).
  - destruct Hr as (Hp & Hn). by apply (quiet_step_ok s w (WBegin k)).
Qed.

Lemma with_worker_ok s w y x :
  system_ok s -> sy_workers s !! w = Some y -> owner_of x = owner_of y ->
  (forall k d, x <> WWait k d) -> system_ok (with_worker s w x).
Proof.
  intros Hs Hw Hx Hd. apply (quiet_step_ok s w y); try done.
  - intros k d ->. by destruct (Hd k d).
  - apply Hs.
  - intros k e He. by left.
Qed.

Lemma step_ok s l : system_ok s -> system_ok (step s l).
Proof.
  intros Hs. destruct l as [k|w now|w|w|w a|w now]; [by apply arrive_ok|by apply turn_ok|..]; simpl;
    (destruct (sy_workers s !! w) as [y|] eqn:Hw; [|done]); destruct y as [k|k d|k b|k|k b a'|k o]; try done.
  all: try (by eapply with_worker_ok).
  - case_decide; [done|]. by eapply with_worker_ok.
  - by apply finish_step_ok; [..|lia].
Qed.

Lemma run_ok s ls : system_ok s -> system_ok (run s ls).
Proof. revert s. induction ls as [|l ls IH]; intros s Hs; [done|]. apply IH. by apply step_ok. Qed.

Lemma step_conf s l : system_ok s -> jr_conf (sy_journal (step s l)) = jr_conf (sy_journal s).
Proof.
  intros Hs. pose proof (so_journal _ Hs) as Hj. pose proof (so_owned _ Hs) as Hod.
  destruct l as [k|w now|w|w|w a|w now]; simpl; try done;
    (destruct (sy_workers s !! w) as [y|] eqn:Hw; [|done]); destruct y as [k|k d|k b|k|k b a'|k o]; try done.
  - destruct (Begin_turn _ _ _) as [j r] eqn:HB. by apply Begin_turn_spec in HB as (_ & ? & _).
  - by case_decide.
  - destruct (Hod w k b) as [d Hd]; [unfold owner_at; by rewrite Hw|].
    by destruct (Finish_spec _ (Z.max (sy_clock s) now) k a' d Hj Hd) as (_ & ? & _).
Qed.

Lemma journal_run_conf s ls : system_ok s -> jr_conf (sy_journal (run s ls)) = jr_conf (sy_journal s).
Proof.
  revert s. induction ls as [|l ls IH]; intros s Hs; [done|]. simpl.
  rewrite IH by (by apply step_ok). by apply step_conf.
Qed.

(** ** Termination: handlers drain *)

Lemma sum_list_with_le {A} (f g : A -> nat) l :
  (forall x, x ∈ l -> (f x <= g x)%nat) -> (sum_list_with f l <= sum_list_with g l)%nat.
Proof.
  induction l as [|x l IH]; intros Hfg; simpl; [done|].
  pose proof (Hfg x ltac:(by left)). assert (sum_list_with f l <= sum_list_with g l)%nat; [|lia].
  apply IH. intros y Hy. apply Hfg. by right.
Qed.

Lemma sum_list_with_insert {A} (f : A -> nat) l i x y :
  l !! i = Some y -> (sum_list_with f (<[i := x]> l) + f y = sum_list_with f l + f x)%nat.
Proof.
  revert i. induction l as [|z l IH]; intros [|i] Hi; simpl; try done.
  - injection Hi as ->. lia.
  - pose proof (IH i Hi). lia.
Qed.

Lemma sum_list_with_le_at {A} (f g : A -> nat) l i y :
  (forall x, (f x <= g x)%nat) -> l !! i = Some y -> (sum_list_with f l + g y <= sum_list_with g l + f y)%nat.
Proof.
  intros Hfg. revert i. induction l as [|z l IH]; intros [|i] Hi; simpl; try done.
  - injection Hi as ->. pose proof (sum_list_with_le f g l (fun x _ => Hfg x)). lia.
  - pose proof (IH i Hi). pose proof (Hfg z). lia.
Qed.

(** How far a handler is from its end. *)
Definition weight (j : journal) (x : worker) : nat :=
  match x with
  | WDone _ _ => 0
  | WFinish _ _ _ => 1
  | WOwner _ _ => 2
  | WSaturated _ => 1
  | WWait k d => if decide (jr_pending j !! k = Some d) then 3 else 5
  | WBegin _ => 4
  end.

Definition unfinished (x : worker) : nat := match x with WDone _ _ => 0 | _ => 1 end.

Definition weights (s : system) : nat := sum_list_with (weight (sy_journal s)) (sy_workers s).
Definition rank (s : system) : nat :=
  sum_list_with unfinished (sy_workers s) * (5 * length (sy_workers s) + 1) + weights s.

Definition arrival (l : label) : bool := match l with LArrive _ => true | _ => false end.
(** The steps that need no new request and no cancellation. *)
Definition internal (l : label) : bool := match l with LArrive _ | LCancel _ => false | _ => true end.

(** Every step of [ms] does something, and no request arrives. *)
Fixpoint effective (s : system) (ms : list label) : Prop :=
  match ms with
  | [] => True
  | l :: ms => arrival l = false /\ step s l <> s /\ effective (step s l) ms
  end.

Lemma weight_le j x : (weight j x <= 5 * unfinished x)%nat.
Proof. destruct x; simpl; try case_decide; lia. Qed.

Lemma weights_bound j ws : (sum_list_with (weight j) ws <= 5 * length ws)%nat.
Proof. induction ws as [|x ws IH]; simpl; [done|]. pose proof (weight_le j x). destruct x; simpl in *; lia. Qed.

Lemma rank_bound s : (rank s <= length (sy_workers s) * (5 * length (sy_workers s) + 1) + 5 * length (sy_workers s))%nat.
Proof.
  unfold rank, weights. pose proof (weights_bound (sy_journal s) (sy_workers s)).
  assert (sum_list_with unfinished (sy_workers s) <= length (sy_workers s))%nat; [|nia].
  induction (sy_workers s) as [|x ws IH]; simpl; [done|]. simpl in *.
  pose proof (weights_bound (sy_journal s) ws). destruct x; simpl; lia.
Qed.

(** A handler that ends lowers the rank, whatever it wakes. *)
Lemma rank_done s w y k o j t log :
  sy_workers s !! w = Some y -> unfinished y = 1%nat ->
  (rank (mkSystem j (<[w := WDone k o]> (sy_workers s)) t log) < rank s)%nat.
Proof.
  intros Hw Hy. unfold rank, weights. simpl. rewrite length_insert.
  pose proof (sum_list_with_insert unfinished (sy_workers s) w (WDone k o) y Hw) as Hu. rewrite Hy in Hu. simpl in Hu.
  pose proof (weights_bound j (<[w := WDone k o]> (sy_workers s))) as Hb. rewrite length_insert in Hb. nia.
Qed.

(** So does a handler that moves on, when no open channel is closed. *)
Lemma rank_move s w y x j t :
  sy_workers s !! w = Some y -> unfinished y = unfinished x -> (weight j x < weight (sy_journal s) y)%nat ->
  (forall k d, jr_pending (sy_journal s) !! k = Some d -> jr_pending j !! k = Some d) ->
  (rank (mkSystem j (<[w := x]> (sy_workers s)) t (sy_log s)) < rank s)%nat.
Proof.
  intros Hw Hu Hlt Hp. unfold rank, weights. simpl. rewrite length_insert.
  pose proof (sum_list_with_insert unfinished (sy_workers s) w x y Hw) as Hu'. rewrite Hu in Hu'.
  pose proof (sum_list_with_insert (weight j) (sy_workers s) w x y Hw) as Hs.
  assert (forall z, (weight j z <= weight (sy_journal s) z)%nat) as Hz.
  { intros [k|k d|k b|k|k b a|k o]; simpl; try done. do 2 case_decide; try lia. by destruct H; apply Hp. }
  assert (sum_list_with unfinished (<[w := x]> (sy_workers s)) = sum_list_with unfinished (sy_workers s)) as -> by lia.
  pose proof (sum_list_with_le_at (weight j) (weight (sy_journal s)) (sy_workers s) w y Hz Hw). lia.
Qed.

Lemma rank_step s l :
  system_ok s -> arrival l = false -> step s l <> s -> (rank (step s l) < rank s)%nat.
Proof.
  intros Hs Hl Hne. pose proof (so_journal _ Hs) as Hj.
  destruct l as [k|w now|w|w|w a|w now]; try done; simpl in *;
    (destruct (sy_workers s !! w) as [y|] eqn:Hw; [|done]); destruct y as [k|k d|k b|k|k b a'|k o]; try done.
  - destruct (Begin_turn _ _ _) as [j r] eqn:HB. apply Begin_turn_spec in HB as (_ & _ & _ & Hr); [|done].
    destruct r as [|d| |].
    + by eapply rank_done.
    + destruct Hr as (Hd & Hp & _). apply (rank_move s w (WBegin k)); simpl; [done..| |by rewrite Hp].
      rewrite decide_True by congruence. lia.
    + destruct Hr as (Hp & _). apply (rank_move s w (WBegin k)); simpl; [done..|lia|by rewrite Hp].
    + destruct Hr as (_ & Hk & Hp & _). apply (rank_move s w (WBegin k)); simpl; [done..|lia|].
      intros k' d. rewrite Hp. intros Hd. rewrite lookup_insert_ne; congruence.
  - case_decide; [done|]. apply (rank_move s w (WWait k d)); simpl; [done..| |done].
    rewrite decide_False by done. lia.
  - by eapply rank_done.
  - by eapply rank_done.
  - apply (rank_move s w (WOwner k b)); simpl; [done..|lia|done].
  - by eapply rank_done.
  - by eapply rank_done.
Qed.

(** While a handler is unfinished some internal step is enabled: it can move
    itself, or it waits for an owner, which can. *)
Lemma progress s x :
  system_ok s -> x ∈ sy_workers s -> unfinished x = 1%nat -> exists l, internal l = true /\ step s l <> s.
Proof.
  intros Hs [w Hw]%list_elem_of_lookup Hx.
  assert (forall w y k t, sy_workers s !! w = Some y -> owner_at s w = Some (k, t) ->
    exists l, internal l = true /\ step s l <> s) as Hown.
  { intros w' y k t Hy Ho. unfold owner_at in Ho. rewrite Hy in Ho.
    assert (forall s' q, sy_workers s' !! w' = Some q -> q <> y -> s' <> s) as Hq by (intros s' q Hq Hqy ->; congruence).
    apply lookup_lt_Some in Hy as Hlt. destruct y as [k'|k' d|k' b|k'|k' b a|k' o]; try done.
    - exists (LSink w' true). split; [done|]. simpl. rewrite Hy. eapply Hq; [by apply list_lookup_insert_eq|done].
    - exists (LFinish w' 0). split; [done|]. simpl. rewrite Hy. eapply Hq; [by apply list_lookup_insert_eq|done]. }
  assert (forall s' q, sy_workers s' !! w = Some q -> q <> x -> s' <> s) as Hq by (intros s' q Hq Hqy ->; congruence).
  apply lookup_lt_Some in Hw as Hlt. pose proof (so_journal _ Hs) as Hj.
  destruct x as [k|k d|k b|k|k b a|k o]; try done.
  - exists (LTurn w 0). split; [done|]. simpl. rewrite Hw.
    destruct (Begin_turn _ _ _) as [j r]. eapply Hq; [by apply list_lookup_insert_eq|by destruct r].
  - destruct (decide (jr_pending (sy_journal s) !! k = Some d)) as [Hd|Hd].
    + destruct (so_owner _ Hs k) as (w' & t & Ho); [by eexists|].
      destruct (sy_workers s !! w') as [y|] eqn:Hy; [by eapply (Hown w' y)|]. unfold owner_at in Ho. by rewrite Hy in Ho.
    + exists (LWake w). split; [done|]. simpl. rewrite Hw, decide_False by done.
      eapply Hq; [by apply list_lookup_insert_eq|done].
  - apply (Hown w (WOwner k b) k b); [done|]. unfold owner_at. by rewrite Hw.
  - exists (LSink w true). split; [done|]. simpl. rewrite Hw. eapply Hq; [by apply list_lookup_insert_eq|done].
  - apply (Hown w (WFinish k b a) k b); [done|]. unfold owner_at. by rewrite Hw.
Qed.

Lemma effective_bound s ms : system_ok s -> effective s ms -> (length ms <= rank s)%nat.
Proof.
  revert s. induction ms as [|l ms IH]; intros s Hs He; simpl; [lia|]. destruct He as (Ha & Hl & He).
  pose proof (rank_step s l Hs Ha Hl). pose proof (IH _ (step_ok s l Hs) He). lia.
Qed.

Lemma drain s : system_ok s ->
  exists ms, effective s ms /\ Forall (fun l => internal l = true) ms
    /\ forall x, x ∈ sy_workers (run s ms) -> unfinished x = 0%nat.
Proof.
  remember (rank s) as n eqn:Hn. revert s Hn. induction n as [n IH] using lt_wf_ind. intros s Hn Hs.
  destruct (decide (Exists (fun x => unfinished x = 1%nat) (sy_workers s))) as [Hx|Hx].
  - apply list.Exists_exists in Hx as (x & Hx & Hu). destruct (progress s x Hs Hx Hu) as (l & Hl & Hne).
    assert (arrival l = false) as Ha by by destruct l.
    pose proof (rank_step s l Hs Ha Hne) as Hr.
    destruct (IH (rank (step s l)) ltac:(lia) (step s l) eq_refl (step_ok s l Hs)) as (ms & He & Hi & Hd).
    exists (l :: ms). split_and!; [done|by constructor|done].
  - exists []. split_and!; [done|by constructor|]. intros x Hin. simpl in Hin.
    destruct (unfinished x) as [|[|m] ] eqn:Eu; [done| |by destruct x].
    destruct Hx. apply list.Exists_exists. by exists x.
Qed.

(** ** The journal's contract *)

Lemma reached_ok entries bytes ttl ls : system_ok (run (start entries bytes ttl) ls).
Proof. apply run_ok, start_ok. Qed.

Lemma reached_conf entries bytes ttl ls :
  jr_conf (sy_journal (run (start entries bytes ttl) ls)) = jr_conf (newJournal entries bytes ttl).
Proof. apply journal_run_conf, start_ok. Qed.

(** C28. However any number of accounting handlers interleave, with whatever
    events, sink answers, cancellations and clock: no two of them own the same
    event; two commits of one event are at least the time to live apart, the
    second reserved after the first has expired; a request whose event was
    committed within the time to live is not recorded again, and a request is
    only told that its event is recorded when an owner has committed it within
    the time to live; and entries and reservations together stay within the
    configured count and bytes, each charged exactly its key's size. *)
Theorem journal_exactly_once entries bytes ttl0 ls :
  let s := run (start entries bytes ttl0) ls in
  let j := sy_journal s in
  let cf := jr_conf (newJournal entries bytes ttl0) in
  (forall w w' k t t', owner_at s w = Some (k, t) -> owner_at s w' = Some (k, t') -> w = w')
  /\ (forall i i' c c', (i < i')%nat -> sy_log s !! i = Some c -> sy_log s !! i' = Some c' ->
       cm_key c = cm_key c' -> cm_finished c + ttl cf <= cm_began c')
  /\ (forall now k, sy_clock s <= now ->
       (snd (Begin_turn j now k) = BeginRecorded <->
        exists c, c ∈ sy_log s /\ cm_key c = k /\ now < cm_finished c + ttl cf))
  /\ (Z.of_nat (size (jr_entries j)) + Z.of_nat (size (jr_pending j)) <= maxEntries cf
      /\ jr_usedBytes j = charge (jr_entries j) /\ jr_pendingBytes j = charge (jr_pending j)
      /\ jr_usedBytes j + jr_pendingBytes j <= maxBytes cf).
Proof.
  cbv zeta. pose proof (reached_ok entries bytes ttl0 ls) as Hs. pose proof (reached_conf entries bytes ttl0 ls) as Hc.
  set (s := run _ _) in *. pose proof (so_journal _ Hs) as Hj. rewrite <- Hc. split_and!.
  - apply (so_unique _ Hs).
  - apply (so_order _ Hs).
  - intros now k Hnow. split.
    + destruct (Begin_turn (sy_journal s) now k) as [j r] eqn:HB. simpl. intros ->.
      apply Begin_turn_spec in HB as (_ & _ & He & [e Hk] & _); [|done]. apply He in Hk as [Hk Hlt].
      destruct (so_recorded _ Hs k e Hk) as (c & Hin & Hck & ->). by exists c.
    + intros (c & Hin & Hck & Hlt). destruct (so_log _ Hs c Hin) as [?|(e & Hk & ?)]; [lia|].
      rewrite Hck in Hk. unfold Begin_turn. rewrite recorded_expire, bool_decide_true; [done| |done].
      exists e. apply expire_spec; [done|]. split; [done|lia].
  - apply Hj.
  - apply Hj.
  - apply Hj.
  - apply Hj.
Qed.

(** C29. No accounting handler waits for ever.  In every reachable state: a
    run of effective steps with no new request is finite, at most quadratic in
    the number of handlers, whatever the order; while a handler has not ended
    some step other than a cancellation is enabled; and such steps end every
    handler. *)
Theorem journal_drains entries bytes ttl0 ls :
  let s := run (start entries bytes ttl0) ls in
  let n := length (sy_workers s) in
  (forall ms, effective s ms -> (length ms <= n * (5 * n + 1) + 5 * n)%nat)
  /\ (forall x, x ∈ sy_workers s -> unfinished x = 1%nat -> exists l, internal l = true /\ step s l <> s)
  /\ (exists ms, effective s ms /\ Forall (fun l => internal l = true) ms
      /\ forall x, x ∈ sy_workers (run s ms) -> exists k o, x = WDone k o).
Proof.
  cbv zeta. pose proof (reached_ok entries bytes ttl0 ls) as Hs. set (s := run _ _) in *. split_and!.
  - intros ms He. pose proof (effective_bound s ms Hs He). pose proof (rank_bound s). lia.
  - intros x. by apply progress.
  - destruct (drain s Hs) as (ms & He & Hi & Hd). exists ms. split_and!; [done..|].
    intros x Hx. apply Hd in Hx. destruct x as [ | | | | |k o]; try done. by exists k, o.
Qed.

(** Two requests for one event: the second waits, and is acknowledged. *)
Definition sample_key : JournalKey := mkJournalKey [1] [2] 1813 [3] [4] [5] [6].
Definition sample_run : list label :=
  [LArrive sample_key; LTurn 0 10; LArrive sample_key; LTurn 1 11; LSink 0 true; LFinish 0 12; LWake 1; LTurn 1 13].

Example sample_workers :
  sy_workers (run (start 4 100 60) sample_run) = [WDone sample_key Recorded; WDone sample_key Acknowledged].
Proof. vm_compute. reflexivity. Qed.

Example journal_exactly_once_witness :
  let s := run (start 4 100 60) sample_run in
  sy_log s = [mkCommit sample_key 10 12] /\ snd (Begin_turn (sy_journal s) 71 sample_key) = BeginRecorded
  /\ snd (Begin_turn (sy_journal s) 72 sample_key) <> BeginRecorded.
Proof.
  cbv zeta. pose proof (journal_exactly_once 4 100 60 sample_run) as H. cbv zeta in H.
  destruct H as (_ & _ & H & _).
  assert (sy_log (run (start 4 100 60) sample_run) = [mkCommit sample_key 10 12]) as Hl by (vm_compute; reflexivity).
  assert (sy_clock (run (start 4 100 60) sample_run) = 13) as Hk by (vm_compute; reflexivity).
  rewrite Hl, Hk in H. split; [exact Hl|]. split.
  - apply H; [lia|]. exists (mkCommit sample_key 10 12). split; [left|]. split; [reflexivity|simpl; lia].
  - intros Hr. apply H in Hr; [|lia]. destruct Hr as (c & Hin & _ & Hlt).
    apply list_elem_of_singleton in Hin. subst c. simpl in Hlt. lia.
Defined.

Example journal_drains_witness :
  let s := run (start 4 100 60) (take 4 sample_run) in
  sy_workers s = [WOwner sample_key 10; WWait sample_key 0]
  /\ exists l, internal l = true /\ step s l <> s.
Proof.
  cbv zeta. pose proof (journal_drains 4 100 60 (take 4 sample_run)) as H. cbv zeta in H.
  destruct H as (_ & H & _).
  assert (sy_workers (run (start 4 100 60) (take 4 sample_run)) = [WOwner sample_key 10; WWait sample_key 0]) as Hw
    by (vm_compute; reflexivity).
  split; [exact Hw|]. apply (H (WWait sample_key 0)); [|reflexivity]. rewrite Hw. right. left.
Defined.
