(* ===== verification/Text.v ===== *)
(** * Text

    What the components use of Go's text: conversions between octets and
    strings, [strings.ToLower], decimal and hexadecimal numbers, and the text
    of IP addresses ([net.IP.String], [netip.Addr.String]). *)

From Stdlib Require Import String Ascii.
From stdpp Require Import strings pretty.
From S2P Require Import Prelude.

#[local] Open Scope Z_scope.

(** ** Octets and strings *)

Definition text_of (b : bytes) : string := foldr (fun z s => String (ascii_of_N (Z.to_N z)) s) EmptyString b.

Fixpoint octets_of (s : string) : bytes :=
  match s with EmptyString => [] | String c s => Z.of_N (N_of_ascii c) :: octets_of s end.

Lemma octets_of_text b : Forall is_u8 b -> octets_of (text_of b) = b.
Proof.
  induction 1 as [|z b Hz Hb IH]; [done|]. simpl. rewrite IH. f_equal. unfold is_u8 in Hz.
  rewrite N_ascii_embedding by lia. lia.
Qed.

Lemma text_of_octets s : text_of (octets_of s) = s.
Proof.
  induction s as [|c s IH]; [done|]. simpl. rewrite IH. f_equal. rewrite N2Z.id. apply ascii_N_embedding.
Qed.

Lemma octets_of_u8 s : Forall is_u8 (octets_of s).
Proof.
  induction s as [|c s IH]; constructor; [|done]. unfold is_u8. pose proof (N_ascii_bounded c). lia.
Qed.

Lemma octets_of_inj a b : octets_of a = octets_of b -> a = b.
Proof. intros H. by rewrite <- (text_of_octets a), H, text_of_octets. Qed.

(** ** Lower case *)

Definition lower_ascii (c : ascii) : ascii :=
  let n := N_of_ascii c in
  if ((65 <=? n) && (n <=? 90))%N then ascii_of_N (n + 32) else c.

Definition is_octet (n : N) (c : ascii) : bool := N.eqb (N_of_ascii c) n.

(** [strings.ToLower], as far as a comparison with ASCII text can tell: two
    code points outside ASCII have an ASCII lower case, U+0130 ([C4 B0], to i)
    and U+212A ([E2 84 AA], to k); every other one stays outside. *)
Fixpoint ToLower (s : string) : string :=
  match s with
  | EmptyString => EmptyString
  | String c rest =>
    match rest with
    | String c2 rest2 =>
      if is_octet 196 c && is_octet 176 c2 then String "i" (ToLower rest2)
      else match rest2 with
           | String c3 rest3 =>
             if is_octet 226 c && is_octet 132 c2 && is_octet 170 c3 then String "k" (ToLower rest3)
             else String (lower_ascii c) (ToLower rest)
           | EmptyString => String (lower_ascii c) (ToLower rest)
           end
    | EmptyString => String (lower_ascii c) EmptyString
    end
  end.

(** [strings.TrimSpace], on ASCII. *)
Definition is_space (c : ascii) : bool := existsb (fun n => is_octet n c) [9; 10; 11; 12; 13; 32]%N.
Fixpoint trim_left (s : string) : string :=
  match s with String c r => if is_space c then trim_left r else s | EmptyString => s end.
Fixpoint string_rev (s acc : string) : string :=
  match s with String c r => string_rev r (String c acc) | EmptyString => acc end.
Definition TrimSpace (s : string) : string := string_rev (trim_left (string_rev (trim_left s) "")) "".

(** [switch s { case name: return v ... }] on strings and on numbers. *)
Fixpoint switch_name {A} (s : string) (l : list (string * A)) : option A :=
  match l with [] => None | (n, a) :: l => if bool_decide (s = n) then Some a else switch_name s l end.
Fixpoint switch_code {A} (v : Z) (l : list (Z * A)) : option A :=
  match l with [] => None | (n, a) :: l => if v =? n then Some a else switch_code v l end.

Lemma switch_name_in {A} s (l : list (string * A)) a : switch_name s l = Some a -> (s, a) ∈ l.
Proof.
  induction l as [|[n x] l IH]; [done|]. simpl. case_bool_decide; [intros [= <-]; subst; left|right; by apply IH].
Qed.

Lemma switch_code_in {A} v (l : list (Z * A)) a : switch_code v l = Some a -> (v, a) ∈ l.
Proof.
  induction l as [|[n x] l IH]; [done|]. simpl. destruct (Z.eqb_spec v n); [intros [= <-]; subst; left|right; by apply IH].
Qed.

(** ** Numbers *)

(** [strconv.FormatUint(n, 10)] *)
Definition FormatUint (n : Z) : string := pretty (Z.to_N n).

Lemma FormatUint_inj a b : 0 <= a -> 0 <= b -> FormatUint a = FormatUint b -> a = b.
Proof. unfold FormatUint. intros Ha Hb H. apply (inj (@pretty N _)) in H. lia. Qed.

Definition hex_digits : string := "0123456789abcdef".
Definition hex_digit (d : Z) : ascii := default "0"%char (String.get (Z.to_nat d) hex_digits).

(** [hex.EncodeToString] *)
Fixpoint EncodeToString (b : bytes) : string :=
  match b with
  | [] => EmptyString
  | x :: b => String (hex_digit (Z.shiftr x 4)) (String (hex_digit (Z.land x 15)) (EncodeToString b))
  end.

(** ** IP addresses *)

Definition cat (a b : string) : string := String.append a b.

Definition ip4_string (b : bytes) : string := String.concat "." (map FormatUint b).

(** [ip.v6u16(i)] for each [i]. *)
Fixpoint v6_groups (b : bytes) : list Z :=
  match b with hi :: lo :: b => be_u16 hi lo :: v6_groups b | _ => [] end.

(** Lower-case hexadecimal without leading zeros. *)
Definition hex_group (v : Z) : string :=
  let d k := String (hex_digit (Z.land (Z.shiftr v k) 15)) EmptyString in
  cat (if v >=? 4096 then d 12 else "") (cat (if v >=? 256 then d 8 else "") (cat (if v >=? 16 then d 4 else "") (d 0))).

(** The length of the run of zeros at the head. *)
Fixpoint zero_run (l : list Z) : Z :=
  match l with 0 :: l => 1 + zero_run l | _ => 0 end.

(** The first longest run of at least two zero groups, [zeroStart, zeroEnd). *)
Fixpoint longest_run (l : list Z) (i : Z) (best : option (Z * Z)) : option (Z * Z) :=
  match l with
  | [] => best
  | _ :: tl =>
    let n := zero_run l in
    let cur := match best with Some (s, e) => e - s | None => 0 end in
    longest_run tl (i + 1) (if (2 <=? n) && (cur <? n) then Some (i, i + n) else best)
  end.

(** [appendTo6]: the loop over the groups, from index [i]; groups before
    [skip] are inside the run. *)
Fixpoint v6_text (l : list Z) (i : Z) (run : option (Z * Z)) : string :=
  match l with
  | [] => ""
  | v :: tl =>
    match run with
    | Some (s, e) =>
      if i =? s then cat "::" (v6_text tl (i + 1) run)
      else if (s <? i) && (i <? e) then v6_text tl (i + 1) run
      else cat (if (0 <? i) && negb (i =? e) then ":" else "") (cat (hex_group v) (v6_text tl (i + 1) run))
    | None => cat (if 0 <? i then ":" else "") (cat (hex_group v) (v6_text tl (i + 1) run))
    end
  end.

Definition ip6_string (b : bytes) : string :=
  let l := v6_groups b in v6_text l 0 (longest_run l 0 None).

(** [ip.To4()] of a 16-octet address. *)
Definition v4_mapped (b : bytes) : bool :=
  bool_decide (take 12 b = [0; 0; 0; 0; 0; 0; 0; 0; 0; 0; 255; 255]).

(** [net.IP.String] on four or sixteen octets. *)
Definition IP_String (b : bytes) : string :=
  if len b =? 4 then ip4_string b
  else if v4_mapped b then ip4_string (drop 12 b)
  else ip6_string b.

(** [netip.Addr.String]; the zone is left out. *)
Definition Addr_String (a : option bytes) : string :=
  match a with
  | None => "invalid IP"
  | Some b =>
    if len b =? 4 then ip4_string b
    else if v4_mapped b then cat "::ffff:" (ip4_string (drop 12 b))
    else ip6_string b
  end.

(** [netip.AddrPort.String] *)
Definition AddrPort_String (a : option bytes) (port : Z) : string :=
  match a with
  | None => "invalid AddrPort"
  | Some b =>
    if len b =? 4 then cat (ip4_string b) (cat ":" (FormatUint port))
    else cat "[" (cat (Addr_String a) (cat "]:" (FormatUint port)))
  end.

Example ip_texts :
  map IP_String [[192; 0; 2; 1]; [32; 1; 13; 184; 0; 0; 0; 0; 0; 0; 0; 0; 0; 0; 0; 1];
                 [0; 0; 0; 0; 0; 0; 0; 0; 0; 0; 0; 0; 0; 0; 0; 0]; [254; 128; 0; 0; 0; 0; 0; 0; 0; 1; 0; 0; 0; 0; 0; 0];
                 [0; 0; 0; 0; 0; 0; 0; 0; 0; 0; 255; 255; 10; 1; 2; 3]]
  = ["192.0.2.1"; "2001:db8::1"; "::"; "fe80::1:0:0:0"; "10.1.2.3"]%string.
Proof. vm_compute. reflexivity. Qed.

Example lower_examples : map ToLower ["ASCII"; "MsCHAPv2"; "kRb5"]%string = ["ascii"; "mschapv2"; "krb5"]%string.
Proof. vm_compute. reflexivity. Qed.
