(* ===== verification/Encoding.v ===== *)
(** * Text encodings

    What the components use of Go's [strings], [strconv] and [encoding/base64]
    on octets: splitting, cutting and joining, decimal numbers, and base64
    without padding, with their round trips. *)

From stdpp Require Import sets.
From S2P Require Import Prelude.

#[local] Open Scope Z_scope.

(** ** Splitting ([strings.Split], [strings.Cut], [strings.Join]) *)

(** [strings.Split(s, sep)] for a separator of one octet. *)
Fixpoint Split (sep : Z) (s : bytes) : list bytes :=
  match s with
  | [] => [[]]
  | c :: s =>
    if c =? sep then [] :: Split sep s
    else match Split sep s with [] => [[c]] | p :: ps => (c :: p) :: ps end
  end.

(** [strings.Cut(s, sep)]: the text before and after the first separator. *)
Fixpoint Cut (sep : Z) (s : bytes) : option (bytes * bytes) :=
  match s with
  | [] => None
  | c :: s =>
    if c =? sep then Some ([], s)
    else match Cut sep s with Some (k, v) => Some (c :: k, v) | None => None end
  end.

Fixpoint Join (sep : Z) (parts : list bytes) : bytes :=
  match parts with [] => [] | [p] => p | p :: ps => p ++ sep :: Join sep ps end.

Lemma Split_app sep p s : sep ∉ p -> Split sep (p ++ sep :: s) = p :: Split sep s.
Proof.
  induction p as [|c p IH]; simpl; intros H; [by rewrite Z.eqb_refl|].
  rewrite IH by set_solver. destruct (Z.eqb_spec c sep); set_solver.
Qed.

Lemma Split_none sep p : sep ∉ p -> Split sep p = [p].
Proof.
  induction p as [|c p IH]; simpl; intros H; [done|].
  rewrite IH by set_solver. destruct (Z.eqb_spec c sep); set_solver.
Qed.

Lemma Split_Join sep ps : ps <> [] -> Forall (fun p => sep ∉ p) ps -> Split sep (Join sep ps) = ps.
Proof.
  intros Hn H. induction H as [|p ps Hp Hps IH]; [done|]. destruct ps as [|q ps]; [by apply Split_none|].
  change (Join sep (p :: q :: ps)) with (p ++ sep :: Join sep (q :: ps)). by rewrite Split_app, IH.
Qed.

Lemma Cut_app sep k v : sep ∉ k -> Cut sep (k ++ sep :: v) = Some (k, v).
Proof.
  induction k as [|c k IH]; simpl; intros H; [by rewrite Z.eqb_refl|].
  rewrite IH by set_solver. destruct (Z.eqb_spec c sep); set_solver.
Qed.

(** ** Decimal numbers ([strconv.ParseUint], the verb [%d]) *)

Definition is_digit (c : Z) : bool := (48 <=? c) && (c <=? 57).
Definition digits_value (s : bytes) (acc : Z) : Z := fold_left (fun n c => n * 10 + (c - 48)) s acc.

(** [strconv.ParseUint(s, 10, bits)] *)
Definition ParseUintBits (width : Z) (s : bytes) : option Z :=
  if negb (bool_decide (s = [])) && forallb is_digit s && (digits_value s 0 <? 2 ^ width) then Some (digits_value s 0) else None.

(** The digits of [n] before [acc], at most [fuel] of them. *)
Fixpoint decimal_digits (fuel : nat) (n : Z) (acc : bytes) : bytes :=
  match fuel with
  | O => acc
  | S fuel => if n <? 10 then (48 + n) :: acc else decimal_digits fuel (n / 10) ((48 + n mod 10) :: acc)
  end.

(** [fmt.Sprintf] of a [uint32] with the verb [%d]: ten digits are enough. *)
Definition FormatDecimal (n : Z) : bytes := decimal_digits 10 n [].

Lemma decimal_digits_S fuel n acc :
  decimal_digits (S fuel) n acc = if n <? 10 then (48 + n) :: acc else decimal_digits fuel (n / 10) ((48 + n mod 10) :: acc).
Proof. done. Qed.

Lemma decimal_digits_spec fuel n acc :
  0 <= n < 10 ^ Z.of_nat (S fuel) -> forallb is_digit acc = true ->
  let s := decimal_digits (S fuel) n acc in
  s <> [] /\ forallb is_digit s = true /\ digits_value s 0 = digits_value acc n.
Proof.
  revert n acc. induction fuel as [|fuel IH]; intros n acc Hn Hacc; cbv zeta; rewrite decimal_digits_S.
  - change (10 ^ Z.of_nat 1) with 10 in Hn. rewrite (proj2 (Z.ltb_lt n 10)) by lia.
    split; [done|]. split; [|unfold digits_value; simpl; f_equal; lia].
    simpl. rewrite Hacc. unfold is_digit. lia.
  - destruct (Z.ltb_spec n 10) as [Hs|Hs].
    + split; [done|]. split; [|unfold digits_value; simpl; f_equal; lia].
      simpl. rewrite Hacc. unfold is_digit. lia.
    + rewrite Nat2Z.inj_succ, Z.pow_succ_r in Hn by lia.
      destruct (IH (n / 10) ((48 + n mod 10) :: acc)) as (H1 & H2 & H3).
      * split; [apply Z.div_pos; lia|]. apply Z.div_lt_upper_bound; lia.
      * simpl. rewrite Hacc. pose proof (Z.mod_pos_bound n 10 eq_refl). unfold is_digit. lia.
      * split; [exact H1|]. split; [exact H2|]. etrans; [exact H3|]. unfold digits_value. simpl. f_equal.
        pose proof (Z.div_mod n 10). lia.
Qed.

Lemma FormatDecimal_spec n :
  is_u32 n -> FormatDecimal n <> [] /\ forallb is_digit (FormatDecimal n) = true /\ digits_value (FormatDecimal n) 0 = n.
Proof. intros Hn. apply (decimal_digits_spec 9 n []); [unfold is_u32 in Hn; change (10 ^ Z.of_nat 10) with 10000000000; lia|done]. Qed.

Lemma ParseUint_Format n : is_u32 n -> ParseUintBits 32 (FormatDecimal n) = Some n.
Proof.
  intros Hn. destruct (FormatDecimal_spec n Hn) as (H1 & H2 & H3). unfold ParseUintBits.
  rewrite bool_decide_false, H2, H3 by done. change (2 ^ 32) with 4294967296.
  unfold is_u32 in Hn. by rewrite (proj2 (Z.ltb_lt _ _)) by lia.
Qed.

Lemma digits_no_sep sep s : is_digit sep = false -> forallb is_digit s = true -> sep ∉ s.
Proof. intros Hs H Hin. apply list_elem_of_In in Hin. rewrite (proj1 (List.forallb_forall _ s) H sep Hin) in Hs. done. Qed.

(** ** Base64 without padding ([base64.RawStdEncoding], [RawURLEncoding]) *)

Section Base64.
(** The characters of the values 62 and 63. *)
Context (c62 c63 : Z).

Definition enc_char (v : Z) : Z :=
  if v <? 26 then 65 + v else if v <? 52 then 71 + v else if v <? 62 then v - 4 else if v =? 62 then c62 else c63.

Definition dec_char (c : Z) : option Z :=
  if (65 <=? c) && (c <=? 90) then Some (c - 65)
  else if (97 <=? c) && (c <=? 122) then Some (c - 71)
  else if (48 <=? c) && (c <=? 57) then Some (c + 4)
  else if c =? c62 then Some 62 else if c =? c63 then Some 63 else None.

(** Three octets are four values of six bits; two are three, one is two. *)
Fixpoint sextets (b : bytes) : list Z :=
  match b with
  | x :: y :: z :: b => [x / 4; x mod 4 * 16 + y / 16; y mod 16 * 4 + z / 64; z mod 64] ++ sextets b
  | [x; y] => [x / 4; x mod 4 * 16 + y / 16; y mod 16 * 4]
  | [x] => [x / 4; x mod 4 * 16]
  | [] => []
  end.

(** The bits left over by a short last group are not checked (the encodings
    are not [Strict]). *)
Fixpoint octets_of_sextets (s : list Z) : option bytes :=
  match s with
  | a :: b :: c :: d :: s =>
    (fun r => [a * 4 + b / 16; b mod 16 * 16 + c / 4; c mod 4 * 64 + d] ++ r) <$> octets_of_sextets s
  | [a; b; c] => Some [a * 4 + b / 16; b mod 16 * 16 + c / 4]
  | [a; b] => Some [a * 4 + b / 16]
  | [_] => None
  | [] => Some []
  end.

Definition base64_encode (b : bytes) : bytes := map enc_char (sextets b).

(** Line ends are skipped wherever they are. *)
Definition is_newline (c : Z) : bool := (c =? 10) || (c =? 13).
Definition base64_decode (s : bytes) : option bytes :=
  mapM dec_char (List.filter (fun c => negb (is_newline c)) s) ≫= octets_of_sextets.

Lemma octets_ind3 (P : bytes -> Prop) :
  P [] -> (forall x, P [x]) -> (forall x y, P [x; y]) -> (forall x y z b, P b -> P (x :: y :: z :: b)) -> forall b, P b.
Proof.
  intros H0 H1 H2 H3. fix IH 1. intros [|x [|y [|z b]]]; [exact H0|apply H1|apply H2|apply H3, IH].
Qed.

Lemma sextets_range b : Forall is_u8 b -> Forall (fun v => 0 <= v < 64) (sextets b).
Proof.
  unfold is_u8. induction b as [|x|x y|x y z b IH] using octets_ind3; simpl; intros H; forall_hyps;
    repeat (constructor; [mod_lia|]); [constructor..|]. apply IH. done.
Qed.

Lemma octets_sextets b : Forall is_u8 b -> octets_of_sextets (sextets b) = Some b.
Proof.
  unfold is_u8. induction b as [|x|x y|x y z b IH] using octets_ind3; simpl; intros H; forall_hyps; [done|..].
  - do 2 f_equal. mod_lia.
  - f_equal. f_equal; [mod_lia|]. f_equal. mod_lia.
  - rewrite IH by done. simpl. f_equal. f_equal; [mod_lia|]. f_equal; [mod_lia|]. f_equal. mod_lia.
Qed.

Definition marks_ok : Prop :=
  dec_char c62 = Some 62 /\ dec_char c63 = Some 63 /\ is_newline c62 = false /\ is_newline c63 = false.
Context (Hm : marks_ok).

Lemma dec_enc_char v : 0 <= v < 64 -> dec_char (enc_char v) = Some v /\ is_newline (enc_char v) = false.
Proof using Hm.
  destruct Hm as (H1 & H2 & H3 & H4). intros Hv. unfold enc_char.
  destruct (Z.ltb_spec v 26); [|destruct (Z.ltb_spec v 52); [|destruct (Z.ltb_spec v 62); [|destruct (Z.eqb_spec v 62)]]].
  - unfold dec_char, is_newline. rewrite (proj2 (andb_true_iff (65 <=? 65 + v) _)) by (split; lia). split; [f_equal; lia|lia].
  - unfold dec_char, is_newline. rewrite (proj2 (andb_false_iff (65 <=? 71 + v) _)) by (right; lia).
    rewrite (proj2 (andb_true_iff (97 <=? 71 + v) _)) by (split; lia). split; [f_equal; lia|lia].
  - unfold dec_char, is_newline. rewrite (proj2 (andb_false_iff (65 <=? v - 4) _)) by (left; lia).
    rewrite (proj2 (andb_false_iff (97 <=? v - 4) _)) by (left; lia).
    rewrite (proj2 (andb_true_iff (48 <=? v - 4) _)) by (split; lia). split; [f_equal; lia|lia].
  - subst. done.
  - replace v with 63 by lia. done.
Qed.

Lemma base64_roundtrip b : Forall is_u8 b -> base64_decode (base64_encode b) = Some b.
Proof using Hm.
  intros Hb. pose proof (sextets_range b Hb) as Hs. unfold base64_decode, base64_encode.
  assert (List.filter (fun c => negb (is_newline c)) (map enc_char (sextets b)) = map enc_char (sextets b)) as ->.
  { induction Hs as [|v s Hv Hs IH]; [done|]. simpl. rewrite (proj2 (dec_enc_char v Hv)). simpl. by rewrite IH. }
  assert (mapM dec_char (map enc_char (sextets b)) = Some (sextets b)) as ->.
  { apply mapM_Some. induction Hs as [|v s Hv Hs IH]; simpl; constructor; [by apply dec_enc_char|done]. }
  by apply octets_sextets.
Qed.

(** The encoded text has only the alphabet's characters. *)
Lemma base64_alphabet b sep : Forall is_u8 b -> dec_char sep = None -> sep ∉ base64_encode b.
Proof using Hm.
  intros Hb Hsep Hin. apply list_elem_of_fmap in Hin as (v & -> & Hv).
  pose proof (sextets_range b Hb) as Hs. rewrite List.Forall_forall in Hs. apply list_elem_of_In in Hv. by rewrite (proj1 (dec_enc_char v (Hs v Hv))) in Hsep.
Qed.
End Base64.

(** [RawStdEncoding] uses ['+'] and ['/'], [RawURLEncoding] ['-'] and ['_']. *)
Definition RawStdEncode := base64_encode 43 47.
Definition RawStdDecode := base64_decode 43 47.
Definition RawURLEncode := base64_encode 45 95.

Lemma std_marks : marks_ok 43 47.
Proof. done. Qed.
Lemma RawStd_roundtrip b : Forall is_u8 b -> RawStdDecode (RawStdEncode b) = Some b.
Proof. apply base64_roundtrip, std_marks. Qed.
Lemma RawStd_alphabet b sep : Forall is_u8 b -> dec_char 43 47 sep = None -> sep ∉ RawStdEncode b.
Proof. apply base64_alphabet, std_marks. Qed.

Example base64_foobar : RawStdEncode [102; 111; 111; 98] = [90; 109; 57; 118; 89; 103]
  /\ RawStdDecode [90; 109; 57; 118; 10; 89; 103] = Some [102; 111; 111; 98] /\ RawStdDecode [90; 109; 57; 118; 89] = None.
Proof. vm_compute. auto. Qed.
