(* ===== verification/MsChap.v ===== *)
(** * Challenge responses

    [internal/credentials/chap.go], [mschap.go], [wire.go] and [errors.go]: the
    CHAP (RFC 1994), MS-CHAP (RFC 2433) and MS-CHAPv2 (RFC 2759) responses,
    their verification and the split of a START's data.  MD4 is
    golang.org/x/crypto, a parameter; MD5, SHA-1, DES and UTF-16 are Go's.
    A verification also returns the [work] it did: the hashes and ciphers, by
    which an observer of time could tell two verifications apart. *)

From S2P Require Import Prelude Md5 Sha256 Sha1Des.

#[local] Open Scope Z_scope.

(** ** Errors (errors.go) *)

Inductive FailureKind :=
| KindUnknown | KindDisabled | KindRestricted | KindExpired | KindWrong | KindMissing | KindMalformed | KindInvalid.

(** The sentinels: the text of an error is its sentinel's. *)
Inductive sentinel := ErrFailed | ErrMalformed | ErrInvalid.

Record AuthError := mkAuthError { ae_Kind : FailureKind; ae_err : sentinel }.

Definition fail (kind : FailureKind) : AuthError := mkAuthError kind ErrFailed.
Definition unavailable : AuthError := fail KindMissing.
Definition malformed : AuthError := mkAuthError KindMalformed ErrMalformed.
Definition invalidMaterial : AuthError := mkAuthError KindInvalid ErrInvalid.

#[export] Instance FailureKind_eq_dec : EqDecision FailureKind.
Proof. solve_decision. Defined.

(** ** Work *)

Inductive work :=
| WorkArgon2 (time memory threads keyLen : Z)
| WorkChap      (* CHAPResponse *)
| WorkLm        (* LmPasswordHash and ChallengeResponse *)
| WorkNt        (* NtPasswordHash and ChallengeResponse *)
| WorkNtV2.     (* MSCHAPv2NTResponse *)

(** What a verification does and answers. *)
Definition checked : Type := list work * result AuthError unit.

Definition answer (w : work) (ok : bool) : checked := ([w], if ok then Ok tt else Err (fail KindWrong)).
Definition refuse (e : AuthError) : checked := ([], Err e).

(** ** CHAP (chap.go) *)

Definition DefaultMinCHAPChallenge := 8.
Definition CHAPResponseLen := 16.

Definition CHAPResponse (id : Z) (secret challenge : bytes) : bytes := md5 ([id] ++ secret ++ challenge).

Definition min_challenge (minChallenge : Z) : Z := if minChallenge <=? 0 then DefaultMinCHAPChallenge else minChallenge.

Definition verifyCHAP (id : Z) (secret challenge response : bytes) (minChallenge : Z) : checked :=
  let minChallenge := min_challenge minChallenge in
  if (len challenge <? minChallenge) || negb (len response =? CHAPResponseLen) then refuse malformed
  else answer WorkChap (bytes_eqb (CHAPResponse id secret challenge) response).

(** ** The data of a START (wire.go) *)

Definition MSCHAPv1ChallengeLen := 8.
Definition MSCHAPv2ChallengeLen := 16.
Definition MSCHAPResponseLen := 49.
Definition mschapNTLen := 24.
Definition mschapPeerLen := 16.
Definition mschapReservedLen := 8.

Definition SplitCHAPData (data : bytes) (minChallenge : Z) : result AuthError (Z * bytes * bytes) :=
  let minChallenge := min_challenge minChallenge in
  if len data <? 1 + minChallenge + CHAPResponseLen then Err malformed
  else
    let n := len data - 1 - CHAPResponseLen in
    Ok (index data 0, copy_bytes (make_bytes n) (slice data 1 (1 + n)),
        copy_bytes (make_bytes CHAPResponseLen) (slice data (1 + n) (len data))).

Definition splitMSCHAP (data : bytes) (chalLen : Z) : result AuthError (Z * bytes * bytes) :=
  let want := 1 + chalLen + MSCHAPResponseLen in
  if negb (len data =? want) then Err malformed
  else Ok (index data 0, copy_bytes (make_bytes chalLen) (slice data 1 (1 + chalLen)),
           copy_bytes (make_bytes MSCHAPResponseLen) (slice data (1 + chalLen) (len data))).

Definition SplitMSCHAPv1Data (data : bytes) := splitMSCHAP data MSCHAPv1ChallengeLen.
Definition SplitMSCHAPv2Data (data : bytes) := splitMSCHAP data MSCHAPv2ChallengeLen.

(** ** DES and the LAN Manager hash (mschap.go) *)

(** Seven octets of key are spread over eight, in Go's 8-bit arithmetic. *)
Definition des_key8 (key7 : bytes) : bytes :=
  let k i := index key7 i in
  [k 0;
   Z.lor (to_u8 (Z.shiftl (k 0) 7)) (Z.shiftr (k 1) 1);
   Z.lor (to_u8 (Z.shiftl (k 1) 6)) (Z.shiftr (k 2) 2);
   Z.lor (to_u8 (Z.shiftl (k 2) 5)) (Z.shiftr (k 3) 3);
   Z.lor (to_u8 (Z.shiftl (k 3) 4)) (Z.shiftr (k 4) 4);
   Z.lor (to_u8 (Z.shiftl (k 4) 3)) (Z.shiftr (k 5) 5);
   Z.lor (to_u8 (Z.shiftl (k 5) 2)) (Z.shiftr (k 6) 6);
   to_u8 (Z.shiftl (k 6) 1)].

(** [des.NewCipher] fails only on a key that is not eight octets long. *)
Definition desEncryptBlock (key7 data8 : bytes) : bytes := des_encrypt (des_key8 key7) data8.

(** "KGS!@#$%" *)
Definition lmMagic : bytes := [75; 71; 83; 33; 64; 35; 36; 37].

Fixpoint oem_loop (password out : bytes) : bytes :=
  match password with
  | [] => out
  | b :: password =>
    if len out =? 14 then out
    else oem_loop password (out ++ [if (97 <=? b) && (b <=? 122) then b - 32 else b])
  end.
Definition toOEMUpper (password : bytes) : bytes := oem_loop password [].

Definition LmPasswordHash (password : bytes) : bytes :=
  let padded := copy_bytes (make_bytes 14) (toOEMUpper password) in
  desEncryptBlock (slice padded 0 7) lmMagic ++ desEncryptBlock (slice padded 7 14) lmMagic.

Definition ChallengeResponse (challenge passwordHash : bytes) : bytes :=
  let z := copy_bytes (make_bytes 21) passwordHash in
  desEncryptBlock (slice z 0 7) challenge ++ desEncryptBlock (slice z 7 14) challenge ++ desEncryptBlock (slice z 14 21) challenge.

(** Each unit is two octets, the low one first. *)
Definition utf16LE (password : bytes) : bytes :=
  concat (map (fun c => [to_u8 c; to_u8 (Z.shiftr c 8)]) (utf16_Encode (runes password))).

Definition MSCHAPv2ChallengeHash (peerChallenge authChallenge username : bytes) : bytes :=
  take 8 (sha1 (peerChallenge ++ authChallenge ++ username)).

(** [hexDigits[v]] *)
Definition hexDigits : bytes := [48; 49; 50; 51; 52; 53; 54; 55; 56; 57; 65; 66; 67; 68; 69; 70].
Definition hex_upper (digest : bytes) : bytes :=
  concat (map (fun b => [index hexDigits (Z.shiftr b 4); index hexDigits (Z.land b 15)]) digest).

(** "Magic server to client signing constant" and
    "Pad to make it do more than one iteration". *)
Definition magic1 : bytes :=
  [77; 97; 103; 105; 99; 32; 115; 101; 114; 118; 101; 114; 32; 116; 111; 32; 99; 108; 105; 101; 110; 116; 32; 115; 105;
   103; 110; 105; 110; 103; 32; 99; 111; 110; 115; 116; 97; 110; 116].
Definition magic2 : bytes :=
  [80; 97; 100; 32; 116; 111; 32; 109; 97; 107; 101; 32; 105; 116; 32; 100; 111; 32; 109; 111; 114; 101; 32; 116; 104;
   97; 110; 32; 111; 110; 101; 32; 105; 116; 101; 114; 97; 116; 105; 111; 110].

Definition generateAuthenticatorResponse (passwordHashHash ntResponse peerChallenge authChallenge username : bytes) : bytes :=
  let digest := sha1 (passwordHashHash ++ ntResponse ++ magic1) in
  let ch := MSCHAPv2ChallengeHash peerChallenge authChallenge username in
  let digest2 := sha1 (digest ++ ch ++ magic2) in
  [83; 61] ++ hex_upper digest2.

Definition mschapv2SuccessLen := 43.

(** The shape of a response, the same for every user. *)
Definition mschapv2WireOK (challenge response : bytes) : result AuthError unit :=
  if negb (len challenge =? MSCHAPv2ChallengeLen) || negb (len response =? MSCHAPResponseLen) then Err malformed
  else if negb (bytes_eqb (slice response 16 24) (make_bytes mschapReservedLen)) then Err malformed
  else if negb (index response 48 =? 0) then Err malformed
  else Ok tt.

(** ** With MD4 *)

Section MsChap.
Context (md4 : bytes -> bytes).

Definition NtPasswordHash (password : bytes) : bytes := md4 (utf16LE password).
Definition hashNtPasswordHash (passwordHash : bytes) : bytes := md4 passwordHash.

Definition MSCHAPv1Response (password challenge : bytes) (useNT : bool) : bytes :=
  let lm := ChallengeResponse challenge (LmPasswordHash password) in
  let nt := ChallengeResponse challenge (NtPasswordHash password) in
  lm ++ nt ++ [if useNT then 1 else 0].

Definition MSCHAPv2NTResponse (password username authChallenge peerChallenge : bytes) : bytes :=
  ChallengeResponse (MSCHAPv2ChallengeHash peerChallenge authChallenge username) (NtPasswordHash password).

Definition MSCHAPv2Response (password username authChallenge peerChallenge : bytes) : bytes :=
  copy_bytes (make_bytes 16) peerChallenge ++ make_bytes mschapReservedLen
  ++ MSCHAPv2NTResponse password username authChallenge peerChallenge ++ [0].

Definition GenerateMSCHAPv2Success (ident : Z) (password username authChallenge peerChallenge : bytes)
  : result AuthError bytes :=
  if negb (len authChallenge =? MSCHAPv2ChallengeLen) || negb (len peerChallenge =? mschapPeerLen) then Err malformed
  else
    let nth := NtPasswordHash password in
    let hashHash := hashNtPasswordHash nth in
    let nt := MSCHAPv2NTResponse password username authChallenge peerChallenge in
    let authResp := generateAuthenticatorResponse hashHash nt peerChallenge authChallenge username in
    Ok ([ident] ++ copy_bytes (make_bytes (mschapv2SuccessLen - 1)) authResp).

Definition verifyMSCHAPv1 (password challenge response : bytes) : checked :=
  if negb (len challenge =? MSCHAPv1ChallengeLen) || negb (len response =? MSCHAPResponseLen) then refuse malformed
  else if negb (index response 48 =? 0)
  then answer WorkNt (bytes_eqb (ChallengeResponse challenge (NtPasswordHash password)) (slice response 24 48))
  else answer WorkLm (bytes_eqb (ChallengeResponse challenge (LmPasswordHash password)) (slice response 0 24)).

Definition verifyMSCHAPv2 (password username authChallenge response : bytes) : checked :=
  match mschapv2WireOK authChallenge response with
  | Err e => refuse e
  | Ok _ =>
    let peer := slice response 0 mschapPeerLen in
    answer WorkNtV2 (bytes_eqb (MSCHAPv2NTResponse password username authChallenge peer) (slice response 24 48))
  end.
End MsChap.

(** ** RFC 2433 as a reference

    A DES key is 56 bits, each seven followed by a parity bit; a 16-octet hash
    padded to 21 octets is three keys. *)

Definition rfc_key (key7 : bytes) : bytes :=
  bytes_of_bits (concat (map (fun group => group ++ [false]) (chunks 8 7 (bits_of_bytes key7)))).
Definition rfc_ChallengeResponse (challenge hash : bytes) : bytes :=
  concat (map (fun key7 => des_encrypt (rfc_key key7) challenge) (chunks 3 7 (hash ++ make_bytes 5))).
Definition rfc_upper (b : Z) : Z := if decide (97 <= b <= 122) then b - 32 else b.
Definition rfc_LmHash (password : bytes) : bytes :=
  let padded := take 14 (map rfc_upper password ++ make_bytes 14) in
  concat (map (fun key7 => des_encrypt (rfc_key key7) lmMagic) (chunks 2 7 padded)).

Lemma testbit_u8 b i : is_u8 b -> 8 <= i -> Z.testbit b i = false.
Proof.
  intros Hb Hi. destruct (Z.eq_dec b 0) as [->|Hn]; [apply Z.testbit_0_l|].
  apply Z.bits_above_log2; [unfold is_u8 in Hb; lia|].
  apply Z.lt_le_trans with 8; [|done]. apply Z.log2_lt_pow2; unfold is_u8 in Hb; [lia|]. change (2 ^ 8) with 256. lia.
Qed.

Lemma testbit_to_u8 x i : 0 <= i < 8 -> Z.testbit (to_u8 x) i = Z.testbit x i.
Proof. intros Hi. unfold to_u8. change 256 with (2 ^ 8). apply Z.mod_pow2_bits_low. lia. Qed.

(** One octet made of the low bits of [a] and the high bits of [b]. *)
Lemma merge_bit a b n m i :
  is_u8 b -> 0 <= n -> n + m = 8 -> 0 <= m -> 0 <= i < 8 ->
  Z.testbit (Z.lor (to_u8 (Z.shiftl a n)) (Z.shiftr b m)) i = if n <=? i then Z.testbit a (i - n) else Z.testbit b (i + m).
Proof.
  intros Hb Hn Hnm Hm Hi. rewrite Z.lor_spec, testbit_to_u8, Z.shiftl_spec, Z.shiftr_spec by lia.
  destruct (Z.leb_spec n i).
  - rewrite (testbit_u8 b (i + m)) by (done || lia). apply orb_false_r.
  - rewrite Z.testbit_neg_r by lia. done.
Qed.

Lemma merge_bits a b n m :
  is_u8 b -> 0 <= n -> n + m = 8 -> 0 <= m ->
  byte_bits (Z.lor (to_u8 (Z.shiftl a n)) (Z.shiftr b m))
  = map (fun i => if n <=? i then Z.testbit a (i - n) else Z.testbit b (i + m)) [7; 6; 5; 4; 3; 2; 1; 0].
Proof.
  intros Hb Hn Hnm Hm. unfold byte_bits. apply map_ext_in. intros i Hi. apply merge_bit; try done.
  simpl in Hi. lia.
Qed.

Lemma low_bits a : byte_bits (to_u8 (Z.shiftl a 1)) = map (fun i => Z.testbit a (i - 1)) [7; 6; 5; 4; 3; 2; 1; 0].
Proof.
  unfold byte_bits. apply map_ext_in. intros i Hi. simpl in Hi. rewrite testbit_to_u8, Z.shiftl_spec by lia. done.
Qed.

Lemma byte_bits_value b7 b6 b5 b4 b3 b2 b1 b0 :
  byte_bits (bits_value [b7; b6; b5; b4; b3; b2; b1; b0]) = [b7; b6; b5; b4; b3; b2; b1; b0].
Proof. by destruct b7, b6, b5, b4, b3, b2, b1, b0. Qed.

Lemma bits_of_chunks n fuel l :
  length l = (8 * n)%nat -> (n <= fuel)%nat -> concat (map byte_bits (map bits_value (chunks fuel 8 l))) = l.
Proof.
  revert fuel l. induction n as [|n IH]; intros fuel l Hl Hf.
  - destruct l; [|simpl in Hl; lia]. by destruct fuel.
  - destruct fuel as [|fuel]; [lia|].
    destruct l as [|b7 [|b6 [|b5 [|b4 [|b3 [|b2 [|b1 [|b0 l]]]]]]]]; simpl in Hl; try lia.
    change (chunks (S fuel) 8 (b7 :: b6 :: b5 :: b4 :: b3 :: b2 :: b1 :: b0 :: l))
      with ([b7; b6; b5; b4; b3; b2; b1; b0] :: chunks fuel 8 l).
    cbn [map concat]. rewrite byte_bits_value, IH by lia. reflexivity.
Qed.

Lemma bits_of_bytes_of_bits l : length l = 64%nat -> bits_of_bytes (bytes_of_bits l) = l.
Proof. intros H. apply (bits_of_chunks 8); lia. Qed.

Lemma des_key8_rfc key7 data : length key7 = 7%nat -> Forall is_u8 key7 -> desEncryptBlock key7 data = des_encrypt (rfc_key key7) data.
Proof.
  intros Hl Hu. destruct key7 as [|k0 [|k1 [|k2 [|k3 [|k4 [|k5 [|k6 [|]]]]]]]]; try discriminate Hl. forall_hyps.
  unfold desEncryptBlock. apply des_encrypt_key. unfold rfc_key. rewrite bits_of_bytes_of_bits by reflexivity.
  unfold des_key8, index. change (Z.to_nat 0) with 0%nat. change (Z.to_nat 1) with 1%nat. change (Z.to_nat 2) with 2%nat.
  change (Z.to_nat 3) with 3%nat. change (Z.to_nat 4) with 4%nat. change (Z.to_nat 5) with 5%nat. change (Z.to_nat 6) with 6%nat.
  cbn [nth]. unfold bits_of_bytes at 1. cbn [map concat]. rewrite !merge_bits, low_bits by (done || lia). reflexivity.
Qed.

Lemma oem_loop_spec password out :
  len out <= 14 -> oem_loop password out = take 14 (out ++ map rfc_upper password).
Proof.
  revert out. induction password as [|b password IH]; intros out Ho; simpl.
  - rewrite app_nil_r, take_ge; [done|]. unfold len in Ho. lia.
  - destruct (Z.eqb_spec (len out) 14) as [E|E].
    + rewrite take_app_length'; [done|]. unfold len in E. lia.
    + rewrite IH by (rewrite len_snoc; lia). rewrite <- app_assoc. do 2 f_equal. simpl. f_equal.
      unfold rfc_upper. case_decide; [rewrite (proj2 (andb_true_iff _ _)) by (split; lia)|rewrite (proj2 (andb_false_iff _ _)) by lia]; done.
Qed.

Lemma toOEMUpper_spec password : toOEMUpper password = take 14 (map rfc_upper password).
Proof. unfold toOEMUpper. rewrite oem_loop_spec by done. done. Qed.

Lemma rfc_upper_range b : is_u8 b -> is_u8 (rfc_upper b).
Proof. unfold is_u8, rfc_upper. case_decide; lia. Qed.

Lemma make_bytes_range n : Forall is_u8 (make_bytes n).
Proof. unfold make_bytes. apply Forall_replicate. unfold is_u8. lia. Qed.

(** The same on the seven octets of a longer buffer. *)
Lemma des_key8_part l n data :
  (n + 7 <= length l)%nat -> Forall is_u8 l -> desEncryptBlock (take 7 (drop n l)) data = des_encrypt (rfc_key (take 7 (drop n l))) data.
Proof.
  intros Hl Hu. apply des_key8_rfc; [rewrite length_take, length_drop; lia|]. by apply Forall_take, Forall_drop.
Qed.

Lemma LmPasswordHash_rfc password : Forall is_u8 password -> LmPasswordHash password = rfc_LmHash password.
Proof.
  intros Hp. unfold LmPasswordHash, rfc_LmHash. rewrite toOEMUpper_spec.
  assert (copy_bytes (make_bytes 14) (take 14 (map rfc_upper password)) = take 14 (map rfc_upper password ++ make_bytes 14)) as ->.
  { unfold copy_bytes. change (length (make_bytes 14)) with 14%nat. change (make_bytes 14) with (replicate 14 0).
    rewrite take_take, take_app, take_replicate, drop_replicate, length_take. f_equal. f_equal. lia. }
  set (padded := take 14 _).
  assert (Forall is_u8 padded) as Hu.
  { apply Forall_take, Forall_app. split; [|apply make_bytes_range]. apply List.Forall_map. revert Hp. apply Forall_impl.
    intros b. apply rfc_upper_range. }
  assert (length padded = 14%nat) as Hl by (unfold padded; rewrite length_take, length_app; change (length (make_bytes 14)) with 14%nat; lia).
  clearbody padded. change (slice padded 0 7) with (take 7 (drop 0 padded)). change (slice padded 7 14) with (take 7 (drop 7 padded)).
  rewrite (des_key8_part padded 0), (des_key8_part padded 7) by (lia || assumption).
  do 14 (destruct padded as [|? padded]; [discriminate Hl|]). destruct padded; [|discriminate Hl].
  cbn [take drop chunks map concat]. by rewrite app_nil_r.
Qed.

Lemma ChallengeResponse_rfc challenge hash :
  len hash = 16 -> Forall is_u8 hash -> ChallengeResponse challenge hash = rfc_ChallengeResponse challenge hash.
Proof.
  intros Hl Hu. unfold ChallengeResponse, rfc_ChallengeResponse.
  assert (copy_bytes (make_bytes 21) hash = hash ++ make_bytes 5) as ->.
  { change (make_bytes 21) with (make_bytes (16 + 5)). rewrite make_bytes_add by lia. by rewrite copy_bytes_app by (by rewrite Hl). }
  set (z := hash ++ make_bytes 5).
  assert (length z = 21%nat) as Hz by (unfold z; rewrite length_app; simpl; unfold len in Hl; lia).
  assert (Forall is_u8 z) as Hzu by (apply Forall_app; split; [done|apply make_bytes_range]). clearbody z.
  change (slice z 0 7) with (take 7 (drop 0 z)). change (slice z 7 14) with (take 7 (drop 7 z)). change (slice z 14 21) with (take 7 (drop 14 z)).
  rewrite (des_key8_part z 0), (des_key8_part z 7), (des_key8_part z 14) by (lia || assumption).
  do 21 (destruct z as [|? z]; [discriminate Hz|]). destruct z; [|discriminate Hz]. cbn [take drop chunks map concat].
  by rewrite app_nil_r.
Qed.

Lemma len_ChallengeResponse challenge hash : len (ChallengeResponse challenge hash) = 24.
Proof. unfold ChallengeResponse, desEncryptBlock. rewrite !len_app, !len_des_encrypt. done. Qed.
Lemma len_LmPasswordHash password : len (LmPasswordHash password) = 16.
Proof. unfold LmPasswordHash, desEncryptBlock. rewrite !len_app, !len_des_encrypt. done. Qed.


Lemma len_hex_upper d : len (hex_upper d) = 2 * len d.
Proof. unfold hex_upper. induction d as [|b d IH]; [done|]. simpl. rewrite !len_cons, IH. lia. Qed.
Lemma len_generateAuthenticatorResponse h n p a u : len (generateAuthenticatorResponse h n p a u) = 42.
Proof. unfold generateAuthenticatorResponse. by rewrite len_app, len_hex_upper, len_sha1. Qed.

#[export] Hint Rewrite len_ChallengeResponse len_LmPasswordHash len_generateAuthenticatorResponse : len.

Lemma answer_Ok w b : snd (answer w b) = Ok tt <-> b = true.
Proof. by destruct b. Qed.

(** [mschapv2WireOK] accepts exactly the well-formed responses. *)
Definition v2_wire (challenge response : bytes) : Prop :=
  len challenge = 16 /\ len response = 49 /\ slice response 16 24 = make_bytes 8 /\ index response 48 = 0.
#[export] Instance v2_wire_dec challenge response : Decision (v2_wire challenge response).
Proof. unfold v2_wire. apply _. Defined.

Lemma mschapv2WireOK_spec challenge response :
  mschapv2WireOK challenge response = if decide (v2_wire challenge response) then Ok tt else Err malformed.
Proof.
  unfold mschapv2WireOK, v2_wire, MSCHAPv2ChallengeLen, MSCHAPResponseLen, mschapReservedLen.
  destruct (Z.eqb_spec (len challenge) 16) as [E1|E1], (Z.eqb_spec (len response) 49) as [E2|E2]; simpl;
    try (rewrite decide_False by tauto; done).
  destruct (bytes_eqb _ _) eqn:E3; simpl.
  - apply bytes_eqb_true in E3. destruct (Z.eqb_spec (index response 48) 0); simpl;
      [rewrite decide_True by done|rewrite decide_False by tauto]; done.
  - rewrite decide_False; [done|]. intros (_ & _ & E & _). apply bytes_eqb_true in E. congruence.
Qed.

Section Theorems.
Context (md4 : bytes -> bytes) (Hmd4 : forall msg, len (md4 msg) = 16 /\ Forall is_u8 (md4 msg)).

Lemma ChallengeResponse_md4 challenge msg : ChallengeResponse challenge (md4 msg) = rfc_ChallengeResponse challenge (md4 msg).
Proof using Hmd4. apply ChallengeResponse_rfc; apply Hmd4. Qed.

Lemma LmPasswordHash_range password : Forall is_u8 (LmPasswordHash password).
Proof. apply Forall_app. split; apply des_encrypt_range. Qed.

Lemma ChallengeResponse_lm challenge password :
  Forall is_u8 password -> ChallengeResponse challenge (LmPasswordHash password) = rfc_ChallengeResponse challenge (rfc_LmHash password).
Proof.
  intros Hp. rewrite <- LmPasswordHash_rfc by done. apply ChallengeResponse_rfc; [apply len_LmPasswordHash|apply LmPasswordHash_range].
Qed.

Lemma verifyCHAP_spec id secret challenge response minChallenge :
  snd (verifyCHAP id secret challenge response minChallenge) = Ok tt
  <-> min_challenge minChallenge <= len challenge /\ response = md5 (id :: secret ++ challenge).
Proof.
  unfold verifyCHAP, CHAPResponse, CHAPResponseLen. simpl app.
  destruct (Z.ltb_spec (len challenge) (min_challenge minChallenge)); simpl; [split; [done|lia]|].
  destruct (Z.eqb_spec (len response) 16) as [E|E]; simpl.
  - destruct (bytes_eqb _ _) eqn:Eb; [apply bytes_eqb_true in Eb|]; split; try done.
    intros [_ ->]. by rewrite (proj2 (bytes_eqb_true _ _) eq_refl) in Eb.
  - split; [done|]. intros [_ ->]. by rewrite len_md5 in E.
Qed.

Lemma verifyMSCHAPv1_spec secret challenge response :
  Forall is_u8 secret ->
  snd (verifyMSCHAPv1 md4 secret challenge response) = Ok tt
  <-> len challenge = 8 /\ len response = 49 /\
      (index response 48 = 0 -> slice response 0 24 = rfc_ChallengeResponse challenge (rfc_LmHash secret)) /\
      (index response 48 <> 0 -> slice response 24 48 = rfc_ChallengeResponse challenge (md4 (utf16LE secret))).
Proof using Hmd4.
  intros Hs. unfold verifyMSCHAPv1, MSCHAPv1ChallengeLen, MSCHAPResponseLen, NtPasswordHash.
  rewrite ChallengeResponse_md4, ChallengeResponse_lm by done.
  destruct (Z.eqb_spec (len challenge) 8); simpl; [|split; [done|tauto]].
  destruct (Z.eqb_spec (len response) 49); simpl; [|split; [done|tauto]].
  destruct (Z.eqb_spec (index response 48) 0); cbn [negb]; rewrite answer_Ok, bytes_eqb_true; split; try tauto; intros H.
  - by split; [|split; [|split]].
  - destruct H as (_ & _ & H & _). by rewrite H.
  - by split; [|split; [|split]].
  - destruct H as (_ & _ & _ & H). by rewrite H.
Qed.

Lemma verifyMSCHAPv2_spec secret username challenge response :
  snd (verifyMSCHAPv2 md4 secret username challenge response) = Ok tt
  <-> v2_wire challenge response /\
      slice response 24 48 =
        rfc_ChallengeResponse (take 8 (sha1 (slice response 0 16 ++ challenge ++ username))) (md4 (utf16LE secret)).
Proof using Hmd4.
  unfold verifyMSCHAPv2. rewrite mschapv2WireOK_spec. case_decide; [|split; [done|tauto]].
  rewrite answer_Ok, bytes_eqb_true. unfold MSCHAPv2NTResponse, MSCHAPv2ChallengeHash, NtPasswordHash, mschapPeerLen.
  rewrite ChallengeResponse_md4. split; [by intros <-|by intros [_ ->]].
Qed.

Lemma v1_response_accepted secret challenge useNT :
  len challenge = 8 -> snd (verifyMSCHAPv1 md4 secret challenge (MSCHAPv1Response md4 secret challenge useNT)) = Ok tt.
Proof.
  intros Hc. unfold verifyMSCHAPv1, MSCHAPv1Response. set (lm := ChallengeResponse _ (LmPasswordHash _)).
  set (nt := ChallengeResponse _ (NtPasswordHash _ _)).
  assert (len lm = 24) as Hl by apply len_ChallengeResponse. assert (len nt = 24) as Hn by apply len_ChallengeResponse.
  clearbody lm nt. rewrite !len_app, Hc, Hl, Hn. simpl.
  rewrite app_assoc. replace 48 with (len (lm ++ nt)) by (rewrite len_app; lia). rewrite index_app_len.
  rewrite <- app_assoc. destruct useNT; cbn [negb Z.eqb]; apply answer_Ok, bytes_eqb_true.
  - rewrite len_app, <- Hl. symmetry. apply slice_app_mid.
  - rewrite slice_0, <- Hl, len_to_nat. by rewrite take_app_length.
Qed.

Lemma v2_response_wire md4' secret username challenge peer :
  len challenge = 16 -> len peer = 16 ->
  let response := MSCHAPv2Response md4' secret username challenge peer in
  v2_wire challenge response /\ slice response 0 16 = peer
  /\ slice response 24 48 = MSCHAPv2NTResponse md4' secret username challenge peer.
Proof.
  intros Hc Hp. cbv zeta. unfold MSCHAPv2Response. rewrite copy_bytes_full by (by rewrite Hp).
  set (nt := MSCHAPv2NTResponse _ _ _ _ _). assert (len nt = 24) as Hn by apply len_ChallengeResponse. clearbody nt.
  change (make_bytes mschapReservedLen) with (make_bytes 8). unfold v2_wire.
  assert (len (make_bytes 8) = 8) as Hr by done. remember (make_bytes 8) as z eqn:Ez. clear Ez.
  assert (slice (peer ++ z ++ nt ++ [0]) 0 16 = peer) as H1.
  { rewrite slice_0, <- Hp, len_to_nat. by rewrite take_app_length. }
  assert (slice (peer ++ z ++ nt ++ [0]) 16 24 = z) as H2.
  { replace 24 with (len peer + len z) by lia. rewrite <- Hp. apply slice_app_mid. }
  assert (slice (peer ++ z ++ nt ++ [0]) 24 48 = nt) as H3.
  { rewrite app_assoc. replace 48 with (len (peer ++ z) + len nt) by (rewrite len_app; lia).
    replace 24 with (len (peer ++ z)) by (rewrite len_app; lia). apply slice_app_mid. }
  assert (index (peer ++ z ++ nt ++ [0]) 48 = 0) as H4.
  { replace (peer ++ z ++ nt ++ [0]) with ((peer ++ z ++ nt) ++ [0]) by (by rewrite <- !app_assoc).
    replace 48 with (len (peer ++ z ++ nt)) by (rewrite !len_app; lia). apply index_app_len. }
  split; [|done]. split; [done|]. split; [|done].
  rewrite !len_app, Hp, Hr, Hn. done.
Qed.

Lemma v2_response_accepted secret username challenge peer :
  len challenge = 16 -> len peer = 16 ->
  snd (verifyMSCHAPv2 md4 secret username challenge (MSCHAPv2Response md4 secret username challenge peer)) = Ok tt.
Proof.
  intros Hc Hp. destruct (v2_response_wire md4 secret username challenge peer Hc Hp) as (H1 & H2 & H3).
  unfold verifyMSCHAPv2. rewrite mschapv2WireOK_spec, decide_True by done. apply answer_Ok, bytes_eqb_true.
  unfold mschapPeerLen. by rewrite H2, H3.
Qed.

Lemma v2_success_shape id secret username challenge peer :
  len challenge = 16 -> len peer = 16 ->
  exists out, GenerateMSCHAPv2Success md4 id secret username challenge peer = Ok out /\ len out = mschapv2SuccessLen
              /\ index out 0 = id.
Proof.
  intros Hc Hp. unfold GenerateMSCHAPv2Success, MSCHAPv2ChallengeLen, mschapPeerLen. rewrite Hc, Hp. simpl.
  eexists. split; [done|]. split; [|done]. rewrite len_cons, len_copy_bytes. done.
Qed.

(** C35. What the three verifications accept, for a secret of octets: CHAP
    exactly the MD5 of identifier, secret and challenge, on a challenge of at
    least the minimal length; MS-CHAP exactly the RFC 2433 response to the NT
    hash, or to the LAN Manager hash when the flags octet is zero; MS-CHAPv2
    exactly the RFC 2759 response to the hashed challenges and name, in a
    response whose reserved octets and flags are zero.  The DES keys are the
    RFC's: seven bits and a parity bit.  In particular the responses that the
    package computes for a client are accepted.  The success message of
    MS-CHAPv2 is the identifier and 42 octets. *)
Theorem challenge_responses_exact (id : Z) (secret username challenge response : bytes) (Hs : Forall is_u8 secret) :
  (forall minChallenge, snd (verifyCHAP id secret challenge response minChallenge) = Ok tt
     <-> min_challenge minChallenge <= len challenge /\ response = md5 (id :: secret ++ challenge))
  /\ (snd (verifyMSCHAPv1 md4 secret challenge response) = Ok tt
      <-> len challenge = 8 /\ len response = 49 /\
          (index response 48 = 0 -> slice response 0 24 = rfc_ChallengeResponse challenge (rfc_LmHash secret)) /\
          (index response 48 <> 0 -> slice response 24 48 = rfc_ChallengeResponse challenge (md4 (utf16LE secret))))
  /\ (snd (verifyMSCHAPv2 md4 secret username challenge response) = Ok tt
      <-> v2_wire challenge response /\
          slice response 24 48 =
            rfc_ChallengeResponse (take 8 (sha1 (slice response 0 16 ++ challenge ++ username))) (md4 (utf16LE secret)))
  /\ (forall useNT, len challenge = 8 -> snd (verifyMSCHAPv1 md4 secret challenge (MSCHAPv1Response md4 secret challenge useNT)) = Ok tt)
  /\ (forall peer, len challenge = 16 -> len peer = 16 ->
      snd (verifyMSCHAPv2 md4 secret username challenge (MSCHAPv2Response md4 secret username challenge peer)) = Ok tt
      /\ exists out, GenerateMSCHAPv2Success md4 id secret username challenge peer = Ok out /\ len out = mschapv2SuccessLen
                     /\ index out 0 = id).
Proof using Hmd4.
  split; [intros; apply verifyCHAP_spec|]. split; [by apply verifyMSCHAPv1_spec|]. split; [apply verifyMSCHAPv2_spec|].
  split; [intros; by apply v1_response_accepted|]. intros peer Hc Hp. split; [by apply v2_response_accepted|].
  by apply v2_success_shape.
Qed.
End Theorems.

(** ** The RFC vectors, with an MD4 (RFC 1320) for the parameter *)

Definition md4_round (x : list Z) (st : Z * Z * Z * Z) (ks : Z * Z * Z) : Z * Z * Z * Z :=
  let '(a, b, c, d) := st in
  let '(r, k, s) := ks in
  let f :=
    if r =? 0 then Z.lor (Z.land b c) (Z.land (not32 b) d)
    else if r =? 1 then add32 (Z.lor (Z.lor (Z.land b c) (Z.land b d)) (Z.land c d)) 1518500249
    else add32 (Z.lxor (Z.lxor b c) d) 1859775393 in
  (d, rotl32 (add32 (add32 a f) (nth (Z.to_nat k) x 0)) s, b, c).
Definition md4_schedule : list (Z * Z * Z) :=
  zip (zip (replicate 16 0 ++ replicate 16 1 ++ replicate 16 2)
    ([0; 1; 2; 3; 4; 5; 6; 7; 8; 9; 10; 11; 12; 13; 14; 15] ++ [0; 4; 8; 12; 1; 5; 9; 13; 2; 6; 10; 14; 3; 7; 11; 15]
     ++ [0; 8; 4; 12; 2; 10; 6; 14; 1; 9; 5; 13; 3; 11; 7; 15]))
    (concat (replicate 4 [3; 7; 11; 19]) ++ concat (replicate 4 [3; 5; 9; 13]) ++ concat (replicate 4 [3; 9; 11; 15])).
Definition md4_block (st : Z * Z * Z * Z) (chunk : bytes) : Z * Z * Z * Z :=
  let '(a, b, c, d) := st in
  let '(a', b', c', d') := fold_left (md4_round (map le_word (chunks 16 4 chunk))) md4_schedule st in
  (add32 a a', add32 b b', add32 c c', add32 d d').
Definition md4_sample (msg : bytes) : bytes :=
  let padded := md5_pad msg in
  let '(a, b, c, d) := fold_left md4_block (chunks (length padded) 64 padded) (1732584193, 4023233417, 2562383102, 271733878) in
  le_bytes 4 a ++ le_bytes 4 b ++ le_bytes 4 c ++ le_bytes 4 d.

Lemma md4_sample_shape msg : len (md4_sample msg) = 16 /\ Forall is_u8 (md4_sample msg).
Proof.
  unfold md4_sample. destruct (fold_left _ _ _) as [ [ [a b] c] d]. split.
  - unfold len. by rewrite !length_app, !length_le_bytes.
  - rewrite !Forall_app. repeat split; apply le_bytes_range.
Qed.

(** RFC 2759, section 9.2: user "User", password "clientPass". *)
Definition rfc_user : bytes := [85; 115; 101; 114].
Definition rfc_password : bytes := [99; 108; 105; 101; 110; 116; 80; 97; 115; 115].
Definition rfc_auth : bytes := [91; 93; 124; 125; 123; 63; 47; 62; 60; 44; 96; 33; 50; 38; 38; 40].
Definition rfc_peer : bytes := [33; 64; 35; 36; 37; 94; 38; 42; 40; 41; 95; 43; 58; 51; 124; 126].
Definition rfc_nt : bytes :=
  [130; 48; 158; 205; 141; 112; 139; 94; 160; 143; 170; 57; 129; 205; 131; 84; 66; 51; 17; 74; 61; 133; 214; 223].

Example rfc2759_vector :
  NtPasswordHash md4_sample rfc_password = [68; 235; 186; 141; 83; 18; 184; 214; 17; 71; 68; 17; 245; 105; 137; 174]
  /\ MSCHAPv2ChallengeHash rfc_peer rfc_auth rfc_user = [208; 46; 67; 134; 188; 233; 18; 38]
  /\ MSCHAPv2NTResponse md4_sample rfc_password rfc_user rfc_auth rfc_peer = rfc_nt
  /\ GenerateMSCHAPv2Success md4_sample 7 rfc_password rfc_user rfc_auth rfc_peer
     = Ok ([7; 83; 61] ++ [52; 48; 55; 65; 53; 53; 56; 57; 49; 49; 53; 70; 68; 48; 68; 54; 50; 48; 57; 70; 53; 49; 48; 70;
           69; 57; 67; 48; 52; 53; 54; 54; 57; 51; 50; 67; 68; 65; 53; 54]).
Proof. vm_compute. auto. Qed.

Lemma challenge_responses_exact_witness :
  snd (verifyMSCHAPv2 md4_sample rfc_password rfc_user rfc_auth (rfc_peer ++ make_bytes 8 ++ rfc_nt ++ [0])) = Ok tt
  /\ slice (rfc_peer ++ make_bytes 8 ++ rfc_nt ++ [0]) 24 48
     = rfc_ChallengeResponse (take 8 (sha1 (rfc_peer ++ rfc_auth ++ rfc_user))) (md4_sample (utf16LE rfc_password)).
Proof.
  assert (Forall is_u8 rfc_password) as Hs by decide_now.
  pose proof (challenge_responses_exact md4_sample md4_sample_shape 7 rfc_password rfc_user rfc_auth
    (rfc_peer ++ make_bytes 8 ++ rfc_nt ++ [0]) Hs) as (_ & _ & H & _).
  assert (snd (verifyMSCHAPv2 md4_sample rfc_password rfc_user rfc_auth (rfc_peer ++ make_bytes 8 ++ rfc_nt ++ [0])) = Ok tt)
    as Hv by (vm_compute; reflexivity).
  split; [exact Hv|]. exact (proj2 (proj1 H Hv)).
Defined.
