(* ===== verification/Credentials.v ===== *)
(** * Credentials

    [internal/credentials/secret.go], [argon2.go], [store.go], [username.go],
    [service.go] and [token.go]: secret holders typed by their purpose, the
    Argon2id verifiers and their PHC text, the records of users, the service
    that verifies a credential, and API tokens.

    Code outside the repository is a parameter: [IDKey] (x/crypto/argon2),
    [md4] (x/crypto/md4) and [precis] (x/text, UsernameCasePreserved).  A
    reader of entropy is the list of the octets it will return.  A context is
    what the calls can see of it ([CallContext]).  Wiping has no model. *)

From Stdlib Require Import String.
From stdpp Require Import gmap strings.
From S2P Require Import Prelude Text Md5 Sha256 Encoding MsChap.

#[local] Open Scope Z_scope.

(** ** Secret holders (secret.go) *)

Inductive Purpose :=
| PurposeLoginVerifier | PurposeChallengeSecret | PurposeEnableVerifier | PurposeLegacySharedSecret
| PurposeRADIUSSharedSecret | PurposeAPIBearerToken | PurposeTLSPrivateKey | PurposeTLSPSK | PurposePassword
| PurposeSessionCookie.

(** [type secret struct]; the type of a holder names its purpose, so that one
    cannot be used for another. *)
Record secret (p : Purpose) := mkSecret { v : bytes }.
Arguments mkSecret {p} _.
Arguments v {p} _.

Definition LoginVerifier := secret PurposeLoginVerifier.
Definition ChallengeSecret := secret PurposeChallengeSecret.
Definition EnableVerifier := secret PurposeEnableVerifier.
Definition TokenMaterial := secret PurposeAPIBearerToken.
Definition Password := secret PurposePassword.

Definition newSecret {p} (b : bytes) : secret p := mkSecret b.
Definition Bytes {p} (s : secret p) : bytes := v s.
Definition Empty {p} (s : secret p) : bool := len (v s) =? 0.
Definition Len {p} (s : secret p) : Z := len (v s).
Definition Equal {p} (s o : secret p) : bool := bytes_eqb (v s) (v o).

(** What [Redacted], [String], [GoString], [Format] and [LogValue] give, and
    the error of the three marshalers. *)
Definition redactedMarker : string := "[redacted]".
Inductive serialize_error := errNotSerializable.
Definition secret_text {p} (_ : secret p) : string := redactedMarker.
Definition secret_marshal {p} (_ : secret p) : result serialize_error bytes := Err errNotSerializable.

(** ** Argon2id verifiers (argon2.go) *)

Record Argon2Params := mkParams { p_Time : Z; p_Memory : Z; p_Threads : Z; p_SaltLen : Z; p_KeyLen : Z }.

Definition DefaultParams := mkParams 3 65536 1 16 32.
Definition minSaltLen := 8.
Definition minKeyLen := 16.
Definition minMemoryKiB := 8.
Definition maxMemoryKiB := 1048576.
Definition minTime := 1.
Definition maxTime := 16.
Definition minThreads := 1.
Definition maxThreads := 16.

(** The errors of a call: a verification's, the context's, or the reader's. *)
Inductive cred_error := Auth (e : AuthError) | CtxErr | EntropyErr.

Definition validEncode (p : Argon2Params) : result AuthError unit :=
  if (p_Time p <? minTime) || (maxTime <? p_Time p) then Err invalidMaterial
  else if (p_Memory p <? minMemoryKiB) || (maxMemoryKiB <? p_Memory p) then Err invalidMaterial
  else if (p_Threads p <? minThreads) || (maxThreads <? p_Threads p) then Err invalidMaterial
  else if (p_SaltLen p <? minSaltLen) || (p_KeyLen p <? minKeyLen) then Err invalidMaterial
  else Ok tt.

Record parsedPHC := mkPHC { ph_memory : Z; ph_time : Z; ph_threads : Z; ph_salt : bytes; ph_hash : bytes }.

Definition dollar := 36.
Definition comma := 44.
Definition equals := 61.
Definition argon2id_name : bytes := octets_of "argon2id".
Definition argon2_v19 : bytes := octets_of "v=19".

(** [fmt.Sprintf("$argon2id$v=%d$m=%d,t=%d,p=%d$%s$%s", ...)] *)
Definition cost_text (p : Argon2Params) : bytes :=
  octets_of "m=" ++ FormatDecimal (p_Memory p) ++ octets_of ",t=" ++ FormatDecimal (p_Time p)
  ++ octets_of ",p=" ++ FormatDecimal (p_Threads p).
Definition encodePHC (p : Argon2Params) (salt hash : bytes) : bytes :=
  [dollar] ++ argon2id_name ++ [dollar] ++ octets_of "v=" ++ FormatDecimal 19 ++ [dollar] ++ cost_text p
  ++ [dollar] ++ RawStdEncode salt ++ [dollar] ++ RawStdEncode hash.

(** The loop of [parseCost]: the fields seen so far. *)
Fixpoint cost_loop (fields : list bytes) (mem time threads : option Z) : result AuthError (Z * Z * Z) :=
  match fields with
  | [] =>
    match mem, time, threads with
    | Some m, Some t, Some p => Ok (m, t, p)
    | _, _, _ => Err invalidMaterial
    end
  | field :: fields =>
    match Cut equals field with
    | None => Err invalidMaterial
    | Some (k, value) =>
      match ParseUintBits 32 value with
      | None => Err invalidMaterial
      | Some n =>
        if bytes_eqb k (octets_of "m") then
          if bool_decide (is_Some mem) || (n <? minMemoryKiB) || (maxMemoryKiB <? n) then Err invalidMaterial
          else cost_loop fields (Some (to_u32 n)) time threads
        else if bytes_eqb k (octets_of "t") then
          if bool_decide (is_Some time) || (n <? minTime) || (maxTime <? n) then Err invalidMaterial
          else cost_loop fields mem (Some (to_u32 n)) threads
        else if bytes_eqb k (octets_of "p") then
          if bool_decide (is_Some threads) || (n <? minThreads) || (maxThreads <? n) then Err invalidMaterial
          else cost_loop fields mem time (Some (to_u8 n))
        else Err invalidMaterial
      end
    end
  end.
Definition parseCost (s : bytes) : result AuthError (Z * Z * Z) := cost_loop (Split comma s) None None None.

Definition parsePHC (encoded : bytes) : result AuthError parsedPHC :=
  match Split dollar encoded with
  | [p0; p1; p2; p3; p4; p5] =>
    if negb (bytes_eqb p0 []) || negb (bytes_eqb p1 argon2id_name) then Err invalidMaterial
    else if negb (bytes_eqb p2 argon2_v19) then Err invalidMaterial
    else
      let! cost := parseCost p3 in
      match RawStdDecode p4 with
      | None => Err invalidMaterial
      | Some salt =>
        if len salt <? minSaltLen then Err invalidMaterial
        else
          match RawStdDecode p5 with
          | None => Err invalidMaterial
          | Some hash =>
            if len hash <? minKeyLen then Err invalidMaterial
            else Ok (mkPHC (fst (fst cost)) (snd (fst cost)) (snd cost) salt hash)
          end
      end
  | _ => Err invalidMaterial
  end.

Definition ValidatePHC (encoded : bytes) : result AuthError unit := let! _ := parsePHC encoded in Ok tt.

(** [io.ReadFull(entropy, buf)] for a buffer of [n] octets. *)
Definition ReadFull (entropy : bytes) (n : Z) : option (bytes * bytes) :=
  if n <=? len entropy then Some (take (Z.to_nat n) entropy, drop (Z.to_nat n) entropy) else None.

(** ** Records and stores (store.go) *)

(** Times are nanoseconds since Go's zero time. *)
Record UserRecord := mkUserRecord {
  cr_ID : string; cr_Enabled : bool; cr_Restricted : bool;
  cr_Login : LoginVerifier; cr_Challenge : ChallengeSecret; cr_Enable : EnableVerifier;
  cr_ValidAfter : option Z; cr_ValidBefore : option Z;
  cr_MustChangeLogin : bool; cr_MustChangeEnable : bool;
}.

Record Capabilities := mkCapabilities { cap_Login : bool; cap_Challenge : bool; cap_Enable : bool }.

Definition Caps (r : UserRecord) : Capabilities :=
  mkCapabilities (negb (Empty (cr_Login r))) (negb (Empty (cr_Challenge r))) (negb (Empty (cr_Enable r))).

(** [type Store interface]: the lookup by canonical user id. *)
Definition Store : Type := string -> option UserRecord.

(** [type Memory struct] *)
Definition Memory : Type := gmap string UserRecord.
Definition NewMemory : Memory := ∅.
Definition Put (m : Memory) (r : UserRecord) : Memory := <[cr_ID r := r]> m.
Definition Delete (m : Memory) (id : string) : Memory := delete id m.
Definition Lookup (m : Memory) : Store := fun userID => m !! userID.

(** ** The service (username.go, service.go) *)

(** [ctx.Err() <> nil] on entry; and whether [acquireKDF] gets one of the
    [KDFWorkers] slots before the context is done. *)
Record CallContext := mkCallContext { cx_cancelled : bool; cx_kdf : bool }.

Section Service.
Context (IDKey : bytes -> bytes -> Z -> Z -> Z -> Z -> bytes) (md4 : bytes -> bytes) (precis : string -> option string).

(** *** Argon2id (argon2.go) *)

Definition DeriveArgon2id (password : bytes) (p : Argon2Params) (entropy : option bytes) : result cred_error (bytes * bytes) :=
  match validEncode p with
  | Err e => Err (Auth e)
  | Ok _ =>
    match entropy with
    | None => Err (Auth invalidMaterial)
    | Some entropy =>
      match ReadFull entropy (p_SaltLen p) with
      | None => Err EntropyErr
      | Some (salt, rest) =>
        let sum := IDKey password salt (p_Time p) (p_Memory p) (p_Threads p) (p_KeyLen p) in
        Ok (encodePHC p salt sum, rest)
      end
    end
  end.

Definition VerifyArgon2id (encoded password : bytes) : checked :=
  match parsePHC encoded with
  | Err e => refuse e
  | Ok ph =>
    let keyLen := to_u32 (len (ph_hash ph)) in
    let got := IDKey password (ph_salt ph) (ph_time ph) (ph_memory ph) (ph_threads ph) keyLen in
    answer (WorkArgon2 (ph_time ph) (ph_memory ph) (ph_threads ph) keyLen) (bytes_eqb got (ph_hash ph))
  end.

Definition CanonicalUsername (raw : string) : result AuthError string :=
  match precis raw with
  | Some out => if bool_decide (out = EmptyString) then Err invalidMaterial else Ok out
  | None => Err invalidMaterial
  end.

Record Service := mkService {
  cs_store : Store; cs_params : Argon2Params; cs_minCHAP : Z; cs_dummyLogin : bytes; cs_dummyChal : bytes;
}.

(** [NewService] with the entropy it reads: the options are defaulted, and the
    verifier and secret that stand in for a missing user are drawn. *)
Definition NewService (store : option Store) (params : option Argon2Params) (minCHAP : Z) (entropy : bytes)
  : result cred_error (Service * bytes) :=
  match store with
  | None => Err (Auth invalidMaterial)
  | Some store =>
    let params := default DefaultParams params in
    match validEncode params with
    | Err e => Err (Auth e)
    | Ok _ =>
      match ReadFull entropy 16 with
      | None => Err EntropyErr
      | Some (dummyPW, entropy) =>
        match DeriveArgon2id dummyPW params (Some entropy) with
        | Err e => Err e
        | Ok (enc, entropy) =>
          match ReadFull entropy 16 with
          | None => Err EntropyErr
          | Some (dummyChal, entropy) => Ok (mkService store params (min_challenge minCHAP) enc dummyChal, entropy)
          end
        end
      end
    end
  end.

(** A nil store keeps the service's own. *)
Definition WithStore (s : Service) (store : option Store) : Service :=
  match store with
  | None => s
  | Some store => mkService store (cs_params s) (cs_minCHAP s) (cs_dummyLogin s) (cs_dummyChal s)
  end.

Definition lookup (s : Service) (now : Z) (userID : string) : result AuthError UserRecord :=
  match CanonicalUsername userID with
  | Err _ => Err (fail KindUnknown)
  | Ok canon =>
    match cs_store s canon with
    | None => Err (fail KindUnknown)
    | Some rec =>
      if negb (cr_Enabled rec) then Err (fail KindDisabled)
      else if cr_Restricted rec then Err (fail KindRestricted)
      else if match cr_ValidAfter rec with Some t => now <? t | None => false end then Err (fail KindExpired)
      else if match cr_ValidBefore rec with Some t => negb (now <? t) | None => false end then Err (fail KindExpired)
      else Ok rec
    end
  end.

(** The answer of a call, with the work of its verification. *)
Definition reply : Type := list work * result cred_error unit.
Definition early (e : cred_error) : reply := ([], Err e).
Definition lift (c : checked) : reply := (fst c, match snd c with Ok _ => Ok tt | Err e => Err (Auth e) end).
(** [_ = c; return e]: the result is dropped, the time is spent. *)
Definition instead (c : checked) (e : AuthError) : reply := (fst c, Err (Auth e)).

(** [VerifyASCIIOrPAP] and [VerifyEnable] differ in the verifier they read;
    each takes its own copy of the steps. *)
Definition VerifyASCIIOrPAP (s : Service) (cx : CallContext) (now : Z) (userID : string) (password : bytes) : reply :=
  if cx_cancelled cx then early CtxErr
  else
    let found := lookup s now userID in
    if negb (cx_kdf cx) then early CtxErr
    else
      match found with
      | Err e => instead (VerifyArgon2id (cs_dummyLogin s) password) e
      | Ok rec =>
        if Empty (cr_Login rec) then instead (VerifyArgon2id (cs_dummyLogin s) password) unavailable
        else lift (VerifyArgon2id (Bytes (cr_Login rec)) password)
      end.

Definition VerifyEnable (s : Service) (cx : CallContext) (now : Z) (userID : string) (password : bytes) : reply :=
  if cx_cancelled cx then early CtxErr
  else
    let found := lookup s now userID in
    if negb (cx_kdf cx) then early CtxErr
    else
      match found with
      | Err e => instead (VerifyArgon2id (cs_dummyLogin s) password) e
      | Ok rec =>
        if Empty (cr_Enable rec) then instead (VerifyArgon2id (cs_dummyLogin s) password) unavailable
        else lift (VerifyArgon2id (Bytes (cr_Enable rec)) password)
      end.

Definition VerifyCHAP (s : Service) (cx : CallContext) (now : Z) (userID : string) (id : Z) (challenge response : bytes) : reply :=
  if cx_cancelled cx then early CtxErr
  else if (len challenge <? cs_minCHAP s) || negb (len response =? CHAPResponseLen) then early (Auth malformed)
  else
    match lookup s now userID with
    | Err e => instead (verifyCHAP id (cs_dummyChal s) challenge response (cs_minCHAP s)) e
    | Ok rec =>
      if Empty (cr_Challenge rec) then instead (verifyCHAP id (cs_dummyChal s) challenge response (cs_minCHAP s)) unavailable
      else lift (verifyCHAP id (Bytes (cr_Challenge rec)) challenge response (cs_minCHAP s))
    end.

(** The PPP identifier is not used. *)
Definition VerifyMSCHAPv1 (s : Service) (cx : CallContext) (now : Z) (userID : string) (id : Z) (challenge response : bytes) : reply :=
  if cx_cancelled cx then early CtxErr
  else if negb (len challenge =? MSCHAPv1ChallengeLen) || negb (len response =? MSCHAPResponseLen) then early (Auth malformed)
  else
    match lookup s now userID with
    | Err e => instead (verifyMSCHAPv1 md4 (cs_dummyChal s) challenge response) e
    | Ok rec =>
      if Empty (cr_Challenge rec) then instead (verifyMSCHAPv1 md4 (cs_dummyChal s) challenge response) unavailable
      else lift (verifyMSCHAPv1 md4 (Bytes (cr_Challenge rec)) challenge response)
    end.

Definition VerifyMSCHAPv2 (s : Service) (cx : CallContext) (now : Z) (userID : string) (id : Z) (challenge response : bytes) : reply :=
  if cx_cancelled cx then early CtxErr
  else
    match mschapv2WireOK challenge response with
    | Err e => early (Auth e)
    | Ok _ =>
      let stand_in := verifyMSCHAPv2 md4 (cs_dummyChal s) (octets_of "x") challenge response in
      match CanonicalUsername userID, lookup s now userID with
      | _, Err e => instead stand_in e
      | Err _, Ok _ => instead stand_in (fail KindUnknown)
      | Ok canon, Ok rec =>
        if Empty (cr_Challenge rec)
        then instead (verifyMSCHAPv2 md4 (cs_dummyChal s) (octets_of canon) challenge response) unavailable
        else lift (verifyMSCHAPv2 md4 (Bytes (cr_Challenge rec)) (octets_of canon) challenge response)
      end
    end.

Definition MSCHAPv2Success (s : Service) (cx : CallContext) (now : Z) (userID : string) (ident : Z)
  (authChallenge peerChallenge : bytes) : result cred_error bytes :=
  if cx_cancelled cx then Err CtxErr
  else if negb (len authChallenge =? MSCHAPv2ChallengeLen) || negb (len peerChallenge =? mschapPeerLen) then Err (Auth malformed)
  else
    match CanonicalUsername userID, lookup s now userID with
    | _, Err e => Err (Auth e)
    | Err _, Ok _ => Err (Auth (fail KindUnknown))
    | Ok canon, Ok rec =>
      if Empty (cr_Challenge rec) then Err (Auth unavailable)
      else
        match GenerateMSCHAPv2Success md4 ident (Bytes (cr_Challenge rec)) (octets_of canon) authChallenge peerChallenge with
        | Ok out => Ok out
        | Err e => Err (Auth e)
        end
    end.

(** *** New verifiers *)

Definition derive {p} (s : Service) (cx : CallContext) (password entropy : bytes) : result cred_error (secret p * bytes) :=
  if cx_cancelled cx then Err CtxErr
  else if negb (cx_kdf cx) then Err CtxErr
  else
    match DeriveArgon2id password (cs_params s) (Some entropy) with
    | Ok (enc, rest) => Ok (newSecret enc, rest)
    | Err e => Err e
    end.
Definition DeriveLoginVerifier : Service -> CallContext -> bytes -> bytes -> result cred_error (LoginVerifier * bytes) := derive.
Definition DeriveEnableVerifier : Service -> CallContext -> bytes -> bytes -> result cred_error (EnableVerifier * bytes) := derive.

Definition ChangeASCIIPassword (s : Service) (cx : CallContext) (now : Z) (userID : string) (old new entropy : bytes)
  : result cred_error (bytes * bytes) :=
  if cx_cancelled cx then Err CtxErr
  else if len new =? 0 then Err (Auth malformed)
  else
    match snd (VerifyASCIIOrPAP s cx now userID old) with
    | Err e => Err e
    | Ok _ =>
      let! derived := DeriveLoginVerifier s cx new entropy in
      Ok (Bytes (fst derived), snd derived)
    end.

Definition ServiceCapabilities (s : Service) (now : Z) (userID : string) : Capabilities :=
  match lookup s now userID with Err _ => mkCapabilities false false false | Ok rec => Caps rec end.
End Service.

(** ** API tokens (token.go) *)

Definition TokenByteLength := 32.
Definition TokenDigestLength := 32.

(** [type TokenDigest]: SHA-256 of a bearer's text. *)
Record TokenDigest := mkTokenDigest { td_v : bytes }.

Definition GenerateToken (entropy : bytes) : option (TokenMaterial * bytes) :=
  match ReadFull entropy TokenByteLength with Some (b, rest) => Some (newSecret b, rest) | None => None end.

Definition EncodeBearer (m : TokenMaterial) : bytes := RawURLEncode (Bytes m).
Definition DigestToken (m : TokenMaterial) : TokenDigest := mkTokenDigest (sha256 (Bytes m)).

(** [IssueBearer]: the text, the digest of that text, and the entropy left. *)
Definition IssueBearer (entropy : bytes) : option (bytes * TokenDigest * bytes) :=
  match GenerateToken entropy with
  | None => None
  | Some (raw, rest) =>
    let value := EncodeBearer raw in
    Some (value, DigestToken (newSecret value), rest)
  end.

Definition EqualDigest (a b : TokenDigest) : bool :=
  let eq := bytes_eqb (td_v a) (td_v b) in
  if negb (len (td_v a) =? TokenDigestLength) || negb (len (td_v b) =? TokenDigestLength)
  then eq && (len (td_v a) =? len (td_v b)) && (len (td_v a) =? TokenDigestLength)
  else eq.

(** [[TokenDigestLength]byte], zero-filled. *)
Definition DigestIndex (d : TokenDigest) : bytes := copy_bytes (make_bytes TokenDigestLength) (td_v d).

(** ** The PHC text round trips *)

(** The parameters' Go types, and what [validEncode] accepts of them. *)
Definition params_typed (p : Argon2Params) : Prop :=
  is_u32 (p_Time p) /\ is_u32 (p_Memory p) /\ is_u8 (p_Threads p) /\ is_u32 (p_SaltLen p) /\ is_u32 (p_KeyLen p).
Definition params_ok (p : Argon2Params) : Prop :=
  1 <= p_Time p <= 16 /\ 8 <= p_Memory p <= 1048576 /\ 1 <= p_Threads p <= 16 /\ 8 <= p_SaltLen p /\ 16 <= p_KeyLen p.
#[export] Instance params_ok_dec p : Decision (params_ok p).
Proof. unfold params_ok. apply _. Defined.

Lemma validEncode_spec p : validEncode p = if decide (params_ok p) then Ok tt else Err invalidMaterial.
Proof.
  unfold validEncode, params_ok, minTime, maxTime, minMemoryKiB, maxMemoryKiB, minThreads, maxThreads, minSaltLen, minKeyLen.
  case_decide as H.
  - rewrite !(proj2 (orb_false_iff _ _)) by (split; lia). done.
  - repeat (match goal with |- context [if ?b then _ else _] => destruct b eqn:? end; [done|]). bool_hyps. lia.
Qed.

Lemma field_cost k n rest mem time threads :
  is_u32 n -> equals ∉ k ->
  cost_loop ((k ++ equals :: FormatDecimal n) :: rest) mem time threads =
  if bytes_eqb k (octets_of "m") then
    if bool_decide (is_Some mem) || (n <? minMemoryKiB) || (maxMemoryKiB <? n) then Err invalidMaterial
    else cost_loop rest (Some (to_u32 n)) time threads
  else if bytes_eqb k (octets_of "t") then
    if bool_decide (is_Some time) || (n <? minTime) || (maxTime <? n) then Err invalidMaterial
    else cost_loop rest mem (Some (to_u32 n)) threads
  else if bytes_eqb k (octets_of "p") then
    if bool_decide (is_Some threads) || (n <? minThreads) || (maxThreads <? n) then Err invalidMaterial
    else cost_loop rest mem time (Some (to_u8 n))
  else Err invalidMaterial.
Proof. intros Hn Hk. simpl. by rewrite Cut_app, ParseUint_Format by done. Qed.

Lemma decimal_no_sep sep n : is_digit sep = false -> is_u32 n -> sep ∉ FormatDecimal n.
Proof. intros Hs Hn. apply digits_no_sep; [done|]. by apply FormatDecimal_spec. Qed.

Lemma parseCost_text p : params_typed p -> params_ok p -> parseCost (cost_text p) = Ok (p_Memory p, p_Time p, p_Threads p).
Proof.
  intros (Ht & Hm & Hp & _) (Bt & Bm & Bp & _). unfold is_u8, is_u32 in *. unfold parseCost, cost_text.
  replace (octets_of "m=" ++ FormatDecimal (p_Memory p) ++ octets_of ",t=" ++ FormatDecimal (p_Time p) ++ octets_of ",p="
    ++ FormatDecimal (p_Threads p)) with
    (Join comma [[109] ++ equals :: FormatDecimal (p_Memory p); [116] ++ equals :: FormatDecimal (p_Time p);
                 [112] ++ equals :: FormatDecimal (p_Threads p)]) by reflexivity.
  rewrite Split_Join; [|done|].
  - rewrite !field_cost by (unfold is_u32; (lia || set_solver)).
    unfold minMemoryKiB, maxMemoryKiB, minTime, maxTime, minThreads, maxThreads.
    change (bytes_eqb [109] (octets_of "m")) with true. change (bytes_eqb [116] (octets_of "m")) with false.
    change (bytes_eqb [116] (octets_of "t")) with true. change (bytes_eqb [112] (octets_of "m")) with false.
    change (bytes_eqb [112] (octets_of "t")) with false. change (bytes_eqb [112] (octets_of "p")) with true.
    rewrite !bool_decide_false by (by intros [? [=] ]). rewrite !(proj2 (orb_false_iff _ _)) by (split; [simpl|]; lia).
    simpl. rewrite !to_u32_id, to_u8_id by (unfold is_u8, is_u32; lia). done.
  - do 3 (apply List.Forall_cons; [apply not_elem_of_app; split; [set_solver|];
      apply not_elem_of_cons; split; [done|apply decimal_no_sep; [done|unfold is_u32; lia] ]|]). apply List.Forall_nil.
Qed.

Lemma dollar_free s : forallb (fun c => negb (c =? dollar)) s = true -> dollar ∉ s.
Proof.
  intros H Hin. apply list_elem_of_In in Hin. pose proof (proj1 (List.forallb_forall _ s) H _ Hin) as Hd.
  discriminate Hd.
Qed.

Lemma cost_text_dollar p : params_typed p -> dollar ∉ cost_text p.
Proof.
  intros (Ht & Hm & Hp & _). unfold cost_text. rewrite !not_elem_of_app. unfold is_u8 in Hp.
  repeat split; try (by apply dollar_free); apply decimal_no_sep; try done. unfold is_u32. lia.
Qed.

Lemma PHC_roundtrip p salt hash :
  params_typed p -> params_ok p -> Forall is_u8 salt -> Forall is_u8 hash -> minSaltLen <= len salt -> minKeyLen <= len hash ->
  parsePHC (encodePHC p salt hash) = Ok (mkPHC (p_Memory p) (p_Time p) (p_Threads p) salt hash).
Proof.
  intros Ht Hp Hs Hh Ls Lh. unfold parsePHC.
  replace (encodePHC p salt hash) with
    (Join dollar [[]; argon2id_name; argon2_v19; cost_text p; RawStdEncode salt; RawStdEncode hash])
    by (unfold encodePHC; simpl; by rewrite <- ?app_assoc).
  rewrite Split_Join; [|done|].
  - change (negb (bytes_eqb [] []) || negb (bytes_eqb argon2id_name argon2id_name)) with false.
    change (negb (bytes_eqb argon2_v19 argon2_v19)) with false. cbv iota.
    rewrite parseCost_text, !RawStd_roundtrip by done. cbn [rbind].
    rewrite !(proj2 (Z.ltb_ge _ _)) by done. done.
  - repeat (apply List.Forall_cons; [first [by apply dollar_free|by apply cost_text_dollar|by apply RawStd_alphabet]|]).
    apply List.Forall_nil.
Qed.

(** ** The service *)

(** The record a verification may use: found by its canonical name, enabled,
    open to the client, and in its validity window. *)
Definition usable (precis : string -> option string) (s : Service) (now : Z) (userID canon : string) (rec : UserRecord) : Prop :=
  precis userID = Some canon /\ canon <> EmptyString /\ cs_store s canon = Some rec
  /\ cr_Enabled rec = true /\ cr_Restricted rec = false
  /\ (forall t, cr_ValidAfter rec = Some t -> t <= now) /\ (forall t, cr_ValidBefore rec = Some t -> now < t).

Definition present {p} (s : secret p) : Prop := v s <> [].

Lemma Empty_false {p} (s : secret p) : Empty s = false <-> present s.
Proof. unfold Empty, present. rewrite Z.eqb_neq, len_zero. done. Qed.

Lemma lift_Ok c : snd (lift c) = Ok tt <-> snd c = Ok tt.
Proof. unfold lift. destruct c as [w [ [] |e] ]; done. Qed.

Lemma lookup_spec precis s now userID rec :
  lookup precis s now userID = Ok rec <-> exists canon, usable precis s now userID canon rec.
Proof.
  unfold lookup, CanonicalUsername, usable. destruct (precis userID) as [canon|]; [|split; [done|by intros (? & [=] & _)] ].
  case_bool_decide as Hc; [split; [done|]; intros (? & [= <-] & ? & _); done|].
  destruct (cs_store s canon) as [rec'|] eqn:Es; [|split; [done|]; intros (? & [= <-] & _ & E & _); congruence].
  split.
  - intros H. exists canon. destruct (cr_Enabled rec') eqn:E1; [|done]. destruct (cr_Restricted rec') eqn:E2; [done|]. simpl in H.
    destruct (match cr_ValidAfter rec' with Some _ => _ | None => _ end) eqn:E3 in H; [done|].
    destruct (match cr_ValidBefore rec' with Some _ => _ | None => _ end) eqn:E4 in H; [done|]. injection H as <-.
    split; [done|]. split; [done|]. split; [done|]. split; [done|]. split; [done|].
    split; intros t Et; rewrite Et in *; [apply Z.ltb_ge; done|]. apply negb_false_iff, Z.ltb_lt in E4. done.
  - intros (canon' & [= <-] & _ & E & H1 & H2 & H3 & H4). rewrite Es in E. injection E as ->. rewrite H1, H2. simpl.
    destruct (cr_ValidAfter rec) as [t|]; [rewrite (proj2 (Z.ltb_ge now t)) by auto|];
      (destruct (cr_ValidBefore rec) as [u|]; [rewrite (proj2 (Z.ltb_lt now u)) by auto|]); done.
Qed.

Section ServiceFacts.
Context (IDKey : bytes -> bytes -> Z -> Z -> Z -> Z -> bytes) (md4 : bytes -> bytes) (precis : string -> option string).
#[local] Notation VerifyArgon2id' := (VerifyArgon2id IDKey).
#[local] Notation lookup' := (lookup precis).

Lemma CanonicalUsername_spec userID canon :
  CanonicalUsername precis userID = Ok canon <-> precis userID = Some canon /\ canon <> EmptyString.
Proof.
  unfold CanonicalUsername. destruct (precis userID) as [out|]; [|split; [done|by intros [ [=] _] ] ].
  case_bool_decide; split; try done; [intros [ [= ->] ?]; done|by intros [= ->]|by intros [ [= ->] _] ].
Qed.

Lemma VerifyArgon2id_spec enc password :
  snd (VerifyArgon2id' enc password) = Ok tt <->
  exists ph, parsePHC enc = Ok ph /\
    IDKey password (ph_salt ph) (ph_time ph) (ph_memory ph) (ph_threads ph) (to_u32 (len (ph_hash ph))) = ph_hash ph.
Proof.
  unfold VerifyArgon2id. destruct (parsePHC enc) as [ph|e]; [|split; [done|by intros (? & [=] & _)] ].
  rewrite answer_Ok, bytes_eqb_true. split; [by exists ph|]. by intros (? & [= <-] & ?).
Qed.

Lemma usable_lookup s now userID (P : UserRecord -> Prop) (Q : UserRecord -> Prop) :
  (exists canon rec, usable precis s now userID canon rec /\ P rec /\ Q rec) <->
  (exists rec, lookup' s now userID = Ok rec /\ P rec /\ Q rec).
Proof.
  split.
  - intros (canon & rec & Hu & HPQ). exists rec. split; [apply lookup_spec; by exists canon|done].
  - intros (rec & Hl & HPQ). apply lookup_spec in Hl as [canon Hu]. by exists canon, rec.
Qed.

(** The shape of the two password verifications, by the verifier they read. *)
Definition password_check {p} (verifier : UserRecord -> secret p) (s : Service) (cx : CallContext) (now : Z) (userID : string)
  (password : bytes) : reply :=
  if cx_cancelled cx || negb (cx_kdf cx) then early CtxErr
  else
    match lookup' s now userID with
    | Err e => instead (VerifyArgon2id' (cs_dummyLogin s) password) e
    | Ok rec =>
      if Empty (verifier rec) then instead (VerifyArgon2id' (cs_dummyLogin s) password) unavailable
      else lift (VerifyArgon2id' (v (verifier rec)) password)
    end.

Lemma password_check_login s cx now userID password :
  VerifyASCIIOrPAP IDKey precis s cx now userID password = password_check cr_Login s cx now userID password.
Proof. unfold VerifyASCIIOrPAP, password_check. by destruct (cx_cancelled cx), (cx_kdf cx). Qed.
Lemma password_check_enable s cx now userID password :
  VerifyEnable IDKey precis s cx now userID password = password_check cr_Enable s cx now userID password.
Proof. unfold VerifyEnable, password_check. by destruct (cx_cancelled cx), (cx_kdf cx). Qed.

Lemma password_check_spec {p} (verifier : UserRecord -> secret p) s cx now userID password :
  snd (password_check verifier s cx now userID password) = Ok tt <->
  cx_cancelled cx = false /\ cx_kdf cx = true /\
  exists canon rec, usable precis s now userID canon rec /\ present (verifier rec)
    /\ snd (VerifyArgon2id' (v (verifier rec)) password) = Ok tt.
Proof.
  unfold password_check. destruct (cx_cancelled cx); [split; [done|by intros [? _] ]|].
  destruct (cx_kdf cx); simpl; [|split; [done|by intros (_ & ? & _)] ].
  assert ((exists canon rec, usable precis s now userID canon rec /\ present (verifier rec)
            /\ snd (VerifyArgon2id' (v (verifier rec)) password) = Ok tt)
    <-> exists rec, lookup' s now userID = Ok rec /\ present (verifier rec)
            /\ snd (VerifyArgon2id' (v (verifier rec)) password) = Ok tt) as ->.
  { apply usable_lookup. }
  destruct (lookup' s now userID) as [rec|e].
  - destruct (Empty (verifier rec)) eqn:Em.
    + split; [done|]. intros (_ & _ & ? & [= <-] & Hp & _). apply Empty_false in Hp. congruence.
    + rewrite lift_Ok. apply Empty_false in Em. split; [intros H|by intros (_ & _ & ? & [= <-] & _ & ?)].
      split; [done|]. split; [done|]. by exists rec.
  - split; [done|]. intros (_ & _ & ? & [=] & _).
Qed.

Lemma password_accepted {p} (verifier : UserRecord -> secret p) s cx now userID password :
  snd (password_check verifier s cx now userID password) = Ok tt <->
  cx_cancelled cx = false /\ cx_kdf cx = true /\ exists canon rec ph,
    usable precis s now userID canon rec /\ present (verifier rec) /\ parsePHC (v (verifier rec)) = Ok ph /\
    IDKey password (ph_salt ph) (ph_time ph) (ph_memory ph) (ph_threads ph) (to_u32 (len (ph_hash ph))) = ph_hash ph.
Proof.
  rewrite password_check_spec. split.
  - intros (H1 & H2 & canon & rec & Hu & Hp & Hv). apply VerifyArgon2id_spec in Hv as (ph & ? & ?).
    split; [done|]. split; [done|]. by exists canon, rec, ph.
  - intros (H1 & H2 & canon & rec & ph & Hu & Hp & Hv). split; [done|]. split; [done|].
    exists canon, rec. split; [done|]. split; [done|]. apply VerifyArgon2id_spec. by exists ph.
Qed.

(** The shape of the three challenge verifications: [refused] is what the wire
    alone decides, [check] runs on a secret and a name. *)
Definition challenge_check (refused : option AuthError) (check : bytes -> bytes -> checked) (s : Service) (cx : CallContext)
  (now : Z) (userID : string) : reply :=
  if cx_cancelled cx then early CtxErr
  else
    match refused with
    | Some e => early (Auth e)
    | None =>
      match lookup' s now userID with
      | Err e => instead (check (cs_dummyChal s) (octets_of "x")) e
      | Ok rec =>
        let name := octets_of (default EmptyString (precis userID)) in
        if Empty (cr_Challenge rec) then instead (check (cs_dummyChal s) name) unavailable
        else lift (check (v (cr_Challenge rec)) name)
      end
    end.

Definition chap_refused (s : Service) (challenge response : bytes) : option AuthError :=
  if (len challenge <? cs_minCHAP s) || negb (len response =? CHAPResponseLen) then Some malformed else None.
Definition v1_refused (challenge response : bytes) : option AuthError :=
  if negb (len challenge =? MSCHAPv1ChallengeLen) || negb (len response =? MSCHAPResponseLen) then Some malformed else None.
Definition v2_refused (challenge response : bytes) : option AuthError :=
  if decide (v2_wire challenge response) then None else Some malformed.

Lemma challenge_check_chap s cx now userID id challenge response :
  VerifyCHAP precis s cx now userID id challenge response
  = challenge_check (chap_refused s challenge response) (fun sec _ => verifyCHAP id sec challenge response (cs_minCHAP s)) s cx now userID.
Proof. unfold VerifyCHAP, challenge_check, chap_refused. by destruct (cx_cancelled cx); [|case_match]. Qed.

Lemma challenge_check_v1 s cx now userID id challenge response :
  VerifyMSCHAPv1 md4 precis s cx now userID id challenge response
  = challenge_check (v1_refused challenge response) (fun sec _ => verifyMSCHAPv1 md4 sec challenge response) s cx now userID.
Proof. unfold VerifyMSCHAPv1, challenge_check, v1_refused. by destruct (cx_cancelled cx); [|case_match]. Qed.

Lemma challenge_check_v2 s cx now userID id challenge response :
  VerifyMSCHAPv2 md4 precis s cx now userID id challenge response
  = challenge_check (v2_refused challenge response) (fun sec name => verifyMSCHAPv2 md4 sec name challenge response) s cx now userID.
Proof.
  unfold VerifyMSCHAPv2, challenge_check, v2_refused. destruct (cx_cancelled cx); [done|].
  rewrite mschapv2WireOK_spec. case_decide; [|done].
  destruct (lookup' s now userID) as [rec|e] eqn:El; [|by destruct (CanonicalUsername precis userID)].
  apply lookup_spec in El as (canon & Hp & Hn & _). rewrite (proj2 (CanonicalUsername_spec userID canon) (conj Hp Hn)).
  by rewrite Hp.
Qed.

Lemma challenge_check_spec refused check s cx now userID :
  snd (challenge_check refused check s cx now userID) = Ok tt <->
  cx_cancelled cx = false /\ refused = None /\
  exists canon rec, usable precis s now userID canon rec /\ present (cr_Challenge rec)
    /\ snd (check (v (cr_Challenge rec)) (octets_of canon)) = Ok tt.
Proof.
  unfold challenge_check. destruct (cx_cancelled cx); [split; [done|by intros [? _] ]|].
  destruct refused; [split; [done|by intros (_ & ? & _)]|].
  destruct (lookup' s now userID) as [rec|e] eqn:El.
  - pose proof (proj1 (lookup_spec _ _ _ _ _) El) as (canon & Hu). pose proof Hu as (Hp & _). rewrite Hp. simpl.
    destruct (Empty (cr_Challenge rec)) eqn:Em.
    + split; [done|]. intros (_ & _ & canon' & rec' & Hu' & Hpr & _). apply Empty_false in Hpr.
      rewrite (proj2 (lookup_spec _ _ _ _ _) (ex_intro _ canon' Hu')) in El. congruence.
    + rewrite lift_Ok. apply Empty_false in Em. split; [intros H; split; [done|]; split; [done|]; by exists canon, rec|].
      intros (_ & _ & canon' & rec' & Hu' & _ & H).
      rewrite (proj2 (lookup_spec _ _ _ _ _) (ex_intro _ canon' Hu')) in El. injection El as ->.
      destruct Hu' as (Hp' & _). congruence.
  - split; [done|]. intros (_ & _ & canon & rec & Hu & _).
    rewrite (proj2 (lookup_spec _ _ _ _ _) (ex_intro _ canon Hu)) in El. done.
Qed.
End ServiceFacts.

(** ** What a verification gives away *)

Lemma chap_same_work id sec1 sec2 challenge response m :
  fst (verifyCHAP id sec1 challenge response m) = fst (verifyCHAP id sec2 challenge response m).
Proof. unfold verifyCHAP, answer. case_match; cbn [fst]; reflexivity. Qed.
Lemma v1_same_work md4 sec1 sec2 challenge response :
  fst (verifyMSCHAPv1 md4 sec1 challenge response) = fst (verifyMSCHAPv1 md4 sec2 challenge response).
Proof. unfold verifyMSCHAPv1, answer. case_match; [done|]. case_match; cbn [fst]; reflexivity. Qed.
Lemma v2_same_work md4 sec1 sec2 n1 n2 challenge response :
  fst (verifyMSCHAPv2 md4 sec1 n1 challenge response) = fst (verifyMSCHAPv2 md4 sec2 n2 challenge response).
Proof. unfold verifyMSCHAPv2, answer. case_match; cbn [fst]; reflexivity. Qed.

(** A check that the wire admits answers with yes or [KindWrong]. *)
Definition plain (c : checked) : Prop := snd c = Ok tt \/ snd c = Err (fail KindWrong).

Lemma answer_plain w b : plain (answer w b).
Proof. destruct b; [by left|by right]. Qed.
Lemma chap_plain s id sec challenge response :
  0 < cs_minCHAP s -> chap_refused s challenge response = None -> plain (verifyCHAP id sec challenge response (cs_minCHAP s)).
Proof.
  intros Hm. unfold chap_refused, verifyCHAP, min_challenge. rewrite (proj2 (Z.leb_gt _ _)) by done.
  case_match; [done|]. intros _. apply answer_plain.
Qed.
Lemma v1_plain md4 sec challenge response : v1_refused challenge response = None -> plain (verifyMSCHAPv1 md4 sec challenge response).
Proof. unfold v1_refused, verifyMSCHAPv1. case_match; [done|]. intros _. case_match; apply answer_plain. Qed.
Lemma v2_plain md4 sec name challenge response :
  v2_refused challenge response = None -> plain (verifyMSCHAPv2 md4 sec name challenge response).
Proof.
  unfold v2_refused, verifyMSCHAPv2. rewrite mschapv2WireOK_spec. case_decide; [|done]. intros _. apply answer_plain.
Qed.

(** Two answers an observer cannot tell apart by time or by protocol error:
    the same work, and malformed together or not at all; every other refusal
    has the same text. *)
Definition failed (r : reply) : Prop := exists e, snd r = Err (Auth e) /\ ae_err e = ErrFailed.
Definition alike (r1 r2 : reply) : Prop :=
  fst r1 = fst r2 /\ (snd r1 = Err (Auth malformed) <-> snd r2 = Err (Auth malformed))
  /\ forall r, r = r1 \/ r = r2 -> snd r = Ok tt \/ snd r = Err CtxErr \/ snd r = Err (Auth malformed) \/ failed r.

Lemma lift_plain c : plain c -> snd (lift c) = Ok tt \/ failed (lift c).
Proof. unfold failed, lift. intros [-> | ->]; [by left|right]. simpl. by exists (fail KindWrong). Qed.

Lemma failed_not_malformed r : failed r -> snd r <> Err (Auth malformed).
Proof. intros (e & -> & He) [= ->]. done. Qed.

Lemma lookup_error precis s now userID e : lookup precis s now userID = Err e -> ae_err e = ErrFailed.
Proof. unfold lookup. repeat case_match; by intros [= <-]. Qed.

Lemma alike_answers r1 r2 :
  fst r1 = fst r2 -> snd r1 = Ok tt \/ failed r1 -> snd r2 = Ok tt \/ failed r2 -> alike r1 r2.
Proof.
  intros Hf H1 H2. split; [done|]. split; [|intros r [-> | ->]; tauto].
  pose proof (failed_not_malformed r1). pose proof (failed_not_malformed r2).
  split; intros E; [destruct H1 as [H1|H1]|destruct H2 as [H2|H2] ]; (congruence || tauto).
Qed.

Section Oracle.
Context (precis : string -> option string).

Lemma challenge_check_cases refused check s cx now userID :
  (forall sec name, refused = None -> plain (check sec name)) ->
  let r := challenge_check precis refused check s cx now userID in
  if cx_cancelled cx then r = early CtxErr
  else match refused with Some e => r = early (Auth e) | None => (snd r = Ok tt \/ failed r) /\ exists sec name, fst r = fst (check sec name) end.
Proof.
  intros Hp. unfold challenge_check. destruct (cx_cancelled cx); [done|]. destruct refused as [e|]; [done|]. cbv zeta.
  destruct (lookup precis s now userID) as [rec|e] eqn:El.
  - destruct (Empty _); [split; [right; by exists unavailable|by do 2 eexists]|].
    split; [apply lift_plain, Hp; done|by do 2 eexists].
  - split; [right; exists e; split; [done|by eapply lookup_error]|by do 2 eexists].
Qed.

Lemma challenge_check_alike refused check s1 s2 cx now1 now2 u1 u2 :
  (forall e, refused = Some e -> e = malformed) ->
  (forall sec name, refused = None -> plain (check sec name)) ->
  (forall sec1 sec2 n1 n2, fst (check sec1 n1) = fst (check sec2 n2)) ->
  alike (challenge_check precis refused check s1 cx now1 u1) (challenge_check precis refused check s2 cx now2 u2).
Proof.
  intros Hr Hp Hw. pose proof (challenge_check_cases refused check s1 cx now1 u1 Hp) as H1.
  pose proof (challenge_check_cases refused check s2 cx now2 u2 Hp) as H2. cbv zeta in H1, H2.
  set (r1 := challenge_check _ _ _ s1 _ _ _) in *. set (r2 := challenge_check _ _ _ s2 _ _ _) in *. clearbody r1 r2.
  destruct (cx_cancelled cx); [subst; split; [done|]; split; [done|]; intros r [-> | ->]; by right; left|].
  destruct refused as [e|].
  - rewrite (Hr e eq_refl) in *. subst. split; [done|]. split; [done|]. intros r [-> | ->]; by right; right; left.
  - destruct H1 as (O1 & c1 & n1 & W1), H2 as (O2 & c2 & n2 & W2). apply alike_answers; [rewrite W1, W2; apply Hw|done..].
Qed.

Context (IDKey : bytes -> bytes -> Z -> Z -> Z -> Z -> bytes).

(** The stored verifiers were made with the cost of the stand-in's. *)
Definition cost_of (ph : parsedPHC) : list work := [WorkArgon2 (ph_time ph) (ph_memory ph) (ph_threads ph) (to_u32 (len (ph_hash ph)))].
Definition uniform_cost {p} (verifier : UserRecord -> secret p) (s : Service) : Prop :=
  exists dummy, parsePHC (cs_dummyLogin s) = Ok dummy /\
  forall canon rec, cs_store s canon = Some rec -> present (verifier rec) ->
    exists ph, parsePHC (v (verifier rec)) = Ok ph /\ cost_of ph = cost_of dummy.

Lemma argon2_work enc ph password : parsePHC enc = Ok ph -> fst (VerifyArgon2id IDKey enc password) = cost_of ph.
Proof. unfold VerifyArgon2id. by intros ->. Qed.
Lemma argon2_plain enc ph password : parsePHC enc = Ok ph -> plain (VerifyArgon2id IDKey enc password).
Proof. unfold VerifyArgon2id. intros ->. apply answer_plain. Qed.

Lemma password_check_cases {p} (verifier : UserRecord -> secret p) s cx now userID password dummy :
  parsePHC (cs_dummyLogin s) = Ok dummy -> uniform_cost verifier s ->
  let r := password_check IDKey precis verifier s cx now userID password in
  if cx_cancelled cx || negb (cx_kdf cx) then r = early CtxErr else (snd r = Ok tt \/ failed r) /\ fst r = cost_of dummy.
Proof.
  intros Hd (d & Hd' & Hu). rewrite Hd in Hd'. injection Hd' as <-. unfold password_check. case_match; [done|]. cbv zeta.
  destruct (lookup precis s now userID) as [rec|e] eqn:El.
  - destruct (Empty (verifier rec)) eqn:Em.
    + split; [right; by exists unavailable|by apply argon2_work].
    + apply Empty_false in Em. apply lookup_spec in El as (canon & _ & _ & Hs & _). destruct (Hu _ _ Hs Em) as (ph & Hp & Hc).
      split; [apply lift_plain; by eapply argon2_plain|]. rewrite <- Hc. by apply argon2_work.
  - split; [right; exists e; split; [done|by eapply lookup_error]|by apply argon2_work].
Qed.

Lemma password_check_alike {p} (verifier : UserRecord -> secret p) s1 s2 cx now1 now2 u1 u2 password :
  cs_dummyLogin s1 = cs_dummyLogin s2 -> uniform_cost verifier s1 -> uniform_cost verifier s2 ->
  alike (password_check IDKey precis verifier s1 cx now1 u1 password) (password_check IDKey precis verifier s2 cx now2 u2 password).
Proof.
  intros Hd (d & Hd1 & H1') H2'. assert (uniform_cost verifier s1) as H1 by by exists d.
  pose proof Hd1 as Hd2. rewrite Hd in Hd2.
  pose proof (password_check_cases verifier s1 cx now1 u1 password d Hd1 H1) as R1.
  pose proof (password_check_cases verifier s2 cx now2 u2 password d Hd2 H2') as R2. cbv zeta in R1, R2.
  set (r1 := password_check _ _ _ s1 _ _ _ _) in *. set (r2 := password_check _ _ _ s2 _ _ _ _) in *. clearbody r1 r2.
  destruct (_ || _); [subst; split; [done|]; split; [done|]; intros r [-> | ->]; by right; left|].
  destruct R1 as [O1 W1], R2 as [O2 W2]. apply alike_answers; congruence || done.
Qed.
End Oracle.

(** ** Properties *)

Section Derivation.
Context (IDKey : bytes -> bytes -> Z -> Z -> Z -> Z -> bytes) (precis : string -> option string).

(** Argon2id returns as many octets as it is asked for. *)
Definition IDKey_shape : Prop :=
  forall password salt t m p n, 0 <= n -> len (IDKey password salt t m p n) = n /\ Forall is_u8 (IDKey password salt t m p n).

Lemma NewService_minCHAP store params minCHAP entropy s rest :
  NewService IDKey store params minCHAP entropy = Ok (s, rest) -> 0 < cs_minCHAP s.
Proof.
  unfold NewService. destruct store; [|done]. repeat case_match; try done. intros [= <- _]. simpl. unfold min_challenge.
  case_match; [done|]. lia.
Qed.

Lemma DeriveArgon2id_Ok password p entropy enc rest :
  DeriveArgon2id IDKey password p (Some entropy) = Ok (enc, rest) <->
  params_ok p /\ p_SaltLen p <= len entropy /\ rest = drop (Z.to_nat (p_SaltLen p)) entropy /\
  enc = encodePHC p (take (Z.to_nat (p_SaltLen p)) entropy)
          (IDKey password (take (Z.to_nat (p_SaltLen p)) entropy) (p_Time p) (p_Memory p) (p_Threads p) (p_KeyLen p)).
Proof.
  unfold DeriveArgon2id, ReadFull. rewrite validEncode_spec. case_decide; [|split; [done|tauto]].
  destruct (Z.leb_spec (p_SaltLen p) (len entropy)); [|split; [done|lia]].
  split; [intros [= <- <-]; done|]. by intros (_ & _ & -> & ->).
Qed.

(** The verifier that was derived, seen by a verification. *)
Lemma derived_verifies p salt hash other :
  params_typed p -> params_ok p -> Forall is_u8 salt -> len salt = p_SaltLen p -> Forall is_u8 hash -> len hash = p_KeyLen p ->
  ValidatePHC (encodePHC p salt hash) = Ok tt /\
  VerifyArgon2id IDKey (encodePHC p salt hash) other =
    answer (WorkArgon2 (p_Time p) (p_Memory p) (p_Threads p) (p_KeyLen p))
      (bytes_eqb (IDKey other salt (p_Time p) (p_Memory p) (p_Threads p) (p_KeyLen p)) hash).
Proof.
  intros Ht Hp Hs Ls Hh Lh. pose proof Ht as (_ & _ & _ & _ & Hk). pose proof Hp as (_ & _ & _ & Bs & Bk).
  assert (parsePHC (encodePHC p salt hash) = Ok (mkPHC (p_Memory p) (p_Time p) (p_Threads p) salt hash)) as E.
  { apply PHC_roundtrip; try done; unfold minSaltLen, minKeyLen; lia. }
  unfold ValidatePHC, VerifyArgon2id. rewrite E. simpl. rewrite Lh, to_u32_id by done. done.
Qed.

(** A derived verifier is the PHC text of its salt, cost and hash: the
    derivation succeeds exactly on accepted costs with enough entropy; its text
    parses back; it verifies exactly the passwords of the same Argon2id hash,
    the one it was made from among them, at that cost.  A changed password
    needs the old one, and its verifier is accepted for the new one wherever
    the user's record is usable. *)
Lemma derive_then_verify (Hk : IDKey_shape) (p : Argon2Params) (Hp : params_typed p) (password entropy : bytes) (Hen : Forall is_u8 entropy) :
  (is_ok (DeriveArgon2id IDKey password p (Some entropy)) = true <-> params_ok p /\ p_SaltLen p <= len entropy)
  /\ (forall enc rest, DeriveArgon2id IDKey password p (Some entropy) = Ok (enc, rest) ->
      exists salt, entropy = salt ++ rest /\ len salt = p_SaltLen p
        /\ ValidatePHC enc = Ok tt
        /\ (forall other, VerifyArgon2id IDKey enc other =
              answer (WorkArgon2 (p_Time p) (p_Memory p) (p_Threads p) (p_KeyLen p))
                (bytes_eqb (IDKey other salt (p_Time p) (p_Memory p) (p_Threads p) (p_KeyLen p))
                           (IDKey password salt (p_Time p) (p_Memory p) (p_Threads p) (p_KeyLen p))))
        /\ snd (VerifyArgon2id IDKey enc password) = Ok tt)
  /\ (forall s cx now userID old enc rest, cs_params s = p ->
      ChangeASCIIPassword IDKey precis s cx now userID old password entropy = Ok (enc, rest) ->
      password <> [] /\ snd (VerifyASCIIOrPAP IDKey precis s cx now userID old) = Ok tt
      /\ forall st canon rec now', usable precis (WithStore s (Some st)) now' userID canon rec -> v (cr_Login rec) = enc ->
         snd (VerifyASCIIOrPAP IDKey precis (WithStore s (Some st)) cx now' userID password) = Ok tt).
Proof.
  assert (forall enc rest, DeriveArgon2id IDKey password p (Some entropy) = Ok (enc, rest) ->
      exists salt, entropy = salt ++ rest /\ len salt = p_SaltLen p
        /\ ValidatePHC enc = Ok tt
        /\ (forall other, VerifyArgon2id IDKey enc other =
              answer (WorkArgon2 (p_Time p) (p_Memory p) (p_Threads p) (p_KeyLen p))
                (bytes_eqb (IDKey other salt (p_Time p) (p_Memory p) (p_Threads p) (p_KeyLen p))
                           (IDKey password salt (p_Time p) (p_Memory p) (p_Threads p) (p_KeyLen p))))
        /\ snd (VerifyArgon2id IDKey enc password) = Ok tt) as Hd.
  { intros enc rest (Hok & Hl & -> & ->)%DeriveArgon2id_Ok. pose proof Hp as (_ & _ & _ & Hsl & Hkl). unfold is_u32 in *.
    exists (take (Z.to_nat (p_SaltLen p)) entropy). split; [by rewrite take_drop|].
    assert (len (take (Z.to_nat (p_SaltLen p)) entropy) = p_SaltLen p) as Hs by (rewrite len_take; lia). split; [done|].
    set (salt := take _ entropy) in *.
    destruct (Hk password salt (p_Time p) (p_Memory p) (p_Threads p) (p_KeyLen p)) as [Lh Hh]; [lia|].
    assert (Forall is_u8 salt) as Hsu by by apply Forall_take.
    pose proof (fun other => derived_verifies p salt _ other Hp Hok Hsu Hs Hh Lh) as Hv.
    split; [apply (Hv password)|]. split; [intros other; apply Hv|]. rewrite (proj2 (Hv password)).
    by apply answer_Ok, bytes_eqb_true. }
  split; [|split; [exact Hd|]].
  - unfold DeriveArgon2id, ReadFull. rewrite validEncode_spec. case_decide; [|split; [done|tauto]].
    destruct (Z.leb_spec (p_SaltLen p) (len entropy)); split; (done || lia || tauto).
  - intros s cx now userID old enc rest Hs. unfold ChangeASCIIPassword.
    destruct (cx_cancelled cx) eqn:Ec; [done|]. destruct (Z.eqb_spec (len password) 0) as [|Hn]; [done|].
    destruct (snd (VerifyASCIIOrPAP _ _ _ _ _ _ _)) as [ []|] eqn:Eo; [|done]. unfold DeriveLoginVerifier, derive.
    rewrite Ec. destruct (cx_kdf cx) eqn:Ek; simpl; [|done]. rewrite Hs.
    destruct (DeriveArgon2id _ _ _ _) as [ [enc' rest']|] eqn:Ed; [|done]. intros [= <- <-].
    destruct (Hd _ _ eq_refl) as (_ & _ & _ & _ & _ & Hv). split; [by intros ->|]. split; [done|].
    intros st canon rec now' Hu Hr. rewrite password_check_login. apply password_check_spec.
    split; [done|]. split; [done|]. exists canon, rec. split; [done|].
    split; [|unfold Bytes, newSecret in Hr; simpl in Hr; by rewrite Hr].
    unfold present. rewrite Hr. apply DeriveArgon2id_Ok in Ed as (_ & _ & _ & ->). done.
Qed.
End Derivation.

Section Properties.
Context (IDKey : bytes -> bytes -> Z -> Z -> Z -> Z -> bytes) (md4 : bytes -> bytes) (precis : string -> option string).

(** C34. A credential is accepted exactly when the call is live and the user
    is found by the canonical name, enabled, open to the client and in the
    validity window, and has the material of that method, and it matches: the
    Argon2id hash of the login (or, for ENABLE, the distinct enable) verifier
    with the salt and cost of its own text; the challenge response for CHAP,
    MS-CHAP and MS-CHAPv2, which also mixes in the canonical name.  No method
    falls back on another's material. *)
Theorem credential_accepted (s : Service) (cx : CallContext) (now : Z) (userID : string) :
  (forall password, snd (VerifyASCIIOrPAP IDKey precis s cx now userID password) = Ok tt <->
     cx_cancelled cx = false /\ cx_kdf cx = true /\ exists canon rec ph,
       usable precis s now userID canon rec /\ present (cr_Login rec) /\ parsePHC (v (cr_Login rec)) = Ok ph /\
       IDKey password (ph_salt ph) (ph_time ph) (ph_memory ph) (ph_threads ph) (to_u32 (len (ph_hash ph))) = ph_hash ph)
  /\ (forall password, snd (VerifyEnable IDKey precis s cx now userID password) = Ok tt <->
     cx_cancelled cx = false /\ cx_kdf cx = true /\ exists canon rec ph,
       usable precis s now userID canon rec /\ present (cr_Enable rec) /\ parsePHC (v (cr_Enable rec)) = Ok ph /\
       IDKey password (ph_salt ph) (ph_time ph) (ph_memory ph) (ph_threads ph) (to_u32 (len (ph_hash ph))) = ph_hash ph)
  /\ (forall id challenge response, snd (VerifyCHAP precis s cx now userID id challenge response) = Ok tt <->
     cx_cancelled cx = false /\ cs_minCHAP s <= len challenge /\ exists canon rec,
       usable precis s now userID canon rec /\ present (cr_Challenge rec) /\
       snd (verifyCHAP id (v (cr_Challenge rec)) challenge response (cs_minCHAP s)) = Ok tt)
  /\ (forall id challenge response, snd (VerifyMSCHAPv1 md4 precis s cx now userID id challenge response) = Ok tt <->
     cx_cancelled cx = false /\ exists canon rec,
       usable precis s now userID canon rec /\ present (cr_Challenge rec) /\
       snd (verifyMSCHAPv1 md4 (v (cr_Challenge rec)) challenge response) = Ok tt)
  /\ (forall id challenge response, snd (VerifyMSCHAPv2 md4 precis s cx now userID id challenge response) = Ok tt <->
     cx_cancelled cx = false /\ exists canon rec,
       usable precis s now userID canon rec /\ present (cr_Challenge rec) /\
       snd (verifyMSCHAPv2 md4 (v (cr_Challenge rec)) (octets_of canon) challenge response) = Ok tt).
Proof.
  split; [intros; rewrite password_check_login; apply password_accepted|].
  split; [intros; rewrite password_check_enable; apply password_accepted|].
  split; [|split]; intros id challenge response.
  - rewrite challenge_check_chap, challenge_check_spec. apply and_iff_compat_l. split.
    + intros (Hr & canon & rec & H). split; [|by exists canon, rec]. unfold chap_refused in Hr.
      destruct (Z.ltb_spec (len challenge) (cs_minCHAP s)); [done|lia].
    + intros (Hm & canon & rec & Hu & Hp & Hc). split; [|by exists canon, rec]. apply verifyCHAP_spec in Hc as [_ ->].
      unfold chap_refused. rewrite len_md5, (proj2 (Z.ltb_ge _ _)) by done. done.
  - rewrite challenge_check_v1, challenge_check_spec. apply and_iff_compat_l. split; [by intros [_ ?]|].
    intros (canon & rec & Hu & Hp & Hc). split; [|by exists canon, rec]. unfold v1_refused. unfold verifyMSCHAPv1 in Hc.
    by case_match.
  - rewrite challenge_check_v2, challenge_check_spec. apply and_iff_compat_l. split; [by intros [_ ?]|].
    intros (canon & rec & Hu & Hp & Hc). split; [|by exists canon, rec]. unfold v2_refused. unfold verifyMSCHAPv2 in Hc.
    rewrite mschapv2WireOK_spec in Hc. by case_decide.
Qed.

End Properties.

(** ** Concrete instances *)

(** A stand-in for Argon2id and for PRECIS (lower-case ASCII is its own
    canonical form). *)
Definition IDKey_sample (password salt : bytes) (t m p n : Z) : bytes :=
  map to_u8 (copy_bytes (make_bytes n) (password ++ [t; m; p] ++ salt)).
Definition precis_sample (s : string) : option string := if bool_decide (ToLower s = s) then Some s else None.

Lemma IDKey_sample_shape : IDKey_shape IDKey_sample.
Proof.
  intros password salt t m p n Hn. unfold IDKey_sample. split.
  - unfold len. rewrite length_map. pose proof (len_copy_bytes (make_bytes n) (password ++ [t; m; p] ++ salt)) as H.
    rewrite len_make_bytes in H by done. exact H.
  - apply List.Forall_map, List.Forall_forall. intros x _. apply to_u8_range.
Qed.

Definition TestParams := mkParams 1 8 1 16 32.
Definition sample_entropy : bytes := map Z.of_nat (seq 1 48).
Definition hunter2 : bytes := octets_of "hunter2".
Definition sample_phc : bytes :=
  match DeriveArgon2id IDKey_sample hunter2 TestParams (Some sample_entropy) with Ok (enc, _) => enc | Err _ => [] end.
Definition alice : UserRecord :=
  mkUserRecord "alice" true false (newSecret sample_phc) (newSecret hunter2) (newSecret []) None (Some 100) false false.
Definition sample_store : Memory := Put NewMemory alice.
Definition sample_service : option Service :=
  match NewService IDKey_sample (Some (Lookup sample_store)) (Some TestParams) 0 sample_entropy with
  | Ok (s, _) => Some s | Err _ => None
  end.
Definition live_call := mkCallContext false true.

(** The text of the verifier of "hunter2". *)
Example sample_phc_text :
  text_of sample_phc = "$argon2id$v=19$m=8,t=1,p=1$AQIDBAUGBwgJCgsMDQ4PEA$aHVudGVyMgEIAQECAwQFBgcICQoLDA0ODxAAAAAAAAA"%string.
Proof. vm_compute. reflexivity. Qed.

(** Alice's password, before and after her window closes; ENABLE does not fall
    back on it; nobody answers for an unknown user. *)
Example sample_verifications :
  option_map (fun s => (snd (VerifyASCIIOrPAP IDKey_sample precis_sample s live_call 99 "alice" hunter2),
                        snd (VerifyASCIIOrPAP IDKey_sample precis_sample s live_call 100 "alice" hunter2),
                        snd (VerifyEnable IDKey_sample precis_sample s live_call 99 "alice" hunter2),
                        snd (VerifyASCIIOrPAP IDKey_sample precis_sample s live_call 99 "mallory" hunter2))) sample_service
  = Some (Ok tt, Err (Auth (fail KindExpired)), Err (Auth unavailable), Err (Auth (fail KindUnknown))).
Proof. vm_compute. reflexivity. Qed.

