(* ===== verification/Domain.v ===== *)
(** * Domain vocabulary

    [internal/domain/enums.go], [aaa_neutral.go] and [protocol.go]: the closed
    sets of TACACS+ codes and of names, with their text.  A code is the octet
    the wire carries, so an unknown one is a value like any other.  A Go
    [switch] over constants is a table. *)

From stdpp Require Import strings.
From S2P Require Import Prelude Text.

#[local] Open Scope Z_scope.

(** ** Codes (enums.go) *)

Definition AuthenTypeASCII := 1.
Definition AuthenTypePAP := 2.
Definition AuthenTypeCHAP := 3.
Definition AuthenTypeARAP := 4.
Definition AuthenTypeMSCHAP := 5.
Definition AuthenTypeMSCHAPV2 := 6.
Definition AuthenType_Valid (v : Z) : bool := existsb (Z.eqb v) [AuthenTypeASCII; AuthenTypePAP; AuthenTypeCHAP; AuthenTypeARAP; AuthenTypeMSCHAP; AuthenTypeMSCHAPV2].
Definition AuthenType_names : list (Z * string) :=
  [(AuthenTypeASCII, "ascii");
   (AuthenTypePAP, "pap");
   (AuthenTypeCHAP, "chap");
   (AuthenTypeARAP, "arap");
   (AuthenTypeMSCHAP, "mschap");
   (AuthenTypeMSCHAPV2, "mschapv2")]%string.
Definition AuthenType_String (v : Z) : string := default "" (switch_code v AuthenType_names).
Definition ParseAuthenType (s : string) : option Z :=
  switch_name (ToLower s)
    [("ascii", AuthenTypeASCII);
     ("pap", AuthenTypePAP);
     ("chap", AuthenTypeCHAP);
     ("arap", AuthenTypeARAP);
     ("mschap", AuthenTypeMSCHAP);
     ("mschapv1", AuthenTypeMSCHAP);
     ("mschapv2", AuthenTypeMSCHAPV2)]%string.

Definition AuthenMethodNotSet := 0.
Definition AuthenMethodNone := 1.
Definition AuthenMethodKRB5 := 2.
Definition AuthenMethodLine := 3.
Definition AuthenMethodEnable := 4.
Definition AuthenMethodLocal := 5.
Definition AuthenMethodTACACS := 6.
Definition AuthenMethodGuest := 8.
Definition AuthenMethodRADIUS := 16.
Definition AuthenMethodKRB4 := 17.
Definition AuthenMethodRCMD := 32.
Definition AuthenMethod_Valid (v : Z) : bool := existsb (Z.eqb v) [AuthenMethodNotSet; AuthenMethodNone; AuthenMethodKRB5; AuthenMethodLine; AuthenMethodEnable; AuthenMethodLocal; AuthenMethodTACACS; AuthenMethodGuest; AuthenMethodRADIUS; AuthenMethodKRB4; AuthenMethodRCMD].
Definition AuthenMethod_names : list (Z * string) :=
  [(AuthenMethodNotSet, "not_set");
   (AuthenMethodNone, "none");
   (AuthenMethodKRB5, "krb5");
   (AuthenMethodLine, "line");
   (AuthenMethodEnable, "enable");
   (AuthenMethodLocal, "local");
   (AuthenMethodTACACS, "tacacs");
   (AuthenMethodGuest, "guest");
   (AuthenMethodRADIUS, "radius");
   (AuthenMethodKRB4, "krb4");
   (AuthenMethodRCMD, "rcmd")]%string.
Definition AuthenMethod_String (v : Z) : string := default "" (switch_code v AuthenMethod_names).
Definition ParseAuthenMethod (s : string) : option Z :=
  switch_name (ToLower s)
    [("not_set", AuthenMethodNotSet);
     ("none", AuthenMethodNone);
     ("krb5", AuthenMethodKRB5);
     ("line", AuthenMethodLine);
     ("enable", AuthenMethodEnable);
     ("local", AuthenMethodLocal);
     ("tacacs", AuthenMethodTACACS);
     ("tacacs+", AuthenMethodTACACS);
     ("guest", AuthenMethodGuest);
     ("radius", AuthenMethodRADIUS);
     ("krb4", AuthenMethodKRB4);
     ("rcmd", AuthenMethodRCMD)]%string.

Definition AuthenServiceNone := 0.
Definition AuthenServiceLogin := 1.
Definition AuthenServiceEnable := 2.
Definition AuthenServicePPP := 3.
Definition AuthenServiceARAP := 4.
Definition AuthenServicePT := 5.
Definition AuthenServiceRCMD := 6.
Definition AuthenServiceX25 := 7.
Definition AuthenServiceNASI := 8.
Definition AuthenServiceFWProxy := 9.
Definition AuthenService_Valid (v : Z) : bool := existsb (Z.eqb v) [AuthenServiceNone; AuthenServiceLogin; AuthenServiceEnable; AuthenServicePPP; AuthenServiceARAP; AuthenServicePT; AuthenServiceRCMD; AuthenServiceX25; AuthenServiceNASI; AuthenServiceFWProxy].
Definition AuthenService_names : list (Z * string) :=
  [(AuthenServiceNone, "none");
   (AuthenServiceLogin, "login");
   (AuthenServiceEnable, "enable");
   (AuthenServicePPP, "ppp");
   (AuthenServiceARAP, "arap");
   (AuthenServicePT, "pt");
   (AuthenServiceRCMD, "rcmd");
   (AuthenServiceX25, "x25");
   (AuthenServiceNASI, "nasi");
   (AuthenServiceFWProxy, "fwproxy")]%string.
Definition AuthenService_String (v : Z) : string := default "" (switch_code v AuthenService_names).
Definition ParseAuthenService (s : string) : option Z :=
  switch_name (ToLower s)
    [("none", AuthenServiceNone);
     ("login", AuthenServiceLogin);
     ("enable", AuthenServiceEnable);
     ("ppp", AuthenServicePPP);
     ("arap", AuthenServiceARAP);
     ("pt", AuthenServicePT);
     ("rcmd", AuthenServiceRCMD);
     ("x25", AuthenServiceX25);
     ("nasi", AuthenServiceNASI);
     ("fwproxy", AuthenServiceFWProxy)]%string.

Definition AuthenActionLogin := 1.
Definition AuthenActionCHPASS := 2.
Definition AuthenActionSendPass := 3.
Definition AuthenActionSendAuth := 4.
Definition AuthenAction_Valid (v : Z) : bool := existsb (Z.eqb v) [AuthenActionLogin; AuthenActionCHPASS; AuthenActionSendPass; AuthenActionSendAuth].
Definition AuthenAction_names : list (Z * string) :=
  [(AuthenActionLogin, "login");
   (AuthenActionCHPASS, "chpass");
   (AuthenActionSendPass, "sendpass");
   (AuthenActionSendAuth, "sendauth")]%string.
Definition AuthenAction_String (v : Z) : string := default "" (switch_code v AuthenAction_names).
Definition ParseAuthenAction (s : string) : option Z :=
  switch_name (ToLower s)
    [("login", AuthenActionLogin);
     ("chpass", AuthenActionCHPASS);
     ("sendpass", AuthenActionSendPass);
     ("sendauth", AuthenActionSendAuth)]%string.

Definition AuthenStatusPass := 1.
Definition AuthenStatusFail := 2.
Definition AuthenStatusGetData := 3.
Definition AuthenStatusGetUser := 4.
Definition AuthenStatusGetPass := 5.
Definition AuthenStatusRestart := 6.
Definition AuthenStatusError := 7.
Definition AuthenStatusFollow := 33.
Definition AuthenStatus_Valid (v : Z) : bool := existsb (Z.eqb v) [AuthenStatusPass; AuthenStatusFail; AuthenStatusGetData; AuthenStatusGetUser; AuthenStatusGetPass; AuthenStatusRestart; AuthenStatusError; AuthenStatusFollow].
Definition AuthenStatus_names : list (Z * string) :=
  [(AuthenStatusPass, "pass");
   (AuthenStatusFail, "fail");
   (AuthenStatusGetData, "getdata");
   (AuthenStatusGetUser, "getuser");
   (AuthenStatusGetPass, "getpass");
   (AuthenStatusRestart, "restart");
   (AuthenStatusError, "error");
   (AuthenStatusFollow, "follow")]%string.
Definition AuthenStatus_String (v : Z) : string := default "" (switch_code v AuthenStatus_names).
Definition ParseAuthenStatus (s : string) : option Z :=
  switch_name (ToLower s)
    [("pass", AuthenStatusPass);
     ("fail", AuthenStatusFail);
     ("getdata", AuthenStatusGetData);
     ("getuser", AuthenStatusGetUser);
     ("getpass", AuthenStatusGetPass);
     ("restart", AuthenStatusRestart);
     ("error", AuthenStatusError);
     ("follow", AuthenStatusFollow)]%string.

Definition AcctFlagStart := 2.
Definition AcctFlagStop := 4.
Definition AcctFlagWatchdog := 8.
Definition AcctFlagsWatchdogUpdate := 10.
Definition AcctFlags_Valid (v : Z) : bool := existsb (Z.eqb v) [AcctFlagStart; AcctFlagStop; AcctFlagWatchdog; AcctFlagsWatchdogUpdate].
Definition AcctFlags_names : list (Z * string) :=
  [(AcctFlagStart, "start");
   (AcctFlagStop, "stop");
   (AcctFlagWatchdog, "watchdog");
   (AcctFlagsWatchdogUpdate, "watchdog_update")]%string.
Definition AcctFlags_String (v : Z) : string := default "" (switch_code v AcctFlags_names).
Definition ParseAcctFlags (s : string) : option Z :=
  switch_name (ToLower s)
    [("start", AcctFlagStart);
     ("stop", AcctFlagStop);
     ("watchdog", AcctFlagWatchdog);
     ("watchdog_update", AcctFlagsWatchdogUpdate)]%string.

Definition AcctStatusSuccess := 1.
Definition AcctStatusError := 2.
Definition AcctStatusFollow := 33.
Definition AcctStatus_Valid (v : Z) : bool := existsb (Z.eqb v) [AcctStatusSuccess; AcctStatusError; AcctStatusFollow].
Definition AcctStatus_String (v : Z) : string :=
  default "" (switch_code v [(AcctStatusSuccess, "success"); (AcctStatusError, "error"); (AcctStatusFollow, "follow")]%string).

Definition PacketAuthen := 1.
Definition PacketAuthor := 2.
Definition PacketAcct := 3.
Definition PacketFamily_Valid (v : Z) : bool := existsb (Z.eqb v) [PacketAuthen; PacketAuthor; PacketAcct].
Definition PacketFamily_String (v : Z) : string :=
  default "" (switch_code v [(PacketAuthen, "authen"); (PacketAuthor, "author"); (PacketAcct, "acct")]%string).

Definition PrivilegeMin := 0.
Definition PrivilegeMax := 15.
Definition PrivilegeLevel_Valid (p : Z) : bool := p <=? PrivilegeMax.
Definition ParsePrivilegeLevel (v : Z) : option Z :=
  if (v <? PrivilegeMin) || (v >? PrivilegeMax) then None else Some v.
(** ** Names: string types with a closed set of values *)

Definition one_of (l : list string) (s : string) : bool := existsb (fun n => bool_decide (s = n)) l.
(** [p := T(strings.ToLower(s)); if !p.Valid() { return error }] *)
Definition parse_name (valid : string -> bool) (s : string) : option string :=
  let p := ToLower s in if valid p then Some p else None.

Definition RuleKind_Valid : string -> bool := one_of ["service"; "command"]%string.
Definition ParseRuleKind : string -> option string := parse_name RuleKind_Valid.
Definition AuthorDecision_Valid : string -> bool := one_of ["permit_add"; "permit_replace"; "deny"]%string.
Definition ParseAuthorDecision : string -> option string := parse_name AuthorDecision_Valid.
Definition TransportLegacy : string := "legacy".
Definition TransportTLS : string := "tls".
Definition Transport_Valid : string -> bool := one_of [TransportLegacy; TransportTLS].
Definition ParseTransport : string -> option string := parse_name Transport_Valid.
Definition MatchAddressAndCertificate : string := "address_and_certificate".
Definition MatchCertificateOnly : string := "certificate_only".
Definition MatchMode_Valid : string -> bool := one_of [MatchAddressAndCertificate; MatchCertificateOnly].
Definition ParseMatchMode : string -> option string := parse_name MatchMode_Valid.

(** aaa_neutral.go *)
Definition AuthMethodPassword : string := "password".
Definition AuthMethodCHAP : string := "chap".
Definition AuthMethodMSCHAPv1 : string := "mschapv1".
Definition AuthMethodMSCHAPv2 : string := "mschapv2".
Definition AuthMethodEAP : string := "eap".
Definition AuthMethod_Valid : string -> bool :=
  one_of [AuthMethodPassword; AuthMethodCHAP; AuthMethodMSCHAPv1; AuthMethodMSCHAPv2; AuthMethodEAP].
Definition ParseAuthMethod (s : string) : option string :=
  switch_name (ToLower s)
    [("password", AuthMethodPassword); ("pap", AuthMethodPassword); ("chap", AuthMethodCHAP);
     ("mschapv1", AuthMethodMSCHAPv1); ("mschapv2", AuthMethodMSCHAPv2); ("eap", AuthMethodEAP)]%string.
Definition EffectPermit : string := "permit".
Definition EffectDeny : string := "deny".
Definition EffectError : string := "error".
Definition Effect_Valid : string -> bool := one_of [EffectPermit; EffectDeny; EffectError].
Definition ParseEffect : string -> option string := parse_name Effect_Valid.
Definition AuthOutcome_Valid : string -> bool := one_of ["pass"; "reject"; "challenge"; "error"]%string.
Definition ParseAuthOutcome : string -> option string := parse_name AuthOutcome_Valid.

(** protocol.go *)
Definition ProtocolTACACS : string := "tacacs".
Definition ProtocolRADIUS : string := "radius".
Definition ProtocolHTTP : string := "http".
Definition Protocol_Valid : string -> bool := one_of [ProtocolTACACS; ProtocolRADIUS; ProtocolHTTP].
Definition ParseProtocol : string -> option string := parse_name Protocol_Valid.
Definition RoleAuthentication : string := "authentication".
Definition RoleAuthorization : string := "authorization".
Definition RoleAccounting : string := "accounting".
Definition RoleAccess : string := "access".
Definition RoleAdmin : string := "admin".
Definition RoleAAA : string := "aaa".
Definition RoleDynamicAuthorization : string := "dynamic_authorization".
Definition ListenerRole_Valid : string -> bool :=
  one_of [RoleAuthentication; RoleAuthorization; RoleAccounting; RoleAccess; RoleAdmin; RoleAAA; RoleDynamicAuthorization].
Definition ParseListenerRole : string -> option string := parse_name ListenerRole_Valid.
Definition CarrierTACACSLegacyTCP : string := "tacacs_legacy_tcp".
Definition CarrierTACACSTLS : string := "tacacs_tls".
Definition CarrierRADIUSUDP : string := "radius_udp".
Definition CarrierHTTPTCP : string := "http_tcp".
Definition CarrierRADIUSTLS : string := "radius_tls".
Definition Carrier_Valid : string -> bool :=
  one_of [CarrierTACACSLegacyTCP; CarrierTACACSTLS; CarrierRADIUSUDP; CarrierHTTPTCP; CarrierRADIUSTLS].
Definition ParseCarrier : string -> option string := parse_name Carrier_Valid.

(** ** The closed sets are closed *)

Lemma one_of_spec l s : one_of l s = true <-> s ∈ l.
Proof.
  unfold one_of. rewrite existsb_exists. split.
  - intros (n & Hin & Hs). apply bool_decide_eq_true in Hs. subst. by apply list_elem_of_In.
  - intros Hin. exists s. split; [by apply list_elem_of_In|]. by apply bool_decide_eq_true.
Qed.

(** A code type's names: what is valid, printed and parsed back. *)
Definition code_names (valid : Z -> bool) (str : Z -> string) (parse : string -> option Z) : Prop :=
  (forall v, valid v = true -> parse (str v) = Some v)
  /\ (forall v, valid v = false -> str v = "" /\ parse (str v) = None)
  /\ (forall s v, parse s = Some v -> valid v = true)
  /\ (forall a b, valid a = true -> valid b = true -> str a = str b -> a = b).

Definition table_ok (vals : list Z) (names : list (Z * string)) (table : list (string * Z)) : bool :=
  forallb (fun v => match switch_code v names with
                    | Some n => bool_decide (switch_name (ToLower n) table = Some v) | None => false end) vals
  && forallb (fun vn => existsb (Z.eqb vn.1) vals) names
  && forallb (fun nv => existsb (Z.eqb nv.2) vals) table
  && bool_decide (switch_name (ToLower "") table = None).

Lemma code_names_table vals names table :
  table_ok vals names table = true ->
  code_names (fun v => existsb (Z.eqb v) vals) (fun v => default "" (switch_code v names)) (fun s => switch_name (ToLower s) table).
Proof.
  unfold table_ok. intros H. apply andb_true_iff in H as [H H4]. apply andb_true_iff in H as [H H3].
  apply andb_true_iff in H as [H1 H2]. apply bool_decide_eq_true in H4. rewrite forallb_forall in H1, H2, H3.
  assert (forall v, existsb (Z.eqb v) vals = true -> exists n, switch_code v names = Some n /\ switch_name (ToLower n) table = Some v) as Hv.
  { intros v Hv. apply existsb_exists in Hv as (x & Hx & ->%Z.eqb_eq). specialize (H1 _ Hx).
    destruct (switch_code x names) as [n|]; [|done]. apply bool_decide_eq_true in H1. by exists n. }
  unfold code_names. split_and!.
  - intros v Hin. by destruct (Hv v Hin) as (n & -> & ?).
  - intros v Hin. destruct (switch_code v names) as [n|] eqn:Hn; [|done]. exfalso.
    apply switch_code_in, list_elem_of_In in Hn. specialize (H2 _ Hn). simpl in H2. congruence.
  - intros s v Hs. apply switch_name_in, list_elem_of_In in Hs. by apply (H3 _ Hs).
  - intros a b Ha Hb. destruct (Hv a Ha) as (n & -> & Hpa), (Hv b Hb) as (m & -> & Hpb). simpl. intros ->. congruence.
Qed.

(** A parsed name is one of the set, and the set's names parse to themselves. *)
Lemma parse_name_closed valid s p : parse_name valid s = Some p -> valid p = true /\ p = ToLower s.
Proof. unfold parse_name. destruct (valid (ToLower s)) eqn:E; [|done]. by intros [= <-]. Qed.

(** Every closed set of codes and of names: a valid value prints as a name
    that parses back to it, no two values share a name, an unknown value has
    no name, and parsing (which ignores case) yields valid values only. *)
Theorem domain_names_closed :
  code_names AuthenType_Valid AuthenType_String ParseAuthenType
  /\ code_names AuthenMethod_Valid AuthenMethod_String ParseAuthenMethod
  /\ code_names AuthenService_Valid AuthenService_String ParseAuthenService
  /\ code_names AuthenAction_Valid AuthenAction_String ParseAuthenAction
  /\ code_names AuthenStatus_Valid AuthenStatus_String ParseAuthenStatus
  /\ code_names AcctFlags_Valid AcctFlags_String ParseAcctFlags
  /\ (forall s m, ParseAuthMethod s = Some m -> AuthMethod_Valid m = true)
  /\ forall valid, valid ∈ [RuleKind_Valid; AuthorDecision_Valid; Transport_Valid; MatchMode_Valid; Effect_Valid;
                           AuthOutcome_Valid; Protocol_Valid; ListenerRole_Valid; Carrier_Valid] ->
     (forall s p, parse_name valid s = Some p -> valid p = true)
     /\ forall p, valid p = true -> parse_name valid p = Some p.
Proof.
  split_and!; try (apply code_names_table; vm_compute; reflexivity).
  - intros s m Hm. apply switch_name_in in Hm. repeat (apply elem_of_cons in Hm as [ [= _ ->]|Hm]; [reflexivity|]).
    by apply not_elem_of_nil in Hm.
  - intros valid Hv. split; [intros s p Hp; by apply parse_name_closed in Hp as [? _]|]. intros p Hp.
    assert (ToLower p = p) as Hl; [|unfold parse_name; by rewrite Hl, Hp].
    repeat (apply elem_of_cons in Hv as [->|Hv];
      [apply one_of_spec in Hp; repeat (apply elem_of_cons in Hp as [->|Hp]; [reflexivity|]); by apply not_elem_of_nil in Hp|]).
    by apply not_elem_of_nil in Hv.
Qed.
