(* ===== verification/SessionIndex.v ===== *)
(** * RADIUS runtime: the CoA session index

    [internal/radius/runtime/session_index.go] and [ulid.go]: the table of live
    accounting sessions, found by accounting identity and by opaque handle.
    Methods hold the index's mutex and are one step each.  Records behind
    pointers are owned by the index (callers get clones), so a record is a
    value here.  A method that the code makes panic on a nil pointer is
    [None]; [session_index_refines] shows that this never happens.  Times are
    nanoseconds since the Unix epoch. *)

From stdpp Require Import gmap sorting strings.
From S2P Require Import Prelude StableSort BoundedStore.

#[local] Open Scope Z_scope.

(** ** ULIDs (ulid.go) *)

Definition crockford : bytes :=
  (* 0123456789ABCDEFGHJKMNPQRSTVWXYZ *)
  [48; 49; 50; 51; 52; 53; 54; 55; 56; 57; 65; 66; 67; 68; 69; 70; 71; 72; 74; 75; 77; 78; 80; 81; 82;
   83; 84; 86; 87; 88; 89; 90].

(** [for nbits < 5 && si < len(src)] *)
Fixpoint refill (acc nbits : Z) (src : bytes) : Z * Z * bytes :=
  match src with
  | b :: src' => if nbits <? 5 then refill (Z.lor (Z.shiftl acc 8) b) (nbits + 8) src' else (acc, nbits, src)
  | [] => (acc, nbits, [])
  end.

(** [n] characters are left to write. *)
Fixpoint encodeCrockford (n : nat) (acc nbits : Z) (src : bytes) : bytes :=
  match n with
  | O => []
  | S n =>
    let '(acc, nbits, src) := refill acc nbits src in
    let '(acc, nbits) := if nbits <? 5 then (Z.shiftl acc (5 - nbits), 5) else (acc, nbits) in
    let shift := nbits - 5 in
    index crockford (Z.land (Z.shiftr acc shift) 31)
      :: encodeCrockford n (Z.land acc (Z.shiftl 1 shift - 1)) shift src
  end.

Definition ulid_time (now : Z) : bytes :=
  let ms := (now / 1000000) mod 18446744073709551616 in
  map (fun k => to_u8 (Z.shiftr ms k)) [40; 32; 24; 16; 8; 0].

(** [entropy] is what [io.ReadFull(r, raw[6:])] reads. *)
Definition newULID (now : Z) (entropy : bytes) : bytes :=
  encodeCrockford 10 0 0 (ulid_time now) ++ encodeCrockford 16 0 0 entropy.

(** ** The table *)

Definition EventStart : string := "start".
Definition EventStop : string := "stop".
Definition EventInterim : string := "interim_update".
Definition EventOn : string := "accounting_on".
Definition EventOff : string := "accounting_off".

Record SessionKey := mkSessionKey { sk_EndpointID : bytes; sk_AcctSessionID : bytes }.

#[export] Instance SessionKey_eq_dec : EqDecision SessionKey.
Proof. solve_decision. Defined.
#[export] Instance SessionKey_countable : Countable SessionKey.
Proof.
  refine (inj_countable' (fun k => (sk_EndpointID k, sk_AcctSessionID k)) (fun '(a, b) => mkSessionKey a b) _).
  by intros [].
Defined.

(** A [netip.Addr] is its octets; the zero [Addr] is [None]. *)
Definition Addr := option bytes.
Record AddrPort := mkAddrPort { ap_Addr : Addr; ap_Port : Z }.

Definition addr_valid (a : Addr) : bool := match a with Some _ => true | None => false end.
Definition addrport_valid (p : AddrPort) : bool := addr_valid (ap_Addr p).

Record LastCoA := mkLastCoA {
  lc_SessionTimeout : option Z;
  lc_IdleTimeout : option Z;
  lc_ReplyMessage : list bytes;
}.

(** The zero [time.Time] is [None]. *)
Record SessionRecord := mkSessionRecord {
  sr_Key : SessionKey;
  sr_Handle : bytes;
  sr_ClientID : bytes;
  sr_EndpointID : bytes;
  sr_UserID : bytes;
  sr_NASIP : Addr;
  sr_NASIdentifier : bytes;
  sr_NASPort : Z;
  sr_Peer : AddrPort;
  sr_Class : bytes;
  sr_StartedAt : option Z;
  sr_LastUpdate : Z;
  sr_Revision : Z;
  sr_LastCoA : LastCoA;
}.

Record DASQuery := mkDASQuery {
  dq_ClientID : bytes;
  dq_SessionID : bytes;
  dq_UserID : bytes;
  dq_NASIP : Addr;
  dq_NASIdentifier : bytes;
}.

Record AcctEvent := mkAcctEvent {
  ae_Kind : string;
  ae_EndpointID : bytes;
  ae_ClientID : bytes;
  ae_UserID : bytes;
  ae_SessionID : bytes;
  ae_NASIP : Addr;
  ae_NASIdentifier : bytes;
  ae_NASPort : Z;
  ae_Peer : AddrPort;
  ae_Class : bytes;
  ae_StartedAt : option Z;
  ae_Revision : Z;
}.

Record indexConf := mkIndexConf { ic_maxEntries : Z; ic_maxBytes : Z; ic_ttl : Z }.

Record SessionIndex := mkSessionIndex {
  ix_conf : indexConf;
  ix_byKey : gmap SessionKey bytes;
  ix_byHandle : gmap bytes SessionRecord;
  ix_bytes : Z;
}.

Definition NewSessionIndex (entries bytes ttl : Z) : option SessionIndex :=
  if (entries <=? 0) || (bytes <=? 0) || (ttl <=? 0) then None
  else Some (mkSessionIndex (mkIndexConf entries bytes ttl) ∅ ∅ 0).

Definition record_size (r : SessionRecord) : Z :=
  let n := 192 in
  let n := n + len (sk_EndpointID (sr_Key r)) + len (sk_AcctSessionID (sr_Key r)) in
  let n := n + len (sr_Handle r) + len (sr_ClientID r) + len (sr_UserID r) + len (sr_NASIdentifier r) in
  let n := n + len (sr_Class r) in
  fold_left (fun n s => n + len s) (lc_ReplyMessage (sr_LastCoA r)) n.

Definition acct_key (ev : AcctEvent) : SessionKey := mkSessionKey (ae_EndpointID ev) (ae_SessionID ev).

(** [&SessionRecord{Handle: "", Key: key}] *)
Definition blank_record (key : SessionKey) : SessionRecord :=
  mkSessionRecord key [] [] [] [] None [] 0 (mkAddrPort None 0) [] None 0 0 (mkLastCoA None None []).

Definition fill (r : SessionRecord) (ev : AcctEvent) (now : Z) : SessionRecord :=
  mkSessionRecord (acct_key ev) (sr_Handle r) (ae_ClientID ev) (ae_EndpointID ev) (ae_UserID ev) (ae_NASIP ev)
    (ae_NASIdentifier ev) (ae_NASPort ev) (ae_Peer ev) (ae_Class ev)
    (match ae_StartedAt ev with
     | Some t => Some t
     | None => match sr_StartedAt r with Some t => Some t | None => Some now end
     end)
    now (ae_Revision ev) (sr_LastCoA r).

Definition with_Handle (r : SessionRecord) (h : bytes) : SessionRecord :=
  mkSessionRecord (sr_Key r) h (sr_ClientID r) (sr_EndpointID r) (sr_UserID r) (sr_NASIP r) (sr_NASIdentifier r)
    (sr_NASPort r) (sr_Peer r) (sr_Class r) (sr_StartedAt r) (sr_LastUpdate r) (sr_Revision r) (sr_LastCoA r).

Definition deleteKeyLocked (idx : SessionIndex) (key : SessionKey) : SessionIndex :=
  if len (sk_AcctSessionID key) =? 0 then idx else
  match ix_byKey idx !! key with
  | None => idx
  | Some handle =>
    let used := match ix_byHandle idx !! handle with
                | Some r => ix_bytes idx - record_size r
                | None => ix_bytes idx
                end in
    mkSessionIndex (ix_conf idx) (delete key (ix_byKey idx)) (delete handle (ix_byHandle idx)) used
  end.

(** [now.Sub(rec.LastUpdate) >= idx.ttl] *)
Definition idle (ttl now : Z) (r : SessionRecord) : bool := ttl <=? now - sr_LastUpdate r.

(** Keys are collected in some order of the map, then deleted. *)
Definition expireLocked (idx : SessionIndex) (now : Z) : SessionIndex :=
  let drop := map sr_Key (filter (fun r => idle (ic_ttl (ix_conf idx)) now r = true) (map snd (map_to_list (ix_byHandle idx)))) in
  fold_left deleteKeyLocked drop idx.

Definition matchesFlush (r : SessionRecord) (peerIP nasIP : Addr) (nasID : bytes) : bool :=
  if addr_valid peerIP && addrport_valid (sr_Peer r) && bool_decide (ap_Addr (sr_Peer r) = peerIP) then true
  else if addr_valid nasIP && addr_valid (sr_NASIP r) && bool_decide (sr_NASIP r = nasIP) then true
  else if (0 <? len nasID) && bytes_eqb (sr_NASIdentifier r) nasID then true
  else false.

Definition flushLocked (idx : SessionIndex) (ev : AcctEvent) : SessionIndex :=
  let peerIP := ap_Addr (ae_Peer ev) in
  let drops '(key, handle) :=
    if negb (bytes_eqb (sk_EndpointID key) (ae_EndpointID ev)) then false
    else match ix_byHandle idx !! handle with
         | None => true
         | Some r => matchesFlush r peerIP (ae_NASIP ev) (ae_NASIdentifier ev)
         end in
  let drop := map fst (filter (fun kh => drops kh = true) (map_to_list (ix_byKey idx))) in
  fold_left deleteKeyLocked drop idx.

(** [entropy i] is the [i]th read of this call: [None] when it fails. *)
Fixpoint uniqueHandle (tries : nat) (i : nat) (idx : SessionIndex) (now : Z) (entropy : nat -> option bytes)
  : option bytes :=
  match tries with
  | O => None
  | S tries =>
    match entropy i with
    | None => None
    | Some e =>
      let h := newULID now e in
      match ix_byHandle idx !! h with
      | None => Some h
      | Some _ => uniqueHandle tries (S i) idx now entropy
      end
    end
  end.

Definition insertLocked (idx : SessionIndex) (ev : AcctEvent) (now : Z) (entropy : nat -> option bytes)
  : option (SessionIndex * bool) :=
  if len (ae_SessionID ev) =? 0 then Some (idx, true) else
  let key := acct_key ev in
  match ix_byKey idx !! key with
  | Some handle =>
    match ix_byHandle idx !! handle with
    | None => None
    | Some r =>
      let used := ix_bytes idx - record_size r in
      let r := with_Handle (fill r ev now) handle in
      Some (mkSessionIndex (ix_conf idx) (ix_byKey idx) (<[handle := r]> (ix_byHandle idx)) (used + record_size r), true)
    end
  | None =>
    let r := fill (blank_record key) ev now in
    let n := record_size r in
    if (Z.of_nat (size (ix_byHandle idx)) >=? ic_maxEntries (ix_conf idx)) || (ix_bytes idx + n >? ic_maxBytes (ix_conf idx))
    then Some (idx, false)
    else match uniqueHandle 8 0 idx now entropy with
    | None => Some (idx, false)
    | Some handle =>
      let r := with_Handle r handle in
      Some (mkSessionIndex (ix_conf idx) (<[key := handle]> (ix_byKey idx)) (<[handle := r]> (ix_byHandle idx))
              (ix_bytes idx + record_size r), true)
    end
  end.

(** The fields of an interim update that are present replace the record's. *)
Definition merge (r : SessionRecord) (ev : AcctEvent) (now : Z) : SessionRecord :=
  mkSessionRecord (sr_Key r) (sr_Handle r) (sr_ClientID r) (sr_EndpointID r)
    (if negb (len (ae_UserID ev) =? 0) then ae_UserID ev else sr_UserID r)
    (if addr_valid (ae_NASIP ev) then ae_NASIP ev else sr_NASIP r)
    (if negb (len (ae_NASIdentifier ev) =? 0) then ae_NASIdentifier ev else sr_NASIdentifier r)
    (if negb (ae_NASPort ev =? 0) then ae_NASPort ev else sr_NASPort r)
    (if addrport_valid (ae_Peer ev) then ae_Peer ev else sr_Peer r)
    (if len (ae_Class ev) >? 0 then ae_Class ev else sr_Class r)
    (sr_StartedAt r) now
    (if negb (ae_Revision ev =? 0) then ae_Revision ev else sr_Revision r)
    (sr_LastCoA r).

Definition updateLocked (idx : SessionIndex) (ev : AcctEvent) (now : Z) : option SessionIndex :=
  if len (ae_SessionID ev) =? 0 then Some idx else
  match ix_byKey idx !! acct_key ev with
  | None => Some idx
  | Some handle =>
    match ix_byHandle idx !! handle with
    | None => None
    | Some r =>
      let used := ix_bytes idx - record_size r in
      let r := merge r ev now in
      Some (mkSessionIndex (ix_conf idx) (ix_byKey idx) (<[handle := r]> (ix_byHandle idx)) (used + record_size r))
    end
  end.

(** [Apply] reads the clock for the expiry and again for the update. *)
Definition Apply (idx : SessionIndex) (ev : AcctEvent) (now now' : Z) (entropy : nat -> option bytes)
  : option (SessionIndex * bool) :=
  let idx := expireLocked idx now in
  let kind_is k := bool_decide (ae_Kind ev = k) in
  if kind_is EventStart then insertLocked idx ev now' entropy
  else if kind_is EventInterim then (fun idx => (idx, true)) <$> updateLocked idx ev now'
  else if kind_is EventStop then Some (deleteKeyLocked idx (acct_key ev), true)
  else if kind_is EventOn || kind_is EventOff then Some (flushLocked idx ev, true)
  else Some (idx, true).

Definition LookupHandle (idx : SessionIndex) (handle : bytes) (now : Z) : SessionIndex * option SessionRecord :=
  if len handle =? 0 then (idx, None) else
  let idx := expireLocked idx now in (idx, ix_byHandle idx !! handle).

Definition LookupKey (idx : SessionIndex) (key : SessionKey) (now : Z) : SessionIndex * option SessionRecord :=
  if len (sk_AcctSessionID key) =? 0 then (idx, None) else
  let idx := expireLocked idx now in
  (idx, match ix_byKey idx !! key with Some h => ix_byHandle idx !! h | None => None end).

(** Go's [<] on strings, on octets. *)
Fixpoint bytes_ltb (a b : bytes) : bool :=
  match a, b with
  | _, [] => false
  | [], _ :: _ => true
  | x :: a, y :: b => if x =? y then bytes_ltb a b else x <? y
  end.

Definition List_ (idx : SessionIndex) (cursor : bytes) (limit : Z) (now : Z) : SessionIndex * list SessionRecord :=
  let limit := if limit <=? 0 then 100 else limit in
  let idx := expireLocked idx now in
  let handles := filter (fun h => bytes_ltb cursor h = true) (map fst (map_to_list (ix_byHandle idx))) in
  let handles := SliceStable bytes_ltb handles in
  let handles := if len handles >? limit then slice handles 0 limit else handles in
  (idx, omap (fun h => ix_byHandle idx !! h) handles).

Definition Len (idx : SessionIndex) (now : Z) : SessionIndex * Z :=
  let idx := expireLocked idx now in (idx, Z.of_nat (size (ix_byHandle idx))).

(** The body of [FindDAS]'s loop. *)
Definition das_hit (q : DASQuery) (r : SessionRecord) : bool :=
  if negb (len (dq_ClientID q) =? 0) && negb (bytes_eqb (sr_ClientID r) (dq_ClientID q)) then false
  else if negb (len (dq_SessionID q) =? 0) && negb (bytes_eqb (sk_AcctSessionID (sr_Key r)) (dq_SessionID q)) then false
  else if negb (len (dq_UserID q) =? 0) && negb (bytes_eqb (sr_UserID r) (dq_UserID q)) then false
  else if addr_valid (dq_NASIP q) && negb (bool_decide (sr_NASIP r = dq_NASIP q)) then false
  else if negb (len (dq_NASIdentifier q) =? 0) && negb (bytes_eqb (sr_NASIdentifier r) (dq_NASIdentifier q)) then false
  else true.

Definition FindDAS (idx : SessionIndex) (q : DASQuery) (now : Z) : SessionIndex * (option SessionRecord * Z) :=
  let idx := expireLocked idx now in
  let hits := filter (fun r => das_hit q r = true) (map snd (map_to_list (ix_byHandle idx))) in
  (idx, match hits with [r] => (Some r, 1) | _ => (None, len hits) end).

Definition with_LastCoA (r : SessionRecord) (attrs : LastCoA) (now : Z) : SessionRecord :=
  mkSessionRecord (sr_Key r) (sr_Handle r) (sr_ClientID r) (sr_EndpointID r) (sr_UserID r) (sr_NASIP r)
    (sr_NASIdentifier r) (sr_NASPort r) (sr_Peer r) (sr_Class r) (sr_StartedAt r) now (sr_Revision r) attrs.

Definition StoreLastCoA (idx : SessionIndex) (key : SessionKey) (attrs : LastCoA) (now now' : Z)
  : SessionIndex * bool :=
  if len (sk_AcctSessionID key) =? 0 then (idx, false) else
  let idx := expireLocked idx now in
  match ix_byKey idx !! key with
  | None => (idx, false)
  | Some handle =>
    match ix_byHandle idx !! handle with
    | None => (idx, false)
    | Some r =>
      let used := ix_bytes idx - record_size r in
      let r := with_LastCoA r attrs now' in
      (mkSessionIndex (ix_conf idx) (ix_byKey idx) (<[handle := r]> (ix_byHandle idx)) (used + record_size r), true)
    end
  end.

Definition Delete (idx : SessionIndex) (key : SessionKey) (now : Z) : SessionIndex * bool :=
  if len (sk_AcctSessionID key) =? 0 then (idx, false) else
  let idx := expireLocked idx now in
  match ix_byKey idx !! key with
  | None => (idx, false)
  | Some _ => (deleteKeyLocked idx key, true)
  end.

Definition Reset (idx : SessionIndex) : SessionIndex := mkSessionIndex (ix_conf idx) ∅ ∅ 0.

(** ** ULIDs *)

(** The number a list of digits writes in base [b], most significant first. *)
Definition digits_value (b : Z) (ds : list Z) : Z := fold_left (fun v d => b * v + d) ds 0.

Lemma digits_value_from b ds v : fold_left (fun v d => b * v + d) ds v = v * b ^ len ds + digits_value b ds.
Proof.
  unfold digits_value. revert v. induction ds as [|d ds IH]; intros v; simpl.
  - change (len (@nil Z)) with 0. lia.
  - rewrite (IH (b * v + d)), (IH (b * 0 + d)), len_cons, Z.pow_add_r by (pose proof (len_nonneg ds); lia). lia.
Qed.

Lemma digits_value_cons b d ds : digits_value b (d :: ds) = d * b ^ len ds + digits_value b ds.
Proof. unfold digits_value at 1. simpl. by rewrite digits_value_from, Z.mul_0_r, Z.add_0_l. Qed.

Lemma digits_value_range ds : Forall is_u8 ds -> 0 <= digits_value 256 ds < 2 ^ (8 * len ds).
Proof.
  rewrite (Z.pow_mul_r 2 8) by (pose proof (len_nonneg ds); lia). change (2 ^ 8) with 256.
  induction 1 as [|d ds Hd Hds IH]; [by cbn|].
  rewrite digits_value_cons, len_cons, Z.pow_add_r by (pose proof (len_nonneg ds); lia). unfold is_u8 in Hd. nia.
Qed.

(** The five-bit groups before they are spelled. *)
Fixpoint groups (n : nat) (acc nbits : Z) (src : bytes) : list Z :=
  match n with
  | O => []
  | S n =>
    let '(acc, nbits, src) := refill acc nbits src in
    let '(acc, nbits) := if nbits <? 5 then (Z.shiftl acc (5 - nbits), 5) else (acc, nbits) in
    let shift := nbits - 5 in
    Z.land (Z.shiftr acc shift) 31 :: groups n (Z.land acc (Z.shiftl 1 shift - 1)) shift src
  end.

Lemma encodeCrockford_groups n acc nbits src :
  encodeCrockford n acc nbits src = map (index crockford) (groups n acc nbits src).
Proof.
  revert acc nbits src. induction n as [|n IH]; intros acc nbits src; simpl; [done|].
  destruct (refill acc nbits src) as [ [a b] s]. destruct (b <? 5); simpl; by rewrite IH.
Qed.

Lemma len_groups n acc nbits src : len (groups n acc nbits src) = Z.of_nat n.
Proof.
  revert acc nbits src. induction n as [|n IH]; intros acc nbits src; cbn [groups]; [done|].
  destruct (refill acc nbits src) as [ [a b] s]. destruct (b <? 5); rewrite len_cons, IH; lia.
Qed.

Lemma groups_range n acc nbits src : Forall (fun d => 0 <= d < 32) (groups n acc nbits src).
Proof.
  revert acc nbits src. induction n as [|n IH]; intros acc nbits src; simpl; [constructor|].
  destruct (refill acc nbits src) as [ [a b] s].
  destruct (b <? 5); constructor; try apply IH; change 31 with (Z.ones 5); rewrite Z.land_ones by lia;
    apply Z.mod_pos_bound; lia.
Qed.

(** The bits read and not written yet, as a number. *)
Definition pending_bits (acc : Z) (src : bytes) : Z := acc * 2 ^ (8 * len src) + digits_value 256 src.

Lemma refill_spec acc nbits src a b s :
  0 <= nbits < 8 -> 0 <= acc < 2 ^ nbits -> Forall is_u8 src -> refill acc nbits src = (a, b, s) ->
  0 <= b < 13 /\ 0 <= a < 2 ^ b /\ Forall is_u8 s /\ b + 8 * len s = nbits + 8 * len src
  /\ pending_bits a s = pending_bits acc src /\ (b < 5 -> s = []).
Proof.
  intros Hn Ha Hs. assert (nbits < 13) as Hn' by lia. destruct Hn as [Hn _].
  revert acc nbits Hn Hn' Ha. induction Hs as [|x src Hx Hs IH]; intros acc nbits Hn Hn' Ha; simpl.
  - intros [= <- <- <-]. split_and!; try done; lia.
  - destruct (Z.ltb_spec nbits 5) as [Hlt|Hge].
    + intros Hr. rewrite Z.lor_comm, lor_shiftl_add in Hr by (unfold is_u8 in Hx; lia).
      apply IH in Hr as (? & ? & ? & Hb & Hp & ?); [|lia|lia|].
      * rewrite len_cons. split_and!; try done; try lia. rewrite Hp. unfold pending_bits.
        rewrite digits_value_cons, len_cons.
        replace (8 * (1 + len src)) with (8 + 8 * len src) by lia.
        rewrite Z.pow_add_r by (pose proof (len_nonneg src); lia).
        rewrite (Z.pow_mul_r 2 8) by (pose proof (len_nonneg src); lia). change (2 ^ 8) with 256. lia.
      * unfold is_u8 in Hx. rewrite Z.pow_add_r by lia. change (2 ^ 8) with 256. nia.
    + intros [= <- <- <-]. split_and!; try done; try lia. by constructor.
Qed.

Lemma groups_value n acc nbits src :
  0 <= nbits < 8 -> 0 <= acc < 2 ^ nbits -> Forall is_u8 src -> nbits + 8 * len src <= 5 * Z.of_nat n ->
  digits_value 32 (groups n acc nbits src)
  = pending_bits acc src * 2 ^ (5 * Z.of_nat n - nbits - 8 * len src).
Proof.
  revert acc nbits src. induction n as [|n IH]; intros acc nbits src Hn Ha Hs Hl; cbn [groups].
  { pose proof (len_nonneg src). assert (len src = 0) as H0 by lia. apply len_zero in H0. subst src.
    assert (nbits = 0) as -> by lia. assert (acc = 0) as -> by lia. reflexivity. }
  destruct (refill acc nbits src) as [ [a b] s] eqn:Hr.
  destruct (refill_spec _ _ _ _ _ _ Hn Ha Hs Hr) as (Hb & Ha' & Hs' & Hbl & <- & H5). pose proof (len_nonneg s) as Hls.
  replace (5 * Z.of_nat (S n) - nbits - 8 * len src) with (5 * Z.of_nat (S n) - b - 8 * len s) by lia.
  destruct (Z.ltb_spec b 5) as [Hlt|Hge]; rewrite digits_value_cons, len_groups;
    change 32 with (2 ^ 5); rewrite <- Z.pow_mul_r by lia; change (2 ^ 5) with 32; change 31 with (Z.ones 5).
  - rewrite (H5 Hlt) in *. rewrite Z.shiftl_mul_pow2 by lia. change (5 - 5) with 0. rewrite Z.shiftr_0_r.
    change (Z.shiftl 1 0 - 1) with 0. rewrite Z.land_0_r, IH by (rewrite ?(Z.pow_0_r 2); change (len (@nil Z)) with 0; lia || done).
    assert (2 ^ 5 = 2 ^ (5 - b) * 2 ^ b) as Hp by (rewrite <- Z.pow_add_r by lia; f_equal; lia).
    rewrite Z.land_ones, Z.mod_small by (try lia; rewrite Hp; nia).
    unfold pending_bits. change (len (@nil Z)) with 0. change (digits_value 256 []) with 0.
    replace (5 * Z.of_nat (S n) - b - 8 * 0) with ((5 - b) + 5 * Z.of_nat n) by lia.
    rewrite (Z.pow_add_r 2 (5 - b)) by lia. change (2 ^ (8 * 0)) with 1. lia.
  - set (sh := b - 5). assert (2 ^ b = 2 ^ 5 * 2 ^ sh) as Hp by (rewrite <- Z.pow_add_r by lia; f_equal; lia).
    assert (0 < 2 ^ sh) as Hpos by (apply Z.pow_pos_nonneg; lia).
    rewrite Z.shiftr_div_pow2 by lia. rewrite Z.land_ones, (Z.mod_small (a / 2 ^ sh)).
    2:{ split; [apply Z.div_pos; lia|]. apply Z.div_lt_upper_bound; lia. }
    2:{ lia. }
    rewrite Z.shiftl_mul_pow2, Z.mul_1_l by lia. replace (2 ^ sh - 1) with (Z.ones sh) by (rewrite Z.ones_equiv; lia).
    rewrite Z.land_ones by lia. rewrite IH; [|lia|apply Z.mod_pos_bound; lia|done|lia].
    unfold pending_bits. set (e := 5 * Z.of_nat n - sh - 8 * len s).
    replace (5 * Z.of_nat (S n) - b - 8 * len s) with e by (unfold e, sh; lia).
    replace (5 * Z.of_nat n) with (sh + 8 * len s + e) by (unfold e; lia).
    rewrite !Z.pow_add_r by (unfold e; lia). rewrite (Z.div_mod a (2 ^ sh)) at 3 by lia. lia.
Qed.

(** A handle's digits: the first ten write four times the millisecond count
    (the encoder pads on the right, where a ULID pads on the left), the other
    sixteen write the entropy. *)
Lemma newULID_value now entropy :
  Forall is_u8 entropy -> len entropy = 10 ->
  exists ds, newULID now entropy = map (index crockford) ds /\ len ds = 26 /\ Forall (fun d => 0 <= d < 32) ds
    /\ digits_value 32 (take 10 ds) = 4 * digits_value 256 (ulid_time now)
    /\ digits_value 32 (drop 10 ds) = digits_value 256 entropy.
Proof.
  intros He Hl. unfold newULID. rewrite !encodeCrockford_groups, <- map_app.
  assert (length (groups 10 0 0 (ulid_time now)) = 10%nat) as H10.
  { pose proof (len_groups 10 0 0 (ulid_time now)) as H. unfold len in H. lia. }
  eexists. split; [done|]. rewrite len_app, !len_groups. split_and!; [done|apply Forall_app_2; apply groups_range|..].
  - rewrite take_app_length' by done. rewrite groups_value; [|lia|lia|repeat constructor; apply to_u8_range|done].
    unfold pending_bits. change (2 ^ (5 * Z.of_nat 10 - 0 - 8 * len (ulid_time now))) with 4. lia.
  - rewrite drop_app_length' by done. rewrite groups_value by (try done; lia). unfold pending_bits. rewrite Hl.
    change (2 ^ (5 * Z.of_nat 16 - 0 - 8 * 10)) with 1. lia.
Qed.

(** ** Abstraction: the live sessions by accounting identity *)

(** What the index promises: a table of records by key.  Handles, the second
    map and the running total are the implementation's. *)
Definition abs (idx : SessionIndex) : gmap SessionKey SessionRecord :=
  omap (fun h => ix_byHandle idx !! h) (ix_byKey idx).

Record index_ok (idx : SessionIndex) : Prop := {
  io_row : forall k h, ix_byKey idx !! k = Some h ->
    exists r, ix_byHandle idx !! h = Some r /\ sr_Key r = k;
  io_key : forall h r, ix_byHandle idx !! h = Some r ->
    ix_byKey idx !! sr_Key r = Some h /\ sr_Handle r = h /\ sk_AcctSessionID (sr_Key r) <> [];
  io_bytes : ix_bytes idx = total record_size (ix_byHandle idx);
  io_count : Z.of_nat (size (ix_byHandle idx)) <= ic_maxEntries (ix_conf idx);
  io_ttl : 0 < ic_ttl (ix_conf idx);
}.

Lemma lookup_abs idx k : abs idx !! k = ix_byKey idx !! k ≫= fun h => ix_byHandle idx !! h.
Proof. apply lookup_omap. Qed.

Lemma abs_key idx k r : index_ok idx -> abs idx !! k = Some r -> sr_Key r = k.
Proof.
  intros Hi. rewrite lookup_abs. destruct (ix_byKey idx !! k) as [h|] eqn:Hk; [|done]. simpl.
  destruct (io_row _ Hi k h Hk) as (r' & -> & Hr). by intros [= <-].
Qed.

(** A record is in the table exactly when it is behind its handle. *)
Lemma abs_row idx r :
  index_ok idx -> abs idx !! sr_Key r = Some r <-> ix_byHandle idx !! sr_Handle r = Some r.
Proof.
  intros Hi. rewrite lookup_abs. split.
  - destruct (ix_byKey idx !! sr_Key r) as [h|] eqn:Hk; [|done]. simpl. intros Hh.
    destruct (io_key _ Hi h r Hh) as (_ & -> & _). done.
  - intros Hh. destruct (io_key _ Hi _ r Hh) as (-> & _ & _). done.
Qed.

Lemma abs_None idx k : index_ok idx -> abs idx !! k = None <-> ix_byKey idx !! k = None.
Proof.
  intros Hi. rewrite lookup_abs. destruct (ix_byKey idx !! k) as [h|] eqn:Hk; [|done].
  destruct (io_row _ Hi k h Hk) as (r & Hr & _). simpl. by rewrite Hr.
Qed.

(** Two records with one handle are one record. *)
Lemma abs_handle_inj idx k k' r r' :
  index_ok idx -> abs idx !! k = Some r -> abs idx !! k' = Some r' -> sr_Handle r = sr_Handle r' -> r = r'.
Proof.
  intros Hi Hk Hk' Hh. pose proof (abs_key _ _ _ Hi Hk). pose proof (abs_key _ _ _ Hi Hk'). subst.
  apply abs_row in Hk, Hk'; [|done..]. rewrite Hh in Hk. congruence.
Qed.

Lemma rows_perm idx :
  index_ok idx -> map snd (map_to_list (abs idx)) ≡ₚ map snd (map_to_list (ix_byHandle idx)).
Proof.
  intros Hi.
  assert (forall (K : Type) `{Countable K} (f : SessionRecord -> K) (m : gmap K SessionRecord),
    (forall k r, m !! k = Some r -> f r = k) -> NoDup (map snd (map_to_list m))) as Hnd.
  { intros K ? ? f m Hf. apply (NoDup_fmap_1 f).
    replace (f <$> map snd (map_to_list m)) with (map_to_list m).*1; [apply NoDup_fst_map_to_list|].
    rewrite <- list_fmap_compose. apply list_fmap_ext. intros i [k r] Hx. simpl.
    symmetry. apply Hf. apply elem_of_map_to_list. by eapply list_elem_of_lookup_2. }
  apply NoDup_Permutation.
  - apply (Hnd _ _ _ sr_Key). intros k r. by apply abs_key.
  - apply (Hnd _ _ _ sr_Handle). intros h r Hh. by apply (io_key _ Hi).
  - intros r. rewrite !list_elem_of_fmap. split.
    + intros ([k r'] & -> & Hin%elem_of_map_to_list). simpl. pose proof (abs_key _ _ _ Hi Hin). subst k.
      apply abs_row in Hin; [|done]. exists (sr_Handle r', r'). split; [done|]. by apply elem_of_map_to_list.
    + intros ([h r'] & -> & Hin%elem_of_map_to_list). simpl. destruct (io_key _ Hi _ _ Hin) as (_ & <- & _).
      apply abs_row in Hin; [|done]. exists (sr_Key r', r'). split; [done|]. by apply elem_of_map_to_list.
Qed.

Lemma total_list {K V} `{Countable K} (f : V -> Z) (m : gmap K V) :
  total f m = foldr (fun v acc => f v + acc) 0 (map snd (map_to_list m)).
Proof. unfold total. rewrite map_fold_foldr. induction (map_to_list m) as [|[k v] l IH]; simpl; congruence. Qed.

Lemma abs_total idx : index_ok idx -> total record_size (abs idx) = ix_bytes idx.
Proof.
  intros Hi. rewrite (io_bytes _ Hi), !total_list.
  apply (foldr_permutation_proper (=)); [|intros a1 a2 b; lia|by apply rows_perm]. intros r a b. by intros ->.
Qed.

Lemma abs_size idx : index_ok idx -> size (abs idx) = size (ix_byHandle idx).
Proof.
  intros Hi. rewrite <- !length_map_to_list.
  rewrite <- (length_map snd (map_to_list (abs idx))), <- (length_map snd (map_to_list (ix_byHandle idx))).
  by rewrite (rows_perm idx Hi).
Qed.

(** ** Removing rows *)

Lemma deleteKey_ok idx k : index_ok idx -> index_ok (deleteKeyLocked idx k).
Proof.
  intros Hi. unfold deleteKeyLocked. case_match; [done|].
  destruct (ix_byKey idx !! k) as [h|] eqn:Hk; [|done]. destruct (io_row _ Hi k h Hk) as (r & Hr & Hrk).
  rewrite Hr. split; simpl.
  - intros k' h' [Hne Hk']%lookup_delete_Some. destruct (io_row _ Hi k' h' Hk') as (r' & Hr' & Hrk').
    exists r'. split; [|done]. rewrite lookup_delete_ne; [done|]. intros <-. congruence.
  - intros h' r' [Hne Hr']%lookup_delete_Some. destruct (io_key _ Hi h' r' Hr') as (Hk' & ? & ?).
    split; [|done]. rewrite lookup_delete_ne; [done|]. intros Heq. rewrite <- Heq in Hk'. congruence.
  - rewrite (total_delete _ _ h r) by done. by rewrite (io_bytes _ Hi).
  - pose proof (map_size_delete_le (ix_byHandle idx) h). pose proof (io_count _ Hi). lia.
  - apply Hi.
Qed.

Lemma deleteKey_conf idx k : ix_conf (deleteKeyLocked idx k) = ix_conf idx.
Proof. unfold deleteKeyLocked. by repeat case_match. Qed.

Lemma deleteKey_abs idx k :
  index_ok idx -> abs (deleteKeyLocked idx k) = delete k (abs idx).
Proof.
  intros Hi. unfold deleteKeyLocked. case_match eqn:Hs.
  { symmetry. apply delete_id. destruct (abs idx !! k) as [r|] eqn:Hr; [|done].
    pose proof (abs_key _ _ _ Hi Hr) as <-. apply abs_row in Hr; [|done].
    destruct (io_key _ Hi _ _ Hr) as (_ & _ & Hn). apply Z.eqb_eq, len_zero in Hs. done. }
  destruct (ix_byKey idx !! k) as [h|] eqn:Hk; [|symmetry; apply delete_id; by apply abs_None].
  apply map_eq. intros k'. rewrite lookup_abs. simpl. destruct (decide (k = k')) as [<-|Hne].
  { by rewrite !lookup_delete_eq. }
  rewrite !lookup_delete_ne, lookup_abs by done. destruct (ix_byKey idx !! k') as [h'|] eqn:Hk'; [|done]. simpl.
  rewrite lookup_delete_ne; [done|]. intros <-.
  destruct (io_row _ Hi _ _ Hk) as (r & Hr & Hrk), (io_row _ Hi _ _ Hk') as (r' & Hr' & Hrk'). congruence.
Qed.

Lemma deleteKeys_spec l idx :
  index_ok idx ->
  index_ok (fold_left deleteKeyLocked l idx) /\ ix_conf (fold_left deleteKeyLocked l idx) = ix_conf idx
  /\ forall k, abs (fold_left deleteKeyLocked l idx) !! k = if decide (k ∈ l) then None else abs idx !! k.
Proof.
  revert idx. induction l as [|k l IH]; intros idx Hi.
  { split_and!; [done..|]. intros k. by rewrite decide_False by apply not_elem_of_nil. }
  simpl. destruct (IH _ (deleteKey_ok idx k Hi)) as (Ho & Hc & Ha). split_and!; [done|by rewrite Hc, deleteKey_conf|].
  intros k'. rewrite Ha, deleteKey_abs by done. destruct (decide (k' = k)) as [->|Hne].
  - rewrite lookup_delete_eq. rewrite (decide_True (P := k ∈ k :: l)) by left. by case_decide.
  - rewrite lookup_delete_ne by done. destruct (decide (k' ∈ l)) as [Hin|Hin].
    + rewrite decide_True; [done|by right].
    + rewrite decide_False; [done|]. intros [?|?]%elem_of_cons; done.
Qed.

(** Dropping the rows that a predicate selects is a filter of the table. *)
Lemma drop_rows idx (p : SessionRecord -> bool) l :
  index_ok idx -> (forall k, k ∈ l <-> exists r, abs idx !! k = Some r /\ p r = true) ->
  abs (fold_left deleteKeyLocked l idx) = filter (fun kr => p kr.2 = false) (abs idx).
Proof.
  intros Hi Hl. apply map_eq. intros k. destruct (deleteKeys_spec l idx Hi) as (_ & _ & ->).
  symmetry. destruct (abs idx !! k) as [r|] eqn:Hr.
  - case_decide as Hd.
    + apply map_lookup_filter_None. right. intros r' Hr'. simpl. apply Hl in Hd as (r'' & ? & ?). congruence.
    + apply map_lookup_filter_Some. split; [done|]. simpl. apply not_true_iff_false. intros Hp.
      apply Hd, Hl. by exists r.
  - replace (if decide (k ∈ l) then None else None) with (@None SessionRecord) by (by case_decide).
    apply map_lookup_filter_None. by left.
Qed.

Lemma expire_index idx now :
  index_ok idx ->
  index_ok (expireLocked idx now) /\ ix_conf (expireLocked idx now) = ix_conf idx
  /\ abs (expireLocked idx now) = filter (fun kr => idle (ic_ttl (ix_conf idx)) now kr.2 = false) (abs idx).
Proof.
  intros Hi. unfold expireLocked. set (l := map sr_Key _). destruct (deleteKeys_spec l idx Hi) as (Ho & Hc & _).
  split_and!; [done..|]. apply drop_rows; [done|]. intros k. unfold l. rewrite list_elem_of_fmap. split.
  - intros (r & -> & Hr). rewrite list_elem_of_filter in Hr. destruct Hr as [Hp Hr]. exists r. split; [|done].
    rewrite <- (rows_perm idx Hi), list_elem_of_fmap in Hr. destruct Hr as ([k r'] & -> & Hr%elem_of_map_to_list).
    simpl. by rewrite (abs_key _ _ _ Hi Hr).
  - intros (r & Hr & Hp). exists r. split; [by rewrite (abs_key _ _ _ Hi Hr)|]. apply list_elem_of_filter. split; [done|].
    rewrite <- (rows_perm idx Hi), list_elem_of_fmap. exists (k, r). split; [done|]. by apply elem_of_map_to_list.
Qed.

(** ** Writing rows *)

(** The handle of a key that has a row, or a handle that no row has. *)
Definition slot (idx : SessionIndex) (k : SessionKey) (h : bytes) : Prop :=
  ix_byKey idx !! k = Some h \/ ix_byKey idx !! k = None /\ ix_byHandle idx !! h = None.

Lemma slot_other idx k h k' :
  index_ok idx -> slot idx k h -> k' <> k -> ix_byKey idx !! k' <> Some h.
Proof.
  intros Hi Hs Hne Hk'. destruct (io_row _ Hi _ _ Hk') as (r & Hr & Hrk). destruct Hs as [Hk|[_ Hn] ]; [|congruence].
  destruct (io_row _ Hi _ _ Hk) as (r' & Hr' & Hrk'). congruence.
Qed.

Lemma put_row idx k h r used :
  index_ok idx -> slot idx k h -> sr_Key r = k -> sr_Handle r = h -> sk_AcctSessionID k <> [] ->
  used = ix_bytes idx - match ix_byHandle idx !! h with Some r0 => record_size r0 | None => 0 end + record_size r ->
  (ix_byHandle idx !! h = None -> Z.of_nat (size (ix_byHandle idx)) < ic_maxEntries (ix_conf idx)) ->
  let idx' := mkSessionIndex (ix_conf idx) (<[k := h]> (ix_byKey idx)) (<[h := r]> (ix_byHandle idx)) used in
  index_ok idx' /\ abs idx' = <[k := r]> (abs idx).
Proof.
  intros Hi Hs Hk Hh Hn -> Hc. cbv zeta. split.
  - split; simpl; [| | | |apply Hi].
    + intros k' h' [ [<- <-]|[Hne Hk'] ]%lookup_insert_Some; [exists r; by rewrite lookup_insert_eq|].
      destruct (io_row _ Hi _ _ Hk') as (r' & Hr' & ?). exists r'. split; [|done].
      rewrite lookup_insert_ne; [done|]. intros <-. by apply (slot_other idx k h k' Hi Hs).
    + intros h' r' [ [<- <-]|[Hne Hr'] ]%lookup_insert_Some; [by rewrite Hk, lookup_insert_eq|].
      destruct (io_key _ Hi _ _ Hr') as (Hk' & ? & ?). split; [|done]. rewrite lookup_insert_ne; [done|].
      intros Heq. rewrite <- Heq in Hk'. destruct Hs as [?|[? _] ]; congruence.
    + rewrite (io_bytes _ Hi). destruct (ix_byHandle idx !! h) as [r0|] eqn:Hr0.
      * by rewrite (total_update _ _ h r0).
      * rewrite total_insert by done. lia.
    + rewrite map_size_insert. destruct (ix_byHandle idx !! h) eqn:Hr0; [apply (io_count _ Hi)|].
      specialize (Hc eq_refl). lia.
  - apply map_eq. intros k'. rewrite lookup_abs. simpl. destruct (decide (k = k')) as [<-|Hne].
    + rewrite !lookup_insert_eq. simpl. by rewrite lookup_insert_eq.
    + rewrite !lookup_insert_ne, lookup_abs by done. destruct (ix_byKey idx !! k') as [h'|] eqn:Hk'; [|done]. simpl.
      rewrite lookup_insert_ne; [done|]. intros <-. by apply (slot_other idx k h k' Hi Hs).
Qed.

(** Replacing the record of a live row. *)
Lemma replace_row idx k h r0 r :
  index_ok idx -> ix_byKey idx !! k = Some h -> ix_byHandle idx !! h = Some r0 ->
  sr_Key r = k -> sr_Handle r = h ->
  let idx' := mkSessionIndex (ix_conf idx) (ix_byKey idx) (<[h := r]> (ix_byHandle idx))
                (ix_bytes idx - record_size r0 + record_size r) in
  index_ok idx' /\ abs idx' = <[k := r]> (abs idx) /\ abs idx !! k = Some r0 /\ sr_Key r0 = k /\ sr_Handle r0 = h.
Proof.
  intros Hi Hk Hh Hrk Hrh. cbv zeta. destruct (io_key _ Hi _ _ Hh) as (Hk' & Hh' & Hn).
  destruct (io_row _ Hi _ _ Hk) as (r' & Hr' & Hrk'). assert (r' = r0) as -> by congruence.
  destruct (put_row idx k h r (ix_bytes idx - record_size r0 + record_size r)) as [Ho Ha];
    try done; [by left|congruence|by rewrite Hh|by rewrite Hh|].
  rewrite insert_id in Ho, Ha by done. split_and!; try done. by rewrite lookup_abs, Hk.
Qed.

(** ** The abstract table's operations *)

Abbreviation table := (gmap SessionKey SessionRecord).

Definition live (ttl now : Z) (m : table) : table := filter (fun kr => idle ttl now kr.2 = false) m.

(** [h] is the handle a new row gets, if one can be made. *)
Definition spec_start (cf : indexConf) (m : table) (ev : AcctEvent) (now : Z) (h : option bytes) : table * bool :=
  if bool_decide (ae_SessionID ev = []) then (m, true) else
  match m !! acct_key ev with
  | Some r => (<[acct_key ev := fill r ev now]> m, true)
  | None =>
    let r := fill (blank_record (acct_key ev)) ev now in
    if (ic_maxEntries cf <=? Z.of_nat (size m)) || (ic_maxBytes cf <? total record_size m + record_size r) then (m, false)
    else match h with
         | None => (m, false)
         | Some h => (<[acct_key ev := with_Handle r h]> m, true)
         end
  end.

Definition flushes (ev : AcctEvent) (kr : SessionKey * SessionRecord) : Prop :=
  sk_EndpointID kr.1 = ae_EndpointID ev
  /\ matchesFlush kr.2 (ap_Addr (ae_Peer ev)) (ae_NASIP ev) (ae_NASIdentifier ev) = true.

Definition spec_apply (cf : indexConf) (m : table) (ev : AcctEvent) (now : Z) (h : option bytes) : table * bool :=
  if decide (ae_Kind ev = EventStart) then spec_start cf m ev now h
  else if decide (ae_Kind ev = EventInterim) then (alter (fun r => merge r ev now) (acct_key ev) m, true)
  else if decide (ae_Kind ev = EventStop) then (delete (acct_key ev) m, true)
  else if decide (ae_Kind ev = EventOn \/ ae_Kind ev = EventOff) then (filter (fun kr => ~ flushes ev kr) m, true)
  else (m, true).

(** A handle that no row of the table has. *)
Definition fresh_handle (m : table) (h : option bytes) : Prop :=
  forall x k r, h = Some x -> m !! k = Some r -> sr_Handle r <> x.

Lemma uniqueHandle_fresh tries i idx now entropy h :
  uniqueHandle tries i idx now entropy = Some h -> ix_byHandle idx !! h = None.
Proof.
  revert i. induction tries as [|n IH]; intros i; simpl; [done|].
  destruct (entropy i); [|done]. case_match; [apply IH|]. by intros [= <-].
Qed.

Lemma insert_refines idx ev now entropy :
  index_ok idx ->
  exists idx' b, insertLocked idx ev now entropy = Some (idx', b) /\ index_ok idx' /\ ix_conf idx' = ix_conf idx
    /\ exists h, fresh_handle (abs idx) h /\ (abs idx', b) = spec_start (ix_conf idx) (abs idx) ev now h.
Proof.
  intros Hi. unfold insertLocked, spec_start. destruct (Z.eqb_spec (len (ae_SessionID ev)) 0) as [Hs|Hs].
  { apply len_zero in Hs. exists idx, true. split_and!; [done..|]. exists None. split; [intros ???; done|].
    by rewrite bool_decide_true. }
  assert (ae_SessionID ev <> []) as Hne by (intros Hn; by rewrite Hn in Hs).
  rewrite bool_decide_false by done. destruct (ix_byKey idx !! acct_key ev) as [h|] eqn:Hk.
  - destruct (io_row _ Hi _ _ Hk) as (r & Hr & Hrk). rewrite Hr. destruct (io_key _ Hi _ _ Hr) as (_ & Hh & _).
    destruct (replace_row idx (acct_key ev) h r (with_Handle (fill r ev now) h) Hi Hk Hr eq_refl eq_refl)
      as (Ho & Ha & Hl & _ & _).
    eexists _, _. split_and!; [done..|]. exists None. split; [intros ???; done|]. rewrite Hl, Ha.
    do 2 f_equal. destruct r. simpl in *. by subst.
  - rewrite (proj2 (abs_None idx _ Hi)), abs_size, abs_total by done. rewrite Z.geb_leb, Z.gtb_ltb.
    destruct (_ || _) eqn:Hfull; [eexists _, _; split_and!; [done..|]; exists None; split; [intros ???|]; done|].
    destruct (uniqueHandle 8 0 idx now entropy) as [h|] eqn:Hu;
      [|eexists _, _; split_and!; [done..|]; exists None; split; [intros ???|]; done].
    apply uniqueHandle_fresh in Hu. bool_hyps.
    destruct (put_row idx (acct_key ev) h (with_Handle (fill (blank_record (acct_key ev)) ev now) h)
      (ix_bytes idx + record_size (with_Handle (fill (blank_record (acct_key ev)) ev now) h)) Hi) as [Ho Ha]; try done.
    { by right. }
    { rewrite Hu. lia. }
    eexists _, _. split_and!; [done..|]. exists (Some h). split; [|by rewrite Ha].
    intros x k r [= <-] Hr Hh. pose proof (abs_key _ _ _ Hi Hr). subst k. apply abs_row in Hr; [|done]. congruence.
Qed.

Lemma abs_empty_sid idx k : index_ok idx -> sk_AcctSessionID k = [] -> abs idx !! k = None.
Proof.
  intros Hi Hk. destruct (abs idx !! k) as [r|] eqn:Hr; [|done]. pose proof (abs_key _ _ _ Hi Hr). subst k.
  apply abs_row in Hr; [|done]. by destruct (io_key _ Hi _ _ Hr) as (_ & _ & ?).
Qed.

Lemma alter_absent (m : table) k f : m !! k = None -> alter f k m = m.
Proof.
  intros Hk. apply map_eq. intros k'. destruct (decide (k = k')) as [<-|Hne].
  - by rewrite lookup_alter_eq, Hk.
  - by rewrite lookup_alter_ne.
Qed.

Lemma alter_present (m : table) k r f : m !! k = Some r -> alter f k m = <[k := f r]> m.
Proof.
  intros Hk. apply map_eq. intros k'. destruct (decide (k = k')) as [<-|Hne].
  - by rewrite lookup_alter_eq, Hk, lookup_insert_eq.
  - by rewrite lookup_alter_ne, lookup_insert_ne.
Qed.

Lemma update_refines idx ev now :
  index_ok idx ->
  exists idx', updateLocked idx ev now = Some idx' /\ index_ok idx' /\ ix_conf idx' = ix_conf idx
    /\ abs idx' = alter (fun r => merge r ev now) (acct_key ev) (abs idx).
Proof.
  intros Hi. unfold updateLocked. destruct (Z.eqb_spec (len (ae_SessionID ev)) 0) as [Hs|Hs].
  { apply len_zero in Hs. exists idx. split_and!; [done..|]. by rewrite alter_absent by (by apply abs_empty_sid). }
  destruct (ix_byKey idx !! acct_key ev) as [h|] eqn:Hk.
  - destruct (io_row _ Hi _ _ Hk) as (r & Hr & Hrk). rewrite Hr. destruct (io_key _ Hi _ _ Hr) as (_ & Hh & _).
    destruct (replace_row idx (acct_key ev) h r (merge r ev now) Hi Hk Hr Hrk Hh) as (Ho & Ha & Hl & _ & _).
    eexists. split_and!; [done..|]. by rewrite Ha, (alter_present _ _ r).
  - exists idx. split_and!; [done..|]. by rewrite alter_absent by (by apply abs_None).
Qed.

Lemma flush_refines idx ev :
  index_ok idx ->
  index_ok (flushLocked idx ev) /\ ix_conf (flushLocked idx ev) = ix_conf idx
  /\ abs (flushLocked idx ev) = filter (fun kr => ~ flushes ev kr) (abs idx).
Proof.
  intros Hi. unfold flushLocked. set (l := map fst _). destruct (deleteKeys_spec l idx Hi) as (Ho & Hc & Ha).
  split_and!; [done..|]. apply map_eq. intros k. rewrite Ha. symmetry.
  assert (k ∈ l <-> exists r, abs idx !! k = Some r /\ flushes ev (k, r)) as Hl.
  { unfold l. rewrite list_elem_of_fmap. unfold flushes. simpl. split.
    - intros ([k' h] & -> & Hin). rewrite list_elem_of_filter in Hin. destruct Hin as [Hd Hin%elem_of_map_to_list].
      destruct (io_row _ Hi _ _ Hin) as (r & Hr & Hrk). rewrite Hr in Hd. simpl. exists r.
      rewrite lookup_abs, Hin. simpl. split; [done|]. destruct (bytes_eqb _ _) eqn:He; [|done].
      apply bytes_eqb_true in He. by split.
    - intros (r & Hr & He & Hm). rewrite lookup_abs in Hr. destruct (ix_byKey idx !! k) as [h|] eqn:Hk; [|done].
      simpl in Hr. exists (k, h). split; [done|]. rewrite list_elem_of_filter. split; [|by apply elem_of_map_to_list].
      rewrite Hr, Hm. apply bytes_eqb_true in He. by rewrite He. }
  destruct (abs idx !! k) as [r|] eqn:Hr.
  - case_decide as Hd.
    + apply map_lookup_filter_None. right. intros r' Hr' Hn. apply Hn. apply Hl in Hd as (r'' & ? & ?). congruence.
    + apply map_lookup_filter_Some. split; [done|]. intros Hf. apply Hd, Hl. by exists r.
  - replace (if decide (k ∈ l) then None else None) with (@None SessionRecord) by (by case_decide).
    apply map_lookup_filter_None. by left.
Qed.

(** [Apply] is the expiry of idle rows and then the abstract operation. *)
Lemma Apply_refines idx ev now now' entropy :
  index_ok idx ->
  exists idx' b, Apply idx ev now now' entropy = Some (idx', b) /\ index_ok idx' /\ ix_conf idx' = ix_conf idx
    /\ exists h, let m := live (ic_ttl (ix_conf idx)) now (abs idx) in
       fresh_handle m h /\ (abs idx', b) = spec_apply (ix_conf idx) m ev now' h.
Proof.
  intros Hi. destruct (expire_index idx now Hi) as (Ho & Hc & Ha). cbv zeta. rewrite <- Hc.
  unfold live. rewrite Hc, <- Ha, <- Hc. unfold Apply, spec_apply. set (i := expireLocked idx now) in *. clearbody i.
  assert (forall m, fresh_handle m None) as Hf by (intros m ???; done).
  case_bool_decide; case_decide; try done; [by apply insert_refines|].
  case_bool_decide; case_decide; try done.
  { destruct (update_refines i ev now' Ho) as (i' & -> & ? & ? & ?). exists i', true. split_and!; [done..|].
    exists None. split; [done|]. congruence. }
  case_bool_decide; case_decide; try done.
  { exists (deleteKeyLocked i (acct_key ev)), true. split_and!; [done|by apply deleteKey_ok|apply deleteKey_conf|].
    exists None. split; [done|]. by rewrite deleteKey_abs. }
  do 2 case_bool_decide; case_decide as Hk; try (by exfalso; tauto); cbn [orb].
  all: try (by (destruct (flush_refines i ev Ho) as (? & ? & ?); exists (flushLocked i ev), true;
    split_and!; [done..|]; exists None; split; [done|]; congruence)).
  exists i, true. split_and!; [done..|]. by exists None.
Qed.

(** ** Reads *)

Lemma bytes_ltb_irrefl a : bytes_ltb a a = false.
Proof. induction a as [|x a IH]; simpl; [done|]. by rewrite Z.eqb_refl. Qed.

Lemma bytes_ltb_trans a b c : bytes_ltb a b = true -> bytes_ltb b c = true -> bytes_ltb a c = true.
Proof.
  revert b c. induction a as [|x a IH]; intros [|y b] [|z c]; simpl; try done.
  destruct (Z.eqb_spec x y) as [->|Hxy], (Z.eqb_spec y z) as [->|Hyz]; rewrite ?Z.eqb_refl; try done; [apply IH|..].
  - destruct (Z.eqb_spec x z); [lia|done].
  - intros Ha Hb. bool_hyps. destruct (Z.eqb_spec x z); [lia|]. apply Z.ltb_lt. lia.
Qed.

Lemma bytes_ltb_total a b : bytes_ltb a b = false -> bytes_ltb b a = false -> a = b.
Proof.
  revert b. induction a as [|x a IH]; intros [|y b]; simpl; try done.
  destruct (Z.eqb_spec x y) as [->|Hxy]; [rewrite Z.eqb_refl; intros; f_equal; by apply IH|].
  destruct (Z.eqb_spec y x); [lia|]. intros Ha Hb. bool_hyps. lia.
Qed.

Lemma bytes_ltb_asym a b : bytes_ltb a b = true -> bytes_ltb b a = false.
Proof.
  intros Hab. apply not_true_iff_false. intros Hba. pose proof (bytes_ltb_trans _ _ _ Hab Hba) as H.
  by rewrite bytes_ltb_irrefl in H.
Qed.

Lemma in_order_trans : Transitive (in_order bytes_ltb).
Proof.
  intros a b c. unfold in_order. intros Hab Hbc. apply not_true_iff_false. intros Hca.
  destruct (bytes_ltb c b) eqn:Hcb; [done|]. destruct (bytes_ltb b c) eqn:Ebc.
  - rewrite (bytes_ltb_trans b c a) in Hab; done.
  - pose proof (bytes_ltb_total _ _ Ebc Hcb). subst. congruence.
Qed.

Definition handle_lt (a b : SessionRecord) : Prop := bytes_ltb (sr_Handle a) (sr_Handle b) = true.

Lemma sorted_handles l : NoDup l -> StronglySorted (fun a b => bytes_ltb a b = true) (SliceStable bytes_ltb l).
Proof.
  intros Hnd. assert (NoDup (SliceStable bytes_ltb l)) as Hn by (by rewrite SliceStable_perm).
  pose proof (SliceStable_sorted bytes_ltb l in_order_trans bytes_ltb_asym) as Hs. revert Hs Hn.
  generalize (SliceStable bytes_ltb l). clear l Hnd. induction 1 as [|x l Hs IH Hf]; intros Hn; constructor.
  - apply IH. by apply list.NoDup_cons in Hn as [_ ?].
  - apply list.NoDup_cons in Hn as [Hx _]. rewrite list.Forall_forall in Hf |- *. intros y Hy.
    destruct (bytes_ltb x y) eqn:E; [done|]. pose proof (bytes_ltb_total _ _ E (Hf y Hy)). by subst.
Qed.

Lemma StronglySorted_app_lt {A} (R : A -> A -> Prop) l k :
  StronglySorted R (l ++ k) -> StronglySorted R l /\ forall x y, x ∈ l -> y ∈ k -> R x y.
Proof.
  induction l as [|z l IH]; simpl; intros H.
  { split; [apply SSorted_nil|]. intros x y Hx. by apply not_elem_of_nil in Hx. }
  inversion_clear H as [|? ? Hs Hf]. destruct (IH Hs) as [Hl Hr]. rewrite list.Forall_forall in Hf. split.
  - constructor; [done|]. apply list.Forall_forall. intros y Hy. apply Hf, elem_of_app. by left.
  - intros x y [->|Hx]%elem_of_cons Hy; [apply Hf, elem_of_app; by right|by apply Hr].
Qed.

(** A page: the first [limit] of the rows after the cursor, by handle. *)
Definition page_of (m : table) (cursor : bytes) (limit : Z) (out : list SessionRecord) : Prop :=
  let after r := (exists k, m !! k = Some r) /\ bytes_ltb cursor (sr_Handle r) = true in
  StronglySorted handle_lt out
  /\ (forall r, r ∈ out -> after r)
  /\ (forall r, after r -> r ∉ out -> len out = limit /\ forall a, a ∈ out -> handle_lt a r)
  /\ len out <= limit.

Lemma List_page idx cursor limit now :
  index_ok idx ->
  page_of (live (ic_ttl (ix_conf idx)) now (abs idx)) cursor (if limit <=? 0 then 100 else limit) (List_ idx cursor limit now).2.
Proof.
  intros Hi. destruct (expire_index idx now Hi) as (Ho & _ & Ha). unfold live. rewrite <- Ha. unfold List_. cbn [snd].
  set (i := expireLocked idx now) in *. set (n := if limit <=? 0 then 100 else limit).
  assert (0 < n) as Hn by (unfold n; case_match; bool_hyps; lia). clearbody i n.
  set (hs := SliceStable bytes_ltb _).
  assert (forall h, h ∈ hs <-> is_Some (ix_byHandle i !! h) /\ bytes_ltb cursor h = true) as Hin.
  { intros h. unfold hs. rewrite SliceStable_perm, list_elem_of_filter, list_elem_of_fmap. split.
    - intros [Hc ([h' r] & -> & Hr%elem_of_map_to_list)]. split; [by eexists|done].
    - intros [ [r Hr] Hc]. split; [done|]. exists (h, r). split; [done|]. by apply elem_of_map_to_list. }
  assert (StronglySorted (fun a b => bytes_ltb a b = true) hs) as Hs.
  { apply sorted_handles, list.NoDup_filter, NoDup_fst_map_to_list. }
  set (out := if len hs >? n then slice hs 0 n else hs).
  assert (exists rest, hs = out ++ rest /\ len out <= n /\ (rest <> [] -> len out = n)) as (rest & Hr & Hl & Hx).
  { unfold out. rewrite Z.gtb_ltb. destruct (Z.ltb_spec n (len hs)).
    - exists (drop (Z.to_nat n) hs). rewrite slice_0, take_drop, len_take by lia. split_and!; [done|lia|intros; lia].
    - exists []. rewrite app_nil_r. split_and!; [done|lia|done]. }
  clearbody out. rewrite Hr in Hs, Hin. clearbody hs. subst hs.
  destruct (StronglySorted_app_lt _ _ _ Hs) as [Hso Hsr].
  assert (forall h, h ∈ out -> exists r, ix_byHandle i !! h = Some r /\ sr_Handle r = h) as Hrow.
  { intros h Hh. destruct (proj1 (Hin h)) as [ [r Hhr] _]; [apply elem_of_app; by left|]. exists r. split; [done|].
    by destruct (io_key _ Ho _ _ Hhr) as (_ & ? & _). }
  assert (exists rs, omap (fun h => ix_byHandle i !! h) out = rs /\ map sr_Handle rs = out
    /\ forall r, r ∈ rs <-> sr_Handle r ∈ out /\ ix_byHandle i !! sr_Handle r = Some r) as (rs & -> & Hmap & Hrs).
  { clear -Hrow. induction out as [|h out IH].
    - exists []. split_and!; [done..|]. intros r. split; [intros H; by apply not_elem_of_nil in H|intros [H _]; by apply not_elem_of_nil in H].
    - destruct (Hrow h) as (r & Hr & Hh); [by left|]. destruct IH as (rs & Hom & Hm & Hrs).
      { intros h' Hh'. apply Hrow. by right. }
      exists (r :: rs). split_and!; [cbn; rewrite Hr; f_equal; exact Hom|cbn; congruence|]. intros r'. rewrite !elem_of_cons, Hrs. split.
      + intros [->|[? ?] ]; [|by split; [right|] ]. split; [by left|congruence].
      + intros [ [Heq|?] Hr']; [left; congruence|by right; split]. }
  assert (len rs = len out) as Hlen by (unfold len; by rewrite <- Hmap, length_map).
  unfold page_of. rewrite Hlen. split_and!; [| | |done].
  - clear -Hso Hmap. subst out. induction rs as [|r rs IH]; [constructor|]. simpl in Hso.
    apply StronglySorted_inv in Hso as [Hs Hf]. constructor; [by apply IH|]. rewrite list.Forall_forall.
    rewrite list.Forall_forall in Hf. intros r' Hr'. apply Hf, list_elem_of_fmap. by exists r'.
  - intros r [Hout Hr]%Hrs. split; [|apply Hin, elem_of_app; by left]. exists (sr_Key r). by apply abs_row.
  - intros r [ [k Hk] Hc] Hnot. pose proof (abs_key _ _ _ Ho Hk). subst k. apply abs_row in Hk; [|done].
    assert (sr_Handle r ∈ rest) as Hre.
    { assert (sr_Handle r ∈ out ++ rest) as Hor by (apply Hin; split; [by eexists|done]).
      apply elem_of_app in Hor as [Hor|?]; [|done]. by destruct Hnot; apply Hrs. }
    split; [apply Hx; intros ->; by apply not_elem_of_nil in Hre|].
    intros a [Ha' _]%Hrs. by apply Hsr.
Qed.

Lemma values_perm idx now :
  index_ok idx ->
  map snd (map_to_list (ix_byHandle (expireLocked idx now))) ≡ₚ map snd (map_to_list (live (ic_ttl (ix_conf idx)) now (abs idx))).
Proof. intros Hi. destruct (expire_index idx now Hi) as (Ho & _ & Ha). unfold live. rewrite <- Ha. by rewrite rows_perm. Qed.

(** The answer of [FindDAS]: the only hit, or how many there are. *)
Definition das_answer (q : DASQuery) (m : table) (a : option SessionRecord * Z) : Prop :=
  a.2 = Z.of_nat (size (filter (fun kr => das_hit q kr.2 = true) m))
  /\ forall r, a.1 = Some r <-> a.2 = 1 /\ (exists k, m !! k = Some r) /\ das_hit q r = true.

Lemma filter_values {A} (p : A -> bool) (m : gmap SessionKey A) :
  filter (fun v => p v = true) (map snd (map_to_list m)) ≡ₚ map snd (map_to_list (filter (fun kv => p kv.2 = true) m)).
Proof.
  rewrite map_filter_alt, map_to_list_to_map.
  - induction (map_to_list m) as [|[k v] l IH]; [done|]. cbn [map snd]. rewrite !filter_cons. simpl.
    case_decide; [|done]. cbn [map snd]. by rewrite IH.
  - eapply (sublist_NoDup _ (map_to_list m).*1); [apply NoDup_fst_map_to_list|].
    apply fmap_sublist, sublist_filter.
Qed.

Lemma FindDAS_answer idx q now :
  index_ok idx -> das_answer q (live (ic_ttl (ix_conf idx)) now (abs idx)) (FindDAS idx q now).2.
Proof.
  intros Hi. unfold FindDAS. cbn [snd]. set (m := live _ _ _).
  assert (filter (fun r => das_hit q r = true) (map snd (map_to_list (ix_byHandle (expireLocked idx now))))
    ≡ₚ map snd (map_to_list (filter (fun kr => das_hit q kr.2 = true) m))) as Hp.
  { by rewrite <- filter_values, values_perm. }
  set (hits := filter _ (map snd _)) in *. clearbody hits.
  assert (len hits = Z.of_nat (size (filter (fun kr => das_hit q kr.2 = true) m))) as Hl.
  { unfold len. rewrite Hp, length_map, length_map_to_list. done. }
  assert (forall r, r ∈ hits <-> (exists k, m !! k = Some r) /\ das_hit q r = true) as Hin.
  { intros r. rewrite Hp, list_elem_of_fmap. split.
    - intros ([k r'] & -> & Hr%elem_of_map_to_list). apply map_lookup_filter_Some in Hr as [? ?].
      split; [by exists k|done].
    - intros [ [k Hk] Hh]. exists (k, r). split; [done|]. apply elem_of_map_to_list. by apply map_lookup_filter_Some. }
  unfold das_answer. destruct hits as [|r [|r' hits] ]; cbn [fst snd].
  - split; [done|]. intros r. split; [done|]. by intros [? _].
  - split; [done|]. intros r'. split.
    + intros [= <-]. split; [done|]. apply Hin. by left.
    + intros [_ Hr]. apply Hin, list_elem_of_singleton in Hr. by subst.
  - split; [done|]. intros r0. split; [done|]. intros [H1 _]. exfalso. revert H1. len_lia.
Qed.

Lemma LookupHandle_answer idx h now r :
  index_ok idx -> h <> [] ->
  (LookupHandle idx h now).2 = Some r
  <-> exists k, live (ic_ttl (ix_conf idx)) now (abs idx) !! k = Some r /\ sr_Handle r = h.
Proof.
  intros Hi Hh. destruct (expire_index idx now Hi) as (Ho & _ & Ha). unfold live. rewrite <- Ha. unfold LookupHandle.
  destruct (Z.eqb_spec (len h) 0) as [Hl|_]; [by apply len_zero in Hl|]. cbn [snd]. split.
  - intros Hr. destruct (io_key _ Ho _ _ Hr) as (_ & Hrh & _). exists (sr_Key r). split; [|done].
    apply abs_row; [done|]. by rewrite Hrh.
  - intros (k & Hk & <-). pose proof (abs_key _ _ _ Ho Hk). subst k. by apply abs_row in Hk.
Qed.

Lemma LookupKey_answer idx k now :
  index_ok idx -> (LookupKey idx k now).2 = live (ic_ttl (ix_conf idx)) now (abs idx) !! k.
Proof.
  intros Hi. destruct (expire_index idx now Hi) as (Ho & _ & Ha). unfold live. rewrite <- Ha. unfold LookupKey.
  destruct (Z.eqb_spec (len (sk_AcctSessionID k)) 0) as [Hl|_].
  - apply len_zero in Hl. by rewrite abs_empty_sid.
  - cbn [snd]. by rewrite lookup_abs.
Qed.

(** ** The contract *)

Inductive op :=
| OApply (ev : AcctEvent) (now now' : Z) (entropy : nat -> option bytes)
| OLookupHandle (handle : bytes) (now : Z)
| OLookupKey (key : SessionKey) (now : Z)
| OList (cursor : bytes) (limit now : Z)
| OLen (now : Z)
| OFindDAS (q : DASQuery) (now : Z)
| OStoreLastCoA (key : SessionKey) (attrs : LastCoA) (now now' : Z)
| ODelete (key : SessionKey) (now : Z)
| OReset.

Inductive answer :=
| ABool (b : bool)
| ARow (r : option SessionRecord)
| ARows (l : list SessionRecord)
| ALen (n : Z)
| ADAS (a : option SessionRecord * Z)
| AUnit.

Definition step (idx : SessionIndex) (o : op) : option (SessionIndex * answer) :=
  match o with
  | OApply ev now now' entropy => prod_map id ABool <$> Apply idx ev now now' entropy
  | OLookupHandle h now => Some (prod_map id ARow (LookupHandle idx h now))
  | OLookupKey k now => Some (prod_map id ARow (LookupKey idx k now))
  | OList cursor limit now => Some (prod_map id ARows (List_ idx cursor limit now))
  | OLen now => Some (prod_map id ALen (Len idx now))
  | OFindDAS q now => Some (prod_map id ADAS (FindDAS idx q now))
  | OStoreLastCoA k attrs now now' => Some (prod_map id ABool (StoreLastCoA idx k attrs now now'))
  | ODelete k now => Some (prod_map id ABool (Delete idx k now))
  | OReset => Some (Reset idx, AUnit)
  end.

(** What a table of live sessions does: the index with neither handles map
    nor running total. *)
Definition spec_step (cf : indexConf) (m : table) (o : op) (m' : table) (a : answer) : Prop :=
  let live now := live (ic_ttl cf) now m in
  match o with
  | OApply ev now now' _ =>
    exists h b, fresh_handle (live now) h /\ (m', b) = spec_apply cf (live now) ev now' h /\ a = ABool b
  | OLookupHandle h now =>
    if decide (h = []) then m' = m /\ a = ARow None
    else m' = live now /\ exists r, a = ARow r /\ forall x, r = Some x <-> exists k, live now !! k = Some x /\ sr_Handle x = h
  | OLookupKey k now =>
    if decide (sk_AcctSessionID k = []) then m' = m /\ a = ARow None else m' = live now /\ a = ARow (live now !! k)
  | OList cursor limit now =>
    m' = live now /\ exists l, a = ARows l /\ page_of (live now) cursor (if limit <=? 0 then 100 else limit) l
  | OLen now => m' = live now /\ a = ALen (Z.of_nat (size (live now)))
  | OFindDAS q now => m' = live now /\ exists x, a = ADAS x /\ das_answer q (live now) x
  | OStoreLastCoA k attrs now now' =>
    if decide (sk_AcctSessionID k = []) then m' = m /\ a = ABool false
    else m' = alter (fun r => with_LastCoA r attrs now') k (live now) /\ a = ABool (bool_decide (is_Some (live now !! k)))
  | ODelete k now =>
    if decide (sk_AcctSessionID k = []) then m' = m /\ a = ABool false
    else m' = delete k (live now) /\ a = ABool (bool_decide (is_Some (live now !! k)))
  | OReset => m' = ∅ /\ a = AUnit
  end.

Lemma store_refines idx k attrs now now' :
  index_ok idx -> sk_AcctSessionID k <> [] ->
  let '(idx', b) := StoreLastCoA idx k attrs now now' in
  let m := live (ic_ttl (ix_conf idx)) now (abs idx) in
  index_ok idx' /\ ix_conf idx' = ix_conf idx
  /\ abs idx' = alter (fun r => with_LastCoA r attrs now') k m /\ b = bool_decide (is_Some (m !! k)).
Proof.
  intros Hi Hk. destruct (expire_index idx now Hi) as (Ho & Hc & Ha). unfold live. rewrite <- Ha. unfold StoreLastCoA.
  destruct (Z.eqb_spec (len (sk_AcctSessionID k)) 0) as [Hl|_]; [by apply len_zero in Hl|].
  set (i := expireLocked idx now) in *. clearbody i. rewrite <- Hc. destruct (ix_byKey i !! k) as [h|] eqn:Hh.
  - destruct (io_row _ Ho _ _ Hh) as (r & Hr & Hrk). rewrite Hr. destruct (io_key _ Ho _ _ Hr) as (_ & Hrh & _).
    destruct (replace_row i k h r (with_LastCoA r attrs now') Ho Hh Hr Hrk Hrh) as (Ho' & Ha' & Hl' & _ & _).
    split_and!; [done|done|by rewrite Ha', (alter_present _ _ r)|]. rewrite Hl'. by rewrite bool_decide_true by by eexists.
  - pose proof (proj2 (abs_None i k Ho) Hh) as Hn. split_and!; [done|done|by rewrite alter_absent|].
    rewrite Hn, bool_decide_false; [done|]. by intros [? ?].
Qed.

Lemma delete_refines idx k now :
  index_ok idx -> sk_AcctSessionID k <> [] ->
  let '(idx', b) := Delete idx k now in
  let m := live (ic_ttl (ix_conf idx)) now (abs idx) in
  index_ok idx' /\ ix_conf idx' = ix_conf idx /\ abs idx' = delete k m /\ b = bool_decide (is_Some (m !! k)).
Proof.
  intros Hi Hk. destruct (expire_index idx now Hi) as (Ho & Hc & Ha). unfold live. rewrite <- Ha. unfold Delete.
  destruct (Z.eqb_spec (len (sk_AcctSessionID k)) 0) as [Hl|_]; [by apply len_zero in Hl|].
  set (i := expireLocked idx now) in *. clearbody i. rewrite <- Hc. destruct (ix_byKey i !! k) as [h|] eqn:Hh.
  - split_and!; [by apply deleteKey_ok|apply deleteKey_conf|by apply deleteKey_abs|].
    rewrite bool_decide_true; [done|]. rewrite lookup_abs, Hh. simpl. destruct (io_row _ Ho _ _ Hh) as (r & -> & _). done.
  - pose proof (proj2 (abs_None i k Ho) Hh) as Hn. split_and!; [done|done|by rewrite delete_id|].
    rewrite Hn, bool_decide_false; [done|]. by intros [? ?].
Qed.

Lemma index_step_refines idx o :
  index_ok idx ->
  exists idx' a, step idx o = Some (idx', a) /\ index_ok idx' /\ ix_conf idx' = ix_conf idx
    /\ spec_step (ix_conf idx) (abs idx) o (abs idx') a.
Proof.
  intros Hi.
  assert (forall now, index_ok (expireLocked idx now) /\ ix_conf (expireLocked idx now) = ix_conf idx
    /\ abs (expireLocked idx now) = live (ic_ttl (ix_conf idx)) now (abs idx)) as He by (intros; by apply expire_index).
  destruct o as [ev now now' entropy|h now|k now|cursor limit now|now|q now|k attrs now now'|k now|]; cbn [step].
  - destruct (Apply_refines idx ev now now' entropy Hi) as (idx' & b & -> & Ho & Hc & h & Hf & Hs).
    exists idx', (ABool b). split_and!; [done..|]. by exists h, b.
  - eexists _, _. split; [done|]. unfold spec_step. pose proof (LookupHandle_answer idx h now) as Hl.
    case_decide as Hh; [by subst h|]. specialize (fun r => Hl r Hi Hh). revert Hl. unfold LookupHandle.
    destruct (Z.eqb_spec (len h) 0) as [H0|_]; [by apply len_zero in H0|]. cbn [prod_map fst snd id].
    intros Hl. destruct (He now) as (? & ? & ?). split_and!; [done..|]. by eexists.
  - eexists _, _. split; [done|]. unfold spec_step. pose proof (LookupKey_answer idx k now Hi) as Hl. revert Hl.
    unfold LookupKey. case_decide as Hk.
    + by rewrite (proj2 (Z.eqb_eq _ _) (proj2 (len_zero _) Hk)).
    + destruct (Z.eqb_spec (len (sk_AcctSessionID k)) 0) as [H0|_]; [by apply len_zero in H0|].
      cbn [prod_map fst snd id]. intros Hl. destruct (He now) as (? & ? & ?). split_and!; [done..|]. by rewrite Hl.
  - eexists _, _. split; [done|]. pose proof (List_page idx cursor limit now Hi) as Hp. destruct (He now) as (? & ? & ?).
    split_and!; [done..|]. split; [done|]. by eexists.
  - eexists _, _. split; [done|]. destruct (He now) as (? & ? & Ha). split_and!; [done..|]. split; [done|].
    cbn [snd prod_map Len id]. by rewrite <- Ha, abs_size.
  - eexists _, _. split; [done|]. pose proof (FindDAS_answer idx q now Hi) as Hp. destruct (He now) as (? & ? & ?).
    split_and!; [done..|]. split; [done|]. by eexists.
  - eexists _, _. split; [done|]. unfold spec_step. case_decide as Hk.
    + unfold StoreLastCoA. by rewrite (proj2 (Z.eqb_eq _ _) (proj2 (len_zero _) Hk)).
    + pose proof (store_refines idx k attrs now now' Hi Hk) as Hs. destruct (StoreLastCoA _ _ _ _ _) as [idx' b].
      destruct Hs as (? & ? & ? & ->). by split_and!.
  - eexists _, _. split; [done|]. unfold spec_step. case_decide as Hk.
    + unfold Delete. by rewrite (proj2 (Z.eqb_eq _ _) (proj2 (len_zero _) Hk)).
    + pose proof (delete_refines idx k now Hi Hk) as Hs. destruct (Delete _ _ _) as [idx' b].
      destruct Hs as (? & ? & ? & ->). by split_and!.
  - eexists _, _. split; [done|]. split_and!; [|done|split; [|done]; apply map_eq; intros k; by rewrite lookup_abs, lookup_empty].
    split; simpl; try (intros ??; by rewrite lookup_empty); [by rewrite total_empty| |apply Hi].
    rewrite map_size_empty. pose proof (io_count _ Hi). lia.
Qed.

Fixpoint run (idx : SessionIndex) (l : list op) : option (SessionIndex * list answer) :=
  match l with
  | [] => Some (idx, [])
  | o :: l =>
    match step idx o with
    | None => None
    | Some (idx, a) => prod_map id (cons a) <$> run idx l
    end
  end.

Fixpoint spec_run (cf : indexConf) (m : table) (l : list op) (m' : table) (as_ : list answer) : Prop :=
  match l, as_ with
  | [], [] => m' = m
  | o :: l, a :: as_ => exists m1, spec_step cf m o m1 a /\ spec_run cf m1 l m' as_
  | _, _ => False
  end.

Lemma index_run_refines l idx :
  index_ok idx ->
  exists idx' as_, run idx l = Some (idx', as_) /\ index_ok idx' /\ ix_conf idx' = ix_conf idx
    /\ spec_run (ix_conf idx) (abs idx) l (abs idx') as_.
Proof.
  revert idx. induction l as [|o l IH]; intros idx Hi; simpl; [by exists idx, []|].
  destruct (index_step_refines idx o Hi) as (i1 & a & -> & Ho & Hc & Hs).
  destruct (IH i1 Ho) as (i2 & as_ & -> & Ho2 & Hc2 & Hr). exists i2, (a :: as_). rewrite Hc in Hr.
  split_and!; [done|done|congruence|]. by exists (abs i1).
Qed.

Lemma NewSessionIndex_ok entries bytes ttl idx :
  NewSessionIndex entries bytes ttl = Some idx -> index_ok idx /\ abs idx = ∅ /\ ix_conf idx = mkIndexConf entries bytes ttl.
Proof.
  unfold NewSessionIndex. destruct (_ || _) eqn:E; [done|]. intros [= <-]. bool_hyps. split_and!; [|done|done].
  split; simpl; try (intros ??; by rewrite lookup_empty); [by rewrite total_empty|rewrite map_size_empty; lia|lia].
Qed.


(** A used index, evaluated: two Starts, an interim, a stop and a repeated
    Start whose longer Class takes the total past the byte cap. *)
Definition sample_event (kind : string) (sid class : bytes) : AcctEvent :=
  mkAcctEvent kind [1] [2] [3] sid None [] 0 (mkAddrPort (Some [10; 0; 0; 1]) 1812) class None 1.

Definition sample_entropy (seed : Z) (i : nat) : option bytes := Some (repeat (seed + Z.of_nat i) 10).

Definition sample_ops : list op :=
  [OApply (sample_event EventStart [65] []) 0 0 (sample_entropy 1);
   OApply (sample_event EventStart [66] []) 5 5 (sample_entropy 2);
   OApply (sample_event EventStop [66] []) 6 6 (sample_entropy 3);
   OApply (sample_event EventStart [65] (repeat 7 253)) 7 7 (sample_entropy 4);
   OFindDAS (mkDASQuery [] [65] [] None []) 8; OLen 9].

Definition observed (r : option (SessionIndex * list answer)) : option (Z * Z * Z) :=
  match r with
  | Some (idx, as_) => Some (Z.of_nat (size (ix_byHandle idx)), ix_bytes idx, len as_)
  | None => None
  end.

(** The byte cap is checked when a row is inserted, not when it grows. *)
Example byte_cap_is_soft :
  observed (match NewSessionIndex 4 448 100 with Some idx => run idx sample_ops | None => None end) = Some (1, 475, 6).
Proof. vm_compute. reflexivity. Qed.

