(* ===== verification/AaaAccounting.v ===== *)
(** * AAA service: accounting

    [internal/aaa/account.go], [radius_accounting.go] and [dictionary.go]: what
    the service does with a TACACS+ or RADIUS accounting record: check it,
    store one event in the ring, and (RADIUS) feed the CoA session index.
    Times of events are nanoseconds since Go's zero time, the index's clock
    counts from the Unix epoch.  Configuration text and dictionary names are
    ASCII.  Metrics have no model. *)

From Stdlib Require Import Ascii.
From stdpp Require Import gmap strings pretty.
From S2P Require Import Prelude Text BoundedStore StableSort Policy Events Domain SessionIndex.

#[local] Open Scope Z_scope.

(** ** The service and the snapshot's settings it reads *)

Record Service := mkService { sv_events : Ring; sv_radiusSessions : option SessionIndex }.

Record Settings := mkSettings {
  st_MaxAuthorizationArguments : Z;
  st_MaxArgumentBytes : Z;
  st_IncludeAccounting : bool;
}.

Record ClientAccounting := mkClientAccounting {
  ca_Enabled : bool; ca_AcceptStart : bool; ca_AcceptStop : bool; ca_AcceptWatchdog : bool;
}.

(** [s.snap()]: nil, or a snapshot whose settings may be nil. *)
Record Snapshot := mkSnapshot { sn_Settings : option Settings; sn_Client : gmap string ClientAccounting }.

Definition settings (snap : option Snapshot) : option Settings := snap ≫= sn_Settings.

Definition includeAccounting (snap : option Snapshot) : bool :=
  match settings snap with Some s => st_IncludeAccounting s | None => true end.

Inductive aaa_error :=
| ErrCancelled | ErrFlags | ErrClientAccounting | ErrArgumentCount | ErrArgumentBytes | ErrArgument
| ErrTimezone | ErrEpoch | ErrKind | ErrProtocol | ErrTerminateCause | ErrRingRejected.

(** [CheckCount] and [CheckBytes] (observability/governor.go) on a length. *)
Definition CheckCount (n max : Z) : bool := (max <=? 0) || (n <=? max).
Definition CheckBytes (b : string) (max : Z) : bool := (max <=? 0) || (slen b <=? max).

Definition limit_or (def : Z) (v : Z) : Z := if v >? 0 then v else def.
Definition maxArgs (snap : option Snapshot) : Z :=
  match settings snap with Some s => limit_or 256 (st_MaxAuthorizationArguments s) | None => 256 end.
Definition maxArgumentBytes (snap : option Snapshot) : Z :=
  match settings snap with Some s => limit_or 65535 (st_MaxArgumentBytes s) | None => 65535 end.

(** [int64(n)] *)
Definition to_i64 (n : Z) : Z := (n + 9223372036854775808) mod 18446744073709551616 - 9223372036854775808.

(** [time.Unix(sec, 0)] *)
Definition unixToInternal := 62135596800.
Definition unix_time (sec : Z) : Z := to_i64 (sec + unixToInternal) * 1000000000.

(** ** TACACS+ accounting (account.go, dictionary.go) *)

Definition AcctFlagWatchdogUpdate := 10.

Definition ValidAcctFlags (flags : Z) : bool :=
  (flags =? AcctFlagStart) || (flags =? AcctFlagStop) || (flags =? AcctFlagWatchdog) || (flags =? AcctFlagWatchdogUpdate).

Record AccountingRecord := mkAccountingRecord {
  ar_Flags : Z;
  ar_UserID : string;
  ar_ClientID : string;
  ar_SessionID : Z;
  ar_Arguments : list AVPair;
  ar_Revision : Z;
  ar_Transport : string;
  ar_Port : string;
  ar_Remote : string;
  ar_AuthenMethod : Z;
  ar_Privilege : Z;
  ar_AuthenType : Z;
  ar_Service : Z;
}.

(** Whether [clientAccepts] returns nil. *)
Definition clientAccepts (snap : option Snapshot) (rec : AccountingRecord) : bool :=
  match snap with
  | None => true
  | Some sn =>
    if str_eqb (ar_ClientID rec) "" then true else
    match sn_Client sn !! ar_ClientID rec with
    | None => true
    | Some acct =>
      if negb (ca_Enabled acct) then false
      else if ar_Flags rec =? AcctFlagStart then ca_AcceptStart acct
      else if ar_Flags rec =? AcctFlagStop then ca_AcceptStop acct
      else if (ar_Flags rec =? AcctFlagWatchdog) || (ar_Flags rec =? AcctFlagWatchdogUpdate) then ca_AcceptWatchdog acct
      else true
    end
  end.

Definition checkArgBudget (snap : option Snapshot) (args : list AVPair) : result aaa_error unit :=
  if len args =? 0 then Ok tt else
  let! _ := guard (CheckCount (len args) (maxArgs snap)) ErrArgumentCount in
  guard (forallb (fun a => CheckBytes (Text.cat (Policy.av_Name a) (Text.cat "=" (Policy.av_Value a))) (maxArgumentBytes snap)) args)
    ErrArgumentBytes.

Definition acctType (flags : Z) : string :=
  default "unknown" (switch_code flags
    [(AcctFlagStart, "start"); (AcctFlagStop, "stop"); (AcctFlagWatchdog, "watchdog");
     (AcctFlagWatchdogUpdate, "watchdog_update")]%string).

Definition commandText (args : list AVPair) : string :=
  let step '(cmd, extras) p :=
    if str_eqb (Policy.av_Name p) "cmd" then (if str_eqb cmd "" then Policy.av_Value p else cmd, extras)
    else if str_eqb (Policy.av_Name p) "cmd-arg" then (cmd, extras ++ [Policy.av_Value p])
    else (cmd, extras) in
  let '(cmd, extras) := fold_left step args ("", []) in
  if str_eqb cmd "" then "" else fold_left (fun out a => Text.cat out (Text.cat " " a)) extras cmd.

(** [r > unicode.MaxASCII || r < 0x20 || r == 0x7f], for every rune: a byte
    from 0x80 starts a rune above ASCII or an invalid one. *)
Fixpoint requirePrintable (value : string) : bool :=
  match value with
  | EmptyString => true
  | String c value => let n := Z.of_N (N_of_ascii c) in (32 <=? n) && (n <? 127) && requirePrintable value
  end.

Section TacacsAccounting.
(** [net.ParseIP] and the time-zone database. *)
Variable ParseIP : string -> bool.
Variable IANALocation : string -> bool.

Definition validateAccountingValue (p : AVPair) : bool :=
  let printable := existsb (str_eqb (Policy.av_Name p)) ["task_id"; "reason"; "err_msg"; "event"]%string in
  if printable && negb (requirePrintable (Policy.av_Value p)) then false else ValidatePair ParseIP IANALocation p.

(** The location changes how a time prints, not the instant. *)
Definition ParseEpochSeconds (value : string) : option Z :=
  match parseBoundedUint value with Some n => Some (unix_time (to_i64 n)) | None => None end.

Record parsedAcct := mkParsed {
  pa_taskID : string;
  pa_args : list AVPair;
  pa_startTime : option Z;
  pa_stopTime : option Z;
}.

(** The first loop: the time zone, the task identifier, the pairs. *)
Fixpoint parse_pairs (args : list AVPair) (tzName taskID : string) (out : list AVPair)
  : result aaa_error (string * string * list AVPair) :=
  match args with
  | [] => Ok (tzName, taskID, out)
  | p :: args =>
    let! _ := guard (bool_decide (Validate p = None)) ErrArgument in
    let! _ := guard (validateAccountingValue p) ErrArgument in
    parse_pairs args
      (if str_eqb (Policy.av_Name p) "timezone" && str_eqb tzName "" then Policy.av_Value p else tzName)
      (if str_eqb (Policy.av_Name p) "task_id" && str_eqb taskID "" then Policy.av_Value p else taskID)
      (out ++ [p])
  end.

(** The second loop: the last start and stop times. *)
Fixpoint parse_times (args : list AVPair) (start stop : option Z) : result aaa_error (option Z * option Z) :=
  match args with
  | [] => Ok (start, stop)
  | p :: args =>
    if str_eqb (Policy.av_Name p) "start_time" then
      match ParseEpochSeconds (Policy.av_Value p) with Some t => parse_times args (Some t) stop | None => Err ErrEpoch end
    else if str_eqb (Policy.av_Name p) "stop_time" then
      match ParseEpochSeconds (Policy.av_Value p) with Some t => parse_times args start (Some t) | None => Err ErrEpoch end
    else parse_times args start stop
  end.

Definition parseAccountingArgs (args : list AVPair) : result aaa_error parsedAcct :=
  if len args =? 0 then Ok (mkParsed "" [] None None) else
  let! x := parse_pairs args "" "" [] in
  let '(tzName, taskID, out) := x in
  let! _ := guard (str_eqb tzName "" || LoadLocation IANALocation tzName) ErrTimezone in
  let! y := parse_times out None None in
  let '(start, stop) := y in
  Ok (mkParsed taskID out start stop).

(** The event of a record whose arguments parsed. *)
Definition accounting_event (snap : option Snapshot) (rec : AccountingRecord) (args : list AVPair) (parsed : parsedAcct)
  : Event :=
  mkEvent 0 0 0 "acct" (acctType (ar_Flags rec)) "success" (ar_Transport rec) (ar_ClientID rec) (ar_SessionID rec)
    (ar_Revision rec) (ar_UserID rec) (commandText args) (pa_taskID parsed)
    (map (fun p => mkEventAV (Policy.av_Name p) (String (Policy.av_Separator p) "") (Policy.av_Value p)) (pa_args parsed))
    (pa_startTime parsed) (pa_stopTime parsed)
    (AuthenMethod_String (ar_AuthenMethod rec)) (AuthenType_String (ar_AuthenType rec)) (AuthenService_String (ar_Service rec))
    (to_u8 (ar_Privilege rec)) (ar_Port rec) (ar_Remote rec) "" "" "" "" "" "" "" "" ""
    (negb (includeAccounting snap)).

(** [Ok] carries the event identifier of the acknowledgement. *)
Definition RecordAccounting (s : Service) (snap : option Snapshot) (cancelled : bool) (now : Z) (rec : AccountingRecord)
  : Service * result aaa_error Z :=
  let checked :=
    let! _ := guard (negb cancelled) ErrCancelled in
    let! _ := guard (ValidAcctFlags (ar_Flags rec)) ErrFlags in
    let! _ := guard (clientAccepts snap rec) ErrClientAccounting in
    let args := if ar_Flags rec =? AcctFlagWatchdog then [] else ar_Arguments rec in
    let! _ := checkArgBudget snap args in
    let! parsed := parseAccountingArgs args in
    Ok (args, parsed) in
  match checked with
  | Err e => (s, Err e)
  | Ok (args, parsed) =>
    let '(ring, accepted) := Accept (sv_events s) now (accounting_event snap rec args parsed) in
    let s := mkService ring (sv_radiusSessions s) in
    if ev_ID accepted =? 0 then (s, Err ErrRingRejected) else (s, Ok (ev_ID accepted))
  end.
End TacacsAccounting.

(** ** RADIUS accounting (radius_accounting.go) *)

Definition AccountingStart : string := "start".
Definition AccountingStop : string := "stop".
Definition AccountingInterim : string := "interim_update".
Definition AccountingOn : string := "accounting_on".
Definition AccountingOff : string := "accounting_off".

Definition AccountingKind_Valid (k : string) : bool :=
  one_of [AccountingStart; AccountingStop; AccountingInterim; AccountingOn; AccountingOff] k.

Record SafeAttributeSummary := mkSafe { sa_Name : string; sa_Count : Z }.

(** [domain.RequestContext]; the fields no modelled code reads are left out. *)
Record RequestContext := mkContext {
  rc_Protocol : string;
  rc_Carrier : string;
  rc_ListenerRole : string;
  rc_ListenerID : bytes;
  rc_ClientID : bytes;
  rc_EndpointID : bytes;
  rc_Peer : AddrPort;
  rc_SnapshotRevision : Z;
}.

(** [SessionTime] is a [time.Duration] in nanoseconds. *)
Record RADIUSAccountingRecord := mkRADIUSRecord {
  rr_Context : RequestContext;
  rr_Kind : string;
  rr_UserID : bytes;
  rr_SessionID : bytes;
  rr_StartedAt : option Z;
  rr_SessionTime : Z;
  rr_InputOctets : Z;
  rr_OutputOctets : Z;
  rr_TerminateCause : string;
  rr_SafeAttributes : list SafeAttributeSummary;
  rr_IdempotencyKey : string;
  rr_NASIP : Addr;
  rr_NASIdentifier : bytes;
  rr_NASPort : Z;
  rr_Class : bytes;
}.

Definition RedactedValue : string := "<redacted>".
Definition RedactedAV (name : string) : EventAV := mkEventAV name "" RedactedValue.

(** [strings.ReplaceAll(s, "_", "-")] *)
Fixpoint dashes (s : string) : string :=
  match s with String c r => String (if is_octet 95 c then "-"%char else c) (dashes r) | EmptyString => s end.

Definition terminateCauses : list (string * string) :=
  [("user-request", "User-Request"); ("lost-carrier", "Lost-Carrier"); ("lost-service", "Lost-Service");
   ("idle-timeout", "Idle-Timeout"); ("session-timeout", "Session-Timeout"); ("admin-reset", "Admin-Reset");
   ("admin-reboot", "Admin-Reboot"); ("port-error", "Port-Error"); ("nas-error", "NAS-Error");
   ("nas-request", "NAS-Request"); ("nas-reboot", "NAS-Reboot"); ("port-unneeded", "Port-Unneeded");
   ("port-preempted", "Port-Preempted"); ("port-suspended", "Port-Suspended");
   ("service-unavailable", "Service-Unavailable"); ("callback", "Callback"); ("user-error", "User-Error");
   ("host-request", "Host-Request")]%string.

Definition canonicalTerminateCause (s : string) : option string :=
  switch_name (ToLower (dashes (TrimSpace s))) terminateCauses.

Definition checkSafeAttributeBudget (snap : option Snapshot) (attrs : list SafeAttributeSummary) : bool :=
  if len attrs =? 0 then true else CheckCount (len attrs) (maxArgs snap).

(** The loop of [radiusAccountingAVs]: the redacted names, and whether one of
    them is the session identifier. *)
Fixpoint safe_avs (attrs : list SafeAttributeSummary) (out : list EventAV) (seenSession : bool) : list EventAV * bool :=
  match attrs with
  | [] => (out, seenSession)
  | a :: attrs =>
    let name := TrimSpace (sa_Name a) in
    if str_eqb name "" then safe_avs attrs out seenSession else
    let seenSession :=
      seenSession || str_eqb (ToLower name) (ToLower "Acct-Session-Id") || String.prefix "acct-session-id#" (ToLower name) in
    let name := if sa_Count a >? 1 then Text.cat name (Text.cat "#" (FormatUint (sa_Count a))) else name in
    safe_avs attrs (out ++ [RedactedAV name]) seenSession
  end.

Definition radiusAccountingAVs (rec : RADIUSAccountingRecord) : list EventAV :=
  let '(out, seenSession) := safe_avs (rr_SafeAttributes rec) [] false in
  let out := if negb (len (rr_SessionID rec) =? 0) && negb seenSession then out ++ [RedactedAV "Acct-Session-Id"] else out in
  let out := if negb (rr_InputOctets rec =? 0) then out ++ [mkEventAV "Acct-Input-Octets" "" (FormatUint (rr_InputOctets rec))] else out in
  let out := if negb (rr_OutputOctets rec =? 0) then out ++ [mkEventAV "Acct-Output-Octets" "" (FormatUint (rr_OutputOctets rec))] else out in
  let out := if rr_SessionTime rec >? 0
             then out ++ [mkEventAV "Acct-Session-Time" "" (FormatUint (Z.quot (rr_SessionTime rec) 1000000000))] else out in
  if negb (str_eqb (rr_TerminateCause rec) "") then out ++ [mkEventAV "Acct-Terminate-Cause" "" (rr_TerminateCause rec)] else out.

Definition with_TerminateCause (rec : RADIUSAccountingRecord) (cause : string) : RADIUSAccountingRecord :=
  mkRADIUSRecord (rr_Context rec) (rr_Kind rec) (rr_UserID rec) (rr_SessionID rec) (rr_StartedAt rec) (rr_SessionTime rec)
    (rr_InputOctets rec) (rr_OutputOctets rec) cause (rr_SafeAttributes rec) (rr_IdempotencyKey rec) (rr_NASIP rec)
    (rr_NASIdentifier rec) (rr_NASPort rec) (rr_Class rec).

Definition radius_event (snap : option Snapshot) (rec : RADIUSAccountingRecord) : Event :=
  let c := rr_Context rec in
  mkEvent 0 0 0 "acct" (rr_Kind rec) "success" "" (text_of (rc_ClientID c)) 0 (rc_SnapshotRevision c)
    (text_of (rr_UserID rec)) "" "" (radiusAccountingAVs rec) (rr_StartedAt rec) None "" "" "" 0 ""
    (if addrport_valid (rc_Peer c) then AddrPort_String (ap_Addr (rc_Peer c)) (ap_Port (rc_Peer c)) else "")
    (if str_eqb (rc_Protocol c) "" then ProtocolRADIUS else rc_Protocol c) (rc_Carrier c)
    (if str_eqb (rc_ListenerRole c) "" then RoleAccounting else rc_ListenerRole c)
    (text_of (rc_ListenerID c)) "" "success" "" (text_of (rc_EndpointID c)) (text_of (rr_SessionID rec))
    (negb (includeAccounting snap)).

(** The index counts from the Unix epoch; [time.Time{}] is its [None]. *)
Definition toSessionEvent (rec : RADIUSAccountingRecord) : AcctEvent :=
  let c := rr_Context rec in
  let started := default 0 (rr_StartedAt rec) in
  mkAcctEvent (rr_Kind rec) (rc_EndpointID c) (rc_ClientID c) (rr_UserID rec) (rr_SessionID rec) (rr_NASIP rec)
    (rr_NASIdentifier rec) (rr_NASPort rec) (rc_Peer c) (rr_Class rec)
    (if started =? 0 then None else Some (started - unixToInternal * 1000000000)) (rc_SnapshotRevision c).

(** What the service is given besides the record: the context, the ring's
    clock, the index's clock readings and its entropy. *)
Record call := mkCall {
  cl_cancelled : bool;
  cl_now : Z;
  cl_index_now : Z;
  cl_index_now' : Z;
  cl_entropy : nat -> option bytes;
}.

(** The record as stored, or the error of a check. *)
Definition check_radius (snap : option Snapshot) (c : call) (rec : RADIUSAccountingRecord)
  : result aaa_error RADIUSAccountingRecord :=
  let! _ := guard (negb (cl_cancelled c)) ErrCancelled in
  let! _ := guard (AccountingKind_Valid (rr_Kind rec)) ErrKind in
  let! _ := guard (str_eqb (rc_Protocol (rr_Context rec)) "" || str_eqb (rc_Protocol (rr_Context rec)) ProtocolRADIUS) ErrProtocol in
  let! rec :=
    (if str_eqb (rr_TerminateCause rec) "" then Ok rec
     else match canonicalTerminateCause (rr_TerminateCause rec) with
          | Some canon => Ok (with_TerminateCause rec canon)
          | None => Err ErrTerminateCause
          end) in
  let! _ := guard (checkSafeAttributeBudget snap (rr_SafeAttributes rec)) ErrArgumentCount in
  Ok rec.

(** [None] is a panic of the index. *)
Definition RecordRADIUSAccounting (s : Service) (snap : option Snapshot) (c : call) (rec : RADIUSAccountingRecord)
  : option (Service * result aaa_error Z) :=
  match check_radius snap c rec with
  | Err e => Some (s, Err e)
  | Ok rec =>
    let '(ring, accepted) := Accept (sv_events s) (cl_now c) (radius_event snap rec) in
    if ev_ID accepted =? 0 then Some (mkService ring (sv_radiusSessions s), Err ErrRingRejected)
    else match sv_radiusSessions s with
    | None => Some (mkService ring None, Ok (ev_ID accepted))
    | Some idx =>
      match Apply idx (toSessionEvent rec) (cl_index_now c) (cl_index_now' c) (cl_entropy c) with
      | None => None
      | Some (idx, _) => Some (mkService ring (Some idx), Ok (ev_ID accepted))
      end
    end
  end.

(** ** The ring as the sink *)

Definition ring_open (r : Ring) : bool := negb (r_reject r || r_closed r).

(** [Accept] stores one event under the next identifier, or nothing. *)
Lemma Accept_sink cap r acc now e :
  log_inv cap r acc -> len acc + 1 < two64 ->
  if ring_open r
  then ev_ID (Accept r now e).2 = len acc + 1 /\ log_inv cap (Accept r now e).1 (acc ++ [stamp (len acc + 1) now e])
  else Accept r now e = (r, Event_zero).
Proof.
  intros Hi Hb. pose proof (log_step_inv cap r acc (OpAccept now e) Hi Hb) as Hs. unfold ring_open.
  destruct (r_reject r || r_closed r) eqn:Hr; cbn [negb].
  { apply Accept_refused. by apply orb_true_iff. }
  pose proof Hr as [Hr1 Hr2]%orb_false_iff.
  destruct (Accept_stored r now e Hr1 Hr2) as [Ha _].
  assert (inc_u64 (r_seq r) = len acc + 1) as Hq.
  { rewrite (li_seq _ _ _ Hi). unfold inc_u64. fold two64. rewrite Z.mod_small; [done|]. pose proof (len_nonneg acc). lia. }
  rewrite Hq in Ha. rewrite Ha. split; [done|]. revert Hs. cbn [Events.step]. rewrite Hr.
  destruct (Accept r now e) as [r' e'] eqn:HA. cbn [fst snd] in *. by subst e'.
Qed.

(** ** TACACS+ records *)

Section TacacsAccounting.
Variable ParseIP : string -> bool.
Variable IANALocation : string -> bool.

Definition pair_ok (p : AVPair) : Prop :=
  Validate p = None /\ validateAccountingValue ParseIP IANALocation p = true.

(** The value of the first argument of that name, after [acc]. *)
Definition first_named (name : string) (args : list AVPair) (acc : string) : string :=
  fold_left (fun acc p => if str_eqb (Policy.av_Name p) name && str_eqb acc "" then Policy.av_Value p else acc) args acc.

Lemma parse_pairs_spec args tz tid out :
  parse_pairs ParseIP IANALocation args tz tid out
  = if decide (Forall pair_ok args) then Ok (first_named "timezone" args tz, first_named "task_id" args tid, out ++ args)
    else Err ErrArgument.
Proof.
  revert tz tid out. induction args as [|p args IH]; intros tz tid out; cbn [parse_pairs].
  { rewrite decide_True by constructor. by rewrite app_nil_r. }
  unfold guard. case_bool_decide as Hp; cbn [rbind];
    [|rewrite decide_False; [done|]; by intros [ [? _] _]%Forall_cons_1].
  destruct (validateAccountingValue ParseIP IANALocation p) eqn:Hv; cbn [rbind];
    [|rewrite decide_False; [done|]; intros [ [_ ?] _]%Forall_cons_1; congruence].
  rewrite IH. destruct (decide (Forall pair_ok args)) as [Ha|Ha].
  - rewrite (decide_True (P := Forall pair_ok (p :: args))) by (by constructor).
    unfold first_named. cbn [fold_left]. by rewrite <- app_assoc.
  - rewrite (decide_False (P := Forall pair_ok (p :: args))); [done|]. by intros [_ ?]%Forall_cons_1.
Qed.

Definition epoch_ok (p : AVPair) : Prop :=
  Policy.av_Name p = "start_time"%string \/ Policy.av_Name p = "stop_time"%string -> is_Some (parseBoundedUint (Policy.av_Value p)).

(** The time of the last argument of that name. *)
Definition last_time (name : string) (args : list AVPair) (acc : option Z) : option Z :=
  fold_left (fun acc p => if str_eqb (Policy.av_Name p) name then ParseEpochSeconds (Policy.av_Value p) else acc) args acc.

Lemma parse_times_spec args start stop :
  parse_times args start stop = Ok (last_time "start_time" args start, last_time "stop_time" args stop) /\ Forall epoch_ok args
  \/ parse_times args start stop = Err ErrEpoch /\ ~ Forall epoch_ok args.
Proof.
  revert start stop. induction args as [|p args IH]; intros start stop; cbn [parse_times]; [left; split; [done|constructor]|].
  unfold last_time, str_eqb. cbn [fold_left].
  assert (forall (b : Prop), (ParseEpochSeconds (Policy.av_Value p) = None -> ~ is_Some (parseBoundedUint (Policy.av_Value p)))
    /\ (forall t, ParseEpochSeconds (Policy.av_Value p) = Some t -> is_Some (parseBoundedUint (Policy.av_Value p)))) as Hp.
  { intros _. unfold ParseEpochSeconds. by destruct (parseBoundedUint _) as [n|]; split; intros; try done; intros [? ?]. }
  destruct (Hp True) as [Hp0 Hp1].
  case_bool_decide as H1.
  - rewrite bool_decide_false by congruence. destruct (ParseEpochSeconds (Policy.av_Value p)) as [t|] eqn:Et.
    + destruct (IH (Some t) stop) as [ [-> Hf]|[-> Hf] ]; [left|right]; (split; [done|]).
      * constructor; [by intros _; apply (Hp1 t)|done].
      * by intros [_ ?]%Forall_cons_1.
    + right. split; [done|]. intros [He _]%Forall_cons_1. apply Hp0; [done|]. apply He. by left.
  - case_bool_decide as H2.
    + destruct (ParseEpochSeconds (Policy.av_Value p)) as [t|] eqn:Et.
      * destruct (IH start (Some t)) as [ [-> Hf]|[-> Hf] ]; [left|right]; (split; [done|]).
        -- constructor; [by intros _; apply (Hp1 t)|done].
        -- by intros [_ ?]%Forall_cons_1.
      * right. split; [done|]. intros [He _]%Forall_cons_1. apply Hp0; [done|]. apply He. by right.
    + destruct (IH start stop) as [ [-> Hf]|[-> Hf] ]; [left|right]; (split; [done|]).
      * constructor; [intros [?|?]; done|done].
      * by intros [_ ?]%Forall_cons_1.
Qed.

(** The arguments the record is checked and stored with. *)
Definition recorded_args (rec : AccountingRecord) : list AVPair :=
  if ar_Flags rec =? AcctFlagWatchdog then [] else ar_Arguments rec.

Definition args_in_budget (snap : option Snapshot) (args : list AVPair) : Prop :=
  args = [] \/ (maxArgs snap <= 0 \/ len args <= maxArgs snap)
    /\ Forall (fun p => maxArgumentBytes snap <= 0 \/ EncodedLen p <= maxArgumentBytes snap) args.

Definition args_parse (args : list AVPair) : Prop :=
  Forall pair_ok args
  /\ (first_named "timezone" args "" = "" \/ LoadLocation IANALocation (first_named "timezone" args "") = true)
  /\ Forall epoch_ok args.

(** What a parsed record is. *)
Definition parsed_of (args : list AVPair) : parsedAcct :=
  mkParsed (first_named "task_id" args "") args (last_time "start_time" args None) (last_time "stop_time" args None).

Lemma string_append_length a b : String.length (String.append a b) = (String.length a + String.length b)%nat.
Proof. induction a as [|c a IH]; simpl; [done|]. by rewrite IH. Qed.

Lemma checkArgBudget_ok snap args : is_ok (checkArgBudget snap args) = true <-> args_in_budget snap args.
Proof.
  unfold checkArgBudget, args_in_budget. destruct (Z.eqb_spec (len args) 0) as [H0|H0].
  { apply len_zero in H0. split; [by left|done]. }
  assert (args <> []) as Hne by (by rewrite <- len_zero).
  assert (forall p max, CheckBytes (Text.cat (Policy.av_Name p) (Text.cat "=" (Policy.av_Value p))) max = true
    <-> max <= 0 \/ EncodedLen p <= max) as Hb.
  { intros p max. unfold CheckBytes. rewrite orb_true_iff, !Z.leb_le. unfold EncodedLen, slen, Text.cat.
    rewrite !string_append_length. simpl. lia. }
  unfold guard, CheckCount. destruct ((_ <=? 0) || (len args <=? _)) eqn:Ec; cbn [rbind].
  - rewrite orb_true_iff, !Z.leb_le in Ec. destruct (forallb _ args) eqn:Ef; cbn [is_ok].
    + split; [|done]. intros _. right. split; [done|]. rewrite forallb_forall in Ef. apply list.Forall_forall.
      intros p Hp. apply Hb, Ef. by apply list_elem_of_In.
    + split; [done|]. intros [?|[_ Hf] ]; [done|]. rewrite <- not_true_iff_false in Ef. destruct Ef.
      apply forallb_forall. intros p Hp. apply Hb. rewrite list.Forall_forall in Hf. apply Hf. by apply list_elem_of_In.
  - rewrite orb_false_iff, !Z.leb_gt in Ec. cbn [is_ok]. split; [done|]. intros [?|[? _] ]; [done|lia].
Qed.

Lemma parseAccountingArgs_spec args :
  parseAccountingArgs ParseIP IANALocation args = Ok (parsed_of args) /\ args_parse args
  \/ is_ok (parseAccountingArgs ParseIP IANALocation args) = false /\ ~ args_parse args.
Proof.
  unfold parseAccountingArgs, args_parse. destruct (Z.eqb_spec (len args) 0) as [H0|H0].
  { apply len_zero in H0. subst. left. split; [done|]. split_and!; [constructor|by left|constructor]. }
  rewrite parse_pairs_spec. case_decide as Hp; cbn [rbind]; [|right; split; [done|tauto] ].
  rewrite app_nil_l. unfold guard.
  destruct (str_eqb _ "" || LoadLocation _ _) eqn:Et; cbn [rbind].
  - apply orb_true_iff in Et. unfold str_eqb in Et. rewrite bool_decide_eq_true in Et.
    destruct (parse_times_spec args None None) as [ [-> Hf]|[-> Hf] ]; cbn [rbind]; [by left|right; split; [done|tauto] ].
  - apply orb_false_iff in Et as [Et1 Et2]. unfold str_eqb in Et1. rewrite bool_decide_eq_false in Et1.
    right. split; [done|]. intros (_ & [?|?] & _); congruence.
Qed.

(** The checks a TACACS+ record must pass. *)
Definition tacacs_acceptable (snap : option Snapshot) (cancelled : bool) (rec : AccountingRecord) : Prop :=
  cancelled = false /\ ValidAcctFlags (ar_Flags rec) = true /\ clientAccepts snap rec = true
  /\ args_in_budget snap (recorded_args rec) /\ args_parse (recorded_args rec).

(** A record is acknowledged exactly when it is acceptable and the ring is
    open; then the log has grown by one event, whose identifier is the
    acknowledgement; otherwise nothing has changed. *)
Definition tacacs_recorded cap acc s snap cancelled now rec : Prop :=
  let args := recorded_args rec in
  let '(s', r) := RecordAccounting ParseIP IANALocation s snap cancelled now rec in
  sv_radiusSessions s' = sv_radiusSessions s
  /\ (is_ok r = true <-> tacacs_acceptable snap cancelled rec /\ ring_open (sv_events s) = true)
  /\ match r with
     | Ok id => id = len acc + 1
         /\ log_inv cap (sv_events s') (acc ++ [stamp id now (accounting_event snap rec args (parsed_of args))])
     | Err _ => s' = s
     end.

Lemma tacacs_accounting_recorded cap acc s snap cancelled now rec :
  log_inv cap (sv_events s) acc -> len acc + 1 < two64 -> tacacs_recorded cap acc s snap cancelled now rec.
Proof.
  intros Hi Hb. unfold tacacs_recorded. cbv zeta. unfold RecordAccounting, tacacs_acceptable, guard. fold (recorded_args rec).
  destruct cancelled; cbn [negb rbind]; [split_and!; [done|split; [done|intuition congruence]|done]|].
  destruct (ValidAcctFlags _); cbn [rbind]; [|split_and!; [done|split; [done|intuition congruence]|done] ].
  destruct (clientAccepts snap rec); cbn [rbind]; [|split_and!; [done|split; [done|intuition congruence]|done] ].
  pose proof (checkArgBudget_ok snap (recorded_args rec)) as Hbud.
  destruct (checkArgBudget _ _) as [u|e]; cbn [rbind is_ok] in *.
  2:{ split_and!; [done|split; [done|]|done]. intros [(_ & _ & _ & Hx & _) _]. by apply Hbud in Hx. }
  destruct (parseAccountingArgs_spec (recorded_args rec)) as [ [-> Hok]|[He Hno] ]; cbn [rbind].
  2:{ destruct (parseAccountingArgs _ _ _); [done|]. cbn [rbind]. split_and!; [done|split; [done|intuition congruence]|done]. }
  pose proof (Accept_sink cap _ acc now (accounting_event snap rec (recorded_args rec) (parsed_of (recorded_args rec))) Hi Hb) as Ha.
  pose proof (len_nonneg acc) as Hn. destruct (ring_open (sv_events s)).
  - destruct (Accept _ _ _) as [ring e]. cbn [fst snd] in Ha. destruct Ha as [He Hl]. rewrite He.
    destruct (Z.eqb_spec (len acc + 1) 0) as [Hz|_]; [lia|]. cbn [sv_radiusSessions sv_events is_ok].
    split_and!; [done| |done|done]. split; [|done]. intros _. split_and!; try done. by apply Hbud.
  - rewrite Ha. cbn. destruct s. split_and!; [done|split; [done|]|done]. by intros [_ ?].
Qed.
End TacacsAccounting.

(** ** RADIUS records *)

(** The record with its terminate cause in the canonical spelling. *)
Definition canonical (rec : RADIUSAccountingRecord) : RADIUSAccountingRecord :=
  if str_eqb (rr_TerminateCause rec) "" then rec
  else with_TerminateCause rec (default "" (canonicalTerminateCause (rr_TerminateCause rec))).

Definition radius_acceptable (snap : option Snapshot) (c : call) (rec : RADIUSAccountingRecord) : Prop :=
  cl_cancelled c = false
  /\ rr_Kind rec ∈ [AccountingStart; AccountingStop; AccountingInterim; AccountingOn; AccountingOff]
  /\ (rc_Protocol (rr_Context rec) = "" \/ rc_Protocol (rr_Context rec) = ProtocolRADIUS)
  /\ (rr_TerminateCause rec = "" \/ is_Some (canonicalTerminateCause (rr_TerminateCause rec)))
  /\ (rr_SafeAttributes rec = [] \/ maxArgs snap <= 0 \/ len (rr_SafeAttributes rec) <= maxArgs snap).

Lemma check_radius_spec snap c rec :
  check_radius snap c rec = Ok (canonical rec) /\ radius_acceptable snap c rec
  \/ is_ok (check_radius snap c rec) = false /\ ~ radius_acceptable snap c rec.
Proof.
  unfold check_radius, radius_acceptable, guard, canonical, str_eqb.
  destruct (cl_cancelled c); cbn [negb rbind]; [right; split; [done|intuition congruence]|].
  destruct (AccountingKind_Valid (rr_Kind rec)) eqn:Hk; cbn [rbind].
  2:{ right. split; [done|]. intros (_ & Hx & _). apply one_of_spec in Hx. unfold AccountingKind_Valid in Hk. congruence. }
  apply one_of_spec in Hk.
  destruct (_ || _) eqn:Hp; cbn [rbind].
  2:{ right. split; [done|]. apply orb_false_iff in Hp. rewrite !bool_decide_eq_false in Hp. intuition congruence. }
  apply orb_true_iff in Hp. rewrite !bool_decide_eq_true in Hp.
  assert (forall r, rr_SafeAttributes r = rr_SafeAttributes rec ->
    checkSafeAttributeBudget snap (rr_SafeAttributes r) = true
    <-> rr_SafeAttributes rec = [] \/ maxArgs snap <= 0 \/ len (rr_SafeAttributes rec) <= maxArgs snap) as Hb.
  { intros r ->. unfold checkSafeAttributeBudget, CheckCount. destruct (Z.eqb_spec (len (rr_SafeAttributes rec)) 0) as [H0|H0].
    - apply len_zero in H0. by split; [left|].
    - rewrite orb_true_iff, !Z.leb_le. split; [by right|]. intros [Hn|?]; [by rewrite Hn in H0|done]. }
  case_bool_decide as Hc; cbn [rbind].
  - specialize (Hb rec eq_refl). destruct (checkSafeAttributeBudget _ _); cbn [rbind is_ok].
    + left. split; [done|]. split_and!; try done; [by left|by apply Hb].
    + right. split; [done|]. intros (_ & _ & _ & _ & Hx). by apply Hb in Hx.
  - destruct (canonicalTerminateCause _) as [canon|] eqn:Hcc; cbn [rbind].
    + specialize (Hb (with_TerminateCause rec canon) eq_refl). destruct (checkSafeAttributeBudget _ _); cbn [rbind is_ok].
      * left. split; [done|]. split_and!; try done; [right; by eexists|by apply Hb].
      * right. split; [done|]. intros (_ & _ & _ & _ & Hx). by apply Hb in Hx.
    + right. split; [done|]. intros (_ & _ & _ & [?|[? ?] ] & _); [done|congruence].
Qed.

Lemma safe_avs_redacted attrs out seen :
  Forall (fun av => Events.av_Value av = RedactedValue) out ->
  Forall (fun av => Events.av_Value av = RedactedValue) (safe_avs attrs out seen).1.
Proof.
  revert out seen. induction attrs as [|a attrs IH]; intros out seen Ho; [done|]. cbn [safe_avs].
  case_match; apply IH; [done|]. apply Forall_app_2; [done|]. by repeat constructor.
Qed.

Lemma in_snoc_if {A} (b : bool) (l : list A) x y : y ∈ (if b then l ++ [x] else l) -> y ∈ l \/ y = x.
Proof. destruct b; [|by left]. rewrite elem_of_app, list_elem_of_singleton. tauto. Qed.

(** The only values of an event are two counters, a duration and a cause. *)
Lemma radiusAccountingAVs_values rec av :
  av ∈ radiusAccountingAVs rec ->
  Events.av_Value av = RedactedValue
  \/ av = mkEventAV "Acct-Input-Octets" "" (FormatUint (rr_InputOctets rec))
  \/ av = mkEventAV "Acct-Output-Octets" "" (FormatUint (rr_OutputOctets rec))
  \/ av = mkEventAV "Acct-Session-Time" "" (FormatUint (Z.quot (rr_SessionTime rec) 1000000000))
  \/ av = mkEventAV "Acct-Terminate-Cause" "" (rr_TerminateCause rec).
Proof.
  unfold radiusAccountingAVs. pose proof (safe_avs_redacted (rr_SafeAttributes rec) [] false (Forall_nil_2 _)) as Hs.
  destruct (safe_avs _ _ _) as [out seen]. cbn [fst] in Hs. rewrite list.Forall_forall in Hs.
  intros [ [ [ [ [Hav|Hav]%in_snoc_if|Hav]%in_snoc_if|Hav]%in_snoc_if|Hav]%in_snoc_if|Hav]%in_snoc_if;
    [left; by apply Hs|left; by rewrite Hav|tauto..].
Qed.

(** The sessions after a record: the index's specification, or no index. *)
Definition sessions_ok (s : Service) : Prop :=
  match sv_radiusSessions s with Some idx => index_ok idx | None => True end.

Definition sessions_fed (before after : option SessionIndex) (c : call) (rec : RADIUSAccountingRecord) : Prop :=
  match before, after with
  | None, None => True
  | Some idx, Some idx' =>
    exists h b, fresh_handle (live (ic_ttl (ix_conf idx)) (cl_index_now c) (abs idx)) h
      /\ (abs idx', b) = spec_apply (ix_conf idx) (live (ic_ttl (ix_conf idx)) (cl_index_now c) (abs idx))
                           (toSessionEvent rec) (cl_index_now' c) h
  | _, _ => False
  end.

(** The same for a RADIUS record: the service does not panic, the session
    index applies what is acknowledged, and every argument of the event is
    redacted except two octet counts, the session time and the cause. *)
Definition radius_recorded cap acc s snap c rec : Prop :=
  exists s' r, RecordRADIUSAccounting s snap c rec = Some (s', r)
  /\ sessions_ok s'
  /\ (is_ok r = true <-> radius_acceptable snap c rec /\ ring_open (sv_events s) = true)
  /\ match r with
     | Ok id => id = len acc + 1
         /\ log_inv cap (sv_events s') (acc ++ [stamp id (cl_now c) (radius_event snap (canonical rec))])
         /\ sessions_fed (sv_radiusSessions s) (sv_radiusSessions s') c (canonical rec)
         /\ forall av, av ∈ ev_Arguments (radius_event snap (canonical rec)) ->
              Events.av_Value av = RedactedValue
              \/ Events.av_Name av ∈ ["Acct-Input-Octets"; "Acct-Output-Octets"; "Acct-Session-Time"; "Acct-Terminate-Cause"]%string
     | Err _ => s' = s
     end.

Lemma radius_accounting_recorded cap acc s snap c rec :
  log_inv cap (sv_events s) acc -> len acc + 1 < two64 -> sessions_ok s -> radius_recorded cap acc s snap c rec.
Proof.
  intros Hi Hb Hs. unfold radius_recorded, RecordRADIUSAccounting.
  destruct (check_radius_spec snap c rec) as [ [-> Hok]|[He Hno] ].
  2:{ destruct (check_radius snap c rec) as [?|e]; [done|]. exists s, (Err e). split_and!; try done. by split; [|intros [? _] ]. }
  pose proof (Accept_sink cap _ acc (cl_now c) (radius_event snap (canonical rec)) Hi Hb) as Ha.
  pose proof (len_nonneg acc) as Hn. destruct (ring_open (sv_events s)).
  2:{ rewrite Ha. cbn. exists s, (Err ErrRingRejected). destruct s. split_and!; try done. by split; [|intros [_ ?] ]. }
  destruct (Accept _ _ _) as [ring e]. cbn [fst snd] in Ha. destruct Ha as [He Hl]. rewrite He.
  destruct (Z.eqb_spec (len acc + 1) 0) as [Hz|_]; [lia|].
  assert (forall av, av ∈ ev_Arguments (radius_event snap (canonical rec)) ->
              Events.av_Value av = RedactedValue
              \/ Events.av_Name av ∈ ["Acct-Input-Octets"; "Acct-Output-Octets"; "Acct-Session-Time"; "Acct-Terminate-Cause"]%string) as Hav.
  { intros av [?|[->|[->|[->| ->] ] ] ]%radiusAccountingAVs_values; [by left|right..]; cbn [Events.av_Name]; set_solver. }
  unfold sessions_ok, sessions_fed in *. destruct (sv_radiusSessions s) as [idx|] eqn:Hx.
  - destruct (Apply_refines idx (toSessionEvent (canonical rec)) (cl_index_now c) (cl_index_now' c) (cl_entropy c) Hs)
      as (idx' & b & -> & Ho & _ & h & Hf & Hsp).
    exists (mkService ring (Some idx')), (Ok (len acc + 1)). split_and!; try done. by exists h, b.
  - exists (mkService ring None), (Ok (len acc + 1)). by split_and!.
Qed.

(** ** Accounting *)

(** C31. Accounting acknowledges what it stored, for both protocols.  A TACACS+
    record is acknowledged exactly when the request is live, its flags are one
    of the four combinations, the client accepts that kind, its arguments fit
    the budget and parse, and the ring is open; a RADIUS record exactly when it
    passes its checks and the ring is open, whatever the session index does.
    Then the ring's log has grown by one event whose identifier is the
    acknowledgement: it carries a TACACS+ record's arguments in order, its
    command, task and times, and of a RADIUS record's attributes the names
    without values; and the session index has applied the RADIUS record.
    Otherwise nothing has changed.  Recording a RADIUS record never panics. *)
Theorem accounting_acknowledged (ParseIP IANALocation : string -> bool) cap acc s snap :
  log_inv cap (sv_events s) acc -> len acc + 1 < two64 ->
  (forall cancelled now rec, tacacs_recorded ParseIP IANALocation cap acc s snap cancelled now rec)
  /\ (sessions_ok s -> forall c rec, radius_recorded cap acc s snap c rec).
Proof.
  intros Hi Hb. split; intros; [by apply tacacs_accounting_recorded|by apply radius_accounting_recorded].
Qed.

(** ** Examples *)

(** A count of seconds from 2^63 on is stored as a time before 1970. *)
Example epoch_wraps : ParseEpochSeconds "18446744073709551615" = Some (unix_time (-1)).
Proof. vm_compute. reflexivity. Qed.

Definition sample_service : Service := mkService (NewWithOptions 8 0 false) (NewSessionIndex 4 4096 100).

Definition sample_accounting : AccountingRecord :=
  mkAccountingRecord AcctFlagStart "alice" "r1" 7
    [mkAVPair "task_id" "="%char "42"; mkAVPair "start_time" "="%char "60"; mkAVPair "cmd" "="%char "show"; mkAVPair "cmd-arg" "*"%char "version"]
    1 "tls" "tty0" "192.0.2.1" 6 1 1 1.

Definition sample_radius : RADIUSAccountingRecord :=
  mkRADIUSRecord (mkContext "radius" "radius_udp" "accounting" [108] [99] [101] (mkAddrPort (Some [192; 0; 2; 1]) 1813) 1)
    "start" [97] [83] None 0 0 0 "user_request" [mkSafe "User-Name" 1; mkSafe "Class" 2] "" None [] 0 [].

Definition sample_call : call := mkCall false 5 1000 1000 (fun _ => Some (repeat 3 10)).

Lemma accounting_acknowledged_witness :
  let s' := RecordAccounting (fun _ => true) (fun _ => false) sample_service None false 5 sample_accounting in
  s'.2 = Ok 1 /\ log_inv 8 (sv_events s'.1) [stamp 1 5 (accounting_event None sample_accounting (ar_Arguments sample_accounting)
                                                 (parsed_of (ar_Arguments sample_accounting)))]
  /\ (exists s'', RecordRADIUSAccounting sample_service None sample_call sample_radius = Some (s'', Ok 1)
      /\ log_inv 8 (sv_events s'') [stamp 1 5 (radius_event None (canonical sample_radius))])
  /\ map (fun av => (Events.av_Name av, Events.av_Value av)) (ev_Arguments (radius_event None (canonical sample_radius)))
     = [("User-Name", "<redacted>"); ("Class#2", "<redacted>"); ("Acct-Session-Id", "<redacted>");
        ("Acct-Terminate-Cause", "User-Request")]%string.
Proof.
  cbv zeta. destruct (accounting_acknowledged (fun _ => true) (fun _ => false) 8 [] sample_service None
    (NewWithOptions_log 8 0 false) ltac:(vm_compute; reflexivity)) as [Ht Hr].
  specialize (Ht false 5 sample_accounting). unfold tacacs_recorded in Ht. cbv zeta in Ht.
  destruct (RecordAccounting _ _ _ _ _ _ _) as [s' r] eqn:E. destruct Ht as (_ & _ & H).
  assert (r = Ok 1) as ->.
  { transitivity (RecordAccounting (fun _ => true) (fun _ => false) sample_service None false 5 sample_accounting).2;
      [by rewrite E|]. vm_compute. reflexivity. }
  split; [reflexivity|]. destruct H as [_ H]. split; [exact H|]. clear E H s'.
  assert (sessions_ok sample_service) as Hs.
  { unfold sessions_ok, sample_service. cbn [sv_radiusSessions]. destruct (NewSessionIndex 4 4096 100) as [idx|] eqn:E; [|exact I].
    apply (NewSessionIndex_ok _ _ _ _ E). }
  split; [|vm_compute; reflexivity]. destruct (Hr Hs sample_call sample_radius) as (s' & r & E & _ & Hok & H).
  assert (r = Ok 1) as ->.
  { destruct r as [id|e]; [by destruct H as [-> _]|]. exfalso.
    assert (is_ok (@Err aaa_error Z e) = true) as Hx; [|discriminate Hx]. apply Hok. split; [|reflexivity].
    unfold radius_acceptable. cbn. split_and!; [reflexivity|left|by right|right; vm_compute; by eexists|right; right; vm_compute; discriminate]. }
  exists s'. split; [exact E|apply H].
Defined.
