(* ===== verification/AaaAuthen.v ===== *)
(** * AAA service: authentication

    [internal/aaa/auth.go], [authn.go], [store.go] and the parts of
    [service.go] and [types.go] they use: the TACACS+ authentication dialogue
    over the credentials of a snapshot.  A START opens a conversation in the
    session table, or is decided at once (PAP, CHAP, MS-CHAP); a CONTINUE
    advances it; an abort drops it.  Each operation is one atomic step: the
    connection engine runs the operations of one session in one goroutine, and
    operations of different sessions touch different entries of the table.

    What an operation takes from outside is a [World]: the context, the
    entropy, the secret files, the clocks and what the snapshot function
    returned.  The state manager is behind the interface [Publisher].  The
    code mutates a session through a pointer that the table also holds; each
    path then stores it again or drops it, so the value in the table is the
    one written back.  Metrics and wiping have no model. *)

From Stdlib Require Import String.
From stdpp Require Import gmap strings.
From S2P Require Import Prelude Text MsChap Credentials StableSort Policy Events Domain AaaAccounting.

#[local] Open Scope Z_scope.

(** ** What the service reads of a snapshot *)

(** [config.SecretRef], without the purpose. *)
Record SecretRef := mkSecretRef { sr_File : string; sr_Environment : string; sr_MemoryID : string }.
Definition SecretRef_Set (r : SecretRef) : bool :=
  negb (str_eqb (sr_File r) "") || negb (str_eqb (sr_Environment r) "") || negb (str_eqb (sr_MemoryID r) "").

Record AuthUser := mkAuthUser {
  au_ID : string; au_Enabled : bool; au_ClientIDs : list string; au_ValidAfter : option Z; au_ValidBefore : option Z;
  au_MustChangeLogin : bool; au_MustChangeEnable : bool;
  au_Login : SecretRef; au_Challenge : SecretRef; au_Enable : SecretRef;
}.

Record AuthClient := mkAuthClient { ac_Enabled : bool; ac_AllowedMethods : list string }.

(** The limits and event switches of the settings. *)
Record AuthSettings := mkAuthSettings {
  at_MaxAuthenticationRounds : Z; at_MaxUsernameBytes : Z; at_MaxPortBytes : Z; at_MaxRemoteAddressBytes : Z;
  at_IncludeSuccessful : bool; at_IncludeFailed : bool;
}.

Record AuthSnapshot := mkAuthSnapshot {
  an_Revision : Z; an_Settings : option AuthSettings;
  an_User : gmap string AuthUser; an_Client : gmap string AuthClient; an_runtimeSecrets : gmap string bytes;
}.

Definition auth_settings (snap : option AuthSnapshot) : option AuthSettings := snap ≫= an_Settings.

(** ** Credential material of a snapshot (store.go) *)

Definition SecretLookup : Type := option (SecretRef -> option bytes).

Definition RuntimeSecret (snap : AuthSnapshot) (id : string) : option bytes :=
  if str_eqb id "" then None else an_runtimeSecrets snap !! id.

Definition resolveSecret (snap : AuthSnapshot) (secrets : SecretLookup) (ref : SecretRef) : option bytes :=
  match (if negb (str_eqb (sr_MemoryID ref) "") then RuntimeSecret snap (sr_MemoryID ref) else None) with
  | Some b => Some b
  | None =>
    match secrets with
    | None => None
    | Some read => if negb (SecretRef_Set ref) || negb (str_eqb (sr_MemoryID ref) "") then None else read ref
    end
  end.

Definition clientRestricted (allowed : list string) (clientID : string) : bool :=
  negb (bool_decide (allowed = [])) && negb (existsb (fun id => str_eqb id clientID) allowed).

(** A holder of what a reference resolves to. *)
Definition material {p} (snap : AuthSnapshot) (secrets : SecretLookup) (ref : SecretRef) : secret p :=
  if SecretRef_Set ref then newSecret (default [] (resolveSecret snap secrets ref)) else newSecret [].

(** [snapshotStore.Lookup] *)
Definition snapshotStore (snap : AuthSnapshot) (secrets : SecretLookup) (clientID : string) : Store := fun userID =>
  match an_User snap !! userID with
  | None => None
  | Some u =>
    Some (mkUserRecord (au_ID u) (au_Enabled u) (clientRestricted (au_ClientIDs u) clientID)
      (material snap secrets (au_Login u)) (material snap secrets (au_Challenge u)) (material snap secrets (au_Enable u))
      (au_ValidAfter u) (au_ValidBefore u) (au_MustChangeLogin u) (au_MustChangeEnable u))
  end.

(** ** Requests, steps and conversations (types.go, service.go) *)

Record AuthenticationStart := mkStart {
  an_ConnKey : Z; an_SessionID : Z; an_UserID : string; an_ClientID : string; an_Action : Z; an_Type : Z; an_Service : Z;
  an_PrivLvl : Z; an_Port : string; an_Remote : string; an_Data : bytes; an_Rev : Z; an_Transport : string;
}.
Record AuthenticationContinue := mkContinue {
  co_ConnKey : Z; co_SessionID : Z; co_Abort : bool; co_UserMsg : bytes; co_ClientID : string; co_Revision : Z;
  co_Transport : string;
}.
Record AuthenticationAbort := mkAbort { ab_ConnKey : Z; ab_SessionID : Z; ab_ClientID : string; ab_Revision : Z }.
Record AuthenticationStep := mkStep { sp_Status : Z; sp_NoEcho : bool; sp_ServerMsg : string }.

Definition sessionKey : Type := (Z * Z).

Inductive authFlow := flowASCII | flowEnable | flowCHPASS | flowPAP | flowCHAP | flowMSCHAPv1 | flowMSCHAPv2 | flowNone.
#[export] Instance authFlow_eq_dec : EqDecision authFlow.
Proof. solve_decision. Defined.

(** [type authSession]; its [creds] is the service bound to [as_snap] and
    [as_clientID]. *)
Record authSession := mkSession {
  as_flow : authFlow; as_user : string; as_clientID : string;
  as_needUser : bool; as_needOld : bool; as_needNew : bool; as_needConfirm : bool;
  as_newPass : bytes; as_fails : Z; as_snap : AuthSnapshot; as_maxRounds : Z; as_rev : Z;
}.

Definition with_user (se : authSession) (user : string) : authSession :=
  mkSession (as_flow se) user (as_clientID se) false (as_needOld se) (as_needNew se) (as_needConfirm se)
    (as_newPass se) (as_fails se) (as_snap se) (as_maxRounds se) (as_rev se).
Definition with_need_new (se : authSession) : authSession :=
  mkSession (as_flow se) (as_user se) (as_clientID se) (as_needUser se) (as_needOld se) true (as_needConfirm se)
    (as_newPass se) 0 (as_snap se) (as_maxRounds se) (as_rev se).
Definition with_old_done (se : authSession) : authSession :=
  mkSession (as_flow se) (as_user se) (as_clientID se) (as_needUser se) false (as_needNew se) (as_needConfirm se)
    (as_newPass se) 0 (as_snap se) (as_maxRounds se) (as_rev se).
Definition with_new_pass (se : authSession) (pw : bytes) : authSession :=
  mkSession (as_flow se) (as_user se) (as_clientID se) (as_needUser se) (as_needOld se) false true
    pw (as_fails se) (as_snap se) (as_maxRounds se) (as_rev se).
Definition with_fails (se : authSession) (n : Z) : authSession :=
  mkSession (as_flow se) (as_user se) (as_clientID se) (as_needUser se) (as_needOld se) (as_needNew se) (as_needConfirm se)
    (as_newPass se) n (as_snap se) (as_maxRounds se) (as_rev se).

(** ** The steps *)

Definition promptUser : string := "Username: ".
Definition promptPass : string := "Password: ".
Definition promptNewPass : string := "New Password: ".
Definition promptConfirm : string := "Retype New Password: ".
Definition serverMsgPasswordChangeRequired : string := "Password change required".
Definition reasonPasswordChanged : string := "password_changed".
Definition reasonPasswordChangeRequired : string := "password_change_required".
Definition reasonEnablePasswordChanged : string := "enable_password_changed".

Definition errorStep := mkStep AuthenStatusError false "".
Definition failStep := mkStep AuthenStatusFail false "".
Definition failStepMsg (msg : string) := mkStep AuthenStatusFail false msg.
Definition passStep := mkStep AuthenStatusPass false "".
Definition userPrompt := mkStep AuthenStatusGetUser false promptUser.
Definition passPrompt := mkStep AuthenStatusGetPass true promptPass.
Definition dataPrompt := mkStep AuthenStatusGetData true promptPass.
Definition newPassPrompt := mkStep AuthenStatusGetPass true promptNewPass.
Definition confirmPassPrompt := mkStep AuthenStatusGetPass true promptConfirm.

(** ** Classification of a START *)

Definition classifyStart (start : AuthenticationStart) : authFlow * Z :=
  let action := an_Action start in
  let service_bad := (an_Service start =? AuthenServiceNone) || negb (AuthenService_Valid (an_Service start)) in
  if (action =? AuthenActionSendAuth) || (action =? AuthenActionSendPass) then (flowNone, AuthenStatusError)
  else if action =? AuthenActionCHPASS then
    if an_Service start =? AuthenServiceEnable then (flowNone, AuthenStatusFail)
    else if negb (an_Type start =? AuthenTypeASCII) then (flowNone, AuthenStatusError)
    else if service_bad then (flowNone, AuthenStatusFail)
    else (flowCHPASS, 0)
  else if action =? AuthenActionLogin then
    if an_Service start =? AuthenServiceEnable then (flowEnable, 0)
    else if service_bad then (flowNone, AuthenStatusFail)
    else if an_Type start =? AuthenTypeASCII then (flowASCII, 0)
    else if an_Type start =? AuthenTypePAP then (flowPAP, 0)
    else if an_Type start =? AuthenTypeCHAP then (flowCHAP, 0)
    else if an_Type start =? AuthenTypeMSCHAP then (flowMSCHAPv1, 0)
    else if an_Type start =? AuthenTypeMSCHAPV2 then (flowMSCHAPv2, 0)
    else (flowNone, AuthenStatusError)
  else (flowNone, AuthenStatusError).

Definition methodForFlow (flow : authFlow) : string :=
  match flow with
  | flowASCII => "ascii" | flowPAP => "pap" | flowCHAP => "chap" | flowMSCHAPv1 => "mschapv1" | flowMSCHAPv2 => "mschapv2"
  | flowEnable => "enable" | flowCHPASS => "ascii_chpass" | flowNone => ""
  end.

Definition methodAllowed (snap : AuthSnapshot) (clientID method : string) : bool :=
  if str_eqb clientID "" || str_eqb method "" then true
  else
    match an_Client snap !! clientID with
    | None => false
    | Some c =>
      if negb (ac_Enabled c) then false
      else if bool_decide (ac_AllowedMethods c = []) then true
      else existsb (fun m => str_eqb m method) (ac_AllowedMethods c)
    end.

Definition asciiChpassAllowed (snap : AuthSnapshot) (clientID : string) : bool := methodAllowed snap clientID "ascii_chpass".

(** [eventType], on the action of the START ([0] for [AuthenticationStart{}]). *)
Definition eventType (flow : authFlow) (action : Z) : string :=
  match flow with
  | flowASCII => "ascii_login" | flowPAP => "pap_login" | flowCHAP => "chap_login" | flowMSCHAPv1 => "mschapv1_login"
  | flowMSCHAPv2 => "mschapv2_login" | flowEnable => "enable" | flowCHPASS => "ascii_chpass"
  | flowNone =>
    if action =? AuthenActionSendAuth then "sendauth" else if action =? AuthenActionSendPass then "sendpass" else "authen"
  end.

Definition userMustChangeLogin (snap : AuthSnapshot) (userID : string) : bool :=
  if str_eqb userID "" then false else match an_User snap !! userID with Some u => au_MustChangeLogin u | None => false end.
Definition userMustChangeEnable (snap : AuthSnapshot) (userID : string) : bool :=
  if str_eqb userID "" then false else match an_User snap !! userID with Some u => au_MustChangeEnable u | None => false end.

(** [errors.As(err, &ae)] and its kind. *)
Definition protoError (e : cred_error) : bool :=
  match e with
  | Auth ae => bool_decide (ae_Kind ae = KindMalformed) || bool_decide (ae_Kind ae = KindInvalid)
  | CtxErr | EntropyErr => false
  end.

Definition maxRounds (snap : option AuthSnapshot) : Z :=
  match auth_settings snap with
  | None => 3
  | Some st => if at_MaxAuthenticationRounds st <=? 0 then 3 else at_MaxAuthenticationRounds st
  end.

Definition checkAuthenFields (snap : option AuthSnapshot) (user port remote : string) : bool :=
  let limit f := match auth_settings snap with Some st => limit_or 253 (f st) | None => 253 end in
  CheckBytes user (limit at_MaxUsernameBytes) && CheckBytes port (limit at_MaxPortBytes)
  && CheckBytes remote (limit at_MaxRemoteAddressBytes).

(** ** The state manager, as the service sees it

    [pub_OverrideLogin m user phc rev] publishes a new login verifier if the
    published revision is [rev]; an error is its code. *)
Class Publisher (M : Type) : Type := {
  pub_OverrideLogin : M -> string -> bytes -> Z -> M * result string unit;
  pub_OverrideEnable : M -> string -> bytes -> Z -> M * result string unit;
}.

Definition CodeConflict : string := "conflict".
Definition CodeNotFound : string := "not_found".

(** ** One operation *)

(** What an operation takes from outside: the context on entry and in the
    credential calls, the two snapshots it reads ([checkAuthenFields] reads
    its own), the secret sources, the entropy and the clocks of the
    credentials and of the ring. *)
Record World := mkWorld {
  w_cancelled : bool; w_cx : CallContext; w_limits : option AuthSnapshot; w_snap : option AuthSnapshot;
  w_secrets : SecretLookup; w_entropy : bytes; w_now : Z; w_ring_now : Z;
}.

(** The error an operation returns beside its step. *)
Inductive authen_error := ErrContext | ErrFieldLimit.

(** Where an event comes from. *)
Record origin := mkOrigin { og_Transport : string; og_ClientID : string; og_SessionID : Z; og_Revision : Z }.
Definition start_origin (start : AuthenticationStart) : origin :=
  mkOrigin (an_Transport start) (an_ClientID start) (an_SessionID start) (an_Rev start).

Section Authen.
Context (IDKey : bytes -> bytes -> Z -> Z -> Z -> Z -> bytes) (md4 : bytes -> bytes) (precis : string -> option string).
Context {M : Type} `{Publisher M}.

Record AuthService := mkAuthService {
  sa_mgr : option M; sa_events : Ring; sa_creds : Credentials.Service; sa_sessions : gmap sessionKey authSession;
}.
Definition set_mgr (s : AuthService) (m : option M) : AuthService := mkAuthService m (sa_events s) (sa_creds s) (sa_sessions s).
Definition set_events (s : AuthService) (r : Ring) : AuthService := mkAuthService (sa_mgr s) r (sa_creds s) (sa_sessions s).
Definition set_sessions (s : AuthService) (t : gmap sessionKey authSession) : AuthService :=
  mkAuthService (sa_mgr s) (sa_events s) (sa_creds s) t.

Definition getSession (s : AuthService) (key : sessionKey) : option authSession := sa_sessions s !! key.
Definition putSession (s : AuthService) (key : sessionKey) (se : authSession) : AuthService :=
  set_sessions s (<[key := se]> (sa_sessions s)).
Definition dropSession (s : AuthService) (key : sessionKey) : AuthService := set_sessions s (delete key (sa_sessions s)).
Definition InFlight (s : AuthService) : Z := Z.of_nat (size (sa_sessions s)).

(** [canonUser] *)
Definition canonUser (user : string) : string :=
  if str_eqb user "" then "" else match CanonicalUsername precis user with Ok canon => canon | Err _ => user end.

Definition auth_event (o : origin) (user kind result reason : string) : Event :=
  mkEvent 0 0 0 "authen" kind result (og_Transport o) (og_ClientID o) (og_SessionID o) (og_Revision o) user "" "" [] None None
    "" "" "" 0 "" "" "" "" "" "" "" "" reason "" "" false.

(** Whether the settings let an event of this result into the ring. *)
Definition recorded (snap : AuthSnapshot) (result : string) : bool :=
  match an_Settings snap with
  | None => true
  | Some st => if str_eqb result "pass" then at_IncludeSuccessful st else at_IncludeFailed st
  end.

Definition recordAuthReason (s : AuthService) (w : World) (snap : AuthSnapshot) (o : origin) (user kind result reason : string)
  : AuthService :=
  if recorded snap result then set_events s (fst (Accept (sa_events s) (w_ring_now w) (auth_event o user kind result reason)))
  else s.
Definition recordAuth (s : AuthService) (w : World) (snap : AuthSnapshot) (o : origin) (user kind result : string) : AuthService :=
  recordAuthReason s w snap o user kind result "".

Definition boundCreds (s : AuthService) (w : World) (snap : AuthSnapshot) (clientID : string) : Credentials.Service :=
  WithStore (sa_creds s) (Some (snapshotStore snap (w_secrets w) clientID)).

(** *** One-shot methods (authn.go) *)

Inductive AuthOutcome := AuthPass | AuthReject | AuthErrorOutcome.

Definition outcomeFromCreds (r : result cred_error unit) : AuthOutcome :=
  match r with Ok _ => AuthPass | Err e => if protoError e then AuthErrorOutcome else AuthReject end.

(** [CredentialEvidence], by its method; EAP-MD5 evidence is CHAP evidence. *)
Inductive CredentialEvidence :=
| EvidencePassword (password : bytes)
| EvidenceCHAP (id : Z) (challenge response : bytes)
| EvidenceMSCHAPv1 (id : Z) (challenge response : bytes)
| EvidenceMSCHAPv2 (id : Z) (challenge response : bytes)
| EvidenceOther.

Definition verify_evidence (creds : Credentials.Service) (w : World) (userID : string) (ev : CredentialEvidence)
  : option (result cred_error unit) :=
  match ev with
  | EvidencePassword pw => Some (snd (VerifyASCIIOrPAP IDKey precis creds (w_cx w) (w_now w) userID pw))
  | EvidenceCHAP id c r => Some (snd (VerifyCHAP precis creds (w_cx w) (w_now w) userID id c r))
  | EvidenceMSCHAPv1 id c r => Some (snd (VerifyMSCHAPv1 md4 precis creds (w_cx w) (w_now w) userID id c r))
  | EvidenceMSCHAPv2 id c r => Some (snd (VerifyMSCHAPv2 md4 precis creds (w_cx w) (w_now w) userID id c r))
  | EvidenceOther => None
  end.

Definition verifyAgainst (s : AuthService) (w : World) (snap : AuthSnapshot) (userID clientID : string) (ev : CredentialEvidence)
  : AuthOutcome :=
  match verify_evidence (boundCreds s w snap clientID) w userID ev with
  | None => AuthErrorOutcome
  | Some r => outcomeFromCreds r
  end.

(** [VerifyCredentials]: evidence against the current snapshot, for the RADIUS
    access facade; it records nothing. *)
Inductive verify_error := ErrVerifyContext | ErrVerifyMethod | ErrVerifySnapshot.
Definition evidence_valid (ev : CredentialEvidence) : bool := match ev with EvidenceOther => false | _ => true end.
Definition VerifyCredentials (s : AuthService) (w : World) (userID clientID : string) (ev : CredentialEvidence)
  : AuthOutcome * option verify_error :=
  if w_cancelled w then (AuthErrorOutcome, Some ErrVerifyContext)
  else if negb (evidence_valid ev) then (AuthErrorOutcome, Some ErrVerifyMethod)
  else
    match w_snap w with
    | None => (AuthErrorOutcome, Some ErrVerifySnapshot)
    | Some snap => (verifyAgainst s w snap userID clientID ev, None)
    end.

Definition finishOneShotOutcome (s : AuthService) (w : World) (snap : AuthSnapshot) (start : AuthenticationStart)
  (user kind : string) (outcome : AuthOutcome) : AuthService * AuthenticationStep :=
  let o := start_origin start in
  match outcome with
  | AuthPass =>
    if userMustChangeLogin snap user
    then (recordAuthReason s w snap o user kind "fail" reasonPasswordChangeRequired, failStepMsg serverMsgPasswordChangeRequired)
    else (recordAuth s w snap o user kind "pass", passStep)
  | AuthErrorOutcome => (recordAuth s w snap o user kind "error", errorStep)
  | AuthReject => (recordAuth s w snap o user kind "fail", failStep)
  end.

Definition finishOneShot (s : AuthService) (w : World) (snap : AuthSnapshot) (start : AuthenticationStart) (user kind : string)
  (r : result cred_error unit) : AuthService * AuthenticationStep :=
  finishOneShotOutcome s w snap start user kind (outcomeFromCreds r).

Definition oneShotPAP (s : AuthService) (w : World) (snap : AuthSnapshot) (start : AuthenticationStart)
  : AuthService * AuthenticationStep :=
  let user := canonUser (an_UserID start) in
  if str_eqb user "" || (len (an_Data start) =? 0)
  then (recordAuth s w snap (start_origin start) user "pap_login" "fail", failStep)
  else
    let outcome := verifyAgainst s w snap user (an_ClientID start) (EvidencePassword (an_Data start)) in
    finishOneShotOutcome s w snap start user "pap_login" outcome.

Definition oneShotCHAP (s : AuthService) (w : World) (snap : AuthSnapshot) (start : AuthenticationStart)
  : AuthService * AuthenticationStep :=
  let user := canonUser (an_UserID start) in
  match SplitCHAPData (an_Data start) DefaultMinCHAPChallenge with
  | Err _ => (recordAuth s w snap (start_origin start) user "chap_login" "error", errorStep)
  | Ok (id, chal, resp) =>
    if str_eqb user "" then (recordAuth s w snap (start_origin start) user "chap_login" "fail", failStep)
    else
      let outcome := verifyAgainst s w snap user (an_ClientID start) (EvidenceCHAP id chal resp) in
      finishOneShotOutcome s w snap start user "chap_login" outcome
  end.

(** The shape is judged before the empty name, for every identity alike. *)
Definition oneShotMSCHAP (s : AuthService) (w : World) (snap : AuthSnapshot) (start : AuthenticationStart) (v2 : bool)
  : AuthService * AuthenticationStep :=
  let user := canonUser (an_UserID start) in
  let kind := if v2 then "mschapv2_login" else "mschapv1_login" in
  match (if v2 then SplitMSCHAPv2Data (an_Data start) else SplitMSCHAPv1Data (an_Data start)) with
  | Err _ => (recordAuth s w snap (start_origin start) user kind "error", errorStep)
  | Ok (id, chal, resp) =>
    let creds := boundCreds s w snap (an_ClientID start) in
    let ver :=
      if v2 then snd (VerifyMSCHAPv2 md4 precis creds (w_cx w) (w_now w) user id chal resp)
      else snd (VerifyMSCHAPv1 md4 precis creds (w_cx w) (w_now w) user id chal resp) in
    if match ver with Err e => protoError e | Ok _ => false end then finishOneShot s w snap start user kind ver
    else if str_eqb user "" then (recordAuth s w snap (start_origin start) user kind "fail", failStep)
    else finishOneShot s w snap start user kind ver
  end.

(** *** Interactive conversations *)

Definition beginInteractive (s : AuthService) (w : World) (start : AuthenticationStart) (snap : AuthSnapshot) (flow : authFlow)
  : AuthService * AuthenticationStep :=
  if bool_decide (flow = flowEnable) && (PrivilegeMax <? an_PrivLvl start)
  then (recordAuth s w snap (start_origin start) (canonUser (an_UserID start)) "enable" "fail", failStep)
  else
    let user := canonUser (an_UserID start) in
    let chpass := bool_decide (flow = flowCHPASS) in
    let se := mkSession flow user (an_ClientID start) (str_eqb user "") chpass chpass false [] 0 snap
                (maxRounds (Some snap)) (an_Revision snap) in
    let s := putSession s (an_ConnKey start, an_SessionID start) se in
    if as_needUser se then (s, userPrompt)
    else if chpass then (s, dataPrompt)
    else (s, passPrompt).

(** [BeginAuthentication] *)
Definition BeginAuthentication (s : AuthService) (w : World) (start : AuthenticationStart)
  : AuthService * AuthenticationStep * option authen_error :=
  if w_cancelled w then (s, errorStep, Some ErrContext)
  else if negb (checkAuthenFields (w_limits w) (an_UserID start) (an_Port start) (an_Remote start))
  then (s, errorStep, Some ErrFieldLimit)
  else
    let s := dropSession s (an_ConnKey start, an_SessionID start) in
    match w_snap w with
    | None => (s, errorStep, None)
    | Some snap =>
      let '(flow, term) := classifyStart start in
      if negb (term =? 0) then
        (recordAuth s w snap (start_origin start) "" (eventType flow (an_Action start)) (AuthenStatus_String term),
         mkStep term false "", None)
      else if negb (methodAllowed snap (an_ClientID start) (methodForFlow flow)) then
        (recordAuth s w snap (start_origin start) (canonUser (an_UserID start)) (eventType flow (an_Action start)) "restart",
         mkStep AuthenStatusRestart false "", None)
      else
        let '(s, step) :=
          match flow with
          | flowPAP => oneShotPAP s w snap start
          | flowCHAP => oneShotCHAP s w snap start
          | flowMSCHAPv1 => oneShotMSCHAP s w snap start false
          | flowMSCHAPv2 => oneShotMSCHAP s w snap start true
          | flowASCII | flowEnable | flowCHPASS => beginInteractive s w start snap flow
          | flowNone => (recordAuth s w snap (start_origin start) (canonUser (an_UserID start)) "unsupported" "error", errorStep)
          end in
        (s, step, None)
    end.

Definition cont_key (cont : AuthenticationContinue) : sessionKey := (co_ConnKey cont, co_SessionID cont).
(** The origin of a conversation's event: the session's client. *)
Definition session_origin (se : authSession) (cont : AuthenticationContinue) : origin :=
  mkOrigin (co_Transport cont) (as_clientID se) (co_SessionID cont) (co_Revision cont).

(** The conversation ends: its session is dropped and its result recorded. *)
Definition finish (s : AuthService) (w : World) (se : authSession) (cont : AuthenticationContinue)
  (kind result reason : string) (step : AuthenticationStep) : AuthService * AuthenticationStep :=
  (recordAuthReason (dropSession s (cont_key cont)) w (as_snap se) (session_origin se cont) (as_user se) kind result reason, step).

Definition retryOrFail (s : AuthService) (w : World) (se : authSession) (cont : AuthenticationContinue) (kind : string)
  (retry : AuthenticationStep) : AuthService * AuthenticationStep :=
  let se := with_fails se (as_fails se + 1) in
  let limit := if as_maxRounds se <=? 0 then maxRounds (Some (as_snap se)) else as_maxRounds se in
  if limit <=? as_fails se then finish s w se cont kind "fail" "" failStep
  else (putSession s (cont_key cont) se, retry).

Definition session_creds (s : AuthService) (w : World) (se : authSession) : Credentials.Service :=
  boundCreds s w (as_snap se) (as_clientID se).

Definition finishPassword (s : AuthService) (w : World) (se : authSession) (cont : AuthenticationContinue) (enable : bool)
  : AuthService * AuthenticationStep :=
  let creds := session_creds s w se in
  let ver :=
    if enable then snd (VerifyEnable IDKey precis creds (w_cx w) (w_now w) (as_user se) (co_UserMsg cont))
    else snd (VerifyASCIIOrPAP IDKey precis creds (w_cx w) (w_now w) (as_user se) (co_UserMsg cont)) in
  let kind := if enable then "enable" else "ascii_login" in
  match ver with
  | Ok _ =>
    if negb enable && userMustChangeLogin (as_snap se) (as_user se) then
      if negb (asciiChpassAllowed (as_snap se) (as_clientID se))
      then finish s w se cont kind "fail" reasonPasswordChangeRequired (failStepMsg serverMsgPasswordChangeRequired)
      else (putSession s (cont_key cont) (with_need_new se), newPassPrompt)
    else if enable && userMustChangeEnable (as_snap se) (as_user se)
    then (putSession s (cont_key cont) (with_need_new se), newPassPrompt)
    else finish s w se cont kind "pass" "" passStep
  | Err e =>
    if protoError e then finish s w se cont kind "error" "" errorStep
    else retryOrFail s w se cont kind passPrompt
  end.

(** [publishLogin] and [publishEnable]: the manager replaces the verifier if
    nothing was published since the START. *)
Definition publish (enable : bool) (s : AuthService) (w : World) (se : authSession) (cont : AuthenticationContinue) (phc : bytes)
  (kind : string) : AuthService * AuthenticationStep :=
  match sa_mgr s with
  | None => finish s w se cont kind "error" "" errorStep
  | Some m =>
    let '(m, r) := (if enable then pub_OverrideEnable else pub_OverrideLogin) m (as_user se) phc (as_rev se) in
    let s := set_mgr s (Some m) in
    match r with
    | Ok _ => finish s w se cont kind "pass" (if enable then reasonEnablePasswordChanged else reasonPasswordChanged) passStep
    | Err code =>
      if str_eqb code CodeConflict || str_eqb code CodeNotFound then finish s w se cont kind "fail" "" failStep
      else finish s w se cont kind "error" "" errorStep
    end
  end.

Definition deriveChangePHC (creds : Credentials.Service) (w : World) (password : bytes) (enable : bool) : result cred_error bytes :=
  if enable then let! d := DeriveEnableVerifier IDKey creds (w_cx w) password (w_entropy w) in Ok (Bytes (fst d))
  else let! d := DeriveLoginVerifier IDKey creds (w_cx w) password (w_entropy w) in Ok (Bytes (fst d)).

(** The new password, then its confirmation, of a login or ENABLE that must
    change it. *)
Definition continueNewConfirm (s : AuthService) (w : World) (se : authSession) (cont : AuthenticationContinue) (kind : string)
  (enable : bool) : AuthService * AuthenticationStep :=
  if as_needNew se then
    if len (co_UserMsg cont) =? 0 then finish s w se cont kind "fail" "" failStep
    else (putSession s (cont_key cont) (with_new_pass se (co_UserMsg cont)), confirmPassPrompt)
  else if negb (as_needConfirm se) then (dropSession s (cont_key cont), errorStep)
  else if negb (bytes_eqb (as_newPass se) (co_UserMsg cont)) then finish s w se cont kind "fail" "" failStep
  else
    match deriveChangePHC (session_creds s w se) w (as_newPass se) enable with
    | Err e => finish s w se cont kind (if protoError e then "error" else "fail") "" (if protoError e then errorStep else failStep)
    | Ok phc => publish enable s w se cont phc kind
    end.

Definition continueASCII (s : AuthService) (w : World) (se : authSession) (cont : AuthenticationContinue)
  : AuthService * AuthenticationStep :=
  if as_needUser se then (putSession s (cont_key cont) (with_user se (canonUser (text_of (co_UserMsg cont)))), passPrompt)
  else if as_needNew se || as_needConfirm se then continueNewConfirm s w se cont "ascii_login" false
  else finishPassword s w se cont false.

Definition continueEnable (s : AuthService) (w : World) (se : authSession) (cont : AuthenticationContinue)
  : AuthService * AuthenticationStep :=
  if as_needUser se then (putSession s (cont_key cont) (with_user se (canonUser (text_of (co_UserMsg cont)))), passPrompt)
  else if as_needNew se || as_needConfirm se then continueNewConfirm s w se cont "enable" true
  else finishPassword s w se cont true.

Definition continueCHPASS (s : AuthService) (w : World) (se : authSession) (cont : AuthenticationContinue)
  : AuthService * AuthenticationStep :=
  let kind := "ascii_chpass" in
  if as_needUser se then (putSession s (cont_key cont) (with_user se (canonUser (text_of (co_UserMsg cont)))), dataPrompt)
  else if as_needOld se then
    match snd (VerifyASCIIOrPAP IDKey precis (session_creds s w se) (w_cx w) (w_now w) (as_user se) (co_UserMsg cont)) with
    | Err e =>
      if protoError e then finish s w se cont kind "error" "" errorStep
      else retryOrFail s w se cont kind dataPrompt
    | Ok _ => (putSession s (cont_key cont) (with_old_done se), passPrompt)
    end
  else if as_needNew se then
    if len (co_UserMsg cont) =? 0 then finish s w se cont kind "fail" "" failStep
    else (putSession s (cont_key cont) (with_new_pass se (co_UserMsg cont)), passPrompt)
  else if negb (as_needConfirm se) then (dropSession s (cont_key cont), errorStep)
  else if negb (bytes_eqb (as_newPass se) (co_UserMsg cont)) then finish s w se cont kind "fail" "" failStep
  else
    match deriveChangePHC (session_creds s w se) w (as_newPass se) false with
    | Err e => finish s w se cont kind (if protoError e then "error" else "fail") "" (if protoError e then errorStep else failStep)
    | Ok phc => publish false s w se cont phc kind
    end.

(** [ContinueAuthentication] *)
Definition ContinueAuthentication (s : AuthService) (w : World) (cont : AuthenticationContinue)
  : AuthService * AuthenticationStep * option authen_error :=
  if w_cancelled w then (s, errorStep, Some ErrContext)
  else
    match getSession s (cont_key cont) with
    | None => (s, errorStep, None)
    | Some se =>
      if co_Abort cont then
        let kind := eventType (as_flow se) 0 in
        let s := dropSession s (cont_key cont) in
        (recordAuth s w (as_snap se) (mkOrigin (co_Transport cont) (co_ClientID cont) (co_SessionID cont) (co_Revision cont))
           (as_user se) kind "abort", failStep, None)
      else
        let '(s, step) :=
          match as_flow se with
          | flowASCII => continueASCII s w se cont
          | flowEnable => continueEnable s w se cont
          | flowCHPASS => continueCHPASS s w se cont
          | _ => (dropSession s (cont_key cont), errorStep)
          end in
        (s, step, None)
    end.

(** [AbortAuthentication] *)
Definition AbortAuthentication (s : AuthService) (w : World) (ab : AuthenticationAbort) : AuthService :=
  let key := (ab_ConnKey ab, ab_SessionID ab) in
  match getSession s key with
  | None => s
  | Some se =>
    recordAuth (dropSession s key) w (as_snap se) (mkOrigin "" (ab_ClientID ab) (ab_SessionID ab) (ab_Revision ab))
      (as_user se) (eventType (as_flow se) 0) "abort"
  end.
End Authen.

Arguments AuthService : clear implicits.

(** ** The conversation as a state machine of four phases *)

Inductive phase := AskUser | AskPassword (fails : Z) | AskNew | AskConfirm (new : bytes).

Definition asks_password (se : authSession) : bool :=
  if decide (as_flow se = flowCHPASS) then as_needOld se else negb (as_needNew se) && negb (as_needConfirm se).
Definition phase_of (se : authSession) : phase :=
  if as_needUser se then AskUser
  else if asks_password se then AskPassword (as_fails se)
  else if as_needNew se then AskNew
  else AskConfirm (as_newPass se).

(** A session of the table: interactive, within its rounds, opened by a
    method the client allows, with flags that name one phase. *)
Record se_ok (se : authSession) : Prop := mkSeOk {
  ok_flow : as_flow se = flowASCII \/ as_flow se = flowEnable \/ as_flow se = flowCHPASS;
  ok_method : methodAllowed (as_snap se) (as_clientID se) (methodForFlow (as_flow se)) = true;
  ok_rounds : as_maxRounds se = maxRounds (Some (as_snap se));
  ok_rev : as_rev se = an_Revision (as_snap se);
  ok_fails : 0 <= as_fails se < as_maxRounds se;
  ok_user : as_needUser se = true -> asks_password se = true /\ as_fails se = 0;
  ok_old : as_needOld se = true -> as_flow se = flowCHPASS /\ as_needNew se = true;
  ok_new : asks_password se = false -> as_needNew se = true \/ as_needConfirm se = true;
  ok_one : as_needNew se = true -> as_needConfirm se = false;
  ok_confirm : as_needConfirm se = true -> as_newPass se <> [];
}.

Lemma maxRounds_pos snap : 0 < maxRounds snap.
Proof. unfold maxRounds. destruct (auth_settings snap); [case_match; lia|lia]. Qed.

(** How many prompts a conversation has left. *)
Definition rank (limit : Z) (p : phase) : Z :=
  match p with AskUser => limit + 2 | AskPassword n => limit - n + 1 | AskNew => 1 | AskConfirm _ => 0 end.

Definition prompt_of (flow : authFlow) (after : phase) : AuthenticationStep :=
  match after with
  | AskUser => userPrompt
  | AskPassword _ => if decide (flow = flowCHPASS) then dataPrompt else passPrompt
  | AskNew => if decide (flow = flowCHPASS) then passPrompt else newPassPrompt
  | AskConfirm _ => if decide (flow = flowCHPASS) then passPrompt else confirmPassPrompt
  end.

Definition is_prompt (st : Z) : bool := (st =? AuthenStatusGetUser) || (st =? AuthenStatusGetPass) || (st =? AuthenStatusGetData).

Section Dialogue.
Context (IDKey : bytes -> bytes -> Z -> Z -> Z -> Z -> bytes) (md4 : bytes -> bytes) (precis : string -> option string).
Context {M : Type} `{Publisher M}.
#[local] Notation svc := (AuthService M).
#[local] Notation Begin := (BeginAuthentication IDKey md4 precis).
#[local] Notation Continue := (ContinueAuthentication IDKey precis).

(** The verification that a message gets in the password phase. *)
Definition credential (s : svc) (w : World) (se : authSession) (msg : bytes) : result cred_error unit :=
  if decide (as_flow se = flowEnable)
  then snd (VerifyEnable IDKey precis (session_creds s w se) (w_cx w) (w_now w) (as_user se) msg)
  else snd (VerifyASCIIOrPAP IDKey precis (session_creds s w se) (w_cx w) (w_now w) (as_user se) msg).

(** Whether the password must be changed before the conversation passes. *)
Definition must_change (se : authSession) : bool :=
  if decide (as_flow se = flowEnable) then userMustChangeEnable (as_snap se) (as_user se)
  else userMustChangeLogin (as_snap se) (as_user se).

(** The manager's answer to the derived verifier. *)
Definition published (s : svc) (se : authSession) (phc : bytes) : option (M * result string unit) :=
  match sa_mgr s with
  | None => None
  | Some m => Some ((if decide (as_flow se = flowEnable) then pub_OverrideEnable else pub_OverrideLogin) m (as_user se) phc (as_rev se))
  end.

(** The reference: the next phase, or the status the conversation ends with. *)
Definition dialogue (s : svc) (w : World) (se : authSession) (msg : bytes) : phase + Z :=
  match phase_of se with
  | AskUser => inl (AskPassword 0)
  | AskPassword n =>
    match credential s w se msg with
    | Err e =>
      if protoError e then inr AuthenStatusError
      else if n + 1 <? as_maxRounds se then inl (AskPassword (n + 1)) else inr AuthenStatusFail
    | Ok _ =>
      if decide (as_flow se = flowCHPASS) then inl AskNew
      else if negb (must_change se) then inr AuthenStatusPass
      else if decide (as_flow se = flowEnable) then inl AskNew
      else if asciiChpassAllowed (as_snap se) (as_clientID se) then inl AskNew else inr AuthenStatusFail
    end
  | AskNew => if decide (msg = []) then inr AuthenStatusFail else inl (AskConfirm msg)
  | AskConfirm new =>
    if negb (bytes_eqb new msg) then inr AuthenStatusFail
    else
      match deriveChangePHC IDKey (session_creds s w se) w new (bool_decide (as_flow se = flowEnable)) with
      | Err e => inr (if protoError e then AuthenStatusError else AuthenStatusFail)
      | Ok phc =>
        match published s se phc with
        | None => inr AuthenStatusError
        | Some (_, Ok _) => inr AuthenStatusPass
        | Some (_, Err code) =>
          inr (if str_eqb code CodeConflict || str_eqb code CodeNotFound then AuthenStatusFail else AuthenStatusError)
        end
      end
  end.

(** The name of a status in an event. *)
Definition result_name (status : Z) : string :=
  if status =? AuthenStatusPass then "pass" else if status =? AuthenStatusFail then "fail" else "error".

(** What the end of a conversation leaves: no session, the result recorded
    once, and the manager as the publication left it. *)
Definition ended (s s' : svc) (w : World) (se : authSession) (cont : AuthenticationContinue) (status : Z) : Prop :=
  exists m kind reason, s' = recordAuthReason (dropSession (set_mgr s m) (cont_key cont)) w (as_snap se) (session_origin se cont)
    (as_user se) kind (result_name status) reason.

(** What is kept from phase to phase. *)
Definition same_conversation (se se' : authSession) : Prop :=
  as_flow se' = as_flow se /\ as_clientID se' = as_clientID se /\ as_snap se' = as_snap se
  /\ as_maxRounds se' = as_maxRounds se /\ as_rev se' = as_rev se.

Lemma set_mgr_id (s : svc) : set_mgr s (sa_mgr s) = s.
Proof. by destruct s. Qed.

Lemma finish_ended (s : svc) w se se' cont kind reason step status :
  as_snap se' = as_snap se -> as_user se' = as_user se -> as_clientID se' = as_clientID se ->
  ended s (fst (finish s w se' cont kind (result_name status) reason step)) w se cont status.
Proof.
  intros H1 H2 H3. exists (sa_mgr s), kind, reason. rewrite set_mgr_id. unfold finish, session_origin. by rewrite H1, H2, H3.
Qed.

Definition refines (s : svc) (w : World) (se : authSession) (cont : AuthenticationContinue) (out : svc * AuthenticationStep) : Prop :=
  match dialogue s w se (co_UserMsg cont) with
  | inl p => exists se', out = (putSession s (cont_key cont) se', prompt_of (as_flow se) p)
      /\ phase_of se' = p /\ se_ok se' /\ same_conversation se se'
      /\ as_user se' = match phase_of se with AskUser => canonUser precis (text_of (co_UserMsg cont)) | _ => as_user se end
  | inr status => ended s (fst out) w se cont status /\ sp_Status (snd out) = status
  end.

Lemma retry_refines (s : svc) w se cont kind (retry : AuthenticationStep) n :
  se_ok se -> phase_of se = AskPassword n -> retry = prompt_of (as_flow se) (AskPassword (n + 1)) ->
  forall out, out = retryOrFail s w se cont kind retry ->
  if n + 1 <? as_maxRounds se
  then exists se', out = (putSession s (cont_key cont) se', prompt_of (as_flow se) (AskPassword (n + 1)))
       /\ phase_of se' = AskPassword (n + 1) /\ se_ok se' /\ same_conversation se se' /\ as_user se' = as_user se
  else ended s (fst out) w se cont AuthenStatusFail /\ sp_Status (snd out) = AuthenStatusFail.
Proof.
  intros Hok Hp -> out ->. unfold retryOrFail. cbn [with_fails as_maxRounds as_fails as_snap].
  pose proof (ok_fails _ Hok). assert (as_fails se = n /\ as_needUser se = false /\ asks_password se = true) as (Hn & Hu & Ha).
  { unfold phase_of in Hp. destruct (as_needUser se); [done|]. destruct (asks_password se); [by injection Hp|]. by case_match. }
  rewrite Hn in *. rewrite (proj2 (Z.leb_gt (as_maxRounds se) 0)) by lia. rewrite Z.leb_antisym.
  destruct (Z.ltb_spec (n + 1) (as_maxRounds se)); simpl.
  - exists (with_fails se (n + 1)). split; [done|]. split; [|split; [|done] ].
    + unfold phase_of. cbn [with_fails as_needUser]. rewrite Hu. change (asks_password (with_fails se (n + 1))) with (asks_password se).
      by rewrite Ha.
    + destruct Hok. constructor; try done; cbn [with_fails as_fails as_maxRounds as_needUser]; [lia|congruence].
  - split; [|done]. by apply (finish_ended s w se (with_fails se (n + 1)) cont kind "" failStep AuthenStatusFail).
Qed.

Lemma user_refines se user :
  se_ok se -> as_needUser se = true -> phase_of (with_user se user) = AskPassword 0 /\ se_ok (with_user se user).
Proof.
  intros Hok Hu. destruct (ok_user _ Hok Hu) as [Ha Hf]. split.
  - unfold phase_of. cbn [with_user as_needUser as_fails]. change (asks_password (with_user se user)) with (asks_password se).
    by rewrite Ha, Hf.
  - by destruct Hok.
Qed.

Lemma password_phase se n :
  phase_of se = AskPassword n -> as_needUser se = false /\ asks_password se = true /\ as_fails se = n.
Proof.
  unfold phase_of. destruct (as_needUser se); [done|]. destruct (asks_password se); [by intros [= ->]|]. by case_match.
Qed.

Lemma need_new_refines se :
  se_ok se -> as_flow se <> flowCHPASS -> as_needUser se = false -> asks_password se = true ->
  phase_of (with_need_new se) = AskNew /\ se_ok (with_need_new se).
Proof.
  intros Hok Hf Hu Ha. unfold asks_password in Ha. rewrite decide_False in Ha by done. bool_hyps.
  assert (asks_password (with_need_new se) = false) as Ha'.
  { unfold asks_password. cbn [with_need_new as_flow as_needNew]. by rewrite decide_False. }
  split.
  - unfold phase_of. rewrite Ha'. cbn [with_need_new as_needUser as_needNew]. by rewrite Hu.
  - pose proof (ok_fails _ Hok). destruct Hok. constructor; try done; cbn [with_need_new as_fails as_maxRounds as_needUser as_needOld
      as_needNew as_needConfirm as_flow]; first [lia|congruence|by left|idtac].
    intros Ho. by destruct (ok_old0 Ho).
Qed.

Lemma old_done_refines se :
  se_ok se -> as_flow se = flowCHPASS -> as_needUser se = false -> asks_password se = true ->
  phase_of (with_old_done se) = AskNew /\ se_ok (with_old_done se).
Proof.
  intros Hok Hf Hu Ha. unfold asks_password in Ha. rewrite decide_True in Ha by done.
  destruct (ok_old _ Hok Ha) as [_ Hn].
  assert (asks_password (with_old_done se) = false) as Ha'.
  { unfold asks_password. cbn [with_old_done as_flow as_needOld]. by rewrite decide_True. }
  split.
  - unfold phase_of. rewrite Ha'. cbn [with_old_done as_needUser as_needNew]. by rewrite Hu, Hn.
  - pose proof (ok_fails _ Hok). destruct Hok.
    constructor; try done; cbn [with_old_done as_fails as_maxRounds as_needUser as_needOld as_needNew as_needConfirm]; first [lia|congruence|idtac].
    by left.
Qed.

Lemma new_pass_refines se pw :
  se_ok se -> phase_of se = AskNew -> pw <> [] ->
  phase_of (with_new_pass se pw) = AskConfirm pw /\ se_ok (with_new_pass se pw).
Proof.
  intros Hok Hp Hpw. unfold phase_of in Hp. destruct (as_needUser se) eqn:Hu; [done|]. destruct (asks_password se) eqn:Ha; [done|].
  assert (asks_password (with_new_pass se pw) = false) as Ha'.
  { unfold asks_password in *. cbn [with_new_pass as_flow as_needOld as_needNew as_needConfirm]. by case_decide. }
  split.
  - unfold phase_of. rewrite Ha'. cbn [with_new_pass as_needUser as_needNew as_newPass]. by rewrite Hu.
  - pose proof (ok_fails _ Hok). destruct Hok.
    constructor; try done; cbn [with_new_pass as_needUser as_needOld as_needNew as_needConfirm as_flow]; try congruence; [|by right].
    intros Ho. exfalso. destruct (ok_old0 Ho) as [Hf _]. unfold asks_password in Ha. rewrite decide_True in Ha by done. congruence.
Qed.

Lemma publish_refines (s : svc) w se cont phc kind enable :
  enable = bool_decide (as_flow se = flowEnable) ->
  let out := publish enable s w se cont phc kind in
  let status := match published s se phc with
                | None => AuthenStatusError
                | Some (_, Ok _) => AuthenStatusPass
                | Some (_, Err code) => if str_eqb code CodeConflict || str_eqb code CodeNotFound then AuthenStatusFail else AuthenStatusError
                end in
  ended s (fst out) w se cont status /\ sp_Status (snd out) = status.
Proof.
  intros He. cbv zeta. unfold publish, published. destruct (sa_mgr s) as [m|] eqn:Em.
  2:{ split; [|done]. exists None, kind, "". destruct s; simpl in Em; subst. done. }
  assert ((if enable then pub_OverrideEnable else pub_OverrideLogin) = (if decide (as_flow se = flowEnable) then pub_OverrideEnable (M:=M) else pub_OverrideLogin)) as ->
    by (subst enable; by case_bool_decide; case_decide).
  destruct ((if decide _ then _ else _) m (as_user se) phc (as_rev se)) as [m' [ []|code] ].
  - split; [|done]. by eexists (Some m'), kind, _.
  - case_match; (split; [|done]); by exists (Some m'), kind, "".
Qed.

(** The two new-password branches, of which the prompts and the event type
    differ. *)
Lemma new_confirm_refines (s : svc) w se cont kind enable :
  se_ok se -> as_flow se <> flowCHPASS -> as_needUser se = false -> asks_password se = false ->
  enable = bool_decide (as_flow se = flowEnable) ->
  refines s w se cont (continueNewConfirm IDKey s w se cont kind enable).
Proof.
  intros Hok Hf Hu Ha He. unfold refines, dialogue, continueNewConfirm. destruct (as_needNew se) eqn:Hn.
  - assert (phase_of se = AskNew) as Hp by (unfold phase_of; by rewrite Hu, Ha, Hn). rewrite Hp.
    destruct (decide (co_UserMsg cont = [])) as [Hm|Hm].
    { rewrite Hm. change (len [] =? 0) with true. cbv iota.
      split; [by apply (finish_ended s w se se cont kind "" failStep AuthenStatusFail)|done]. }
    destruct (Z.eqb_spec (len (co_UserMsg cont)) 0) as [Hl|_]; [by apply len_zero in Hl|].
    destruct (new_pass_refines se (co_UserMsg cont) Hok Hp Hm) as [H1 H2].
    exists (with_new_pass se (co_UserMsg cont)). split; [|done]. unfold prompt_of. by rewrite decide_False.
  - destruct (ok_new _ Hok Ha) as [?|Hc]; [congruence|]. rewrite Hc.
    assert (phase_of se = AskConfirm (as_newPass se)) as -> by (unfold phase_of; by rewrite Hu, Ha, Hn). cbn [negb].
    destruct (bytes_eqb _ _); cbn [negb]; [|split; [|done]; by apply (finish_ended s w se se cont kind "" failStep AuthenStatusFail)].
    subst enable. destruct (deriveChangePHC _ _ _ _ _) as [phc|e].
    + pose proof (publish_refines s w se cont phc kind _ eq_refl) as [P1 P2]. revert P1 P2.
      destruct (published s se phc) as [ [m [ []|code] ]|]; done.
    + split; [|by destruct (protoError e)].
      destruct (protoError e); [by apply (finish_ended s w se se cont kind "" errorStep AuthenStatusError)|
        by apply (finish_ended s w se se cont kind "" failStep AuthenStatusFail)].
Qed.

Lemma ask_user_refines (s : svc) w se cont :
  se_ok se -> as_needUser se = true ->
  refines s w se cont (putSession s (cont_key cont) (with_user se (canonUser precis (text_of (co_UserMsg cont)))),
                       if decide (as_flow se = flowCHPASS) then dataPrompt else passPrompt).
Proof.
  intros Hok Hu. unfold refines, dialogue. assert (phase_of se = AskUser) as -> by (unfold phase_of; by rewrite Hu).
  destruct (user_refines se (canonUser precis (text_of (co_UserMsg cont))) Hok Hu) as [H1 H2]. by eexists.
Qed.

(** The password branch of a login or ENABLE. *)
Lemma password_refines (s : svc) w se cont enable :
  se_ok se -> as_flow se <> flowCHPASS -> as_needUser se = false -> asks_password se = true ->
  enable = bool_decide (as_flow se = flowEnable) ->
  refines s w se cont (finishPassword IDKey precis s w se cont enable).
Proof.
  intros Hok Hf Hu Ha He. unfold refines, dialogue, finishPassword.
  assert (phase_of se = AskPassword (as_fails se)) as Hp by (unfold phase_of; by rewrite Hu, Ha). rewrite Hp.
  assert ((if enable then snd (VerifyEnable IDKey precis (session_creds s w se) (w_cx w) (w_now w) (as_user se) (co_UserMsg cont))
           else snd (VerifyASCIIOrPAP IDKey precis (session_creds s w se) (w_cx w) (w_now w) (as_user se) (co_UserMsg cont)))
          = credential s w se (co_UserMsg cont)) as ->
    by (unfold credential; subst enable; case_bool_decide; by case_decide).
  destruct (need_new_refines se Hok Hf Hu Ha) as [N1 N2].
  assert (refines_new : exists se', (putSession s (cont_key cont) (with_need_new se), newPassPrompt)
            = (putSession s (cont_key cont) se', prompt_of (as_flow se) AskNew)
            /\ phase_of se' = AskNew /\ se_ok se' /\ same_conversation se se' /\ as_user se' = as_user se).
  { exists (with_need_new se). unfold prompt_of. by rewrite decide_False. }
  destruct (credential s w se (co_UserMsg cont)) as [ []|e].
  - rewrite (decide_False _ _ Hf). unfold must_change.
    destruct (decide (as_flow se = flowEnable)) as [Hen|Hen]; subst enable;
      [rewrite bool_decide_true by done|rewrite bool_decide_false by done]; cbn [negb andb].
    + destruct (userMustChangeEnable _ _); cbn [negb]; [done|].
      split; [by apply (finish_ended s w se se cont "enable" "" passStep AuthenStatusPass)|done].
    + destruct (userMustChangeLogin _ _); cbn [negb].
      * destruct (asciiChpassAllowed _ _); cbn [negb]; [done|].
        split; [by apply (finish_ended s w se se cont "ascii_login" reasonPasswordChangeRequired
          (failStepMsg serverMsgPasswordChangeRequired) AuthenStatusFail)|done].
      * split; [by apply (finish_ended s w se se cont "ascii_login" "" passStep AuthenStatusPass)|done].
  - destruct (protoError e).
    + split; [by apply (finish_ended s w se se cont (if enable then "enable" else "ascii_login") "" errorStep AuthenStatusError)|done].
    + pose proof (retry_refines s w se cont (if enable then "enable" else "ascii_login") passPrompt (as_fails se) Hok Hp) as Hr.
      unfold prompt_of in Hr at 1. rewrite decide_False in Hr by done. specialize (Hr eq_refl _ eq_refl).
      destruct (_ <? _); done.
Qed.

Lemma chpass_refines (s : svc) w se cont :
  se_ok se -> as_flow se = flowCHPASS -> as_needUser se = false ->
  refines s w se cont (continueCHPASS IDKey precis s w se cont).
Proof.
  intros Hok Hf Hu. assert (asks_password se = as_needOld se) as Ha by (unfold asks_password; by rewrite decide_True).
  unfold refines, dialogue, continueCHPASS. rewrite Hu. destruct (as_needOld se) eqn:Ho.
  - assert (phase_of se = AskPassword (as_fails se)) as Hp by (unfold phase_of; by rewrite Hu, Ha). rewrite Hp.
    unfold credential. rewrite (decide_False (P := as_flow se = flowEnable)) by (by rewrite Hf).
    destruct (snd (VerifyASCIIOrPAP _ _ _ _ _ _ _)) as [ []|e].
    + rewrite decide_True by done. destruct (old_done_refines se Hok Hf Hu Ha) as [H1 H2].
      exists (with_old_done se). unfold prompt_of. by rewrite decide_True.
    + destruct (protoError e); [split; [by apply (finish_ended s w se se cont "ascii_chpass" "" errorStep AuthenStatusError)|done]|].
      pose proof (retry_refines s w se cont "ascii_chpass" dataPrompt (as_fails se) Hok Hp) as Hr.
      unfold prompt_of in Hr at 1. rewrite decide_True in Hr by done. specialize (Hr eq_refl _ eq_refl).
      destruct (_ <? _); done.
  - destruct (as_needNew se) eqn:Hn.
    + assert (phase_of se = AskNew) as Hp by (unfold phase_of; by rewrite Hu, Ha, Hn). rewrite Hp.
      destruct (decide (co_UserMsg cont = [])) as [Hm|Hm].
      { rewrite Hm. change (len [] =? 0) with true. cbv iota.
        split; [by apply (finish_ended s w se se cont "ascii_chpass" "" failStep AuthenStatusFail)|done]. }
      destruct (Z.eqb_spec (len (co_UserMsg cont)) 0) as [Hl|_]; [by apply len_zero in Hl|].
      destruct (new_pass_refines se (co_UserMsg cont) Hok Hp Hm) as [H1 H2].
      exists (with_new_pass se (co_UserMsg cont)). unfold prompt_of. by rewrite decide_True.
    + destruct (ok_new _ Hok Ha) as [?|Hc]; [congruence|]. rewrite Hc.
      assert (phase_of se = AskConfirm (as_newPass se)) as -> by (unfold phase_of; by rewrite Hu, Ha, Hn). cbn [negb].
      rewrite (bool_decide_false (as_flow se = flowEnable)) by (by rewrite Hf).
      destruct (bytes_eqb _ _); cbn [negb]; [|split; [by apply (finish_ended s w se se cont "ascii_chpass" "" failStep AuthenStatusFail)|done] ].
      destruct (deriveChangePHC _ _ _ _ _) as [phc|e].
      * assert (false = bool_decide (as_flow se = flowEnable)) as Hen by (by rewrite Hf).
        pose proof (publish_refines s w se cont phc "ascii_chpass" false Hen) as [P1 P2]. revert P1 P2.
        destruct (published s se phc) as [ [m [ []|code] ]|]; done.
      * destruct (protoError e); (split; [|done]);
          [by apply (finish_ended s w se se cont "ascii_chpass" "" errorStep AuthenStatusError)|
           by apply (finish_ended s w se se cont "ascii_chpass" "" failStep AuthenStatusFail)].
Qed.

(** A login and an ENABLE take the same path. *)
Lemma login_refines (s : svc) w se cont kind enable :
  se_ok se -> as_flow se <> flowCHPASS -> enable = bool_decide (as_flow se = flowEnable) ->
  refines s w se cont
    (if as_needUser se then (putSession s (cont_key cont) (with_user se (canonUser precis (text_of (co_UserMsg cont)))), passPrompt)
     else if as_needNew se || as_needConfirm se then continueNewConfirm IDKey s w se cont kind enable
     else finishPassword IDKey precis s w se cont enable).
Proof.
  intros Hok Hf He. destruct (as_needUser se) eqn:Hu.
  { pose proof (ask_user_refines s w se cont Hok Hu) as Hau. by rewrite decide_False in Hau. }
  destruct (asks_password se) eqn:Ha.
  - pose proof Ha as Ha'. unfold asks_password in Ha'. rewrite decide_False in Ha' by done. bool_hyps.
    match goal with Hn : as_needNew se = false, Hc : as_needConfirm se = false |- _ => rewrite Hn, Hc end.
    by apply password_refines.
  - rewrite (proj2 (orb_true_iff _ _) (ok_new _ Hok Ha)). by apply new_confirm_refines.
Qed.

(** A CONTINUE on a live conversation does what the reference says. *)
Lemma continue_refines (s : svc) w se cont :
  se_ok se -> getSession s (cont_key cont) = Some se -> w_cancelled w = false -> co_Abort cont = false ->
  exists out, Continue s w cont = (fst out, snd out, None) /\ refines s w se cont out.
Proof.
  intros Hok Hs Hw Hab. unfold ContinueAuthentication. rewrite Hw, Hs, Hab.
  destruct (ok_flow _ Hok) as [Hf|[Hf|Hf] ]; rewrite Hf.
  - exists (continueASCII IDKey precis s w se cont). split; [by destruct (continueASCII _ _ _ _ _ _)|].
    apply login_refines; by rewrite ?Hf.
  - exists (continueEnable IDKey precis s w se cont). split; [by destruct (continueEnable _ _ _ _ _ _)|].
    apply login_refines; by rewrite ?Hf.
  - exists (continueCHPASS IDKey precis s w se cont). split; [by destruct (continueCHPASS _ _ _ _ _ _)|].
    destruct (as_needUser se) eqn:Hu; [|by apply chpass_refines].
    pose proof (ask_user_refines s w se cont Hok Hu) as Hau. rewrite decide_True in Hau by done.
    unfold continueCHPASS. by rewrite Hu.
Qed.

(** ** A START *)

(** The evidence that the data of a one-shot START carries. *)
Definition start_evidence (flow : authFlow) (data : bytes) : option CredentialEvidence :=
  match flow with
  | flowPAP => Some (EvidencePassword data)
  | flowCHAP => match SplitCHAPData data DefaultMinCHAPChallenge with Ok (id, c, r) => Some (EvidenceCHAP id c r) | Err _ => None end
  | flowMSCHAPv1 => match SplitMSCHAPv1Data data with Ok (id, c, r) => Some (EvidenceMSCHAPv1 id c r) | Err _ => None end
  | flowMSCHAPv2 => match SplitMSCHAPv2Data data with Ok (id, c, r) => Some (EvidenceMSCHAPv2 id c r) | Err _ => None end
  | _ => None
  end.

(** A START that passes at once: an allowed method, evidence that verifies for
    a named user, and no password to change. *)
Definition one_shot_ok (s : svc) (w : World) (start : AuthenticationStart) : Prop :=
  exists snap ev, w_snap w = Some snap /\ start_evidence (fst (classifyStart start)) (an_Data start) = Some ev
    /\ methodAllowed snap (an_ClientID start) (methodForFlow (fst (classifyStart start))) = true
    /\ canonUser precis (an_UserID start) <> ""%string
    /\ userMustChangeLogin snap (canonUser precis (an_UserID start)) = false
    /\ verify_evidence IDKey md4 precis (boundCreds s w snap (an_ClientID start)) w (canonUser precis (an_UserID start)) ev = Some (Ok tt).

(** The ring is offered one event, whose result says whether the answer is
    PASS, and stores it unless the settings leave that result out. *)
Definition audited (r r' : Ring) (now : Z) (status : Z) : Prop :=
  exists snap ev, r' = (if recorded snap (ev_Result ev) then fst (Accept r now ev) else r)
    /\ ev_Category ev = "authen"%string /\ (ev_Result ev = "pass"%string <-> status = AuthenStatusPass).

Lemma record_audited (s : svc) w snap o user kind result reason status :
  (result = "pass"%string <-> status = AuthenStatusPass) ->
  audited (sa_events s) (sa_events (recordAuthReason s w snap o user kind result reason)) (w_ring_now w) status.
Proof.
  intros Hr. exists snap, (auth_event o user kind result reason). split; [|done].
  unfold recordAuthReason. cbn [ev_Result auth_event]. by destruct (recorded snap result).
Qed.

Lemma record_sessions (s : svc) w snap o user kind result reason :
  sa_sessions (recordAuthReason s w snap o user kind result reason) = sa_sessions s.
Proof. unfold recordAuthReason. by destruct (recorded snap result). Qed.

(** The answer of a START that opens no conversation. *)
Definition decided (s : svc) (w : World) (start : AuthenticationStart) (snap : AuthSnapshot) (out : svc * AuthenticationStep) : Prop :=
  sa_sessions (fst out) = sa_sessions s /\ is_prompt (sp_Status (snd out)) = false
  /\ audited (sa_events s) (sa_events (fst out)) (w_ring_now w) (sp_Status (snd out)).

Lemma decided_record (s : svc) w start snap o user kind result reason step :
  is_prompt (sp_Status step) = false -> (result = "pass"%string <-> sp_Status step = AuthenStatusPass) ->
  decided s w start snap (recordAuthReason s w snap o user kind result reason, step).
Proof. intros Hp Hr. split; [apply record_sessions|]. split; [done|]. by apply record_audited. Qed.

Lemma finishOneShot_decided (s : svc) w snap start user kind outcome :
  let out := finishOneShotOutcome s w snap start user kind outcome in
  decided s w start snap out
  /\ (sp_Status (snd out) = AuthenStatusPass -> outcome = AuthPass /\ userMustChangeLogin snap user = false).
Proof.
  cbv zeta. unfold finishOneShotOutcome, recordAuth.
  destruct outcome; [destruct (userMustChangeLogin snap user) eqn:Em|..]; (split; [by apply decided_record|done]).
Qed.

Lemma outcome_pass r : outcomeFromCreds r = AuthPass <-> r = Ok tt.
Proof. unfold outcomeFromCreds. destruct r as [ []|e]; [done|]. by destruct (protoError e). Qed.

Lemma oneShot_decided (s : svc) w snap start :
  w_snap w = Some snap ->
  methodAllowed snap (an_ClientID start) (methodForFlow (fst (classifyStart start))) = true ->
  forall out,
  match fst (classifyStart start) with
  | flowPAP => out = oneShotPAP IDKey md4 precis s w snap start
  | flowCHAP => out = oneShotCHAP IDKey md4 precis s w snap start
  | flowMSCHAPv1 => out = oneShotMSCHAP md4 precis s w snap start false
  | flowMSCHAPv2 => out = oneShotMSCHAP md4 precis s w snap start true
  | _ => False
  end ->
  decided s w start snap out /\ (sp_Status (snd out) = AuthenStatusPass -> one_shot_ok s w start).
Proof.
  intros Hs Hm out. unfold one_shot_ok.
  set (user := canonUser precis (an_UserID start)).
  assert (forall ev, start_evidence (fst (classifyStart start)) (an_Data start) = Some ev -> user <> ""%string ->
    userMustChangeLogin snap user = false ->
    verify_evidence IDKey md4 precis (boundCreds s w snap (an_ClientID start)) w user ev = Some (Ok tt) -> exists snap0 ev0,
      w_snap w = Some snap0 /\ start_evidence (fst (classifyStart start)) (an_Data start) = Some ev0
      /\ methodAllowed snap0 (an_ClientID start) (methodForFlow (fst (classifyStart start))) = true /\ user <> ""%string
      /\ userMustChangeLogin snap0 user = false
      /\ verify_evidence IDKey md4 precis (boundCreds s w snap0 (an_ClientID start)) w user ev0 = Some (Ok tt)) as Hev
    by (intros ev ? ? ? ?; by exists snap, ev).
  assert (forall b, str_eqb user "" = b -> b = false -> user <> ""%string) as Hne.
  { intros b <- Hb E. rewrite E in Hb. done. }
  destruct (fst (classifyStart start)) eqn:Ef; try done; intros ->.
  - unfold oneShotPAP. fold user. destruct (str_eqb user "") eqn:Eu; [split; [by apply decided_record|done]|].
    destruct (len (an_Data start) =? 0); [split; [by apply decided_record|done]|]. cbn [orb].
    destruct (finishOneShot_decided s w snap start user "pap_login"
      (verifyAgainst IDKey md4 precis s w snap user (an_ClientID start) (EvidencePassword (an_Data start)))) as [H1 H2].
    split; [done|]. intros [Ho Hc]%H2. apply outcome_pass in Ho. apply (Hev (EvidencePassword (an_Data start))); [done|by eapply Hne|done|].
    simpl. by rewrite Ho.
  - unfold oneShotCHAP. fold user.
    destruct (SplitCHAPData (an_Data start) DefaultMinCHAPChallenge) as [ [ [id c] r]|e] eqn:Esp; [|split; [by apply decided_record|done] ].
    destruct (str_eqb user "") eqn:Eu; [split; [by apply decided_record|done]|].
    destruct (finishOneShot_decided s w snap start user "chap_login"
      (verifyAgainst IDKey md4 precis s w snap user (an_ClientID start) (EvidenceCHAP id c r))) as [H1 H2].
    split; [done|]. intros [Ho Hc]%H2. apply outcome_pass in Ho. apply (Hev (EvidenceCHAP id c r)); [by simpl; rewrite Esp|by eapply Hne|done|].
    simpl. by rewrite Ho.
  - unfold oneShotMSCHAP. fold user.
    destruct (SplitMSCHAPv1Data (an_Data start)) as [ [ [id c] r]|e] eqn:Esp; [|split; [by apply decided_record|done] ].
    set (ver := snd (VerifyMSCHAPv1 _ _ _ _ _ _ _ _ _)) in *.
    destruct (finishOneShot_decided s w snap start user "mschapv1_login" (outcomeFromCreds ver)) as [H1 H2].
    unfold finishOneShot. destruct (match ver with Ok _ => _ | Err e => _ end) eqn:Ep.
    { split; [done|]. intros [Ho _]%H2. apply outcome_pass in Ho. by rewrite Ho in Ep. }
    destruct (str_eqb user "") eqn:Eu; [split; [by apply decided_record|done]|].
    split; [done|]. intros [Ho Hc]%H2. apply outcome_pass in Ho. apply (Hev (EvidenceMSCHAPv1 id c r)); [by simpl; rewrite Esp|by eapply Hne|done|].
    simpl. fold ver. by rewrite Ho.
  - unfold oneShotMSCHAP. fold user.
    destruct (SplitMSCHAPv2Data (an_Data start)) as [ [ [id c] r]|e] eqn:Esp; [|split; [by apply decided_record|done] ].
    set (ver := snd (VerifyMSCHAPv2 _ _ _ _ _ _ _ _ _)) in *.
    destruct (finishOneShot_decided s w snap start user "mschapv2_login" (outcomeFromCreds ver)) as [H1 H2].
    unfold finishOneShot. destruct (match ver with Ok _ => _ | Err e => _ end) eqn:Ep.
    { split; [done|]. intros [Ho _]%H2. apply outcome_pass in Ho. by rewrite Ho in Ep. }
    destruct (str_eqb user "") eqn:Eu; [split; [by apply decided_record|done]|].
    split; [done|]. intros [Ho Hc]%H2. apply outcome_pass in Ho. apply (Hev (EvidenceMSCHAPv2 id c r)); [by simpl; rewrite Esp|by eapply Hne|done|].
    simpl. fold ver. by rewrite Ho.
Qed.

Definition start_key (start : AuthenticationStart) : sessionKey := (an_ConnKey start, an_SessionID start).

(** Whether a START gets past the context and the field limits: it then drops
    what the table holds under its key. *)
Definition accepted_start (w : World) (start : AuthenticationStart) : bool :=
  negb (w_cancelled w) && checkAuthenFields (w_limits w) (an_UserID start) (an_Port start) (an_Remote start).

(** A START that opens a conversation. *)
Definition opens (w : World) (start : AuthenticationStart) (se : authSession) : Prop :=
  accepted_start w start = true /\ w_snap w = Some (as_snap se) /\ as_flow se = fst (classifyStart start)
  /\ as_clientID se = an_ClientID start /\ as_user se = canonUser precis (an_UserID start)
  /\ phase_of se = (if decide (as_user se = ""%string) then AskUser else AskPassword 0).

Lemma interactive_opens (s : svc) w start snap flow out :
  accepted_start w start = true -> w_snap w = Some snap -> flow = fst (classifyStart start) ->
  methodAllowed snap (an_ClientID start) (methodForFlow flow) = true ->
  flow = flowASCII \/ flow = flowEnable \/ flow = flowCHPASS ->
  out = beginInteractive precis s w start snap flow ->
  (decided s w start snap out /\ sp_Status (snd out) = AuthenStatusFail)
  \/ exists se, out = (putSession s (start_key start) se, prompt_of flow (phase_of se)) /\ opens w start se /\ se_ok se.
Proof.
  intros Ha Hs Hf Hm Hfl ->. unfold beginInteractive. destruct (_ && _).
  { left. split; [by apply decided_record|done]. }
  right. set (user := canonUser precis (an_UserID start)). set (chpass := bool_decide (flow = flowCHPASS)).
  set (se := mkSession _ _ _ _ _ _ _ _ _ _ _ _). exists se.
  assert (asks_password se = true) as Hask.
  { unfold asks_password, se, chpass. cbn [as_flow as_needOld as_needNew as_needConfirm]. by destruct (decide (flow = flowCHPASS)); [rewrite bool_decide_true|rewrite bool_decide_false]. }
  assert (phase_of se = if decide (user = ""%string) then AskUser else AskPassword 0) as Hp.
  { unfold phase_of. rewrite Hask. unfold se. cbn [as_needUser as_fails]. unfold str_eqb.
    by destruct (decide (user = ""%string)); [rewrite bool_decide_true|rewrite bool_decide_false]. }
  split; [|split].
  - rewrite Hp. unfold se. cbn [as_needUser]. fold se. unfold str_eqb.
    destruct (decide (user = ""%string)); [by rewrite bool_decide_true|rewrite bool_decide_false by done].
    unfold chpass, prompt_of. by destruct (decide (flow = flowCHPASS)); [rewrite bool_decide_true|rewrite bool_decide_false].
  - done.
  - pose proof (maxRounds_pos (Some snap)). constructor; unfold se; cbn [as_flow as_snap as_clientID as_maxRounds as_rev as_fails as_needUser
      as_needOld as_needNew as_needConfirm as_newPass]; try done.
    + intros Hc. split; [by apply bool_decide_eq_true in Hc|done].
    + intros Hc. change (asks_password se = false) in Hc. congruence.
Qed.

(** A START that is answered at once. *)
Definition settled (s : svc) (w : World) (start : AuthenticationStart) (out : svc * AuthenticationStep) : Prop :=
  sa_sessions (fst out) = delete (start_key start) (sa_sessions s) /\ is_prompt (sp_Status (snd out)) = false
  /\ (sp_Status (snd out) = AuthenStatusPass ->
      one_shot_ok s w start /\ audited (sa_events s) (sa_events (fst out)) (w_ring_now w) (sp_Status (snd out))).

Lemma settled_plain (s s' : svc) w start step :
  is_prompt (sp_Status step) = false -> sp_Status step <> AuthenStatusPass ->
  sa_sessions s' = delete (start_key start) (sa_sessions s) -> settled s w start (s', step).
Proof. intros H1 H2 H3. split; [done|]. split; [done|]. intros Hp. by destruct H2. Qed.

Lemma settled_one_shot (s : svc) w snap start out :
  decided (dropSession s (start_key start)) w start snap out ->
  (sp_Status (snd out) = AuthenStatusPass -> one_shot_ok (dropSession s (start_key start)) w start) -> settled s w start out.
Proof. intros (D1 & D2 & D3) Ho. split; [done|]. split; [done|]. intros Hp. split; [by apply Ho|done]. Qed.

Lemma classify_term start : let term := snd (classifyStart start) in is_prompt term = false /\ term <> AuthenStatusPass.
Proof. cbv zeta. unfold classifyStart. by repeat case_match. Qed.

(** What a START does: nothing but refuse; or drop the key and answer; or open
    a conversation. *)
Lemma begin_cases (s : svc) w start :
  (accepted_start w start = false /\ fst (fst (Begin s w start)) = s /\ sp_Status (snd (fst (Begin s w start))) = AuthenStatusError)
  \/ (accepted_start w start = true /\ settled s w start (fst (Begin s w start)))
  \/ (exists se, opens w start se /\ se_ok se
      /\ Begin s w start = (putSession (dropSession s (start_key start)) (start_key start) se, prompt_of (as_flow se) (phase_of se), None)).
Proof.
  pose proof (eq_refl (accepted_start w start)) as Hacc. unfold accepted_start at 2 in Hacc.
  unfold BeginAuthentication. fold (start_key start).
  destruct (w_cancelled w) eqn:Hw; [by left|]. cbn [negb andb] in Hacc.
  destruct (checkAuthenFields _ _ _ _) eqn:Hc; cbn [negb]; [|by left]. right. rewrite Hacc.
  destruct (w_snap w) as [snap|] eqn:Hs; [|left; split; [done|by apply settled_plain] ].
  pose proof (classify_term start) as Hterm.
  pose proof (oneShot_decided (dropSession s (start_key start)) w snap start Hs) as Hone.
  pose proof (interactive_opens (dropSession s (start_key start)) w start snap) as Hint.
  destruct (classifyStart start) as [flow term] eqn:Ecl. cbn [fst snd] in *. destruct Hterm as [Ht1 Ht2].
  destruct (term =? 0); cbn [negb]; [|left; split; [done|]; apply settled_plain; [done|done|apply record_sessions] ].
  destruct (methodAllowed snap (an_ClientID start) (methodForFlow flow)) eqn:Hm; cbn [negb];
    [|left; split; [done|]; apply settled_plain; [done|done|apply record_sessions] ].
  specialize (Hone eq_refl).
  destruct flow.
  1-3: destruct (Hint _ _ Hacc Hs eq_refl Hm ltac:(tauto) eq_refl) as [ [D E]|(se & Ho & Hop & Hok)];
    [left; split; [done|]; destruct (beginInteractive _ _ _ _ _ _); eapply settled_one_shot; [exact D|intros Hp; simpl in Hp, E; rewrite E in Hp; discriminate Hp]
    |right; exists se; rewrite Ho; destruct (Hop) as (_ & _ & -> & _); by rewrite Ecl].
  1-4: left; split; [done|];
    match goal with |- context [let '(_, _) := ?x in _] => destruct (Hone x eq_refl) as [O1 O2]; destruct x end;
    by eapply settled_one_shot.
  left. split; [done|]. apply settled_plain; [done|done|apply record_sessions].
Qed.

(** What ends the reference with PASS. *)
Lemma dialogue_pass (s : svc) w se msg :
  se_ok se -> dialogue s w se msg = inr AuthenStatusPass ->
  (exists n, phase_of se = AskPassword n /\ as_flow se <> flowCHPASS /\ credential s w se msg = Ok tt /\ must_change se = false)
  \/ (exists phc m, phase_of se = AskConfirm msg
      /\ deriveChangePHC IDKey (session_creds s w se) w msg (bool_decide (as_flow se = flowEnable)) = Ok phc
      /\ published s se phc = Some (m, Ok tt) /\ as_rev se = an_Revision (as_snap se)).
Proof.
  intros Hok. unfold dialogue. destruct (phase_of se) as [|n| |new] eqn:Hp; [discriminate| | |].
  - destruct (credential s w se msg) as [ []|e] eqn:Hc; [|by repeat case_match].
    destruct (decide (as_flow se = flowCHPASS)); [discriminate|].
    destruct (must_change se) eqn:Hm; cbn [negb]; [by repeat case_match|]. intros _. left. by exists n.
  - by case_match.
  - destruct (bytes_eqb new msg) eqn:Hb; cbn [negb]; [|discriminate]. apply bytes_eqb_true in Hb as ->.
    destruct (deriveChangePHC _ _ _ _ _) as [phc|e] eqn:Hd; [|by destruct (protoError e)].
    destruct (published s se phc) as [ [m [ []|code] ]|] eqn:Hpub; [|by case_match|discriminate].
    intros _. right. exists phc, m. split; [done|]. split; [done|]. split; [done|]. apply (ok_rev _ Hok).
Qed.

Lemma dialogue_final (s : svc) w se msg status : dialogue s w se msg = inr status -> is_prompt status = false.
Proof.
  unfold dialogue. destruct (phase_of se); [discriminate| | |].
  - destruct (credential s w se msg) as [ []|e]; repeat case_match; intros E; discriminate E || by injection E as <-.
  - case_match; intros E; [by injection E as <-|discriminate E].
  - destruct (bytes_eqb _ _); cbn [negb]; [|by intros [= <-] ]. destruct (deriveChangePHC _ _ _ _ _) as [phc|e].
    + destruct (published s se phc) as [ [m [ []|code] ]|]; [by intros [= <-]|case_match; by intros [= <-]|by intros [= <-] ].
    + destruct (protoError e); by intros [= <-].
Qed.

(** ** Histories

    The operations of every session in the order they run; between them the
    rest of the program may publish through the manager and store events. *)

Inductive authen_op :=
| OpBegin (start : AuthenticationStart) | OpContinue (cont : AuthenticationContinue) | OpAbort (ab : AuthenticationAbort)
| OpManager (mgr : option M) | OpRing (ring : Ring).

(** The service after an operation and the status it answered. *)
Definition exec (s : svc) (w : World) (op : authen_op) : svc * option Z :=
  match op with
  | OpBegin start => (fst (fst (Begin s w start)), Some (sp_Status (snd (fst (Begin s w start)))))
  | OpContinue cont => (fst (fst (Continue s w cont)), Some (sp_Status (snd (fst (Continue s w cont)))))
  | OpAbort ab => (AbortAuthentication s w ab, None)
  | OpManager mgr => (set_mgr s mgr, None)
  | OpRing ring => (set_events s ring, None)
  end.

Definition run (s : svc) (ops : list (World * authen_op)) : svc := fold_left (fun s o => fst (exec s (fst o) (snd o))) ops s.

Definition restarts (key : sessionKey) (o : World * authen_op) : bool :=
  match snd o with OpBegin start => bool_decide (start_key start = key) && accepted_start (fst o) start | _ => false end.
(** A CONTINUE of the session that the service looks at. *)
Definition answers (key : sessionKey) (o : World * authen_op) : bool :=
  match snd o with OpContinue cont => bool_decide (cont_key cont = key) && negb (w_cancelled (fst o)) | _ => false end.

Definition table_ok (s : svc) : Prop := forall key se, getSession s key = Some se -> se_ok se.

Lemma run_app s ops ops' : run s (ops ++ ops') = run (run s ops) ops'.
Proof. apply fold_left_app. Qed.

Lemma put_session (s : svc) key se key' : getSession (putSession s key se) key' = if decide (key' = key) then Some se else getSession s key'.
Proof.
  unfold getSession, putSession. cbn [set_sessions sa_sessions].
  destruct (decide (key' = key)) as [->|Hne]; [apply lookup_insert_eq|by apply lookup_insert_ne].
Qed.
Lemma drop_session (s : svc) key key' : getSession (dropSession s key) key' = if decide (key' = key) then None else getSession s key'.
Proof.
  unfold getSession, dropSession. cbn [set_sessions sa_sessions].
  destruct (decide (key' = key)) as [->|Hne]; [apply lookup_delete_eq|by apply lookup_delete_ne].
Qed.
Lemma ended_session (s s' : svc) w se cont status key :
  ended s s' w se cont status -> getSession s' key = if decide (key = cont_key cont) then None else getSession s key.
Proof.
  intros (m & kind & reason & ->). unfold getSession. rewrite record_sessions. apply (drop_session (set_mgr s m) (cont_key cont) key).
Qed.

(** What an operation names. *)
Definition op_key (op : authen_op) : option sessionKey :=
  match op with
  | OpBegin start => Some (start_key start) | OpContinue cont => Some (cont_key cont)
  | OpAbort ab => Some (ab_ConnKey ab, ab_SessionID ab) | OpManager _ | OpRing _ => None
  end.

(** An operation leaves the sessions of other keys alone. *)
Definition only_key (key : sessionKey) (s s' : svc) : Prop := forall k, k <> key -> getSession s' k = getSession s k.
Lemma only_refl key s : only_key key s s.
Proof. by intros k. Qed.
Lemma only_put (s : svc) key se : only_key key s (putSession s key se).
Proof. intros k Hk. by rewrite put_session, decide_False. Qed.
Lemma only_drop (s : svc) key : only_key key s (dropSession s key).
Proof. intros k Hk. by rewrite drop_session, decide_False. Qed.
Lemma only_record key (s s' : svc) w snap o user kind result reason :
  only_key key s s' -> only_key key s (recordAuthReason s' w snap o user kind result reason).
Proof. intros Hs k Hk. unfold getSession. rewrite record_sessions. by apply Hs. Qed.
Lemma only_finish (s s' : svc) w se cont kind result reason step :
  only_key (cont_key cont) s s' -> only_key (cont_key cont) s (fst (finish s' w se cont kind result reason step)).
Proof. intros Hs. apply only_record. intros k Hk. rewrite drop_session, decide_False by done. by apply Hs. Qed.

(** Where a session of the table comes from. *)
Inductive source (s : svc) (w : World) (op : authen_op) (key : sessionKey) (se' : authSession) : Prop :=
| from_before : getSession s key = Some se' -> restarts key (w, op) = false -> answers key (w, op) = false -> source s w op key se'
| from_start start : op = OpBegin start -> start_key start = key -> opens w start se' -> se_ok se' -> source s w op key se'
| from_continue cont se : op = OpContinue cont -> cont_key cont = key -> getSession s key = Some se ->
    dialogue s w se (co_UserMsg cont) = inl (phase_of se') -> se_ok se' -> same_conversation se se' ->
    as_user se' = match phase_of se with AskUser => canonUser precis (text_of (co_UserMsg cont)) | _ => as_user se end ->
    source s w op key se'.

Lemma exec_source (s : svc) w op key se' :
  table_ok s -> getSession (fst (exec s w op)) key = Some se' -> source s w op key se'.
Proof.
  intros Hok. destruct op as [start|cont|ab|mgr|ring]; cbn [exec fst]; [| | |by intros; apply from_before..].
  - destruct (begin_cases s w start) as [(Ha & -> & _)|[(Ha & Hd & _)|(se & Ho & Hse & ->)] ].
    + intros Hg. apply from_before; [done| |done]. unfold restarts. simpl. by rewrite Ha, andb_false_r.
    + unfold getSession at 1. rewrite Hd. fold (dropSession s (start_key start)). intros Hg.
      pose proof (drop_session s (start_key start) key) as Hdr. unfold getSession at 1, dropSession in Hdr. cbn in Hdr.
      rewrite Hg in Hdr. destruct (decide (key = start_key start)) as [|Hne]; [done|].
      apply from_before; [done| |done]. unfold restarts. simpl. by rewrite bool_decide_false by congruence.
    + cbn [fst]. rewrite put_session, drop_session. destruct (decide (key = start_key start)) as [->|Hne].
      * intros [= <-]. by eapply from_start.
      * intros Hg. apply from_before; [done| |done]. unfold restarts. simpl. by rewrite bool_decide_false by congruence.
  - destruct (decide (cont_key cont = key)) as [<-|Hne].
    + destruct (w_cancelled w) eqn:Hw.
      { unfold ContinueAuthentication. rewrite Hw. intros Hg. apply from_before; try done. unfold answers. simpl. by rewrite Hw, andb_false_r. }
      destruct (getSession s (cont_key cont)) as [se|] eqn:Hs.
      2:{ unfold ContinueAuthentication. rewrite Hw, Hs. cbn [fst]. congruence. }
      destruct (co_Abort cont) eqn:Hab.
      { unfold ContinueAuthentication. rewrite Hw, Hs, Hab. cbn [fst]. unfold getSession at 1, recordAuth. rewrite record_sessions.
        intros Hg. pose proof (drop_session s (cont_key cont) (cont_key cont)) as Hdr. rewrite decide_True in Hdr by done.
        unfold getSession in Hdr. congruence. }
      destruct (continue_refines s w se cont (Hok _ _ Hs) Hs Hw Hab) as (out & -> & Hr). cbn [fst snd].
      unfold refines in Hr. destruct (dialogue s w se (co_UserMsg cont)) as [p|status] eqn:Hd.
      * destruct Hr as (se1 & -> & Hp & Hse1 & Hsame & Hu). cbn [fst]. rewrite put_session, decide_True by done. intros [= <-].
        eapply from_continue; try done. by rewrite Hp.
      * destruct Hr as [He _]. rewrite (ended_session _ _ _ _ _ _ _ He), decide_True by done. done.
    + intros Hg. apply from_before; [|done|unfold answers; simpl; by rewrite bool_decide_false by done].
      rewrite <- Hg. clear Hg. unfold ContinueAuthentication. destruct (w_cancelled w) eqn:Hw; [done|].
      destruct (getSession s (cont_key cont)) as [se|] eqn:Hs; [|done]. destruct (co_Abort cont) eqn:Hab.
      { cbn [fst]. unfold getSession at 2, recordAuth. rewrite record_sessions.
        pose proof (drop_session s (cont_key cont) key) as Hdr. rewrite decide_False in Hdr by congruence. by unfold getSession in *. }
      destruct (continue_refines s w se cont (Hok _ _ Hs) Hs Hw Hab) as (out & Heq & Hr).
      unfold ContinueAuthentication in Heq. rewrite Hw, Hs, Hab in Heq. rewrite Heq. cbn [fst snd].
      unfold refines in Hr. destruct (dialogue s w se (co_UserMsg cont)) as [p|status].
      * destruct Hr as (se1 & -> & _). cbn [fst]. by rewrite put_session, decide_False by congruence.
      * destruct Hr as [He _]. by rewrite (ended_session _ _ _ _ _ _ _ He), decide_False by congruence.
  - unfold AbortAuthentication. destruct (getSession s (ab_ConnKey ab, ab_SessionID ab)) as [se|]; [|by intros; apply from_before].
    unfold getSession at 1, recordAuth. rewrite record_sessions. intros Hg.
    pose proof (drop_session s (ab_ConnKey ab, ab_SessionID ab) key) as Hdr. unfold getSession at 1 in Hdr. rewrite Hg in Hdr.
    destruct (decide _); [done|]. by apply from_before.
Qed.

Lemma exec_table_ok (s : svc) w op : table_ok s -> table_ok (fst (exec s w op)).
Proof. intros Hok key se Hg. destruct (exec_source s w op key se Hok Hg) as [Hb _ _|start|cont se0]; [by eapply Hok|done|done]. Qed.

Lemma run_table_ok (s : svc) ops : table_ok s -> table_ok (run s ops).
Proof. revert s. induction ops as [|o ops IH]; intros s Hok; [done|]. by apply IH, exec_table_ok. Qed.

Lemma only_retry (s : svc) w se cont kind retry : only_key (cont_key cont) s (fst (retryOrFail s w se cont kind retry)).
Proof. unfold retryOrFail. cbv zeta. destruct (_ <=? as_fails _); [by apply only_finish, only_refl|apply only_put]. Qed.
Lemma only_publish (s : svc) w se cont phc kind enable : only_key (cont_key cont) s (fst (publish enable s w se cont phc kind)).
Proof.
  unfold publish. destruct (sa_mgr s) as [m|]; [|apply only_finish, only_refl].
  destruct (_ m _ _ _) as [m' r]. repeat case_match; by apply (only_finish s (set_mgr s (Some m'))).
Qed.
Lemma only_password (s : svc) w se cont enable : only_key (cont_key cont) s (fst (finishPassword IDKey precis s w se cont enable)).
Proof.
  unfold finishPassword. cbv zeta. destruct (if enable then _ else _).
  - repeat case_match; first [apply only_put|apply only_finish, only_refl].
  - destruct (protoError e); [apply only_finish, only_refl|apply only_retry].
Qed.
Lemma only_confirm (s : svc) w se cont kind enable : only_key (cont_key cont) s (fst (continueNewConfirm IDKey s w se cont kind enable)).
Proof.
  unfold continueNewConfirm. destruct (as_needNew se); [case_match; [apply only_finish, only_refl|apply only_put]|].
  destruct (negb (as_needConfirm se)); [apply only_drop|]. destruct (negb _); [apply only_finish, only_refl|].
  destruct (deriveChangePHC _ _ _ _ _); [apply only_publish|apply only_finish, only_refl].
Qed.
Lemma only_continue (s : svc) w cont : only_key (cont_key cont) s (fst (fst (Continue s w cont))).
Proof.
  unfold ContinueAuthentication. destruct (w_cancelled w); [apply only_refl|].
  destruct (getSession s (cont_key cont)) as [se|]; [|apply only_refl].
  destruct (co_Abort cont); [apply only_record, only_drop|].
  assert (forall out : svc * AuthenticationStep, only_key (cont_key cont) s (fst out) ->
    only_key (cont_key cont) s (fst (fst (let '(s', step) := out in (s', step, @None authen_error))))) as Hout by (by intros [s' step]).
  destruct (as_flow se); try exact (only_drop s (cont_key cont)); apply Hout.
  - unfold continueASCII. repeat case_match; [apply only_put|apply only_confirm|apply only_password].
  - unfold continueEnable. repeat case_match; [apply only_put|apply only_confirm|apply only_password].
  - unfold continueCHPASS. destruct (as_needUser se); [apply only_put|].
    destruct (as_needOld se); [destruct (snd _); [apply only_put|case_match; [apply only_finish, only_refl|apply only_retry] ]|].
    destruct (as_needNew se); [case_match; [apply only_finish, only_refl|apply only_put]|].
    destruct (negb (as_needConfirm se)); [apply only_drop|]. destruct (negb _); [apply only_finish, only_refl|].
    destruct (deriveChangePHC _ _ _ _ _); [apply only_publish|apply only_finish, only_refl].
Qed.

Lemma exec_frame (s : svc) w op key : op_key op <> Some key -> getSession (fst (exec s w op)) key = getSession s key.
Proof.
  intros Hk. destruct op as [start|cont|ab|mgr|ring]; cbn [exec fst]; [| | |done..].
  - assert (start_key start <> key) as Hne by (intros E; by rewrite <- E in Hk).
    destruct (begin_cases s w start) as [(_ & -> & _)|[(_ & Hd & _)|(se & _ & _ & ->)] ]; [done| |].
    + unfold getSession. rewrite Hd. by apply lookup_delete_ne.
    + cbn [fst]. by rewrite put_session, drop_session, !decide_False.
  - apply only_continue. intros E. by rewrite E in Hk.
  - unfold AbortAuthentication. destruct (getSession s _); [|done]. apply (only_record (ab_ConnKey ab, ab_SessionID ab)).
    + apply only_drop.
    + intros E. by rewrite E in Hk.
Qed.

(** *** How long a conversation lasts *)

Lemma rank_range se : se_ok se -> 0 <= rank (as_maxRounds se) (phase_of se) <= as_maxRounds se + 2.
Proof.
  intros Hok. pose proof (ok_fails _ Hok). destruct (phase_of se) as [|n| |new] eqn:Hp; simpl; [lia| |lia|lia].
  apply password_phase in Hp as (_ & _ & Hn). lia.
Qed.

Lemma dialogue_rank (s : svc) w se msg p :
  se_ok se -> dialogue s w se msg = inl p -> rank (as_maxRounds se) p < rank (as_maxRounds se) (phase_of se).
Proof.
  intros Hok. pose proof (ok_fails _ Hok). unfold dialogue. destruct (phase_of se) as [|n| |new] eqn:Hp.
  - intros [= <-]. simpl. lia.
  - apply password_phase in Hp as (_ & _ & Hn). destruct (credential s w se msg) as [ []|e].
    + repeat case_match; intros Hr; try discriminate Hr; injection Hr as <-; simpl; lia.
    + destruct (protoError e); [done|]. destruct (_ <? _); [|done]. intros [= <-]. simpl. lia.
  - case_match; [done|]. intros [= <-]. simpl. lia.
  - destruct (bytes_eqb new msg); cbn [negb]; [|discriminate]. destruct (deriveChangePHC _ _ _ _ _); [|discriminate].
    destruct (published s se a) as [ [m [ []|code] ]|]; discriminate.
Qed.

(** The CONTINUEs that a session can still get an answer to. *)
Definition budget (s : svc) (key : sessionKey) : Z :=
  match getSession s key with Some se => rank (as_maxRounds se) (phase_of se) + 1 | None => 0 end.

Lemma exec_budget (s : svc) w op key :
  table_ok s -> restarts key (w, op) = false ->
  budget (fst (exec s w op)) key <= Z.max 0 (budget s key - (if answers key (w, op) then 1 else 0)).
Proof.
  intros Hok Hr. unfold budget at 1. destruct (getSession (fst (exec s w op)) key) as [se'|] eqn:Hg; [|lia].
  destruct (exec_source s w op key se' Hok Hg) as [Hb _ ->|start -> Hk Ho Hse|cont se -> Hk Hs Hd Hse Hsame _].
  - unfold budget. rewrite Hb. lia.
  - exfalso. destruct Ho as [Ha _]. unfold restarts in Hr. simpl in Hr. rewrite bool_decide_true in Hr by done. by rewrite Ha in Hr.
  - unfold budget. rewrite Hs. pose proof (dialogue_rank s w se _ _ (Hok _ _ Hs) Hd) as Hrank.
    pose proof (rank_range _ (Hok _ _ Hs)). destruct Hsame as (_ & _ & _ & -> & _). destruct (answers _ _); lia.
Qed.

Lemma run_budget (s : svc) ops key :
  table_ok s -> forallb (fun o => negb (restarts key o)) ops = true ->
  budget (run s ops) key <= Z.max 0 (budget s key - len (List.filter (answers key) ops)).
Proof.
  revert s. induction ops as [|[w op] ops IH]; intros s Hok Hf; [change (len (List.filter (answers key) [])) with 0; change (run s []) with s; lia|].
  cbn [forallb] in Hf. bool_hyps. pose proof (exec_budget s w op key Hok ltac:(by destruct (restarts key (w, op)))) as He.
  pose proof (IH (fst (exec s w op)) (exec_table_ok s w op Hok) ltac:(done)) as Hi.
  change (run s ((w, op) :: ops)) with (run (fst (exec s w op)) ops).
  cbn [List.filter]. destruct (answers key (w, op)); rewrite ?len_cons; pose proof (len_nonneg (List.filter (answers key) ops)); lia.
Qed.

(** What an accepted START leaves to its key. *)
Lemma started_budget (s : svc) w start :
  table_ok s -> accepted_start w start = true ->
  budget (fst (exec s w (OpBegin start))) (start_key start) <= maxRounds (w_snap w) + 3.
Proof.
  intros Hok Ha. unfold budget. destruct (getSession _ _) as [se|] eqn:Hg; [|pose proof (maxRounds_pos (w_snap w)); lia].
  destruct (exec_source s w (OpBegin start) (start_key start) se Hok Hg) as [_ Hr _|start' _ _ Ho Hse|cont se0 Hc]; [..|discriminate Hc].
  - unfold restarts in Hr. simpl in Hr. by rewrite bool_decide_true, Ha in Hr.
  - pose proof (rank_range se Hse). destruct Ho as (_ & -> & _). rewrite <- (ok_rounds _ Hse). lia.
Qed.

(** *** What a PASS rests on *)

(** A phase that only a verified password leads to. *)
Definition past_password (p : phase) : bool := match p with AskNew | AskConfirm _ => true | _ => false end.

(** The session under [key] was opened by a START of the history and by
    nothing since; once past the password phase, one of the CONTINUEs since
    then carried the credential of its user, under the snapshot of the START. *)
Definition verified (s0 : svc) (before mid : list (World * authen_op)) (key : sessionKey) (se : authSession) : Prop :=
  exists m1 w1 cont1 m2 se1, mid = m1 ++ (w1, OpContinue cont1) :: m2 /\ cont_key cont1 = key
    /\ getSession (run s0 (before ++ m1)) key = Some se1 /\ same_conversation se1 se /\ as_user se1 = as_user se
    /\ credential (run s0 (before ++ m1)) w1 se1 (co_UserMsg cont1) = Ok tt.
Definition conversation (s0 : svc) (ops : list (World * authen_op)) (key : sessionKey) (se : authSession) : Prop :=
  exists pre w0 start mid se0, ops = pre ++ (w0, OpBegin start) :: mid /\ start_key start = key
    /\ forallb (fun o => negb (restarts key o)) mid = true /\ opens w0 start se0 /\ same_conversation se0 se
    /\ (past_password (phase_of se) = true -> verified s0 (pre ++ [(w0, OpBegin start)]) mid key se).

Lemma same_trans a b c : same_conversation a b -> same_conversation b c -> same_conversation a c.
Proof. intros (?&?&?&?&?) (?&?&?&?&?). unfold same_conversation. repeat split; congruence. Qed.

Lemma verified_mono s0 before mid o key se se' :
  same_conversation se se' -> as_user se' = as_user se -> verified s0 before mid key se -> verified s0 before (mid ++ [o]) key se'.
Proof.
  intros Hs Hu (m1 & w1 & c1 & m2 & se1 & -> & Hk & Hg & Hsame & Hus & Hc).
  exists m1, w1, c1, (m2 ++ [o]), se1. rewrite <- app_assoc. split; [done|]. split; [done|]. split; [done|].
  split; [by eapply same_trans|]. split; [congruence|done].
Qed.

Lemma conversation_mono s0 ops o key se se' :
  restarts key o = false -> same_conversation se se' -> as_user se' = as_user se \/ past_password (phase_of se') = false ->
  (past_password (phase_of se') = true -> past_password (phase_of se) = true
     \/ exists w cont, o = (w, OpContinue cont) /\ cont_key cont = key /\ getSession (run s0 ops) key = Some se
          /\ credential (run s0 ops) w se (co_UserMsg cont) = Ok tt) ->
  conversation s0 ops key se -> conversation s0 (ops ++ [o]) key se'.
Proof.
  intros Hr Hs Hu Hp (pre & w0 & start & mid & se0 & -> & Hk & Hf & Ho & Hsame & Hv).
  exists pre, w0, start, (mid ++ [o]), se0. rewrite <- app_assoc. split; [done|]. split; [done|].
  split; [rewrite forallb_app, Hf; simpl; by rewrite Hr|]. split; [done|]. split; [by eapply same_trans|].
  intros Hpp. destruct Hu as [Hu|Hu]; [|congruence]. destruct (Hp Hpp) as [Hold|(w & cont & -> & Hck & Hg & Hc)].
  - eapply verified_mono; [done|done|by apply Hv].
  - exists mid, w, cont, [], se. rewrite <- app_assoc. by simpl.
Qed.

Lemma run_conversation s0 ops :
  sa_sessions s0 = ∅ -> table_ok (run s0 ops) /\ forall key se, getSession (run s0 ops) key = Some se -> conversation s0 ops key se.
Proof.
  intros H0. assert (table_ok s0) as Hok0 by (intros key se Hg; unfold getSession in Hg; by rewrite H0, lookup_empty in Hg).
  induction ops as [|[w op] ops IH] using rev_ind.
  { split; [done|]. intros key se Hg. unfold getSession in Hg. simpl in Hg. by rewrite H0, lookup_empty in Hg. }
  destruct IH as [Hok IH]. rewrite run_app. cbn [run fold_left fst snd].
  split; [by apply exec_table_ok|]. intros key se' Hg.
  destruct (exec_source _ w op key se' Hok Hg) as [Hb Hr _|start -> Hk Ho Hse|cont se -> Hk Hs Hd Hse Hsame Hu].
  - apply (conversation_mono s0 ops (w, op) key se' se'); [done|done|by left|by left|by apply IH].
  - exists ops, w, start, [], se'. split; [done|]. split; [done|]. split; [done|]. split; [done|].
    destruct (Ho) as (_ & _ & _ & _ & _ & Hp). split; [done|]. rewrite Hp. by destruct (decide _).
  - apply (conversation_mono s0 ops _ key se); [done|done|..|by apply IH].
    + destruct (phase_of se) eqn:Hp; [|by left..]. right. unfold dialogue in Hd. rewrite Hp in Hd. injection Hd as <-. done.
    + intros Hpp. destruct (phase_of se) as [|n| |new] eqn:Hp; [|right|by left|by left].
      { unfold dialogue in Hd. rewrite Hp in Hd. injection Hd as Hd. by rewrite <- Hd in Hpp. }
      exists w, cont. split; [done|]. split; [done|]. split; [done|]. unfold dialogue in Hd. rewrite Hp in Hd.
      destruct (credential _ _ _ _) as [ []|e]; [done|]. destruct (protoError e); [done|]. destruct (_ <? _); [|done].
      injection Hd as Hd. by rewrite <- Hd in Hpp.
Qed.

(** ** What the dialogue guarantees *)


(** What an operation that answers PASS rests on: a one-shot START of an allowed
    method whose evidence verifies for a named user with no password to change;
    or a CONTINUE of a conversation that a START opened under the same key,
    with an allowed method, and either its message is the credential and no
    change is due, or an earlier CONTINUE of that same conversation carried the
    credential, the message confirms the new password, and the manager
    published its verifier for the START's revision. *)
Definition rests_on_credential (s0 : svc) (ops : list (World * authen_op)) (w : World) (op : authen_op) : Prop :=
  match op with
  | OpBegin start => one_shot_ok (run s0 ops) w start
  | OpContinue cont =>
    exists se, getSession (run s0 ops) (cont_key cont) = Some se /\ conversation s0 ops (cont_key cont) se
    /\ methodAllowed (as_snap se) (as_clientID se) (methodForFlow (as_flow se)) = true
    /\ ((exists n, phase_of se = AskPassword n /\ as_flow se <> flowCHPASS
           /\ credential (run s0 ops) w se (co_UserMsg cont) = Ok tt /\ must_change se = false)
        \/ (exists phc m, phase_of se = AskConfirm (co_UserMsg cont)
           /\ deriveChangePHC IDKey (session_creds (run s0 ops) w se) w (co_UserMsg cont) (bool_decide (as_flow se = flowEnable)) = Ok phc
           /\ published (run s0 ops) se phc = Some (m, Ok tt) /\ as_rev se = an_Revision (as_snap se)))
  | OpAbort _ | OpManager _ | OpRing _ => False
  end.

Lemma pass_rests (s0 : svc) ops w op s' :
  sa_sessions s0 = ∅ -> exec (run s0 ops) w op = (s', Some AuthenStatusPass) ->
  audited (sa_events (run s0 ops)) (sa_events s') (w_ring_now w) AuthenStatusPass /\ rests_on_credential s0 ops w op.
Proof.
  intros H0. destruct (run_conversation s0 ops H0) as [Hok Hconv]. set (s := run s0 ops) in *.
  destruct op as [start|cont|ab|mgr|ring]; cbn [exec rests_on_credential]; [|intros E|intros E; discriminate E..]; fold s.
  - destruct (begin_cases s w start) as [(_ & _ & ->)|[(_ & Hset)|(se & _ & _ & ->)] ]; intros E.
    + discriminate E.
    + injection E as E1 E2. destruct Hset as (_ & _ & Hp). destruct (Hp E2) as [Ho Hau]. rewrite E1, E2 in Hau. done.
    + injection E as _ E. unfold prompt_of in E. by repeat case_match.
  - pose proof (f_equal fst E) as E1. pose proof (f_equal snd E) as E2. cbn [fst snd] in E1, E2. injection E2 as E2. clear E.
    destruct (w_cancelled w) eqn:Hw; [unfold ContinueAuthentication in E2; by rewrite Hw in E2|].
    destruct (getSession s (cont_key cont)) as [se|] eqn:Hs; [|unfold ContinueAuthentication in E2; by rewrite Hw, Hs in E2].
    destruct (co_Abort cont) eqn:Hab; [unfold ContinueAuthentication in E2; by rewrite Hw, Hs, Hab in E2|].
    destruct (continue_refines s w se cont (Hok _ _ Hs) Hs Hw Hab) as (out & Heq & Hr). rewrite Heq in E1, E2. cbn [fst snd] in E1, E2.
    unfold refines in Hr. destruct (dialogue s w se (co_UserMsg cont)) as [p|status] eqn:Hd.
    { exfalso. destruct Hr as (se' & -> & _). cbn [snd] in E2. unfold prompt_of in E2. by repeat case_match. }
    destruct Hr as [(m & kind & reason & He) Hst]. rewrite E2 in Hst. subst status. split.
    { rewrite <- E1, He. apply (record_audited (dropSession (set_mgr s m) (cont_key cont))). done. }
    exists se. split; [done|]. split; [by apply Hconv|]. split; [apply (ok_method _ (Hok _ _ Hs))|].
    exact (dialogue_pass s w se _ (Hok _ _ Hs) Hd).
Qed.

(** C38. Every conversation comes to an end.  Once a START is accepted, the
    session it may have opened is gone after [maxRounds + 3] CONTINUEs of its
    key, whatever their contents and whatever the other sessions do between
    them; and each of those CONTINUEs is answered by a prompt exactly when the
    conversation lives on. *)
Theorem conversation_terminates (s0 : svc) ops w0 start mid :
  sa_sessions s0 = ∅ -> accepted_start w0 start = true ->
  forallb (fun o => negb (restarts (start_key start) o)) mid = true ->
  let s := run s0 (ops ++ (w0, OpBegin start) :: mid) in
  (maxRounds (w_snap w0) + 3 <= len (List.filter (answers (start_key start)) mid) -> getSession s (start_key start) = None)
  /\ forall w cont, w_cancelled w = false -> cont_key cont = start_key start ->
     is_prompt (sp_Status (snd (fst (Continue s w cont)))) = true
     <-> is_Some (getSession (fst (fst (Continue s w cont))) (start_key start)).
Proof.
  intros H0 Ha Hf s.
  assert (table_ok (run s0 ops)) as Hok0 by apply (run_conversation s0 ops H0).
  assert (table_ok s) as Hok by apply (run_conversation s0 _ H0).
  split.
  - intros Hn. pose proof (run_budget (fst (exec (run s0 ops) w0 (OpBegin start))) mid (start_key start)
      (exec_table_ok _ w0 (OpBegin start) Hok0) Hf) as Hb.
    pose proof (started_budget _ w0 start Hok0 Ha) as Hle.
    unfold s. rewrite run_app. change (run (run s0 ops) ((w0, OpBegin start) :: mid)) with (run (fst (exec (run s0 ops) w0 (OpBegin start))) mid).
    destruct (getSession _ _) as [se|] eqn:Hg; [exfalso|done].
    unfold budget at 1 in Hb. rewrite Hg in Hb.
    assert (se_ok se) as Hse by (eapply (run_table_ok _ mid); [apply (exec_table_ok _ w0 (OpBegin start) Hok0)|exact Hg]).
    pose proof (rank_range se Hse). lia.
  - intros w cont Hw Hk. rewrite <- Hk. destruct (getSession s (cont_key cont)) as [se|] eqn:Hs.
    2:{ unfold ContinueAuthentication. rewrite Hw, Hs. cbn [fst snd]. rewrite Hs. by split; [|intros [? ?]]. }
    destruct (co_Abort cont) eqn:Hab.
    { unfold ContinueAuthentication. rewrite Hw, Hs, Hab. cbn [fst snd]. unfold getSession, recordAuth. rewrite record_sessions.
      pose proof (drop_session s (cont_key cont) (cont_key cont)) as Hd. rewrite decide_True in Hd by done.
      unfold getSession in Hd. rewrite Hd. by split; [|intros [? ?]]. }
    destruct (continue_refines s w se cont (Hok _ _ Hs) Hs Hw Hab) as (out & -> & Hr). cbn [fst snd].
    unfold refines in Hr. destruct (dialogue s w se (co_UserMsg cont)) as [p|status] eqn:Hd.
    + destruct Hr as (se' & -> & _). cbn [fst snd]. rewrite put_session, decide_True by done.
      split; [by eexists|]. intros _. unfold prompt_of. by repeat case_match.
    + destruct Hr as [He ->]. rewrite (ended_session _ _ _ _ _ _ _ He), decide_True by done.
      split; [|by intros [? ?] ]. apply dialogue_final in Hd. congruence.
Qed.
End Dialogue.

Arguments authen_op : clear implicits.

(** ** Concrete instances *)

(** A manager at revision 7: a log of the verifiers published. *)
Definition sample_override (m : list (string * bytes)) (user : string) (phc : bytes) (rev : Z)
  : list (string * bytes) * result string unit :=
  if rev =? 7 then ((user, phc) :: m, Ok tt) else (m, Err CodeConflict).
#[export] Instance sample_publisher : Publisher (list (string * bytes)) :=
  {| pub_OverrideLogin := sample_override; pub_OverrideEnable := sample_override |}.

Definition memory_ref (id : string) := mkSecretRef "" "" id.
(** Alice must change her login password; the device may use ASCII only. *)
Definition sample_user : AuthUser :=
  mkAuthUser "alice" true [] None None true false (memory_ref "login") (memory_ref "") (memory_ref "").
Definition sample_snapshot : AuthSnapshot :=
  mkAuthSnapshot 7 (Some (mkAuthSettings 2 253 253 253 true true)) {[ "alice" := sample_user ]}
    {[ "router" := mkAuthClient true ["ascii"; "ascii_chpass"] ]} {[ "login" := sample_phc ]}.
Definition sample_world : World := mkWorld false live_call (Some sample_snapshot) (Some sample_snapshot) None sample_entropy 99 5.
Definition sample_auth : AuthService (list (string * bytes)) :=
  mkAuthService (Some []) (NewWithOptions 8 0 false)
    (Credentials.mkService (Lookup NewMemory) TestParams DefaultMinCHAPChallenge sample_phc hunter2) ∅.
Definition sample_start : AuthenticationStart :=
  mkStart 1 42 "" "router" AuthenActionLogin AuthenTypeASCII AuthenServiceLogin 1 "tty0" "10.0.0.1" [] 7 "tacacs".


Definition sample_answer (msg : string) : World * authen_op (list (string * bytes)) :=
  (sample_world, OpContinue (mkContinue 1 42 false (octets_of msg) "router" 7 "tacacs")).
Definition sample_open : World * authen_op (list (string * bytes)) := (sample_world, OpBegin sample_start).
(** The name, a wrong password, the password, a new one. *)
Definition sample_answers := [sample_answer "alice"; sample_answer "hunter1"; sample_answer "hunter2"; sample_answer "correct horse"].

Notation sample_run := (run IDKey_sample (fun b => b) precis_sample).
Notation sample_exec := (exec IDKey_sample (fun b => b) precis_sample).

(** The conversation answers GETUSER, GETPASS three times, and then PASS or
    FAIL on the confirmation; two wrong passwords end it. *)
Example sample_dialogue :
  snd (sample_exec sample_auth sample_world (OpBegin sample_start)) = Some AuthenStatusGetUser
  /\ map (fun n => snd (sample_exec (sample_run sample_auth (sample_open :: firstn n sample_answers)) sample_world
             (OpContinue (mkContinue 1 42 false (octets_of "correct horse") "router" 7 "tacacs")))) (seq 0 5)
     = map Some [AuthenStatusGetPass; AuthenStatusGetPass; AuthenStatusFail; AuthenStatusGetPass; AuthenStatusPass].
Proof. vm_compute. done. Qed.


Lemma conversation_terminates_witness :
  sa_sessions sample_auth = ∅ /\ accepted_start sample_world sample_start = true
  /\ getSession (sample_run sample_auth ([] ++ sample_open :: repeat (sample_answer "guess") 5)) (1, 42) = None.
Proof.
  split; [reflexivity|]. split; [reflexivity|].
  apply (conversation_terminates IDKey_sample (fun b => b) precis_sample sample_auth [] sample_world sample_start (repeat (sample_answer "guess") 5));
    [reflexivity|reflexivity|vm_compute; reflexivity|vm_compute; discriminate].
Defined.
