(* ===== verification/AaaAuthor.v ===== *)
(** * AAA service: authorization

    [internal/aaa/author.go] and the parts of [service.go] and [types.go] it
    uses: the limits on the fields of a request, the precedence of the wire's
    attribute-value pairs over typed fields, the call of the policy engine, the
    redacted trace and the audit event.  Typed slices are copied in Go, so a
    trace is the value of the engine's trace with its own fields added.
    Metrics have no model. *)

From Stdlib Require Import String Ascii.
From stdpp Require Import gmap strings.
From S2P Require Import Prelude Text StableSort Events Policy Domain AaaAccounting.

#[local] Open Scope Z_scope.

(** ** Requests and answers (types.go) *)

Record AuthorizationRequest := mkAuthorizationRequest {
  zr_UserID : string; zr_ClientID : string; zr_Service : string; zr_Protocol : string; zr_Cmd : string;
  zr_CmdArgs : list string; zr_Arguments : list AVPair; zr_AuthenMethod : Z; zr_AuthenType : Z; zr_AuthenService : Z;
  zr_Privilege : Z; zr_Port : string; zr_Remote : string; zr_Revision : Z; zr_Transport : string; zr_SessionID : Z;
}.

(** [PolicyTrace]: the fields of the engine's trace and four of the request. *)
Record PolicyTrace := mkPolicyTrace {
  pt_Trace : Trace; pt_Port : string; pt_Remote : string; pt_AuthenType : string; pt_AuthenService : string;
}.

Record AuthorizationDecision := mkDecision {
  ad_Decision : AuthorDecision; ad_Status : AuthorStatus; ad_Arguments : list AVPair; ad_Trace : PolicyTrace;
}.

(** What the service reads of a snapshot. *)
Record AuthorSettings := mkAuthorSettings {
  zs_MaxUsernameBytes : Z; zs_MaxPortBytes : Z; zs_MaxRemoteAddressBytes : Z; zs_MaxCommandBytes : Z;
  zs_MaxAuthorizationArguments : Z; zs_MaxArgumentBytes : Z; zs_IncludeAuthorization : bool;
}.
Record AuthorSnapshot := mkAuthorSnapshot { zn_Settings : option AuthorSettings; zn_Policies : option Engine }.
Definition author_settings (snap : option AuthorSnapshot) : option AuthorSettings := snap ≫= zn_Settings.

Definition includeAuthorization (snap : option AuthorSnapshot) : bool :=
  match author_settings snap with Some st => zs_IncludeAuthorization st | None => true end.

(** ** The request for the policy engine *)

(** What the loop over the arguments has seen. *)
Record wire_fields := mkWire {
  wf_service : option string; wf_protocol : option string; wf_cmd : option string; wf_args : option (list string);
}.
Definition first_seen (seen : option string) (v : string) : option string := match seen with Some _ => seen | None => Some v end.
Definition wire_step (w : wire_fields) (p : AVPair) : wire_fields :=
  if str_eqb (av_Name p) "service" then mkWire (first_seen (wf_service w) (av_Value p)) (wf_protocol w) (wf_cmd w) (wf_args w)
  else if str_eqb (av_Name p) "protocol" then mkWire (wf_service w) (first_seen (wf_protocol w) (av_Value p)) (wf_cmd w) (wf_args w)
  else if str_eqb (av_Name p) "cmd" then mkWire (wf_service w) (wf_protocol w) (first_seen (wf_cmd w) (av_Value p)) (wf_args w)
  else if str_eqb (av_Name p) "cmd-arg" then mkWire (wf_service w) (wf_protocol w) (wf_cmd w) (Some (default [] (wf_args w) ++ [av_Value p]))
  else w.

Definition applyWireAVs (req : AuthorizationRequest) : AuthorizationRequest :=
  if len (zr_Arguments req) =? 0 then req
  else
    let w := fold_left wire_step (zr_Arguments req) (mkWire None None None None) in
    mkAuthorizationRequest (zr_UserID req) (zr_ClientID req) (default (zr_Service req) (wf_service w))
      (default (zr_Protocol req) (wf_protocol w)) (default (zr_Cmd req) (wf_cmd w)) (default (zr_CmdArgs req) (wf_args w))
      (zr_Arguments req) (zr_AuthenMethod req) (zr_AuthenType req) (zr_AuthenService req) (zr_Privilege req)
      (zr_Port req) (zr_Remote req) (zr_Revision req) (zr_Transport req) (zr_SessionID req).

Definition toPolicyRequest (req : AuthorizationRequest) : Request :=
  let req := applyWireAVs req in
  mkRequest (zr_UserID req) (zr_ClientID req) (zr_Service req) (zr_Protocol req) (zr_Cmd req) (zr_CmdArgs req)
    (zr_Arguments req) (AuthenMethod_String (zr_AuthenMethod req)) (zr_Privilege req) (zr_Port req) (zr_Remote req).

(** ** Redaction *)

(** [strings.Contains] and [strings.HasSuffix] *)
Definition Contains (s sub : string) : bool := match String.index 0 sub s with Some _ => true | None => false end.
Definition HasSuffix (s suffix : string) : bool :=
  let n := String.length s in let k := String.length suffix in
  Nat.leb k n && str_eqb (String.substring (n - k) k s) suffix.

Definition sensitiveAVName (name : string) : bool :=
  let n := ToLower name in
  one_of ["password"; "passwd"; "secret"; "key"; "token"; "chap"; "mschap"; "ms-chap"; "mschapv1"; "mschapv2"; "ms-chap-v2"; "challenge"] n
  || existsb (Contains n) ["password"; "passwd"; "secret"; "token"; "chap"; "challenge"]
  || HasSuffix n "-key" || HasSuffix n "_key".

Definition redacted : string := "[redacted]".
Definition redactTraceAV (a : TraceAV) : TraceAV :=
  if sensitiveAVName (ta_Name a) then mkTraceAV (ta_Name a) (ta_Separator a) redacted else a.
Definition redactTraceAVs (l : list TraceAV) : list TraceAV := map redactTraceAV l.

Definition redactTrace (tr : Trace) : Trace :=
  mkTrace (tr_Evaluator tr) (tr_UserID tr) (tr_ClientID tr) (tr_Service tr) (tr_Protocol tr) (tr_Cmd tr)
    (tr_CmdArgs tr) (tr_DisplayCmd tr) (redactTraceAVs (tr_RequestArguments tr)) (tr_AuthenMethod tr) (tr_Privilege tr)
    (tr_EffectiveGroupIDs tr) (tr_Steps tr) (tr_Winner tr) (tr_Decision tr) (tr_Status tr) (redactTraceAVs (tr_Arguments tr))
    (tr_DefaultDeny tr) (tr_Error tr).

(** [copyTrace], the request's fields and [redactTrace]. *)
Definition finishTrace (req : AuthorizationRequest) (res : Result) : PolicyTrace :=
  mkPolicyTrace (redactTrace (res_Trace res)) (zr_Port req) (zr_Remote req)
    (AuthenType_String (zr_AuthenType req)) (AuthenService_String (zr_AuthenService req)).

(** [PolicyTrace{Error: reason, Status: ...}] *)
Definition error_trace (reason : string) : PolicyTrace :=
  mkPolicyTrace (mkTrace "" "" "" "" "" "" [] "" [] "" 0 [] [] None "" (AuthorStatus_String AuthorStatusError) [] "" reason) "" "" "" "".
Definition errorDecision (reason : string) : AuthorizationDecision :=
  mkDecision (DecisionOther "") AuthorStatusError [] (error_trace reason).

(** ** The operations *)

(** The names of the limits that a request can exceed. *)
Definition checkAuthorFields (snap : option AuthorSnapshot) (req : AuthorizationRequest) : option string :=
  let limit def f := match author_settings snap with Some st => limit_or def (f st) | None => def end in
  if negb (CheckBytes (zr_UserID req) (limit 253 zs_MaxUsernameBytes)) then Some "user"
  else if negb (CheckBytes (zr_Port req) (limit 253 zs_MaxPortBytes)) then Some "port"
  else if negb (CheckBytes (zr_Remote req) (limit 253 zs_MaxRemoteAddressBytes)) then Some "rem_addr"
  else if negb (CheckBytes (zr_Cmd req) (limit 65535 zs_MaxCommandBytes)) then Some "cmd"
  else if negb (CheckCount (len (zr_Arguments req)) (limit 256 zs_MaxAuthorizationArguments)) then Some "arguments"
  else if forallb (fun a => CheckBytes (Policy.cat (av_Name a) (Policy.cat "=" (av_Value a))) (limit 65535 zs_MaxArgumentBytes)) (zr_Arguments req)
  then None else Some "argument".

Inductive author_error := ErrAuthorContext.

Definition engine (snap : option AuthorSnapshot) : result string Engine :=
  match snap with
  | None => Err "no published snapshot"
  | Some snap => match zn_Policies snap with Some e => Ok e | None => Err "policy engine is not compiled" end
  end.

(** [evaluate], of the service: the trace and the engine's result. *)
Definition evaluate_request (snap : option AuthorSnapshot) (now : Z) (req : AuthorizationRequest) : result string (PolicyTrace * Result) :=
  let! e := engine snap in
  let res := Policy.Authorize e now (toPolicyRequest req) in
  Ok (finishTrace req res, res).

Definition author_event (req : AuthorizationRequest) (tr : Trace) : Event :=
  mkEvent 0 0 0 "author" (tr_Evaluator tr) (tr_Decision tr) (zr_Transport req) (zr_ClientID req) (zr_SessionID req) (zr_Revision req)
    (zr_UserID req) (tr_DisplayCmd tr) "" [] None None "" "" "" 0 "" "" "" "" "" "" "" "" "" "" "" false.

(** What an authorization takes from outside: the context, the snapshots it
    reads for the limits, the policies and the event settings, and the clocks
    of the engine and of the ring. *)
Record AuthorWorld := mkAuthorWorld {
  zw_cancelled : bool; zw_limits : option AuthorSnapshot; zw_policies : option AuthorSnapshot; zw_events : option AuthorSnapshot;
  zw_now : Z; zw_ring_now : Z;
}.

(** [Service.Authorize] *)
Definition Authorize (ring : Ring) (w : AuthorWorld) (req : AuthorizationRequest)
  : Ring * AuthorizationDecision * option author_error :=
  if zw_cancelled w then (ring, errorDecision "context canceled", Some ErrAuthorContext)
  else
    match checkAuthorFields (zw_limits w) req with
    | Some field => (ring, errorDecision field, None)
    | None =>
      match evaluate_request (zw_policies w) (zw_now w) req with
      | Err e => (ring, errorDecision e, None)
      | Ok (tr, res) =>
        let ring :=
          if includeAuthorization (zw_events w)
          then fst (Accept ring (zw_ring_now w) (author_event req (pt_Trace tr))) else ring in
        (ring, mkDecision (res_Decision res) (res_Status res) (res_Arguments res) tr, None)
      end
    end.

(** [ExplainAuthorization] *)
Definition ExplainAuthorization (w : AuthorWorld) (req : AuthorizationRequest) : result string PolicyTrace :=
  let! _ := guard (negb (zw_cancelled w)) "context canceled" in
  let! out := evaluate_request (zw_policies w) (zw_now w) req in
  Ok (fst out).

(** ** What the wire decides *)

Lemma firstAV_cons p l n : firstAV (p :: l) n = if str_eqb (av_Name p) n then Some (av_Value p) else firstAV l n.
Proof.
  unfold firstAV, str_eqb. rewrite filter_cons.
  destruct (decide (av_Name p = n)); [by rewrite bool_decide_true|by rewrite bool_decide_false].
Qed.
Lemma allAV_cons p l n : allAV (p :: l) n = if str_eqb (av_Name p) n then av_Value p :: allAV l n else allAV l n.
Proof.
  unfold allAV, str_eqb. rewrite filter_cons.
  destruct (decide (av_Name p = n)); [by rewrite bool_decide_true|by rewrite bool_decide_false].
Qed.

Lemma wire_step_fields l w :
  let w' := fold_left wire_step l w in
  wf_service w' = match wf_service w with Some s => Some s | None => firstAV l "service" end
  /\ wf_protocol w' = match wf_protocol w with Some s => Some s | None => firstAV l "protocol" end
  /\ wf_cmd w' = match wf_cmd w with Some s => Some s | None => firstAV l "cmd" end
  /\ wf_args w' = match allAV l "cmd-arg" with [] => wf_args w | vs => Some (default [] (wf_args w) ++ vs) end.
Proof.
  revert w. induction l as [|p l IH]; intros w; cbv zeta.
  { cbn [fold_left]. by destruct (wf_service w), (wf_protocol w), (wf_cmd w). }
  cbn [fold_left]. destruct (IH (wire_step w p)) as (-> & -> & -> & ->). clear IH.
  rewrite !firstAV_cons, allAV_cons. unfold wire_step.
  destruct (str_eqb (av_Name p) "service") eqn:E1; [apply bool_decide_eq_true in E1; rewrite E1; by destruct w as [ [] ? ? ?]|].
  destruct (str_eqb (av_Name p) "protocol") eqn:E2; [apply bool_decide_eq_true in E2; rewrite E2; by destruct w as [? [] ? ?]|].
  destruct (str_eqb (av_Name p) "cmd") eqn:E3; [apply bool_decide_eq_true in E3; rewrite E3; by destruct w as [? ? [] ?]|].
  destruct (str_eqb (av_Name p) "cmd-arg") eqn:E4; [|done]. apply bool_decide_eq_true in E4.
  cbn [wf_service wf_protocol wf_cmd wf_args default]. split; [done|]. split; [done|]. split; [done|].
  destruct (allAV l "cmd-arg"); [done|]. unfold id. by rewrite <- app_assoc.
Qed.

(** The request that is evaluated: an attribute of the wire, where there is
    one, and the typed field otherwise. *)
Definition effective (req : AuthorizationRequest) : Request :=
  let args := zr_Arguments req in
  mkRequest (zr_UserID req) (zr_ClientID req) (default (zr_Service req) (firstAV args "service"))
    (default (zr_Protocol req) (firstAV args "protocol")) (default (zr_Cmd req) (firstAV args "cmd"))
    (match allAV args "cmd-arg" with [] => zr_CmdArgs req | vs => vs end)
    args (AuthenMethod_String (zr_AuthenMethod req)) (zr_Privilege req) (zr_Port req) (zr_Remote req).

Lemma toPolicyRequest_effective req : toPolicyRequest req = effective req.
Proof.
  unfold toPolicyRequest, applyWireAVs, effective.
  destruct (Z.eqb_spec (len (zr_Arguments req)) 0) as [H0|H0]; [apply len_zero in H0; by rewrite H0|].
  destruct (wire_step_fields (zr_Arguments req) (mkWire None None None None)) as (-> & -> & -> & ->).
  cbn. by destruct (allAV _ "cmd-arg").
Qed.

(** The engine's own reading of the arguments changes nothing more. *)
Lemma normalize_effective req : normalize (effective req) = effective req.
Proof.
  unfold normalize, effective. cbn [rq_Service rq_Protocol rq_Cmd rq_CmdArgs rq_Arguments rq_UserID rq_ClientID rq_AuthenMethod rq_Privilege
    rq_Port rq_RemoteAddr]. f_equal.
  - destruct (firstAV _ "service") as [v|]; cbn [default]; destruct (str_eqb _ "") eqn:E; try done; by apply bool_decide_eq_true in E.
  - destruct (firstAV _ "protocol") as [v|]; cbn [default]; destruct (str_eqb _ "") eqn:E; try done; by apply bool_decide_eq_true in E.
  - destruct (firstAV _ "cmd") as [v|]; cbn [default]; [|done]. destruct (str_eqb _ "") eqn:E; [by apply bool_decide_eq_true in E|done].
  - destruct (allAV _ "cmd-arg"); [by rewrite andb_false_r|by destruct (_ && _)].
Qed.

(** ** The trace *)

(** What the engine keeps of the request in a trace under construction. *)
Definition about (req : Request) (tr : Trace) : Prop :=
  tr_RequestArguments tr = traceAVs (rq_Arguments req) /\ tr_UserID tr = rq_UserID req /\ tr_ClientID tr = rq_ClientID req.
(** A finished trace says what the result is. *)
Definition traced (req : Request) (res : Result) : Prop :=
  about req (res_Trace res) /\ tr_Arguments (res_Trace res) = traceAVs (res_Arguments res)
  /\ tr_Decision (res_Trace res) = AuthorDecision_String (res_Decision res)
  /\ tr_Status (res_Trace res) = AuthorStatus_String (res_Status res).

Lemma finish_traced req tr action reply lim : about req tr -> traced req (Policy.finish tr action reply lim).
Proof. intros H. unfold Policy.finish. by destruct (buildReply action reply lim). Qed.
Lemma deny_traced req tr reason : about req tr -> traced req (denyResult tr reason).
Proof. intros H. by apply finish_traced. Qed.
Lemma decided_traced req e tr c : about req tr -> traced req (Policy.decided e tr c).
Proof. intros H. by apply finish_traced. Qed.
Lemma record_all_about req e tr l : about req tr -> about req (record_all e tr l).
Proof.
  unfold record_all. generalize (map ca_step l). intros steps. revert tr.
  induction steps as [|st steps IH]; intros tr H; [done|]. apply IH. unfold Policy.record. by destruct (_ >=? _).
Qed.

Lemma authorize_traced e now req : traced (normalize req) (Policy.Authorize e now req).
Proof.
  assert (forall kind, traced (normalize req) (Policy.evaluate e now (normalize req) kind)) as Hk.
  { intros kind. destruct (evaluate_walk e now (normalize req) kind) as [groups ->]. cbv zeta.
    assert (about (normalize req) (newTrace e kind (normalize req) groups)) as H0 by done.
    destruct (admission e now (normalize req)) as [reason|u]; [by apply deny_traced|].
    unfold walk_result. destruct (first_match _) as [ [pre c]|]; [by apply decided_traced, record_all_about|].
    by apply deny_traced, record_all_about. }
  unfold Policy.Authorize. by destruct (negb _).
Qed.

(** The trace an operator sees: every argument of the request and of the
    answer in order, with the values of sensitive names replaced. *)
Definition redacted_view (req : AuthorizationRequest) (res : Result) (tr : PolicyTrace) : Prop :=
  tr_RequestArguments (pt_Trace tr) = redactTraceAVs (traceAVs (zr_Arguments req))
  /\ tr_Arguments (pt_Trace tr) = redactTraceAVs (traceAVs (res_Arguments res))
  /\ (forall a, a ∈ tr_RequestArguments (pt_Trace tr) ++ tr_Arguments (pt_Trace tr) ->
      sensitiveAVName (ta_Name a) = true -> ta_Value a = redacted)
  /\ tr_Decision (pt_Trace tr) = AuthorDecision_String (res_Decision res)
  /\ tr_Status (pt_Trace tr) = AuthorStatus_String (res_Status res).

Lemma redactTraceAVs_hidden l a : a ∈ redactTraceAVs l -> sensitiveAVName (ta_Name a) = true -> ta_Value a = redacted.
Proof.
  unfold redactTraceAVs. rewrite list_elem_of_In, in_map_iff. intros (b & <- & _). unfold redactTraceAV.
  destruct (sensitiveAVName (ta_Name b)) eqn:E; [done|]. congruence.
Qed.

Lemma finishTrace_view e now req :
  let res := Policy.Authorize e now (effective req) in redacted_view req res (finishTrace req res).
Proof.
  cbv zeta. destruct (authorize_traced e now (effective req)) as ((Ha & _) & Hr & Hd & Hs). rewrite normalize_effective in Ha.
  unfold redacted_view, finishTrace. cbn [pt_Trace redactTrace tr_RequestArguments tr_Arguments tr_Decision tr_Status].
  rewrite Ha, Hr. split; [done|]. split; [done|]. split; [|done].
  intros a [Hin|Hin]%elem_of_app; by eapply redactTraceAVs_hidden.
Qed.

(** A decision that is not an error is the engine's. *)
Lemma Authorize_engine (ring : Ring) (w : AuthorWorld) (req : AuthorizationRequest) :
  let d := snd (fst (Authorize ring w req)) in
  ad_Status d <> AuthorStatusError ->
  exists e, engine (zw_policies w) = Ok e /\ zw_cancelled w = false /\ checkAuthorFields (zw_limits w) req = None
    /\ ad_Status d = res_Status (Policy.Authorize e (zw_now w) (effective req))
    /\ ad_Arguments d = res_Arguments (Policy.Authorize e (zw_now w) (effective req)).
Proof.
  cbv zeta. unfold Authorize, evaluate_request. rewrite toPolicyRequest_effective.
  destruct (zw_cancelled w); [done|]. destruct (checkAuthorFields _ _); [done|].
  destruct (engine (zw_policies w)) as [e|e]; [|done]. intros _. by exists e.
Qed.

(** C39. Authorization answers what the policy decides, and its trace tells
    nothing sensitive.  A live request whose fields fit the limits, under a
    published policy, gets the decision, status and arguments of the engine on
    the effective request, in which an attribute of the wire wins over the
    typed field of that name; the trace shows every attribute of request and
    answer in order, with the values of sensitive names replaced; the ring is
    offered exactly one event, with the decision, unless the settings leave
    authorization out; and explaining the request gives the same trace.  Any
    other request is answered ERROR without arguments and leaves the ring
    alone. *)
Theorem authorization_decision (ring : Ring) (w : AuthorWorld) (req : AuthorizationRequest) :
  let '(ring', d, err) := Authorize ring w req in
  (is_Some err <-> zw_cancelled w = true)
  /\ match engine (zw_policies w) with
     | Ok e =>
       let res := Policy.Authorize e (zw_now w) (effective req) in
       zw_cancelled w = false -> checkAuthorFields (zw_limits w) req = None ->
       ad_Decision d = res_Decision res /\ ad_Status d = res_Status res /\ ad_Arguments d = res_Arguments res
       /\ redacted_view req res (ad_Trace d)
       /\ ring' = (if includeAuthorization (zw_events w)
                   then fst (Accept ring (zw_ring_now w) (author_event req (pt_Trace (ad_Trace d)))) else ring)
       /\ ExplainAuthorization w req = Ok (ad_Trace d)
     | Err _ => True
     end
  /\ (zw_cancelled w = true \/ checkAuthorFields (zw_limits w) req <> None \/ is_ok (engine (zw_policies w)) = false ->
      ring' = ring /\ ad_Status d = AuthorStatusError /\ ad_Arguments d = []).
Proof.
  unfold Authorize, ExplainAuthorization, evaluate_request. rewrite toPolicyRequest_effective.
  destruct (zw_cancelled w); [split; [split; [done|by eexists]|split; [by destruct (engine _)|done] ]|].
  destruct (checkAuthorFields (zw_limits w) req) as [field|].
  { split; [split; [by intros [? ?]|done]|]. split; [by destruct (engine _)|done]. }
  destruct (engine (zw_policies w)) as [e|e]; cbn [rbind].
  2:{ split; [split; [by intros [? ?]|done]|]. done. }
  split; [split; [by intros [? ?]|done]|]. split; [|intros [?|[?|?] ]; done].
  cbn [ad_Decision ad_Status ad_Arguments ad_Trace guard rbind negb fst]. intros _ _. split; [done|]. split; [done|]. split; [done|].
  split; [apply finishTrace_view|done].
Qed.

(** ** Examples *)

(** The wire's first command wins over the typed one; a password in an
    argument does not reach the trace. *)
Example wire_wins :
  let req := mkAuthorizationRequest "alice" "router" "shell" "" "reload" [] [mkAVPair "cmd" "="%char "show"; mkAVPair "cmd" "="%char "debug";
    mkAVPair "cmd-arg" "="%char "version"; mkAVPair "Enable-Password" "="%char "hunter2"] 0 0 0 1 "tty0" "" 1 "tls" 7 in
  (rq_Service (effective req), rq_Cmd (effective req), rq_CmdArgs (effective req)) = ("shell", "show", ["version"])%string
  /\ map ta_Value (redactTraceAVs (traceAVs (zr_Arguments req))) = ["show"; "debug"; "version"; "[redacted]"]%string
  /\ map sensitiveAVName ["ssh-key"; "keyboard"; "CHAP-id"; "priv-lvl"]%string = [true; false; true; false].
Proof. vm_compute. done. Qed.

Definition show_world : AuthorWorld := mkAuthorWorld false None (Some (mkAuthorSnapshot None (Some show_engine))) None 5 9.
Definition show_version : AuthorizationRequest :=
  mkAuthorizationRequest "u" "nas" "" "" "reload" [] [mkAVPair "cmd" "="%char "show"; mkAVPair "cmd-arg" "="%char "version"]
    0 0 0 1 "tty0" "" 1 "tls" 7.

(** A request that the policy decides, and its one event. *)
Lemma authorization_decision_witness :
  let '(ring', d, err) := Authorize (NewWithOptions 4 0 false) show_world show_version in
  checkAuthorFields (zw_limits show_world) show_version = None /\ err = None
  /\ ad_Status d = AuthorStatusPassAdd /\ r_n ring' = 1.
Proof.
  pose proof (authorization_decision (NewWithOptions 4 0 false) show_world show_version) as H.
  destruct (Authorize _ _ _) as [ [ring' d] err] eqn:E. destruct H as (_ & H & _).
  destruct (H eq_refl eq_refl) as (_ & H2 & _ & _ & H5 & _).
  split; [reflexivity|]. split; [exact (f_equal snd (eq_sym E))|]. split; [rewrite H2; vm_compute; reflexivity|]. rewrite H5. reflexivity.
Defined.
