(* ===== verification/TacacsHandler.v ===== *)
(** * What a connection makes of any handler

    Two facts about a connection of [TacacsServer] over any handler.  A
    property of packets that every dispatched answer has, that errors have, and
    that no later call undoes, holds of everything the connection writes.
    State that a handler keeps for a session is there only while a goroutine of
    a session with that id is still to end it.  The handler is shared with
    other connections: what they do to its state between the steps is the
    relation [env]. *)

From stdpp Require Import gmap.
From S2P Require Import Prelude TacacsHeader TacacsBody TacacsSequence TacacsTransport TacacsServer.

Section Handlers.
Context {H : Type} `{Handler H} (ident : Identity) (connKey : Z) (lim : Limits) (env : H -> H -> Prop).

Inductive sys_step (c : conn H) : conn H -> Prop :=
| sys_conn c' : step ident connKey lim c c' -> sys_step c c'
| sys_env hs' : env (cn_hs c) hs' -> sys_step c (with_hs hs' c).

(** A dispatched packet calls the handler for the session of its header, or not
    at all; the reply header is of that session and type. *)
Lemma dispatch_parts seq hs hdr body seq' hs' out :
  dispatch ident connKey seq hs hdr body = (seq', hs', out) ->
  (hs' = hs /\ exists e, out = Err e)
  \/ SessionID hdr = sq_sessionID seq /\ exists rh, Type_ rh = Type_ hdr /\ SessionID rh = SessionID hdr
     /\ let e := mkEnv ident (SessionID hdr) connKey in
        (Type_ hdr = TypeAuthen /\ dispatchAuthen ident hs e hdr rh body = (hs', out))
        \/ (Type_ hdr = TypeAuthor /\ dispatchAuthor ident hs e hdr rh body = (hs', out))
        \/ (Type_ hdr = TypeAcct /\ dispatchAcct ident hs e hdr rh body = (hs', out)).
Proof.
  unfold dispatch. destruct (CheckRequest seq hdr) as [s1 [e|] ] eqn:Hc; [intros [= _ <- <-]; left; split; [done|by eexists]|].
  destruct (NextReply s1 0) as [s2 [rh|e] ] eqn:Hr; [|intros [= _ <- <-]; left; split; [done|by eexists] ].
  apply NextReply_issue in Hr as (_ & _ & _ & _ & -> & _).
  apply CheckRequest_accept in Hc as (_ & _ & _ & Hsid & Htyp & _ & Hc).
  assert (sq_sessionID s1 = sq_sessionID seq /\ sq_typ s1 = sq_typ seq) as [E1 E2].
  { assert (forall s, advance_request s hdr = (s1, None) -> sq_sessionID s1 = sq_sessionID s /\ sq_typ s1 = sq_typ s) as Ha.
    { intros s. unfold advance_request. destruct (NextSeq _); [by intros [= <-]|]. repeat case_match; by intros [= <-]. }
    destruct Hc as [(_ & _ & Hc)|(_ & _ & _ & _ & Hc)]; by apply Ha in Hc. }
  cbv zeta. destruct (Z.eqb_spec (Type_ hdr) TypeAuthen) as [T1|_]; [|destruct (Z.eqb_spec (Type_ hdr) TypeAuthor) as [T2|_]; [|destruct (Z.eqb_spec (Type_ hdr) TypeAcct) as [T3|_] ] ].
  1-3: match goal with |- context [let '(_, _) := ?x in _] => destruct x as [h1 o1] eqn:D end; intros [= _ <- <-]; right; split; [done|];
    eexists; split; [|split; [|eauto] ]; cbn; congruence.
  intros [= _ <- <-]. left. split; [done|by eexists].
Qed.

Section Says.
(** [J] is proved along with an invariant [I] of the handler's state. *)
Variable I : H -> Prop.
Variable J : H -> Z -> Z -> bytes -> Prop.
Hypothesis J_end : forall hs e, I hs -> I (h_EndSession hs e) /\ forall t i b, J hs t i b -> J (h_EndSession hs e) t i b.
Hypothesis J_env : forall hs hs', env hs hs' -> I hs -> I hs' /\ forall t i b, J hs t i b -> J hs' t i b.
Hypothesis J_dispatch : forall seq hs hdr body seq' hs' out,
  dispatch ident connKey seq hs hdr body = (seq', hs', out) -> I hs ->
  I hs' /\ (forall t i b, J hs t i b -> J hs' t i b)
  /\ forall o, out = Ok o -> J hs' (Type_ (og_hdr o)) (SessionID (og_hdr o)) (og_body o).
Hypothesis J_error : forall hs req h body, error_packet req = Some (h, body) -> J hs (Type_ h) (SessionID h) body.
Hypothesis J_unknown : forall hs h, KnownType h = false -> J hs (Type_ h) (SessionID h) [].

Definition pending (hs : H) (t : task) : Prop :=
  match t with
  | TReplied _ (Ok o) | TWrite _ (Ok o) => J hs (Type_ (og_hdr o)) (SessionID (og_hdr o)) (og_body o)
  | _ => True
  end.
Record says (c : conn H) : Prop := mkSays {
  sy_inv : I (cn_hs c);
  sy_out : Forall (fun hb => J (cn_hs c) (Type_ (fst hb)) (SessionID (fst hb)) (snd hb)) (cn_out c);
  sy_tasks : Forall (fun s => pending (cn_hs c) (se_task s)) (cn_heap c);
}.

Lemma says_frame (c c' : conn H) : says c -> cn_hs c' = cn_hs c -> cn_out c' = cn_out c -> cn_heap c' = cn_heap c -> says c'.
Proof. intros [] E1 E2 E3. constructor; rewrite ?E1, ?E2, ?E3; done. Qed.
Lemma says_drain (c : conn H) : says c -> says (with_drain c).
Proof. intros W. by eapply says_frame. Qed.
Lemma says_upd (c : conn H) r f :
  says c -> (forall s, pending (cn_hs c) (se_task s) -> pending (cn_hs c) (se_task (f s))) -> says (upd_session r f c).
Proof. intros [Hi Ho Ht] Hf. constructor; [done|done|]. cbn. apply Forall_alter; [done|]. intros s _ Hs. by apply Hf. Qed.
Lemma says_hs (c : conn H) hs' : says c -> I hs' -> (forall t i b, J (cn_hs c) t i b -> J hs' t i b) -> says (with_hs hs' c).
Proof.
  intros [Hi Ho Ht] Hi' Hm. constructor; cbn; [exact Hi'|..].
  - eapply List.Forall_impl; [|exact Ho]. intros hb. apply Hm.
  - eapply List.Forall_impl; [|exact Ht]. intros s. unfold pending. repeat case_match; auto.
Qed.
Lemma says_write (c : conn H) h b w : says c -> J (cn_hs c) (Type_ h) (SessionID h) b -> says (fst (write h b w c)).
Proof.
  intros W Hj. unfold write. destruct (cn_closed c); [done|]. destruct w; [|done]. destruct W. constructor; [done| |done].
  cbn. apply Forall_app. split; [done|]. by apply Forall_singleton.
Qed.
Lemma says_negotiate (c : conn H) : says c -> says (fst (negotiateFlags lim c)).
Proof. intros W. by eapply says_frame. Qed.
Lemma says_replyError (c : conn H) h w : says c -> says (replyError lim h w c).
Proof.
  intros W. unfold replyError. destruct (error_packet h) as [ [rh body]|] eqn:E; [|done].
  pose proof (J_error (cn_hs c) h rh body E) as Hj. destruct (negb (Complete (cn_sc c))).
  - pose proof (says_negotiate c W) as Wn. destruct (negotiateFlags lim c) as [c1 fl] eqn:En.
    assert (cn_hs c1 = cn_hs c) as Eh by (by injection En as <- _). apply says_write; [done|]. by rewrite Eh.
  - by apply says_write.
Qed.
Lemma says_drop (c : conn H) r : says c -> says (dropSession ident connKey r c).
Proof.
  intros W. unfold dropSession. destruct (cn_heap c !! r) as [s|]; [|done].
  assert (says (upd_session r se_stop c)) as W1 by (by apply says_upd).
  destruct (J_end (cn_hs c) (mkEnv ident (se_id s) connKey) (sy_inv _ W)) as [Hi Hm].
  case_bool_decide; (apply says_hs; [by eapply says_frame|exact Hi|exact Hm]).
Qed.
Lemma says_dispatch_at (c : conn H) r s p :
  says c -> says (fst (dispatch_at ident connKey r s p c))
  /\ forall o, snd (dispatch_at ident connKey r s p c) = Ok o ->
     J (cn_hs (fst (dispatch_at ident connKey r s p c))) (Type_ (og_hdr o)) (SessionID (og_hdr o)) (og_body o).
Proof.
  intros W. unfold dispatch_at. destruct (dispatch _ _ _ _ _ _) as [ [seq hs] out] eqn:D.
  destruct (J_dispatch _ _ _ _ _ _ _ D (sy_inv _ W)) as (Hi & Hm & Ho). cbn [fst snd]. split; [|done].
  by apply says_hs; [apply says_upd|..].
Qed.
Lemma says_processFirst (c : conn H) r s p w : says c -> says (fst (processFirst ident connKey lim r s p w c)).
Proof.
  intros W. unfold processFirst. destruct (says_dispatch_at c r s p W) as [Wd Hj].
  destruct (dispatch_at _ _ _ _ _ _) as [c1 [o|[e|] ] ]; cbn [fst snd] in *.
  - pose proof (says_negotiate c1 Wd) as Wn. destruct (negotiateFlags lim c1) as [c2 fl] eqn:En.
    assert (cn_hs c2 = cn_hs c1) as Eh by (by injection En as <- _).
    pose proof (says_write c2 (set_Flags fl (og_hdr o)) (og_body o) w Wn) as Ww.
    cbn [fst] in Ww. rewrite Eh in Ww. specialize (Ww (Hj o eq_refl)).
    destruct (write _ _ _ _) as [c3 [|] ]; cbn [fst] in *; [|by apply says_drop].
    destruct (_ || _); [by apply says_drop|by apply says_upd].
  - by apply says_drop, says_replyError.
  - apply says_drop. eapply says_frame; [by apply (says_replyError c1 (pk_hdr p) w)|done..].
Qed.
Lemma says_head (c : conn H) p first w : says c -> says (fst (handlePacket_head lim p first w c)).
Proof.
  intros W. unfold handlePacket_head. set (c1 := if first then _ else c).
  assert (says c1) as W1 by (unfold c1; destruct first; [by eapply says_frame|done]).
  destruct (KnownType (pk_hdr p)) eqn:Hk; cbn [negb].
  - destruct (Header_Validate _); [eapply says_frame; [by apply (says_replyError c1 (pk_hdr p) w)|done..]|].
    destruct (cn_sessions c1 !! _); [done|]. destruct (cn_drain c1); [by apply says_replyError|done].
  - destruct (UnknownTypeReply _) as [reply|] eqn:Hu; [|by eapply says_frame].
    set (c2 := if _ && first then _ else c1).
    assert (says c2) as W2 by (unfold c2; destruct (_ && first); [by eapply says_frame|done]).
    assert (KnownType reply = false) as Hkr.
    { unfold UnknownTypeReply in Hu. destruct (NextSeq _); [|done]. by injection Hu as <-. }
    pose proof (says_write c2 reply [] w W2 (J_unknown _ _ Hkr)) as Ww. by eapply says_frame.
Qed.
Lemma says_readError (c : conn H) h e w : says c -> says (fst (handleReadError lim h e w c)).
Proof.
  intros W. pose proof (says_replyError c h w W) as Wr. unfold handleReadError.
  destruct e as [ce| | | |]; try done; try exact (says_drain _ Wr).
  destruct ce; try done. cbn [fst]. destruct (KnownType h); by apply says_drain.
Qed.
Lemma says_offer (c : conn H) r p k : says c -> says (fst (offer r p k c)).
Proof.
  intros W. unfold offer. destruct (cn_heap c !! r) as [s|]; [|done]. destruct (se_in s); [done|].
  destruct (_ && _); [done|]. by apply says_upd.
Qed.
Lemma says_existing (c : conn H) r p w k : says c -> says (handleExisting ident connKey lim r p w k c).
Proof.
  intros W. unfold handleExisting. destruct (cn_heap c !! r); [|done].
  destruct (negb _); [by apply says_drop, says_replyError|].
  pose proof (says_offer c r p k W) as Wo. destruct (offer r p k c) as [c1 [|] ]; [done|by apply says_replyError].
Qed.
Lemma says_create (c : conn H) p first w k : says c -> says (fst (handleCreate ident connKey lim p first w k c)).
Proof.
  intros W. unfold handleCreate. destruct (_ && _); [by apply says_replyError|].
  destruct (_ <=? _); [by apply says_replyError|]. cbv zeta.
  set (c1 := with_sessions _ _). assert (says c1) as W1.
  { destruct W as [Hi Ho Ht]. constructor; [exact Hi|exact Ho|]. cbn. apply Forall_app. split; [exact Ht|]. by apply Forall_singleton. }
  destruct first; [by apply says_processFirst|].
  pose proof (says_offer (upd_session (length (cn_heap c)) (se_with_task TIdle) c1) (length (cn_heap c)) p k) as Wo.
  destruct (offer _ _ _ _) as [c2 [|] ]; cbn [fst] in *; [by apply Wo, says_upd|].
  apply says_drop, says_replyError, Wo. by apply says_upd.
Qed.
Lemma says_shutdown (c : conn H) : says c -> says (shutdownSessions c).
Proof.
  intros [Hi Ho Ht]. constructor; [exact Hi|exact Ho|]. cbn. apply Forall_lookup. intros i s. rewrite list_lookup_imap.
  destruct (cn_heap c !! i) as [s0|] eqn:Hs0; [|done]. cbn. intros [= <-].
  pose proof (proj1 (Forall_lookup _ _) Ht i s0 Hs0) as Hp. by case_bool_decide.
Qed.
Lemma says_main (c : conn H) ev w k : says c -> says (main_step ident connKey lim ev w k c).
Proof.
  intros W. unfold main_step. destruct (cn_main c) as [first|first|r p|p first| | |].
  - destruct ev; [destruct (_ && _)|destruct (_ && _)|]; by eapply says_frame.
  - destruct ev as [p|h e|]; [| |by eapply says_frame].
    + pose proof (says_head c p first w W). destruct (handlePacket_head _ _ _ _ _) as [c1 [b|ph] ]; by eapply says_frame.
    + pose proof (says_readError c h e w W). destruct (handleReadError _ _ _ _ _) as [c1 b]; by eapply says_frame.
  - eapply says_frame; [by apply (says_existing c r p w k)|done..].
  - pose proof (says_create c p first w k W). destruct (handleCreate _ _ _ _ _ _ _ _) as [c1 b]; by eapply says_frame.
  - by eapply says_frame.
  - eapply says_frame; [by apply (says_shutdown c)|done..].
  - done.
Qed.
Lemma says_exit (c : conn H) r : says c -> says (task_exit ident connKey r c).
Proof. intros W. by apply says_drop, says_upd. Qed.
Lemma says_task (c : conn H) r q w : says c -> says (task_step ident connKey lim r q w c).
Proof.
  intros W. unfold task_step. destruct (cn_heap c !! r) as [s|] eqn:Hr; [|done].
  pose proof (proj1 (Forall_lookup _ _) (sy_tasks _ W) r s Hr) as Hp.
  cbv beta in Hp. destruct (se_task s) as [| |p|p|p out|p [out|e]|] eqn:Et; try done.
  - destruct (se_in s); [destruct (_ && _)|destruct (stopped s c)]; try done; by apply says_exit || by apply says_upd.
  - destruct (stopped s c); [by apply says_exit|by apply says_upd].
  - destruct (says_dispatch_at c r s p W) as [Wd Hj]. destruct (dispatch_at _ _ _ _ _ _) as [c1 out]. cbn [fst snd] in *.
    apply says_upd; [done|]. intros s0 _. cbn. destruct out; [by apply Hj|done].
  - destruct (stopped s c); [by apply says_exit|]. apply says_upd; [done|]. intros s0 _. exact Hp.
  - pose proof (says_write c (og_hdr out) (og_body out) w W Hp). destruct (write _ _ _ _) as [c1 [|] ]; [|by apply says_exit].
    destruct (_ || _); [by apply says_exit|by apply says_upd].
  - apply says_exit. pose proof (says_replyError c (pk_hdr p) w W). destruct e; [done|by eapply says_frame].
Qed.

Lemma sys_says hs (c : conn H) : I hs -> rtc sys_step (newConn hs) c -> says c.
Proof.
  intros Hi Hr. refine (rtc_ind_l (fun c0 => says c0 -> says c) c _ _ (newConn hs) Hr _); [done| |by constructor].
  intros c0 c1 Hs _ IH W. apply IH. destruct Hs as [c1 [ev w k|r q w|]|hs' He]; [by apply says_main|by apply says_task|by eapply says_frame|].
  destruct (J_env _ _ He (sy_inv _ W)) as [Hi' Hm]. by apply says_hs.
Qed.
End Says.

Section Holds.
Variable T : H -> Z -> Prop.
Hypothesis T_end : forall hs e j, T (h_EndSession hs e) j -> T hs j /\ (env_ConnKey e = connKey -> j <> env_SessionID e).
Hypothesis T_env : forall hs hs' j, env hs hs' -> T hs' j -> T hs j.
Hypothesis T_dispatch : forall seq hs hdr body seq' hs' out,
  dispatch ident connKey seq hs hdr body = (seq', hs', out) -> forall j, T hs' j -> T hs j \/ j = sq_sessionID seq.

(** A goroutine that will still run [dropSession]. *)
Definition running (t : task) : bool := match t with TNone | TExit => false | _ => true end.

(** State is held only for ids of cells that run, cell [x] excused. *)
Definition holding (x : option nat) (c : conn H) : Prop :=
  forall j, T (cn_hs c) j -> exists r s, cn_heap c !! r = Some s /\ se_id s = j /\ (running (se_task s) = true \/ x = Some r).

Lemma hold_frame x (c c' : conn H) : holding x c -> cn_hs c' = cn_hs c -> cn_heap c' = cn_heap c -> holding x c'.
Proof. intros Hh E1 E2 j. rewrite E1, E2. apply Hh. Qed.
Lemma hold_weaken r (c : conn H) : holding None c -> holding (Some r) c.
Proof. intros Hh j Hj. destruct (Hh j Hj) as (r' & s & H1 & H2 & [H3|H3]); [|discriminate]. exists r', s. auto. Qed.
Lemma hold_upd x (c : conn H) r f :
  holding x c -> (forall s, se_id (f s) = se_id s /\ (running (se_task s) = true -> running (se_task (f s)) = true)) ->
  holding x (upd_session r f c).
Proof.
  intros Hh Hf j Hj. destruct (Hh j Hj) as (r' & s & H1 & H2 & H3). cbn. destruct (decide (r = r')) as [<-|Hne].
  - exists r, (f s). rewrite list_lookup_alter_eq, H1. split; [done|]. split; [by rewrite (proj1 (Hf s))|].
    destruct H3 as [H3|H3]; [left; by apply Hf|by right].
  - exists r', s. by rewrite list_lookup_alter_ne.
Qed.
Lemma hold_upd_out (c : conn H) r f :
  holding None c -> (forall s, se_id (f s) = se_id s) -> holding (Some r) (upd_session r f c).
Proof.
  intros Hh Hf j Hj. destruct (Hh j Hj) as (r' & s & H1 & H2 & [H3|H3]); [|discriminate]. cbn. destruct (decide (r = r')) as [<-|Hne].
  - exists r, (f s). rewrite list_lookup_alter_eq, H1. split; [done|]. rewrite Hf. auto.
  - exists r', s. rewrite list_lookup_alter_ne by done. auto.
Qed.
Lemma hold_upd_in (c : conn H) r f :
  holding (Some r) c -> (forall s, se_id (f s) = se_id s /\ running (se_task (f s)) = true) -> holding None (upd_session r f c).
Proof.
  intros Hh Hf j Hj. destruct (Hh j Hj) as (r' & s & H1 & H2 & H3). cbn. destruct (decide (r = r')) as [<-|Hne].
  - exists r, (f s). rewrite list_lookup_alter_eq, H1. split; [done|]. destruct (Hf s) as [-> Hr]. auto.
  - exists r', s. rewrite list_lookup_alter_ne by done. destruct H3 as [H3|H3]; [auto|congruence].
Qed.
Lemma hold_drop (c : conn H) r : holding (Some r) c -> is_Some (cn_heap c !! r) -> holding None (dropSession ident connKey r c).
Proof.
  intros Hh [s Hs] j. unfold dropSession. rewrite Hs. cbn [with_hs cn_hs]. intros Hj.
  assert (T (cn_hs c) j /\ j <> se_id s) as [Hj' Hne].
  { apply T_end in Hj as [Hj Hne]. cbn [env_ConnKey env_SessionID] in Hne. split; [by case_bool_decide|by apply Hne]. }
  destruct (Hh j Hj') as (r' & s' & H1 & H2 & H3). exists r', (if decide (r = r') then se_stop s' else s').
  assert (cn_heap (with_hs (h_EndSession (cn_hs (upd_session r se_stop c)) (mkEnv ident (se_id s) connKey))
            (if bool_decide (cn_sessions (upd_session r se_stop c) !! se_id s = Some r)
             then with_sessions (delete (se_id s) (cn_sessions (upd_session r se_stop c))) (upd_session r se_stop c)
             else upd_session r se_stop c)) = alter se_stop r (cn_heap c)) as Eh by (by case_bool_decide).
  split.
  - transitivity (alter se_stop r (cn_heap c) !! r'); [by case_bool_decide|].
    destruct (decide (r = r')) as [<-|Hn]; [by rewrite list_lookup_alter_eq, H1|by rewrite list_lookup_alter_ne].
  - split; [by destruct (decide (r = r'))|]. left. destruct H3 as [H3|[= <-] ]; [by destruct (decide (r = r'))|congruence].
Qed.
Lemma hold_drop_any (c : conn H) r : holding None c -> holding None (dropSession ident connKey r c).
Proof.
  intros Hh. destruct (cn_heap c !! r) as [s|] eqn:Hr; [apply hold_drop; [by apply hold_weaken|by eexists]|].
  unfold dropSession. by rewrite Hr.
Qed.
Lemma hold_dispatch (c : conn H) r s p :
  cn_heap c !! r = Some s -> sq_sessionID (se_seq s) = se_id s -> holding None c \/ holding (Some r) c ->
  holding (Some r) (fst (dispatch_at ident connKey r s p c))
  /\ (running (se_task s) = true -> holding None c -> holding None (fst (dispatch_at ident connKey r s p c)))
  /\ cn_heap (fst (dispatch_at ident connKey r s p c)) !! r = Some (se_with_seq (fst (fst (dispatch ident connKey (se_seq s) (cn_hs c) (pk_hdr p) (pk_body p)))) s).
Proof.
  intros Hr Hid Hh. assert (holding (Some r) c) as Hh' by (destruct Hh; [by apply hold_weaken|done]). clear Hh.
  unfold dispatch_at. destruct (dispatch _ _ _ _ _ _) as [ [seq hs] out] eqn:D. cbn [fst].
  pose proof (T_dispatch _ _ _ _ _ _ _ D) as Ht. cbn [with_hs cn_hs upd_session with_heap cn_heap].
  assert (alter (se_with_seq seq) r (cn_heap c) !! r = Some (se_with_seq seq s)) as Hl by (by rewrite list_lookup_alter_eq, Hr).
  split; [|split; [|exact Hl] ].
  - intros j Hj. cbn [cn_hs cn_heap] in *. destruct (Ht j Hj) as [Hj'|Hj'].
    + destruct (hold_upd (Some r) c r (se_with_seq seq) Hh' (fun s => conj eq_refl (fun x => x)) j Hj') as (r' & s' & ?). by exists r', s'.
    + exists r, (se_with_seq seq s). split; [exact Hl|]. split; [by rewrite Hj'|by right].
  - intros Hrun Hn j Hj. cbn [cn_hs cn_heap] in *. destruct (Ht j Hj) as [Hj'|Hj'].
    + destruct (hold_upd None c r (se_with_seq seq) Hn (fun s => conj eq_refl (fun x => x)) j Hj') as (r' & s' & ?). by exists r', s'.
    + exists r, (se_with_seq seq s). split; [exact Hl|]. split; [by rewrite Hj'|by left].
Qed.

(** Writing changes neither the handler nor the cells. *)
Definition same_cells (c c' : conn H) : Prop := cn_hs c' = cn_hs c /\ cn_heap c' = cn_heap c.
Lemma same_write (c : conn H) h b w : same_cells c (fst (write h b w c)).
Proof. unfold write. by destruct (cn_closed c), w. Qed.
Lemma same_replyError (c : conn H) h w : same_cells c (replyError lim h w c).
Proof.
  unfold replyError. destruct (error_packet h) as [ [rh body]|]; [|done]. destruct (negb _).
  - destruct (negotiateFlags lim c) as [c1 fl] eqn:En. pose proof (same_write c1 (set_Flags fl rh) body w) as [E1 E2].
    split; [rewrite E1|rewrite E2]; by injection En as <- _.
  - apply same_write.
Qed.
Lemma hold_same x (c c' : conn H) : holding x c -> same_cells c c' -> holding x c'.
Proof. intros Hh [E1 E2]. by eapply hold_frame. Qed.

Lemma hold_processFirst (c : conn H) r s p w :
  cn_heap c !! r = Some s -> sq_sessionID (se_seq s) = se_id s -> holding None c ->
  holding None (fst (processFirst ident connKey lim r s p w c)).
Proof.
  intros Hr Hid Hh. unfold processFirst. destruct (hold_dispatch c r s p Hr Hid (or_introl Hh)) as (Hd & _ & Hl).
  destruct (dispatch_at _ _ _ _ _ _) as [c1 out]. cbn [fst] in *.
  assert (forall c2, same_cells c1 c2 -> holding None (dropSession ident connKey r c2)) as Hdrop.
  { intros c2 Hs. apply hold_drop; [by eapply hold_same|]. destruct Hs as [_ ->]. rewrite Hl. by eexists. }
  destruct out as [o|[e|] ].
  - destruct (negotiateFlags lim c1) as [c2 fl] eqn:En. assert (same_cells c1 c2) as S2 by (by injection En as <- _).
    pose proof (same_write c2 (set_Flags fl (og_hdr o)) (og_body o) w) as S3. destruct (write _ _ _ _) as [c3 b]. cbn [fst] in S3.
    assert (same_cells c1 c3) as S by (destruct S2 as [A1 A2], S3 as [B1 B2]; split; [by rewrite B1|by rewrite B2]).
    destruct b; [|by apply Hdrop]. destruct (_ || _); [by apply Hdrop|]. apply hold_upd_in; [by eapply hold_same|done].
  - apply Hdrop, same_replyError.
  - destruct (same_replyError c1 (pk_hdr p) w) as [A1 A2]. by apply Hdrop.
Qed.
Lemma hold_offer x (c : conn H) r p k : holding x c -> holding x (fst (offer r p k c)).
Proof.
  intros Hh. unfold offer. destruct (cn_heap c !! r) as [s|]; [|done]. destruct (se_in s); [done|].
  destruct (_ && _); [done|]. by apply hold_upd.
Qed.
Lemma hold_head (c : conn H) p first w : same_cells c (fst (handlePacket_head lim p first w c)).
Proof.
  unfold handlePacket_head. set (c1 := if first then _ else c). assert (same_cells c c1) as S1 by (unfold c1; by destruct first).
  destruct (KnownType (pk_hdr p)); cbn [negb].
  - destruct (same_replyError c1 (pk_hdr p) w) as [A1 A2], S1 as [B1 B2].
    destruct (Header_Validate _); [split; [exact (eq_trans A1 B1)|exact (eq_trans A2 B2)]|].
    destruct (cn_sessions c1 !! _); [done|]. destruct (cn_drain c1); [split; [exact (eq_trans A1 B1)|exact (eq_trans A2 B2)]|done].
  - destruct (UnknownTypeReply _) as [reply|]; [|done]. set (c2 := if _ && first then _ else c1).
    assert (same_cells c1 c2) as [A1 A2] by (unfold c2; by destruct (_ && first)).
    destruct (same_write c2 reply [] w) as [B1 B2], S1 as [D1 D2].
    split; [exact (eq_trans B1 (eq_trans A1 D1))|exact (eq_trans B2 (eq_trans A2 D2))].
Qed.
Lemma hold_readError (c : conn H) h e w : same_cells c (fst (handleReadError lim h e w c)).
Proof.
  pose proof (same_replyError c h w) as Hs. unfold handleReadError. destruct e as [ce| | | |]; try done; try exact Hs.
  destruct ce; try done. cbn [fst]. destruct (KnownType h); [exact Hs|done].
Qed.
Lemma hold_existing (c : conn H) r p w k : holding None c -> holding None (handleExisting ident connKey lim r p w k c).
Proof.
  intros Hh. unfold handleExisting. destruct (cn_heap c !! r); [|done].
  destruct (negb _); [apply hold_drop_any; eapply hold_same; [exact Hh|apply same_replyError]|].
  pose proof (hold_offer None c r p k Hh) as Ho. destruct (offer r p k c) as [c1 [|] ]; [done|].
  eapply hold_same; [exact Ho|apply same_replyError].
Qed.
Lemma hold_create (c : conn H) p first w k : holding None c -> holding None (fst (handleCreate ident connKey lim p first w k c)).
Proof.
  intros Hh. unfold handleCreate. destruct (_ && _); [eapply hold_same; [exact Hh|apply same_replyError]|].
  destruct (_ <=? _); [eapply hold_same; [exact Hh|apply same_replyError]|]. cbv zeta.
  set (s := newSession _ _). set (c1 := with_sessions _ _).
  assert (cn_heap c1 !! length (cn_heap c) = Some s) as Hl by (cbn; rewrite lookup_app_r, Nat.sub_diag by lia; done).
  assert (holding None c1) as H1.
  { intros j Hj. destruct (Hh j Hj) as (r & s' & A & B). exists r, s'. split; [|done]. cbn. apply lookup_app_l_Some, A. }
  destruct first; [by apply hold_processFirst|].
  assert (holding None (upd_session (length (cn_heap c)) (se_with_task TIdle) c1)) as H2 by (by apply hold_upd).
  pose proof (hold_offer None _ (length (cn_heap c)) p k H2) as Ho. destruct (offer _ _ _ _) as [c2 [|] ]; cbn [fst] in *; [done|].
  apply hold_drop_any. eapply hold_same; [exact Ho|apply same_replyError].
Qed.
Lemma hold_shutdown (c : conn H) : holding None c -> holding None (shutdownSessions c).
Proof.
  intros Hh j Hj. destruct (Hh j Hj) as (r & s & A & B & C). cbn. eexists r, _. rewrite list_lookup_imap, A. cbn.
  split; [reflexivity|]. by case_bool_decide.
Qed.
Lemma hold_main (c : conn H) ev w k : holding None c -> holding None (main_step ident connKey lim ev w k c).
Proof.
  intros Hh. unfold main_step. destruct (cn_main c) as [first|first|r p|p first| | |].
  - destruct ev; try (destruct (_ && _)); by eapply hold_frame.
  - destruct ev as [p|h e|]; [| |by eapply hold_frame].
    + pose proof (hold_same None _ _ Hh (hold_head c p first w)). destruct (handlePacket_head _ _ _ _ _) as [c1 [b|ph] ]; by eapply hold_frame.
    + pose proof (hold_same None _ _ Hh (hold_readError c h e w)). destruct (handleReadError _ _ _ _ _) as [c1 b]; by eapply hold_frame.
  - eapply hold_frame; [by apply (hold_existing c r p w k)|done..].
  - pose proof (hold_create c p first w k Hh). destruct (handleCreate _ _ _ _ _ _ _ _) as [c1 b]; by eapply hold_frame.
  - by eapply hold_frame.
  - eapply hold_frame; [by apply (hold_shutdown c)|done..].
  - done.
Qed.
Lemma hold_exit (c : conn H) r s : cn_heap c !! r = Some s -> holding None c -> holding None (task_exit ident connKey r c).
Proof.
  intros Hr Hh. unfold task_exit. apply hold_drop; [by apply hold_upd_out|]. cbn. rewrite list_lookup_alter_eq, Hr. by eexists.
Qed.
Lemma hold_task (c : conn H) r q w :
  Forall good_session (cn_heap c) -> holding None c -> holding None (task_step ident connKey lim r q w c).
Proof.
  intros Hg Hh. unfold task_step. destruct (cn_heap c !! r) as [s|] eqn:Hr; [|done].
  destruct (proj1 (Forall_lookup _ _) Hg r s Hr) as [Hid _].
  destruct (se_task s) as [| |p|p|p out|p [out|e]|] eqn:Et; try done.
  - destruct (se_in s); [destruct (_ && _)|destruct (stopped s c)]; try done; by (eapply hold_exit) || by apply hold_upd.
  - destruct (stopped s c); [by eapply hold_exit|by apply hold_upd].
  - destruct (hold_dispatch c r s p Hr Hid (or_introl Hh)) as (_ & Hd & _). rewrite Et in Hd. specialize (Hd eq_refl Hh).
    destruct (dispatch_at _ _ _ _ _ _) as [c1 out]. by apply hold_upd.
  - destruct (stopped s c); [by eapply hold_exit|by apply hold_upd].
  - pose proof (same_write c (og_hdr out) (og_body out) w) as S. pose proof (hold_same None _ _ Hh S).
    destruct (write _ _ _ _) as [c1 [|] ]; cbn [fst] in *; destruct S as [_ S].
    + destruct (_ || _); [eapply hold_exit; [by rewrite S|done]|by apply hold_upd].
    + eapply hold_exit; [by rewrite S|done].
  - pose proof (same_replyError c (pk_hdr p) w) as S. pose proof (hold_same None _ _ Hh S). destruct S as [_ S].
    destruct e; eapply hold_exit; try (by eapply hold_frame); cbn; by rewrite S.
Qed.

Lemma sys_holds (Hlim : 1 <= MaxSessionsPerConnection lim) hs (c : conn H) :
  (forall j, ~ T hs j) -> rtc sys_step (newConn hs) c -> holding None c.
Proof.
  intros Hnone Hr. assert (wf_conn lim c /\ first_inv c /\ holding None c) as (_ & _ & Hh); [|done].
  revert Hr. apply (rtc_ind_r (fun c => wf_conn lim c /\ first_inv c /\ holding None c)).
  { split; [by apply wf_new|]. split; [done|]. intros j Hj. by apply Hnone in Hj. }
  intros c1 c2 _ Hs (W & F & Hh). destruct Hs as [c2 Hs|hs' He].
  - destruct (inv_step ident connKey lim Hlim c1 c2 Hs (conj W F)) as [W' F']. split; [done|]. split; [done|].
    destruct Hs as [ev w k|r q w|]; [by apply hold_main|apply hold_task; [apply W|done]|by eapply hold_frame].
  - split; [by eapply wf_frame|]. split; [done|]. intros j Hj. apply (T_env _ _ _ He) in Hj. destruct (Hh j Hj) as (r & s & ?). by exists r, s.
Qed.
End Holds.
End Handlers.
