(* ===== verification/TacacsBridge.v ===== *)
(** * The TACACS+ bridge: the AAA service as the connection's handler

    [internal/tacacs/server/bridge.go]: packets become AAA requests and answers
    become reply bodies.  The bridge implements the interface [Handler] of the
    connection engine, so the connection of [TacacsServer] runs over the
    service of [AaaAuthen], [AaaAuthor] and [AaaAccounting], which share the
    event ring.  The service is shared with other connections; their operations
    are steps of the environment. *)

From Stdlib Require Import String.
From stdpp Require Import gmap strings.
From S2P Require Import Prelude TacacsHeader TacacsCursor TacacsBody TacacsSequence TacacsTransport TacacsServer TacacsHandler.
From S2P Require Import Text.
From S2P Require Policy Events Domain SessionIndex AaaAccounting AaaAuthor AaaAuthen.

#[local] Open Scope Z_scope.

(** ** Translations *)

(** [string(env.Transport)] *)
Definition transport_name (t : Transport) : string :=
  match t with TransportLegacy => "legacy" | TransportTLS => "tls" end.

(** A separator octet as the engine's character. *)
Definition argsToAV (l : list Argument) : list Policy.AVPair :=
  map (fun a => Policy.mkAVPair (text_of (arg_Name a)) (Ascii.ascii_of_N (Z.to_N (Separator a))) (text_of (arg_Value a))) l.
Definition avToArgs (l : list Policy.AVPair) : list Argument :=
  map (fun p => mkArgument (octets_of (Policy.av_Name p)) (Z.of_N (Ascii.N_of_ascii (Policy.av_Separator p))) (octets_of (Policy.av_Value p))) l.

Definition mapAuthen (step : AaaAuthen.AuthenticationStep) : AuthenReply :=
  mkAuthenReply (AaaAuthen.sp_Status step) (if AaaAuthen.sp_NoEcho step then ReplyFlagNoEcho else 0)
    (octets_of (AaaAuthen.sp_ServerMsg step)) [].

(** [byte(dec.Status)] *)
Definition author_wire (s : Policy.AuthorStatus) : Z :=
  match s with
  | Policy.AuthorStatusPassAdd => AuthorStatusPassAdd | Policy.AuthorStatusPassRepl => AuthorStatusPassRepl
  | Policy.AuthorStatusFail => AuthorStatusFail | Policy.AuthorStatusError => AuthorStatusError
  | Policy.AuthorStatusFollow => AuthorStatusFollow
  end.

Definition start_request (env : Env) (start : AuthenStart) : AaaAuthen.AuthenticationStart :=
  AaaAuthen.mkStart (env_ConnKey env) (env_SessionID env) (text_of (as_User start)) (text_of (id_ClientID (env_Identity env)))
    (as_Action start) (as_Type start) (as_Service start) (as_PrivLvl start) (text_of (as_Port start)) (text_of (as_RemAddr start))
    (as_Data start) (id_Revision (env_Identity env)) (transport_name (id_Transport (env_Identity env))).
Definition continue_request (env : Env) (cont : AuthenContinue) : AaaAuthen.AuthenticationContinue :=
  AaaAuthen.mkContinue (env_ConnKey env) (env_SessionID env) false (ac_UserMsg cont) (text_of (id_ClientID (env_Identity env)))
    (id_Revision (env_Identity env)) (transport_name (id_Transport (env_Identity env))).
Definition abort_request (env : Env) : AaaAuthen.AuthenticationAbort :=
  AaaAuthen.mkAbort (env_ConnKey env) (env_SessionID env) (text_of (id_ClientID (env_Identity env))) (id_Revision (env_Identity env)).
Definition author_request (env : Env) (req : AuthorRequest) : AaaAuthor.AuthorizationRequest :=
  AaaAuthor.mkAuthorizationRequest (text_of (aq_User req)) (text_of (id_ClientID (env_Identity env))) "" "" "" []
    (argsToAV (aq_Args req)) (aq_AuthenMethod req) (aq_AuthenType req) (aq_Service req) (aq_PrivLvl req)
    (text_of (aq_Port req)) (text_of (aq_RemAddr req)) (id_Revision (env_Identity env))
    (transport_name (id_Transport (env_Identity env))) (env_SessionID env).
Definition acct_record (env : Env) (req : AcctRequest) : AaaAccounting.AccountingRecord :=
  AaaAccounting.mkAccountingRecord (cq_Flags req) (text_of (cq_User req)) (text_of (id_ClientID (env_Identity env))) (env_SessionID env)
    (argsToAV (if UseArguments req then cq_Args req else [])) (id_Revision (env_Identity env))
    (transport_name (id_Transport (env_Identity env))) (text_of (cq_Port req)) (text_of (cq_RemAddr req))
    (cq_AuthenMethod req) (cq_PrivLvl req) (cq_AuthenType req) (cq_Service req).

(** ** The bridge *)

(** What one call takes from outside. *)
Record CallWorld := mkCallWorld {
  cw_authen : AaaAuthen.World; cw_author : AaaAuthor.AuthorWorld;
  cw_acct : option AaaAccounting.Snapshot; cw_cancelled : bool; cw_now : Z;
}.

Section Bridge.
Context (IDKey : bytes -> bytes -> Z -> Z -> Z -> Z -> bytes) (md4 : bytes -> bytes) (precis : string -> option string).
Context (ParseIP IANALocation : string -> bool).
Context {M : Type} `{AaaAuthen.Publisher M}.

(** A call of the service, with the ring it left. *)
Inductive call :=
| CAuthen (op : AaaAuthen.authen_op M)
| CAuthor (req : AaaAuthor.AuthorizationRequest) (ring : Events.Ring)
| CAcct (rec : AaaAccounting.AccountingRecord) (ring : Events.Ring).
(** What it means for the conversations. *)
Definition call_op (c : call) : AaaAuthen.authen_op M :=
  match c with CAuthen op => op | CAuthor _ ring | CAcct _ ring => AaaAuthen.OpRing ring end.
Definition history (l : list (CallWorld * call)) : list (AaaAuthen.World * AaaAuthen.authen_op M) :=
  map (fun wc => (cw_authen (fst wc), call_op (snd wc))) l.

(** [Bridge], with the service behind its pointer and what the outside gives
    to its calls, in order; the log of the calls so far says which is next. *)
Record Bridge := mkBridge {
  br_AAA : AaaAuthen.AuthService M; br_radiusSessions : option SessionIndex.SessionIndex;
  br_worlds : nat -> CallWorld; br_log : list (CallWorld * call);
}.
Definition now_world (b : Bridge) : CallWorld := br_worlds b (length (br_log b)).
Definition called (b : Bridge) (c : call) (s : AaaAuthen.AuthService M) : Bridge :=
  mkBridge s (br_radiusSessions b) (br_worlds b) (br_log b ++ [(now_world b, c)]).

Definition Bridge_AuthenStart (b : Bridge) (env : Env) (start : AuthenStart) : Bridge * result unit AuthenReply :=
  let req := start_request env start in
  let '(s, step, err) := AaaAuthen.BeginAuthentication IDKey md4 precis (br_AAA b) (cw_authen (now_world b)) req in
  (called b (CAuthen (AaaAuthen.OpBegin req)) s,
   Ok (match err with Some _ => authen_status AuthenStatusError | None => mapAuthen step end)).

(** [AbortAuthentication] of the session of [env]. *)
Definition aborted (b : Bridge) (env : Env) : Bridge :=
  called b (CAuthen (AaaAuthen.OpAbort (abort_request env)))
    (AaaAuthen.AbortAuthentication (br_AAA b) (cw_authen (now_world b)) (abort_request env)).

Definition Bridge_AuthenContinue (b : Bridge) (env : Env) (cont : AuthenContinue) : Bridge * result unit AuthenReply :=
  if AuthenContinue_Abort cont then (aborted b env, Ok (authen_status AuthenStatusFail))
  else
    let req := continue_request env cont in
    let '(s, step, err) := AaaAuthen.ContinueAuthentication IDKey precis (br_AAA b) (cw_authen (now_world b)) req in
    (called b (CAuthen (AaaAuthen.OpContinue req)) s,
     Ok (match err with Some _ => authen_status AuthenStatusError | None => mapAuthen step end)).

Definition Bridge_Authorize (b : Bridge) (env : Env) (req : AuthorRequest) : Bridge * result unit AuthorResponse :=
  let areq := author_request env req in
  let '(ring, dec, err) := AaaAuthor.Authorize (AaaAuthen.sa_events (br_AAA b)) (cw_author (now_world b)) areq in
  (called b (CAuthor areq ring) (AaaAuthen.set_events (br_AAA b) ring),
   Ok (match err with
       | Some _ => author_status AuthorStatusError
       | None => mkAuthorResponse (author_wire (AaaAuthor.ad_Status dec)) [] [] (avToArgs (AaaAuthor.ad_Arguments dec))
       end)).

(** [RecordAccounting] on the service at hand. *)
Definition record_call (s : AaaAuthen.AuthService M) (sessions : option SessionIndex.SessionIndex) (w : CallWorld)
  (rec : AaaAccounting.AccountingRecord) : AaaAccounting.Service * result AaaAccounting.aaa_error Z :=
  AaaAccounting.RecordAccounting ParseIP IANALocation (AaaAccounting.mkService (AaaAuthen.sa_events s) sessions)
    (cw_acct w) (cw_cancelled w) (cw_now w) rec.

Definition Bridge_Account (b : Bridge) (env : Env) (req : AcctRequest) : Bridge * result unit AcctReply :=
  let rec := acct_record env req in
  let '(s, r) := record_call (br_AAA b) (br_radiusSessions b) (now_world b) rec in
  let ring := AaaAccounting.sv_events s in
  (called b (CAcct rec ring) (AaaAuthen.set_events (br_AAA b) ring),
   Ok (acct_status (match r with Ok _ => AcctStatusSuccess | Err _ => AcctStatusError end))).

Definition Bridge_EndSession (b : Bridge) (env : Env) : Bridge := aborted b env.

#[export] Instance bridge_handler : Handler Bridge := {|
  h_AuthenStart := Bridge_AuthenStart; h_AuthenContinue := Bridge_AuthenContinue; h_Authorize := Bridge_Authorize;
  h_Account := Bridge_Account; h_EndSession := Bridge_EndSession
|}.
End Bridge.

Arguments Bridge : clear implicits.
Arguments call : clear implicits.

(** ** What the connection over the bridge says and holds *)

Section Facts.
Context (IDKey : bytes -> bytes -> Z -> Z -> Z -> Z -> bytes) (md4 : bytes -> bytes) (precis : string -> option string).
Context (ParseIP IANALocation : string -> bool).
Context {M : Type} `{AaaAuthen.Publisher M} (ident : Identity) (connKey : Z) (s0 : AaaAuthen.AuthService M).
#[local] Existing Instance bridge_handler.
#[local] Notation bridge := (Bridge M).
#[local] Instance handler : Handler bridge := bridge_handler IDKey md4 precis ParseIP IANALocation.
#[local] Notation run := (AaaAuthen.run IDKey md4 precis s0).
#[local] Notation exec := (AaaAuthen.exec IDKey md4 precis).

(** The service is where its history has brought it. *)
Definition lived (b : bridge) : Prop := br_AAA b = run (history (br_log b)).

(** An entry of the log and the service it was called on. *)
Definition logged (b : bridge) (pre : list (CallWorld * call M)) (w : CallWorld) (c : call M) : Prop :=
  exists post, br_log b = pre ++ (w, c) :: post.

(** The packet is no more than what a logged call of its session answered. *)
Definition answered (b : bridge) (typ sid : Z) (body : bytes) : Prop :=
  (typ = TypeAuthen -> forall r, DecodeAuthenReply body = Ok r -> ar_Status r = AuthenStatusPass ->
    exists pre w op, logged b pre w (CAuthen op) /\ AaaAuthen.op_key op = Some (connKey, sid)
      /\ snd (exec (run (history pre)) (cw_authen w) op) = Some AuthenStatusPass)
  /\ (typ = TypeAuthor -> forall r, DecodeAuthorResponse body = Ok r -> ap_Status r = AuthorStatusPassAdd \/ ap_Status r = AuthorStatusPassRepl ->
    exists pre w req ring, logged b pre w (CAuthor req ring)
      /\ AaaAuthor.zr_SessionID req = sid /\ AaaAuthor.zr_ClientID req = text_of (id_ClientID ident)
      /\ let d := snd (fst (AaaAuthor.Authorize (AaaAuthen.sa_events (run (history pre))) (cw_author w) req)) in
         ap_Status r = author_wire (AaaAuthor.ad_Status d) /\ ap_Args r = avToArgs (AaaAuthor.ad_Arguments d))
  /\ (typ = TypeAcct -> forall r, DecodeAcctReply body = Ok r -> cr_Status r = AcctStatusSuccess ->
    exists pre w rec ring, logged b pre w (CAcct rec ring)
      /\ AaaAccounting.ar_SessionID rec = sid /\ AaaAccounting.ar_ClientID rec = text_of (id_ClientID ident)
      /\ is_ok (snd (record_call ParseIP IANALocation (run (history pre)) (br_radiusSessions b) w rec)) = true).

(** A call: the service moves as its history says. *)
Definition extends (b b' : bridge) : Prop :=
  br_radiusSessions b' = br_radiusSessions b /\ exists post, br_log b' = br_log b ++ post.

Lemma bridge_answered_mono b b' typ sid body : extends b b' -> answered b typ sid body -> answered b' typ sid body.
Proof.
  intros [Er [post El] ] (H1 & H2 & H3).
  assert (forall pre w c, logged b pre w c -> logged b' pre w c) as Hl.
  { intros pre w c [post' E]. exists (post' ++ post). by rewrite El, E, <- app_assoc. }
  split; [|split].
  - intros Ht r Hr Hs. destruct (H1 Ht r Hr Hs) as (pre & w & op & A & B). exists pre, w, op. split; [by apply Hl|exact B].
  - intros Ht r Hr Hs. destruct (H2 Ht r Hr Hs) as (pre & w & req & ring & A & B). exists pre, w, req, ring. split; [by apply Hl|exact B].
  - intros Ht r Hr Hs. destruct (H3 Ht r Hr Hs) as (pre & w & rec & ring & A & B & C & D).
    exists pre, w, rec, ring. rewrite Er. split; [by apply Hl|]. split; [exact B|]. split; [exact C|exact D].
Qed.

Lemma called_extends b c s : extends b (called b c s).
Proof. split; [done|]. by eexists. Qed.
Lemma called_lived b c s :
  lived b -> s = fst (exec (br_AAA b) (cw_authen (now_world b)) (call_op c)) -> lived (called b c s).
Proof.
  intros Hl ->. unfold lived in *. cbn [called br_AAA br_log]. unfold history. rewrite map_app, AaaAuthen.run_app.
  fold (history (br_log b)). rewrite <- Hl. done.
Qed.
Lemma called_logged b c s : logged (called b c s) (br_log b) (now_world b) c.
Proof. by exists []. Qed.

(** What one call does to the state: log, history and the other sessions. *)
Definition moved (sid : Z) (b b' : bridge) : Prop :=
  extends b b' /\ (lived b -> lived b')
  /\ forall key, key <> (connKey, sid) -> AaaAuthen.getSession (br_AAA b') key = AaaAuthen.getSession (br_AAA b) key.

Lemma called_moved sid b c s :
  s = fst (exec (br_AAA b) (cw_authen (now_world b)) (call_op c)) ->
  AaaAuthen.op_key (call_op c) = Some (connKey, sid) \/ AaaAuthen.op_key (call_op c) = None -> moved sid b (called b c s).
Proof.
  intros Hs Hk. split; [apply called_extends|]. split; [intros Hl; by apply called_lived|].
  intros key Hne. cbn [called br_AAA]. rewrite Hs. apply AaaAuthen.exec_frame. destruct Hk as [->| ->]; congruence.
Qed.
Lemma moved_refl sid b : moved sid b b.
Proof. split; [split; [done|exists []; by rewrite app_nil_r]|]. by split. Qed.

(** A call that a dispatched packet makes, with the reply it is answered by. *)
Definition call_of (typ sid : Z) (b b' : bridge) (out : result srv_error outgoing) : Prop :=
  moved sid b b' /\ forall o, out = Ok o -> Type_ (og_hdr o) = typ /\ SessionID (og_hdr o) = sid
    /\ (lived b -> answered b' typ sid (og_body o)).

Lemma encodeAuthen_status h r t o :
  encodeAuthen h r t = Ok o -> Type_ (og_hdr o) = Type_ h /\ SessionID (og_hdr o) = SessionID h
  /\ forall r', DecodeAuthenReply (og_body o) = Ok r' -> ar_Status r' = ar_Status r.
Proof.
  unfold encodeAuthen. destruct (AuthenReply_Encode r) as [body|] eqn:E; [|done]. intros [= <-]. split; [done|]. split; [done|].
  cbn [og_body]. intros r' Hr. apply AuthenReply_Encode_Decode in E. rewrite E in Hr. by injection Hr as <-.
Qed.

(** A reply that is not PASS. *)
Lemma authen_refused sid b b' rh r t out :
  moved sid b b' -> Type_ rh = TypeAuthen -> SessionID rh = sid -> ar_Status r <> AuthenStatusPass ->
  out = encodeAuthen rh r t -> call_of TypeAuthen sid b b' out.
Proof.
  intros Hm Ht Hs Hr ->. split; [done|]. intros o Ho. apply encodeAuthen_status in Ho as (-> & -> & Hd).
  split; [done|]. split; [done|]. intros _. split; [|by split].
  intros _ r' Hr' Hp. apply Hd in Hr'. congruence.
Qed.

(** The reply to an authentication operation. *)
Lemma authen_answered sid b op status rh r t out :
  AaaAuthen.op_key op = Some (connKey, sid) ->
  (ar_Status r = AuthenStatusPass -> snd (exec (br_AAA b) (cw_authen (now_world b)) op) = Some AuthenStatusPass) ->
  Type_ rh = TypeAuthen -> SessionID rh = sid -> out = encodeAuthen rh r t ->
  status = fst (exec (br_AAA b) (cw_authen (now_world b)) op) ->
  call_of TypeAuthen sid b (called b (CAuthen op) status) out.
Proof.
  intros Hk Hpass Ht Hs -> ->. split; [apply called_moved; [done|by left]|].
  intros o Ho. apply encodeAuthen_status in Ho as (-> & -> & Hd). split; [done|]. split; [done|].
  intros Hl. split; [|by split]. intros _ r' Hr' Hp. exists (br_log b), (now_world b), op.
  split; [apply called_logged|]. split; [done|]. rewrite <- Hl. apply Hpass. rewrite <- Hp. symmetry. by apply Hd.
Qed.

Lemma dispatchAuthen_call b hdr rh body b' out :
  Type_ rh = TypeAuthen ->
  dispatchAuthen ident b (mkEnv ident (SessionID rh) connKey) hdr rh body = (b', out) -> call_of TypeAuthen (SessionID rh) b b' out.
Proof.
  intros Ht. unfold dispatchAuthen. set (e := mkEnv ident (SessionID rh) connKey).
  assert (forall err, call_of TypeAuthen (SessionID rh) b b (Err err)) as Herr by (intros err; split; [apply moved_refl|done]).
  destruct (SeqNo hdr =? 1).
  - destruct (DecodeAuthenStart body) as [start|ce]; [|by intros [= <- <-]].
    destruct (ClassifyAuthenStart _ _) as [fl disp]. destruct (bool_decide (disp = DispositionAccept)) eqn:Hd; cbn [negb].
    2:{ intros [= <- <-]. eapply authen_refused; [apply moved_refl|done|done| |reflexivity]. apply bool_decide_eq_false in Hd. by destruct disp. }
    cbn [h_AuthenStart handler bridge_handler]. unfold Bridge_AuthenStart.
    destruct (AaaAuthen.BeginAuthentication _ _ _ _ _ _) as [ [s step] err] eqn:E. intros [= <- <-].
    eapply authen_answered; [reflexivity| |done|done|reflexivity|].
    + cbn [AaaAuthen.exec snd]. rewrite E. cbn [fst snd]. by destruct err; [|cbn [mapAuthen ar_Status]; intros ->].
    + cbn [AaaAuthen.exec fst]. by rewrite E.
  - destruct (DecodeAuthenContinue body) as [cont|ce]; [|by intros [= <- <-]].
    cbn [h_AuthenContinue handler bridge_handler]. unfold Bridge_AuthenContinue. destruct (AuthenContinue_Abort cont).
    { intros [= <- <-]. eapply authen_refused; [|done|done| |reflexivity]; [|done]. apply called_moved; [done|by left]. }
    destruct (AaaAuthen.ContinueAuthentication _ _ _ _ _) as [ [s step] err] eqn:E. intros [= <- <-].
    eapply authen_answered; [reflexivity| |done|done|reflexivity|].
    + cbn [AaaAuthen.exec snd]. rewrite E. cbn [fst snd]. by destruct err; [|cbn [mapAuthen ar_Status]; intros ->].
    + cbn [AaaAuthen.exec fst]. by rewrite E.
Qed.

Lemma ring_moved sid b c s ring :
  call_op c = AaaAuthen.OpRing ring -> s = AaaAuthen.set_events (br_AAA b) ring -> moved sid b (called b c s).
Proof. intros Hc ->. apply called_moved; rewrite Hc; [done|by right]. Qed.

Lemma dispatchAuthor_call b hdr rh body b' out :
  Type_ rh = TypeAuthor ->
  dispatchAuthor ident b (mkEnv ident (SessionID rh) connKey) hdr rh body = (b', out) -> call_of TypeAuthor (SessionID rh) b b' out.
Proof.
  intros Ht. unfold dispatchAuthor. set (e := mkEnv ident (SessionID rh) connKey).
  assert (forall r o, encodeAuthor rh r = Ok o -> Type_ (og_hdr o) = TypeAuthor /\ SessionID (og_hdr o) = SessionID rh
    /\ DecodeAuthorResponse (og_body o) = Ok r) as Henc.
  { intros r o. unfold encodeAuthor. destruct (AuthorResponse_Encode r) as [bd|] eqn:E; [|done]. intros [= <-].
    split; [exact Ht|]. split; [done|]. by apply AuthorResponse_Encode_Decode. }
  assert (forall b1 st, moved (SessionID rh) b b1 -> st <> AuthorStatusPassAdd -> st <> AuthorStatusPassRepl ->
    call_of TypeAuthor (SessionID rh) b b1 (encodeAuthor rh (author_status st))) as Hno.
  { intros b1 st Hm N1 N2. split; [done|]. intros o Ho. destruct (Henc _ _ Ho) as (-> & -> & Hd). split; [done|]. split; [done|].
    intros _. split; [done|]. split; [|done]. intros _ r Hr Hp. rewrite Hd in Hr. injection Hr as <-. cbn in Hp. tauto. }
  destruct (negb _); [intros [= <- <-]; apply Hno; [apply moved_refl|done|done]|].
  destruct (DecodeAuthorRequest body) as [req|ce]; [|intros [= <- <-]; by split; [apply moved_refl|] ].
  cbn [h_Authorize handler bridge_handler]. unfold Bridge_Authorize.
  destruct (AaaAuthor.Authorize _ _ _) as [ [ring dec] err] eqn:E. intros [= <- <-].
  assert (moved (SessionID rh) b (called b (CAuthor (author_request e req) ring) (AaaAuthen.set_events (br_AAA b) ring))) as Hm
    by (by eapply ring_moved).
  destruct err as [err|]; [by apply Hno|]. split; [exact Hm|].
  intros o Ho. destruct (Henc _ _ Ho) as (-> & -> & Hd). split; [done|]. split; [done|]. intros Hl.
  split; [done|]. split; [|done]. intros _ r Hr _. rewrite Hd in Hr. injection Hr as <-.
  exists (br_log b), (now_world b), (author_request e req), ring. split; [apply called_logged|]. split; [done|]. split; [done|].
  rewrite <- Hl, E. done.
Qed.

Lemma dispatchAcct_call b hdr rh body b' out :
  Type_ rh = TypeAcct ->
  dispatchAcct ident b (mkEnv ident (SessionID rh) connKey) hdr rh body = (b', out) -> call_of TypeAcct (SessionID rh) b b' out.
Proof.
  intros Ht. unfold dispatchAcct. set (e := mkEnv ident (SessionID rh) connKey).
  assert (forall r o, encodeAcct rh r = Ok o -> Type_ (og_hdr o) = TypeAcct /\ SessionID (og_hdr o) = SessionID rh
    /\ DecodeAcctReply (og_body o) = Ok r) as Henc.
  { intros r o. unfold encodeAcct. destruct (AcctReply_Encode r) as [bd|] eqn:E; [|done]. intros [= <-].
    split; [exact Ht|]. split; [done|]. by apply AcctReply_Encode_Decode. }
  assert (forall b1 st, moved (SessionID rh) b b1 -> st <> AcctStatusSuccess ->
    call_of TypeAcct (SessionID rh) b b1 (encodeAcct rh (acct_status st))) as Hno.
  { intros b1 st Hm N. split; [done|]. intros o Ho. destruct (Henc _ _ Ho) as (-> & -> & Hd). split; [done|]. split; [done|].
    intros _. split; [done|]. split; [done|]. intros _ r Hr Hp. rewrite Hd in Hr. by injection Hr as <-. }
  destruct (negb _); [intros [= <- <-]; by apply Hno; [apply moved_refl|] |].
  destruct (DecodeAcctRequest body) as [req [ce|] ].
  { destruct (bool_decide _); [intros [= <- <-]; by apply Hno; [apply moved_refl|]|intros [= <- <-]; by split; [apply moved_refl|] ]. }
  cbn [h_Account handler bridge_handler]. unfold Bridge_Account.
  destruct (record_call _ _ _ _ _ _) as [s r] eqn:E. intros [= <- <-].
  assert (moved (SessionID rh) b (called b (CAcct (acct_record e req) (AaaAccounting.sv_events s))
            (AaaAuthen.set_events (br_AAA b) (AaaAccounting.sv_events s)))) as Hm by (by eapply ring_moved).
  destruct r as [id|ae]; [|by apply Hno]. split; [exact Hm|].
  intros o Ho. destruct (Henc _ _ Ho) as (-> & -> & Hd). split; [done|]. split; [done|]. intros Hl.
  split; [done|]. split; [done|]. intros _ r Hr _.
  exists (br_log b), (now_world b), (acct_record e req), (AaaAccounting.sv_events s). split; [apply called_logged|]. split; [done|]. split; [done|].
  cbn [called br_radiusSessions]. rewrite <- Hl, E. done.
Qed.

(** ** The connection *)

(** Another connection, or the rest of the program, calls the service. *)
Definition other_calls (b b' : bridge) : Prop :=
  exists c s, (forall sid, AaaAuthen.op_key (call_op c) <> Some (connKey, sid))
    /\ s = fst (exec (br_AAA b) (cw_authen (now_world b)) (call_op c)) /\ b' = called b c s.

Lemma dispatch_call seq b hdr body seq' b' out :
  dispatch ident connKey seq b hdr body = (seq', b', out) ->
  (b' = b /\ exists e, out = Err e) \/ (SessionID hdr = sq_sessionID seq /\ exists typ, call_of typ (SessionID hdr) b b' out).
Proof.
  intros [Hn|(Hs & rh & Ht & Hi & Hd)]%dispatch_parts; [by left|]. right. split; [done|]. cbv zeta in Hd. rewrite <- Hi in Hd |- *.
  destruct Hd as [ [T D]|[ [T D]|[T D] ] ]; eexists; [eapply dispatchAuthen_call|eapply dispatchAuthor_call|eapply dispatchAcct_call]; try exact D; congruence.
Qed.

Lemma error_answered b req h body : error_packet req = Some (h, body) -> answered b (Type_ h) (SessionID h) body.
Proof.
  unfold error_packet. destruct (negb (KnownType req)); [done|]. destruct (match NextSeq _ with Ok n => _ | Err _ => _ end) as [n|]; [|done].
  cbn [mbind option_bind]. intros [= <- <-]. cbn [Type_ SessionID]. unfold answered, error_body.
  split; [|split]; intros -> r Hr Hs; exfalso; vm_compute in Hr; injection Hr as <-; vm_compute in Hs; [discriminate Hs|by destruct Hs|discriminate Hs].
Qed.
Lemma unknown_answered b h : KnownType h = false -> answered b (Type_ h) (SessionID h) [].
Proof. intros Hk. unfold answered. split; [|split]; intros Ht; exfalso; unfold KnownType in Hk; rewrite Ht in Hk; discriminate Hk. Qed.

Lemma bridge_says (b : bridge) lim (c : conn bridge) :
  lived b -> rtc (sys_step ident connKey lim other_calls) (newConn b) c ->
  lived (cn_hs c) /\ forall h body, (h, body) ∈ cn_out c -> answered (cn_hs c) (Type_ h) (SessionID h) body.
Proof.
  intros Hl Hr. destruct (sys_says ident connKey lim other_calls lived answered) with (hs := b) (c := c) as [Hi Ho _].
  - intros b1 e Hl1. split; [by apply called_lived|]. intros t i body. apply bridge_answered_mono, called_extends.
  - intros b1 b2 (cl & s & _ & Hs & ->) Hl1. split; [by apply called_lived|]. intros t i body. apply bridge_answered_mono, called_extends.
  - intros seq b1 hdr body seq' b2 out D Hl1. destruct (dispatch_call _ _ _ _ _ _ _ D) as [ [-> [e ->] ]|(_ & typ & (He & Hm & _) & Ho)].
    { split; [done|]. split; [done|]. done. }
    split; [by apply Hm|]. split; [intros t i bd; by apply bridge_answered_mono|]. intros o E. destruct (Ho o E) as (-> & -> & Ha). by apply Ha.
  - intros b1 req h body. apply error_answered.
  - intros b1 h. apply unknown_answered.
  - exact Hl.
  - exact Hr.
  - split; [exact Hi|]. intros h body Hin. rewrite List.Forall_forall in Ho. by apply (Ho (h, body)), list_elem_of_In.
Qed.

(** The conversations of this connection. *)
Definition converses (b : bridge) (sid : Z) : Prop := is_Some (AaaAuthen.getSession (br_AAA b) (connKey, sid)).

Lemma bridge_holds (b : bridge) lim (c : conn bridge) :
  1 <= MaxSessionsPerConnection lim -> (forall sid, ~ converses b sid) ->
  rtc (sys_step ident connKey lim other_calls) (newConn b) c -> holding converses None c.
Proof.
  intros Hlim H0 Hr. apply (sys_holds ident connKey lim other_calls converses) with (hs := b); try done.
  - intros b1 e j. unfold converses. cbn [h_EndSession handler bridge_handler Bridge_EndSession aborted called br_AAA].
    assert (AaaAuthen.AbortAuthentication (br_AAA b1) (cw_authen (now_world b1)) (abort_request e)
      = fst (exec (br_AAA b1) (cw_authen (now_world b1)) (AaaAuthen.OpAbort (abort_request e)))) as -> by done.
    intros Hj. destruct (decide ((env_ConnKey e, env_SessionID e) = (connKey, j))) as [Heq|Hne].
    + exfalso. injection Heq as E1 E2. cbn [AaaAuthen.exec fst] in Hj. unfold AaaAuthen.AbortAuthentication in Hj. cbn in Hj.
      rewrite E1, E2 in Hj. destruct (AaaAuthen.getSession (br_AAA b1) (connKey, j)) as [se|] eqn:Eg; [|by rewrite Eg in Hj; destruct Hj].
      unfold AaaAuthen.recordAuth, AaaAuthen.getSession in Hj. rewrite AaaAuthen.record_sessions in Hj.
      pose proof (AaaAuthen.drop_session (br_AAA b1) (connKey, j) (connKey, j)) as Hd. rewrite decide_True in Hd by done.
      unfold AaaAuthen.getSession in Hd. rewrite Hd in Hj. by destruct Hj.
    + rewrite AaaAuthen.exec_frame in Hj by (cbn; congruence). split; [done|]. intros E1 ->. by rewrite E1 in Hne.
  - intros b1 b2 j (cl & s & Hk & -> & ->). unfold converses. cbn [called br_AAA]. by rewrite AaaAuthen.exec_frame.
  - intros seq b1 hdr body seq' b2 out D j Hj. destruct (dispatch_call _ _ _ _ _ _ _ D) as [ [-> _]|(Hs & typ & (_ & _ & Hf) & _)]; [by left|].
    destruct (decide (j = SessionID hdr)) as [->|Hne]; [by right|]. left. unfold converses in *. rewrite Hf in Hj; [done|congruence].
Qed.

(** C1. What goes out on the wire is what the service decided.  From an empty
    conversation table, whatever the peer sends, however the goroutines of the
    connection interleave, and whatever other connections and the rest of the
    program do to the service in between: a PASS that the connection writes
    answers an authentication call of that session which [rests_on_credential]
    and offers the ring one event, "pass"; a PASS_ADD or PASS_REPL carries the status and the arguments that the
    published policy gives to a request of that session and client; and an
    accounting SUCCESS acknowledges a record of that session and client that
    the event ring has stored. *)
Theorem wire_answers_justified sessions worlds lim (c : conn bridge) h body :
  AaaAuthen.sa_sessions s0 = ∅ ->
  rtc (sys_step ident connKey lim other_calls) (newConn (mkBridge s0 sessions worlds [])) c ->
  (h, body) ∈ cn_out c ->
  (Type_ h = TypeAuthen -> forall r, DecodeAuthenReply body = Ok r -> ar_Status r = AuthenStatusPass ->
    exists pre w op, logged (cn_hs c) pre w (CAuthen op) /\ AaaAuthen.op_key op = Some (connKey, SessionID h)
      /\ AaaAuthen.rests_on_credential IDKey md4 precis s0 (history pre) (cw_authen w) op
      /\ AaaAuthen.audited (AaaAuthen.sa_events (run (history pre))) (AaaAuthen.sa_events (fst (exec (run (history pre)) (cw_authen w) op)))
           (AaaAuthen.w_ring_now (cw_authen w)) AuthenStatusPass)
  /\ (Type_ h = TypeAuthor -> forall r, DecodeAuthorResponse body = Ok r -> ap_Status r = AuthorStatusPassAdd \/ ap_Status r = AuthorStatusPassRepl ->
    exists pre w req ring e, logged (cn_hs c) pre w (CAuthor req ring)
      /\ AaaAuthor.zr_SessionID req = SessionID h /\ AaaAuthor.zr_ClientID req = text_of (id_ClientID ident)
      /\ AaaAuthor.engine (AaaAuthor.zw_policies (cw_author w)) = Ok e
      /\ let res := Policy.Authorize e (AaaAuthor.zw_now (cw_author w)) (AaaAuthor.effective req) in
         ap_Status r = author_wire (Policy.res_Status res) /\ ap_Args r = avToArgs (Policy.res_Arguments res))
  /\ (Type_ h = TypeAcct -> forall r, DecodeAcctReply body = Ok r -> cr_Status r = AcctStatusSuccess ->
    exists pre w rec ring id, logged (cn_hs c) pre w (CAcct rec ring)
      /\ AaaAccounting.ar_SessionID rec = SessionID h /\ AaaAccounting.ar_ClientID rec = text_of (id_ClientID ident)
      /\ snd (record_call ParseIP IANALocation (run (history pre)) (br_radiusSessions (cn_hs c)) w rec) = Ok id).
Proof.
  intros Hs0 Hr Hin. destruct (bridge_says _ lim c (eq_refl : lived (mkBridge s0 sessions worlds [])) Hr) as [_ Ha].
  destruct (Ha h body Hin) as (H1 & H2 & H3). split; [|split].
  - intros Ht r Hd Hp. destruct (H1 Ht r Hd Hp) as (pre & w & op & Hl & Hk & Hx). exists pre, w, op. split; [exact Hl|]. split; [exact Hk|].
    destruct (exec (run (history pre)) (cw_authen w) op) as [s' st] eqn:E. cbn [snd] in Hx. subst st.
    destruct (AaaAuthen.pass_rests IDKey md4 precis s0 (history pre) (cw_authen w) op s' Hs0 E). by split.
  - intros Ht r Hd Hp. destruct (H2 Ht r Hd Hp) as (pre & w & req & ring & Hl & Hi & Hc & Hst & Har).
    destruct (AaaAuthor.Authorize_engine (AaaAuthen.sa_events (run (history pre))) (cw_author w) req) as (e & He & _ & _ & Es & Ea).
    { intros E. rewrite E in Hst. rewrite Hst in Hp. destruct Hp as [Hp|Hp]; discriminate Hp. }
    exists pre, w, req, ring, e. split; [exact Hl|]. split; [exact Hi|]. split; [exact Hc|]. split; [exact He|].
    cbv zeta. rewrite Hst, Har, Es, Ea. done.
  - intros Ht r Hd Hp. destruct (H3 Ht r Hd Hp) as (pre & w & rec & ring & Hl & Hi & Hc & Ho).
    destruct (snd (record_call _ _ _ _ _ _)) as [id|ae] eqn:E; [|discriminate Ho].
    exists pre, w, rec, ring, id. by rewrite E.
Qed.

(** No conversation outlives its session.  If the service holds none for
    this connection when it opens, then in every state of the connection each
    conversation the service holds under its key belongs to a session id whose
    goroutine is still running, and so will still end it; when all goroutines
    have returned the service holds none. *)
Lemma conversation_has_session (b : bridge) limits (c : conn bridge) sid :
  (forall sid', ~ converses b sid') ->
  rtc (sys_step ident connKey (normalized limits) other_calls) (newConn b) c ->
  converses (cn_hs c) sid ->
  exists r s, cn_heap c !! r = Some s /\ se_id s = sid /\ running (se_task s) = true.
Proof.
  intros H0 Hr Hc. destruct (bridge_holds b (normalized limits) c (normalized_sessions limits) H0 Hr sid Hc) as (r & s & H1 & H2 & [H3|H3] );
    [by exists r, s|discriminate H3].
Qed.
End Facts.

(** ** A concrete connection *)

Module Sample.
Import AaaAuthen.
Definition bob : AuthUser :=
  mkAuthUser "bob" true [] None None false false (memory_ref "login") (memory_ref "") (memory_ref "").
Definition snapshot : AuthSnapshot :=
  mkAuthSnapshot 7 None {[ "bob" := bob ]} {[ "router" := mkAuthClient true [] ]} {[ "login" := Credentials.sample_phc ]}.
Definition world : CallWorld :=
  mkCallWorld (mkWorld false Credentials.live_call (Some snapshot) (Some snapshot) None Credentials.sample_entropy 99 5)
    (AaaAuthor.mkAuthorWorld false None None None 0 0) None false 5.
Definition service : AuthService (list (string * bytes)) := set_sessions sample_auth ∅.
Definition ident : Identity := mkIdentity (octets_of "router") TransportTLS [] 7.
Definition limits : Limits := mkLimits 0 0 0 0 0 0 0 true 0 0.
(** A PAP START of bob, whose password is the one of the samples; an ASCII
    login with no name. *)
Definition pap_start : packet :=
  let data := Credentials.hunter2 in
  mkPacket (mkHeader 193 TypeAuthen 1 4 42 (18)) ([1; 1; 2; 1; 3; 0; 0; 7] ++ octets_of "bob" ++ data).
Definition ascii_start : packet := mkPacket (mkHeader 192 TypeAuthen 1 4 43 8) [1; 1; 1; 1; 0; 0; 0; 0].
#[local] Instance handler : Handler (Bridge (list (string * bytes))) :=
  bridge_handler Credentials.IDKey_sample (fun b => b) Credentials.precis_sample (fun _ => true) (fun _ => false).
Definition bridge : Bridge (list (string * bytes)) := mkBridge service None (fun _ => world) [].
Definition opened : conn (Bridge (list (string * bytes))) := newConn bridge.
Definition connection (p : packet) : conn (Bridge (list (string * bytes))) :=
  let go := main_step ident 1 (normalized limits) (RdPacket p) true true in
  go (go (go opened)).

Lemma connection_reachable p :
  rtc (sys_step ident 1 (normalized limits) (other_calls Credentials.IDKey_sample (fun b => b) Credentials.precis_sample 1)) opened (connection p).
Proof. do 3 (eapply rtc_l; [apply sys_conn, step_main|]). apply rtc_refl. Qed.

(** A packet of another type ends session 43, whose id a new START takes; then
    the old goroutine ends the id once more. *)
Definition author_packet : packet := mkPacket (mkHeader 192 TypeAuthor 3 4 43 8) [0; 0; 0; 0; 0; 0; 0; 0].
Definition read (p : packet) (c : conn (Bridge (list (string * bytes)))) : conn (Bridge (list (string * bytes))) :=
  let go := main_step ident 1 (normalized limits) (RdPacket p) true true in go (go (go (go c))).
Definition turn (r : nat) := task_step ident 1 (normalized limits) r false true.
Definition reused : conn (Bridge (list (string * bytes))) :=
  turn 1 (turn 1 (turn 1 (turn 1 (turn 1 (read ascii_start (read author_packet (read ascii_start opened))))))).
End Sample.
#[local] Existing Instance AaaAuthen.sample_publisher.

Lemma wire_answers_justified_witness :
  exists h body r, cn_out (Sample.connection Sample.pap_start) = [(h, body)]
  /\ DecodeAuthenReply body = Ok r /\ ar_Status r = AuthenStatusPass
  /\ exists pre w op, logged (cn_hs (Sample.connection Sample.pap_start)) pre w (CAuthen op)
       /\ AaaAuthen.rests_on_credential Credentials.IDKey_sample (fun b => b) Credentials.precis_sample Sample.service (history pre) (cw_authen w) op.
Proof.
  eexists _, _, _. split; [vm_compute; reflexivity|]. split; [vm_compute; reflexivity|]. split; [reflexivity|].
  edestruct (wire_answers_justified Credentials.IDKey_sample (fun b => b) Credentials.precis_sample (fun _ => true) (fun _ => false)
    Sample.ident 1 Sample.service None (fun _ => Sample.world) (normalized Sample.limits) (Sample.connection Sample.pap_start)) as [H _];
    [reflexivity|apply Sample.connection_reachable|vm_compute; left|].
  destruct (H eq_refl _ ltac:(vm_compute; reflexivity) eq_refl) as (pre & w & op & H1 & _ & H2 & _). exists pre, w, op. split; [exact H1|exact H2].
Defined.

(** The id of an ended session can be taken by a new one while the goroutine of
    the old one has yet to return; when it does, it ends the id, not its own
    conversation, and the new session is left without one. *)
Example stale_exit :
  let holds c := bool_decide (is_Some (AaaAuthen.getSession (br_AAA (cn_hs c)) (1, 43))) in
  map se_id (cn_heap Sample.reused) = [43; 43]
  /\ holds Sample.reused = true /\ holds (Sample.turn 0 Sample.reused) = false
  /\ option_map se_task (cn_heap (Sample.turn 0 Sample.reused) !! 1%nat) = Some TIdle.
Proof. vm_compute. done. Qed.
