(* ===== verification/RadiusAccounting.v ===== *)
(** * RADIUS accounting: the handler

    [internal/radius/server/accounting.go]: what an Accounting-Request is
    checked for, the identity under which the journal knows its event, the
    record given to the AAA service and the reply.  [Accounting.Handle] calls
    the journal, the sampler and the service while other handlers run, so it
    is a program of calls ([prog]) here; [exec] runs it against any answers.
    Dictionary names and octets are as in [RadiusDictionary] and
    [RadiusAttribute]. *)

From stdpp Require Import gmap strings pretty.
From S2P Require Import Prelude Text Md5 Sha256 Policy Events Domain SessionIndex AaaAccounting.
From S2P Require Import RadiusAttribute RadiusDictionary RadiusCodec RadiusCrypto RadiusReply RadiusJournal.

#[local] Open Scope Z_scope.

(** ** Reasons (reasons.go) and the request *)

Definition ReasonUnknownAcctStatus : string := "discard_unknown_acct_status".
Definition ReasonAmbiguousIdentity : string := "ambiguous_identity".
Definition ReasonInternal : string := "internal_error".

(** [Request]: the part [RadiusReply] models and the rest that accounting
    reads.  [Carrier] is a Go string; the interfaces are [env]. *)
Record AcctRequest := mkAcctRequest {
  aq_Request : RadiusReply.Request;
  aq_Carrier : string;
  aq_ClientID : bytes;
  aq_EndpointID : bytes;
  aq_ListenerID : bytes;
  aq_Revision : Z;
  aq_Peer : AddrPort;
  aq_AcceptStatusTypes : list string;
}.

Definition aq_Packet (in_ : AcctRequest) : Packet := Req_Packet (aq_Request in_).
Definition aq_Attributes (in_ : AcctRequest) : RawSet := Attributes (aq_Packet in_).

(** Which of [in.Journal], [in.Sampler] and [a.AAA] are not nil. *)
Record env := mkEnv { en_Journal : bool; en_Sampler : bool; en_AAA : bool }.

(** ** Attribute readers *)

Definition textAttr (attrs : RawSet) (typ : Z) : bytes :=
  match First attrs typ with Some a => if len (Raw_Value a) =? 0 then [] else Raw_Value a | None => [] end.

Definition uint32Val (a : Raw) : option Z :=
  if negb (len (Raw_Value a) =? 4) then None else Some (be_u32_at (Raw_Value a)).

(** [uint64] addition and shift wrap. *)
Definition to_u64 (x : Z) : Z := x mod 18446744073709551616.
Definition foldedOctets (attrs : RawSet) (lo hi : Z) : Z :=
  let n := match First attrs lo with
           | Some a => match uint32Val a with Some v => v | None => 0 end
           | None => 0
           end in
  match First attrs hi with
  | Some a => match uint32Val a with Some v => to_u64 (n + to_u64 (Z.shiftl v 32)) | None => n end
  | None => n
  end.

(** [time.Duration(v) * time.Second], an [int64] of nanoseconds. *)
Definition durationAttr (attrs : RawSet) (typ : Z) : Z :=
  match First attrs typ with
  | Some a => match uint32Val a with Some v => to_i64 (v * 1000000000) | None => 0 end
  | None => 0
  end.

Definition timeAttr (attrs : RawSet) (typ : Z) : option Z :=
  match First attrs typ with
  | Some a => match uint32Val a with Some v => Some (unix_time v) | None => None end
  | None => None
  end.

Definition terminateCauseByNum : list (Z * string) :=
  [(1, "User-Request"); (2, "Lost-Carrier"); (3, "Lost-Service"); (4, "Idle-Timeout"); (5, "Session-Timeout");
   (6, "Admin-Reset"); (7, "Admin-Reboot"); (8, "Port-Error"); (9, "NAS-Error"); (10, "NAS-Request");
   (11, "NAS-Reboot"); (12, "Port-Unneeded"); (13, "Port-Preempted"); (14, "Port-Suspended");
   (15, "Service-Unavailable"); (16, "Callback"); (17, "User-Error"); (18, "Host-Request")]%string.

Definition terminateCauseName (attrs : RawSet) : string :=
  match First attrs TypeAcctTerminateCause with
  | Some a => match uint32Val a with Some v => default "" (switch_code v terminateCauseByNum) | None => "" end
  | None => ""
  end.

Definition acctStatusStart := 1.
Definition acctStatusStop := 2.
Definition acctStatusInterim := 3.
Definition acctStatusOn := 7.
Definition acctStatusOff := 8.

Definition mapAcctStatus (attrs : RawSet) : option string :=
  match AllOf attrs TypeAcctStatusType with
  | [a] =>
    match uint32Val a with
    | Some v => switch_code v [(acctStatusStart, AccountingStart); (acctStatusStop, AccountingStop);
                               (acctStatusInterim, AccountingInterim); (acctStatusOn, AccountingOn);
                               (acctStatusOff, AccountingOff)]
    | None => None
    end
  | _ => None
  end.

Definition statusAllowed (kind : string) (allow : list string) : bool :=
  if negb (AccountingKind_Valid kind) then false
  else if len allow =? 0 then true
  else existsb (fun s => bool_decide (s = kind)) allow.

(** ** The event's identity *)

Definition nasIdentity (attrs : RawSet) : bytes :=
  let ip typ n := match First attrs typ with
                  | Some a => if len (Raw_Value a) =? n then Some (Raw_Value a) else None
                  | None => None
                  end in
  match ip TypeNASIPAddress 4 with
  | Some v => octets_of (Text.cat "ip4:" (IP_String v))
  | None =>
    match ip TypeNASIPv6Address 16 with
    | Some v => octets_of (Text.cat "ip6:" (IP_String v))
    | None =>
      match First attrs TypeNASIdentifier with
      | Some a => if len (Raw_Value a) >? 0 then octets_of "id:" ++ Raw_Value a else []
      | None => []
      end
    end
  end.

Definition writeTyped (attrs : RawSet) (typ : Z) : bytes :=
  match First attrs typ with
  | None => [typ; 0]
  | Some a => [typ; to_u8 (len (Raw_Value a))] ++ Raw_Value a
  end.

Definition interim_types : list Z :=
  [TypeEventTimestamp; TypeAcctSessionTime; TypeAcctInputOctets; TypeAcctInputGigawords; TypeAcctOutputOctets;
   TypeAcctOutputGigawords; TypeAcctInputPackets; TypeAcctOutputPackets].

(** [case attribute.TypeAcctDelayTime, ...: continue] *)
Definition fp_skips (a : Raw) : bool :=
  (Raw_Type a =? TypeAcctDelayTime) || (Raw_Type a =? TypeMessageAuthenticator) || (Raw_Type a =? TypeProxyState).

Definition write_attr (h : bytes) (a : Raw) : bytes :=
  if fp_skips a then h else h ++ [Raw_Type a; to_u8 (len (Raw_Value a))] ++ Raw_Value a.

(** Everything written to the hash. *)
Definition fingerprint_input (kind : string) (attrs : RawSet) : bytes :=
  if bool_decide (kind = AccountingInterim) then fold_left (fun h typ => h ++ writeTyped attrs typ) interim_types []
  else fold_left write_attr attrs [].

Definition eventFingerprint (kind : string) (attrs : RawSet) : bytes := sha256 (fingerprint_input kind attrs).

Definition journal_key (in_ : AcctRequest) (kind : string) : JournalKey :=
  let attrs := aq_Attributes in_ in
  mkJournalKey (aq_EndpointID in_) (octets_of (Addr_String (ap_Addr (aq_Peer in_)))) (ap_Port (aq_Peer in_))
    (textAttr attrs TypeAcctSessionID) (octets_of kind) (nasIdentity attrs) (eventFingerprint kind attrs).

(** ** The record *)

(** [summarizeAttrs]: names in the order of their first occurrence, with
    counts. *)
Definition attr_name (dict : Dictionary) (raw : Raw) : string :=
  let name := Sum_Name (Summarize dict raw) in
  if bool_decide (name = "") then Text.cat "Type-" (FormatUint (Raw_Type raw)) else name.

Definition summarizeAttrs (attrs : RawSet) : list SafeAttributeSummary :=
  if RawSet_Len attrs =? 0 then [] else
  let '(order, counts) :=
    fold_left (fun '(order, counts) raw =>
      let name := attr_name builtin raw in
      let order := match (counts : gmap string Z) !! name with Some _ => order | None => order ++ [name] end in
      (order, <[name := default 0 (counts !! name) + 1]> counts)) attrs ([], ∅) in
  map (fun name => mkSafe name (default 0 (counts !! name))) order.

Definition buildRADIUSRecord (in_ : AcctRequest) (kind : string) (sessionID : bytes) (key : JournalKey)
  : RADIUSAccountingRecord :=
  let attrs := aq_Attributes in_ in
  mkRADIUSRecord
    (mkContext ProtocolRADIUS (if bool_decide (aq_Carrier in_ = "") then CarrierRADIUSUDP else aq_Carrier in_)
       Domain.RoleAccounting (aq_ListenerID in_) (aq_ClientID in_) (aq_EndpointID in_) (aq_Peer in_) (aq_Revision in_))
    kind (textAttr attrs TypeUserName) sessionID (timeAttr attrs TypeEventTimestamp)
    (durationAttr attrs TypeAcctSessionTime)
    (foldedOctets attrs TypeAcctInputOctets TypeAcctInputGigawords)
    (foldedOctets attrs TypeAcctOutputOctets TypeAcctOutputGigawords)
    (terminateCauseName attrs) (summarizeAttrs attrs) (EncodeToString (jk_Fingerprint key))
    (match First attrs TypeNASIPAddress with
     | Some a => if len (Raw_Value a) =? 4 then Some (Raw_Value a) else None | None => None end)
    (textAttr attrs TypeNASIdentifier)
    (match First attrs TypeNASPort with Some a => default 0 (uint32Val a) | None => 0 end)
    (match First attrs TypeClass with Some a => if len (Raw_Value a) >? 0 then Raw_Value a else [] | None => [] end).

(** ** Integrity and the reply *)

Definition CheckAccountingIntegrity (secret declared : bytes) (pkt : Packet) : string :=
  if negb (is_ok (ValidateAccountingRequestAuthenticator secret declared)) then ReasonInvalidAcctAuth else
  match AllOf (Attributes pkt) TypeMessageAuthenticator with
  | [] => ""
  | [_] => if negb (is_ok (ValidateMessageAuthenticator secret declared)) then ReasonInvalidMA else ""
  | _ => ReasonInvalidMA
  end.

(** The result, and [JournalSaturated]. *)
Definition accountingReply (in_ : AcctRequest) (reason : string) (saturated : bool) : Result * bool :=
  let p := aq_Packet in_ in
  match SignResponse (Secret (aq_Request in_)) CodeAccountingResponse (Identifier p) (Authenticator p)
          (CopyProxyState (Attributes p)) with
  | Err _ => (ActionDiscard ReasonMalformedHeader, false)
  | Ok wire => (ActionReply reason wire, saturated)
  end.

(** ** The handler *)

(** [(owner, saturated, err)] of [Journal.Begin]. *)
Inductive begin_answer := BeginError | BeginDuplicate | BeginOwned (saturated : bool).

(** [(res, err)] of [RecordRADIUSAccounting]: [None] is an error, otherwise
    [(res.OK, res.EventID)]. *)
Abbreviation record_answer := (option (bool * Z)).

Inductive prog :=
| Return (r : Result) (saturated : bool)
| CallBegin (key : JournalKey) (k : begin_answer -> prog)
| CallAllow (k : bool -> prog)
| CallRecord (rec : RADIUSAccountingRecord) (k : record_answer -> prog)
| CallFinish (key : JournalKey) (accepted : bool) (k : prog).

Definition Return' (r : Result * bool) : prog := Return (fst r) (snd r).

(** [return r], with the deferred [Finish] when the key is reserved. *)
Definition leave (reserved : option JournalKey) (accepted : bool) (r : Result * bool) : prog :=
  match reserved with
  | Some key => CallFinish key accepted (Return' r)
  | None => Return' r
  end.

Definition recorded_ok (res : record_answer) : bool :=
  match res with Some (ok, id) => ok && negb (id =? 0) | None => false end.

(** From [ambiguous := ...] on. *)
Definition Handle_sink (e : env) (in_ : AcctRequest) (kind : string) (reserved : option JournalKey) (saturated : bool) : prog :=
  let attrs := aq_Attributes in_ in
  let sessionID := textAttr attrs TypeAcctSessionID in
  let key := journal_key in_ kind in
  let dropped := leave reserved true (accountingReply in_ ReasonAmbiguousIdentity false) in
  let record :=
    if negb (en_AAA e) then leave reserved false (ActionDiscard ReasonInternal, false)
    else CallRecord (buildRADIUSRecord in_ kind sessionID key) (fun res =>
      if recorded_ok res then leave reserved true (accountingReply in_ ReasonOK saturated)
      else leave reserved false (ActionDiscard ReasonInternal, false)) in
  if (len sessionID =? 0) && (len (nasIdentity attrs) =? 0) then
    if negb (en_Sampler e) then dropped else CallAllow (fun ok => if ok then record else dropped)
  else record.

Definition Handle (e : env) (cancelled : bool) (in_ : AcctRequest) : prog :=
  let discard reason := Return (ActionDiscard reason) false in
  let r := aq_Request in_ in
  if cancelled then discard ReasonOverload else
  match Role r with
  | RoleAccounting =>
    if negb (Code (Req_Packet r) =? CodeAccountingRequest) then discard ReasonInvalidCode else
    let reason := CheckAccountingIntegrity (Secret r) (Declared r) (Req_Packet r) in
    if negb (bool_decide (reason = "")) then discard reason else
    match mapAcctStatus (aq_Attributes in_) with
    | None => discard ReasonUnknownAcctStatus
    | Some kind =>
      if negb (statusAllowed kind (aq_AcceptStatusTypes in_)) then discard ReasonUnknownAcctStatus else
      let key := journal_key in_ kind in
      if negb (en_Journal e) then Handle_sink e in_ kind None false
      else CallBegin key (fun answer =>
        match answer with
        | BeginError => discard ReasonOverload
        | BeginDuplicate => Return' (accountingReply in_ ReasonOK false)
        | BeginOwned saturated => Handle_sink e in_ kind (if saturated then None else Some key) saturated
        end)
    end
  | _ => discard ReasonInvalidCode
  end.

(** ** Runs of the handler alone *)

Inductive effect :=
| EBegin (key : JournalKey) (a : begin_answer)
| EAllow (ok : bool)
| ERecord (rec : RADIUSAccountingRecord) (a : record_answer)
| EFinish (key : JournalKey) (accepted : bool).

(** A complete run: the calls in order with their answers, and the result. *)
Inductive exec : prog -> list effect -> Result -> bool -> Prop :=
| exec_return r sat : exec (Return r sat) [] r sat
| exec_begin key k a tr r sat : exec (k a) tr r sat -> exec (CallBegin key k) (EBegin key a :: tr) r sat
| exec_allow k ok tr r sat : exec (k ok) tr r sat -> exec (CallAllow k) (EAllow ok :: tr) r sat
| exec_record rec k a tr r sat : exec (k a) tr r sat -> exec (CallRecord rec k) (ERecord rec a :: tr) r sat
| exec_finish key acc k tr r sat : exec k tr r sat -> exec (CallFinish key acc k) (EFinish key acc :: tr) r sat.

Ltac exec_inv :=
  repeat match goal with
  | H : exec (Return _ _) _ _ _ |- _ => inversion H; clear H; subst
  | H : exec (CallBegin _ _) _ _ _ |- _ => inversion H; clear H; subst
  | H : exec (CallAllow _) _ _ _ |- _ => inversion H; clear H; subst
  | H : exec (CallRecord _ _) _ _ _ |- _ => inversion H; clear H; subst
  | H : exec (CallFinish _ _ _) _ _ _ |- _ => inversion H; clear H; subst
  end.

(** The checks before the first call. *)
Definition admitted (cancelled : bool) (in_ : AcctRequest) (kind : string) : Prop :=
  let r := aq_Request in_ in
  cancelled = false /\ Role r = RoleAccounting /\ Code (Req_Packet r) = CodeAccountingRequest
  /\ CheckAccountingIntegrity (Secret r) (Declared r) (Req_Packet r) = ""
  /\ mapAcctStatus (aq_Attributes in_) = Some kind /\ statusAllowed kind (aq_AcceptStatusTypes in_) = true.

Definition anonymous (in_ : AcctRequest) : Prop :=
  textAttr (aq_Attributes in_) TypeAcctSessionID = [] /\ nasIdentity (aq_Attributes in_) = [].

(** What follows the journal's answer: the sampler, the sink, and whether the
    event counts as accepted. *)
Inductive sink_run (e : env) (in_ : AcctRequest) (kind : string) (saturated : bool)
  : list effect -> bool -> Result * bool -> Prop :=
| sink_no_sampler :
    anonymous in_ -> en_Sampler e = false ->
    sink_run e in_ kind saturated [] true (accountingReply in_ ReasonAmbiguousIdentity false)
| sink_sampled_out :
    anonymous in_ -> en_Sampler e = true ->
    sink_run e in_ kind saturated [EAllow false] true (accountingReply in_ ReasonAmbiguousIdentity false)
| sink_no_service pre :
    (pre = [] /\ ~ anonymous in_ \/ pre = [EAllow true] /\ anonymous in_ /\ en_Sampler e = true) -> en_AAA e = false ->
    sink_run e in_ kind saturated pre false (ActionDiscard ReasonInternal, false)
| sink_recorded pre a :
    (pre = [] /\ ~ anonymous in_ \/ pre = [EAllow true] /\ anonymous in_ /\ en_Sampler e = true) -> en_AAA e = true ->
    sink_run e in_ kind saturated
      (pre ++ [ERecord (buildRADIUSRecord in_ kind (textAttr (aq_Attributes in_) TypeAcctSessionID) (journal_key in_ kind)) a])
      (recorded_ok a)
      (if recorded_ok a then accountingReply in_ ReasonOK saturated else (ActionDiscard ReasonInternal, false)).

Lemma leave_exec reserved acc r tr res sat :
  exec (leave reserved acc r) tr res sat ->
  tr = match reserved with Some key => [EFinish key acc] | None => [] end /\ r = (res, sat).
Proof. destruct reserved, r; simpl; intros H; unfold Return' in *; exec_inv; done. Qed.

Lemma Handle_sink_exec e in_ kind reserved saturated tr r sat :
  exec (Handle_sink e in_ kind reserved saturated) tr r sat ->
  exists mid acc, sink_run e in_ kind saturated mid acc (r, sat)
    /\ tr = mid ++ match reserved with Some key => [EFinish key acc] | None => [] end.
Proof.
  unfold Handle_sink. set (record := if negb (en_AAA e) then _ else _). intros H.
  assert (forall tr pre, exec record tr r sat ->
    (pre = [] /\ ~ anonymous in_ \/ pre = [EAllow true] /\ anonymous in_ /\ en_Sampler e = true) ->
    exists mid acc, sink_run e in_ kind saturated mid acc (r, sat)
      /\ pre ++ tr = mid ++ match reserved with Some key => [EFinish key acc] | None => [] end) as Hrec.
  { clear tr H. intros tr pre H Hpre. unfold record in H. destruct (en_AAA e) eqn:Ea; cbn [negb] in H.
    - exec_inv. match goal with H : exec _ ?t _ _ |- _ => rename H into Hk; rename t into t' end.
      eexists (pre ++ [ERecord _ a]), (recorded_ok a).
      destruct (recorded_ok a) eqn:Er; apply leave_exec in Hk as [-> Hr]; rewrite <- app_assoc; (split; [|done]).
      + pose proof (sink_recorded e in_ kind saturated pre a Hpre Ea) as Hs. rewrite Er, Hr in Hs. exact Hs.
      + pose proof (sink_recorded e in_ kind saturated pre a Hpre Ea) as Hs. rewrite Er, Hr in Hs. exact Hs.
    - apply leave_exec in H as [-> Hr]. exists pre, false. split; [|done]. rewrite <- Hr. by apply sink_no_service. }
  destruct ((_ =? 0) && (_ =? 0)) eqn:Ean.
  - apply andb_true_iff in Ean as [H1 H2]. apply Z.eqb_eq, len_zero in H1. apply Z.eqb_eq, len_zero in H2.
    assert (anonymous in_) as Han by done. destruct (en_Sampler e) eqn:Es; cbn [negb] in H.
    + exec_inv. destruct ok.
      * destruct (Hrec tr0 [EAllow true]) as (mid & acc & ? & ?); [done|by right|]. by exists mid, acc.
      * match goal with H : exec _ _ _ _ |- _ => apply leave_exec in H as [-> Hr] end.
        exists [EAllow false], true. split; [|done]. rewrite <- Hr. by apply sink_sampled_out.
    + apply leave_exec in H as [-> Hr]. exists [], true. split; [|done]. rewrite <- Hr. by apply sink_no_sampler.
  - destruct (Hrec tr []) as (mid & acc & ? & ?); [done| |by exists mid, acc]. left. split; [done|].
    intros [H1 H2]. by rewrite H1, H2 in Ean.
Qed.

(** Every run of the handler. *)
Inductive handle_run (e : env) (cancelled : bool) (in_ : AcctRequest) : list effect -> Result * bool -> Prop :=
| run_refused reason :
    (forall kind, ~ admitted cancelled in_ kind) ->
    handle_run e cancelled in_ [] (ActionDiscard reason, false)
| run_no_journal kind mid acc res :
    admitted cancelled in_ kind -> en_Journal e = false -> sink_run e in_ kind false mid acc res ->
    handle_run e cancelled in_ mid res
| run_error kind :
    admitted cancelled in_ kind -> en_Journal e = true ->
    handle_run e cancelled in_ [EBegin (journal_key in_ kind) BeginError] (ActionDiscard ReasonOverload, false)
| run_duplicate kind :
    admitted cancelled in_ kind -> en_Journal e = true ->
    handle_run e cancelled in_ [EBegin (journal_key in_ kind) BeginDuplicate] (accountingReply in_ ReasonOK false)
| run_saturated kind mid acc res :
    admitted cancelled in_ kind -> en_Journal e = true -> sink_run e in_ kind true mid acc res ->
    handle_run e cancelled in_ (EBegin (journal_key in_ kind) (BeginOwned true) :: mid) res
| run_owned kind mid acc res :
    admitted cancelled in_ kind -> en_Journal e = true -> sink_run e in_ kind false mid acc res ->
    handle_run e cancelled in_
      (EBegin (journal_key in_ kind) (BeginOwned false) :: mid ++ [EFinish (journal_key in_ kind) acc]) res.

Lemma Handle_exec e cancelled in_ tr r sat :
  exec (Handle e cancelled in_) tr r sat -> handle_run e cancelled in_ tr (r, sat).
Proof.
  unfold Handle. intros H.
  destruct cancelled; [exec_inv; apply run_refused; intros kind (? & _); done|].
  destruct (Role (aq_Request in_)) eqn:Hrole; try (exec_inv; apply run_refused; intros kind (_ & ? & _); congruence).
  destruct (Z.eqb_spec (Code (Req_Packet (aq_Request in_))) CodeAccountingRequest) as [Hc|Hc]; cbn [negb] in H;
    [|exec_inv; apply run_refused; intros kind (_ & _ & ? & _); congruence].
  case_bool_decide as Hi; cbn [negb] in H; [|exec_inv; apply run_refused; intros kind (_ & _ & _ & ? & _); congruence].
  destruct (mapAcctStatus (aq_Attributes in_)) as [kind|] eqn:Hk;
    [|exec_inv; apply run_refused; intros kind (_ & _ & _ & _ & ? & _); congruence].
  destruct (statusAllowed kind (aq_AcceptStatusTypes in_)) eqn:Hs; cbn [negb] in H;
    [|exec_inv; apply run_refused; intros kind' (_ & _ & _ & _ & ? & ?); congruence].
  assert (admitted false in_ kind) as Ha by (by split_and!).
  destruct (en_Journal e) eqn:Hj; cbn [negb] in H.
  - exec_inv. destruct a as [| |[|] ].
    + exec_inv. by apply run_error.
    + destruct (accountingReply in_ ReasonOK false) as [r' s'] eqn:Er. unfold Return' in *. exec_inv.
      rewrite <- Er. by apply run_duplicate.
    + match goal with H : exec _ _ _ _ |- _ => apply Handle_sink_exec in H as (mid & acc & Hm & ->) end.
      rewrite app_nil_r. by eapply run_saturated.
    + match goal with H : exec _ _ _ _ |- _ => apply Handle_sink_exec in H as (mid & acc & Hm & ->) end.
      by eapply run_owned.
  - apply Handle_sink_exec in H as (mid & acc & Hm & ->). rewrite app_nil_r. by eapply run_no_journal.
Qed.

Definition is_record (ef : effect) : bool := match ef with ERecord _ _ => true | _ => false end.
Definition records (tr : list effect) : list effect := filter (fun ef => is_record ef = true) tr.

(** The record was stored, or the event is anonymous and not sampled. *)
Definition stored (in_ : AcctRequest) (kind : string) (tr : list effect) : Prop :=
  exists id, id <> 0
  /\ records tr = [ERecord (buildRADIUSRecord in_ kind (textAttr (aq_Attributes in_) TypeAcctSessionID) (journal_key in_ kind)) (Some (true, id))].
Definition dropped (in_ : AcctRequest) (tr : list effect) : Prop := anonymous in_ /\ records tr = [].

Lemma accountingReply_reply in_ reason sat reason' wire sat' :
  accountingReply in_ reason sat = (ActionReply reason' wire, sat') ->
  SignResponse (Secret (aq_Request in_)) CodeAccountingResponse (Identifier (aq_Packet in_))
    (Authenticator (aq_Packet in_)) (CopyProxyState (aq_Attributes in_)) = Ok wire.
Proof. unfold accountingReply, aq_Attributes. destruct (SignResponse _ _ _ _ _); [|done]. by intros [= _ -> _]. Qed.

Lemma accountingReply_not_internal in_ reason sat : fst (accountingReply in_ reason sat) <> ActionDiscard ReasonInternal.
Proof. unfold accountingReply. by destruct (SignResponse _ _ _ _ _). Qed.

Lemma records_app a b : records (a ++ b) = records a ++ records b.
Proof. apply list.filter_app. Qed.

(** Only the sampler and the service are called. *)
Definition calls_sink (ef : effect) : bool := match ef with EAllow _ | ERecord _ _ => true | _ => false end.

Lemma sink_run_spec e in_ kind saturated mid acc res :
  sink_run e in_ kind saturated mid acc res ->
  Forall (fun ef => calls_sink ef = true) mid /\ len (records mid) <= 1
  /\ (acc = true <-> stored in_ kind mid \/ dropped in_ mid /\ fst res <> ActionDiscard ReasonInternal)
  /\ (acc = true -> exists reason sat, res = accountingReply in_ reason sat)
  /\ (acc = false -> res = (ActionDiscard ReasonInternal, false)).
Proof.
  intros H. destruct H as [Ha Hs|Ha Hs|pre Hp Ha|pre a Hp Ha].
  - split_and!; [constructor|done| |by intros _; eexists _, _|done]. split; [|done]. intros _. right.
    split; [done|apply accountingReply_not_internal].
  - split_and!; [by repeat constructor|done| |by intros _; eexists _, _|done]. split; [|done]. intros _. right.
    split; [done|apply accountingReply_not_internal].
  - assert (Forall (fun ef => calls_sink ef = true) pre /\ records pre = []) as [Hf Hr].
    { destruct Hp as [ [-> _]|[-> _] ]; split; by repeat constructor. }
    rewrite Hr. split_and!; [done|done| |done|done]. split; [done|]. intros [(id & _ & Hx)|[_ Hx] ]; [congruence|done].
  - assert (Forall (fun ef => calls_sink ef = true) pre /\ records pre = []) as [Hf Hr].
    { destruct Hp as [ [-> _]|[-> _] ]; split; by repeat constructor. }
    unfold stored, dropped. rewrite records_app, Hr. cbn.
    split_and!; [apply Forall_app_2; [done|by repeat constructor]|done| |by intros ->; eexists _, _|by intros ->]. split.
    + intros Hok. left. destruct a as [ [ok id]|]; [|done]. cbn in Hok. apply andb_true_iff in Hok as [-> Hid].
      exists id. split; [|done]. by intros ->.
    + intros [(id & Hid & [= ->])|[ [_ Hx] _] ]; [|done]. cbn. by destruct (Z.eqb_spec id 0).
Qed.

Lemma sink_no_begin mid key a : Forall (fun ef => calls_sink ef = true) mid -> EBegin key a ∉ mid.
Proof. rewrite list.Forall_forall. intros H Hin. by specialize (H _ Hin). Qed.
Lemma sink_no_finish mid key a : Forall (fun ef => calls_sink ef = true) mid -> EFinish key a ∉ mid.
Proof. rewrite list.Forall_forall. intros H Hin. by specialize (H _ Hin). Qed.

(** A Start from 192.0.2.1 in session "ab", with its authenticator computed. *)
Definition demo_attrs : RawSet :=
  [mkRaw TypeAcctStatusType [0; 0; 0; 1]; mkRaw TypeAcctSessionID [97; 98]; mkRaw TypeNASIPAddress [192; 0; 2; 1]].
Definition demo_declared : bytes :=
  let body := tlvs demo_attrs in
  [4; 7; 0; 20 + len body] ++ md5 ([4; 7; 0; 20 + len body] ++ make_bytes 16 ++ body ++ [115]) ++ body.
Definition demo_packet : Packet := mkPacket 4 7 (slice demo_declared 4 20) demo_attrs.
Definition demo_in : AcctRequest :=
  mkAcctRequest (RadiusReply.mkRequest RoleAccounting demo_packet demo_declared [115] false false)
    "" [99] [101] [108] 3 (mkAddrPort (Some [192; 0; 2; 1]) 1813) [].
Definition demo_env : env := mkEnv true true true.
Definition demo_record : RADIUSAccountingRecord :=
  buildRADIUSRecord demo_in AccountingStart [97; 98] (journal_key demo_in AccountingStart).

(** ** The event's identity *)

Definition kept (attrs : list Raw) : list Raw := filter (fun a : Raw => fp_skips a = false) attrs.
Definition typed_value (attrs : RawSet) (typ : Z) : bytes :=
  match First attrs typ with Some a => Raw_Value a | None => [] end.

(** A type and a value, framed by the value's length. *)
Definition framed (typ : Z) (v : bytes) : bytes := [typ; to_u8 (len v)] ++ v.

Lemma framed_inj t v v' rest rest' :
  len v < 256 -> len v' < 256 -> framed t v ++ rest = framed t v' ++ rest' -> v = v' /\ rest = rest'.
Proof.
  unfold framed, to_u8. intros Hv Hv' H. injection H as Hl H. pose proof (len_nonneg v). pose proof (len_nonneg v').
  rewrite !Z.mod_small in Hl by lia. apply app_inj_1 in H; [done|]. unfold len in Hl. lia.
Qed.

Lemma writeTyped_framed attrs typ : writeTyped attrs typ = framed typ (typed_value attrs typ).
Proof. unfold writeTyped, typed_value. by destruct (First attrs typ). Qed.

Lemma First_in s t a : First s t = Some a -> a ∈ s /\ Raw_Type a = t.
Proof. rewrite First_AllOf. intros H%head_Some_elem_of. by apply elem_of_AllOf in H. Qed.

Lemma typed_value_short attrs typ : Forall Raw_ok attrs -> len (typed_value attrs typ) < 256.
Proof.
  intros Hok. unfold typed_value. destruct (First attrs typ) as [a|] eqn:Ha; [|done].
  apply First_in in Ha as [Hin _]. rewrite list.Forall_forall in Hok. destruct (Hok _ Hin) as (_ & _ & H).
  unfold MaxValueLength in H. lia.
Qed.

Lemma fold_left_concat {A B} (f : A -> list B) l acc :
  fold_left (fun h x => h ++ f x) l acc = acc ++ concat (map f l).
Proof.
  revert acc. induction l as [|x l IH]; intros acc; simpl; [by rewrite app_nil_r|]. by rewrite IH, <- app_assoc.
Qed.

Lemma fingerprint_typed attrs types :
  fold_left (fun h typ => h ++ writeTyped attrs typ) types [] = concat (map (fun t => framed t (typed_value attrs t)) types).
Proof.
  rewrite fold_left_concat. simpl. f_equal. apply map_ext. intros t. apply writeTyped_framed.
Qed.

Lemma fingerprint_kept attrs acc :
  fold_left write_attr attrs acc = acc ++ concat (map (fun a => framed (Raw_Type a) (Raw_Value a)) (kept attrs)).
Proof.
  revert acc. induction attrs as [|a attrs IH]; intros acc; cbn [fold_left]; [by rewrite app_nil_r|].
  rewrite IH. unfold write_attr, kept. rewrite filter_cons. destruct (fp_skips a); [by rewrite decide_False|].
  rewrite decide_True by done. cbn [map concat]. by rewrite <- app_assoc.
Qed.

Lemma typed_inj a b types :
  Forall Raw_ok a -> Forall Raw_ok b ->
  concat (map (fun t => framed t (typed_value a t)) types) = concat (map (fun t => framed t (typed_value b t)) types) ->
  Forall (fun t => typed_value a t = typed_value b t) types.
Proof.
  intros Ha Hb. induction types as [|t types IH]; [constructor|]. cbn [map concat]. intros H.
  apply framed_inj in H as [Hv H]; [|by apply typed_value_short..]. constructor; auto.
Qed.

Lemma framed_set_inj a b :
  Forall Raw_ok a -> Forall Raw_ok b ->
  concat (map (fun r => framed (Raw_Type r) (Raw_Value r)) a) = concat (map (fun r => framed (Raw_Type r) (Raw_Value r)) b) ->
  a = b.
Proof.
  intros Ha. revert b. induction Ha as [|x a (_ & _ & Hx) Ha IH]; intros b Hb; destruct Hb as [|y b (_ & _ & Hy) Hb];
    cbn [map concat]; [done|discriminate|discriminate|]. intros H.
  pose proof H as H'. unfold framed at 1 3 in H'. cbn in H'. injection H' as Ht _ _. rewrite Ht in H.
  unfold MaxValueLength in *. apply framed_inj in H as [Hv H]; [|lia..]. rewrite (IH _ Hb H). f_equal.
  destruct x, y; cbn in *; congruence.
Qed.

(** What the fingerprint of a kind covers. *)
Definition same_content (kind : string) (a b : RawSet) : Prop :=
  if bool_decide (kind = AccountingInterim)
  then textAttr a TypeAcctSessionID = textAttr b TypeAcctSessionID /\ nasIdentity a = nasIdentity b
       /\ Forall (fun t => typed_value a t = typed_value b t) interim_types
  else kept a = kept b.

Definition same_event (in1 : AcctRequest) (kind1 : string) (in2 : AcctRequest) (kind2 : string) : Prop :=
  aq_EndpointID in1 = aq_EndpointID in2
  /\ Addr_String (ap_Addr (aq_Peer in1)) = Addr_String (ap_Addr (aq_Peer in2))
  /\ ap_Port (aq_Peer in1) = ap_Port (aq_Peer in2)
  /\ kind1 = kind2
  /\ same_content kind1 (aq_Attributes in1) (aq_Attributes in2).

Lemma First_kept attrs typ :
  fp_skips (mkRaw typ []) = false -> First (kept attrs) typ = First attrs typ.
Proof.
  intros Ht. induction attrs as [|a attrs IH]; [done|]. unfold kept. rewrite filter_cons. fold (kept attrs). cbn [First].
  destruct (Z.eqb_spec (Raw_Type a) typ) as [He|He].
  - rewrite decide_True; [|by unfold fp_skips in *; simpl in Ht; rewrite He]. simpl. by rewrite He, Z.eqb_refl.
  - case_decide; [|done]. simpl. apply Z.eqb_neq in He. by rewrite He.
Qed.

Lemma same_kept_identity a b :
  kept a = kept b ->
  textAttr a TypeAcctSessionID = textAttr b TypeAcctSessionID /\ nasIdentity a = nasIdentity b.
Proof.
  intros H. unfold textAttr, nasIdentity.
  rewrite <- !(First_kept a) by done. by rewrite <- !(First_kept b), H by done.
Qed.

Lemma kept_ok attrs : Forall Raw_ok attrs -> Forall Raw_ok (kept attrs).
Proof.
  rewrite !list.Forall_forall. intros H a Ha. apply H. unfold kept in Ha. by apply list_elem_of_filter in Ha as [_ ?].
Qed.

Lemma fingerprint_input_content kind a b :
  Forall Raw_ok a -> Forall Raw_ok b ->
  fingerprint_input kind a = fingerprint_input kind b ->
  textAttr a TypeAcctSessionID = textAttr b TypeAcctSessionID -> nasIdentity a = nasIdentity b ->
  same_content kind a b.
Proof.
  intros Ha Hb H Hs Hn. unfold fingerprint_input, same_content in *. case_bool_decide.
  - rewrite !fingerprint_typed in H. split_and!; [done|done|by apply typed_inj].
  - rewrite !fingerprint_kept in H. apply framed_set_inj; [by apply kept_ok..|done].
Qed.

(** The journal's key is the event's identity.  Two requests that agree
    on the endpoint, the source, the status and, outside interim updates, on
    every attribute but delay time, Message-Authenticator and Proxy-State
    (for an interim update on the session, the NAS and the eight counters and
    times) have one key, whatever their Identifiers and Authenticators.
    Requests with one key are such requests, or give a SHA-256 collision. *)
Lemma journal_key_identity in1 kind1 in2 kind2 :
  Forall Raw_ok (aq_Attributes in1) -> Forall Raw_ok (aq_Attributes in2) ->
  (same_event in1 kind1 in2 kind2 -> journal_key in1 kind1 = journal_key in2 kind2)
  /\ (journal_key in1 kind1 = journal_key in2 kind2 ->
      same_event in1 kind1 in2 kind2 \/ exists x y, x <> y /\ sha256 x = sha256 y).
Proof.
  intros H1 H2. split.
  - intros (He & Ha & Hp & <- & Hc). unfold journal_key, eventFingerprint, fingerprint_input, same_content in *.
    case_bool_decide.
    + destruct Hc as (Hs & Hn & Ht). rewrite He, Ha, Hp, Hs, Hn, !fingerprint_typed. do 3 f_equal.
      apply map_ext_in. intros t Hin. rewrite list.Forall_forall in Ht. rewrite (Ht t); [done|by apply list_elem_of_In].
    + destruct (same_kept_identity _ _ Hc) as [Hs Hn]. by rewrite He, Ha, Hp, Hs, Hn, !fingerprint_kept, Hc.
  - intros [= He Ha Hp Hs Hk Hn Hf]. apply octets_of_inj in Ha, Hk. subst kind2.
    destruct (decide (fingerprint_input kind1 (aq_Attributes in1) = fingerprint_input kind1 (aq_Attributes in2))) as [Hi|Hi];
      [left|right; by eexists _, _].
    unfold same_event. split_and!; [done..|]. by apply fingerprint_input_content.
Qed.

(** The same event again under Identifier 8, delayed by two seconds. *)
Definition demo_again : AcctRequest :=
  mkAcctRequest (RadiusReply.mkRequest RoleAccounting
    (mkPacket 4 8 (make_bytes 16) (demo_attrs ++ [mkRaw TypeAcctDelayTime [0; 0; 0; 2]])) [] [115] false false)
    "" [99] [101] [108] 3 (mkAddrPort (Some [192; 0; 2; 1]) 1813) [].

(** ** The record *)

Definition counter (attrs : RawSet) (typ : Z) : Z :=
  match First attrs typ with Some a => default 0 (uint32Val a) | None => 0 end.

Definition occurrences (attrs : list Raw) (name : string) : Z :=
  len (filter (fun a : Raw => attr_name builtin a = name) attrs).

Lemma uint32Val_bound a v : Raw_ok a -> uint32Val a = Some v -> 0 <= v < 4294967296.
Proof.
  intros (_ & Hv & _). unfold uint32Val, be_u32_at. destruct (Raw_Value a) as [|b0 [|b1 [|b2 [|b3 [|b4 rest] ] ] ] ]; try done.
  - intros [= <-]. cbn. forall_hyps. by apply be_u32_range.
  - destruct (Z.eqb_spec (len (b0 :: b1 :: b2 :: b3 :: b4 :: rest)) 4); [len_lia|done].
Qed.

Lemma counter_bound attrs typ : Forall Raw_ok attrs -> 0 <= counter attrs typ < 4294967296.
Proof.
  intros Hok. unfold counter. destruct (First attrs typ) as [a|] eqn:Ha; [|lia].
  destruct (uint32Val a) as [v|] eqn:Hv; simpl; [|lia]. apply First_in in Ha as [Hin _].
  rewrite list.Forall_forall in Hok. by eapply uint32Val_bound; [apply Hok|].
Qed.

Lemma foldedOctets_exact attrs lo hi :
  Forall Raw_ok attrs -> foldedOctets attrs lo hi = counter attrs lo + counter attrs hi * 4294967296.
Proof.
  intros Hok. pose proof (counter_bound attrs lo Hok) as Hl. pose proof (counter_bound attrs hi Hok) as Hh.
  revert Hl Hh. unfold foldedOctets, counter, to_u64.
  destruct (First attrs lo) as [a|], (First attrs hi) as [b|]; try destruct (uint32Val a); try destruct (uint32Val b);
    cbn [default from_option id]; intros; rewrite ?Z.shiftl_mul_pow2 by lia; change (2 ^ 32) with 4294967296; mod_lia.
Qed.

Lemma durationAttr_exact attrs typ : Forall Raw_ok attrs -> durationAttr attrs typ = counter attrs typ * 1000000000.
Proof.
  intros Hok. pose proof (counter_bound attrs typ Hok) as Hb. revert Hb. unfold durationAttr, counter.
  destruct (First attrs typ) as [a|]; [|done]. destruct (uint32Val a) as [v|]; [|done]. cbn [default from_option id].
  intros Hv. unfold to_i64. rewrite Z.mod_small; lia.
Qed.

Definition summary_inv (seen : list Raw) (order : list string) (counts : gmap string Z) : Prop :=
  NoDup order /\ (forall name, name ∈ order <-> is_Some (counts !! name))
  /\ (forall name, default 0 (counts !! name) = occurrences seen name)
  /\ (forall name, name ∈ order <-> name ∈ map (attr_name builtin) seen).

Definition summary_step '(order, counts) (raw : Raw) : list string * gmap string Z :=
  let name := attr_name builtin raw in
  (match counts !! name with Some _ => order | None => order ++ [name] end,
   <[name := default 0 (counts !! name) + 1]> counts).

Lemma occurrences_snoc seen raw name :
  occurrences (seen ++ [raw]) name = occurrences seen name + (if decide (attr_name builtin raw = name) then 1 else 0).
Proof.
  unfold occurrences. rewrite list.filter_app, len_app, filter_cons, filter_nil. by destruct (decide _).
Qed.

Lemma summary_step_inv seen order counts raw :
  summary_inv seen order counts ->
  summary_inv (seen ++ [raw]) (summary_step (order, counts) raw).1 (summary_step (order, counts) raw).2.
Proof.
  intros (Hnd & Hin & Hc & Hs). cbn [summary_step fst snd]. set (name := attr_name builtin raw).
  assert (forall x, x ∈ (match counts !! name with Some _ => order | None => order ++ [name] end) <-> x ∈ order \/ x = name) as Ho.
  { intros x. destruct (counts !! name) eqn:E.
    - split; [tauto|]. intros [?| ->]; [done|]. apply Hin. by rewrite E.
    - rewrite elem_of_app, list_elem_of_singleton. tauto. }
  split_and!.
  - destruct (counts !! name) eqn:E; [done|]. apply list.NoDup_app. split_and!; [done| |apply list.NoDup_singleton].
    intros x Hx Hx'. apply list_elem_of_singleton in Hx' as ->. apply Hin in Hx. rewrite E in Hx. by destruct Hx.
  - intros x. rewrite Ho, Hin. destruct (decide (x = name)) as [->|Hx].
    + rewrite lookup_insert_eq. split; [by eexists|by right].
    + rewrite lookup_insert_ne by done. tauto.
  - intros x. rewrite occurrences_snoc, <- Hc. fold name. destruct (decide (name = x)) as [->|Hx].
    + by rewrite lookup_insert_eq.
    + rewrite lookup_insert_ne by done. lia.
  - intros x. rewrite Ho, Hs, map_app, elem_of_app. cbn [map]. by rewrite list_elem_of_singleton.
Qed.

Lemma summary_fold attrs seen order counts :
  summary_inv seen order counts ->
  summary_inv (seen ++ attrs) (fold_left summary_step attrs (order, counts)).1 (fold_left summary_step attrs (order, counts)).2.
Proof.
  revert seen order counts. induction attrs as [|a attrs IH]; intros seen order counts Hi; [by rewrite app_nil_r|].
  cbn [fold_left]. pose proof (summary_step_inv _ _ _ a Hi) as Hi'. destruct (summary_step (order, counts) a) as [o c].
  change (a :: attrs) with ([a] ++ attrs). rewrite app_assoc. by apply IH.
Qed.

Lemma summarizeAttrs_spec attrs :
  NoDup (map sa_Name (summarizeAttrs attrs))
  /\ (forall name, name ∈ map sa_Name (summarizeAttrs attrs) <-> name ∈ map (attr_name builtin) attrs)
  /\ (forall s, s ∈ summarizeAttrs attrs -> sa_Count s = occurrences attrs (sa_Name s)).
Proof.
  unfold summarizeAttrs. destruct (Z.eqb_spec (RawSet_Len attrs) 0) as [H0|_].
  { apply len_zero in H0 as ->. split_and!; [constructor|done|by intros s ?%elem_of_nil]. }
  assert (summary_inv [] [] ∅) as Hi.
  { split_and!; [constructor|intros name|intros name; by rewrite lookup_empty|done].
    rewrite lookup_empty, elem_of_nil. split; [done|by intros [? [=]] ]. }
  apply (summary_fold attrs) in Hi. revert Hi. change (fun '(order, counts) raw => _) with summary_step.
  destruct (fold_left summary_step attrs ([], ∅)) as [order counts]. cbn [fst snd app]. intros (Hnd & Hin & Hc & Hs).
  assert (forall l, map sa_Name (map (fun name => mkSafe name (default 0 (counts !! name))) l) = l) as Hmap.
  { intros l. rewrite map_map. apply map_id. }
  rewrite Hmap. split_and!; [done|done|]. intros s Hs'. apply list_elem_of_In, in_map_iff in Hs' as (name & <- & _).
  apply Hc.
Qed.

Lemma terminateCause_canonical attrs :
  terminateCauseName attrs <> "" -> canonicalTerminateCause (terminateCauseName attrs) = Some (terminateCauseName attrs).
Proof.
  unfold terminateCauseName. destruct (First attrs _) as [a|]; [|done]. destruct (uint32Val a) as [v|]; [|done].
  destruct (switch_code v terminateCauseByNum) as [n|] eqn:Hn; [|done]. intros _. apply switch_code_in in Hn.
  assert (Forall (fun p => canonicalTerminateCause p.2 = Some p.2) terminateCauseByNum) as H by decide_now.
  rewrite list.Forall_forall in H. apply (H _ Hn).
Qed.

Lemma mapAcctStatus_valid attrs kind : mapAcctStatus attrs = Some kind -> AccountingKind_Valid kind = true.
Proof.
  unfold mapAcctStatus. destruct (AllOf attrs _) as [|a [|] ]; [done| |done]. destruct (uint32Val a) as [v|]; [|done].
  intros Hk%switch_code_in. assert (forall l, Forall (fun p => AccountingKind_Valid p.2 = true) l -> (v, kind) ∈ l ->
    AccountingKind_Valid kind = true) as H.
  { intros l Hl Hin. rewrite list.Forall_forall in Hl. apply (Hl _ Hin). }
  eapply H; [|exact Hk]. decide_now.
Qed.

(** What identifies an event and what is recorded of it.  Two requests
    have one journal key exactly when they are the same event (one endpoint,
    source and status and, outside interim updates, every attribute but delay
    time, Message-Authenticator and Proxy-State; for an interim update the
    session, the NAS and the eight counters and times), or they give a SHA-256
    collision; Identifiers and Authenticators do not count.  Octet counters are the
    exact 64-bit sums of the two attributes and the session time the exact
    number of nanoseconds, for any attributes.  The summary names each kind of
    attribute once, with the number of its occurrences.  The service refuses
    such a record only when its context ended or the summary is longer than
    the configured limit, and stores it unchanged. *)
Definition record_exact in_ kind snap c in2 kind2 : Prop :=
  Forall Raw_ok (aq_Attributes in_) -> mapAcctStatus (aq_Attributes in_) = Some kind -> Forall Raw_ok (aq_Attributes in2) ->
  (same_event in_ kind in2 kind2 -> journal_key in_ kind = journal_key in2 kind2)
  /\ (journal_key in_ kind = journal_key in2 kind2 ->
      same_event in_ kind in2 kind2 \/ exists x y, x <> y /\ sha256 x = sha256 y)
  /\
  let attrs := aq_Attributes in_ in
  let rec := buildRADIUSRecord in_ kind (textAttr attrs TypeAcctSessionID) (journal_key in_ kind) in
  rr_InputOctets rec = counter attrs TypeAcctInputOctets + counter attrs TypeAcctInputGigawords * 2 ^ 32
  /\ rr_OutputOctets rec = counter attrs TypeAcctOutputOctets + counter attrs TypeAcctOutputGigawords * 2 ^ 32
  /\ rr_SessionTime rec = counter attrs TypeAcctSessionTime * 1000000000
  /\ NoDup (map sa_Name (rr_SafeAttributes rec))
  /\ (forall name, name ∈ map sa_Name (rr_SafeAttributes rec) <-> name ∈ map (attr_name builtin) attrs)
  /\ (forall s, s ∈ rr_SafeAttributes rec -> sa_Count s = occurrences attrs (sa_Name s))
  /\ check_radius snap c rec
     = if cl_cancelled c then Err ErrCancelled
       else if checkSafeAttributeBudget snap (rr_SafeAttributes rec) then Ok rec else Err ErrArgumentCount.

Lemma accounting_record in_ kind snap c in2 kind2 : record_exact in_ kind snap c in2 kind2.
Proof.
  unfold record_exact.
  intros Hok Hk H2'. pose proof (journal_key_identity in_ kind in2 kind2 Hok H2') as [J1 J2]. split; [exact J1|]. split; [exact J2|].
  cbn zeta. destruct (summarizeAttrs_spec (aq_Attributes in_)) as (H1 & H2 & H3).
  split; [by apply foldedOctets_exact|]. split; [by apply foldedOctets_exact|]. split; [by apply durationAttr_exact|].
  split; [done|]. split; [done|]. split; [done|].
  unfold check_radius. destruct (cl_cancelled c); [done|]. cbn [buildRADIUSRecord rr_Kind rr_Context rc_Protocol rr_TerminateCause].
  rewrite (mapAcctStatus_valid _ _ Hk). cbn [negb guard rbind].
  change (str_eqb ProtocolRADIUS "" || str_eqb ProtocolRADIUS ProtocolRADIUS) with true. cbn [guard rbind].
  set (cause := terminateCauseName (aq_Attributes in_)). pose proof (terminateCause_canonical (aq_Attributes in_)) as Hc.
  fold cause in Hc. assert (forall rec, rr_TerminateCause rec = cause -> with_TerminateCause rec cause = rec) as Heta.
  { intros [] E. cbn in E. by subst. }
  destruct (str_eqb cause "") eqn:Ec; cbn [rbind].
  - by destruct (checkSafeAttributeBudget _ _).
  - rewrite Hc by (intros E; by rewrite E in Ec). cbn [rbind]. rewrite Heta by done. by destruct (checkSafeAttributeBudget _ _).
Qed.

(** 4 GiB and one octet in; two attributes of one type. *)
Definition demo_counters : AcctRequest :=
  mkAcctRequest (RadiusReply.mkRequest RoleAccounting
    (mkPacket 4 8 (make_bytes 16)
       [mkRaw TypeAcctStatusType [0; 0; 0; 2]; mkRaw TypeAcctInputOctets [0; 0; 0; 1]; mkRaw TypeAcctInputGigawords [0; 0; 0; 1];
        mkRaw TypeClass [1]; mkRaw TypeClass [2]]) [] [115] false false)
    "" [99] [101] [108] 3 (mkAddrPort (Some [192; 0; 2; 1]) 1813) [].

Lemma accounting_record_example :
  journal_key demo_in AccountingStart = journal_key demo_again AccountingStart
  /\ rr_InputOctets (buildRADIUSRecord demo_counters AccountingStop [] (journal_key demo_counters AccountingStop)) = 4294967297
  /\ In (mkSafe "Class" 2) (summarizeAttrs (aq_Attributes demo_counters)).
Proof.
  split; [|split].
  - apply (accounting_record demo_in AccountingStart None (mkCall false 0 0 0 (fun _ => None)) demo_again AccountingStart);
      [decide_now|vm_compute; reflexivity|decide_now|]. repeat split; vm_compute; reflexivity.
  - pose proof (accounting_record demo_counters AccountingStop None (mkCall false 0 0 0 (fun _ => None)) demo_in AccountingStart
      ltac:(decide_now) ltac:(vm_compute; reflexivity) ltac:(decide_now)) as (_ & _ & H & _). exact H.
  - vm_compute. tauto.
Defined.



