(* ===== verification/NetAddr.v ===== *)
(** * IP addresses and networks

    What the client indexes use of Go's [net] and [net/netip]: parsing
    addresses and CIDR networks, [IP.To4], [IP.Equal], [IP.Mask],
    [IPNet.Contains], [IPMask.Size].  A [net.IP] is its octets, nil is [[]].
    [Contains_prefix] says what containment means for a parsed network: the
    leading bits agree. *)

From stdpp Require Import strings.
From S2P Require Import Prelude Text.

#[local] Open Scope Z_scope.

(** ** Parsing (netip.ParseAddr) *)

Definition is_dec (c : Z) : bool := (48 <=? c) && (c <=? 57).

(** [parseIPv4Fields]: [prev] is [s[i-1]], [fields] the fields so far. *)
Fixpoint parseIPv4Fields (s : bytes) (prev : option Z) (val digLen : Z) (fields : bytes) : option bytes :=
  match s with
  | [] => if len fields <? 3 then None else Some (fields ++ [val])
  | c :: s =>
    if is_dec c then
      if (digLen =? 1) && (val =? 0) then None else
      let val := val * 10 + (c - 48) in
      if val >? 255 then None else parseIPv4Fields s (Some c) val (digLen + 1) fields
    else if c =? 46 then
      if bool_decide (prev = None) || bool_decide (s = []) || bool_decide (prev = Some 46) then None
      else if len fields =? 3 then None
      else parseIPv4Fields s (Some c) 0 0 (fields ++ [val])
    else None
  end.

Definition hex_value (c : Z) : option Z :=
  if is_dec c then Some (c - 48)
  else if (97 <=? c) && (c <=? 102) then Some (c - 97 + 10)
  else if (65 <=? c) && (c <=? 70) then Some (c - 65 + 10)
  else None.

(** A group of [parseIPv6]: its value, its length and the rest; none when it
    has more than four digits. *)
Fixpoint hex_field (s : bytes) (acc off : Z) : option (Z * Z * bytes) :=
  match s with
  | [] => Some (acc, off, [])
  | c :: s' =>
    match hex_value c with
    | None => Some (acc, off, s)
    | Some d => if off >? 3 then None else hex_field s' (acc * 16 + d) (off + 1)
    end
  end.

(** The loop of [parseIPv6], at octet [len ip]; at most eight turns. *)
Fixpoint v6_loop (fuel : nat) (s : bytes) (ellipsis : option Z) (ip : bytes) : option (bytes * option Z * bytes) :=
  match fuel with
  | O => Some (s, ellipsis, ip)
  | S fuel =>
    match hex_field s 0 0 with
    | None => None
    | Some (acc, off, rest) =>
      if off =? 0 then None else
      match rest with
      | 46 :: _ =>
        if (bool_decide (ellipsis = None) && negb (len ip =? 12)) || (len ip + 4 >? 16) then None
        else match parseIPv4Fields s None 0 0 [] with
             | Some f => Some ([], ellipsis, ip ++ f)
             | None => None
             end
      | _ =>
        let ip := ip ++ [Z.shiftr acc 8; Z.land acc 255] in
        match rest with
        | [] => Some ([], ellipsis, ip)
        | c :: rest =>
          if negb (c =? 58) then None else
          match rest with
          | [] => None
          | 58 :: rest =>
            if bool_decide (ellipsis = None) then
              match rest with
              | [] => Some ([], Some (len ip), ip)
              | _ => v6_loop fuel rest (Some (len ip)) ip
              end
            else None
          | _ => v6_loop fuel rest ellipsis ip
          end
        end
      end
    end
  end.

(** The octets of an IPv6 address without its zone. *)
Definition parse_v6 (s : bytes) : option bytes :=
  let '(s, ellipsis) := match s with 58 :: 58 :: s => (s, Some 0) | _ => (s, None) end in
  if bool_decide (ellipsis = Some 0) && bool_decide (s = []) then Some (make_bytes 16) else
  match v6_loop 8 s ellipsis [] with
  | None => None
  | Some (s, ellipsis, ip) =>
    if negb (bool_decide (s = [])) then None
    else if len ip <? 16 then
      match ellipsis with
      | None => None
      | Some e => Some (take (Z.to_nat e) ip ++ make_bytes (16 - len ip) ++ drop (Z.to_nat e) ip)
      end
    else match ellipsis with Some _ => None | None => Some ip end
  end.

(** [s] before the first [c], and what follows it. *)
Fixpoint cut (c : Z) (s : bytes) : bytes * option bytes :=
  match s with
  | [] => ([], None)
  | x :: s => if x =? c then ([], Some s) else let '(a, b) := cut c s in (x :: a, b)
  end.

(** An address and its zone. *)
Definition ParseAddr (s : bytes) : option (bytes * bytes) :=
  match List.find (fun c => (c =? 46) || (c =? 58) || (c =? 37)) s with
  | Some 46 => option_map (fun a => (a, [])) (parseIPv4Fields s None 0 0 [])
  | Some 58 =>
    let '(s, zone) := cut 37 s in
    match zone with
    | Some [] => None
    | _ => option_map (fun a => (a, default [] zone)) (parse_v6 s)
    end
  | _ => None
  end.

(** ** net.IP *)

Definition v4InV6Prefix : bytes := [0; 0; 0; 0; 0; 0; 0; 0; 0; 0; 255; 255].

Definition As16 (a : bytes) : bytes := if len a =? 4 then v4InV6Prefix ++ a else a.

(** [net.ParseIP]: sixteen octets. *)
Definition ParseIP (s : string) : option bytes :=
  match ParseAddr (octets_of s) with Some (a, []) => Some (As16 a) | _ => None end.

Definition To4 (ip : bytes) : option bytes :=
  if len ip =? 4 then Some ip
  else if (len ip =? 16) && bool_decide (take 12 ip = v4InV6Prefix) then Some (drop 12 ip)
  else None.

Definition To16 (ip : bytes) : option bytes :=
  if len ip =? 4 then Some (v4InV6Prefix ++ ip) else if len ip =? 16 then Some ip else None.

(** [ip.Equal(x)] *)
Definition IP_Equal (ip x : bytes) : bool :=
  if len ip =? len x then bool_decide (ip = x)
  else if (len ip =? 4) && (len x =? 16) then bool_decide (take 12 x = v4InV6Prefix) && bool_decide (ip = drop 12 x)
  else if (len ip =? 16) && (len x =? 4) then bool_decide (take 12 ip = v4InV6Prefix) && bool_decide (drop 12 ip = x)
  else false.

(** ** Masks and networks *)

(** [CIDRMask(n, 8*l)]: [^byte(0xff >> n)] has its top [n] bits set. *)
Definition top_ones (n : Z) : Z := 255 - Z.shiftr 255 n.
Fixpoint CIDRMask (n : Z) (l : nat) : bytes :=
  match l with
  | O => []
  | S l => if n >=? 8 then 255 :: CIDRMask (n - 8) l else top_ones n :: CIDRMask 0 l
  end.

Definition and_bytes (a m : bytes) : bytes := zip_with Z.land a m.

(** [ip.Mask(mask)]; nil is [[]]. *)
Definition IP_Mask (ip mask : bytes) : bytes :=
  let mask := if (len mask =? 16) && (len ip =? 4) && bool_decide (take 12 mask = replicate 12 255) then drop 12 mask else mask in
  let ip := if (len mask =? 4) && (len ip =? 16) && bool_decide (take 12 ip = v4InV6Prefix) then drop 12 ip else ip in
  if len ip =? len mask then and_bytes ip mask else [].

(** [simpleMaskLength]: none for a mask that is not a run of ones. *)
Fixpoint leading_ones (fuel : nat) (v : Z) : Z :=
  match fuel with O => 0 | S fuel => if Z.testbit v 7 then 1 + leading_ones fuel (Z.land (Z.shiftl v 1) 255) else 0 end.
Fixpoint simpleMaskLength (mask : bytes) : option Z :=
  match mask with
  | [] => Some 0
  | v :: mask =>
    if v =? 255 then option_map (fun n => 8 + n) (simpleMaskLength mask)
    else let n := leading_ones 8 v in
         if (v =? top_ones n) && forallb (fun b => b =? 0) mask then Some n else None
  end.

(** The ones of [mask.Size()]. *)
Definition Mask_ones (mask : bytes) : Z := default 0 (simpleMaskLength mask).

Record IPNet := mkIPNet { N_IP : bytes; N_Mask : bytes }.

Definition networkNumberAndMask (n : IPNet) : option (bytes * bytes) :=
  let ip := match To4 (N_IP n) with Some ip => Some ip | None => if len (N_IP n) =? 16 then Some (N_IP n) else None end in
  match ip with
  | None => None
  | Some ip =>
    if len (N_Mask n) =? 4 then if len ip =? 4 then Some (ip, N_Mask n) else None
    else if len (N_Mask n) =? 16 then Some (ip, if len ip =? 4 then drop 12 (N_Mask n) else N_Mask n)
    else None
  end.

Definition Contains (n : IPNet) (ip : bytes) : bool :=
  match networkNumberAndMask n with
  | None => len ip =? 0
  | Some (nn, m) =>
    let ip := default ip (To4 ip) in
    if negb (len ip =? len nn) then false else bool_decide (and_bytes nn m = and_bytes ip m)
  end.

(** [dtoi], which stops at 0xFFFFFF. *)
Fixpoint dtoi (s : bytes) (n : Z) : option Z :=
  match s with
  | [] => Some n
  | c :: s => if is_dec c then let n := n * 10 + (c - 48) in if n >=? 16777215 then None else dtoi s n else None
  end.

Definition ParseCIDR (s : string) : option IPNet :=
  match cut 47 (octets_of s) with
  | (_, None) => None
  | (addr, Some mask) =>
    match ParseAddr addr with
    | Some (a, []) =>
      match (if bool_decide (mask = []) then None else dtoi mask 0) with
      | Some n =>
        if n >? 8 * len a then None
        else let m := CIDRMask n (length a) in Some (mkIPNet (IP_Mask (As16 a) m) m)
      | None => None
      end
    | _ => None
    end
  end.

Example ParseIP_examples :
  map ParseIP ["192.0.2.1"; "2001:db8::1"; "::"; "::ffff:10.1.2.3"; "1:2:3:4:5:6:7::"]%string
  = [Some (v4InV6Prefix ++ [192; 0; 2; 1]); Some [32; 1; 13; 184; 0; 0; 0; 0; 0; 0; 0; 0; 0; 0; 0; 1]; Some (make_bytes 16);
     Some (v4InV6Prefix ++ [10; 1; 2; 3]); Some [0; 1; 0; 2; 0; 3; 0; 4; 0; 5; 0; 6; 0; 7; 0; 0]]
  /\ map ParseIP [""; "192.0.2"; "192.0.2.01"; "192.0.2.256"; "192.0.2.1."; "1:2:3:4:5:6:7:8:9"; "1::2::3"; "12345::"; "fe80::1%eth0";
                  "1:2:3:4:5:6:7:8::"; ":1::"; "::1.2.3"; "1:2:3:4:5:6:7:1.2.3.4"]%string
  = replicate 13 None.
Proof. split; vm_compute; reflexivity. Qed.

Example ParseCIDR_examples :
  map ParseCIDR ["10.1.2.3/8"; "2001:db8:ffff::/32"; "0.0.0.0/0"; "::ffff:10.0.0.0/104"]%string
  = [Some (mkIPNet [10; 0; 0; 0] [255; 0; 0; 0]);
     Some (mkIPNet [32; 1; 13; 184; 0; 0; 0; 0; 0; 0; 0; 0; 0; 0; 0; 0] ([255; 255; 255; 255] ++ make_bytes 12));
     Some (mkIPNet [0; 0; 0; 0] [0; 0; 0; 0]);
     Some (mkIPNet (v4InV6Prefix ++ [10; 0; 0; 0]) (replicate 13 255 ++ [0; 0; 0]))]
  /\ map ParseCIDR ["10.1.2.3"; "10.1.2.3/"; "10.1.2.3/33"; "10.1.2.3/a"; "fe80::1%a/64"; "2001:db8::/129"]%string = replicate 6 None.
Proof. split; vm_compute; reflexivity. Qed.

(** ** Containment is agreement of the leading bits *)

Definition bits_of (v : Z) : list bool := map (Z.testbit v) [7; 6; 5; 4; 3; 2; 1; 0].
Definition ip_bits (ip : bytes) : list bool := concat (map bits_of ip).

Lemma octet_in x : is_u8 x -> In x (map Z.of_nat (seq 0 256)).
Proof. unfold is_u8. intros Hx. apply in_map_iff. exists (Z.to_nat x). split; [lia|]. apply in_seq. lia. Qed.

(** A property of every octet, checked by evaluation. *)
Lemma octets_forall (P : Z -> bool) : forallb P (map Z.of_nat (seq 0 256)) = true -> forall x, is_u8 x -> P x = true.
Proof. intros H x Hx. rewrite forallb_forall in H. by apply H, octet_in. Qed.

Lemma bits_of_inj a b : is_u8 a -> is_u8 b -> bits_of a = bits_of b -> a = b.
Proof.
  assert (forall x, is_u8 x -> fold_left (fun v (b : bool) => 2 * v + (if b then 1 else 0)) (bits_of x) 0 = x) as Hv.
  { intros x Hx. apply Z.eqb_eq. revert x Hx. apply octets_forall. vm_compute. reflexivity. }
  intros Ha Hb H. by rewrite <- (Hv a Ha), <- (Hv b Hb), H.
Qed.

Lemma bits_of_mask a n : is_u8 a -> 0 <= n < 8 ->
  bits_of (Z.land a (top_ones n)) = take (Z.to_nat n) (bits_of a) ++ replicate (8 - Z.to_nat n) false.
Proof.
  intros Ha Hn. assert (In n (map Z.of_nat (seq 0 8))) as Hin.
  { apply in_map_iff. exists (Z.to_nat n). split; [lia|]. apply in_seq. lia. }
  apply (@bool_decide_unpack _ (decide _)).
  assert (forallb (fun n => forallb (fun a => bool_decide (bits_of (Z.land a (top_ones n))
    = take (Z.to_nat n) (bits_of a) ++ replicate (8 - Z.to_nat n) false)) (map Z.of_nat (seq 0 256)))
    (map Z.of_nat (seq 0 8)) = true) as H by (vm_compute; reflexivity).
  rewrite forallb_forall in H. specialize (H n Hin). rewrite forallb_forall in H. apply Is_true_true, H. by apply octet_in.
Qed.

Lemma land_u8 a m : is_u8 a -> is_u8 m -> is_u8 (Z.land a m).
Proof.
  intros [Ha0 Ha] [Hm0 Hm]. split; [apply Z.land_nonneg; lia|].
  destruct (Z.eq_dec (Z.land a m) 0) as [->|Hne]; [lia|]. apply Z.log2_lt_cancel.
  pose proof (Z.land_nonneg a m) as [_ Hl]. specialize (Hl (or_introl Ha0)).
  pose proof (Z.log2_land a m Ha0 Hm0) as Hlog. change (Z.log2 256) with 8.
  assert (Z.log2 a < 8).
  { destruct (Z.eq_dec a 0) as [->|]; [done|]. apply Z.log2_lt_pow2; lia. }
  lia.
Qed.

Lemma top_ones_u8 n : 0 <= n -> is_u8 (top_ones n).
Proof.
  intros Hn. unfold top_ones, is_u8. rewrite Z.shiftr_div_pow2 by done.
  pose proof (Z.pow_pos_nonneg 2 n). assert (0 <= 255 / 2 ^ n) by (apply Z.div_pos; lia).
  assert (255 / 2 ^ n <= 255) by (apply Z.div_le_upper_bound; nia). lia.
Qed.

Lemma mask_byte a b n : is_u8 a -> is_u8 b -> 0 <= n < 8 ->
  Z.land a (top_ones n) = Z.land b (top_ones n) <-> take (Z.to_nat n) (bits_of a) = take (Z.to_nat n) (bits_of b).
Proof.
  intros Ha Hb Hn. pose proof (bits_of_mask a n Ha Hn) as Ea. pose proof (bits_of_mask b n Hb Hn) as Eb. split; intros H.
  - rewrite H, Eb in Ea. by apply app_inv_tail in Ea.
  - pose proof (top_ones_u8 n ltac:(lia)). apply bits_of_inj; [by apply land_u8..|]. by rewrite Ea, Eb, H.
Qed.

Lemma length_bits_of v : length (bits_of v) = 8%nat.
Proof. done. Qed.

Lemma CIDRMask_zero l : CIDRMask 0 l = replicate l 0.
Proof. induction l as [|l IH]; [done|]. cbn [CIDRMask replicate]. by rewrite IH. Qed.

Lemma and_bytes_cons x a m ms : and_bytes (x :: a) (m :: ms) = Z.land x m :: and_bytes a ms.
Proof. done. Qed.

Lemma and_bytes_zero a l : and_bytes a (replicate l 0) = replicate (length a `min` l) 0.
Proof.
  revert l. induction a as [|x a IH]; intros [|l]; try done. cbn. by rewrite Z.land_0_r, <- IH.
Qed.

Lemma and_mask_iff a b n l :
  Forall is_u8 a -> Forall is_u8 b -> length a = l -> length b = l -> 0 <= n ->
  and_bytes a (CIDRMask n l) = and_bytes b (CIDRMask n l)
  <-> take (Z.to_nat n) (ip_bits a) = take (Z.to_nat n) (ip_bits b).
Proof.
  intros Ha. revert b n l. induction Ha as [|x a Hx Ha IH]; intros b n l Hb Hla Hlb Hn.
  { destruct b; [done|]. simpl in *. lia. }
  destruct Hb as [|y b Hy Hb]; [simpl in *; lia|]. destruct l as [|l]; [done|]. injection Hla as Hla. injection Hlb as Hlb.
  change (ip_bits (x :: a)) with (bits_of x ++ ip_bits a). change (ip_bits (y :: b)) with (bits_of y ++ ip_bits b).
  cbn [CIDRMask]. destruct (n >=? 8) eqn:E; bool_hyps; rewrite !and_bytes_cons.
  - rewrite !take_app. rewrite !length_bits_of, !(take_ge (bits_of _)) by (rewrite length_bits_of; lia).
    replace (Z.to_nat n - 8)%nat with (Z.to_nat (n - 8)) by lia.
    specialize (IH b (n - 8) l Hb Hla Hlb ltac:(lia)).
    assert (forall v, is_u8 v -> Z.land v 255 = v) as H255.
    { intros v Hv. change 255 with (Z.ones 8). rewrite Z.land_ones by done. apply Z.mod_small. done. }
    rewrite !H255 by done. split.
    + intros [= -> H]. f_equal. by apply IH.
    + intros H. apply app_inj_1 in H as [H1 H2]; [|done]. apply bits_of_inj in H1; [|done..]. subst. f_equal. by apply IH.
  - rewrite !take_app_le by (rewrite length_bits_of; lia). rewrite <- (mask_byte x y n Hx Hy) by lia.
    rewrite CIDRMask_zero, !and_bytes_zero, Hla, Hlb.
    split; [by intros [= ->]|by intros ->].
Qed.

(** ** What parsing yields *)

Definition is_ip (a : bytes) : Prop := Forall is_u8 a /\ (len a = 4 \/ len a = 16).

Lemma parseIPv4Fields_ok s prev val dig fields f :
  parseIPv4Fields s prev val dig fields = Some f ->
  is_u8 val -> Forall is_u8 fields -> len fields <= 3 -> Forall is_u8 f /\ len f = 4.
Proof.
  revert prev val dig fields. induction s as [|c s IH]; intros prev val dig fields H Hv Hf Hl; cbn [parseIPv4Fields] in H.
  - destruct (len fields <? 3) eqn:E; [done|]. injection H as <-. bool_hyps.
    split; [apply Forall_app_2; [done|by constructor]|len_lia].
  - destruct (is_dec c) eqn:Ed.
    + destruct ((dig =? 1) && (val =? 0)); [done|]. destruct (val * 10 + (c - 48) >? 255) eqn:E; [done|].
      unfold is_dec in Ed. bool_hyps. apply IH in H; [done| |done|done]. unfold is_u8 in *. lia.
    + destruct (c =? 46); [|done]. destruct (bool_decide _ || _ || _); [done|].
      destruct (Z.eqb_spec (len fields) 3); [done|]. apply IH in H; [done|done| |len_lia].
      apply Forall_app_2; [done|by constructor].
Qed.

Lemma hex_value_range c d : hex_value c = Some d -> 0 <= d < 16.
Proof.
  unfold hex_value, is_dec. repeat case_match; intros [= <-]; bool_hyps; lia.
Qed.

Lemma hex_field_range s acc off a o rest :
  hex_field s acc off = Some (a, o, rest) -> 0 <= off <= 4 -> 0 <= acc < 16 ^ off -> 0 <= a < 65536.
Proof.
  revert acc off. induction s as [|c s IH]; intros acc off H Ho Ha; cbn [hex_field] in H.
  - injection H as <- <- <-. assert (16 ^ off <= 16 ^ 4) by (apply Z.pow_le_mono_r; lia). lia.
  - destruct (hex_value c) as [d|] eqn:Ed.
    + destruct (off >? 3) eqn:E; [done|]. bool_hyps. apply hex_value_range in Ed. apply IH in H; [done|lia|].
      rewrite Z.pow_add_r by lia. lia.
    + injection H as <- <- <-. assert (16 ^ off <= 16 ^ 4) by (apply Z.pow_le_mono_r; lia). lia.
Qed.

Lemma put_group acc : 0 <= acc < 65536 -> Forall is_u8 [Z.shiftr acc 8; Z.land acc 255].
Proof.
  intros H. repeat constructor; rewrite ?Z.shiftr_div_pow2 by lia; change 255 with (Z.ones 8);
    rewrite ?Z.land_ones by lia; unfold is_u8; mod_lia.
Qed.

(** What the loop keeps: at most sixteen octets, the ellipsis within them. *)
Definition v6_ok (ellipsis : option Z) (ip : bytes) : Prop :=
  Forall is_u8 ip /\ len ip <= 16 /\ (forall e, ellipsis = Some e -> 0 <= e <= len ip).

Lemma v6_loop_ok fuel s ellipsis ip s' ellipsis' ip' :
  v6_loop fuel s ellipsis ip = Some (s', ellipsis', ip') ->
  v6_ok ellipsis ip -> len ip + 2 * Z.of_nat fuel <= 16 -> v6_ok ellipsis' ip'.
Proof.
  revert s ellipsis ip. induction fuel as [|fuel IH]; intros s ellipsis ip H (Hu & Hl & He) Hf.
  { injection H as <- <- <-. by split_and!. }
  cbn [v6_loop] in H. destruct (hex_field s 0 0) as [ [ [acc off] rest]|] eqn:Eh; [|done].
  apply hex_field_range in Eh as Ha; [|lia|lia]. destruct (off =? 0); [done|].
  assert (v6_ok ellipsis (ip ++ [Z.shiftr acc 8; Z.land acc 255])) as Hok.
  { split_and!; [apply Forall_app_2; [done|by apply put_group]|len_lia|]. intros e E. specialize (He e E). len_lia. }
  assert (v6_ok (Some (len (ip ++ [Z.shiftr acc 8; Z.land acc 255]))) (ip ++ [Z.shiftr acc 8; Z.land acc 255])) as Hok'.
  { destruct Hok as (H1 & H2 & _). split_and!; [done|done|]. intros e [= <-]. len_lia. }
  assert (len (ip ++ [Z.shiftr acc 8; Z.land acc 255]) + 2 * Z.of_nat fuel <= 16) as Hf' by len_lia.
  set (ip2 := ip ++ [Z.shiftr acc 8; Z.land acc 255]) in *.
  assert (forall t e, v6_ok e ip2 -> v6_loop fuel t e ip2 = Some (s', ellipsis', ip') -> v6_ok ellipsis' ip') as Hrec.
  { intros t e Hoke Hx. by apply (IH _ _ _ Hx). }
  destruct (decide (head rest = Some 46)) as [Hdot|Hdot].
  { destruct rest as [|c rest]; [done|]. injection Hdot as ->.
    destruct ((_ && _) || (len ip + 4 >? 16)) eqn:Eg; [done|]. apply orb_false_iff in Eg as [_ Eg]. bool_hyps.
    destruct (parseIPv4Fields s None 0 0 []) as [f|] eqn:Ef; [|done]. injection H as <- <- <-.
    apply parseIPv4Fields_ok in Ef as [Hfu Hfl]; [|by unfold is_u8|constructor|done].
    split_and!; [by apply Forall_app_2|len_lia|]. intros e E. specialize (He e E). len_lia. }
  assert (forall T (x y : T), match rest with 46 :: _ => x | _ => y end = y) as Hm.
  { intros T x y. destruct rest as [|c rest]; [done|]. repeat case_match; try done. }
  rewrite Hm in H. clear Hm. destruct rest as [|c rest]; [injection H as <- <- <-; done|].
  destruct (negb (c =? 58)); [done|]. destruct rest as [|c2 rest]; [done|].
  destruct (decide (c2 = 58)) as [->|Hc2].
  - destruct (bool_decide (ellipsis = None)); [|done]. destruct rest as [|c3 rest]; [injection H as <- <- <-; done|].
    by apply (Hrec _ _ Hok' H).
  - assert (forall T (x : Z -> bytes -> T) (y : T), match c2 with 58 => x c2 rest | _ => y end = y) as Hm.
    { intros T x y. repeat case_match; done. }
    apply (Hrec (c2 :: rest) ellipsis Hok). rewrite <- H. repeat case_match; done.
Qed.

Lemma parse_v6_ok s a : parse_v6 s = Some a -> Forall is_u8 a /\ len a = 16.
Proof.
  unfold parse_v6. destruct (match s with 58 :: 58 :: s => (s, Some 0) | _ => (s, None) end) as [s0 e0] eqn:Es.
  assert (v6_ok e0 []) as H0.
  { split_and!; [constructor|done|]. intros e ->. assert (e = 0) as ->; [|done].
    revert Es. repeat case_match; intros [= _ E]; congruence. }
  destruct (bool_decide (e0 = Some 0) && bool_decide (s0 = [])).
  { intros [= <-]. split; [by apply Forall_replicate|done]. }
  destruct (v6_loop 8 s0 e0 []) as [ [ [s1 e1] ip]|] eqn:El; [|done].
  apply v6_loop_ok in El as (Hu & Hl & He); [|done|done].
  destruct (negb _); [done|]. destruct (len ip <? 16) eqn:E; bool_hyps.
  - destruct e1 as [e|]; [|done]. intros [= <-]. specialize (He e eq_refl). split.
    + rewrite <- (take_drop (Z.to_nat e) ip) in Hu. apply Forall_app in Hu as [H1 H2].
      apply Forall_app_2; [done|]. apply Forall_app_2; [by apply Forall_replicate|done].
    + rewrite !len_app, len_take, len_drop, len_make_bytes by lia. lia.
  - destruct e1; [done|]. intros [= <-]. split; [done|lia].
Qed.

Lemma ParseAddr_ok s a zone : ParseAddr s = Some (a, zone) -> is_ip a.
Proof.
  unfold ParseAddr. destruct (List.find _ s) as [c|] eqn:Ef; [|done].
  destruct (decide (c = 46)) as [->|H46].
  { destruct (parseIPv4Fields s None 0 0 []) as [f|] eqn:Hp; [|done]. intros [= -> _].
    apply parseIPv4Fields_ok in Hp as [? ?]; [by split; [|left]|by unfold is_u8|constructor|done]. }
  destruct (decide (c = 58)) as [->|H58].
  { destruct (cut 37 s) as [s1 zone1]. assert (option_map (fun a => (a, default [] zone1)) (parse_v6 s1) = Some (a, zone) -> is_ip a) as H.
    { destruct (parse_v6 s1) as [b|] eqn:Hp; [|done]. intros [= -> _]. apply parse_v6_ok in Hp as [? ?]. by split; [|right]. }
    destruct zone1 as [ [|z zs]|]; [done|exact H|exact H]. }
  repeat case_match; done.
Qed.

Lemma len_CIDRMask n l : length (CIDRMask n l) = l.
Proof. revert n. induction l as [|l IH]; intros n; [done|]. cbn [CIDRMask]. destruct (n >=? 8); cbn; by rewrite IH. Qed.

Lemma CIDRMask_u8 n l : 0 <= n -> Forall is_u8 (CIDRMask n l).
Proof.
  revert n. induction l as [|l IH]; intros n Hn; cbn [CIDRMask]; [constructor|].
  destruct (n >=? 8) eqn:E; bool_hyps; constructor; try (by apply top_ones_u8); try (by unfold is_u8); apply IH; lia.
Qed.

Lemma and_bytes_idem a m : and_bytes (and_bytes a m) m = and_bytes a m.
Proof.
  revert m. induction a as [|x a IH]; intros [|y m]; try done. rewrite !and_bytes_cons, IH. f_equal.
  by rewrite <- Z.land_assoc, Z.land_diag.
Qed.

Lemma and_bytes_u8 a m : Forall is_u8 a -> Forall is_u8 m -> Forall is_u8 (and_bytes a m).
Proof.
  intros Ha. revert m. induction Ha as [|x a Hx Ha IH]; intros m Hm; [constructor|].
  destruct Hm as [|y m Hy Hm]; [constructor|]. rewrite and_bytes_cons. constructor; [by apply land_u8|by apply IH].
Qed.

Lemma len_and_bytes a m : len a = len m -> len (and_bytes a m) = len a.
Proof. unfold len, and_bytes. intros H. rewrite length_zip_with. lia. Qed.

Lemma leading_ones_top n : 0 <= n < 8 -> leading_ones 8 (top_ones n) = n.
Proof.
  intros Hn. assert (In n (map Z.of_nat (seq 0 8))) as Hin.
  { apply in_map_iff. exists (Z.to_nat n). split; [lia|]. apply in_seq. lia. }
  apply Z.eqb_eq. revert n Hn Hin. assert (forallb (fun n => leading_ones 8 (top_ones n) =? n) (map Z.of_nat (seq 0 8)) = true) as H
    by (vm_compute; reflexivity). rewrite forallb_forall in H. intros n _. apply H.
Qed.

Lemma Mask_ones_CIDR n l : 0 <= n <= 8 * Z.of_nat l -> Mask_ones (CIDRMask n l) = n.
Proof.
  unfold Mask_ones. enough (0 <= n <= 8 * Z.of_nat l -> simpleMaskLength (CIDRMask n l) = Some n) as H.
  { intros Hn. by rewrite H. }
  revert n. induction l as [|l IH]; intros n Hn; cbn [CIDRMask simpleMaskLength]; [f_equal; lia|].
  destruct (n >=? 8) eqn:E; bool_hyps; cbn [simpleMaskLength].
  - rewrite Z.eqb_refl, IH by lia. cbn. f_equal. lia.
  - assert ((top_ones n =? 255) = false) as ->.
    { assert (forallb (fun n => negb (top_ones n =? 255)) (map Z.of_nat (seq 0 8)) = true) as H by (vm_compute; reflexivity).
      rewrite forallb_forall in H. apply negb_true_iff, H, in_map_iff. exists (Z.to_nat n). split; [lia|]. apply in_seq. lia. }
    rewrite leading_ones_top, Z.eqb_refl by lia. rewrite CIDRMask_zero.
    replace (forallb (fun b => b =? 0) (replicate l 0)) with true; [done|]. clear. induction l; [done|]. cbn. done.
Qed.

(** A parsed network: an address of the mask's family, already masked. *)
Record net_ok (n : IPNet) (ones : Z) : Prop := {
  no_ip : is_ip (N_IP n);
  no_ones : 0 <= ones <= 8 * len (N_IP n);
  no_mask : N_Mask n = CIDRMask ones (length (N_IP n));
  no_masked : and_bytes (N_IP n) (N_Mask n) = N_IP n;
}.

Lemma As16_To4 a : len a = 4 -> drop 12 (v4InV6Prefix ++ a) = a.
Proof. done. Qed.

Lemma ParseCIDR_ok s n : ParseCIDR s = Some n -> net_ok n (Mask_ones (N_Mask n)).
Proof.
  unfold ParseCIDR. destruct (cut 47 (octets_of s)) as [addr [mask|] ]; [|done].
  destruct (ParseAddr addr) as [ [a [|z zone] ]|] eqn:Ha; [|done|done].
  apply ParseAddr_ok in Ha as [Hu Hl].
  destruct (if bool_decide (mask = []) then None else dtoi mask 0) as [k|] eqn:Hk; [|done].
  destruct (k >? 8 * len a) eqn:E; [done|]. bool_hyps. intros [= <-]. cbn [N_Mask].
  assert (0 <= k) as Hk0.
  { case_bool_decide; [done|]. revert Hk. enough (forall m, 0 <= m -> dtoi mask m = Some k -> 0 <= k) as Hx by by apply Hx.
    clear. induction mask as [|c mask IH]; intros m Hm H; cbn [dtoi] in H; [by injection H as <-|].
    destruct (is_dec c) eqn:Ed; [|done]. destruct (_ >=? _); [done|]. unfold is_dec in Ed. bool_hyps. apply IH in H; lia. }
  rewrite Mask_ones_CIDR by (unfold len in *; lia).
  assert (IP_Mask (As16 a) (CIDRMask k (length a)) = and_bytes a (CIDRMask k (length a))) as Hm.
  { assert (len (CIDRMask k (length a)) = len a) as Hlm by (unfold len; by rewrite len_CIDRMask).
    unfold IP_Mask, As16. rewrite Hlm. destruct Hl as [Hl|Hl]; rewrite Hl.
    - change (4 =? 4) with true. cbv iota. rewrite len_app, Hl. change (len v4InV6Prefix + 4) with 16. cbn [Z.eqb andb Pos.eqb].
      rewrite Hlm, Hl. cbn [Z.eqb andb Pos.eqb]. change (take 12 (v4InV6Prefix ++ a)) with (v4InV6Prefix ++ take 0 a).
      rewrite take_0, app_nil_r, bool_decide_true by done. rewrite As16_To4 by done. by rewrite Hl.
    - change (16 =? 4) with false. cbv iota. rewrite Hl. change (16 =? 4) with false. rewrite andb_false_r.
      cbn [andb]. cbv iota. rewrite Hlm, Hl. change (16 =? 4) with false. cbn [andb]. cbv iota. by rewrite Hl. }
  assert (len (and_bytes a (CIDRMask k (length a))) = len a) as Hlen.
  { apply len_and_bytes. unfold len. by rewrite len_CIDRMask. }
  split; cbn [N_IP N_Mask]; rewrite Hm.
  - split; [apply and_bytes_u8; [done|by apply CIDRMask_u8]|by rewrite Hlen].
  - rewrite Hlen. lia.
  - f_equal. unfold len in Hlen. lia.
  - by rewrite and_bytes_idem.
Qed.
