(* ===== verification/RadiusPolicy.v ===== *)
(** * RADIUS access policy

    [internal/policy/radius]: the compile-time dictionary ([dictionary.go]),
    the compiler from the configuration to first-match lists ([compile.go]) and
    the evaluator ([evaluate.go], [types.go]).  An error is its code, message
    and path; a Go map is a finite map, a [string] the model's string and a
    [netip.Addr] the octets and the zone of a valid address, or none. *)

From Stdlib Require Import String Ascii.
From stdpp Require Import gmap strings sorting.
From S2P Require Import Prelude Text Encoding NetAddr StableSort Policy Domain.

#[local] Open Scope Z_scope.

(** ** Errors ([domain.NewError(code, message).WithPath(path)]) *)

Record domain_error := mkError { de_Code : string; de_Message : string; de_Path : string }.
#[export] Instance domain_error_eq_dec : EqDecision domain_error.
Proof. solve_decision. Defined.

Definition CodeConfigYAMLInvalid : string := "CONFIG_YAML_INVALID".
Definition CodeNotFound : string := "not_found".
Definition CodeInvalidArgument : string := "invalid_argument".

Definition yaml_invalid (message path : string) : domain_error := mkError CodeConfigYAMLInvalid message path.
Definition bad_argument (message : string) : domain_error := mkError CodeInvalidArgument message "".

(** ** Typed attributes (types.go) *)

Record AttrKey := mkAttrKey { ak_Vendor : Z; ak_Code : Z; ak_Name : string }.
#[export] Instance AttrKey_eq_dec : EqDecision AttrKey.
Proof. solve_decision. Defined.
#[export] Instance AttrKey_countable : Countable AttrKey.
Proof.
  refine (inj_countable' (fun k => (ak_Vendor k, ak_Code k, ak_Name k)) (fun '(v, c, n) => mkAttrKey v c n) _). by intros [].
Defined.

(** [k.Equal(o)] *)
Definition AttrKey_Equal (k o : AttrKey) : bool := (ak_Vendor k =? ak_Vendor o) && (ak_Code k =? ak_Code o).

Definition Addr : Type := option (bytes * bytes).
Definition Addr_Is4 (a : Addr) : bool := match a with Some (ip, _) => len ip =? 4 | None => false end.
Definition Addr_Is6 (a : Addr) : bool := match a with Some (ip, _) => len ip =? 16 | None => false end.

Record Typed := mkTyped { ty_Key : AttrKey; ty_Kind : string; ty_Text : string; ty_Uint : Z; ty_Addr : Addr; ty_Raw : bytes }.
#[export] Instance Typed_eq_dec : EqDecision Typed.
Proof. solve_decision. Defined.

Definition TypedSet := list Typed.

Fixpoint TypedSet_First (s : TypedSet) (key : AttrKey) : option Typed :=
  match s with
  | [] => None
  | a :: s => if AttrKey_Equal (ty_Key a) key then Some a else TypedSet_First s key
  end.
Definition Present (s : TypedSet) (key : AttrKey) : bool := match TypedSet_First s key with Some _ => true | None => false end.

(** ** The dictionary (dictionary.go) *)

Definition KindText : string := "text".
Definition KindString : string := "string".
Definition KindInteger : string := "integer".
Definition KindIPv4 : string := "ipaddr".
Definition KindIPv6 : string := "ipv6addr".
Definition KindTime : string := "time".
Definition KindVSA : string := "vsa".
Definition CardinalitySingle : string := "single".
Definition CardinalityMulti : string := "multi".
Definition packetAccessAccept := 2.
Definition packetAccessReject := 3.

Record attrDef := mkAttrDef {
  ad_Name : string; ad_Vendor : Z; ad_Code : Z; ad_Kind : string; ad_Cardinality : string;
  ad_Secret : bool; ad_ServerOwned : bool; ad_allowReq : bool; ad_allowAccept : bool; ad_allowReject : bool;
}.
#[export] Instance attrDef_eq_dec : EqDecision attrDef.
Proof. solve_decision. Defined.

(** [d.key()] *)
Definition def_key (d : attrDef) : AttrKey := mkAttrKey (ad_Vendor d) (ad_Code d) (ad_Name d).

Record dictionary := mkDictionary { byName : gmap string attrDef; byCode : gmap Z attrDef }.

Definition builtin_defs : list attrDef :=
  let yes := true in let no := false in
  [ mkAttrDef "User-Name" 0 1 KindText CardinalitySingle no no yes yes no;
    mkAttrDef "User-Password" 0 2 KindString CardinalitySingle yes no yes no no;
    mkAttrDef "CHAP-Password" 0 3 KindString CardinalitySingle yes no yes no no;
    mkAttrDef "NAS-IP-Address" 0 4 KindIPv4 CardinalitySingle no no yes no no;
    mkAttrDef "NAS-Port" 0 5 KindInteger CardinalitySingle no no yes no no;
    mkAttrDef "Service-Type" 0 6 KindInteger CardinalitySingle no no yes yes no;
    mkAttrDef "Framed-Protocol" 0 7 KindInteger CardinalitySingle no no yes yes no;
    mkAttrDef "Framed-IP-Address" 0 8 KindIPv4 CardinalitySingle no no yes yes no;
    mkAttrDef "Filter-Id" 0 11 KindText CardinalityMulti no no no yes no;
    mkAttrDef "Framed-MTU" 0 12 KindInteger CardinalitySingle no no yes yes no;
    mkAttrDef "Reply-Message" 0 18 KindText CardinalityMulti no no no yes yes;
    mkAttrDef "State" 0 24 KindString CardinalitySingle yes yes yes yes no;
    mkAttrDef "Class" 0 25 KindString CardinalityMulti no no no yes no;
    mkAttrDef "Vendor-Specific" 0 26 KindVSA CardinalityMulti no no yes yes no;
    mkAttrDef "Session-Timeout" 0 27 KindInteger CardinalitySingle no no no yes no;
    mkAttrDef "Idle-Timeout" 0 28 KindInteger CardinalitySingle no no no yes no;
    mkAttrDef "Called-Station-Id" 0 30 KindText CardinalitySingle no no yes no no;
    mkAttrDef "Calling-Station-Id" 0 31 KindText CardinalitySingle no no yes no no;
    mkAttrDef "NAS-Identifier" 0 32 KindText CardinalitySingle no no yes no no;
    mkAttrDef "Proxy-State" 0 33 KindString CardinalityMulti no yes yes yes yes;
    mkAttrDef "Event-Timestamp" 0 55 KindTime CardinalitySingle no no yes yes no;
    mkAttrDef "CHAP-Challenge" 0 60 KindString CardinalitySingle no no yes no no;
    mkAttrDef "NAS-Port-Type" 0 61 KindInteger CardinalitySingle no no yes no no;
    mkAttrDef "Message-Authenticator" 0 80 KindString CardinalitySingle yes yes yes yes yes;
    mkAttrDef "Acct-Interim-Interval" 0 85 KindInteger CardinalitySingle no no no yes no;
    mkAttrDef "NAS-IPv6-Address" 0 95 KindIPv6 CardinalitySingle no no yes no no;
    mkAttrDef "Cisco-AVPair" 9 1 KindText CardinalityMulti no no yes yes yes ].

(** One turn of the loop of [mustBuiltin]; none is its panic. *)
Definition mustBuiltin_add (d : option dictionary) (def : attrDef) : option dictionary :=
  d ← d;
  if bool_decide (is_Some (byName d !! ad_Name def)) then None
  else if (ad_Vendor def =? 0) && bool_decide (is_Some (byCode d !! ad_Code def)) then None
  else
    let codes := if ad_Vendor def =? 0 then <[ad_Code def := def]> (byCode d) else byCode d in
    Some (mkDictionary (<[ad_Name def := def]> (byName d)) codes).
Definition mustBuiltin : option dictionary := fold_left mustBuiltin_add builtin_defs (Some (mkDictionary ∅ ∅)).
Definition builtinDict : dictionary := default (mkDictionary ∅ ∅) mustBuiltin.

(** The range over [byName] stops at the first match. *)
Definition lookupVSA (d : dictionary) (vendor code : Z) : option attrDef :=
  List.find (fun def => (ad_Vendor def =? vendor) && (ad_Code def =? code)) (map snd (map_to_list (byName d))).
Definition lookupName (d : dictionary) (name : string) : option attrDef := byName d !! name.
Definition lookupCode (d : dictionary) (code : Z) : option attrDef := byCode d !! code.

(** ** The configuration that is compiled (internal/config/types.go) *)

Record RADIUSAttrMatch := mkAttrMatch {
  am_Name : string; am_Vendor : Z; am_Code : Z; am_Op : string; am_Value : string; am_ValueHex : string;
}.
Definition RADIUSMatchOpEquals : string := "equals".
Definition RADIUSMatchOpPresent : string := "present".
Definition RADIUSMatchOpAbsent : string := "absent".

Record RADIUSMatch := mkRADIUSMatch { rm_GroupsAny : list string; rm_Method : option string; rm_Attributes : list RADIUSAttrMatch }.
Record RADIUSRule := mkRADIUSRule {
  rr_ID : string; rr_Enabled : bool; rr_Match : RADIUSMatch; rr_Effect : string; rr_ReplyProfiles : list string;
}.
Record RADIUSPolicy := mkRADIUSPolicy { rp_ID : string; rp_Rules : list RADIUSRule }.
Record RADIUSReplyAttr := mkReplyAttr { ra_Name : string; ra_Vendor : Z; ra_Code : Z; ra_Value : string; ra_ValueHex : string }.
Record RADIUSReplyProfile := mkReplyProfile { pr_ID : string; pr_Attributes : list RADIUSReplyAttr }.

(** What the compiler reads of clients, users and groups. *)
Record cfgEndpoint := mkCfgEndpoint { ce_ID : string; ce_Protocol : string; ce_RADIUS : option string }.
Record cfgClient := mkCfgClient { cc_ID : string; cc_Enabled : bool; cc_Endpoints : list cfgEndpoint; cc_DefaultGroupIDs : list string }.
Record cfgUser := mkCfgUser { us_ID : string; us_Enabled : bool; us_GroupIDs : list string; us_RADIUSPolicyID : string }.
Record cfgGroup := mkCfgGroup { gp_ID : string; gp_Enabled : bool; gp_Priority : Z; gp_RADIUSPolicyID : string }.

Record Input := mkInput {
  in_Policies : list RADIUSPolicy; in_ReplyProfiles : list RADIUSReplyProfile; in_FallbackID : string;
  in_Clients : list cfgClient; in_Users : list cfgUser; in_Groups : list cfgGroup;
}.

(** ** The compiled engine (compile.go) *)

Record compiledAttrMatch := mkCompiledAttr { ca_key : AttrKey; ca_label : string; ca_op : string; ca_equals : Typed }.
Record compiledMatch := mkCompiledMatch { cm_groupsAny : list string; cm_method : option string; cm_attrs : list compiledAttrMatch }.
Record compiledRule := mkCompiledRule { cr_id : string; cr_match : compiledMatch; cr_effect : string; cr_reply : TypedSet }.
Record compiledPolicy := mkCompiledPolicy { cp_id : string; cp_rules : list compiledRule }.
Record compiledGroup := mkCompiledGroup { cg_id : string; cg_enabled : bool; cg_priority : Z; cg_policyID : string }.
Record compiledUser := mkCompiledUser { cu_id : string; cu_enabled : bool; cu_groupIDs : list string; cu_policyID : string }.
Record compiledClient := mkCompiledClient { cl_endpoints : gmap string string; cl_defaultGroupIDs : list string }.
Record Engine := mkEngine {
  en_policies : gmap string compiledPolicy; en_clients : gmap string compiledClient;
  en_users : gmap string compiledUser; en_groups : gmap string compiledGroup; en_fallback : string;
}.
Record compiledReplyAttr := mkCompiledReply { cy_def : attrDef; cy_key : AttrKey; cy_attr : Typed }.
Record compiledProfile := mkCompiledProfile { cf_id : string; cf_attrs : list compiledReplyAttr }.

Definition indexPath (parent : string) (i : Z) : string := cat parent (cat "[" (cat (FormatUint i) "]")).

(** *** Names and values *)

Definition attrLabel (k : AttrKey) : string :=
  if negb (str_eqb (ak_Name k) "") then ak_Name k
  else if negb (ak_Vendor k =? 0) then cat "vsa:" (cat (FormatUint (ak_Vendor k)) (cat ":" (FormatUint (ak_Code k))))
  else cat "type:" (FormatUint (ak_Code k)).

(** [def, _ := builtinDict.lookupName("Vendor-Specific")] *)
Definition vendor_specific : attrDef :=
  default (mkAttrDef "" 0 0 "" "" false false false false false) (lookupName builtinDict "Vendor-Specific").

Definition resolveAttr (name : string) (vendor code : Z) (path : string) : result domain_error (attrDef * AttrKey) :=
  let name := TrimSpace name in
  if negb (str_eqb name "") then
    match lookupName builtinDict name with
    | None => Err (yaml_invalid "unknown RADIUS attribute name" (cat path ".name"))
    | Some def =>
      if negb (ad_Vendor def =? 0) then
        if negb (vendor =? 0) && negb (vendor =? ad_Vendor def) then Err (yaml_invalid "attribute name and vendor disagree" path)
        else if negb (code =? 0) && negb (code =? ad_Code def) then Err (yaml_invalid "attribute name and code disagree" path)
        else Ok (def, def_key def)
      else if str_eqb (ad_Kind def) KindVSA then
        if (vendor =? 0) || (code =? 0) then Err (yaml_invalid "raw VSA requires vendor and code" path)
        else
          match lookupVSA builtinDict vendor code with
          | Some named => Ok (named, def_key named)
          | None => Ok (def, mkAttrKey vendor code (ad_Name def))
          end
      else if negb (vendor =? 0) then Err (yaml_invalid "IETF attribute names must not set vendor" (cat path ".vendor"))
      else if negb (code =? 0) && negb (code =? ad_Code def) then Err (yaml_invalid "attribute name and code disagree" path)
      else Ok (def, def_key def)
    end
  else if negb (vendor =? 0) then
    if code =? 0 then Err (yaml_invalid "vendor requires code" (cat path ".code"))
    else
      match lookupVSA builtinDict vendor code with
      | Some named => Ok (named, def_key named)
      | None =>
        Ok (vendor_specific, mkAttrKey vendor code "Vendor-Specific")
      end
  else if code =? 0 then Err (yaml_invalid "attribute requires name or vendor+code" path)
  else
    match lookupCode builtinDict code with
    | None => Err (yaml_invalid "unknown RADIUS attribute code" (cat path ".code"))
    | Some def => Ok (def, def_key def)
    end.

(** [hex.DecodeString] *)
Fixpoint hex_pairs (b : bytes) : option bytes :=
  match b with
  | [] => Some []
  | [_] => None
  | hi :: lo :: b =>
    hi ← hex_value hi; lo ← hex_value lo; rest ← hex_pairs b;
    Some (Z.lor (Z.shiftl hi 4) lo :: rest)
  end.
Definition DecodeString (s : string) : option bytes := hex_pairs (octets_of s).

(** [netip.ParseAddr] *)
Definition parse_addr (s : string) : Addr := ParseAddr (octets_of s).

Definition parseTypedValue (def : attrDef) (key : AttrKey) (value valueHex path : string) : result domain_error Typed :=
  let even_hex := Err (yaml_invalid "value_hex must be even-length hex" (cat path ".value_hex")) in
  if negb (ad_Vendor def =? 0) && str_eqb (ad_Kind def) KindText then
    if negb (str_eqb valueHex "") then
      match DecodeString valueHex with
      | None => even_hex
      | Some b =>
        if negb (str_eqb value "") && negb (str_eqb value (text_of b)) then Err (yaml_invalid "value and value_hex disagree" path)
        else Ok (mkTyped key (ad_Kind def) (text_of b) 0 None b)
      end
    else Ok (mkTyped key (ad_Kind def) value 0 None (octets_of value))
  else if str_eqb (ad_Kind def) KindVSA || negb (ak_Vendor key =? 0) then
    if str_eqb valueHex "" then Err (yaml_invalid "raw VSA requires value_hex" (cat path ".value_hex"))
    else match DecodeString valueHex with None => even_hex | Some b => Ok (mkTyped key KindVSA "" 0 None b) end
  else if str_eqb (ad_Kind def) KindInteger || str_eqb (ad_Kind def) KindTime then
    match ParseUintBits 32 (octets_of (TrimSpace value)) with
    | None => Err (yaml_invalid "value must be an unsigned 32-bit integer" (cat path ".value"))
    | Some n => Ok (mkTyped key (ad_Kind def) "" (to_u32 n) None [])
    end
  else if str_eqb (ad_Kind def) KindIPv4 then
    let addr := parse_addr (TrimSpace value) in
    if negb (Addr_Is4 addr) then Err (yaml_invalid "value must be an IPv4 address" (cat path ".value"))
    else Ok (mkTyped key (ad_Kind def) "" 0 addr [])
  else if str_eqb (ad_Kind def) KindIPv6 then
    let addr := parse_addr (TrimSpace value) in
    if negb (Addr_Is6 addr) then Err (yaml_invalid "value must be an IPv6 address" (cat path ".value"))
    else Ok (mkTyped key (ad_Kind def) "" 0 addr [])
  else if str_eqb (ad_Kind def) KindText then
    if negb (str_eqb valueHex "") then Err (yaml_invalid "text attributes use value, not value_hex" (cat path ".value_hex"))
    else Ok (mkTyped key (ad_Kind def) value 0 None [])
  else if str_eqb (ad_Kind def) KindString then
    if negb (str_eqb valueHex "") then
      match DecodeString valueHex with None => even_hex | Some b => Ok (mkTyped key (ad_Kind def) "" 0 None b) end
    else Ok (mkTyped key (ad_Kind def) "" 0 None (octets_of value))
  else Err (yaml_invalid "unsupported attribute kind" path).

(** *** Reply profiles *)

Definition compileReplyAttr (a : RADIUSReplyAttr) (path : string) : result domain_error compiledReplyAttr :=
  let! dk := resolveAttr (ra_Name a) (ra_Vendor a) (ra_Code a) path in
  let '(def, key) := dk in
  if ad_Secret def || ad_ServerOwned def then Err (yaml_invalid "attribute is not a policy reply attribute" path)
  else
    let! tv := parseTypedValue def key (ra_Value a) (ra_ValueHex a) path in
    Ok (mkCompiledReply def key tv).

Fixpoint compileReplyAttrs (l : list RADIUSReplyAttr) (path : string) (i : Z) : result domain_error (list compiledReplyAttr) :=
  match l with
  | [] => Ok []
  | a :: l =>
    let! got := compileReplyAttr a (indexPath path i) in
    let! rest := compileReplyAttrs l path (i + 1) in
    Ok (got :: rest)
  end.

Fixpoint compileReplyProfiles (l : list RADIUSReplyProfile) (out : gmap string compiledProfile)
  : result domain_error (gmap string compiledProfile) :=
  match l with
  | [] => Ok out
  | p :: l =>
    let! attrs := compileReplyAttrs (pr_Attributes p) (cat (cat "radius_reply_profiles." (pr_ID p)) ".attributes") 0 in
    compileReplyProfiles l (<[pr_ID p := mkCompiledProfile (pr_ID p) attrs]> out)
  end.

(** The loop over one profile's attributes, and the loop over the profiles. *)
Fixpoint merge_attrs (packet : Z) (id rulePath : string) (l : list compiledReplyAttr) (seen : gmap AttrKey string) (out : TypedSet)
  : result domain_error (gmap AttrKey string * TypedSet) :=
  match l with
  | [] => Ok (seen, out)
  | a :: l =>
    let path := cat rulePath ".reply_profiles" in
    if (packet =? packetAccessAccept) && negb (ad_allowAccept (cy_def a)) && (ak_Vendor (cy_key a) =? 0)
    then Err (yaml_invalid "attribute is not legal in Access-Accept" path)
    else if (packet =? packetAccessReject) && (negb (ak_Vendor (cy_key a) =? 0) || negb (ad_allowReject (cy_def a)))
    then Err (yaml_invalid "deny rules may include only Access-Reject attributes (Reply-Message)" path)
    else if str_eqb (ad_Cardinality (cy_def a)) CardinalitySingle then
      match seen !! cy_key a with
      | Some prev =>
        Err (yaml_invalid
          (cat "duplicate single-cardinality attribute " (cat (ak_Name (cy_key a)) (cat " from profiles " (cat prev (cat " and " id))))) path)
      | None => merge_attrs packet id rulePath l (<[cy_key a := id]> seen) (out ++ [cy_attr a])
      end
    else merge_attrs packet id rulePath l seen (out ++ [cy_attr a])
  end.

Fixpoint merge_profiles (packet : Z) (ids : list string) (profiles : gmap string compiledProfile) (rulePath : string) (i : Z)
  (seen : gmap AttrKey string) (out : TypedSet) : result domain_error TypedSet :=
  match ids with
  | [] => Ok out
  | id :: ids =>
    match profiles !! id with
    | None => Err (mkError CodeNotFound "reply profile does not exist" (indexPath (cat rulePath ".reply_profiles") i))
    | Some p =>
      let! so := merge_attrs packet id rulePath (cf_attrs p) seen out in
      merge_profiles packet ids profiles rulePath (i + 1) (fst so) (snd so)
    end
  end.

Definition mergeReplyProfiles (effect : string) (ids : list string) (profiles : gmap string compiledProfile) (rulePath : string)
  : result domain_error TypedSet :=
  if bool_decide (ids = []) then Ok []
  else
    let packet := if str_eqb effect EffectDeny then packetAccessReject else packetAccessAccept in
    merge_profiles packet ids profiles rulePath 0 ∅ [].

(** *** Rules and policies *)

Definition compileAttrMatch (a : RADIUSAttrMatch) (path : string) : result domain_error compiledAttrMatch :=
  let! dk := resolveAttr (am_Name a) (am_Vendor a) (am_Code a) path in
  let '(def, key) := dk in
  if ad_Secret def || str_eqb (ad_Name def) "Message-Authenticator"
  then Err (yaml_invalid "attribute is not a named policy match key" path)
  else if negb (ad_allowReq def) && (am_Vendor a =? 0)
  then Err (yaml_invalid "attribute is not legal as an Access-Request match key" path)
  else
    let label := if str_eqb (ak_Name key) "" then attrLabel key else ak_Name key in
    let out := mkCompiledAttr key label (am_Op a) in
    if str_eqb (am_Op a) RADIUSMatchOpPresent || str_eqb (am_Op a) RADIUSMatchOpAbsent then
      if negb (str_eqb (am_Value a) "") || negb (str_eqb (am_ValueHex a) "")
      then Err (yaml_invalid "present and absent matches must not set value" path)
      else Ok (out (mkTyped (mkAttrKey 0 0 "") "" "" 0 None []))
    else if str_eqb (am_Op a) RADIUSMatchOpEquals then
      let! tv := parseTypedValue def key (am_Value a) (am_ValueHex a) path in
      Ok (out tv)
    else Err (yaml_invalid "op must be equals, present, or absent" (cat path ".op")).

Fixpoint compileAttrMatches (l : list RADIUSAttrMatch) (path : string) (i : Z) : result domain_error (list compiledAttrMatch) :=
  match l with
  | [] => Ok []
  | a :: l =>
    let! got := compileAttrMatch a (indexPath path i) in
    let! rest := compileAttrMatches l path (i + 1) in
    Ok (got :: rest)
  end.

Definition compileMatch (m : RADIUSMatch) (path : string) : result domain_error compiledMatch :=
  let! method :=
    match rm_Method m with
    | None => Ok None
    | Some v =>
      if AuthMethod_Valid v then Ok (Some v)
      else Err (yaml_invalid "authentication method must be password, pap, chap, mschapv1, mschapv2, or eap" (cat path ".method"))
    end in
  let! attrs := compileAttrMatches (rm_Attributes m) (cat path ".attributes") 0 in
  Ok (mkCompiledMatch (rm_GroupsAny m) method attrs).

Fixpoint compileRules (l : list RADIUSRule) (policyID : string) (profiles : gmap string compiledProfile) (seen : gset string)
  : result domain_error (list compiledRule) :=
  match l with
  | [] => Ok []
  | r :: l =>
    if negb (rr_Enabled r) then compileRules l policyID profiles seen
    else
      let base := cat "radius_policies." (cat policyID (cat ".rules." (rr_ID r))) in
      if str_eqb (rr_ID r) "" then Err (yaml_invalid "id is required" base)
      else if bool_decide (rr_ID r ∈ seen) then Err (yaml_invalid "duplicate rule id" base)
      else if negb (str_eqb (rr_Effect r) EffectPermit) && negb (str_eqb (rr_Effect r) EffectDeny)
      then Err (yaml_invalid "effect must be permit or deny" (cat base ".effect"))
      else
        let! match_ := compileMatch (rr_Match r) (cat base ".match") in
        let! reply := mergeReplyProfiles (rr_Effect r) (rr_ReplyProfiles r) profiles base in
        let! rest := compileRules l policyID profiles ({[rr_ID r]} ∪ seen) in
        Ok (mkCompiledRule (rr_ID r) match_ (rr_Effect r) reply :: rest)
  end.

Definition compilePolicy (p : RADIUSPolicy) (profiles : gmap string compiledProfile) : result domain_error compiledPolicy :=
  let! rules := compileRules (rp_Rules p) (rp_ID p) profiles ∅ in
  Ok (mkCompiledPolicy (rp_ID p) rules).

(** *** The engine *)

Fixpoint compilePolicies (l : list RADIUSPolicy) (profiles : gmap string compiledProfile) (out : gmap string compiledPolicy)
  : result domain_error (gmap string compiledPolicy) :=
  match l with
  | [] => Ok out
  | p :: l =>
    let! cp := compilePolicy p profiles in
    if bool_decide (is_Some (out !! rp_ID p)) then Err (yaml_invalid "duplicate radius policy id" (cat "radius_policies." (rp_ID p)))
    else compilePolicies l profiles (<[rp_ID p := cp]> out)
  end.

(** [_, ok := e.policies[id]] *)
Definition has_policy (policies : gmap string compiledPolicy) (id : string) : bool := bool_decide (is_Some (policies !! id)).

(** One endpoint of an enabled client, then all of them. *)
Definition bind_endpoint (policies : gmap string compiledPolicy) (c : cfgClient) (clients : gmap string compiledClient) (ep : cfgEndpoint)
  : result domain_error (gmap string compiledClient) :=
  match ce_RADIUS ep with
  | None => Ok clients
  | Some pid =>
    if negb (str_eqb (ce_Protocol ep) ProtocolRADIUS) then Ok clients
    else if negb (str_eqb pid "") && negb (has_policy policies pid)
    then Err (mkError CodeNotFound "access_policy_id does not exist" (cat "radius_policies." pid))
    else
      let binding := default (mkCompiledClient ∅ (cc_DefaultGroupIDs c)) (clients !! cc_ID c) in
      let binding := mkCompiledClient (<[ce_ID ep := pid]> (cl_endpoints binding)) (cl_defaultGroupIDs binding) in
      Ok (<[cc_ID c := binding]> clients)
  end.

Fixpoint bind_endpoints (policies : gmap string compiledPolicy) (c : cfgClient) (l : list cfgEndpoint) (clients : gmap string compiledClient)
  : result domain_error (gmap string compiledClient) :=
  match l with
  | [] => Ok clients
  | ep :: l => let! clients := bind_endpoint policies c clients ep in bind_endpoints policies c l clients
  end.

Fixpoint compileClients (policies : gmap string compiledPolicy) (l : list cfgClient) (clients : gmap string compiledClient)
  : result domain_error (gmap string compiledClient) :=
  match l with
  | [] => Ok clients
  | c :: l =>
    if negb (cc_Enabled c) then compileClients policies l clients
    else let! clients := bind_endpoints policies c (cc_Endpoints c) clients in compileClients policies l clients
  end.

Fixpoint compileGroups (policies : gmap string compiledPolicy) (l : list cfgGroup) (groups : gmap string compiledGroup)
  : result domain_error (gmap string compiledGroup) :=
  match l with
  | [] => Ok groups
  | g :: l =>
    let pid := gp_RADIUSPolicyID g in
    if negb (str_eqb pid "") && negb (has_policy policies pid)
    then Err (yaml_invalid "radius_policy_id does not exist" (cat "groups." (cat (gp_ID g) ".radius_policy_id")))
    else compileGroups policies l (<[gp_ID g := mkCompiledGroup (gp_ID g) (gp_Enabled g) (gp_Priority g) pid]> groups)
  end.

Fixpoint compileUsers (policies : gmap string compiledPolicy) (l : list cfgUser) (users : gmap string compiledUser)
  : result domain_error (gmap string compiledUser) :=
  match l with
  | [] => Ok users
  | u :: l =>
    let pid := us_RADIUSPolicyID u in
    if negb (str_eqb pid "") && negb (has_policy policies pid)
    then Err (yaml_invalid "radius_policy_id does not exist" (cat "users." (cat (us_ID u) ".radius_policy_id")))
    else compileUsers policies l (<[us_ID u := mkCompiledUser (us_ID u) (us_Enabled u) (us_GroupIDs u) pid]> users)
  end.

Definition Compile (i : Input) : result domain_error Engine :=
  let! profiles := compileReplyProfiles (in_ReplyProfiles i) ∅ in
  let! policies := compilePolicies (in_Policies i) profiles ∅ in
  let fb := in_FallbackID i in
  if negb (str_eqb fb "") && negb (has_policy policies fb)
  then Err (mkError CodeNotFound "fallback_radius_policy_id does not exist" "fallback_radius_policy_id")
  else
    let! clients := compileClients policies (in_Clients i) ∅ in
    let! groups := compileGroups policies (in_Groups i) ∅ in
    let! users := compileUsers policies (in_Users i) ∅ in
    Ok (mkEngine policies clients users groups fb).

(** *** Effective groups *)

Definition group_less (a b : compiledGroup) : bool := key_less (cg_priority a, cg_id a) (cg_priority b, cg_id b).

(** The loop that keeps the enabled groups. *)
Fixpoint enabled_groups (e : Engine) (ids : list string) : list compiledGroup :=
  match ids with
  | [] => []
  | id :: ids =>
    match en_groups e !! id with
    | Some g => if cg_enabled g then g :: enabled_groups e ids else enabled_groups e ids
    | None => enabled_groups e ids
    end
  end.

Definition effectiveGroups (e : Engine) (userID clientID : string) : list compiledGroup :=
  let '(seen, ids) :=
    match en_users e !! userID with
    | Some u => if cu_enabled u then add_ids (cu_groupIDs u) ∅ [] else (∅, [])
    | None => (∅, [])
    end in
  let '(_, ids) :=
    match en_clients e !! clientID with
    | Some c => add_ids (cl_defaultGroupIDs c) seen ids
    | None => (seen, ids)
    end in
  SliceStable group_less (enabled_groups e ids).

Definition groupIDs (l : list compiledGroup) : list string := map cg_id l.

(** ** Evaluation (types.go, evaluate.go) *)

Record Request := mkRequest {
  rq_UserID : string; rq_ClientID : string; rq_EndpointID : string; rq_Method : string; rq_Groups : list string; rq_Attributes : TypedSet;
}.
Definition with_groups (req : Request) (groups : list string) : Request :=
  mkRequest (rq_UserID req) (rq_ClientID req) (rq_EndpointID req) (rq_Method req) groups (rq_Attributes req).

Record TraceStep := mkStep { ts_Source : string; ts_RuleID : string; ts_Matched : bool; ts_Reason : string }.
Record TraceWinner := mkWinner { tw_Source : string; tw_RuleID : string; tw_Effect : string }.
Record Trace := mkTrace {
  tr_Evaluator : string; tr_UserID : string; tr_ClientID : string; tr_EndpointID : string; tr_Method : string; tr_Groups : list string;
  tr_Steps : list TraceStep; tr_Winner : option TraceWinner; tr_Effect : string; tr_DefaultDeny : string; tr_Error : string;
}.
Record Result := mkResult { rs_Effect : string; rs_ReplyAttributes : TypedSet; rs_Trace : Trace }.

Definition with_steps (tr : Trace) (steps : list TraceStep) : Trace :=
  mkTrace (tr_Evaluator tr) (tr_UserID tr) (tr_ClientID tr) (tr_EndpointID tr) (tr_Method tr) (tr_Groups tr)
    steps (tr_Winner tr) (tr_Effect tr) (tr_DefaultDeny tr) (tr_Error tr).
Definition with_outcome (tr : Trace) (winner : option TraceWinner) (effect deny error : string) : Trace :=
  mkTrace (tr_Evaluator tr) (tr_UserID tr) (tr_ClientID tr) (tr_EndpointID tr) (tr_Method tr) (tr_Groups tr)
    (tr_Steps tr) winner effect deny error.

Definition evaluatorName : string := "radius_access".
Definition sourceUserPrefix : string := "user_policy:".
Definition sourceGroupPrefix : string := "group_policy:".
Definition sourceClientPrefix : string := "client_policy:".
Definition sourceFallback : string := "fallback".

Definition newTrace (req : Request) : Trace :=
  mkTrace evaluatorName (rq_UserID req) (rq_ClientID req) (rq_EndpointID req)
    (if AuthMethod_Valid (rq_Method req) then rq_Method req else "") (rq_Groups req) [] None "" "" "".

Definition denyResult (tr : Trace) (reason : string) : Result :=
  mkResult EffectDeny [] (with_outcome tr None EffectDeny reason (tr_Error tr)).
Definition errorResult (tr : Trace) (reason : string) : Result :=
  mkResult EffectError [] (with_outcome tr None EffectError "" reason).

Definition replyAttrLegal (packet : Z) (a : Typed) : result domain_error unit :=
  if negb (ak_Vendor (ty_Key a) =? 0) then
    if packet =? packetAccessReject then Err (bad_argument "deny rules may include only Access-Reject attributes (Reply-Message)")
    else Ok tt
  else
    match lookupCode builtinDict (ak_Code (ty_Key a)) with
    | None => Err (bad_argument "unknown RADIUS attribute code")
    | Some def =>
      if ad_Secret def || ad_ServerOwned def then Err (bad_argument "attribute is not a policy reply attribute")
      else if (packet =? packetAccessAccept) && negb (ad_allowAccept def) then Err (bad_argument "attribute is not legal in Access-Accept")
      else if (packet =? packetAccessReject) && negb (ad_allowReject def)
      then Err (bad_argument "deny rules may include only Access-Reject attributes (Reply-Message)")
      else Ok tt
    end.

Fixpoint legal_attrs (packet : Z) (attrs : TypedSet) : result domain_error unit :=
  match attrs with
  | [] => Ok tt
  | a :: attrs => let! _ := replyAttrLegal packet a in legal_attrs packet attrs
  end.

Definition CheckReplyLegal (effect : string) (attrs : TypedSet) : result domain_error unit :=
  if str_eqb effect EffectDeny then legal_attrs packetAccessReject attrs
  else if negb (str_eqb effect EffectPermit) then Ok tt
  else legal_attrs packetAccessAccept attrs.

(** [reply.clone()] copies, so it is [reply]. *)
Definition matchedResult (tr : Trace) (source ruleID effect : string) (reply : TypedSet) : Result :=
  match CheckReplyLegal effect reply with
  | Err _ => errorResult tr "illegal reply attributes"
  | Ok _ => mkResult effect reply (with_outcome tr (Some (mkWinner source ruleID effect)) effect "" (tr_Error tr))
  end.

Definition groupsIntersect (have want : list string) : bool :=
  if bool_decide (have = []) || bool_decide (want = []) then false
  else
    let set := filter (fun g => g <> ""%string) have in
    existsb (fun g => bool_decide (g ∈ set)) want.

Definition typedEqual (got want : Typed) : bool :=
  if negb (AttrKey_Equal (ty_Key got) (ty_Key want)) then false
  else if str_eqb (ty_Kind want) KindInteger || str_eqb (ty_Kind want) KindTime then ty_Uint got =? ty_Uint want
  else if str_eqb (ty_Kind want) KindIPv4 || str_eqb (ty_Kind want) KindIPv6 then
    bool_decide (is_Some (ty_Addr got)) && bool_decide (ty_Addr got = ty_Addr want)
  else if (0 <? len (ty_Raw want)) || str_eqb (ty_Kind want) KindString || str_eqb (ty_Kind want) KindVSA then
    bytes_eqb (ty_Raw got) (ty_Raw want)
  else str_eqb (ty_Text got) (ty_Text want).

Definition matchAttr (a : compiledAttrMatch) (set : TypedSet) : bool * string :=
  let attribute := cat "attribute " (ca_label a) in
  if str_eqb (ca_op a) RADIUSMatchOpPresent then
    if negb (Present set (ca_key a)) then (false, cat attribute " not present") else (true, "matched"%string)
  else if str_eqb (ca_op a) RADIUSMatchOpAbsent then
    if Present set (ca_key a) then (false, cat attribute " present") else (true, "matched"%string)
  else if str_eqb (ca_op a) RADIUSMatchOpEquals then
    match TypedSet_First set (ca_key a) with
    | None => (false, cat attribute " equals mismatch")
    | Some got => if negb (typedEqual got (ca_equals a)) then (false, cat attribute " equals mismatch") else (true, "matched"%string)
    end
  else (false, cat attribute " unsupported op").

(** The loop over the attributes of a rule. *)
Fixpoint match_attrs (l : list compiledAttrMatch) (set : TypedSet) : bool * string :=
  match l with
  | [] => (true, "matched"%string)
  | a :: l => let '(ok, reason) := matchAttr a set in if ok then match_attrs l set else (false, reason)
  end.

Definition matchRule (r : compiledRule) (req : Request) : bool * string :=
  let m := cr_match r in
  if negb (bool_decide (cm_groupsAny m = [])) && negb (groupsIntersect (rq_Groups req) (cm_groupsAny m))
  then (false, "groups_any mismatch"%string)
  else if (match cm_method m with Some v => negb (str_eqb (rq_Method req) v) | None => false end)
  then (false, "method mismatch"%string)
  else match_attrs (cm_attrs m) (rq_Attributes req).

(** The result when the walk is done, or the trace to go on with. *)
Fixpoint walk_rules (source : string) (rules : list compiledRule) (req : Request) (tr : Trace) : Result + Trace :=
  match rules with
  | [] => inr tr
  | r :: rules =>
    let '(matched, reason) := matchRule r req in
    let tr := with_steps tr (tr_Steps tr ++ [mkStep source (cr_id r) matched reason]) in
    if matched then inl (matchedResult tr source (cr_id r) (cr_effect r) (cr_reply r)) else walk_rules source rules req tr
  end.

Definition walk (e : Engine) (source policyID : string) (req : Request) (tr : Trace) : Result + Trace :=
  match en_policies e !! policyID with
  | None => inl (errorResult tr "compiled policy missing")
  | Some p => walk_rules source (cp_rules p) req tr
  end.

(** [if res, done := ...; done { return res }] *)
Definition unless_done (x : Result + Trace) (k : Trace -> Result + Trace) : Result + Trace :=
  match x with inl res => inl res | inr tr => k tr end.

Fixpoint walk_groups (e : Engine) (groups : list compiledGroup) (req : Request) (tr : Trace) : Result + Trace :=
  match groups with
  | [] => inr tr
  | g :: groups =>
    if str_eqb (cg_policyID g) "" then walk_groups e groups req tr
    else unless_done (walk e (cat sourceGroupPrefix (cg_policyID g)) (cg_policyID g) req tr) (walk_groups e groups req)
  end.

(** The policy of the request's endpoint; the only one of a client when the
    request names none. *)
Definition client_policy (binding : compiledClient) (endpointID : string) : string :=
  let pid := default ""%string (cl_endpoints binding !! endpointID) in
  if str_eqb endpointID "" && (Z.of_nat (size (cl_endpoints binding)) =? 1) then
    fold_left (fun _ only => snd only) (map_to_list (cl_endpoints binding)) pid
  else pid.

Definition Evaluate (e : option Engine) (req : Request) : Result :=
  match e with
  | None => errorResult (newTrace req) "policy engine is not compiled"
  | Some e =>
    let binding := en_clients e !! rq_ClientID req in
    if (match binding with
        | Some b => str_eqb (rq_EndpointID req) "" && (1 <? Z.of_nat (size (cl_endpoints b)))
        | None => false
        end)
    then errorResult (newTrace req) "endpoint is required for a client with multiple RADIUS endpoints"
    else
      let user := en_users e !! rq_UserID req in
      let groups := effectiveGroups e (rq_UserID req) (rq_ClientID req) in
      let req := if bool_decide (is_Some user) then with_groups req (groupIDs groups) else req in
      let out :=
        unless_done
          (match user with
           | Some u =>
             if cu_enabled u && negb (str_eqb (cu_policyID u) "")
             then walk e (cat sourceUserPrefix (cu_policyID u)) (cu_policyID u) req (newTrace req)
             else inr (newTrace req)
           | None => inr (newTrace req)
           end) (fun tr =>
        unless_done (walk_groups e groups req tr) (fun tr =>
        unless_done
          (match binding with
           | Some b =>
             let pid := client_policy b (rq_EndpointID req) in
             if negb (str_eqb pid "") then walk e (cat sourceClientPrefix pid) pid req tr else inr tr
           | None => inr tr
           end) (fun tr =>
        if negb (str_eqb (en_fallback e) "") then walk e sourceFallback (en_fallback e) req tr else inr tr))) in
      match out with inl res => res | inr tr => denyResult tr "no matching access rule" end
  end.

(** ** The dictionary never panics and is unambiguous *)

Lemma mustBuiltin_ok : mustBuiltin = Some builtinDict.
Proof. vm_compute. reflexivity. Qed.

(** An IETF definition is under its name and under its code. *)
Definition ietf_entry (d : attrDef) : Prop := ad_Vendor d = 0 -> lookupCode builtinDict (ad_Code d) = Some d.
#[export] Instance ietf_entry_dec d : Decision (ietf_entry d).
Proof. unfold ietf_entry. apply _. Defined.

(** Attributes of a vendor may be repeated, and are text or opaque. *)
Definition vendor_entry (d : attrDef) : Prop :=
  ad_Vendor d <> 0 \/ ad_Kind d = KindVSA -> ad_Cardinality d = CardinalityMulti /\ (ad_Kind d = KindText \/ ad_Kind d = KindVSA).
#[export] Instance vendor_entry_dec d : Decision (vendor_entry d).
Proof. unfold vendor_entry. apply _. Defined.

Definition named_kinds : list string := [KindText; KindString; KindInteger; KindIPv4; KindIPv6; KindTime; KindVSA].
Definition entry_ok (d : attrDef) : Prop := ietf_entry d /\ vendor_entry d /\ ad_Kind d ∈ named_kinds.
#[export] Instance entry_ok_dec d : Decision (entry_ok d).
Proof. unfold entry_ok. apply _. Defined.

Lemma builtin_entries : map_Forall (fun _ d => entry_ok d) (byName builtinDict).
Proof. apply (bool_decide_eq_true_1 _). vm_compute. reflexivity. Qed.
Lemma builtin_codes : map_Forall (fun c d => ad_Code d = c /\ ad_Vendor d = 0 /\ entry_ok d) (byCode builtinDict).
Proof. apply (bool_decide_eq_true_1 _). vm_compute. reflexivity. Qed.

Lemma lookupName_entry name d : lookupName builtinDict name = Some d -> entry_ok d.
Proof. apply builtin_entries. Qed.
Lemma vendor_specific_entry : entry_ok vendor_specific /\ ad_Kind vendor_specific = KindVSA.
Proof. apply (bool_decide_eq_true_1 _). vm_compute. reflexivity. Qed.
Lemma lookupCode_entry c d : lookupCode builtinDict c = Some d -> ad_Code d = c /\ ad_Vendor d = 0 /\ entry_ok d.
Proof. apply builtin_codes. Qed.
Lemma lookupVSA_entry v c d : lookupVSA builtinDict v c = Some d -> ad_Vendor d = v /\ ad_Code d = c /\ entry_ok d.
Proof.
  unfold lookupVSA. intros [Hin Heq]%List.find_some. bool_hyps. split; [lia|split; [lia|]].
  apply list_elem_of_In, list_elem_of_fmap in Hin as ([n d'] & -> & Hin%elem_of_map_to_list); apply (lookupName_entry n d'), Hin.
Qed.

#[local] Opaque builtinDict entry_ok.

(** *** What a name resolves to *)

Inductive ietf (c : Z) (d : attrDef) : Prop := ietf_intro : lookupCode builtinDict c = Some d -> ietf c d.

Definition resolved (def : attrDef) (key : AttrKey) : Prop :=
  entry_ok def
  /\ (ak_Vendor key = 0 /\ def_key def = key /\ ietf (ak_Code key) def
      \/ ak_Vendor key <> 0 /\ (ad_Vendor def <> 0 \/ ad_Kind def = KindVSA)).

Lemma resolved_key d : entry_ok d -> resolved d (def_key d).
Proof.
  intros H. split; [done|]. destruct (Z.eq_dec (ad_Vendor d) 0) as [E|E]; [left|right].
  - split; [exact E|split; [reflexivity|]]. constructor. exact (proj1 H E).
  - split; [exact E|by left].
Qed.

Lemma resolveAttr_resolved name v c path def key : resolveAttr name v c path = Ok (def, key) -> resolved def key.
Proof.
  unfold resolveAttr. pose proof vendor_specific_entry as Hvs. revert Hvs. generalize vendor_specific. intros vs Hvs.
  repeat case_match; intros H'; try discriminate H'; apply Ok_inj, pair_equal_spec in H' as [<- <-].
  all: try (apply resolved_key; first [eapply lookupName_entry; eassumption | eapply lookupCode_entry; eassumption | eapply lookupVSA_entry; eassumption]).
  all: bool_hyps.
  - split; [eapply lookupName_entry; eassumption|right]. cbn [ak_Vendor]. split; [lia|right].
    match goal with H : str_eqb _ KindVSA = true |- _ => exact (bool_decide_eq_true_1 _ H) end.
  - split; [apply Hvs|right]. cbn [ak_Vendor]. split; [lia|right; apply Hvs].
Qed.

(** *** Typed values *)

(** A value has the shape its kind asks for. *)
Definition typed_ok (t : Typed) : Prop :=
  if ak_Vendor (ty_Key t) =? 0 then
    (ty_Kind t = KindInteger \/ ty_Kind t = KindTime -> is_u32 (ty_Uint t))
    /\ (ty_Kind t = KindIPv4 -> Addr_Is4 (ty_Addr t) = true)
    /\ (ty_Kind t = KindIPv6 -> Addr_Is6 (ty_Addr t) = true)
  else ty_Kind t = KindVSA \/ ty_Kind t = KindText /\ ty_Raw t = octets_of (ty_Text t).

Lemma hex_pairs_u8 b out : hex_pairs b = Some out -> Forall is_u8 out.
Proof.
  remember (length b) as n. revert b Heqn out. induction (lt_wf n) as [n _ IH]. intros b -> out. destruct b as [|hi [|lo b]]; cbn [hex_pairs].
  - by intros [= <-].
  - done.
  - destruct (hex_value hi) as [h|] eqn:Eh; [|done]. destruct (hex_value lo) as [l|] eqn:El; [|done]. cbn [mbind option_bind].
    destruct (hex_pairs b) as [rest|] eqn:E; [|done]. intros [= <-].
    apply hex_value_range in Eh, El. constructor; [|apply (IH (length b)) with b; [cbn; lia|done|done]].
    unfold is_u8. rewrite Z.lor_comm, lor_shiftl_add by lia. lia.
Qed.

Lemma str_eqb_eq a b : str_eqb a b = true -> a = b.
Proof. exact (bool_decide_eq_true_1 _). Qed.

Definition typed_for (def : attrDef) (key : AttrKey) (t : Typed) : Prop :=
  ty_Key t = key /\ typed_ok t /\ (ak_Vendor key = 0 -> ty_Kind t = ad_Kind def).

Lemma typed_for_text def key text raw :
  ak_Vendor key <> 0 -> ad_Kind def = KindText -> raw = octets_of text -> typed_for def key (mkTyped key (ad_Kind def) text 0 None raw).
Proof.
  intros Hv Hk Hr. split; [reflexivity|split; [|lia]]. unfold typed_ok. cbn [ty_Key ty_Kind ty_Raw ty_Text].
  rewrite (proj2 (Z.eqb_neq _ _) Hv). by right.
Qed.

Lemma typed_for_vsa def key raw :
  (ak_Vendor key = 0 -> ad_Kind def = KindVSA) -> typed_for def key (mkTyped key KindVSA "" 0 None raw).
Proof.
  intros Hk. split; [reflexivity|split; [|by intros Hv; rewrite Hk]]. unfold typed_ok. cbn [ty_Key ty_Kind].
  destruct (ak_Vendor key =? 0); [|by left]. split; [by intros [?|?]|by split].
Qed.

Lemma typed_for_plain def key text n a raw :
  ak_Vendor key = 0 ->
  (ad_Kind def = KindInteger \/ ad_Kind def = KindTime -> is_u32 n) -> (ad_Kind def = KindIPv4 -> Addr_Is4 a = true) ->
  (ad_Kind def = KindIPv6 -> Addr_Is6 a = true) -> typed_for def key (mkTyped key (ad_Kind def) text n a raw).
Proof.
  intros Hv H1 H2 H3. split; [reflexivity|split; [|reflexivity]]. unfold typed_ok. cbn [ty_Key ty_Kind ty_Uint ty_Addr].
  by rewrite Hv.
Qed.

Lemma parseTypedValue_ok def key value valueHex path t :
  resolved def key -> parseTypedValue def key value valueHex path = Ok t -> typed_for def key t.
Proof.
  intros [_ Hk] H. unfold parseTypedValue, DecodeString in H. cbv zeta in H.
  destruct (negb (ad_Vendor def =? 0) && _) eqn:E1 in H.
  { bool_hyps. assert (ak_Vendor key <> 0) as Hv by (destruct Hk as [(? & <- & _)|[? _]]; [exfalso; cbn in *; lia|assumption]).
    match goal with H : str_eqb _ KindText = true |- _ => apply str_eqb_eq in H; rename H into Ht end.
    destruct (negb (str_eqb valueHex "")); [|by apply Ok_inj in H as <-; apply typed_for_text].
    destruct (hex_pairs _) as [b|] eqn:Eb in H; [|discriminate H]. destruct (_ && _) in H; [discriminate H|].
    apply Ok_inj in H as <-. apply typed_for_text; [done..|]. symmetry. apply octets_of_text, (hex_pairs_u8 _ _ Eb). }
  destruct (str_eqb (ad_Kind def) KindVSA || _) eqn:E2 in H.
  { destruct (str_eqb valueHex ""); [discriminate H|]. destruct (hex_pairs _) as [b|] in H; [|discriminate H].
    apply Ok_inj in H as <-. apply typed_for_vsa. intros Hv. rewrite Hv, orb_false_r in E2. by apply str_eqb_eq. }
  apply orb_false_iff in E2 as [_ Hv%negb_false_iff%Z.eqb_eq]. clear E1 Hk.
  destruct (str_eqb (ad_Kind def) KindInteger || _) eqn:E2 in H.
  { destruct (ParseUintBits _ _) as [n|] in H; [|discriminate H]. apply Ok_inj in H as <-. apply typed_for_plain; [done|..].
    - intros _. unfold is_u32, to_u32. apply Z.mod_pos_bound. lia.
    - intros He. by rewrite He in E2.
    - intros He. by rewrite He in E2. }
  assert (forall n, ad_Kind def = KindInteger \/ ad_Kind def = KindTime -> is_u32 n) as Hint by (intros n [He|He]; by rewrite He in E2).
  destruct (str_eqb (ad_Kind def) KindIPv4) eqn:E3 in H.
  { destruct (Addr_Is4 _) eqn:Ea in H; [|discriminate H]. apply Ok_inj in H as <-. apply typed_for_plain; [done|done|done|].
    apply str_eqb_eq in E3. intros He. by rewrite He in E3. }
  destruct (str_eqb (ad_Kind def) KindIPv6) eqn:E4 in H.
  { destruct (Addr_Is6 _) eqn:Ea in H; [|discriminate H]. apply Ok_inj in H as <-. apply typed_for_plain; [done|done| |done].
    intros He. by rewrite He in E3. }
  assert (forall text raw, typed_for def key (mkTyped key (ad_Kind def) text 0 None raw)) as Hlast.
  { intros text raw. apply typed_for_plain; [done|done|intros He; by rewrite He in E3|intros He; by rewrite He in E4]. }
  repeat case_match; try discriminate H; apply Ok_inj in H as <-; apply Hlast.
Qed.

(** ** Replies are legal by construction *)

Definition packet_of (effect : string) : Z := if str_eqb effect EffectDeny then packetAccessReject else packetAccessAccept.

(** The attribute may be in the packet. *)
Definition attr_legal (packet : Z) (t : Typed) : Prop :=
  if ak_Vendor (ty_Key t) =? 0 then
    exists def, ietf (ak_Code (ty_Key t)) def /\ ad_Secret def = false /\ ad_ServerOwned def = false
      /\ (packet = packetAccessAccept -> ad_allowAccept def = true) /\ (packet = packetAccessReject -> ad_allowReject def = true)
  else packet <> packetAccessReject.

(** The attribute may be there only once. *)
Definition is_single (k : AttrKey) : bool :=
  (ak_Vendor k =? 0)
  && match lookupCode builtinDict (ak_Code k) with Some d => str_eqb (ad_Cardinality d) CardinalitySingle | None => false end.

Definition singles (l : TypedSet) : list AttrKey := filter (fun k => is_single k = true) (map ty_Key l).

(** What the compiler ensures of the reply of a rule. *)
Record reply_sound (packet : Z) (l : TypedSet) : Prop := {
  rs_legal : Forall (attr_legal packet) l;
  rs_typed : Forall typed_ok l;
  rs_once : NoDup (singles l);
}.

Lemma replyAttrLegal_iff packet t : replyAttrLegal packet t = Ok tt <-> attr_legal packet t.
Proof.
  unfold replyAttrLegal, attr_legal. destruct (ak_Vendor (ty_Key t) =? 0); cbn [negb].
  - generalize (ak_Code (ty_Key t)). intros c. destruct (lookupCode builtinDict c) as [d|] eqn:E; split.
    + intros H. exists d. split; [by constructor|]. clear E.
      destruct (ad_Secret d), (ad_ServerOwned d); try discriminate H. cbn [orb] in H.
      destruct (Z.eqb_spec packet packetAccessAccept) as [Ha|Ha], (Z.eqb_spec packet packetAccessReject) as [Hr|Hr],
        (ad_allowAccept d), (ad_allowReject d); cbn in H; try discriminate H; repeat split; congruence.
    + intros (d' & [Hd] & Hs & Ho & Ha & Hr). rewrite E in Hd. assert (d = d') as <- by congruence. clear E Hd. rewrite Hs, Ho. cbn [orb].
      destruct (Z.eqb_spec packet packetAccessAccept) as [H|H]; [rewrite Ha by exact H|]; cbn [andb negb];
        (destruct (Z.eqb_spec packet packetAccessReject) as [H'|H']; [rewrite Hr by exact H'|]; reflexivity).
    + intros H. discriminate H.
    + intros (d' & [Hd] & _). rewrite E in Hd. discriminate Hd.
  - destruct (Z.eqb_spec packet packetAccessReject) as [H|H]; split; intros H'; try discriminate H'; done.
Qed.

Lemma legal_attrs_iff packet l : legal_attrs packet l = Ok tt <-> Forall (attr_legal packet) l.
Proof.
  induction l as [|t l IH]; cbn [legal_attrs]; [split; [constructor|reflexivity]|].
  rewrite List.Forall_cons_iff, <- replyAttrLegal_iff, <- IH. destruct (replyAttrLegal packet t) as [[]|]; cbn [rbind]; [tauto|].
  split; [intros H; discriminate H|intros [H _]; discriminate H].
Qed.

Lemma CheckReplyLegal_sound effect l :
  effect = EffectPermit \/ effect = EffectDeny -> (CheckReplyLegal effect l = Ok tt <-> Forall (attr_legal (packet_of effect)) l).
Proof. intros H. rewrite <- legal_attrs_iff. unfold CheckReplyLegal, packet_of. by destruct H as [-> | ->]. Qed.

(** An Access-Reject may carry the Reply-Message only. *)
Lemma reject_codes : map_Forall (fun c d => ad_Secret d = false -> ad_ServerOwned d = false -> ad_allowReject d = true -> c = 18) (byCode builtinDict).
Proof. apply (bool_decide_eq_true_1 _). vm_compute. reflexivity. Qed.

Lemma legal_reject t : attr_legal packetAccessReject t -> ak_Vendor (ty_Key t) = 0 /\ ak_Code (ty_Key t) = 18.
Proof.
  unfold attr_legal. destruct (Z.eqb_spec (ak_Vendor (ty_Key t)) 0) as [E|E]; [|by intros []].
  intros (d & [Hd] & Hs & Ho & _ & Hr). split; [exact E|]. exact (reject_codes _ _ Hd Hs Ho (Hr eq_refl)).
Qed.

(** *** The compiler's loops *)

Record compiled_reply (a : compiledReplyAttr) : Prop := {
  cp_resolved : resolved (cy_def a) (cy_key a);
  cp_secret : ad_Secret (cy_def a) = false;
  cp_owned : ad_ServerOwned (cy_def a) = false;
  cp_typed : typed_for (cy_def a) (cy_key a) (cy_attr a);
}.

Definition profiles_ok (m : gmap string compiledProfile) : Prop := map_Forall (fun _ p => Forall compiled_reply (cf_attrs p)) m.

Lemma compileReplyAttr_ok a path r : compileReplyAttr a path = Ok r -> compiled_reply r.
Proof.
  unfold compileReplyAttr. intros ([def key] & Hr & H)%rbind_Ok.
  destruct (ad_Secret def) eqn:Es; [discriminate H|]. destruct (ad_ServerOwned def) eqn:Eo; [discriminate H|]. cbn [orb] in H.
  apply rbind_Ok in H as (tv & Ht & <-%Ok_inj). apply resolveAttr_resolved in Hr.
  split; [assumption..|]. by apply parseTypedValue_ok in Ht.
Qed.

Lemma compileReplyAttrs_ok l path i rs : compileReplyAttrs l path i = Ok rs -> Forall compiled_reply rs.
Proof.
  revert i rs. induction l as [|a l IH]; intros i rs; cbn [compileReplyAttrs]; [intros <-%Ok_inj; constructor|].
  intros (r & Hr & (rest & Hrest & <-%Ok_inj)%rbind_Ok)%rbind_Ok. constructor; [by apply compileReplyAttr_ok in Hr|by eapply IH].
Qed.

Lemma compileReplyProfiles_ok l m m' : profiles_ok m -> compileReplyProfiles l m = Ok m' -> profiles_ok m'.
Proof.
  revert m. induction l as [|p l IH]; intros m Hm; cbn [compileReplyProfiles]; [by intros <-%Ok_inj|].
  intros (attrs & Ha & H)%rbind_Ok. apply IH in H; [assumption|]. apply map_Forall_insert_2; [|assumption].
  exact (compileReplyAttrs_ok _ _ _ _ Ha).
Qed.

Lemma is_single_resolved def key : resolved def key -> is_single key = str_eqb (ad_Cardinality def) CardinalitySingle.
Proof.
  intros [He [(Hv & _ & [Hc])|[Hv Hk]]]; unfold is_single.
  - rewrite Hv, Hc. reflexivity.
  - rewrite (proj2 (Z.eqb_neq _ _) Hv). destruct He as [_ [Hvd _]]. by rewrite (proj1 (Hvd Hk)).
Qed.

Lemma singles_app l1 l2 : singles (l1 ++ l2) = singles l1 ++ singles l2.
Proof. unfold singles. by rewrite map_app, list.filter_app. Qed.

(** What the merge knows after the attributes [out]. *)
Record merging (packet : Z) (seen : gmap AttrKey string) (out : TypedSet) : Prop := {
  mg_sound : reply_sound packet out;
  mg_seen : forall k, k ∈ singles out -> is_Some (seen !! k);
}.

Lemma merging_nil packet : merging packet ∅ [].
Proof. split; [split; constructor|]. intros k Hk. inversion Hk. Qed.

Lemma merge_step packet seen out a id :
  packet = packetAccessAccept \/ packet = packetAccessReject -> compiled_reply a -> merging packet seen out ->
  (packet = packetAccessAccept -> ak_Vendor (cy_key a) = 0 -> ad_allowAccept (cy_def a) = true) ->
  (packet = packetAccessReject -> ak_Vendor (cy_key a) = 0 /\ ad_allowReject (cy_def a) = true) ->
  (if str_eqb (ad_Cardinality (cy_def a)) CardinalitySingle then seen !! cy_key a = None else True) ->
  merging packet (if str_eqb (ad_Cardinality (cy_def a)) CardinalitySingle then <[cy_key a := id]> seen else seen) (out ++ [cy_attr a]).
Proof.
  intros Hp [Hr Hs Ho (Hkey & Hty & _)] [[Hl Ht Hn] Hseen] Ha Hj Hc. pose proof (is_single_resolved _ _ Hr) as Hsg.
  assert (singles [cy_attr a] = if str_eqb (ad_Cardinality (cy_def a)) CardinalitySingle then [cy_key a] else []) as Hone.
  { unfold singles. cbn [map]. rewrite Hkey, filter_cons, Hsg. destruct (str_eqb _ _); reflexivity. }
  split; [split|].
  - apply Forall_app. split; [assumption|]. constructor; [|constructor]. unfold attr_legal. rewrite Hkey.
    destruct Hr as [_ [(Hv & _ & Hi)|[Hv _]]].
    + rewrite Hv. exists (cy_def a). split; [assumption|split; [assumption|split; [assumption|]]]. split; [by intros H; apply Ha|by intros H; apply Hj].
    + rewrite (proj2 (Z.eqb_neq _ _) Hv). intros H. by apply Hv, Hj.
  - apply Forall_app. split; [assumption|]. constructor; [assumption|constructor].
  - rewrite singles_app, Hone. destruct (str_eqb _ _); [|by rewrite app_nil_r]. apply list.NoDup_app. split; [assumption|]. split; [|repeat constructor; apply not_elem_of_nil].
    intros k Hk Hin. apply list_elem_of_singleton in Hin as ->. apply Hseen in Hk as [x Hx]. congruence.
  - intros k. rewrite singles_app, Hone, elem_of_app. destruct (str_eqb _ _).
    + intros [Hk | ->%list_elem_of_singleton]; [|rewrite lookup_insert_eq; eauto].
      destruct (decide (cy_key a = k)) as [-> |]; [rewrite lookup_insert_eq; eauto|]. rewrite lookup_insert_ne by assumption. by apply Hseen.
    + intros [Hk|Hk]; [by apply Hseen|inversion Hk].
Qed.

Lemma merge_attrs_ok packet id path l seen out seen' out' :
  packet = packetAccessAccept \/ packet = packetAccessReject -> Forall compiled_reply l -> merging packet seen out ->
  merge_attrs packet id path l seen out = Ok (seen', out') -> merging packet seen' out' /\ out' = out ++ map cy_attr l.
Proof.
  intros Hp Hl. revert seen out. induction l as [|a l IH]; intros seen out Hm; cbn [merge_attrs map].
  { intros H. apply Ok_inj, pair_equal_spec in H as [<- <-]. by rewrite app_nil_r. }
  apply Forall_cons_1 in Hl as [Ha Hl]. cbv zeta.
  destruct ((packet =? packetAccessAccept) && _ && _) eqn:E1; [intros H; discriminate H|].
  destruct ((packet =? packetAccessReject) && _) eqn:E2; [intros H; discriminate H|]. intros H.
  assert (forall seen1, merge_attrs packet id path l seen1 (out ++ [cy_attr a]) = Ok (seen', out') -> merging packet seen1 (out ++ [cy_attr a]) ->
    merging packet seen' out' /\ out' = out ++ cy_attr a :: map cy_attr l) as Hgo.
  { intros seen1 H1 Hm1. apply (IH Hl) in H1 as [H1 ->]; [|assumption]. split; [assumption|]. by rewrite <- app_assoc. }
  pose proof (merge_step packet seen out a id Hp Ha Hm) as Hstep.
  assert (packet = packetAccessAccept -> ak_Vendor (cy_key a) = 0 -> ad_allowAccept (cy_def a) = true) as H1.
  { intros -> Hv. rewrite Hv in E1. by destruct (ad_allowAccept (cy_def a)). }
  assert (packet = packetAccessReject -> ak_Vendor (cy_key a) = 0 /\ ad_allowReject (cy_def a) = true) as H2.
  { intros ->. rewrite Z.eqb_refl in E2. cbn [andb] in E2. apply orb_false_iff in E2 as [Hv%negb_false_iff%Z.eqb_eq Hr%negb_false_iff]. by split. }
  specialize (Hstep H1 H2). destruct (str_eqb (ad_Cardinality (cy_def a)) CardinalitySingle).
  - destruct (seen !! cy_key a); [discriminate H|]. by apply (Hgo _ H), Hstep.
  - by apply (Hgo _ H), Hstep.
Qed.

(** The attributes the profiles [ids] list. *)
Definition listed (profiles : gmap string compiledProfile) (ids : list string) : TypedSet :=
  concat (map (fun id => match profiles !! id with Some p => map cy_attr (cf_attrs p) | None => [] end) ids).

Lemma merge_profiles_ok packet ids profiles path i seen out out' :
  packet = packetAccessAccept \/ packet = packetAccessReject -> profiles_ok profiles -> merging packet seen out ->
  merge_profiles packet ids profiles path i seen out = Ok out' ->
  reply_sound packet out' /\ out' = out ++ listed profiles ids /\ Forall (fun id => is_Some (profiles !! id)) ids.
Proof.
  intros Hp Hpr. revert i seen out. induction ids as [|id ids IH]; intros i seen out Hm; cbn [merge_profiles].
  { intros <-%Ok_inj. split; [apply Hm|]. split; [by rewrite app_nil_r|constructor]. }
  destruct (profiles !! id) as [p|] eqn:E; [|intros H; discriminate H]. intros ([seen1 out1] & H1 & H)%rbind_Ok.
  apply (merge_attrs_ok packet) in H1 as [Hm1 ->]; [|assumption|exact (Hpr _ _ E)|assumption].
  apply IH in H as (Hs & -> & Hids); [|assumption]. split; [assumption|]. split.
  - unfold listed. cbn [map concat]. rewrite E. by rewrite app_assoc.
  - constructor; [rewrite E; eauto|assumption].
Qed.

Lemma mergeReplyProfiles_ok effect ids profiles path reply :
  profiles_ok profiles -> mergeReplyProfiles effect ids profiles path = Ok reply ->
  reply_sound (packet_of effect) reply /\ reply = listed profiles ids /\ Forall (fun id => is_Some (profiles !! id)) ids.
Proof.
  intros Hp. unfold mergeReplyProfiles. case_bool_decide as Hids.
  - intros <-%Ok_inj. subst ids. split; [split; constructor|]. split; [reflexivity|constructor].
  - intros H. apply (merge_profiles_ok (packet_of effect)) in H; [assumption| |assumption|apply merging_nil].
    unfold packet_of. destruct (str_eqb effect EffectDeny); [by right|by left].
Qed.

(** ** What a rule asks for *)

Definition has_attr (key : AttrKey) (t : Typed) : Prop :=
  ak_Vendor (ty_Key t) = ak_Vendor key /\ ak_Code (ty_Key t) = ak_Code key.

(** The first instance decides an [equals]. *)
Definition attr_holds (a : compiledAttrMatch) (set : TypedSet) : Prop :=
  if str_eqb (ca_op a) RADIUSMatchOpPresent then Exists (has_attr (ca_key a)) set
  else if str_eqb (ca_op a) RADIUSMatchOpAbsent then Forall (fun t => ~ has_attr (ca_key a) t) set
  else exists pre t post, set = pre ++ t :: post /\ Forall (fun t => ~ has_attr (ca_key a) t) pre
    /\ has_attr (ca_key a) t /\ typedEqual t (ca_equals a) = true.

Definition rule_holds (c : compiledRule) (req : Request) : Prop :=
  let m := cr_match c in
  (cm_groupsAny m = [] \/ exists g, g <> ""%string /\ g ∈ rq_Groups req /\ g ∈ cm_groupsAny m)
  /\ (forall v, cm_method m = Some v -> rq_Method req = v)
  /\ Forall (fun a => attr_holds a (rq_Attributes req)) (cm_attrs m).

Lemma AttrKey_Equal_iff t key : AttrKey_Equal (ty_Key t) key = true <-> has_attr key t.
Proof. unfold AttrKey_Equal, has_attr. rewrite andb_true_iff, !Z.eqb_eq. reflexivity. Qed.
Lemma AttrKey_Equal_not t key : AttrKey_Equal (ty_Key t) key = false <-> ~ has_attr key t.
Proof. rewrite <- AttrKey_Equal_iff. by destruct (AttrKey_Equal _ _); split. Qed.

Lemma TypedSet_First_spec s key :
  match TypedSet_First s key with
  | Some t => exists pre post, s = pre ++ t :: post /\ Forall (fun t => ~ has_attr key t) pre /\ has_attr key t
  | None => Forall (fun t => ~ has_attr key t) s
  end.
Proof.
  induction s as [|a s IH]; cbn [TypedSet_First]; [constructor|]. destruct (AttrKey_Equal (ty_Key a) key) eqn:E.
  - apply AttrKey_Equal_iff in E. exists [], s. split; [reflexivity|split; [constructor|assumption]].
  - apply AttrKey_Equal_not in E. destruct (TypedSet_First s key) as [t|].
    + destruct IH as (pre & post & -> & Hp & Ht). exists (a :: pre), post. split; [reflexivity|]. split; [by constructor|assumption].
    + by constructor.
Qed.

Lemma Present_iff s key : Present s key = true <-> Exists (has_attr key) s.
Proof.
  unfold Present. pose proof (TypedSet_First_spec s key) as H. destruct (TypedSet_First s key) as [t|]; split; try done.
  - intros _. destruct H as (pre & post & -> & _ & Ht). apply Exists_app. right. by constructor.
  - intros He. exfalso. apply (Forall_not_Exists _ _ H He).
Qed.

Lemma matchAttr_iff a set :
  ca_op a ∈ [RADIUSMatchOpPresent; RADIUSMatchOpAbsent; RADIUSMatchOpEquals] -> fst (matchAttr a set) = true <-> attr_holds a set.
Proof.
  intros Hop. unfold matchAttr, attr_holds. pose proof (Present_iff set (ca_key a)) as Hp.
  destruct (str_eqb (ca_op a) RADIUSMatchOpPresent) eqn:E1; [by destruct (Present set (ca_key a))|].
  destruct (str_eqb (ca_op a) RADIUSMatchOpAbsent) eqn:E2.
  { destruct (Present set (ca_key a)) eqn:E; cbn [negb fst].
    - split; [done|]. intros Hf. exfalso. apply (Forall_not_Exists _ _ Hf). by apply Hp.
    - split; [|done]. intros _. unfold Present in E. pose proof (TypedSet_First_spec set (ca_key a)) as H.
      by destruct (TypedSet_First set (ca_key a)). }
  assert (ca_op a = RADIUSMatchOpEquals) as ->.
  { rewrite !elem_of_cons, elem_of_nil in Hop. destruct Hop as [H|[H|[H|[]]]]; [rewrite H in E1; done|rewrite H in E2; done|done]. }
  assert (str_eqb RADIUSMatchOpEquals RADIUSMatchOpEquals = true) as -> by reflexivity.
  pose proof (TypedSet_First_spec set (ca_key a)) as H. destruct (TypedSet_First set (ca_key a)) as [t|].
  - destruct H as (pre & post & -> & Hpre & Ht). destruct (typedEqual t (ca_equals a)) eqn:Eq; cbn [negb fst].
    + split; [|done]. intros _. by exists pre, t, post.
    + split; [done|]. intros (pre' & t' & post' & Heq & Hpre' & Ht' & Eq'). exfalso.
      assert (t = t') as <-; [|congruence]. clear - Heq Hpre Hpre' Ht Ht'. revert pre' Heq Hpre'.
      induction pre as [|x pre IH]; intros [|y pre'] Heq Hpre'; cbn in Heq; simplify_eq; try done.
      * apply Forall_cons_1 in Hpre' as [? _]. done.
      * apply Forall_cons_1 in Hpre as [? _]. done.
      * apply Forall_cons_1 in Hpre as [_ Hpre]. apply Forall_cons_1 in Hpre' as [_ Hpre']. by apply (IH Hpre pre').
  - split; [done|]. intros (pre & t & post & -> & _ & Ht & _). exfalso. apply Forall_app in H as [_ H].
    by apply Forall_cons_1 in H as [H _].
Qed.

Definition ops_ok (c : compiledRule) : Prop :=
  Forall (fun a => ca_op a ∈ [RADIUSMatchOpPresent; RADIUSMatchOpAbsent; RADIUSMatchOpEquals]) (cm_attrs (cr_match c)).

Lemma match_attrs_iff l set :
  Forall (fun a => ca_op a ∈ [RADIUSMatchOpPresent; RADIUSMatchOpAbsent; RADIUSMatchOpEquals]) l ->
  fst (match_attrs l set) = true <-> Forall (fun a => attr_holds a set) l.
Proof.
  induction 1 as [|a l Ha _ IH]; cbn [match_attrs]; [by split|]. rewrite List.Forall_cons_iff, <- IH.
  pose proof (matchAttr_iff a set Ha) as Hm. destruct (matchAttr a set) as [[] reason]; cbn [fst] in *; [tauto|].
  split; [done|]. intros [H _]. by apply Hm in H.
Qed.

Lemma groupsIntersect_iff have want :
  groupsIntersect have want = true <-> exists g, g <> ""%string /\ g ∈ have /\ g ∈ want.
Proof.
  unfold groupsIntersect. case_bool_decide as H1; [subst; cbn; split; [done|intros (g & _ & Hg & _); inversion Hg]|].
  case_bool_decide as H2; [subst; cbn; split; [done|intros (g & _ & _ & Hg); inversion Hg]|]. cbn [orb].
  rewrite existsb_exists. split.
  - intros (g & Hin & Hg%bool_decide_eq_true). apply list_elem_of_filter in Hg as [Hne Hg]. exists g. split; [exact Hne|split; [exact Hg|by apply list_elem_of_In]].
  - intros (g & Hne & Hh & Hw). exists g. split; [by apply list_elem_of_In|]. apply bool_decide_eq_true, list_elem_of_filter. exact (conj Hne Hh).
Qed.

Lemma matchRule_iff c req : ops_ok c -> fst (matchRule c req) = true <-> rule_holds c req.
Proof.
  unfold ops_ok, matchRule, rule_holds. generalize (cr_match c). intros m Hops.
  assert ((cm_groupsAny m = [] \/ exists g, g <> ""%string /\ g ∈ rq_Groups req /\ g ∈ cm_groupsAny m)
    <-> negb (bool_decide (cm_groupsAny m = [])) && negb (groupsIntersect (rq_Groups req) (cm_groupsAny m)) = false) as ->.
  { rewrite <- groupsIntersect_iff. case_bool_decide; destruct (groupsIntersect _ _); cbn; intuition congruence. }
  destruct (_ && _); [cbn; intuition congruence|].
  assert ((forall v, cm_method m = Some v -> rq_Method req = v)
    <-> (match cm_method m with Some v => negb (str_eqb (rq_Method req) v) | None => false end) = false) as ->.
  { destruct (cm_method m) as [v|]; [|by split]. unfold str_eqb. case_bool_decide; cbn; split; intros H'; try done.
    - intros v' [= <-]. done.
    - exfalso. by apply H, H'. }
  destruct (match cm_method m with Some _ => _ | None => _ end); [cbn; intuition congruence|].
  rewrite (match_attrs_iff _ _ Hops). intuition.
Qed.

(** ** The engine mirrors the configuration *)

(** A compiled match key, and where it comes from. *)
Definition attr_of (a : RADIUSAttrMatch) (c : compiledAttrMatch) : Prop :=
  exists path def,
    resolveAttr (am_Name a) (am_Vendor a) (am_Code a) path = Ok (def, ca_key c) /\ ad_Secret def = false
    /\ (ad_allowReq def = true \/ am_Vendor a <> 0) /\ ca_op c = am_Op a
    /\ ((am_Op a = RADIUSMatchOpPresent \/ am_Op a = RADIUSMatchOpAbsent)
        \/ am_Op a = RADIUSMatchOpEquals /\ parseTypedValue def (ca_key c) (am_Value a) (am_ValueHex a) path = Ok (ca_equals c)).

Record rule_of (profiles : gmap string compiledProfile) (r : RADIUSRule) (c : compiledRule) : Prop := {
  ro_id : cr_id c = rr_ID r /\ rr_ID r <> ""%string;
  ro_effect : cr_effect c = rr_Effect r /\ (rr_Effect r = EffectPermit \/ rr_Effect r = EffectDeny);
  ro_groups : cm_groupsAny (cr_match c) = rm_GroupsAny (rr_Match r);
  ro_method : cm_method (cr_match c) = rm_Method (rr_Match r)
    /\ forall v, rm_Method (rr_Match r) = Some v -> AuthMethod_Valid v = true;
  ro_attrs : Forall2 attr_of (rm_Attributes (rr_Match r)) (cm_attrs (cr_match c));
  ro_reply : cr_reply c = listed profiles (rr_ReplyProfiles r) /\ Forall (fun id => is_Some (profiles !! id)) (rr_ReplyProfiles r);
  ro_sound : reply_sound (packet_of (cr_effect c)) (cr_reply c);
}.

Definition enabled_rules (p : RADIUSPolicy) : list RADIUSRule := filter (fun r => rr_Enabled r = true) (rp_Rules p).

Lemma compileAttrMatch_ok a path c : compileAttrMatch a path = Ok c -> attr_of a c.
Proof.
  unfold compileAttrMatch. intros ([def key] & Hr & H)%rbind_Ok.
  destruct (ad_Secret def) eqn:Es; [discriminate H|]. destruct (str_eqb (ad_Name def) _); [discriminate H|]. cbn [orb] in H.
  destruct (negb (ad_allowReq def) && _) eqn:Eq; [discriminate H|]. cbv zeta in H.
  assert (ad_allowReq def = true \/ am_Vendor a <> 0) as Hq by (destruct (ad_allowReq def); [by left|right; cbn in Eq; lia]).
  exists path, def. destruct (str_eqb (am_Op a) RADIUSMatchOpPresent || _) eqn:Eo.
  - destruct (_ || _) in H; [discriminate H|]. apply Ok_inj in H as <-. cbn [ca_key ca_op]. repeat (split; [assumption || reflexivity|]).
    left. apply orb_true_iff in Eo as [E|E]; apply str_eqb_eq in E; auto.
  - destruct (str_eqb (am_Op a) RADIUSMatchOpEquals) eqn:Ee; [|discriminate H]. apply rbind_Ok in H as (tv & Ht & <-%Ok_inj).
    cbn [ca_key ca_op ca_equals]. repeat (split; [assumption || reflexivity|]). right. split; [by apply str_eqb_eq|assumption].
Qed.

Lemma compileAttrMatches_ok l path i cs : compileAttrMatches l path i = Ok cs -> Forall2 attr_of l cs.
Proof.
  revert i cs. induction l as [|a l IH]; intros i cs; cbn [compileAttrMatches]; [intros <-%Ok_inj; constructor|].
  intros (c & Hc & (rest & Hrest & <-%Ok_inj)%rbind_Ok)%rbind_Ok. constructor; [exact (compileAttrMatch_ok _ _ _ Hc)|exact (IH _ _ Hrest)].
Qed.

Lemma rule_of_ops profiles r c : rule_of profiles r c -> ops_ok c.
Proof.
  intros [_ _ _ _ Ha _ _]. unfold ops_ok. induction Ha as [|a c' l cs (path & def & _ & _ & _ & Hop & Hv) _ IH]; constructor; [|exact IH].
  rewrite Hop, !elem_of_cons. destruct Hv as [[H|H]|[H _]]; auto.
Qed.

Lemma compileRules_ok l pid profiles seen rules :
  profiles_ok profiles -> compileRules l pid profiles seen = Ok rules ->
  Forall2 (rule_of profiles) (filter (fun r => rr_Enabled r = true) l) rules
  /\ NoDup (map cr_id rules) /\ Forall (fun c => cr_id c ∉ seen) rules.
Proof.
  intros Hp. revert seen rules. induction l as [|r l IH]; intros seen rules; cbn [compileRules].
  { intros <-%Ok_inj. repeat split; constructor. }
  rewrite filter_cons. destruct (rr_Enabled r) eqn:Ee; cbn [negb]; [|rewrite decide_False by done; apply IH].
  rewrite decide_True by reflexivity. cbv zeta.
  destruct (str_eqb (rr_ID r) "") eqn:Ei; [intros H; discriminate H|]. case_bool_decide as Hs; [intros H; discriminate H|].
  destruct (negb (str_eqb (rr_Effect r) EffectPermit) && _) eqn:Ef; [intros H; discriminate H|].
  intros (m & Hm & (reply & Hr & (rest & Hrest & <-%Ok_inj)%rbind_Ok)%rbind_Ok)%rbind_Ok.
  apply IH in Hrest as (H1 & H2 & H3). apply mergeReplyProfiles_ok in Hr as (Hso & Hli & Hex); [|exact Hp].
  apply rbind_Ok in Hm as (method & Hme & (attrs & Hat & <-%Ok_inj)%rbind_Ok). apply compileAttrMatches_ok in Hat.
  split; [constructor; [|exact H1]|split].
  - split; cbn [cr_id cr_effect cr_match cr_reply cm_groupsAny cm_method cm_attrs].
    + split; [reflexivity|]. intros H. by rewrite H in Ei.
    + split; [reflexivity|]. apply andb_false_iff in Ef as [E|E]; apply negb_false_iff, str_eqb_eq in E; auto.
    + reflexivity.
    + destruct (rm_Method (rr_Match r)) as [v|]; [|by apply Ok_inj in Hme as <-].
      destruct (AuthMethod_Valid v) eqn:Ev; [|discriminate Hme]. apply Ok_inj in Hme as <-. split; [reflexivity|by intros v' [= <-]].
    + exact Hat.
    + exact (conj Hli Hex).
    + exact Hso.
  - cbn [map cr_id]. constructor; [|exact H2]. rewrite list_elem_of_fmap. intros (c & Heq & Hin).
    rewrite List.Forall_forall in H3. apply list_elem_of_In in Hin. apply (H3 c Hin). rewrite <- Heq. set_solver.
  - constructor; [exact Hs|]. eapply List.Forall_impl; [|exact H3]. intros c Hc. set_solver.
Qed.

Lemma compilePolicies_ok l profiles out out' :
  compilePolicies l profiles out = Ok out' ->
  NoDup (map rp_ID l) /\ Forall (fun p => out !! rp_ID p = None /\ exists cp, compilePolicy p profiles = Ok cp) l
  /\ forall id cp, out' !! id = Some cp <-> out !! id = Some cp \/ exists p, p ∈ l /\ rp_ID p = id /\ compilePolicy p profiles = Ok cp.
Proof.
  revert out. induction l as [|p l IH]; intros out; cbn [compilePolicies].
  { intros <-%Ok_inj. split; [constructor|]. split; [constructor|]. intros id cp. split; [auto|]. intros [?|(p & Hp & _)]; [assumption|inversion Hp]. }
  intros (cp & Hcp & H)%rbind_Ok. case_bool_decide as Hs; [discriminate H|]. rewrite <- eq_None_not_Some in Hs.
  apply IH in H as (Hn & Hf & Hl). split; [|split].
  - cbn [map]. constructor; [|exact Hn]. rewrite list_elem_of_fmap. intros (p' & Heq & Hin). rewrite List.Forall_forall in Hf.
    apply list_elem_of_In in Hin. destruct (Hf p' Hin) as [Hf' _]. rewrite <- Heq, lookup_insert_eq in Hf'. discriminate Hf'.
  - constructor; [eauto|]. eapply List.Forall_impl; [|exact Hf]. intros p' [Hp' Hcp']. split; [by apply lookup_insert_None in Hp' as [? _]|exact Hcp'].
  - intros id cp'. rewrite Hl. destruct (decide (rp_ID p = id)) as [<-|Hne].
    + rewrite lookup_insert_eq. split.
      * intros [[= <-]|(p' & Hp' & Hid & Hc)]; [right; exists p; split; [left|auto]|right; exists p'; split; [by right|auto]].
      * intros [H|(p' & Hp' & Hid & Hc)]; [congruence|]. apply elem_of_cons in Hp' as [->|Hp']; [left; congruence|right; eauto].
    + rewrite lookup_insert_ne by exact Hne. split.
      * intros [H|(p' & Hp' & Hid & Hc)]; [by left|right; exists p'; split; [by right|auto]].
      * intros [H|(p' & Hp' & Hid & Hc)]; [by left|]. apply elem_of_cons in Hp' as [->|Hp']; [done|right; eauto].
Qed.

(** *** Users, groups and clients *)

Definition resolves (e : Engine) (pid : string) : Prop := pid = ""%string \/ is_Some (en_policies e !! pid).

Lemma has_policy_resolves (policies : gmap string compiledPolicy) pid :
  negb (str_eqb pid "") && negb (has_policy policies pid) = false -> pid = ""%string \/ is_Some (policies !! pid).
Proof.
  intros [H|H]%andb_false_iff; apply negb_false_iff, bool_decide_eq_true_1 in H; auto.
Qed.

Definition group_entry (g : cfgGroup) : string * compiledGroup :=
  (gp_ID g, mkCompiledGroup (gp_ID g) (gp_Enabled g) (gp_Priority g) (gp_RADIUSPolicyID g)).
Definition user_entry (u : cfgUser) : string * compiledUser :=
  (us_ID u, mkCompiledUser (us_ID u) (us_Enabled u) (us_GroupIDs u) (us_RADIUSPolicyID u)).

(** Entries with the same key: the last one stands. *)
Definition table {A} (l : list (string * A)) : gmap string A := list_to_map (rev l).

Lemma table_snoc {A} (l : list (string * A)) k (a : A) : table (l ++ [(k, a)]) = <[k := a]> (table l).
Proof. unfold table. by rewrite rev_app_distr. Qed.

Lemma compileGroups_ok policies l done groups :
  compileGroups policies l (table (map group_entry done)) = Ok groups ->
  groups = table (map group_entry (done ++ l))
  /\ Forall (fun g => gp_RADIUSPolicyID g = ""%string \/ is_Some (policies !! gp_RADIUSPolicyID g)) l.
Proof.
  revert done. induction l as [|g l IH]; intros done; cbn [compileGroups]; [intros <-%Ok_inj; by rewrite app_nil_r|].
  cbv zeta. destruct (_ && _) eqn:E; [intros H; discriminate H|]. intros H. specialize (IH (done ++ [g])).
  rewrite map_app in IH. cbn [map] in IH. unfold group_entry at 2 in IH. rewrite table_snoc in IH.
  apply IH in H as [-> Hf]. rewrite <- app_assoc. split; [reflexivity|]. constructor; [by apply has_policy_resolves|exact Hf].
Qed.

Lemma compileUsers_ok policies l done users :
  compileUsers policies l (table (map user_entry done)) = Ok users ->
  users = table (map user_entry (done ++ l))
  /\ Forall (fun u => us_RADIUSPolicyID u = ""%string \/ is_Some (policies !! us_RADIUSPolicyID u)) l.
Proof.
  revert done. induction l as [|u l IH]; intros done; cbn [compileUsers]; [intros <-%Ok_inj; by rewrite app_nil_r|].
  cbv zeta. destruct (_ && _) eqn:E; [intros H; discriminate H|]. intros H. specialize (IH (done ++ [u])).
  rewrite map_app in IH. cbn [map] in IH. unfold user_entry at 2 in IH. rewrite table_snoc in IH.
  apply IH in H as [-> Hf]. rewrite <- app_assoc. split; [reflexivity|]. constructor; [by apply has_policy_resolves|exact Hf].
Qed.

(** The endpoints of a client that speak RADIUS, with their policies. *)
Definition radius_bindings (l : list cfgEndpoint) : list (string * string) :=
  omap (fun ep => pid ← ce_RADIUS ep; if str_eqb (ce_Protocol ep) ProtocolRADIUS then Some (ce_ID ep, pid) else None) l.

(** A binding after more endpoints. *)
Fixpoint bind_all (defaults : list string) (binding : option compiledClient) (l : list (string * string)) : option compiledClient :=
  match l with
  | [] => binding
  | (id, pid) :: l =>
    let b := default (mkCompiledClient ∅ defaults) binding in
    bind_all defaults (Some (mkCompiledClient (<[id := pid]> (cl_endpoints b)) (cl_defaultGroupIDs b))) l
  end.

Definition client_of (c : cfgClient) : option compiledClient :=
  if cc_Enabled c then bind_all (cc_DefaultGroupIDs c) None (radius_bindings (cc_Endpoints c)) else None.

Definition bindings_resolve (policies : gmap string compiledPolicy) (l : list cfgEndpoint) : Prop :=
  Forall (fun b => snd b = ""%string \/ is_Some (policies !! snd b)) (radius_bindings l).

Lemma bind_endpoints_ok policies c l clients clients' :
  bind_endpoints policies c l clients = Ok clients' ->
  bindings_resolve policies l
  /\ clients' !! cc_ID c = bind_all (cc_DefaultGroupIDs c) (clients !! cc_ID c) (radius_bindings l)
  /\ forall id, id <> cc_ID c -> clients' !! id = clients !! id.
Proof.
  revert clients. induction l as [|ep l IH]; intros clients; cbn [bind_endpoints].
  { intros <-%Ok_inj. split; [constructor|split; reflexivity]. }
  intros (clients1 & H1 & H)%rbind_Ok. apply IH in H as (Hr & Hc & Ho). clear IH. unfold bind_endpoint in H1.
  unfold bindings_resolve, radius_bindings in *. cbn [omap list_omap] in *. destruct (ce_RADIUS ep) as [pid|]; cbn [mbind option_bind];
    [|apply Ok_inj in H1 as <-; auto].
  destruct (str_eqb (ce_Protocol ep) ProtocolRADIUS); cbn [negb] in H1; [|apply Ok_inj in H1 as <-; auto].
  destruct (negb (str_eqb pid "") && _) eqn:E; [discriminate H1|]. apply Ok_inj in H1 as <-. split; [|split].
  - constructor; [cbn; by apply has_policy_resolves|exact Hr].
  - rewrite Hc, lookup_insert_eq. reflexivity.
  - intros id Hne. rewrite Ho, lookup_insert_ne by congruence. reflexivity.
Qed.

Lemma compileClients_ok policies l clients clients' :
  compileClients policies l clients = Ok clients' ->
  Forall (fun c => cc_Enabled c = true -> bindings_resolve policies (cc_Endpoints c)) l
  /\ (forall id, id ∉ map cc_ID l -> clients' !! id = clients !! id)
  /\ (NoDup (map cc_ID l) -> Forall (fun c => clients !! cc_ID c = None -> clients' !! cc_ID c = client_of c) l).
Proof.
  revert clients. induction l as [|c l IH]; intros clients; cbn [compileClients map].
  { intros <-%Ok_inj. repeat split; constructor. }
  assert (forall clients1, compileClients policies l clients1 = Ok clients' ->
    (cc_Enabled c = true -> bindings_resolve policies (cc_Endpoints c)) ->
    (forall id, id <> cc_ID c -> clients1 !! id = clients !! id) -> (clients !! cc_ID c = None -> clients1 !! cc_ID c = client_of c) ->
    Forall (fun c => cc_Enabled c = true -> bindings_resolve policies (cc_Endpoints c)) (c :: l)
    /\ (forall id, id ∉ cc_ID c :: map cc_ID l -> clients' !! id = clients !! id)
    /\ (NoDup (cc_ID c :: map cc_ID l) -> Forall (fun c => clients !! cc_ID c = None -> clients' !! cc_ID c = client_of c) (c :: l))) as Hgo.
  { intros clients1 H Hb Hother Hown. apply IH in H as (H1 & H2 & H3). split; [by constructor|split].
    - intros id Hid. apply not_elem_of_cons in Hid as [Hne Hid]. by rewrite H2, Hother.
    - intros [Hnin Hn]%list.NoDup_cons. constructor; [intros Hnone; by rewrite H2, Hown|].
      specialize (H3 Hn). rewrite List.Forall_forall in *. intros c' Hc' Hnone. apply H3; [exact Hc'|].
      rewrite Hother; [exact Hnone|]. intros Heq. apply Hnin. rewrite <- Heq. apply list_elem_of_fmap. exists c'. split; [reflexivity|by apply list_elem_of_In]. }
  destruct (cc_Enabled c) eqn:E; cbn [negb].
  - intros (clients1 & H1 & H)%rbind_Ok. apply bind_endpoints_ok in H1 as (Hr & Hc & Ho).
    apply (Hgo clients1 H); [by intros _|exact Ho|]. intros Hnone. unfold client_of. by rewrite Hc, E, Hnone.
  - intros H. apply (Hgo clients H); [done|reflexivity|]. intros Hnone. unfold client_of. by rewrite E.
Qed.

(** The engine and the input it was compiled from. *)
Record engine_of (i : Input) (profiles : gmap string compiledProfile) (e : Engine) : Prop := {
  eo_profiles : compileReplyProfiles (in_ReplyProfiles i) ∅ = Ok profiles;
  eo_ids : NoDup (map rp_ID (in_Policies i));
  eo_domain : forall id, is_Some (en_policies e !! id) <-> id ∈ map rp_ID (in_Policies i);
  eo_policies : Forall (fun p => exists cp, en_policies e !! rp_ID p = Some cp /\ cp_id cp = rp_ID p
    /\ Forall2 (rule_of profiles) (enabled_rules p) (cp_rules cp) /\ NoDup (map cr_id (cp_rules cp))) (in_Policies i);
  eo_users : en_users e = table (map user_entry (in_Users i)) /\ Forall (fun u => resolves e (us_RADIUSPolicyID u)) (in_Users i);
  eo_groups : en_groups e = table (map group_entry (in_Groups i)) /\ Forall (fun g => resolves e (gp_RADIUSPolicyID g)) (in_Groups i);
  eo_clients : Forall (fun c => cc_Enabled c = true -> bindings_resolve (en_policies e) (cc_Endpoints c)) (in_Clients i)
    /\ (forall id, id ∉ map cc_ID (in_Clients i) -> en_clients e !! id = None)
    /\ (NoDup (map cc_ID (in_Clients i)) -> Forall (fun c => en_clients e !! cc_ID c = client_of c) (in_Clients i));
  eo_fallback : en_fallback e = in_FallbackID i /\ resolves e (en_fallback e);
}.

Lemma compilePolicy_ok p profiles cp :
  profiles_ok profiles -> compilePolicy p profiles = Ok cp ->
  cp_id cp = rp_ID p /\ Forall2 (rule_of profiles) (enabled_rules p) (cp_rules cp) /\ NoDup (map cr_id (cp_rules cp)).
Proof.
  intros Hp. unfold compilePolicy. intros (rules & Hr & <-%Ok_inj)%rbind_Ok.
  apply compileRules_ok in Hr as (H1 & H2 & _); [|exact Hp]. by split.
Qed.

Lemma Compile_engine_of i e : Compile i = Ok e -> exists profiles, profiles_ok profiles /\ engine_of i profiles e.
Proof.
  unfold Compile. intros (profiles & Hpr & (policies & Hpo & H)%rbind_Ok)%rbind_Ok. cbv zeta in H.
  destruct (_ && _) eqn:Ef in H; [discriminate H|]. apply has_policy_resolves in Ef.
  apply rbind_Ok in H as (clients & Hc & (groups & Hg & (users & Hu & <-%Ok_inj)%rbind_Ok)%rbind_Ok).
  assert (profiles_ok profiles) as Hp by (eapply compileReplyProfiles_ok; [|exact Hpr]; apply map_Forall_empty).
  apply compilePolicies_ok in Hpo as (Hn & Hf & Hl). apply compileClients_ok in Hc as (Hc1 & Hc2 & Hc3).
  apply (compileGroups_ok _ _ []) in Hg as [-> Hg]. apply (compileUsers_ok _ _ []) in Hu as [-> Hu].
  assert (Forall (fun p => exists cp, policies !! rp_ID p = Some cp /\ compilePolicy p profiles = Ok cp) (in_Policies i)) as Hown.
  { rewrite List.Forall_forall in *. intros p Hin. destruct (Hf p Hin) as [_ [cp Hcp]]. exists cp. split; [|exact Hcp].
    apply Hl. right. exists p. split; [by apply list_elem_of_In|auto]. }
  exists profiles. split; [exact Hp|]. split; cbn [en_policies en_users en_groups en_clients en_fallback]; try assumption; try (by split).
  - intros id. rewrite list_elem_of_fmap. split.
    + intros [cp [Hcp|(p & Hin & <- & _)]%Hl]; [by rewrite lookup_empty in Hcp|]. by exists p.
    + intros (p & -> & Hin%list_elem_of_In). rewrite List.Forall_forall in Hown. destruct (Hown p Hin) as (cp & Hcp & _). eauto.
  - eapply List.Forall_impl; [|exact Hown]. intros p (cp & Hcp & Hok). exists cp. split; [exact Hcp|]. by apply compilePolicy_ok in Hok.
  - split; [exact Hc1|]. split; [intros id Hid; by rewrite Hc2, lookup_empty|]. intros Hnd. specialize (Hc3 Hnd).
    eapply List.Forall_impl; [|exact Hc3]. intros c H. apply H. apply lookup_empty.
Qed.

(** ** Effective groups *)

Definition enabled_group (e : Engine) (id : string) : option compiledGroup :=
  g ← en_groups e !! id; if cg_enabled g then Some g else None.

Lemma access_groups_omap e ids : enabled_groups e ids = omap (enabled_group e) ids.
Proof.
  induction ids as [|id ids IH]; [reflexivity|]. cbn [enabled_groups omap list_omap]. unfold enabled_group at 1. rewrite IH.
  destruct (en_groups e !! id) as [g|]; [|reflexivity]. cbn. by destruct (cg_enabled g).
Qed.

(** Who may be in the groups of a user on a client. *)
Definition member (e : Engine) (userID clientID id : string) : Prop :=
  id <> ""%string
  /\ ((exists u, en_users e !! userID = Some u /\ cu_enabled u = true /\ id ∈ cu_groupIDs u)
      \/ exists c, en_clients e !! clientID = Some c /\ id ∈ cl_defaultGroupIDs c).

#[local] Instance access_group_trans : Transitive (in_order group_less).
Proof. intros a b c. apply (key_less_trans (cg_priority a, cg_id a) (cg_priority b, cg_id b) (cg_priority c, cg_id c)). Qed.

Lemma access_groups_spec e userID clientID :
  (forall id g, en_groups e !! id = Some g -> cg_id g = id) ->
  NoDup (groupIDs (effectiveGroups e userID clientID))
  /\ StronglySorted (in_order group_less) (effectiveGroups e userID clientID)
  /\ forall g, g ∈ effectiveGroups e userID clientID <->
     en_groups e !! cg_id g = Some g /\ cg_enabled g = true /\ member e userID clientID (cg_id g).
Proof.
  intros Hkey. unfold effectiveGroups, groupIDs.
  set (own := match en_users e !! userID with Some u => _ | None => _ end).
  assert ((forall id, id ∈ own.1 <-> id ∈ own.2) /\ NoDup own.2
    /\ forall id, id ∈ own.2 <-> id <> ""%string /\ exists u, en_users e !! userID = Some u /\ cu_enabled u = true /\ id ∈ cu_groupIDs u) as (Hs & Hn & Hown).
  { subst own. destruct (en_users e !! userID) as [u|]; [destruct (cu_enabled u) eqn:Eu|].
    1: pose proof (add_ids_spec (cu_groupIDs u) ∅ [] ltac:(set_solver) ltac:(constructor)) as H;
       destruct (add_ids (cu_groupIDs u) ∅ []) as [seen ids]; destruct H as (H1 & H2 & H3); split; [exact H1|split; [exact H2|]];
       intros id; cbn [snd]; rewrite H3, elem_of_nil; split; [intros [[]|[? ?]]; eauto 6|intros [? (u' & [= <-] & _ & ?)]; auto].
    all: (split; [set_solver|split; [constructor|]]); intros id; split; [intros H; inversion H|intros [_ (u' & Hu & He & _)]; simplify_eq; congruence]. }
  destruct own as [seen ids]. cbn [fst snd] in *.
  set (all := match en_clients e !! clientID with Some c => _ | None => _ end).
  assert (NoDup all.2 /\ forall id, id ∈ all.2 <-> member e userID clientID id) as [Ha Hall].
  { subst all. unfold member. destruct (en_clients e !! clientID) as [c|].
    - pose proof (add_ids_spec (cl_defaultGroupIDs c) seen ids Hs Hn) as H. destruct (add_ids _ seen ids) as [seen' ids'].
      destruct H as (_ & H2 & H3). split; [exact H2|]. intros id. cbn [snd]. rewrite H3, Hown. split.
      + intros [[? ?]|[? ?]]; eauto 6.
      + intros [? [?|(c' & [= <-] & ?)]]; auto.
    - split; [exact Hn|]. intros id. cbn [snd]. rewrite Hown. split; [intros [? ?]; auto|]. intros [? [?|(c' & ? & _)]]; [auto|done]. }
  clearbody all. destruct all as [seen' all]. cbn [snd] in *. rewrite access_groups_omap.
  pose proof (SliceStable_perm group_less (omap (enabled_group e) all)) as Hp. split; [|split].
  - change (map cg_id) with (fmap cg_id : list compiledGroup -> list string). rewrite Hp.
    eapply sublist_NoDup; [exact Ha|]. clear - Hkey. induction all as [|id all IH]; [constructor|].
    cbn [omap list_omap]. unfold enabled_group at 1. destruct (en_groups e !! id) as [g|] eqn:E; cbn [mbind option_bind]; [|by constructor].
    destruct (cg_enabled g); [|by constructor]. cbn. rewrite (Hkey _ _ E). by constructor.
  - apply SliceStable_sorted; [apply _|]. intros a b. apply key_less_asym.
  - intros g. rewrite Hp, list_elem_of_omap. setoid_rewrite <- Hall. unfold enabled_group. split.
    + intros (id & Hin & Hg). destruct (en_groups e !! id) as [g'|] eqn:E; [|done]. cbn in Hg.
      destruct (cg_enabled g') eqn:Ee; simplify_eq. rewrite (Hkey _ _ E). auto.
    + intros (Hg & Ee & Hin). exists (cg_id g). rewrite Hg. cbn. by rewrite Ee.
Qed.

(** ** First match *)

(** The rules of a policy, under the name of their source. *)
Definition rules_at (e : Engine) (source pid : string) : list (string * compiledRule) :=
  if str_eqb pid "" then [] else match en_policies e !! pid with Some p => map (pair source) (cp_rules p) | None => [] end.

(** All rules in the order of the walk. *)
Definition considered (e : Engine) (req : Request) : list (string * compiledRule) :=
  match en_users e !! rq_UserID req with
  | Some u => if cu_enabled u then rules_at e (cat sourceUserPrefix (cu_policyID u)) (cu_policyID u) else []
  | None => []
  end
  ++ concat (map (fun g => rules_at e (cat sourceGroupPrefix (cg_policyID g)) (cg_policyID g)) (effectiveGroups e (rq_UserID req) (rq_ClientID req)))
  ++ match en_clients e !! rq_ClientID req with
     | Some b => let pid := client_policy b (rq_EndpointID req) in rules_at e (cat sourceClientPrefix pid) pid
     | None => []
     end
  ++ rules_at e sourceFallback (en_fallback e).

(** The first element that satisfies [p], and those before it. *)
Fixpoint first_such {A} (p : A -> bool) (l : list A) : option (list A * A) :=
  match l with
  | [] => None
  | a :: l => if p a then Some ([], a) else match first_such p l with Some (pre, b) => Some (a :: pre, b) | None => None end
  end.

Definition step_of (req : Request) (c : string * compiledRule) : TraceStep :=
  let '(matched, reason) := matchRule (snd c) req in mkStep (fst c) (cr_id (snd c)) matched reason.
Definition matches (req : Request) (c : string * compiledRule) : bool := fst (matchRule (snd c) req).

(** A trace that has considered [l]. *)
Definition add_steps (req : Request) (l : list (string * compiledRule)) (tr : Trace) : Trace :=
  with_steps tr (tr_Steps tr ++ map (step_of req) l).

Definition walk_out (req : Request) (l : list (string * compiledRule)) (tr : Trace) : Result + Trace :=
  match first_such (matches req) l with
  | Some (pre, c) =>
    inl (matchedResult (add_steps req (pre ++ [c]) tr) (fst c) (cr_id (snd c)) (cr_effect (snd c)) (cr_reply (snd c)))
  | None => inr (add_steps req l tr)
  end.

Lemma add_steps_nil req tr : add_steps req [] tr = tr.
Proof. unfold add_steps, with_steps. cbn. rewrite app_nil_r. by destruct tr. Qed.
Lemma add_steps_app req l1 l2 tr : add_steps req (l1 ++ l2) tr = add_steps req l2 (add_steps req l1 tr).
Proof. unfold add_steps, with_steps. cbn. by rewrite map_app, app_assoc. Qed.

Lemma first_such_app {A} (p : A -> bool) l1 l2 :
  first_such p (l1 ++ l2)
  = match first_such p l1 with
    | Some r => Some r
    | None => match first_such p l2 with Some (pre, c) => Some (l1 ++ pre, c) | None => None end
    end.
Proof.
  induction l1 as [|a l1 IH]; cbn; [by destruct (first_such p l2) as [[]|]|]. destruct (p a); [reflexivity|]. rewrite IH.
  destruct (first_such p l1) as [[pre c]|]; [reflexivity|]. by destruct (first_such p l2) as [[pre c]|].
Qed.

Lemma walk_out_app req l1 l2 tr : walk_out req (l1 ++ l2) tr = unless_done (walk_out req l1 tr) (walk_out req l2).
Proof.
  unfold walk_out. rewrite first_such_app. destruct (first_such _ l1) as [[pre c]|]; [reflexivity|]. cbn [unless_done].
  destruct (first_such _ l2) as [[pre c]|]; [|by rewrite add_steps_app]. by rewrite <- app_assoc, add_steps_app.
Qed.

Lemma walk_rules_out source rules req tr : walk_rules source rules req tr = walk_out req (map (pair source) rules) tr.
Proof.
  revert tr. induction rules as [|r rules IH]; intros tr; cbn [walk_rules map].
  { unfold walk_out. cbn. by rewrite add_steps_nil. }
  change ((source, r) :: map (pair source) rules) with ([(source, r)] ++ map (pair source) rules). rewrite walk_out_app.
  unfold walk_out at 1. cbn [first_such]. unfold matches at 1. cbn [fst snd].
  destruct (matchRule r req) as [[] reason] eqn:E; cbn [fst unless_done app]; rewrite ?IH; unfold add_steps; cbn [map fst snd];
    unfold step_of; cbn [fst snd]; by rewrite E.
Qed.

Lemma walk_at e source pid req tr :
  resolves e pid -> pid <> ""%string -> walk e source pid req tr = walk_out req (rules_at e source pid) tr.
Proof.
  intros [->|[p Hp]] Hne; [done|]. unfold walk, rules_at, str_eqb. rewrite Hp, bool_decide_eq_false_2 by done. apply walk_rules_out.
Qed.

Lemma walk_if e source pid req tr :
  resolves e pid ->
  (if negb (str_eqb pid "") then walk e source pid req tr else inr tr) = walk_out req (rules_at e source pid) tr.
Proof.
  intros Hr. destruct (str_eqb pid "") eqn:E; cbn [negb].
  - unfold rules_at. rewrite E. unfold walk_out. cbn. by rewrite add_steps_nil.
  - apply walk_at; [exact Hr|]. intros ->. discriminate E.
Qed.

Lemma walk_groups_out e groups req tr :
  Forall (fun g => resolves e (cg_policyID g)) groups ->
  walk_groups e groups req tr
  = walk_out req (concat (map (fun g => rules_at e (cat sourceGroupPrefix (cg_policyID g)) (cg_policyID g)) groups)) tr.
Proof.
  intros H. revert tr. induction H as [|g groups Hg _ IH]; intros tr; cbn [walk_groups map concat].
  { unfold walk_out. cbn. by rewrite add_steps_nil. }
  rewrite walk_out_app, <- walk_if by exact Hg. destruct (str_eqb (cg_policyID g) ""); cbn [negb unless_done]; [apply IH|].
  destruct (walk e _ _ req tr); [reflexivity|]. apply IH.
Qed.

(** ** A compiled engine *)

Lemma table_lookup {A} (l : list (string * A)) k a : table l !! k = Some a -> (k, a) ∈ l.
Proof. unfold table. intros H%elem_of_list_to_map_2. by rewrite list_elem_of_In, <- in_rev, <- list_elem_of_In in H. Qed.

(** Every policy a client's endpoint names exists. *)
Definition bound_ok (policies : gmap string compiledPolicy) (clients : gmap string compiledClient) : Prop :=
  map_Forall (fun _ b => map_Forall (fun _ pid => pid = ""%string \/ is_Some (policies !! pid)) (cl_endpoints b)) clients.

Lemma bind_endpoints_bound policies c l clients clients' :
  bound_ok policies clients -> bind_endpoints policies c l clients = Ok clients' -> bound_ok policies clients'.
Proof.
  revert clients. induction l as [|ep l IH]; intros clients Hb; cbn [bind_endpoints]; [by intros <-%Ok_inj|].
  intros (clients1 & H1 & H)%rbind_Ok. apply IH in H; [exact H|]. clear IH H. unfold bind_endpoint in H1.
  destruct (ce_RADIUS ep) as [pid|]; [|by apply Ok_inj in H1 as <-]. destruct (negb (str_eqb (ce_Protocol ep) _)); [by apply Ok_inj in H1 as <-|].
  destruct (negb (str_eqb pid "") && _) eqn:E; [discriminate H1|]. apply has_policy_resolves in E. apply Ok_inj in H1 as <-.
  apply map_Forall_insert_2; [|exact Hb]. cbn [cl_endpoints]. apply map_Forall_insert_2; [exact E|].
  destruct (clients !! cc_ID c) as [b|] eqn:Eb; [exact (Hb _ _ Eb)|apply map_Forall_empty].
Qed.

Lemma compileClients_bound policies l clients clients' :
  bound_ok policies clients -> compileClients policies l clients = Ok clients' -> bound_ok policies clients'.
Proof.
  revert clients. induction l as [|c l IH]; intros clients Hb; cbn [compileClients]; [by intros <-%Ok_inj|].
  destruct (negb (cc_Enabled c)); [by apply IH|]. intros (clients1 & H1 & H)%rbind_Ok. apply IH in H; [exact H|].
  exact (bind_endpoints_bound _ _ _ _ _ Hb H1).
Qed.

Lemma Compile_bound i e : Compile i = Ok e -> bound_ok (en_policies e) (en_clients e).
Proof.
  unfold Compile. intros (profiles & _ & (policies & _ & H)%rbind_Ok)%rbind_Ok. cbv zeta in H. destruct (_ && _); [discriminate H|].
  apply rbind_Ok in H as (clients & Hc & (groups & _ & (users & _ & <-%Ok_inj)%rbind_Ok)%rbind_Ok). cbn [en_policies en_clients].
  apply compileClients_bound in Hc; [exact Hc|]. apply map_Forall_empty.
Qed.

(** What evaluation relies on. *)
Record engine_ready (e : Engine) : Prop := {
  er_users : map_Forall (fun _ u => resolves e (cu_policyID u)) (en_users e);
  er_groups : map_Forall (fun id g => cg_id g = id /\ resolves e (cg_policyID g)) (en_groups e);
  er_clients : bound_ok (en_policies e) (en_clients e);
  er_fallback : resolves e (en_fallback e);
  er_rules : map_Forall (fun _ p => Forall (fun c => exists profiles r, rule_of profiles r c) (cp_rules p)) (en_policies e);
}.

Lemma Compile_ready i e : Compile i = Ok e -> engine_ready e.
Proof.
  intros H. pose proof (Compile_bound _ _ H) as Hb. apply Compile_engine_of in H as (profiles & _ & He). split.
  - destruct (eo_users _ _ _ He) as [-> Hu]. intros id cu Hcu%table_lookup. apply list_elem_of_fmap in Hcu as (u & [= -> ->] & Hin).
    rewrite List.Forall_forall in Hu. apply Hu. by apply list_elem_of_In.
  - destruct (eo_groups _ _ _ He) as [-> Hg]. intros id cg Hcg%table_lookup. apply list_elem_of_fmap in Hcg as (g & [= -> ->] & Hin).
    split; [reflexivity|]. rewrite List.Forall_forall in Hg. apply Hg. by apply list_elem_of_In.
  - exact Hb.
  - apply He.
  - intros id cp Hcp. assert (id ∈ map rp_ID (in_Policies i)) as Hid by (apply (eo_domain _ _ _ He); eauto).
    apply list_elem_of_fmap in Hid as (p & -> & Hin%list_elem_of_In). pose proof (eo_policies _ _ _ He) as Hp.
    rewrite List.Forall_forall in Hp. destruct (Hp p Hin) as (cp' & Hcp' & _ & Hr & _). assert (cp = cp') as -> by congruence.
    eapply Forall2_Forall_r; [exact Hr|]. apply List.Forall_forall. intros r _ c Hc. by exists profiles, r.
Qed.

Lemma client_policy_resolves e b endpointID :
  map_Forall (fun _ pid => resolves e pid) (cl_endpoints b) -> resolves e (client_policy b endpointID).
Proof.
  intros H. unfold client_policy. assert (resolves e (default ""%string (cl_endpoints b !! endpointID))) as Hd.
  { destruct (cl_endpoints b !! endpointID) as [pid|] eqn:E; [exact (H _ _ E)|by left]. }
  destruct (_ && _); [|exact Hd]. revert Hd. generalize (default ""%string (cl_endpoints b !! endpointID)).
  apply map_Forall_to_list in H. induction H as [|[k v] l Hv _ IH]; intros pid Hd; [exact Hd|]. by apply IH.
Qed.

(** The request as the walk sees it: a known user has its effective groups. *)
Definition effective_request (e : Engine) (req : Request) : Request :=
  if bool_decide (is_Some (en_users e !! rq_UserID req))
  then with_groups req (groupIDs (effectiveGroups e (rq_UserID req) (rq_ClientID req))) else req.

Definition endpoint_missing (e : Engine) (req : Request) : bool :=
  match en_clients e !! rq_ClientID req with
  | Some b => str_eqb (rq_EndpointID req) "" && (1 <? Z.of_nat (size (cl_endpoints b)))
  | None => false
  end.

Lemma Evaluate_walk e req :
  engine_ready e -> endpoint_missing e req = false ->
  Evaluate (Some e) req
  = match walk_out (effective_request e req) (considered e req) (newTrace (effective_request e req)) with
    | inl res => res
    | inr tr => denyResult tr "no matching access rule"
    end.
Proof.
  intros He Hm. unfold Evaluate. unfold endpoint_missing in Hm. rewrite Hm. cbv zeta. fold (effective_request e req).
  set (req' := effective_request e req). unfold considered. rewrite walk_out_app.
  assert (forall x y : Result + Trace, x = y -> forall k k', (forall tr, k tr = k' tr) -> unless_done x k = unless_done y k') as Hext.
  { intros x y -> k k' Hk. destruct y; [reflexivity|apply Hk]. }
  assert (rq_EndpointID req' = rq_EndpointID req) as -> by (subst req'; unfold effective_request; by case_bool_decide).
  match goal with |- match ?a with _ => _ end = match ?b with _ => _ end => enough (a = b) as -> by reflexivity end.
  apply Hext; [|intros tr; rewrite walk_out_app; apply Hext; [|intros tr'; rewrite walk_out_app; apply Hext; [|intros tr'']]].
  - destruct (en_users e !! rq_UserID req) as [u|] eqn:E; [|unfold walk_out; cbn; by rewrite add_steps_nil].
    destruct (cu_enabled u); cbn [andb]; [|unfold walk_out; cbn; by rewrite add_steps_nil]. apply walk_if. exact (er_users _ He _ _ E).
  - apply walk_groups_out. apply List.Forall_forall. intros g Hg%list_elem_of_In.
    apply access_groups_spec in Hg as [Hg _]; [|intros id g' Hg'; exact (proj1 (er_groups _ He _ _ Hg'))]. exact (proj2 (er_groups _ He _ _ Hg)).
  - destruct (en_clients e !! rq_ClientID req) as [b|] eqn:E; [|unfold walk_out; cbn; by rewrite add_steps_nil]. apply walk_if.
    apply client_policy_resolves. exact (er_clients _ He _ _ E).
  - apply walk_if, He.
Qed.

Lemma first_such_spec {A} (p : A -> bool) l :
  match first_such p l with
  | Some (pre, c) => exists post, l = pre ++ c :: post /\ Forall (fun a => p a = false) pre /\ p c = true
  | None => Forall (fun a => p a = false) l
  end.
Proof.
  induction l as [|a l IH]; cbn [first_such]; [constructor|]. destruct (p a) eqn:E.
  - exists l. split; [reflexivity|split; [constructor|exact E]].
  - destruct (first_such p l) as [[pre c]|].
    + destruct IH as (post & -> & H & Hc). exists post. split; [reflexivity|]. split; [by constructor|exact Hc].
    + by constructor.
Qed.

Lemma rules_at_in e source pid c : c ∈ rules_at e source pid -> exists p, en_policies e !! pid = Some p /\ snd c ∈ cp_rules p.
Proof.
  unfold rules_at. destruct (str_eqb pid ""); [intros H; inversion H|]. destruct (en_policies e !! pid) as [p|]; [|intros H; inversion H].
  intros (r & -> & Hr)%list_elem_of_fmap. by exists p.
Qed.

Lemma considered_in e req c : c ∈ considered e req -> exists id p, en_policies e !! id = Some p /\ snd c ∈ cp_rules p.
Proof.
  unfold considered. rewrite !elem_of_app. intros [H|[H|[H|H]]].
  - destruct (en_users e !! rq_UserID req) as [u|]; [destruct (cu_enabled u)|]; try (inversion H; fail). apply rules_at_in in H. eauto.
  - apply list_elem_of_In, in_concat in H as (l & Hl & H). apply list_elem_of_In, list_elem_of_fmap in Hl as (g & -> & _).
    apply list_elem_of_In, rules_at_in in H. eauto.
  - destruct (en_clients e !! rq_ClientID req); [|inversion H]. apply rules_at_in in H. eauto.
  - apply rules_at_in in H. eauto.
Qed.

Lemma ready_rule e req c : engine_ready e -> c ∈ considered e req -> exists profiles r, rule_of profiles r (snd c).
Proof.
  intros He Hc. apply considered_in in Hc as (id & p & Hp & Hin). pose proof (er_rules _ He _ _ Hp) as Hr. cbv beta in Hr.
  rewrite List.Forall_forall in Hr. by apply Hr, list_elem_of_In.
Qed.

Lemma matches_iff e req req' c : engine_ready e -> c ∈ considered e req -> matches req' c = true <-> rule_holds (snd c) req'.
Proof. intros He Hc. apply (ready_rule e req c He) in Hc as (profiles & r & Hr). apply matchRule_iff. by eapply rule_of_ops. Qed.

(** The result when [c] is the first rule that matches, after [pre]. *)
Definition decision (req : Request) (pre : list (string * compiledRule)) (c : string * compiledRule) : Result :=
  let r := snd c in
  mkResult (cr_effect r) (cr_reply r)
    (with_outcome (add_steps req (pre ++ [c]) (newTrace req)) (Some (mkWinner (fst c) (cr_id r) (cr_effect r))) (cr_effect r) "" "").

(** The attributes that an Access-Accept or an Access-Reject may carry. *)
Definition reply_ok (c : compiledRule) : Prop :=
  reply_sound (packet_of (cr_effect c)) (cr_reply c)
  /\ (cr_effect c = EffectPermit
      \/ cr_effect c = EffectDeny /\ Forall (fun t => ak_Vendor (ty_Key t) = 0 /\ ak_Code (ty_Key t) = 18) (cr_reply c)).

Lemma rule_of_reply_ok profiles r c : rule_of profiles r c -> reply_ok c.
Proof.
  intros [_ [He Hd] _ _ _ _ Hs]. split; [exact Hs|]. rewrite He in *. destruct Hd as [Hd|Hd]; [by left|right]. split; [exact Hd|].
  rewrite Hd in Hs. eapply List.Forall_impl; [|exact (rs_legal _ _ Hs)]. intros t. apply legal_reject.
Qed.

Lemma evaluate_first_match e req :
  engine_ready e -> endpoint_missing e req = false ->
  let req' := effective_request e req in
  let rules := considered e req in
  (exists pre c post, rules = pre ++ c :: post /\ Forall (fun a => ~ rule_holds (snd a) req') pre /\ rule_holds (snd c) req'
     /\ reply_ok (snd c) /\ Evaluate (Some e) req = decision req' pre c)
  \/ Forall (fun a => ~ rule_holds (snd a) req') rules
     /\ Evaluate (Some e) req = denyResult (add_steps req' rules (newTrace req')) "no matching access rule".
Proof.
  intros He Hm req' rules. rewrite (Evaluate_walk e req He Hm). fold req' rules. unfold walk_out.
  assert (forall l, (forall c, c ∈ l -> c ∈ rules) -> Forall (fun a => matches req' a = false) l -> Forall (fun a => ~ rule_holds (snd a) req') l) as Hnot.
  { intros l Hl. rewrite !List.Forall_forall. intros H c Hc. rewrite <- (matches_iff e req req' c He); [by rewrite (H c Hc)|].
    apply Hl. by apply list_elem_of_In. }
  pose proof (first_such_spec (matches req') rules) as H. destruct (first_such (matches req') rules) as [[pre c]|].
  - left. destruct H as (post & Heq & Hpre & Hc). assert (c ∈ rules) as Hin by (rewrite Heq; set_solver).
    destruct (ready_rule e req c He Hin) as (profiles & r & Hr). pose proof (rule_of_reply_ok _ _ _ Hr) as Hok.
    exists pre, c, post. split; [exact Heq|]. split; [apply Hnot; [rewrite Heq; set_solver|exact Hpre]|].
    split; [by apply (matches_iff e req req' c He Hin)|]. split; [exact Hok|]. unfold matchedResult.
    assert (CheckReplyLegal (cr_effect (snd c)) (cr_reply (snd c)) = Ok tt) as ->; [|reflexivity].
    apply CheckReplyLegal_sound; [|apply (rs_legal _ _ (proj1 Hok))]. destruct Hok as [_ [?|[? _]]]; auto.
  - right. split; [|reflexivity]. by apply Hnot.
Qed.

(** ** The theorems *)

(** What a compiled engine is of its configuration. *)
Definition compiled_of (i : Input) (e : Engine) : Prop :=
  (exists profiles, engine_of i profiles e)
  /\ (forall id p c, en_policies e !! id = Some p -> c ∈ cp_rules p ->
        reply_ok c /\ forall req, fst (matchRule c req) = true <-> rule_holds c req).
Lemma Compile_faithful (i : Input) (e : Engine) : Compile i = Ok e -> compiled_of i e.
Proof.
  intros H. pose proof (Compile_ready _ _ H) as Hr. apply Compile_engine_of in H as (profiles & _ & He). split; [by exists profiles|].
  intros id p c Hp Hc. pose proof (er_rules _ Hr _ _ Hp) as Hrules. cbv beta in Hrules. rewrite List.Forall_forall in Hrules.
  destruct (Hrules c) as (ps & r & Hro); [by apply list_elem_of_In|]. split; [by eapply rule_of_reply_ok|]. intros req.
  apply matchRule_iff. by eapply rule_of_ops.
Qed.


(** A configuration with a user policy, a group policy, two endpoints' policy
    and a fallback. *)
Definition sample_input : Input :=
  mkInput
    [ mkRADIUSPolicy "admins" [mkRADIUSRule "shell" true (mkRADIUSMatch ["ops"; "net"] None
         [mkAttrMatch "" 9 1 "equals" "shell:roles" ""; mkAttrMatch "NAS-IP-Address" 0 0 "present" "" ""]) "permit" ["admin"; "hello"]];
      mkRADIUSPolicy "dial" [mkRADIUSRule "off" false (mkRADIUSMatch [] None []) "permit" [];
                             mkRADIUSRule "chap" true (mkRADIUSMatch [] (Some "chap"%string) [mkAttrMatch "Framed-Protocol" 0 0 "equals" " 1 " ""]) "permit" ["hello"]];
      mkRADIUSPolicy "last" [mkRADIUSRule "no" true (mkRADIUSMatch [] None [mkAttrMatch "Service-Type" 0 0 "absent" "" ""]) "deny" ["bye"]] ]
    [ mkReplyProfile "admin" [mkReplyAttr "Cisco-AVPair" 0 0 "shell:priv-lvl=15" ""; mkReplyAttr "" 9 2 "" "0aFF"; mkReplyAttr "Session-Timeout" 0 0 "3600" ""];
      mkReplyProfile "hello" [mkReplyAttr "Reply-Message" 0 0 "welcome" ""; mkReplyAttr "Framed-IP-Address" 0 0 "192.0.2.7" ""];
      mkReplyProfile "bye" [mkReplyAttr "Reply-Message" 0 0 "not here" ""] ]
    "last"
    [mkCfgClient "nas" true [mkCfgEndpoint "udp" "radius" (Some "dial"%string); mkCfgEndpoint "tls" "radius" (Some ""%string)] ["net"]]
    [mkCfgUser "alice" true ["ops"] ""; mkCfgUser "bob" false ["ops"] "admins"]
    [mkCfgGroup "ops" true 20 "admins"; mkCfgGroup "net" true 10 ""].

Definition sample_engine : option Engine := match Compile sample_input with Ok e => Some e | Err _ => None end.
Definition empty_engine : Engine := mkEngine ∅ ∅ ∅ ∅ "".
Definition sample_request (user endpoint method : string) (attrs : TypedSet) : Request := mkRequest user "nas" endpoint method [] attrs.
Definition typed_int (code n : Z) : Typed := mkTyped (mkAttrKey 0 code "") KindInteger "" n None [].
Definition cisco_shell : TypedSet :=
  [mkTyped (mkAttrKey 9 1 "") KindText "shell:roles" 0 None (octets_of "shell:roles"); mkTyped (mkAttrKey 0 4 "") KindIPv4 "" 0 (Some ([10; 0; 0; 1], [])) []].

Definition show (res : Result) : string * list string * list (string * bool) :=
  (rs_Effect res, map (fun t => ak_Name (ty_Key t)) (rs_ReplyAttributes res), map (fun s => (ts_RuleID s, ts_Matched s)) (tr_Steps (rs_Trace res))).

Example sample_walks :
  show (Evaluate sample_engine (sample_request "alice" "udp" "password" cisco_shell))
    = ("permit", ["Cisco-AVPair"; "Vendor-Specific"; "Session-Timeout"; "Reply-Message"; "Framed-IP-Address"], [("shell", true)])%string
  /\ show (Evaluate sample_engine (sample_request "bob" "udp" "chap" [typed_int 7 1]))
    = ("permit", ["Reply-Message"; "Framed-IP-Address"], [("chap", true)])%string
  /\ show (Evaluate sample_engine (sample_request "alice" "tls" "chap" [])) = ("deny", ["Reply-Message"], [("shell", false); ("no", true)])%string
  /\ show (Evaluate sample_engine (sample_request "alice" "tls" "chap" [typed_int 6 2])) = ("deny", [], [("shell", false); ("no", false)])%string
  /\ show (Evaluate sample_engine (sample_request "alice" "" "chap" [])) = ("error", [], [])%string.
Proof. vm_compute. repeat split. Qed.

(** A smaller one, for the theorems. *)
Definition small_input : Input :=
  mkInput [mkRADIUSPolicy "p" [mkRADIUSRule "r" true (mkRADIUSMatch ["g"] None [mkAttrMatch "NAS-Port" 0 0 "equals" "7" ""]) "permit" ["q"]]]
    [mkReplyProfile "q" [mkReplyAttr "Class" 0 0 "gold" ""]] ""
    [mkCfgClient "nas" true [mkCfgEndpoint "udp" "radius" (Some "p"%string)] ["g"]] [mkCfgUser "u" true [] ""] [mkCfgGroup "g" true 1 ""].

Definition small_engine : Engine := match Compile small_input with Ok e => e | Err _ => empty_engine end.
Definition small_request : Request := sample_request "u" "udp" "chap" [typed_int 5 7].

Lemma small_compiled : Compile small_input = Ok small_engine.
Proof. vm_compute. reflexivity. Qed.

