(* ===== verification/ClientMatch.v ===== *)
(** * Client matching

    [internal/config/match.go], [match_radius.go] and [match_radius_tls.go]:
    which configured client a peer is, by source network, certificate names and
    priority.  Three indexes are compiled from the enabled clients: TACACS+
    ([ClientIndex]), RADIUS over UDP ([RADIUSIndex]), and RADIUS over TLS
    ([RADIUSCertIndex]).  Each refuses to compile when two clients could not be
    told apart; each answers a tie with an error, never by picking one.
    DNS names are compared as ASCII (a certificate's names are); a Go map is
    iterated in the order of [map_to_list], on which nothing depends. *)

From Stdlib Require Import Ascii.
From stdpp Require Import gmap strings sorting.
From S2P Require Import Prelude Text StableSort Policy Domain NetAddr.

#[local] Open Scope Z_scope.

(** ** Configuration (types.go, endpoints.go): the fields read here *)

Record RADIUSEndpoint := mkRADIUSEndpoint {
  re_SharedSecret : string;
  re_RequireMessageAuthenticator : bool;
  re_LimitProxyState : bool;
  re_AllowedAuthenticationMethods : list string;
  re_AcceptStatusTypes : list string;
}.

Record ClientEndpoint := mkClientEndpoint {
  ep_ID : string;
  ep_Protocol : string;
  ep_Transport : string;
  ep_Roles : list string;
  ep_RADIUS : option RADIUSEndpoint;
}.

Record Client := mkClient {
  c_ID : string;
  c_Priority : Z;
  c_Enabled : bool;
  c_SourceCIDRs : list string;
  c_Transports : list string;
  c_Mode : string;
  c_DNSSANs : list string;
  c_IPSANs : list string;
  c_Endpoints : list ClientEndpoint;
}.

Definition EndpointTransportUDP : string := "udp".
Definition EndpointTransportTLS : string := "tls".

Fixpoint radiusEndpoint_loop (eps : list ClientEndpoint) (want : string) : option ClientEndpoint :=
  match eps with
  | [] => None
  | ep :: eps =>
    if negb (str_eqb (ep_Protocol ep) ProtocolRADIUS) || bool_decide (ep_RADIUS ep = None) then radiusEndpoint_loop eps want
    else if str_eqb want "" || str_eqb (ep_Transport ep) want then Some ep
    else radiusEndpoint_loop eps want
  end.
Definition radiusEndpoint (c : Client) (transport : string) : option ClientEndpoint :=
  radiusEndpoint_loop (c_Endpoints c) (ToLower (TrimSpace transport)).

Definition endpointHasRole (ep : ClientEndpoint) (role : string) : bool := existsb (fun r => str_eqb r role) (ep_Roles ep).

(** Errors with the client's position where the code gives its path. *)
Inductive config_error :=
| ErrNotFound
| ErrPeerAddress
| ErrIndexRole
| ErrIndexCarrier
| ErrSourceCIDRs (i : Z)
| ErrCIDR (i : Z)
| ErrIPSAN (i j : Z)
| ErrAmbiguous (a b : string).

Definition ambiguousError (a b : string) : config_error := if str_ltb b a then ErrAmbiguous b a else ErrAmbiguous a b.

(** ** Networks and names *)

Record indexCIDR := mkIndexCIDR { ix_network : IPNet; ix_bits : Z; ix_v4 : bool }.

(** The body of the loop over [SourceCIDRs]. *)
Definition index_cidr (n : IPNet) : indexCIDR :=
  let ones := Mask_ones (N_Mask n) in
  match To4 (N_IP n) with
  | Some ip => mkIndexCIDR (mkIPNet ip (N_Mask n)) ones true
  | None => mkIndexCIDR (mkIPNet (default [] (To16 (N_IP n))) (N_Mask n)) ones false
  end.

Fixpoint index_cidrs (i : Z) (l : list string) (out : list indexCIDR) : result config_error (list indexCIDR) :=
  match l with
  | [] => Ok out
  | s :: l => match ParseCIDR s with Some n => index_cidrs i l (out ++ [index_cidr n]) | None => Err (ErrCIDR i) end
  end.

Fixpoint parseStoredIPSAN_loop (i j : Z) (vals : list string) (out : list bytes) : result config_error (list bytes) :=
  match vals with
  | [] => Ok out
  | s :: vals => match ParseIP s with Some ip => parseStoredIPSAN_loop i (j + 1) vals (out ++ [ip]) | None => Err (ErrIPSAN i j) end
  end.
Definition parseStoredIPSAN (vals : list string) (i : Z) := parseStoredIPSAN_loop i 0 vals [].

(** The address and its family; none for nil. *)
Definition canonicalizeIP (ip : bytes) : option (bytes * bool) :=
  match To4 ip with
  | Some v4 => Some (v4, true)
  | None => match To16 ip with Some v6 => Some (v6, false) | None => None end
  end.

Definition longest_step (ip : bytes) (v4 : bool) (best : option Z) (c : indexCIDR) : option Z :=
  if negb (Bool.eqb (ix_v4 c) v4) then best
  else if negb (Contains (ix_network c) ip) then best
  else match best with Some b => if ix_bits c >? b then Some (ix_bits c) else best | None => Some (ix_bits c) end.
Definition longestContaining (cidrs : list indexCIDR) (ip : bytes) (v4 : bool) : option Z :=
  fold_left (longest_step ip v4) cidrs None.

(** [strings.EqualFold], when one side is ASCII: besides the letters, U+017F
    ([C5 BF]) folds to s and U+212A ([E2 84 AA]) to k. *)
Fixpoint fold_name (s : string) : string :=
  match s with
  | EmptyString => EmptyString
  | String c rest =>
    match rest with
    | String c2 rest2 =>
      if is_octet 197 c && is_octet 191 c2 then String "s"%char (fold_name rest2)
      else match rest2 with
           | String c3 rest3 =>
             if is_octet 226 c && is_octet 132 c2 && is_octet 170 c3 then String "k"%char (fold_name rest3)
             else String (lower_ascii c) (fold_name rest)
           | EmptyString => String (lower_ascii c) (fold_name rest)
           end
    | EmptyString => String (lower_ascii c) EmptyString
    end
  end.
Definition EqualFold (a b : string) : bool := str_eqb (fold_name a) (fold_name b).

Record CertIdentity := mkCertIdentity { cert_DNSSANs : list string; cert_IPSANs : list bytes }.

(** [certSatisfied] on the two lists of constraints. *)
Definition certSatisfied (dns : list string) (ips : list bytes) (cert : option CertIdentity) : bool :=
  if (len dns =? 0) && (len ips =? 0) then true else
  match cert with
  | None => false
  | Some cert =>
    existsb (fun want => existsb (EqualFold want) (cert_DNSSANs cert)) dns
    || existsb (fun want => existsb (IP_Equal want) (cert_IPSANs cert)) ips
  end.

Definition certsMayOverlap (dns1 : list string) (ips1 : list bytes) (dns2 : list string) (ips2 : list bytes) : bool :=
  if (len dns1 =? 0) && (len ips1 =? 0) then true
  else if (len dns2 =? 0) && (len ips2 =? 0) then true
  else existsb (fun x => existsb (EqualFold x) dns2) dns1 || existsb (fun x => existsb (IP_Equal x) ips2) ips1.

Definition shareIdenticalCIDR (a b : list indexCIDR) : bool :=
  existsb (fun x => existsb (fun y =>
    Bool.eqb (ix_v4 x) (ix_v4 y) && (ix_bits x =? ix_bits y) && IP_Equal (N_IP (ix_network x)) (N_IP (ix_network y))
    && bool_decide (N_Mask (ix_network x) = N_Mask (ix_network y))) b) a.

(** ** Selection: the end of every [Match] *)

Record matchCandidate := mkCandidate { mc_id : string; mc_priority : Z; mc_prefix : Z }.

Definition pick (final : list matchCandidate) : result config_error string :=
  match final with
  | [] => Err ErrNotFound
  | c0 :: rest =>
    let bestPri := fold_left (fun best c => if mc_priority c <? best then mc_priority c else best) rest (mc_priority c0) in
    let winners := map mc_id (List.filter (fun c => mc_priority c =? bestPri) final) in
    match SliceStable str_ltb winners with
    | a :: b :: _ => Err (ambiguousError a b)
    | [a] => Ok a
    | [] => Err ErrNotFound
    end
  end.

(** The two loops over all pairs of sorted identifiers. *)
Fixpoint check_pairs {X} (pair : X -> X -> option config_error) (l : list X) : option config_error :=
  match l with
  | [] => None
  | a :: l =>
    match fold_right (fun b acc => match pair a b with Some e => Some e | None => acc end) None l with
    | Some e => Some e
    | None => check_pairs pair l
    end
  end.

Definition sorted_values {X} (m : gmap string X) : list X :=
  omap (fun id => m !! id) (SliceStable str_ltb (map fst (map_to_list m))).

(** ** RADIUS over UDP (match_radius.go) *)

Record radiusIndexClient := mkRadiusIndexClient {
  ri_id : string; ri_endpointID : string; ri_priority : Z; ri_cidrs : list indexCIDR;
}.
Record RADIUSIndex := mkRADIUSIndex { rx_role : string; rx_byID : gmap string radiusIndexClient }.

Definition radiusIndexFromClient (c : Client) (ep : ClientEndpoint) (i : Z) : result config_error radiusIndexClient :=
  if len (c_SourceCIDRs c) =? 0 then Err (ErrSourceCIDRs i) else
  let! cidrs := index_cidrs i (c_SourceCIDRs c) [] in
  Ok (mkRadiusIndexClient (c_ID c) (ep_ID ep) (c_Priority c) cidrs).

(** [checkAmbiguity]'s body, on two clients. *)
Definition radiusPairAmbiguous (a b : radiusIndexClient) : option config_error :=
  if negb (ri_priority a =? ri_priority b) then None
  else if shareIdenticalCIDR (ri_cidrs a) (ri_cidrs b) then Some (ambiguousError (ri_id a) (ri_id b))
  else None.

Fixpoint compileRADIUS_loop (role : string) (clients : list Client) (i : Z) (byID : gmap string radiusIndexClient)
  : result config_error (gmap string radiusIndexClient) :=
  match clients with
  | [] => Ok byID
  | c :: clients =>
    if negb (c_Enabled c) then compileRADIUS_loop role clients (i + 1) byID else
    match radiusEndpoint c EndpointTransportUDP with
    | Some ep =>
      if negb (endpointHasRole ep role) then compileRADIUS_loop role clients (i + 1) byID
      else let! ic := radiusIndexFromClient c ep i in compileRADIUS_loop role clients (i + 1) (<[c_ID c := ic]> byID)
    | None => compileRADIUS_loop role clients (i + 1) byID
    end
  end.

Definition CompileRADIUSIndex (clients : list Client) (role carrier : string) : result config_error RADIUSIndex :=
  if negb (one_of [Domain.RoleAccess; Domain.RoleAccounting; Domain.RoleDynamicAuthorization] role) then Err ErrIndexRole else
  if negb (str_eqb carrier CarrierRADIUSUDP) then Err ErrIndexCarrier else
  let! byID := compileRADIUS_loop role clients 0 ∅ in
  match check_pairs radiusPairAmbiguous (sorted_values byID) with
  | Some e => Err e
  | None => Ok (mkRADIUSIndex role byID)
  end.

(** The loop over the index: candidates, the longest prefix, endpoints. *)
Abbreviation scan := (list matchCandidate * Z * gmap string string)%type.

Definition radius_scan (ip : bytes) (v4 : bool) (acc : scan) (ic : radiusIndexClient) : scan :=
  let '(cand, bestPrefix, hits) := acc in
  match longestContaining (ri_cidrs ic) ip v4 with
  | None => acc
  | Some bits =>
    (cand ++ [mkCandidate (ri_id ic) (ri_priority ic) bits], if bits >? bestPrefix then bits else bestPrefix,
     <[ri_id ic := ri_endpointID ic]> hits)
  end.

Definition RADIUSIndex_Match (idx : RADIUSIndex) (ip : bytes) : result config_error (string * string) :=
  match canonicalizeIP ip with
  | None => Err ErrPeerAddress
  | Some (canon, v4) =>
    let '(cand, bestPrefix, hits) := fold_left (radius_scan canon v4) (map snd (map_to_list (rx_byID idx))) ([], -1, ∅) in
    let! id := pick (List.filter (fun c => mc_prefix c =? bestPrefix) cand) in
    Ok (id, default "" (hits !! id))
  end.

(** ** RADIUS over TLS (match_radius_tls.go) *)

Record radiusCertClient := mkRadiusCertClient {
  rc_id : string; rc_endpointID : string; rc_priority : Z; rc_mode : string;
  rc_cidrs : list indexCIDR; rc_dns : list string; rc_ips : list bytes;
}.
Record RADIUSCertIndex := mkRADIUSCertIndex { cx_role : string; cx_byID : gmap string radiusCertClient }.

Definition radiusCertFromClient (c : Client) (ep : ClientEndpoint) (i : Z) : result config_error radiusCertClient :=
  let mode := if str_eqb (c_Mode c) "" then MatchAddressAndCertificate else c_Mode c in
  if str_eqb mode MatchAddressAndCertificate && (len (c_SourceCIDRs c) =? 0) then Err (ErrSourceCIDRs i) else
  let! ips := parseStoredIPSAN (c_IPSANs c) i in
  let! cidrs := index_cidrs i (c_SourceCIDRs c) [] in
  Ok (mkRadiusCertClient (c_ID c) (ep_ID ep) (c_Priority c) mode cidrs (c_DNSSANs c) ips).

Definition radiusCertPairAmbiguous (a b : radiusCertClient) : option config_error :=
  if negb (rc_priority a =? rc_priority b) then None
  else if negb (certsMayOverlap (rc_dns a) (rc_ips a) (rc_dns b) (rc_ips b)) then None
  else if str_eqb (rc_mode a) MatchCertificateOnly || str_eqb (rc_mode b) MatchCertificateOnly
       then Some (ambiguousError (rc_id a) (rc_id b))
  else if shareIdenticalCIDR (rc_cidrs a) (rc_cidrs b) then Some (ambiguousError (rc_id a) (rc_id b))
  else None.

Fixpoint compileCert_loop (role : string) (clients : list Client) (i : Z) (byID : gmap string radiusCertClient)
  : result config_error (gmap string radiusCertClient) :=
  match clients with
  | [] => Ok byID
  | c :: clients =>
    if negb (c_Enabled c) then compileCert_loop role clients (i + 1) byID else
    match radiusEndpoint c EndpointTransportTLS with
    | Some ep =>
      if negb (endpointHasRole ep role) then compileCert_loop role clients (i + 1) byID
      else let! ic := radiusCertFromClient c ep i in compileCert_loop role clients (i + 1) (<[c_ID c := ic]> byID)
    | None => compileCert_loop role clients (i + 1) byID
    end
  end.

Definition CompileRADIUSCertIndex (clients : list Client) (role : string) : result config_error RADIUSCertIndex :=
  if negb (one_of [Domain.RoleAccess; Domain.RoleAccounting] role) then Err ErrIndexRole else
  let! byID := compileCert_loop role clients 0 ∅ in
  match check_pairs radiusCertPairAmbiguous (sorted_values byID) with
  | Some e => Err e
  | None => Ok (mkRADIUSCertIndex role byID)
  end.

Definition radiusCertSatisfied (ic : radiusCertClient) (cert : option CertIdentity) : bool :=
  if (len (rc_dns ic) =? 0) && (len (rc_ips ic) =? 0) then negb (bool_decide (cert = None))
  else certSatisfied (rc_dns ic) (rc_ips ic) cert.

Definition hasUnconstrained (idx : RADIUSCertIndex) : bool :=
  existsb (fun kv => (len (rc_dns kv.2) =? 0) && (len (rc_ips kv.2) =? 0)) (map_to_list (cx_byID idx)).

Definition cert_scan (ip : bytes) (cert : option CertIdentity) (acc : scan) (ic : radiusCertClient) : scan :=
  let '(cand, bestPrefix, hits) := acc in
  if negb (radiusCertSatisfied ic cert) then acc else
  if str_eqb (rc_mode ic) MatchCertificateOnly then
    (cand ++ [mkCandidate (rc_id ic) (rc_priority ic) (-1)], bestPrefix, <[rc_id ic := rc_endpointID ic]> hits)
  else
    match canonicalizeIP ip with
    | None => acc
    | Some (canon, v4) =>
      match longestContaining (rc_cidrs ic) canon v4 with
      | None => acc
      | Some bits =>
        (cand ++ [mkCandidate (rc_id ic) (rc_priority ic) bits], if bits >? bestPrefix then bits else bestPrefix,
         <[rc_id ic := rc_endpointID ic]> hits)
      end
    end.

(** [c.prefix < 0 || c.prefix == bestPrefix] *)
Definition finalists (cand : list matchCandidate) (bestPrefix : Z) : list matchCandidate :=
  List.filter (fun c => (mc_prefix c <? 0) || (mc_prefix c =? bestPrefix)) cand.

Definition RADIUSCertIndex_Match (idx : RADIUSCertIndex) (ip : bytes) (cert : option CertIdentity)
  : result config_error (string * string) :=
  let refused := match cert with
    | None => true
    | Some c => (len (cert_DNSSANs c) =? 0) && (len (cert_IPSANs c) =? 0) && negb (hasUnconstrained idx)
    end in
  if refused then Err ErrNotFound else
  let '(cand, bestPrefix, hits) := fold_left (cert_scan ip cert) (map snd (map_to_list (cx_byID idx))) ([], -1, ∅) in
  let! id := pick (finalists cand bestPrefix) in
  Ok (id, default "" (hits !! id)).

(** ** TACACS+ (match.go) *)

Record indexClient := mkIndexClient {
  ic_id : string; ic_priority : Z; ic_mode : string; ic_transports : list string;
  ic_cidrs : list indexCIDR; ic_dns : list string; ic_ips : list bytes;
}.
Record ClientIndex := mkClientIndex { tx_byID : gmap string indexClient }.

Definition hasTransport (l : list string) (want : string) : bool := existsb (fun t => str_eqb t want) l.

Definition indexFromClient (c : Client) (i : Z) : result config_error indexClient :=
  let! ips := parseStoredIPSAN (c_IPSANs c) i in
  let! cidrs := index_cidrs i (c_SourceCIDRs c) [] in
  Ok (mkIndexClient (c_ID c) (c_Priority c) (c_Mode c) (c_Transports c) cidrs (c_DNSSANs c) ips).

Definition sharedTransports (a b : list string) : list string :=
  fold_left (fun out t => if hasTransport b t && negb (hasTransport out t) then out ++ [t] else out) a [].

Definition pairAmbiguous (a b : indexClient) : option config_error :=
  if negb (ic_priority a =? ic_priority b) then None else
  fold_right (fun tr acc =>
    if str_eqb tr TransportTLS && negb (certsMayOverlap (ic_dns a) (ic_ips a) (ic_dns b) (ic_ips b)) then acc
    else if str_eqb (ic_mode a) MatchCertificateOnly || str_eqb (ic_mode b) MatchCertificateOnly
         then Some (ambiguousError (ic_id a) (ic_id b))
    else if shareIdenticalCIDR (ic_cidrs a) (ic_cidrs b) then Some (ambiguousError (ic_id a) (ic_id b))
    else acc) None (sharedTransports (ic_transports a) (ic_transports b)).

Fixpoint compileClients_loop (clients : list Client) (i : Z) (byID : gmap string indexClient)
  : result config_error (gmap string indexClient) :=
  match clients with
  | [] => Ok byID
  | c :: clients =>
    if negb (c_Enabled c) then compileClients_loop clients (i + 1) byID
    else if len (c_Transports c) =? 0 then compileClients_loop clients (i + 1) byID
    else let! ic := indexFromClient c i in compileClients_loop clients (i + 1) (<[c_ID c := ic]> byID)
  end.

Definition CompileClientIndex (clients : list Client) : result config_error ClientIndex :=
  let! byID := compileClients_loop clients 0 ∅ in
  match check_pairs pairAmbiguous (sorted_values byID) with
  | Some e => Err e
  | None => Ok (mkClientIndex byID)
  end.

Definition client_scan (transport : string) (ip : bytes) (v4 : bool) (cert : option CertIdentity)
    (acc : list matchCandidate * Z) (ic : indexClient) : list matchCandidate * Z :=
  let '(cand, bestPrefix) := acc in
  if negb (hasTransport (ic_transports ic) transport) then acc
  else if str_eqb transport TransportTLS && negb (certSatisfied (ic_dns ic) (ic_ips ic) cert) then acc
  else if str_eqb (ic_mode ic) MatchCertificateOnly then (cand ++ [mkCandidate (ic_id ic) (ic_priority ic) (-1)], bestPrefix)
  else
    match longestContaining (ic_cidrs ic) ip v4 with
    | None => acc
    | Some bits =>
      (cand ++ [mkCandidate (ic_id ic) (ic_priority ic) bits], if bits >? bestPrefix then bits else bestPrefix)
    end.

Definition ClientIndex_Match (idx : ClientIndex) (transport : string) (ip : bytes) (cert : option CertIdentity)
  : result config_error string :=
  match canonicalizeIP ip with
  | None => Err ErrPeerAddress
  | Some (canon, v4) =>
    let '(cand, bestPrefix) := fold_left (client_scan transport canon v4 cert) (map snd (map_to_list (tx_byID idx))) ([], -1) in
    pick (finalists cand bestPrefix)
  end.

(** ** Networks: what a hit means *)

Definition hit (ip : bytes) (v4 : bool) (c : indexCIDR) : Prop := ix_v4 c = v4 /\ Contains (ix_network c) ip = true.

Lemma longest_fold ip v4 cidrs best :
  let r := fold_left (longest_step ip v4) cidrs best in
  (forall b, best = Some b -> exists p, r = Some p /\ b <= p)
  /\ (forall c, c ∈ cidrs -> hit ip v4 c -> exists p, r = Some p /\ ix_bits c <= p)
  /\ (forall p, r = Some p -> best = Some p \/ exists c, c ∈ cidrs /\ hit ip v4 c /\ ix_bits c = p).
Proof.
  revert best. induction cidrs as [|c cidrs IH]; intros best; cbn [fold_left].
  { split_and!; [intros b ->; by exists b|by intros c ?%elem_of_nil|by left]. }
  specialize (IH (longest_step ip v4 best c)). cbv zeta in *. destruct IH as (H1 & H2 & H3).
  assert ((hit ip v4 c /\ longest_step ip v4 best c = Some (match best with Some b => Z.max b (ix_bits c) | None => ix_bits c end))
    \/ (~ hit ip v4 c /\ longest_step ip v4 best c = best)) as Hs.
  { unfold longest_step, hit. destruct (Bool.eqb_spec (ix_v4 c) v4) as [Hv|Hv]; cbn [negb]; [|right; tauto].
    destruct (Contains (ix_network c) ip); cbn [negb]; [left|right; split; [by intros [_ ?]|done]].
    split; [done|]. destruct best as [b|]; [|done]. destruct (ix_bits c >? b) eqn:E; bool_hyps; f_equal; lia. }
  split_and!.
  - intros b ->. destruct Hs as [ [_ E]|[_ E] ].
    + destruct (H1 _ E) as (p & ? & ?). exists p. split; [done|lia].
    + by apply H1.
  - intros c' [->|Hc]%elem_of_cons Hh; [|by apply H2]. destruct Hs as [ [_ E]|[Hn _] ]; [|done].
    destruct (H1 _ E) as (p & ? & ?). exists p. split; [done|]. destruct best; lia.
  - intros p Hp. destruct (H3 p Hp) as [E|(c' & ? & ?)]; [|right; exists c'; rewrite elem_of_cons; tauto].
    destruct Hs as [ [Hh E']|[_ E'] ]; rewrite E' in E; [|by left].
    destruct best as [b|]; injection E as <-.
    + destruct (Z.max_spec b (ix_bits c)) as [ [? ->]|[? ->] ]; [right; exists c; rewrite elem_of_cons; tauto|by left].
    + right. exists c. rewrite elem_of_cons. tauto.
Qed.

Lemma longestContaining_spec cidrs ip v4 p :
  longestContaining cidrs ip v4 = Some p <->
  (exists c, c ∈ cidrs /\ hit ip v4 c /\ ix_bits c = p) /\ (forall c, c ∈ cidrs -> hit ip v4 c -> ix_bits c <= p).
Proof.
  unfold longestContaining. destruct (longest_fold ip v4 cidrs None) as (_ & H2 & H3). split.
  - intros H. destruct (H3 p H) as [?|(c & ?)]; [done|]. split; [by exists c|].
    intros c' Hc Hh. destruct (H2 c' Hc Hh) as (q & Hq & ?). rewrite H in Hq. injection Hq as ->. done.
  - intros [(c & Hc & Hh & <-) Hmax]. destruct (H2 c Hc Hh) as (q & Hq & Hle). rewrite Hq. f_equal.
    destruct (H3 q Hq) as [?|(c' & Hc' & Hh' & <-)]; [done|]. specialize (Hmax c' Hc' Hh'). lia.
Qed.

(** The mask applied to an address of the network's family. *)
Definition eff_ones (c : indexCIDR) : Z := if ix_v4 c && (ix_bits c >? 32) then ix_bits c - 96 else ix_bits c.

Record cidr_ok (c : indexCIDR) : Prop := {
  co_u8 : Forall is_u8 (N_IP (ix_network c));
  co_len : len (N_IP (ix_network c)) = if ix_v4 c then 4 else 16;
  co_v6 : ix_v4 c = false -> To4 (N_IP (ix_network c)) = None;
  co_mask : N_Mask (ix_network c) = CIDRMask (ix_bits c) (if ix_v4 c && negb (ix_bits c >? 32) then 4 else 16);
  co_bits : 0 <= eff_ones c <= 8 * len (N_IP (ix_network c));
  co_masked : and_bytes (N_IP (ix_network c)) (CIDRMask (eff_ones c) (length (N_IP (ix_network c)))) = N_IP (ix_network c);
}.

(** A finite range of numbers, checked by evaluation. *)
Lemma range_forall (lo : Z) (n : nat) (P : Z -> bool) :
  forallb P (map (fun k => lo + Z.of_nat k) (seq 0 n)) = true -> forall x, lo <= x < lo + Z.of_nat n -> P x = true.
Proof.
  intros H x Hx. rewrite forallb_forall in H. apply H, in_map_iff. exists (Z.to_nat (x - lo)).
  split; [lia|]. apply in_seq. lia.
Qed.

Lemma mapped_mask ones : 96 <= ones <= 128 -> drop 12 (CIDRMask ones 16) = CIDRMask (ones - 96) 4.
Proof.
  intros H. apply bytes_eqb_true. revert ones H.
  enough (forall ones, 96 <= ones < 96 + Z.of_nat 33 -> bytes_eqb (drop 12 (CIDRMask ones 16)) (CIDRMask (ones - 96) 4) = true) as Hx
    by (intros ones H; apply Hx; lia).
  apply range_forall. vm_compute. reflexivity.
Qed.

Lemma mapped_ones ones : 0 <= ones -> and_bytes v4InV6Prefix (take 12 (CIDRMask ones 16)) = v4InV6Prefix -> 96 <= ones.
Proof.
  intros H0 H. destruct (Z.le_gt_cases 96 ones) as [|Hlt]; [done|]. exfalso.
  enough (bytes_eqb (and_bytes v4InV6Prefix (take 12 (CIDRMask ones 16))) v4InV6Prefix = false) as Hn
    by (apply bytes_eqb_true in H; congruence).
  apply negb_true_iff. assert (0 <= ones < 0 + Z.of_nat 96) as Hr by lia. clear H H0 Hlt. revert ones Hr.
  apply range_forall. vm_compute. reflexivity.
Qed.

Lemma and_bytes_app a b m k : length a = length m -> and_bytes (a ++ b) (m ++ k) = and_bytes a m ++ and_bytes b k.
Proof. unfold and_bytes. intros H. by rewrite zip_with_app. Qed.

Lemma length_len {A} (l : list A) n : len l = Z.of_nat n -> length l = n.
Proof. unfold len. lia. Qed.

(** A mapped IPv6 network has at least 96 bits. *)
Lemma mapped_net n ones ip :
  net_ok n ones -> len (N_IP n) = 16 -> To4 (N_IP n) = Some ip ->
  ip = drop 12 (N_IP n) /\ 96 <= ones /\ and_bytes ip (CIDRMask (ones - 96) 4) = ip.
Proof.
  intros [ [Hu _] Ho Hm Hd] E16 H4. unfold To4 in H4. rewrite E16 in H4. cbn [Z.eqb Pos.eqb andb] in H4.
  case_bool_decide as Hp; [|done]. injection H4 as <-. rewrite (length_len _ 16) in Hm by done.
  assert (N_IP n = v4InV6Prefix ++ drop 12 (N_IP n)) as Hip by (by rewrite <- Hp, take_drop).
  rewrite Hm, Hip in Hd. rewrite <- (take_drop 12 (CIDRMask ones 16)) in Hd.
  rewrite and_bytes_app in Hd by (rewrite length_take, len_CIDRMask; done).
  apply app_inj_1 in Hd as [Hd1 Hd2]; [|unfold and_bytes; rewrite length_zip_with, length_take, len_CIDRMask; done].
  apply mapped_ones in Hd1; [|lia]. rewrite mapped_mask in Hd2 by lia. done.
Qed.

Lemma index_cidr_ok n : net_ok n (Mask_ones (N_Mask n)) -> cidr_ok (index_cidr n).
Proof.
  intros Hn. pose proof Hn as [ [Hu Hl] Ho Hm Hd]. unfold index_cidr. set (ones := Mask_ones (N_Mask n)) in *.
  destruct (To4 (N_IP n)) as [ip|] eqn:H4; [destruct (Z.eqb_spec (len (N_IP n)) 4) as [E|E]|].
  - unfold To4 in H4. rewrite E in H4. injection H4 as <-. rewrite (length_len _ 4) in Hm by done.
    assert ((ones >? 32) = false) as E32 by (destruct (ones >? 32) eqn:?; bool_hyps; [lia|done]).
    split; unfold eff_ones; cbn [ix_network ix_bits ix_v4 N_IP N_Mask andb]; rewrite ?E32; cbn [andb negb]; try done; try lia.
    rewrite (length_len (N_IP n) 4) by done. by rewrite <- Hm.
  - assert (len (N_IP n) = 16) as E16 by (by destruct Hl). destruct (mapped_net n ones ip Hn E16 H4) as (-> & H96 & Hd4).
    rewrite (length_len _ 16) in Hm by done.
    assert (length (drop 12 (N_IP n)) = 4%nat) as Hl4 by (rewrite length_drop, (length_len _ 16 E16); done).
    assert ((ones >? 32) = true) as E32 by (destruct (ones >? 32) eqn:?; bool_hyps; [done|lia]).
    split; unfold eff_ones; cbn [ix_network ix_bits ix_v4 N_IP N_Mask andb]; rewrite ?E32; cbn [andb negb]; try done.
    + by apply Forall_drop.
    + unfold len. rewrite Hl4. done.
    + unfold len. rewrite Hl4. lia.
    + by rewrite Hl4.
  - assert (len (N_IP n) = 16) as E.
    { destruct Hl as [Hl|Hl]; [|done]. unfold To4 in H4. by rewrite Hl in H4. }
    assert (To16 (N_IP n) = Some (N_IP n)) as -> by (unfold To16; by rewrite E).
    rewrite (length_len _ 16) in Hm by done.
    split; unfold eff_ones; cbn [ix_network ix_bits ix_v4 N_IP N_Mask andb default from_option id]; try done; try lia.
    rewrite (length_len (N_IP n) 16) by done. by rewrite <- Hm.
Qed.

(** An address as [canonicalizeIP] returns it. *)
Definition canon_ok (ip : bytes) (v4 : bool) : Prop :=
  Forall is_u8 ip /\ len ip = (if v4 then 4 else 16) /\ (v4 = false -> To4 ip = None).

Lemma canonicalizeIP_ok ip canon v4 : is_ip ip -> canonicalizeIP ip = Some (canon, v4) -> canon_ok canon v4.
Proof.
  intros [Hu Hl]. unfold canonicalizeIP. destruct (To4 ip) as [a|] eqn:E4.
  - intros [= <- <-]. unfold To4 in E4. destruct (Z.eqb_spec (len ip) 4); [by injection E4 as <-|].
    destruct (Z.eqb_spec (len ip) 16) as [E|]; [|done]. cbn [andb] in E4. case_bool_decide; [|done]. injection E4 as <-.
    split_and!; [by apply Forall_drop|unfold len in *; rewrite length_drop; lia|done].
  - unfold To16. destruct (Z.eqb_spec (len ip) 4) as [E|].
    { unfold To4 in E4. by rewrite E in E4. }
    destruct (Z.eqb_spec (len ip) 16); [|done]. intros [= <- <-]. by split_and!.
Qed.

Lemma canonicalizeIP_some ip : is_ip ip -> exists canon v4, canonicalizeIP ip = Some (canon, v4).
Proof.
  intros [_ Hl]. unfold canonicalizeIP. destruct (To4 ip) as [a|]; [by eexists _, _|].
  unfold To16. destruct Hl as [-> | ->]; cbn; by eexists _, _.
Qed.

(** A hit: the network's leading bits are the address's. *)
Lemma hit_prefix c ip v4 :
  cidr_ok c -> canon_ok ip v4 ->
  hit ip v4 c <-> ix_v4 c = v4 /\ take (Z.to_nat (eff_ones c)) (ip_bits (N_IP (ix_network c))) = take (Z.to_nat (eff_ones c)) (ip_bits ip).
Proof.
  intros [Hu Hl H6 Hm Hb Hd] (Hiu & Hil & Hi6). unfold hit.
  destruct (decide (ix_v4 c = v4)) as [<-|Hv]; [|tauto].
  assert (networkNumberAndMask (ix_network c)
    = Some (N_IP (ix_network c), CIDRMask (eff_ones c) (length (N_IP (ix_network c))))) as Hn.
  { unfold networkNumberAndMask, eff_ones in *. rewrite Hm. destruct (ix_v4 c) eqn:Ev.
    - assert (To4 (N_IP (ix_network c)) = Some (N_IP (ix_network c))) as -> by (unfold To4; by rewrite Hl).
      rewrite (length_len _ 4 Hl). cbn [andb] in *. destruct (ix_bits c >? 32) eqn:E; cbn [negb] in *.
      + unfold len. rewrite len_CIDRMask. cbn [Z.of_nat Z.eqb Pos.eqb Pos.of_succ_nat Pos.succ].
        fold (len (N_IP (ix_network c))). rewrite Hl. cbn [Z.eqb Pos.eqb]. rewrite mapped_mask by (bool_hyps; lia). done.
      + unfold len. rewrite len_CIDRMask. cbn [Z.of_nat Z.eqb Pos.eqb Pos.of_succ_nat Pos.succ].
        fold (len (N_IP (ix_network c))). by rewrite Hl.
    - rewrite H6 by done. rewrite Hl. cbn [Z.eqb Pos.eqb andb negb]. rewrite (length_len _ 16 Hl).
      unfold len. rewrite len_CIDRMask. cbn [Z.of_nat Z.eqb Pos.eqb Pos.of_succ_nat Pos.succ].
      fold (len (N_IP (ix_network c))). by rewrite Hl. }
  assert (default ip (To4 ip) = ip) as Hc.
  { destruct (ix_v4 c); [unfold To4; by rewrite Hil|by rewrite Hi6]. }
  unfold Contains. rewrite Hn, Hc, Hil, Hl, Z.eqb_refl. cbn [negb]. rewrite bool_decide_eq_true.
  assert (length ip = length (N_IP (ix_network c))) as Hlen by (unfold len in *; destruct (ix_v4 c); lia).
  rewrite (and_mask_iff _ _ _ _ Hu Hiu eq_refl Hlen) by lia. tauto.
Qed.

(** Two networks with equally many bits that contain one address are one. *)
Lemma same_network x y ip v4 :
  cidr_ok x -> cidr_ok y -> canon_ok ip v4 -> hit ip v4 x -> hit ip v4 y -> ix_bits x = ix_bits y ->
  Bool.eqb (ix_v4 x) (ix_v4 y) && (ix_bits x =? ix_bits y) && IP_Equal (N_IP (ix_network x)) (N_IP (ix_network y))
  && bool_decide (N_Mask (ix_network x) = N_Mask (ix_network y)) = true.
Proof.
  intros Hx Hy Hc H1 H2 Hb. pose proof H1 as [V1 _]. pose proof H2 as [V2 _].
  apply (hit_prefix x ip v4 Hx Hc) in H1 as [_ H1]. apply (hit_prefix y ip v4 Hy Hc) in H2 as [_ H2].
  assert (eff_ones x = eff_ones y) as He by (unfold eff_ones; by rewrite V1, V2, Hb).
  destruct Hx as [Hxu Hxl _ Hxm Hxb Hxd], Hy as [Hyu Hyl _ Hym Hyb Hyd]. rewrite V1 in *. rewrite V2 in *.
  assert (length (N_IP (ix_network x)) = length (N_IP (ix_network y))) as Hlen by (unfold len in *; lia).
  assert (N_IP (ix_network x) = N_IP (ix_network y)) as Hip.
  { rewrite <- Hxd, <- Hyd, Hlen, He. apply and_mask_iff; [done|done|done|done|lia|]. rewrite <- He at 1. by rewrite H1, H2, He. }
  rewrite Hxm, Hym, Hb, Hip. unfold IP_Equal. rewrite Bool.eqb_reflx, !Z.eqb_refl, !bool_decide_true by done. done.
Qed.

Lemma shareIdentical_hit a b ip v4 p :
  Forall cidr_ok a -> Forall cidr_ok b -> canon_ok ip v4 ->
  longestContaining a ip v4 = Some p -> longestContaining b ip v4 = Some p -> shareIdenticalCIDR a b = true.
Proof.
  rewrite !list.Forall_forall. intros Ha Hb Hc [(x & Hx & Hhx & Ex) _]%longestContaining_spec [(y & Hy & Hhy & Ey) _]%longestContaining_spec.
  unfold shareIdenticalCIDR. apply existsb_exists. exists x. split; [by apply list_elem_of_In|].
  apply existsb_exists. exists y. split; [by apply list_elem_of_In|]. apply (same_network x y ip v4); auto. congruence.
Qed.

Lemma index_cidrs_ok i l out cidrs :
  index_cidrs i l out = Ok cidrs ->
  exists ns, Forall2 (fun s n => ParseCIDR s = Some n) l ns /\ cidrs = out ++ map index_cidr ns.
Proof.
  revert out. induction l as [|s l IH]; intros out; cbn [index_cidrs].
  - intros [= <-]. exists []. split; [constructor|by rewrite app_nil_r].
  - destruct (ParseCIDR s) as [n|] eqn:En; [|done]. intros H. apply IH in H as (ns & Hf & ->). exists (n :: ns).
    split; [by constructor|]. by rewrite <- app_assoc.
Qed.

(** ** The configured networks *)

(** [n] covers [ip] with [p] bits: the leading bits agree.  The bits of a
    network written as a mapped IPv6 one are counted in 128. *)
Definition net_covers (n : IPNet) (ip : bytes) (p : Z) : Prop :=
  let a := default (N_IP n) (To4 (N_IP n)) in
  let x := default ip (To4 ip) in
  let k := Z.to_nat (p - 8 * (len (N_Mask n) - len a)) in
  p = Mask_ones (N_Mask n) /\ len a = len x /\ take k (ip_bits a) = take k (ip_bits x).

(** The most specific of a client's networks that covers [ip] has [p] bits. *)
Definition covers (l : list string) (ip : bytes) (p : Z) : Prop :=
  (exists s n, s ∈ l /\ ParseCIDR s = Some n /\ net_covers n ip p)
  /\ (forall s n p', s ∈ l -> ParseCIDR s = Some n -> net_covers n ip p' -> p' <= p).

Lemma index_cidr_covers n ip canon v4 :
  net_ok n (Mask_ones (N_Mask n)) -> is_ip ip -> canonicalizeIP ip = Some (canon, v4) ->
  hit canon v4 (index_cidr n) <-> net_covers n ip (ix_bits (index_cidr n)).
Proof.
  intros Hn Hip Hc. pose proof (canonicalizeIP_ok _ _ _ Hip Hc) as Hcanon.
  rewrite (hit_prefix _ _ _ (index_cidr_ok n Hn) Hcanon). pose proof (index_cidr_ok n Hn) as Hok.
  assert (default ip (To4 ip) = canon) as Hx.
  { unfold canonicalizeIP in Hc. destruct (To4 ip) eqn:E4; [by injection Hc|].
    unfold To16 in Hc. destruct (Z.eqb_spec (len ip) 4) as [E|]; [|destruct (len ip =? 16); [by injection Hc|done] ].
    unfold To4 in E4. by rewrite E in E4. }
  unfold net_covers. rewrite Hx. pose proof Hn as [ [Hu Hl] Ho Hm _]. destruct Hcanon as (_ & Hcl & _).
  assert (len (N_Mask n) = len (N_IP n)) as HlM by (rewrite Hm; unfold len; by rewrite len_CIDRMask).
  rewrite HlM. destruct Hok as [_ Hal _ _ Hb _]. unfold index_cidr, eff_ones in *.
  set (ones := Mask_ones (N_Mask n)) in *.
  destruct (To4 (N_IP n)) as [a|] eqn:E4; cbn [ix_network ix_bits ix_v4 N_IP N_Mask andb default from_option id] in *.
  - rewrite Hal, Hcl. assert ((if ones >? 32 then ones - 96 else ones) = ones - 8 * (len (N_IP n) - 4)) as ->.
    { destruct Hl as [Hl|Hl]; rewrite Hl in *.
      - destruct (ones >? 32) eqn:?; bool_hyps; lia.
      - destruct (mapped_net n ones a Hn Hl E4) as (_ & H96 & _). destruct (ones >? 32) eqn:?; bool_hyps; lia. }
    destruct v4; [tauto|]. split; [by intros [? _]|]. intros (_ & ? & _). lia.
  - assert (len (N_IP n) = 16) as E16 by (destruct Hl as [Hl|Hl]; [unfold To4 in E4; by rewrite Hl in E4|done]).
    assert (To16 (N_IP n) = Some (N_IP n)) as E by (unfold To16; by rewrite E16). rewrite E in *. cbn [default from_option id] in *.
    rewrite E16, Hcl. replace (ones - 8 * (16 - 16)) with ones by lia.
    destruct v4; [|tauto]. split; [by intros [? _]|]. intros (_ & ? & _). lia.
Qed.

Lemma index_cidrs_wf i l cidrs : index_cidrs i l [] = Ok cidrs -> Forall cidr_ok cidrs.
Proof.
  intros (ns & Hf & ->)%index_cidrs_ok. cbn [app]. apply list.Forall_forall. intros c Hc.
  apply list_elem_of_In, in_map_iff in Hc as (n & <- & Hn). apply list_elem_of_In, list_elem_of_lookup in Hn as [k Hk].
  destruct (Forall2_lookup_r _ _ _ _ _ Hf Hk) as (s & _ & Hs). by eapply index_cidr_ok, ParseCIDR_ok.
Qed.

Lemma covers_longest i l cidrs ip canon v4 p :
  index_cidrs i l [] = Ok cidrs -> is_ip ip -> canonicalizeIP ip = Some (canon, v4) ->
  longestContaining cidrs canon v4 = Some p <-> covers l ip p.
Proof.
  intros (ns & Hf & ->)%index_cidrs_ok Hip Hc. cbn [app]. rewrite longestContaining_spec.
  assert (forall c, c ∈ map index_cidr ns <-> exists s n, s ∈ l /\ ParseCIDR s = Some n /\ c = index_cidr n) as Hin.
  { intros c. rewrite list_elem_of_In, in_map_iff. split.
    - intros (n & <- & Hn). apply list_elem_of_In, list_elem_of_lookup in Hn as [k Hk].
      destruct (Forall2_lookup_r _ _ _ _ _ Hf Hk) as (s & Hs & E). exists s, n. split; [by eapply list_elem_of_lookup_2|done].
    - intros (s & n & Hs & E & ->). apply list_elem_of_lookup in Hs as [k Hk].
      destruct (Forall2_lookup_l _ _ _ _ _ Hf Hk) as (n' & Hn' & E'). rewrite E in E'. injection E' as <-.
      exists n. split; [done|]. apply list_elem_of_In. by eapply list_elem_of_lookup_2. }
  assert (forall s n q, ParseCIDR s = Some n -> hit canon v4 (index_cidr n) /\ ix_bits (index_cidr n) = q <-> net_covers n ip q) as Hq.
  { intros s n q E. pose proof (index_cidr_covers n ip canon v4 (ParseCIDR_ok s n E) Hip Hc) as Hi.
    assert (ix_bits (index_cidr n) = Mask_ones (N_Mask n)) as Hb by (unfold index_cidr; by destruct (To4 (N_IP n))).
    rewrite Hi. split; [by intros [? <-]|]. intros Hn. pose proof Hn as [-> _]. by rewrite Hb. }
  unfold covers. split.
  - intros [(c & Hcin & Hh & Hb) Hmax]. apply Hin in Hcin as (s & n & Hs & E & ->). split.
    + exists s, n. split_and!; [done|done|]. by apply (Hq s).
    + intros s' n' p' Hs' E' Hn'. apply (Hq s') in Hn' as [Hh' <-]; [|done]. apply Hmax; [|done]. apply Hin. by exists s', n'.
  - intros [(s & n & Hs & E & Hn) Hmax]. apply (Hq s) in Hn as [Hh Hb]; [|done]. split.
    + exists (index_cidr n). split; [|done]. apply Hin. by exists s, n.
    + intros c Hcin Hh'. apply Hin in Hcin as (s' & n' & Hs' & E' & ->). apply (Hmax s' n'); [done|done|]. by apply (Hq s').
Qed.

(** ** Selection among any clients *)

Section Best.
Context {X : Type} (key : X -> option Z).

Definition best_of (l : list X) (b : Z) : Z :=
  fold_left (fun b x => match key x with Some p => if p >? b then p else b | None => b end) l b.

(** A client that competes: no client matches with a longer prefix. *)
Definition finalist (l : list X) (x : X) : Prop :=
  exists p, key x = Some p /\ (p < 0 \/ forall y q, y ∈ l -> key y = Some q -> q <= p).

Lemma best_of_spec l b :
  b <= best_of l b /\ (forall x p, x ∈ l -> key x = Some p -> p <= best_of l b)
  /\ (best_of l b = b \/ exists x, x ∈ l /\ key x = Some (best_of l b)).
Proof.
  revert b. induction l as [|x l IH]; intros b; [split_and!; [done|by intros x p ?%elem_of_nil|by left]|].
  unfold best_of. cbn [fold_left]. fold (best_of l (match key x with Some p => if p >? b then p else b | None => b end)).
  destruct (IH (match key x with Some p => if p >? b then p else b | None => b end)) as (H1 & H2 & H3).
  set (b' := best_of l _) in *. split_and!.
  - destruct (key x) as [p|]; [|done]. destruct (p >? b) eqn:E; bool_hyps; lia.
  - intros y p [->|Hy]%elem_of_cons Hk; [|by apply (H2 y)]. rewrite Hk in H1. destruct (p >? b) eqn:E; bool_hyps; lia.
  - destruct H3 as [H3|(y & Hy & Hk)]; [|right; exists y; rewrite elem_of_cons; tauto].
    destruct (key x) as [p|] eqn:Ex; [|by left]. destruct (p >? b); [|by left].
    right. exists x. rewrite elem_of_cons, Ex, H3. tauto.
Qed.
End Best.

Section Select.
Context {X : Type} (id : X -> string) (prio : X -> Z) (endpoint : X -> string) (key : X -> option Z).

(** The scan of an index whose clients match with [key]; -1 when no prefix
    takes part. *)
Definition scan_step (acc : scan) (x : X) : scan :=
  let '(cand, bestPrefix, hits) := acc in
  match key x with
  | None => acc
  | Some p => (cand ++ [mkCandidate (id x) (prio x) p], if p >? bestPrefix then p else bestPrefix, <[id x := endpoint x]> hits)
  end.

Definition candidates (l : list X) : list matchCandidate :=
  omap (fun x => (fun p => mkCandidate (id x) (prio x) p) <$> key x) l.

Lemma scan_fold l cand b hits :
  (fold_left scan_step l (cand, b, hits)).1 = (cand ++ candidates l, best_of key l b).
Proof.
  revert cand b hits. induction l as [|x l IH]; intros cand b hits; cbn [fold_left]; [by rewrite app_nil_r|].
  unfold candidates. cbn [omap list_omap best_of fold_left]. unfold scan_step at 2. destruct (key x) as [p|]; cbn.
  - rewrite IH. by rewrite <- app_assoc.
  - apply IH.
Qed.

Lemma scan_hits l cand b hits x :
  NoDup (map id l) -> x ∈ l -> key x <> None -> (fold_left scan_step l (cand, b, hits)).2 !! id x = Some (endpoint x).
Proof.
  assert (forall l cand b hits i, i ∉ map id l -> (fold_left scan_step l (cand, b, hits)).2 !! i = hits !! i) as Hother.
  { clear. induction l as [|y l IH]; intros cand b hits i Hi; [done|]. cbn [fold_left map] in *.
    apply not_elem_of_cons in Hi as [H1 H2]. unfold scan_step at 2. destruct (key y); [|by apply IH].
    rewrite IH by done. by rewrite lookup_insert_ne. }
  revert cand b hits. induction l as [|y l IH]; intros cand b hits Hnd Hx Hk; [by apply elem_of_nil in Hx|].
  cbn [map] in Hnd. apply list.NoDup_cons in Hnd as [Hy Hnd]. cbn [fold_left].
  destruct (scan_step (cand, b, hits) y) as [ [cand' b'] hits'] eqn:E. apply elem_of_cons in Hx as [->|Hx].
  - rewrite Hother by done. unfold scan_step in E. destruct (key y); [|done]. injection E as <- <- <-. by rewrite lookup_insert_eq.
  - by apply IH.
Qed.

Lemma elem_of_candidates l c :
  c ∈ candidates l <-> exists x p, x ∈ l /\ key x = Some p /\ c = mkCandidate (id x) (prio x) p.
Proof.
  unfold candidates. rewrite list_elem_of_omap. split.
  - intros (x & Hx & Hc). destruct (key x) as [p|] eqn:E; [|done]. injection Hc as <-. by exists x, p.
  - intros (x & p & Hx & Hk & ->). exists x. by rewrite Hk.
Qed.

Lemma candidates_ids l : NoDup (map id l) -> NoDup (map mc_id (candidates l)).
Proof.
  induction l as [|x l IH]; [constructor|]. cbn [map]. intros [Hx Hnd]%list.NoDup_cons. unfold candidates. cbn [omap list_omap].
  destruct (key x) as [p|]; cbn; [|by apply IH]. constructor; [|by apply IH].
  rewrite list_elem_of_In, in_map_iff. intros (c & Hc & Hin). apply list_elem_of_In, elem_of_candidates in Hin as (y & q & Hy & _ & ->).
  apply Hx. cbn in Hc. rewrite <- Hc. apply list_elem_of_In, in_map_iff. exists y. split; [done|by apply list_elem_of_In].
Qed.
End Select.

Lemma best_priority rest p :
  let b := fold_left (fun best c => if mc_priority c <? best then mc_priority c else best) rest p in
  b <= p /\ (forall c, c ∈ rest -> b <= mc_priority c) /\ (b = p \/ exists c, c ∈ rest /\ mc_priority c = b).
Proof.
  revert p. induction rest as [|c rest IH]; intros p; cbn [fold_left].
  { split_and!; [done|by intros c ?%elem_of_nil|by left]. }
  destruct (IH (if mc_priority c <? p then mc_priority c else p)) as (H1 & H2 & H3). cbv zeta in *. split_and!.
  - destruct (_ <? _) eqn:E; bool_hyps; lia.
  - intros c' [->|Hc]%elem_of_cons; [|by apply H2]. destruct (_ <? _) eqn:E; bool_hyps; lia.
  - destruct H3 as [H3|(c' & ? & ?)]; [|right; exists c'; rewrite elem_of_cons; tauto].
    destruct (mc_priority c <? p); [right; exists c; rewrite elem_of_cons, H3; tauto|by left].
Qed.

Lemma filter_ids (f : matchCandidate -> bool) l : NoDup (map mc_id l) -> NoDup (map mc_id (List.filter f l)).
Proof.
  induction l as [|c l IH]; [done|]. cbn [map List.filter]. intros [Hc Hnd]%list.NoDup_cons. destruct (f c); [|by apply IH].
  cbn [map]. constructor; [|by apply IH]. intros Hin. apply Hc. apply list_elem_of_In, in_map_iff in Hin as (c' & E & Hin).
  apply filter_In in Hin as [Hin _]. apply list_elem_of_In, in_map_iff. by exists c'.
Qed.

Lemma elem_of_filter_In {A} (f : A -> bool) l x : x ∈ List.filter f l <-> x ∈ l /\ f x = true.
Proof. rewrite !list_elem_of_In. apply filter_In. Qed.

(** The client of least priority, or an error that names two. *)
Lemma pick_spec final :
  NoDup (map mc_id final) ->
  match pick final with
  | Ok w => exists c, c ∈ final /\ mc_id c = w /\ forall c', c' ∈ final -> c' <> c -> mc_priority c < mc_priority c'
  | Err e => (e = ErrNotFound /\ final = [])
             \/ exists c c', c ∈ final /\ c' ∈ final /\ mc_id c <> mc_id c' /\ mc_priority c = mc_priority c'
                /\ e = ambiguousError (mc_id c) (mc_id c')
  end.
Proof.
  intros Hnd. unfold pick. destruct final as [|c0 rest]; [by left|].
  destruct (best_priority rest (mc_priority c0)) as (H1 & H2 & H3). cbv zeta in *.
  set (b := fold_left _ rest (mc_priority c0)) in *. set (final := c0 :: rest) in *.
  assert (forall c, c ∈ final -> b <= mc_priority c) as Hmin by (intros c [->|?]%elem_of_cons; auto).
  assert (exists c, c ∈ final /\ mc_priority c = b) as (cb & Hcb & Eb).
  { destruct H3 as [H3|(c & ? & ?)]; [exists c0|exists c]; unfold final; rewrite elem_of_cons; auto. }
  set (ws := List.filter (fun c => mc_priority c =? b) final) in *.
  assert (forall c, c ∈ ws <-> c ∈ final /\ mc_priority c = b) as Hws.
  { intros c. unfold ws. rewrite elem_of_filter_In, Z.eqb_eq. done. }
  pose proof (filter_ids (fun c => mc_priority c =? b) final Hnd) as Hndw. fold ws in Hndw.
  pose proof (SliceStable_perm str_ltb (map mc_id ws)) as Hperm.
  assert (forall i, i ∈ SliceStable str_ltb (map mc_id ws) <-> exists c, c ∈ final /\ mc_priority c = b /\ mc_id c = i) as Hi.
  { intros i. rewrite (elem_of_Permutation_proper i _ _ Hperm), list_elem_of_In, in_map_iff. split.
    - intros (c & <- & Hc). apply list_elem_of_In, Hws in Hc as [? ?]. by exists c.
    - intros (c & ? & ? & <-). exists c. split; [done|]. apply list_elem_of_In, Hws. done. }
  destruct (SliceStable str_ltb (map mc_id ws)) as [|a [|a' tl] ] eqn:Es.
  - assert (mc_id cb ∈ @nil string) as Hn%elem_of_nil; [|done]. apply Hi. by exists cb.
  - assert (a ∈ [a]) as Ha by by apply list_elem_of_singleton. apply Hi in Ha as (c & Hc & Ep & <-). exists c. split_and!; [done|done|].
    intros c' Hc' Hne. specialize (Hmin c' Hc'). destruct (decide (mc_priority c' = b)) as [E|E]; [|lia]. exfalso.
    assert (mc_id c' ∈ [mc_id c]) as Heq%list_elem_of_singleton by (apply Hi; by exists c'). apply Hne.
    assert (map mc_id ws = [mc_id c]) as Hs by (symmetry in Hperm; by apply Permutation_singleton_r in Hperm).
    assert (c' ∈ ws /\ c ∈ ws) as [Hw' Hw] by (rewrite !Hws; tauto). destruct ws as [|w [|] ]; try done.
    apply list_elem_of_singleton in Hw, Hw'. congruence.
  - right. assert (a ∈ a :: a' :: tl) as Ha by left. assert (a' ∈ a :: a' :: tl) as Ha' by (right; left).
    apply Hi in Ha as (c & Hc & Ep & Eid), Ha' as (c' & Hc' & Ep' & Eid'). exists c, c'. split_and!; [done|done| |lia|by rewrite Eid, Eid'].
    rewrite Eid, Eid'. apply (Permutation_NoDup' _ _ (Permutation_sym Hperm)) in Hndw || rewrite <- Hperm in Hndw.
    apply list.NoDup_cons in Hndw as [Hndw _]. intros ->. apply Hndw. left.
Qed.

Section SelectSpec.
Context {X : Type} (id : X -> string) (prio : X -> Z) (endpoint : X -> string) (key : X -> option Z) (l : list X).
Hypothesis ids : NoDup (map id l).
Hypothesis keys : forall x p, x ∈ l -> key x = Some p -> -1 <= p.

Lemma elem_of_finalists c :
  c ∈ finalists (candidates id prio key l) (best_of key l (-1))
  <-> exists x p, x ∈ l /\ key x = Some p /\ finalist key l x /\ c = mkCandidate (id x) (prio x) p.
Proof.
  unfold finalists. rewrite elem_of_filter_In, elem_of_candidates.
  destruct (best_of_spec key l (-1)) as (H1 & H2 & H3). split.
  - intros [(x & p & Hx & Hk & ->) Hf]. exists x, p. split_and!; [done|done| |done]. exists p. split; [done|]. cbn in Hf.
    apply orb_true_iff in Hf as [Hf|Hf]; bool_hyps; [by left|right]. intros y q Hy Hq. rewrite Hf. by apply (H2 y).
  - intros (x & p & Hx & Hk & (p' & Hk' & Hf) & ->). rewrite Hk in Hk'. injection Hk' as <-. split; [by exists x, p|]. cbn.
    destruct Hf as [Hf|Hf]; [apply orb_true_iff; left; lia|]. apply orb_true_iff.
    pose proof (H2 x p Hx Hk). pose proof (keys x p Hx Hk). destruct H3 as [H3|(y & Hy & Hq)]; [lia|].
    specialize (Hf y _ Hy Hq). lia.
Qed.

(** The result of every [Match], read off the clients. *)
Lemma select_spec :
  match pick (finalists (candidates id prio key l) (best_of key l (-1))) with
  | Ok w => exists x, x ∈ l /\ id x = w /\ finalist key l x
      /\ forall y, y ∈ l -> finalist key l y -> y <> x -> prio x < prio y
  | Err e => (e = ErrNotFound /\ forall x, x ∈ l -> key x = None)
      \/ exists x y, x ∈ l /\ y ∈ l /\ id x <> id y /\ finalist key l x /\ finalist key l y /\ prio x = prio y
         /\ e = ambiguousError (id x) (id y)
  end.
Proof.
  pose proof (pick_spec (finalists (candidates id prio key l) (best_of key l (-1)))
    (filter_ids _ _ (candidates_ids id prio key l ids))) as Hp.
  destruct (pick _) as [w|e].
  - destruct Hp as (c & Hc & <- & Hmin). apply elem_of_finalists in Hc as (x & p & Hx & Hk & Hf & ->).
    exists x. split_and!; [done|done|done|]. intros y Hy Hfy Hne. pose proof Hfy as (q & Hq & _).
    assert (mkCandidate (id y) (prio y) q ∈ finalists (candidates id prio key l) (best_of key l (-1))) as Hcy.
    { apply elem_of_finalists. by exists y, q. }
    apply (Hmin _ Hcy). intros [= Eid _ _]. apply Hne. clear -ids Hx Hy Eid.
    apply list_elem_of_lookup in Hx as [i Hi], Hy as [j Hj].
    assert (i = j) as ->; [|congruence]. apply (NoDup_lookup (map id l) i j (id x)); [done| |].
    + change (map id l) with (id <$> l). by rewrite list_lookup_fmap, Hi.
    + change (map id l) with (id <$> l). by rewrite list_lookup_fmap, Hj, <- Eid.
  - destruct Hp as [ [-> Hnil]|(c & c' & Hc & Hc' & Hne & Ep & ->)].
    + left. split; [done|]. intros x Hx. destruct (key x) as [p|] eqn:Hk; [|done]. exfalso.
      destruct (best_of_spec key l (-1)) as (_ & H2 & H3).
      assert (exists y q, y ∈ l /\ key y = Some q /\ finalist key l y) as (y & q & Hy & Hq & Hf).
      { destruct H3 as [H3|(y & Hy & Hq)].
        - exists x, p. split_and!; [done|done|]. exists p. split; [done|]. left. specialize (H2 x p Hx Hk). lia.
        - exists y, (best_of key l (-1)). split_and!; [done|done|]. exists (best_of key l (-1)). split; [done|]. right.
          intros z r. apply H2. }
      assert (mkCandidate (id y) (prio y) q ∈ finalists (candidates id prio key l) (best_of key l (-1))) as Hcy.
      { apply elem_of_finalists. by exists y, q. }
      rewrite Hnil in Hcy. by apply elem_of_nil in Hcy.
    + right. apply elem_of_finalists in Hc as (x & p & Hx & _ & Hf & ->), Hc' as (y & q & Hy & _ & Hfy & ->).
      by exists x, y.
Qed.
End SelectSpec.

(** ** Selection, read on the configuration *)

(** [P c p]: client [c] matches the peer with [p] bits, -1 when its networks
    do not count.  It contends when no client matches with more bits. *)
Definition contends (P : Client -> Z -> Prop) (c : Client) (p : Z) : Prop :=
  P c p /\ (p = -1 \/ forall c' p', P c' p' -> p' <= p).

Lemma same_id clients c c' x :
  NoDup (map c_ID clients) -> c ∈ clients -> c' ∈ clients -> x = c_ID c -> x = c_ID c' -> c' = c.
Proof.
  intros Hnd [i Hi]%list_elem_of_lookup [j Hj]%list_elem_of_lookup -> E.
  assert (j = i) as ->; [|congruence]. apply (NoDup_lookup (c_ID <$> clients) j i (c_ID c) Hnd).
  - by rewrite list_lookup_fmap, Hj, E.
  - by rewrite list_lookup_fmap, Hi.
Qed.

Section SelectClients.
Context {X : Type} (id : X -> string) (prio : X -> Z) (key : X -> option Z) (l : list X).
Context (clients : list Client) (entry : Client -> X -> Prop) (P : Client -> Z -> Prop).
Hypothesis unique : NoDup (map c_ID clients).
Hypothesis ids : NoDup (map id l).
Hypothesis keys : forall x p, x ∈ l -> key x = Some p -> -1 <= p.
Hypothesis entry_from : forall x, x ∈ l -> exists c, c ∈ clients /\ entry c x.
Hypothesis entry_to : forall c p, P c p -> exists x, x ∈ l /\ c ∈ clients /\ entry c x.
Hypothesis entry_same : forall c x, entry c x -> id x = c_ID c /\ prio x = c_Priority c /\ forall p, key x = Some p <-> P c p.

Lemma contends_finalist c x : entry c x -> (finalist key l x <-> exists p, contends P c p) .
Proof.
  intros He. destruct (entry_same c x He) as (_ & _ & Hk). split.
  - intros (p & Hp & Hf). exists p. split; [by apply Hk|]. pose proof Hp as Hp'. apply Hk in Hp'.
    destruct (entry_to c p Hp') as (x' & Hx' & _ & He'). destruct (entry_same c x' He') as (_ & _ & Hk').
    destruct Hf as [Hf|Hf].
    + left. pose proof (keys x' p Hx' ltac:(by apply Hk')). lia.
    + right. intros c' p' HP. destruct (entry_to c' p' HP) as (y & Hy & _ & Hey). destruct (entry_same c' y Hey) as (_ & _ & Hky).
      apply (Hf y); [done|by apply Hky].
  - intros (p & HP & Hf). exists p. split; [by apply Hk|]. destruct Hf as [-> |Hf]; [by left|right]. intros y q Hy Hq.
    destruct (entry_from y Hy) as (c' & _ & Hey). destruct (entry_same c' y Hey) as (_ & _ & Hky). apply (Hf c'). by apply Hky.
Qed.

Lemma select_clients :
  match pick (finalists (candidates id prio key l) (best_of key l (-1))) with
  | Ok w => exists x c p, x ∈ l /\ c ∈ clients /\ entry c x /\ id x = w /\ key x = Some p /\ contends P c p
      /\ forall c' p', contends P c' p' -> c' = c \/ c_Priority c < c_Priority c'
  | Err e => (e = ErrNotFound /\ forall c p, ~ P c p)
      \/ exists x y c c' p p', x ∈ l /\ y ∈ l /\ id x <> id y /\ entry c x /\ entry c' y /\ key x = Some p /\ key y = Some p'
         /\ contends P c p /\ contends P c' p' /\ c_Priority c = c_Priority c' /\ e = ambiguousError (c_ID c) (c_ID c')
  end.
Proof.
  pose proof (select_spec id prio key l ids keys) as Hsel. destruct (pick _) as [w|e].
  - destruct Hsel as (x & Hx & <- & Hfx & Hmin). destruct (entry_from x Hx) as (c & Hc & He).
    pose proof (entry_same c x He) as (Eid & Epr & Hk). pose proof (proj1 (contends_finalist c x He) Hfx) as (p & Hp).
    exists x, c, p. split_and!; [done|done|done|done|by apply Hk, Hp|done|]. intros c' p' Hcon. pose proof Hcon as [HP _].
    destruct (entry_to c' p' HP) as (y & Hy & Hc' & Hey). pose proof (entry_same c' y Hey) as (Eid' & Epr' & _).
    destruct (decide (id y = id x)) as [E|Hne]; [left; apply (same_id clients c c' (id x)); congruence|right].
    rewrite <- Epr, <- Epr'. apply Hmin; [done| |congruence]. apply (contends_finalist c' y Hey). by exists p'.
  - destruct Hsel as [ [-> Hnone]|(x & y & Hx & Hy & Hne & Hfx & Hfy & Ep & ->)]; [left|right].
    + split; [done|]. intros c p HP. destruct (entry_to c p HP) as (x & Hx & _ & He). pose proof (entry_same c x He) as (_ & _ & Hk).
      apply Hk in HP. by rewrite (Hnone x Hx) in HP.
    + destruct (entry_from x Hx) as (c & _ & He), (entry_from y Hy) as (c' & _ & He').
      pose proof (entry_same c x He) as (Eid & Epr & Hk). pose proof (entry_same c' y He') as (Eid' & Epr' & Hk').
      pose proof (proj1 (contends_finalist c x He) Hfx) as (p & Hp). pose proof (proj1 (contends_finalist c' y He') Hfy) as (p' & Hp').
      exists x, y, c, c', p, p'. rewrite <- Eid, <- Eid'. split_and!; try done; [apply Hk, Hp|apply Hk', Hp'|congruence].
Qed.
End SelectClients.

(** ** Compilation *)

Lemma check_pairs_spec {X} (pair : X -> X -> option config_error) l :
  check_pairs pair l = None -> forall x y, x ∈ l -> y ∈ l -> x <> y -> pair x y = None \/ pair y x = None.
Proof.
  assert (forall a l, fold_right (fun b acc => match pair a b with Some e => Some e | None => acc end) None l = None ->
    forall b, b ∈ l -> pair a b = None) as Hin.
  { clear. intros a l. induction l as [|b l IH]; intros H b' Hb; [by apply elem_of_nil in Hb|]. cbn [fold_right] in H.
    destruct (pair a b) eqn:E; [done|]. apply elem_of_cons in Hb as [->|Hb]; [done|]. by apply IH. }
  induction l as [|a l IH]; intros H x y Hx Hy Hne; [by apply elem_of_nil in Hx|]. cbn [check_pairs] in H.
  destruct (fold_right _ None l) eqn:E; [done|]. specialize (IH H). specialize (Hin a l E).
  apply elem_of_cons in Hx as [->|Hx], Hy as [->|Hy]; [done|left|right|]; auto.
Qed.

Lemma elem_of_sorted_values {X} (m : gmap string X) x : x ∈ sorted_values m <-> exists i, m !! i = Some x.
Proof.
  unfold sorted_values. rewrite list_elem_of_omap. split; [intros (i & _ & H); by exists i|]. intros (i & H). exists i.
  split; [|done]. rewrite (elem_of_Permutation_proper i _ _ (SliceStable_perm _ _)).
  apply list_elem_of_In, in_map_iff. exists (i, x). split; [done|]. by apply list_elem_of_In, elem_of_map_to_list.
Qed.

(** The entries of a compiled index are its clients. *)
Lemma index_values {X} (m : gmap string X) (id : X -> string) :
  (forall i x, m !! i = Some x -> id x = i) ->
  NoDup (map id (map snd (map_to_list m))) /\ (forall x, x ∈ map snd (map_to_list m) <-> m !! id x = Some x).
Proof.
  intros Hid. split.
  - rewrite map_map. assert (map (fun kv => id kv.2) (map_to_list m) = map fst (map_to_list m)) as ->.
    { apply map_ext_in. intros [i x] Hin. cbn. apply Hid, elem_of_map_to_list, list_elem_of_In. done. }
    apply NoDup_fst_map_to_list.
  - intros x. rewrite list_elem_of_In, in_map_iff. split.
    + intros ([i y] & E & Hin). cbn in E. subst y. apply list_elem_of_In, elem_of_map_to_list in Hin. by rewrite (Hid i x Hin).
    + intros H. exists (id x, x). split; [done|]. by apply list_elem_of_In, elem_of_map_to_list.
Qed.

Lemma elem_of_values {X} (m : gmap string X) x : (exists i, m !! i = Some x) <-> x ∈ map snd (map_to_list m).
Proof.
  rewrite list_elem_of_In, in_map_iff. split.
  - intros [i Hi]. exists (i, x). split; [done|]. by apply list_elem_of_In, elem_of_map_to_list.
  - intros ([i y] & E & Hin). cbn in E. subst y. exists i. by apply elem_of_map_to_list, list_elem_of_In.
Qed.

(** The loop of each compiler: [build] skips a client, fails, or yields its
    entry. *)
Section Compiler.
Context {X : Type} (build : Client -> Z -> option (result config_error X)).
Hypothesis build_none : forall c i j, build c i = None -> build c j = None.
Hypothesis build_same : forall c i j x, build c i = Some (Ok x) -> build c j = Some (Ok x).

Fixpoint compile_loop (clients : list Client) (i : Z) (m : gmap string X) : result config_error (gmap string X) :=
  match clients with
  | [] => Ok m
  | c :: clients =>
    match build c i with
    | None => compile_loop clients (i + 1) m
    | Some r => let! x := r in compile_loop clients (i + 1) (<[c_ID c := x]> m)
    end
  end.

Lemma compile_loop_spec clients i m m' :
  NoDup (map c_ID clients) -> (forall c, c ∈ clients -> m !! c_ID c = None) -> compile_loop clients i m = Ok m' ->
  forall id x, m' !! id = Some x <-> m !! id = Some x \/ exists c, c ∈ clients /\ c_ID c = id /\ build c 0 = Some (Ok x).
Proof.
  revert i m. induction clients as [|c clients IH]; intros i m Hnd Hm H id x; cbn [compile_loop map] in *.
  { injection H as <-. split; [by left|]. intros [?|(c & Hc & _)]; [done|by apply elem_of_nil in Hc]. }
  apply list.NoDup_cons in Hnd as [Hc Hnd].
  assert (forall c', c' ∈ clients -> c_ID c' <> c_ID c) as Hne.
  { intros c' Hc' E. apply Hc. rewrite <- E. apply list_elem_of_In, in_map, list_elem_of_In. done. }
  destruct (build c i) as [ [y|e]|] eqn:Eb; cbn [rbind] in H; [|done|].
  - rewrite (IH (i + 1) (<[c_ID c := y]> m) Hnd) with (id := id); [| |done].
    2: { intros c' Hc'. rewrite lookup_insert_ne by (intros E; by apply (Hne c')). apply Hm. by right. }
    apply (build_same c i 0) in Eb. split.
    + intros [Hl|(c' & Hc' & He & Hb)]; [|right; exists c'; rewrite elem_of_cons; tauto].
      destruct (decide (c_ID c = id)) as [<-|Hd].
      * rewrite lookup_insert_eq in Hl. injection Hl as <-. right. exists c. rewrite elem_of_cons. tauto.
      * rewrite lookup_insert_ne in Hl by done. by left.
    + intros [Hl|(c' & [->|Hc']%elem_of_cons & He & Hb)].
      * left. rewrite lookup_insert_ne; [done|]. intros <-. rewrite Hm in Hl; [done|left].
      * left. rewrite <- He, lookup_insert_eq. congruence.
      * right. by exists c'.
  - rewrite (IH (i + 1) m Hnd) with (id := id); [| |done]; [|intros c' Hc'; apply Hm; by right]. split.
    + intros [?|(c' & Hc' & ?)]; [by left|right; exists c'; rewrite elem_of_cons; tauto].
    + intros [?|(c' & [->|Hc']%elem_of_cons & He & Hb)]; [by left| |right; by exists c'].
      apply (build_same c 0 i) in Hb. congruence.
Qed.

Lemma compile_loop_all clients i m m' c :
  compile_loop clients i m = Ok m' -> c ∈ clients -> build c 0 = None \/ exists x, build c 0 = Some (Ok x).
Proof.
  revert i m. induction clients as [|c' clients IH]; intros i m H Hc; [by apply elem_of_nil in Hc|]. cbn [compile_loop] in H.
  destruct (build c' i) as [ [y|e]|] eqn:Eb; cbn [rbind] in H; [|done|];
    (apply elem_of_cons in Hc as [->|Hc]; [|by eapply IH]).
  - right. exists y. by apply (build_same c' i 0).
  - left. by apply (build_none c' i 0).
Qed.

(** The entries of a compiled index are those of its clients. *)
Lemma compiled_spec clients m (id : X -> string) :
  NoDup (map c_ID clients) -> compile_loop clients 0 ∅ = Ok m ->
  (forall c x, build c 0 = Some (Ok x) -> id x = c_ID c) ->
  NoDup (map id (map snd (map_to_list m)))
  /\ (forall x, x ∈ map snd (map_to_list m) <-> exists c, c ∈ clients /\ build c 0 = Some (Ok x))
  /\ (forall c, c ∈ clients -> build c 0 = None \/ exists x, x ∈ map snd (map_to_list m) /\ build c 0 = Some (Ok x)).
Proof.
  intros Hnd Hm Hid. pose proof (compile_loop_spec _ _ _ _ Hnd (fun _ _ => lookup_empty _) Hm) as Hcont.
  assert (forall i x, m !! i = Some x -> id x = i) as Hkey.
  { intros i x [Hx|(c & _ & <- & Hb)]%Hcont; [by rewrite lookup_empty in Hx|by apply Hid]. }
  destruct (index_values m id Hkey) as [Hids Hvals].
  assert (forall x, x ∈ map snd (map_to_list m) <-> exists c, c ∈ clients /\ build c 0 = Some (Ok x)) as Hin.
  { intros x. rewrite Hvals, Hcont, lookup_empty. split.
    - intros [?|(c & ? & _ & ?)]; [done|by exists c].
    - intros (c & Hc & Hb). right. exists c. by rewrite (Hid c x Hb). }
  split; [done|]. split; [done|]. intros c Hc. destruct (compile_loop_all _ _ _ _ _ Hm Hc) as [?|(x & Hx)]; [by left|right].
  exists x. split; [|done]. apply Hin. by exists c.
Qed.
End Compiler.

Lemma index_cidrs_index i j l cidrs : index_cidrs i l [] = Ok cidrs -> index_cidrs j l [] = Ok cidrs.
Proof.
  generalize (@nil indexCIDR). induction l as [|s l IH]; intros out; cbn [index_cidrs]; [done|].
  destruct (ParseCIDR s); [apply IH|done].
Qed.

Lemma parseStoredIPSAN_index i j l ips : parseStoredIPSAN l i = Ok ips -> parseStoredIPSAN l j = Ok ips.
Proof.
  unfold parseStoredIPSAN. generalize (@nil bytes) 0. induction l as [|s l IH]; intros out k; cbn [parseStoredIPSAN_loop]; [done|].
  destruct (ParseIP s); [apply IH|done].
Qed.

Lemma longest_nonneg cidrs ip v4 p : Forall cidr_ok cidrs -> longestContaining cidrs ip v4 = Some p -> 0 <= p.
Proof.
  rewrite list.Forall_forall. intros Hok [(c & Hc & _ & <-) _]%longestContaining_spec. destruct (Hok c Hc) as [_ _ _ _ [Hb _] _].
  unfold eff_ones in Hb. destruct (ix_v4 c && (ix_bits c >? 32)) eqn:E; [|done]. apply andb_true_iff in E as [_ E]. bool_hyps. lia.
Qed.

(** *** RADIUS over UDP *)

Definition build_udp (role : string) (c : Client) (i : Z) : option (result config_error radiusIndexClient) :=
  if negb (c_Enabled c) then None else
  match radiusEndpoint c EndpointTransportUDP with
  | Some ep => if negb (endpointHasRole ep role) then None else Some (radiusIndexFromClient c ep i)
  | None => None
  end.

Lemma compileRADIUS_build role clients i m : compileRADIUS_loop role clients i m = compile_loop (build_udp role) clients i m.
Proof.
  revert i m. induction clients as [|c clients IH]; intros i m; [done|]. cbn [compileRADIUS_loop compile_loop]. unfold build_udp at 1.
  destruct (negb (c_Enabled c)); [apply IH|]. destruct (radiusEndpoint c _) as [ep|]; [|apply IH].
  destruct (negb (endpointHasRole ep role)); [apply IH|]. destruct (radiusIndexFromClient c ep i); [apply IH|done].
Qed.

(** An enabled client with an endpoint of the role on a transport. *)
Definition serves (transport role : string) (clients : list Client) (c : Client) (ep : ClientEndpoint) : Prop :=
  c ∈ clients /\ c_Enabled c = true /\ radiusEndpoint c transport = Some ep /\ endpointHasRole ep role = true.

Lemma build_udp_spec role c i x :
  build_udp role c i = Some (Ok x) <->
  exists ep cidrs, c_Enabled c = true /\ radiusEndpoint c EndpointTransportUDP = Some ep /\ endpointHasRole ep role = true
    /\ c_SourceCIDRs c <> [] /\ index_cidrs 0 (c_SourceCIDRs c) [] = Ok cidrs
    /\ x = mkRadiusIndexClient (c_ID c) (ep_ID ep) (c_Priority c) cidrs.
Proof.
  unfold build_udp, radiusIndexFromClient. split.
  - destruct (c_Enabled c); [|done]. destruct (radiusEndpoint c _) as [ep|]; [|done]. cbn [negb].
    destruct (endpointHasRole ep role) eqn:Er; [|done]. cbn [negb]. destruct (Z.eqb_spec (len (c_SourceCIDRs c)) 0) as [|Hl]; [done|].
    destruct (index_cidrs i (c_SourceCIDRs c) []) as [cidrs|] eqn:Ei; [|done]. intros [= <-]. exists ep, cidrs.
    split_and!; [done|done|done|by intros E; rewrite E in Hl|by eapply index_cidrs_index|done].
  - intros (ep & cidrs & He & Hep & Hr & Hs & Hi & ->). rewrite He, Hep. cbn [negb]. rewrite Hr. cbn [negb].
    destruct (Z.eqb_spec (len (c_SourceCIDRs c)) 0) as [Hl|_]; [by apply len_zero in Hl|].
    by rewrite (index_cidrs_index 0 i _ _ Hi).
Qed.

Lemma ambiguousError_not_found a b : ambiguousError a b <> ErrNotFound.
Proof. unfold ambiguousError. by destruct (str_ltb b a). Qed.

Lemma finalists_udp cand best :
  (forall c, c ∈ cand -> 0 <= mc_prefix c) -> List.filter (fun c => mc_prefix c =? best) cand = finalists cand best.
Proof.
  intros H. unfold finalists. apply filter_ext_in. intros c Hc. apply list_elem_of_In, H in Hc.
  destruct (mc_prefix c <? 0) eqn:E; bool_hyps; [lia|done].
Qed.

(** What an index entry keeps of its client. *)
Definition udp_entry (c : Client) (ep : ClientEndpoint) (x : radiusIndexClient) : Prop :=
  ri_id x = c_ID c /\ ri_endpointID x = ep_ID ep /\ ri_priority x = c_Priority c
  /\ index_cidrs 0 (c_SourceCIDRs c) [] = Ok (ri_cidrs x).

Definition udp_values (idx : RADIUSIndex) : list radiusIndexClient := map snd (map_to_list (rx_byID idx)).

Lemma udp_compiled clients role carrier idx :
  NoDup (map c_ID clients) -> CompileRADIUSIndex clients role carrier = Ok idx ->
  NoDup (map ri_id (udp_values idx))
  /\ (forall x, x ∈ udp_values idx -> exists c ep, serves EndpointTransportUDP role clients c ep /\ udp_entry c ep x)
  /\ (forall c ep, serves EndpointTransportUDP role clients c ep -> exists x, x ∈ udp_values idx /\ udp_entry c ep x)
  /\ (forall x y, x ∈ udp_values idx -> y ∈ udp_values idx -> x <> y ->
      radiusPairAmbiguous x y = None \/ radiusPairAmbiguous y x = None).
Proof.
  intros Hnd Hcomp. unfold CompileRADIUSIndex in Hcomp.
  destruct (negb (one_of _ _)); [done|]. destruct (negb (str_eqb _ _)); [done|].
  destruct (compileRADIUS_loop role clients 0 ∅) as [m|] eqn:Hm; [|done]. cbn [rbind] in Hcomp.
  destruct (check_pairs _ _) eqn:Hpairs; [done|]. injection Hcomp as <-. rewrite compileRADIUS_build in Hm.
  destruct (compiled_spec (build_udp role)) with (3 := Hnd) (4 := Hm) (id := ri_id) as (Hids & Hin & Hall).
  { intros c i j. unfold build_udp. by repeat case_match. }
  { intros c i j y. by rewrite !build_udp_spec. }
  { intros c x (ep & cidrs & _ & _ & _ & _ & _ & ->)%build_udp_spec. done. }
  unfold udp_values. cbn [rx_byID]. split; [done|]. split; [|split].
  - intros x (c & Hc & (ep & cidrs & ? & ? & ? & ? & ? & ->)%build_udp_spec)%Hin. exists c, ep. by split_and!.
  - intros c ep (Hc & He & Hep & Hr). destruct (Hall c Hc) as [Hn|(x & Hx & Hb)].
    + unfold build_udp in Hn. rewrite He, Hep in Hn. cbn [negb] in Hn. by rewrite Hr in Hn.
    + exists x. split; [done|]. apply build_udp_spec in Hb as (ep' & cidrs & _ & Hep' & _ & _ & Hi & ->).
      rewrite Hep in Hep'. injection Hep' as <-. by split_and!.
  - intros x y Hx Hy. by apply (check_pairs_spec _ _ Hpairs); apply elem_of_sorted_values, elem_of_values.
Qed.

Lemma udp_entry_key c ep x ip canon v4 p :
  udp_entry c ep x -> is_ip ip -> canonicalizeIP ip = Some (canon, v4) ->
  longestContaining (ri_cidrs x) canon v4 = Some p <-> covers (c_SourceCIDRs c) ip p.
Proof. intros (_ & _ & _ & Hi). by apply covers_longest with (i := 0). Qed.

(** The scan and the choice, over the entries. *)
Lemma udp_match idx ip canon v4 :
  let key := fun x => longestContaining (ri_cidrs x) canon v4 in
  Forall (fun x => Forall cidr_ok (ri_cidrs x)) (udp_values idx) -> canonicalizeIP ip = Some (canon, v4) ->
  RADIUSIndex_Match idx ip =
    let! id := pick (finalists (candidates ri_id ri_priority key (udp_values idx)) (best_of key (udp_values idx) (-1))) in
    Ok (id, default "" ((fold_left (scan_step ri_id ri_priority ri_endpointID key) (udp_values idx) ([], -1, ∅)).2 !! id)).
Proof.
  intros key Hok Hcan. unfold RADIUSIndex_Match. rewrite Hcan. fold (udp_values idx).
  change (fold_left (radius_scan canon v4)) with (fold_left (scan_step ri_id ri_priority ri_endpointID key)).
  pose proof (scan_fold ri_id ri_priority ri_endpointID key (udp_values idx) [] (-1) ∅) as Hf.
  destruct (fold_left _ (udp_values idx) _) as [ [cand b] hits]. cbn [fst snd app] in Hf. injection Hf as -> ->.
  rewrite finalists_udp; [done|]. intros c (x & p & Hx & Hk & ->)%elem_of_candidates.
  rewrite list.Forall_forall in Hok. by eapply longest_nonneg; [apply (Hok x Hx)|].
Qed.

(** Two entries of one priority do not match with equally many bits. *)
Lemma udp_no_tie idx x y canon v4 p :
  (forall x y, x ∈ udp_values idx -> y ∈ udp_values idx -> x <> y ->
    radiusPairAmbiguous x y = None \/ radiusPairAmbiguous y x = None) ->
  Forall cidr_ok (ri_cidrs x) -> Forall cidr_ok (ri_cidrs y) -> canon_ok canon v4 ->
  x ∈ udp_values idx -> y ∈ udp_values idx -> ri_id x <> ri_id y -> ri_priority x = ri_priority y ->
  longestContaining (ri_cidrs x) canon v4 = Some p -> longestContaining (ri_cidrs y) canon v4 = Some p -> False.
Proof.
  intros Hpair Hx Hy Hc Hxi Hyi Hne Epr Hp Hq.
  pose proof (shareIdentical_hit _ _ _ _ p Hx Hy Hc Hp Hq) as Hxy. pose proof (shareIdentical_hit _ _ _ _ p Hy Hx Hc Hq Hp) as Hyx.
  unfold radiusPairAmbiguous in Hpair. destruct (Hpair x y Hxi Hyi ltac:(congruence)) as [H|H].
  - by rewrite Epr, Z.eqb_refl, Hxy in H.
  - by rewrite Epr, Z.eqb_refl, Hyx in H.
Qed.

Lemma udp_selection clients role carrier idx ip :
  NoDup (map c_ID clients) -> CompileRADIUSIndex clients role carrier = Ok idx -> is_ip ip ->
  match RADIUSIndex_Match idx ip with
  | Ok (id, epid) => exists c ep p, serves EndpointTransportUDP role clients c ep /\ c_ID c = id /\ ep_ID ep = epid
      /\ covers (c_SourceCIDRs c) ip p
      /\ forall c' ep' p', serves EndpointTransportUDP role clients c' ep' -> covers (c_SourceCIDRs c') ip p' ->
         c' = c \/ p' < p \/ (p' = p /\ c_Priority c < c_Priority c')
  | Err e => e = ErrNotFound /\ forall c ep p, serves EndpointTransportUDP role clients c ep -> ~ covers (c_SourceCIDRs c) ip p
  end.
Proof.
  intros Hnd Hcomp Hip. destruct (udp_compiled _ _ _ _ Hnd Hcomp) as (Hids & Hfrom & Hto & Hpair).
  destruct (canonicalizeIP_some ip Hip) as (canon & v4 & Hcan). pose proof (canonicalizeIP_ok _ _ _ Hip Hcan) as Hcanon.
  set (key := fun x => longestContaining (ri_cidrs x) canon v4).
  assert (forall x, x ∈ udp_values idx -> Forall cidr_ok (ri_cidrs x)) as Hok.
  { intros x (c & ep & _ & (_ & _ & _ & Hi))%Hfrom. by eapply index_cidrs_wf. }
  assert (forall x p, x ∈ udp_values idx -> key x = Some p -> 0 <= p) as Hpos.
  { intros x p Hx Hk. by eapply longest_nonneg; [apply Hok|]. }
  rewrite (udp_match idx ip canon v4) by (done || by apply list.Forall_forall). fold key.
  set (entry := fun c x => exists ep, serves EndpointTransportUDP role clients c ep /\ udp_entry c ep x).
  set (P := fun c p => (exists ep, serves EndpointTransportUDP role clients c ep) /\ covers (c_SourceCIDRs c) ip p).
  assert (forall c x, entry c x -> ri_id x = c_ID c /\ ri_priority x = c_Priority c /\ forall p, key x = Some p <-> P c p) as Hsame.
  { intros c x (ep & Hs & Hent). pose proof Hent as (? & _ & ? & _). split_and!; [done|done|]. intros p.
    unfold key, P. rewrite (udp_entry_key c ep x ip canon v4 p Hent Hip Hcan). split; [|tauto]. intros Hp. split; [by exists ep|done]. }
  assert (forall c p, P c p -> exists x, x ∈ udp_values idx /\ c ∈ clients /\ entry c x) as HtoP.
  { intros c p [ [ep Hs] _]. destruct (Hto c ep Hs) as (x & Hx & He). exists x. split_and!; [done|apply Hs|by exists ep]. }
  assert (forall x, x ∈ udp_values idx -> exists c, c ∈ clients /\ entry c x) as HfromE.
  { intros x (c & ep & Hs & He)%Hfrom. exists c. split; [apply Hs|by exists ep]. }
  pose proof (select_clients ri_id ri_priority key (udp_values idx) clients entry P Hnd Hids
    ltac:(intros x p Hx Hk; specialize (Hpos x p Hx Hk); lia) HfromE HtoP Hsame) as Hsel.
  assert (forall c p, P c p -> 0 <= p) as HposP.
  { intros c p HP. destruct (HtoP c p HP) as (x & Hx & _ & He). apply (Hpos x p Hx). by apply (Hsame c x He). }
  destruct (pick _) as [w|e]; cbn [rbind].
  - destruct Hsel as (x & c & p & Hx & Hc & (ep & Hs & Hent) & <- & Hk & [HP Hf] & Hmin).
    rewrite (scan_hits _ _ _ key (udp_values idx) _ _ _ x Hids Hx) by congruence. pose proof Hent as (Eid & Eep & _).
    exists c, ep, p. split_and!; [done|done|done|apply HP|]. intros c' ep' p' Hs' Hcov'.
    assert (P c' p') as HP' by (by split; [exists ep'|]). specialize (HposP c p HP).
    assert (p' <= p) by (destruct Hf as [?|Hf]; [lia|by apply (Hf c')]).
    destruct (decide (p' = p)) as [->|]; [|right; left; lia].
    destruct (Hmin c' p) as [?|?]; [|by left|by right; right]. split; [done|]. right. intros c2 p2 HP2.
    destruct Hf as [?|Hf]; [lia|by apply (Hf c2)].
  - destruct Hsel as [ [-> Hnone]|(x & y & c & c' & p & p' & Hx & Hy & Hne & He & He' & Hk & Hk' & [HP Hf] & [HP' Hf'] & Epr & ->)].
    + split; [done|]. intros c ep p Hs Hcov. apply (Hnone c p). by split; [exists ep|].
    + exfalso. assert (p = p') as <-.
      { pose proof (HposP c p HP). pose proof (HposP c' p' HP'). destruct Hf as [?|Hf]; [lia|]. destruct Hf' as [?|Hf']; [lia|].
        specialize (Hf _ _ HP'). specialize (Hf' _ _ HP). lia. }
      destruct He as (ep & _ & (_ & _ & E & _)), He' as (ep' & _ & (_ & _ & E' & _)).
      apply (udp_no_tie idx x y canon v4 p Hpair); auto. congruence.
Qed.

(** 192.0.2.0/24 and, inside it, 192.0.2.128/25. *)
Definition demo_endpoint : ClientEndpoint :=
  mkClientEndpoint "radius-udp" ProtocolRADIUS EndpointTransportUDP [Domain.RoleAccess] (Some (mkRADIUSEndpoint "s" true true [] [])).
Definition demo_clients : list Client :=
  [mkClient "wide" 10 true ["192.0.2.0/24"]%string [] "" [] [] [demo_endpoint];
   mkClient "narrow" 10 true ["192.0.2.128/25"; "2001:db8::/32"]%string [] "" [] [] [demo_endpoint]].

Definition matched (clients : list Client) (ip : bytes) : result config_error (string * string) :=
  let! idx := CompileRADIUSIndex clients Domain.RoleAccess CarrierRADIUSUDP in RADIUSIndex_Match idx ip.

Example match_examples :
  map (matched demo_clients) [[192; 0; 2; 5]; v4InV6Prefix ++ [192; 0; 2; 200]; [10; 0; 0; 1]]
  = [Ok ("wide", "radius-udp"); Ok ("narrow", "radius-udp"); Err ErrNotFound]%string
  /\ matched (demo_clients ++ [mkClient "twin" 10 true ["192.0.2.77/24"]%string [] "" [] [] [demo_endpoint]]) [10; 0; 0; 1]
     = Err (ErrAmbiguous "twin" "wide").
Proof. split; vm_compute; reflexivity. Qed.

(** ** Certificate names *)

Definition unconstrained (c : Client) : Prop := c_DNSSANs c = [] /\ c_IPSANs c = [].

(** A name or address of the client's that the certificate carries. *)
Definition names (c : Client) (ct : CertIdentity) : Prop :=
  (exists want got, want ∈ c_DNSSANs c /\ got ∈ cert_DNSSANs ct /\ EqualFold want got = true)
  \/ (exists s want got, s ∈ c_IPSANs c /\ ParseIP s = Some want /\ got ∈ cert_IPSANs ct /\ IP_Equal want got = true).

Definition accepted (c : Client) (cert : option CertIdentity) : Prop :=
  unconstrained c \/ exists ct, cert = Some ct /\ names c ct.

(** One name or address is configured for both. *)
Definition common_name (c c' : Client) : Prop :=
  (exists x y, x ∈ c_DNSSANs c /\ y ∈ c_DNSSANs c' /\ EqualFold x y = true)
  \/ (exists s x t y, s ∈ c_IPSANs c /\ ParseIP s = Some x /\ t ∈ c_IPSANs c' /\ ParseIP t = Some y /\ IP_Equal x y = true).

Lemma parseStoredIPSAN_spec vals i ips :
  parseStoredIPSAN vals i = Ok ips -> Forall2 (fun s ip => ParseIP s = Some ip) vals ips.
Proof.
  unfold parseStoredIPSAN. enough (forall j out, parseStoredIPSAN_loop i j vals out = Ok ips ->
    exists l, ips = out ++ l /\ Forall2 (fun s ip => ParseIP s = Some ip) vals l) as H.
  { intros Hp. destruct (H 0 [] Hp) as (l & -> & ?). done. }
  induction vals as [|s vals IH]; intros j out; cbn [parseStoredIPSAN_loop].
  - intros [= ->]. exists []. by rewrite app_nil_r.
  - destruct (ParseIP s) as [ip|] eqn:E; [|done]. intros (l & -> & Hl)%IH. exists (ip :: l). rewrite <- app_assoc. split; [done|by constructor].
Qed.

Lemma parsed_in (vals : list string) (ips : list bytes) :
  Forall2 (fun s ip => ParseIP s = Some ip) vals ips -> forall ip, ip ∈ ips <-> exists s, s ∈ vals /\ ParseIP s = Some ip.
Proof.
  intros Hf ip. split.
  - intros [k Hk]%list_elem_of_lookup. destruct (Forall2_lookup_r _ _ _ _ _ Hf Hk) as (s & Hs & E). exists s.
    split; [by eapply list_elem_of_lookup_2|done].
  - intros (s & [k Hk]%list_elem_of_lookup & E). destruct (Forall2_lookup_l _ _ _ _ _ Hf Hk) as (ip' & Hip & E').
    rewrite E in E'. injection E' as <-. by eapply list_elem_of_lookup_2.
Qed.

Lemma existsb_in {A} (f : A -> bool) l : existsb f l = true <-> exists x, x ∈ l /\ f x = true.
Proof. rewrite existsb_exists. split; intros (x & Hx & ?); exists x; (split; [by apply list_elem_of_In|done]). Qed.

Section CertLemmas.
Context (c : Client) (ips : list bytes).
Hypothesis parsed : Forall2 (fun s ip => ParseIP s = Some ip) (c_IPSANs c) ips.

Lemma unconstrained_test : (len (c_DNSSANs c) =? 0) && (len ips =? 0) = true <-> unconstrained c.
Proof.
  unfold unconstrained. rewrite andb_true_iff, !Z.eqb_eq. split.
  - intros [->%len_zero Hi%len_zero]. split; [done|]. rewrite Hi in parsed. by apply Forall2_nil_inv_r in parsed.
  - intros [-> Hi]. rewrite Hi in parsed. apply Forall2_nil_inv_l in parsed as ->. done.
Qed.

Lemma certSatisfied_spec cert : certSatisfied (c_DNSSANs c) ips cert = true <-> accepted c cert.
Proof.
  unfold certSatisfied, accepted. destruct ((len (c_DNSSANs c) =? 0) && (len ips =? 0)) eqn:E.
  - apply unconstrained_test in E. tauto.
  - assert (~ unconstrained c) as Hn by (rewrite <- unconstrained_test, E; done).
    destruct cert as [ct|]; [|split; [done|by intros [?|(ct & [=] & _)] ] ].
    rewrite orb_true_iff, !existsb_in. split.
    + intros [(w & Hw & (g & Hg & He)%existsb_in)|(w & Hw & (g & Hg & He)%existsb_in)]; right; exists ct; (split; [done|]).
      * left. by exists w, g.
      * right. apply (parsed_in _ _ parsed) in Hw as (s & Hs & Ep). by exists s, w, g.
    + intros [?|(ct' & [= <-] & [(w & g & Hw & Hg & He)|(s & w & g & Hs & Ep & Hg & He)])]; [done|left|right]; exists w.
      * split; [done|]. apply existsb_in. by exists g.
      * split; [apply (parsed_in _ _ parsed); by exists s|]. apply existsb_in. by exists g.
Qed.
End CertLemmas.

Lemma certsMayOverlap_spec c ips c' ips' :
  Forall2 (fun s ip => ParseIP s = Some ip) (c_IPSANs c) ips -> Forall2 (fun s ip => ParseIP s = Some ip) (c_IPSANs c') ips' ->
  certsMayOverlap (c_DNSSANs c) ips (c_DNSSANs c') ips' = false ->
  ~ unconstrained c /\ ~ unconstrained c' /\ ~ common_name c c'.
Proof.
  intros Hp Hp'. unfold certsMayOverlap. pose proof (unconstrained_test c ips Hp) as Hu. pose proof (unconstrained_test c' ips' Hp') as Hu'.
  destruct ((len (c_DNSSANs c) =? 0) && (len ips =? 0)); [done|]. destruct ((len (c_DNSSANs c') =? 0) && (len ips' =? 0)); [done|].
  intros [H1 H2]%orb_false_iff. split_and!; [by intros ?%Hu|by intros ?%Hu'|].
  intros [(x & y & Hx & Hy & He)|(s & x & t & y & Hs & Ex & Ht & Ey & He)].
  - apply not_true_iff_false in H1. apply H1, existsb_in. exists x. split; [done|]. apply existsb_in. by exists y.
  - apply not_true_iff_false in H2. apply H2, existsb_in. exists x. split; [apply (parsed_in _ _ Hp); by exists s|].
    apply existsb_in. exists y. split; [apply (parsed_in _ _ Hp'); by exists t|done].
Qed.

(** *** RADIUS over TLS *)

(** The certificate is accepted for the client, and its networks cover the
    address unless only the certificate counts (-1). *)
Definition admits (need : bool) (cert : option CertIdentity) (ip : bytes) (c : Client) (p : Z) : Prop :=
  (need = true -> accepted c cert)
  /\ if str_eqb (c_Mode c) MatchCertificateOnly then p = -1 else covers (c_SourceCIDRs c) ip p.

Definition build_cert (role : string) (c : Client) (i : Z) : option (result config_error radiusCertClient) :=
  if negb (c_Enabled c) then None else
  match radiusEndpoint c EndpointTransportTLS with
  | Some ep => if negb (endpointHasRole ep role) then None else Some (radiusCertFromClient c ep i)
  | None => None
  end.

Lemma compileCert_build role clients i m : compileCert_loop role clients i m = compile_loop (build_cert role) clients i m.
Proof.
  revert i m. induction clients as [|c clients IH]; intros i m; [done|]. cbn [compileCert_loop compile_loop]. unfold build_cert at 1.
  destruct (negb (c_Enabled c)); [apply IH|]. destruct (radiusEndpoint c _) as [ep|]; [|apply IH].
  destruct (negb (endpointHasRole ep role)); [apply IH|]. destruct (radiusCertFromClient c ep i); [apply IH|done].
Qed.

Definition cert_entry (c : Client) (ep : ClientEndpoint) (x : radiusCertClient) : Prop :=
  rc_id x = c_ID c /\ rc_endpointID x = ep_ID ep /\ rc_priority x = c_Priority c
  /\ str_eqb (rc_mode x) MatchCertificateOnly = str_eqb (c_Mode c) MatchCertificateOnly
  /\ rc_dns x = c_DNSSANs c /\ Forall2 (fun s ip => ParseIP s = Some ip) (c_IPSANs c) (rc_ips x)
  /\ index_cidrs 0 (c_SourceCIDRs c) [] = Ok (rc_cidrs x).

Lemma radiusCertFromClient_index c ep i j x : radiusCertFromClient c ep i = Ok x -> radiusCertFromClient c ep j = Ok x.
Proof.
  unfold radiusCertFromClient. destruct (_ && _); [done|]. destruct (parseStoredIPSAN (c_IPSANs c) i) as [ips|] eqn:Ei; [|done].
  rewrite (parseStoredIPSAN_index i j _ _ Ei). cbn [rbind]. destruct (index_cidrs i (c_SourceCIDRs c) []) as [cidrs|] eqn:Ec; [|done].
  by rewrite (index_cidrs_index i j _ _ Ec).
Qed.

Lemma radiusCertFromClient_entry c ep x : radiusCertFromClient c ep 0 = Ok x -> cert_entry c ep x.
Proof.
  unfold radiusCertFromClient. destruct (_ && _); [done|]. destruct (parseStoredIPSAN (c_IPSANs c) 0) as [ips|] eqn:Ei; [|done].
  cbn [rbind]. destruct (index_cidrs 0 (c_SourceCIDRs c) []) as [cidrs|] eqn:Ec; [|done]. intros [= <-].
  split_and!; try done; cbn; [|by eapply parseStoredIPSAN_spec]. destruct (str_eqb (c_Mode c) "") eqn:Em; [|done].
  apply bool_decide_eq_true in Em. by rewrite Em.
Qed.

Definition cert_values (idx : RADIUSCertIndex) : list radiusCertClient := map snd (map_to_list (cx_byID idx)).

Lemma cert_compiled clients role idx :
  NoDup (map c_ID clients) -> CompileRADIUSCertIndex clients role = Ok idx ->
  NoDup (map rc_id (cert_values idx))
  /\ (forall x, x ∈ cert_values idx -> exists c ep, serves EndpointTransportTLS role clients c ep /\ cert_entry c ep x)
  /\ (forall c ep, serves EndpointTransportTLS role clients c ep -> exists x, x ∈ cert_values idx /\ cert_entry c ep x)
  /\ (forall x y, x ∈ cert_values idx -> y ∈ cert_values idx -> x <> y ->
      radiusCertPairAmbiguous x y = None \/ radiusCertPairAmbiguous y x = None).
Proof.
  intros Hnd Hcomp. unfold CompileRADIUSCertIndex in Hcomp. destruct (negb (one_of _ _)); [done|].
  destruct (compileCert_loop role clients 0 ∅) as [m|] eqn:Hm; [|done]. cbn [rbind] in Hcomp.
  destruct (check_pairs _ _) eqn:Hpairs; [done|]. injection Hcomp as <-. rewrite compileCert_build in Hm.
  assert (forall c i x, build_cert role c i = Some (Ok x) -> c_Enabled c = true /\ exists ep,
    radiusEndpoint c EndpointTransportTLS = Some ep /\ endpointHasRole ep role = true /\ radiusCertFromClient c ep i = Ok x) as Hb.
  { intros c i x. unfold build_cert. destruct (c_Enabled c); [|done]. destruct (radiusEndpoint c _) as [ep|]; [|done]. cbn [negb].
    destruct (endpointHasRole ep role) eqn:Er; [|done]. intros [= Hx]. split; [done|]. by exists ep. }
  destruct (compiled_spec (build_cert role)) with (3 := Hnd) (4 := Hm) (id := rc_id) as (Hids & Hin & Hall).
  { intros c i j. unfold build_cert. by repeat case_match. }
  { intros c i j x (He & ep & Hep & Hr & Hx)%Hb. unfold build_cert. rewrite He, Hep. cbn [negb]. rewrite Hr.
    cbn [negb]. by rewrite (radiusCertFromClient_index c ep i j x Hx). }
  { intros c x (_ & ep & _ & _ & Hx)%Hb. apply (radiusCertFromClient_entry c ep x Hx). }
  unfold cert_values. cbn [cx_byID]. split; [done|]. split; [|split].
  - intros x (c & Hc & (He & ep & Hep & Hr & Hx)%Hb)%Hin. exists c, ep. split; [by split_and!|by apply radiusCertFromClient_entry].
  - intros c ep (Hc & He & Hep & Hr). destruct (Hall c Hc) as [Hn|(x & Hx & Hbx)].
    + unfold build_cert in Hn. rewrite He, Hep in Hn. cbn [negb] in Hn. by rewrite Hr in Hn.
    + exists x. split; [done|]. apply Hb in Hbx as (_ & ep' & Hep' & _ & Hx'). rewrite Hep in Hep'. injection Hep' as <-.
      by apply radiusCertFromClient_entry.
  - intros x y Hx Hy. by apply (check_pairs_spec _ _ Hpairs); apply elem_of_sorted_values, elem_of_values.
Qed.

Definition cert_key (ct : CertIdentity) (canon : bytes) (v4 : bool) (x : radiusCertClient) : option Z :=
  if negb (radiusCertSatisfied x (Some ct)) then None
  else if str_eqb (rc_mode x) MatchCertificateOnly then Some (-1)
  else longestContaining (rc_cidrs x) canon v4.

Lemma radiusCertSatisfied_spec c ep x ct : cert_entry c ep x -> radiusCertSatisfied x (Some ct) = true <-> accepted c (Some ct).
Proof.
  intros (_ & _ & _ & _ & Ed & Ei & _). unfold radiusCertSatisfied. rewrite Ed.
  pose proof (certSatisfied_spec c (rc_ips x) Ei (Some ct)) as Hs. unfold certSatisfied in *.
  destruct ((len (c_DNSSANs c) =? 0) && (len (rc_ips x) =? 0)); [|done]. rewrite <- Hs. done.
Qed.

Lemma cert_entry_key c ep x ct ip canon v4 p :
  cert_entry c ep x -> is_ip ip -> canonicalizeIP ip = Some (canon, v4) ->
  cert_key ct canon v4 x = Some p <-> admits true (Some ct) ip c p.
Proof.
  intros He Hip Hcan. unfold cert_key, admits. pose proof (radiusCertSatisfied_spec c ep x ct He) as Hs.
  destruct He as (_ & _ & _ & Em & _ & _ & Hi). rewrite Em. destruct (radiusCertSatisfied x (Some ct)); cbn [negb].
  - destruct (str_eqb (c_Mode c) MatchCertificateOnly).
    + split; [intros [= <-]; tauto|]. by intros [_ ->].
    + rewrite (covers_longest 0 _ _ ip canon v4 p Hi Hip Hcan). tauto.
  - split; [done|]. intros [H _]. by apply Hs in H.
Qed.

Lemma certs_cannot_tie x y p canon v4 ct :
  radiusCertPairAmbiguous x y = None -> rc_priority x = rc_priority y -> Forall cidr_ok (rc_cidrs x) -> Forall cidr_ok (rc_cidrs y) ->
  canon_ok canon v4 -> cert_key ct canon v4 x = Some p -> cert_key ct canon v4 y = Some p \/ cert_key ct canon v4 y = Some (-1) \/ p = -1 ->
  certsMayOverlap (rc_dns x) (rc_ips x) (rc_dns y) (rc_ips y) = false.
Proof.
  unfold radiusCertPairAmbiguous. intros Hn Ep Hx Hy Hc Hk Hk'. rewrite Ep, Z.eqb_refl in Hn. cbn [negb] in Hn.
  destruct (certsMayOverlap _ _ _ _); [|done]. cbn [negb] in Hn. exfalso.
  destruct (str_eqb (rc_mode x) MatchCertificateOnly) eqn:Emx; [done|]. destruct (str_eqb (rc_mode y) MatchCertificateOnly) eqn:Emy; [done|].
  cbn [orb] in Hn. unfold cert_key in *. rewrite Emx in Hk. rewrite Emy in Hk'.
  destruct (negb (radiusCertSatisfied x _)); [done|]. pose proof (longest_nonneg _ _ _ _ Hx Hk).
  destruct (negb (radiusCertSatisfied y _)); [destruct Hk' as [?|[?|?] ]; [done|done|lia]|].
  destruct Hk' as [Hk'|[Hk'|?] ]; [|pose proof (longest_nonneg _ _ _ _ Hy Hk'); lia|lia].
  by rewrite (shareIdentical_hit _ _ canon v4 p Hx Hy Hc Hk Hk') in Hn.
Qed.

(** Two loops whose bodies agree where an invariant holds. *)
Lemma fold_agree {A X} (f g : A -> X -> A) (I : A -> Prop) l a :
  I a -> (forall a x, I a -> f a x = g a x /\ I (g a x)) -> fold_left f l a = fold_left g l a.
Proof.
  intros Ha H. revert a Ha. induction l as [|x l IH]; intros a Ha; [done|]. cbn [fold_left]. destruct (H a x Ha) as [-> Hi]. by apply IH.
Qed.

Lemma candidates_none {X} (id : X -> string) prio key l : (forall x, x ∈ l -> key x = None) -> candidates id prio key l = [].
Proof.
  induction l as [|x l IH]; intros H; [done|]. unfold candidates. cbn [omap list_omap]. rewrite (H x) by left. cbn.
  apply IH. intros y Hy. apply H. by right.
Qed.

Lemma cert_match idx ip ct canon v4 :
  canonicalizeIP ip = Some (canon, v4) ->
  let key := cert_key ct canon v4 in
  RADIUSCertIndex_Match idx ip (Some ct) =
    let! id := pick (finalists (candidates rc_id rc_priority key (cert_values idx)) (best_of key (cert_values idx) (-1))) in
    Ok (id, default "" ((fold_left (scan_step rc_id rc_priority rc_endpointID key) (cert_values idx) ([], -1, ∅)).2 !! id)).
Proof.
  intros Hcan key. unfold RADIUSCertIndex_Match. fold (cert_values idx).
  destruct ((len (cert_DNSSANs ct) =? 0) && (len (cert_IPSANs ct) =? 0) && negb (hasUnconstrained idx)) eqn:Er.
  - rewrite candidates_none; [done|]. intros x Hx. unfold key, cert_key. destruct (radiusCertSatisfied x (Some ct)) eqn:Es; [|done]. exfalso.
    apply andb_true_iff in Er as [Er Hu]. apply andb_true_iff in Er as [Ed Ei]. apply negb_true_iff in Hu.
    apply Z.eqb_eq, len_zero in Ed. apply Z.eqb_eq, len_zero in Ei. apply not_true_iff_false in Hu. apply Hu.
    unfold hasUnconstrained. apply elem_of_values in Hx as [i Hi]. apply existsb_in. exists (i, x).
    split; [by apply elem_of_map_to_list|]. cbn. unfold radiusCertSatisfied, certSatisfied in Es.
    destruct ((len (rc_dns x) =? 0) && (len (rc_ips x) =? 0)); [done|]. rewrite Ed, Ei in Es.
    apply orb_true_iff in Es as [Es|Es]; apply existsb_in in Es as (w & _ & Hw); done.
  - rewrite (fold_agree (cert_scan ip (Some ct)) (scan_step rc_id rc_priority rc_endpointID key) (fun acc => -1 <= acc.1.2)); [|done|].
    2: { intros [ [cand b] hits] x Hb. cbn [fst snd] in Hb. unfold cert_scan, scan_step, key, cert_key. rewrite Hcan.
      destruct (negb (radiusCertSatisfied x _)); [done|]. destruct (str_eqb (rc_mode x) MatchCertificateOnly).
      - destruct (-1 >? b) eqn:E; bool_hyps; [lia|]. done.
      - destruct (longestContaining _ _ _) as [p|]; [|done]. split; [done|]. cbn. destruct (p >? b) eqn:E; bool_hyps; lia. }
    pose proof (scan_fold rc_id rc_priority rc_endpointID key (cert_values idx) [] (-1) ∅) as Hf.
    destruct (fold_left _ (cert_values idx) _) as [ [cand b] hits]. cbn [fst snd app] in Hf. injection Hf as -> ->. done.
Qed.

(** What an error says: nothing matches, or two clients of one priority do,
    each by a name of its own. *)
Definition unresolved (P : Client -> Z -> Prop) (e : config_error) : Prop :=
  (e = ErrNotFound /\ forall c p, ~ P c p)
  \/ exists c c' p p', contends P c p /\ contends P c' p' /\ c <> c' /\ c_Priority c = c_Priority c'
     /\ ~ unconstrained c /\ ~ unconstrained c' /\ ~ common_name c c' /\ e = ambiguousError (c_ID c) (c_ID c').

Lemma common_name_sym c c' : common_name c c' -> common_name c' c.
Proof.
  assert (forall a b, EqualFold a b = EqualFold b a) as Hf.
  { intros a b. unfold EqualFold, str_eqb. apply bool_decide_ext. split; congruence. }
  assert (forall a b, IP_Equal a b = true -> IP_Equal b a = true) as Hi.
  { intros a b. unfold IP_Equal. rewrite (Z.eqb_sym (len b) (len a)). destruct (len a =? len b); [rewrite !bool_decide_eq_true; by intros ->|].
    destruct (Z.eqb_spec (len a) 4), (Z.eqb_spec (len b) 16), (Z.eqb_spec (len a) 16), (Z.eqb_spec (len b) 4); cbn [andb]; try lia; try done;
      rewrite !andb_true_iff, !bool_decide_eq_true; naive_solver. }
  intros [(x & y & Hx & Hy & He)|(s & x & t & y & Hs & Ex & Ht & Ey & He)].
  - left. exists y, x. rewrite Hf. done.
  - right. exists t, y, s, x. split_and!; try done. by apply Hi.
Qed.

(** The choice over the entries, on the configuration. *)
Lemma cert_selection clients role idx ct ip :
  NoDup (map c_ID clients) -> is_ip ip -> CompileRADIUSCertIndex clients role = Ok idx ->
  let P := fun c p => (exists ep, serves EndpointTransportTLS role clients c ep) /\ admits true (Some ct) ip c p in
  match RADIUSCertIndex_Match idx ip (Some ct) with
  | Ok (id, epid) => exists c ep p, serves EndpointTransportTLS role clients c ep /\ c_ID c = id /\ ep_ID ep = epid
      /\ contends P c p /\ forall c' p', contends P c' p' -> c' = c \/ c_Priority c < c_Priority c'
  | Err e => unresolved P e
  end.
Proof.
  intros Hnd Hip Hcomp P. destruct (cert_compiled _ _ _ Hnd Hcomp) as (Hids & Hfrom & Hto & Hpair).
  destruct (canonicalizeIP_some ip Hip) as (canon & v4 & Hcan). pose proof (canonicalizeIP_ok _ _ _ Hip Hcan) as Hcanon.
  rewrite (cert_match idx ip ct canon v4 Hcan). set (key := cert_key ct canon v4).
  assert (forall x, x ∈ cert_values idx -> Forall cidr_ok (rc_cidrs x)) as Hok.
  { intros x (c & ep & _ & He)%Hfrom. eapply index_cidrs_wf, He. }
  assert (forall x p, x ∈ cert_values idx -> key x = Some p -> -1 <= p) as Hpos.
  { intros x p Hx. unfold key, cert_key. destruct (negb _); [done|]. destruct (str_eqb _ _); [by intros [= <-]|].
    intros Hk. pose proof (longest_nonneg _ _ _ _ (Hok x Hx) Hk). lia. }
  set (entry := fun c x => exists ep, serves EndpointTransportTLS role clients c ep /\ cert_entry c ep x).
  assert (forall c x, entry c x -> rc_id x = c_ID c /\ rc_priority x = c_Priority c /\ forall p, key x = Some p <-> P c p) as Hsame.
  { intros c x (ep & Hs & Hent). pose proof Hent as (? & _ & ? & _). split_and!; [done|done|]. intros p.
    unfold key, P. rewrite (cert_entry_key c ep x ct ip canon v4 p Hent Hip Hcan). split; [|tauto]. intros Hp. split; [by exists ep|done]. }
  assert (forall c p, P c p -> exists x, x ∈ cert_values idx /\ c ∈ clients /\ entry c x) as HtoP.
  { intros c p [ [ep Hs] _]. destruct (Hto c ep Hs) as (x & Hx & He). exists x. split_and!; [done|apply Hs|by exists ep]. }
  assert (forall x, x ∈ cert_values idx -> exists c, c ∈ clients /\ entry c x) as HfromE.
  { intros x (c & ep & Hs & He)%Hfrom. exists c. split; [apply Hs|by exists ep]. }
  pose proof (select_clients rc_id rc_priority key (cert_values idx) clients entry P Hnd Hids Hpos HfromE HtoP Hsame) as Hsel.
  destruct (pick _) as [w|e]; cbn [rbind].
  - destruct Hsel as (x & c & p & Hx & Hc & (ep & Hs & Hent) & <- & Hk & Hcon & Hmin).
    rewrite (scan_hits _ _ _ key (cert_values idx) _ _ _ x Hids Hx) by congruence. pose proof Hent as (Eid & Eep & _). by exists c, ep, p.
  - destruct Hsel as [?|(x & y & c & c' & p & p' & Hx & Hy & Hne & He & He' & Hk & Hk' & [HP Hf] & [HP' Hf'] & Epr & ->)]; [by left|right].
    destruct (Hsame c x He) as (Eid & Ep & _), (Hsame c' y He') as (Eid' & Ep' & _).
    exists c, c', p, p'. destruct He as (ep & _ & (_ & _ & _ & _ & Ed & Ei & _)), He' as (ep' & _ & (_ & _ & _ & _ & Ed' & Ei' & _)).
    assert (p' = p \/ p' = -1 \/ p = -1) as Hpp.
    { destruct Hf as [?|Hf]; [tauto|]. destruct Hf' as [?|Hf']; [tauto|]. specialize (Hf _ _ HP'). specialize (Hf' _ _ HP). left. lia. }
    assert (p = p' \/ p = -1 \/ p' = -1) as Hpp' by (destruct Hpp as [?|[?|?] ]; auto).
    assert (~ unconstrained c /\ ~ unconstrained c' /\ ~ common_name c c') as (H1 & H2 & H3).
    { destruct (Hpair x y Hx Hy ltac:(congruence)) as [Hn|Hn].
      - pose proof (certs_cannot_tie x y p canon v4 ct Hn ltac:(congruence) (Hok x Hx) (Hok y Hy) Hcanon Hk) as Ht.
        rewrite Ed, Ed' in Ht. eapply certsMayOverlap_spec; [exact Ei|exact Ei'|]. apply Ht. unfold key in Hk'. rewrite Hk'.
        destruct Hpp as [-> |[-> | ->] ]; auto.
      - pose proof (certs_cannot_tie y x p' canon v4 ct Hn ltac:(congruence) (Hok y Hy) (Hok x Hx) Hcanon Hk') as Ht.
        rewrite Ed, Ed' in Ht. destruct (certsMayOverlap_spec c' (rc_ips y) c (rc_ips x) Ei' Ei) as (? & ? & Hcn).
        + apply Ht. unfold key in Hk. rewrite Hk. destruct Hpp' as [-> |[-> | ->] ]; auto.
        + split_and!; [done|done|]. intros ?%common_name_sym. done. }
    split_and!; try done. congruence.
Qed.

(** *** TACACS+ *)

Definition build_client (c : Client) (i : Z) : option (result config_error indexClient) :=
  if negb (c_Enabled c) then None else if len (c_Transports c) =? 0 then None else Some (indexFromClient c i).

Lemma compileClients_build clients i m : compileClients_loop clients i m = compile_loop build_client clients i m.
Proof.
  revert i m. induction clients as [|c clients IH]; intros i m; [done|]. cbn [compileClients_loop compile_loop]. unfold build_client at 1.
  destruct (negb (c_Enabled c)); [apply IH|]. destruct (len (c_Transports c) =? 0); [apply IH|].
  destruct (indexFromClient c i); [apply IH|done].
Qed.

Definition client_entry (c : Client) (x : indexClient) : Prop :=
  ic_id x = c_ID c /\ ic_priority x = c_Priority c /\ ic_mode x = c_Mode c /\ ic_transports x = c_Transports c
  /\ ic_dns x = c_DNSSANs c /\ Forall2 (fun s ip => ParseIP s = Some ip) (c_IPSANs c) (ic_ips x)
  /\ index_cidrs 0 (c_SourceCIDRs c) [] = Ok (ic_cidrs x).

Lemma indexFromClient_index c i j x : indexFromClient c i = Ok x -> indexFromClient c j = Ok x.
Proof.
  unfold indexFromClient. destruct (parseStoredIPSAN (c_IPSANs c) i) as [ips|] eqn:Ei; [|done].
  rewrite (parseStoredIPSAN_index i j _ _ Ei). cbn [rbind]. destruct (index_cidrs i (c_SourceCIDRs c) []) as [cidrs|] eqn:Ec; [|done].
  by rewrite (index_cidrs_index i j _ _ Ec).
Qed.

Lemma indexFromClient_entry c x : indexFromClient c 0 = Ok x -> client_entry c x.
Proof.
  unfold indexFromClient. destruct (parseStoredIPSAN (c_IPSANs c) 0) as [ips|] eqn:Ei; [|done]. cbn [rbind].
  destruct (index_cidrs 0 (c_SourceCIDRs c) []) as [cidrs|] eqn:Ec; [|done]. intros [= <-].
  split_and!; try done. by eapply parseStoredIPSAN_spec.
Qed.

Definition client_values (idx : ClientIndex) : list indexClient := map snd (map_to_list (tx_byID idx)).

(** An enabled client of the transport. *)
Definition serves_tacacs (transport : string) (clients : list Client) (c : Client) : Prop :=
  c ∈ clients /\ c_Enabled c = true /\ transport ∈ c_Transports c.

Lemma client_compiled clients idx :
  NoDup (map c_ID clients) -> CompileClientIndex clients = Ok idx ->
  NoDup (map ic_id (client_values idx))
  /\ (forall x, x ∈ client_values idx -> exists c, c ∈ clients /\ c_Enabled c = true /\ client_entry c x)
  /\ (forall c, c ∈ clients -> c_Enabled c = true -> c_Transports c <> [] -> exists x, x ∈ client_values idx /\ client_entry c x)
  /\ (forall x y, x ∈ client_values idx -> y ∈ client_values idx -> x <> y -> pairAmbiguous x y = None \/ pairAmbiguous y x = None).
Proof.
  intros Hnd Hcomp. unfold CompileClientIndex in Hcomp.
  destruct (compileClients_loop clients 0 ∅) as [m|] eqn:Hm; [|done]. cbn [rbind] in Hcomp.
  destruct (check_pairs _ _) eqn:Hpairs; [done|]. injection Hcomp as <-. rewrite compileClients_build in Hm.
  assert (forall c i x, build_client c i = Some (Ok x) -> c_Enabled c = true /\ c_Transports c <> [] /\ indexFromClient c i = Ok x) as Hb.
  { intros c i x. unfold build_client. destruct (c_Enabled c); [|done]. cbn [negb]. destruct (Z.eqb_spec (len (c_Transports c)) 0) as [|Hl]; [done|].
    intros [= Hx]. split_and!; [done| |done]. intros E. by rewrite E in Hl. }
  destruct (compiled_spec build_client) with (3 := Hnd) (4 := Hm) (id := ic_id) as (Hids & Hin & Hall).
  { intros c i j. unfold build_client. by repeat case_match. }
  { intros c i j x (He & Ht & Hx)%Hb. unfold build_client. rewrite He. cbn [negb].
    destruct (Z.eqb_spec (len (c_Transports c)) 0) as [Hl|_]; [by apply len_zero in Hl|]. by rewrite (indexFromClient_index c i j x Hx). }
  { intros c x (_ & _ & Hx)%Hb. apply (indexFromClient_entry c x Hx). }
  unfold client_values. cbn [tx_byID]. split; [done|]. split; [|split].
  - intros x (c & Hc & (He & _ & Hx)%Hb)%Hin. exists c. split_and!; [done|done|]. by apply indexFromClient_entry.
  - intros c Hc He Ht. destruct (Hall c Hc) as [Hn|(x & Hx & Hbx)].
    + unfold build_client in Hn. rewrite He in Hn. cbn [negb] in Hn. by destruct (Z.eqb_spec (len (c_Transports c)) 0) as [Hl%len_zero|].
    + exists x. split; [done|]. apply Hb in Hbx as (_ & _ & Hx'). by apply indexFromClient_entry.
  - intros x y Hx Hy. by apply (check_pairs_spec _ _ Hpairs); apply elem_of_sorted_values, elem_of_values.
Qed.

Definition client_key (transport : string) (cert : option CertIdentity) (canon : bytes) (v4 : bool) (x : indexClient) : option Z :=
  if negb (hasTransport (ic_transports x) transport) then None
  else if str_eqb transport TransportTLS && negb (certSatisfied (ic_dns x) (ic_ips x) cert) then None
  else if str_eqb (ic_mode x) MatchCertificateOnly then Some (-1)
  else longestContaining (ic_cidrs x) canon v4.

Lemma hasTransport_in l t : hasTransport l t = true <-> t ∈ l.
Proof.
  unfold hasTransport. rewrite existsb_in. split.
  - intros (x & Hx & E). unfold str_eqb in E. apply bool_decide_eq_true in E as ->. done.
  - intros H. exists t. split; [done|]. unfold str_eqb. by apply bool_decide_eq_true.
Qed.

Lemma client_entry_key c x transport cert ip canon v4 p :
  client_entry c x -> is_ip ip -> canonicalizeIP ip = Some (canon, v4) ->
  client_key transport cert canon v4 x = Some p <-> transport ∈ c_Transports c /\ admits (str_eqb transport TransportTLS) cert ip c p.
Proof.
  intros (_ & _ & Em & Et & Ed & Ei & Hi) Hip Hcan. unfold client_key, admits. rewrite Em, Et, Ed.
  pose proof (certSatisfied_spec c (ic_ips x) Ei cert) as Hs. rewrite <- (hasTransport_in (c_Transports c)).
  destruct (hasTransport (c_Transports c) transport); cbn [negb]; [|split; [done|by intros [? _] ] ].
  rewrite <- Hs. destruct (str_eqb transport TransportTLS), (certSatisfied (c_DNSSANs c) (ic_ips x) cert); cbn [andb negb];
    try (split; [done|intros (_ & H & _); by specialize (H eq_refl)]);
    destruct (str_eqb (c_Mode c) MatchCertificateOnly);
    rewrite ?(covers_longest 0 _ _ ip canon v4 p Hi Hip Hcan); naive_solver.
Qed.

Lemma elem_of_shared a b t : t ∈ a -> t ∈ b -> t ∈ sharedTransports a b.
Proof.
  intros Ha Hb. unfold sharedTransports.
  enough (forall out, t ∈ a \/ t ∈ out ->
    t ∈ fold_left (fun out t => if hasTransport b t && negb (hasTransport out t) then out ++ [t] else out) a out) as H by (apply H; by left).
  clear Ha. induction a as [|x a IH]; intros out Hin; cbn [fold_left]; [by destruct Hin as [?%elem_of_nil|?]|].
  apply IH. destruct (hasTransport b x && negb (hasTransport out x)) eqn:E.
  - rewrite elem_of_app, list_elem_of_singleton. destruct Hin as [ [->|?]%elem_of_cons|?]; tauto.
  - destruct Hin as [ [->|?]%elem_of_cons|?]; [right|by left|by right]. apply hasTransport_in in Hb. rewrite Hb in E. cbn [andb] in E.
    by apply negb_false_iff, hasTransport_in in E.
Qed.

Lemma pairAmbiguous_none a b t :
  pairAmbiguous a b = None -> ic_priority a = ic_priority b -> t ∈ ic_transports a -> t ∈ ic_transports b ->
  str_eqb t TransportTLS && negb (certsMayOverlap (ic_dns a) (ic_ips a) (ic_dns b) (ic_ips b)) = true
  \/ (str_eqb (ic_mode a) MatchCertificateOnly = false /\ str_eqb (ic_mode b) MatchCertificateOnly = false
      /\ shareIdenticalCIDR (ic_cidrs a) (ic_cidrs b) = false).
Proof.
  unfold pairAmbiguous. intros H Ep Ha Hb. rewrite Ep, Z.eqb_refl in H. cbn [negb] in H.
  pose proof (elem_of_shared _ _ _ Ha Hb) as Hin. revert H Hin. generalize (sharedTransports (ic_transports a) (ic_transports b)).
  intros l. induction l as [|x l IH]; [by intros _ ?%elem_of_nil|]. cbn [fold_right]. intros H [->|Hin]%elem_of_cons.
  - destruct (str_eqb x TransportTLS && _); [by left|right]. destruct (_ || _) eqn:E; [done|]. apply orb_false_iff in E as [? ?].
    by destruct (shareIdenticalCIDR _ _).
  - destruct (str_eqb x TransportTLS && _); [by apply IH|]. destruct (_ || _); [done|]. destruct (shareIdenticalCIDR _ _); [done|]. by apply IH.
Qed.

Lemma client_match idx transport ip cert canon v4 :
  canonicalizeIP ip = Some (canon, v4) ->
  let key := client_key transport cert canon v4 in
  ClientIndex_Match idx transport ip cert =
    pick (finalists (candidates ic_id ic_priority key (client_values idx)) (best_of key (client_values idx) (-1))).
Proof.
  intros Hcan key. unfold ClientIndex_Match. rewrite Hcan. fold (client_values idx).
  rewrite (fold_agree (client_scan transport canon v4 cert) (fun acc x =>
    (scan_step ic_id ic_priority (fun _ => ""%string) key (acc.1, acc.2, ∅) x).1) (fun acc => -1 <= acc.2)); [|done|].
  2: { intros [cand b] x Hb. cbn [fst snd] in *. unfold client_scan, scan_step, key, client_key.
    destruct (negb (hasTransport _ _)); [done|]. destruct (str_eqb transport TransportTLS && _); [done|].
    destruct (str_eqb (ic_mode x) MatchCertificateOnly).
    - cbn. destruct (-1 >? b) eqn:E; bool_hyps; [lia|done].
    - destruct (longestContaining _ _ _) as [p|]; [|done]. split; [done|]. cbn. destruct (p >? b) eqn:E; bool_hyps; lia. }
  assert (forall l acc hits, fold_left (fun acc x => (scan_step ic_id ic_priority (fun _ => ""%string) key (acc.1, acc.2, ∅) x).1) l acc
    = (fold_left (scan_step ic_id ic_priority (fun _ => ""%string) key) l (acc.1, acc.2, hits)).1) as Hf.
  { intros l. induction l as [|x l IH]; intros [cand b] hits; [done|]. cbn [fold_left fst snd].
    unfold scan_step at 2 4. destruct (key x) as [p|]; cbn [fst snd]; apply IH. }
  rewrite (Hf _ _ ∅), (scan_fold _ _ _ key). done.
Qed.

Lemma clients_cannot_tie x y t p p' canon v4 cert :
  pairAmbiguous x y = None -> ic_priority x = ic_priority y -> Forall cidr_ok (ic_cidrs x) -> Forall cidr_ok (ic_cidrs y) ->
  canon_ok canon v4 -> client_key t cert canon v4 x = Some p -> client_key t cert canon v4 y = Some p' ->
  p' = p \/ p' = -1 \/ p = -1 ->
  t = TransportTLS /\ certsMayOverlap (ic_dns x) (ic_ips x) (ic_dns y) (ic_ips y) = false.
Proof.
  unfold client_key. intros Hn Ep Hx Hy Hc Hk Hk' Hpp.
  destruct (hasTransport (ic_transports x) t) eqn:Etx; [|done]. destruct (hasTransport (ic_transports y) t) eqn:Ety; [|done]. cbn [negb] in *.
  destruct (pairAmbiguous_none x y t Hn Ep) as [H|(Emx & Emy & Hsh)]; [by apply hasTransport_in..| |].
  - apply andb_true_iff in H as [Ht Ho]. apply negb_true_iff in Ho. unfold str_eqb in Ht. by apply bool_decide_eq_true in Ht.
  - exfalso. rewrite Emx in Hk. rewrite Emy in Hk'. destruct (_ && _); [done|]. destruct (str_eqb t TransportTLS && _); [done|].
    pose proof (longest_nonneg _ _ _ _ Hx Hk). pose proof (longest_nonneg _ _ _ _ Hy Hk').
    assert (p' = p) as -> by lia. by rewrite (shareIdentical_hit _ _ canon v4 p Hx Hy Hc Hk Hk') in Hsh.
Qed.

Lemma tacacs_selection clients transport idx cert ip :
  NoDup (map c_ID clients) -> is_ip ip -> CompileClientIndex clients = Ok idx ->
  let P := fun c p => serves_tacacs transport clients c /\ admits (str_eqb transport TransportTLS) cert ip c p in
  match ClientIndex_Match idx transport ip cert with
  | Ok id => exists c p, c_ID c = id /\ contends P c p /\ forall c' p', contends P c' p' -> c' = c \/ c_Priority c < c_Priority c'
  | Err e => unresolved P e /\ (transport <> TransportTLS -> e = ErrNotFound)
  end.
Proof.
  intros Hnd Hip Hcomp P. destruct (client_compiled _ _ Hnd Hcomp) as (Hids & Hfrom & Hto & Hpair).
  destruct (canonicalizeIP_some ip Hip) as (canon & v4 & Hcan). pose proof (canonicalizeIP_ok _ _ _ Hip Hcan) as Hcanon.
  rewrite (client_match idx transport ip cert canon v4 Hcan). set (key := client_key transport cert canon v4).
  assert (forall x, x ∈ client_values idx -> Forall cidr_ok (ic_cidrs x)) as Hok.
  { intros x (c & _ & _ & He)%Hfrom. eapply index_cidrs_wf, He. }
  assert (forall x p, x ∈ client_values idx -> key x = Some p -> -1 <= p) as Hpos.
  { intros x p Hx. unfold key, client_key. destruct (negb (hasTransport _ _)); [done|].
    destruct (str_eqb transport TransportTLS && _); [done|]. destruct (str_eqb (ic_mode x) _); [by intros [= <-]|].
    intros Hk. pose proof (longest_nonneg _ _ _ _ (Hok x Hx) Hk). lia. }
  set (entry := fun c x => (c ∈ clients /\ c_Enabled c = true) /\ client_entry c x).
  assert (forall c x, entry c x -> ic_id x = c_ID c /\ ic_priority x = c_Priority c /\ forall p, key x = Some p <-> P c p) as Hsame.
  { intros c x ([Hc He] & Hent). pose proof Hent as (? & ? & _). split_and!; [done|done|]. intros p.
    unfold key, P, serves_tacacs. rewrite (client_entry_key c x transport cert ip canon v4 p Hent Hip Hcan). tauto. }
  assert (forall c p, P c p -> exists x, x ∈ client_values idx /\ c ∈ clients /\ entry c x) as HtoP.
  { intros c p [(Hc & He & Ht) _]. destruct (Hto c Hc He) as (x & Hx & Hent); [by intros E; rewrite E in Ht; apply elem_of_nil in Ht|].
    by exists x. }
  assert (forall x, x ∈ client_values idx -> exists c, c ∈ clients /\ entry c x) as HfromE by (intros x (c & ? & ? & ?)%Hfrom; by exists c).
  pose proof (select_clients ic_id ic_priority key (client_values idx) clients entry P Hnd Hids Hpos HfromE HtoP Hsame) as Hsel.
  destruct (pick _) as [w|e].
  - destruct Hsel as (x & c & p & Hx & Hc & He & <- & Hk & Hcon & Hmin). exists c, p. by destruct (Hsame c x He) as (-> & _).
  - destruct Hsel as [ [-> ?]|(x & y & c & c' & p & p' & Hx & Hy & Hne & He & He' & Hk & Hk' & [HP Hf] & [HP' Hf'] & Epr & ->)]; [by split; [left|]|].
    destruct (Hsame c x He) as (Eid & Ep & _), (Hsame c' y He') as (Eid' & Ep' & _).
    destruct He as (_ & _ & _ & _ & _ & Ed & Ei & _), He' as (_ & _ & _ & _ & _ & Ed' & Ei' & _).
    assert (p' = p \/ p' = -1 \/ p = -1) as Hpp.
    { destruct Hf as [?|Hf]; [tauto|]. destruct Hf' as [?|Hf']; [tauto|]. specialize (Hf _ _ HP'). specialize (Hf' _ _ HP). left. lia. }
    assert (p = p' \/ p = -1 \/ p' = -1) as Hpp' by (destruct Hpp as [?|[?|?] ]; auto).
    assert (transport = TransportTLS /\ ~ unconstrained c /\ ~ unconstrained c' /\ ~ common_name c c') as (Ht & H1 & H2 & H3).
    { destruct (Hpair x y Hx Hy ltac:(congruence)) as [Hn|Hn].
      - destruct (clients_cannot_tie x y transport p p' canon v4 cert Hn ltac:(congruence) (Hok x Hx) (Hok y Hy) Hcanon Hk Hk' Hpp) as [Ht Ho].
        rewrite Ed, Ed' in Ho. split; [done|]. eapply certsMayOverlap_spec; [exact Ei|exact Ei'|exact Ho].
      - destruct (clients_cannot_tie y x transport p' p canon v4 cert Hn ltac:(congruence) (Hok y Hy) (Hok x Hx) Hcanon Hk' Hk Hpp') as [Ht Ho].
        rewrite Ed, Ed' in Ho. destruct (certsMayOverlap_spec c' (ic_ips y) c (ic_ips x) Ei' Ei Ho) as (? & ? & Hcn).
        split_and!; [done|done|done|]. intros ?%common_name_sym. done. }
    split; [|done]. right. exists c, c', p, p'. split_and!; try done. congruence.
Qed.

(** C33. Every peer is given to one client, or to none.  A compiled RADIUS/UDP
    index gives every valid address to the one client whose networks cover it
    with the most bits and, among those, has the least priority number, and to
    that client's endpoint; there is never a tie, and an address is refused
    only when no client of the role covers it.  With certificates, for RADIUS
    over TLS and for TACACS+ on either transport, a client matches when it is
    enabled and serves the transport, the certificate carries one of its names
    (or it names none), and its networks cover the address unless it is matched
    by certificate only; the peer is given to the contending client of least
    priority number, where the certificate-only matches and those of the
    longest prefix contend.  An error means that nothing matches, or that two
    contending clients of one priority are named by different names of one
    certificate; that cannot happen on the legacy transport.  A RADIUS/TLS peer
    without a certificate is never matched. *)
Theorem client_selection clients ip :
  NoDup (map c_ID clients) -> is_ip ip ->
  (forall role carrier idx, CompileRADIUSIndex clients role carrier = Ok idx ->
    match RADIUSIndex_Match idx ip with
    | Ok (id, epid) => exists c ep p, serves EndpointTransportUDP role clients c ep /\ c_ID c = id /\ ep_ID ep = epid
        /\ covers (c_SourceCIDRs c) ip p
        /\ forall c' ep' p', serves EndpointTransportUDP role clients c' ep' -> covers (c_SourceCIDRs c') ip p' ->
           c' = c \/ p' < p \/ (p' = p /\ c_Priority c < c_Priority c')
    | Err e => e = ErrNotFound /\ forall c ep p, serves EndpointTransportUDP role clients c ep -> ~ covers (c_SourceCIDRs c) ip p
    end)
  /\ (forall role idx ct, CompileRADIUSCertIndex clients role = Ok idx ->
    let P := fun c p => (exists ep, serves EndpointTransportTLS role clients c ep) /\ admits true (Some ct) ip c p in
    RADIUSCertIndex_Match idx ip None = Err ErrNotFound
    /\ match RADIUSCertIndex_Match idx ip (Some ct) with
       | Ok (id, epid) => exists c ep p, serves EndpointTransportTLS role clients c ep /\ c_ID c = id /\ ep_ID ep = epid
           /\ contends P c p /\ forall c' p', contends P c' p' -> c' = c \/ c_Priority c < c_Priority c'
       | Err e => unresolved P e
       end)
  /\ (forall transport idx cert, CompileClientIndex clients = Ok idx ->
    let P := fun c p => serves_tacacs transport clients c /\ admits (str_eqb transport TransportTLS) cert ip c p in
    match ClientIndex_Match idx transport ip cert with
    | Ok id => exists c p, c_ID c = id /\ contends P c p /\ forall c' p', contends P c' p' -> c' = c \/ c_Priority c < c_Priority c'
    | Err e => unresolved P e /\ (transport <> TransportTLS -> e = ErrNotFound)
    end).
Proof.
  intros Hnd Hip. split; [|split].
  - intros role carrier idx Hcomp. by apply (udp_selection clients role carrier).
  - intros role idx ct Hcomp P. split; [done|]. by apply cert_selection.
  - intros transport idx cert Hcomp P. by apply tacacs_selection.
Qed.

(** 192.0.2.0/24 with a certificate for nas.example, and a client known by its certificate alone. *)
Definition tls_endpoint : ClientEndpoint :=
  mkClientEndpoint "radius-tls" ProtocolRADIUS EndpointTransportTLS [Domain.RoleAccess] (Some (mkRADIUSEndpoint "" true true [] [])).
Definition demo_tls_clients : list Client :=
  [mkClient "edge" 10 true ["192.0.2.0/24"]%string [TransportLegacy; TransportTLS] "" ["nas.example"]%string [] [tls_endpoint];
   mkClient "roam" 5 true [] [TransportTLS] MatchCertificateOnly ["roam.example"]%string [] [tls_endpoint]].
Definition demo_cert (dns : string) : CertIdentity := mkCertIdentity [dns] [].

Definition matched_cert (clients : list Client) (ip : bytes) (dns : string) : result config_error (string * string) :=
  let! idx := CompileRADIUSCertIndex clients Domain.RoleAccess in RADIUSCertIndex_Match idx ip (Some (demo_cert dns)).
Definition matched_tacacs (clients : list Client) (transport : string) (ip : bytes) (dns : string) : result config_error string :=
  let! idx := CompileClientIndex clients in ClientIndex_Match idx transport ip (Some (demo_cert dns)).

Lemma client_selection_witness :
  exists ridx idx, CompileRADIUSCertIndex demo_tls_clients Domain.RoleAccess = Ok ridx /\ CompileClientIndex demo_tls_clients = Ok idx
  /\ RADIUSCertIndex_Match ridx [192; 0; 2; 9] None = Err ErrNotFound
  /\ RADIUSCertIndex_Match ridx [192; 0; 2; 9] (Some (demo_cert "ROAM.example")) = Ok ("roam", "radius-tls")%string
  /\ ClientIndex_Match idx TransportLegacy [192; 0; 2; 9] (Some (demo_cert "")) = Ok "edge"%string
  /\ exists c p, c_ID c = "edge"%string
     /\ contends (fun c p => serves_tacacs TransportLegacy demo_tls_clients c
                   /\ admits false (Some (demo_cert "")) [192; 0; 2; 9] c p) c p.
Proof.
  destruct (CompileRADIUSCertIndex demo_tls_clients Domain.RoleAccess) as [ridx|e] eqn:Hr; [|exfalso; vm_compute in Hr; discriminate].
  destruct (CompileClientIndex demo_tls_clients) as [idx|e] eqn:Hc; [|exfalso; vm_compute in Hc; discriminate].
  exists ridx, idx. split; [reflexivity|]. split; [reflexivity|].
  assert (RADIUSCertIndex_Match ridx [192; 0; 2; 9] (Some (demo_cert "ROAM.example")) = matched_cert demo_tls_clients [192; 0; 2; 9] "ROAM.example")
    as Hm by (unfold matched_cert; rewrite Hr; reflexivity).
  assert (ClientIndex_Match idx TransportLegacy [192; 0; 2; 9] (Some (demo_cert "")) = matched_tacacs demo_tls_clients TransportLegacy [192; 0; 2; 9] "")
    as Hm' by (unfold matched_tacacs; rewrite Hc; reflexivity).
  assert (matched_tacacs demo_tls_clients TransportLegacy [192; 0; 2; 9] "" = Ok "edge"%string) as E by (vm_compute; reflexivity).
  assert (NoDup (map c_ID demo_tls_clients)) as Hnd by (apply (bool_decide_unpack _); vm_compute; exact I).
  assert (is_ip [192; 0; 2; 9]) as Hip by (split; [decide_now|left; reflexivity]).
  pose proof (client_selection demo_tls_clients [192; 0; 2; 9] Hnd Hip) as (_ & H1 & H2).
  split; [exact (proj1 (H1 _ _ (demo_cert "") Hr))|]. split; [rewrite Hm; vm_compute; reflexivity|].
  split; [rewrite Hm'; exact E|]. specialize (H2 TransportLegacy idx (Some (demo_cert "")) Hc). rewrite Hm', E in H2.
  destruct H2 as (c & p & Hid & Hcon & _). exists c, p. exact (conj Hid Hcon).
Defined.

Example certificate_examples :
  matched_cert demo_tls_clients [192; 0; 2; 9] "nas.example" = Ok ("edge", "radius-tls")%string
  /\ matched_cert demo_tls_clients [10; 0; 0; 1] "nas.example" = Err ErrNotFound
  /\ matched_tacacs demo_tls_clients TransportTLS [10; 0; 0; 1] "roam.example" = Ok "roam"%string
  /\ matched_tacacs demo_tls_clients TransportTLS [192; 0; 2; 9] "other.example" = Err ErrNotFound.
Proof. repeat split; vm_compute; reflexivity. Qed.
