(* ===== verification/RadiusUdp.v ===== *)
(** * RADIUS over UDP: the listener

    [internal/radius/udp/listener.go], [lifecycle.go], [worker.go],
    [process.go] and [limits.go], with [MatchRADIUS] of
    [internal/state/snapshot.go]: datagrams are read by one goroutine into a
    bounded queue and processed by a pool of workers that share the rate
    limiter and the retransmission cache.  [process] is a program of calls
    ([prog]): everything between two calls is local to the worker, so a
    listener is a state machine whose steps are single calls of any worker.

    The source address is a [net.UDPAddr], which the UDP socket returns.
    Snapshots, secrets, the clock and the handler's results are the
    environment's choice at each step.  Metrics and log lines have no model. *)

From Stdlib Require Import Ascii.
From Stdlib Require Import SpecFloat.
From stdpp Require Import gmap strings pretty.
From S2P Require Import Prelude Text Md5 Sha256 BoundedStore StableSort Policy Domain NetAddr ClientMatch SessionIndex.
From S2P Require Import RadiusAttribute RadiusDictionary RadiusCodec RadiusCrypto RadiusReply RadiusCache.
From S2P Require Import AaaAccounting RadiusAccounting.

#[local] Open Scope Z_scope.

(** ** Rate limiter (limits.go)

    [float64] arithmetic is IEEE 754 binary64 of [SpecFloat]; the compiler may
    fuse the multiplication with the addition on some machines, here it does
    not. *)

Abbreviation float64 := spec_float.
Definition f64 (n : Z) : float64 := binary_normalize 53 1024 n 0 false.
Definition f64_add : float64 -> float64 -> float64 := SFadd 53 1024.
Definition f64_sub : float64 -> float64 -> float64 := SFsub 53 1024.
Definition f64_mul : float64 -> float64 -> float64 := SFmul 53 1024.
Definition f64_div : float64 -> float64 -> float64 := SFdiv 53 1024.

(** [t.Sub(u)], clamped to an [int64] of nanoseconds, and [d.Seconds()]. *)
Definition time_sub (t u : Z) : Z := Z.max (- 2 ^ 63) (Z.min (2 ^ 63 - 1) (t - u)).
Definition Seconds (d : Z) : float64 := f64_add (f64 (Z.quot d second)) (f64_div (f64 (Z.rem d second)) (f64 second)).

Definition limiterSweepCap := 8192.

Record tokenBucket := mkTokenBucket { tb_tokens : float64; tb_last : Z }.
Record sourceLimiter := mkSourceLimiter { sl_rate : float64; sl_burst : float64; sl_items : gmap string tokenBucket }.

Definition newSourceLimiter (rate : float64) (burst : Z) : option sourceLimiter :=
  if SFleb rate (f64 0) || (burst <=? 0) then None else Some (mkSourceLimiter rate (f64 burst) ∅).

Definition sweepLocked (items : gmap string tokenBucket) (now : Z) : gmap string tokenBucket :=
  filter (fun kv => negb (time_sub now (tb_last kv.2) >? 120 * second) = true) items.

(** A bucket brought up to [now]. *)
Definition refill (rate burst : float64) (now : Z) (b : tokenBucket) : tokenBucket :=
  let elapsed := Seconds (time_sub now (tb_last b)) in
  if SFltb (f64 0) elapsed then
    let tokens := f64_add (tb_tokens b) (f64_mul elapsed rate) in
    mkTokenBucket (if SFltb burst tokens then burst else tokens) now
  else b.

Definition Allow (l : option sourceLimiter) (now : Z) (src : string) : option sourceLimiter * bool :=
  match l with
  | None => (None, true)
  | Some l =>
    let items := if Z.of_nat (size (sl_items l)) >? limiterSweepCap then sweepLocked (sl_items l) now else sl_items l in
    let b := refill (sl_rate l) (sl_burst l) now (default (mkTokenBucket (sl_burst l) now) (items !! src)) in
    let put b := Some (mkSourceLimiter (sl_rate l) (sl_burst l) (<[src := b]> items)) in
    if SFltb (tb_tokens b) (f64 1) then (put b, false)
    else (put (mkTokenBucket (f64_sub (tb_tokens b) (f64 1)) (tb_last b)), true)
  end.

(** ** Settings (listener.go) *)

Record RADIUSListener := mkRADIUSListener {
  rl_MaxPacketBytes : Z;
  rl_QueueCapacity : Z;
  rl_Workers : Z;
  rl_WorkerDeadline : Z;
  rl_RetransmissionCacheEntries : Z;
  rl_RetransmissionCacheBytes : Z;
  rl_RetransmissionTTL : Z;
  rl_PerSourceRate : float64;
  rl_PerSourceBurst : Z;
  rl_JournalEntries : Z;
  rl_JournalBytes : Z;
  rl_AmbiguousAccountingPerMinute : Z;
}.

Definition is_accounting (role : ListenerRole) : bool := bool_decide (role = RoleAccounting).
Definition is_dynauth (role : ListenerRole) : bool := bool_decide (role = RoleDynamicAuthorization).

Definition normalizeSettings (s : RADIUSListener) (role : ListenerRole) : RADIUSListener :=
  let pos v d := if v <=? 0 then d else v in
  let acct a b := if is_accounting role then a else b in
  mkRADIUSListener
    (pos (rl_MaxPacketBytes s) MaxPacketBytes)
    (pos (rl_QueueCapacity s) (if is_dynauth role then 256 else 2048))
    (pos (rl_Workers s) (match role with RoleAccounting => 16 | RoleDynamicAuthorization => 8 | _ => 32 end))
    (pos (rl_WorkerDeadline s) (5 * second))
    (pos (rl_RetransmissionCacheEntries s) (acct 20000 10000))
    (pos (rl_RetransmissionCacheBytes s) (acct (Z.shiftl 8 20) (Z.shiftl 4 20)))
    (pos (rl_RetransmissionTTL s) (acct (60 * second) (15 * second)))
    (if SFleb (rl_PerSourceRate s) (f64 0) then f64 100 else rl_PerSourceRate s)
    (pos (rl_PerSourceBurst s) 200)
    (if is_accounting role then pos (rl_JournalEntries s) 20000 else rl_JournalEntries s)
    (if is_accounting role then pos (rl_JournalBytes s) (Z.shiftl 8 20) else rl_JournalBytes s)
    (if is_accounting role && (rl_AmbiguousAccountingPerMinute s <? 0) then 60 else rl_AmbiguousAccountingPerMinute s).

(** ** Addresses *)

Record UDPAddr := mkUDPAddr { ua_IP : bytes; ua_Port : Z; ua_Zone : string }.

Definition JoinHostPort (host port : string) : string :=
  if bool_decide (String.index 0 ":" host = None) then cat host (cat ":" port) else cat "[" (cat host (cat "]:" port)).

Definition UDPAddr_String (a : UDPAddr) : string :=
  let ip := if len (ua_IP a) =? 0 then "" else
            if (len (ua_IP a) =? 4) || (len (ua_IP a) =? 16) then IP_String (ua_IP a)
            else cat "?" (EncodeToString (ua_IP a)) in
  JoinHostPort (if str_eqb (ua_Zone a) "" then ip else cat ip (cat "%" (ua_Zone a))) (FormatUint (ua_Port a)).

Definition peerIP (addr : UDPAddr) : bytes := ua_IP addr.

Definition peerAddrPort (addr : UDPAddr) : AddrPort :=
  if negb ((len (ua_IP addr) =? 4) || (len (ua_IP addr) =? 16)) then mkAddrPort None 0 else
  mkAddrPort (Some (match To4 (ua_IP addr) with Some v4 => v4 | None => ua_IP addr end)) (ua_Port addr mod 65536).

(** ** The snapshot: the fields the listener reads *)

Record Snapshot := mkSnapshot {
  sn_Revision : Z;
  sn_radiusAccessIndex : option RADIUSIndex;
  sn_radiusAcctIndex : option RADIUSIndex;
  sn_radiusDynAuthIndex : option RADIUSIndex;
  sn_clients : gmap string Client;
}.

Definition MatchRADIUS (s : Snapshot) (role : ListenerRole) (carrier : string) (ip : bytes)
  : result config_error (Client * string) :=
  if str_eqb carrier CarrierRADIUSTLS then Err ErrIndexCarrier else
  let! idx := match role with
    | RoleAccess => Ok (sn_radiusAccessIndex s)
    | RoleAccounting => Ok (sn_radiusAcctIndex s)
    | RoleDynamicAuthorization => Ok (sn_radiusDynAuthIndex s)
    | RoleOther => Err ErrIndexRole
    end in
  match idx with
  | None => Err ErrNotFound
  | Some idx =>
    let! m := RADIUSIndex_Match idx ip in
    match sn_clients s !! m.1 with
    | None => Err ErrNotFound
    | Some c => Ok (c, m.2)
    end
  end.

Definition isAmbiguous (err : config_error) : bool := match err with ErrAmbiguous _ _ => true | _ => false end.

(** The loops over [client.Client.Endpoints]: the first RADIUS endpoint of
    the identifier. *)
Fixpoint endpointByID (eps : list ClientEndpoint) (endpointID : string) : option RADIUSEndpoint :=
  match eps with
  | [] => None
  | ep :: eps =>
    if negb (str_eqb (ep_ID ep) endpointID) then endpointByID eps endpointID
    else match ep_RADIUS ep with Some r => Some r | None => endpointByID eps endpointID end
  end.

Definition endpointAccessPolicy (client : Client) (endpointID : string) : bool * bool * list string :=
  match endpointByID (c_Endpoints client) endpointID with
  | Some r => (re_RequireMessageAuthenticator r, re_LimitProxyState r, re_AllowedAuthenticationMethods r)
  | None => (true, true, [])
  end.

Definition radiusAcceptStatusTypes (client : Client) (endpointID : string) : list string :=
  match endpointByID (c_Endpoints client) endpointID with Some r => re_AcceptStatusTypes r | None => [] end.

(** [config.SecretLookup]: the octets a secret reference stands for. *)
Abbreviation SecretLookup := (string -> option bytes).

Definition lookupRADIUSSecret (lookup : SecretLookup) (client : Client) (endpointID : string) : option bytes :=
  match endpointByID (c_Endpoints client) endpointID with
  | Some r => lookup (re_SharedSecret r)
  | None => None
  end.

Definition codeAllowed (role : ListenerRole) (code : Z) : bool :=
  match role with
  | RoleAccess => code =? CodeAccessRequest
  | RoleAccounting => code =? CodeAccountingRequest
  | RoleDynamicAuthorization => (code =? CodeCoARequest) || (code =? CodeDisconnectRequest)
  | RoleOther => false
  end.

(** ** Reasons *)

Definition ReasonUnknownClient : string := "discard_unknown_client".
Definition ReasonAmbiguousClient : string := "discard_ambiguous_client".
Definition reasonSecretMissing : string := "secret_unavailable".
Definition reasonJournalSaturated : string := "journal_saturated".

(** ** Processing one datagram (process.go) *)

(** [server.Request]: the part [RadiusReply] models and the rest. *)
Record ServerRequest := mkServerRequest {
  sr_Request : RadiusReply.Request;
  sr_Snapshot : Snapshot;
  sr_Carrier : string;
  sr_ClientID : string;
  sr_EndpointID : string;
  sr_ListenerID : string;
  sr_AllowedMethods : list string;
  sr_Peer : AddrPort;
  sr_AcceptStatusTypes : list string;
}.

(** The fields of [Listener] that stay as [Listen] sets them. *)
Record listenerConf := mkListenerConf {
  lc_id : string;
  lc_role : ListenerRole;
  lc_settings : RADIUSListener;
}.
Definition lc_bounds (l : listenerConf) : Bounds := mkBounds (rl_MaxPacketBytes (lc_settings l)) 0 0.

(** What the handler returns, with [JournalSaturated]. *)
Abbreviation handled := (RadiusReply.Result * bool)%type.

Inductive prog :=
| Done
| Note (reason : string) (k : prog)
| CallLimit (src : string) (k : bool -> prog)
| CallBegin (key : slotKey) (fp : fingerprint) (k : Lookup -> prog)
| CallHandle (req : ServerRequest) (k : handled -> prog)
| CallAbandon (key : slotKey) (fp : fingerprint) (k : prog)
| CallComplete (key : slotKey) (fp : fingerprint) (response : bytes) (k : prog)
| WriteTo (src : UDPAddr) (payload : bytes) (k : prog).

Definition note (reason : string) : prog := if str_eqb reason "" then Done else Note reason Done.

Definition writeTo (src : UDPAddr) (payload : bytes) : prog :=
  if len payload =? 0 then Done else WriteTo src payload Done.

(** From the handler's result on. *)
Definition process_result (key : slotKey) (fp : fingerprint) (src : UDPAddr) (res : handled) : prog :=
  let k :=
    match res.1 with
    | ActionReply reason response =>
      if len response =? 0 then CallAbandon key fp (note reason) else
      let k := CallComplete key fp response (writeTo src response) in
      if str_eqb reason ReasonAmbiguousIdentity then Note reason k else k
    | ActionDiscard reason => CallAbandon key fp (note reason)
    end in
  if res.2 then Note reasonJournalSaturated k else k.

(** From [l.cache.Begin] on. *)
Definition process_lookup (req : ServerRequest) (key : slotKey) (fp : fingerprint) (src : UDPAddr) (got : Lookup) : prog :=
  match got with
  | LookupHit cached => writeTo src cached
  | LookupPending => Done
  | LookupSaturated => note ReasonOverload
  | LookupPurged | LookupMiss => CallHandle req (process_result key fp src)
  end.

(** The source's slot for the packet, and the request handed over. *)
Definition slot_of (l : listenerConf) (endpointID srcKey : string) (pkt : Packet) : slotKey :=
  mkSlotKey endpointID (lc_role l) srcKey (lc_id l) (Code pkt) (Identifier pkt).

Definition server_request (l : listenerConf) (snap : Snapshot) (client : Client) (endpointID : string)
    (pkt : Packet) (body secret : bytes) (src : UDPAddr) : ServerRequest :=
  let '(requireMA, limitPS, methods) := endpointAccessPolicy client endpointID in
  let requireMA := if is_dynauth (lc_role l) then true else requireMA in
  mkServerRequest (mkRequest (lc_role l) pkt body secret requireMA limitPS) snap CarrierRADIUSUDP
    (c_ID client) endpointID (lc_id l) methods (peerAddrPort src) (radiusAcceptStatusTypes client endpointID).

(** From [lookupRADIUSSecret] on. *)
Definition process_admitted (l : listenerConf) (snap : Snapshot) (secrets : SecretLookup) (client : Client)
    (endpointID : string) (body : bytes) (src : UDPAddr) : prog :=
  match lookupRADIUSSecret secrets client endpointID with
  | None | Some [] => note reasonSecretMissing
  | Some secret =>
    match DecodeBounded body (lc_bounds l) with
    | Err err => note (DiscardReason (Some err))
    | Ok pkt =>
      if negb (codeAllowed (lc_role l) (Code pkt)) then note ReasonInvalidCode else
      let acct := if is_accounting (lc_role l) then CheckAccountingIntegrity secret body pkt else "" in
      if negb (str_eqb acct "") then note acct else
      let req := server_request l snap client endpointID pkt body secret src in
      let reason := CheckIntegrity (sr_Request req) in
      if negb (str_eqb reason "") then note reason else
      let key := slot_of l endpointID (UDPAddr_String src) pkt in
      CallBegin key (fingerprintOf body) (process_lookup req key (fingerprintOf body) src)
    end
  end.

Definition process (l : listenerConf) (snap : option Snapshot) (secrets : SecretLookup) (buf : bytes) (src : UDPAddr) : prog :=
  if len buf <? HeaderSize then note ReasonMalformedHeader else
  match RadiusCodec.DecodeHeader buf with
  | Err err => note (DiscardReason (Some err))
  | Ok h =>
    let declared := H_Length h in
    if (declared <? MinPacketBytes) || (declared >? B_MaxPacketBytes (lc_bounds l)) || (declared >? len buf)
    then note ReasonInvalidLength else
    let body := slice buf 0 declared in
    match snap with
    | None => note reasonSecretMissing
    | Some snap =>
      match MatchRADIUS snap (lc_role l) CarrierRADIUSUDP (peerIP src) with
      | Err err => note (if isAmbiguous err then ReasonAmbiguousClient else ReasonUnknownClient)
      | Ok (client, endpointID) =>
        CallLimit (UDPAddr_String src) (fun ok =>
          if negb ok then note ReasonOverload
          else process_admitted l snap secrets client endpointID body src)
      end
    end
  end.

(** ** The listener's goroutines (listener.go, lifecycle.go, worker.go) *)

(** A datagram read from the socket; [it_id] numbers them for the proofs. *)
Record item := mkItem { it_id : nat; it_buf : bytes; it_src : UDPAddr }.

Inductive worker := WIdle | WRun (it : item) (p : prog) | WExit.

(** The receive loop: in [ReadFrom], holding a datagram, returned. *)
Inductive receiver := RRead | RGot (it : item) | RDone.

(** What happened, for the theorems: the calls with their results. *)
Inductive event :=
| EvRead (it : item)
| EvTake (it : item) (snap : option Snapshot) (secrets : SecretLookup)
| EvBegin (t : Z) (it : item) (key : slotKey) (fp : fingerprint) (got : Lookup)
| EvHandle (it : item) (req : ServerRequest) (res : handled)
| EvComplete (t : Z) (it : item) (key : slotKey) (fp : fingerprint) (response : bytes)
| EvAbandon (t : Z) (it : item) (key : slotKey) (fp : fingerprint)
| EvSent (it : item) (dst : UDPAddr) (payload : bytes).

(** [li_log] is newest first; [li_crashed] is a panic outside the workers. *)
Record Listener := mkListener {
  li_cache : Cache;
  li_limit : option sourceLimiter;
  li_queue : list item;
  li_workers : list worker;
  li_recv : receiver;
  li_closed : bool;
  li_queueClosed : bool;
  li_lastError : string;
  li_crashed : bool;
  li_next : nat;
  li_log : list event;
}.

Definition Listen (l : listenerConf) : Listener :=
  let s := lc_settings l in
  mkListener (newCache (rl_RetransmissionCacheEntries s) (rl_RetransmissionCacheBytes s) (rl_RetransmissionTTL s))
    (newSourceLimiter (rl_PerSourceRate s) (rl_PerSourceBurst s)) []
    (replicate (Z.to_nat (rl_Workers s)) WIdle) RRead false false "" false 0 [].

Definition set_cache (s : Listener) (c : Cache) (ev : event) : Listener :=
  mkListener c (li_limit s) (li_queue s) (li_workers s) (li_recv s) (li_closed s) (li_queueClosed s) (li_lastError s)
    (li_crashed s) (li_next s) (ev :: li_log s).
Definition set_limit (s : Listener) (lim : option sourceLimiter) : Listener :=
  mkListener (li_cache s) lim (li_queue s) (li_workers s) (li_recv s) (li_closed s) (li_queueClosed s) (li_lastError s)
    (li_crashed s) (li_next s) (li_log s).
Definition add_log (s : Listener) (ev : event) : Listener := set_cache s (li_cache s) ev.
Definition setError (s : Listener) (code : string) : Listener :=
  mkListener (li_cache s) (li_limit s) (li_queue s) (li_workers s) (li_recv s) (li_closed s) (li_queueClosed s) code
    (li_crashed s) (li_next s) (li_log s).
Definition set_worker (s : Listener) (i : nat) (w : worker) : Listener :=
  mkListener (li_cache s) (li_limit s) (li_queue s) (<[i := w]> (li_workers s)) (li_recv s) (li_closed s)
    (li_queueClosed s) (li_lastError s) (li_crashed s) (li_next s) (li_log s).
Definition set_queue (s : Listener) (q : list item) (r : receiver) : Listener :=
  mkListener (li_cache s) (li_limit s) q (li_workers s) r (li_closed s) (li_queueClosed s) (li_lastError s)
    (li_crashed s) (li_next s) (li_log s).
Definition read_item (s : Listener) (it : item) : Listener :=
  mkListener (li_cache s) (li_limit s) (li_queue s) (li_workers s) (RGot it) (li_closed s) (li_queueClosed s)
    (li_lastError s) (li_crashed s) (S (li_next s)) (EvRead it :: li_log s).
Definition crash (s : Listener) : Listener :=
  mkListener (li_cache s) (li_limit s) (li_queue s) (li_workers s) (li_recv s) (li_closed s) (li_queueClosed s)
    (li_lastError s) true (li_next s) (li_log s).
Definition closeConn (s : Listener) : Listener :=
  mkListener (li_cache s) (li_limit s) (li_queue s) (li_workers s) (li_recv s) true (li_queueClosed s) (li_lastError s)
    (li_crashed s) (li_next s) (li_log s).
Definition closeQueue (s : Listener) : Listener :=
  mkListener (li_cache s) (li_limit s) (li_queue s) (li_workers s) (li_recv s) (li_closed s) true (li_lastError s)
    (li_crashed s) (li_next s) (li_log s).

(** One step: who moves, with the environment's choices.  [LRead] is
    [ReadFrom] returning a datagram, cut to the buffer; [LReadError] any other
    return of it; [LEnqueue] the [select] that follows; [LCloseConn] the end of
    the context or [Drain]; [LClose] is [Close]; [LWork] the next call of worker
    [i], with the clock, the handler's result and whether the socket took the
    reply; [LPanic] a panic of the handler, which [handleItem] recovers from. *)
Inductive label :=
| LRead (datagram : bytes) (src : UDPAddr)
| LReadError
| LEnqueue
| LCloseConn
| LClose
| LTake (i : nat) (snap : option Snapshot) (secrets : SecretLookup)
| LWork (i : nat) (now : Z) (res : handled) (sent : bool)
| LPanic (i : nat)
| LExit (i : nat).

Definition work (s : Listener) (i : nat) (it : item) (p : prog) (now : Z) (res : handled) (sent : bool) : Listener :=
  let go s p := set_worker s i (WRun it p) in
  match p with
  | Done => set_worker s i WIdle
  | Note reason k => go (setError s reason) k
  | CallLimit src k => let '(lim, ok) := Allow (li_limit s) now src in go (set_limit s lim) (k ok)
  | CallBegin key fp k =>
    let '(c, got) := Begin (li_cache s) now key fp in go (set_cache s c (EvBegin now it key fp got)) (k got)
  | CallHandle req k => go (add_log s (EvHandle it req res)) (k res)
  | CallAbandon key fp k => go (set_cache s (Abandon (li_cache s) key fp) (EvAbandon now it key fp)) k
  | CallComplete key fp response k =>
    go (set_cache s (Complete (li_cache s) now key fp response) (EvComplete now it key fp response)) k
  | WriteTo dst payload k => go (if sent then add_log s (EvSent it dst payload) else setError s "send") k
  end.

Definition step (l : listenerConf) (s : Listener) (e : label) : option Listener :=
  if li_crashed s then None else
  match e, li_recv s with
  | LRead datagram src, RRead =>
    if li_closed s then None else
    let buf := take (Z.to_nat (rl_MaxPacketBytes (lc_settings l))) datagram in
    Some (if len buf =? 0 then s else read_item s (mkItem (li_next s) buf src))
  | LReadError, RRead =>
    let s := if li_closed s then s else setError s "recv" in
    Some (closeQueue (set_queue s (li_queue s) RDone))
  | LEnqueue, RGot it =>
    if li_queueClosed s then Some (crash s)
    else if len (li_queue s) <? rl_QueueCapacity (lc_settings l) then Some (set_queue s (li_queue s ++ [it]) RRead)
    else Some (set_queue (setError s ReasonOverload) (li_queue s) RRead)
  | LCloseConn, _ => Some (closeConn s)
  | LClose, _ => Some (closeQueue (closeConn s))
  | LTake i snap secrets, _ =>
    match li_workers s !! i, li_queue s with
    | Some WIdle, it :: q =>
      Some (set_worker (add_log (set_queue s q (li_recv s)) (EvTake it snap secrets)) i
              (WRun it (process l snap secrets (it_buf it) (it_src it))))
    | _, _ => None
    end
  | LWork i now res sent, _ =>
    match li_workers s !! i with Some (WRun it p) => Some (work s i it p now res sent) | _ => None end
  | LPanic i, _ =>
    match li_workers s !! i with
    | Some (WRun _ (CallHandle _ _)) => Some (set_worker (setError s "internal") i WIdle)
    | _ => None
    end
  | LExit i, _ =>
    match li_workers s !! i, li_queue s with
    | Some WIdle, [] => if li_queueClosed s then Some (set_worker s i WExit) else None
    | _, _ => None
    end
  | _, _ => None
  end.

Fixpoint run (l : listenerConf) (s : Listener) (es : list label) : option Listener :=
  match es with [] => Some s | e :: es => match step l s e with Some s => run l s es | None => None end end.

(** ** What a snapshot, a request and a reply are meant to be *)

Definition role_name (role : ListenerRole) : string :=
  match role with
  | RoleAccess => Domain.RoleAccess
  | RoleAccounting => Domain.RoleAccounting
  | RoleDynamicAuthorization => Domain.RoleDynamicAuthorization
  | RoleOther => ""
  end.

(** As [state] publishes it: every index is compiled from the clients, whose
    identifiers, and whose endpoints' identifiers, are distinct. *)
Record snapshot_compiled (s : Snapshot) (clients : list Client) : Prop := {
  sc_ids : NoDup (map c_ID clients);
  sc_endpoints : forall c, c ∈ clients -> NoDup (map ep_ID (c_Endpoints c));
  sc_clients : sn_clients s = list_to_map (map (fun c => (c_ID c, c)) clients);
  sc_access : forall idx, sn_radiusAccessIndex s = Some idx -> CompileRADIUSIndex clients Domain.RoleAccess CarrierRADIUSUDP = Ok idx;
  sc_acct : forall idx, sn_radiusAcctIndex s = Some idx -> CompileRADIUSIndex clients Domain.RoleAccounting CarrierRADIUSUDP = Ok idx;
  sc_dynauth : forall idx, sn_radiusDynAuthIndex s = Some idx -> CompileRADIUSIndex clients Domain.RoleDynamicAuthorization CarrierRADIUSUDP = Ok idx;
}.

(** The octets of the datagram up to its declared length. *)
Definition declared_octets (buf : bytes) : bytes := slice buf 0 (be_u16 (index buf 2) (index buf 3)).

(** The client that owns an address: the longest prefix, then the least
    priority number, of those that serve the role. *)
Definition owns (role : string) (clients : list Client) (ip : bytes) (c : Client) (ep : ClientEndpoint) : Prop :=
  serves EndpointTransportUDP role clients c ep /\
  exists p, covers (c_SourceCIDRs c) ip p /\
  forall c' ep' p', serves EndpointTransportUDP role clients c' ep' -> covers (c_SourceCIDRs c') ip p' ->
    c' = c \/ p' < p \/ (p' = p /\ c_Priority c < c_Priority c').

(** The request that a datagram is, when it is one of the client that owns its
    source address and is authenticated by that client's secret. *)
Definition authentic (l : listenerConf) (it : item) (snap : Snapshot) (secrets : SecretLookup) (req : ServerRequest) : Prop :=
  exists clients c ep r secret pkt,
    snapshot_compiled snap clients
    /\ owns (role_name (lc_role l)) clients (ua_IP (it_src it)) c ep
    /\ ep_RADIUS ep = Some r /\ secrets (re_SharedSecret r) = Some secret /\ secret <> []
    /\ RadiusCodec.Decode (declared_octets (it_buf it)) = Ok pkt /\ codeAllowed (lc_role l) (Code pkt) = true
    /\ req = mkServerRequest
         (mkRequest (lc_role l) pkt (declared_octets (it_buf it)) secret
            (is_dynauth (lc_role l) || re_RequireMessageAuthenticator r) (re_LimitProxyState r))
         snap CarrierRADIUSUDP (c_ID c) (ep_ID ep) (lc_id l) (re_AllowedAuthenticationMethods r)
         (peerAddrPort (it_src it)) (re_AcceptStatusTypes r)
    /\ ma_policy (sr_Request req)
    /\ (lc_role l = RoleAccounting -> Authenticator pkt = md5 (wire (zero_MA (with_auth (make_bytes 16) pkt)) ++ secret)).

Definition req_slot (l : listenerConf) (it : item) (req : ServerRequest) : slotKey :=
  slot_of l (sr_EndpointID req) (UDPAddr_String (it_src it)) (Req_Packet (sr_Request req)).
Definition req_fp (req : ServerRequest) : fingerprint := fingerprintOf (Declared (sr_Request req)).

(** ** Authentication of a datagram *)

Lemma DecodeBounded_default d m p :
  Forall is_u8 d -> DecodeBounded d (mkBounds m 0 0) = Ok p -> RadiusCodec.Decode d = Ok p.
Proof.
  intros Hd (Hok & Hfit & pad & ->)%DecodeBounded_Ok; [|done]. apply DecodeBounded_wire; [done|].
  destruct Hfit as [Hb Hn]. split; [exact Hb|]. pose proof (normalized_range (mkBounds m 0 0)) as [ [_ ?] _].
  etransitivity; [exact Hn|]. done.
Qed.

Lemma radiusEndpoint_in c t ep : radiusEndpoint c t = Some ep -> ep ∈ c_Endpoints c /\ ep_RADIUS ep <> None.
Proof.
  unfold radiusEndpoint. generalize (ToLower (TrimSpace t)). intros w. induction (c_Endpoints c) as [|e eps IH]; [done|].
  cbn [radiusEndpoint_loop]. rewrite elem_of_cons.
  destruct (_ || bool_decide (ep_RADIUS e = None)) eqn:E; [intros H; apply IH in H; tauto|]. apply orb_false_iff in E as [_ E].
  apply bool_decide_eq_false in E. destruct (_ || _); [by intros [= <-]; split; [left|]|intros H; apply IH in H; tauto].
Qed.

Lemma endpointByID_unique eps ep : NoDup (map ep_ID eps) -> ep ∈ eps -> endpointByID eps (ep_ID ep) = ep_RADIUS ep.
Proof.
  induction eps as [|e eps IH]; [by intros _ ?%elem_of_nil|]. cbn [map endpointByID].
  intros [Hn Hnd]%list.NoDup_cons [->|Hin]%elem_of_cons.
  - unfold str_eqb. rewrite bool_decide_true by done. cbn [negb]. destruct (ep_RADIUS e); [done|].
    clear IH Hnd. revert Hn. generalize (ep_ID e). intros id Hn. induction eps as [|e' eps IH]; [done|]. cbn [map endpointByID] in *.
    apply not_elem_of_cons in Hn as [Hne Hn]. unfold str_eqb. rewrite bool_decide_false by congruence. by apply IH.
  - assert (ep_ID e <> ep_ID ep) as Hne.
    { intros E. apply Hn. rewrite E. by apply list_elem_of_fmap_2. }
    unfold str_eqb. rewrite bool_decide_false by done. by apply IH.
Qed.

Lemma snapshot_client snap clients c :
  snapshot_compiled snap clients -> c ∈ clients -> sn_clients snap !! c_ID c = Some c.
Proof.
  intros Hs Hc. rewrite (sc_clients _ _ Hs). apply elem_of_list_to_map.
  - rewrite <- list_fmap_compose. apply (sc_ids _ _ Hs).
  - by apply (list_elem_of_fmap_2 (fun c => (c_ID c, c))).
Qed.

Lemma MatchRADIUS_owns snap clients role ip c epid :
  snapshot_compiled snap clients -> is_ip ip -> MatchRADIUS snap role CarrierRADIUSUDP ip = Ok (c, epid) ->
  exists ep, owns (role_name role) clients ip c ep /\ ep_ID ep = epid.
Proof.
  intros Hs Hip H. unfold MatchRADIUS in H. change (str_eqb CarrierRADIUSUDP CarrierRADIUSTLS) with false in H. cbn iota in H.
  assert (forall idx, CompileRADIUSIndex clients (role_name role) CarrierRADIUSUDP = Ok idx ->
    (let! m := RADIUSIndex_Match idx ip in match sn_clients snap !! m.1 with None => Err ErrNotFound | Some c => Ok (c, m.2) end)
    = Ok (c, epid) -> exists ep, owns (role_name role) clients ip c ep /\ ep_ID ep = epid) as Hsel.
  { intros idx Hc Hm. pose proof (udp_selection clients _ _ idx ip (sc_ids _ _ Hs) Hc Hip) as Hu.
    destruct (RADIUSIndex_Match idx ip) as [ [id e]|]; [|done]. destruct Hu as (c0 & ep & p & Hserves & <- & <- & Hcov & Hbest).
    cbn [rbind fst snd] in Hm. rewrite (snapshot_client snap clients c0 Hs) in Hm by apply Hserves.
    apply Ok_inj in Hm as [= -> <-]. exists ep. split; [|done]. split; [done|]. by exists p. }
  destruct role; cbn [rbind] in H; [| | |done].
  - destruct (sn_radiusAccessIndex snap) as [idx|] eqn:E; [|done]. by apply (Hsel idx); [apply (sc_access _ _ Hs)|].
  - destruct (sn_radiusAcctIndex snap) as [idx|] eqn:E; [|done]. by apply (Hsel idx); [apply (sc_acct _ _ Hs)|].
  - destruct (sn_radiusDynAuthIndex snap) as [idx|] eqn:E; [|done]. by apply (Hsel idx); [apply (sc_dynauth _ _ Hs)|].
Qed.

Lemma CheckAccountingIntegrity_ok secret d p :
  Forall is_u8 d -> RadiusCodec.Decode d = Ok p -> CheckAccountingIntegrity secret d p = ""%string ->
  Authenticator p = md5 (wire (zero_MA (with_auth (make_bytes 16) p)) ++ secret).
Proof.
  intros Hd (Hok & Hfit & pad & ->)%DecodeBounded_Ok; [|done]. unfold CheckAccountingIntegrity.
  destruct (is_ok (ValidateAccountingRequestAuthenticator _ _)) eqn:E; [|done]. intros _.
  apply is_ok_unit, ValidateAccountingRequestAuthenticator_wire in E; [tauto|done|done].
Qed.

(** [note] ends the program. *)
Lemma note_cases r : note r = Done \/ note r = Note r Done.
Proof. unfold note. destruct (str_eqb r ""); [by left|by right]. Qed.

Inductive is_note : prog -> Prop := is_note_intro r : is_note (note r).

Lemma str_eqb_true a b : str_eqb a b = true <-> a = b.
Proof. unfold str_eqb. apply bool_decide_eq_true. Qed.

Section item.
Context (l : listenerConf) (it : item) (snap : Snapshot) (clients : list Client) (secrets : SecretLookup).
Hypothesis (Hs : snapshot_compiled snap clients).
Hypothesis (Hu8 : Forall is_u8 (it_buf it)).

Definition begin_prog (req : ServerRequest) : prog :=
  CallBegin (req_slot l it req) (req_fp req) (process_lookup req (req_slot l it req) (req_fp req) (it_src it)).

(** What [process_admitted] comes to. *)
Lemma process_admitted_shape c ep :
  owns (role_name (lc_role l)) clients (ua_IP (it_src it)) c ep ->
  let p := process_admitted l snap secrets c (ep_ID ep) (declared_octets (it_buf it)) (it_src it) in
  is_note p \/ exists req, authentic l it snap secrets req /\ p = begin_prog req.
Proof.
  intros Ho p. unfold p, process_admitted. clear p. pose proof Ho as ((Hc & _ & Hep & _) & _).
  apply radiusEndpoint_in in Hep as [Hin Hr]. destruct (ep_RADIUS ep) as [r|] eqn:Er; [|done].
  assert (endpointByID (c_Endpoints c) (ep_ID ep) = Some r) as Hid.
  { rewrite (endpointByID_unique _ ep); [done| |done]. by apply (sc_endpoints _ _ Hs). }
  unfold lookupRADIUSSecret. rewrite Hid. destruct (secrets (re_SharedSecret r)) as [ [|s0 secret]|] eqn:Esec; [left; constructor| |left; constructor].
  destruct (DecodeBounded _ _) as [pkt|] eqn:Ed; [|left; constructor].
  assert (Forall is_u8 (declared_octets (it_buf it))) as Hb by (by apply Forall_take, Forall_drop).
  apply DecodeBounded_default in Ed; [|done].
  destruct (codeAllowed (lc_role l) (Code pkt)) eqn:Ec; [|left; constructor]. cbn [negb].
  destruct (str_eqb _ "") eqn:Ea; [|left; constructor]. cbn [negb]. apply str_eqb_true in Ea.
  unfold server_request, endpointAccessPolicy, radiusAcceptStatusTypes. rewrite Hid.
  destruct (str_eqb (CheckIntegrity _) "") eqn:Ei; [|left; constructor]. cbn [negb]. apply str_eqb_true in Ei.
  match type of Ei with CheckIntegrity (sr_Request ?q) = _ => right; exists q end. split; [|reflexivity].
  exists clients, c, ep, r, (s0 :: secret), pkt. split_and!; try done.
  - apply CheckIntegrity_policy in Ei; [done|]. by split.
  - intros Hrole. unfold is_accounting in Ea. rewrite Hrole, bool_decide_true in Ea by done.
    by apply (CheckAccountingIntegrity_ok _ _ _ Hb Ed).
Qed.

Lemma process_shape buf_snap :
  buf_snap = Some snap \/ buf_snap = None -> is_ip (ua_IP (it_src it)) ->
  let p := process l buf_snap secrets (it_buf it) (it_src it) in
  is_note p \/ exists k, p = CallLimit (UDPAddr_String (it_src it)) k /\ is_note (k false) /\
    (is_note (k true) \/ exists req, authentic l it snap secrets req /\ k true = begin_prog req).
Proof.
  intros Hsn Hip p. unfold p, process. clear p. destruct (_ <? HeaderSize); [left; constructor|].
  destruct (DecodeHeader (it_buf it)) as [h|] eqn:Eh; [|left; constructor].
  destruct (_ || _ || _); [left; constructor|].
  destruct Hsn as [-> | ->]; [|left; constructor].
  destruct (MatchRADIUS _ _ _ _) as [ [c epid]|] eqn:Em; [|left; constructor].
  apply (MatchRADIUS_owns snap clients) in Em as (ep & Ho & <-); [|done|done].
  right. eexists. split; [reflexivity|]. split; [constructor|]. cbn [negb].
  assert (slice (it_buf it) 0 (H_Length h) = declared_octets (it_buf it)) as ->; [|by apply process_admitted_shape].
  unfold DecodeHeader in Eh. destruct (_ <? HeaderSize); [done|]. by apply Ok_inj in Eh as <-.
Qed.
End item.

(** ** The log *)

Definition ev_item (e : event) : item :=
  match e with
  | EvRead it | EvTake it _ _ | EvBegin _ it _ _ _ | EvHandle it _ _ | EvComplete _ it _ _ _ | EvAbandon _ it _ _ | EvSent it _ _ => it
  end.
(** The order of one datagram's events. *)
Definition ev_level (e : event) : nat :=
  match e with
  | EvRead _ => 0 | EvTake _ _ _ => 1 | EvBegin _ _ _ _ _ => 2 | EvHandle _ _ _ => 3
  | EvComplete _ _ _ _ _ | EvAbandon _ _ _ _ => 4 | EvSent _ _ _ => 5
  end.

(** The cache operations of a log, oldest first. *)
Definition ev_op (e : event) : list (Z * op) :=
  match e with
  | EvBegin t _ key fp _ => [(t, OpBegin key fp)]
  | EvComplete t _ key fp r => [(t, OpComplete key fp r)]
  | EvAbandon t _ key fp => [(t, OpAbandon key fp)]
  | _ => []
  end.
Fixpoint ops (log : list event) : list (Z * op) := match log with [] => [] | e :: log => ops log ++ ev_op e end.

Definition cache_of (l : listenerConf) (log : list event) : Cache :=
  RadiusCache.run (newCache (rl_RetransmissionCacheEntries (lc_settings l)) (rl_RetransmissionCacheBytes (lc_settings l))
    (rl_RetransmissionTTL (lc_settings l))) (ops log).

Definition missed (got : Lookup) : Prop := got = LookupMiss \/ got = LookupPurged.

(** The datagram is an authentic request, for that slot and fingerprint. *)
Definition requested (l : listenerConf) (log : list event) (it : item) (key : slotKey) (fp : fingerprint) (req : ServerRequest) : Prop :=
  exists snap secrets, EvTake it (Some snap) secrets ∈ log /\ authentic l it snap secrets req
  /\ key = req_slot l it req /\ fp = req_fp req.

(** The handler answered such a request with these octets. *)
Definition answered (l : listenerConf) (log : list event) (key : slotKey) (fp : fingerprint) (payload : bytes) : Prop :=
  exists it req reason sat, EvHandle it req (ActionReply reason payload, sat) ∈ log /\ requested l log it key fp req.

(** No event of the datagram at this level or above. *)
Definition below (log : list event) (id : nat) (n : nat) : Prop :=
  forall e, e ∈ log -> it_id (ev_item e) = id -> (ev_level e < n)%nat.

Definition justified (l : listenerConf) (log : list event) (e : event) : Prop :=
  below log (it_id (ev_item e)) (ev_level e) /\
  match e with
  | EvRead _ => True
  | EvTake it _ _ => EvRead it ∈ log
  | EvBegin t it key fp got => got = (Begin (cache_of l log) t key fp).2 /\ exists req, requested l log it key fp req
  | EvHandle it req res => exists t key fp got, EvBegin t it key fp got ∈ log /\ missed got /\ requested l log it key fp req
  | EvComplete _ it key fp r => exists req reason sat, EvHandle it req (ActionReply reason r, sat) ∈ log /\ requested l log it key fp req
  | EvAbandon _ it key fp => exists req res, EvHandle it req res ∈ log /\ requested l log it key fp req
  | EvSent it dst payload => dst = it_src it /\ EvRead it ∈ log /\
      exists key fp req, requested l log it key fp req /\ answered l log key fp payload
  end.

Fixpoint log_ok (l : listenerConf) (log : list event) : Prop :=
  match log with [] => True | e :: log => justified l log e /\ log_ok l log end.

(** ** The programs a worker can be at

    [stage log it n p]: [p] is part of [process] for [it], and its next call
    is at level [n] or above. *)
Inductive stage (l : listenerConf) (log : list event) (it : item) : nat -> prog -> Prop :=
| st_done n : stage l log it n Done
| st_note n r p : stage l log it n p -> stage l log it n (Note r p)
| st_limit src k : (forall b, stage l log it 2 (k b)) -> stage l log it 2 (CallLimit src k)
| st_begin req : requested l log it (req_slot l it req) (req_fp req) req -> stage l log it 2 (begin_prog l it req)
| st_handle t key fp got req :
    EvBegin t it key fp got ∈ log -> missed got -> requested l log it key fp req ->
    stage l log it 3 (CallHandle req (process_result key fp (it_src it)))
| st_abandon key fp req res p :
    EvHandle it req res ∈ log -> requested l log it key fp req -> stage l log it 5 p ->
    stage l log it 4 (CallAbandon key fp p)
| st_complete key fp req reason payload sat :
    EvHandle it req (ActionReply reason payload, sat) ∈ log -> requested l log it key fp req ->
    stage l log it 4 (CallComplete key fp payload (writeTo (it_src it) payload))
| st_write key fp req payload :
    requested l log it key fp req -> answered l log key fp payload ->
    stage l log it 5 (WriteTo (it_src it) payload Done).

Lemma requested_mono l log log' it key fp req : log ⊆ log' -> requested l log it key fp req -> requested l log' it key fp req.
Proof. intros H (snap & secrets & Ht & ?). exists snap, secrets. split; [by apply H|done]. Qed.
Lemma answered_mono l log log' key fp r : log ⊆ log' -> answered l log key fp r -> answered l log' key fp r.
Proof. intros H (it & req & reason & sat & Hh & Hr). exists it, req, reason, sat. split; [by apply H|]. by eapply requested_mono. Qed.
Lemma stage_mono l log log' it n p : log ⊆ log' -> stage l log it n p -> stage l log' it n p.
Proof.
  intros H. induction 1; [constructor|by constructor|by constructor|..].
  - constructor. by eapply requested_mono.
  - by eapply st_handle; [apply H| |eapply requested_mono].
  - by eapply st_abandon; [apply H|eapply requested_mono|].
  - by eapply st_complete; [apply H|eapply requested_mono].
  - by eapply st_write; [eapply requested_mono|eapply answered_mono].
Qed.

Lemma is_note_stage l log it n p : is_note p -> stage l log it n p.
Proof. intros [r]. destruct (note_cases r) as [-> | ->]; repeat constructor. Qed.

Lemma below_mono log id n m : (n <= m)%nat -> below log id n -> below log id m.
Proof. intros H Hb e He Hid. specialize (Hb e He Hid). lia. Qed.
Lemma below_cons log id n e : below log id n -> (it_id (ev_item e) = id -> (ev_level e < n)%nat) -> below (e :: log) id n.
Proof. intros Hb He e' [->|Hin]%elem_of_cons Hid; [by apply He|by apply Hb]. Qed.

(** ** The cache holds only answers *)

Lemma cache_of_cons l e log : cache_of l (e :: log) = RadiusCache.run (cache_of l log) (ev_op e).
Proof. unfold cache_of, RadiusCache.run. cbn [ops]. by rewrite List.fold_left_app. Qed.
Lemma cache_of_inv l log : cache_inv (cache_of l log).
Proof. apply run_inv, newCache_inv. Qed.

Definition truth (l : listenerConf) (c : Cache) (log : list event) : Prop :=
  forall k e, entries c !! k = Some e -> ce_pending e = false -> answered l log k (ce_fp e) (ce_response e).

Lemma truth_mono l c log log' : log ⊆ log' -> truth l c log -> truth l c log'.
Proof. intros H Ht k e Hk Hp. by eapply answered_mono; [|apply Ht]. Qed.

Lemma truth_Begin l c log now k fp : cache_inv c -> truth l c log -> truth l (Begin c now k fp).1 log.
Proof.
  intros Hinv Ht k' e Hk Hp. apply Begin_entry in Hk as [ [-> ->]|Hk]; [done|by apply Ht|apply Hinv].
Qed.

Lemma truth_Complete l c log now k fp r : answered l log k fp r -> truth l c log -> truth l (Complete c now k fp r) log.
Proof.
  intros Ha Ht k' e Hk Hp. unfold Complete in Hk. destruct (entries c !! k) as [e0|] eqn:E; [|by apply Ht].
  destruct (negb (ce_pending e0) || negb (sameFP (ce_fp e0) fp)) eqn:Eb; [by apply Ht|]. bool_hyps.
  destruct (_ >? _) in Hk; [apply removeLocked_lookup in Hk as [_ Hk]; by apply Ht|].
  cbn [entries] in Hk. apply lookup_insert_Some in Hk as [ [<- <-]|[_ Hk] ]; [|by apply Ht].
  match goal with H : sameFP _ _ = true |- _ => apply sameFP_eq in H; rewrite <- H in Ha end. done.
Qed.

Lemma truth_Abandon l c log k fp : truth l c log -> truth l (Abandon c k fp) log.
Proof.
  intros Ht k' e Hk Hp. unfold Abandon in Hk. destruct (entries c !! k) as [e0|]; [|by apply Ht].
  destruct (negb _) in Hk; [by apply Ht|]. apply removeLocked_lookup in Hk as [_ Hk]. by apply Ht.
Qed.

(** ** One call of a worker *)

Lemma writeTo_stage l log it key fp req payload :
  requested l log it key fp req -> answered l log key fp payload -> stage l log it 5 (writeTo (it_src it) payload).
Proof. intros Hr Ha. unfold writeTo. destruct (_ =? _); [constructor|by eapply st_write]. Qed.

Lemma result_stage l log it key fp req res :
  EvHandle it req res ∈ log -> requested l log it key fp req -> stage l log it 4 (process_result key fp (it_src it) res).
Proof.
  intros Hh Hr. unfold process_result. destruct res as [res sat]. cbn [fst snd].
  assert (stage l log it 4 match res with
    | ActionReply reason response =>
      if len response =? 0 then CallAbandon key fp (note reason) else
      let k := CallComplete key fp response (writeTo (it_src it) response) in
      if str_eqb reason ReasonAmbiguousIdentity then Note reason k else k
    | ActionDiscard reason => CallAbandon key fp (note reason)
    end) as H; [|destruct sat; [by constructor|done]].
  destruct res as [reason|reason response].
  - eapply st_abandon; [done|done|]. apply is_note_stage. constructor.
  - destruct (_ =? _); [eapply st_abandon; [done|done|]; apply is_note_stage; constructor|].
    cbv zeta. destruct (str_eqb _ _); [constructor|]; by eapply st_complete.
Qed.

Lemma lookup_stage l log t it key fp got req :
  EvBegin t it key fp got ∈ log -> requested l log it key fp req ->
  (forall r, got = LookupHit r -> answered l log key fp r) ->
  stage l log it 3 (process_lookup req key fp (it_src it) got) \/ stage l log it 5 (process_lookup req key fp (it_src it) got).
Proof.
  intros Hb Hr Hh. destruct got; cbn [process_lookup].
  - left. eapply st_handle; [exact Hb|by left|done].
  - right. eapply writeTo_stage; [done|by apply Hh].
  - left. constructor.
  - left. apply is_note_stage. constructor.
  - left. eapply st_handle; [exact Hb|by right|done].
Qed.

(** What a step of a worker leaves behind. *)
Definition worker_ok (l : listenerConf) (log : list event) (w : worker) : Prop :=
  match w with
  | WRun it p => EvRead it ∈ log /\ exists n, (1 < n)%nat /\ stage l log it n p /\ below log (it_id it) n
  | _ => True
  end.

Definition core_ok (l : listenerConf) (c : Cache) (log : list event) : Prop :=
  c = cache_of l log /\ truth l c log /\ log_ok l log.

Lemma core_add l c log e c' :
  core_ok l c log -> justified l log e -> c' = RadiusCache.run c (ev_op e) -> truth l c' (e :: log) -> core_ok l c' (e :: log).
Proof. intros (-> & Ht & Hl) Hj -> Ht'. split_and!; [by rewrite cache_of_cons|done|by split]. Qed.

Definition same_rest (s s' : Listener) : Prop :=
  li_queue s' = li_queue s /\ li_recv s' = li_recv s /\ li_next s' = li_next s.

(** The worker's own events, and nothing else. *)
Definition adds (it : item) (log log' : list event) : Prop :=
  exists evs, log' = evs ++ log /\ forall e, e ∈ evs -> it_id (ev_item e) = it_id it.

Lemma adds_one it log e : ev_item e = it -> adds it log (e :: log).
Proof. intros He. exists [e]. split; [done|]. intros e' ->%list_elem_of_singleton. by rewrite He. Qed.
Lemma adds_none it log : adds it log log.
Proof. exists []. split; [done|]. by intros e ?%elem_of_nil. Qed.

Lemma next_ok l log e it n n' p :
  (1 < n')%nat -> EvRead it ∈ log -> ev_item e = it -> below log (it_id it) n -> (n <= n')%nat -> (ev_level e < n')%nat ->
  stage l (e :: log) it n' p -> worker_ok l (e :: log) (WRun it p).
Proof.
  intros H1 Hr He Hb Hn Hl Hs. split; [by right|]. exists n'. split_and!; [done|done|].
  apply below_cons; [by apply (below_mono _ _ n)|done].
Qed.

Lemma work_spec l s i it p now res sent :
  core_ok l (li_cache s) (li_log s) -> worker_ok l (li_log s) (WRun it p) ->
  let s' := work s i it p now res sent in
  same_rest s s' /\ core_ok l (li_cache s') (li_log s') /\ adds it (li_log s) (li_log s')
  /\ exists w, li_workers s' = <[i := w]> (li_workers s) /\ worker_ok l (li_log s') w
     /\ forall it' p', w = WRun it' p' -> it' = it.
Proof.
  intros Hcore (Hread & n & Hn & Hst & Hbel). pose proof Hcore as (Hc & Ht & Hl).
  assert (cache_inv (li_cache s)) as Hinv by (rewrite Hc; apply cache_of_inv).
  assert (forall e, li_log s ⊆ e :: li_log s) as Hsub by (intros e x Hx; by right).
  inversion Hst; subst; cbv zeta; cbn [work].
  - (split; [done|split; [done|split; [apply adds_none|] ] ]). by exists WIdle.
  - (split; [done|split; [done|split; [apply adds_none|] ] ]). eexists. split; [reflexivity|split; [|by intros ? ? [= -> _] ] ].
    split; [done|]. exists n. by split_and!.
  - destruct (Allow (li_limit s) now src) as [lim ok]. (split; [done|split; [done|split; [apply adds_none|] ] ]).
    eexists. split; [reflexivity|split; [|by intros ? ? [= -> _] ] ]. split; [done|]. by exists 2%nat.
  - unfold begin_prog. cbn [work]. destruct (Begin _ _ _ _) as [c got] eqn:Eb.
    set (ev := EvBegin now it (req_slot l it req) (req_fp req) got).
    assert (c = (Begin (li_cache s) now (req_slot l it req) (req_fp req)).1) as Ec by by rewrite Eb.
    assert (got = (Begin (li_cache s) now (req_slot l it req) (req_fp req)).2) as Eg by by rewrite Eb.
    (split; [done|split; [|split; [by apply adds_one|] ] ]).
    + apply (core_add l (li_cache s)); [done| |done|].
      * split; [done|]. split; [by rewrite <- Hc|by exists req].
      * subst c. apply (truth_mono l _ (li_log s)); [apply Hsub|]. by apply truth_Begin.
    + eexists. split; [reflexivity|split; [|by intros ? ? [= -> _] ] ].
      cbn [li_log set_cache set_worker]. assert (requested l (ev :: li_log s) it (req_slot l it req) (req_fp req) req) as Hr
        by (by apply (requested_mono l (li_log s))).
      destruct (lookup_stage l (ev :: li_log s) now it _ _ got req (list_elem_of_here _ _) Hr) as [H1|H1].
      * intros r ->. apply (answered_mono l (li_log s)); [apply Hsub|].
        apply symmetry, Begin_hit in Eg as (e & He & <- & Hp & <-); [|apply Hinv]. by apply Ht.
      * by apply (next_ok _ _ _ _ 2 3); [lia| | | |lia|cbn; lia|].
      * by apply (next_ok _ _ _ _ 2 5); [lia| | | |lia|cbn; lia|].
  - (split; [done|split; [|split; [by apply adds_one|] ] ]).
    + apply (core_add l (li_cache s)); [done| |done|by apply (truth_mono l _ (li_log s))].
      split; [done|]. by exists t, key, fp, got.
    + eexists. split; [reflexivity|split; [|by intros ? ? [= -> _] ] ].
      apply (next_ok _ _ _ _ 3 4); [lia|done|done|done|lia|cbn; lia|].
      eapply result_stage; [left|by apply (requested_mono l (li_log s))].
  - (split; [done|split; [|split; [by apply adds_one|] ] ]).
    + apply (core_add l (li_cache s)); [done| |done|apply (truth_mono l _ (li_log s)); [apply Hsub|by apply truth_Abandon] ].
      split; [done|]. by exists req, res0.
    + eexists. split; [reflexivity|split; [|by intros ? ? [= -> _] ] ].
      apply (next_ok _ _ _ _ 4 5); [lia|done|done|done|lia|cbn; lia|]. by apply (stage_mono l (li_log s)).
  - assert (answered l (li_log s) key fp payload) as Ha by by exists it, req, reason, sat.
    (split; [done|split; [|split; [by apply adds_one|] ] ]).
    + apply (core_add l (li_cache s)); [done| |done|apply (truth_mono l _ (li_log s)); [apply Hsub|by apply truth_Complete] ].
      split; [done|]. by exists req, reason, sat.
    + eexists. split; [reflexivity|split; [|by intros ? ? [= -> _] ] ].
      apply (next_ok _ _ _ _ 4 5); [lia|done|done|done|lia|cbn; lia|].
      eapply writeTo_stage; [by apply (requested_mono l (li_log s))|by apply (answered_mono l (li_log s))].
  - destruct sent.
    + (split; [done|split; [|split; [by apply adds_one|] ] ]).
      * apply (core_add l (li_cache s)); [done| |done|by apply (truth_mono l _ (li_log s))].
        split; [done|]. split; [done|split; [done|] ]. by exists key, fp, req.
      * eexists. split; [reflexivity|split; [|by intros ? ? [= -> _] ] ].
        apply (next_ok _ _ _ _ 5 6); [lia|done|done|done|lia|cbn; lia|constructor].
    + (split; [done|split; [done|split; [apply adds_none|] ] ]). eexists. split; [reflexivity|split; [|by intros ? ? [= -> _] ] ].
      split; [done|]. exists 5%nat. split_and!; [lia|constructor|done].
Qed.

(** ** The invariant *)

Definition worker_item (w : worker) : option item := match w with WRun it _ => Some it | _ => None end.
Definition recv_items (r : receiver) : list item := match r with RGot it => [it] | _ => [] end.
Definition waiting (s : Listener) : list item := recv_items (li_recv s) ++ li_queue s.
Definition running (ws : list worker) : list item := omap worker_item ws.
Definition ids (s : Listener) : list nat := map it_id (waiting s ++ running (li_workers s)).

Definition good_item (it : item) : Prop := Forall is_u8 (it_buf it) /\ is_ip (ua_IP (it_src it)).

Record listener_inv (l : listenerConf) (s : Listener) : Prop := {
  iv_core : core_ok l (li_cache s) (li_log s);
  iv_queue : len (li_queue s) <= rl_QueueCapacity (lc_settings l);
  iv_pool : length (li_workers s) = Z.to_nat (rl_Workers (lc_settings l));
  iv_ids : NoDup (ids s);
  iv_next : forall id, id ∈ ids s -> (id < li_next s)%nat;
  iv_log : forall e, e ∈ li_log s -> (it_id (ev_item e) < li_next s)%nat;
  iv_waiting : forall it, it ∈ waiting s -> good_item it /\ EvRead it ∈ li_log s /\ below (li_log s) (it_id it) 1;
  iv_workers : forall w, w ∈ li_workers s -> worker_ok l (li_log s) w;
}.

(** What the environment may do: octets, an address of the socket, a
    published snapshot. *)
Definition label_ok (e : label) : Prop :=
  match e with
  | LRead datagram src => Forall is_u8 datagram /\ is_ip (ua_IP src)
  | LTake _ (Some snap) _ => exists clients, snapshot_compiled snap clients
  | _ => True
  end.

Lemma delete_insert_list {A} (l : list A) i x : delete i (<[i := x]> l) = delete i l.
Proof. revert i. induction l as [|y l IH]; intros [|i]; [done|done|done|]. cbn. f_equal. apply IH. Qed.

Lemma running_set ws i w0 w :
  ws !! i = Some w0 ->
  running (<[i := w]> ws) ≡ₚ option_list (worker_item w) ++ running (delete i ws)
  /\ running ws ≡ₚ option_list (worker_item w0) ++ running (delete i ws).
Proof.
  intros Hi. assert (i < length ws)%nat as Hlt by by eapply lookup_lt_Some.
  assert (forall w ws, running (w :: ws) = option_list (worker_item w) ++ running ws) as Hc
    by (intros x xs; unfold running; cbn [omap list_omap]; by destruct (worker_item x)).
  split.
  - rewrite <- (delete_insert_list ws i w), <- Hc. unfold running. f_equiv.
    apply delete_Permutation. by apply list_lookup_insert_eq.
  - rewrite <- Hc. unfold running. f_equiv. by apply delete_Permutation.
Qed.

Lemma worker_ok_other l log log' it w :
  adds it log log' -> (forall it', worker_item w = Some it' -> it_id it' <> it_id it) -> worker_ok l log w -> worker_ok l log' w.
Proof.
  intros (evs & -> & He) Hne. destruct w as [|it' p|]; [done| |done]. intros (Hr & n & Hn & Hs & Hb).
  assert (log ⊆ evs ++ log) as Hsub by set_solver. specialize (Hne it' eq_refl).
  split; [by apply Hsub|]. exists n. split_and!; [done|by apply (stage_mono l log)|].
  intros e [He'|Hin]%elem_of_app Hid; [|by apply Hb]. destruct Hne. rewrite <- Hid. by apply He.
Qed.

Lemma below_adds it id log log' n : adds it log log' -> id <> it_id it -> below log id n -> below log' id n.
Proof.
  intros (evs & -> & He) Hne Hb e [He'|Hin]%elem_of_app Hid; [|by apply Hb]. destruct Hne. rewrite <- Hid. by apply He.
Qed.

Lemma elem_of_running ws i it p : ws !! i = Some (WRun it p) -> it ∈ running ws.
Proof. intros H. apply list_elem_of_omap. exists (WRun it p). split; [by eapply list_elem_of_lookup_2|done]. Qed.

(** Distinct workers hold distinct datagrams. *)
Lemma running_distinct ws i w0 w it it' :
  NoDup (map it_id (running ws)) -> ws !! i = Some w0 -> worker_item w0 = Some it ->
  w ∈ delete i ws -> worker_item w = Some it' -> it_id it' <> it_id it.
Proof.
  intros Hnd Hi H0 Hw H'. destruct (running_set ws i w0 WIdle Hi) as [_ Hp]. rewrite H0 in Hp.
  rewrite Hp in Hnd. cbn [option_list app map] in Hnd. apply list.NoDup_cons in Hnd as [Hn _].
  intros E. apply Hn. rewrite <- E. apply list_elem_of_fmap_2. apply list_elem_of_omap. by exists w.
Qed.

Lemma elem_of_insert_worker (ws : list worker) (i : nat) (w w' : worker) : w' ∈ <[i := w]> ws -> (i < length ws)%nat -> w' = w \/ w' ∈ delete i ws.
Proof.
  intros Hin Hi. assert (<[i := w]> ws ≡ₚ w :: delete i ws) as Hp.
  { rewrite <- (delete_insert_list ws i w). apply delete_Permutation. by apply list_lookup_insert_eq. }
  rewrite Hp in Hin. by apply elem_of_cons in Hin.
Qed.

(** A worker that moves and touches nothing but its own datagram. *)
Lemma inv_worker l s s' i it p w :
  listener_inv l s -> li_workers s !! i = Some (WRun it p) -> same_rest s s' ->
  core_ok l (li_cache s') (li_log s') -> adds it (li_log s) (li_log s') ->
  li_workers s' = <[i := w]> (li_workers s) -> worker_ok l (li_log s') w -> (forall it' p', w = WRun it' p' -> it' = it) ->
  listener_inv l s'.
Proof.
  intros [Hc Hq Hp Hids Hnx Hlog Hwt Hws] Hi (Eq & Er & En) Hc' Hadd Ew Hw Hit.
  assert (i < length (li_workers s))%nat as Hlt by by eapply lookup_lt_Some.
  destruct (running_set (li_workers s) i _ w Hi) as [P1 P2].
  assert (waiting s' = waiting s) as Ewt by by unfold waiting; rewrite Eq, Er.
  assert (forall it', it' ∈ waiting s -> it_id it' <> it_id it) as Hwne.
  { intros it' Hin E. unfold ids in Hids. rewrite map_app in Hids. apply list.NoDup_app in Hids as (_ & Hd & _).
    apply (Hd (it_id it')); [by apply list_elem_of_fmap_2|]. rewrite E. apply list_elem_of_fmap_2. by eapply elem_of_running. }
  assert (NoDup (map it_id (running (li_workers s)))) as Hndw.
  { unfold ids in Hids. rewrite map_app in Hids. by apply list.NoDup_app in Hids as (_ & _ & ?). }
  assert (forall id, id ∈ ids s' -> id ∈ ids s) as Hsub.
  { intros id. unfold ids. rewrite Ewt, Ew, !map_app, P1, P2, !elem_of_app.
    intros [H|H]; [by left|right]. rewrite map_app in H |- *. rewrite elem_of_app in *. cbn [option_list worker_item map] in *.
    destruct H as [H|H]; [|by right]. left. destruct w as [|it' p'|]; cbn in H; [by apply elem_of_nil in H| |by apply elem_of_nil in H].
    by rewrite (Hit it' p' eq_refl) in H. }
  split; [done|by rewrite Eq|by rewrite Ew, length_insert| | | | |].
  - unfold ids in *. rewrite Ewt, Ew. rewrite P1. rewrite P2 in Hids. cbn [option_list worker_item] in Hids.
    destruct w as [|it' p'|]; cbn [option_list worker_item app].
    + rewrite map_app in Hids |- *. cbn [app map] in Hids.
      apply list.NoDup_app in Hids as (H1 & H2 & [_ H3]%list.NoDup_cons). apply list.NoDup_app. split_and!; [done| |done].
      intros x Hx Hin. apply (H2 x Hx). by right.
    + by rewrite (Hit it' p' eq_refl).
    + rewrite map_app in Hids |- *. cbn [app map] in Hids.
      apply list.NoDup_app in Hids as (H1 & H2 & [_ H3]%list.NoDup_cons). apply list.NoDup_app. split_and!; [done| |done].
      intros x Hx Hin. apply (H2 x Hx). by right.
  - intros id Hid%Hsub. rewrite En. by apply Hnx.
  - destruct Hadd as (evs & -> & He). intros e [Hin|Hin]%elem_of_app; rewrite En; [|by apply Hlog].
    rewrite (He e Hin). apply Hnx. unfold ids. apply list_elem_of_fmap_2, elem_of_app. right. by eapply elem_of_running.
  - rewrite Ewt. intros it' Hin. destruct (Hwt it' Hin) as (? & ? & ?). split_and!; [done| |by apply (below_adds it _ (li_log s)); [|apply Hwne|] ].
    destruct Hadd as (evs & -> & _). apply elem_of_app. by right.
  - rewrite Ew. intros w' Hin. apply elem_of_insert_worker in Hin as [->|Hin]; [done| |done].
    apply (worker_ok_other l (li_log s) _ it); [done| |].
    + intros it' E. by eapply (running_distinct (li_workers s) i (WRun it p) w').
    + apply Hws. apply list_elem_of_lookup in Hin as [j Hj]. rewrite list_lookup_delete in Hj.
      destruct (decide (j < i)%nat); by eapply list_elem_of_lookup_2.
Qed.

Lemma process_stage l log it snap secrets :
  good_item it -> (match snap with Some s => exists clients, snapshot_compiled s clients | None => True end) ->
  EvTake it snap secrets ∈ log -> stage l log it 2 (process l snap secrets (it_buf it) (it_src it)).
Proof.
  intros [Hu Hip] Hsn Ht. destruct snap as [snap|].
  - destruct Hsn as [clients Hs].
    destruct (process_shape l it snap clients secrets Hs Hu (Some snap) (or_introl eq_refl) Hip) as [Hn|(k & -> & Hf & Hk)];
      [by apply is_note_stage|]. constructor. intros [|]; [|by apply is_note_stage].
    destruct Hk as [?|(req & Ha & ->)]; [by apply is_note_stage|]. constructor. by exists snap, secrets.
  - unfold process. destruct (_ <? _); [apply is_note_stage; constructor|].
    destruct (DecodeHeader _); [|apply is_note_stage; constructor].
    destruct (_ || _ || _); apply is_note_stage; constructor.
Qed.

Lemma inv_take l s i it q snap secrets :
  listener_inv l s -> label_ok (LTake i snap secrets) -> li_workers s !! i = Some WIdle -> li_queue s = it :: q ->
  listener_inv l (set_worker (add_log (set_queue s q (li_recv s)) (EvTake it snap secrets)) i
    (WRun it (process l snap secrets (it_buf it) (it_src it)))).
Proof.
  intros [Hc Hq Hp Hids Hnx Hlog Hwt Hws] Hlab Hi Eq.
  assert (i < length (li_workers s))%nat as Hlt by by eapply lookup_lt_Some.
  assert (it ∈ waiting s) as Hin by (unfold waiting; rewrite Eq; set_solver).
  destruct (Hwt it Hin) as (Hgood & Hread & Hbel).
  set (w := WRun it (process l snap secrets (it_buf it) (it_src it))).
  set (ev := EvTake it snap secrets). set (s' := set_worker _ _ _).
  destruct (running_set (li_workers s) i _ w Hi) as [P1 P2]. cbn [option_list worker_item app w] in P1, P2.
  assert (ids s' ≡ₚ ids s) as Hperm.
  { unfold ids, waiting, s'. cbn [li_recv li_queue li_workers set_worker add_log set_cache set_queue].
    rewrite Eq, !map_app, P1, P2. cbn [map app]. solve_Permutation. }
  split; unfold s'; cbn [li_recv li_queue li_workers li_cache li_log li_next set_worker add_log set_cache set_queue].
  - apply (core_add l (li_cache s)); [done| |done|].
    + split; [exact Hbel|done].
    + destruct Hc as (_ & Ht & _). apply (truth_mono l _ (li_log s)); [set_solver|done].
  - rewrite Eq, len_cons in Hq. lia.
  - by rewrite length_insert.
  - fold s'. by rewrite Hperm.
  - fold s'. intros id Hid. apply Hnx. by rewrite <- Hperm.
  - intros e [->|He]%elem_of_cons; [|by apply Hlog]. apply Hnx. unfold ids. apply list_elem_of_fmap_2, elem_of_app. by left.
  - intros it' Hin'. unfold waiting in Hin'. cbn in Hin'.
    assert (it' ∈ waiting s) as Hw' by (unfold waiting; rewrite Eq; set_solver).
    destruct (Hwt it' Hw') as (? & ? & ?). split_and!; [done|by right|].
    apply below_cons; [done|]. cbn. intros E. exfalso. unfold ids in Hids. rewrite map_app in Hids.
    apply list.NoDup_app in Hids as (Hnd & _ & _). unfold waiting in Hnd. rewrite Eq, map_app in Hnd. cbn [map] in Hnd.
    rewrite (Permutation_app_comm _ (_ :: _)) in Hnd. cbn [app] in Hnd. apply list.NoDup_cons in Hnd as [Hn _].
    apply Hn. rewrite E. apply elem_of_app in Hin' as [?|?]; apply elem_of_app; [right|left]; by apply list_elem_of_fmap_2.
  - intros w' [->|Hin']%elem_of_insert_worker; [| |done].
    + split; [by right|]. exists 2%nat. split_and!; [lia| |].
      * apply process_stage; [done|by destruct snap|left].
      * apply below_cons; [by apply (below_mono _ _ 1); [lia|]|cbn; lia].
    + apply (worker_ok_other l (li_log s) _ it); [by apply adds_one| |].
      * intros it' E Eid. unfold ids in Hids. rewrite map_app in Hids. apply list.NoDup_app in Hids as (_ & Hd & _).
        apply (Hd (it_id it)); [by apply list_elem_of_fmap_2|]. rewrite <- Eid. apply list_elem_of_fmap_2.
        rewrite P2. apply list_elem_of_omap. by exists w'.
      * apply Hws. apply list_elem_of_lookup in Hin' as [j Hj]. rewrite list_lookup_delete in Hj.
        destruct (decide (j < i)%nat); by eapply list_elem_of_lookup_2.
Qed.

(** Steps that only lose items or move the one just read to the queue. *)
Lemma inv_queue l s s' :
  listener_inv l s -> li_cache s' = li_cache s -> li_log s' = li_log s -> li_workers s' = li_workers s -> li_next s' = li_next s ->
  len (li_queue s') <= rl_QueueCapacity (lc_settings l) ->
  waiting s' ⊆+ waiting s -> listener_inv l s'.
Proof.
  intros [Hc Hq Hp Hids Hnx Hlog Hwt Hws] Ec El Ew En Hq' Hsub.
  assert (ids s' ⊆+ ids s) as Hids'.
  { unfold ids. rewrite Ew, !map_app. apply submseteq_skips_r. by apply fmap_submseteq. }
  split; rewrite ?Ec, ?El, ?Ew, ?En; try done.
  - apply submseteq_Permutation in Hids' as [k Hk]. rewrite Hk in Hids. by apply list.NoDup_app in Hids as (? & _).
  - intros id Hid. apply Hnx. by eapply elem_of_submseteq.
  - intros it Hin. apply Hwt. by eapply elem_of_submseteq.
Qed.

Lemma inv_read l s buf src :
  listener_inv l s -> li_recv s = RRead -> Forall is_u8 buf -> is_ip (ua_IP src) ->
  listener_inv l (read_item s (mkItem (li_next s) buf src)).
Proof.
  intros [Hc Hq Hp Hids Hnx Hlog Hwt Hws] Er Hu Hip. set (it := mkItem (li_next s) buf src).
  assert (ids (read_item s it) = li_next s :: ids s) as Ei by (unfold ids, waiting, read_item; cbn; by rewrite Er).
  assert (below (li_log s) (li_next s) 0) as Hfresh by (intros e He Hid; specialize (Hlog e He); lia).
  assert (forall it', it' ∈ waiting s \/ it' ∈ running (li_workers s) -> it_id it' <> li_next s) as Hold.
  { intros it' Hin E. assert (it_id it' < li_next s)%nat; [|lia]. apply Hnx. unfold ids. by apply list_elem_of_fmap_2, elem_of_app. }
  split; cbn [li_cache li_log li_workers li_queue li_next read_item].
  - apply (core_add l (li_cache s)); [done|by split|done|].
    destruct Hc as (_ & Ht & _). apply (truth_mono l _ (li_log s)); [set_solver|done].
  - done.
  - done.
  - rewrite Ei. apply list.NoDup_cons. split; [|done]. intros Hin%Hnx. lia.
  - rewrite Ei. intros id [->|Hin]%elem_of_cons; [lia|]. specialize (Hnx id Hin). lia.
  - intros e [->|He]%elem_of_cons; [cbn; lia|]. specialize (Hlog e He). lia.
  - intros it' Hin. unfold waiting in Hin. cbn in Hin. apply elem_of_cons in Hin as [->|Hin].
    + split; [done|]. split; [left|]. apply below_cons; [|cbn; lia]. by apply (below_mono _ _ 0); [lia|].
    + assert (it' ∈ waiting s) as Hw by (unfold waiting; rewrite Er; done). destruct (Hwt it' Hw) as (? & ? & ?).
      split_and!; [done|by right|]. apply below_cons; [done|]. cbn. intros E. exfalso. by apply (Hold it'); [left|].
  - intros w Hin. apply (worker_ok_other l (li_log s) _ it); [by apply adds_one| |by apply Hws].
    intros it' E. apply Hold. right. apply list_elem_of_omap. by exists w.
Qed.

Lemma listener_step_inv l s e s' :
  listener_inv l s -> label_ok e -> step l s e = Some s' -> listener_inv l s'.
Proof.
  intros Hinv Hlab Hst. unfold step in Hst. destruct (li_crashed s); [done|].
  destruct e as [d src| | | | |i snap secrets|i now res sent|i|i].
  - destruct (li_recv s) eqn:Er; [|done|done]. destruct (li_closed s); [done|].
    destruct Hlab as [Hu Hip]. destruct (_ =? _); injection Hst as <-; [done|]. apply inv_read; [done|done|by apply Forall_take|done].
  - destruct (li_recv s) eqn:Er; [|done|done].
    assert (forall s0, listener_inv l s0 -> li_recv s0 = RRead -> listener_inv l (closeQueue (set_queue s0 (li_queue s0) RDone))) as H0.
    { intros s0 H0 Hr. apply (inv_queue l s0); try done; [apply (iv_queue l s0 H0)|]. unfold waiting. by rewrite Hr. }
    injection Hst as <-. destruct (li_closed s); apply H0; try done. by apply (inv_queue l s); try done; apply (iv_queue l s Hinv).
  - destruct (li_recv s) as [|it|] eqn:Er; [done| |done]. destruct (li_queueClosed s).
    { injection Hst as <-. apply (inv_queue l s); try done; apply (iv_queue l s Hinv). }
    pose proof (iv_queue l s Hinv). destruct (Z.ltb_spec (len (li_queue s)) (rl_QueueCapacity (lc_settings l))); injection Hst as <-.
    + apply (inv_queue l s); try done; [cbn; rewrite len_app; change (len [it]) with 1; lia|].
      unfold waiting. rewrite Er. cbn. by rewrite (Permutation_app_comm _ [it]).
    + apply (inv_queue l s); try done. unfold waiting. rewrite Er. cbn. by apply submseteq_cons.
  - injection Hst as <-. apply (inv_queue l s); try done; apply (iv_queue l s Hinv).
  - injection Hst as <-. apply (inv_queue l s); try done; apply (iv_queue l s Hinv).
  - destruct (li_workers s !! i) as [ [| |]|] eqn:Ei; [|done|done|done]. destruct (li_queue s) as [|it q] eqn:Eq; [done|].
    injection Hst as <-. by apply inv_take.
  - destruct (li_workers s !! i) as [ [|it p|]|] eqn:Ei; [done| |done|done]. injection Hst as <-.
    destruct (work_spec l s i it p now res sent (iv_core l s Hinv)) as (Hrest & Hcore & Hadd & w & Ew & Hw & Hit).
    { apply (iv_workers l s Hinv). by eapply list_elem_of_lookup_2. }
    by apply (inv_worker l s _ i it p w).
  - destruct (li_workers s !! i) as [ [|it [| | | |req k| | |]|]|] eqn:Ei; try done. injection Hst as <-.
    apply (inv_worker l s _ i it (CallHandle req k) WIdle); try done; [apply (iv_core l s Hinv)|apply adds_none].
  - destruct (li_workers s !! i) as [ [| |]|] eqn:Ei; [|done|done|done]. destruct (li_queue s) eqn:Eq; [|done].
    destruct (li_queueClosed s); [|done]. injection Hst as <-. destruct Hinv as [Hc Hq Hp Hids Hnx Hlog Hwt Hws].
    destruct (running_set (li_workers s) i _ WExit Ei) as [P1 P2]. cbn [option_list worker_item app] in P1, P2.
    assert (ids (set_worker s i WExit) ≡ₚ ids s) as Hperm.
    { unfold ids, waiting. cbn [li_recv li_queue li_workers set_worker]. by rewrite !map_app, P1, P2. }
    split; try done; cbn [li_recv li_queue li_workers li_cache li_log li_next set_worker].
    + by rewrite length_insert.
    + by rewrite Hperm.
    + intros id Hid. apply Hnx. by rewrite <- Hperm.
    + intros w' [->|Hin]%elem_of_insert_worker; [done| |by eapply lookup_lt_Some].
      apply Hws. apply list_elem_of_lookup in Hin as [j Hj]. rewrite list_lookup_delete in Hj.
      destruct (decide (j < i)%nat); by eapply list_elem_of_lookup_2.
Qed.

(** [Listen] with normalised settings. *)
Definition configure (id : string) (role : ListenerRole) (settings : RADIUSListener) : listenerConf :=
  mkListenerConf id role (normalizeSettings settings role).

Lemma normalized_positive s role :
  let n := normalizeSettings s role in
  0 < rl_MaxPacketBytes n /\ 0 < rl_QueueCapacity n /\ 0 < rl_Workers n /\ 0 < rl_RetransmissionTTL n
  /\ 0 < rl_RetransmissionCacheEntries n /\ 0 < rl_RetransmissionCacheBytes n /\ 0 < rl_PerSourceBurst n.
Proof.
  cbv zeta. unfold normalizeSettings.
  cbn [rl_MaxPacketBytes rl_QueueCapacity rl_Workers rl_RetransmissionTTL rl_RetransmissionCacheEntries rl_RetransmissionCacheBytes rl_PerSourceBurst].
  assert (forall v d, 0 < d -> 0 < (if v <=? 0 then d else v)) as H by (intros v d Hd; destruct (Z.leb_spec v 0); lia).
  repeat split; apply H; by destruct role.
Qed.

Lemma Listen_inv id role settings : listener_inv (configure id role settings) (Listen (configure id role settings)).
Proof.
  pose proof (normalized_positive settings role) as (_ & Hq & _).
  assert (forall n, running (replicate n WIdle) = []) as Hr by (intros n; induction n; [done|exact IHn]).
  assert (ids (Listen (configure id role settings)) = []) as Ei by (unfold ids, waiting; cbn; by rewrite Hr).
  split; try rewrite Ei; cbn.
  - split; [done|]. split; [|done]. intros k e H. unfold newCache in H. cbn in H. by rewrite lookup_empty in H.
  - change (0 <= rl_QueueCapacity (normalizeSettings settings role)). cbv zeta in Hq. lia.
  - apply length_replicate.
  - constructor.
  - by intros id' ?%elem_of_nil.
  - by intros e ?%elem_of_nil.
  - by intros it ?%elem_of_nil.
  - by intros w [-> _]%elem_of_replicate.
Qed.

Lemma run_listener_inv l s es s' :
  listener_inv l s -> Forall label_ok es -> run l s es = Some s' -> listener_inv l s'.
Proof.
  intros Hinv Hes. revert s Hinv. induction Hes as [|e es He Hes IH]; intros s Hinv; cbn [run]; [by intros [= <-]|].
  destruct (step l s e) as [s1|] eqn:E; [|done]. apply IH. by eapply listener_step_inv.
Qed.

(** ** Closing the queue *)

(** Unless [Close] is called, only the receive loop closes the queue, when it
    returns. *)
Lemma queue_closed l es : forall s s',
  (li_queueClosed s = true -> li_recv s = RDone) -> li_crashed s = false -> run l s es = Some s' -> LClose ∉ es ->
  li_crashed s' = false.
Proof.
  induction es as [|e es IH]; intros s s' Hq Hc Hrun Hno; cbn [run] in Hrun; [by injection Hrun as <-|].
  destruct (step l s e) as [s1|] eqn:E; [|done]. apply not_elem_of_cons in Hno as [Hne Hno].
  assert ((li_queueClosed s1 = true -> li_recv s1 = RDone) /\ li_crashed s1 = false) as [Hq1 Hc1]; [|by apply (IH s1)].
  clear IH Hrun. unfold step in E. rewrite Hc in E. destruct e as [d src| | | | |i snap secrets|i now res sent|i|i].
  - destruct (li_recv s) eqn:Er; [|done|done]. destruct (li_closed s); [done|].
    destruct (_ =? _); injection E as <-; [by rewrite Er|]. cbn. split; [|done]. intros H. by apply Hq in H.
  - destruct (li_recv s) eqn:Er; [|done|done]. injection E as <-. by destruct (li_closed s).
  - destruct (li_recv s) as [|it|] eqn:Er; [done| |done]. destruct (li_queueClosed s) eqn:Eq; [by specialize (Hq eq_refl)|].
    destruct (_ <? _); injection E as <-; cbn; by rewrite Eq.
  - by injection E as <-.
  - done.
  - destruct (li_workers s !! i) as [ [| |]|]; [|done|done|done]. destruct (li_queue s); [done|]. by injection E as <-.
  - destruct (li_workers s !! i) as [ [|it p|]|]; [done| |done|done]. injection E as <-.
    assert (li_recv (work s i it p now res sent) = li_recv s /\ li_queueClosed (work s i it p now res sent) = li_queueClosed s
      /\ li_crashed (work s i it p now res sent) = li_crashed s) as (-> & -> & ->); [|done].
    destruct p; cbn; [done|done| | |done|done|done|by destruct sent].
    + by destruct (Allow _ _ _).
    + by destruct (Begin _ _ _ _).
  - destruct (li_workers s !! i) as [ [|it [| | | |req k| | |]|]|]; try done. by injection E as <-.
  - destruct (li_workers s !! i) as [ [| |]|]; [|done|done|done]. destruct (li_queue s); [|done].
    destruct (li_queueClosed s) eqn:Eq; [|done]. injection E as <-. by cbn; rewrite Eq.
Qed.

(** ** Reading the log *)

Lemma log_ok_split l newer e older : log_ok l (newer ++ e :: older) -> justified l older e.
Proof. induction newer as [|e' newer IH]; cbn [app log_ok]; [by intros [? _]|]. intros [_ H]. by apply IH. Qed.
Lemma log_ok_suffix l newer older : log_ok l (newer ++ older) -> log_ok l older.
Proof. induction newer as [|e' newer IH]; [done|]. intros [_ H]. by apply IH. Qed.

Lemma ops_app a b : ops (a ++ b) = ops b ++ ops a.
Proof. induction a as [|e a IH]; cbn [ops app]; [by rewrite app_nil_r|]. by rewrite IH, app_assoc. Qed.

Lemma cache_of_app l a b : cache_of l (a ++ b) = RadiusCache.run (cache_of l b) (ops a).
Proof. unfold cache_of, RadiusCache.run. by rewrite ops_app, List.fold_left_app. Qed.

Lemma cache_of_conf l log : conf (cache_of l log) = conf (cache_of l []).
Proof. apply RadiusCache.run_conf, newCache_inv. Qed.

Lemma cache_of_begin l mid t it key fp got older :
  cache_of l (mid ++ EvBegin t it key fp got :: older) = RadiusCache.run (Begin (cache_of l older) t key fp).1 (ops mid).
Proof. by rewrite cache_of_app, cache_of_cons. Qed.

Lemma ttl_of l log : 0 < rl_RetransmissionTTL (lc_settings l) -> ttl (conf (cache_of l log)) = rl_RetransmissionTTL (lc_settings l).
Proof.
  intros H. rewrite cache_of_conf. cbn. destruct (Z.leb_spec (rl_RetransmissionTTL (lc_settings l)) 0); [lia|done].
Qed.

(** What the log says of one slot within a time to live. *)
Lemma log_pending l newer t it2 got mid t0 it0 got0 older key fp :
  let log := newer ++ EvBegin t it2 key fp got :: mid ++ EvBegin t0 it0 key fp got0 :: older in
  let T := rl_RetransmissionTTL (lc_settings l) in
  0 < T -> log_ok l log -> missed got0 -> Forall (quiet key fp (t0 + T)) (ops mid) -> t < t0 + T -> got = LookupPending.
Proof.
  cbv zeta. intros HT Hlog Hm Hq Ht. pose proof (log_ok_split l newer _ _ Hlog) as [_ [Eg _] ].
  assert (log_ok l (EvBegin t0 it0 key fp got0 :: older)) as [ [_ [E0 _] ] _].
  { apply (log_ok_suffix l (newer ++ EvBegin t it2 key fp got :: mid)). by rewrite <- app_assoc. }
  rewrite Eg, cache_of_begin. rewrite <- (ttl_of l older HT) in Hq, Ht. rewrite E0 in Hm.
  destruct (once_per_ttl _ (cache_of_inv l older) t0 t0 key fp [] (ops mid) [] Hm Hq) as [H _]. by apply H.
Qed.

Lemma log_hit l newer t it2 got mid2 tc it1 reply mid1 t0 it0 got0 older key fp :
  let begun := mid1 ++ EvBegin t0 it0 key fp got0 :: older in
  let log := newer ++ EvBegin t it2 key fp got :: mid2 ++ EvComplete tc it1 key fp reply :: begun in
  let T := rl_RetransmissionTTL (lc_settings l) in
  0 < T -> log_ok l log -> missed got0 -> Forall (quiet key fp (t0 + T)) (ops mid1) ->
  usedBytes (cache_of l begun) + len reply <= maxBytes (conf (cache_of l [])) ->
  Forall (quiet key fp (tc + T)) (ops mid2) -> t < tc + T -> got = LookupHit reply.
Proof.
  cbv zeta. intros HT Hlog Hm Hq1 Hfit Hq2 Ht. pose proof (log_ok_split l newer _ _ Hlog) as [_ [Eg _] ].
  assert (log_ok l (EvBegin t0 it0 key fp got0 :: older)) as [ [_ [E0 _] ] _].
  { apply (log_ok_suffix l (newer ++ (EvBegin t it2 key fp got :: mid2) ++ EvComplete tc it1 key fp reply :: mid1)).
    rewrite <- !app_assoc. exact Hlog. }
  rewrite Eg, cache_of_app, cache_of_cons. rewrite cache_of_begin in Hfit |- *. rewrite <- (cache_of_conf l older) in Hfit.
  rewrite <- (ttl_of l older HT) in Hq1, Hq2, Ht. rewrite E0 in Hm.
  destruct (once_per_ttl _ (cache_of_inv l older) t0 tc key fp reply (ops mid1) (ops mid2) Hm Hq1) as (_ & H & _).
  by apply (H Hfit Hq2).
Qed.

Lemma cache_caps id role settings log :
  let l := configure id role settings in
  conf (cache_of l log) = mkCacheConf (rl_RetransmissionCacheEntries (lc_settings l))
    (rl_RetransmissionCacheBytes (lc_settings l)) (rl_RetransmissionTTL (lc_settings l)).
Proof.
  cbv zeta. rewrite cache_of_conf. destruct (normalized_positive settings role) as (_ & _ & _ & H1 & H2 & H3 & _).
  unfold cache_of, newCache. cbn [configure lc_settings conf RadiusCache.run ops fold_left].
  destruct (Z.leb_spec (rl_RetransmissionCacheEntries (normalizeSettings settings role)) 0); [lia|].
  destruct (Z.leb_spec (rl_RetransmissionCacheBytes (normalizeSettings settings role)) 0); [lia|].
  destruct (Z.leb_spec (rl_RetransmissionTTL (normalizeSettings settings role)) 0); [lia|done].
Qed.

(** C8. The RADIUS/UDP listener, under every interleaving of its receive loop,
    its workers, reloads of the configuration and shutdown.  Queue, pool and
    retransmission cache stay within their settings.  A datagram is answered
    only to its source, only when it is an authentic request of the client that
    owns that address (its secret, the Message-Authenticator policy of its
    endpoint and, for accounting, the request authenticator), and only with
    octets that the handler returned for an authentic request of the same slot
    and fingerprint.  The handler is called only for authentic requests that
    missed the cache.  A datagram is handled at most once and answered at most
    once.  While a handler is at work, and after it answered, for the time to
    live, repetitions of its request wait or get the identical octets.  The
    receive loop sends on a closed queue, a panic, only if [Close] was called. *)
Theorem datagram_pipeline id role settings es s :
  let l := configure id role settings in
  Forall label_ok es -> run l (Listen l) es = Some s ->
  let log := li_log s in
  let T := rl_RetransmissionTTL (lc_settings l) in
  (len (li_queue s) <= rl_QueueCapacity (lc_settings l) /\ length (li_workers s) = Z.to_nat (rl_Workers (lc_settings l))
   /\ Z.of_nat (size (entries (li_cache s))) <= rl_RetransmissionCacheEntries (lc_settings l)
   /\ usedBytes (li_cache s) <= rl_RetransmissionCacheBytes (lc_settings l))
  /\ (forall newer it dst payload older, log = newer ++ EvSent it dst payload :: older ->
        dst = it_src it /\ EvRead it ∈ older /\ exists snap secrets req it' snap' secrets' req' reason sat,
          EvTake it (Some snap) secrets ∈ older /\ authentic l it snap secrets req
          /\ EvTake it' (Some snap') secrets' ∈ older /\ authentic l it' snap' secrets' req'
          /\ EvHandle it' req' (ActionReply reason payload, sat) ∈ older
          /\ req_slot l it req = req_slot l it' req' /\ req_fp req = req_fp req')
  /\ (forall newer it req res older, log = newer ++ EvHandle it req res :: older ->
        exists snap secrets t got, EvTake it (Some snap) secrets ∈ older /\ authentic l it snap secrets req
          /\ EvBegin t it (req_slot l it req) (req_fp req) got ∈ older /\ missed got)
  /\ (forall newer e older e', log = newer ++ e :: older -> e' ∈ older -> it_id (ev_item e') = it_id (ev_item e) ->
        (ev_level e' < ev_level e)%nat)
  /\ (forall newer t it2 got mid t0 it0 got0 older key fp,
        log = newer ++ EvBegin t it2 key fp got :: mid ++ EvBegin t0 it0 key fp got0 :: older ->
        missed got0 -> Forall (quiet key fp (t0 + T)) (ops mid) -> t < t0 + T -> got = LookupPending)
  /\ (forall newer t it2 got mid2 tc it1 reply mid1 t0 it0 got0 older key fp,
        let begun := mid1 ++ EvBegin t0 it0 key fp got0 :: older in
        log = newer ++ EvBegin t it2 key fp got :: mid2 ++ EvComplete tc it1 key fp reply :: begun ->
        missed got0 -> Forall (quiet key fp (t0 + T)) (ops mid1) ->
        usedBytes (cache_of l begun) + len reply <= rl_RetransmissionCacheBytes (lc_settings l) ->
        Forall (quiet key fp (tc + T)) (ops mid2) -> t < tc + T -> got = LookupHit reply)
  /\ (li_crashed s = true -> LClose ∈ es).
Proof.
  intros l Hes Hrun log T. pose proof (run_listener_inv l _ es s (Listen_inv id role settings) Hes Hrun) as Hinv.
  destruct (iv_core l s Hinv) as (Hc & _ & Hlog). pose proof (cache_caps id role settings (li_log s)) as Hcaps. fold l in Hcaps.
  pose proof (cache_of_inv l (li_log s)) as Hci. destruct (normalized_positive settings role) as (_ & _ & _ & HT & _).
  assert (forall newer e older, log = newer ++ e :: older -> justified l older e) as Hj.
  { intros newer e older E. unfold log in E. rewrite E in Hlog. by apply log_ok_split in Hlog. }
  split; [|split; [|split; [|split; [|split; [|split] ] ] ] ].
  - split; [apply (iv_queue l s Hinv)|]. split; [apply (iv_pool l s Hinv)|].
    rewrite Hc. destruct Hci as [_ He Hb _]. rewrite Hcaps in He, Hb. done.
  - intros newer it dst payload older E. destruct (Hj _ _ _ E) as [_ (-> & Hr & key & fp & req & (snap & secrets & Ht & Ha & -> & ->) & Hans)].
    split; [done|]. split; [done|]. destruct Hans as (it' & req' & reason & sat & Hh & (snap' & secrets' & Ht' & Ha' & E1 & E2)).
    by exists snap, secrets, req, it', snap', secrets', req', reason, sat.
  - intros newer it req res older E. destruct (Hj _ _ _ E) as [_ (t & key & fp & got & Hb & Hm & (snap & secrets & Ht & Ha & -> & ->))].
    by exists snap, secrets, t, got.
  - intros newer e older e' E Hin Hid. destruct (Hj _ _ _ E) as [Hb _]. by apply Hb.
  - intros newer t it2 got mid t0 it0 got0 older key fp E Hm Hq Ht. unfold log in E. rewrite E in Hlog.
    by apply (log_pending l newer t it2 got mid t0 it0 got0 older key fp).
  - intros newer t it2 got mid2 tc it1 reply mid1 t0 it0 got0 older key fp begun E Hm Hq1 Hfit Hq2 Ht. unfold log in E. rewrite E in Hlog.
    apply (log_hit l newer t it2 got mid2 tc it1 reply mid1 t0 it0 got0 older key fp); try done. pose proof (cache_caps id role settings []) as Hc0. fold l in Hc0. by rewrite Hc0.
  - intros Hcr. destruct (existsb (fun e => match e with LClose => true | _ => false end) es) eqn:H.
    + apply existsb_exists in H as (e & Hin & He). apply list_elem_of_In. by destruct e.
    + exfalso. assert (LClose ∉ es) as Hno.
      { intros Hin%list_elem_of_In. apply not_true_iff_false in H. apply H, existsb_exists. by exists LClose. }
      by rewrite (queue_closed l es (Listen l) s) in Hcr.
Qed.

(** An accounting endpoint for 192.0.2.0/24, and one accounting datagram. *)
Definition acct_clients : list Client :=
  [mkClient "wide" 10 true ["192.0.2.0/24"]%string [] "" [] []
     [mkClientEndpoint "radius-udp" ProtocolRADIUS EndpointTransportUDP [Domain.RoleAccounting] (Some (mkRADIUSEndpoint "s" true true [] []))]].
Definition index_of (role : string) : option RADIUSIndex :=
  match CompileRADIUSIndex acct_clients role CarrierRADIUSUDP with Ok idx => Some idx | Err _ => None end.
Definition acct_snapshot : Snapshot :=
  mkSnapshot 1 (index_of Domain.RoleAccess) (index_of Domain.RoleAccounting) (index_of Domain.RoleDynamicAuthorization)
    (list_to_map (map (fun c => (c_ID c, c)) acct_clients)).
Definition no_settings : RADIUSListener := mkRADIUSListener 0 0 2 0 0 0 0 (f64 0) 0 0 0 0.
Definition demo_conf : listenerConf := configure "radius-accounting" RoleAccounting no_settings.
Definition demo_src : UDPAddr := mkUDPAddr [192; 0; 2; 9] 40000 "".
Definition demo_secrets : SecretLookup := fun _ => Some [115].

(** The datagram is read, handled and answered; its repetition gets the cached octets. *)
Definition demo_labels : list label :=
  let w := LWork 0 5 (ActionReply "ok" [5; 7], false) true in
  [LRead sample_request demo_src; LEnqueue; LTake 0 (Some acct_snapshot) demo_secrets; w; w; w; w; w;
   LRead sample_request demo_src; LEnqueue; LTake 1 (Some acct_snapshot) demo_secrets;
   LWork 1 6 (ActionDiscard "", false) true; LWork 1 6 (ActionDiscard "", false) true; LWork 1 6 (ActionDiscard "", false) true].

Lemma acct_snapshot_compiled : snapshot_compiled acct_snapshot acct_clients.
Proof.
  assert (forall role idx, index_of role = Some idx -> CompileRADIUSIndex acct_clients role CarrierRADIUSUDP = Ok idx) as H
    by (intros role idx; unfold index_of; destruct (CompileRADIUSIndex _ _ _); [by intros [= ->]|done]).
  split; [|intros c ->%list_elem_of_singleton; by apply list.NoDup_singleton|done|apply H..]. by apply list.NoDup_singleton.
Qed.

Definition sent_payloads (s : Listener) : list bytes :=
  omap (fun e => match e with EvSent _ _ p => Some p | _ => None end) (li_log s).

Lemma datagram_pipeline_witness :
  exists s, run demo_conf (Listen demo_conf) demo_labels = Some s /\ sent_payloads s = [[5; 7]; [5; 7]]
  /\ (forall newer it dst payload older, li_log s = newer ++ EvSent it dst payload :: older -> dst = it_src it)
  /\ (li_crashed s = true -> LClose ∈ demo_labels).
Proof.
  assert (option_map sent_payloads (run demo_conf (Listen demo_conf) demo_labels) = Some [[5; 7]; [5; 7]]) as Hsent by (vm_compute; reflexivity).
  destruct (run demo_conf (Listen demo_conf) demo_labels) as [s|] eqn:Hrun; [|discriminate Hsent].
  exists s. split; [reflexivity|]. injection Hsent as Hsent. split; [exact Hsent|].
  assert (Forall label_ok demo_labels) as Hok.
  { assert (label_ok (LRead sample_request demo_src)) as Hr by (split; [decide_now|split; [decide_now|left; reflexivity] ]).
    unfold demo_labels. cbv zeta. repeat (apply List.Forall_cons; [first [exact Hr|exact I|exists acct_clients; exact acct_snapshot_compiled]|]). constructor. }
  pose proof (datagram_pipeline "radius-accounting" RoleAccounting no_settings demo_labels s Hok Hrun) as (_ & H1 & _ & _ & _ & _ & H2).
  split; [|exact H2]. intros newer it dst payload older E. exact (proj1 (H1 newer it dst payload older E)).
Defined.

(** [Close] between [ReadFrom] and the send: the receive loop panics. *)
Example close_panics :
  option_map li_crashed (run demo_conf (Listen demo_conf) [LRead sample_request demo_src; LClose; LEnqueue]) = Some true.
Proof. vm_compute. reflexivity. Qed.

(** The limiter: a burst of 200, then one datagram every 10 ms at 100 a second. *)
Fixpoint allow_times (lim : option sourceLimiter) (ts : list Z) : list bool :=
  match ts with [] => [] | t :: ts => let '(lim, ok) := Allow lim t "s" in ok :: allow_times lim ts end.
Example limiter_burst :
  let lim := newSourceLimiter (f64 100) 200 in
  allow_times lim (replicate 201 second) = replicate 200 true ++ [false]
  /\ allow_times lim (replicate 201 second ++ [second + 5000000; second + 10000000; second + 15000000; second + 20000000])
     = replicate 200 true ++ [false; false; true; false; true].
Proof. split; vm_compute; reflexivity. Qed.
