(* ===== verification/Peap.v ===== *)
(** * PEAP: framing, inner packets, tunnels

    [internal/radius/eap/peap]: the TLS-in-EAP body ([flags.go]), the EAP
    packets inside the tunnel ([inner.go]), the in-memory pipes ([pipe.go]), the
    tunnel with its fragment buffers ([tunnel.go], [NewTunnel] of [server.go])
    and the registry of live tunnels ([registry.go]).

    [crypto/tls] is behind the interface [TLSConn]: what the connection wants to
    do next with its two pipes, and what it says of its handshake.  The
    goroutine of a handshake and a blocking read or write are turns of that
    connection; how many turns it gets before a deadline is the scheduler's
    choice.  A tunnel is shared by the registry and its callers, so it lives in
    a heap and is named by its address.  The loop-back self test
    [HandshakeWithClient] and the address methods of [duplex] have no model. *)

From Stdlib Require Import String.
From stdpp Require Import gmap strings.
From S2P Require Import Prelude Text BoundedStore.

#[local] Open Scope Z_scope.

(** ** Bodies (flags.go) *)

Definition MaxTLSFlightBytes := Z.shiftl 64 10.
Definition PEAPType := 25.

Definition FlagLength := 128.
Definition FlagMore := 64.
Definition FlagStart := 32.
Definition VersionMask := 7.
Definition Version0 := 0.
Definition reservedFlagBits := 24.

Record Payload := mkPayload {
  pl_LengthIncluded : bool; pl_MoreFragments : bool; pl_Start : bool; pl_Version : Z; pl_TLSMessageLen : Z; pl_TLSData : bytes;
}.

Inductive peap_error :=
| ErrEmptyPayload | ErrVersion | ErrLengthMissing
| ErrInnerShort | ErrInnerLength | ErrInnerFinalLength | ErrInnerTypedLength | ErrInnerCode.

Definition Parse (data : bytes) : result peap_error Payload :=
  if len data <? 1 then Err ErrEmptyPayload
  else
    let flags := Z.ldiff (index data 0) reservedFlagBits in
    if negb (Z.land flags VersionMask =? Version0) then Err ErrVersion
    else
      let length_included := negb (Z.land flags FlagLength =? 0) in
      let payload := mkPayload length_included (negb (Z.land flags FlagMore =? 0)) (negb (Z.land flags FlagStart =? 0)) (Z.land flags VersionMask) in
      let rest := slice data 1 (len data) in
      if length_included then
        if len rest <? 4 then Err ErrLengthMissing
        else Ok (payload (be_u32 (index rest 0) (index rest 1) (index rest 2) (index rest 3)) (slice rest 4 (len rest)))
      else Ok (payload 0 rest).

Definition Encode (p : Payload) : bytes :=
  let flags := Z.land (pl_Version p) VersionMask in
  let flags := if pl_LengthIncluded p then Z.lor flags FlagLength else flags in
  let flags := if pl_MoreFragments p then Z.lor flags FlagMore else flags in
  let flags := if pl_Start p then Z.lor flags FlagStart else flags in
  if pl_LengthIncluded p then
    let out := make_bytes (5 + len (pl_TLSData p)) in
    let out := set_at out 0 flags in
    let out := copy_range out 1 5 (put_u32 (pl_TLSMessageLen p)) in
    copy_at out 5 (pl_TLSData p)
  else
    let out := make_bytes (1 + len (pl_TLSData p)) in
    let out := set_at out 0 flags in
    copy_at out 1 (pl_TLSData p).

(** [Payload{Version: Version0}], and with data. *)
Definition plain_payload (data : bytes) : Payload := mkPayload false false false Version0 0 data.
Definition EncodeStart : bytes := Encode (mkPayload false false true Version0 0 []).

(** ** Inner packets (inner.go) *)

Definition InnerIdentity := 1.
Definition InnerMSCHAPv2 := 26.
Definition innerCodeRequest := 1.
Definition innerCodeResponse := 2.
Definition innerCodeSuccess := 3.
Definition innerCodeFailure := 4.
Definition MSCHAPOpChallenge := 1.
Definition MSCHAPOpResponse := 2.
Definition MSCHAPOpSuccess := 3.
Definition MSCHAPOpFailure := 4.

Record InnerPacket := mkInner { ip_Code : Z; ip_Identifier : Z; ip_Type : Z; ip_Data : bytes; ip_HasType : bool }.

Definition EncodeInner (p : InnerPacket) : bytes :=
  if (ip_Code p =? innerCodeSuccess) || (ip_Code p =? innerCodeFailure) then [ip_Code p; ip_Identifier p; 0; 4]
  else
    let n := 5 + len (ip_Data p) in
    let out := make_bytes n in
    let out := set_at out 0 (ip_Code p) in
    let out := set_at out 1 (ip_Identifier p) in
    let out := set_at out 2 (to_u8 (Z.shiftr n 8)) in
    let out := set_at out 3 (to_u8 n) in
    let out := set_at out 4 (ip_Type p) in
    copy_at out 5 (ip_Data p).

Definition DecodeInner (b : bytes) : result peap_error InnerPacket :=
  if len b <? 4 then Err ErrInnerShort
  else
    let n := be_u16 (index b 2) (index b 3) in
    if negb (n =? len b) || (n <? 4) then Err ErrInnerLength
    else
      let code := index b 0 in
      if (code =? innerCodeSuccess) || (code =? innerCodeFailure) then
        if negb (n =? 4) then Err ErrInnerFinalLength else Ok (mkInner code (index b 1) 0 [] false)
      else if (code =? innerCodeRequest) || (code =? innerCodeResponse) then
        if n <? 5 then Err ErrInnerTypedLength
        else Ok (mkInner code (index b 1) (index b 4) (if n >? 5 then slice b 5 (len b) else []) true)
      else Err ErrInnerCode.

Definition IdentityRequest (id : Z) : bytes := EncodeInner (mkInner innerCodeRequest id InnerIdentity [] true).
Definition InnerSuccess (id : Z) : bytes := EncodeInner (mkInner innerCodeSuccess id 0 [] false).
Definition InnerFailure (id : Z) : bytes := EncodeInner (mkInner innerCodeFailure id 0 [] false).

(** [None] is the panic of [make] for a challenge of more than 16 octets. *)
Definition EncodeMSCHAPChallenge (eapID msID : Z) (challenge name : bytes) : option bytes :=
  if len challenge >? 16 then None
  else
    let challenge := challenge ++ make_bytes (16 - len challenge) in
    let msLen := 21 + len name in
    let data := make_bytes msLen in
    let data := set_at data 0 MSCHAPOpChallenge in
    let data := set_at data 1 msID in
    let data := copy_range data 2 4 (put_u16 (to_u16 msLen)) in
    let data := set_at data 4 16 in
    let data := copy_range data 5 21 challenge in
    let data := copy_at data 21 name in
    Some (EncodeInner (mkInner innerCodeRequest eapID InnerMSCHAPv2 data true)).

Definition EncodeMSCHAPSuccess (eapID msID : Z) (message : bytes) : bytes :=
  let msLen := 4 + len message in
  let data := make_bytes msLen in
  let data := set_at data 0 MSCHAPOpSuccess in
  let data := set_at data 1 msID in
  let data := copy_range data 2 4 (put_u16 (to_u16 msLen)) in
  let data := copy_at data 4 message in
  EncodeInner (mkInner innerCodeRequest eapID InnerMSCHAPv2 data true).

(** The identifier, the response and the name. *)
Definition ParseMSCHAPResponse (p : InnerPacket) : option (Z * bytes * bytes) :=
  let data := ip_Data p in
  if negb (ip_Code p =? innerCodeResponse) || negb (ip_Type p =? InnerMSCHAPv2) || (len data <? 54) then None
  else if negb (index data 0 =? MSCHAPOpResponse) || negb (index data 4 =? 49) then None
  else Some (index data 1, slice data 5 54, if len data >? 54 then slice data 54 (len data) else []).

Definition MaxTLSPerMessage := 1000.

(** The loop over the rest of a flight of [total] octets; every turn takes at
    least one octet. *)
Fixpoint flight_loop (fuel : nat) (total : Z) (rest : bytes) (first : bool) : list bytes :=
  match fuel with
  | O => []
  | S fuel =>
    if len rest >? 0 then
      let n := if len rest >? MaxTLSPerMessage then MaxTLSPerMessage else len rest in
      let p := mkPayload first (n <? len rest) false Version0 (if first then to_u32 total else 0) (slice rest 0 n) in
      Encode p :: flight_loop fuel total (slice rest n (len rest)) false
    else []
  end.
Definition EncodeFlight (tlsData : bytes) : list bytes :=
  if len tlsData =? 0 then [Encode (plain_payload [])]
  else if len tlsData <=? MaxTLSPerMessage then [Encode (plain_payload tlsData)]
  else flight_loop (length tlsData) (len tlsData) tlsData true.

(** ** Pipes (pipe.go)

    A pipe's deadline only ends a wait. *)

Record bytePipe := mkPipe { bp_buf : bytes; bp_closed : bool }.
Definition newBytePipe : bytePipe := mkPipe [] false.

(** [Read(b)] with [n = len(b)]: octets, the end, or a wait. *)
Inductive pipe_read := ReadData (b : bytes) | ReadEOF | ReadWaits.
Definition pipe_Read (p : bytePipe) (n : Z) : bytePipe * pipe_read :=
  if len (bp_buf p) =? 0 then (p, if bp_closed p then ReadEOF else ReadWaits)
  else
    let n := Z.min n (len (bp_buf p)) in
    (mkPipe (slice (bp_buf p) n (len (bp_buf p))) (bp_closed p), ReadData (slice (bp_buf p) 0 n)).

Inductive pipe_error := ErrClosedPipe | ErrPipeCapacity.
Definition pipe_Write (p : bytePipe) (b : bytes) : bytePipe * option pipe_error :=
  if bp_closed p then (p, Some ErrClosedPipe)
  else if len b >? MaxTLSFlightBytes - len (bp_buf p) then (p, Some ErrPipeCapacity)
  else (mkPipe (bp_buf p ++ b) (bp_closed p), None).

Definition pipe_Close (p : bytePipe) : bytePipe := mkPipe (bp_buf p) true.
Definition pipe_Take (p : bytePipe) : bytePipe * bytes := (mkPipe [] (bp_closed p), bp_buf p).
Definition peekLen (p : bytePipe) : Z := len (bp_buf p).

(** ** The TLS connection *)

Inductive tls_action := TLSRead (n : Z) | TLSWrite (b : bytes) | TLSIdle.
Inductive handshake := HandshakePending | HandshakeDone | HandshakeFailed.

Class TLSConn (C : Type) := {
  tls_next : C -> tls_action;
  tls_got : C -> option bytes -> C;       (* the octets of a read; none at the end *)
  tls_put : C -> bool -> C;               (* whether a write was taken *)
  tls_status : C -> handshake;
  tls_write : C -> bytes -> C;            (* conn.Write begins *)
  tls_written : C -> bool;                (* and has ended without error *)
  tls_read : C -> Z -> C;                 (* conn.Read begins *)
  tls_answer : C -> option bytes;         (* what it has read *)
  tls_close : C -> C;
}.

(** ** The tunnel (tunnel.go) *)

Inductive frag_error := ErrNeedsLength | ErrFlightLength | ErrFlightCapacity | ErrFlightIncomplete.

Section Tunnel.
Context {C : Type} `{TLSConn C}.

Record Tunnel := mkTunnel {
  tn_in : bytePipe; tn_out : bytePipe; tn_conn : C; tn_closed : bool;
  tn_frag : bytes; tn_fragLen : Z; tn_fragErr : option frag_error; tn_pending : list bytes;
}.

Definition with_pipes (t : Tunnel) (in_ out : bytePipe) (conn : C) : Tunnel :=
  mkTunnel in_ out conn (tn_closed t) (tn_frag t) (tn_fragLen t) (tn_fragErr t) (tn_pending t).
Definition with_frag (t : Tunnel) (frag : bytes) (fragLen : Z) (err : option frag_error) : Tunnel :=
  mkTunnel (tn_in t) (tn_out t) (tn_conn t) (tn_closed t) frag fragLen err (tn_pending t).
Definition with_pending (t : Tunnel) (pending : list bytes) : Tunnel :=
  mkTunnel (tn_in t) (tn_out t) (tn_conn t) (tn_closed t) (tn_frag t) (tn_fragLen t) (tn_fragErr t) pending.

(** [NewTunnel], with the connection that [tls.Server] returns. *)
Definition NewTunnel (conn : C) : Tunnel := mkTunnel newBytePipe newBytePipe conn false [] 0 None [].

(** One turn of whichever goroutine runs the connection. *)
Definition tls_turn (t : Tunnel) : Tunnel :=
  match tls_next (tn_conn t) with
  | TLSIdle => t
  | TLSRead n =>
    match pipe_Read (tn_in t) n with
    | (in_, ReadData b) => with_pipes t in_ (tn_out t) (tls_got (tn_conn t) (Some b))
    | (_, ReadEOF) => with_pipes t (tn_in t) (tn_out t) (tls_got (tn_conn t) None)
    | (_, ReadWaits) => t
    end
  | TLSWrite b =>
    let '(out, err) := pipe_Write (tn_out t) b in
    with_pipes t (tn_in t) out (tls_put (tn_conn t) (match err with None => true | Some _ => false end))
  end.
Definition tls_turns (n : nat) (t : Tunnel) : Tunnel := Nat.iter n tls_turn t.

Definition PushClient (t : Tunnel) (records : bytes) : Tunnel * option pipe_error :=
  if len records =? 0 then (t, None)
  else let '(in_, err) := pipe_Write (tn_in t) records in (with_pipes t in_ (tn_out t) (tn_conn t), err).

Definition PullServer (t : Tunnel) : Tunnel * bytes :=
  let '(out, b) := pipe_Take (tn_out t) in (with_pipes t (tn_in t) out (tn_conn t), b).

Definition HandshakeComplete (t : Tunnel) : bool := match tls_status (tn_conn t) with HandshakeDone => true | _ => false end.
Definition HandshakeErr (t : Tunnel) : bool := match tls_status (tn_conn t) with HandshakeFailed => true | _ => false end.

(** At most [turns] turns before the deadline. *)
Fixpoint WaitProgress (turns : nat) (t : Tunnel) : Tunnel :=
  match turns with
  | O => t
  | S turns => if HandshakeComplete t || (peekLen (tn_out t) >? 0) then t else WaitProgress turns (tls_turn t)
  end.

(** [false] is an error. *)
Definition WriteApp (turns : nat) (t : Tunnel) (p : bytes) : Tunnel * bool :=
  if negb (HandshakeComplete t) then (t, false)
  else
    let t := tls_turns turns (with_pipes t (tn_in t) (tn_out t) (tls_write (tn_conn t) p)) in
    (t, tls_written (tn_conn t)).

(** No octets is an error, or a read that the deadline ended. *)
Definition ReadApp (turns : nat) (t : Tunnel) : Tunnel * option bytes :=
  if negb (HandshakeComplete t) then (t, None)
  else
    let t := tls_turns turns (with_pipes t (tn_in t) (tn_out t) (tls_read (tn_conn t) 2048)) in
    (t, match tls_answer (tn_conn t) with Some b => if len b >? 0 then Some b else None | None => None end).

Definition BufferFragment (t : Tunnel) (p : Payload) : Tunnel * option bytes :=
  let fail frag err := (with_frag t frag (tn_fragLen t) (Some err), None) in
  match tn_fragErr t with
  | Some _ => (t, None)
  | None =>
    if pl_MoreFragments p && (len (tn_frag t) =? 0) && (tn_fragLen t =? 0) && negb (pl_LengthIncluded p) then fail (tn_frag t) ErrNeedsLength
    else if pl_LengthIncluded p && (negb (tn_fragLen t =? 0) || negb (len (tn_frag t) =? 0) || (pl_TLSMessageLen p =? 0)
              || (pl_TLSMessageLen p >? MaxTLSFlightBytes)) then fail [] ErrFlightLength
    else
      let fragLen := if pl_LengthIncluded p then pl_TLSMessageLen p else tn_fragLen t in
      let fail err := (with_frag t [] fragLen (Some err), None) in
      if (len (pl_TLSData p) >? MaxTLSFlightBytes - len (tn_frag t)) || ((fragLen >? 0) && (len (tn_frag t) + len (pl_TLSData p) >? fragLen))
      then fail ErrFlightCapacity
      else
        let frag := tn_frag t ++ pl_TLSData p in
        if pl_MoreFragments p then (with_frag t frag fragLen None, None)
        else if (fragLen >? 0) && negb (len frag =? fragLen) then fail ErrFlightIncomplete
        else (with_frag t [] 0 None, Some frag)
  end.

Definition QueueFlight (t : Tunnel) (tlsRec : bytes) : Tunnel * bytes :=
  match EncodeFlight tlsRec with
  | [] => (t, Encode (plain_payload []))
  | part :: parts => (with_pending t parts, part)
  end.

Definition NextFragment (t : Tunnel) : Tunnel * option bytes :=
  match tn_pending t with
  | [] => (t, None)
  | p :: parts => (with_pending t parts, Some p)
  end.

Definition Close (t : Tunnel) : Tunnel :=
  if tn_closed t then t
  else
    mkTunnel (pipe_Close (tn_in t)) (pipe_Close (tn_out t)) (tls_close (tn_conn t)) true
      (tn_frag t) (tn_fragLen t) (tn_fragErr t) (tn_pending t).

Definition FragmentError (t : Tunnel) : bool := match tn_fragErr t with Some _ => true | None => false end.

(** ** The registry (registry.go) *)

Definition tunnelReservationBytes := 4 * MaxTLSFlightBytes.

(** The tunnel of an entry is an address of the heap; its timer runs
    [expireLocked] at some time after [re_expires] unless it is stopped. *)
Record registryEntry := mkRegistryEntry { re_tunnel : nat; re_expires : Z }.
Record Registry := mkRegistry {
  rg_items : gmap bytes registryEntry; rg_maxEntries : Z; rg_ttl : Z;
  rg_heap : gmap nat Tunnel;
}.
Definition with_items (r : Registry) (items : gmap bytes registryEntry) (heap : gmap nat Tunnel) : Registry :=
  mkRegistry items (rg_maxEntries r) (rg_ttl r) heap.

Definition tunnelCapacity (entries bytes : Z) : Z := Z.max 1 (Z.min entries (Z.quot bytes tunnelReservationBytes)).

Definition second := 1000000000.
Definition NewRegistryWithLimits (entries bytes ttl : Z) : Registry :=
  let entries := if entries <=? 0 then 4096 else entries in
  let bytes := if bytes <=? 0 then Z.shiftl 1 20 else bytes in
  let ttl := if ttl <=? 0 then 30 * second else ttl in
  mkRegistry ∅ (tunnelCapacity entries bytes) ttl ∅.
Definition NewRegistry : Registry := NewRegistryWithLimits 4096 (Z.shiftl 1 20) (30 * second).

Definition re_expired (now : Z) (e : registryEntry) : bool := negb (now <? re_expires e).

(** [e.tunnel.Close(); delete(r.items, id)] *)
Definition registry_remove (r : Registry) (id : bytes) (e : registryEntry) : Registry :=
  with_items r (delete id (rg_items r)) (alter Close (re_tunnel e) (rg_heap r)).
Definition registry_expireLocked (r : Registry) (now : Z) : Registry :=
  foldr (fun '(id, e) r => if re_expired now e then registry_remove r id e else r) r (map_to_list (rg_items r)).

Definition Put (r : Registry) (now : Z) (id : bytes) (tunnel : nat) : Registry * bool :=
  if len id =? 0 then (r, false)
  else
    let r := registry_expireLocked r now in
    if bool_decide (is_Some (rg_items r !! id)) || (Z.of_nat (size (rg_items r)) >=? rg_maxEntries r) then (r, false)
    else (with_items r (<[id := mkRegistryEntry tunnel (now + rg_ttl r)]> (rg_items r)) (rg_heap r), true).

Definition Get (r : Registry) (now : Z) (id : bytes) : Registry * option nat :=
  if len id =? 0 then (r, None)
  else
    let r := registry_expireLocked r now in
    match rg_items r !! id with
    | None => (r, None)
    | Some e => (with_items r (<[id := mkRegistryEntry (re_tunnel e) (now + rg_ttl r)]> (rg_items r)) (rg_heap r), Some (re_tunnel e))
    end.

Definition Delete (r : Registry) (id : bytes) : Registry :=
  match rg_items r !! id with Some e => registry_remove r id e | None => r end.

(** The timer of an entry. *)
Definition registry_timer (r : Registry) (now : Z) : Registry := registry_expireLocked r now.

Definition registry_Reset (r : Registry) : Registry :=
  foldr (fun '(id, e) r => registry_remove r id e) r (map_to_list (rg_items r)).

(** [NewTunnel] puts a tunnel at a new address. *)
Definition allocate (r : Registry) (conn : C) : Registry * nat :=
  let a := fresh (dom (rg_heap r)) in (with_items r (rg_items r) (<[a := NewTunnel conn]> (rg_heap r)), a).
End Tunnel.
Arguments Tunnel : clear implicits.
Arguments Registry : clear implicits.

(** ** Bodies: encode and parse *)

Lemma make_bytes_cons n : 0 <= n -> make_bytes (1 + n) = 0 :: make_bytes n.
Proof. intros H. by rewrite make_bytes_add by lia. Qed.
Lemma copy_tail (h b src : bytes) : len b = len src -> copy_at (h ++ b) (len h) src = h ++ src.
Proof. intros H. by rewrite copy_at_app, copy_bytes_full. Qed.

Definition flag_octet (p : Payload) : Z :=
  let flags := Z.land (pl_Version p) VersionMask in
  let flags := if pl_LengthIncluded p then Z.lor flags FlagLength else flags in
  let flags := if pl_MoreFragments p then Z.lor flags FlagMore else flags in
  if pl_Start p then Z.lor flags FlagStart else flags.

Lemma Encode_spec p :
  Encode p = flag_octet p :: (if pl_LengthIncluded p then put_u32 (pl_TLSMessageLen p) else []) ++ pl_TLSData p.
Proof.
  unfold Encode. fold (flag_octet p). pose proof (len_nonneg (pl_TLSData p)). destruct (pl_LengthIncluded p).
  - replace (5 + len (pl_TLSData p)) with (1 + (4 + len (pl_TLSData p))) by lia.
    rewrite make_bytes_cons by lia. change (set_at (0 :: ?b) 0 ?v) with (v :: b). rewrite make_bytes_add by lia.
    change (copy_range (flag_octet p :: make_bytes 4 ++ ?b) 1 5 ?s) with (copy_range ([flag_octet p] ++ make_bytes 4 ++ b) (len [flag_octet p]) (len [flag_octet p] + len (make_bytes 4)) s).
    rewrite copy_range_app by apply len_put_u32. rewrite app_assoc.
    assert (5 = len ([flag_octet p] ++ put_u32 (pl_TLSMessageLen p))) as E5 by by rewrite len_app, len_put_u32.
    rewrite E5 at 1. rewrite copy_tail by by rewrite len_make_bytes. by rewrite <- app_assoc.
  - rewrite make_bytes_cons by lia. change (set_at (0 :: ?b) 0 ?v) with (v :: b).
    apply (copy_tail [flag_octet p]). by rewrite len_make_bytes.
Qed.

(** The payloads that a version 0 body stands for. *)
Definition payload_ok (p : Payload) : Prop :=
  pl_Version p = Version0 /\ Forall is_u8 (pl_TLSData p)
  /\ if pl_LengthIncluded p then is_u32 (pl_TLSMessageLen p) else pl_TLSMessageLen p = 0.

(** The body with its reserved bits cleared. *)
Definition clear_reserved (data : bytes) : bytes := match data with b :: data => Z.ldiff b reservedFlagBits :: data | [] => [] end.

Definition flags_table : list (bool * bool * bool) :=
  [(false, false, false); (false, false, true); (false, true, false); (false, true, true);
   (true, false, false); (true, false, true); (true, true, false); (true, true, true)].

(** What [Parse] reads of an octet, over all octets. *)
Definition octet_reads (b : Z) : Prop :=
  let flags := Z.ldiff b reservedFlagBits in
  Z.land flags VersionMask = Version0 ->
  flags = flag_octet (mkPayload (negb (Z.land flags FlagLength =? 0)) (negb (Z.land flags FlagMore =? 0)) (negb (Z.land flags FlagStart =? 0)) 0 0 []).
#[export] Instance octet_reads_dec b : Decision (octet_reads b).
Proof. unfold octet_reads. apply _. Defined.
Lemma octets_read b : is_u8 b -> octet_reads b.
Proof.
  intros Hb. assert (Forall octet_reads (map Z.of_nat (seq 0 256))) as H by (apply (bool_decide_eq_true_1 _); vm_compute; reflexivity).
  rewrite List.Forall_forall in H. apply H. apply in_map_iff. exists (Z.to_nat b). unfold is_u8 in Hb. split; [lia|]. apply in_seq. lia.
Qed.

Lemma flag_octet_reads l m s :
  let f := flag_octet (mkPayload l m s 0 0 []) in
  Z.ldiff f reservedFlagBits = f /\ Z.land f VersionMask = Version0 /\ negb (Z.land f FlagLength =? 0) = l
  /\ negb (Z.land f FlagMore =? 0) = m /\ negb (Z.land f FlagStart =? 0) = s.
Proof. by destruct l, m, s. Qed.

Lemma slice_from {A} (b : list A) k : 0 <= k -> slice b k (len b) = drop (Z.to_nat k) b.
Proof. intros Hk. unfold slice. apply take_ge. rewrite length_drop. unfold len. lia. Qed.

(** The reserved bits are ignored. *)
Lemma Parse_cons b rest : Parse (b :: rest) = Parse (Z.ldiff b reservedFlagBits :: rest).
Proof.
  unfold Parse. rewrite !slice_from, !len_cons by lia. change (index (b :: rest) 0) with b.
  change (index (Z.ldiff b reservedFlagBits :: rest) 0) with (Z.ldiff b reservedFlagBits).
  assert (Z.ldiff (Z.ldiff b reservedFlagBits) reservedFlagBits = Z.ldiff b reservedFlagBits) as ->.
  { rewrite !Z.ldiff_land, <- Z.land_assoc. by rewrite Z.land_diag. }
  reflexivity.
Qed.

Lemma Parse_Encode p : payload_ok p -> Parse (Encode p) = Ok p.
Proof.
  intros (Hv & Hd & Hl). rewrite Encode_spec. unfold Parse. set (tail := (if pl_LengthIncluded p then _ else _) ++ _).
  rewrite slice_from, len_cons by lia. pose proof (len_nonneg tail). destruct (Z.ltb_spec (1 + len tail) 1); [lia|].
  change (index (flag_octet p :: tail) 0) with (flag_octet p). change (drop (Z.to_nat 1) (flag_octet p :: tail)) with tail. subst tail.
  destruct p as [l m s v n d]. cbn [pl_Version pl_TLSData pl_LengthIncluded pl_TLSMessageLen] in *. subst v.
  change (flag_octet _) with (flag_octet (mkPayload l m s 0 0 [])).
  destruct (flag_octet_reads l m s) as (-> & -> & -> & -> & ->). cbn [negb Z.eqb Version0].
  destruct l; [|subst n; reflexivity]. rewrite len_app, len_put_u32. pose proof (len_nonneg d).
  destruct (Z.ltb_spec (4 + len d) 4); [lia|]. rewrite <- (len_put_u32 n) at 2. rewrite <- len_app, slice_from by lia.
  change (drop (Z.to_nat 4) (put_u32 n ++ d)) with d. unfold put_u32, index. simpl. by rewrite be_put_u32.
Qed.

Lemma Parse_Ok data p : Forall is_u8 data -> Parse data = Ok p -> payload_ok p /\ Encode p = clear_reserved data.
Proof.
  intros Hb H. unfold Parse in H. destruct data as [|b rest]; [discriminate H|]. apply Forall_cons_1 in Hb as [Hb0 Hr].
  rewrite slice_from, len_cons in H by lia. pose proof (len_nonneg rest). destruct (Z.ltb_spec (1 + len rest) 1); [lia|].
  change (index (b :: rest) 0) with b in H. change (drop (Z.to_nat 1) (b :: rest)) with rest in H.
  destruct (Z.eqb_spec (Z.land (Z.ldiff b reservedFlagBits) VersionMask) Version0) as [Ev|Ev]; cbn [negb] in H; [|discriminate H].
  pose proof (octets_read b Hb0 Ev) as Hf. rewrite Ev in H. cbn [clear_reserved].
  destruct (negb (Z.land (Z.ldiff b reservedFlagBits) FlagLength =? 0)) eqn:El.
  - destruct rest as [|b0 [|b1 [|b2 [|b3 rest]]]]; try discriminate H.
    destruct (Z.ltb_spec (len (b0 :: b1 :: b2 :: b3 :: rest)) 4) as [Hl|_]; [discriminate H|].
    rewrite slice_from in H by lia. apply Ok_inj in H as <-. cbn [drop index nth Z.to_nat Pos.to_nat].
    change (Z.to_nat 4) with 4%nat. change (Z.to_nat 3) with 3%nat. change (Z.to_nat 2) with 2%nat. change (Z.to_nat 1) with 1%nat. cbn [drop nth].
    forall_hyps. split; [split; [reflexivity|split; [assumption|by apply be_u32_range]]|].
    rewrite Encode_spec. cbn [pl_LengthIncluded pl_TLSMessageLen pl_TLSData]. rewrite put_be_u32 by assumption. cbn [app]. f_equal.
    symmetry. exact Hf.
  - apply Ok_inj in H as <-. split; [by split|]. rewrite Encode_spec. cbn [pl_LengthIncluded pl_TLSMessageLen pl_TLSData app]. f_equal. symmetry. exact Hf.
Qed.

(** ** Inner packets: encode and decode *)

Definition is_final (code : Z) : bool := (code =? innerCodeSuccess) || (code =? innerCodeFailure).
Definition is_typed (code : Z) : bool := (code =? innerCodeRequest) || (code =? innerCodeResponse).

(** The octets of an EAP packet; the outer packets of the server have them
    too. *)
Definition eap_octets (code id type_ : Z) (data : bytes) : bytes :=
  if is_final code then [code; id; 0; 4] else [code; id] ++ put_u16 (5 + len data) ++ type_ :: data.

Lemma write_packet code id type_ data :
  let n := 5 + len data in
  let out := make_bytes n in
  let out := set_at out 0 code in
  let out := set_at out 1 id in
  let out := set_at out 2 (to_u8 (Z.shiftr n 8)) in
  let out := set_at out 3 (to_u8 n) in
  let out := set_at out 4 type_ in
  copy_at out 5 data = [code; id] ++ put_u16 n ++ type_ :: data.
Proof.
  cbv zeta. pose proof (len_nonneg data). rewrite (make_bytes_add 5) by lia.
  change (make_bytes 5) with [0; 0; 0; 0; 0].
  change (set_at (set_at (set_at (set_at (set_at ([0; 0; 0; 0; 0] ++ ?b) 0 ?v0) 1 ?v1) 2 ?v2) 3 ?v3) 4 ?v4) with ([v0; v1; v2; v3; v4] ++ b).
  change 5 with (len [code; id; to_u8 (Z.shiftr (5 + len data) 8); to_u8 (5 + len data); type_]) at 3.
  rewrite copy_tail by by rewrite len_make_bytes. reflexivity.
Qed.

Lemma EncodeInner_octets p : EncodeInner p = eap_octets (ip_Code p) (ip_Identifier p) (ip_Type p) (ip_Data p).
Proof.
  unfold EncodeInner, eap_octets. fold (is_final (ip_Code p)). destruct (is_final (ip_Code p)); [reflexivity|]. apply write_packet.
Qed.

(** A packet that has an encoding. *)
Definition eap_ok (code id type_ : Z) (data : bytes) (hasType : bool) : Prop :=
  is_u8 id /\ Forall is_u8 data /\
  if is_final code then type_ = 0 /\ data = [] /\ hasType = false
  else is_typed code = true /\ is_u8 type_ /\ 5 + len data < 65536 /\ hasType = true.

(** How a packet is read: the identifier, the type, the data. *)
Definition read_eap (b : bytes) : option (Z * Z * Z * bytes * bool) :=
  match b with
  | code :: id :: hi :: lo :: rest =>
    if negb (be_u16 hi lo =? 4 + len rest) then None
    else if is_final code then match rest with [] => Some (code, id, 0, [], false) | _ => None end
    else if is_typed code then match rest with type_ :: data => Some (code, id, type_, data, true) | [] => None end
    else None
  | _ => None
  end.

Lemma is_final_cases code : is_final code = true -> code = 3 \/ code = 4.
Proof. unfold is_final, innerCodeSuccess, innerCodeFailure. lia. Qed.
Lemma is_typed_final code : is_typed code = true -> is_final code = false.
Proof. unfold is_typed, is_final, innerCodeRequest, innerCodeResponse, innerCodeSuccess, innerCodeFailure. lia. Qed.

Lemma read_eap_iff b code id type_ data hasType :
  Forall is_u8 b ->
  read_eap b = Some (code, id, type_, data, hasType) <-> eap_ok code id type_ data hasType /\ eap_octets code id type_ data = b.
Proof.
  intros Hb. unfold eap_ok, eap_octets. split.
  - unfold read_eap. destruct b as [|c [|i [|hi [|lo rest]]]]; try discriminate. forall_hyps.
    destruct (Z.eqb_spec (be_u16 hi lo) (4 + len rest)) as [Hn|]; cbn [negb]; [|discriminate].
    destruct (is_final c) eqn:Ef.
    + destruct rest; [|discriminate]. intros [= <- <- <- <- <-]. rewrite Ef. split; [split; [assumption|split; [constructor|repeat split]]|].
      rewrite be_u16_add in Hn by assumption. change (len []) with 0 in Hn. unfold is_u8 in *. repeat f_equal; lia.
    + destruct (is_typed c) eqn:Et; [|discriminate]. destruct rest as [|t rest]; [discriminate|]. intros [= <- <- <- <- <-].
      rewrite Ef, Et. forall_hyps. assert (4 + len (t :: rest) = 5 + len rest) as El by (rewrite len_cons; lia). rewrite El in Hn.
      pose proof (be_u16_range hi lo) as Hr. rewrite <- Hn at 2. rewrite put_be_u16 by assumption.
      assert (5 + len rest < 65536) by (rewrite <- Hn; apply Hr; assumption). by unfold is_u8 in *.
  - intros [(Hi & Hd & Hc) <-]. destruct (is_final code) eqn:Ef.
    + destruct Hc as (-> & -> & ->). unfold read_eap. by rewrite Ef.
    + destruct Hc as (Et & Ht & Hl & ->). unfold put_u16. cbn [app read_eap].
      pose proof (len_nonneg data). rewrite be_put_u16 by (unfold is_u16; lia). rewrite len_cons, Ef, Et.
      destruct (Z.eqb_spec (5 + len data) (4 + (1 + len data))); [reflexivity|lia].
Qed.

Lemma DecodeInner_read b p :
  DecodeInner b = Ok p <-> read_eap b = Some (ip_Code p, ip_Identifier p, ip_Type p, ip_Data p, ip_HasType p).
Proof.
  unfold DecodeInner, read_eap. destruct b as [|c [|i [|hi [|lo rest]]]]; try (split; discriminate).
  rewrite !len_cons. pose proof (len_nonneg rest). destruct (Z.ltb_spec (1 + (1 + (1 + (1 + len rest)))) 4); [lia|].
  change (index (c :: i :: hi :: lo :: rest) 2) with hi. change (index (c :: i :: hi :: lo :: rest) 3) with lo.
  change (index (c :: i :: hi :: lo :: rest) 0) with c. change (index (c :: i :: hi :: lo :: rest) 1) with i.
  replace (1 + (1 + (1 + (1 + len rest)))) with (4 + len rest) by lia.
  destruct (Z.eqb_spec (be_u16 hi lo) (4 + len rest)) as [Hn|]; cbn [negb orb]; [|split; discriminate]. rewrite Hn.
  destruct (Z.ltb_spec (4 + len rest) 4); [lia|]. fold (is_final c). fold (is_typed c). destruct (is_final c).
  - destruct rest as [|t rest]; [split; [by intros <-%Ok_inj|destruct p; cbn; intros [= <- <- <- <- <-]; reflexivity]|]. rewrite len_cons. pose proof (len_nonneg rest).
    destruct (Z.eqb_spec (4 + (1 + len rest)) 4); [lia|]. split; discriminate.
  - destruct (is_typed c); [|split; discriminate]. destruct rest as [|t rest]; [split; discriminate|].
    rewrite len_cons. pose proof (len_nonneg rest). destruct (Z.ltb_spec (4 + (1 + len rest)) 5); [lia|].
    change (index (c :: i :: hi :: lo :: t :: rest) 4) with t.
    assert ((if 4 + (1 + len rest) >? 5 then slice (c :: i :: hi :: lo :: t :: rest) 5 (4 + (1 + len rest)) else []) = rest) as ->.
    { rewrite Z.gtb_ltb. destruct (Z.ltb_spec 5 (4 + (1 + len rest))) as [Hl|Hl]; [|symmetry; apply len_zero; lia].
      assert (4 + (1 + len rest) = len (c :: i :: hi :: lo :: t :: rest)) as -> by (rewrite !len_cons; lia). by rewrite slice_from by lia. }
    split; [by intros <-%Ok_inj|]. destruct p; cbn. by intros [= <- <- <- <- <-].
Qed.

Lemma DecodeInner_iff b p :
  Forall is_u8 b ->
  DecodeInner b = Ok p <-> eap_ok (ip_Code p) (ip_Identifier p) (ip_Type p) (ip_Data p) (ip_HasType p) /\ EncodeInner p = b.
Proof. intros Hb. rewrite DecodeInner_read, EncodeInner_octets. by apply read_eap_iff. Qed.

(** ** Flights: fragments and reassembly *)

Section Flights.
Context {C : Type} `{TLSConn C}.
#[local] Notation tunnel := (Tunnel C).

(** A body arrives. *)
Definition receive (t : tunnel) (body : bytes) : tunnel * option bytes :=
  match Parse body with Ok p => BufferFragment t p | Err _ => (t, None) end.
Fixpoint receive_all (t : tunnel) (bodies : list bytes) : tunnel * list (option bytes) :=
  match bodies with
  | [] => (t, [])
  | b :: bodies => let '(t, got) := receive t b in let '(t, rest) := receive_all t bodies in (t, got :: rest)
  end.

(** The bodies still to be sent, by [NextFragment]. *)
Fixpoint drain (fuel : nat) (t : tunnel) : tunnel * list bytes :=
  match fuel with
  | O => (t, [])
  | S fuel =>
    match NextFragment t with
    | (t, None) => (t, [])
    | (t, Some p) => let '(t, rest) := drain fuel t in (t, p :: rest)
    end
  end.

(** No flight is being reassembled. *)
Definition clean (t : tunnel) : Prop := tn_frag t = [] /\ tn_fragLen t = 0 /\ tn_fragErr t = None.

(** What the buffers always satisfy. *)
Record frag_ok (t : tunnel) : Prop := {
  fo_frag : len (tn_frag t) <= MaxTLSFlightBytes;
  fo_len : 0 <= tn_fragLen t <= MaxTLSFlightBytes;
  fo_within : 0 < tn_fragLen t -> len (tn_frag t) <= tn_fragLen t;
}.

Lemma max_flight : MaxTLSFlightBytes = 65536.
Proof. reflexivity. Qed.

Lemma clean_ok t : clean t -> frag_ok t.
Proof. intros (Hf & Hl & _). pose proof max_flight. split; rewrite ?Hf, ?Hl; change (len []) with 0; lia. Qed.

(** An octet string never has a negative announced length. *)
Lemma BufferFragment_ok t p :
  0 <= pl_TLSMessageLen p -> frag_ok t ->
  frag_ok (fst (BufferFragment t p))
  /\ (forall d, snd (BufferFragment t p) = Some d -> len d <= MaxTLSFlightBytes /\ clean (fst (BufferFragment t p)))
  /\ (tn_fragErr t <> None -> BufferFragment t p = (t, None)).
Proof.
  intros Hn [H1 H2 H3]. pose proof max_flight as Hm. pose proof (len_nonneg (tn_frag t)). pose proof (len_nonneg (pl_TLSData p)). unfold BufferFragment.
  destruct (tn_fragErr t) as [e|]; [split; [by split|split; [discriminate|reflexivity]]|]. cbv zeta.
  assert (forall frag n err, len frag <= MaxTLSFlightBytes -> 0 <= n <= MaxTLSFlightBytes -> (0 < n -> len frag <= n) -> frag_ok (with_frag t frag n err)) as Hok by (by split).
  assert (len (@nil Z) = 0) as Hnil by reflexivity.
  destruct (_ && negb (pl_LengthIncluded p)) eqn:E1; cbn [fst snd].
  { split; [by apply Hok|split; [discriminate|by intros []]]. }
  destruct (pl_LengthIncluded p && _) eqn:E2; cbn [fst snd].
  { split; [apply Hok; lia|split; [discriminate|by intros []]]. }
  set (n := if pl_LengthIncluded p then pl_TLSMessageLen p else tn_fragLen t).
  assert (0 <= n <= MaxTLSFlightBytes /\ (0 < n -> tn_fragLen t = n \/ len (tn_frag t) = 0)) as [Hn' Hfl].
  { unfold n. destruct (pl_LengthIncluded p); [|split; [lia|by left]]. cbn [andb] in E2.
    rewrite !orb_false_iff, !negb_false_iff, Z.gtb_ltb, Z.ltb_ge, Z.eqb_eq, Z.eqb_neq in E2. lia. }
  destruct ((len (pl_TLSData p) >? _) || _) eqn:E3; cbn [fst snd].
  { split; [apply Hok; lia|split; [discriminate|by intros []]]. }
  rewrite orb_false_iff, andb_false_iff, !Z.gtb_ltb, !Z.ltb_ge in E3. destruct E3 as [E3 E4].
  assert (len (tn_frag t ++ pl_TLSData p) = len (tn_frag t) + len (pl_TLSData p)) as Hl by apply len_app.
  destruct (pl_MoreFragments p); cbn [fst snd].
  { split; [apply Hok; lia|split; [discriminate|by intros []]]. }
  destruct ((n >? 0) && _) eqn:E5; cbn [fst snd].
  { split; [apply Hok; lia|split; [discriminate|by intros []]]. }
  split; [apply Hok; lia|]. split; [|by intros []]. intros d [= <-]. split; [lia|by repeat split].
Qed.

(** One body of a flight. *)
Lemma receive_payload t p : payload_ok p -> receive t (Encode p) = BufferFragment t p.
Proof. intros Hp. unfold receive. by rewrite Parse_Encode. Qed.

Lemma Forall_slice {A} (P : A -> Prop) (l : list A) a b : Forall P l -> Forall P (slice l a b).
Proof. intros Hl. unfold slice. by apply Forall_take, Forall_drop. Qed.

Lemma slice_split (b : bytes) n : 0 <= n <= len b -> b = slice b 0 n ++ slice b n (len b).
Proof. intros Hn. rewrite slice_0, slice_from by lia. by rewrite take_drop. Qed.

(** The rest of a flight arrives. *)
Lemma receive_rest fuel (t : tunnel) (done_ rest : bytes) total :
  (length rest <= fuel)%nat -> Forall is_u8 rest -> rest <> [] -> done_ <> [] -> total = len done_ + len rest -> total <= MaxTLSFlightBytes ->
  receive_all (with_frag t done_ total None) (flight_loop fuel total rest false)
  = (with_frag t [] 0 None, replicate (length (flight_loop fuel total rest false) - 1) None ++ [Some (done_ ++ rest)]).
Proof.
  revert done_ rest. induction fuel as [|fuel IH]; intros done_ rest Hf Hb Hr Hd Ht Hm.
  { destruct rest; [done|]. cbn in Hf. lia. }
  cbn [flight_loop]. assert (0 < len rest) as Hpos.
  { destruct rest as [|x r]; [done|]. rewrite len_cons. pose proof (len_nonneg r). lia. }
  assert (0 < len done_) as Hdpos.
  { destruct done_ as [|x r]; [done|]. rewrite len_cons. pose proof (len_nonneg r). lia. }
  rewrite Z.gtb_ltb. destruct (Z.ltb_spec 0 (len rest)); [|lia].
  set (n := if len rest >? MaxTLSPerMessage then MaxTLSPerMessage else len rest).
  assert (0 < n <= len rest /\ (n = len rest \/ n = MaxTLSPerMessage)) as [Hn Hn'].
  { unfold n, MaxTLSPerMessage. rewrite Z.gtb_ltb. destruct (Z.ltb_spec 1000 (len rest)); lia. }
  assert (len (slice rest 0 n) = n) as Hsl by (rewrite len_slice; lia).
  set (p := mkPayload false (n <? len rest) false Version0 0 (slice rest 0 n)).
  assert (payload_ok p) as Hp by (split; [reflexivity|]; split; [by apply Forall_slice|reflexivity]).
  cbn [receive_all]. rewrite receive_payload by exact Hp.
  assert (BufferFragment (with_frag t done_ total None) p =
    if n <? len rest then (with_frag t (done_ ++ slice rest 0 n) total None, None) else (with_frag t [] 0 None, Some (done_ ++ slice rest 0 n))) as ->.
  { unfold BufferFragment, p. cbn [with_frag tn_fragErr tn_frag tn_fragLen pl_MoreFragments pl_LengthIncluded pl_TLSData andb negb].
    destruct (Z.eqb_spec (len done_) 0); [lia|]. rewrite andb_false_r. cbn [andb]. rewrite Hsl, !Z.gtb_ltb.
    destruct (Z.ltb_spec (MaxTLSFlightBytes - len done_) n); [lia|]. destruct (Z.ltb_spec 0 total); [|lia].
    destruct (Z.ltb_spec total (len done_ + n)); [lia|]. cbn [orb andb]. destruct (Z.ltb_spec n (len rest)); [reflexivity|].
    rewrite len_app, Hsl. destruct (Z.eqb_spec (len done_ + n) total); [reflexivity|lia]. }
  destruct (Z.ltb_spec n (len rest)) as [Hlt|Hge].
  - rewrite IH.
    + cbn [length]. rewrite Nat.sub_succ, Nat.sub_0_r.
      destruct (flight_loop fuel total (slice rest n (len rest)) false) as [|q qs] eqn:Eq.
      { exfalso. assert (len (slice rest n (len rest)) = len rest - n) as Hl by (apply len_slice; lia).
        destruct fuel; [unfold len in *; lia|]. cbn [flight_loop] in Eq. rewrite Hl, Z.gtb_ltb in Eq.
        destruct (Z.ltb_spec 0 (len rest - n)); [discriminate Eq|lia]. }
      cbn [length]. rewrite Nat.sub_succ, Nat.sub_0_r. cbn [replicate app].
      rewrite <- (app_assoc done_), <- (slice_split rest n) by lia. reflexivity.
    + unfold slice. rewrite length_take, length_drop. unfold len in *. lia.
    + by apply Forall_slice.
    + intros He. pose proof (len_slice rest n (len rest)) as Hl. rewrite He in Hl. change (len []) with 0 in Hl. lia.
    + destruct done_; [done|]. discriminate.
    + rewrite len_app, Hsl, len_slice by lia. lia.
    + assumption.
  - assert (n = len rest) as -> by lia. rewrite slice_all. assert (slice rest (len rest) (len rest) = []) as ->.
    { apply len_zero. rewrite len_slice by lia. lia. }
    destruct fuel; reflexivity.
Qed.

Lemma receive_ok t body :
  Forall is_u8 body -> frag_ok t ->
  frag_ok (fst (receive t body))
  /\ (forall d, snd (receive t body) = Some d -> len d <= MaxTLSFlightBytes /\ clean (fst (receive t body)))
  /\ (tn_fragErr t <> None -> receive t body = (t, None)).
Proof.
  intros Hb Ht. unfold receive. destruct (Parse body) as [p|] eqn:E; [|by split; [|split]]. apply BufferFragment_ok; [|assumption].
  destruct (Parse_Ok _ _ Hb E) as [(_ & _ & Hn) _]. destruct (pl_LengthIncluded p); [apply Hn|by rewrite Hn].
Qed.

Lemma receive_all_ok t bodies : Forall (Forall is_u8) bodies -> frag_ok t -> frag_ok (fst (receive_all t bodies)).
Proof.
  intros Hb. revert t. induction Hb as [|b bodies Hb0 Hb IH]; intros t Ht; [exact Ht|]. cbn [receive_all].
  destruct (receive_ok t b Hb0 Ht) as (H1 & _). destruct (receive t b) as [t1 got]. specialize (IH t1 H1).
  by destruct (receive_all t1 bodies).
Qed.

Lemma with_frag_clean t : clean t -> with_frag t [] 0 None = t.
Proof. intros (H1 & H2 & H3). destruct t. cbn in *. by subst. Qed.

Lemma receive_plain t d : clean t -> Forall is_u8 d -> len d <= MaxTLSFlightBytes -> receive t (Encode (plain_payload d)) = (t, Some d).
Proof.
  intros Hc Hd Hl. rewrite receive_payload by by split. rewrite <- (with_frag_clean t Hc) at 1. unfold BufferFragment.
  cbn [with_frag tn_fragErr tn_frag tn_fragLen plain_payload pl_MoreFragments pl_LengthIncluded pl_TLSData andb negb orb].
  change (len []) with 0. rewrite !Z.gtb_ltb. destruct (Z.ltb_spec (MaxTLSFlightBytes - 0) (len d)); [lia|]. cbn [orb app].
  change (0 <? 0) with false. cbn [andb]. rewrite !(with_frag_clean t Hc). reflexivity.
Qed.

(** A flight that the peer reassembles: its fragments in their order give it
    back, and nothing before the last one. *)
Lemma flight_reassembled t d :
  clean t -> Forall is_u8 d -> len d <= MaxTLSFlightBytes ->
  receive_all t (EncodeFlight d) = (t, replicate (length (EncodeFlight d) - 1) None ++ [Some d]).
Proof.
  intros Hc Hd Hl. pose proof max_flight as Hm. pose proof (len_nonneg d). unfold EncodeFlight.
  destruct (Z.eqb_spec (len d) 0) as [Hz|Hz].
  { apply len_zero in Hz as ->. cbn [receive_all]. by rewrite receive_plain. }
  destruct (Z.leb_spec (len d) MaxTLSPerMessage) as [Hs|Hs].
  { cbn [receive_all]. by rewrite receive_plain. }
  assert (exists fuel, length d = S fuel) as [fuel Ef] by (destruct d; [done|by eexists]). rewrite Ef. cbn [flight_loop].
  rewrite !Z.gtb_ltb. destruct (Z.ltb_spec 0 (len d)); [|lia]. destruct (Z.ltb_spec MaxTLSPerMessage (len d)) as [_|]; [|lia].
  unfold MaxTLSPerMessage in *. destruct (Z.ltb_spec 1000 (len d)); [|lia].
  assert (len (slice d 0 1000) = 1000) as Hsl by (rewrite len_slice; lia).
  assert (is_u32 (len d)) as Hu by (unfold is_u32; lia). rewrite to_u32_id by exact Hu.
  cbn [receive_all]. rewrite receive_payload by (split; [reflexivity|]; split; [by apply Forall_slice|exact Hu]).
  assert (BufferFragment t (mkPayload true true false Version0 (len d) (slice d 0 1000)) = (with_frag t (slice d 0 1000) (len d) None, None)) as ->.
  { rewrite <- (with_frag_clean t Hc). unfold BufferFragment.
    cbn [with_frag tn_fragErr tn_frag tn_fragLen pl_MoreFragments pl_LengthIncluded pl_TLSMessageLen pl_TLSData andb negb orb].
    rewrite Hsl, !Z.gtb_ltb. change (len []) with 0. destruct (Z.eqb_spec (len d) 0); [lia|].
    destruct (Z.ltb_spec MaxTLSFlightBytes (len d)); [lia|]. destruct (Z.ltb_spec (MaxTLSFlightBytes - 0) 1000); [lia|].
    destruct (Z.ltb_spec (len d) (0 + 1000)); [lia|]. destruct (Z.ltb_spec 0 (len d)); [|lia]. reflexivity. }
  assert (len (slice d 1000 (len d)) = len d - 1000) as Hrl by (apply len_slice; lia).
  rewrite receive_rest.
  - rewrite with_frag_clean by assumption. rewrite <- (slice_split d 1000) by lia. cbn [length].
    assert (length (flight_loop fuel (len d) (slice d 1000 (len d)) false) <> 0)%nat as Hne.
    { destruct fuel; [unfold len in *; lia|]. cbn [flight_loop]. rewrite Hrl, Z.gtb_ltb. destruct (Z.ltb_spec 0 (len d - 1000)); [|lia]. discriminate. }
    destruct (length (flight_loop fuel _ _ _)) as [|m]; [done|]. rewrite !Nat.sub_succ, !Nat.sub_0_r. reflexivity.
  - unfold slice. rewrite length_take, length_drop. unfold len in *. lia.
  - by apply Forall_slice.
  - intros He. rewrite He in Hrl. change (len []) with 0 in Hrl. lia.
  - intros He. rewrite He in Hsl. discriminate Hsl.
  - rewrite Hsl, Hrl. lia.
  - exact Hl.
Qed.

(** Every fragment fits in one concatenated EAP-Message. *)
Lemma Encode_len p : len (Encode p) <= 5 + len (pl_TLSData p).
Proof. rewrite Encode_spec, len_cons, len_app. destruct (pl_LengthIncluded p); rewrite ?len_put_u32; change (len []) with 0; lia. Qed.

Lemma flight_parts_fit fuel total rest first : Forall (fun b => len b <= 5 + MaxTLSPerMessage) (flight_loop fuel total rest first).
Proof.
  revert rest first. induction fuel as [|fuel IH]; intros rest first; cbn [flight_loop]; [constructor|].
  destruct (len rest >? 0); [|constructor]. constructor; [|apply IH]. etransitivity; [apply Encode_len|]. cbn [pl_TLSData].
  unfold MaxTLSPerMessage. rewrite Z.gtb_ltb. pose proof (len_nonneg rest).
  destruct (Z.ltb_spec 1000 (len rest)); rewrite len_slice by lia; lia.
Qed.
Lemma EncodeFlight_fits d : Forall (fun b => len b <= 5 + MaxTLSPerMessage) (EncodeFlight d) /\ EncodeFlight d <> [].
Proof.
  unfold EncodeFlight. destruct (Z.eqb_spec (len d) 0) as [Hz|Hz].
  { split; [|discriminate]. constructor; [|constructor]. etransitivity; [apply Encode_len|]. vm_compute. discriminate. }
  destruct (Z.leb_spec (len d) MaxTLSPerMessage) as [Hs|Hs].
  { split; [|discriminate]. constructor; [|constructor]. etransitivity; [apply Encode_len|]. cbn [pl_TLSData plain_payload]. lia. }
  split; [apply flight_parts_fit|]. destruct d as [|x d]; [done|]. cbn [length flight_loop]. rewrite len_cons, Z.gtb_ltb.
  pose proof (len_nonneg d). destruct (Z.ltb_spec 0 (1 + len d)); [discriminate|lia].
Qed.

(** What is queued is sent, in order. *)
Lemma drain_pending t : drain (S (length (tn_pending t))) t = (with_pending t [], tn_pending t).
Proof.
  assert (forall parts, drain (S (length parts)) (with_pending t parts) = (with_pending t [], parts)) as Hp.
  { induction parts as [|p parts IH]; [reflexivity|]. change (drain (S (length (p :: parts))) (with_pending t (p :: parts)))
      with (let '(t', rest) := drain (S (length parts)) (with_pending t parts) in (t', p :: rest)). by rewrite IH. }
  specialize (Hp (tn_pending t)). by destruct t.
Qed.
Lemma QueueFlight_sends t d :
  exists first parts, EncodeFlight d = first :: parts /\ QueueFlight t d = (with_pending t parts, first)
    /\ drain (S (length parts)) (with_pending t parts) = (with_pending t [], parts).
Proof.
  unfold QueueFlight. destruct (EncodeFlight d) as [|first parts] eqn:E; [by apply EncodeFlight_fits in E|].
  exists first, parts. split; [reflexivity|]. split; [reflexivity|]. exact (drain_pending (with_pending t parts)).
Qed.
End Flights.

(** ** The registry: bounds, expiry, closing *)

Section RegistryFacts.
Context {C : Type} `{TLSConn C}.
#[local] Notation tunnel := (Tunnel C).
#[local] Notation registry := (Registry C).

Lemma Close_closed (t : tunnel) : tn_closed (Close t) = true.
Proof. unfold Close. by destruct (tn_closed t) eqn:E. Qed.

(** The entries that have not expired. *)
Definition live (r : registry) (now : Z) : gmap bytes registryEntry := filter (fun x => now < re_expires x.2) (rg_items r).

(** The loop that removes the entries of a class. *)
Definition remove_loop (gone : registryEntry -> bool) (r : registry) (l : list (bytes * registryEntry)) : registry :=
  foldr (fun '(id, e) r => if gone e then registry_remove r id e else r) r l.

Lemma remove_loop_conf gone r l : rg_maxEntries (remove_loop gone r l) = rg_maxEntries r /\ rg_ttl (remove_loop gone r l) = rg_ttl r.
Proof. induction l as [|[id e] l [IH1 IH2]]; [done|]. cbn [remove_loop foldr]. fold (remove_loop gone r l). by destruct (gone e). Qed.

Lemma remove_loop_items gone r l k :
  NoDup l.*1 ->
  rg_items (remove_loop gone r l) !! k = if existsb (fun x => bool_decide (x.1 = k) && gone x.2) l then None else rg_items r !! k.
Proof.
  induction l as [|[id e] l IH]; intros Hnd; [done|]. apply list.NoDup_cons in Hnd as [Hni Hnd].
  cbn [remove_loop foldr existsb fst snd]. fold (remove_loop gone r l). case_bool_decide as Hk; cbn [andb].
  - subst k. destruct (gone e); cbn [orb registry_remove with_items rg_items]; [apply lookup_delete_eq|]. by apply IH.
  - destruct (gone e); [cbn [registry_remove with_items rg_items]; rewrite lookup_delete_ne by assumption|]; by apply IH.
Qed.

Lemma remove_loop_heap gone r l a :
  (forall t, rg_heap r !! a = Some t ->
     exists t', rg_heap (remove_loop gone r l) !! a = Some t'
       /\ (tn_closed t = true \/ (exists x, x ∈ l /\ gone x.2 = true /\ re_tunnel x.2 = a) -> tn_closed t' = true)
       /\ ((forall x, x ∈ l -> gone x.2 = true -> re_tunnel x.2 <> a) -> t' = t)).
Proof.
  intros t Ht. induction l as [|[id e] l (t' & Ht' & Hc & Hk)]; cbn [remove_loop foldr]; [|fold (remove_loop gone r l)].
  { exists t. split; [exact Ht|]. split; [|done]. intros [Hc|(x & Hx & _)]; [exact Hc|by apply elem_of_nil in Hx]. }
  destruct (gone e) eqn:Eg; cbn [registry_remove with_items rg_heap].
  - destruct (decide (re_tunnel e = a)) as [<-|Hne].
    + exists (Close t'). rewrite lookup_alter_eq, Ht'. split; [reflexivity|]. split; [intros _; apply Close_closed|].
      intros Hno. exfalso. apply (Hno (id, e)); [left|exact Eg|reflexivity].
    + exists t'. rewrite lookup_alter_ne by assumption. split; [exact Ht'|]. split.
      * intros [Hcl|(x & Hx & Hg & Ha)]; [apply Hc; by left|]. apply Hc. right. exists x. apply elem_of_cons in Hx as [->|Hx]; [done|by split].
      * intros Hno. apply Hk. intros x Hx. apply Hno. by right.
  - exists t'. split; [exact Ht'|]. split.
    + intros [Hcl|(x & Hx & Hg & Ha)]; [apply Hc; by left|]. apply Hc. right. exists x.
      apply elem_of_cons in Hx as [->|Hx]; [cbn in Hg; congruence|by split].
    + intros Hno. apply Hk. intros x Hx. apply Hno. by right.
Qed.

Lemma map_keys_NoDup (r : registry) : NoDup (map_to_list (rg_items r)).*1.
Proof. apply NoDup_fst_map_to_list. Qed.

Lemma existsb_entry (gone : registryEntry -> bool) (m : gmap bytes registryEntry) k :
  existsb (fun x => bool_decide (x.1 = k) && gone x.2) (map_to_list m) = match m !! k with Some e => gone e | None => false end.
Proof.
  apply eq_bool_prop_intro. rewrite !Is_true_true, existsb_exists. split.
  - intros ([id e] & Hin & He). cbn in He. apply andb_true_iff in He as [Hk%bool_decide_eq_true Hg]. subst id.
    apply list_elem_of_In, elem_of_map_to_list in Hin. by rewrite Hin.
  - destruct (m !! k) as [e|] eqn:E; [|done]. intros Hg. exists (k, e). split; [by apply list_elem_of_In, elem_of_map_to_list|].
    cbn. by rewrite bool_decide_eq_true_2.
Qed.

(** What removing a class leaves: the other entries, and the tunnels of the
    removed ones closed. *)
Record removed (gone : registryEntry -> bool) (r r' : registry) : Prop := {
  rv_items : rg_items r' = filter (fun x => gone x.2 = false) (rg_items r);
  rv_max : rg_maxEntries r' = rg_maxEntries r;
  rv_ttl : rg_ttl r' = rg_ttl r;
  rv_closed : forall id e t, rg_items r !! id = Some e -> gone e = true -> rg_heap r !! re_tunnel e = Some t ->
    exists t', rg_heap r' !! re_tunnel e = Some t' /\ tn_closed t' = true;
  rv_kept : forall a, (forall id e, rg_items r !! id = Some e -> gone e = true -> re_tunnel e <> a) -> forall t, rg_heap r !! a = Some t -> rg_heap r' !! a = Some t;
}.

Lemma remove_loop_removed gone r : removed gone r (remove_loop gone r (map_to_list (rg_items r))).
Proof.
  pose proof (remove_loop_conf gone r (map_to_list (rg_items r))) as [H1 H2]. split; [|assumption..| |].
  - apply map_eq. intros k. rewrite remove_loop_items, existsb_entry by apply map_keys_NoDup. rewrite map_lookup_filter.
    destruct (rg_items r !! k) as [e|]; [|reflexivity]. cbn. destruct (gone e) eqn:Eg.
    + by rewrite option_guard_False.
    + by rewrite option_guard_True.
  - intros id e t Hi Hg Ht. destruct (remove_loop_heap gone r (map_to_list (rg_items r)) _ t Ht) as (t' & Ht' & Hc & _).
    exists t'. split; [exact Ht'|]. apply Hc. right. exists (id, e). split; [by apply elem_of_map_to_list|by split].
  - intros a Hno t Ht. destruct (remove_loop_heap gone r (map_to_list (rg_items r)) _ t Ht) as (t' & Ht' & _ & Hk). rewrite Ht'. f_equal. apply Hk.
    intros [id e] Hx%elem_of_map_to_list Hg. by apply (Hno id e).
Qed.
Lemma expire_removed r now : removed (re_expired now) r (registry_expireLocked r now).
Proof. apply remove_loop_removed. Qed.
Lemma tunnels_live r now : rg_items (registry_expireLocked r now) = live r now.
Proof.
  rewrite (rv_items _ _ _ (expire_removed r now)). unfold live. apply map_filter_ext. intros i x _. unfold re_expired. cbn.
  rewrite negb_false_iff. apply Z.ltb_lt.
Qed.

(** *** Histories *)

(** An operation at a time; [OpTunnel] is a holder's change of a tunnel. *)
Inductive registry_op :=
| OpNew (conn : C)
| OpPut (id : bytes) (tunnel : nat)
| OpGet (id : bytes)
| OpDelete (id : bytes)
| OpTimer
| OpReset
| OpTunnel (a : nat) (f : tunnel -> tunnel).

Definition registry_step (r : registry) (o : Z * registry_op) : registry :=
  let '(now, op) := o in
  match op with
  | OpNew conn => fst (allocate r conn)
  | OpPut id a => fst (Put r now id a)
  | OpGet id => fst (Get r now id)
  | OpDelete id => Delete r id
  | OpTimer => registry_timer r now
  | OpReset => registry_Reset r
  | OpTunnel a f => with_items r (rg_items r) (alter f a (rg_heap r))
  end.
Definition registry_run (r : registry) (ops : list (Z * registry_op)) : registry := fold_left registry_step ops r.

Lemma Reset_removed r : removed (fun _ => true) r (registry_Reset r).
Proof. exact (remove_loop_removed (fun _ => true) r). Qed.

Lemma live_le r now : (size (live r now) <= size (rg_items r))%nat.
Proof. apply map_size_filter. Qed.

Lemma Put_spec r now id a :
  let '(r', ok) := Put r now id a in
  (ok = true <-> id <> [] /\ live r now !! id = None /\ Z.of_nat (size (live r now)) < rg_maxEntries r)
  /\ rg_items r' = (if bool_decide (id = []) then rg_items r
                    else if ok then <[id := mkRegistryEntry a (now + rg_ttl r)]> (live r now) else live r now)
  /\ rg_maxEntries r' = rg_maxEntries r /\ rg_ttl r' = rg_ttl r.
Proof.
  unfold Put. pose proof (expire_removed r now) as [_ Hm Ht _ _]. destruct (Z.eqb_spec (len id) 0) as [Hz|Hz].
  { apply len_zero in Hz as ->. split; [split; [discriminate|by intros []]|]. by rewrite bool_decide_eq_true_2. }
  assert (id <> []) as Hid by (intros ->; by apply Hz). rewrite (bool_decide_eq_false_2 (id = [])) by assumption.
  rewrite tunnels_live, Hm, Z.geb_leb. case_bool_decide as Hs; cbn [orb].
  - split; [split; [discriminate|intros (_ & H0 & _); rewrite H0 in Hs; by destruct Hs]|]. by rewrite tunnels_live.
  - apply eq_None_not_Some in Hs. destruct (Z.leb_spec (rg_maxEntries r) (Z.of_nat (size (live r now)))).
    + split; [split; [discriminate|intros (_ & _ & ?); lia]|]. by rewrite tunnels_live.
    + split; [by split|]. cbn [with_items rg_items rg_maxEntries rg_ttl]. by rewrite Ht.
Qed.

Lemma Get_spec r now id :
  let '(r', res) := Get r now id in
  match res with
  | Some a => exists e, live r now !! id = Some e /\ a = re_tunnel e
      /\ rg_items r' = <[id := mkRegistryEntry a (now + rg_ttl r)]> (live r now)
  | None => live r now !! id = None \/ id = []
  end
  /\ (size (rg_items r') <= size (rg_items r))%nat /\ rg_maxEntries r' = rg_maxEntries r /\ rg_ttl r' = rg_ttl r.
Proof.
  unfold Get. pose proof (expire_removed r now) as [_ Hm Ht _ _]. pose proof (live_le r now) as Hle.
  destruct (Z.eqb_spec (len id) 0) as [Hz|Hz].
  { apply len_zero in Hz as ->. split; [by right|]. by split. }
  rewrite tunnels_live. destruct (live r now !! id) as [e|] eqn:E.
  - cbn [with_items rg_items rg_maxEntries rg_ttl]. rewrite Ht. split; [by exists e|]. split; [|by split].
    by rewrite map_size_insert_Some by (by exists e).
  - split; [by left|]. rewrite tunnels_live. by split.
Qed.

Lemma registry_step_size r o :
  Z.of_nat (size (rg_items r)) <= rg_maxEntries r ->
  Z.of_nat (size (rg_items (registry_step r o))) <= rg_maxEntries r /\ rg_maxEntries (registry_step r o) = rg_maxEntries r
  /\ rg_ttl (registry_step r o) = rg_ttl r.
Proof.
  intros Hr. destruct o as [now [conn|id a|id|id| | |a f]]; cbn [registry_step].
  - done.
  - pose proof (Put_spec r now id a) as H'. destruct (Put r now id a) as [r' ok]. cbn [fst]. destruct H' as (Hok & -> & -> & ->).
    pose proof (live_le r now) as Hle. split; [|done]. case_bool_decide; [assumption|]. destruct ok; [|lia].
    destruct (proj1 Hok eq_refl) as (_ & Hn & Hlt). rewrite map_size_insert_None by assumption. lia.
  - pose proof (Get_spec r now id) as H'. destruct (Get r now id) as [r' res]. cbn [fst]. destruct H' as (_ & Hs & -> & ->). split; [lia|done].
  - unfold Delete. destruct (rg_items r !! id); [|done]. cbn [registry_remove with_items rg_items rg_maxEntries rg_ttl]. split; [|done].
    pose proof (map_size_delete_le (rg_items r) id). lia.
  - unfold registry_timer. pose proof (expire_removed r now) as [_ -> -> _ _]. rewrite tunnels_live. pose proof (live_le r now). split; [lia|done].
  - destruct (Reset_removed r) as [-> -> -> _ _]. split; [|done]. pose proof (map_size_filter (fun x : bytes * registryEntry => true = false) (rg_items r)) as Hs.
    lia.
  - done.
Qed.

Lemma registry_run_size r ops :
  Z.of_nat (size (rg_items r)) <= rg_maxEntries r ->
  Z.of_nat (size (rg_items (registry_run r ops))) <= rg_maxEntries r /\ rg_maxEntries (registry_run r ops) = rg_maxEntries r
  /\ rg_ttl (registry_run r ops) = rg_ttl r.
Proof.
  revert r. induction ops as [|o ops IH]; intros r Hr; [done|]. cbn [registry_run fold_left]. fold (registry_run (registry_step r o) ops).
  destruct (registry_step_size r o Hr) as (H1 & H2 & H3). rewrite <- H2, <- H3. apply IH. by rewrite H2.
Qed.

(** A tunnel that loses its place in the registry has been closed. *)
Lemma registry_step_closes r now op id e t :
  (forall a f, op <> OpTunnel a f) -> rg_items r !! id = Some e -> rg_heap r !! re_tunnel e = Some t ->
  (forall e', rg_items (registry_step r (now, op)) !! id = Some e' -> re_tunnel e' <> re_tunnel e) ->
  exists t', rg_heap (registry_step r (now, op)) !! re_tunnel e = Some t' /\ tn_closed t' = true.
Proof.
  intros Hop Hi Ht Hno.
  assert (forall r', rg_heap r' = rg_heap (registry_expireLocked r now) -> (re_expired now e = false -> live r now !! id = Some e -> False) ->
    exists t', rg_heap r' !! re_tunnel e = Some t' /\ tn_closed t' = true) as Hexp.
  { intros r' -> Hl. destruct (re_expired now e) eqn:Ee; [by eapply rv_closed; [apply expire_removed|..]|]. exfalso. apply Hl; [reflexivity|].
    unfold live. apply map_lookup_filter_Some. split; [assumption|]. unfold re_expired in Ee. cbn. apply negb_false_iff, Z.ltb_lt in Ee. exact Ee. }
  assert ((forall e', rg_items r !! id = Some e' -> re_tunnel e' <> re_tunnel e) -> False) as Hsame by (intros Hs; by apply (Hs e Hi)).
  destruct op as [conn|id' a|id'|id'| | |a f]; cbn [registry_step] in *.
  - by destruct (Hsame Hno).
  - pose proof (Put_spec r now id' a) as Hs. revert Hno Hs. unfold Put. destruct (len id' =? 0); [intros Hno _; by destruct (Hsame Hno)|].
    destruct (_ || _); cbn [fst with_items rg_items rg_heap].
    + intros Hno _. apply Hexp; [reflexivity|]. intros _ Hl. rewrite tunnels_live in Hno. by apply (Hno e).
    + intros Hno (Hok & _). destruct (proj1 Hok eq_refl) as (_ & Hn & _). apply Hexp; [reflexivity|]. intros _ Hl.
      rewrite tunnels_live in Hno. apply (Hno e); [|reflexivity]. rewrite lookup_insert_ne; [assumption|]. intros ->. congruence.
  - revert Hno. unfold Get. destruct (len id' =? 0); [intros Hno; by destruct (Hsame Hno)|]. rewrite tunnels_live.
    destruct (live r now !! id') as [e1|] eqn:E1; cbn [fst with_items rg_items rg_heap].
    + intros Hno. apply Hexp; [reflexivity|]. intros _ Hl. destruct (decide (id' = id)) as [->|Hne].
      * rewrite Hl in E1. injection E1 as <-. by apply (Hno _ (lookup_insert_eq _ _ _)).
      * apply (Hno e); [|reflexivity]. by rewrite lookup_insert_ne.
    + intros Hno. apply Hexp; [reflexivity|]. intros _ Hl. rewrite tunnels_live in Hno. by apply (Hno e).
  - revert Hno. unfold Delete. destruct (rg_items r !! id') as [e1|] eqn:E1; [|intros Hno; by destruct (Hsame Hno)].
    cbn [registry_remove with_items rg_items rg_heap]. intros Hno. destruct (decide (id' = id)) as [->|Hne].
    + rewrite Hi in E1. injection E1 as <-. exists (Close t). rewrite lookup_alter_eq, Ht. split; [reflexivity|apply Close_closed].
    + exfalso. apply (Hno e); [|reflexivity]. by rewrite lookup_delete_ne.
  - unfold registry_timer in *. apply Hexp; [reflexivity|]. intros _ Hl. rewrite tunnels_live in Hno. by apply (Hno e).
  - by eapply rv_closed; [apply Reset_removed|..].
  - by destruct (Hop a f).
Qed.
End RegistryFacts.

(** ** Properties *)

(** C40. PEAP framing is exact.  A body is what [Encode] writes of the payload
    [Parse] reads, up to the reserved bits, which are ignored; and a payload
    written is read back.  Likewise the inner packets, whose length field is the
    length of the octets.  A flight of at most 64 KiB queued for the peer is
    sent as bodies of at most 1005 octets, all of them and in order; a peer
    without a flight in progress that receives them gets the flight back, whole,
    at the last body and not before.  Whatever bodies arrive, the fragment
    buffer stays within 64 KiB and within the announced length, a complete
    flight leaves the buffers empty, and after an error nothing is accepted. *)
Theorem peap_framing {C : Type} `{TLSConn C} :
  (forall p, payload_ok p -> Parse (Encode p) = Ok p)
  /\ (forall data p, Forall is_u8 data -> Parse data = Ok p -> payload_ok p /\ Encode p = clear_reserved data)
  /\ (forall b rest, Parse (b :: rest) = Parse (Z.ldiff b reservedFlagBits :: rest))
  /\ (forall b p, Forall is_u8 b ->
        DecodeInner b = Ok p <-> eap_ok (ip_Code p) (ip_Identifier p) (ip_Type p) (ip_Data p) (ip_HasType p) /\ EncodeInner p = b)
  /\ (forall (t peer : Tunnel C) flight, Forall is_u8 flight -> len flight <= MaxTLSFlightBytes -> clean peer ->
        exists first parts, QueueFlight t flight = (with_pending t parts, first)
          /\ drain (S (length parts)) (with_pending t parts) = (with_pending t [], parts)
          /\ Forall (fun b => len b <= 5 + MaxTLSPerMessage) (first :: parts)
          /\ receive_all peer (first :: parts) = (peer, replicate (length parts) None ++ [Some flight]))
  /\ (forall (t : Tunnel C) bodies, frag_ok t -> Forall (Forall is_u8) bodies ->
        frag_ok (fst (receive_all t bodies))
        /\ forall body, Forall is_u8 body ->
             let t := fst (receive_all t bodies) in
             (forall d, snd (receive t body) = Some d -> len d <= MaxTLSFlightBytes /\ clean (fst (receive t body)))
             /\ (tn_fragErr t <> None -> receive t body = (t, None))).
Proof.
  split; [apply Parse_Encode|]. split; [intros data p; apply Parse_Ok|]. split; [apply Parse_cons|]. split; [intros b p; apply DecodeInner_iff|].
  split.
  - intros t peer flight Hb Hl Hc. destruct (QueueFlight_sends t flight) as (first & parts & E & Hq & Hd). exists first, parts.
    split; [exact Hq|]. split; [exact Hd|]. rewrite <- E. split; [apply EncodeFlight_fits|].
    rewrite flight_reassembled by assumption. rewrite E. cbn [length]. by rewrite Nat.sub_succ, Nat.sub_0_r.
  - intros t bodies Ht Hb. assert (frag_ok (fst (receive_all t bodies))) as Ho by by apply receive_all_ok.
    split; [exact Ho|]. intros body Hbody. cbv zeta. generalize dependent (fst (receive_all t bodies)). clear Ht. intros t' Ht'.
    destruct (receive_ok t' body Hbody Ht') as (_ & H1 & H2). by split.
Qed.

(** The registry of tunnels is bounded and closes what it drops.  Its
    capacity is at least one tunnel and, beyond that, one per reservation of
    256 KiB of the budget.  Over any history of operations the number of tunnels
    stays within it.  [Put] admits a tunnel exactly under a new name while there
    is room, and evicts only what has expired; [Get] finds exactly the live
    tunnels and extends the deadline of the one it returns; and a tunnel that
    loses its place has been closed. *)
Lemma registry_bounded {C : Type} `{TLSConn C} (entries bytes ttl : Z) (ops : list (Z * registry_op (C := C))) :
  let r0 := NewRegistryWithLimits entries bytes ttl in
  let r := registry_run r0 ops in
  1 <= rg_maxEntries r0
  /\ rg_maxEntries r0 * tunnelReservationBytes <= Z.max tunnelReservationBytes (if bytes <=? 0 then 1048576 else bytes)
  /\ Z.of_nat (size (rg_items r)) <= rg_maxEntries r0
  /\ (forall now id a, let '(r', ok) := Put r now id a in
        (ok = true <-> id <> [] /\ live r now !! id = None /\ Z.of_nat (size (live r now)) < rg_maxEntries r0)
        /\ (id <> [] -> rg_items r' = if ok then <[id := mkRegistryEntry a (now + rg_ttl r0)]> (live r now) else live r now))
  /\ (forall now id, let '(r', res) := Get r now id in
        match res with
        | Some a => exists e, live r now !! id = Some e /\ a = re_tunnel e /\ rg_items r' = <[id := mkRegistryEntry a (now + rg_ttl r0)]> (live r now)
        | None => live r now !! id = None \/ id = []
        end)
  /\ (forall now op id e t, (forall a f, op <> OpTunnel a f) -> rg_items r !! id = Some e -> rg_heap r !! re_tunnel e = Some t ->
        (forall e', rg_items (registry_step r (now, op)) !! id = Some e' -> re_tunnel e' <> re_tunnel e) ->
        exists t', rg_heap (registry_step r (now, op)) !! re_tunnel e = Some t' /\ tn_closed t' = true).
Proof.
  cbv zeta. set (r0 := NewRegistryWithLimits entries bytes ttl).
  assert (1 <= rg_maxEntries r0 /\ rg_maxEntries r0 * tunnelReservationBytes <= Z.max tunnelReservationBytes (if bytes <=? 0 then 1048576 else bytes)) as [H1 H2].
  { unfold r0, NewRegistryWithLimits. cbn [rg_maxEntries]. unfold tunnelCapacity. change (Z.shiftl 1 20) with 1048576.
    change tunnelReservationBytes with 262144. set (b := if bytes <=? 0 then 1048576 else bytes). assert (0 < b) by (unfold b; destruct (Z.leb_spec bytes 0); lia).
    set (n := if entries <=? 0 then 4096 else entries). rewrite Z.quot_div_nonneg by lia. pose proof (Z.mul_div_le b 262144 ltac:(lia)). lia. }
  split; [exact H1|]. split; [exact H2|]. destruct (registry_run_size r0 ops) as (Hs & Hm & Ht); [change (rg_items r0) with (∅ : gmap Prelude.bytes registryEntry); rewrite map_size_empty; lia|].
  split; [exact Hs|]. set (r := registry_run r0 ops) in *. split; [|split].
  - intros now id a. pose proof (Put_spec r now id a) as Hp. destruct (Put r now id a) as [r' ok]. rewrite Hm, Ht in Hp.
    destruct Hp as (Hok & Hi & _). split; [exact Hok|]. intros Hid. by rewrite bool_decide_eq_false_2 in Hi.
  - intros now id. pose proof (Get_spec r now id) as Hg. destruct (Get r now id) as [r' res]. rewrite Ht in Hg. exact (proj1 Hg).
  - intros now op id e t. apply registry_step_closes.
Qed.

(** A registry for one tunnel: the second finds no room until the first
    expires, and the first is then closed. *)
#[local] Instance idle_conn : TLSConn unit :=
  {| tls_next _ := TLSIdle; tls_got c _ := c; tls_put c _ := c; tls_status _ := HandshakeDone; tls_write c _ := c; tls_written _ := true;
     tls_read c _ := c; tls_answer _ := None; tls_close c := c |}.
Example registry_history :
  let r := registry_run (NewRegistryWithLimits 0 70000 10) [(0, OpNew tt); (0, OpNew tt); (1, OpPut [1] 0); (5, OpPut [2] 1)] in
  (snd (Get r 5 [1]), snd (Get r 5 [2]), snd (Put r 11 [2] 1%nat), tn_closed <$> rg_heap (fst (Put r 11 [2] 1%nat)) !! 0%nat)
  = (Some 0%nat, None, true, Some true).
Proof. vm_compute. reflexivity. Qed.
