(* ===== verification/RadiusAccess.v ===== *)
(** * RADIUS access decisions

    [internal/aaa/radius_access.go], [radius_access_attrs.go] and
    [radius_mschap.go]: credentials verified against a snapshot, then the
    access policy; and the part of [internal/radius/server] that turns an
    Access-Request into evidence and a decision into a signed reply
    ([access.go] without the EAP dispatch, [mschap.go]).  The dispatch and the
    EAP methods are in [RadiusEap].

    A snapshot is the credential view of [AaaAuthen] with the groups and the
    compiled policy engine.  Listener and carrier of an attempt are not read
    and left out; wiping has no model. *)

From Stdlib Require Import String.
From stdpp Require Import gmap strings sorting.
From S2P Require Import Prelude Text Md5 NetAddr StableSort Policy RadiusPolicy Domain MsChap Credentials AaaAuthen.
From S2P Require Import RadiusAttribute RadiusDictionary RadiusCodec RadiusCrypto RadiusReply RadiusChallenge.

#[local] Open Scope Z_scope.

(** ** The AAA facade: data *)

Inductive RadiusAccessOutcome := RadiusAccessAccept | RadiusAccessReject | RadiusAccessChallenge | RadiusAccessError.
#[export] Instance RadiusAccessOutcome_eq_dec : EqDecision RadiusAccessOutcome.
Proof. solve_decision. Defined.

Definition AccessReasonOK : string := "ok".
Definition AccessReasonBadCredentials : string := "reject_bad_credentials".
Definition AccessReasonPolicy : string := "reject_policy".
Definition AccessReasonUnsupportedMethod : string := "reject_unsupported_method".
Definition AccessReasonInternal : string := "internal_error".
Definition AccessReasonPasswordChangeRequired : string := "reject_password_change_required".

(** A published snapshot, as far as the facade reads it: [xn_UserGroups] and
    [xn_DefaultGroups] are [User.GroupIDs] and the default groups of a client,
    [xn_Group] is the enabled flag and the priority of a group. *)
Record AccessSnapshot := mkAccessSnapshot {
  xn_Auth : AuthSnapshot; xn_Engine : option RadiusPolicy.Engine;
  xn_UserGroups : gmap string (list string); xn_DefaultGroups : gmap string (list string); xn_Group : gmap string (bool * Z);
}.

(** [CredentialEvidence] as the code has it. *)
Record Evidence := mkEvidence { ev_Method : string; ev_Password : bytes; ev_CHAPID : Z; ev_Challenge : bytes; ev_Response : bytes }.

(** What [verifyAgainst] makes of it. *)
Definition evidence_of (ev : Evidence) : CredentialEvidence :=
  if str_eqb (ev_Method ev) AuthMethodPassword then EvidencePassword (ev_Password ev)
  else if str_eqb (ev_Method ev) AuthMethodCHAP || str_eqb (ev_Method ev) AuthMethodEAP
  then EvidenceCHAP (ev_CHAPID ev) (ev_Challenge ev) (ev_Response ev)
  else if str_eqb (ev_Method ev) AuthMethodMSCHAPv1 then EvidenceMSCHAPv1 (ev_CHAPID ev) (ev_Challenge ev) (ev_Response ev)
  else if str_eqb (ev_Method ev) AuthMethodMSCHAPv2 then EvidenceMSCHAPv2 (ev_CHAPID ev) (ev_Challenge ev) (ev_Response ev)
  else EvidenceOther.

Record RadiusAccessAttempt := mkAttempt {
  xt_Snapshot : option AccessSnapshot; xt_PolicyMethod : string;
  xt_Protocol : string; xt_ClientID : string; xt_EndpointID : string; xt_SnapshotRevision : Z;
  xt_UserID : string; xt_Evidence : Evidence; xt_Attributes : RawSet;
}.

(** Its [Challenge] is never set. *)
Record RadiusAccessDecision := mkDecision {
  xd_Outcome : RadiusAccessOutcome; xd_ReasonCode : string; xd_UserID : string; xd_ReplyAttributes : RawSet;
  xd_Trace : option RadiusPolicy.Trace;
}.

Definition rejectAccess (user reason : string) : RadiusAccessDecision := mkDecision RadiusAccessReject reason user [] None.
Definition with_trace (d : RadiusAccessDecision) (tr : RadiusPolicy.Trace) : RadiusAccessDecision :=
  mkDecision (xd_Outcome d) (xd_ReasonCode d) (xd_UserID d) (xd_ReplyAttributes d) (Some tr).
Definition with_reply (d : RadiusAccessDecision) (attrs : RawSet) : RadiusAccessDecision :=
  mkDecision (xd_Outcome d) (xd_ReasonCode d) (xd_UserID d) attrs (xd_Trace d).

(** ** Attributes (radius_access_attrs.go) *)

(** [attribute.Sensitive] and the text of a [ValueKind]. *)
Definition Sensitive (typ : Z) : bool := bool_decide (SensitivityOf builtin typ = SensitivitySecret).
Definition kind_text (k : ValueKind) : string :=
  match k with
  | KindText => "text" | KindString => "string" | KindInteger => "integer" | KindIPv4 => "ipaddr" | KindIPv6 => "ipv6addr"
  | KindTime => "time" | KindOctets => "octets" | KindVSA => "vsa" | KindUnknown => "unknown"
  end.

(** [netip.AddrFromSlice] *)
Definition AddrFromSlice (b : bytes) : RadiusPolicy.Addr := if (len b =? 4) || (len b =? 16) then Some (b, []) else None.

Definition skipRequestAttr (typ : Z) : bool :=
  if Sensitive typ then true
  else (typ =? TypeMessageAuthenticator) || (typ =? TypeProxyState) || (typ =? TypeState).

Definition typedFromRaw (a : Raw) : option Typed :=
  match LookupIETF builtin (Raw_Type a) with
  | None => None
  | Some def =>
    let key := mkAttrKey 0 (Def_Code def) (Def_Name def) in
    let typed := mkTyped key (kind_text (Def_Kind def)) in
    match Def_Kind def with
    | KindInteger | KindTime => if negb (len (Raw_Value a) =? 4) then None else Some (typed "" (be_u32_at (Raw_Value a)) None [])
    | KindIPv4 => if Addr_Is4 (AddrFromSlice (Raw_Value a)) then Some (typed "" 0 (AddrFromSlice (Raw_Value a)) []) else None
    | KindIPv6 => if Addr_Is6 (AddrFromSlice (Raw_Value a)) then Some (typed "" 0 (AddrFromSlice (Raw_Value a)) []) else None
    | KindText => Some (typed (text_of (Raw_Value a)) 0 None [])
    | _ => Some (typed "" 0 None (Raw_Value a))
    end
  end.

(** One TLV of a Vendor-Specific attribute. *)
Definition typed_tlv (vendor : Z) (t : VendorTLV) : Typed :=
  let '(name, kind, text) :=
    match LookupKey builtin (mkKey vendor (VendorTLV_Type t) SpaceVSA) with
    | Some def =>
      (Def_Name def, kind_text (Def_Kind def), if bool_decide (Def_Kind def = KindText) then text_of (VendorTLV_Value t) else ""%string)
    | None => ("Vendor-Specific", RadiusPolicy.KindVSA, "")%string
    end in
  mkTyped (mkAttrKey vendor (VendorTLV_Type t) name) kind text 0 None (VendorTLV_Value t).

Definition typedFromVSAAll (a : Raw) : list Typed :=
  match ParseVSA a with
  | Err _ => []
  | Ok vsa => match ParseVendorTLVs (VSA_Payload vsa) with Err _ => [] | Ok tlvs => map (typed_tlv (VSA_Vendor vsa)) tlvs end
  end.

Fixpoint policyRequestAttrs (raw : RawSet) : TypedSet :=
  match raw with
  | [] => []
  | a :: raw =>
    if skipRequestAttr (Raw_Type a) || MicrosoftSecret a then policyRequestAttrs raw
    else if Raw_Type a =? TypeVendorSpecific then typedFromVSAAll a ++ policyRequestAttrs raw
    else match typedFromRaw a with Some tv => tv :: policyRequestAttrs raw | None => policyRequestAttrs raw end
  end.

Definition encodeVSA (a : Typed) : option Raw :=
  let inner := if (len (ty_Raw a) =? 0) && negb (str_eqb (ty_Text a) "") then octets_of (ty_Text a) else ty_Raw a in
  if len inner >? MaxVendorTLVValue then None
  else
    match EncodeVendorTLVs [mkVendorTLV (ak_Code (ty_Key a)) inner] with
    | Err _ => None
    | Ok payload => match VSA_Raw (mkVSA (ak_Vendor (ty_Key a)) payload) with Err _ => None | Ok raw => Some raw end
    end.

Definition encodeTyped (a : Typed) : option Raw :=
  if negb (ak_Vendor (ty_Key a) =? 0) then encodeVSA a
  else
    let code := ak_Code (ty_Key a) in
    if str_eqb (ty_Kind a) RadiusPolicy.KindInteger || str_eqb (ty_Kind a) RadiusPolicy.KindTime then Some (mkRaw code (put_u32 (ty_Uint a)))
    else if str_eqb (ty_Kind a) RadiusPolicy.KindIPv4 then
      match ty_Addr a with Some (ip, _) => if len ip =? 4 then Some (mkRaw code ip) else None | None => None end
    else if str_eqb (ty_Kind a) RadiusPolicy.KindIPv6 then
      match ty_Addr a with Some (ip, _) => if len ip =? 16 then Some (mkRaw code ip) else None | None => None end
    else if str_eqb (ty_Kind a) RadiusPolicy.KindText then Some (mkRaw code (octets_of (ty_Text a)))
    else Some (mkRaw code (ty_Raw a)).

(** The loop of [encodePolicyReply]. *)
Fixpoint encode_attrs (attrs : TypedSet) (packet : Z) : option RawSet :=
  match attrs with
  | [] => Some []
  | a :: attrs =>
    match encodeTyped a with
    | None => None
    | Some raw => if negb (AllowedIn builtin (Raw_Type raw) packet) then None else cons raw <$> encode_attrs attrs packet
    end
  end.

(** [None] is an error. *)
Definition encodePolicyReply (attrs : TypedSet) (packet : Z) : option RawSet :=
  let effect := if packet =? PacketAccessReject then EffectDeny else EffectPermit in
  if negb (is_ok (CheckReplyLegal effect attrs)) then None else encode_attrs attrs packet.

(** ** Evaluation of the policy *)

(** [add], over a list of ids: unknown, disabled, empty and repeated ids are
    left out. *)
Definition add_ranked (snap : AccessSnapshot) (acc : gset string * list (Z * string)) (id : string) : gset string * list (Z * string) :=
  let '(seen, ranked) := acc in
  if str_eqb id "" || bool_decide (id ∈ seen) then acc
  else match xn_Group snap !! id with
       | Some (true, priority) => ({[ id ]} ∪ seen, ranked ++ [(priority, id)])
       | _ => acc
       end.

Definition effectiveRADIUSGroups (snap : AccessSnapshot) (userID clientID : string) : list string :=
  let own :=
    match an_User (xn_Auth snap) !! userID with
    | Some u => if au_Enabled u then default [] (xn_UserGroups snap !! userID) else []
    | None => []
    end in
  let acc := fold_left (add_ranked snap) own (∅, []) in
  let acc := fold_left (add_ranked snap) (default [] (xn_DefaultGroups snap !! clientID)) acc in
  map snd (SliceStable key_less (snd acc)).

Definition mapPolicyResult (user : string) (res : RadiusPolicy.Result) : RadiusAccessDecision :=
  if str_eqb (rs_Effect res) EffectPermit then
    match encodePolicyReply (rs_ReplyAttributes res) PacketAccessAccept with
    | None => with_trace (rejectAccess user AccessReasonInternal) (rs_Trace res)
    | Some raw => mkDecision RadiusAccessAccept AccessReasonOK user raw (Some (rs_Trace res))
    end
  else if str_eqb (rs_Effect res) EffectDeny then
    match encodePolicyReply (rs_ReplyAttributes res) PacketAccessReject with
    | None => with_trace (rejectAccess user AccessReasonInternal) (rs_Trace res)
    | Some raw => with_trace (with_reply (rejectAccess user AccessReasonPolicy) raw) (rs_Trace res)
    end
  else with_trace (rejectAccess user AccessReasonInternal) (rs_Trace res).

Definition policy_request (snap : AccessSnapshot) (user clientID endpointID method : string) (attrs : TypedSet) : RadiusPolicy.Request :=
  RadiusPolicy.mkRequest user clientID endpointID method (effectiveRADIUSGroups snap user clientID) attrs.

Definition evaluateAccess (snap : option AccessSnapshot) (user clientID endpointID method : string) (attrs : TypedSet)
  : RadiusAccessDecision :=
  match snap with
  | None => rejectAccess user AccessReasonInternal
  | Some snap => mapPolicyResult user (Evaluate (xn_Engine snap) (policy_request snap user clientID endpointID method attrs))
  end.

(** ** The facade *)

Inductive access_error := ErrAccessContext | ErrAccessService | ErrAccessProtocol | ErrAccessSnapshot.

Section Facade.
Context (IDKey : bytes -> bytes -> Z -> Z -> Z -> Z -> bytes) (md4 : bytes -> bytes) (precis : string -> option string).
Context {M : Type} `{Publisher M}.
#[local] Notation svc := (AuthService M).

Definition ExplainRADIUSAccess (snap : option AccessSnapshot) (userID clientID endpointID method : string) (attrs : RawSet)
  : RadiusAccessDecision :=
  evaluateAccess snap (canonUser precis userID) clientID endpointID method (policyRequestAttrs attrs).

(** The attribute of [appendMSCHAP2Success]; [None] is an error. *)
Definition mschap2_success (s : svc) (w : World) (snap : AccessSnapshot) (clientID user : string) (ev : Evidence) : option Raw :=
  if len (ev_Response ev) <? MSCHAPResponseLen then None
  else
    let peer := slice (ev_Response ev) 0 16 in
    match MSCHAPv2Success md4 precis (boundCreds s w (xn_Auth snap) clientID) (w_cx w) (w_now w) user (ev_CHAPID ev) (ev_Challenge ev) peer with
    | Err _ => None
    | Ok success => match MicrosoftVSA VendorTypeMSCHAP2Success success with Err _ => None | Ok raw => Some raw end
    end.

Definition appendMSCHAP2Success (s : svc) (w : World) (snap : AccessSnapshot) (clientID user : string) (ev : Evidence)
  (dec : RadiusAccessDecision) : option RadiusAccessDecision :=
  (fun raw => with_reply dec (raw :: xd_ReplyAttributes dec)) <$> mschap2_success s w snap clientID user ev.

(** [published] is what [s.snap()] returns. *)
Definition admitted_snapshot (published : option AccessSnapshot) (t : RadiusAccessAttempt) : option AccessSnapshot :=
  let snap := match xt_Snapshot t with Some snap => Some snap | None => if xt_SnapshotRevision t =? 0 then published else None end in
  match snap with
  | Some sn => if negb (xt_SnapshotRevision t =? 0) && negb (an_Revision (xn_Auth sn) =? xt_SnapshotRevision t) then None else Some sn
  | None => None
  end.

Definition policy_method (t : RadiusAccessAttempt) : string :=
  if AuthMethod_Valid (xt_PolicyMethod t) then xt_PolicyMethod t else ev_Method (xt_Evidence t).

(** [w] is what the verification finds, [late] what [appendMSCHAP2Success]
    finds after it. *)
Definition AuthenticateAccess (s : option svc) (w late : World) (published : option AccessSnapshot) (t : RadiusAccessAttempt)
  : RadiusAccessDecision * option access_error :=
  match s with
  | None => (rejectAccess "" AccessReasonInternal, Some ErrAccessService)
  | Some s =>
    if w_cancelled w then (rejectAccess "" AccessReasonInternal, Some ErrAccessContext)
    else if negb (str_eqb (xt_Protocol t) "") && negb (str_eqb (xt_Protocol t) "radius")
    then (rejectAccess "" AccessReasonInternal, Some ErrAccessProtocol)
    else
      let user := canonUser precis (xt_UserID t) in
      let ev := xt_Evidence t in
      if negb (AuthMethod_Valid (ev_Method ev)) then (rejectAccess user AccessReasonUnsupportedMethod, None)
      else
        match admitted_snapshot published t with
        | None => (rejectAccess user AccessReasonInternal, Some ErrAccessSnapshot)
        | Some snap =>
          match verifyAgainst IDKey md4 precis s w (xn_Auth snap) user (xt_ClientID t) (evidence_of ev) with
          | AuthPass =>
            if userMustChangeLogin (xn_Auth snap) user then (rejectAccess user AccessReasonPasswordChangeRequired, None)
            else
              let dec := evaluateAccess (Some snap) user (xt_ClientID t) (xt_EndpointID t) (policy_method t)
                           (policyRequestAttrs (xt_Attributes t)) in
              if bool_decide (xd_Outcome dec = RadiusAccessAccept) && str_eqb (ev_Method ev) AuthMethodMSCHAPv2 then
                match appendMSCHAP2Success s late snap (xt_ClientID t) user ev dec with
                | None => (rejectAccess user AccessReasonInternal, None)
                | Some dec => (dec, None)
                end
              else (dec, None)
          | AuthReject => (rejectAccess user AccessReasonBadCredentials, None)
          | AuthErrorOutcome => (rejectAccess user AccessReasonInternal, None)
          end
        end
  end.
End Facade.

(** ** Evidence of an Access-Request (access.go, mschap.go) *)

Definition ReasonMissingUsername : string := "reject_missing_username".
Definition ReasonConflictingAuth : string := "reject_conflicting_auth".
Definition ReasonCHAPPasswordLength : string := "reject_chap_password_length".
Definition ReasonBadCredentials : string := "reject_bad_credentials".
Definition ReasonPasswordChangeRequired : string := "reject_password_change_required".
Definition ReasonPolicy : string := "reject_policy".
Definition ReasonInvalidState : string := "reject_invalid_state".
Definition ReasonChallengeExpired : string := "reject_challenge_expired".
Definition ReasonChallengeBinding : string := "reject_challenge_binding".
Definition ReasonChallengeCapacity : string := "reject_challenge_capacity".
Definition ReasonChallenge : string := "challenge".
Definition ReasonUnsupportedEAPMethod : string := "reject_unsupported_eap_method".
Definition ReasonEAPTooLong : string := "reject_eap_too_long".
Definition ReasonInternal : string := "internal_error".

Definition chapPasswordWireLen := 17.
Definition methodPAP : string := "pap".
Definition methodCHAP : string := "chap".
Definition methodMSCHAPv1 : string := "mschapv1".
Definition methodMSCHAPv2 : string := "mschapv2".

(** [Request] of the server, with the fields the access handler reads; the
    carrier, the peer, the endpoint, the client and the revision are those of
    the challenge table's [challengeRequest]. *)
Record AccessRequest := mkAccessRequest {
  xq_Request : RadiusReply.Request; xq_Bind : challengeRequest; xq_Snapshot : option AccessSnapshot; xq_AllowedMethods : list string;
}.
Definition xq_Packet (in_ : AccessRequest) : Packet := Req_Packet (xq_Request in_).
Definition xq_Attributes (in_ : AccessRequest) : RawSet := Attributes (xq_Packet in_).
Definition xq_ClientID (in_ : AccessRequest) : string := text_of (rq_ClientID (xq_Bind in_)).
Definition xq_EndpointID (in_ : AccessRequest) : string := text_of (rq_EndpointID (xq_Bind in_)).

Definition method_allowed (allowed : list string) (method : string) : bool :=
  if bool_decide (allowed = []) then true else existsb (fun m => str_eqb m method) allowed.

Record mschapEvidence := mkMSCHAP { ms_v1Resp : list VendorTLV; ms_v2Resp : list VendorTLV; ms_chal : list VendorTLV; ms_malformed : bool }.

Definition collect_tlv (ev : mschapEvidence) (t : VendorTLV) : mschapEvidence :=
  if VendorTLV_Type t =? VendorTypeMSCHAPChallenge then mkMSCHAP (ms_v1Resp ev) (ms_v2Resp ev) (ms_chal ev ++ [t]) (ms_malformed ev)
  else if VendorTLV_Type t =? VendorTypeMSCHAPResponse then mkMSCHAP (ms_v1Resp ev ++ [t]) (ms_v2Resp ev) (ms_chal ev) (ms_malformed ev)
  else if VendorTLV_Type t =? VendorTypeMSCHAP2Response then mkMSCHAP (ms_v1Resp ev) (ms_v2Resp ev ++ [t]) (ms_chal ev) (ms_malformed ev)
  else ev.

Fixpoint collect_vsas (attrs : RawSet) (ev : mschapEvidence) : mschapEvidence :=
  match attrs with
  | [] => ev
  | raw :: attrs =>
    match ParseVSA raw with
    | Err _ => collect_vsas attrs ev
    | Ok vsa =>
      if negb (VSA_Vendor vsa =? VendorMicrosoft) then collect_vsas attrs ev
      else
        match ParseVendorTLVs (VSA_Payload vsa) with
        | Err _ => mkMSCHAP (ms_v1Resp ev) (ms_v2Resp ev) (ms_chal ev) true
        | Ok tlvs => collect_vsas attrs (fold_left collect_tlv tlvs ev)
        end
    end
  end.
Definition collectMSCHAP (attrs : RawSet) : mschapEvidence := collect_vsas (AllOf attrs TypeVendorSpecific) (mkMSCHAP [] [] [] false).

Definition mschap_present (e : mschapEvidence) : bool :=
  (len (ms_chal e) >? 0) || (len (ms_v1Resp e) >? 0) || (len (ms_v2Resp e) >? 0) || ms_malformed e.

(** The 50-octet RADIUS values on the 49 octets the verifiers take. *)
Definition mapMSCHAPv1 (radius : bytes) : bytes :=
  let out := make_bytes MSCHAPResponseLen in
  let out := copy_range out 0 24 (slice radius 2 26) in
  let out := copy_range out 24 48 (slice radius 26 50) in
  set_at out 48 (index radius 1).

(** [None]: the reserved octets are not zero. *)
Definition mapMSCHAPv2 (radius : bytes) : option bytes :=
  let out := make_bytes MSCHAPResponseLen in
  let out := copy_range out 0 16 (slice radius 2 18) in
  let out := copy_range out 16 24 (slice radius 18 26) in
  let out := copy_range out 24 48 (slice radius 26 50) in
  let out := set_at out 48 0 in
  if forallb (fun b => b =? 0) (slice out 16 24) then Some out else None.

Definition extractMSCHAPEvidence (in_ : AccessRequest) (ms : mschapEvidence) : result string Evidence :=
  let value l := match l with t :: _ => VendorTLV_Value t | [] => [] end in
  if ms_malformed ms then Err ReasonConflictingAuth
  else if (len (ms_v1Resp ms) >? 1) || (len (ms_v2Resp ms) >? 1) || (len (ms_chal ms) >? 1) then Err ReasonConflictingAuth
  else if (len (ms_v1Resp ms) >? 0) && (len (ms_v2Resp ms) >? 0) then Err ReasonConflictingAuth
  else if (len (ms_v1Resp ms) =? 0) && (len (ms_v2Resp ms) =? 0) then Err ReasonUnsupportedMethod
  else if len (ms_v1Resp ms) =? 1 then
    if negb (method_allowed (xq_AllowedMethods in_) methodMSCHAPv1) then Err ReasonUnsupportedMethod
    else if negb (len (ms_chal ms) =? 1) || negb (len (value (ms_chal ms)) =? MSCHAPChallengeV1Len) then Err ReasonConflictingAuth
    else
      let wire := value (ms_v1Resp ms) in
      if negb (len wire =? MSCHAPResponseWireLen) then Err ReasonConflictingAuth
      else Ok (mkEvidence AuthMethodMSCHAPv1 [] (index wire 0) (value (ms_chal ms)) (mapMSCHAPv1 wire))
  else if negb (method_allowed (xq_AllowedMethods in_) methodMSCHAPv2) then Err ReasonUnsupportedMethod
  else if negb (len (ms_chal ms) =? 1) || negb (len (value (ms_chal ms)) =? MSCHAPChallengeV2Len) then Err ReasonConflictingAuth
  else
    let wire := value (ms_v2Resp ms) in
    if negb (len wire =? MSCHAPResponseWireLen) then Err ReasonConflictingAuth
    else
      match mapMSCHAPv2 wire with
      | None => Err ReasonConflictingAuth
      | Some mapped => Ok (mkEvidence AuthMethodMSCHAPv2 [] (index wire 0) (value (ms_chal ms)) mapped)
      end.

(** The user and the evidence, or the reason of a reject. *)
Definition extractAccessEvidence (in_ : AccessRequest) : result string (string * Evidence) :=
  let attrs := xq_Attributes in_ in
  match AllOf attrs TypeUserName with
  | [name] =>
    if len (Raw_Value name) =? 0 then Err ReasonMissingUsername
    else
      let user := text_of (Raw_Value name) in
      let paps := AllOf attrs TypeUserPassword in
      let chaps := AllOf attrs TypeCHAPPassword in
      let chals := AllOf attrs TypeCHAPChallenge in
      let eaps := AllOf attrs TypeEAPMessage in
      let ms := collectMSCHAP attrs in
      if (len paps >? 1) || (len chaps >? 1) || (len chals >? 1) || ((len paps >? 0) && (len chaps >? 0)) then Err ReasonConflictingAuth
      else if mschap_present ms && ((len paps >? 0) || (len chaps >? 0) || (len eaps >? 0)) then Err ReasonConflictingAuth
      else if len eaps >? 0 then Err ReasonUnsupportedMethod
      else if mschap_present ms then let! ev := extractMSCHAPEvidence in_ ms in Ok (user, ev)
      else
        match chaps, paps with
        | chap :: _, _ =>
          let val := Raw_Value chap in
          if negb (len val =? chapPasswordWireLen) then Err ReasonCHAPPasswordLength
          else if negb (method_allowed (xq_AllowedMethods in_) methodCHAP) then Err ReasonUnsupportedMethod
          else
            let chal := match chals with c :: _ => Raw_Value c | [] => Authenticator (xq_Packet in_) end in
            Ok (user, mkEvidence AuthMethodCHAP [] (index val 0) chal (slice val 1 (len val)))
        | [], pap :: _ =>
          if negb (method_allowed (xq_AllowedMethods in_) methodPAP) then Err ReasonUnsupportedMethod
          else
            match UnhideUserPassword (Secret (xq_Request in_)) (Authenticator (xq_Packet in_)) (Raw_Value pap) with
            | Err _ => Err ReasonBadCredentials
            | Ok plain => Ok (user, mkEvidence AuthMethodPassword plain 0 [] [])
            end
        | [], [] => Err ReasonUnsupportedMethod
        end
  | _ => Err ReasonMissingUsername
  end.

Definition wireAccessReason (code : string) : string :=
  if bool_decide (code ∈ [ReasonPolicy; ReasonBadCredentials; ReasonUnsupportedMethod; ReasonInternal; ReasonMissingUsername;
       ReasonConflictingAuth; ReasonCHAPPasswordLength; ReasonPasswordChangeRequired; ReasonInvalidState; ReasonChallengeExpired;
       ReasonChallengeBinding; ReasonChallengeCapacity; ReasonChallenge; ReasonUnsupportedEAPMethod; ReasonEAPTooLong])
  then code else ReasonBadCredentials.

Definition unsafe_attr (a : Raw) : bool :=
  Sensitive (Raw_Type a) || MicrosoftSecret a || (Raw_Type a =? TypeMessageAuthenticator) || (Raw_Type a =? TypeProxyState)
  || (Raw_Type a =? TypeState) || (Raw_Type a =? TypeEAPMessage).
Definition policySafeAttrs (in_ : RawSet) : RawSet := filter (fun a => unsafe_attr a = false) in_.

Definition replyAttrsLegal (code : Z) (attrs : RawSet) : bool := forallb (fun a => AllowedIn builtin (Raw_Type a) code) attrs.

Definition sendAccess (in_ : AccessRequest) (code : Z) (reason : string) (policy : RawSet) : Result :=
  let p := xq_Packet in_ in
  match ReplyAccess (Secret (xq_Request in_)) code (Identifier p) (Authenticator p) (Attributes p) policy with
  | Err _ => ActionDiscard ReasonMalformedHeader
  | Ok wire => ActionReply reason wire
  end.
Definition replyAccess (in_ : AccessRequest) (code : Z) (reason : string) (policy : RawSet) : Result :=
  if (RawSet_Len policy >? 0) && negb (replyAttrsLegal code policy) then
    if code =? CodeAccessAccept then sendAccess in_ CodeAccessReject ReasonInternal [] else sendAccess in_ code reason []
  else sendAccess in_ code reason policy.

(** The attempt of a request. *)
Definition attempt_of (in_ : AccessRequest) (policyMethod user : string) (ev : Evidence) : RadiusAccessAttempt :=
  mkAttempt (xq_Snapshot in_) policyMethod "radius" (xq_ClientID in_) (xq_EndpointID in_) (rq_Revision (xq_Bind in_))
    user ev (policySafeAttrs (xq_Attributes in_)).

(** How [Handle] replies to a decision without EAP; [cancelled] is the
    context after the call. *)
Definition decide_reply (in_ : AccessRequest) (cancelled : bool) (out : RadiusAccessDecision * option access_error) : Result :=
  match out with
  | (_, Some _) => if cancelled then ActionDiscard ReasonOverload else replyAccess in_ CodeAccessReject ReasonInternal []
  | (dec, None) =>
    match xd_Outcome dec with
    | RadiusAccessAccept => replyAccess in_ CodeAccessAccept ReasonOK (xd_ReplyAttributes dec)
    | RadiusAccessChallenge => replyAccess in_ CodeAccessReject ReasonInternal []
    | _ => replyAccess in_ CodeAccessReject (wireAccessReason (xd_ReasonCode dec)) (xd_ReplyAttributes dec)
    end
  end.

(** ** Replies on the wire *)

(** The octets of an attribute under a vendor. *)
Definition vsa_octets (a : Typed) : bytes :=
  if (len (ty_Raw a) =? 0) && negb (str_eqb (ty_Text a) "") then octets_of (ty_Text a) else ty_Raw a.

(** The wire form of a typed attribute, for the shape its kind asks for. *)
Definition attr_wire (a : Typed) : Raw :=
  let code := ak_Code (ty_Key a) in
  if negb (ak_Vendor (ty_Key a) =? 0) then vendor_raw (ak_Vendor (ty_Key a)) (mkVendorTLV code (vsa_octets a))
  else mkRaw code
    (if str_eqb (ty_Kind a) RadiusPolicy.KindInteger || str_eqb (ty_Kind a) RadiusPolicy.KindTime then put_u32 (ty_Uint a)
     else if str_eqb (ty_Kind a) RadiusPolicy.KindIPv4 || str_eqb (ty_Kind a) RadiusPolicy.KindIPv6
     then match ty_Addr a with Some (ip, _) => ip | None => [] end
     else if str_eqb (ty_Kind a) RadiusPolicy.KindText then octets_of (ty_Text a)
     else ty_Raw a).

(** A vendor attribute has at most 247 octets. *)
Definition attr_fits (a : Typed) : Prop := ak_Vendor (ty_Key a) = 0 \/ len (vsa_octets a) <= MaxVendorTLVValue.
#[export] Instance attr_fits_dec a : Decision (attr_fits a).
Proof. unfold attr_fits. apply _. Defined.

Lemma encodeVSA_iff a r :
  encodeVSA a = Some r <->
  len (vsa_octets a) <= MaxVendorTLVValue /\ r = vendor_raw (ak_Vendor (ty_Key a)) (mkVendorTLV (ak_Code (ty_Key a)) (vsa_octets a)).
Proof.
  unfold encodeVSA. fold (vsa_octets a). pose proof (vendor_raw_spec (ak_Vendor (ty_Key a)) (mkVendorTLV (ak_Code (ty_Key a)) (vsa_octets a)) r) as Hs.
  cbn [VendorTLV_Value] in Hs. rewrite <- Hs. clear Hs. rewrite Z.gtb_ltb.
  destruct (Z.ltb_spec MaxVendorTLVValue (len (vsa_octets a))) as [Hl|Hl].
  - split; [done|]. intros E. apply vendor_raw_spec in E as [E _]. cbn in E. lia.
  - destruct (EncodeVendorTLVs _) as [p|]; cbn [rbind]; [|done]. destruct (VSA_Raw _) as [x|]; split; congruence.
Qed.

Lemma encodeTyped_wire a : typed_ok a -> encodeTyped a = if decide (attr_fits a) then Some (attr_wire a) else None.
Proof.
  unfold typed_ok, encodeTyped, attr_wire, attr_fits. destruct (Z.eqb_spec (ak_Vendor (ty_Key a)) 0) as [Ev|Ev]; cbn [negb].
  - intros (_ & H4 & H6). rewrite decide_True by by left. destruct (str_eqb _ _ || _); [reflexivity|].
    destruct (str_eqb (ty_Kind a) RadiusPolicy.KindIPv4) eqn:E4; cbn [orb].
    { apply str_eqb_eq, H4 in E4. unfold Addr_Is4 in E4. destruct (ty_Addr a) as [[ip z]|]; [|discriminate E4]. by rewrite E4. }
    destruct (str_eqb (ty_Kind a) RadiusPolicy.KindIPv6) eqn:E6.
    { apply str_eqb_eq, H6 in E6. unfold Addr_Is6 in E6. destruct (ty_Addr a) as [[ip z]|]; [|discriminate E6]. by rewrite E6. }
    destruct (str_eqb (ty_Kind a) RadiusPolicy.KindText); reflexivity.
  - intros _. destruct (decide _) as [[?|Hf]|Hn]; [done|by apply encodeVSA_iff|].
    destruct (encodeVSA a) as [r|] eqn:E; [|reflexivity]. apply encodeVSA_iff in E as [Hf _]. exfalso. apply Hn. by right.
Qed.

(** The two dictionaries agree on what a policy may reply. *)
Lemma policy_codes_allowed :
  map_Forall (fun c d => ad_Secret d = false -> ad_ServerOwned d = false ->
    (ad_allowAccept d = true -> AllowedIn builtin c PacketAccessAccept = true)
    /\ (ad_allowReject d = true -> AllowedIn builtin c PacketAccessReject = true)) (RadiusPolicy.byCode builtinDict).
Proof. apply (bool_decide_eq_true_1 _). vm_compute. reflexivity. Qed.
Lemma vsa_allowed : AllowedIn builtin TypeVendorSpecific PacketAccessAccept = true.
Proof. vm_compute. reflexivity. Qed.

Lemma attr_wire_allowed packet a :
  packet = PacketAccessAccept \/ packet = PacketAccessReject -> RadiusPolicy.attr_legal packet a ->
  AllowedIn builtin (Raw_Type (attr_wire a)) packet = true.
Proof.
  intros Hp. unfold RadiusPolicy.attr_legal, attr_wire. destruct (Z.eqb_spec (ak_Vendor (ty_Key a)) 0) as [Ev|Ev]; cbn [negb].
  - intros (d & [Hd] & Hs & Ho & Ha & Hr). cbn [Raw_Type]. destruct (policy_codes_allowed _ _ Hd Hs Ho) as [H1 H2].
    destruct Hp as [-> | ->]; [exact (H1 (Ha eq_refl))|exact (H2 (Hr eq_refl))].
  - intros Hne. unfold vendor_raw. cbn [Raw_Type]. destruct Hp as [-> | ->]; [exact vsa_allowed|]. by destruct Hne.
Qed.

Lemma encode_attrs_wire packet attrs :
  packet = PacketAccessAccept \/ packet = PacketAccessReject -> Forall (RadiusPolicy.attr_legal packet) attrs -> Forall typed_ok attrs ->
  encode_attrs attrs packet = if decide (Forall attr_fits attrs) then Some (map attr_wire attrs) else None.
Proof.
  intros Hp. induction attrs as [|a attrs IH]; intros Hl Ht; cbn [encode_attrs map]; [by rewrite decide_True by constructor|].
  apply Forall_cons_1 in Hl as [Ha Hl], Ht as [Hta Ht]. rewrite encodeTyped_wire by assumption.
  destruct (decide (attr_fits a)) as [Hf|Hf].
  - rewrite attr_wire_allowed by assumption. cbn [negb]. rewrite IH by assumption.
    destruct (decide (Forall attr_fits attrs)) as [Hfs|Hfs]; [by rewrite decide_True by by constructor|].
    rewrite decide_False; [reflexivity|]. by intros [_ ?]%Forall_cons_1.
  - rewrite decide_False; [reflexivity|]. by intros [? _]%Forall_cons_1.
Qed.

Lemma encodePolicyReply_wire effect attrs :
  effect = EffectPermit \/ effect = EffectDeny -> reply_sound (packet_of effect) attrs ->
  encodePolicyReply attrs (packet_of effect) = if bool_decide (Forall attr_fits attrs) then Some (map attr_wire attrs) else None.
Proof.
  intros He [Hl Ht _]. unfold encodePolicyReply.
  assert ((if packet_of effect =? PacketAccessReject then EffectDeny else EffectPermit) = effect) as -> by by destruct He as [-> | ->].
  rewrite (proj2 (CheckReplyLegal_sound effect attrs He) Hl). cbn [is_ok negb].
  rewrite encode_attrs_wire; [|destruct He as [-> | ->]; [by left|by right]|assumption..].
  case_bool_decide; [by rewrite decide_True|by rewrite decide_False].
Qed.

(** ** The groups of the facade and of the engine *)

(** The engine and the snapshot were built from the same users, clients and
    groups. *)
Record same_view (snap : AccessSnapshot) (e : RadiusPolicy.Engine) : Prop := {
  sv_user : forall u,
    match an_User (xn_Auth snap) !! u, en_users e !! u with
    | Some a, Some c => au_Enabled a = cu_enabled c /\ default [] (xn_UserGroups snap !! u) = cu_groupIDs c
    | None, None => True
    | _, _ => False
    end;
  sv_client : forall c, default [] (xn_DefaultGroups snap !! c) = match en_clients e !! c with Some b => cl_defaultGroupIDs b | None => [] end;
  sv_group : forall g, xn_Group snap !! g = (fun c => (cg_enabled c, cg_priority c)) <$> en_groups e !! g;
  sv_ids : forall g c, en_groups e !! g = Some c -> cg_id c = g;
}.

Lemma insert_stable_map {A B} (less : A -> A -> bool) (less' : B -> B -> bool) (f : A -> B) x l :
  (forall a b, less a b = less' (f a) (f b)) -> map f (insert_stable less x l) = insert_stable less' (f x) (map f l).
Proof.
  intros Hf. induction l as [|y l IH]; [reflexivity|]. cbn [insert_stable map]. rewrite <- Hf.
  destruct (less y x); cbn [map]; [by rewrite IH|reflexivity].
Qed.
Lemma SliceStable_map {A B} (less : A -> A -> bool) (less' : B -> B -> bool) (f : A -> B) l :
  (forall a b, less a b = less' (f a) (f b)) -> map f (SliceStable less l) = SliceStable less' (map f l).
Proof.
  intros Hf. induction l as [|x l IH]; [reflexivity|]. cbn [SliceStable foldr map]. fold (SliceStable less l).
  rewrite (insert_stable_map less less') by exact Hf. by rewrite IH.
Qed.

Section Groups.
Context (snap : AccessSnapshot) (e : RadiusPolicy.Engine) (Hview : same_view snap e).
#[local] Notation egroups := (RadiusPolicy.enabled_groups e).

Definition group_key (g : RadiusPolicy.compiledGroup) : Z * string := (RadiusPolicy.cg_priority g, RadiusPolicy.cg_id g).

Lemma egroups_app l1 l2 : egroups (l1 ++ l2) = egroups l1 ++ egroups l2.
Proof.
  induction l1 as [|id l1 IH]; [reflexivity|]. cbn [app RadiusPolicy.enabled_groups]. rewrite IH.
  destruct (RadiusPolicy.en_groups e !! id) as [g|]; [|reflexivity]. by destruct (RadiusPolicy.cg_enabled g).
Qed.

(** What both loops know after the same ids. *)
Record ranking (acc : gset string * list (Z * string)) (seen : gset string) (ids : list string) : Prop := {
  rk_ranked : snd acc = map group_key (egroups ids);
  rk_seen : forall id, id ∈ seen <-> id ∈ ids;
  rk_kept : forall id, id ∈ fst acc <-> id ∈ ids /\ exists p, xn_Group snap !! id = Some (true, p);
}.

Lemma add_ranked_step acc seen ids id :
  ranking acc seen ids ->
  ranking (add_ranked snap acc id) (if str_eqb id "" || bool_decide (id ∈ seen) then seen else {[ id ]} ∪ seen)
    (if str_eqb id "" || bool_decide (id ∈ seen) then ids else ids ++ [id]).
Proof.
  intros [Hr Hs Hk]. destruct acc as [kept ranked]. cbn [fst snd] in *. unfold add_ranked.
  destruct (str_eqb id ""); cbn [orb]; [by split|]. case_bool_decide as Hkin.
  { assert (id ∈ seen) as Hin by by apply Hs, Hk. rewrite (bool_decide_eq_true_2 _ Hin). by split. }
  case_bool_decide as Hin.
  - destruct (xn_Group snap !! id) as [[[] p]|] eqn:Eg; [|by split..].
    exfalso. apply Hkin, Hk. split; [by apply Hs|by exists p].
  - rename Hkin into Hnk.
    pose proof (sv_group _ _ Hview id) as Hg.
    destruct (RadiusPolicy.en_groups e !! id) as [g|] eqn:Eg; cbn [fmap option_fmap option_map] in Hg; rewrite Hg;
      [destruct (RadiusPolicy.cg_enabled g) eqn:Een|]; (split; cbn [fst snd];
      [rewrite egroups_app, map_app; cbn [RadiusPolicy.enabled_groups]; rewrite Eg, ?Een; cbn [map]|set_solver|]).
    + unfold group_key at 2. rewrite (sv_ids _ _ Hview _ _ Eg). by f_equal.
    + intros x. rewrite elem_of_union, elem_of_singleton, elem_of_app, list_elem_of_singleton, Hk. split; [|tauto].
      intros [->|[? ?]]; [split; [by right|]; rewrite Hg; eauto|split; [by left|assumption]].
    + by rewrite app_nil_r.
    + intros x. rewrite elem_of_app, list_elem_of_singleton, Hk. split; [tauto|]. intros [[?| ->] [p Hp]]; [eauto|congruence].
    + by rewrite app_nil_r.
    + intros x. rewrite elem_of_app, list_elem_of_singleton, Hk. split; [tauto|]. intros [[?| ->] [p Hp]]; [eauto|congruence].
Qed.

Lemma rank_ids l acc seen ids :
  ranking acc seen ids -> ranking (fold_left (add_ranked snap) l acc) (fst (add_ids l seen ids)) (snd (add_ids l seen ids)).
Proof.
  revert acc seen ids. induction l as [|id l IH]; intros acc seen ids H; [exact H|]. cbn [fold_left add_ids].
  pose proof (add_ranked_step _ _ _ id H) as Hs. destruct (str_eqb id ""); [by apply IH|].
  destruct (bool_decide (id ∈ seen)); by apply IH.
Qed.

Lemma groups_agree userID clientID : effectiveRADIUSGroups snap userID clientID = groupIDs (RadiusPolicy.effectiveGroups e userID clientID).
Proof.
  unfold effectiveRADIUSGroups, RadiusPolicy.effectiveGroups.
  assert (ranking (∅, []) ∅ []) as H0 by (split; [reflexivity|set_solver|set_solver]).
  set (own := match an_User (xn_Auth snap) !! userID with Some u => _ | None => _ end).
  assert ((match en_users e !! userID with
           | Some u => if cu_enabled u then add_ids (RadiusPolicy.cu_groupIDs u) ∅ [] else (∅, [])
           | None => (∅, [])
           end) = add_ids own ∅ []) as ->.
  { pose proof (sv_user _ _ Hview userID) as Hu. unfold own.
    destruct (an_User (xn_Auth snap) !! userID) as [a|], (en_users e !! userID) as [c|]; try done.
    destruct Hu as [-> ->]. by destruct (cu_enabled c). }
  pose proof (rank_ids own _ _ _ H0) as H1. destruct (add_ids own ∅ []) as [seen ids] eqn:E. cbn [fst snd] in H1.
  pose proof (rank_ids (default [] (xn_DefaultGroups snap !! clientID)) _ _ _ H1) as H2.
  assert ((match en_clients e !! clientID with Some c => add_ids (RadiusPolicy.cl_defaultGroupIDs c) seen ids | None => (seen, ids) end)
          = add_ids (default [] (xn_DefaultGroups snap !! clientID)) seen ids) as ->.
  { rewrite (sv_client _ _ Hview clientID). by destruct (en_clients e !! clientID). }
  destruct (add_ids (default [] (xn_DefaultGroups snap !! clientID)) seen ids) as [seen' ids'] eqn:E'. cbn [fst snd] in H2.
  destruct H2 as [-> _ _]. rewrite <- (SliceStable_map RadiusPolicy.group_less key_less group_key) by reflexivity.
  rewrite map_map. reflexivity.
Qed.
End Groups.

(** ** What the policy answers *)

Inductive policy_answer (res : RadiusPolicy.Result) : Prop :=
| AnswerPermit : rs_Effect res = EffectPermit -> reply_sound RadiusPolicy.packetAccessAccept (rs_ReplyAttributes res) -> policy_answer res
| AnswerDeny : rs_Effect res = EffectDeny -> reply_sound RadiusPolicy.packetAccessReject (rs_ReplyAttributes res) -> policy_answer res
| AnswerError : rs_Effect res = EffectError -> rs_ReplyAttributes res = [] -> policy_answer res.

(** An engine of a snapshot is one that [Compile] returned. *)
Definition engine_compiled (e : option RadiusPolicy.Engine) : Prop :=
  match e with Some e => exists i, Compile i = Ok e | None => True end.

Lemma reply_sound_nil packet : reply_sound packet [].
Proof. split; constructor. Qed.

Lemma Evaluate_answer e req : engine_compiled e -> policy_answer (Evaluate e req).
Proof.
  destruct e as [e|]; [|by intros _; apply AnswerError]. intros [i He%Compile_ready].
  destruct (endpoint_missing e req) eqn:Em.
  { unfold endpoint_missing in Em. unfold Evaluate. rewrite Em. by apply AnswerError. }
  destruct (evaluate_first_match e req He Em) as [(pre & c & post & _ & _ & _ & [Hs Hc] & ->)|[_ ->]].
  - destruct Hc as [Hc|[Hc _]]; rewrite Hc in Hs; [by apply AnswerPermit|by apply AnswerDeny].
  - by apply AnswerDeny; [|apply reply_sound_nil].
Qed.

(** The decision of an answer. *)
Definition answered (user : string) (res : RadiusPolicy.Result) : RadiusAccessDecision :=
  let fits := bool_decide (Forall attr_fits (rs_ReplyAttributes res)) in
  let attrs := map attr_wire (rs_ReplyAttributes res) in
  if str_eqb (rs_Effect res) EffectPermit && fits then mkDecision RadiusAccessAccept AccessReasonOK user attrs (Some (rs_Trace res))
  else if str_eqb (rs_Effect res) EffectDeny && fits then mkDecision RadiusAccessReject AccessReasonPolicy user attrs (Some (rs_Trace res))
  else mkDecision RadiusAccessReject AccessReasonInternal user [] (Some (rs_Trace res)).

Lemma mapPolicyResult_answered user res : policy_answer res -> mapPolicyResult user res = answered user res.
Proof.
  unfold mapPolicyResult, answered. intros [He Hs|He Hs|He Hn]; rewrite He; cbn [str_eqb bool_decide].
  - change (str_eqb EffectPermit EffectPermit) with true. cbn [andb].
    rewrite (encodePolicyReply_wire EffectPermit) by auto. case_bool_decide; reflexivity.
  - change (str_eqb EffectDeny EffectPermit) with false. change (str_eqb EffectDeny EffectDeny) with true. cbn [andb].
    rewrite (encodePolicyReply_wire EffectDeny) by auto. case_bool_decide; reflexivity.
  - reflexivity.
Qed.

Lemma answered_legal user res :
  policy_answer res ->
  let d := answered user res in
  Forall (fun a => AllowedIn builtin (Raw_Type a) (if decide (xd_Outcome d = RadiusAccessAccept) then PacketAccessAccept else PacketAccessReject) = true)
    (xd_ReplyAttributes d).
Proof.
  unfold answered. intros [He [Hs _ _]|He [Hs _ _]|He Hn]; rewrite He.
  - change (str_eqb EffectPermit EffectPermit) with true. change (str_eqb EffectPermit EffectDeny) with false. cbn [andb].
    case_bool_decide; cbn [xd_Outcome xd_ReplyAttributes]; [|constructor]. rewrite decide_True by reflexivity.
    apply List.Forall_map. revert Hs. apply List.Forall_impl. intros a. apply attr_wire_allowed. by left.
  - change (str_eqb EffectDeny EffectPermit) with false. change (str_eqb EffectDeny EffectDeny) with true. cbn [andb].
    case_bool_decide; cbn [xd_Outcome xd_ReplyAttributes]; [|constructor]. rewrite decide_False by discriminate.
    apply List.Forall_map. revert Hs. apply List.Forall_impl. intros a. apply attr_wire_allowed. by right.
  - change (str_eqb EffectError EffectPermit) with false. change (str_eqb EffectError EffectDeny) with false. constructor.
Qed.

(** The attributes a policy may see. *)
Definition readable (a : Raw) : bool :=
  bool_decide (SensitivityOf builtin (Raw_Type a) <> SensitivitySecret
    /\ (Raw_Type a ∉ [TypeMessageAuthenticator; TypeProxyState; TypeState]) /\ MicrosoftSecret a = false).

Lemma readable_kept a : readable a = negb (skipRequestAttr (Raw_Type a) || MicrosoftSecret a).
Proof.
  unfold readable, skipRequestAttr, Sensitive. generalize (SensitivityOf builtin (Raw_Type a)). intros s.
  generalize (MicrosoftSecret a). intros m. generalize (Raw_Type a). intros typ. apply eq_true_iff_eq. rewrite bool_decide_eq_true, negb_true_iff, orb_false_iff, !not_elem_of_cons.
  destruct (bool_decide_reflect (s = SensitivitySecret)) as [->|He]; [split; intros [H _]; [by destruct H|discriminate H]|].
  rewrite !orb_false_iff, !Z.eqb_neq. split; [tauto|]. intros [[[? ?] ?] ?]. repeat split; try assumption. apply not_elem_of_nil.
Qed.

Lemma policyRequestAttrs_readable l : policyRequestAttrs (List.filter readable l) = policyRequestAttrs l.
Proof.
  induction l as [|a l IH]; [reflexivity|]. cbn [List.filter policyRequestAttrs]. rewrite readable_kept.
  destruct (skipRequestAttr (Raw_Type a) || MicrosoftSecret a) eqn:E; cbn [negb]; [exact IH|].
  cbn [policyRequestAttrs]. by rewrite E, IH.
Qed.

(** ** The facade's table *)

Section Decision.
Context (IDKey : bytes -> bytes -> Z -> Z -> Z -> Z -> bytes) (md4 : bytes -> bytes) (precis : string -> option string).
Context {M : Type} `{Publisher M}.
#[local] Notation svc := (AuthService M).
#[local] Notation Authenticate := (AuthenticateAccess IDKey md4 precis).

(** What the credential check says, and what the policy says. *)
Definition credential_check (s : svc) (w : World) (snap : AccessSnapshot) (t : RadiusAccessAttempt) : option (result cred_error unit) :=
  verify_evidence IDKey md4 precis (boundCreds s w (xn_Auth snap) (xt_ClientID t)) w (canonUser precis (xt_UserID t)) (evidence_of (xt_Evidence t)).
Definition policy_check (snap : AccessSnapshot) (t : RadiusAccessAttempt) : RadiusPolicy.Result :=
  Evaluate (xn_Engine snap)
    (policy_request snap (canonUser precis (xt_UserID t)) (xt_ClientID t) (xt_EndpointID t) (policy_method t) (policyRequestAttrs (xt_Attributes t))).
Definition is_mschapv2 (t : RadiusAccessAttempt) : bool := str_eqb (ev_Method (xt_Evidence t)) AuthMethodMSCHAPv2.

(** The attempt can be judged, and by this snapshot. *)
Definition admitted (w : World) (published : option AccessSnapshot) (t : RadiusAccessAttempt) (snap : AccessSnapshot) : Prop :=
  w_cancelled w = false /\ (xt_Protocol t = "" \/ xt_Protocol t = "radius")%string
  /\ AuthMethod_Valid (ev_Method (xt_Evidence t)) = true /\ admitted_snapshot published t = Some snap.

Definition decision_of (s : svc) (w late : World) (snap : AccessSnapshot) (t : RadiusAccessAttempt) : RadiusAccessDecision :=
  let user := canonUser precis (xt_UserID t) in
  match credential_check s w snap t with
  | Some (Ok _) =>
    if userMustChangeLogin (xn_Auth snap) user then rejectAccess user AccessReasonPasswordChangeRequired
    else
      let dec := answered user (policy_check snap t) in
      if bool_decide (xd_Outcome dec = RadiusAccessAccept) && is_mschapv2 t then
        match mschap2_success md4 precis s late snap (xt_ClientID t) user (xt_Evidence t) with
        | Some raw => with_reply dec (raw :: xd_ReplyAttributes dec)
        | None => rejectAccess user AccessReasonInternal
        end
      else dec
  | Some (Err e) => rejectAccess user (if protoError e then AccessReasonInternal else AccessReasonBadCredentials)
  | None => rejectAccess user AccessReasonInternal
  end.

Lemma authenticate_admitted (s : svc) w late published t snap :
  admitted w published t snap -> engine_compiled (xn_Engine snap) ->
  Authenticate (Some s) w late published t = (decision_of s w late snap t, None).
Proof.
  intros (Hc & Hp & Hm & Hs) He. unfold AuthenticateAccess. rewrite Hc, Hm, Hs. cbn [negb].
  assert (negb (str_eqb (xt_Protocol t) "") && negb (str_eqb (xt_Protocol t) "radius") = false) as ->
    by (destruct Hp as [-> | ->]; reflexivity).
  unfold verifyAgainst. fold (credential_check s w snap t). unfold decision_of.
  destruct (credential_check s w snap t) as [[[]|e]|]; cbn [outcomeFromCreds]; [|by destruct (protoError e)|reflexivity].
  destruct (userMustChangeLogin _ _); [reflexivity|]. unfold evaluateAccess. fold (policy_check snap t).
  rewrite mapPolicyResult_answered by by apply Evaluate_answer. fold (is_mschapv2 t).
  destruct (_ && _); [|reflexivity]. unfold appendMSCHAP2Success. by destruct (mschap2_success _ _ _ _ _ _ _ _).
Qed.

Lemma authenticate_refused (s : option svc) w late published t :
  (forall snap, ~ admitted w published t snap) -> xd_Outcome (fst (Authenticate s w late published t)) = RadiusAccessReject.
Proof.
  intros Hno. unfold AuthenticateAccess. destruct s as [s|]; [|reflexivity]. destruct (w_cancelled w) eqn:Ec; [reflexivity|].
  destruct (_ && _) eqn:Ep; [reflexivity|]. destruct (AuthMethod_Valid _) eqn:Em; [|reflexivity]. cbn [negb].
  destruct (admitted_snapshot published t) as [snap|] eqn:Es; [|reflexivity]. exfalso. apply (Hno snap).
  split; [assumption|]. split; [|by split]. apply andb_false_iff in Ep as [Ep|Ep]; apply negb_false_iff, str_eqb_eq in Ep; auto.
Qed.

(** The success attribute of an accepted response: the identifier and 42
    octets, under Microsoft's vendor id. *)
Lemma mschap2_success_exists (s : svc) w snap t :
  is_mschapv2 t = true -> credential_check s w snap t = Some (Ok tt) ->
  exists octets, mschap2_success md4 precis s w snap (xt_ClientID t) (canonUser precis (xt_UserID t)) (xt_Evidence t)
      = Some (vendor_raw VendorMicrosoft (mkVendorTLV VendorTypeMSCHAP2Success octets))
    /\ len octets = mschapv2SuccessLen /\ index octets 0 = ev_CHAPID (xt_Evidence t).
Proof.
  intros Hm Hc. apply str_eqb_eq in Hm. unfold credential_check, evidence_of in Hc. rewrite Hm in Hc. cbn [verify_evidence] in Hc.
  injection Hc as Hc. unfold mschap2_success. set (ev := xt_Evidence t) in *. set (user := canonUser precis (xt_UserID t)) in *.
  unfold VerifyMSCHAPv2, early in Hc. unfold MSCHAPv2Success. destruct (cx_cancelled (w_cx w)); [discriminate Hc|].
  rewrite mschapv2WireOK_spec in Hc. case_decide as Hw; [|discriminate Hc]. destruct Hw as (H1 & H2 & H3).
  unfold MSCHAPResponseLen. rewrite H2. change (49 <? 49) with false.
  assert (len (slice (ev_Response ev) 0 16) = 16) as Hl by (rewrite len_slice; lia).
  rewrite Hl, H1. change (negb (16 =? MSCHAPv2ChallengeLen) || negb (16 =? mschapPeerLen)) with false.
  destruct (CanonicalUsername precis user) as [canon|], (lookup _ _ _) as [rec|] in Hc |- *; try discriminate Hc.
  destruct (Empty (cr_Challenge rec)); [discriminate Hc|].
  destruct (v2_success_shape md4 (ev_CHAPID ev) (Bytes (cr_Challenge rec)) (octets_of canon) (ev_Challenge ev) (slice (ev_Response ev) 0 16) H1 Hl)
    as (out & -> & Ho & Hi).
  exists out. split; [|by split]. unfold MicrosoftVSA.
  set (raw := vendor_raw _ _). assert (len out <= MaxVendorTLVValue) as Hfit by (rewrite Ho; done).
  by rewrite (proj2 (vendor_raw_spec VendorMicrosoft (mkVendorTLV VendorTypeMSCHAP2Success out) raw) (conj Hfit eq_refl)).
Qed.

Lemma authenticate_blind (s : option svc) w late published t attrs :
  List.filter readable attrs = List.filter readable (xt_Attributes t) ->
  Authenticate s w late published
    (mkAttempt (xt_Snapshot t) (xt_PolicyMethod t) (xt_Protocol t) (xt_ClientID t) (xt_EndpointID t) (xt_SnapshotRevision t)
       (xt_UserID t) (xt_Evidence t) attrs)
  = Authenticate s w late published t.
Proof.
  intros Hf. unfold AuthenticateAccess, admitted_snapshot, policy_method. cbn.
  by rewrite <- (policyRequestAttrs_readable attrs), Hf, policyRequestAttrs_readable.
Qed.

(** The decision accepts. *)
Definition granted (s : svc) (w late : World) (snap : AccessSnapshot) (t : RadiusAccessAttempt) : Prop :=
  let user := canonUser precis (xt_UserID t) in
  credential_check s w snap t = Some (Ok tt) /\ userMustChangeLogin (xn_Auth snap) user = false
  /\ rs_Effect (policy_check snap t) = EffectPermit /\ Forall attr_fits (rs_ReplyAttributes (policy_check snap t))
  /\ (is_mschapv2 t = true ->
      is_Some (mschap2_success md4 precis s late snap (xt_ClientID t) user (xt_Evidence t))).

(** The attributes of an accept: the MS-CHAP2-Success first, if any. *)
Definition grant_attrs (s : svc) (late : World) (snap : AccessSnapshot) (t : RadiusAccessAttempt) : RawSet :=
  (if is_mschapv2 t
   then match mschap2_success md4 precis s late snap (xt_ClientID t) (canonUser precis (xt_UserID t)) (xt_Evidence t) with
        | Some raw => [raw]
        | None => []
        end
   else []) ++ map attr_wire (rs_ReplyAttributes (policy_check snap t)).

Lemma decision_granted (s : svc) w late snap t :
  xd_Outcome (decision_of s w late snap t) = RadiusAccessAccept <-> granted s w late snap t.
Proof.
  unfold decision_of, granted. destruct (credential_check s w snap t) as [[[]|e]|]; [|split; [discriminate|intros [? _]; discriminate]..].
  destruct (userMustChangeLogin _ _); [split; [discriminate|intros (_ & ? & _); discriminate]|]. unfold answered.
  destruct (str_eqb (rs_Effect _) EffectPermit) eqn:Ep.
  - apply str_eqb_eq in Ep. rewrite Ep. change (str_eqb EffectPermit EffectDeny) with false. cbn [andb].
    destruct (bool_decide (Forall attr_fits _)) eqn:Ef; cbn [xd_Outcome]; [apply bool_decide_eq_true in Ef|apply bool_decide_eq_false in Ef].
    2: { split; [discriminate|]. by intros (_ & _ & _ & ? & _). }
    rewrite bool_decide_eq_true_2 by reflexivity. cbn [andb]. destruct (is_mschapv2 t).
    + destruct (mschap2_success _ _ _ _ _ _ _ _) as [raw|]; cbn; [split; [|reflexivity]|split; [discriminate|]].
      * intros _. split; [reflexivity|]. split; [reflexivity|]. split; [reflexivity|]. split; [assumption|]. intros _. by exists raw.
      * intros (_ & _ & _ & _ & Hs). by destruct (Hs eq_refl).
    + cbn. split; [|reflexivity]. intros _. by repeat (split; [assumption || reflexivity|]).
  - cbn [andb]. assert (rs_Effect (policy_check snap t) <> EffectPermit) as Hn by (intros He; by rewrite He in Ep).
    split; [|by intros (_ & _ & ? & _)]. destruct (_ && bool_decide _); cbn; discriminate.
Qed.

(** What a decision that does not accept says. *)
Record refusal (s : svc) (w : World) (snap : AccessSnapshot) (t : RadiusAccessAttempt) (d : RadiusAccessDecision) : Prop := {
  rf_outcome : xd_Outcome d = RadiusAccessReject;
  rf_credentials : xd_ReasonCode d = AccessReasonBadCredentials <->
    exists e, credential_check s w snap t = Some (Err e) /\ protoError e = false;
  rf_change : xd_ReasonCode d = AccessReasonPasswordChangeRequired <->
    credential_check s w snap t = Some (Ok tt) /\ userMustChangeLogin (xn_Auth snap) (canonUser precis (xt_UserID t)) = true;
  rf_policy : xd_ReasonCode d = AccessReasonPolicy <->
    credential_check s w snap t = Some (Ok tt) /\ userMustChangeLogin (xn_Auth snap) (canonUser precis (xt_UserID t)) = false
    /\ rs_Effect (policy_check snap t) = EffectDeny /\ Forall attr_fits (rs_ReplyAttributes (policy_check snap t));
  rf_attrs : xd_ReplyAttributes d =
    if str_eqb (xd_ReasonCode d) AccessReasonPolicy then map attr_wire (rs_ReplyAttributes (policy_check snap t)) else [];
}.

(** One case of the table: the reasons are different strings. *)
#[local] Ltac refusal_case :=
  intros; constructor; cbn; repeat split; try reflexivity; try discriminate; intros;
  repeat match goal with H : _ /\ _ |- _ => destruct H | H : exists _, _ |- _ => destruct H end;
  try discriminate; try congruence; eauto.

Lemma decision_refusal (s : svc) w late snap t :
  xd_Outcome (decision_of s w late snap t) <> RadiusAccessAccept -> refusal s w snap t (decision_of s w late snap t).
Proof.
  unfold decision_of. destruct (credential_check s w snap t) as [[[]|e]|] eqn:Ec; [|destruct (protoError e) eqn:Ep; refusal_case|refusal_case].
  destruct (userMustChangeLogin _ _) eqn:Em; [refusal_case|]. unfold answered.
  destruct (bool_decide (Forall attr_fits _)) eqn:Ef; [apply bool_decide_eq_true in Ef|apply bool_decide_eq_false in Ef];
    rewrite ?andb_true_r, ?andb_false_r.
  2: { cbn [xd_Outcome]. rewrite bool_decide_eq_false_2 by discriminate. refusal_case. }
  destruct (str_eqb (rs_Effect _) EffectPermit) eqn:Ep.
  - cbn [xd_Outcome]. rewrite bool_decide_eq_true_2 by reflexivity. cbn [andb]. apply str_eqb_eq in Ep.
    destruct (is_mschapv2 t); [|by intros []]. destruct (mschap2_success _ _ _ _ _ _ _ _) as [raw|]; [by intros []|].
    assert (EffectPermit <> EffectDeny) by discriminate. refusal_case.
  - destruct (str_eqb (rs_Effect _) EffectDeny) eqn:Ed; cbn [xd_Outcome]; rewrite bool_decide_eq_false_2 by discriminate; cbn [andb].
    + apply str_eqb_eq in Ed. refusal_case.
    + assert (rs_Effect (policy_check snap t) <> EffectDeny) by (intros Hd; rewrite Hd in Ed; discriminate Ed). refusal_case.
Qed.
Lemma decision_attrs (s : svc) w late snap t :
  xd_Outcome (decision_of s w late snap t) = RadiusAccessAccept ->
  xd_ReplyAttributes (decision_of s w late snap t) = grant_attrs s late snap t
  /\ xd_ReasonCode (decision_of s w late snap t) = AccessReasonOK.
Proof.
  unfold decision_of, grant_attrs. destruct (credential_check s w snap t) as [[[]|e]|]; [|discriminate..].
  destruct (userMustChangeLogin _ _); [discriminate|]. unfold answered.
  destruct (str_eqb (rs_Effect _) EffectPermit && _) eqn:Ep.
  - cbn [xd_Outcome]. rewrite bool_decide_eq_true_2 by reflexivity. cbn [andb]. destruct (is_mschapv2 t); [|by split].
    destruct (mschap2_success _ _ _ _ _ _ _ _) as [raw|]; [by split|discriminate].
  - destruct (str_eqb (rs_Effect _) EffectDeny && _); cbn [xd_Outcome]; rewrite bool_decide_eq_false_2 by discriminate; discriminate.
Qed.

Lemma mschap2_success_vsa (s : svc) w snap clientID user ev raw :
  mschap2_success md4 precis s w snap clientID user ev = Some raw -> Raw_Type raw = TypeVendorSpecific.
Proof.
  unfold mschap2_success. destruct (_ <? _); [discriminate|]. destruct (MSCHAPv2Success _ _ _ _ _ _ _ _ _) as [out|]; [|discriminate].
  destruct (MicrosoftVSA _ out) as [r|] eqn:E; [|discriminate]. intros [= <-]. unfold MicrosoftVSA in E.
  by apply vendor_raw_spec in E as [_ ->].
Qed.

Lemma decision_legal (s : svc) w late snap t :
  engine_compiled (xn_Engine snap) ->
  let d := decision_of s w late snap t in
  Forall (fun a => AllowedIn builtin (Raw_Type a) (if decide (xd_Outcome d = RadiusAccessAccept) then PacketAccessAccept else PacketAccessReject) = true)
    (xd_ReplyAttributes d).
Proof.
  intros He. unfold decision_of. destruct (credential_check s w snap t) as [[[]|e]|]; [|constructor..].
  destruct (userMustChangeLogin _ _); [constructor|].
  pose proof (answered_legal (canonUser precis (xt_UserID t)) (policy_check snap t) (Evaluate_answer _ _ He)) as Hl. cbv zeta in Hl.
  set (d := answered _ _) in *. case_bool_decide as Hd; cbn [andb]; [|exact Hl]. destruct (is_mschapv2 t); [|exact Hl].
  destruct (mschap2_success _ _ _ _ _ _ _ _) as [raw|] eqn:Er; [|constructor]. cbn. rewrite Hd, decide_True in Hl |- * by reflexivity.
  constructor; [|exact Hl]. rewrite (mschap2_success_vsa _ _ _ _ _ _ _ Er). exact vsa_allowed.
Qed.

(** C3. An access decision is exact, legal and blind to secrets.  Of an attempt
    that can be judged (live context, RADIUS, a known method, the snapshot of
    its revision), with a compiled policy engine: the answer is an accept
    exactly when the credential is verified, no password change is due, the
    policy permits, its vendor attributes fit and, for MS-CHAPv2, the success
    message could be built, as it always can be when nothing changed since the
    verification.  The accept carries that message and the attributes of the
    permitting rule in their order; any other answer is a reject whose reason
    says which check failed, without attributes unless the policy denied.  All
    attributes are legal in their packet.  An attempt that cannot be judged is
    rejected.  Secret attributes, Message-Authenticator, Proxy-State, State
    and MS-CHAP attributes of the request have no influence; and the groups
    handed to the policy are the engine's own effective groups. *)
Theorem access_decision (s : svc) w late published t :
  (forall snap, admitted w published t snap -> engine_compiled (xn_Engine snap) ->
     exists d, Authenticate (Some s) w late published t = (d, None)
     /\ (xd_Outcome d = RadiusAccessAccept <-> granted s w late snap t)
     /\ (xd_Outcome d = RadiusAccessAccept -> xd_ReplyAttributes d = grant_attrs s late snap t /\ xd_ReasonCode d = AccessReasonOK)
     /\ (xd_Outcome d <> RadiusAccessAccept -> refusal s w snap t d)
     /\ Forall (fun a => AllowedIn builtin (Raw_Type a)
                  (if decide (xd_Outcome d = RadiusAccessAccept) then PacketAccessAccept else PacketAccessReject) = true) (xd_ReplyAttributes d)
     /\ (late = w -> is_mschapv2 t = true -> credential_check s w snap t = Some (Ok tt) ->
         exists octets, mschap2_success md4 precis s late snap (xt_ClientID t) (canonUser precis (xt_UserID t)) (xt_Evidence t)
             = Some (vendor_raw VendorMicrosoft (mkVendorTLV VendorTypeMSCHAP2Success octets))
           /\ len octets = mschapv2SuccessLen /\ index octets 0 = ev_CHAPID (xt_Evidence t)))
  /\ ((forall snap, ~ admitted w published t snap) -> xd_Outcome (fst (Authenticate (Some s) w late published t)) = RadiusAccessReject)
  /\ (forall attrs, List.filter readable attrs = List.filter readable (xt_Attributes t) ->
       Authenticate (Some s) w late published
         (mkAttempt (xt_Snapshot t) (xt_PolicyMethod t) (xt_Protocol t) (xt_ClientID t) (xt_EndpointID t) (xt_SnapshotRevision t)
            (xt_UserID t) (xt_Evidence t) attrs)
       = Authenticate (Some s) w late published t)
  /\ (forall snap e userID clientID, same_view snap e ->
       effectiveRADIUSGroups snap userID clientID = groupIDs (RadiusPolicy.effectiveGroups e userID clientID)).
Proof.
  split; [|split; [apply authenticate_refused|split; [intros attrs; apply authenticate_blind|intros; by apply groups_agree]]].
  intros snap Ha He. exists (decision_of s w late snap t). split; [by apply authenticate_admitted|]. split; [apply decision_granted|].
  split; [apply decision_attrs|]. split; [apply decision_refusal|]. split; [by apply decision_legal|].
  intros ->. apply mschap2_success_exists.
Qed.
End Decision.

(** ** A concrete attempt *)

Definition chap_user : AuthUser :=
  mkAuthUser "u" true [] None None false false (memory_ref "") (memory_ref "chap") (memory_ref "").
Definition chap_snapshot : AccessSnapshot :=
  mkAccessSnapshot (mkAuthSnapshot 7 None {[ "u" := chap_user ]} {[ "nas" := mkAuthClient true [] ]} {[ "chap" := hunter2 ]})
    (Some small_engine) ∅ {[ "nas" := ["g"] ]} {[ "g" := (true, 1) ]}.
Definition chap_attempt (secret : bytes) : RadiusAccessAttempt :=
  let challenge := replicate 16 9 in
  mkAttempt (Some chap_snapshot) "" "radius" "nas" "udp" 7 "u"
    (mkEvidence AuthMethodCHAP [] 1 challenge (md5 (1 :: secret ++ challenge))) [mkRaw TypeNASPort [0; 0; 0; 7]].
Notation sample_authenticate := (AuthenticateAccess IDKey_sample (fun b => b) precis_sample (Some sample_auth) sample_world sample_world None).

(** The right secret is accepted with the Class of the matching rule. *)
Example chap_decisions :
  (let d := fst (sample_authenticate (chap_attempt hunter2)) in (xd_Outcome d, xd_ReplyAttributes d))
    = (RadiusAccessAccept, [mkRaw TypeClass (octets_of "gold")])
  /\ xd_ReasonCode (fst (sample_authenticate (chap_attempt [1]))) = AccessReasonBadCredentials.
Proof. vm_compute. done. Qed.

Lemma access_decision_witness :
  admitted sample_world None (chap_attempt hunter2) chap_snapshot /\ engine_compiled (xn_Engine chap_snapshot)
  /\ snd (sample_authenticate (chap_attempt hunter2)) = None.
Proof.
  assert (admitted sample_world None (chap_attempt hunter2) chap_snapshot) as Ha by (repeat split; by right).
  assert (engine_compiled (xn_Engine chap_snapshot)) as He by (exists small_input; exact small_compiled).
  split; [exact Ha|]. split; [exact He|].
  destruct (proj1 (access_decision IDKey_sample (fun b => b) precis_sample sample_auth sample_world sample_world None (chap_attempt hunter2))
    chap_snapshot Ha He) as (d & Hd & _).
  exact (f_equal snd Hd).
Defined.

(** ** The reply *)

(** Writing behind the first octet keeps it. *)
Lemma copy_at_first x b off src : 0 < off -> exists b', copy_at (x :: b) off src = x :: b'.
Proof. intros H. unfold copy_at. destruct (Z.to_nat off) eqn:E; [lia|]. eexists. reflexivity. Qed.
Lemma copy_range_first x b lo hi src : 0 < lo -> exists b', copy_range (x :: b) lo hi src = x :: b'.
Proof. intros H. unfold copy_range. destruct (Z.to_nat lo) eqn:E; [lia|]. eexists. reflexivity. Qed.

Lemma Encode_first p w : is_u8 (Code p) -> RadiusCodec.Encode p = Ok w -> exists w', w = Code p :: w'.
Proof.
  intros Hc. unfold RadiusCodec.Encode, EncodeBounded. destruct (_ >? _); [discriminate|]. destruct (_ >? _); [discriminate|].
  intros (payload & _ & H)%rbind_Ok. destruct (_ >? _) in H; [discriminate H|]. apply Ok_inj in H as <-.
  unfold HeaderSize. pose proof (len_nonneg payload).
  assert (exists b, make_bytes (20 + len payload) = 0 :: b) as [b ->].
  { unfold make_bytes. replace (Z.to_nat (20 + len payload)) with (S (Z.to_nat (19 + len payload))) by lia. by eexists. }
  change (set_at (0 :: b) 0 (to_u8 (Code p))) with (to_u8 (Code p) :: b). rewrite to_u8_id by assumption.
  change (set_at (Code p :: b) 1 (Identifier p)) with (Code p :: set_at b 0 (Identifier p)).
  destruct (copy_at_first (Code p) (set_at b 0 (Identifier p)) 2 (put_u16 (to_u16 (20 + len payload)))) as [b1 ->]; [lia|].
  destruct (copy_range_first (Code p) b1 4 20 (Authenticator p)) as [b2 ->]; [lia|]. by apply copy_at_first.
Qed.

(** A signed reply has its code. *)
Lemma SignResponse_code secret code id auth rest wire :
  is_u8 code -> SignResponse secret code id auth rest = Ok wire -> index wire 0 = code.
Proof.
  intros Hc. unfold SignResponse. destruct (_ =? 0); [discriminate|]. cbv zeta. intros (w & Hw & H)%rbind_Ok.
  destruct (RadiusCodec.Encode _) as [w0|] eqn:Ew; [|discriminate Hw]. apply Ok_inj in Hw as ->.
  apply Encode_first in Ew as [w' ->]; [|assumption]. apply rbind_Ok in H as (mac & _ & H). cbn [Code] in *.
  destruct (_ || _) in H; [discriminate H|]. apply rbind_Ok in H as (ra & _ & <-%Ok_inj).
  destruct (copy_range_first code w' (HeaderSize + 2) (HeaderSize + 18) mac) as [b1 ->]; [done|].
  destruct (copy_range_first code b1 4 20 ra) as [b2 ->]; [lia|]. reflexivity.
Qed.

(** No packet carries a value of more than 253 octets. *)
Lemma SignResponse_overlong secret code id auth rest a :
  a ∈ rest -> MaxValueLength < len (Raw_Value a) -> is_ok (SignResponse secret code id auth rest) = false.
Proof.
  intros Ha Hl. unfold SignResponse. destruct (_ =? 0); [reflexivity|]. cbv zeta.
  assert (exists e, RadiusCodec.Encode (mkPacket code id auth ([mkRaw TypeMessageAuthenticator (make_bytes AuthenticatorSize)] ++ rest)) = Err e) as [e ->];
    [|reflexivity].
  unfold RadiusCodec.Encode, EncodeBounded. cbn [Attributes]. destruct (_ >? _); [by eexists|]. destruct (_ >? _); [by eexists|].
  unfold RadiusAttribute.Encode. rewrite Encode_size_err; [by eexists|]. rewrite List.Forall_forall. intros H.
  specialize (H a). rewrite <- list_elem_of_In in H. rewrite elem_of_app in H. specialize (H (or_intror Ha)). cbn in H. lia.
Qed.

Lemma overlong_discarded in_ code reason policy a :
  replyAttrsLegal code policy = true -> a ∈ policy -> MaxValueLength < len (Raw_Value a) ->
  replyAccess in_ code reason policy = ActionDiscard RadiusReply.ReasonMalformedHeader.
Proof.
  intros Hl Ha Hlen. unfold replyAccess. rewrite Hl, andb_false_r. unfold sendAccess, ReplyAccess.
  assert ((RawSet_Len policy >? 0) = true) as ->.
  { destruct policy as [|x policy]; [by apply elem_of_nil in Ha|]. unfold RawSet_Len. rewrite len_cons, Z.gtb_ltb. apply Z.ltb_lt.
    pose proof (len_nonneg policy). lia. }
  pose proof (SignResponse_overlong (Secret (xq_Request in_)) code (Identifier (xq_Packet in_)) (Authenticator (xq_Packet in_))
    (CopyProxyState (Attributes (xq_Packet in_)) ++ policy) a) as H.
  rewrite elem_of_app in H. specialize (H (or_intror Ha) Hlen). by destruct (SignResponse _ _ _ _ _).
Qed.

(** A text of 254 octets compiles, and neither the permit nor the deny of its
    rule reaches the client. *)
Definition overlong_input (effect : string) : Input :=
  mkInput [mkRADIUSPolicy "p" [mkRADIUSRule "r" true (mkRADIUSMatch [] None []) effect ["q"]]]
    [mkReplyProfile "q" [mkReplyAttr "Reply-Message" 0 0 (text_of (replicate 254 65)) ""]] "p" [] [] [].

Lemma overlong_reply_message effect :
  effect = EffectPermit \/ effect = EffectDeny ->
  exists e, Compile (overlong_input effect) = Ok e /\ forall in_ reason,
    let d := ExplainRADIUSAccess precis_sample (Some (mkAccessSnapshot sample_snapshot (Some e) ∅ ∅ ∅)) "u" "nas" "udp" "chap" [] in
    let code := if decide (xd_Outcome d = RadiusAccessAccept) then CodeAccessAccept else CodeAccessReject in
    xd_ReasonCode d = (if str_eqb effect EffectPermit then AccessReasonOK else AccessReasonPolicy)
    /\ replyAccess in_ code reason (xd_ReplyAttributes d) = ActionDiscard RadiusReply.ReasonMalformedHeader.
Proof.
  intros [-> | ->].
  all: eexists; split; [vm_compute; reflexivity|]; intros in_ reason; cbv zeta; split; [vm_compute; reflexivity|].
  all: apply (overlong_discarded _ _ _ _ (mkRaw TypeReplyMessage (replicate 254 65))); [vm_compute; reflexivity| |reflexivity].
  all: apply (bool_decide_eq_true_1 _); vm_compute; reflexivity.
Qed.
