(* ===== verification/RadiusEap.v ===== *)
(** * The RADIUS access handler

    [internal/radius/server]: [Handle] of [access.go], the EAP conversation
    ([eap.go]) and its PEAP part ([peap_access.go]).

    A handler is a program of calls ([prog]): the challenge table, the registry
    of tunnels, a tunnel, the entropy source and the AAA facade are shared with
    other requests, so each call is a step of its own and any number of handlers
    may interleave between two of them.  Everything between two calls is local
    to the request.  [Handle] and its parts follow the code function by function;
    [access_step] lets any number of requests run over one challenge table, and
    [safe] is what a handler must satisfy, call by call, for its accepts to be
    justified.  Metrics and wiping have no model. *)

From Stdlib Require Import String.
From stdpp Require Import gmap strings.
From S2P Require Import Prelude Text Md5 Domain MsChap Credentials Policy RadiusPolicy AaaAuthen Peap.
From S2P Require Import RadiusAttribute RadiusDictionary RadiusCodec RadiusCrypto RadiusReply BoundedStore RadiusChallenge RadiusAccess.

#[local] Open Scope Z_scope.

(** ** EAP packets (eap.go) *)

Definition eapCodeRequest := 1.
Definition eapCodeResponse := 2.
Definition eapCodeSuccess := 3.
Definition eapCodeFailure := 4.
Definition eapTypeIdentity := 1.
Definition eapTypeNAK := 3.
Definition eapTypeMD5 := 4.
Definition eapTypePEAP := PEAPType.
Definition eapHeaderLen := 4.
Definition eapMD5ValueLen := 16.
Definition eapStateLen := 16.
Definition maxEAPPayload := 1020.
Definition methodEAP : string := "eap".
Definition methodPEAP : string := "peap".

Record eapPacket := mkEap { eap_Code : Z; eap_Identifier : Z; eap_Type : Z; eap_Data : bytes; eap_HasType : bool }.

(** The first loop: the summed length, while it stays in bound. *)
Fixpoint eap_length (all : RawSet) (n : Z) : option Z :=
  match all with
  | [] => Some n
  | a :: all => let n := n + len (Raw_Value a) in if n >? maxEAPPayload then None else eap_length all n
  end.
Definition concatEAPMessage (attrs : RawSet) : result string bytes :=
  let all := AllOf attrs TypeEAPMessage in
  if len all =? 0 then Ok []
  else match eap_length all 0 with None => Err ReasonEAPTooLong | Some _ => Ok (concat (map Raw_Value all)) end.

Definition parseEAP (b : bytes) : result string eapPacket :=
  let refuse := Err ReasonUnsupportedEAPMethod in
  if len b <? eapHeaderLen then refuse
  else
    let length := be_u16 (index b 2) (index b 3) in
    if negb (length =? len b) || (length <? eapHeaderLen) then refuse
    else
      let code := index b 0 in
      if (code =? eapCodeSuccess) || (code =? eapCodeFailure) then
        if negb (length =? eapHeaderLen) then refuse else Ok (mkEap code (index b 1) 0 [] false)
      else if (code =? eapCodeRequest) || (code =? eapCodeResponse) then
        if length <? eapHeaderLen + 1 then refuse
        else Ok (mkEap code (index b 1) (index b 4) (if length >? eapHeaderLen + 1 then slice b 5 (len b) else []) true)
      else refuse.

Definition encodeEAP (p : eapPacket) : bytes :=
  if (eap_Code p =? eapCodeSuccess) || (eap_Code p =? eapCodeFailure) then [eap_Code p; eap_Identifier p; 0; eapHeaderLen]
  else
    let n := eapHeaderLen + 1 + len (eap_Data p) in
    let out := make_bytes n in
    let out := set_at out 0 (eap_Code p) in
    let out := set_at out 1 (eap_Identifier p) in
    let out := set_at out 2 (to_u8 (Z.shiftr n 8)) in
    let out := set_at out 3 (to_u8 n) in
    let out := set_at out 4 (eap_Type p) in
    copy_at out 5 (eap_Data p).

Definition genericEAPFailure (id : Z) : bytes := [eapCodeFailure; id; 0; eapHeaderLen].
Definition eapSuccess (id : Z) : bytes := [eapCodeSuccess; id; 0; eapHeaderLen].
Definition eapRequestIdentity (id : Z) : bytes := encodeEAP (mkEap eapCodeRequest id eapTypeIdentity [] true).
Definition eapRequestMD5 (id : Z) (challenge : bytes) : bytes :=
  let data := make_bytes (1 + len challenge) in
  let data := set_at data 0 (to_u8 (len challenge)) in
  let data := copy_at data 1 challenge in
  encodeEAP (mkEap eapCodeRequest id eapTypeMD5 data true).
Definition eapRequestPEAPStart (id : Z) : bytes := encodeEAP (mkEap eapCodeRequest id eapTypePEAP EncodeStart true).

Definition parseMD5Response (data : bytes) : option bytes :=
  if (len data <? 1 + eapMD5ValueLen) || negb (index data 0 =? eapMD5ValueLen) || (len data <? 1 + index data 0) then None
  else Some (slice data 1 (1 + eapMD5ValueLen)).

(** Every turn takes at least one octet. *)
Fixpoint eap_message_loop (fuel : nat) (pkt : bytes) : RawSet :=
  match fuel with
  | O => []
  | S fuel =>
    if len pkt >? 0 then
      let n := if len pkt >? MaxValueLength then MaxValueLength else len pkt in
      mkRaw TypeEAPMessage (slice pkt 0 n) :: eap_message_loop fuel (slice pkt n (len pkt))
    else []
  end.
Definition eapMessageAttrs (pkt : bytes) : RawSet := eap_message_loop (length pkt) pkt.

Definition singleUserName (attrs : RawSet) : result string (option string) :=
  match AllOf attrs TypeUserName with
  | [] => Ok None
  | [a] => if len (Raw_Value a) =? 0 then Err ReasonMissingUsername else Ok (Some (text_of (Raw_Value a)))
  | _ => Err ReasonMissingUsername
  end.

Definition papOrCHAPPresent (in_ : AccessRequest) : bool :=
  (len (AllOf (xq_Attributes in_) TypeUserPassword) >? 0) || (len (AllOf (xq_Attributes in_) TypeCHAPPassword) >? 0).

Definition eapConversationAllowed (methods : list string) : bool := method_allowed methods methodEAP || method_allowed methods methodPEAP.

(** The first MS-CHAP2-Success message of a set, without its identifier. *)
Fixpoint success_tlv (tlvs : list VendorTLV) : option bytes :=
  match tlvs with
  | [] => None
  | t :: tlvs =>
    if (VendorTLV_Type t =? VendorTypeMSCHAP2Success) && (len (VendorTLV_Value t) >? 1)
    then Some (slice (VendorTLV_Value t) 1 (len (VendorTLV_Value t))) else success_tlv tlvs
  end.
Fixpoint success_message (l : RawSet) : option bytes :=
  match l with
  | [] => None
  | raw :: l =>
    match ParseVSA raw with
    | Err _ => success_message l
    | Ok vsa =>
      if negb (VSA_Vendor vsa =? VendorMicrosoft) then success_message l
      else match ParseVendorTLVs (VSA_Payload vsa) with
           | Err _ => success_message l
           | Ok tlvs => match success_tlv tlvs with Some m => Some m | None => success_message l end
           end
    end
  end.
Definition microsoftSuccessMessage (attrs : RawSet) : option bytes := success_message (AllOf attrs TypeVendorSpecific).

(** ** Calls *)

Inductive call :=
| CallConsume (r : challengeRequest) (state : bytes)
| CallIssue (r : challengeRequest) (i : ChallengeIssue)
| CallRand (n : Z)
| CallAuthenticate (t : RadiusAccessAttempt)
| CallNewTunnel
| CallPut (id : bytes) (a : nat) | CallGet (id : bytes) | CallDelete (id : bytes)
| CallNextFragment (a : nat) | CallBuffer (a : nat) (p : Payload) | CallFragmentError (a : nat)
| CallComplete (a : nat) | CallHandshakeErr (a : nat) | CallPush (a : nat) (records : bytes) | CallWait (a : nat) | CallPull (a : nat)
| CallWriteApp (a : nat) (p : bytes) | CallReadApp (a : nat) | CallQueue (a : nat) (tlsRec : bytes) | CallClose (a : nat).

(** An authentication comes with whether the context has ended since. *)
Definition answer (c : call) : Type :=
  match c with
  | CallConsume _ _ => option ChallengeRecord * challenge_reason
  | CallIssue _ _ => challenge_reason
  | CallRand _ => option bytes
  | CallAuthenticate _ => (RadiusAccessDecision * option access_error) * bool
  | CallNewTunnel | CallGet _ => option nat
  | CallDelete _ | CallWait _ | CallClose _ => unit
  | CallPut _ _ | CallFragmentError _ | CallComplete _ | CallHandshakeErr _ | CallPush _ _ | CallWriteApp _ _ => bool
  | CallNextFragment _ | CallBuffer _ _ | CallReadApp _ => option bytes
  | CallPull _ | CallQueue _ _ => bytes
  end.

Inductive prog := Return (r : Result) | Call (c : call) (k : answer c -> prog).
Arguments Call : clear implicits.

Fixpoint prog_bind (p : prog) (f : Result -> prog) : prog :=
  match p with Return r => f r | Call c k => Call c (fun a => prog_bind (k a) f) end.

#[local] Notation "'do' x <- c ; k" := (Call c (fun x => k)) (at level 200, x name, c at level 100, k at level 200).

(** ** The handler *)

(** Which of the handler's collaborators are not nil. *)
Record access_env := mkAccessEnv { ae_AAA : bool; ae_Store : bool; ae_PEAP : bool; ae_Tunnels : bool }.

Section Handler.
Context (precis : string -> option string) (e : access_env) (in_ : AccessRequest).

Definition sameRADIUSUser (a b : string) : bool :=
  match CanonicalUsername precis a, CanonicalUsername precis b with Ok ca, Ok cb => str_eqb ca cb | _, _ => false end.

Definition reason_text (r : challenge_reason) : string :=
  match r with
  | ReasonNone => "" | RadiusChallenge.ReasonInvalidState => RadiusAccess.ReasonInvalidState
  | RadiusChallenge.ReasonChallengeBinding => RadiusAccess.ReasonChallengeBinding
  | RadiusChallenge.ReasonChallengeExpired => RadiusAccess.ReasonChallengeExpired
  | RadiusChallenge.ReasonChallengeCapacity => RadiusAccess.ReasonChallengeCapacity
  end.

(** [readRand]: exactly [n] octets. *)
Definition read_rand (n : Z) (k : option bytes -> prog) : prog := do b <- CallRand n; k (copy_bytes (make_bytes n) <$> b).

(** [IssueChallenge] and [consumeContinuation] on a store that may be nil. *)
Definition issue (i : ChallengeIssue) (k : challenge_reason -> prog) : prog :=
  if ae_Store e then do reason <- CallIssue (xq_Bind in_) i; k reason else k RadiusChallenge.ReasonChallengeCapacity.
Definition consume (state : bytes) (k : option ChallengeRecord * challenge_reason -> prog) : prog :=
  if ae_Store e then do got <- CallConsume (xq_Bind in_) state; k got else k (None, RadiusChallenge.ReasonInvalidState).

Definition reply (code : Z) (reason : string) (attrs : RawSet) : prog := Return (replyAccess in_ code reason attrs).
Definition eapReject (reason : string) (id : Z) : prog := reply CodeAccessReject reason (eapMessageAttrs (genericEAPFailure id)).

Definition StepIdentity : bytes := octets_of "identity".
Definition StepMD5Challenge : bytes := octets_of "md5_challenge".
Definition StepPEAPStart : bytes := octets_of "peap_start".
Definition StepPEAPHandshake : bytes := octets_of "peap_handshake".
Definition StepPEAPInner : bytes := octets_of "peap_inner".
Definition StepPEAPMSCHAP : bytes := octets_of "peap_mschap".
Definition StepPEAPFinish : bytes := octets_of "peap_finish".

(** A [ChallengeIssue] with the endpoint and the client of the request. *)
Definition new_issue (state user method : bytes) (id type_ : Z) (step : bytes) (attrs : RawSet) (md5 tunnel : bytes) : ChallengeIssue :=
  mkIssue state (rq_EndpointID (xq_Bind in_)) (rq_ClientID (xq_Bind in_)) (mkBind BindUDPIP None zeroFP) user method id type_ step attrs md5 tunnel 0.

(** An Access-Challenge with its State first. *)
Definition challenge (state pkt : bytes) : prog := reply CodeAccessChallenge ReasonChallenge (mkRaw TypeState state :: eapMessageAttrs pkt).

(** The rest of the three issuing handlers: what an error of the store costs. *)
Definition issued (reason : challenge_reason) (peerID : Z) (cleanup : prog -> prog) (k : prog) : prog :=
  match reason with ReasonNone => k | r => cleanup (eapReject (reason_text r) peerID) end.

Definition tunnelIDFromState (state : bytes) : bytes := octets_of (EncodeToString state).

Definition issuePEAPStart (user : string) (peerID : Z) : prog :=
  if negb (ae_PEAP e) || negb (ae_Tunnels e) then eapReject ReasonInternal peerID
  else
    do tun <- CallNewTunnel;
    match tun with
    | None => eapReject ReasonInternal peerID
    | Some tun =>
      read_rand eapStateLen (fun state =>
      match state with
      | None => do _ <- CallClose tun; eapReject ReasonInternal peerID
      | Some state =>
        let id := to_u8 (peerID + 1) in
        let tid := tunnelIDFromState state in
        do ok <- CallPut tid tun;
        if negb ok then do _ <- CallClose tun; eapReject RadiusAccess.ReasonChallengeCapacity peerID
        else
          issue (new_issue state (octets_of user) (octets_of methodPEAP) id eapTypePEAP StepPEAPStart [] [] tid) (fun reason =>
          issued reason peerID (fun k => do _ <- CallDelete tid; do _ <- CallClose tun; k) (challenge state (eapRequestPEAPStart id)))
      end)
    end.

Definition issueIdentityChallenge (peerID : Z) : prog :=
  read_rand eapStateLen (fun state =>
  match state with
  | None => eapReject ReasonInternal peerID
  | Some state =>
    let id := to_u8 (peerID + 1) in
    issue (new_issue state [] (octets_of methodEAP) id eapTypeIdentity StepIdentity [] [] []) (fun reason =>
    issued reason peerID (fun k => k) (challenge state (eapRequestIdentity id)))
  end).

Definition issueMD5Challenge (user : string) (peerID : Z) : prog :=
  read_rand eapStateLen (fun state =>
  match state with
  | None => eapReject ReasonInternal peerID
  | Some state =>
    read_rand eapMD5ValueLen (fun chal =>
    match chal with
    | None => eapReject ReasonInternal peerID
    | Some chal =>
      let id := to_u8 (peerID + 1) in
      issue (new_issue state (octets_of user) (octets_of methodEAP) id eapTypeMD5 StepMD5Challenge [] chal []) (fun reason =>
      issued reason peerID (fun k => k) (challenge state (eapRequestMD5 id chal)))
    end)
  end).

Definition startFromIdentity (pkt : eapPacket) : prog :=
  let ident := text_of (eap_Data pkt) in
  match singleUserName (xq_Attributes in_) with
  | Err reason => eapReject reason (eap_Identifier pkt)
  | Ok name =>
    if negb (str_eqb ident "") && match name with Some n => negb (sameRADIUSUser ident n) | None => false end
    then eapReject ReasonConflictingAuth (eap_Identifier pkt)
    else
      let user := if str_eqb ident "" then default ""%string name else ident in
      if str_eqb user "" then issueIdentityChallenge (eap_Identifier pkt)
      else if method_allowed (xq_AllowedMethods in_) methodPEAP then issuePEAPStart user (eap_Identifier pkt)
      else issueMD5Challenge user (eap_Identifier pkt)
  end.

Definition handleEAPStart : prog :=
  let refuse reason id := eapReject reason id in
  if papOrCHAPPresent in_ || mschap_present (collectMSCHAP (xq_Attributes in_)) then refuse ReasonConflictingAuth 0
  else if bool_decide (xq_AllowedMethods in_ = []) || negb (eapConversationAllowed (xq_AllowedMethods in_))
  then reply CodeAccessReject RadiusReply.ReasonUnsupportedMethod []
  else
    match concatEAPMessage (xq_Attributes in_) with
    | Err reason => refuse reason 0
    | Ok raw =>
      match parseEAP raw with
      | Err reason => refuse reason 0
      | Ok pkt =>
        if negb (eap_Code pkt =? eapCodeResponse) then refuse ReasonUnsupportedEAPMethod (eap_Identifier pkt)
        else if eap_Type pkt =? eapTypeIdentity then startFromIdentity pkt
        else if eap_Type pkt =? eapTypeMD5 then refuse RadiusAccess.ReasonInvalidState (eap_Identifier pkt)
        else refuse ReasonUnsupportedEAPMethod (eap_Identifier pkt)
      end
    end.

(** *** EAP-MD5 *)

Definition decideMD5 (id : Z) (got : (RadiusAccessDecision * option access_error) * bool) : prog :=
  match got with
  | ((_, Some _), cancelled) => if cancelled then Return (ActionDiscard ReasonOverload) else eapReject ReasonInternal id
  | ((dec, None), _) =>
    if bool_decide (xd_Outcome dec = RadiusAccessAccept)
    then reply CodeAccessAccept RadiusReply.ReasonOK (eapMessageAttrs (eapSuccess id) ++ xd_ReplyAttributes dec)
    else eapReject (wireAccessReason (xd_ReasonCode dec)) id
  end.

(** The user of a conversation; a record without one takes the request's. *)
Definition md5_user (rec : ChallengeRecord) : result string string :=
  let user := text_of (cr_UserID rec) in
  if str_eqb user "" then let! name := singleUserName (xq_Attributes in_) in Ok (default user name) else Ok user.

Definition verifyMD5 (rec : ChallengeRecord) (pkt : eapPacket) : prog :=
  let id := eap_Identifier pkt in
  match parseMD5Response (eap_Data pkt) with
  | None => eapReject RadiusAccess.ReasonBadCredentials id
  | Some hash =>
    if negb (ae_AAA e) then eapReject ReasonInternal id
    else
      match md5_user rec with
      | Err reason => eapReject reason id
      | Ok user =>
        do got <- CallAuthenticate (attempt_of in_ "" user (mkEvidence AuthMethodEAP [] id (cr_MD5Challenge rec) hash));
        decideMD5 id got
      end
  end.

(** *** PEAP *)

Definition with_progress (rec : ChallengeRecord) (user : bytes) (eapID : Z) (attrs : RawSet) (md5 : bytes) : ChallengeRecord :=
  mkRecord (cr_EndpointID rec) (cr_ClientID rec) (cr_Bind rec) user (cr_Method rec) eapID (cr_EAPType rec) (cr_Step rec) attrs md5
    (cr_TunnelID rec) (cr_Expires rec) (cr_Revision rec).

Definition issuePEAPContinue (rec : ChallengeRecord) (body step : bytes) : prog :=
  read_rand eapStateLen (fun state =>
  match state with
  | None => eapReject ReasonInternal (cr_EAPID rec)
  | Some state =>
    let id := to_u8 (cr_EAPID rec + 1) in
    issue (new_issue state (cr_UserID rec) (octets_of methodPEAP) id eapTypePEAP step (cr_ReplyAttributes rec) (cr_MD5Challenge rec) (cr_TunnelID rec))
    (fun reason => issued reason (cr_EAPID rec) (fun k => k)
      (let body := if len body =? 0 then Peap.Encode (plain_payload []) else body in
       challenge state (encodeEAP (mkEap eapCodeRequest id eapTypePEAP body true))))
  end).

(** [firstFlight(tun, recs)], then the continuation. *)
Definition send_flight (tun : nat) (recs : bytes) (k : bytes -> prog) : prog := do body <- CallQueue tun recs; k body.

(** The inner response is an identity: challenge it. *)
Definition inner_identity (rec : ChallengeRecord) (tun : nat) (pkt : InnerPacket) : prog :=
  if negb (ip_Code pkt =? 2) || negb (ip_Type pkt =? InnerIdentity) then eapReject ReasonUnsupportedEAPMethod (ip_Identifier pkt)
  else
    let user := if len (ip_Data pkt) =? 0 then cr_UserID rec else ip_Data pkt in
    read_rand 16 (fun chal =>
    match chal with
    | None => eapReject ReasonInternal (ip_Identifier pkt)
    | Some chal =>
      let msID := to_u8 (ip_Identifier pkt + 1) in
      do ok <- CallWriteApp tun (default [] (EncodeMSCHAPChallenge msID msID chal (octets_of "taclab")));
      if negb ok then eapReject ReasonInternal (ip_Identifier pkt)
      else
        do recs <- CallPull tun;
        send_flight tun recs (fun body =>
        issuePEAPContinue (with_progress rec user msID (cr_ReplyAttributes rec) chal) body StepPEAPMSCHAP)
    end).

(** After an accepted inner response. *)
Definition inner_accepted (rec : ChallengeRecord) (tun : nat) (pkt : InnerPacket) (msID : Z) (user : bytes) (attrs : RawSet) : prog :=
  let finish :=
    do ok <- CallWriteApp tun (InnerSuccess (to_u8 (ip_Identifier pkt + 1)));
    if negb ok then eapReject ReasonInternal (ip_Identifier pkt)
    else
      do recs <- CallPull tun;
      send_flight tun recs (fun body =>
      issuePEAPContinue (with_progress rec user (cr_EAPID rec) (policySafeAttrs attrs) (cr_MD5Challenge rec)) body StepPEAPFinish) in
  match microsoftSuccessMessage attrs with
  | Some msg => do _ <- CallWriteApp tun (EncodeMSCHAPSuccess (to_u8 (ip_Identifier pkt + 1)) msID msg); finish
  | None => finish
  end.

Definition inner_mschap (rec : ChallengeRecord) (tun : nat) (pkt : InnerPacket) : prog :=
  match ParseMSCHAPResponse pkt with
  | None => eapReject RadiusAccess.ReasonBadCredentials (ip_Identifier pkt)
  | Some (msID, resp, name) =>
    let user := if len name =? 0 then cr_UserID rec else name in
    if negb (ae_AAA e) then eapReject ReasonInternal (ip_Identifier pkt)
    else
      do got <- CallAuthenticate (attempt_of in_ AuthMethodEAP (text_of user) (mkEvidence AuthMethodMSCHAPv2 [] msID (cr_MD5Challenge rec) resp));
      match got with
      | ((_, Some _), cancelled) => if cancelled then Return (ActionDiscard ReasonOverload) else eapReject ReasonInternal (ip_Identifier pkt)
      | ((dec, None), _) =>
        if negb (bool_decide (xd_Outcome dec = RadiusAccessAccept))
        then do _ <- CallWriteApp tun (InnerFailure (ip_Identifier pkt)); eapReject (wireAccessReason (xd_ReasonCode dec)) (ip_Identifier pkt)
        else inner_accepted rec tun pkt msID user (xd_ReplyAttributes dec)
      end
  end.

Definition handlePEAPInner (rec : ChallengeRecord) (tun : nat) (inner : bytes) : prog :=
  match DecodeInner inner with
  | Err _ => eapReject ReasonUnsupportedEAPMethod (cr_EAPID rec)
  | Ok pkt =>
    if bytes_eqb (cr_Step rec) StepPEAPInner || bytes_eqb (cr_Step rec) StepPEAPHandshake then inner_identity rec tun pkt
    else if bytes_eqb (cr_Step rec) StepPEAPMSCHAP then inner_mschap rec tun pkt
    else eapReject RadiusAccess.ReasonInvalidState (ip_Identifier pkt)
  end.

(** A complete flight during the handshake. *)
Definition peap_handshake (rec : ChallengeRecord) (tun : nat) (id : Z) (complete : bytes) : prog :=
  do ok <- CallPush tun complete;
  if negb ok then eapReject ReasonUnsupportedEAPMethod id
  else
    do _ <- CallWait tun;
    do recs <- CallPull tun;
    do done_ <- CallComplete tun;
    if done_ then
      do ok <- CallWriteApp tun (IdentityRequest (to_u8 (id + 1)));
      if negb ok then eapReject ReasonInternal id
      else
        do more <- CallPull tun;
        send_flight tun (recs ++ more) (fun body => issuePEAPContinue rec body StepPEAPInner)
    else
      do failed <- CallHandshakeErr tun;
      if failed && (len recs =? 0) then eapReject ReasonUnsupportedEAPMethod id
      else send_flight tun recs (fun body => issuePEAPContinue rec body StepPEAPHandshake).

(** A complete flight after it. *)
Definition peap_application (rec : ChallengeRecord) (tun : nat) (id : Z) (complete : bytes) : prog :=
  if bytes_eqb (cr_Step rec) StepPEAPFinish then
    do _ <- CallDelete (cr_TunnelID rec);
    do _ <- CallClose tun;
    reply CodeAccessAccept RadiusReply.ReasonOK (RawSet_Clone (cr_ReplyAttributes rec) ++ eapMessageAttrs (eapSuccess id))
  else
    do ok <- CallPush tun complete;
    if negb ok then eapReject ReasonUnsupportedEAPMethod id
    else
      do inner <- CallReadApp tun;
      match inner with
      | None => eapReject ReasonUnsupportedEAPMethod id
      | Some inner => handlePEAPInner rec tun inner
      end.

(** [NextFragment] is read before the body is looked at. *)
Definition peap_body (rec : ChallengeRecord) (tun : nat) (id : Z) (body : Payload) : prog :=
  do next <- CallNextFragment tun;
  match next, len (pl_TLSData body) =? 0 with
  | Some next, true => issuePEAPContinue rec next (cr_Step rec)
  | _, _ =>
    do complete <- CallBuffer tun body;
    do failed <- CallFragmentError tun;
    if failed then eapReject ReasonEAPTooLong id
    else
      match complete with
      | None => issuePEAPContinue rec (Peap.Encode (plain_payload [])) (cr_Step rec)
      | Some complete =>
        do done_ <- CallComplete tun;
        if negb done_ then peap_handshake rec tun id complete else peap_application rec tun id complete
      end
  end.

Definition handlePEAP (rec : ChallengeRecord) (pkt : eapPacket) : prog :=
  let id := eap_Identifier pkt in
  if negb (id =? cr_EAPID rec) then eapReject RadiusAccess.ReasonInvalidState id
  else if negb (eap_Type pkt =? eapTypePEAP) then eapReject ReasonUnsupportedEAPMethod id
  else if negb (method_allowed (xq_AllowedMethods in_) methodPEAP) then eapReject ReasonUnsupportedEAPMethod id
  else if negb (ae_PEAP e) || negb (ae_Tunnels e) then eapReject ReasonInternal id
  else
    do tun <- CallGet (cr_TunnelID rec);
    match tun with
    | None => eapReject RadiusAccess.ReasonInvalidState id
    | Some tun => match Parse (eap_Data pkt) with Err _ => eapReject ReasonUnsupportedEAPMethod id | Ok body => peap_body rec tun id body end
    end.

(** *** Continuations *)

Definition is_peap_step (step : bytes) : bool :=
  existsb (bytes_eqb step) [StepPEAPStart; StepPEAPHandshake; StepPEAPInner; StepPEAPMSCHAP; StepPEAPFinish].

Definition handleEAPContinuation (rec : ChallengeRecord) : prog :=
  if papOrCHAPPresent in_ then eapReject ReasonConflictingAuth (cr_EAPID rec)
  else
    match concatEAPMessage (xq_Attributes in_) with
    | Err reason => eapReject reason (cr_EAPID rec)
    | Ok raw =>
      if len raw =? 0 then reply CodeAccessReject RadiusReply.ReasonUnsupportedMethod []
      else
        match parseEAP raw with
        | Err reason => eapReject reason (cr_EAPID rec)
        | Ok pkt =>
          let id := eap_Identifier pkt in
          if negb (eap_Code pkt =? eapCodeResponse) then eapReject ReasonUnsupportedEAPMethod id
          else if bytes_eqb (cr_Step rec) StepIdentity then
            if eap_Type pkt =? eapTypeIdentity then startFromIdentity pkt else eapReject ReasonUnsupportedEAPMethod id
          else if is_peap_step (cr_Step rec) then handlePEAP rec pkt
          else if bytes_eqb (cr_Step rec) StepMD5Challenge then
            if negb (eap_Type pkt =? eapTypeMD5) then eapReject ReasonUnsupportedEAPMethod id
            else if negb (id =? cr_EAPID rec) then eapReject RadiusAccess.ReasonInvalidState id
            else verifyMD5 rec pkt
          else eapReject RadiusAccess.ReasonInvalidState id
        end
    end.

(** *** The dispatch (access.go) *)

Definition result_reason (r : Result) : string := match r with ActionDiscard reason | ActionReply reason _ => reason end.

(** The tunnel of a conversation that does not go on is dropped. *)
Definition after_continuation (rec : ChallengeRecord) (res : Result) : prog :=
  if bytes_eqb (cr_Method rec) (octets_of methodPEAP) && negb (str_eqb (result_reason res) ReasonChallenge) && ae_Tunnels e
  then do _ <- CallDelete (cr_TunnelID rec); Return res
  else Return res.

Definition handle_direct : prog :=
  match extractAccessEvidence in_ with
  | Err reason => reply CodeAccessReject reason []
  | Ok (user, ev) =>
    if negb (ae_AAA e) then reply CodeAccessReject ReasonInternal []
    else do got <- CallAuthenticate (attempt_of in_ "" user ev); Return (decide_reply in_ (snd got) (fst got))
  end.

Definition Handle (cancelled : bool) : prog :=
  let r := xq_Request in_ in
  if cancelled then Return (ActionDiscard ReasonOverload)
  else
    match Role r with
    | RoleAccounting => Return (Stub_Handle false r)
    | RoleAccess =>
      if negb (Code (xq_Packet in_) =? CodeAccessRequest) then Return (ActionDiscard RadiusReply.ReasonInvalidCode)
      else if negb (str_eqb (CheckIntegrity r) "") then Return (ActionDiscard (CheckIntegrity r))
      else
        match extractState (xq_Attributes in_) with
        | (state, true, ReasonNone) =>
          consume state (fun got =>
          match got with
          | (Some rec, ReasonNone) => prog_bind (handleEAPContinuation rec) (after_continuation rec)
          | (_, reason) => reply CodeAccessReject (reason_text reason) []
          end)
        | (_, true, reason) => reply CodeAccessReject (reason_text reason) []
        | (_, false, _) => if len (AllOf (xq_Attributes in_) TypeEAPMessage) >? 0 then handleEAPStart else handle_direct
        end
    | _ => Return (ActionDiscard RadiusReply.ReasonInvalidCode)
    end.
End Handler.

Arguments Return _ : assert.

(** ** What justifies an Access-Accept *)

(** The successful issues and the accepted authentications, with the request
    that made them. *)
Inductive event :=
| EvIssue (in_ : AccessRequest) (i : ChallengeIssue)
| EvAuth (in_ : AccessRequest) (t : RadiusAccessAttempt) (dec : RadiusAccessDecision).

(** Two requests of one client and one peer: source address or certificate. *)
Definition same_peer (a b : AccessRequest) : Prop :=
  rq_ClientID (xq_Bind a) = rq_ClientID (xq_Bind b) /\ bindFromRequest (xq_Bind a) = bindFromRequest (xq_Bind b).

(** How an accepted authentication [t], made for [in0], entitles [in_] to an
    accept with these attributes: a credential of the request itself; the answer
    to an EAP-MD5 challenge issued to this peer; or a PEAP conversation of this
    peer whose inner MS-CHAPv2 response was accepted. *)
Inductive grounds (log : list event) (in_ : AccessRequest) : AccessRequest -> RadiusAccessAttempt -> RadiusAccessDecision -> RawSet -> Prop :=
| GroundsDirect user ev dec :
    extractAccessEvidence in_ = Ok (user, ev) ->
    grounds log in_ in_ (attempt_of in_ "" user ev) dec (xd_ReplyAttributes dec)
| GroundsMD5 user hash dec in1 i :
    EvIssue in1 i ∈ log -> same_peer in1 in_ -> is_Step i = StepMD5Challenge ->
    grounds log in_ in_ (attempt_of in_ "" user (mkEvidence AuthMethodEAP [] (is_EAPID i) (is_MD5Challenge i) hash)) dec
      (eapMessageAttrs (eapSuccess (is_EAPID i)) ++ xd_ReplyAttributes dec)
| GroundsPEAP in0 user msID chal resp id dec :
    same_peer in0 in_ ->
    grounds log in_ in0 (attempt_of in0 AuthMethodEAP user (mkEvidence AuthMethodMSCHAPv2 [] msID chal resp)) dec
      (policySafeAttrs (xd_ReplyAttributes dec) ++ eapMessageAttrs (eapSuccess id)).

(** The signed reply with these attributes. *)
Definition accept_wire (in_ : AccessRequest) (attrs : RawSet) (wire : bytes) : Prop :=
  let p := xq_Packet in_ in
  ReplyAccess (Secret (xq_Request in_)) CodeAccessAccept (Identifier p) (Authenticator p) (Attributes p) attrs = Ok wire.

Definition result_ok (log : list event) (in_ : AccessRequest) (r : Result) : Prop :=
  forall reason wire, r = ActionReply reason wire -> index wire 0 = CodeAccessAccept ->
  exists in0 t dec attrs, EvAuth in0 t dec ∈ log /\ grounds log in_ in0 t dec attrs /\ accept_wire in_ attrs wire.

(** An accepted inner response of this peer came with these attributes. *)
Definition finished (log : list event) (in_ : AccessRequest) (attrs : RawSet) : Prop :=
  exists in0 user msID chal resp dec,
    EvAuth in0 (attempt_of in0 AuthMethodEAP user (mkEvidence AuthMethodMSCHAPv2 [] msID chal resp)) dec ∈ log
    /\ same_peer in0 in_ /\ attrs = policySafeAttrs (xd_ReplyAttributes dec).

(** An issue of the last PEAP step rests on an accepted inner response. *)
Definition finish_ok (log : list event) (in_ : AccessRequest) (i : ChallengeIssue) : Prop :=
  is_Step i = StepPEAPFinish -> finished log in_ (is_ReplyAttributes i).

Definition issued_by (in_ : AccessRequest) (i : ChallengeIssue) : Prop :=
  is_ClientID i = rq_ClientID (xq_Bind in_) /\ Unset (is_Bind i) = true.

(** A consumed record was issued to this peer. *)
Definition record_ok (log : list event) (in_ : AccessRequest) (rec : ChallengeRecord) : Prop :=
  exists in1 i, EvIssue in1 i ∈ log /\ finish_ok log in1 i /\ same_peer in1 in_
    /\ cr_Step rec = is_Step i /\ cr_ReplyAttributes rec = is_ReplyAttributes i /\ cr_MD5Challenge rec = is_MD5Challenge i
    /\ cr_EAPID rec = is_EAPID i.

Definition call_ok (log : list event) (in_ : AccessRequest) (c : call) : Prop :=
  match c with
  | CallConsume r _ => r = xq_Bind in_
  | CallIssue r i => r = xq_Bind in_ /\ issued_by in_ i /\ finish_ok log in_ i
  | _ => True
  end.

Definition answer_ok (log : list event) (in_ : AccessRequest) (c : call) : answer c -> Prop :=
  match c with
  | CallConsume _ _ => fun a => forall rec, a = (Some rec, ReasonNone) -> record_ok log in_ rec
  | _ => fun _ => True
  end.

(** What an answered call adds to the log. *)
Definition log_call (log : list event) (in_ : AccessRequest) (c : call) : answer c -> list event :=
  match c with
  | CallIssue _ i => fun a => match a with ReasonNone => EvIssue in_ i :: log | _ => log end
  | CallAuthenticate t => fun a =>
    match a with
    | ((dec, None), _) => if bool_decide (xd_Outcome dec = RadiusAccessAccept) then EvAuth in_ t dec :: log else log
    | _ => log
    end
  | _ => fun _ => log
  end.

(** A handler that only makes justified accepts, whatever is answered and
    whatever others do meanwhile. *)
Fixpoint safe (log : list event) (in_ : AccessRequest) (p : prog) : Prop :=
  match p with
  | Return r => result_ok log in_ r
  | Call c k => call_ok log in_ c /\ forall log' a, log ⊆ log' -> answer_ok log' in_ c a -> safe (log_call log' in_ c a) in_ (k a)
  end.

Lemma log_call_mono log in_ c a : log ⊆ log_call log in_ c a.
Proof.
  destruct c; cbn [log_call]; try done.
  - destruct a; try done. by apply list_subseteq_cons.
  - destruct a as [[dec []] x]; [done|]. case_bool_decide; [by apply list_subseteq_cons|done].
Qed.

Lemma grounds_mono log log' in_ in0 t dec attrs : log ⊆ log' -> grounds log in_ in0 t dec attrs -> grounds log' in_ in0 t dec attrs.
Proof. intros Hl []; [by apply GroundsDirect|by eapply GroundsMD5; [apply Hl|..]|by apply GroundsPEAP]. Qed.
Lemma result_ok_mono log log' in_ r : log ⊆ log' -> result_ok log in_ r -> result_ok log' in_ r.
Proof.
  intros Hl H reason wire Hr Hw. destruct (H reason wire Hr Hw) as (in0 & t & dec & attrs & Ha & Hg & Hx). exists in0, t, dec, attrs.
  split; [by apply Hl|]. split; [by eapply grounds_mono|exact Hx].
Qed.
Lemma finished_mono log log' in_ attrs : log ⊆ log' -> finished log in_ attrs -> finished log' in_ attrs.
Proof. intros Hl (in0 & u & m & c & r & d & Ha & Hp). exists in0, u, m, c, r, d. split; [by apply Hl|exact Hp]. Qed.
Lemma finish_ok_mono log log' in_ i : log ⊆ log' -> finish_ok log in_ i -> finish_ok log' in_ i.
Proof. intros Hl H Hs. eapply finished_mono; [exact Hl|by apply H]. Qed.
Lemma record_ok_mono log log' in_ rec : log ⊆ log' -> record_ok log in_ rec -> record_ok log' in_ rec.
Proof. intros Hl (in1 & i & H1 & H2 & H). exists in1, i. split; [by apply Hl|]. split; [by eapply finish_ok_mono|exact H]. Qed.
Lemma same_peer_trans a b c : same_peer a b -> same_peer b c -> same_peer a c.
Proof. intros [H1 H2] [H3 H4]. split; congruence. Qed.
Lemma record_finished log in_ rec :
  record_ok log in_ rec -> cr_Step rec = StepPEAPFinish -> finished log in_ (cr_ReplyAttributes rec).
Proof.
  intros (in1 & i & _ & Hf & Hp & Hs & Hr & _) Hst. rewrite Hr.
  destruct Hf as (in0 & u & m & c & r & d & Ha & Hp' & He); [congruence|].
  exists in0, u, m, c, r, d. split; [exact Ha|]. split; [by eapply same_peer_trans|exact He].
Qed.

Lemma safe_mono log log' in_ p : log ⊆ log' -> safe log in_ p -> safe log' in_ p.
Proof.
  intros Hl. destruct p as [r|c k]; cbn [safe]; [by apply result_ok_mono|]. intros [Hc Hk]. split.
  - destruct c; try exact Hc. destruct Hc as (H1 & H2 & H3). split; [exact H1|]. split; [exact H2|]. by eapply finish_ok_mono.
  - intros log'' a Hl' Ha. apply Hk; [by etransitivity|exact Ha].
Qed.

Lemma safe_bind log in_ p f :
  safe log in_ p -> (forall log' r, log ⊆ log' -> result_ok log' in_ r -> safe log' in_ (f r)) -> safe log in_ (prog_bind p f).
Proof.
  revert log. induction p as [r|c k IH]; intros log Hp Hf; cbn [prog_bind]; [by apply Hf|].
  destruct Hp as [Hc Hk]. split; [exact Hc|]. intros log' a Hl Ha. apply IH; [by apply Hk|]. intros log'' r Hl'. apply Hf.
  etransitivity; [exact Hl|]. etransitivity; [apply log_call_mono|exact Hl'].
Qed.

(** *** Replies *)

Lemma sendAccess_code in_ code reason attrs reason' wire :
  is_u8 code -> sendAccess in_ code reason attrs = ActionReply reason' wire -> index wire 0 = code.
Proof.
  intros Hc. unfold sendAccess, ReplyAccess. destruct (SignResponse _ _ _ _ _) as [w|] eqn:E; [|discriminate].
  intros [= _ <-]. by apply SignResponse_code in E.
Qed.

Lemma other_code_ok log in_ code reason attrs :
  is_u8 code -> code <> CodeAccessAccept -> result_ok log in_ (replyAccess in_ code reason attrs).
Proof.
  intros Hc Hne reason' wire Hr Hw. exfalso. unfold replyAccess in Hr. apply Z.eqb_neq in Hne as Hne'. rewrite Hne' in Hr.
  destruct (_ && _) in Hr; apply sendAccess_code in Hr; congruence.
Qed.

Lemma accept_ok log in_ reason attrs :
  (exists in0 t dec, EvAuth in0 t dec ∈ log /\ grounds log in_ in0 t dec attrs) -> result_ok log in_ (replyAccess in_ CodeAccessAccept reason attrs).
Proof.
  intros (in0 & t & dec & Ha & Hg) reason' wire Hr Hw. exists in0, t, dec, attrs. split; [exact Ha|]. split; [exact Hg|].
  unfold replyAccess in Hr. destruct (_ && _) in Hr.
  - rewrite Z.eqb_refl in Hr. apply sendAccess_code in Hr; [|done]. rewrite Hr in Hw. discriminate Hw.
  - unfold sendAccess in Hr. unfold accept_wire. destruct (ReplyAccess _ _ _ _ _ _) as [w|]; [|discriminate Hr]. by injection Hr as _ ->.
Qed.

Lemma discard_ok log in_ reason : result_ok log in_ (ActionDiscard reason).
Proof. by intros reason' wire Hr. Qed.

Lemma stub_ok log in_ : Role (xq_Request in_) = RoleAccounting -> result_ok log in_ (Stub_Handle false (xq_Request in_)).
Proof.
  intros Hrole reason wire Hr Hw. exfalso. unfold Stub_Handle in Hr. rewrite Hrole in Hr. destruct (negb _) in Hr; [discriminate Hr|].
  destruct (negb _) in Hr; [discriminate Hr|]. destruct (SignResponse _ _ _ _ _) as [w|] eqn:E; [|discriminate Hr].
  injection Hr as _ ->. apply SignResponse_code in E; [|done]. rewrite E in Hw. discriminate Hw.
Qed.

(** *** Every handler is safe *)

Section Safe.
Context (precis : string -> option string) (e : access_env) (in_ : AccessRequest).

(** A call without a condition of its own. *)
Lemma safe_call log c k :
  call_ok log in_ c -> (forall log' a, log ⊆ log' -> answer_ok log' in_ c a -> safe (log_call log' in_ c a) in_ (k a)) -> safe log in_ (Call c k).
Proof. by split. Qed.

Lemma reply_safe log code reason attrs : is_u8 code -> code <> CodeAccessAccept -> safe log in_ (reply in_ code reason attrs).
Proof. apply other_code_ok. Qed.
Lemma eapReject_safe log reason id : safe log in_ (eapReject in_ reason id).
Proof. by apply reply_safe. Qed.
Lemma challenge_safe log state pkt : safe log in_ (challenge in_ state pkt).
Proof. by apply reply_safe. Qed.
Lemma direct_reject_safe log reason : safe log in_ (reply in_ CodeAccessReject reason []).
Proof. by apply reply_safe. Qed.
Lemma discard_safe log reason : safe log in_ (Return (ActionDiscard reason)).
Proof. apply discard_ok. Qed.

Lemma read_rand_safe log n k : (forall log' b, log ⊆ log' -> safe log' in_ (k b)) -> safe log in_ (read_rand n k).
Proof. intros H. apply safe_call; [done|]. intros log' a Hl _. by apply H. Qed.

Lemma issue_safe log i k :
  issued_by in_ i -> finish_ok log in_ i -> (forall log' r, log ⊆ log' -> safe log' in_ (k r)) -> safe log in_ (issue e in_ i k).
Proof.
  intros Hi Hf H. unfold issue. destruct (ae_Store e); [|by apply H]. apply safe_call; [done|].
  intros log' a Hl _. apply H. etransitivity; [exact Hl|apply log_call_mono].
Qed.

(** One step through a handler that accepts nothing: a reply, a branch, or a
    call whatever its answer. *)
Ltac safe_step :=
  match goal with
  | |- safe _ _ (eapReject _ _ _) => apply eapReject_safe
  | |- safe _ _ (challenge _ _ _) => apply challenge_safe
  | |- safe _ _ (reply _ CodeAccessReject _ _) => apply direct_reject_safe
  | |- safe _ _ (Return (ActionDiscard _)) => apply discard_safe
  | |- safe _ _ (read_rand _ _) => apply read_rand_safe; intros ? ? ?
  | |- safe _ _ (send_flight _ _ _) => unfold send_flight
  | |- safe _ _ (Call (CallIssue _ _) _) => fail 1
  | |- safe _ _ (Call (CallAuthenticate _) _) => fail 1
  | |- safe _ _ (Call _ _) => apply safe_call; [done|intros ? ? ? ?; cbn [log_call]]
  | |- safe _ _ (if ?b then _ else _) => destruct b eqn:?
  | |- safe _ _ (match ?x with _ => _ end) => destruct x eqn:?
  | |- safe _ _ (issued _ _ _ (fun k => _) _) => unfold issued
  | |- safe _ _ (let _ := _ in _) => cbv zeta
  end.
Ltac safe_go := repeat safe_step.

(** An issue of a step that is not the last of PEAP. *)
Ltac issue_go := apply issue_safe; [done|let F := fresh in intros F; discriminate F|intros ? ? ?].

Lemma issuePEAPStart_safe log user id : safe log in_ (issuePEAPStart e in_ user id).
Proof. unfold issuePEAPStart. safe_go. issue_go. safe_go. Qed.
Lemma issueIdentityChallenge_safe log id : safe log in_ (issueIdentityChallenge e in_ id).
Proof. unfold issueIdentityChallenge. safe_go. issue_go. safe_go. Qed.
Lemma issueMD5Challenge_safe log user id : safe log in_ (issueMD5Challenge e in_ user id).
Proof. unfold issueMD5Challenge. safe_go. issue_go. safe_go. Qed.
Lemma startFromIdentity_safe log pkt : safe log in_ (startFromIdentity precis e in_ pkt).
Proof. unfold startFromIdentity. safe_go; first [apply issuePEAPStart_safe | apply issueIdentityChallenge_safe | apply issueMD5Challenge_safe]. Qed.
Lemma handleEAPStart_safe log : safe log in_ (handleEAPStart precis e in_).
Proof. unfold handleEAPStart. safe_go. apply startFromIdentity_safe. Qed.

Lemma issuePEAPContinue_safe log rec body step :
  (step = StepPEAPFinish -> finished log in_ (cr_ReplyAttributes rec)) -> safe log in_ (issuePEAPContinue e in_ rec body step).
Proof.
  intros Hf. unfold issuePEAPContinue. safe_go. apply issue_safe; [done| |].
  - intros Hs. eapply finished_mono; [eassumption|by apply Hf].
  - intros. safe_go.
Qed.

(** What an accepted answer adds to the log. *)
Lemma authenticate_safe log t k :
  (forall log' got, log ⊆ log' ->
     (forall dec, got.1 = (dec, None) -> xd_Outcome dec = RadiusAccessAccept -> EvAuth in_ t dec ∈ log') -> safe log' in_ (k got)) ->
  safe log in_ (Call (CallAuthenticate t) k).
Proof.
  intros H. apply safe_call; [done|]. intros log' a Hl _. apply H; [etransitivity; [exact Hl|apply log_call_mono]|].
  intros dec Ha Hout. destruct a as [[d x] b]. cbn [fst] in Ha. injection Ha as -> ->. cbn [log_call]. rewrite bool_decide_true by exact Hout.
  by apply list_elem_of_here.
Qed.

Ltac case_accept Hout :=
  match goal with
  | H : bool_decide (xd_Outcome _ = RadiusAccessAccept) = true |- _ => apply bool_decide_eq_true in H; rename H into Hout
  | H : negb (bool_decide (xd_Outcome _ = RadiusAccessAccept)) = false |- _ => apply negb_false_iff, bool_decide_eq_true in H; rename H into Hout
  end.

Lemma verifyMD5_safe log rec pkt :
  record_ok log in_ rec -> cr_Step rec = StepMD5Challenge -> eap_Identifier pkt = cr_EAPID rec -> safe log in_ (verifyMD5 e in_ rec pkt).
Proof.
  intros (in1 & i & Hi & _ & Hp & Hs & _ & Hm & Hid) Hst Heq. unfold verifyMD5. safe_go.
  apply authenticate_safe. intros log' [[dec [err|]] c] Hl Hauth; unfold decideMD5; safe_go.
  apply accept_ok. case_accept Hout. eexists in_, _, dec. split; [by apply Hauth|].
  rewrite Heq, Hid, Hm. eapply GroundsMD5; [by apply Hl|exact Hp|congruence].
Qed.

Lemma inner_identity_safe log rec tun pkt : safe log in_ (inner_identity e in_ rec tun pkt).
Proof. unfold inner_identity. safe_go. apply issuePEAPContinue_safe. intros F. discriminate F. Qed.

Lemma inner_accepted_safe log rec tun pkt msID user attrs :
  finished log in_ (policySafeAttrs attrs) -> safe log in_ (inner_accepted e in_ rec tun pkt msID user attrs).
Proof.
  intros Hf. unfold inner_accepted. safe_go; apply issuePEAPContinue_safe; intros _; cbn [with_progress cr_ReplyAttributes];
    (eapply finished_mono; [|exact Hf]); repeat (etransitivity; [eassumption|]); done.
Qed.

Lemma inner_mschap_safe log rec tun pkt : safe log in_ (inner_mschap e in_ rec tun pkt).
Proof.
  unfold inner_mschap. safe_go. apply authenticate_safe. intros log' [[dec [err|]] c] Hl Hauth; safe_go.
  apply inner_accepted_safe. case_accept Hout. do 6 eexists. split; [by apply Hauth|done].
Qed.

Lemma handlePEAPInner_safe log rec tun inner : safe log in_ (handlePEAPInner e in_ rec tun inner).
Proof. unfold handlePEAPInner. safe_go; [apply inner_identity_safe|apply inner_mschap_safe]. Qed.

Lemma peap_handshake_safe log rec tun id complete : safe log in_ (peap_handshake e in_ rec tun id complete).
Proof. unfold peap_handshake. safe_go; apply issuePEAPContinue_safe; intros F; discriminate F. Qed.

(** The log only grows while the record of the request stays justified. *)
Ltac keep_record := eapply record_ok_mono; [|eassumption]; repeat (etransitivity; [eassumption|]); done.

Lemma peap_application_safe log rec tun id complete : record_ok log in_ rec -> safe log in_ (peap_application e in_ rec tun id complete).
Proof.
  intros Hrec. unfold peap_application. destruct (bytes_eqb (cr_Step rec) StepPEAPFinish) eqn:Hs; [apply bytes_eqb_true in Hs|].
  - safe_go. apply accept_ok. assert (record_ok log'0 in_ rec) as Hrec' by keep_record.
    apply record_finished in Hrec' as (in0 & user & m & ch & rs & dec & Ha & Hp & Hr); [|exact Hs].
    exists in0, (attempt_of in0 AuthMethodEAP user (mkEvidence AuthMethodMSCHAPv2 [] m ch rs)), dec. split; [exact Ha|].
    rewrite RawSet_Clone_id, Hr. by apply GroundsPEAP.
  - safe_go. apply handlePEAPInner_safe.
Qed.

Lemma continue_safe log rec body : record_ok log in_ rec -> safe log in_ (issuePEAPContinue e in_ rec body (cr_Step rec)).
Proof. intros Hrec. apply issuePEAPContinue_safe. intros Hs. by apply record_finished. Qed.

Lemma peap_body_safe log rec tun id body : record_ok log in_ rec -> safe log in_ (peap_body e in_ rec tun id body).
Proof.
  intros Hrec. unfold peap_body.
  safe_go; first [apply peap_handshake_safe|apply continue_safe; keep_record|apply peap_application_safe; keep_record].
Qed.

Lemma handlePEAP_safe log rec pkt : record_ok log in_ rec -> safe log in_ (handlePEAP e in_ rec pkt).
Proof. intros Hrec. unfold handlePEAP. safe_go. apply peap_body_safe. keep_record. Qed.

Lemma handleEAPContinuation_safe log rec : record_ok log in_ rec -> safe log in_ (handleEAPContinuation precis e in_ rec).
Proof.
  intros Hrec. unfold handleEAPContinuation. safe_go; first [apply startFromIdentity_safe|by apply handlePEAP_safe|idtac].
  repeat match goal with H : bytes_eqb _ _ = true |- _ => apply bytes_eqb_true in H | H : negb _ = false |- _ => apply negb_false_iff, Z.eqb_eq in H end.
  by apply verifyMD5_safe.
Qed.

Lemma after_continuation_safe log rec r : result_ok log in_ r -> safe log in_ (after_continuation e rec r).
Proof. intros Hr. unfold after_continuation. destruct (_ && _); [|exact Hr]. apply safe_call; [done|]. intros log' a Hl _. by eapply result_ok_mono. Qed.

Lemma handle_direct_safe log : safe log in_ (handle_direct e in_).
Proof.
  unfold handle_direct. safe_go. apply authenticate_safe. intros log' [[dec err] c] Hl Hauth.
  cbn [fst snd]. unfold decide_reply. destruct err as [err|]; [destruct c; [apply discard_safe|apply direct_reject_safe]|].
  destruct (xd_Outcome dec) eqn:Hout; try (by apply reply_safe).
  apply accept_ok. eexists in_, _, dec. split; [by apply Hauth|]. by eapply GroundsDirect.
Qed.

Lemma Handle_safe log cancelled : safe log in_ (Handle precis e in_ cancelled).
Proof.
  unfold Handle. cbv zeta. destruct cancelled; [apply discard_safe|]. destruct (Role (xq_Request in_)) eqn:Hrole; [|by apply stub_ok|apply discard_safe..].
  safe_go; first [apply handleEAPStart_safe|apply handle_direct_safe|idtac].
  unfold consume. destruct (ae_Store e); [|apply direct_reject_safe]. apply safe_call; [done|].
  intros log' [[rec|] []] Hl Ha; safe_go. cbn [log_call]. apply safe_bind.
  - by apply handleEAPContinuation_safe, Ha.
  - intros. by apply after_continuation_safe.
Qed.
End Safe.

(** ** Executions: any number of requests over one table *)

(** What an accepted attempt established. *)
Section Accepted.
Context (IDKey : bytes -> bytes -> Z -> Z -> Z -> Z -> bytes) (md4 : bytes -> bytes) (precis : string -> option string).
Context {M : Type} `{Publisher M}.

Definition verified (t : RadiusAccessAttempt) : Prop :=
  exists (s : AuthService M) w published snap,
    admitted w published t snap
    /\ credential_check IDKey md4 precis s w snap t = Some (Ok tt)
    /\ userMustChangeLogin (xn_Auth snap) (canonUser precis (xt_UserID t)) = false
    /\ rs_Effect (policy_check precis snap t) = EffectPermit.

Lemma mapPolicyResult_accept user res : xd_Outcome (mapPolicyResult user res) = RadiusAccessAccept -> rs_Effect res = EffectPermit.
Proof.
  unfold mapPolicyResult. destruct (str_eqb (rs_Effect res) EffectPermit) eqn:E; [intros _; by apply str_eqb_eq|].
  destruct (str_eqb (rs_Effect res) EffectDeny); [destruct (encodePolicyReply (rs_ReplyAttributes res) PacketAccessReject)|]; intros F; discriminate F.
Qed.

Lemma authenticate_accept (s : option (AuthService M)) w late published t dec :
  AuthenticateAccess IDKey md4 precis s w late published t = (dec, None) -> xd_Outcome dec = RadiusAccessAccept -> verified t.
Proof.
  unfold AuthenticateAccess. destruct s as [s|]; [|discriminate]. destruct (w_cancelled w) eqn:Ec; [discriminate|].
  destruct (_ && _) eqn:Ep; [discriminate|]. destruct (AuthMethod_Valid _) eqn:Em; cbn [negb]; [|by intros [= <-]].
  destruct (admitted_snapshot published t) as [snap|] eqn:Es; [|discriminate].
  assert (admitted w published t snap) as Ha.
  { split; [exact Ec|]. split; [|by split]. apply andb_false_iff in Ep as [Ep|Ep]; apply negb_false_iff, str_eqb_eq in Ep; auto. }
  unfold verifyAgainst. fold (credential_check IDKey md4 precis s w snap t).
  destruct (credential_check IDKey md4 precis s w snap t) as [[[]|x]|] eqn:Ev; cbn [outcomeFromCreds];
    [|destruct (protoError x); by intros [= <-]|by intros [= <-]].
  destruct (userMustChangeLogin _ _) eqn:El; [by intros [= <-]|]. unfold evaluateAccess. fold (policy_check precis snap t).
  intros Hdec Hout. exists s, w, published, snap. split; [exact Ha|]. split; [exact Ev|]. split; [exact El|].
  apply (mapPolicyResult_accept (canonUser precis (xt_UserID t))). destruct (bool_decide _) eqn:Eo in Hdec; cbn [andb] in Hdec.
  - by apply bool_decide_eq_true in Eo.
  - by injection Hdec as ->.
Qed.
End Accepted.

(** The request was an Access-Request on an access listener and passed the
    integrity policy. *)
Definition admissible (in_ : AccessRequest) : Prop :=
  Role (xq_Request in_) = RoleAccess /\ Code (xq_Packet in_) = CodeAccessRequest /\ CheckIntegrity (xq_Request in_) = ""%string.

(** Threads in flight, each with what it still has to do; the table they share;
    what has happened. *)
Record access_system := mkSystem { sy_threads : gmap nat (AccessRequest * prog); sy_store : ChallengeStore; sy_log : list event }.

(** A call that the table and the facade do not answer: entropy, the tunnels
    and their registry.  Any answer is possible. *)
Definition foreign (c : call) : bool :=
  match c with CallConsume _ _ | CallIssue _ _ | CallAuthenticate _ => false | _ => true end.

Section System.
Context (IDKey : bytes -> bytes -> Z -> Z -> Z -> Z -> bytes) (md4 : bytes -> bytes) (precis : string -> option string).
Context {M : Type} `{Publisher M} (e : access_env).

Inductive access_step (st : access_system) : access_system -> Prop :=
| StepStart n in_ cancelled :
    sy_threads st !! n = None ->
    access_step st (mkSystem (<[n := (in_, Handle precis e in_ cancelled)]> (sy_threads st)) (sy_store st) (sy_log st))
| StepConsume n in_ r state k now :
    sy_threads st !! n = Some (in_, Call (CallConsume r state) k) ->
    let out := consumeContinuation (sy_store st) now r state in
    access_step st (mkSystem (<[n := (in_, k (snd out))]> (sy_threads st)) (fst out) (sy_log st))
| StepIssue n in_ r i k now :
    sy_threads st !! n = Some (in_, Call (CallIssue r i) k) ->
    let out := IssueChallenge (sy_store st) now r i in
    access_step st (mkSystem (<[n := (in_, k (snd out))]> (sy_threads st)) (fst out) (log_call (sy_log st) in_ (CallIssue r i) (snd out)))
| StepAuthenticate n in_ t k (s : AuthService M) w late published cancelled :
    sy_threads st !! n = Some (in_, Call (CallAuthenticate t) k) ->
    let out := (AuthenticateAccess IDKey md4 precis (Some s) w late published t, cancelled) in
    access_step st (mkSystem (<[n := (in_, k out)]> (sy_threads st)) (sy_store st) (log_call (sy_log st) in_ (CallAuthenticate t) out))
| StepForeign n in_ c k a :
    foreign c = true -> sy_threads st !! n = Some (in_, Call c k) ->
    access_step st (mkSystem (<[n := (in_, k a)]> (sy_threads st)) (sy_store st) (sy_log st))
| StepExpire now : access_step st (mkSystem (sy_threads st) (fst (Len (sy_store st) now)) (sy_log st))
| StepReset : access_step st (mkSystem (sy_threads st) (Reset (sy_store st)) (sy_log st)).

Inductive access_reachable : access_system -> Prop :=
| ReachStart entries bytes ttl : access_reachable (mkSystem ∅ (NewChallengeStore entries bytes ttl) [])
| ReachStep st st' : access_reachable st -> access_step st st' -> access_reachable st'.

(** An entry of the table was issued by an admissible request, for its peer. *)
Definition entry_ok (log : list event) (en : challengeEntry) : Prop :=
  exists in1 i, EvIssue in1 i ∈ log /\ finish_ok log in1 i /\ en_clientID en = rq_ClientID (xq_Bind in1)
    /\ bindFromRequest (xq_Bind in1) = (en_bind en, ReasonNone) /\ en_step en = is_Step i /\ en_reply en = is_ReplyAttributes i
    /\ en_md5 en = is_MD5Challenge i /\ en_eapID en = is_EAPID i.

Definition event_ok (ev : event) : Prop :=
  match ev with
  | EvIssue in_ _ => admissible in_
  | EvAuth in_ t _ => admissible in_ /\ verified IDKey md4 precis (M := M) t
  end.

(** A thread that was not admissible has answered, and not with an accept. *)
Definition thread_ok (log : list event) (th : AccessRequest * prog) : Prop :=
  safe log (fst th) (snd th) /\ (admissible (fst th) \/ exists r, snd th = Return r /\ result_ok [] (fst th) r).

Record system_inv (st : access_system) : Prop := {
  yi_threads : forall n th, sy_threads st !! n = Some th -> thread_ok (sy_log st) th;
  yi_entries : forall k en, entries (sy_store st) !! k = Some en -> entry_ok (sy_log st) en;
  yi_log : Forall event_ok (sy_log st);
}.

(** *** The table *)

Lemma sweep_subseteq (f : challengeEntry -> bool) s : entries (sweep f s) ⊆ entries s.
Proof.
  unfold sweep. generalize (map_to_list (st_entries s)) as l. induction l as [|[k en] l IH]; [done|]. cbn [foldr]. destruct (f en); [|exact IH].
  change (entries (removeLocked (foldr (fun '(k, e) s => if f e then removeLocked s k else s) s l) k) ⊆ entries s).
  rewrite chal_removeLocked_entries. etransitivity; [apply delete_subseteq|exact IH].
Qed.
Lemma Len_subseteq s now : entries (fst (Len s now)) ⊆ entries s.
Proof. apply (sweep_subseteq (expired now)). Qed.
Lemma Reset_subseteq s : entries (Reset s) ⊆ entries s.
Proof. apply (sweep_subseteq (fun _ => true)). Qed.

Lemma consume_subseteq s now r state : entries (fst (consumeContinuation s now r state)) ⊆ entries s.
Proof.
  unfold consumeContinuation, Consume. destruct (bindFromRequest r) as [b []]; try done.
  destruct (_ || _); [done|]. destruct (entries s !! _); [|done].
  destruct (expired _ _); [cbn; rewrite chal_removeLocked_entries; apply delete_subseteq|].
  destruct (negb _ || negb _); [done|]. cbn. rewrite chal_removeLocked_entries. apply delete_subseteq.
Qed.

(** A hit was an entry for this client and this bind. *)
Lemma consume_hit s now r state rec :
  snd (consumeContinuation s now r state) = (Some rec, ReasonNone) ->
  exists k en b, entries s !! k = Some en /\ rec = record_of en /\ en_clientID en = rq_ClientID r
    /\ bindFromRequest r = (b, ReasonNone) /\ bind_match (en_bind en) b = true.
Proof.
  unfold consumeContinuation, Consume. destruct (bindFromRequest r) as [b []]; try discriminate.
  destruct (_ || _); [discriminate|]. destruct (entries s !! _) as [en|] eqn:Ek; [|discriminate].
  destruct (expired _ _); [discriminate|]. destruct (negb _ || negb _) eqn:Eb; [discriminate|]. intros [= <-].
  apply orb_false_iff in Eb as [Hc Hb]. apply negb_false_iff in Hc, Hb. apply bytes_eqb_true in Hc. by exists (challengeKey (rq_EndpointID r) state), en, b.
Qed.

(** An issue only adds the entry it reports. *)
Lemma issue_entries s now r i k en :
  entries (fst (IssueChallenge s now r i)) !! k = Some en ->
  entries s !! k = Some en
  \/ snd (IssueChallenge s now r i) = ReasonNone
     /\ exists b x y, (if Unset (is_Bind i) then bindFromRequest r else (is_Bind i, ReasonNone)) = (b, ReasonNone) /\ en = newEntry (fillIssue r i b) x y.
Proof.
  unfold IssueChallenge. destruct (if Unset (is_Bind i) then _ else _) as [b []] eqn:Eb; try by left.
  unfold Issue. destruct (negb (issueValid _)); [by left|].
  set (s' := expireLocked s now).
  assert (forall k' en', entries s' !! k' = Some en' -> entries s !! k' = Some en') as Hsub.
  { intros k' en' He. eapply lookup_weaken; [exact He|apply (sweep_subseteq (expired now))]. }
  destruct (entries s' !! _) as [e'|] eqn:Ek; [left; by apply Hsub|]. destruct (_ || _); [left; by apply Hsub|].
  cbn [fst snd entries]. intros [[_ <-]|[_ He]]%lookup_insert_Some; [|left; by apply Hsub].
  right. split; [reflexivity|]. eexists b, _, _. by split.
Qed.

(** *** The invariant *)

Lemma entry_ok_mono log log' en : log ⊆ log' -> entry_ok log en -> entry_ok log' en.
Proof. intros Hl (in1 & i & H1 & H2 & H'). exists in1, i. split; [by apply Hl|]. split; [by eapply finish_ok_mono|exact H']. Qed.
Lemma thread_ok_mono log log' th : log ⊆ log' -> thread_ok log th -> thread_ok log' th.
Proof. intros Hl [Hs Ha]. split; [by eapply safe_mono|exact Ha]. Qed.

(** A step of one thread, with what it does to the table and to the log. *)
Lemma thread_step st n in_ c k a store log :
  system_inv st -> sy_threads st !! n = Some (in_, Call c k) ->
  log = log_call (sy_log st) in_ c a -> answer_ok (sy_log st) in_ c a ->
  (forall k en, entries store !! k = Some en -> entry_ok log en) ->
  (admissible in_ -> Forall event_ok log) ->
  system_inv (mkSystem (<[n := (in_, k a)]> (sy_threads st)) store log).
Proof.
  intros [Ht _ _] Hn -> Ha Hstore Hlog. destruct (Ht n _ Hn) as [Hs Had]. cbn [fst snd] in Hs, Had.
  destruct Had as [Had|(r & Hr & _)]; [|discriminate Hr]. constructor; cbn [sy_threads sy_store sy_log]; [|exact Hstore|by apply Hlog].
  intros m th [[<- <-]|[_ Hm]]%lookup_insert_Some.
  - split; [|by left]. cbn [fst snd]. by apply Hs.
  - eapply thread_ok_mono; [apply log_call_mono|by apply (Ht m)].
Qed.

Lemma Handle_admissible in_ cancelled :
  admissible in_ \/ exists r, Handle precis e in_ cancelled = Return r /\ result_ok [] in_ r.
Proof.
  unfold Handle, admissible. cbv zeta. destruct cancelled; [right; eexists; split; [reflexivity|apply discard_ok]|].
  destruct (Role (xq_Request in_)) eqn:Hrole; [|right; eexists; split; [reflexivity|by apply stub_ok]|right; eexists; split; [reflexivity|apply discard_ok]..].
  destruct (Z.eqb_spec (Code (xq_Packet in_)) CodeAccessRequest) as [Hc|Hc]; cbn [negb]; [|right; eexists; split; [reflexivity|apply discard_ok]].
  destruct (str_eqb (CheckIntegrity (xq_Request in_)) "") eqn:Hi; cbn [negb]; [|right; eexists; split; [reflexivity|apply discard_ok]].
  left. apply str_eqb_eq in Hi. done.
Qed.

(** A consumed record was issued to this client and this peer. *)
Lemma consumed_record st in_ now state rec :
  system_inv st -> snd (consumeContinuation (sy_store st) now (xq_Bind in_) state) = (Some rec, ReasonNone) ->
  record_ok (sy_log st) in_ rec.
Proof.
  intros [_ He _] (k & en & b & Hk & -> & Hc & Hb & Hm)%consume_hit.
  destruct (He k en Hk) as (in1 & i & H1 & H2 & H3 & H4 & H5 & H6 & H7 & H8). exists in1, i.
  pose proof (bindFromRequest_match (xq_Bind in1) (xq_Bind in_)) as Hmatch. rewrite H4, Hb in Hmatch. cbn [fst snd] in Hmatch.
  rewrite Hmatch in Hm by done. apply bool_decide_eq_true in Hm.
  split; [exact H1|]. split; [exact H2|]. split; [split; congruence|]. unfold record_of. cbn. by rewrite RawSet_Clone_id.
Qed.

Lemma issued_entry log in_ i b x y :
  issued_by in_ i -> finish_ok log in_ i -> bindFromRequest (xq_Bind in_) = (b, ReasonNone) ->
  entry_ok (EvIssue in_ i :: log) (newEntry (fillIssue (xq_Bind in_) i b) x y).
Proof.
  intros [Hc _] Hf Hb. exists in_, i. split; [by apply list_elem_of_here|]. split; [eapply finish_ok_mono; [|exact Hf]; by apply list_subseteq_cons|].
  cbn. rewrite Hc, RawSet_Clone_id. by destruct (_ =? 0).
Qed.

Lemma access_step_inv st st' : access_step st st' -> system_inv st -> system_inv st'.
Proof.
  intros Hstep Hinv. pose proof Hinv as [Ht He Hl]. destruct Hstep as [n in_ cancelled Hn|n in_ r state k now Hn out|n in_ r i k now Hn out
    |n in_ t k s w late published cancelled Hn out|n in_ c k a Hc Hn|now|].
  - constructor; [|exact He|exact Hl]. cbn [sy_threads sy_log]. intros m th [[<- <-]|[_ Hm]]%lookup_insert_Some; [|by apply (Ht m)].
    split; [apply Handle_safe|apply Handle_admissible].
  - destruct (Ht n _ Hn) as [[Hr _] _]. cbn in Hr. subst r. apply (thread_step st n in_ (CallConsume (xq_Bind in_) state)); try done.
    + cbn [answer_ok]. intros rec Hrec. by eapply consumed_record.
    + intros key en Hk. apply (He key). eapply lookup_weaken; [exact Hk|apply consume_subseteq].
  - destruct (Ht n _ Hn) as [[(Hr & Hi & Hf) _] _]. cbn [fst snd] in Hr, Hi, Hf. subst r.
    apply (thread_step st n in_ (CallIssue (xq_Bind in_) i)); try done.
    + intros key en [Hk|(Hok & b & x & y & Hb & ->)]%issue_entries; [eapply entry_ok_mono; [apply log_call_mono|by apply (He key)]|].
      unfold out. cbn [log_call]. rewrite Hok. apply issued_entry; [done|done|]. by rewrite (proj2 Hi) in Hb.
    + intros Had. cbn [log_call]. destruct (snd out); try done. by constructor.
  - apply (thread_step st n in_ (CallAuthenticate t)); try done.
    + intros key en Hk. eapply entry_ok_mono; [apply log_call_mono|by apply (He key)].
    + intros Had. unfold out. cbn [log_call]. destruct (AuthenticateAccess _ _ _ _ _ _ _ _) as [dec [|]] eqn:Ea; [done|].
      case_bool_decide as Hout; [|done]. constructor; [|done]. split; [done|]. by eapply authenticate_accept.
  - apply (thread_step st n in_ c); try done.
    + by destruct c.
    + destruct c; done.
  - constructor; [done| |done]. intros key en Hk. apply (He key). eapply lookup_weaken; [exact Hk|apply Len_subseteq].
  - constructor; [done| |done]. intros key en Hk. apply (He key). eapply lookup_weaken; [exact Hk|apply Reset_subseteq].
Qed.

Lemma access_reachable_inv st : access_reachable st -> system_inv st.
Proof.
  induction 1 as [en b t|st st' _ IH Hs]; [|by eapply access_step_inv].
  constructor; [done| |constructor]. intros k en0 Hk. cbn in Hk. by rewrite lookup_empty in Hk.
Qed.

End System.

(** *** Every request is answered *)

(** At most [n] calls before the answer, whatever is answered to them. *)
Fixpoint within (n : nat) (p : prog) : Prop :=
  match p, n with
  | Return _, _ => True
  | Call _ _, O => False
  | Call c k, S n => forall a, within n (k a)
  end.

Lemma within_mono n m p : (n <= m)%nat -> within n p -> within m p.
Proof.
  revert n m. induction p as [r|c k IH]; intros [|n] [|m] Hnm Hp; cbn [within] in *; try done; [lia|].
  intros a. apply (IH a n); [lia|apply Hp].
Qed.
Lemma within_bind n m p f : within n p -> (forall r, within m (f r)) -> within (n + m) (prog_bind p f).
Proof.
  intros Hp Hf. revert n Hp. induction p as [r|c k IH]; intros n Hp; [apply (within_mono m); [lia|apply Hf]|].
  destruct n as [|n]; [destruct Hp|]. intros a. apply IH, Hp.
Qed.

Section Answered.
Context (precis : string -> option string) (e : access_env) (in_ : AccessRequest).

Lemma call_within c k n : (forall a, within n (k a)) -> within (S n) (Call c k).
Proof. intros Hk. exact Hk. Qed.
Lemma read_rand_within n k m : (forall b, within m (k b)) -> within (S m) (read_rand n k).
Proof. intros H a. apply H. Qed.
Lemma issue_within i k m : (forall r, within m (k r)) -> within (S m) (issue e in_ i k).
Proof. intros H. unfold issue. destruct (ae_Store e); [intros a; apply H|]. eapply within_mono; [|apply H]. lia. Qed.

(** Through one call or branch. *)
Ltac within_step :=
  match goal with
  | |- within _ (eapReject _ _ _) => exact I
  | |- within _ (challenge _ _ _) => exact I
  | |- within _ (reply _ _ _ _) => exact I
  | |- within _ (Return _) => exact I
  | |- within _ (read_rand _ _) => apply read_rand_within; intros ?
  | |- within _ (issue _ _ _ _) => apply issue_within; intros ?
  | |- within _ (issued _ _ _ _ _) => unfold issued; cbv beta
  | |- within _ (send_flight _ _ _) => unfold send_flight
  | |- within (S _) (Call _ _) => apply call_within; intros ?
  | |- within _ (if ?b then _ else _) => destruct b
  | |- within _ (match ?x with _ => _ end) => destruct x
  end.
Ltac within_go := cbv zeta; repeat within_step.

Lemma startFromIdentity_within pkt : within 8 (startFromIdentity precis e in_ pkt).
Proof. unfold startFromIdentity, issueIdentityChallenge, issuePEAPStart, issueMD5Challenge. within_go.
Qed.
Lemma issuePEAPContinue_within rec body step : within 2 (issuePEAPContinue e in_ rec body step).
Proof. unfold issuePEAPContinue. within_go. Qed.
Lemma verifyMD5_within rec pkt : within 1 (verifyMD5 e in_ rec pkt).
Proof. unfold verifyMD5, decideMD5. within_go. Qed.
Lemma handlePEAPInner_within rec tun inner : within 7 (handlePEAPInner e in_ rec tun inner).
Proof. unfold handlePEAPInner, inner_identity, inner_mschap, inner_accepted, issuePEAPContinue. within_go. Qed.
Lemma handlePEAP_within rec pkt : within 14 (handlePEAP e in_ rec pkt).
Proof.
  unfold handlePEAP, peap_body, peap_handshake, peap_application, issuePEAPContinue. within_go.
  all: eapply within_mono; [|apply handlePEAPInner_within]; lia.
Qed.
Lemma handleEAPContinuation_within rec : within 14 (handleEAPContinuation precis e in_ rec).
Proof.
  unfold handleEAPContinuation. within_go; (eapply within_mono; [|first [apply startFromIdentity_within|apply handlePEAP_within|apply verifyMD5_within]]); lia.
Qed.

Lemma Handle_within cancelled : within 16 (Handle precis e in_ cancelled).
Proof.
  unfold Handle, handleEAPStart, handle_direct, consume, after_continuation.
  within_go; [apply (within_bind 14 1); [apply handleEAPContinuation_within|intros r; within_go]|].
  eapply within_mono; [|apply startFromIdentity_within]. lia.
Qed.
End Answered.

(** ** Access-Accepts are justified *)

(** How the reply [wire] of an accepted request came about. *)
Section Justified.
Context (IDKey : bytes -> bytes -> Z -> Z -> Z -> Z -> bytes) (md4 : bytes -> bytes) (precis : string -> option string).
Context {M : Type} `{Publisher M} (e : access_env).

(** C2. No Access-Accept without an accepted credential.  Any number of access
    requests run over one challenge table, each interrupted between any two of
    its calls; the table, the clock and the AAA facade answer as they do, and
    entropy, tunnels and the tunnel registry may answer anything.  Every reply
    with the code of an Access-Accept goes to a request that was an
    Access-Request with valid integrity, and is the signed reply with the
    attributes of an authentication the facade accepted: its credential was
    verified against an admitted snapshot, no password change was due and the
    policy permitted.  That authentication was for the credential of the
    request itself, for its answer to an EAP-MD5 challenge issued to the same
    client and peer under the same identifier, or for the inner MS-CHAPv2
    response of an integrity-checked request of the same client and peer.  And
    every request is answered after at most 16 calls, whatever they return. *)
Theorem accept_justified (st : access_system) n in_ reason wire :
  access_reachable IDKey md4 precis (M := M) e st ->
  sy_threads st !! n = Some (in_, Return (ActionReply reason wire)) -> index wire 0 = CodeAccessAccept ->
  admissible in_
  /\ (exists in0 t dec attrs,
       EvAuth in0 t dec ∈ sy_log st /\ admissible in0 /\ verified IDKey md4 precis (M := M) t
       /\ grounds (sy_log st) in_ in0 t dec attrs /\ accept_wire in_ attrs wire)
  /\ (forall in1 i, EvIssue in1 i ∈ sy_log st -> admissible in1)
  /\ (forall in1 cancelled, within 16 (Handle precis e in1 cancelled)).
Proof.
  intros Hr Hn Hw. apply access_reachable_inv in Hr as [Ht _ Hl]. rewrite List.Forall_forall in Hl.
  destruct (Ht n _ Hn) as [Hs Ha]. cbn [fst snd] in Hs, Ha. split; [|split; [|split]].
  - destruct Ha as [Ha|(r & [= <-] & Hok)]; [exact Ha|]. destruct (Hok reason wire eq_refl Hw) as (in0 & t & dec & attrs & Hin & _).
    by apply elem_of_nil in Hin.
  - destruct (Hs reason wire eq_refl Hw) as (in0 & t & dec & attrs & Hin & Hg & Hx). exists in0, t, dec, attrs.
    destruct (Hl (EvAuth in0 t dec)) as [Had Hv]; [by apply list_elem_of_In|]. by repeat (split; [assumption|]).
  - intros in1 i Hin. apply (Hl (EvIssue in1 i)). by apply list_elem_of_In.
  - apply Handle_within.
Qed.
End Justified.

(** ** A concrete run *)

(** A request with a credential of its own asks the facade once. *)
Lemma Handle_direct precis e in_ user ev :
  admissible in_ -> snd (fst (extractState (xq_Attributes in_))) = false -> AllOf (xq_Attributes in_) TypeEAPMessage = [] ->
  extractAccessEvidence in_ = Ok (user, ev) -> ae_AAA e = true ->
  Handle precis e in_ false
  = (do got <- CallAuthenticate (attempt_of in_ "" user ev); Return (decide_reply in_ (snd got) (fst got))).
Proof.
  intros (Hr & Hc & Hi) Hs He Hx Ha. unfold Handle. cbv zeta. rewrite Hr, Hc, Hi, He. cbn [negb str_eqb].
  rewrite Z.eqb_refl. change (str_eqb "" "") with true. cbn [negb]. destruct (extractState _) as [[state []] reason]; [discriminate Hs|].
  change (len (@nil Raw) >? 0) with false. unfold handle_direct. by rewrite Hx, Ha.
Qed.

Definition chap_request : AccessRequest :=
  mkAccessRequest
    (mkRequest RoleAccess
       (mkPacket CodeAccessRequest 7 (replicate 16 9)
          [mkRaw TypeUserName [117]; mkRaw TypeCHAPPassword (1 :: md5 (1 :: hunter2 ++ replicate 16 9)); mkRaw TypeNASPort [0; 0; 0; 7]])
       [] [115; 101; 99] false false)
    (mkChallengeRequest CarrierRADIUSUDP (Some [10; 0; 0; 1]) zeroFP (octets_of "udp") (octets_of "nas") 7) (Some chap_snapshot) [].
Definition plain_env : access_env := mkAccessEnv true true false false.

Definition chap_evidence : Evidence := mkEvidence AuthMethodCHAP [] 1 (replicate 16 9) (md5 (1 :: hunter2 ++ replicate 16 9)).
Definition chap_answer : (RadiusAccessDecision * option access_error) * bool :=
  (RadiusAccess.sample_authenticate (attempt_of chap_request "" "u" chap_evidence), false).
Definition chap_reply : bytes := match decide_reply chap_request false (fst chap_answer) with ActionReply _ wire => wire | ActionDiscard _ => [] end.

Lemma chap_request_evidence :
  admissible chap_request /\ extractAccessEvidence chap_request = Ok ("u"%string, chap_evidence).
Proof. split; [split; [reflexivity|split; [reflexivity|vm_compute; reflexivity]]|vm_compute; reflexivity]. Qed.
Lemma chap_request_reply : decide_reply chap_request false (fst chap_answer) = ActionReply RadiusReply.ReasonOK chap_reply /\ index chap_reply 0 = CodeAccessAccept.
Proof. split; vm_compute; reflexivity. Qed.

(** The request is started, asks the facade and is accepted. *)
Definition chap_system : access_system :=
  mkSystem (<[O := (chap_request, Return (decide_reply chap_request false (fst chap_answer)))]> (<[O := (chap_request, Handle precis_sample plain_env chap_request false)]> ∅))
    (NewChallengeStore 1 0 1) (log_call [] chap_request (CallAuthenticate (attempt_of chap_request "" "u" chap_evidence)) chap_answer).

Lemma chap_system_reachable : access_reachable (M := list (string * bytes)) IDKey_sample (fun b => b) precis_sample plain_env chap_system.
Proof.
  destruct chap_request_evidence as [Ha Hx].
  eapply ReachStep; [eapply ReachStep; [apply (ReachStart _ _ _ _ 1 0 1)|by apply (StepStart _ _ _ _ _ 0%nat chap_request false)]|].
  pose proof (Handle_direct precis_sample plain_env chap_request "u" chap_evidence Ha eq_refl eq_refl Hx eq_refl) as Hh.
  set (st := mkSystem _ _ _).
  pose proof (StepAuthenticate IDKey_sample (fun b => b) precis_sample plain_env st 0%nat chap_request (attempt_of chap_request "" "u" chap_evidence)
    (fun got => Return (decide_reply chap_request (snd got) (fst got))) sample_auth sample_world sample_world None false) as Hstep.
  apply Hstep. unfold st. cbn [sy_threads]. by rewrite lookup_insert_eq, Hh.
Qed.

Lemma accept_justified_witness :
  sy_threads chap_system !! O = Some (chap_request, Return (ActionReply RadiusReply.ReasonOK chap_reply))
  /\ exists in0 t dec attrs, EvAuth in0 t dec ∈ sy_log chap_system /\ accept_wire chap_request attrs chap_reply.
Proof.
  destruct chap_request_reply as [Hr Hw].
  assert (sy_threads chap_system !! O = Some (chap_request, Return (ActionReply RadiusReply.ReasonOK chap_reply))) as Hn
    by (unfold chap_system; cbn [sy_threads]; by rewrite lookup_insert_eq, Hr).
  split; [exact Hn|].
  destruct (accept_justified IDKey_sample (fun b => b) precis_sample plain_env chap_system O chap_request _ chap_reply chap_system_reachable Hn Hw)
    as (_ & (in0 & t & dec & attrs & H1 & _ & _ & _ & H2) & _).
  exists in0, t, dec, attrs. exact (conj H1 H2).
Defined.
