(* ===== verification/ConfigModel.v ===== *)
(** * The configuration document and its endpoints

    [internal/config/types.go] and the parts of [internal/config/endpoints.go]
    that the validator and the state manager use: the normalized document, the
    flattened TACACS+ fields of a client against its canonical endpoint list
    ([synthesizeTACACSEndpoints], [projectTACACS]), the RADIUS endpoints of a
    client, the parsing of RADIUS methods and status types, and the inputs that
    the compilers of [Policy], [RadiusPolicy] and [ClientMatch] read of a
    document.

    A field no modelled code reads (metadata, server, events, observability,
    the administrative API other than its tokens) is left out.  A Go slice is a
    list, and an [option] of one where the code tells nil from empty; a pointer
    is an [option]; a time is its count of nanoseconds. *)

From Stdlib Require Import Ascii Floats.SpecFloat.
From stdpp Require Import gmap strings.
From S2P Require Import Prelude Text StableSort Domain Policy RadiusPolicy NetAddr ClientMatch.

#[local] Open Scope Z_scope.

(** ** The data (types.go) *)

Definition nilable (A : Type) : Type := option (list A).
Definition elems {A} (l : nilable A) : list A := default [] l.

(** [type SecretRef] *)
Record SecretRef := mkSecretRef {
  sf_Purpose : string; sf_File : string; sf_Environment : string; sf_PreserveTrailingNewline : bool; sf_MemoryID : string;
}.
#[export] Instance SecretRef_eq_dec : EqDecision SecretRef.
Proof. solve_decision. Defined.

(** [r.Set()] *)
Definition Set_ (r : SecretRef) : bool :=
  negb (str_eqb (sf_File r) "") || negb (str_eqb (sf_Environment r) "") || negb (str_eqb (sf_MemoryID r) "").
Definition no_secret (purpose : string) : SecretRef := mkSecretRef purpose "" "" false "".

Record SecretLifecycleMeta := mkLifecycle { lc_LastRotatedAt : option Z; lc_RotationInterval : Z }.
#[export] Instance SecretLifecycleMeta_eq_dec : EqDecision SecretLifecycleMeta.
Proof. solve_decision. Defined.
Definition no_lifecycle : SecretLifecycleMeta := mkLifecycle None 0.

Record ClientAcct := mkAcct { ac_Enabled : bool; ac_AcceptStart : bool; ac_AcceptStop : bool; ac_AcceptWatchdog : bool }.
#[export] Instance ClientAcct_eq_dec : EqDecision ClientAcct.
Proof. solve_decision. Defined.

Record TACACSEndpoint := mkTACACSEndpoint {
  te_SharedSecret : SecretRef; te_SharedSecretLifecycle : SecretLifecycleMeta; te_AllowedMethods : list string;
  te_DefaultService : Z; te_DefaultGroupIDs : nilable string; te_Accounting : ClientAcct;
}.
#[export] Instance TACACSEndpoint_eq_dec : EqDecision TACACSEndpoint.
Proof. solve_decision. Defined.

Record RADIUSEndpoint := mkRADIUSEndpoint {
  re_SharedSecret : SecretRef; re_SharedSecretLifecycle : SecretLifecycleMeta;
  re_RequireMessageAuthenticator : bool; re_LimitProxyState : bool;
  re_AllowedAuthenticationMethods : list string; re_AccessPolicyID : string; re_AcceptStatusTypes : list string;
  re_NASCoAPort : Z; re_CoADestination : string;
}.
#[export] Instance RADIUSEndpoint_eq_dec : EqDecision RADIUSEndpoint.
Proof. solve_decision. Defined.

Record ClientEndpoint := mkEndpoint {
  ep_ID : string; ep_Protocol : string; ep_Transport : string; ep_Roles : list string;
  ep_TACACS : option TACACSEndpoint; ep_RADIUS : option RADIUSEndpoint;
}.
#[export] Instance ClientEndpoint_eq_dec : EqDecision ClientEndpoint.
Proof. solve_decision. Defined.

Record CertMatch := mkCertMatch { ct_DNSSANs : list string; ct_IPSANs : list string }.
Record Matching := mkMatching { cm_SourceCIDRs : list string; cm_Transports : list string; cm_Mode : string; cm_Certificate : CertMatch }.
Record ClientLegacy := mkLegacy { cy_SharedSecret : SecretRef; cy_SharedSecretLifecycle : SecretLifecycleMeta }.
Record ClientAuth := mkAuth { ca_AllowedMethods : list string; ca_DefaultService : Z }.

Record Client := mkClient {
  cl_ID : string; cl_DisplayName : string; cl_Priority : Z; cl_Enabled : bool; cl_Labels : gmap string string;
  cl_Match : Matching; cl_Legacy : ClientLegacy; cl_Authentication : ClientAuth;
  cl_DefaultGroupIDs : nilable string; cl_Accounting : ClientAcct; cl_Endpoints : list ClientEndpoint;
}.

Record Group := mkGroup {
  gr_ID : string; gr_DisplayName : string; gr_Priority : Z; gr_Enabled : bool; gr_Labels : gmap string string;
  gr_Services : list ServiceRule; gr_CommandRules : list CommandRule; gr_DefaultCommandAction : AuthorDecision;
  gr_RADIUSPolicyID : string;
}.

Record UserCredentials := mkCredentials { uc_Login : SecretRef; uc_Challenge : SecretRef; uc_Enable : SecretRef }.
Record UserRestrictions := mkRestrictions { ur_ClientIDs : list string; ur_ValidAfter : option Z; ur_ValidBefore : option Z }.

Record User := mkUser {
  us_ID : string; us_DisplayName : string; us_Enabled : bool; us_Labels : gmap string string; us_GroupIDs : list string;
  us_Rules : RuleSet; us_Credentials : UserCredentials; us_Restrictions : UserRestrictions;
  us_MustChangeLogin : bool; us_MustChangeEnable : bool; us_RADIUSPolicyID : string;
}.

Record BootstrapToken := mkBootstrapToken { bt_ID : string; bt_Token : SecretRef; bt_Scopes : list string; bt_ExpiresAt : option Z }.
Record RADIUSDictionary := mkRADIUSDictionary { rd_ID : string; rd_File : string; rd_Enabled : bool }.

Record MaxObjects := mkMaxObjects { mo_Users : Z; mo_Groups : Z; mo_Clients : Z; mo_APITokens : Z }.
Record Runtime := mkRuntime { rt_AllowShadowing : bool; rt_ReloadOverlayBehavior : string; rt_MaxObjects : MaxObjects }.

Record SharedSecretPolicy := mkSecretPolicy {
  sp_MinimumLengthCharacters : Z; sp_MinimumCharacterClasses : Z; sp_RejectKnownWeakValues : bool; sp_WarnOnReuse : bool;
  sp_DefaultRotationInterval : Z; sp_RotationWarningBefore : Z;
}.
Record Security := mkSecurity { sc_LegacySharedSecrets : SharedSecretPolicy; sc_RADIUSSharedSecrets : SharedSecretPolicy }.

(** *** Listeners *)

Record TLSProfile := mkTLSProfile { tp_ID : string; tp_ServerNames : list string; tp_CertificateChain : string; tp_PrivateKey : SecretRef }.
Record SecureTLS := mkSecureTLS {
  tl_DefaultID : string; tl_Profiles : list TLSProfile; tl_ClientCABundle : string; tl_RevocationMode : string; tl_CRLBundle : string;
  tl_ResumptionEnabled : bool; tl_TicketLifetime : Z; tl_RecheckClientRevocation : bool; tl_RejectEarlyData : bool;
}.
Record TACACSListener := mkTACACSListener { nl_Enabled : bool; nl_Bind : string }.
Record RADIUSListener := mkRADIUSListener {
  rl_Enabled : bool; rl_Bind : string; rl_Transport : string; rl_MaxPacketBytes : Z; rl_QueueCapacity : Z; rl_Workers : Z;
  rl_WorkerDeadline : Z; rl_RetransmissionCacheEntries : Z; rl_RetransmissionCacheBytes : Z; rl_RetransmissionTTL : Z;
  rl_JournalEntries : Z; rl_JournalBytes : Z; rl_PerSourceRate : spec_float; rl_PerSourceBurst : Z;
  rl_AmbiguousAccountingPerMinute : Z; rl_MessageAuthenticator : string;
  rl_ChallengeTTL : Z; rl_ChallengeEntries : Z; rl_ChallengeBytes : Z;
  rl_SessionIndexEntries : Z; rl_SessionIndexBytes : Z; rl_SessionTTL : Z; rl_CoATimeout : Z;
}.
Record RADIUSRadSecListener := mkRadSecListener {
  rs_Enabled : bool; rs_Bind : string; rs_Transport : string; rs_MaxPacketBytes : Z; rs_MaxConnections : Z; rs_IdleTimeout : Z;
  rs_HandshakeTimeout : Z; rs_RetransmissionCacheEntries : Z; rs_RetransmissionCacheBytes : Z; rs_RetransmissionTTL : Z; rs_TLS : SecureTLS;
}.
Record Listeners := mkListeners {
  li_LegacyTACACS : TACACSListener; li_SecureTACACS : TACACSListener; li_SecureTLS : SecureTLS;
  li_HTTPBind : string; li_HTTPTLSEnabled : bool;
  li_RADIUSAccess : RADIUSListener; li_RADIUSAccounting : RADIUSListener; li_RADIUSRadSec : RADIUSRadSecListener;
  li_RADIUSDynAuth : RADIUSListener;
}.

Record Document := mkDocument {
  dc_SchemaVersion : Z; dc_Runtime : Runtime; dc_Security : Security; dc_Listeners : Listeners;
  dc_BootstrapTokens : list BootstrapToken; dc_Limits : limits;
  dc_Clients : list Client; dc_Groups : list Group; dc_Users : list User; dc_FallbackRules : RuleSet;
  dc_RADIUSPolicies : list RADIUSPolicy; dc_RADIUSReplyProfiles : list RADIUSReplyProfile;
  dc_FallbackRADIUSPolicyID : string; dc_RADIUSDictionaries : list RADIUSDictionary;
}.

Definition with_endpoints (c : Client) (eps : list ClientEndpoint) : Client :=
  mkClient (cl_ID c) (cl_DisplayName c) (cl_Priority c) (cl_Enabled c) (cl_Labels c) (cl_Match c) (cl_Legacy c)
    (cl_Authentication c) (cl_DefaultGroupIDs c) (cl_Accounting c) eps.
Definition with_clients (d : Document) (l : list Client) : Document :=
  mkDocument (dc_SchemaVersion d) (dc_Runtime d) (dc_Security d) (dc_Listeners d) (dc_BootstrapTokens d) (dc_Limits d)
    l (dc_Groups d) (dc_Users d) (dc_FallbackRules d) (dc_RADIUSPolicies d) (dc_RADIUSReplyProfiles d)
    (dc_FallbackRADIUSPolicyID d) (dc_RADIUSDictionaries d).

(** ** Flattened TACACS+ fields and endpoints (endpoints.go) *)

Definition EndpointTransportTCP : string := "tcp".

(** The endpoint of one transport; [None] is the [continue]. *)
Definition synthesizeEndpoint (c : Client) (tr : string) : option ClientEndpoint :=
  let tac secret life :=
    Some (mkTACACSEndpoint secret life (ca_AllowedMethods (cl_Authentication c)) (ca_DefaultService (cl_Authentication c))
            (cl_DefaultGroupIDs c) (cl_Accounting c)) in
  let roles := [RoleAuthentication; RoleAuthorization; RoleAccounting] in
  if str_eqb tr TransportLegacy then
    Some (mkEndpoint "tacacs-legacy" ProtocolTACACS EndpointTransportTCP roles
            (tac (cy_SharedSecret (cl_Legacy c)) (cy_SharedSecretLifecycle (cl_Legacy c))) None)
  else if str_eqb tr TransportTLS then
    Some (mkEndpoint "tacacs-tls" ProtocolTACACS EndpointTransportTLS roles (tac (no_secret "") no_lifecycle) None)
  else None.

Definition synthesizeTACACSEndpoints (c : Client) : list ClientEndpoint :=
  omap (synthesizeEndpoint c) (cm_Transports (cl_Match c)).

Record tacacsProjection := mkProjection {
  pj_Transports : list string; pj_Legacy : ClientLegacy; pj_Authentication : ClientAuth;
  pj_DefaultGroupIDs : nilable string; pj_Accounting : ClientAcct; pj_Have : bool;
}.
Definition no_projection : tacacsProjection :=
  mkProjection [] (mkLegacy (no_secret "") no_lifecycle) (mkAuth [] 0) None (mkAcct false false false false) false.

Definition tacacsTransportFromEndpoint (transport : string) : option string :=
  if str_eqb transport EndpointTransportTCP then Some TransportLegacy
  else if str_eqb transport EndpointTransportTLS then Some TransportTLS
  else None.

Definition project_step (p : tacacsProjection) (ep : ClientEndpoint) : tacacsProjection :=
  if negb (str_eqb (ep_Protocol ep) ProtocolTACACS) then p
  else match ep_TACACS ep, tacacsTransportFromEndpoint (ep_Transport ep) with
  | Some t, Some tr =>
    let transports := if hasTransport (pj_Transports p) tr then pj_Transports p else pj_Transports p ++ [tr] in
    let legacy :=
      if str_eqb tr TransportLegacy then mkLegacy (te_SharedSecret t) (te_SharedSecretLifecycle t) else pj_Legacy p in
    if pj_Have p then mkProjection transports legacy (pj_Authentication p) (pj_DefaultGroupIDs p) (pj_Accounting p) true
    else mkProjection transports legacy (mkAuth (te_AllowedMethods t) (te_DefaultService t)) (te_DefaultGroupIDs t) (te_Accounting t) true
  | _, _ => p
  end.
Definition projectTACACS (eps : list ClientEndpoint) : tacacsProjection := fold_left project_step eps no_projection.

Definition with_transports (m : Matching) (ts : list string) : Matching :=
  mkMatching (cm_SourceCIDRs m) ts (cm_Mode m) (cm_Certificate m).

Definition applyTACACSProjection (c : Client) : Client :=
  let p := projectTACACS (cl_Endpoints c) in
  let m := with_transports (cl_Match c) (pj_Transports p) in
  if pj_Have p then
    mkClient (cl_ID c) (cl_DisplayName c) (cl_Priority c) (cl_Enabled c) (cl_Labels c) m (pj_Legacy p)
      (pj_Authentication p) (pj_DefaultGroupIDs p) (pj_Accounting p) (cl_Endpoints c)
  else
    mkClient (cl_ID c) (cl_DisplayName c) (cl_Priority c) (cl_Enabled c) (cl_Labels c) m (cl_Legacy c)
      (cl_Authentication c) (cl_DefaultGroupIDs c) (cl_Accounting c) (cl_Endpoints c).

Definition secretRefEqual (a b : SecretRef) : bool :=
  if negb (Set_ a) && negb (Set_ b) then true else bool_decide (a = b).

Definition secretLifecycleEqual (a b : SecretLifecycleMeta) : bool :=
  if negb (lc_RotationInterval a =? lc_RotationInterval b) then false
  else match lc_LastRotatedAt a, lc_LastRotatedAt b with
  | None, None => true
  | Some x, Some y => x =? y
  | _, _ => false
  end.

(** [sameTransports], [sameStrings] and [sameRoles] are one comparison. *)
Fixpoint sameStrings (a b : list string) : bool :=
  match a, b with
  | [], [] => true
  | x :: a, y :: b => str_eqb x y && sameStrings a b
  | _, _ => false
  end.

Definition projectionMatchesClient (c : Client) (p : tacacsProjection) : bool :=
  if negb (sameStrings (cm_Transports (cl_Match c)) (pj_Transports p)) then false
  else if negb (pj_Have p) then
    negb (Set_ (cy_SharedSecret (cl_Legacy c))) && (len (ca_AllowedMethods (cl_Authentication c)) =? 0)
    && ((ca_DefaultService (cl_Authentication c) =? AuthenServiceNone) || (ca_DefaultService (cl_Authentication c) =? 0))
    && (len (elems (cl_DefaultGroupIDs c)) =? 0)
  else
    secretRefEqual (cy_SharedSecret (cl_Legacy c)) (cy_SharedSecret (pj_Legacy p))
    && secretLifecycleEqual (cy_SharedSecretLifecycle (cl_Legacy c)) (cy_SharedSecretLifecycle (pj_Legacy p))
    && bool_decide (ca_AllowedMethods (cl_Authentication c) = ca_AllowedMethods (pj_Authentication p))
    && (ca_DefaultService (cl_Authentication c) =? ca_DefaultService (pj_Authentication p))
    && bool_decide (cl_DefaultGroupIDs c = pj_DefaultGroupIDs p)
    && bool_decide (cl_Accounting c = pj_Accounting p).

(** [TACACSProjectionMatches], and the test of [checkClientProjection]. *)
Definition TACACSProjectionMatches (c : Client) : bool :=
  if len (cl_Endpoints c) =? 0 then true else projectionMatchesClient c (projectTACACS (cl_Endpoints c)).

Definition endpointHasRole (roles : list string) (want : string) : bool := existsb (fun r => str_eqb r want) roles.

Definition is_radius (ep : ClientEndpoint) : bool :=
  str_eqb (ep_Protocol ep) ProtocolRADIUS && bool_decide (is_Some (ep_RADIUS ep)).

(** [hasTACACSTLSEndpoint] *)
Definition hasTACACSTLSEndpoint (c : Client) : bool :=
  existsb (fun ep => str_eqb (ep_Protocol ep) ProtocolTACACS && str_eqb (ep_Transport ep) EndpointTransportTLS) (cl_Endpoints c)
  || hasTransport (cm_Transports (cl_Match c)) TransportTLS.

Definition radiusEndpoints (c : Client) : list ClientEndpoint := List.filter is_radius (cl_Endpoints c).
Definition radiusEndpoint (c : Client) (transport : string) : option ClientEndpoint :=
  let want := ToLower (TrimSpace transport) in
  find (fun ep => is_radius ep && (str_eqb want "" || str_eqb (ep_Transport ep) want)) (cl_Endpoints c).
Definition hasRADIUSEndpoint (c : Client) : bool := bool_decide (is_Some (radiusEndpoint c "")).
Definition hasRADIUSTLSEndpoint (c : Client) : bool := bool_decide (is_Some (radiusEndpoint c EndpointTransportTLS)).

(** *** RADIUS methods and status types *)

Definition DefaultRADIUSAccessMethods : list string := ["pap"; "chap"]%string.
Definition FillRADIUSAccessMethods (methods roles : list string) : list string :=
  if endpointHasRole roles RoleAccess && (len methods =? 0) then DefaultRADIUSAccessMethods else methods.

Definition known_methods : list string := ["pap"; "chap"; "mschapv1"; "mschapv2"; "eap"; "peap"]%string.
Definition defaultRADIUSAcceptStatusTypes : list string :=
  ["start"; "stop"; "interim_update"; "accounting_on"; "accounting_off"]%string.
Definition validRADIUSAcceptStatus (s : string) : bool := existsb (str_eqb s) defaultRADIUSAcceptStatusTypes.

(** The loop of [normalizeRADIUSAuthMethods] and of [normalizeRADIUSStatusTypes]. *)
Fixpoint normalize_names (known : string -> bool) (raw seen out : list string) : option (list string) :=
  match raw with
  | [] => Some out
  | s :: raw =>
    let m := ToLower (TrimSpace s) in
    if negb (known m) then None
    else if existsb (str_eqb m) seen then normalize_names known raw seen out
    else normalize_names known raw (m :: seen) (out ++ [m])
  end.

Definition bad_path (message path : string) : domain_error := mkError CodeInvalidArgument message path.

Definition ParseRADIUSAuthMethods (raw : list string) : result domain_error (list string) :=
  match normalize_names (fun m => existsb (str_eqb m) known_methods) raw [] [] with
  | Some out => Ok out
  | None => Err (bad_path "RADIUS authentication method must be pap, chap, mschapv1, mschapv2, eap, or peap" "radius.allowed_methods")
  end.
Definition ParseRADIUSStatusTypes (raw : list string) : result domain_error (list string) :=
  match normalize_names validRADIUSAcceptStatus raw [] [] with
  | Some out => Ok out
  | None => Err (bad_path "unknown RADIUS accounting status type" "radius.accept_status_types")
  end.

(** ** What the compilers read of a document *)

(** The index compilers do not read a secret: any text stands for it. *)
Definition match_endpoint (ep : ClientEndpoint) : ClientMatch.ClientEndpoint :=
  ClientMatch.mkClientEndpoint (ep_ID ep) (ep_Protocol ep) (ep_Transport ep) (ep_Roles ep)
    (option_map (fun r => ClientMatch.mkRADIUSEndpoint (sf_File (re_SharedSecret r)) (re_RequireMessageAuthenticator r)
                   (re_LimitProxyState r) (re_AllowedAuthenticationMethods r) (re_AcceptStatusTypes r)) (ep_RADIUS ep)).
Definition match_client (c : Client) : ClientMatch.Client :=
  ClientMatch.mkClient (cl_ID c) (cl_Priority c) (cl_Enabled c) (cm_SourceCIDRs (cl_Match c)) (cm_Transports (cl_Match c))
    (cm_Mode (cl_Match c)) (ct_DNSSANs (cm_Certificate (cl_Match c))) (ct_IPSANs (cm_Certificate (cl_Match c)))
    (map match_endpoint (cl_Endpoints c)).

(** [policy.Input{...}] *)
Definition policy_input (users : list User) (groups : list Group) (clients : list Client) (fallback : RuleSet) (l : limits) : Policy.Input :=
  Policy.mkInput
    (map (fun u => Policy.mkCfgUser (us_ID u) (us_Enabled u) (us_GroupIDs u) (us_Rules u) (ur_ClientIDs (us_Restrictions u))
                     (ur_ValidAfter (us_Restrictions u)) (ur_ValidBefore (us_Restrictions u))) users)
    (map (fun g => Policy.mkCfgGroup (gr_ID g) (gr_Priority g) (gr_Enabled g) (mkRules (gr_Services g) (gr_CommandRules g))) groups)
    (map (fun c => Policy.mkCfgClient (cl_ID c) (cl_Enabled c) (elems (cl_DefaultGroupIDs c))) clients)
    fallback l.

(** What [policyradius.CompileDocument] passes to [Compile]. *)
Definition radius_input (d : Document) : RadiusPolicy.Input :=
  RadiusPolicy.mkInput (dc_RADIUSPolicies d) (dc_RADIUSReplyProfiles d) (dc_FallbackRADIUSPolicyID d)
    (map (fun c => RadiusPolicy.mkCfgClient (cl_ID c) (cl_Enabled c)
                     (map (fun ep => RadiusPolicy.mkCfgEndpoint (ep_ID ep) (ep_Protocol ep) (option_map re_AccessPolicyID (ep_RADIUS ep)))
                        (cl_Endpoints c)) (elems (cl_DefaultGroupIDs c))) (dc_Clients d))
    (map (fun u => RadiusPolicy.mkCfgUser (us_ID u) (us_Enabled u) (us_GroupIDs u) (us_RADIUSPolicyID u)) (dc_Users d))
    (map (fun g => RadiusPolicy.mkCfgGroup (gr_ID g) (gr_Enabled g) (gr_Priority g) (gr_RADIUSPolicyID g)) (dc_Groups d)).
