(* ===== verification/ConfigValidate.v ===== *)
(** * Validation of a configuration document

    [internal/config/validate.go] with the parts of [radius_policy.go],
    [radius_dictionary.go] and [wildcard.go] it calls, and the shared-secret
    policy of [secretpolicy.go].  [Validate] is what stands between any change
    of the configuration and its publication: the state manager publishes no
    document it refuses ([StateManager]).

    The first error is returned as the code returns it, with its code, message
    and path; the errors of the index compilers are those of [ClientMatch].  A
    [map] that only serves to detect a duplicate is the list of what was seen.
    [Validate] also rebuilds the endpoints of the clients without a RADIUS
    endpoint in the document it is given: the model returns that document. *)

From Stdlib Require Import Ascii Floats.SpecFloat.
From stdpp Require Import gmap strings pretty.
From S2P Require Import Prelude Text StableSort Domain Policy RadiusPolicy NetAddr ClientMatch Sha256 ConfigModel.

#[local] Open Scope Z_scope.

(** ** Errors *)

(** [EOther]: an error of a secret source that is not a [domain.Error]. *)
Inductive cfg_error :=
| EDomain (e : domain_error)
| EMatch (e : config_error)
| EPolicy (e : policy_error)
| EOther.

Definition CodeObjectLimitExceeded : string := "OBJECT_LIMIT_EXCEEDED".
Definition CodeAuthMethodCredentialMissing : string := "AUTH_METHOD_CREDENTIAL_MISSING".
Definition CodeRADIUSSecretMissing : string := "RADIUS_SECRET_MISSING".
Definition CodeClientEndpointProjectionMismatch : string := "CLIENT_ENDPOINT_PROJECTION_MISMATCH".
Definition CodeGroupNotFound : string := "GROUP_NOT_FOUND".
Definition CodeRegexInvalid : string := "REGEX_INVALID".
Definition CodeSharedSecretPolicyViolation : string := "SHARED_SECRET_POLICY_VIOLATION".
Definition CodeSharedSecretRotationOverdue : string := "SHARED_SECRET_ROTATION_OVERDUE".

Definition error (code message path : string) : cfg_error := EDomain (mkError code message path).
Definition invalid (message path : string) : cfg_error := error CodeInvalidArgument message path.
Definition yamlErrorAt (path message : string) : cfg_error := EDomain (yaml_invalid message path).

(** [if cond { return err }] *)
Definition refuse {E} (cond : bool) (e : E) : result E unit := if cond then Err e else Ok tt.

(** [for i, x := range l { if err := f(i, x); err != nil { return err } }] *)
Fixpoint each {E A} (f : Z -> A -> result E unit) (l : list A) (i : Z) : result E unit :=
  match l with
  | [] => Ok tt
  | x :: l => f i x ;! each f l (i + 1)
  end.

(** The same loop with a map of the keys seen before. *)
Fixpoint each_seen {E A K} (key : A -> K) (f : Z -> list K -> A -> result E unit) (l : list A) (i : Z) (seen : list K) : result E unit :=
  match l with
  | [] => Ok tt
  | x :: l => f i seen x ;! each_seen key f l (i + 1) (key x :: seen)
  end.

Definition have (l : list string) (s : string) : bool := existsb (str_eqb s) l.

Definition lift_match {A} (m : result config_error A) : result cfg_error A :=
  match m with Ok a => Ok a | Err e => Err (EMatch e) end.
Definition lift_policy {A} (m : result policy_error A) : result cfg_error A :=
  match m with Ok a => Ok a | Err e => Err (EPolicy e) end.
Definition lift_domain {A} (m : result domain_error A) : result cfg_error A :=
  match m with Ok a => Ok a | Err e => Err (EDomain e) end.

(** ** Text helpers of the standard library *)

Fixpoint chars (s : string) : list ascii := match s with EmptyString => [] | String c s => c :: chars s end.
Fixpoint str_of (l : list ascii) : string := match l with [] => EmptyString | c :: l => String c (str_of l) end.
Definition ascii_in (c : ascii) (l : list ascii) : bool := existsb (fun d => Ascii.eqb c d) l.

(** The text before and after the last [c]. *)
Fixpoint cut_last (c : ascii) (l : list ascii) : option (list ascii * list ascii) :=
  match l with
  | [] => None
  | x :: l =>
    match cut_last c l with
    | Some (a, b) => Some (x :: a, b)
    | None => if Ascii.eqb x c then Some ([], l) else None
    end
  end.
Fixpoint cut_first (c : ascii) (l : list ascii) : option (list ascii * list ascii) :=
  match l with
  | [] => None
  | x :: l => if Ascii.eqb x c then Some ([], l) else match cut_first c l with Some (a, b) => Some (x :: a, b) | None => None end
  end.

(** [net.SplitHostPort] *)
Definition SplitHostPort (hostport : string) : option (string * string) :=
  let l := chars hostport in
  match cut_last ":"%char l with
  | None => None
  | Some (host, port) =>
    match l with
    | c :: rest =>
      if Ascii.eqb c "["%char then
        match cut_first "]"%char rest with
        | None => None
        | Some (h, after) =>
          (* what follows the bracket is the last colon and the port *)
          if negb (bool_decide (after = ":"%char :: port)) then None
          else if ascii_in "["%char rest || ascii_in "]"%char after then None
          else Some (str_of h, str_of port)
        end
      else if ascii_in ":"%char host || ascii_in "["%char l || ascii_in "]"%char l then None
      else Some (str_of host, str_of port)
    | [] => None
    end
  end.

Example SplitHostPort_cases :
  map SplitHostPort [":49"; "127.0.0.1:49"; "[::1]:49"; "[::1]"; "::1:49"; "host"; "h:"; "[a]b:1"; "[a]:b:1"]%string
  = [Some ("", "49"); Some ("127.0.0.1", "49"); Some ("::1", "49"); None; None; None; Some ("h", ""); None; None]%string.
Proof. reflexivity. Qed.

(** [strings.Split(s, ".")] *)
Fixpoint split_on (c : ascii) (l : list ascii) : list (list ascii) :=
  match l with
  | [] => [[]]
  | x :: l =>
    if Ascii.eqb x c then [] :: split_on c l
    else match split_on c l with h :: t => (x :: h) :: t | [] => [[x]] end
  end.

Fixpoint is_prefix (p l : list ascii) : bool :=
  match p, l with
  | [], _ => true
  | x :: p, y :: l => Ascii.eqb x y && is_prefix p l
  | _, [] => false
  end.
Definition HasPrefix (s p : string) : bool := is_prefix (chars p) (chars s).
Fixpoint contains_at (p l : list ascii) : bool :=
  is_prefix p l || match l with [] => false | _ :: l => contains_at p l end.
Definition Contains (s p : string) : bool := contains_at (chars p) (chars s).

(** [ValidateWildcardServerName] (wildcard.go): the message of its error. *)
Definition ValidateWildcardServerName (name : string) : option string :=
  let name := TrimSpace (ToLower name) in
  if str_eqb name "" then Some "server name is empty"%string
  else if negb (ascii_in "*"%char (chars name)) then None
  else
    let labels := split_on "."%char (chars name) in
    if len labels <? 4 then Some "wildcard server identity must be a TACACS-only subdomain such as *.tacacs.lab.example"%string
    else match labels with
    | first :: second :: _ =>
      if negb (bool_decide (first = ["*"%char])) then Some "wildcard must be the entire leftmost label"%string
      else if existsb (fun l => bool_decide (l = []) || ascii_in "*"%char l) (tl labels)
      then Some "wildcard is allowed only as the leftmost label"%string
      else if negb (bool_decide (second = chars "tacacs"))
      (* the message ends in an ellipsis, U+2026 *)
      then Some "wildcard server identities must be limited to a tacacs subdomain (*.tacacs.…)"%string
      else None
    | _ => None
    end.

(** ** Listeners *)

Definition second : Z := 1000000000.
Definition validateBind (bind path : string) : result cfg_error unit :=
  refuse (str_eqb (TrimSpace bind) "") (invalid "bind address is required" path) ;!
  match SplitHostPort bind with
  | None => Err (invalid "bind address must be host:port" path)
  | Some (_, port) => refuse (str_eqb port "") (invalid "bind address must be host:port" path)
  end.

Definition out_of (lo hi v : Z) : bool := (v <? lo) || (v >? hi).

Definition RADIUSMessageAuthenticatorRequired : string := "required".
Definition RADIUSMessageAuthenticatorAllowMissing : string := "allow_missing".
Definition TLSTicketLifetimeEnforced : Z := 7 * 24 * 3600 * second.

Definition validateRADIUSListener (l : RADIUSListener) (path : string) (accounting : bool) : result cfg_error unit :=
  let bad name message := invalid message (cat path name) in
  validateBind (rl_Bind l) (cat path ".bind") ;!
  refuse (negb (str_eqb (rl_Transport l) "") && negb (str_eqb (rl_Transport l) "udp")) (bad ".transport" "transport must be udp")%string ;!
  refuse (out_of 20 4096 (rl_MaxPacketBytes l)) (bad ".max_packet_bytes" "max_packet_bytes must be between 20 and 4096")%string ;!
  refuse (rl_QueueCapacity l <=? 0) (bad ".queue_capacity" "queue_capacity must be > 0")%string ;!
  refuse (rl_Workers l <=? 0) (bad ".workers" "workers must be > 0")%string ;!
  refuse (rl_WorkerDeadline l <=? 0) (bad ".worker_deadline" "worker_deadline must be > 0")%string ;!
  refuse (rl_RetransmissionCacheEntries l <=? 0) (bad ".retransmission_cache_entries" "retransmission_cache_entries must be > 0")%string ;!
  refuse (rl_RetransmissionCacheBytes l <=? 0) (bad ".retransmission_cache_bytes" "retransmission_cache_bytes must be > 0")%string ;!
  (if accounting then
     refuse ((rl_RetransmissionTTL l <=? 0) || (rl_RetransmissionTTL l >? 300 * second))
       (bad ".retransmission_ttl" "retransmission_ttl must be between 1ns and 300s")%string ;!
     refuse (rl_JournalEntries l <=? 0) (bad ".journal_entries" "journal_entries must be > 0")%string ;!
     refuse (rl_JournalBytes l <=? 0) (bad ".journal_bytes" "journal_bytes must be > 0")%string ;!
     refuse (rl_AmbiguousAccountingPerMinute l <? 0)
       (bad ".ambiguous_accounting_per_minute" "ambiguous_accounting_per_minute must be >= 0")%string ;!
     refuse (out_of 16 100000 (rl_SessionIndexEntries l)) (bad ".session_index_entries" "session_index_entries is out of range")%string ;!
     refuse (out_of 65536 67108864 (rl_SessionIndexBytes l)) (bad ".session_index_bytes" "session_index_bytes is out of range")%string ;!
     refuse (out_of (60 * second) (24 * 3600 * second) (rl_SessionTTL l)) (bad ".session_ttl" "session_ttl must be between 1m and 24h")%string ;!
     refuse (out_of 500000000 (30 * second) (rl_CoATimeout l)) (bad ".coa_timeout" "coa_timeout must be between 500ms and 30s")%string
   else
     refuse (out_of (5 * second) (30 * second) (rl_RetransmissionTTL l))
       (bad ".retransmission_ttl" "retransmission_ttl must be between 5s and 30s")%string ;!
     refuse (negb (have ["";  RADIUSMessageAuthenticatorRequired; RADIUSMessageAuthenticatorAllowMissing]%string (rl_MessageAuthenticator l)))
       (bad ".message_authenticator" "message_authenticator must be required or allow_missing")%string ;!
     refuse (out_of (5 * second) (60 * second) (rl_ChallengeTTL l)) (bad ".challenge_ttl" "challenge_ttl must be between 5s and 60s")%string ;!
     refuse (out_of 16 65536 (rl_ChallengeEntries l)) (bad ".challenge_entries" "challenge_entries must be between 16 and 65536")%string ;!
     refuse (out_of 65536 8388608 (rl_ChallengeBytes l)) (bad ".challenge_bytes" "challenge_bytes must be between 64KiB and 8MiB")%string) ;!
  refuse (SFleb (rl_PerSourceRate l) (S754_zero false)) (bad ".per_source_rate" "per_source_rate must be > 0")%string ;!
  refuse (rl_PerSourceBurst l <=? 0) (bad ".per_source_burst" "per_source_burst must be > 0")%string.

Definition validateRADIUSDynAuth (l : RADIUSListener) (path : string) : result cfg_error unit :=
  validateRADIUSListener l path false ;!
  refuse (negb (have [""; RADIUSMessageAuthenticatorRequired]%string (rl_MessageAuthenticator l)))
    (invalid "inbound DAS require_message_authenticator cannot be disabled" (cat path ".require_message_authenticator")).

Definition validateProfile (tlsPath : string) (i : Z) (p : TLSProfile) : result cfg_error unit :=
  let path := indexPath (cat tlsPath ".identities.profiles") i in
  refuse (str_eqb (tp_CertificateChain p) "") (invalid "certificate chain file is required" (cat path ".certificate_chain")) ;!
  refuse (negb (Set_ (tp_PrivateKey p))) (error CodeAuthMethodCredentialMissing "TLS private key is required" (cat path ".private_key")).

Definition validateServerNames (tlsPath : string) (i : Z) (p : TLSProfile) : result cfg_error unit :=
  let path := indexPath (cat tlsPath ".identities.profiles") i in
  each (fun j name => match ValidateWildcardServerName name with
                      | Some msg => Err (invalid msg (indexPath (cat path ".server_names") j))
                      | None => Ok tt
                      end) (tp_ServerNames p) 0.

Definition validateSecureTLS (t : SecureTLS) (tlsPath noun : string) : result cfg_error unit :=
  let bad name message := invalid message (cat tlsPath name) in
  refuse (len (tl_Profiles t) =? 0) (bad ".identities.profiles" (cat noun " requires at least one TLS identity profile"))%string ;!
  refuse (negb (str_eqb (tl_DefaultID t) "") && negb (have (map tp_ID (tl_Profiles t)) (tl_DefaultID t)))
    (bad ".identities.default_id" "default TLS identity is not defined")%string ;!
  each (validateProfile tlsPath) (tl_Profiles t) 0 ;!
  refuse (str_eqb (tl_ClientCABundle t) "") (bad ".client_ca_bundle" "client CA bundle is required")%string ;!
  refuse (str_eqb (tl_RevocationMode t) "configured_crl" && str_eqb (tl_CRLBundle t) "")
    (bad ".revocation.crl_bundle" "CRL bundle is required when revocation.mode is configured_crl")%string ;!
  refuse (negb (tl_RejectEarlyData t)) (bad ".reject_early_data" "reject_early_data cannot be disabled")%string ;!
  refuse (negb (tl_RecheckClientRevocation t))
    (bad ".session_resumption.recheck_client_revocation" "recheck_client_revocation cannot be disabled (ADR-0005)")%string ;!
  refuse (tl_ResumptionEnabled t && negb (tl_TicketLifetime t =? 0) && negb (tl_TicketLifetime t =? TLSTicketLifetimeEnforced))
    (bad ".session_resumption.ticket_lifetime" "ticket_lifetime must be 0 (disabled) or 168h (Go crypto/tls cap; ADR-0005)")%string ;!
  each (validateServerNames tlsPath) (tl_Profiles t) 0.

Definition validateRADIUSRadSecListener (l : RADIUSRadSecListener) (path : string) : result cfg_error unit :=
  let bad name message := invalid message (cat path name) in
  validateBind (rs_Bind l) (cat path ".bind") ;!
  refuse (negb (str_eqb (rs_Transport l) "") && negb (str_eqb (rs_Transport l) EndpointTransportTLS)) (bad ".transport" "transport must be tls")%string ;!
  refuse (out_of 20 4096 (rs_MaxPacketBytes l)) (bad ".max_packet_bytes" "max_packet_bytes must be between 20 and 4096")%string ;!
  refuse (rs_MaxConnections l <=? 0) (bad ".max_connections" "max_connections must be > 0")%string ;!
  refuse (rs_IdleTimeout l <=? 0) (bad ".idle_timeout" "idle_timeout must be > 0")%string ;!
  refuse (rs_HandshakeTimeout l <=? 0) (bad ".handshake_timeout" "handshake_timeout must be > 0")%string ;!
  refuse (rs_RetransmissionCacheEntries l <=? 0) (bad ".retransmission_cache_entries" "retransmission_cache_entries must be > 0")%string ;!
  refuse (rs_RetransmissionCacheBytes l <=? 0) (bad ".retransmission_cache_bytes" "retransmission_cache_bytes must be > 0")%string ;!
  refuse (out_of (5 * second) (30 * second) (rs_RetransmissionTTL l))
    (bad ".retransmission_ttl" "retransmission_ttl must be between 5s and 30s")%string ;!
  if negb (rs_Enabled l) then Ok tt else validateSecureTLS (rs_TLS l) (cat path ".tls") "RadSec".

Definition validateDistinctRADIUSBinds (l : Listeners) : result cfg_error unit :=
  let clash a b := rl_Enabled a && rl_Enabled b && str_eqb (rl_Bind a) (rl_Bind b) in
  refuse (clash (li_RADIUSAccess l) (li_RADIUSAccounting l) || clash (li_RADIUSAccess l) (li_RADIUSDynAuth l)
          || clash (li_RADIUSAccounting l) (li_RADIUSDynAuth l))
    (invalid "RADIUS listeners must use distinct binds" "listeners.radius").

(** [listenerYAMLPaths]: the document paths of a schema version. *)
Record listenerYAMLPaths := mkPaths { yp_Legacy : string; yp_Secure : string; yp_HTTP : string }.
Definition v1ListenerPaths : listenerYAMLPaths := mkPaths "listeners.legacy_tacacs" "listeners.secure_tacacs" "listeners.http".
Definition v2ListenerPaths : listenerYAMLPaths := mkPaths "listeners.tacacs.legacy" "listeners.tacacs.tls" "listeners.http".
Definition SchemaVersionV2 : Z := 2.
Definition pathsForSchema (schema : Z) : listenerYAMLPaths := if schema =? SchemaVersionV2 then v2ListenerPaths else v1ListenerPaths.

Definition validateListeners (l : Listeners) (paths : listenerYAMLPaths) : result cfg_error unit :=
  let legacy := li_LegacyTACACS l in
  let secure := li_SecureTACACS l in
  refuse (li_HTTPTLSEnabled l)
    (invalid "in-process HTTP TLS is unsupported; terminate HTTPS at a reverse proxy and set api.ui_session.cookie_secure explicitly"
       (cat (yp_HTTP paths) ".tls.enabled")) ;!
  validateBind (nl_Bind legacy) (cat (yp_Legacy paths) ".bind") ;!
  validateBind (nl_Bind secure) (cat (yp_Secure paths) ".bind") ;!
  validateBind (li_HTTPBind l) (cat (yp_HTTP paths) ".bind") ;!
  validateRADIUSListener (li_RADIUSAccess l) "listeners.radius.access" false ;!
  validateRADIUSListener (li_RADIUSAccounting l) "listeners.radius.accounting" true ;!
  validateRADIUSRadSecListener (li_RADIUSRadSec l) "listeners.radius.radsec" ;!
  validateRADIUSDynAuth (li_RADIUSDynAuth l) "listeners.radius.dynamic_authorization" ;!
  validateDistinctRADIUSBinds l ;!
  refuse (nl_Enabled legacy && nl_Enabled secure && str_eqb (nl_Bind legacy) (nl_Bind secure))
    (invalid "legacy and secure TACACS listeners must use distinct binds" "listeners") ;!
  if nl_Enabled secure then validateSecureTLS (li_SecureTLS l) (cat (yp_Secure paths) ".tls") "secure TACACS" else Ok tt.

(** ** Limits and tokens *)

Definition over (cap n : Z) : bool := (cap >? 0) && (n >? cap).

Definition validateLimits (d : Document) : result cfg_error unit :=
  let max := rt_MaxObjects (dc_Runtime d) in
  let limit message path := error CodeObjectLimitExceeded message path in
  refuse (over (mo_Users max) (len (dc_Users d))) (limit "user count exceeds configured maximum" "users")%string ;!
  refuse (over (mo_Groups max) (len (dc_Groups d))) (limit "group count exceeds configured maximum" "groups")%string ;!
  refuse (over (mo_Clients max) (len (dc_Clients d))) (limit "client count exceeds configured maximum" "clients")%string ;!
  refuse (over (mo_APITokens max) (len (dc_BootstrapTokens d)))
    (limit "token count exceeds configured maximum" "api.bootstrap_tokens")%string.

Definition knownScopes : list string :=
  ["state:read"; "state:write"; "config:reload"; "config:export"; "policy:test"; "events:read"; "events:sensitive";
   "tokens:manage"; "runtime:reset"; "radius:dynamic"]%string.
Definition ValidScope (s : string) : bool := have knownScopes s.

Definition validateBootstrapToken (i : Z) (seen : list string) (tok : BootstrapToken) : result cfg_error unit :=
  let path := indexPath "api.bootstrap_tokens" i in
  refuse (str_eqb (bt_ID tok) "") (invalid "id is required" (cat path ".id")) ;!
  refuse (have seen (bt_ID tok)) (invalid "duplicate token id" (cat path ".id")) ;!
  refuse (negb (Set_ (bt_Token tok))) (error CodeAuthMethodCredentialMissing "bootstrap token secret is required" (cat path ".token")) ;!
  refuse (len (bt_Scopes tok) =? 0) (invalid "at least one scope is required" (cat path ".scopes")) ;!
  each (fun j s => refuse (negb (ValidScope s)) (invalid "unknown scope" (indexPath (cat path ".scopes") j))) (bt_Scopes tok) 0.
Definition validateBootstrapTokens (l : list BootstrapToken) : result cfg_error unit := each_seen bt_ID validateBootstrapToken l 0 [].

Section Validate.
(** [regexp.Compile]. *)
Variable regexp_Compile : string -> option (string -> bool).

(** ** Rules *)

Definition validateStringMatch (m : StringMatch) (path : string) : result cfg_error unit :=
  refuse (negb (str_eqb (sm_Pattern m) "") && bool_decide (regexp_Compile (sm_Pattern m) = None))
    (error CodeRegexInvalid "invalid regular expression" (cat path ".pattern")).

Definition validateCommandRule (path : string) (i : Z) (seen : list (Z * string)) (r : CommandRule) : result cfg_error unit :=
  let p := indexPath (cat path ".command_rules") i in
  match find (fun q => q.1 =? cr_Priority r) seen with
  | Some (_, prev) =>
    Err (invalid (cat "duplicate command rule priority " (cat (pretty (cr_Priority r)) (cat " (also " (cat prev ")")))) (cat p ".priority"))
  | None =>
    validateStringMatch (cr_Command r) (cat p ".command") ;! validateStringMatch (cr_Arguments r) (cat p ".arguments")
  end.
Definition validateRuleSet (commands : list CommandRule) (path : string) : result cfg_error unit :=
  each_seen (fun r => (cr_Priority r, Policy.cr_ID r)) (validateCommandRule path) commands 0 [].

Definition validateGroup (i : Z) (seen : list string) (g : Group) : result cfg_error unit :=
  refuse (have seen (gr_ID g)) (invalid "duplicate group id" (cat (indexPath "groups" i) ".id")) ;!
  refuse (negb (bool_decide (gr_DefaultCommandAction g = DecisionOther "")) && negb (bool_decide (gr_DefaultCommandAction g = DecisionDeny)))
    (invalid "default_command_action must be deny" (cat (indexPath "groups" i) ".default_command_action")) ;!
  validateRuleSet (gr_CommandRules g) (indexPath "groups" i).

(** ** Clients and users *)

Definition validateClient (groups : list string) (path : string) (c : Client) : result cfg_error unit :=
  let m := cl_Match c in
  let no_cidrs := len (cm_SourceCIDRs m) =? 0 in
  refuse (hasRADIUSEndpoint c && negb (TACACSProjectionMatches c))
    (error CodeClientEndpointProjectionMismatch "client TACACS fields do not match endpoints" path) ;!
  refuse (negb (len (cm_Transports m) >? 0) && negb (hasRADIUSEndpoint c))
    (invalid "at least one transport is required" (cat path ".match.transports")) ;!
  refuse (hasTransport (cm_Transports m) TransportLegacy && negb (Set_ (cy_SharedSecret (cl_Legacy c))))
    (error CodeAuthMethodCredentialMissing "legacy transport requires a shared secret" (cat path ".legacy.shared_secret")) ;!
  refuse (str_eqb (cm_Mode m) MatchCertificateOnly && negb (hasTACACSTLSEndpoint c) && negb (hasRADIUSTLSEndpoint c))
    (invalid "certificate_only requires a TACACS TLS or RADIUS TLS endpoint" (cat path ".match.mode")) ;!
  each (fun _ ep => match ep_RADIUS ep with
                    | None => Err (error CodeRADIUSSecretMissing "RADIUS endpoint requires a shared secret" (cat path ".endpoints"))
                    | Some r => refuse (negb (Set_ (re_SharedSecret r)))
                                  (error CodeRADIUSSecretMissing "RADIUS endpoint requires a shared secret" (cat path ".endpoints"))
                    end) (radiusEndpoints c) 0 ;!
  refuse (bool_decide (is_Some (radiusEndpoint c EndpointTransportUDP)) && no_cidrs)
    (invalid "RADIUS clients require match.source_cidrs" (cat path ".match.source_cidrs")) ;!
  refuse (bool_decide (is_Some (radiusEndpoint c EndpointTransportTLS)) && negb (str_eqb (cm_Mode m) MatchCertificateOnly) && no_cidrs)
    (invalid "RADIUS clients with address_and_certificate require match.source_cidrs" (cat path ".match.source_cidrs")) ;!
  each (fun i s => refuse (bool_decide (ParseIP s = None)) (invalid "invalid IP address" (indexPath (cat path ".match.certificate.ip_sans") i)))
    (ct_IPSANs (cm_Certificate m)) 0 ;!
  each (fun i id => refuse (negb (have groups id))
                      (error CodeGroupNotFound "default group does not exist" (indexPath (cat path ".authorization.default_group_ids") i)))
    (elems (cl_DefaultGroupIDs c)) 0.

(** What the loop over the clients leaves in [doc.Clients[i]]. *)
Definition resynthesize (c : Client) : Client :=
  if negb (hasRADIUSEndpoint c) then with_endpoints c (synthesizeTACACSEndpoints c) else c.
Definition validateClientAt (groups : list string) (i : Z) (seen : list string) (c : Client) : result cfg_error unit :=
  refuse (have seen (cl_ID c)) (invalid "duplicate client id" (cat (indexPath "clients" i) ".id")) ;!
  validateClient groups (indexPath "clients" i) (resynthesize c).

Definition validateUser (groups clients : list string) (path : string) (u : User) : result cfg_error unit :=
  each (fun i id => refuse (negb (have groups id)) (error CodeGroupNotFound "group does not exist" (indexPath (cat path ".group_ids") i)))
    (us_GroupIDs u) 0 ;!
  each (fun i id => refuse (negb (have clients id)) (invalid "restricted client does not exist" (indexPath (cat path ".restrictions.client_ids") i)))
    (ur_ClientIDs (us_Restrictions u)) 0 ;!
  refuse (match ur_ValidAfter (us_Restrictions u), ur_ValidBefore (us_Restrictions u) with Some a, Some b => a >? b | _, _ => false end)
    (invalid "valid_after must be before valid_before" (cat path ".restrictions")) ;!
  refuse (us_MustChangeLogin u && negb (Set_ (uc_Login (us_Credentials u))))
    (invalid "must_change_login requires a login verifier" (cat path ".must_change_login")) ;!
  refuse (us_MustChangeEnable u && negb (Set_ (uc_Enable (us_Credentials u))))
    (invalid "must_change_enable requires an enable verifier" (cat path ".must_change_enable")) ;!
  validateRuleSet (CommandRules (us_Rules u)) (cat path ".rules").
Definition validateUserAt (groups clients : list string) (i : Z) (seen : list string) (u : User) : result cfg_error unit :=
  refuse (have seen (us_ID u)) (invalid "duplicate user id" (cat (indexPath "users" i) ".id")) ;!
  validateUser groups clients (indexPath "users" i) u.

(** ** RADIUS policies and dictionaries *)

Definition validateRADIUSRule (groups : list string) (p : RADIUSPolicy) (_ : Z) (seen : list string) (r : RADIUSRule) : result cfg_error unit :=
  let base := cat "radius_policies." (cat (rp_ID p) (cat ".rules." (rr_ID r))) in
  refuse (str_eqb (rr_ID r) "") (invalid "id is required" (cat "radius_policies." (cat (rp_ID p) ".rules"))) ;!
  refuse (have seen (rr_ID r)) (invalid "duplicate rule id" base) ;!
  refuse (negb (str_eqb (rr_Effect r) EffectPermit) && negb (str_eqb (rr_Effect r) EffectDeny))
    (invalid "effect must be permit or deny" (cat base ".effect")) ;!
  refuse (match rm_Method (rr_Match r) with Some m => negb (AuthMethod_Valid m) | None => false end)
    (invalid "authentication method must be password, pap, chap, mschapv1, mschapv2, or eap" (cat base ".match.method")) ;!
  each (fun i g =>
      refuse (str_eqb g "") (invalid "group id is required" (indexPath (cat base ".match.groups_any") i)) ;!
      refuse (negb (have groups g)) (error CodeGroupNotFound "group does not exist" (indexPath (cat base ".match.groups_any") i)))
    (rm_GroupsAny (rr_Match r)) 0 ;!
  each (fun i a => refuse (negb (have [RADIUSMatchOpEquals; RADIUSMatchOpPresent; RADIUSMatchOpAbsent] (am_Op a)))
                     (invalid "op must be equals, present, or absent" (cat (indexPath (cat base ".match.attributes") i) ".op")))
    (rm_Attributes (rr_Match r)) 0.

Definition validateRADIUSPolicy (groups : list string) (i : Z) (seen : list string) (p : RADIUSPolicy) : result cfg_error unit :=
  refuse (str_eqb (rp_ID p) "") (invalid "id is required" (cat (indexPath "radius_policies" i) ".id")) ;!
  refuse (have seen (rp_ID p)) (invalid "duplicate radius policy id" (cat "radius_policies." (rp_ID p))) ;!
  each_seen rr_ID (validateRADIUSRule groups p) (rp_Rules p) 0 [].

Definition validateReplyProfile (i : Z) (seen : list string) (p : RADIUSReplyProfile) : result cfg_error unit :=
  refuse (str_eqb (pr_ID p) "") (invalid "id is required" (cat (indexPath "radius_reply_profiles" i) ".id")) ;!
  refuse (have seen (pr_ID p)) (invalid "duplicate radius reply profile id" (cat "radius_reply_profiles." (pr_ID p))).

(** A reference that is absent or names a policy. *)
Definition dangling (policies : list string) (id : string) : bool := negb (str_eqb id "") && negb (have policies id).

Definition validateRADIUSPolicyRefs (d : Document) (clients : list Client) (groups : list string) : result cfg_error unit :=
  let policies := map rp_ID (dc_RADIUSPolicies d) in
  let profiles := map pr_ID (dc_RADIUSReplyProfiles d) in
  each_seen rp_ID (validateRADIUSPolicy groups) (dc_RADIUSPolicies d) 0 [] ;!
  each_seen pr_ID validateReplyProfile (dc_RADIUSReplyProfiles d) 0 [] ;!
  refuse (dangling policies (dc_FallbackRADIUSPolicyID d))
    (error CodeNotFound "fallback_radius_policy_id does not exist" "fallback_radius_policy_id") ;!
  each (fun i u => refuse (dangling policies (us_RADIUSPolicyID u))
                     (EDomain (yaml_invalid "radius_policy_id does not exist" (cat (indexPath "users" i) ".radius_policy_id")))) (dc_Users d) 0 ;!
  each (fun i g => refuse (dangling policies (gr_RADIUSPolicyID g))
                     (EDomain (yaml_invalid "radius_policy_id does not exist" (cat (indexPath "groups" i) ".radius_policy_id")))) (dc_Groups d) 0 ;!
  each (fun i c =>
      each (fun _ ep => refuse (match ep_RADIUS ep with Some r => dangling policies (re_AccessPolicyID r) | None => false end)
                          (error CodeNotFound "access_policy_id does not exist"
                             (cat (indexPath "clients" i) (cat ".endpoints." (cat (ep_ID ep) ".radius.access_policy_id")))))
        (radiusEndpoints c) 0) clients 0 ;!
  each (fun _ p =>
      each (fun _ r =>
          let base := cat "radius_policies." (cat (rp_ID p) (cat ".rules." (rr_ID r))) in
          each (fun j pid =>
              refuse (str_eqb pid "") (invalid "reply profile id is required" (indexPath (cat base ".reply_profiles") j)) ;!
              refuse (negb (have profiles pid)) (error CodeNotFound "reply profile does not exist" (indexPath (cat base ".reply_profiles") j)))
            (rr_ReplyProfiles r) 0) (rp_Rules p) 0) (dc_RADIUSPolicies d) 0.

Definition MaxOperatorDictionaryFiles : Z := 8.
Definition validateRADIUSDictionaryPath (file field : string) : result cfg_error unit :=
  let lower := ToLower file in
  refuse (str_eqb file "") (yamlErrorAt field "file is required") ;!
  refuse (Contains file "$INCLUDE") (yamlErrorAt field "FreeRADIUS $INCLUDE is not allowed") ;!
  refuse (Contains file "://" || HasPrefix lower "http:" || HasPrefix lower "https:" || HasPrefix lower "s3:")
    (yamlErrorAt field "dictionary file must be a local path") ;!
  refuse (negb (HasPrefix file "/")) (yamlErrorAt field "dictionary file must be an absolute path").
Definition validateRADIUSDictionary (i : Z) (seen : list string) (x : RADIUSDictionary) : result cfg_error unit :=
  let path := indexPath "radius_dictionaries" i in
  refuse (str_eqb (TrimSpace (rd_ID x)) "") (yamlErrorAt (cat path ".id") "id is required") ;!
  refuse (have seen (rd_ID x)) (yamlErrorAt (cat path ".id") "duplicate radius dictionary id") ;!
  validateRADIUSDictionaryPath (rd_File x) (cat path ".file").
Definition validateRADIUSDictionaries (l : list RADIUSDictionary) : result cfg_error unit :=
  refuse (len l >? MaxOperatorDictionaryFiles) (yamlErrorAt "radius_dictionaries" "at most 8 radius_dictionaries entries are allowed") ;!
  each_seen rd_ID validateRADIUSDictionary l 0 [].

(** ** The document *)

(** The six indexes, compiled to be refused. *)
Definition check_indexes (clients : list Client) : result cfg_error unit :=
  let cs := map match_client clients in
  let! _ := lift_match (CompileClientIndex cs) in
  let! _ := lift_match (CompileRADIUSIndex cs RoleAccess CarrierRADIUSUDP) in
  let! _ := lift_match (CompileRADIUSIndex cs RoleAccounting CarrierRADIUSUDP) in
  let! _ := lift_match (CompileRADIUSIndex cs RoleDynamicAuthorization CarrierRADIUSUDP) in
  let! _ := lift_match (CompileRADIUSCertIndex cs RoleAccess) in
  let! _ := lift_match (CompileRADIUSCertIndex cs RoleAccounting) in
  Ok tt.

Definition validateDocument (d : Document) (schema : Z) : result cfg_error Document :=
  let groups := map gr_ID (dc_Groups d) in
  let clients := map cl_ID (dc_Clients d) in
  let out := with_clients d (map resynthesize (dc_Clients d)) in
  validateLimits d ;!
  validateListeners (dc_Listeners d) (pathsForSchema schema) ;!
  validateBootstrapTokens (dc_BootstrapTokens d) ;!
  each_seen gr_ID validateGroup (dc_Groups d) 0 [] ;!
  each_seen cl_ID (validateClientAt groups) (dc_Clients d) 0 [] ;!
  each_seen us_ID (validateUserAt groups clients) (dc_Users d) 0 [] ;!
  validateRuleSet (CommandRules (dc_FallbackRules d)) "fallback_rules" ;!
  validateRADIUSPolicyRefs d (dc_Clients out) groups ;!
  validateRADIUSDictionaries (dc_RADIUSDictionaries d) ;!
  check_indexes (dc_Clients out) ;!
  Ok out.

Definition Validate (d : Document) : result cfg_error Document :=
  validateDocument d (if dc_SchemaVersion d =? 0 then 1 else dc_SchemaVersion d).
End Validate.
