(* ===== verification/ConfigSecrets.v ===== *)
(** * Shared-secret policy

    [internal/config/secretpolicy.go]: the length, class and weakness rules of
    a shared secret, its rotation health, the detection of a secret used twice,
    and [EvaluateSecrets], which applies them to every client of a document
    before it is published.  Octets are looked up through a [SecretLookup]; the
    wiping of a buffer after its use is not modelled. *)

From Stdlib Require Import Ascii.
From stdpp Require Import gmap strings.
From S2P Require Import Prelude Text StableSort Domain Policy RadiusPolicy Sha256 Sha1Des ConfigModel ConfigValidate.

#[local] Open Scope Z_scope.

(** [SecretLookup]: the octets of a reference, or the error, a [domain.Error]
    or another one. *)
Definition SecretLookup : Type := SecretRef -> result (option domain_error) bytes.

Definition CodeSecretFileUnreadable : string := "SECRET_FILE_UNREADABLE".
Definition mapSecretLookupErr (e : option domain_error) (path : string) : domain_error :=
  match e with
  | Some de => if str_eqb (de_Path de) "" then mkError (de_Code de) (de_Message de) path else de
  | None => mkError CodeSecretFileUnreadable "secret file is not readable" path
  end.

Record SecretWarning := mkSecretWarning { sw_Code : string; sw_Message : string; sw_Path : string }.

Definition hmac_sha256 (key msg : bytes) : bytes :=
  let k := if 64 <? len key then sha256 key else key in
  let k := k ++ replicate (64 - length k) 0 in
  sha256 (map (Z.lxor 92) k ++ sha256 (map (Z.lxor 54) k ++ msg)).

Definition known_weak : list string :=
  ["password"; "secret"; "changeme"; "tacacs"; "tacacs+"; "admin"; "test"; "testing"; "lab"; "default"; "cisco"; "public";
   "private"; "123456"; "12345678"; "qwerty"]%string.
Definition lower_octet (z : Z) : Z := if (65 <=? z) && (z <=? 90) then z + 32 else z.
Definition isKnownWeakSecret (b : bytes) : bool := (len b =? 0) || have known_weak (text_of (map lower_octet b)).

Section Secrets.
(** [unicode.IsLower], [IsUpper], [IsDigit]. *)
Variables IsLower IsUpper IsDigit : Z -> bool.

Definition class_of (r : Z) (size : Z) : Z :=
  if (r =? 65533) && (size =? 1) then 3
  else if IsLower r then 0 else if IsUpper r then 1 else if IsDigit r then 2 else 3.
Fixpoint classes_fuel (fuel : nat) (b : bytes) : list Z :=
  match fuel with
  | O => []
  | S fuel =>
    match b with
    | [] => []
    | b0 :: b' => let '(r, rest) := decode_rune b0 b' in class_of r (1 + len b' - len rest) :: classes_fuel fuel rest
    end
  end.
Definition characterClasses (b : bytes) : Z :=
  let cs := classes_fuel (length b) b in
  len (List.filter (fun k => existsb (Z.eqb k) cs) [0; 1; 2; 3]).

Definition checkSharedSecretBytes (p : SharedSecretPolicy) (raw : bytes) (path noun : string) : result domain_error unit :=
  let violation message := mkError CodeSharedSecretPolicyViolation (cat noun message) path in
  refuse ((sp_MinimumLengthCharacters p >? 0) && (len raw <? sp_MinimumLengthCharacters p)) (violation " is shorter than the configured minimum")%string ;!
  refuse ((sp_MinimumCharacterClasses p >? 0) && (characterClasses raw <? sp_MinimumCharacterClasses p))
    (violation " does not meet the character-class policy")%string ;!
  refuse (sp_RejectKnownWeakValues p && isKnownWeakSecret raw) (violation " is a known-weak value")%string.

(** [SecretLifecycleStatus]; times and durations do not overflow. *)
Definition LifecycleCurrent : string := "current".
Definition LifecycleDueSoon : string := "due_soon".
Definition LifecycleOverdue : string := "overdue".
Definition LifecycleUnknown : string := "unknown".
Definition SecretLifecycleStatus (m : SecretLifecycleMeta) (p : SharedSecretPolicy) (now : Z) : string :=
  match lc_LastRotatedAt m with
  | None => LifecycleUnknown
  | Some last =>
    let interval := if lc_RotationInterval m <=? 0 then sp_DefaultRotationInterval p else lc_RotationInterval m in
    if interval <=? 0 then LifecycleUnknown
    else
      let due := last + interval in
      if negb (now <? due) then LifecycleOverdue
      else if (sp_RotationWarningBefore p >? 0) && negb (now <? due - sp_RotationWarningBefore p) then LifecycleDueSoon
      else LifecycleCurrent
  end.

(** [reuseTracker]: the ids under the keyed hash of their secret. *)
Definition reuse_add (key : bytes) (seen : gmap bytes (list string)) (id : string) (secret : bytes) : gmap bytes (list string) :=
  if (len key =? 0) || (len secret =? 0) then seen
  else let sum := hmac_sha256 key secret in <[sum := default [] (seen !! sum) ++ [id]]> seen.
Definition reuse_warnings (seen : gmap bytes (list string)) : list SecretWarning :=
  SliceStable (fun a b => str_ltb (sw_Message a) (sw_Message b))
    (omap (fun '(_, ids) =>
       if len ids <? 2 then None
       else Some (mkSecretWarning CodeSharedSecretPolicyViolation
                    (cat "shared secret is reused by clients " (String.concat ", " (SliceStable str_ltb ids))) "clients"))
       (map_to_list seen)).

Record evaluation := mkEvaluation { ev_lifecycles : gmap string string; ev_warnings : list SecretWarning; ev_seen : gmap bytes (list string) }.

(** One secret: looked up, checked, tracked, its rotation classified. *)
Definition evaluate_one (reuse : option bytes) (lookup : SecretLookup) (p : SharedSecretPolicy) (now : Z) (noun : string)
    (ref : SecretRef) (life : SecretLifecycleMeta) (path id tracked : string) (ev : evaluation) : result domain_error evaluation :=
  match lookup ref with
  | Err e => Err (mapSecretLookupErr e path)
  | Ok raw =>
    checkSharedSecretBytes p raw path noun ;!
    let seen := match reuse with Some key => reuse_add key (ev_seen ev) tracked raw | None => ev_seen ev end in
    let st := SecretLifecycleStatus life p now in
    let warnings :=
      if str_eqb st LifecycleOverdue
      then ev_warnings ev ++ [mkSecretWarning CodeSharedSecretRotationOverdue (cat noun " rotation is overdue") path]
      else ev_warnings ev in
    Ok (mkEvaluation (<[id := st]> (ev_lifecycles ev)) warnings seen)
  end.

Fixpoint evaluate_endpoints (reuse : option bytes) (lookup : SecretLookup) (p : SharedSecretPolicy) (now : Z) (i : Z) (cid : string)
    (l : list ClientEndpoint) (j : Z) (ev : evaluation) : result domain_error evaluation :=
  match l with
  | [] => Ok ev
  | ep :: l =>
    match ep_RADIUS ep with
    | Some r =>
      if negb (Set_ (re_SharedSecret r)) then evaluate_endpoints reuse lookup p now i cid l (j + 1) ev
      else
        let path := cat (indexPath (cat (indexPath "clients" i) ".endpoints") j) ".radius.shared_secret" in
        let! ev := evaluate_one reuse lookup p now "RADIUS shared secret" (re_SharedSecret r) (re_SharedSecretLifecycle r) path
                     (cat cid (cat "/" (ep_ID ep))) (cat cid " (radius)") ev in
        evaluate_endpoints reuse lookup p now i cid l (j + 1) ev
    | None => evaluate_endpoints reuse lookup p now i cid l (j + 1) ev
    end
  end.

Fixpoint evaluate_clients (reuse : option bytes) (lookup : SecretLookup) (sec : Security) (now : Z) (l : list Client) (i : Z)
    (ev : evaluation) : result domain_error evaluation :=
  match l with
  | [] => Ok ev
  | c :: l =>
    let secret := cy_SharedSecret (cl_Legacy c) in
    let! ev :=
      if Set_ secret
      then evaluate_one reuse lookup (sc_LegacySharedSecrets sec) now "legacy shared secret" secret (cy_SharedSecretLifecycle (cl_Legacy c))
             (cat (indexPath "clients" i) ".legacy.shared_secret") (cl_ID c) (cl_ID c) ev
      else Ok ev in
    let! ev := evaluate_endpoints reuse lookup (sc_RADIUSSharedSecrets sec) now i (cl_ID c) (cl_Endpoints c) 0 ev in
    evaluate_clients reuse lookup sec now l (i + 1) ev
  end.

(** [EvaluateSecrets], for a lookup that is there. *)
Definition EvaluateSecrets (d : Document) (lookup : SecretLookup) (now : Z) (hmacKey : bytes)
    : result domain_error (gmap string string * list SecretWarning) :=
  let sec := dc_Security d in
  let warnReuse := (sp_WarnOnReuse (sc_LegacySharedSecrets sec) || sp_WarnOnReuse (sc_RADIUSSharedSecrets sec)) && (len hmacKey >? 0) in
  let! ev := evaluate_clients (if warnReuse then Some hmacKey else None) lookup sec now (dc_Clients d) 0 (mkEvaluation ∅ [] ∅) in
  Ok (ev_lifecycles ev, ev_warnings ev ++ (if warnReuse then reuse_warnings (ev_seen ev) else [])).
End Secrets.
