(* ===== verification/ConfigSpec.v ===== *)
(** * What a valid configuration document is

    A declarative reading of [internal/config/validate.go]: [document_ok] says
    what [Validate] asks of a document, field by field and reference by
    reference, and [validate_exact] proves that [Validate] accepts exactly such
    documents and changes nothing in them but the endpoints of the clients
    without a RADIUS endpoint. *)

From Stdlib Require Import Ascii Floats.SpecFloat.
From stdpp Require Import gmap strings pretty.
From S2P Require Import Prelude Text StableSort Domain Policy RadiusPolicy NetAddr ClientMatch ConfigModel ConfigValidate.

#[local] Open Scope Z_scope.

(** ** The validators' combinators *)

Lemma refuse_Ok {E} c (e : E) u : refuse c e = Ok u <-> c = false.
Proof. destruct u, c; cbn; split; congruence. Qed.

Lemma then_Ok {E A} (m : result E unit) (k : result E A) a : (m ;! k) = Ok a <-> m = Ok tt /\ k = Ok a.
Proof. rewrite rbind_Ok. split; [intros ([] & ? & ?); done|intros [? ?]; by exists tt]. Qed.

Lemma each_Ok {E A} (f : Z -> A -> result E unit) (P : A -> Prop) l i :
  (forall j x, f j x = Ok tt <-> P x) -> (each f l i = Ok tt <-> Forall P l).
Proof.
  intros Hf. revert i. induction l as [|x l IH]; intros i; cbn [each]; [by split; constructor|].
  by rewrite then_Ok, Hf, IH, list.Forall_cons.
Qed.

Lemma each_seen_Ok {E A K} (key : A -> K) (f : Z -> list K -> A -> result E unit) (fresh : list K -> A -> Prop) (P : A -> Prop) l i seen :
  (forall j s x, f j s x = Ok tt <-> fresh s x /\ P x) ->
  (each_seen key f l i seen = Ok tt <->
   Forall P l /\ forall pre x post, l = pre ++ x :: post -> fresh (rev (map key pre) ++ seen) x).
Proof.
  intros Hf. revert i seen. induction l as [|y l IH]; intros i seen; cbn [each_seen].
  { split; [|done]. intros _. split; [constructor|]. intros [|? ?] ? ? H; discriminate H. }
  rewrite then_Ok, Hf, IH, list.Forall_cons. split.
  - intros ([Hfr Hp] & Hl & Hrest). split; [done|]. intros [|z pre] x post [= -> Hx]; [exact Hfr|].
    specialize (Hrest pre x post Hx). cbn. by rewrite <- app_assoc.
  - intros ([Hp Hl] & Hrest). split; [split; [exact (Hrest [] y l eq_refl)|done]|]. split; [done|].
    intros pre x post ->. specialize (Hrest (y :: pre) x post eq_refl). cbn in Hrest. by rewrite <- app_assoc in Hrest.
Qed.

Lemma str_eqb_iff a b : str_eqb a b = true <-> a = b.
Proof. apply bool_decide_eq_true. Qed.

Lemma have_spec l s : have l s = true <-> s ∈ l.
Proof.
  unfold have. rewrite existsb_exists. split.
  - intros (x & Hx & E). apply list_elem_of_In in Hx. by apply str_eqb_iff in E as ->.
  - intros H. exists s. split; [by apply list_elem_of_In|]. by apply str_eqb_iff.
Qed.
Lemma have_false l s : have l s = false <-> s ∉ l.
Proof. rewrite <- have_spec. destruct (have l s); split; congruence. Qed.

(** No duplicates, as the loops over a map of seen keys find them. *)
Lemma NoDup_seen {A K} (key : A -> K) l :
  NoDup (map key l) <-> forall pre x post, l = pre ++ x :: post -> key x ∉ rev (map key pre) ++ [].
Proof.
  split.
  - intros H pre x post ->. rewrite app_nil_r, list_elem_of_In, <- in_rev, <- list_elem_of_In.
    rewrite map_app in H. apply list.NoDup_app in H. destruct H as (_ & H & _). intros Hk. apply (H _ Hk). left.
  - intros H. induction l as [|y l IH] using rev_ind; [constructor|]. rewrite map_app. apply list.NoDup_app. split_and!.
    + apply IH. intros pre x post ->. apply (H pre x (post ++ [y])). by rewrite <- app_assoc.
    + intros k Hk Hy. apply list_elem_of_singleton in Hy. subst k. apply (H l y [] eq_refl).
      by rewrite app_nil_r, list_elem_of_In, <- in_rev, <- list_elem_of_In.
    + apply NoDup_singleton.
Qed.

(** A boolean test as the proposition it decides. *)
Lemma and_false (a b : bool) : a && b = false <-> (a = true -> b = false).
Proof. destruct a, b; cbn; intuition congruence. Qed.
Lemma str_neq a b : str_eqb a b = false <-> a <> b.
Proof. rewrite <- str_eqb_iff. destruct (str_eqb a b); intuition congruence. Qed.
Lemma out_of_false lo hi x : out_of lo hi x = false <-> lo <= x <= hi.
Proof. unfold out_of. rewrite orb_false_iff, Z.ltb_ge, Z.gtb_ltb, Z.ltb_ge. lia. Qed.
Lemma gtb_false a b : (a >? b) = false <-> a <= b.
Proof. rewrite Z.gtb_ltb, Z.ltb_ge. lia. Qed.
Lemma gtb_true a b : (a >? b) = true <-> b < a.
Proof. rewrite Z.gtb_ltb, Z.ltb_lt. lia. Qed.
Create Rewrite HintDb refused.
#[export] Hint Rewrite @then_Ok @refuse_Ok orb_false_iff and_false orb_true_iff andb_true_iff negb_false_iff negb_true_iff str_neq str_eqb_iff
  out_of_false @len_zero Z.leb_gt Z.leb_le Z.ltb_ge Z.ltb_lt gtb_false gtb_true Z.eqb_eq Z.eqb_neq have_spec have_false
  @bool_decide_eq_true @bool_decide_eq_false : refused.

(** ** Listeners *)

Definition bind_ok (bind : string) : Prop := TrimSpace bind <> ""%string /\ exists host port, SplitHostPort bind = Some (host, port) /\ port <> ""%string.
Lemma validateBind_Ok bind path : validateBind bind path = Ok tt <-> bind_ok bind.
Proof.
  unfold validateBind, bind_ok. autorewrite with refused. destruct (SplitHostPort bind) as [[h p]|].
  - autorewrite with refused. naive_solver.
  - naive_solver.
Qed.
#[export] Hint Rewrite validateBind_Ok : refused.

(** A float that [<= 0] does not hold of: a positive one, or NaN. *)
Definition rate_ok (x : spec_float) : Prop := SFleb x (S754_zero false) = false.

(** The bounds a RADIUS/UDP listener shares with the RadSec one, and its own. *)
Definition udp_ok (l : RADIUSListener) (accounting : bool) : Prop :=
  bind_ok (rl_Bind l) /\ (rl_Transport l <> "" -> rl_Transport l = "udp")%string /\ 20 <= rl_MaxPacketBytes l <= 4096
  /\ 0 < rl_QueueCapacity l /\ 0 < rl_Workers l /\ 0 < rl_WorkerDeadline l
  /\ 0 < rl_RetransmissionCacheEntries l /\ 0 < rl_RetransmissionCacheBytes l
  /\ (if accounting then
         (0 < rl_RetransmissionTTL l <= 300 * second) /\ 0 < rl_JournalEntries l /\ 0 < rl_JournalBytes l
         /\ 0 <= rl_AmbiguousAccountingPerMinute l /\ 16 <= rl_SessionIndexEntries l <= 100000
         /\ 65536 <= rl_SessionIndexBytes l <= 67108864 /\ 60 * second <= rl_SessionTTL l <= 24 * 3600 * second
         /\ 500000000 <= rl_CoATimeout l <= 30 * second
       else
         5 * second <= rl_RetransmissionTTL l <= 30 * second
         /\ rl_MessageAuthenticator l ∈ [""; RADIUSMessageAuthenticatorRequired; RADIUSMessageAuthenticatorAllowMissing]%string
         /\ 5 * second <= rl_ChallengeTTL l <= 60 * second /\ 16 <= rl_ChallengeEntries l <= 65536
         /\ 65536 <= rl_ChallengeBytes l <= 8388608)
  /\ rate_ok (rl_PerSourceRate l) /\ 0 < rl_PerSourceBurst l.

Lemma validateRADIUSListener_Ok l path accounting : validateRADIUSListener l path accounting = Ok tt <-> udp_ok l accounting.
Proof. unfold validateRADIUSListener, udp_ok, rate_ok. cbv zeta. destruct accounting; autorewrite with refused; tauto. Qed.

Definition dynauth_ok (l : RADIUSListener) : Prop :=
  udp_ok l false /\ rl_MessageAuthenticator l ∈ [""; RADIUSMessageAuthenticatorRequired]%string.

(** A certificate name: no wildcard, or one whole leftmost label under
    [tacacs], over at least two more labels. *)
Definition server_name_ok (name : string) : Prop :=
  let labels := split_on "."%char (chars (TrimSpace (ToLower name))) in
  TrimSpace (ToLower name) <> ""%string
  /\ (ascii_in "*"%char (chars (TrimSpace (ToLower name))) = true ->
      exists l3 rest, labels = ["*"%char] :: chars "tacacs" :: l3 :: rest /\ rest <> []
        /\ Forall (fun l => l <> [] /\ ascii_in "*"%char l = false) (l3 :: rest)).

Lemma ValidateWildcardServerName_ok name : ValidateWildcardServerName name = None <-> server_name_ok name.
Proof.
  unfold ValidateWildcardServerName, server_name_ok. cbv zeta. set (n := TrimSpace (ToLower name)).
  destruct (str_eqb n "") eqn:En; [apply str_eqb_iff in En; naive_solver|]. apply str_neq in En.
  destruct (ascii_in "*"%char (chars n)) eqn:Es; cbn [negb]; [|naive_solver].
  destruct (Z.ltb_spec (len (split_on "."%char (chars n))) 4) as [Hl|Hl].
  { split; [done|]. intros [_ H]. destruct (H eq_refl) as (l3 & [|? ?] & E & Hr & _); [done|]. rewrite E in Hl. len_lia. }
  destruct (split_on "."%char (chars n)) as [|a [|b [|c rest]]]; [len_lia..|].
  destruct (bool_decide (a = _)) eqn:Ea; cbn [negb]; bool_hyps.
  2:{ split; [done|]. intros [_ H]. destruct (H eq_refl) as (? & ? & [= -> ?] & _). done. }
  cbn [tl]. destruct (existsb _ (b :: c :: rest)) eqn:Eb.
  { split; [done|]. intros [_ H]. destruct (H eq_refl) as (l3 & r & [= -> -> -> ->] & _ & Hf). exfalso.
    apply existsb_exists in Eb as (x & Hx & Hb). cbn [In] in Hx. destruct Hx as [<-|Hx]; [by vm_compute in Hb|].
    rewrite list.Forall_forall in Hf. destruct (Hf x) as [Hne Ha]; [by apply list_elem_of_In|].
    rewrite Ha, orb_false_r in Hb. bool_hyps. done. }
  destruct (bool_decide (b = _)) eqn:Et; cbn [negb]; bool_hyps.
  2:{ split; [done|]. intros [_ H]. destruct (H eq_refl) as (? & ? & [= ? -> ? ?] & _). done. }
  split; [|done]. intros _. split; [done|]. intros _. exists c, rest. subst. split; [done|]. split; [intros ->; len_lia|].
  apply list.Forall_forall. intros x Hx%list_elem_of_In. apply not_true_iff_false in Eb.
  split; [intros ->|apply not_true_iff_false; intros Hs]; apply Eb, existsb_exists; [exists []|exists x]; (split; [by right|]).
  - done.
  - by rewrite Hs, orb_true_r.
Qed.

Definition tls_ok (t : SecureTLS) : Prop :=
  tl_Profiles t <> [] /\ (tl_DefaultID t <> ""%string -> tl_DefaultID t ∈ map tp_ID (tl_Profiles t))
  /\ Forall (fun p => tp_CertificateChain p <> ""%string /\ Set_ (tp_PrivateKey p) = true) (tl_Profiles t)
  /\ tl_ClientCABundle t <> ""%string /\ (tl_RevocationMode t = "configured_crl" -> tl_CRLBundle t <> "")%string
  /\ tl_RejectEarlyData t = true /\ tl_RecheckClientRevocation t = true
  /\ (tl_ResumptionEnabled t = true /\ tl_TicketLifetime t <> 0 -> tl_TicketLifetime t = TLSTicketLifetimeEnforced)
  /\ Forall (fun p => Forall server_name_ok (tp_ServerNames p)) (tl_Profiles t).

Lemma validateSecureTLS_Ok t path noun : validateSecureTLS t path noun = Ok tt <-> tls_ok t.
Proof.
  unfold validateSecureTLS, tls_ok. cbv zeta. autorewrite with refused.
  rewrite (each_Ok (validateProfile path) (fun p => tp_CertificateChain p <> ""%string /\ Set_ (tp_PrivateKey p) = true)),
    (each_Ok (validateServerNames path) (fun p => Forall server_name_ok (tp_ServerNames p))); [reflexivity|..].
  - intros j p. unfold validateServerNames. apply each_Ok. intros k x.
    rewrite <- ValidateWildcardServerName_ok. destruct (ValidateWildcardServerName x); [|done]. split; discriminate.
  - intros j p. unfold validateProfile. cbv zeta. by autorewrite with refused.
Qed.

Definition radsec_ok (l : RADIUSRadSecListener) : Prop :=
  bind_ok (rs_Bind l) /\ (rs_Transport l <> "" -> rs_Transport l = EndpointTransportTLS)%string /\ 20 <= rs_MaxPacketBytes l <= 4096
  /\ 0 < rs_MaxConnections l /\ 0 < rs_IdleTimeout l /\ 0 < rs_HandshakeTimeout l
  /\ 0 < rs_RetransmissionCacheEntries l /\ 0 < rs_RetransmissionCacheBytes l /\ 5 * second <= rs_RetransmissionTTL l <= 30 * second
  /\ (rs_Enabled l = true -> tls_ok (rs_TLS l)).
Lemma validateRADIUSRadSecListener_Ok l path : validateRADIUSRadSecListener l path = Ok tt <-> radsec_ok l.
Proof.
  unfold validateRADIUSRadSecListener, radsec_ok. cbv zeta. autorewrite with refused.
  destruct (rs_Enabled l); cbn [negb]; [rewrite validateSecureTLS_Ok|]; intuition congruence.
Qed.

Definition clash_free (a b : RADIUSListener) : Prop := rl_Enabled a = true -> rl_Enabled b = true -> rl_Bind a <> rl_Bind b.
Record listeners_ok (l : Listeners) : Prop := {
  lk_http : li_HTTPTLSEnabled l = false;
  lk_binds : bind_ok (nl_Bind (li_LegacyTACACS l)) /\ bind_ok (nl_Bind (li_SecureTACACS l)) /\ bind_ok (li_HTTPBind l);
  lk_access : udp_ok (li_RADIUSAccess l) false;
  lk_accounting : udp_ok (li_RADIUSAccounting l) true;
  lk_radsec : radsec_ok (li_RADIUSRadSec l);
  lk_dynauth : dynauth_ok (li_RADIUSDynAuth l);
  lk_distinct : clash_free (li_RADIUSAccess l) (li_RADIUSAccounting l) /\ clash_free (li_RADIUSAccess l) (li_RADIUSDynAuth l)
                /\ clash_free (li_RADIUSAccounting l) (li_RADIUSDynAuth l);
  lk_tacacs : nl_Enabled (li_LegacyTACACS l) = true -> nl_Enabled (li_SecureTACACS l) = true ->
              nl_Bind (li_LegacyTACACS l) <> nl_Bind (li_SecureTACACS l);
  lk_secure : nl_Enabled (li_SecureTACACS l) = true -> tls_ok (li_SecureTLS l);
}.

Lemma validateListeners_Ok l paths : validateListeners l paths = Ok tt <-> listeners_ok l.
Proof.
  unfold validateListeners, validateRADIUSDynAuth, validateDistinctRADIUSBinds. cbv zeta. autorewrite with refused.
  rewrite !validateRADIUSListener_Ok, validateRADIUSRadSecListener_Ok.
  assert ((if nl_Enabled (li_SecureTACACS l) then validateSecureTLS (li_SecureTLS l) (cat (yp_Secure paths) ".tls") "secure TACACS" else Ok tt) = Ok tt
          <-> (nl_Enabled (li_SecureTACACS l) = true -> tls_ok (li_SecureTLS l))) as ->.
  { destruct (nl_Enabled _); [rewrite validateSecureTLS_Ok|]; intuition congruence. }
  split.
  - intros H. split; unfold dynauth_ok, clash_free; tauto.
  - intros []. unfold dynauth_ok, clash_free in *. tauto.
Qed.

(** ** Limits and tokens *)

Definition within_cap (cap n : Z) : Prop := 0 < cap -> n <= cap.
Lemma over_false cap n : over cap n = false <-> within_cap cap n.
Proof. unfold over, within_cap. rewrite and_false, gtb_true, gtb_false. done. Qed.

Record limits_ok (d : Document) : Prop := {
  lo_users : within_cap (mo_Users (rt_MaxObjects (dc_Runtime d))) (len (dc_Users d));
  lo_groups : within_cap (mo_Groups (rt_MaxObjects (dc_Runtime d))) (len (dc_Groups d));
  lo_clients : within_cap (mo_Clients (rt_MaxObjects (dc_Runtime d))) (len (dc_Clients d));
  lo_tokens : within_cap (mo_APITokens (rt_MaxObjects (dc_Runtime d))) (len (dc_BootstrapTokens d));
}.
Lemma validateLimits_Ok d : validateLimits d = Ok tt <-> limits_ok d.
Proof.
  unfold validateLimits. cbv zeta. autorewrite with refused. rewrite !over_false.
  split; [intros (? & ? & ? & ?); by split|intros []; by split_and!].
Qed.

(** A list whose elements are well formed and named once. *)
Definition unique {A K} (key : A -> K) (P : A -> Prop) (l : list A) : Prop := Forall P l /\ NoDup (map key l).

Lemma each_seen_unique {E A} (key : A -> string) (f : Z -> list string -> A -> result E unit) (P : A -> Prop) l :
  (forall j s x, f j s x = Ok tt <-> (key x ∉ s) /\ P x) -> (each_seen key f l 0 [] = Ok tt <-> unique key P l).
Proof. intros Hf. unfold unique. rewrite (each_seen_Ok key f (fun s x => key x ∉ s) P), NoDup_seen; done. Qed.

Definition bootstrap_ok (t : BootstrapToken) : Prop :=
  bt_ID t <> ""%string /\ Set_ (bt_Token t) = true /\ bt_Scopes t <> [] /\ Forall (fun s => s ∈ knownScopes) (bt_Scopes t).
Lemma validateBootstrapTokens_Ok l : validateBootstrapTokens l = Ok tt <-> unique bt_ID bootstrap_ok l.
Proof.
  apply each_seen_unique. intros j s t. unfold validateBootstrapToken, bootstrap_ok. cbv zeta. autorewrite with refused.
  rewrite (each_Ok _ (fun s => s ∈ knownScopes)); [tauto|]. intros. unfold ValidScope. by autorewrite with refused.
Qed.

Section Spec.
Context (regexp_Compile : string -> option (string -> bool)).

(** ** Rules, groups, clients, users *)

Definition pattern_ok (m : StringMatch) : Prop := sm_Pattern m <> ""%string -> regexp_Compile (sm_Pattern m) <> None.
Definition rules_ok (l : list CommandRule) : Prop :=
  unique cr_Priority (fun r => pattern_ok (Policy.cr_Command r) /\ pattern_ok (Policy.cr_Arguments r)) l.

Lemma validateStringMatch_Ok m path : validateStringMatch regexp_Compile m path = Ok tt <-> pattern_ok m.
Proof. unfold validateStringMatch, pattern_ok. by autorewrite with refused. Qed.

Lemma find_priority seen p :
  find (fun q : Z * string => q.1 =? p) seen = None <-> p ∉ map fst seen.
Proof.
  split.
  - intros H Hp. apply list_elem_of_In, in_map_iff in Hp as (q & <- & Hq). apply (find_none _ _ H) in Hq. by rewrite Z.eqb_refl in Hq.
  - intros H. destruct (find _ seen) as [q|] eqn:E; [|done]. apply find_some in E as [Hq He]. apply Z.eqb_eq in He as <-.
    destruct H. by apply list_elem_of_In, in_map.
Qed.

Lemma fst_seen {A K V} (k : A -> K) (v : A -> V) l : map fst (rev (map (fun x => (k x, v x)) l) ++ []) = rev (map k l) ++ [].
Proof. by rewrite !app_nil_r, map_rev, map_map. Qed.

Lemma validateRuleSet_Ok l path : validateRuleSet regexp_Compile l path = Ok tt <-> rules_ok l.
Proof.
  unfold validateRuleSet, rules_ok, unique. set (P := fun r => pattern_ok (Policy.cr_Command r) /\ _).
  rewrite (each_seen_Ok _ _ (fun seen r => cr_Priority r ∉ map fst seen) P), NoDup_seen.
  - split; intros [? H]; (split; [done|]); intros pre x post E; specialize (H pre x post E).
    + by rewrite fst_seen in H.
    + by rewrite fst_seen.
  - intros j seen r. unfold validateCommandRule, P. cbv zeta. rewrite <- find_priority.
    destruct (find _ seen) as [[? ?]|]; [split; [discriminate|intros [? ?]; discriminate]|].
    rewrite then_Ok, !validateStringMatch_Ok. tauto.
Qed.

Definition group_ok (g : Group) : Prop :=
  (gr_DefaultCommandAction g = DecisionOther "" \/ gr_DefaultCommandAction g = DecisionDeny) /\ rules_ok (gr_CommandRules g).

Definition radius_secret_ok (ep : ClientEndpoint) : Prop := exists r, ep_RADIUS ep = Some r /\ Set_ (re_SharedSecret r) = true.

(** A client, its endpoints rebuilt where it has no RADIUS endpoint. *)
Record client_ok (groups : list string) (c : Client) : Prop := {
  co_projection : hasRADIUSEndpoint c = true -> TACACSProjectionMatches c = true;
  co_transport : cm_Transports (cl_Match c) = [] -> hasRADIUSEndpoint c = true;
  co_legacy : hasTransport (cm_Transports (cl_Match c)) TransportLegacy = true -> Set_ (cy_SharedSecret (cl_Legacy c)) = true;
  co_certificate : cm_Mode (cl_Match c) = MatchCertificateOnly -> hasTACACSTLSEndpoint c = false -> ConfigModel.hasRADIUSTLSEndpoint c = true;
  co_secrets : Forall radius_secret_ok (radiusEndpoints c);
  co_udp : is_Some (radiusEndpoint c EndpointTransportUDP) -> cm_SourceCIDRs (cl_Match c) <> [];
  co_tls : is_Some (radiusEndpoint c EndpointTransportTLS) -> cm_Mode (cl_Match c) <> MatchCertificateOnly -> cm_SourceCIDRs (cl_Match c) <> [];
  co_sans : Forall (fun s => ParseIP s <> None) (ct_IPSANs (cm_Certificate (cl_Match c)));
  co_groups : Forall (fun id => id ∈ groups) (elems (cl_DefaultGroupIDs c));
}.

Record user_ok (groups clients : list string) (u : User) : Prop := {
  uo_groups : Forall (fun id => id ∈ groups) (us_GroupIDs u);
  uo_clients : Forall (fun id => id ∈ clients) (ur_ClientIDs (us_Restrictions u));
  uo_window : forall a b, ur_ValidAfter (us_Restrictions u) = Some a -> ur_ValidBefore (us_Restrictions u) = Some b -> a <= b;
  uo_login : us_MustChangeLogin u = true -> Set_ (uc_Login (us_Credentials u)) = true;
  uo_enable : us_MustChangeEnable u = true -> Set_ (uc_Enable (us_Credentials u)) = true;
  uo_rules : rules_ok (CommandRules (us_Rules u));
}.

(** [each] of a membership test. *)
Lemma each_have {E} (ids l : list string) (e : Z -> string -> E) : each (fun i id => refuse (negb (have ids id)) (e i id)) l 0 = Ok tt <-> Forall (fun id => id ∈ ids) l.
Proof. apply each_Ok. intros. by autorewrite with refused. Qed.

Lemma validateClient_Ok groups path c : validateClient groups path c = Ok tt <-> client_ok groups c.
Proof.
  unfold validateClient. cbv zeta. rewrite !then_Ok, !refuse_Ok, each_have.
  rewrite (each_Ok _ radius_secret_ok).
  2:{ intros j ep. unfold radius_secret_ok. destruct (ep_RADIUS ep) as [r|]; [rewrite refuse_Ok, negb_false_iff|]; naive_solver. }
  rewrite (each_Ok _ (fun s => ParseIP s <> None)); [|intros; by autorewrite with refused].
  autorewrite with refused. split.
  - intros (H1 & H2 & H3 & H4 & H5 & H6 & H7 & H8 & H9). split; try tauto.
    intros Ht. apply H2. by rewrite Ht.
  - intros []. split_and!; try tauto. intros Hl. apply co_transport0. destruct (cm_Transports _); [done|]. len_lia.
Qed.

Lemma validateUser_Ok groups clients path u : validateUser regexp_Compile groups clients path u = Ok tt <-> user_ok groups clients u.
Proof.
  unfold validateUser. rewrite !then_Ok, !refuse_Ok, !each_have, validateRuleSet_Ok, !and_false, !negb_false_iff.
  split.
  - intros (? & ? & H & ? & ? & ?). split; try done. intros a b Ha Hb. rewrite Ha, Hb in H. by apply gtb_false.
  - intros []. split_and!; try done. destruct (ur_ValidAfter _) as [a|], (ur_ValidBefore _) as [b|]; try done. by apply gtb_false, uo_window0.
Qed.

Lemma validateGroups_Ok l : each_seen gr_ID (validateGroup regexp_Compile) l 0 [] = Ok tt <-> unique gr_ID group_ok l.
Proof.
  apply each_seen_unique. intros j s g. unfold validateGroup, group_ok. rewrite !then_Ok, !refuse_Ok, validateRuleSet_Ok, have_false, and_false.
  autorewrite with refused. destruct (decide (gr_DefaultCommandAction g = DecisionOther "")); tauto.
Qed.
Lemma validateClients_Ok groups l :
  each_seen cl_ID (validateClientAt groups) l 0 [] = Ok tt <-> unique cl_ID (fun c => client_ok groups (resynthesize c)) l.
Proof. apply each_seen_unique. intros j s c. unfold validateClientAt. by rewrite then_Ok, refuse_Ok, have_false, validateClient_Ok. Qed.
Lemma validateUsers_Ok groups clients l :
  each_seen us_ID (validateUserAt regexp_Compile groups clients) l 0 [] = Ok tt <-> unique us_ID (user_ok groups clients) l.
Proof. apply each_seen_unique. intros j s u. unfold validateUserAt. by rewrite then_Ok, refuse_Ok, have_false, validateUser_Ok. Qed.

(** ** RADIUS policies and dictionaries *)

Record rule_ok (groups : list string) (r : RADIUSRule) : Prop := {
  rk_id : rr_ID r <> ""%string;
  rk_effect : rr_Effect r = EffectPermit \/ rr_Effect r = EffectDeny;
  rk_method : forall m, rm_Method (rr_Match r) = Some m -> AuthMethod_Valid m = true;
  rk_groups : Forall (fun g => g <> ""%string /\ g ∈ groups) (rm_GroupsAny (rr_Match r));
  rk_ops : Forall (fun a => am_Op a ∈ [RADIUSMatchOpEquals; RADIUSMatchOpPresent; RADIUSMatchOpAbsent]) (rm_Attributes (rr_Match r));
}.
Definition policy_ok (groups : list string) (p : RADIUSPolicy) : Prop := rp_ID p <> ""%string /\ unique rr_ID (rule_ok groups) (rp_Rules p).

Lemma validateRADIUSRules_Ok groups p l : each_seen rr_ID (validateRADIUSRule groups p) l 0 [] = Ok tt <-> unique rr_ID (rule_ok groups) l.
Proof.
  apply each_seen_unique. intros j s r. unfold validateRADIUSRule. cbv zeta. rewrite !then_Ok, !refuse_Ok.
  rewrite (each_Ok _ (fun g => g <> ""%string /\ g ∈ groups)); [|intros; by autorewrite with refused].
  rewrite (each_Ok _ (fun a => am_Op a ∈ [RADIUSMatchOpEquals; RADIUSMatchOpPresent; RADIUSMatchOpAbsent]));
    [|intros; by autorewrite with refused].
  rewrite str_neq, have_false, and_false, negb_false_iff, negb_true_iff, str_neq, str_eqb_iff. split.
  - intros (? & ? & He & Hm & ? & ?). split; [done|]. split; [done|..]; [|by intros m E; rewrite E in Hm; apply negb_false_iff|done|done].
    destruct (decide (rr_Effect r = EffectPermit)); tauto.
  - intros [? []]. split_and!; try done; [|destruct (rm_Method _); [by apply negb_false_iff, rk_method0|done]].
    intros Hn. by destruct rk_effect0.
Qed.

(** A reference that is absent or names one of the ids. *)
Definition refers (ids : list string) (id : string) : Prop := id <> ""%string -> id ∈ ids.
Lemma dangling_false ids id : dangling ids id = false <-> refers ids id.
Proof. unfold dangling, refers. by autorewrite with refused. Qed.

Record references_ok (d : Document) (clients : list Client) (groups : list string) : Prop := {
  ro_policies : unique rp_ID (policy_ok groups) (dc_RADIUSPolicies d);
  ro_profiles : unique pr_ID (fun p => pr_ID p <> ""%string) (dc_RADIUSReplyProfiles d);
  ro_fallback : refers (map rp_ID (dc_RADIUSPolicies d)) (dc_FallbackRADIUSPolicyID d);
  ro_users : Forall (fun u => refers (map rp_ID (dc_RADIUSPolicies d)) (us_RADIUSPolicyID u)) (dc_Users d);
  ro_groups : Forall (fun g => refers (map rp_ID (dc_RADIUSPolicies d)) (gr_RADIUSPolicyID g)) (dc_Groups d);
  ro_clients : Forall (fun c => Forall (fun ep => forall r, ep_RADIUS ep = Some r -> refers (map rp_ID (dc_RADIUSPolicies d)) (re_AccessPolicyID r))
                                  (radiusEndpoints c)) clients;
  ro_replies : Forall (fun p => Forall (fun r => Forall (fun id => id <> ""%string /\ id ∈ map pr_ID (dc_RADIUSReplyProfiles d)) (rr_ReplyProfiles r))
                                  (rp_Rules p)) (dc_RADIUSPolicies d);
}.

Lemma validateRADIUSPolicyRefs_Ok d clients groups : validateRADIUSPolicyRefs d clients groups = Ok tt <-> references_ok d clients groups.
Proof.
  unfold validateRADIUSPolicyRefs. cbv zeta. rewrite !then_Ok, refuse_Ok, dangling_false.
  rewrite (each_seen_unique rp_ID _ (policy_ok groups)).
  2:{ intros j s p. unfold validateRADIUSPolicy, policy_ok. rewrite !then_Ok, !refuse_Ok, str_neq, have_false, validateRADIUSRules_Ok. tauto. }
  rewrite (each_seen_unique pr_ID _ (fun p => pr_ID p <> ""%string)).
  2:{ intros j s p. unfold validateReplyProfile. rewrite !then_Ok, !refuse_Ok, str_neq, have_false. tauto. }
  rewrite (each_Ok _ (fun u => refers (map rp_ID (dc_RADIUSPolicies d)) (us_RADIUSPolicyID u))); [|intros; by rewrite refuse_Ok, dangling_false].
  rewrite (each_Ok _ (fun g => refers (map rp_ID (dc_RADIUSPolicies d)) (gr_RADIUSPolicyID g))); [|intros; by rewrite refuse_Ok, dangling_false].
  rewrite (each_Ok _ (fun c => Forall (fun ep => forall r, ep_RADIUS ep = Some r -> refers (map rp_ID (dc_RADIUSPolicies d)) (re_AccessPolicyID r))
                                  (radiusEndpoints c))).
  2:{ intros j c. apply each_Ok. intros k ep. rewrite refuse_Ok. destruct (ep_RADIUS ep) as [r|]; [rewrite dangling_false|]; naive_solver. }
  rewrite (each_Ok _ (fun p => Forall (fun r => Forall (fun id => id <> ""%string /\ id ∈ map pr_ID (dc_RADIUSReplyProfiles d)) (rr_ReplyProfiles r))
                                  (rp_Rules p))).
  2:{ intros j p. apply each_Ok. intros k r. cbv zeta. apply each_Ok. intros. by autorewrite with refused. }
  split; [intros (? & ? & ? & ? & ? & ? & ?); by split|intros []; by split_and!].
Qed.

Definition dictionary_ok (x : RADIUSDictionary) : Prop :=
  TrimSpace (rd_ID x) <> ""%string /\ rd_File x <> ""%string /\ Contains (rd_File x) "$INCLUDE" = false /\ Contains (rd_File x) "://" = false
  /\ HasPrefix (ToLower (rd_File x)) "http:" = false /\ HasPrefix (ToLower (rd_File x)) "https:" = false
  /\ HasPrefix (ToLower (rd_File x)) "s3:" = false /\ HasPrefix (rd_File x) "/" = true.
Lemma validateRADIUSDictionaries_Ok l : validateRADIUSDictionaries l = Ok tt <-> len l <= MaxOperatorDictionaryFiles /\ unique rd_ID dictionary_ok l.
Proof.
  unfold validateRADIUSDictionaries. rewrite then_Ok, refuse_Ok, gtb_false.
  rewrite (each_seen_unique rd_ID _ dictionary_ok); [done|]. intros j s x. unfold validateRADIUSDictionary, validateRADIUSDictionaryPath, dictionary_ok.
  cbv zeta. autorewrite with refused. tauto.
Qed.

(** ** The document *)

Definition rebuilt (d : Document) : Document := with_clients d (map resynthesize (dc_Clients d)).

(** The clients can be told apart: the six indexes compile. *)
Definition distinguishable (clients : list Client) : Prop :=
  let cs := map match_client clients in
  is_ok (CompileClientIndex cs) = true
  /\ Forall (fun role => is_ok (CompileRADIUSIndex cs role CarrierRADIUSUDP) = true) [RoleAccess; RoleAccounting; RoleDynamicAuthorization]
  /\ Forall (fun role => is_ok (CompileRADIUSCertIndex cs role) = true) [RoleAccess; RoleAccounting].
Lemma check_indexes_Ok clients : check_indexes clients = Ok tt <-> distinguishable clients.
Proof.
  unfold check_indexes, distinguishable. cbv zeta. rewrite !list.Forall_cons. set (cs := map match_client clients).
  destruct (CompileClientIndex cs); [|split; [discriminate|intros (? & _); discriminate]]. cbn [lift_match rbind is_ok].
  destruct (CompileRADIUSIndex cs RoleAccess _); [|split; [discriminate|cbn; intuition discriminate]]. cbn [lift_match rbind is_ok].
  destruct (CompileRADIUSIndex cs RoleAccounting _); [|split; [discriminate|cbn; intuition discriminate]]. cbn [lift_match rbind is_ok].
  destruct (CompileRADIUSIndex cs RoleDynamicAuthorization _); [|split; [discriminate|cbn; intuition discriminate]]. cbn [lift_match rbind is_ok].
  destruct (CompileRADIUSCertIndex cs RoleAccess); [|split; [discriminate|cbn; intuition discriminate]]. cbn [lift_match rbind is_ok].
  destruct (CompileRADIUSCertIndex cs RoleAccounting); [|split; [discriminate|cbn; intuition discriminate]]. cbn [lift_match rbind is_ok].
  by intuition constructor.
Qed.

Record document_ok (d : Document) : Prop := {
  do_limits : limits_ok d;
  do_listeners : listeners_ok (dc_Listeners d);
  do_tokens : unique bt_ID bootstrap_ok (dc_BootstrapTokens d);
  do_groups : unique gr_ID group_ok (dc_Groups d);
  do_clients : unique cl_ID (fun c => client_ok (map gr_ID (dc_Groups d)) (resynthesize c)) (dc_Clients d);
  do_users : unique us_ID (user_ok (map gr_ID (dc_Groups d)) (map cl_ID (dc_Clients d))) (dc_Users d);
  do_fallback : rules_ok (CommandRules (dc_FallbackRules d));
  do_references : references_ok d (dc_Clients (rebuilt d)) (map gr_ID (dc_Groups d));
  do_dictionaries : len (dc_RADIUSDictionaries d) <= MaxOperatorDictionaryFiles /\ unique rd_ID dictionary_ok (dc_RADIUSDictionaries d);
  do_indexes : distinguishable (dc_Clients (rebuilt d));
}.

Lemma validate_iff d out : Validate regexp_Compile d = Ok out <-> document_ok d /\ out = rebuilt d.
Proof.
  unfold Validate, validateDocument. cbv zeta. fold (rebuilt d).
  rewrite !then_Ok, validateLimits_Ok, validateListeners_Ok, validateBootstrapTokens_Ok, validateGroups_Ok, validateClients_Ok, validateUsers_Ok,
    validateRuleSet_Ok, validateRADIUSPolicyRefs_Ok, validateRADIUSDictionaries_Ok, check_indexes_Ok.
  split.
  - intros (? & ? & ? & ? & ? & ? & ? & ? & ? & ? & [= <-]). by split; [split|].
  - intros [[] ->]. tauto.
Qed.

(** Rebuilding a client's endpoints twice is rebuilding them once. *)
Lemma resynthesize_idem c : resynthesize (resynthesize c) = resynthesize c.
Proof.
  unfold resynthesize. destruct (hasRADIUSEndpoint c) eqn:E; cbn [negb]; [by rewrite E|]. by destruct (hasRADIUSEndpoint (with_endpoints _ _)).
Qed.
Lemma rebuilt_idem d : rebuilt (rebuilt d) = rebuilt d.
Proof. unfold rebuilt. cbn. f_equal. rewrite map_map. apply map_ext. exact resynthesize_idem. Qed.

Lemma document_ok_rebuilt d : document_ok d -> document_ok (rebuilt d).
Proof.
  intros H. destruct H as [? ? ? ? Hc Hu ? ? ? ?]. assert (map cl_ID (dc_Clients (rebuilt d)) = map cl_ID (dc_Clients d)) as Hids.
  { cbn. rewrite map_map. apply map_ext. intros c. unfold resynthesize. by destruct (negb _). }
  split; rewrite ?rebuilt_idem, ?Hids; try done.
  - destruct do_limits0. split; try done. cbn. unfold within_cap, len in *. by rewrite length_map.
  - destruct Hc as [Hc Hn]. split; [|by rewrite Hids]. cbn. apply list.Forall_forall. intros c Hin. apply list_elem_of_In, in_map_iff in Hin as (c0 & <- & Hin).
    rewrite resynthesize_idem. rewrite list.Forall_forall in Hc. by apply Hc, list_elem_of_In.
  - destruct do_references0. by split.
Qed.

End Spec.

(** ** A small configuration *)

Definition lab_secret (file : string) : SecretRef := mkSecretRef "" file "" false "".
Definition lab_udp (bind : string) : RADIUSListener :=
  mkRADIUSListener false bind "udp" 4096 64 4 second 1024 1048576 (10 * second) 1024 1048576 (S754_finite false 1 6) 64 10
    RADIUSMessageAuthenticatorRequired (30 * second) 1024 1048576 1024 1048576 (3600 * second) (2 * second).
Definition lab_listeners : Listeners :=
  let tls := mkSecureTLS "" [] "" "" "" false 0 false false in
  mkListeners (mkTACACSListener true ":49") (mkTACACSListener false ":300") tls ":8080" false (lab_udp ":1812") (lab_udp ":1813")
    (mkRadSecListener false ":2083" "tls" 4096 64 second second 1024 1048576 (10 * second) tls) (lab_udp ":3799").
Definition lab_client : Client :=
  mkClient "router" "" 10 true ∅ (mkMatching ["192.0.2.0/24"] [TransportLegacy] MatchAddressAndCertificate (mkCertMatch [] []))
    (mkLegacy (lab_secret "/run/tacacs") (mkLifecycle None 0)) (mkAuth ["ascii"] 1) None (mkAcct true true true true) [].
Definition lab_group : Group := mkGroup "ops" "" 0 true ∅ [] [] DecisionDeny "".
Definition lab_user : User :=
  mkUser "alice" "" true ∅ ["ops"] (mkRules [] []) (mkCredentials (lab_secret "/run/alice") (lab_secret "") (lab_secret ""))
    (mkRestrictions [] None None) false false "".
Definition lab_token : BootstrapToken := mkBootstrapToken "admin" (lab_secret "/run/token") ["state:write"] None.
Definition lab_document : Document :=
  let policy := mkSecretPolicy 0 0 false false 0 0 in
  mkDocument 1 (mkRuntime true "rebase" (mkMaxObjects 0 0 0 0)) (mkSecurity policy policy) lab_listeners [lab_token] (Policy.mkLimits 0 0 0 0)
    [lab_client] [lab_group] [lab_user] (mkRules [] []) [] [] "" [].

Example lab_document_valid : is_ok (Validate (fun _ => None) lab_document) = true.
Proof. vm_compute. reflexivity. Qed.

