(* ===== verification/SecretSpec.v ===== *)
(** * What the shared-secret policy accepts

    [EvaluateSecrets] succeeds exactly when every configured shared secret can
    be read and is strong enough for its policy ([secrets_ok]): the legacy
    secrets under one policy, those of the RADIUS endpoints under the other.
    Rotation and reuse only warn. *)

From stdpp Require Import gmap strings.
From S2P Require Import Prelude Text Sha1Des Credentials RadiusPolicy ConfigModel ConfigValidate ConfigSpec ConfigSecrets.

#[local] Open Scope Z_scope.

(** A rune takes one octet at least, so one unit of fuel per octet suffices. *)
Lemma decode_rune_rest b s : (length (decode_rune b s).2 <= length s)%nat.
Proof. unfold decode_rune. repeat case_match; cbn; lia. Qed.

(** A result that is no error. *)
Definition succeeds {E A} (r : result E A) : Prop := exists a, r = Ok a.
Lemma succeeds_Ok {E A} (a : A) : succeeds (E := E) (Ok a).
Proof. by eexists. Qed.
Lemma succeeds_bind {E A B} (r : result E A) (k : A -> result E B) (P : Prop) :
  (forall a, succeeds (k a) <-> P) -> succeeds (rbind r k) <-> succeeds r /\ P.
Proof.
  intros Hk. split.
  - intros (b & (a & -> & Ha)%rbind_Ok). split; [by eexists|]. apply (Hk a). by eexists.
  - intros [[a ->] HP]. by apply Hk.
Qed.

Section Secrets.
Variables IsLower IsUpper IsDigit : Z -> bool.
Notation characterClasses := (characterClasses IsLower IsUpper IsDigit).
Notation classes_fuel := (classes_fuel IsLower IsUpper IsDigit).

Lemma classes_fuel_enough n b : (length b <= n)%nat -> classes_fuel n b = classes_fuel (length b) b.
Proof.
  revert b. induction n as [n IH] using lt_wf_ind. intros [|b0 b] Hn; [by destruct n|]. destruct n as [|n]; [cbn in Hn; lia|].
  cbn in *. pose proof (decode_rune_rest b0 b) as Hr. destruct (decode_rune b0 b) as [r rest]. cbn in Hr. f_equal.
  rewrite (IH n) by lia. destruct (decide (length b = n)) as [->|]; [symmetry; apply IH; lia|symmetry; apply IH; lia].
Qed.

(** ** Strength *)

Record strong (p : SharedSecretPolicy) (raw : bytes) : Prop := {
  st_long : 0 < sp_MinimumLengthCharacters p -> sp_MinimumLengthCharacters p <= len raw;
  st_mixed : 0 < sp_MinimumCharacterClasses p -> sp_MinimumCharacterClasses p <= characterClasses raw;
  st_uncommon : sp_RejectKnownWeakValues p = true -> isKnownWeakSecret raw = false;
}.

Lemma strong_iff p raw path noun :
  checkSharedSecretBytes IsLower IsUpper IsDigit p raw path noun = Ok tt <-> strong p raw.
Proof.
  unfold checkSharedSecretBytes, refuse. split.
  - intros E. split; intros; repeat case_match; try done; lia || (destruct (isKnownWeakSecret raw); [|done]); by rewrite H in *.
  - intros [H1 H2 H3].
    assert ((sp_MinimumLengthCharacters p >? 0) && (len raw <? sp_MinimumLengthCharacters p) = false) as -> by lia.
    assert ((sp_MinimumCharacterClasses p >? 0) && (characterClasses raw <? sp_MinimumCharacterClasses p) = false) as -> by lia.
    destruct (sp_RejectKnownWeakValues p); cbn; [by rewrite H3|done].
Qed.

(** ** Every secret of the clients *)

Definition secret_ok (lookup : SecretLookup) (p : SharedSecretPolicy) (ref : SecretRef) : Prop :=
  Set_ ref = true -> exists raw, lookup ref = Ok raw /\ strong p raw.
Definition endpoint_secret_ok (lookup : SecretLookup) (sec : Security) (ep : ClientEndpoint) : Prop :=
  forall r, ep_RADIUS ep = Some r -> secret_ok lookup (sc_RADIUSSharedSecrets sec) (re_SharedSecret r).
Definition client_secrets_ok (lookup : SecretLookup) (sec : Security) (c : Client) : Prop :=
  secret_ok lookup (sc_LegacySharedSecrets sec) (cy_SharedSecret (cl_Legacy c)) /\ Forall (endpoint_secret_ok lookup sec) (cl_Endpoints c).
Definition secrets_ok (lookup : SecretLookup) (d : Document) : Prop := Forall (client_secrets_ok lookup (dc_Security d)) (dc_Clients d).

Lemma evaluate_one_iff reuse lookup p now noun ref life path id tracked ev :
  succeeds (evaluate_one IsLower IsUpper IsDigit reuse lookup p now noun ref life path id tracked ev)
  <-> exists raw, lookup ref = Ok raw /\ strong p raw.
Proof.
  unfold evaluate_one. destruct (lookup ref) as [raw|e]; [|split; [by intros [? [=]]|by intros (? & [=] & _)]].
  split.
  - intros [ev' E]. apply then_Ok in E as [E _]. exists raw. split; [done|]. by eapply strong_iff.
  - intros (? & [= <-] & Hs). apply (strong_iff _ _ path noun) in Hs. rewrite Hs. cbn. by eexists.
Qed.

Lemma evaluate_endpoints_iff reuse lookup p now i cid l j ev :
  succeeds (evaluate_endpoints IsLower IsUpper IsDigit reuse lookup p now i cid l j ev)
  <-> Forall (fun ep => forall r, ep_RADIUS ep = Some r -> secret_ok lookup p (re_SharedSecret r)) l.
Proof.
  revert j ev. induction l as [|ep l IH]; intros j ev; cbn; [split; [constructor|intros; apply succeeds_Ok]|].
  rewrite list.Forall_cons. destruct (ep_RADIUS ep) as [r|] eqn:Er.
  - destruct (Set_ (re_SharedSecret r)) eqn:Es; cbn.
    + rewrite (succeeds_bind _ _ _ (fun a => IH _ a)), (evaluate_one_iff _ _ _ _ _ _ _ _ _ _ _). unfold secret_ok.
      split; intros [H Hl]; (split; [|done]); [by intros ? [= <-] _|by apply H].
    + rewrite IH. split; [intros H; split; [|done]|by intros []]. intros ? [= <-] E. by rewrite E in Es.
  - rewrite IH. split; [intros H; split; [|done]|by intros []]. by intros ? [=].
Qed.

Lemma evaluate_clients_iff reuse lookup sec now l i ev :
  succeeds (evaluate_clients IsLower IsUpper IsDigit reuse lookup sec now l i ev) <-> Forall (client_secrets_ok lookup sec) l.
Proof.
  revert i ev. induction l as [|c l IH]; intros i ev; cbn; [split; [constructor|intros; apply succeeds_Ok]|].
  rewrite list.Forall_cons. unfold client_secrets_ok at 1.
  rewrite (succeeds_bind _ _ (Forall (endpoint_secret_ok lookup sec) (cl_Endpoints c) /\ Forall (client_secrets_ok lookup sec) l)).
  2: { intros ev'. rewrite (succeeds_bind _ _ _ (fun a => IH _ a)). by rewrite evaluate_endpoints_iff. }
  unfold secret_ok. destruct (Set_ (cy_SharedSecret (cl_Legacy c))).
  - rewrite (evaluate_one_iff _ _ _ _ _ _ _ _ _ _ _). naive_solver.
  - split; [intros (_ & He & Hl); done|]. intros [[_ He] Hl]. split; [apply succeeds_Ok|done].
Qed.

Lemma secrets_ok_iff d lookup now key :
  succeeds (EvaluateSecrets IsLower IsUpper IsDigit d lookup now key) <-> secrets_ok lookup d.
Proof.
  unfold EvaluateSecrets, secrets_ok. cbv zeta. rewrite (succeeds_bind _ _ True).
  - rewrite evaluate_clients_iff. by intuition.
  - intros ev. split; [done|]. intros _. apply succeeds_Ok.
Qed.
End Secrets.
