(* ===== verification/StatePatch.v ===== *)
(** * Typed patches of users, groups and clients

    [internal/state/patch.go]: what a create or update request does to one
    object, before anything is published.  An omitted field is an [option] that
    is [None]; a patch either gives the whole new object or an error.  The
    clones of [clone.go] are the identity on values and are not written. *)

From stdpp Require Import gmap strings.
From S2P Require Import Prelude Text Domain Policy RadiusPolicy ClientMatch ConfigModel ConfigValidate.

#[local] Open Scope Z_scope.

(** ** Requests *)

Record SecretPatch := mkSecretPatch { sx_Clear : bool; sx_Ref : SecretRef }.

Record UpdateUser := mkUpdateUser {
  uu_DisplayName : option string; uu_Enabled : option bool; uu_Labels : option (gmap string string);
  uu_GroupIDs : option (list string); uu_Rules : option RuleSet;
  uu_Login : option SecretPatch; uu_Challenge : option SecretPatch; uu_Enable : option SecretPatch;
  uu_Restrictions : option UserRestrictions; uu_MustChangeLogin : option bool; uu_MustChangeEnable : option bool;
  uu_RADIUSPolicyID : option string;
}.

Record UpdateGroup := mkUpdateGroup {
  ug_DisplayName : option string; ug_Enabled : option bool; ug_Priority : option Z; ug_Labels : option (gmap string string);
  ug_Services : option (list ServiceRule); ug_CommandRules : option (list CommandRule);
  ug_DefaultCommandAction : option AuthorDecision; ug_RADIUSPolicyID : option string;
}.

Record RADIUSPatch := mkRADIUSPatch {
  px_SharedSecret : option SecretPatch; px_SharedSecretLifecycle : option SecretLifecycleMeta; px_Enabled : option bool;
  px_Roles : list string; px_RequireMessageAuthenticator : option bool; px_LimitProxyState : option bool;
  px_AllowedMethods : nilable string; px_AccessPolicyID : option string; px_AcceptStatusTypes : nilable string;
}.

Record UpdateClient := mkUpdateClient {
  ul_DisplayName : option string; ul_Enabled : option bool; ul_Priority : option Z; ul_Labels : option (gmap string string);
  ul_Match : option Matching; ul_SharedSecret : option SecretPatch; ul_SharedSecretLifecycle : option SecretLifecycleMeta;
  ul_Authentication : option ClientAuth; ul_DefaultGroupIDs : option (nilable string); ul_Accounting : option ClientAcct;
  ul_Endpoints : option (list ClientEndpoint); ul_RADIUS : option RADIUSPatch; ul_RADIUSSharedSecret : option SecretPatch;
}.

(** The create requests carry an id, the fields of the patch, and [Override]. *)
Record CreateUser := mkCreateUser { nu_ID : string; nu_Patch : UpdateUser; nu_Override : bool }.
Record CreateGroup := mkCreateGroup { ng_ID : string; ng_Patch : UpdateGroup; ng_Override : bool }.
Record CreateClient := mkCreateClient { nc_ID : string; nc_Patch : UpdateClient; nc_Override : bool }.

(** [if p.F != nil { out.F = *p.F }] *)
Definition or_keep {A} (p : option A) (cur : A) : A := default cur p.

(** ** Secrets *)

Definition PurposeLoginVerifier : string := "login_verifier".
Definition PurposeChallengeSecret : string := "challenge_secret".
Definition PurposeEnableVerifier : string := "enable_verifier".
Definition PurposeLegacySharedSecret : string := "legacy_shared_secret".
Definition PurposeRADIUSSharedSecret : string := "radius_shared_secret".

Definition with_purpose (r : SecretRef) (purpose : string) : SecretRef :=
  if str_eqb (sf_Purpose r) "" then mkSecretRef purpose (sf_File r) (sf_Environment r) (sf_PreserveTrailingNewline r) (sf_MemoryID r) else r.

(** A patch that clears: an explicit null, or a reference to nothing. *)
Definition clears (p : SecretPatch) : bool := sx_Clear p || negb (Set_ (sx_Ref p)).

Definition applySecret (cur : SecretRef) (patch : option SecretPatch) (methodEnabled : bool) (path : string) : result cfg_error SecretRef :=
  match patch with
  | None => Ok cur
  | Some p =>
    if clears p then
      if methodEnabled then Err (error CodeAuthMethodCredentialMissing "enabled method is missing required credential material" path)
      else Ok (no_secret (sf_Purpose cur))
    else Ok (with_purpose (sx_Ref p) (sf_Purpose cur))
  end.

(** ** Users and groups *)

(** [MustChangeX] after a patch: a new credential clears it, an explicit value
    wins. *)
Definition must_change (cur : bool) (credential : option SecretPatch) (explicit : option bool) : bool :=
  match explicit with Some b => b | None => match credential with Some _ => false | None => cur end end.

Definition applyUserPatch (cur : User) (p : UpdateUser) : result cfg_error User :=
  let enabled := or_keep (uu_Enabled p) (us_Enabled cur) in
  let creds := us_Credentials cur in
  let! login := applySecret (uc_Login creds) (uu_Login p) enabled "credentials.login.verifier" in
  let! challenge := applySecret (uc_Challenge creds) (uu_Challenge p) false "credentials.challenge.secret" in
  let! enable := applySecret (uc_Enable creds) (uu_Enable p) false "credentials.enable.verifier" in
  let mcl := must_change (us_MustChangeLogin cur) (uu_Login p) (uu_MustChangeLogin p) in
  let mce := must_change (us_MustChangeEnable cur) (uu_Enable p) (uu_MustChangeEnable p) in
  refuse (mcl && negb (Set_ login)) (invalid "must_change_login requires a login verifier" "must_change_login") ;!
  refuse (mce && negb (Set_ enable)) (invalid "must_change_enable requires an enable verifier" "must_change_enable") ;!
  Ok (mkUser (us_ID cur) (or_keep (uu_DisplayName p) (us_DisplayName cur)) enabled (or_keep (uu_Labels p) (us_Labels cur))
        (or_keep (uu_GroupIDs p) (us_GroupIDs cur)) (or_keep (uu_Rules p) (us_Rules cur)) (mkCredentials login challenge enable)
        (or_keep (uu_Restrictions p) (us_Restrictions cur)) mcl mce
        (or_keep (option_map TrimSpace (uu_RADIUSPolicyID p)) (us_RADIUSPolicyID cur))).

Definition applyGroupPatch (cur : Group) (p : UpdateGroup) : Group :=
  mkGroup (gr_ID cur) (or_keep (ug_DisplayName p) (gr_DisplayName cur)) (or_keep (ug_Priority p) (gr_Priority cur))
    (or_keep (ug_Enabled p) (gr_Enabled cur)) (or_keep (ug_Labels p) (gr_Labels cur)) (or_keep (ug_Services p) (gr_Services cur))
    (or_keep (ug_CommandRules p) (gr_CommandRules cur)) (or_keep (ug_DefaultCommandAction p) (gr_DefaultCommandAction cur))
    (or_keep (option_map TrimSpace (ug_RADIUSPolicyID p)) (gr_RADIUSPolicyID cur)).

(** ** A client's RADIUS endpoint *)

(** Whether [radiusEndpointPtr] stops at this endpoint. *)
Definition is_radius_udp (ep : ClientEndpoint) : bool := is_radius ep && str_eqb (ep_Transport ep) EndpointTransportUDP.
Definition radiusEndpointPtr (eps : list ClientEndpoint) : option ClientEndpoint := find is_radius_udp eps.

(** An assignment through [radiusEndpointPtr]. *)
Fixpoint set_radius_udp (ep' : ClientEndpoint) (eps : list ClientEndpoint) : list ClientEndpoint :=
  match eps with
  | [] => []
  | ep :: eps => if is_radius_udp ep then ep' :: eps else ep :: set_radius_udp ep' eps
  end.

Definition with_radius (ep : ClientEndpoint) (roles : list string) (r : RADIUSEndpoint) : ClientEndpoint :=
  mkEndpoint (ep_ID ep) (ep_Protocol ep) (ep_Transport ep) roles (ep_TACACS ep) (Some r).
Definition with_radius_secret (r : RADIUSEndpoint) (s : SecretRef) : RADIUSEndpoint :=
  mkRADIUSEndpoint s (re_SharedSecretLifecycle r) (re_RequireMessageAuthenticator r) (re_LimitProxyState r)
    (re_AllowedAuthenticationMethods r) (re_AccessPolicyID r) (re_AcceptStatusTypes r) (re_NASCoAPort r) (re_CoADestination r).

Definition applyRADIUSFields (r : RADIUSEndpoint) (p : RADIUSPatch) (roles : list string) : result cfg_error RADIUSEndpoint :=
  let! methods :=
    match px_AllowedMethods p with
    | Some raw => let! ms := lift_domain (ParseRADIUSAuthMethods raw) in Ok (FillRADIUSAccessMethods ms roles)
    | None => Ok (re_AllowedAuthenticationMethods r)
    end in
  let! status :=
    match px_AcceptStatusTypes p with
    | Some raw => lift_domain (ParseRADIUSStatusTypes raw)
    | None => Ok (re_AcceptStatusTypes r)
    end in
  Ok (mkRADIUSEndpoint (re_SharedSecret r) (or_keep (px_SharedSecretLifecycle p) (re_SharedSecretLifecycle r))
        (or_keep (px_RequireMessageAuthenticator p) (re_RequireMessageAuthenticator r))
        (or_keep (px_LimitProxyState p) (re_LimitProxyState r)) methods
        (or_keep (px_AccessPolicyID p) (re_AccessPolicyID r)) status (re_NASCoAPort r) (re_CoADestination r)).

Definition defaultRADIUSEndpoint (roles : list string) : RADIUSEndpoint :=
  mkRADIUSEndpoint (no_secret "") no_lifecycle true true
    (if endpointHasRole roles RoleAccess then DefaultRADIUSAccessMethods else []) ""
    (if endpointHasRole roles RoleAccounting then defaultRADIUSAcceptStatusTypes else []) 0 "".

Definition validateRADIUSRoles (roles : list string) : result cfg_error unit :=
  refuse (len roles =? 0) (invalid "RADIUS endpoint requires at least one role" "radius.roles") ;!
  each (fun _ r => refuse (negb (have [RoleAccess; RoleAccounting] r)) (invalid "RADIUS role must be access or accounting" "radius.roles")) roles 0.

Definition hasRADIUSTLSEndpoint (eps : list ClientEndpoint) : bool :=
  existsb (fun ep => is_radius ep && str_eqb (ep_Transport ep) EndpointTransportTLS) eps.
Definition removeRADIUSUDPEndpoints (eps : list ClientEndpoint) : list ClientEndpoint :=
  List.filter (fun ep => negb (str_eqb (ep_Protocol ep) ProtocolRADIUS && str_eqb (ep_Transport ep) EndpointTransportUDP)) eps.

(** The roles of the patch, of the endpoint, or both roles. *)
Definition flatten_roles (eps : list ClientEndpoint) (p : RADIUSPatch) : list string :=
  if len (px_Roles p) =? 0 then
    match radiusEndpointPtr eps with
    | Some ep => if len (ep_Roles ep) >? 0 then ep_Roles ep else [RoleAccess; RoleAccounting]
    | None => [RoleAccess; RoleAccounting]
    end
  else px_Roles p.

Definition applyRADIUSFlatten (c : Client) (p : RADIUSPatch) : result cfg_error Client :=
  let eps := cl_Endpoints c in
  if bool_decide (px_Enabled p = Some false) then Ok (with_endpoints c (removeRADIUSUDPEndpoints eps))
  else
    let roles := flatten_roles eps p in
    validateRADIUSRoles roles ;!
    match radiusEndpointPtr eps with
    | None =>
      if hasRADIUSTLSEndpoint eps then Ok c
      else
        let eps := if len eps =? 0 then synthesizeTACACSEndpoints c else eps in
        let! r := applyRADIUSFields (defaultRADIUSEndpoint roles) p roles in
        Ok (with_endpoints c (eps ++ [mkEndpoint "radius-udp" ProtocolRADIUS EndpointTransportUDP roles None (Some r)]))
    | Some ep =>
      match ep_RADIUS ep with
      | None => Ok c
      | Some r =>
        let! r := applyRADIUSFields r p roles in
        Ok (with_endpoints c (set_radius_udp (with_radius ep roles r) eps))
      end
    end.

Definition applyRADIUSSecretPatch (c : Client) (patch : option SecretPatch) : result cfg_error Client :=
  match patch with
  | None => Ok c
  | Some p =>
    match radiusEndpointPtr (cl_Endpoints c) with
    | Some ep =>
      match ep_RADIUS ep with
      | Some r =>
        if clears p then Err (error CodeRADIUSSecretMissing "RADIUS endpoint requires a shared secret" "endpoints")
        else Ok (with_endpoints c (set_radius_udp (with_radius ep (ep_Roles ep)
                   (with_radius_secret r (with_purpose (sx_Ref p) PurposeRADIUSSharedSecret))) (cl_Endpoints c)))
      | None => Ok c
      end
    | None => if clears p then Ok c else Err (invalid "client has no RADIUS endpoint" "endpoints")
    end
  end.

(** ** Endpoints against flattened fields *)

Definition keep_radius (eps : list ClientEndpoint) : list ClientEndpoint :=
  List.filter (fun ep => str_eqb (ep_Protocol ep) ProtocolRADIUS) eps.
Definition rebuildTACACSEndpointsFromFlatten (c : Client) : Client :=
  with_endpoints c (synthesizeTACACSEndpoints c ++ keep_radius (cl_Endpoints c)).

Definition tacacsFlattenSpecified (p : UpdateClient) : bool :=
  bool_decide (is_Some (ul_Match p)) || bool_decide (is_Some (ul_SharedSecret p)) || bool_decide (is_Some (ul_SharedSecretLifecycle p))
  || bool_decide (is_Some (ul_Authentication p)) || bool_decide (is_Some (ul_DefaultGroupIDs p)) || bool_decide (is_Some (ul_Accounting p)).

(** [p.X != nil && r.X != *p.X] *)
Definition differs {A} (eqb : A -> A -> bool) (p : option A) (v : A) : bool :=
  match p with Some x => negb (eqb v x) | None => false end.

Definition radiusFlattenDisagrees (eps : list ClientEndpoint) (patch : option RADIUSPatch) : bool :=
  match patch with
  | None => false
  | Some p =>
    if bool_decide (px_Enabled p = Some false) then bool_decide (is_Some (radiusEndpointPtr eps))
    else match radiusEndpointPtr eps with
    | None => true
    | Some ep =>
      match ep_RADIUS ep with
      | None => true
      | Some r =>
        (len (px_Roles p) >? 0) && negb (sameStrings (ep_Roles ep) (px_Roles p))
        || differs Bool.eqb (px_RequireMessageAuthenticator p) (re_RequireMessageAuthenticator r)
        || differs Bool.eqb (px_LimitProxyState p) (re_LimitProxyState r)
        || differs sameStrings (px_AllowedMethods p) (re_AllowedAuthenticationMethods r)
        || differs str_eqb (px_AccessPolicyID p) (re_AccessPolicyID r)
        || differs sameStrings (px_AcceptStatusTypes p) (re_AcceptStatusTypes r)
        || match px_SharedSecret p with
           | Some s =>
             negb (clears s) && (negb (str_eqb (sf_File (re_SharedSecret r)) (sf_File (sx_Ref s)))
                                 || negb (str_eqb (sf_Environment (re_SharedSecret r)) (sf_Environment (sx_Ref s))))
           | None => false
           end
      end
    end
  end.

(** [retainOneEndpointSecret] *)
Definition retain_radius (dst src : option RADIUSEndpoint) : option RADIUSEndpoint :=
  match dst, src with
  | Some d, Some s => if Set_ (re_SharedSecret d) then dst else Some (with_radius_secret d (re_SharedSecret s))
  | _, _ => dst
  end.
Definition retain_tacacs (dst src : option TACACSEndpoint) : option TACACSEndpoint :=
  match dst, src with
  | Some d, Some s =>
    if Set_ (te_SharedSecret d) then dst
    else Some (mkTACACSEndpoint (te_SharedSecret s) (te_SharedSecretLifecycle d) (te_AllowedMethods d) (te_DefaultService d)
                 (te_DefaultGroupIDs d) (te_Accounting d))
  | _, _ => dst
  end.
Definition with_blocks (ep : ClientEndpoint) (t : option TACACSEndpoint) (r : option RADIUSEndpoint) : ClientEndpoint :=
  mkEndpoint (ep_ID ep) (ep_Protocol ep) (ep_Transport ep) (ep_Roles ep) t r.

(** The last endpoint of a list with a property: what the loop over the old
    endpoints leaves in a map entry or a variable. *)
Definition last_such {A} (p : A -> bool) (l : list A) : option A := List.find p (rev l).

Definition retain_secret (prev : list ClientEndpoint) (ep : ClientEndpoint) : ClientEndpoint :=
  match last_such (fun o => str_eqb (ep_ID o) (ep_ID ep)) prev with
  | Some old => with_blocks ep (retain_tacacs (ep_TACACS ep) (ep_TACACS old)) (retain_radius (ep_RADIUS ep) (ep_RADIUS old))
  | None =>
    let legacy o := str_eqb (ep_Protocol o) ProtocolTACACS && str_eqb (ep_Transport o) EndpointTransportTCP && bool_decide (is_Some (ep_TACACS o)) in
    let r := if is_radius ep then match last_such is_radius prev with Some o => retain_radius (ep_RADIUS ep) (ep_RADIUS o) | None => ep_RADIUS ep end
             else ep_RADIUS ep in
    let t := if legacy ep then match last_such legacy prev with Some o => retain_tacacs (ep_TACACS ep) (ep_TACACS o) | None => ep_TACACS ep end
             else ep_TACACS ep in
    with_blocks ep t r
  end.
Definition retainOmittedEndpointSecrets (prev next : list ClientEndpoint) : list ClientEndpoint := map (retain_secret prev) next.

(** ** Clients *)

Definition hasLegacyTransport (ts : list string) : bool := existsb (fun t => str_eqb t TransportLegacy) ts.

Definition patch_match (cur : Matching) (p : option Matching) : Matching :=
  match p with
  | None => cur
  | Some m =>
    mkMatching (cm_SourceCIDRs m) (cm_Transports m) (if str_eqb (cm_Mode m) "" then MatchAddressAndCertificate else cm_Mode m)
      (cm_Certificate m)
  end.

(** The flattened fields of the patch, before the endpoints. *)
Definition patch_flat (cur : Client) (p : UpdateClient) (secret : SecretRef) : Client :=
  mkClient (cl_ID cur) (or_keep (ul_DisplayName p) (cl_DisplayName cur)) (or_keep (ul_Priority p) (cl_Priority cur))
    (or_keep (ul_Enabled p) (cl_Enabled cur)) (or_keep (ul_Labels p) (cl_Labels cur)) (patch_match (cl_Match cur) (ul_Match p))
    (mkLegacy secret (or_keep (ul_SharedSecretLifecycle p) (cy_SharedSecretLifecycle (cl_Legacy cur))))
    (or_keep (ul_Authentication p) (cl_Authentication cur)) (or_keep (ul_DefaultGroupIDs p) (cl_DefaultGroupIDs cur))
    (or_keep (ul_Accounting p) (cl_Accounting cur)) (cl_Endpoints cur).

Definition applyClientPatch (cur : Client) (p : UpdateClient) : result cfg_error Client :=
  let! secret := applySecret (cy_SharedSecret (cl_Legacy cur)) (ul_SharedSecret p)
                   (hasLegacyTransport (cm_Transports (patch_match (cl_Match cur) (ul_Match p)))) "legacy.shared_secret" in
  let out := patch_flat cur p secret in
  let radiusSecret := match ul_RADIUSSharedSecret p with Some s => Some s | None => match ul_RADIUS p with Some r => px_SharedSecret r | None => None end end in
  let! out :=
    match ul_Endpoints p with
    | Some eps =>
      let out := with_endpoints out (retainOmittedEndpointSecrets (cl_Endpoints cur) eps) in
      refuse (tacacsFlattenSpecified p && negb (TACACSProjectionMatches out))
        (invalid "endpoints and flattened TACACS fields disagree" "endpoints") ;!
      refuse (radiusFlattenDisagrees (cl_Endpoints out) (ul_RADIUS p))
        (invalid "endpoints and flattened RADIUS fields disagree" "endpoints") ;!
      Ok (applyTACACSProjection out)
    | None =>
      let! out := match ul_RADIUS p with Some r => applyRADIUSFlatten out r | None => Ok out end in
      Ok (rebuildTACACSEndpointsFromFlatten out)
    end in
  applyRADIUSSecretPatch out radiusSecret.

(** ** Creation *)

(** [userFromCreate]: over the baseline user, or over a fresh one. *)
Definition userFromCreate (base : option User) (req : CreateUser) : result cfg_error User :=
  let fresh := mkUser (nu_ID req) "" true ∅ [] (mkRules [] [])
                 (mkCredentials (no_secret PurposeLoginVerifier) (no_secret PurposeChallengeSecret) (no_secret PurposeEnableVerifier))
                 (mkRestrictions [] None None) false false "" in
  let over u := mkUser (nu_ID req) (us_DisplayName u) (us_Enabled u) (us_Labels u) (us_GroupIDs u) (us_Rules u) (us_Credentials u)
                  (us_Restrictions u) (us_MustChangeLogin u) (us_MustChangeEnable u) (us_RADIUSPolicyID u) in
  applyUserPatch (match base with Some u => over u | None => fresh end) (nu_Patch req).

Definition groupFromCreate (base : option Group) (req : CreateGroup) : Group :=
  let fresh := mkGroup (ng_ID req) "" 0 true ∅ [] [] DecisionDeny "" in
  let over g := mkGroup (ng_ID req) (gr_DisplayName g) (gr_Priority g) (gr_Enabled g) (gr_Labels g) (gr_Services g) (gr_CommandRules g)
                  (gr_DefaultCommandAction g) (gr_RADIUSPolicyID g) in
  applyGroupPatch (match base with Some g => over g | None => fresh end) (ng_Patch req).

Definition clientFromCreate (base : option Client) (req : CreateClient) : result cfg_error Client :=
  let fresh := mkClient (nc_ID req) "" 0 true ∅ (mkMatching [] [] MatchAddressAndCertificate (mkCertMatch [] []))
                 (mkLegacy (no_secret PurposeLegacySharedSecret) no_lifecycle) (mkAuth [] 0) None (mkAcct true true true true) [] in
  let over c := mkClient (nc_ID req) (cl_DisplayName c) (cl_Priority c) (cl_Enabled c) (cl_Labels c) (cl_Match c) (cl_Legacy c)
                  (cl_Authentication c) (cl_DefaultGroupIDs c) (cl_Accounting c) (cl_Endpoints c) in
  applyClientPatch (match base with Some c => over c | None => fresh end) (nc_Patch req).

(** ** Identifiers *)

Section Identity.
(** The [String] method of the [precis] profile UsernameCasePreserved. *)
Variable precis : string -> option string.

Definition NormalizeUserID (id : string) : result cfg_error string :=
  if str_eqb id "" then Err (invalid "id is required" "id")
  else match precis id with
  | Some out => if str_eqb out "" then Err (invalid "id is not a valid UsernameCasePreserved identifier" "id") else Ok out
  | None => Err (invalid "id is not a valid UsernameCasePreserved identifier" "id")
  end.
End Identity.

Definition requireID (id path : string) : result cfg_error unit := refuse (str_eqb id "") (invalid "id is required" path).
