(* ===== verification/PatchSpec.v ===== *)
(** * What a patch does to a client, a user

    Facts about [StatePatch]: the TACACS+ endpoints synthesized from the
    flattened fields project back to them; a client patch leaves endpoints and
    flattened fields consistent and keeps secrets and RADIUS endpoints it does
    not name; a user patch changes what it names and keeps the rest. *)

From stdpp Require Import gmap strings.
From S2P Require Import Prelude Text Domain Policy RadiusPolicy ClientMatch ConfigModel ConfigValidate ConfigSpec StatePatch.

#[local] Open Scope Z_scope.

(** ** Flattened fields and endpoints *)

Definition legal_transport (t : string) : bool := str_eqb t TransportLegacy || str_eqb t TransportTLS.
Definition legal_transports (ts : list string) : Prop := NoDup ts /\ Forall (fun t => legal_transport t = true) ts.

(** What the projection takes over from an endpoint synthesized for a legal
    transport. *)
Lemma synthesizeEndpoint_step c t :
  legal_transport t = true ->
  exists ep, synthesizeEndpoint c t = Some ep /\ str_eqb (ep_Protocol ep) ProtocolRADIUS = false
    /\ forall p, hasTransport (pj_Transports p) t = false ->
         (pj_Have p = true -> pj_Authentication p = cl_Authentication c /\ pj_DefaultGroupIDs p = cl_DefaultGroupIDs c /\ pj_Accounting p = cl_Accounting c) ->
         project_step p ep = mkProjection (pj_Transports p ++ [t]) (if str_eqb t TransportLegacy then cl_Legacy c else pj_Legacy p)
                               (cl_Authentication c) (cl_DefaultGroupIDs c) (cl_Accounting c) true.
Proof.
  intros Hl. unfold synthesizeEndpoint. destruct c as [? ? ? ? ? ? [s l] [ms sv] ? ? ?]; cbn.
  assert (t = TransportLegacy \/ t = TransportTLS) as [-> | ->].
  { unfold legal_transport in Hl. apply orb_true_iff in Hl as [H|H]; apply str_eqb_iff in H; auto. }
  all: eexists; split; [reflexivity|]; split; [reflexivity|]; intros p Hn Hh; unfold project_step; cbn -[hasTransport].
  all: change (negb (str_eqb ProtocolTACACS ProtocolTACACS)) with false; change (tacacsTransportFromEndpoint EndpointTransportTCP) with (Some TransportLegacy);
    change (tacacsTransportFromEndpoint EndpointTransportTLS) with (Some TransportTLS); cbv iota beta.
  all: change (str_eqb TransportLegacy TransportLegacy) with true; change (str_eqb TransportTLS TransportLegacy) with false; rewrite Hn.
  all: destruct (pj_Have p) eqn:E; [destruct (Hh eq_refl) as (-> & -> & ->)|]; reflexivity.
Qed.

Lemma hasTransport_iff l t : hasTransport l t = true <-> t ∈ l.
Proof. unfold hasTransport. rewrite <- have_spec. unfold have. split; intros (x & Hx & E)%existsb_exists; apply existsb_exists; exists x; (split; [done|]); apply str_eqb_iff; by apply str_eqb_iff in E. Qed.

Lemma project_fold c ts p :
  legal_transports ts -> Forall (fun t => t ∉ pj_Transports p) ts -> ts <> [] ->
  (pj_Have p = true -> pj_Authentication p = cl_Authentication c /\ pj_DefaultGroupIDs p = cl_DefaultGroupIDs c /\ pj_Accounting p = cl_Accounting c) ->
  fold_left project_step (omap (synthesizeEndpoint c) ts) p =
  mkProjection (pj_Transports p ++ ts) (if hasTransport ts TransportLegacy then cl_Legacy c else pj_Legacy p)
    (cl_Authentication c) (cl_DefaultGroupIDs c) (cl_Accounting c) true.
Proof.
  revert p. induction ts as [|t ts IH]; intros p [Hnd Hl] Hf Hne Hh; [done|]. clear Hne.
  apply list.NoDup_cons in Hnd as [Hn Hnd]. apply list.Forall_cons in Hl as [Ht Hl]. apply list.Forall_cons in Hf as [Hp Hf].
  destruct (synthesizeEndpoint_step c t Ht) as (ep & E & _ & Hs).
  assert (hasTransport (pj_Transports p) t = false) as Hp' by (apply not_true_iff_false; by rewrite hasTransport_iff).
  specialize (Hs p Hp' Hh). unfold omap in *. cbn [list_omap]. rewrite E. cbn [fold_left]. rewrite Hs.
  destruct ts as [|t' ts].
  - cbn. by rewrite orb_false_r.
  - rewrite IH; [..|by split|cbn|done|cbn; done].
    + cbn [pj_Transports pj_Legacy]. rewrite <- app_assoc. cbn [app]. f_equal.
      change (hasTransport (t :: t' :: ts) TransportLegacy) with (str_eqb t TransportLegacy || hasTransport (t' :: ts) TransportLegacy).
      by destruct (str_eqb t TransportLegacy), (hasTransport (t' :: ts) TransportLegacy).
    + apply list.Forall_forall. intros x Hx [Hx'|Hx']%elem_of_app; [by rewrite list.Forall_forall in Hf; apply (Hf x)|].
      apply list_elem_of_singleton in Hx' as ->. done.
Qed.

Lemma project_radius eps p : Forall (fun ep => str_eqb (ep_Protocol ep) ProtocolRADIUS = true) eps -> fold_left project_step eps p = p.
Proof.
  revert p. induction eps as [|ep eps IH]; intros p H; [done|]. apply list.Forall_cons in H as [E H]. cbn. rewrite IH by done.
  unfold project_step. apply str_eqb_iff in E as ->. done.
Qed.

Lemma keep_radius_all eps : Forall (fun ep => str_eqb (ep_Protocol ep) ProtocolRADIUS = true) (keep_radius eps).
Proof. apply list.Forall_forall. intros ep Hep%list_elem_of_In. unfold keep_radius in Hep. by apply filter_In in Hep as [_ ?]. Qed.

(** The flattened policy a client's transports carry. *)
Definition carried (c : Client) : tacacsProjection :=
  mkProjection (cm_Transports (cl_Match c))
    (if hasTransport (cm_Transports (cl_Match c)) TransportLegacy then cl_Legacy c else mkLegacy (no_secret "") no_lifecycle)
    (cl_Authentication c) (cl_DefaultGroupIDs c) (cl_Accounting c) true.

Lemma project_rebuilt c :
  legal_transports (cm_Transports (cl_Match c)) -> cm_Transports (cl_Match c) <> [] ->
  projectTACACS (cl_Endpoints (rebuildTACACSEndpointsFromFlatten c)) = carried c.
Proof.
  intros Hl Hne. unfold rebuildTACACSEndpointsFromFlatten, projectTACACS, synthesizeTACACSEndpoints. cbn [cl_Endpoints with_endpoints].
  rewrite fold_left_app, project_radius by apply keep_radius_all.
  rewrite project_fold; [done|done| |done|done]. apply list.Forall_forall. intros x _ Hx. apply (not_elem_of_nil x Hx).
Qed.

(** ** The comparison of flattened fields with a projection *)

Lemma sameStrings_iff a b : sameStrings a b = true <-> a = b.
Proof.
  revert b. induction a as [|x a IH]; intros [|y b]; cbn; try (split; congruence).
  rewrite andb_true_iff, str_eqb_iff, IH. split; [intros [-> ->]|intros [= -> ->]]; done.
Qed.
Lemma secretRefEqual_refl r : secretRefEqual r r = true.
Proof. unfold secretRefEqual. destruct (negb (Set_ r) && negb (Set_ r)); [done|]. by apply bool_decide_eq_true. Qed.
Lemma secretLifecycleEqual_refl l : secretLifecycleEqual l l = true.
Proof. unfold secretLifecycleEqual. rewrite Z.eqb_refl. destruct (lc_LastRotatedAt l); [apply Z.eqb_refl|done]. Qed.

Lemma projection_matches c p :
  cm_Transports (cl_Match c) = pj_Transports p -> pj_Have p = true -> cl_Legacy c = pj_Legacy p -> cl_Authentication c = pj_Authentication p ->
  cl_DefaultGroupIDs c = pj_DefaultGroupIDs p -> cl_Accounting c = pj_Accounting p -> projectionMatchesClient c p = true.
Proof.
  intros Ht Hh Hl Ha Hd Hc. unfold projectionMatchesClient. rewrite Ht, Hh, Hl, Ha, Hd, Hc.
  rewrite (proj2 (sameStrings_iff _ _)) by done. cbn. rewrite secretRefEqual_refl, secretLifecycleEqual_refl, Z.eqb_refl.
  by rewrite !bool_decide_eq_true_2 by done.
Qed.

(** ** Assignments to the RADIUS/UDP endpoint *)

Lemma udp_protocol ep : is_radius_udp ep = true -> ep_Protocol ep = ProtocolRADIUS.
Proof. unfold is_radius_udp, is_radius. intros [[H%str_eqb_iff _]%andb_true_iff _]%andb_true_iff. done. Qed.

Lemma radius_ptr_udp eps ep : radiusEndpointPtr eps = Some ep -> is_radius_udp ep = true.
Proof. intros H. by apply find_some in H as [_ H]. Qed.

Lemma project_set ep eps : ep_Protocol ep = ProtocolRADIUS -> projectTACACS (set_radius_udp ep eps) = projectTACACS eps.
Proof.
  intros Hp. unfold projectTACACS. generalize no_projection. induction eps as [|x eps IH]; intros q; [done|]. cbn.
  destruct (is_radius_udp x) eqn:E; cbn; [|apply IH]. f_equal. unfold project_step. by rewrite (udp_protocol x E), Hp.
Qed.

Lemma synthesized_tacacs c ep : In ep (synthesizeTACACSEndpoints c) -> str_eqb (ep_Protocol ep) ProtocolRADIUS = false.
Proof.
  intros H%list_elem_of_In. unfold synthesizeTACACSEndpoints in H. apply list_elem_of_omap in H as (t & _ & E).
  unfold synthesizeEndpoint in E. destruct (str_eqb t TransportLegacy); [injection E as <-; done|].
  destruct (str_eqb t TransportTLS); [injection E as <-; done|done].
Qed.

Lemma set_udp_app ep l k :
  (forall x, In x l -> str_eqb (ep_Protocol x) ProtocolRADIUS = false) -> set_radius_udp ep (l ++ k) = l ++ set_radius_udp ep k.
Proof.
  intros H. induction l as [|x l IH]; [done|]. cbn. rewrite IH by (intros; apply H; by right).
  assert (is_radius_udp x = false) as ->; [|done]. unfold is_radius_udp, is_radius. rewrite (H x) by by left. done.
Qed.

(** The TACACS+ endpoints are those of the flattened fields, in front. *)
Definition rebuilt_from_flat (c : Client) : Prop :=
  exists radius, cl_Endpoints c = synthesizeTACACSEndpoints c ++ radius /\ Forall (fun ep => ep_Protocol ep = ProtocolRADIUS) radius.

Lemma rebuild_flat c : rebuilt_from_flat (rebuildTACACSEndpointsFromFlatten c).
Proof.
  exists (keep_radius (cl_Endpoints c)). split; [done|]. apply list.Forall_forall. intros ep Hep.
  pose proof (keep_radius_all (cl_Endpoints c)) as H. rewrite list.Forall_forall in H. by apply str_eqb_iff, H.
Qed.

Lemma set_udp_flat c ep : ep_Protocol ep = ProtocolRADIUS -> rebuilt_from_flat c -> rebuilt_from_flat (with_endpoints c (set_radius_udp ep (cl_Endpoints c))).
Proof.
  intros Hp (radius & E & Hr). exists (set_radius_udp ep radius). split.
  - cbn [cl_Endpoints with_endpoints]. rewrite E at 1. rewrite set_udp_app by apply synthesized_tacacs. done.
  - clear E. induction radius as [|x l IH]; [done|]. apply list.Forall_cons in Hr as [Hx Hl]. cbn.
    destruct (is_radius_udp x); constructor; auto.
Qed.

(** What the last step of a client patch does. *)
Lemma applyRADIUSSecretPatch_cases c patch new :
  applyRADIUSSecretPatch c patch = Ok new ->
  new = c \/ exists p ep r, patch = Some p /\ clears p = false /\ radiusEndpointPtr (cl_Endpoints c) = Some ep /\ ep_RADIUS ep = Some r
    /\ new = with_endpoints c (set_radius_udp (with_radius ep (ep_Roles ep) (with_radius_secret r (with_purpose (sx_Ref p) PurposeRADIUSSharedSecret)))
                                (cl_Endpoints c)).
Proof.
  unfold applyRADIUSSecretPatch. destruct patch as [p|]; [|intros [= ->]; by left].
  destruct (radiusEndpointPtr (cl_Endpoints c)) as [ep|] eqn:E.
  - destruct (ep_RADIUS ep) as [r|] eqn:Er; [|intros [= ->]; by left]. destruct (clears p) eqn:Ec; [done|]. intros [= <-].
    right. by exists p, ep, r.
  - destruct (clears p); [intros [= ->]; by left|done].
Qed.

(** ** Secrets are kept *)

Lemma with_purpose_set r purpose : Set_ (with_purpose r purpose) = Set_ r.
Proof. unfold with_purpose. by destruct (str_eqb (sf_Purpose r) ""). Qed.

Lemma applySecret_kept cur patch enabled path s :
  applySecret cur patch enabled path = Ok s ->
  match patch with
  | None => s = cur
  | Some p => if clears p then enabled = false /\ Set_ s = false else s = with_purpose (sx_Ref p) (sf_Purpose cur) /\ Set_ s = true
  end.
Proof.
  unfold applySecret. destruct patch as [p|]; [|by intros [= ->]]. destruct (clears p) eqn:Ec.
  - destruct enabled; [done|]. intros [= <-]. done.
  - intros [= <-]. split; [done|]. rewrite with_purpose_set. unfold clears in Ec. apply orb_false_iff in Ec as [_ H%negb_false_iff]. done.
Qed.

Lemma applySecret_enabled cur patch path s : applySecret cur patch true path = Ok s -> Set_ cur = true -> Set_ s = true.
Proof. intros H Hc. apply applySecret_kept in H. destruct patch as [p|]; [|by subst]. destruct (clears p); naive_solver. Qed.

(** The RADIUS/UDP endpoint a flattened patch leaves, where it leaves one. *)
Lemma find_set ep eps ep0 : radiusEndpointPtr eps = Some ep0 -> is_radius_udp ep = true -> radiusEndpointPtr (set_radius_udp ep eps) = Some ep.
Proof.
  intros H Hu. revert H. unfold radiusEndpointPtr. induction eps as [|x eps IH]; [done|]. cbn. destruct (is_radius_udp x) eqn:E; cbn.
  - by rewrite Hu.
  - rewrite E. exact IH.
Qed.
Lemma with_radius_udp ep roles r : is_radius_udp ep = true -> is_radius_udp (with_radius ep roles r) = true.
Proof. unfold is_radius_udp, is_radius. cbn. intros [[-> _]%andb_true_iff ->]%andb_true_iff. done. Qed.

Lemma applyRADIUSFields_secret r p roles r' : applyRADIUSFields r p roles = Ok r' -> re_SharedSecret r' = re_SharedSecret r.
Proof. unfold applyRADIUSFields. intros H. ok_steps; by subst. Qed.

(** The RADIUS/UDP endpoint's secret. *)
Definition udp_secret (eps : list ClientEndpoint) : option SecretRef :=
  match radiusEndpointPtr eps with Some ep => option_map re_SharedSecret (ep_RADIUS ep) | None => None end.

Lemma applyRADIUSFlatten_secret c p c' s :
  applyRADIUSFlatten c p = Ok c' -> px_Enabled p <> Some false -> udp_secret (cl_Endpoints c) = Some s -> udp_secret (cl_Endpoints c') = Some s.
Proof.
  unfold applyRADIUSFlatten, udp_secret. intros H He. rewrite bool_decide_eq_false_2 in H by done. apply then_Ok in H as [_ H].
  destruct (radiusEndpointPtr (cl_Endpoints c)) as [ep|] eqn:E; [|done]. destruct (ep_RADIUS ep) as [r|] eqn:Er; [|done].
  apply rbind_Ok in H as (r' & Hr & [= <-]). intros [= <-]. cbn [cl_Endpoints with_endpoints].
  rewrite (find_set _ _ ep E) by apply with_radius_udp, (radius_ptr_udp _ _ E). cbn. by rewrite (applyRADIUSFields_secret _ _ _ _ Hr).
Qed.

Lemma find_past l k :
  (forall x, In x l -> str_eqb (ep_Protocol x) ProtocolRADIUS = false) -> radiusEndpointPtr (l ++ k) = radiusEndpointPtr k.
Proof.
  intros Hl. unfold radiusEndpointPtr. induction l as [|x l IH]; [done|]. cbn. rewrite IH by (intros; apply Hl; by right).
  assert (is_radius_udp x = false) as ->; [|done]. unfold is_radius_udp, is_radius. by rewrite (Hl x) by by left.
Qed.
Lemma find_kept l : radiusEndpointPtr (keep_radius l) = radiusEndpointPtr l.
Proof.
  unfold radiusEndpointPtr, keep_radius. induction l as [|x l IH]; [done|]. cbn.
  destruct (str_eqb (ep_Protocol x) ProtocolRADIUS) eqn:E; cbn; rewrite IH; [done|]. unfold is_radius_udp, is_radius. by rewrite E.
Qed.
Lemma udp_secret_rebuild c : udp_secret (cl_Endpoints (rebuildTACACSEndpointsFromFlatten c)) = udp_secret (cl_Endpoints c).
Proof.
  unfold udp_secret, rebuildTACACSEndpointsFromFlatten. cbn [cl_Endpoints with_endpoints].
  by rewrite find_past, find_kept by apply synthesized_tacacs.
Qed.

(** ** The patch as a whole *)

(** Whether the patch names a secret for the RADIUS endpoint. *)
Definition radius_secret_named (p : UpdateClient) : option SecretPatch :=
  match ul_RADIUSSharedSecret p with Some s => Some s | None => match ul_RADIUS p with Some r => px_SharedSecret r | None => None end end.
Definition disables_radius (p : UpdateClient) : Prop := exists r, ul_RADIUS p = Some r /\ px_Enabled r = Some false.

(** The fields outside the endpoints. *)
Definition same_flat (a b : Client) : Prop := with_endpoints a [] = with_endpoints b [].
Lemma same_flat_endpoints c eps : same_flat (with_endpoints c eps) c.
Proof. done. Qed.
Lemma applyRADIUSFlatten_flat c p c' : applyRADIUSFlatten c p = Ok c' -> same_flat c' c.
Proof.
  unfold applyRADIUSFlatten. destruct (bool_decide _); [by intros [= <-]|]. intros [_ H]%then_Ok.
  destruct (radiusEndpointPtr _) as [ep|].
  - destruct (ep_RADIUS ep); [|by injection H as <-]. by apply rbind_Ok in H as (? & _ & [= <-]).
  - destruct (StatePatch.hasRADIUSTLSEndpoint _); [by injection H as <-|]. by apply rbind_Ok in H as (? & _ & [= <-]).
Qed.
Lemma applyRADIUSSecretPatch_flat c patch c' : applyRADIUSSecretPatch c patch = Ok c' -> same_flat c' c.
Proof. intros H. by apply applyRADIUSSecretPatch_cases in H as [-> |(? & ? & ? & _ & _ & _ & _ & ->)]. Qed.

(** A patch without an endpoint list: through the flattened fields. *)
Lemma patch_flattened cur p new :
  applyClientPatch cur p = Ok new -> ul_Endpoints p = None ->
  exists secret mid, applySecret (cy_SharedSecret (cl_Legacy cur)) (ul_SharedSecret p)
      (hasLegacyTransport (cm_Transports (patch_match (cl_Match cur) (ul_Match p)))) "legacy.shared_secret" = Ok secret
    /\ match ul_RADIUS p with Some r => applyRADIUSFlatten (patch_flat cur p secret) r | None => Ok (patch_flat cur p secret) end = Ok mid
    /\ applyRADIUSSecretPatch (rebuildTACACSEndpointsFromFlatten mid) (radius_secret_named p) = Ok new
    /\ same_flat new (patch_flat cur p secret).
Proof.
  unfold applyClientPatch. intros (secret & Hs & H)%rbind_Ok Hn. cbv zeta in H. rewrite Hn in H. apply rbind_Ok in H as (out & Ho & H).
  apply rbind_Ok in Ho as (mid & Hm & [= <-]). exists secret, mid. split; [done|]. split; [done|]. split; [exact H|].
  pose proof (applyRADIUSSecretPatch_flat _ _ _ H) as Hf. unfold same_flat in *. rewrite Hf.
  destruct (ul_RADIUS p) as [r|]; [by apply (applyRADIUSFlatten_flat _ _ _ Hm)|by injection Hm as <-].
Qed.

Lemma rebuilt_secret c patch new :
  rebuilt_from_flat c -> applyRADIUSSecretPatch c patch = Ok new -> rebuilt_from_flat new.
Proof.
  intros Hf H. apply applyRADIUSSecretPatch_cases in H as [-> |(s & ep & r & _ & _ & Hep & _ & ->)]; [done|].
  apply set_udp_flat; [|done]. exact (udp_protocol _ (radius_ptr_udp _ _ Hep)).
Qed.

Lemma rebuilt_projection c :
  rebuilt_from_flat c -> legal_transports (cm_Transports (cl_Match c)) -> cm_Transports (cl_Match c) <> [] -> projectTACACS (cl_Endpoints c) = carried c.
Proof.
  intros (radius & E & Hr) Hl Hne. rewrite <- (project_rebuilt c Hl Hne). unfold projectTACACS, rebuildTACACSEndpointsFromFlatten.
  cbn [cl_Endpoints with_endpoints]. rewrite E at 1. rewrite !fold_left_app, (project_radius (keep_radius _)) by apply keep_radius_all.
  apply project_radius.
  apply list.Forall_forall. intros ep Hep. apply str_eqb_iff. rewrite list.Forall_forall in Hr. by apply Hr.
Qed.

(** The RADIUS secret a flattened patch leaves. *)
Lemma patch_keeps_udp_secret cur p new s :
  applyClientPatch cur p = Ok new -> ul_Endpoints p = None -> ~ disables_radius p -> udp_secret (cl_Endpoints cur) = Some s ->
  exists s', udp_secret (cl_Endpoints new) = Some s' /\ (Set_ s = true -> Set_ s' = true) /\ (radius_secret_named p = None -> s' = s).
Proof.
  intros H Hn Hd Hs. destruct (patch_flattened _ _ _ H Hn) as (secret & mid & _ & Hm & Hr & _).
  assert (udp_secret (cl_Endpoints (rebuildTACACSEndpointsFromFlatten mid)) = Some s) as Hmid.
  { rewrite udp_secret_rebuild. destruct (ul_RADIUS p) as [r|] eqn:Er; [|by injection Hm as <-].
    apply (applyRADIUSFlatten_secret _ _ _ _ Hm); [|done]. intros He. destruct Hd. by exists r. }
  apply applyRADIUSSecretPatch_cases in Hr as [-> |(x & ep & r & Hx & Hc & Hep & Er & ->)]; [by exists s|].
  cbn [cl_Endpoints with_endpoints]. unfold udp_secret at 1.
  rewrite (find_set _ _ ep Hep) by apply with_radius_udp, (radius_ptr_udp _ _ Hep). cbn. eexists. split; [done|]. split.
  - intros _. rewrite with_purpose_set. unfold clears in Hc. apply orb_false_iff in Hc as [_ Hc%negb_false_iff]. exact Hc.
  - intros E. by rewrite E in Hx.
Qed.

Lemma patch_replaced cur p new eps :
  applyClientPatch cur p = Ok new -> ul_Endpoints p = Some eps ->
  exists out, cl_Endpoints out = retainOmittedEndpointSecrets (cl_Endpoints cur) eps
    /\ applyRADIUSSecretPatch (applyTACACSProjection out) (radius_secret_named p) = Ok new.
Proof.
  unfold applyClientPatch. intros (secret & Hs & H)%rbind_Ok He. cbv zeta in H. rewrite He in H. apply rbind_Ok in H as (out & Ho & H).
  apply then_Ok in Ho as [_ Ho]. apply then_Ok in Ho as [_ [= <-]]. eexists. split; [|exact H]. done.
Qed.

Lemma projected_matches c : pj_Have (projectTACACS (cl_Endpoints c)) = true -> TACACSProjectionMatches (applyTACACSProjection c) = true.
Proof.
  intros Hh. unfold TACACSProjectionMatches.
  assert (cl_Endpoints (applyTACACSProjection c) = cl_Endpoints c) as -> by (unfold applyTACACSProjection; by rewrite Hh).
  destruct (len (cl_Endpoints c) =? 0); [done|]. unfold applyTACACSProjection. rewrite Hh. by apply projection_matches.
Qed.

Lemma secret_patch_matches c patch c' :
  applyRADIUSSecretPatch c patch = Ok c' -> TACACSProjectionMatches c = true -> TACACSProjectionMatches c' = true.
Proof.
  intros H Hm. apply applyRADIUSSecretPatch_cases in H as [-> |(s & ep & r & _ & _ & Hep & _ & ->)]; [done|].
  unfold TACACSProjectionMatches in *. cbn [cl_Endpoints with_endpoints].
  rewrite project_set by exact (udp_protocol _ (radius_ptr_udp _ _ Hep)).
  assert ((len (cl_Endpoints c) =? 0) = false) as E.
  { apply Z.eqb_neq. intros E%len_zero. by rewrite E in Hep. }
  rewrite E in Hm. by destruct (len (set_radius_udp _ _) =? 0).
Qed.

(** *** With an endpoint list *)

(** What identifies an endpoint. *)
Definition shape (ep : ClientEndpoint) : string * string * string * list string := (ep_ID ep, ep_Protocol ep, ep_Transport ep, ep_Roles ep).

Lemma shape_retained prev next : map shape (retainOmittedEndpointSecrets prev next) = map shape next.
Proof.
  unfold retainOmittedEndpointSecrets. rewrite map_map. apply map_ext. intros ep. unfold retain_secret. by destruct (last_such _ prev).
Qed.
Lemma shape_set ep eps ep' : radiusEndpointPtr eps = Some ep -> shape ep' = shape ep -> map shape (set_radius_udp ep' eps) = map shape eps.
Proof.
  unfold radiusEndpointPtr. intros H Hs. induction eps as [|x eps IH]; [done|]. cbn in *. destruct (is_radius_udp x); cbn.
  - injection H as ->. by rewrite Hs.
  - by rewrite IH.
Qed.
Lemma projection_endpoints c : cl_Endpoints (applyTACACSProjection c) = cl_Endpoints c.
Proof. unfold applyTACACSProjection. by destruct (pj_Have _). Qed.

Lemma secret_patch_endpoints c patch c' :
  applyRADIUSSecretPatch c patch = Ok c' ->
  map shape (cl_Endpoints c') = map shape (cl_Endpoints c) /\ projectTACACS (cl_Endpoints c') = projectTACACS (cl_Endpoints c).
Proof.
  intros H. apply applyRADIUSSecretPatch_cases in H as [-> |(s & ep & r & _ & _ & Hep & _ & ->)]; [done|].
  cbn [cl_Endpoints with_endpoints]. split; [by apply (shape_set ep)|]. apply project_set. exact (udp_protocol _ (radius_ptr_udp _ _ Hep)).
Qed.

(** An endpoint named as before keeps a secret it is sent without. *)
Lemma retained_by_id prev ep old r :
  last_such (fun o => str_eqb (ep_ID o) (ep_ID ep)) prev = Some old -> ep_RADIUS old = Some r -> Set_ (re_SharedSecret r) = true ->
  forall r', ep_RADIUS (retain_secret prev ep) = Some r' -> Set_ (re_SharedSecret r') = true.
Proof.
  intros H Hr Hs r'. unfold retain_secret. rewrite H, Hr. cbn. unfold retain_radius. destruct (ep_RADIUS ep) as [d|]; [|done].
  destruct (Set_ (re_SharedSecret d)) eqn:E; intros [= <-]; done.
Qed.

Lemma secret_patch_sets c patch c' (P : ClientEndpoint -> Prop) :
  applyRADIUSSecretPatch c patch = Ok c' -> Forall P (cl_Endpoints c) ->
  (forall ep r, Set_ (re_SharedSecret r) = true -> P ep -> P (with_radius ep (ep_Roles ep) r)) -> Forall P (cl_Endpoints c').
Proof.
  intros H Hp Hw. apply applyRADIUSSecretPatch_cases in H as [-> |(s & ep & r & _ & Hc & Hep & _ & ->)]; [done|].
  cbn [cl_Endpoints with_endpoints]. unfold radiusEndpointPtr in Hep. induction (cl_Endpoints c) as [|x l IH]; [done|].
  cbn in *. apply list.Forall_cons in Hp as [Hx Hl]. destruct (is_radius_udp x); [injection Hep as ->|]; constructor; auto.
  apply Hw; [|done]. cbn. rewrite with_purpose_set. unfold clears in Hc. by apply orb_false_iff in Hc as [_ Hc%negb_false_iff].
Qed.

(** The RADIUS endpoints named as one of [prev] that had a secret. *)
Definition secret_retained (prev : list ClientEndpoint) (ep : ClientEndpoint) : Prop :=
  forall old r r', last_such (fun o => str_eqb (ep_ID o) (ep_ID ep)) prev = Some old -> ep_RADIUS old = Some r -> Set_ (re_SharedSecret r) = true ->
  ep_RADIUS ep = Some r' -> Set_ (re_SharedSecret r') = true.

Lemma retain_id prev ep : ep_ID (retain_secret prev ep) = ep_ID ep.
Proof. unfold retain_secret. by destruct (last_such _ prev). Qed.

Lemma retain_all prev next : Forall (secret_retained prev) (retainOmittedEndpointSecrets prev next).
Proof.
  apply list.Forall_forall. intros ep Hep. apply list_elem_of_In, in_map_iff in Hep as (x & <- & _). intros old r r' Hl Hr Hs.
  apply (retained_by_id prev x old r); [|done|done]. by rewrite retain_id in Hl.
Qed.

(** ** Users *)

(** What a user patch gives: the fields it names, the rest kept. *)
Record user_patched (cur : User) (p : UpdateUser) (new : User) : Prop := {
  up_id : us_ID new = us_ID cur;
  up_enabled : us_Enabled new = or_keep (uu_Enabled p) (us_Enabled cur);
  up_groups : us_GroupIDs new = or_keep (uu_GroupIDs p) (us_GroupIDs cur);
  up_rules : us_Rules new = or_keep (uu_Rules p) (us_Rules cur);
  up_login_kept : uu_Login p = None -> uc_Login (us_Credentials new) = uc_Login (us_Credentials cur);
  up_challenge_kept : uu_Challenge p = None -> uc_Challenge (us_Credentials new) = uc_Challenge (us_Credentials cur);
  up_enable_kept : uu_Enable p = None -> uc_Enable (us_Credentials new) = uc_Enable (us_Credentials cur);
  up_login : us_Enabled new = true -> Set_ (uc_Login (us_Credentials cur)) = true -> Set_ (uc_Login (us_Credentials new)) = true;
  up_must_login : us_MustChangeLogin new = true -> Set_ (uc_Login (us_Credentials new)) = true;
  up_must_enable : us_MustChangeEnable new = true -> Set_ (uc_Enable (us_Credentials new)) = true;
  up_login_cleared : is_Some (uu_Login p) -> uu_MustChangeLogin p = None -> us_MustChangeLogin new = false;
}.

Lemma user_patch cur p new : applyUserPatch cur p = Ok new -> user_patched cur p new.
Proof.
  unfold applyUserPatch. cbv zeta. intros (login & Hl & H)%rbind_Ok. apply rbind_Ok in H as (challenge & Hc & H).
  apply rbind_Ok in H as (enable & He & H). apply then_Ok in H as [Hml%refuse_Ok H]. apply then_Ok in H as [Hme%refuse_Ok [= <-]].
  rewrite and_false, negb_false_iff in Hml, Hme.
  split; cbn; try done.
  - intros E. rewrite E in Hl. by apply applySecret_kept in Hl.
  - intros E. rewrite E in Hc. by apply applySecret_kept in Hc.
  - intros E. rewrite E in He. by apply applySecret_kept in He.
  - intros E. rewrite E in Hl. by apply (applySecret_enabled _ _ _ _ Hl).
  - intros [x E] Em. unfold must_change. by rewrite Em, E.
Qed.

(** A client patched through its flattened fields. *)
Record client_flattened (cur : Client) (p : UpdateClient) (new : Client) : Prop := {
  cf_rebuilt : rebuilt_from_flat new;
  cf_projection : legal_transports (cm_Transports (cl_Match new)) -> cm_Transports (cl_Match new) <> [] ->
                  projectTACACS (cl_Endpoints new) = carried new;
  cf_legacy : hasLegacyTransport (cm_Transports (cl_Match new)) = true -> Set_ (cy_SharedSecret (cl_Legacy cur)) = true ->
              Set_ (cy_SharedSecret (cl_Legacy new)) = true;
  cf_radius : forall s, ~ disables_radius p -> udp_secret (cl_Endpoints cur) = Some s ->
              exists s', udp_secret (cl_Endpoints new) = Some s' /\ (Set_ s = true -> Set_ s' = true) /\ (radius_secret_named p = None -> s' = s);
}.
(** A client whose endpoints are replaced. *)
Record client_replaced (cur : Client) (eps : list ClientEndpoint) (new : Client) : Prop := {
  cr_shape : map shape (cl_Endpoints new) = map shape eps;
  cr_matches : pj_Have (projectTACACS (cl_Endpoints new)) = true -> TACACSProjectionMatches new = true;
  cr_retained : Forall (secret_retained (cl_Endpoints cur)) (cl_Endpoints new);
}.

Lemma client_patch_flattened cur p new : applyClientPatch cur p = Ok new -> ul_Endpoints p = None -> client_flattened cur p new.
Proof.
  intros H Hn. destruct (patch_flattened _ _ _ H Hn) as (secret & mid & Hs & _ & Hr & Hf).
  assert (rebuilt_from_flat new) as Hb by exact (rebuilt_secret _ _ _ (rebuild_flat mid) Hr).
  assert (cl_Match new = patch_match (cl_Match cur) (ul_Match p) /\ cy_SharedSecret (cl_Legacy new) = secret) as [Hm Hl].
  { split; [exact (f_equal cl_Match Hf)|exact (f_equal (fun c => cy_SharedSecret (cl_Legacy c)) Hf)]. }
  split; [exact Hb|exact (rebuilt_projection _ Hb)|..].
  - rewrite Hm, Hl. intros E. rewrite E in Hs. exact (applySecret_enabled _ _ _ _ Hs).
  - intros s Hd. exact (patch_keeps_udp_secret cur p new s H Hn Hd).
Qed.

Lemma client_patch_replaced cur p eps new : applyClientPatch cur p = Ok new -> ul_Endpoints p = Some eps -> client_replaced cur eps new.
Proof.
  intros H He. destruct (patch_replaced _ _ _ _ H He) as (out & Ho & Hr). destruct (secret_patch_endpoints _ _ _ Hr) as [Hs Hp].
  rewrite projection_endpoints in Hs, Hp. split.
  - by rewrite Hs, Ho, shape_retained.
  - rewrite Hp. intros Hh. apply (secret_patch_matches _ _ _ Hr). by apply projected_matches.
  - apply (secret_patch_sets _ _ _ _ Hr); [rewrite projection_endpoints, Ho; apply retain_all|].
    intros ep r Hset _ old r0 r' _ _ _ [= <-]. exact Hset.
Qed.

(** ** Properties *)

(** A device with a legacy TACACS+ transport and an accounting-only RADIUS
    endpoint. *)
Definition sample_ref (file : string) : SecretRef := mkSecretRef "" file "" false "".
Definition sample_radius (roles methods : list string) : ClientEndpoint :=
  mkEndpoint "radius-udp" ProtocolRADIUS EndpointTransportUDP roles None
    (Some (mkRADIUSEndpoint (sample_ref "/run/radius") no_lifecycle true true methods "" defaultRADIUSAcceptStatusTypes 3799 "")).
Definition sample_client : Client :=
  let c := mkClient "router" "" 10 true ∅ (mkMatching ["192.0.2.0/24"] [TransportLegacy] MatchAddressAndCertificate (mkCertMatch [] []))
             (mkLegacy (sample_ref "/run/tacacs") no_lifecycle) (mkAuth ["ascii"] AuthenServiceLogin) None (mkAcct true true true true) [] in
  with_endpoints c (synthesizeTACACSEndpoints c ++ [sample_radius [RoleAccounting] []]).
Definition no_radius_patch : RADIUSPatch := mkRADIUSPatch None None None [] None None None None None.
Definition no_client_patch : UpdateClient := mkUpdateClient None None None None None None None None None None None None None.
Definition radius_patch (p : RADIUSPatch) : UpdateClient := mkUpdateClient None None None None None None None None None None None (Some p) None.
Definition role_patch (roles : list string) : UpdateClient := radius_patch (mkRADIUSPatch None None None roles None None None None None).
Definition no_user_patch : UpdateUser := mkUpdateUser None None None None None None None None None None None None.
Definition sample_user : User :=
  mkUser "alice" "" true ∅ [] (mkRules [] []) (mkCredentials (sample_ref "/run/alice") (no_secret "") (no_secret "")) (mkRestrictions [] None None)
    true false "".

(** The patch that gives the accounting endpoint the access role leaves it
    with no method list: the default of [FillRADIUSAccessMethods] is applied
    only to a list the patch names. *)
Lemma access_role_without_methods :
  exists new, applyClientPatch sample_client (role_patch [RoleAccess; RoleAccounting]) = Ok new
    /\ cl_Endpoints new = synthesizeTACACSEndpoints new ++ [sample_radius [RoleAccess; RoleAccounting] []].
Proof. eexists. split; reflexivity. Qed.


