(* ===== verification/StateManager.v ===== *)
(** * The runtime state manager

    [internal/state/manager.go], [overlay.go] and [compile.go], with
    [domain/meta.go] and the token lookup of [snapshot.go]: the configuration
    file ([baseline]) is never changed; creations, patches and deletions go to
    an overlay; every change compiles baseline and overlay into an immutable
    [Snapshot], which is published under the next revision or not at all.

    The four kinds of object are treated by the same code in four copies:
    [merge], [update_object], [create_object] and [delete_object] are that
    code, and the operations named in Go apply them.  A mutation holds the
    manager's lock from end to end, so an operation is one step; the clock, the
    secret sources and the entropy are its arguments.  The hash of a document
    or an overlay, the dictionary compiled from files and the precis profile
    are parameters; the warnings of a compilation are not kept. *)

From Stdlib Require Import Ascii.
From stdpp Require Import gmap strings pretty sorting.
From S2P Require Import Prelude Text StableSort Credentials Domain Policy RadiusPolicy ClientMatch ConfigModel ConfigValidate ConfigSecrets StatePatch.

#[local] Open Scope Z_scope.

(** ** Administrative metadata (domain/meta.go) *)

Definition SourceConfig : string := "config".
Definition SourceRuntime : string := "runtime".
Definition SourceOverride : string := "override".
Definition ObjectSource_Valid (s : string) : bool := have [SourceConfig; SourceRuntime; SourceOverride] s.

Definition KindUser : string := "user".
Definition KindGroup : string := "group".
Definition KindClient : string := "client".
Definition KindToken : string := "token".

Record ObjectMeta := mkMeta {
  om_ID : string; om_Kind : string; om_DisplayName : string; om_Source : string; om_ShadowsSource : string; om_Deleted : bool;
  om_RevisionCreated : Z; om_RevisionUpdated : Z; om_EffectiveRevision : Z; om_Enabled : bool; om_Labels : gmap string string;
  om_CreatedAt : Z; om_UpdatedAt : Z;
}.
Definition WithSnapshotRevision (m : ObjectMeta) (rev : Z) : ObjectMeta :=
  mkMeta (om_ID m) (om_Kind m) (om_DisplayName m) (om_Source m) (om_ShadowsSource m) (om_Deleted m) (om_RevisionCreated m)
    (om_RevisionUpdated m) rev (om_Enabled m) (om_Labels m) (om_CreatedAt m) (om_UpdatedAt m).

Record Tombstone := mkTombstone { tb_Kind : string; tb_ID : string; tb_Deleted : bool; tb_ActorID : string; tb_AtRevision : Z; tb_At : Z }.
Definition NewTombstone (kind id actor : string) (rev at_ : Z) : Tombstone := mkTombstone kind id true actor rev at_.

(** [time.Time{}], as nanoseconds of the Unix clock. *)
Definition zero_time : Z := -62135596800 * second.

(** ** The overlay (overlay.go) *)

(** An entry: a live object or a tombstone.  The object of a deleted entry is
    the zero value and is never read. *)
Inductive entry (A : Type) :=
| Live (a : A) (m : ObjectMeta)
| Dead (t : Tombstone) (m : ObjectMeta).
Arguments Live {A}.
Arguments Dead {A}.

Definition entry_meta {A} (e : entry A) : ObjectMeta := match e with Live _ m | Dead _ m => m end.
Definition deleted {A} (e : entry A) : bool := match e with Live _ _ => false | Dead _ _ => true end.
(** [if e, ok := m[id]; ok && !e.deleted { prev = &e.meta }] *)
Definition live_meta {A} (e : option (entry A)) : option ObjectMeta := match e with Some (Live _ m) => Some m | _ => None end.

Record tokenRecord := mkToken {
  tk_ID : string; tk_Name : string; tk_Scopes : list string; tk_Enabled : bool; tk_ExpiresAt : option Z; tk_HasDigest : bool;
  tk_Digest : TokenDigest;
}.
Definition no_digest : TokenDigest := mkTokenDigest [].
Definition digest_empty (d : TokenDigest) : bool := len (td_v d) =? 0.

Record overlay := mkOverlay {
  ov_users : gmap string (entry User); ov_groups : gmap string (entry Group); ov_clients : gmap string (entry Client);
  ov_tokens : gmap string (entry tokenRecord); ov_secrets : gmap string bytes; ov_fallback : option RuleSet;
}.
Definition newOverlay : overlay := mkOverlay ∅ ∅ ∅ ∅ ∅ None.
Definition with_users (ov : overlay) m := mkOverlay m (ov_groups ov) (ov_clients ov) (ov_tokens ov) (ov_secrets ov) (ov_fallback ov).
Definition with_groups (ov : overlay) m := mkOverlay (ov_users ov) m (ov_clients ov) (ov_tokens ov) (ov_secrets ov) (ov_fallback ov).
Definition with_overlay_clients (ov : overlay) m := mkOverlay (ov_users ov) (ov_groups ov) m (ov_tokens ov) (ov_secrets ov) (ov_fallback ov).
Definition with_tokens (ov : overlay) m := mkOverlay (ov_users ov) (ov_groups ov) (ov_clients ov) m (ov_secrets ov) (ov_fallback ov).
Definition with_secrets (ov : overlay) m := mkOverlay (ov_users ov) (ov_groups ov) (ov_clients ov) (ov_tokens ov) m (ov_fallback ov).

(** *** The four kinds *)

(** What the shared code reads of an object. *)
Class Object (A : Type) := {
  ob_kind : string;
  ob_path : string;
  ob_id : A -> string;
  ob_display : A -> string;
  ob_enabled : A -> bool;
  ob_labels : A -> gmap string string;
}.
Arguments ob_kind A {_}.
Arguments ob_path A {_}.
#[export] Instance user_object : Object User := Build_Object _ KindUser "users/" us_ID us_DisplayName us_Enabled us_Labels.
#[export] Instance group_object : Object Group := Build_Object _ KindGroup "groups/" gr_ID gr_DisplayName gr_Enabled gr_Labels.
#[export] Instance client_object : Object Client := Build_Object _ KindClient "clients/" cl_ID cl_DisplayName cl_Enabled cl_Labels.
(** A bootstrap token has no display name and no labels. *)
#[export] Instance token_object : Object tokenRecord := Build_Object _ KindToken "tokens/" tk_ID (fun _ => ""%string) tk_Enabled (fun _ => ∅).

(** [baselineX] *)
Definition baseline_find {A} `{Object A} (base : list A) (id : string) : option A := find (fun a => str_eqb (ob_id a) id) base.
(** [liveX] *)
Definition live_find {A} `{Object A} (base : list A) (m : gmap string (entry A)) (id : string) : option A :=
  match m !! id with
  | Some (Live a _) => Some a
  | Some (Dead _ _) => None
  | None => baseline_find base id
  end.

(** A baseline token as the overlay's tokens are. *)
Definition token_of (t : BootstrapToken) : tokenRecord :=
  mkToken (bt_ID t) (bt_ID t) (bt_Scopes t) true (bt_ExpiresAt t) (Set_ (bt_Token t)) no_digest.
Definition base_tokens (d : Document) : list tokenRecord := map token_of (dc_BootstrapTokens d).

(** [pruneOverlaySecrets] *)
Definition memory_ids (u : User) : list string :=
  List.filter (fun id => negb (str_eqb id "")) [sf_MemoryID (uc_Login (us_Credentials u)); sf_MemoryID (uc_Enable (us_Credentials u));
                                           sf_MemoryID (uc_Challenge (us_Credentials u))].
Definition live_ids (users : gmap string (entry User)) : list string :=
  concat (map (fun '(_, e) => match e with Live u _ => memory_ids u | Dead _ _ => [] end) (map_to_list users)).
Definition pruneOverlaySecrets (ov : overlay) : overlay :=
  with_secrets ov (filter (fun kv : string * bytes => have (live_ids (ov_users ov)) kv.1 = true) (ov_secrets ov)).

(** ** Metadata of an object (compile.go) *)

Record identityStamp := mkStamp { st_created : Z; st_createdRev : Z; st_updated : Z; st_updatedRev : Z }.
Definition stamps := gmap string identityStamp.
Definition stamp_key (kind id : string) : string := cat kind (cat "/" id).

(** The ids the four collections of the baseline touch, as keys. *)
Definition baseline_keys (d : Document) : list string :=
  map (fun u => stamp_key KindUser (us_ID u)) (dc_Users d) ++ map (fun g => stamp_key KindGroup (gr_ID g)) (dc_Groups d)
  ++ map (fun c => stamp_key KindClient (cl_ID c)) (dc_Clients d) ++ map (fun t => stamp_key KindToken (bt_ID t)) (dc_BootstrapTokens d).
Definition touch (rev now : Z) (born : stamps) (key : string) : stamps :=
  match born !! key with
  | None => born
  | Some st => <[key := mkStamp (st_created st) (st_createdRev st) now rev]> born
  end.
Definition touchBaselineStamps (born : stamps) (d : Document) (rev now : Z) : stamps := fold_left (touch rev now) (baseline_keys d) born.

Definition configMeta {A} `{Object A} (a : A) (rev now : Z) (born : stamps) : ObjectMeta * stamps :=
  let key := stamp_key (ob_kind A) (ob_id a) in
  let '(st, born) := match born !! key with Some st => (st, born) | None => let st := mkStamp now rev now rev in (st, <[key := st]> born) end in
  (mkMeta (ob_id a) (ob_kind A) (ob_display a) SourceConfig "" false (st_createdRev st) (st_updatedRev st) rev (ob_enabled a) (ob_labels a)
     (st_created st) (st_updated st), born).

Definition newOverlayMeta (kind id display source shadows : string) (enabled : bool) (labels : gmap string string) (rev now : Z)
    (prev : option ObjectMeta) : ObjectMeta :=
  let '(created, createdRev) :=
    match prev with
    | Some p => if negb (om_RevisionCreated p =? 0) then (om_CreatedAt p, om_RevisionCreated p) else (now, rev)
    | None => (now, rev)
    end in
  mkMeta id kind display source shadows false createdRev rev rev enabled labels created now.

(** ** Merging baseline and overlay *)

(** A merged object: the key it was found under, its metadata, its value. *)
Record merged (A : Type) := mkMerged { me_key : string; me_meta : ObjectMeta; me_value : A }.
Arguments mkMerged {A}.
Arguments me_key {A}.
Arguments me_meta {A}.
Arguments me_value {A}.

Section Merge.
Context {A : Type} `{Object A} (m : gmap string (entry A)) (rev now : Z).

(** The loop over the baseline. *)
Fixpoint merge_base (base : list A) (born : stamps) : list (merged A) * list Tombstone * stamps :=
  match base with
  | [] => ([], [], born)
  | a :: base =>
    match m !! ob_id a with
    | Some (Dead t _) => let '(out, tombs, born) := merge_base base born in (out, t :: tombs, born)
    | Some (Live b meta) =>
      let '(out, tombs, born) := merge_base base born in
      (mkMerged (ob_id a) (WithSnapshotRevision meta rev) b :: out, tombs, born)
    | None =>
      let '(meta, born) := configMeta a rev now born in
      let '(out, tombs, born) := merge_base base born in
      (mkMerged (ob_id a) meta a :: out, tombs, born)
    end
  end.

(** The loop over the ids of the overlay alone. *)
Fixpoint merge_overlay (seen ids : list string) : list (merged A) * list Tombstone :=
  match ids with
  | [] => ([], [])
  | id :: ids =>
    let '(out, tombs) := merge_overlay seen ids in
    if have seen id then (out, tombs)
    else match m !! id with
    | Some (Dead t _) => (out, t :: tombs)
    | Some (Live b meta) => (mkMerged id (WithSnapshotRevision meta rev) b :: out, tombs)
    | None => (out, tombs)
    end
  end.

Definition sorted_keys {V} (x : gmap string V) : list string := SliceStable str_ltb (map fst (map_to_list x)).

Definition merge (base : list A) (born : stamps) : list (merged A) * list Tombstone * stamps :=
  let '(out, tombs, born) := merge_base base born in
  let '(out', tombs') := merge_overlay (map ob_id base) (sorted_keys m) in
  (out ++ out', tombs ++ tombs', born).
End Merge.

Definition mergeUsers (d : Document) (ov : overlay) (rev now : Z) (born : stamps) := merge (ov_users ov) rev now (dc_Users d) born.
Definition mergeGroups (d : Document) (ov : overlay) (rev now : Z) (born : stamps) := merge (ov_groups ov) rev now (dc_Groups d) born.
Definition mergeClients (d : Document) (ov : overlay) (rev now : Z) (born : stamps) := merge (ov_clients ov) rev now (dc_Clients d) born.
Definition mergeTokens (d : Document) (ov : overlay) (rev now : Z) (born : stamps) := merge (ov_tokens ov) rev now (base_tokens d) born.
(** The digests [mergeTokens] returns beside the tokens. *)
Definition overlay_digests (tokens : list (merged tokenRecord)) : gmap string TokenDigest :=
  fold_left (fun m t => if digest_empty (tk_Digest (me_value t)) then m else <[me_key t := tk_Digest (me_value t)]> m) tokens ∅.

(** ** The snapshot (snapshot.go) *)

Record CompiledCommand := mkCompiledCommand { cp_Rule : CommandRule; cp_Command : option (string -> bool); cp_Args : option (string -> bool) }.
Record CompiledRules := mkCompiledRules { cr_Services : list ServiceRule; cr_Commands : list CompiledCommand }.
Record CredentialCapabilities := mkCredentialCapabilities { cc_Login : bool; cc_Challenge : bool; cc_Enable : bool }.

Record EffectiveUser := mkEffectiveUser { eu_Meta : ObjectMeta; eu_User : User; eu_Rules : CompiledRules; eu_Capabilities : CredentialCapabilities }.
Record EffectiveGroup := mkEffectiveGroup { eg_Meta : ObjectMeta; eg_Group : Group; eg_Rules : CompiledRules }.
Record EffectiveClient := mkEffectiveClient { ec_Meta : ObjectMeta; ec_Client : Client; ec_Lifecycle : string; ec_RADIUSLifecycle : string }.
Record EffectiveToken := mkEffectiveToken {
  et_Meta : ObjectMeta; et_ID : string; et_Name : string; et_Scopes : list string; et_Enabled : bool; et_ExpiresAt : option Z;
  et_HasDigest : bool; et_credentialGeneration : Z;
}.

Record Snapshot (Dict : Type) := mkSnapshot {
  sn_Revision : Z; sn_BaselineHash : string; sn_OverlayHash : string; sn_CompiledAt : Z; sn_settings : Document;
  sn_users : gmap string EffectiveUser; sn_groups : gmap string EffectiveGroup; sn_clients : gmap string EffectiveClient;
  sn_tokens : gmap string EffectiveToken;
  sn_userIDs : list string; sn_groupIDs : list string; sn_clientIDs : list string; sn_tokenIDs : list string;
  sn_tokenIndex : gmap bytes string; sn_tokenDigests : gmap string TokenDigest; sn_tombstones : list Tombstone;
  sn_fallback : RuleSet; sn_fallbackRules : CompiledRules;
  sn_index : ClientIndex; sn_radiusAccessIndex : RADIUSIndex; sn_radiusAcctIndex : RADIUSIndex;
  sn_radiusAccessTLSIndex : RADIUSCertIndex; sn_radiusAcctTLSIndex : RADIUSCertIndex; sn_radiusDynAuthIndex : RADIUSIndex;
  sn_radiusPolicies : RadiusPolicy.Engine; sn_tacacsPolicies : Policy.Engine; sn_radiusDictionary : Dict;
  sn_secretWarns : list SecretWarning; sn_lifecycles : option (gmap string string); sn_runtimeSecrets : gmap string bytes;
}.
Arguments mkSnapshot {Dict}.
Arguments sn_Revision {Dict}. Arguments sn_BaselineHash {Dict}. Arguments sn_OverlayHash {Dict}. Arguments sn_CompiledAt {Dict}.
Arguments sn_settings {Dict}. Arguments sn_users {Dict}. Arguments sn_groups {Dict}. Arguments sn_clients {Dict}.
Arguments sn_tokens {Dict}. Arguments sn_userIDs {Dict}. Arguments sn_groupIDs {Dict}. Arguments sn_clientIDs {Dict}.
Arguments sn_tokenIDs {Dict}. Arguments sn_tokenIndex {Dict}. Arguments sn_tokenDigests {Dict}. Arguments sn_tombstones {Dict}.
Arguments sn_fallback {Dict}. Arguments sn_fallbackRules {Dict}. Arguments sn_index {Dict}. Arguments sn_radiusAccessIndex {Dict}.
Arguments sn_radiusAcctIndex {Dict}. Arguments sn_radiusAccessTLSIndex {Dict}. Arguments sn_radiusAcctTLSIndex {Dict}.
Arguments sn_radiusDynAuthIndex {Dict}. Arguments sn_radiusPolicies {Dict}. Arguments sn_tacacsPolicies {Dict}.
Arguments sn_radiusDictionary {Dict}. Arguments sn_secretWarns {Dict}. Arguments sn_lifecycles {Dict}. Arguments sn_runtimeSecrets {Dict}.

(** *** Bearer tokens *)

Definition CodeConflict : string := "conflict".

(** [putTokenDigest] *)
Definition digest_clash (a b : string) : cfg_error :=
  let '(a, b) := if str_ltb b a then (b, a) else (a, b) in
  error CodeConflict (cat "token digest is reused by " (cat a (cat " and " b))) "tokens".
Definition putTokenDigest (idx : gmap bytes string) (d : TokenDigest) (id : string) : result cfg_error (gmap bytes string) :=
  if digest_empty d || str_eqb id "" then Ok idx
  else match idx !! DigestIndex d with
  | Some existing => if negb (str_eqb existing id) then Err (digest_clash existing id) else Ok (<[DigestIndex d := id]> idx)
  | None => Ok (<[DigestIndex d := id]> idx)
  end.

(** What [indexTokenDigests] fills: [tokenIndex] and [tokenDigests].  Go visits
    the overlay's digests in no particular order, which decides at most which
    two ids a clash names. *)
Definition token_tables : Type := gmap bytes string * gmap string TokenDigest.
Fixpoint index_overlay (live : list string) (l : list (string * TokenDigest)) (t : token_tables) : result cfg_error token_tables :=
  match l with
  | [] => Ok t
  | (id, d) :: l =>
    if negb (have live id) || digest_empty d then index_overlay live l t
    else let! idx := putTokenDigest t.1 d id in index_overlay live l (idx, <[id := d]> t.2)
  end.
Fixpoint index_bootstrap (live : list string) (overlay : gmap string TokenDigest) (lookup : SecretLookup) (l : list BootstrapToken)
    (t : token_tables) : result cfg_error token_tables :=
  match l with
  | [] => Ok t
  | boot :: l =>
    if negb (have live (bt_ID boot)) || bool_decide (is_Some (overlay !! bt_ID boot)) || negb (Set_ (bt_Token boot))
    then index_bootstrap live overlay lookup l t
    else match lookup (bt_Token boot) with
    | Err (Some e) => Err (EDomain e)
    | Err None => Err EOther
    | Ok raw =>
      let d := DigestToken (newSecret raw) in
      if digest_empty d then index_bootstrap live overlay lookup l t
      else let! idx := putTokenDigest t.1 d (bt_ID boot) in index_bootstrap live overlay lookup l (idx, <[bt_ID boot := d]> t.2)
    end
  end.
Definition indexTokenDigests (d : Document) (live : list string) (overlay : gmap string TokenDigest) (lookup : option SecretLookup)
    : result cfg_error token_tables :=
  let! t := index_overlay live (map_to_list overlay) (∅, ∅) in
  match lookup with None => Ok t | Some lookup => index_bootstrap live overlay lookup (dc_BootstrapTokens d) t end.

(** [tokenCredential] *)
Definition tokenCredential {Dict} (s : Snapshot Dict) (id : string) : TokenDigest * bool :=
  match sn_tokenDigests s !! id with Some d => (d, true) | None => (no_digest, false) end.

(** [AuthenticateToken]; every failure is one error. *)
Definition AuthenticateToken {Dict} (s : Snapshot Dict) (raw : bytes) (now : Z) : option EffectiveToken :=
  if len raw =? 0 then None
  else match sn_tokenIndex s !! DigestIndex (DigestToken (newSecret raw)) with
  | None => None
  | Some id =>
    match sn_tokens s !! id with
    | None => None
    | Some tok =>
      if negb (et_Enabled tok) then None
      else match et_ExpiresAt tok with
      | Some e => if negb (now <? e) then None else Some tok
      | None => Some tok
      end
    end
  end.

(** *** Readers *)

Definition list_by {X} (ids : list string) (m : gmap string X) : list X := omap (fun id => m !! id) ids.
Definition Users {Dict} (s : Snapshot Dict) : list EffectiveUser := list_by (sn_userIDs s) (sn_users s).
Definition Groups {Dict} (s : Snapshot Dict) : list EffectiveGroup := list_by (sn_groupIDs s) (sn_groups s).
Definition Clients {Dict} (s : Snapshot Dict) : list EffectiveClient := list_by (sn_clientIDs s) (sn_clients s).
Definition Tokens {Dict} (s : Snapshot Dict) : list EffectiveToken := list_by (sn_tokenIDs s) (sn_tokens s).
Definition RuntimeSecret {Dict} (s : Snapshot Dict) (id : string) : option bytes := if str_eqb id "" then None else sn_runtimeSecrets s !! id.
Definition TokenGeneration {Dict} (s : Snapshot Dict) (id : string) : Z :=
  match sn_tokens s !! id with Some t => et_credentialGeneration t | None => 0 end.

(** ** Compilation (compile.go) *)

Section Compile.
Context {Dict : Type}.
Variable regexp_Compile : string -> option (string -> bool).
Variable PolicyParseIP : string -> bool.
Variable IANALocation : string -> bool.
Variables IsLower IsUpper IsDigit : Z -> bool.
(** [CompileRADIUSDictionary]: reads the operator's files. *)
Variable CompileRADIUSDictionary : Document -> result cfg_error Dict.
(** [hashBaseline] and [hashOverlay] (hash.go): SHA-256 of a JSON text. *)
Variable hashBaseline : Document -> result cfg_error string.
Variable hashOverlay : overlay -> bytes -> result cfg_error string.

Definition compilePattern (pattern path : string) : result cfg_error (option (string -> bool)) :=
  if str_eqb pattern "" then Ok None
  else match regexp_Compile pattern with
  | Some re => Ok (Some re)
  | None => Err (error CodeRegexInvalid "invalid regular expression" path)
  end.
Fixpoint compileRules (l : list CommandRule) : result cfg_error (list CompiledCommand) :=
  match l with
  | [] => Ok []
  | r :: l =>
    let! cmd := compilePattern (sm_Pattern (cr_Command r)) "command.pattern" in
    let! args := compilePattern (sm_Pattern (cr_Arguments r)) "arguments.pattern" in
    let! rest := compileRules l in
    Ok (mkCompiledCommand r cmd args :: rest)
  end.
Definition compileRuleSet (rs : RuleSet) : result cfg_error CompiledRules :=
  let! cmds := compileRules (CommandRules rs) in
  Ok (mkCompiledRules (Services rs) cmds).

(** The loops that fill the maps of the snapshot. *)
Fixpoint fill {A X} (key : A -> string) (build : ObjectMeta -> A -> result cfg_error X) (rev : Z) (l : list (merged A)) (m : gmap string X)
    : result cfg_error (gmap string X) :=
  match l with
  | [] => Ok m
  | x :: l =>
    let! v := build (WithSnapshotRevision (me_meta x) rev) (me_value x) in
    fill key build rev l (<[key (me_value x) := v]> m)
  end.

Definition build_user (meta : ObjectMeta) (u : User) : result cfg_error EffectiveUser :=
  let! rules := compileRuleSet (us_Rules u) in
  let c := us_Credentials u in
  Ok (mkEffectiveUser meta u rules (mkCredentialCapabilities (Set_ (uc_Login c)) (Set_ (uc_Challenge c)) (Set_ (uc_Enable c)))).
Definition build_group (meta : ObjectMeta) (g : Group) : result cfg_error EffectiveGroup :=
  let! rules := compileRuleSet (mkRules (gr_Services g) (gr_CommandRules g)) in
  Ok (mkEffectiveGroup meta g rules).

(** The rotation health of the first RADIUS endpoint over UDP, or of the last
    one over TLS. *)
Fixpoint radius_lifecycle (life : gmap string string) (cid : string) (l : list ClientEndpoint) (st : string) : string :=
  match l with
  | [] => st
  | ep :: l =>
    if negb (is_radius ep) then radius_lifecycle life cid l st
    else match life !! cat cid (cat "/" (ep_ID ep)) with
    | None => radius_lifecycle life cid l st
    | Some st => if str_eqb (ep_Transport ep) EndpointTransportUDP then st else radius_lifecycle life cid l st
    end
  end.
Definition or_unknown (st : string) : string := if str_eqb st "" then LifecycleUnknown else st.
Definition build_client (life : option (gmap string string)) (meta : ObjectMeta) (c : Client) : result cfg_error EffectiveClient :=
  let legacy := match life with Some l => default ""%string (l !! cl_ID c) | None => ""%string end in
  let radius := match life with Some l => radius_lifecycle l (cl_ID c) (cl_Endpoints c) "" | None => ""%string end in
  Ok (mkEffectiveClient meta c (or_unknown legacy) (or_unknown radius)).

(** Whether a token keeps the credential generation of the snapshot before. *)
Definition same_expiry (a b : option Z) : bool := bool_decide (a = b).
Definition same_incarnation (old : option EffectiveToken) (before after : TokenDigest * bool) (meta : ObjectMeta) (t : tokenRecord) : bool :=
  match old with
  | None => false
  | Some old =>
    Bool.eqb before.2 after.2 && EqualDigest before.1 after.1
    && (Bool.eqb (et_Enabled old) (tk_Enabled t) && bool_decide (et_Scopes old = tk_Scopes t) && same_expiry (et_ExpiresAt old) (tk_ExpiresAt t))
    && str_eqb (om_Source (et_Meta old)) (om_Source meta)
    && (str_eqb (om_Source meta) SourceConfig || (om_RevisionUpdated (et_Meta old) =? om_RevisionUpdated meta))
  end.
Definition build_token (previous : option (Snapshot Dict)) (digests : gmap string TokenDigest) (rev : Z) (meta : ObjectMeta) (t : tokenRecord)
    : result cfg_error EffectiveToken :=
  let after := match digests !! tk_ID t with Some d => (d, true) | None => (no_digest, false) end in
  let generation :=
    match previous with
    | Some p =>
      let old := sn_tokens p !! tk_ID t in
      if same_incarnation old (tokenCredential p (tk_ID t)) after meta t
      then match old with Some o => et_credentialGeneration o | None => rev end
      else rev
    | None => rev
    end in
  Ok (mkEffectiveToken meta (tk_ID t) (tk_Name t) (tk_Scopes t) (tk_Enabled t) (tk_ExpiresAt t) (tk_HasDigest t) generation).

Definition sorted_ids {A} `{Object A} (l : list (merged A)) : list string := SliceStable str_ltb (map (fun x => ob_id (me_value x)) l).

Definition drop_stamps (born : stamps) (used : list string) : stamps :=
  filter (fun kv : string * identityStamp => have used kv.1 = true) born.

(** The document of the merged objects, as [Validate] sees it. *)
Definition synth_document (d : Document) (users : list User) (groups : list Group) (clients : list Client) (tokens : list string)
    (fallback : RuleSet) : Document :=
  mkDocument (dc_SchemaVersion d) (dc_Runtime d) (dc_Security d) (dc_Listeners d)
    (List.filter (fun t => have tokens (bt_ID t)) (dc_BootstrapTokens d)) (dc_Limits d)
    clients groups users fallback (dc_RADIUSPolicies d) (dc_RADIUSReplyProfiles d) (dc_FallbackRADIUSPolicyID d) (dc_RADIUSDictionaries d).

(** [m.compile(base, ov, rev, now, touchBaseline)].  The document keeps its
    hash when the baseline is the published one, which it is exactly when
    [touchBaseline] is false. *)
Definition compile (born : stamps) (previous : option (Snapshot Dict)) (lookup : option SecretLookup) (hmacKey : bytes)
    (base : Document) (ov : overlay) (rev now : Z) (touchBaseline : bool) : result cfg_error (Snapshot Dict * stamps) :=
  let born := if touchBaseline then touchBaselineStamps born base rev now else born in
  let '(users, userTombs, born) := mergeUsers base ov rev now born in
  let '(groups, groupTombs, born) := mergeGroups base ov rev now born in
  let '(clients, clientTombs, born) := mergeClients base ov rev now born in
  let '(tokens, tokenTombs, born) := mergeTokens base ov rev now born in
  let fallback := default (dc_FallbackRules base) (ov_fallback ov) in
  let liveTokens := map (fun t => tk_ID (me_value t)) tokens in
  let synth := synth_document base (map me_value users) (map me_value groups) (map me_value clients) liveTokens fallback in
  refuse (over (mo_APITokens (rt_MaxObjects (dc_Runtime synth))) (len tokens))
    (error CodeObjectLimitExceeded "token count exceeds configured maximum" "tokens") ;!
  let! synth := Validate regexp_Compile synth in
  let cs := map match_client (dc_Clients synth) in
  let! idx := lift_match (CompileClientIndex cs) in
  let! accessIdx := lift_match (CompileRADIUSIndex cs RoleAccess CarrierRADIUSUDP) in
  let! acctIdx := lift_match (CompileRADIUSIndex cs RoleAccounting CarrierRADIUSUDP) in
  let! accessTLS := lift_match (CompileRADIUSCertIndex cs RoleAccess) in
  let! acctTLS := lift_match (CompileRADIUSCertIndex cs RoleAccounting) in
  let! dynIdx := lift_match (CompileRADIUSIndex cs RoleDynamicAuthorization CarrierRADIUSUDP) in
  let! tacPol := lift_policy (Policy.Compile regexp_Compile PolicyParseIP IANALocation
                   (policy_input (dc_Users synth) (dc_Groups synth) (dc_Clients synth) (dc_FallbackRules synth) (dc_Limits synth))) in
  let! radPol := lift_domain (RadiusPolicy.Compile (radius_input synth)) in
  let! dict := CompileRADIUSDictionary synth in
  let! life := match lookup with
               | Some lookup => let! r := lift_domain (EvaluateSecrets IsLower IsUpper IsDigit synth lookup now hmacKey) in Ok (Some r.1, r.2)
               | None => Ok (None, [])
               end in
  let! fbCompiled := compileRuleSet fallback in
  let! baselineHash := match previous with
                       | Some p => if negb touchBaseline then Ok (sn_BaselineHash p) else hashBaseline base
                       | None => hashBaseline base
                       end in
  let! overlayHash := hashOverlay ov hmacKey in
  let! userMap := fill us_ID build_user rev users ∅ in
  let! groupMap := fill gr_ID build_group rev groups ∅ in
  let! clientMap := fill cl_ID (build_client life.1) rev clients ∅ in
  let! tables := indexTokenDigests base liveTokens (overlay_digests tokens) lookup in
  let! tokenMap := fill tk_ID (build_token previous tables.2 rev) rev tokens ∅ in
  let used := baseline_keys base ++ map (fun x => stamp_key KindUser (us_ID (me_value x))) users
              ++ map (fun x => stamp_key KindGroup (gr_ID (me_value x))) groups
              ++ map (fun x => stamp_key KindClient (cl_ID (me_value x))) clients ++ map (stamp_key KindToken) liveTokens in
  Ok (mkSnapshot rev baselineHash overlayHash now base userMap groupMap clientMap tokenMap
        (sorted_ids users) (sorted_ids groups) (sorted_ids clients) (sorted_ids tokens) tables.1 tables.2
        (userTombs ++ groupTombs ++ clientTombs ++ tokenTombs) fallback fbCompiled idx accessIdx acctIdx accessTLS acctTLS dynIdx
        radPol tacPol dict life.2 life.1 (ov_secrets ov), drop_stamps born used).

(** ** The manager (manager.go) *)

Record Manager := mkManager {
  mg_baseline : Document; mg_overlay : overlay; mg_current : Snapshot Dict; mg_revision : Z; mg_born : stamps;
  mg_lookup : option SecretLookup; mg_hmacKey : bytes;
  (** what the hook, if there is one, has been called with, latest first *)
  mg_hook : option (list (Snapshot Dict));
}.

(** Revisions are [uint64]. *)
Definition next_revision (r : Z) : Z := (r + 1) mod 2 ^ 64.

(** [New], with the key already drawn. *)
Definition New (baseline : option Document) (lookup : option SecretLookup) (hmacKey : bytes) (hook : bool) (now : Z) : result cfg_error Manager :=
  match baseline with
  | None => Err (invalid "baseline is required" "")
  | Some d =>
    let! r := compile ∅ None lookup hmacKey d newOverlay 1 now true in
    Ok (mkManager d newOverlay r.1 1 r.2 lookup hmacKey (if hook then Some [] else None))
  end.

Definition CodeRevisionMismatch : string := "revision_mismatch".
Definition CodeAlreadyExists : string := "already_exists".
Definition checkRevision (expected : option Z) (actual : Z) : result cfg_error unit :=
  match expected with
  | None => Ok tt
  | Some e => refuse (negb (e =? actual)) (error CodeRevisionMismatch "expected revision does not match published snapshot" "")
  end.

(** [m.mutate(expected, fn)]: [fn] gives the new overlay, and the new baseline
    for a reload. *)
Definition change : Type := result cfg_error (overlay * option Document).
Definition mutate (m : Manager) (expected : option Z) (now : Z) (fn : overlay -> Z -> change) : Manager * result cfg_error (Snapshot Dict) :=
  let rev := next_revision (mg_revision m) in
  let outcome :=
    checkRevision expected (mg_revision m) ;!
    let! r := fn (mg_overlay m) rev in
    let base := default (mg_baseline m) r.2 in
    let ov := pruneOverlaySecrets r.1 in
    let! c := compile (mg_born m) (Some (mg_current m)) (mg_lookup m) (mg_hmacKey m) base ov rev now (bool_decide (is_Some r.2)) in
    Ok (base, ov, c) in
  match outcome with
  | Err e => (m, Err e)
  | Ok (base, ov, (snap, born)) =>
    (mkManager base ov snap rev born (mg_lookup m) (mg_hmacKey m) (option_map (cons snap) (mg_hook m)), Ok snap)
  end.

(** *** The shared operations on one kind *)

Section Object.
Context {A : Type} `{Object A} (base : list A) (allow : bool) (m : gmap string (entry A)) (rev now : Z).

Definition at_path (id : string) : string := cat (ob_path A) id.
Definition noun : string := ob_kind A.
Definition not_found (id : string) : cfg_error := error CodeNotFound (cat noun " not found") (at_path id).
Definition already_exists (id : string) : cfg_error := error CodeAlreadyExists (cat noun " already exists") (at_path id).
Definition shadowing_disabled (id : string) : cfg_error := error CodeConflict "shadowing is disabled" (at_path id).

Definition in_base (id : string) : bool := bool_decide (is_Some (baseline_find base id)).
(** A baseline object not yet shadowed may not be, when shadowing is off. *)
Definition locked (id : string) : bool := in_base id && negb allow && bool_decide (live_meta (m !! id) = None).

(** The entry for a new value: an override of a baseline object, or a runtime
    object. *)
Definition put (id : string) (a : A) (prev : option ObjectMeta) : gmap string (entry A) :=
  let '(src, shadows) := if in_base id then (SourceOverride, SourceConfig) else (SourceRuntime, ""%string) in
  <[id := Live a (newOverlayMeta (ob_kind A) id (ob_display a) src shadows (ob_enabled a) (ob_labels a) rev now prev)]> m.

(** The body of [UpdateUser], [UpdateGroup], [UpdateClient]. *)
Definition update_object (id : string) (apply : A -> result cfg_error A) : result cfg_error (gmap string (entry A)) :=
  match live_find base m id with
  | None => Err (not_found id)
  | Some cur =>
    refuse (locked id) (shadowing_disabled id) ;!
    let! next := apply cur in
    Ok (put id next (live_meta (m !! id)))
  end.

(** The body of [CreateGroup] and [CreateClient]. *)
Definition create_object (id : string) (override : bool) (build : option A -> result cfg_error A) : result cfg_error (gmap string (entry A)) :=
  let live := bool_decide (is_Some (live_find base m id)) in
  refuse (live && negb override) (already_exists id) ;!
  (if in_base id then
     refuse (negb override) (already_exists id) ;! refuse (negb allow) (shadowing_disabled id)
   else refuse live (already_exists id)) ;!
  let! a := build (baseline_find base id) in
  Ok (put id a (live_meta (m !! id))).

(** The tombstone entry.  [stamped] is the metadata [DeleteUser] fills in and
    the others leave zero. *)
Definition bury (id actor : string) (stamped : bool) : entry A :=
  Dead (NewTombstone (ob_kind A) id actor rev now)
    (mkMeta id (ob_kind A) "" SourceConfig "" true (if stamped then rev else 0) rev 0 false ∅ (if stamped then now else zero_time) now).

(** The body of the deletions. *)
Definition delete_object (id : string) (tombstone : bool) (actor : string) (stamped : bool) : result cfg_error (gmap string (entry A)) :=
  match m !! id with
  | Some (Live _ meta) =>
    if str_eqb (om_Source meta) SourceRuntime || str_eqb (om_Source meta) SourceOverride && negb tombstone then Ok (delete id m)
    else if negb (in_base id) then Ok (delete id m)
    else Ok (<[id := bury id actor stamped]> m)
  | Some (Dead _ _) => Err (not_found id)
  | None => if negb (in_base id) then Err (not_found id) else Ok (<[id := bury id actor stamped]> m)
  end.

(** The body of [CreateUser], which tells three cases apart. *)
Definition create_user_object (id : string) (override : bool) (build : option A -> result cfg_error A) : result cfg_error (gmap string (entry A)) :=
  if bool_decide (is_Some (live_find base m id)) then
    refuse (negb override) (already_exists id) ;!
    match baseline_find base id with
    | None => Err (already_exists id)
    | Some b =>
      refuse (negb allow) (shadowing_disabled id) ;!
      let! a := build (Some b) in
      Ok (put id a (live_meta (m !! id)))
    end
  else match baseline_find base id with
  | Some b =>
    refuse (negb override) (already_exists id) ;! refuse (negb allow) (shadowing_disabled id) ;!
    let! a := build (Some b) in
    Ok (put id a None)
  | None => let! a := build None in Ok (put id a None)
  end.
End Object.

Variable precis : string -> option string.

Definition allows (m : Manager) : bool := rt_AllowShadowing (dc_Runtime (mg_baseline m)).

(** A change of one collection. *)
Definition change_users (ov : overlay) (r : result cfg_error (gmap string (entry User))) : change :=
  let! users := r in Ok (with_users ov users, None).
Definition change_groups (ov : overlay) (r : result cfg_error (gmap string (entry Group))) : change :=
  let! groups := r in Ok (with_groups ov groups, None).
Definition change_clients (ov : overlay) (r : result cfg_error (gmap string (entry Client))) : change :=
  let! clients := r in Ok (with_overlay_clients ov clients, None).
Definition change_tokens (ov : overlay) (r : result cfg_error (gmap string (entry tokenRecord))) : change :=
  let! tokens := r in Ok (with_tokens ov tokens, None).

Definition reset_overlay (d : Document) : bool := str_eqb (rt_ReloadOverlayBehavior (dc_Runtime d)) "reset".

(** *** The operations *)

Definition ValidateCandidate (m : Manager) (candidate : option Document) (now : Z) : result cfg_error unit :=
  match candidate with
  | None => Err (invalid "baseline is required" "")
  | Some d =>
    let ov := if reset_overlay d then newOverlay else mg_overlay m in
    let! _ := compile (mg_born m) (Some (mg_current m)) (mg_lookup m) (mg_hmacKey m) d ov (next_revision (mg_revision m)) now true in
    Ok tt
  end.

Definition Reload (m : Manager) (candidate : option Document) (expected : option Z) (now : Z) :=
  mutate m expected now (fun ov _ =>
    match candidate with
    | None => Err (invalid "baseline is required" "")
    | Some d => Ok (if reset_overlay d then newOverlay else ov, Some d)
    end).

Definition Reset_ (m : Manager) (expected : option Z) (now : Z) := mutate m expected now (fun _ _ => Ok (newOverlay, None)).

Definition CreateUser_ (m : Manager) (req : CreateUser) (expected : option Z) (now : Z) :=
  mutate m expected now (fun ov rev =>
    let! id := NormalizeUserID precis (nu_ID req) in
    change_users ov (create_user_object (dc_Users (mg_baseline m)) (allows m) (ov_users ov) rev now id (nu_Override req)
      (fun b => userFromCreate b (mkCreateUser id (nu_Patch req) (nu_Override req))))).

Definition UpdateUser_ (m : Manager) (id : string) (patch : UpdateUser) (expected : option Z) (now : Z) :=
  mutate m expected now (fun ov rev =>
    let! id := NormalizeUserID precis id in
    change_users ov (update_object (dc_Users (mg_baseline m)) (allows m) (ov_users ov) rev now id (fun cur => applyUserPatch cur patch))).

Definition DeleteUser (m : Manager) (id : string) (tombstone : bool) (actor : string) (expected : option Z) (now : Z) :=
  mutate m expected now (fun ov rev =>
    let! id := NormalizeUserID precis id in
    change_users ov (delete_object (dc_Users (mg_baseline m)) (ov_users ov) rev now id tombstone actor true)).

(** A user with a login, or ENABLE, verifier kept in memory. *)
Definition memory_ref (purpose id : string) : SecretRef := mkSecretRef purpose "" "" false id.
Definition with_login (u : User) (ref : SecretRef) : User :=
  mkUser (us_ID u) (us_DisplayName u) (us_Enabled u) (us_Labels u) (us_GroupIDs u) (us_Rules u)
    (mkCredentials ref (uc_Challenge (us_Credentials u)) (uc_Enable (us_Credentials u))) (us_Restrictions u) false (us_MustChangeEnable u)
    (us_RADIUSPolicyID u).
Definition with_enable (u : User) (ref : SecretRef) : User :=
  mkUser (us_ID u) (us_DisplayName u) (us_Enabled u) (us_Labels u) (us_GroupIDs u) (us_Rules u)
    (mkCredentials (uc_Login (us_Credentials u)) (uc_Challenge (us_Credentials u)) ref) (us_Restrictions u) (us_MustChangeLogin u) false
    (us_RADIUSPolicyID u).

(** The body shared by the two verifier overrides. *)
Definition override_verifier (m : Manager) (key : string -> string) (set : User -> SecretRef -> User) (purpose : string)
    (userID : string) (verifier : bytes) (now : Z) (ov : overlay) (rev : Z) : change :=
  let! id := NormalizeUserID precis userID in
  let! users := update_object (dc_Users (mg_baseline m)) (allows m) (ov_users ov) rev now id
                  (fun cur => Ok (set cur (memory_ref purpose (key id)))) in
  Ok (with_users (with_secrets ov (<[key id := verifier]> (ov_secrets ov))) users, None).

Definition login_key (id : string) : string := cat "login:" id.
Definition enable_key (id : string) : string := cat "enable:" id.

Definition OverrideLoginVerifier (m : Manager) (userID : string) (verifier : bytes) (expected : option Z) (now : Z) :=
  match ValidatePHC verifier with
  | Err _ => (m, Err (invalid "login verifier is not a valid argon2id PHC string" ""))
  | Ok _ => mutate m expected now (override_verifier m login_key with_login PurposeLoginVerifier userID verifier now)
  end.
Definition OverrideEnableVerifier (m : Manager) (userID : string) (verifier : bytes) (expected : option Z) (now : Z) :=
  match ValidatePHC verifier with
  | Err _ => (m, Err (invalid "enable verifier is not a valid argon2id PHC string" ""))
  | Ok _ => mutate m expected now (override_verifier m enable_key with_enable PurposeEnableVerifier userID verifier now)
  end.

Definition CreateGroup_ (m : Manager) (req : CreateGroup) (expected : option Z) (now : Z) :=
  mutate m expected now (fun ov rev =>
    requireID (ng_ID req) "id" ;!
    change_groups ov (create_object (dc_Groups (mg_baseline m)) (allows m) (ov_groups ov) rev now (ng_ID req) (ng_Override req)
      (fun b => Ok (groupFromCreate b req)))).
Definition UpdateGroup_ (m : Manager) (id : string) (patch : UpdateGroup) (expected : option Z) (now : Z) :=
  mutate m expected now (fun ov rev =>
    requireID id "id" ;!
    change_groups ov (update_object (dc_Groups (mg_baseline m)) (allows m) (ov_groups ov) rev now id (fun cur => Ok (applyGroupPatch cur patch)))).
Definition DeleteGroup (m : Manager) (id : string) (tombstone : bool) (actor : string) (expected : option Z) (now : Z) :=
  mutate m expected now (fun ov rev =>
    requireID id "id" ;!
    change_groups ov (delete_object (dc_Groups (mg_baseline m)) (ov_groups ov) rev now id tombstone actor false)).

Definition CreateClient_ (m : Manager) (req : CreateClient) (expected : option Z) (now : Z) :=
  mutate m expected now (fun ov rev =>
    requireID (nc_ID req) "id" ;!
    change_clients ov (create_object (dc_Clients (mg_baseline m)) (allows m) (ov_clients ov) rev now (nc_ID req) (nc_Override req)
      (fun b => clientFromCreate b req))).
Definition UpdateClient_ (m : Manager) (id : string) (patch : UpdateClient) (expected : option Z) (now : Z) :=
  mutate m expected now (fun ov rev =>
    requireID id "id" ;!
    change_clients ov (update_object (dc_Clients (mg_baseline m)) (allows m) (ov_clients ov) rev now id (fun cur => applyClientPatch cur patch))).
Definition DeleteClient (m : Manager) (id : string) (tombstone : bool) (actor : string) (expected : option Z) (now : Z) :=
  mutate m expected now (fun ov rev =>
    requireID id "id" ;!
    change_clients ov (delete_object (dc_Clients (mg_baseline m)) (ov_clients ov) rev now id tombstone actor false)).

(** [type CreateToken]: the material is digested and not kept. *)
Record CreateToken := mkCreateToken {
  nt_ID : string; nt_Name : string; nt_Scopes : list string; nt_Enabled : option bool; nt_ExpiresAt : option Z;
  nt_Material : bytes; nt_Override : bool;
}.
Definition token_from (req : CreateToken) : tokenRecord :=
  let dig := if len (nt_Material req) =? 0 then no_digest else DigestToken (newSecret (nt_Material req)) in
  mkToken (nt_ID req) (nt_Name req) (nt_Scopes req) (default true (nt_Enabled req)) (nt_ExpiresAt req) (negb (digest_empty dig)) dig.
Definition CreateToken_ (m : Manager) (req : CreateToken) (expected : option Z) (now : Z) :=
  mutate m expected now (fun ov rev =>
    let base := base_tokens (mg_baseline m) in
    let id := nt_ID req in
    requireID id "id" ;!
    each (fun i s => refuse (negb (ValidScope s)) (invalid "unknown scope" (cat "scopes[" (cat (pretty i) "]")))) (nt_Scopes req) 0 ;!
    refuse (len (nt_Scopes req) =? 0) (invalid "at least one scope is required" "scopes") ;!
    refuse (bool_decide (is_Some (live_find base (ov_tokens ov) id)) && negb (nt_Override req)) (already_exists (A := tokenRecord) id) ;!
    refuse (in_base base id && negb (nt_Override req)) (already_exists (A := tokenRecord) id) ;!
    refuse (in_base base id && negb (allows m)) (shadowing_disabled (A := tokenRecord) id) ;!
    let t := token_from req in
    let '(src, shadows) := if in_base base id then (SourceOverride, SourceConfig) else (SourceRuntime, ""%string) in
    Ok (with_tokens ov (<[id := Live t (newOverlayMeta KindToken id (nt_Name req) src shadows (tk_Enabled t) ∅ rev now
                                          (live_meta (ov_tokens ov !! id)))]> (ov_tokens ov)), None)).
Definition DeleteToken (m : Manager) (id : string) (tombstone : bool) (actor : string) (expected : option Z) (now : Z) :=
  mutate m expected now (fun ov rev =>
    requireID id "id" ;!
    change_tokens ov (delete_object (base_tokens (mg_baseline m)) (ov_tokens ov) rev now id tombstone actor false)).

(** ** Histories *)

Inductive operation :=
| OpReload (d : option Document)
| OpReset
| OpCreateUser (req : CreateUser) | OpUpdateUser (id : string) (p : UpdateUser) | OpDeleteUser (id : string) (tombstone : bool) (actor : string)
| OpOverrideLogin (id : string) (phc : bytes) | OpOverrideEnable (id : string) (phc : bytes)
| OpCreateGroup (req : CreateGroup) | OpUpdateGroup (id : string) (p : UpdateGroup) | OpDeleteGroup (id : string) (tombstone : bool) (actor : string)
| OpCreateClient (req : CreateClient) | OpUpdateClient (id : string) (p : UpdateClient)
| OpDeleteClient (id : string) (tombstone : bool) (actor : string)
| OpCreateToken (req : CreateToken) | OpDeleteToken (id : string) (tombstone : bool) (actor : string).

(** One call: the operation, the revision its caller expects, the clock. *)
Definition exec (m : Manager) (o : operation) (expected : option Z) (now : Z) : Manager * result cfg_error (Snapshot Dict) :=
  match o with
  | OpReload d => Reload m d expected now
  | OpReset => Reset_ m expected now
  | OpCreateUser req => CreateUser_ m req expected now
  | OpUpdateUser id p => UpdateUser_ m id p expected now
  | OpDeleteUser id t a => DeleteUser m id t a expected now
  | OpOverrideLogin id phc => OverrideLoginVerifier m id phc expected now
  | OpOverrideEnable id phc => OverrideEnableVerifier m id phc expected now
  | OpCreateGroup req => CreateGroup_ m req expected now
  | OpUpdateGroup id p => UpdateGroup_ m id p expected now
  | OpDeleteGroup id t a => DeleteGroup m id t a expected now
  | OpCreateClient req => CreateClient_ m req expected now
  | OpUpdateClient id p => UpdateClient_ m id p expected now
  | OpDeleteClient id t a => DeleteClient m id t a expected now
  | OpCreateToken req => CreateToken_ m req expected now
  | OpDeleteToken id t a => DeleteToken m id t a expected now
  end.

(** The manager a history of calls leaves: [New] and then the calls in the
    order the lock admits them. *)
Inductive reachable : Manager -> Prop :=
| reach_new d lookup key hook now m : New d lookup key hook now = Ok m -> reachable m
| reach_call m o expected now : reachable m -> reachable (exec m o expected now).1.
End Compile.
