(* ===== verification/StateSpec.v ===== *)
(** * What the state manager publishes

    Facts about [StateManager]: a merge of a baseline and an overlay is the
    function [live_find] of the two; a snapshot holds exactly the merged
    objects, listed in order; every operation changes one object, or one
    collection, of the published view, atomically and under the revision its
    caller expects. *)

From stdpp Require Import gmap strings sorting.
From S2P Require Import Prelude Text Sha256 StableSort Credentials Domain Policy RadiusPolicy ClientMatch ConfigModel ConfigValidate ConfigSpec ConfigSecrets SecretSpec StatePatch StateManager.

#[local] Open Scope Z_scope.

(** ** Sorted keys *)

#[export] Instance str_order_trans : Transitive (in_order str_ltb).
Proof.
  intros a b c. unfold in_order. intros H1 H2. apply not_true_iff_false. intros H3.
  destruct (str_ltb a b) eqn:E; [pose proof (str_ltb_trans _ _ _ H3 E); congruence|]. pose proof (str_ltb_total a b E H1). congruence.
Qed.
Lemma str_ltb_asym a b : str_ltb a b = true -> str_ltb b a = false.
Proof. intros H. apply not_true_iff_false. intros H'. pose proof (str_ltb_trans _ _ _ H H') as E. by rewrite str_ltb_irrefl in E. Qed.
Lemma sorted_strings l : StronglySorted (in_order str_ltb) (SliceStable str_ltb l).
Proof. apply SliceStable_sorted; [apply _|exact str_ltb_asym]. Qed.

Lemma elem_of_sorted_keys {V} (m : gmap string V) id : id ∈ sorted_keys m <-> is_Some (m !! id).
Proof.
  unfold sorted_keys. rewrite (elem_of_Permutation_proper id _ _ (SliceStable_perm _ _)), list_elem_of_In, in_map_iff. split.
  - intros ([i v] & <- & H). apply list_elem_of_In, elem_of_map_to_list in H. by exists v.
  - intros [v H]. exists (id, v). split; [done|]. by apply list_elem_of_In, elem_of_map_to_list.
Qed.
Lemma NoDup_sorted_keys {V} (m : gmap string V) : NoDup (sorted_keys m).
Proof. unfold sorted_keys. rewrite SliceStable_perm. apply NoDup_fst_map_to_list. Qed.

(** ** Merging *)

Section Merge.
Context {A : Type} `{Object A} (m : gmap string (entry A)) (rev now : Z).

(** The live entries are filed under the id of their object. *)
Definition keyed : Prop := forall id a meta, m !! id = Some (Live a meta) -> ob_id a = id.

Lemma baseline_find_id (base : list A) id a : baseline_find base id = Some a -> ob_id a = id.
Proof. intros E. apply find_some in E as [_ E]. by apply str_eqb_iff in E. Qed.
Lemma baseline_find_some (base : list A) id : is_Some (baseline_find base id) <-> id ∈ map ob_id base.
Proof.
  split.
  - intros [a E]. pose proof (baseline_find_id _ _ _ E) as <-. apply find_some in E as [E _]. by apply list_elem_of_In, in_map.
  - intros Hin. apply list_elem_of_In, in_map_iff in Hin as (a & <- & Ha). unfold baseline_find. destruct (find _ base) eqn:E; [by eexists|].
    apply (find_none _ _ E) in Ha. by rewrite (proj2 (str_eqb_iff _ _)) in Ha.
Qed.

(** A merged object is what [live_find] finds under its key. *)
Definition entry_of (x : merged A) : Prop :=
  (exists meta, m !! me_key x = Some (Live (me_value x) meta) /\ me_meta x = WithSnapshotRevision meta rev)
  \/ (m !! me_key x = None /\ ob_id (me_value x) = me_key x /\ om_Source (me_meta x) = SourceConfig /\ om_EffectiveRevision (me_meta x) = rev
      /\ om_ID (me_meta x) = me_key x /\ om_Kind (me_meta x) = ob_kind A).

Lemma configMeta_spec (a : A) born meta born' :
  configMeta a rev now born = (meta, born') ->
  om_Source meta = SourceConfig /\ om_EffectiveRevision meta = rev /\ om_ID meta = ob_id a /\ om_Kind meta = ob_kind A.
Proof. unfold configMeta. intros E. destruct (born !! _); injection E as <- <-; done. Qed.

(** The loop over the baseline: one merged object per baseline object that is
    not deleted, in order, and the tombstones of the others. *)
Definition base_live (a : A) : bool := negb (match m !! ob_id a with Some (Dead _ _) => true | _ => false end).
Lemma merge_base_spec base born out tombs born' :
  merge_base m rev now base born = (out, tombs, born') ->
  Forall entry_of out
  /\ (forall x, x ∈ out -> m !! me_key x = None -> me_value x ∈ base)
  /\ (forall a, a ∈ base -> base_live a = true -> exists x, x ∈ out /\ me_key x = ob_id a /\ (m !! ob_id a = None -> me_value x = a))
  /\ (forall t, t ∈ tombs <-> exists a meta, a ∈ base /\ m !! ob_id a = Some (Dead t meta)).
Proof.
  revert born out tombs born'. induction base as [|a base IH]; intros born out tombs born' E; cbn in E.
  { injection E as <- <- <-. split; [done|]. split; [by intros x ?%not_elem_of_nil|]. split; [by intros x ?%not_elem_of_nil|].
    intros t. split; [by intros ?%not_elem_of_nil|]. by intros (? & ? & ?%not_elem_of_nil & _). }
  assert (forall out0 x, (forall b, b ∈ base -> base_live b = true -> exists y, y ∈ out0 /\ me_key y = ob_id b /\ (m !! ob_id b = None -> me_value y = b)) ->
    me_key x = ob_id a -> (m !! ob_id a = None -> me_value x = a) ->
    forall b, b ∈ a :: base -> base_live b = true -> exists y, y ∈ x :: out0 /\ me_key y = ob_id b /\ (m !! ob_id b = None -> me_value y = b)) as Hcons.
  { intros out0 x Hout Hx1 Hx2 b [->|Hb]%elem_of_cons Hl; [exists x; split; [by left|done]|].
    destruct (Hout b Hb Hl) as (y & Hy & Hr). exists y. split; [by right|done]. }
  destruct (m !! ob_id a) as [[b meta|t meta]|] eqn:Em.
  - destruct (merge_base m rev now base born) as [[out0 tombs0] born0] eqn:E0. injection E as <- <- <-.
    destruct (IH _ _ _ _ E0) as (IHe & IHv & IHl & IHt). split; [constructor; [left; by exists meta|done]|].
    split; [intros x [->|Hx]%elem_of_cons Hn; [cbn in Hn; congruence|right; by apply IHv]|]. split; [by apply Hcons|].
    intros t. rewrite IHt. split; [intros (x & mt & Hx & Ht); exists x, mt; split; [by right|done]|].
    intros (x & mt & [->|Hx]%elem_of_cons & Ht); [congruence|by exists x, mt].
  - destruct (merge_base m rev now base born) as [[out0 tombs0] born0] eqn:E0. injection E as <- <- <-.
    destruct (IH _ _ _ _ E0) as (IHe & IHv & IHl & IHt). split; [done|]. split; [intros x Hx Hn; right; by apply IHv|]. split.
    { intros b [->|Hb]%elem_of_cons Hl; [unfold base_live in Hl; by rewrite Em in Hl|by apply IHl]. }
    intros t'. rewrite elem_of_cons, IHt. split.
    + intros [->|(x & mt & Hx & Ht)]; [exists a, meta; split; [by left|done]|exists x, mt; split; [by right|done]].
    + intros (x & mt & [->|Hx]%elem_of_cons & Ht); [left; congruence|right; by exists x, mt].
  - destruct (configMeta a rev now born) as [meta born1] eqn:Ec.
    destruct (merge_base m rev now base born1) as [[out0 tombs0] born0] eqn:E0. injection E as <- <- <-.
    destruct (IH _ _ _ _ E0) as (IHe & IHv & IHl & IHt). destruct (configMeta_spec _ _ _ _ Ec) as (? & ? & ? & ?).
    split; [constructor; [by right|done]|].
    split; [intros x [->|Hx]%elem_of_cons Hn; [by left|right; by apply IHv]|]. split; [by apply Hcons|].
    intros t. rewrite IHt. split; [intros (x & mt & Hx & Ht); exists x, mt; split; [by right|done]|].
    intros (x & mt & [->|Hx]%elem_of_cons & Ht); [congruence|by exists x, mt].
Qed.

(** The loop over the overlay: its live objects outside the baseline. *)
Definition overlay_live (seen : list string) (id : string) : bool :=
  negb (have seen id) && match m !! id with Some (Live _ _) => true | _ => false end.
Lemma merge_overlay_spec seen ids out tombs :
  merge_overlay m rev seen ids = (out, tombs) ->
  map me_key out = List.filter (overlay_live seen) ids /\ Forall entry_of out
  /\ (forall t, t ∈ tombs <-> exists id meta, id ∈ ids /\ (id ∉ seen) /\ m !! id = Some (Dead t meta)).
Proof.
  revert out tombs. induction ids as [|id ids IH]; intros out tombs E; cbn in E.
  { injection E as <- <-. split; [done|]. split; [done|]. intros t. split; [by intros ?%not_elem_of_nil|].
    intros (? & ? & ?%not_elem_of_nil & _). done. }
  destruct (merge_overlay m rev seen ids) as [out0 tombs0] eqn:E0. destruct (IH _ _ eq_refl) as (IHk & IHe & IHt).
  cbn [List.filter]. unfold overlay_live at 1.
  assert (forall t, (forall meta, id ∉ seen -> m !! id = Some (Dead t meta) -> False) ->
    (t ∈ tombs0 <-> exists i meta, i ∈ id :: ids /\ (i ∉ seen) /\ m !! i = Some (Dead t meta))) as Hskip.
  { intros t Hno. rewrite IHt. split; [intros (i & mt & Hi & Hr); exists i, mt; split; [by right|done]|].
    intros (i & mt & [->|Hi]%elem_of_cons & Hs & Hm); [by destruct (Hno mt)|by exists i, mt]. }
  destruct (have seen id) eqn:Es; cbn [negb andb].
  { injection E as <- <-. split; [done|]. split; [done|]. intros t. apply Hskip. intros mt Hs. by apply have_spec in Es. }
  apply have_false in Es. destruct (m !! id) as [[b meta|t meta]|] eqn:Em; injection E as <- <-.
  - split; [cbn; by rewrite IHk|]. split; [constructor; [left; by exists meta|done]|]. intros t. apply Hskip. congruence.
  - split; [done|]. split; [done|]. intros t'. rewrite elem_of_cons, IHt. split.
    + intros [->|(i & mt & Hi & Hr)]; [exists id, meta; split; [by left|done]|exists i, mt; split; [by right|done]].
    + intros (i & mt & [->|Hi]%elem_of_cons & Hs & Hm); [left; congruence|right; by exists i, mt].
  - split; [done|]. split; [done|]. intros t. apply Hskip. congruence.
Qed.

(** A merge takes every live object and every tombstone of the overlay, and the
    objects of the baseline the overlay does not mention. *)
Lemma merge_spec base born out tombs born' :
  merge m rev now base born = (out, tombs, born') ->
  Forall entry_of out
  /\ (forall x, x ∈ out -> m !! me_key x = None -> me_value x ∈ base)
  /\ (forall a, a ∈ base -> m !! ob_id a = None -> exists x, x ∈ out /\ me_key x = ob_id a /\ me_value x = a)
  /\ (forall id a meta, m !! id = Some (Live a meta) -> exists x, x ∈ out /\ me_key x = id)
  /\ (forall t, t ∈ tombs <-> exists id meta, m !! id = Some (Dead t meta)).
Proof.
  unfold merge. destruct (merge_base _ _ _ _ _) as [[out0 tombs0] born0] eqn:E0. destruct (merge_overlay _ _ _ _) as [out1 tombs1] eqn:E1.
  intros E. injection E as <- <- <-. destruct (merge_base_spec _ _ _ _ _ E0) as (He0 & Hv0 & Hl0 & Ht0).
  destruct (merge_overlay_spec _ _ _ _ E1) as (Hk1 & He1 & Ht1).
  split; [by apply Forall_app|]. split; [|split; [|split]].
  - intros x [Hx|Hx]%elem_of_app Hn; [by apply Hv0|].
    assert (me_key x ∈ map me_key out1) as Hin by (apply list_elem_of_In, in_map; by apply list_elem_of_In).
    rewrite Hk1, list_elem_of_In, filter_In in Hin. destruct Hin as [_ Hin]. unfold overlay_live in Hin.
    rewrite Hn in Hin. by rewrite andb_false_r in Hin.
  - intros a Ha Hn. destruct (Hl0 a Ha) as (x & Hx & Hk & Hv); [unfold base_live; by rewrite Hn|].
    exists x. split; [apply elem_of_app; by left|]. split; [done|by apply Hv].
  - intros id a meta Hm. destruct (decide (id ∈ map ob_id base)) as [Hin|Hout].
    + apply list_elem_of_In, in_map_iff in Hin as (b & <- & Hin). destruct (Hl0 b) as (x & Hx & Hk & _).
      { by apply list_elem_of_In. } { unfold base_live. by rewrite Hm. }
      exists x. split; [apply elem_of_app; by left|done].
    + assert (id ∈ map me_key out1) as Hin.
      { rewrite Hk1. apply list_elem_of_In, filter_In. split; [apply list_elem_of_In, elem_of_sorted_keys; by eexists|].
        unfold overlay_live. rewrite Hm. by rewrite (proj2 (have_false _ _) Hout). }
      apply list_elem_of_In, in_map_iff in Hin as (x & <- & Hin). exists x. split; [|done]. apply elem_of_app. right. by apply list_elem_of_In.
  - intros t. rewrite elem_of_app, Ht0, Ht1. split.
    + intros [(a & mt & _ & Ht)|(id & mt & _ & _ & Ht)]; by eexists _, mt.
    + intros (id & mt & Ht). destruct (decide (id ∈ map ob_id base)) as [Hin|Hout].
      * apply list_elem_of_In, in_map_iff in Hin as (b & <- & Hin). left. exists b, mt. split; [by apply list_elem_of_In|done].
      * right. exists id, mt. split_and!; [apply elem_of_sorted_keys; by eexists|done|done].
Qed.

(** The value of a merged object carries the key, where the overlay is keyed. *)
Lemma entry_of_id x : keyed -> entry_of x -> ob_id (me_value x) = me_key x.
Proof. intros Hk [(meta & Hm & _)|(_ & He & _)]; [by apply (Hk _ _ meta)|done]. Qed.

Lemma NoDup_inj {B C} (f : B -> C) l x y : NoDup (map f l) -> x ∈ l -> y ∈ l -> f x = f y -> x = y.
Proof.
  intros Hn [i Hi]%list_elem_of_lookup [j Hj]%list_elem_of_lookup Hxy. assert (i = j) as ->; [|congruence].
  eapply (NoDup_lookup _ _ _ (f x) Hn); rewrite list_lookup_fmap; [by rewrite Hi|rewrite Hj; cbn; by f_equal].
Qed.

(** A merge is the function [live_find] of the baseline and the overlay, when
    no id comes up twice. *)
Lemma merge_live base born out tombs born' :
  merge m rev now base born = (out, tombs, born') -> keyed -> NoDup (map (fun x => ob_id (me_value x)) out) ->
  forall id a, (exists x, x ∈ out /\ ob_id (me_value x) = id /\ me_value x = a) <-> live_find base m id = Some a.
Proof.
  intros E Hk Hn id a. destruct (merge_spec _ _ _ _ _ E) as (He & Hb & Hl & Ho & _). rewrite list.Forall_forall in He.
  assert (forall x, x ∈ out -> ob_id (me_value x) = me_key x) as Hid by (intros x Hx; by apply entry_of_id, He).
  unfold live_find. split.
  - intros (x & Hx & <- & <-). rewrite (Hid x Hx). destruct (He x Hx) as [(meta & -> & _)|(Hm & Hi & _)]; [done|]. rewrite Hm.
    destruct (proj2 (baseline_find_some base (me_key x))) as [b Eb].
    { rewrite <- Hi. by apply list_elem_of_In, in_map, list_elem_of_In, Hb. }
    rewrite Eb. pose proof (baseline_find_id _ _ _ Eb) as Hbi. destruct (Hl b) as (y & Hy & Hyk & <-).
    { apply find_some in Eb as [Eb _]. by apply list_elem_of_In. } { by rewrite Hbi. }
    f_equal. f_equal. apply (NoDup_inj _ _ _ _ Hn Hy Hx). by rewrite !Hid, Hyk, Hbi.
  - destruct (m !! id) as [[b meta|t meta]|] eqn:Em; [|done|].
    + intros [= <-]. destruct (Ho _ _ _ Em) as (x & Hx & <-). exists x. split; [done|]. split; [by apply Hid|].
      destruct (He x Hx) as [(mt & Hm & _)|(Hm & _)]; congruence.
    + intros Eb. pose proof (baseline_find_id _ _ _ Eb) as <-. destruct (Hl a) as (x & Hx & Hxk & <-); [|done|by exists x].
      apply find_some in Eb as [Eb _]. by apply list_elem_of_In.
Qed.
End Merge.

(** ** A published collection *)

Lemma fill_spec {A X} (key : A -> string) (build : ObjectMeta -> A -> result cfg_error X) rev l m m' :
  fill key build rev l m = Ok m' -> NoDup (map (fun x => key (me_value x)) l) -> (forall x, x ∈ l -> m !! key (me_value x) = None) ->
  forall id v, m' !! id = Some v <->
    m !! id = Some v \/ exists x, x ∈ l /\ key (me_value x) = id /\ build (WithSnapshotRevision (me_meta x) rev) (me_value x) = Ok v.
Proof.
  revert m. induction l as [|y l IH]; intros m E Hn Hf id v; cbn [fill] in E.
  { injection E as <-. split; [by left|]. intros [H|(x & ?%not_elem_of_nil & _)]; done. }
  apply rbind_Ok in E as (w & Ew & E). apply list.NoDup_cons in Hn as [Hy Hn]. rewrite (IH _ E Hn).
  2:{ intros x Hx. rewrite lookup_insert_ne; [by apply Hf; right|]. intros Hxy. apply Hy. rewrite Hxy.
      apply list_elem_of_In, in_map_iff. exists x. split; [done|by apply list_elem_of_In]. }
  rewrite lookup_insert_Some. split.
  - intros [[[<- <-]|[? ?]]|(x & Hx & Hr)]; [right; exists y; split; [by left|done]|by left|right; exists x; split; [by right|done]].
  - intros [Hm|(x & [->|Hx]%elem_of_cons & <- & Hb)].
    + left. right. split; [|done]. intros <-. rewrite (Hf y) in Hm; [done|by left].
    + left. left. split; [done|congruence].
    + right. by exists x.
Qed.

Section Published.
Context {A X B : Type} `{Object A} (build : ObjectMeta -> A -> result cfg_error X) (value : X -> B) (image : A -> B) (meta_of : X -> ObjectMeta).
Hypothesis build_value : forall meta a x, build meta a = Ok x -> value x = image a /\ meta_of x = meta.

(** The objects a snapshot holds are those [live_find] finds, with the
    metadata of their overlay entry or fresh baseline metadata, and listed in
    order. *)
Record collection_ok (base : list A) (m : gmap string (entry A)) (rev : Z) (mp : gmap string X) (ids : list string) : Prop := {
  cl_values : forall id, value <$> mp !! id = image <$> live_find base m id;
  cl_revision : forall id x, mp !! id = Some x -> om_EffectiveRevision (meta_of x) = rev /\ om_ID (meta_of x) = id;
  cl_overlaid : forall id x meta, mp !! id = Some x -> live_meta (m !! id) = Some meta -> meta_of x = WithSnapshotRevision meta rev;
  cl_baseline : forall id x, mp !! id = Some x -> m !! id = None -> om_Source (meta_of x) = SourceConfig;
  cl_ids : forall id, id ∈ ids <-> is_Some (mp !! id);
  cl_nodup : NoDup ids;
  cl_sorted : StronglySorted (in_order str_ltb) ids;
}.

(** An overlay entry is filed under the id of its metadata too. *)
Definition meta_keyed (m : gmap string (entry A)) : Prop := forall id a meta, m !! id = Some (Live a meta) -> om_ID meta = id.

Lemma collection_spec (m : gmap string (entry A)) rev now base born out tombs born' mp :
  merge m rev now base born = (out, tombs, born') -> keyed m -> meta_keyed m -> NoDup (map (fun x => ob_id (me_value x)) out) ->
  fill ob_id build rev out ∅ = Ok mp -> collection_ok base m rev mp (sorted_ids out).
Proof.
  intros Em Hk Hmk Hn Ef. pose proof (merge_live m rev now _ _ _ _ _ Em Hk Hn) as Hlive.
  destruct (merge_spec m rev now _ _ _ _ _ Em) as (He & _). rewrite list.Forall_forall in He.
  assert (forall id x, mp !! id = Some x <-> exists y, y ∈ out /\ ob_id (me_value y) = id
            /\ build (WithSnapshotRevision (me_meta y) rev) (me_value y) = Ok x) as Hmp.
  { intros id x. rewrite (fill_spec _ _ _ _ _ _ Ef Hn); [|done]. rewrite lookup_empty. naive_solver. }
  assert (forall y, y ∈ out -> is_Some (mp !! ob_id (me_value y))) as Hall.
  { clear - Ef. assert (forall mp0, fill ob_id build rev out mp0 = Ok mp -> (forall y, y ∈ out -> is_Some (mp !! ob_id (me_value y)))
      /\ forall id, is_Some (mp0 !! id) -> is_Some (mp !! id)) as HH; [|by apply (HH ∅)]. clear Ef.
    induction out as [|z l IH]; intros mp0 E; cbn [fill] in E.
    { injection E as <-. split; [by intros y ?%not_elem_of_nil|done]. }
    apply rbind_Ok in E as (w & _ & E). destruct (IH _ E) as [IH1 IH2]. split.
    - intros y [->|Hy]%elem_of_cons; [apply IH2; rewrite lookup_insert_eq; by eexists|by apply IH1].
    - intros id Hid. apply IH2. destruct (decide (ob_id (me_value z) = id)) as [->|]; [rewrite lookup_insert_eq; by eexists|by rewrite lookup_insert_ne]. }
  split.
  - intros id. destruct (live_find base m id) as [a|] eqn:El; cbn.
    + apply Hlive in El as (y & Hy & <- & <-). destruct (Hall y Hy) as [x Hx]. rewrite Hx. cbn. f_equal.
      apply Hmp in Hx as (z & Hz & Hzy & Hb). rewrite (NoDup_inj _ _ _ _ Hn Hz Hy Hzy) in Hb. by apply build_value in Hb as [? _].
    + destruct (mp !! id) as [x|] eqn:Ex; [|done]. apply Hmp in Ex as (y & Hy & <- & Hb).
      assert (live_find base m (ob_id (me_value y)) = Some (me_value y)) by (apply Hlive; by exists y). congruence.
  - intros id x Hx. apply Hmp in Hx as (y & Hy & <- & Hb). apply build_value in Hb as [_ ->].
    rewrite (entry_of_id m rev y Hk (He y Hy)). split; [done|].
    destruct (He y Hy) as [(meta & Hm & ->)|(_ & _ & _ & _ & Hi & _)]; [exact (Hmk _ _ _ Hm)|done].
  - intros id x meta Hx Hm. apply Hmp in Hx as (y & Hy & <- & Hb). apply build_value in Hb as [_ ->].
    rewrite (entry_of_id m rev y Hk (He y Hy)) in Hm. destruct (He y Hy) as [(mt & Hmt & ->)|(Hmt & _)]; rewrite Hmt in Hm; [|done].
    by injection Hm as ->.
  - intros id x Hx Hm. apply Hmp in Hx as (y & Hy & <- & Hb). apply build_value in Hb as [_ ->].
    rewrite (entry_of_id m rev y Hk (He y Hy)) in Hm. destruct (He y Hy) as [(mt & Hmt & _)|(_ & _ & Hs & _)]; [congruence|done].
  - intros id. unfold sorted_ids. rewrite (elem_of_Permutation_proper id _ _ (SliceStable_perm _ _)), list_elem_of_In, in_map_iff. split.
    + intros (y & <- & Hy). apply Hall. by apply list_elem_of_In.
    + intros [x Hx]. apply Hmp in Hx as (y & Hy & <- & _). exists y. split; [done|by apply list_elem_of_In].
  - unfold sorted_ids. by rewrite SliceStable_perm.
  - apply sorted_strings.
Qed.
End Published.

(** ** Bearer digests *)

(** The tables agree: a digest's index names the one token that has it. *)
Definition tables_ok (t : token_tables) : Prop :=
  forall i id, t.1 !! i = Some id <-> id <> ""%string /\ exists d, t.2 !! id = Some d /\ DigestIndex d = i.

Lemma tables_put t d id idx :
  tables_ok t -> digest_empty d = false -> t.2 !! id = None -> putTokenDigest t.1 d id = Ok idx -> tables_ok (idx, <[id := d]> t.2).
Proof.
  intros Hok Hd Hn E. unfold putTokenDigest in E. rewrite Hd in E. cbn [orb] in E. destruct (str_eqb id "") eqn:Ei.
  - apply str_eqb_iff in Ei as ->. injection E as <-. intros i j. rewrite (Hok i j). cbn. split; intros [Hj (d' & Hd' & Hi)]; (split; [done|]).
    + exists d'. by rewrite lookup_insert_ne by done.
    + exists d'. by rewrite lookup_insert_ne in Hd' by done.
  - apply str_neq in Ei. destruct (t.1 !! DigestIndex d) as [j|] eqn:Ej.
    { pose proof (proj1 (Hok _ _) Ej) as [_ (d' & Hd' & _)]. destruct (str_eqb j id) eqn:Eji; cbn [negb] in E; [|discriminate].
      apply str_eqb_iff in Eji as ->. congruence. }
    injection E as <-. intros i j. cbn [fst snd]. destruct (decide (i = DigestIndex d)) as [->|Hi].
    + rewrite lookup_insert_eq. split.
      * intros [= <-]. split; [done|]. exists d. by rewrite lookup_insert_eq.
      * intros [Hj (d' & Hd' & Hi)]. destruct (decide (j = id)) as [->|Hji]; [done|]. rewrite lookup_insert_ne in Hd' by done.
        assert (t.1 !! DigestIndex d = Some j) by (apply Hok; split; [done|by exists d']). congruence.
    + rewrite lookup_insert_ne by done. rewrite (Hok i j). split; intros [Hj (d' & Hd' & Hdi)]; (split; [done|]).
      * exists d'. rewrite lookup_insert_ne; [done|congruence].
      * destruct (decide (j = id)) as [->|]; [rewrite lookup_insert_eq in Hd'; congruence|]. rewrite lookup_insert_ne in Hd' by done. by exists d'.
Qed.

Lemma index_overlay_spec live l t t' :
  index_overlay live l t = Ok t' -> NoDup l.*1 -> (forall id, id ∈ l.*1 -> t.2 !! id = None) -> tables_ok t ->
  tables_ok t' /\ forall id d, t'.2 !! id = Some d <-> t.2 !! id = Some d \/ ((id, d) ∈ l /\ id ∈ live /\ digest_empty d = false).
Proof.
  revert t. induction l as [|[id d] l IH]; intros t E Hn Hf Hok; cbn [index_overlay] in E.
  { injection E as <-. split; [done|]. intros i d. split; [by left|]. by intros [?|(?%not_elem_of_nil & _)]. }
  cbn in Hn. apply list.NoDup_cons in Hn as [Hid Hn].
  destruct (negb (have live id) || digest_empty d) eqn:Eskip.
  - destruct (IH _ E Hn) as [Hok' Hl]; [intros i Hi; apply Hf; by right|done|]. split; [done|]. intros i d'. rewrite Hl, elem_of_cons.
    apply orb_true_iff in Eskip. split; [intros [?|(?&?&?)]; [by left|right; split_and!; [by right|done|done]]|].
    intros [?|([[= -> ->]|?] & Hlive & Hd)]; [by left| |by right]. destruct Eskip as [Ex|Ex]; [|congruence].
    apply negb_true_iff, have_false in Ex. done.
  - apply orb_false_iff in Eskip as [El Ed]. apply negb_false_iff, have_spec in El. apply rbind_Ok in E as (idx & Ep & E).
    assert (t.2 !! id = None) as Hid0 by (apply Hf; left).
    destruct (IH _ E Hn) as [Hok' Hl].
    + intros i Hi. cbn. rewrite lookup_insert_ne; [apply Hf; by right|]. intros <-. done.
    + by apply tables_put.
    + split; [done|]. intros i d'. rewrite Hl, elem_of_cons. cbn. rewrite lookup_insert_Some. split.
      * intros [[[<- <-]|[? ?]]|(?&?&?)]; [right; split_and!; [by left|done|done]|by left|right; split_and!; [by right|done|done]].
      * intros [Hi|([[= -> ->]|?] & Hlive & Hd)]; [|left; by left|by right]. left. right. split; [|done]. intros <-. congruence.
Qed.

(** The tokens of the baseline that get the digest of their file. *)
Definition boot_reads (live : list string) (overlay : gmap string TokenDigest) (b : BootstrapToken) : Prop :=
  bt_ID b ∈ live /\ overlay !! bt_ID b = None /\ Set_ (bt_Token b) = true.
Lemma len_digest raw : len (td_v (DigestToken (newSecret raw))) = 32.
Proof. apply len_sha256. Qed.
Lemma digest_not_empty raw : digest_empty (DigestToken (newSecret raw)) = false.
Proof. unfold digest_empty. by rewrite len_digest. Qed.

Lemma index_bootstrap_spec live overlay lookup l t t' :
  index_bootstrap live overlay lookup l t = Ok t' -> NoDup (map bt_ID (List.filter (fun b => have live (bt_ID b)) l)) ->
  (forall b, b ∈ l -> boot_reads live overlay b -> t.2 !! bt_ID b = None) -> tables_ok t ->
  tables_ok t' /\ forall id d, t'.2 !! id = Some d <->
    t.2 !! id = Some d \/ exists b raw, b ∈ l /\ bt_ID b = id /\ boot_reads live overlay b /\ lookup (bt_Token b) = Ok raw /\ d = DigestToken (newSecret raw).
Proof.
  revert t. induction l as [|b l IH]; intros t E Hn Hf Hok; cbn [index_bootstrap] in E.
  { injection E as <-. split; [done|]. intros i d. split; [by left|]. intros [?|(?&?&?%not_elem_of_nil & _)]; done. }
  assert (NoDup (map bt_ID (List.filter (fun b => have live (bt_ID b)) l))) as Hn'.
  { cbn in Hn. destruct (have live (bt_ID b)); [|done]. cbn in Hn. by apply list.NoDup_cons in Hn as [_ Hn]. }
  destruct (_ || negb (Set_ (bt_Token b))) eqn:Eskip.
  - destruct (IH _ E Hn') as [Hok' Hl]; [intros c Hc; apply Hf; by right|done|]. split; [done|]. intros i d'. rewrite Hl.
    split; [intros [?|(c&raw&?&Hr)]; [by left|right; exists c, raw; split; [by right|done]]|].
    intros [?|(c & raw & [->|Hc]%elem_of_cons & Hi & (Hr1 & Hr2 & Hr3) & Hr)]; [by left| |right; by exists c, raw].
    rewrite !orb_true_iff, !negb_true_iff, bool_decide_eq_true, have_false in Eskip.
    destruct Eskip as [[?|[??]]|?]; [done|congruence|congruence].
  - rewrite !orb_false_iff, !negb_false_iff, bool_decide_eq_false, have_spec in Eskip. destruct Eskip as [[El Eo] Es].
    apply eq_None_not_Some in Eo. destruct (lookup (bt_Token b)) as [raw|[e|]] eqn:Elk; [|discriminate|discriminate].
    rewrite digest_not_empty in E. apply rbind_Ok in E as (idx & Ep & E).
    assert (boot_reads live overlay b) as Hb by done. assert (t.2 !! bt_ID b = None) as Hb0 by (apply Hf; [by left|done]).
    destruct (IH _ E Hn') as [Hok' Hl].
    + intros c Hc Hcr. cbn. rewrite lookup_insert_ne; [apply Hf; [by right|done]|]. intros Hbc.
      cbn in Hn. rewrite (proj2 (have_spec _ _) El) in Hn. cbn in Hn. apply list.NoDup_cons in Hn as [Hn _]. apply Hn. rewrite Hbc.
      apply list_elem_of_In, in_map, filter_In. split; [by apply list_elem_of_In|]. by apply have_spec, Hcr.
    + apply tables_put; [done|apply digest_not_empty|done|done].
    + split; [done|]. intros i d'. rewrite Hl. cbn. rewrite lookup_insert_Some. split.
      * intros [[[<- <-]|[? ?]]|(c&r&?&Hr)]; [right; exists b, raw; split; [by left|done]|by left|right; exists c, r; split; [by right|done]].
      * intros [Hi|(c & r & [->|Hc]%elem_of_cons & <- & Hr & Hlk & ->)].
        -- left. right. split; [|done]. intros <-. congruence.
        -- left. left. split; [done|]. congruence.
        -- right. by exists c, r.
Qed.

(** The digest the tokens' sources give a live token: that of its overlay
    entry, or else of the file its baseline entry names. *)
Definition bootstrap_digest (d : Document) (lookup : option SecretLookup) (id : string) : option TokenDigest :=
  match lookup, find (fun b => str_eqb (bt_ID b) id) (dc_BootstrapTokens d) with
  | Some lookup, Some b =>
    if Set_ (bt_Token b) then match lookup (bt_Token b) with Ok raw => Some (DigestToken (newSecret raw)) | Err _ => None end else None
  | _, _ => None
  end.
Definition token_digest (d : Document) (m : gmap string (entry tokenRecord)) (lookup : option SecretLookup) (id : string) : option TokenDigest :=
  match m !! id with
  | Some (Dead _ _) => None
  | Some (Live t _) => if digest_empty (tk_Digest t) then bootstrap_digest d lookup id else Some (tk_Digest t)
  | None => bootstrap_digest d lookup id
  end.

Lemma overlay_digests_spec (l : list (merged tokenRecord)) id d :
  NoDup (map me_key l) ->
  overlay_digests l !! id = Some d <-> exists x, x ∈ l /\ me_key x = id /\ tk_Digest (me_value x) = d /\ digest_empty d = false.
Proof.
  intros Hn. unfold overlay_digests. set (f := fun (m : gmap string TokenDigest) (t : merged tokenRecord) => _).
  assert (forall m0, (forall x, x ∈ l -> m0 !! me_key x = None) ->
    fold_left f l m0 !! id = Some d <->
      m0 !! id = Some d \/ exists x, x ∈ l /\ me_key x = id /\ tk_Digest (me_value x) = d /\ digest_empty d = false) as HH.
  2:{ rewrite HH by (intros; apply lookup_empty). rewrite lookup_empty. naive_solver. }
  induction l as [|y l IH]; intros m0 Hf; cbn [fold_left].
  { split; [by left|]. intros [?|(? & ?%not_elem_of_nil & _)]; done. }
  cbn in Hn. apply list.NoDup_cons in Hn as [Hy Hn]. unfold f at 2. destruct (digest_empty (tk_Digest (me_value y))) eqn:Ed.
  - rewrite IH; [|done|intros x Hx; apply Hf; by right]. split; [intros [?|(x&?&Hr)]; [by left|right; exists x; split; [by right|done]]|].
    intros [?|(x & [->|Hx]%elem_of_cons & <- & <- & ?)]; [by left|congruence|right; by exists x].
  - rewrite IH; [|done|].
    2:{ intros x Hx. rewrite lookup_insert_ne; [apply Hf; by right|]. intros Hxy. apply Hy. rewrite Hxy.
        by apply list_elem_of_In, in_map, list_elem_of_In. }
    rewrite lookup_insert_Some. split.
    + intros [[[<- <-]|[? ?]]|(x&?&Hr)]; [right; exists y; split; [by left|done]|by left|right; exists x; split; [by right|done]].
    + intros [Hi|(x & [->|Hx]%elem_of_cons & <- & <- & ?)]; [|left; by left|right; by exists x].
      left. right. split; [|done]. intros <-. rewrite (Hf y) in Hi; [done|by left].
Qed.

Lemma find_boot d id : find (fun b => str_eqb (bt_ID b) id) (dc_BootstrapTokens d) = None <-> baseline_find (base_tokens d) id = None.
Proof. unfold baseline_find, base_tokens. induction (dc_BootstrapTokens d) as [|b l IH]; [done|]. cbn. by destruct (str_eqb _ _). Qed.

Lemma index_tokens_spec d m rev now born out tombs born' lookup t :
  merge m rev now (base_tokens d) born = (out, tombs, born') -> keyed m -> NoDup (map (fun x => tk_ID (me_value x)) out) ->
  NoDup (map bt_ID (List.filter (fun b => have (map (fun x => tk_ID (me_value x)) out) (bt_ID b)) (dc_BootstrapTokens d))) ->
  indexTokenDigests d (map (fun x => tk_ID (me_value x)) out) (overlay_digests out) lookup = Ok t ->
  tables_ok t /\ forall id, t.2 !! id = token_digest d m lookup id.
Proof.
  intros Em Hk Hn Hb E. pose proof (merge_live m rev now _ _ _ _ _ Em Hk Hn) as Hlive.
  destruct (merge_spec m rev now _ _ _ _ _ Em) as (He & Hbase & _). rewrite list.Forall_forall in He.
  set (live := map (fun x => tk_ID (me_value x)) out) in *.
  assert (forall id, id ∈ live <-> is_Some (live_find (base_tokens d) m id)) as Hin.
  { intros id. unfold live. rewrite list_elem_of_In, in_map_iff. split.
    - intros (x & <- & Hx). exists (me_value x). apply Hlive. exists x. split; [by apply list_elem_of_In|done].
    - intros [a Ha]. apply Hlive in Ha as (x & Hx & <- & _). exists x. split; [done|by apply list_elem_of_In]. }
  assert (forall x, x ∈ out -> tk_ID (me_value x) = me_key x) as Hid by (intros x Hx; exact (entry_of_id m rev x Hk (He x Hx))).
  assert (NoDup (map me_key out)) as Hnk.
  { erewrite map_ext_in; [exact Hn|]. intros x Hx. symmetry. by apply Hid, list_elem_of_In. }
  assert (forall id x, overlay_digests out !! id = Some x <-> exists a meta, m !! id = Some (Live a meta) /\ tk_Digest a = x /\ digest_empty x = false) as Hov.
  { intros id x. rewrite overlay_digests_spec by done. split.
    - intros (y & Hy & <- & <- & Hd). destruct (He y Hy) as [(meta & Hm & _)|(Hm & _)]; [by exists (me_value y), meta|].
      pose proof (Hbase y Hy Hm) as Hyb. apply list_elem_of_In, in_map_iff in Hyb as (b & Eb & _). by rewrite <- Eb in Hd.
    - intros (a & meta & Hm & Ha & Hd). assert (live_find (base_tokens d) m id = Some a) as Hl by (unfold live_find; by rewrite Hm).
      apply Hlive in Hl as (y & Hy & Hyi & <-). exists y. split; [done|]. split; [|done]. by rewrite <- Hid. }
  unfold indexTokenDigests in E. apply rbind_Ok in E as (t1 & E1 & E).
  destruct (index_overlay_spec _ _ _ _ E1) as [Hok1 Hl1].
  { apply NoDup_fst_map_to_list. } { done. } { intros i id. cbn. rewrite lookup_empty. split; [done|]. intros (_ & x & Hx & _). cbn in Hx. by rewrite lookup_empty in Hx. }
  assert (forall id x, t1.2 !! id = Some x <-> exists a meta, m !! id = Some (Live a meta) /\ tk_Digest a = x /\ digest_empty x = false) as Ht1.
  { intros id x. rewrite Hl1. cbn. rewrite lookup_empty, elem_of_map_to_list, Hov. split; [intros [?|(? & _)]; done|].
    intros (a & meta & Hm & Ha & Hd). right. split; [by exists a, meta|]. split; [|done]. apply Hin. exists a. unfold live_find. by rewrite Hm. }
  assert (forall id, t1.2 !! id = match m !! id with Some (Live a _) => if digest_empty (tk_Digest a) then None else Some (tk_Digest a) | _ => None end) as Ht1'.
  { intros id. apply option_eq. intros x. rewrite Ht1. destruct (m !! id) as [[a mt|? ?]|].
    - destruct (digest_empty (tk_Digest a)) eqn:Ed; (split; [intros (a' & mt' & [= <- <-] & <- & Hd); congruence|]); [done|].
      intros [= <-]. by exists a, mt.
    - split; [intros (? & ? & ? & _)|]; done.
    - split; [intros (? & ? & ? & _)|]; done. }
  destruct lookup as [lookup|].
  2:{ injection E as <-. split; [done|]. intros id. rewrite Ht1'. unfold token_digest, bootstrap_digest.
      destruct (m !! id) as [[a mt|? ?]|]; [|done..]. by destruct (digest_empty _). }
  destruct (index_bootstrap_spec _ _ _ _ _ _ E Hb) as [Hok2 Hl2]; [|done|].
  { intros b _ (_ & Ho & _). destruct (t1.2 !! bt_ID b) as [x|] eqn:Ex; [|done]. apply Ht1, Hov in Ex. congruence. }
  split; [done|]. intros id. apply option_eq. intros x. rewrite Hl2.
  assert (id ∈ live -> overlay_digests out !! id = None ->
    (bootstrap_digest d (Some lookup) id = Some x <-> exists b raw, b ∈ dc_BootstrapTokens d /\ bt_ID b = id
       /\ boot_reads live (overlay_digests out) b /\ lookup (bt_Token b) = Ok raw /\ x = DigestToken (newSecret raw))) as Hboot.
  { intros Hi Ho. unfold bootstrap_digest. split.
    - destruct (find _ _) as [b|] eqn:Ef; [|done]. apply find_some in Ef as [Hbin Hbi]. apply str_eqb_iff in Hbi as <-.
      destruct (Set_ (bt_Token b)) eqn:Es; [|done]. destruct (lookup (bt_Token b)) as [raw|] eqn:Elk; [|done]. intros [= <-].
      exists b, raw. by split; [apply list_elem_of_In|].
    - intros (b & raw & Hbin & <- & (_ & _ & Hs) & Hlk & ->). destruct (find _ _) as [c|] eqn:Ef.
      + apply find_some in Ef as [Hcin Hci]. apply str_eqb_iff in Hci. assert (c = b) as ->; [|by rewrite Hs, Hlk].
        apply (NoDup_inj _ _ _ _ Hb); [..|exact Hci]; apply list_elem_of_In, filter_In; rewrite have_spec;
          (split; [done || by apply list_elem_of_In|congruence]).
      + apply list_elem_of_In in Hbin. apply (find_none _ _ Ef) in Hbin. by rewrite (proj2 (str_eqb_iff _ _)) in Hbin. }
  rewrite Ht1'. unfold token_digest. destruct (m !! id) as [[a mt|tb mt]|] eqn:Emid.
  - assert (id ∈ live) as Hi by (apply Hin; exists a; unfold live_find; by rewrite Emid).
    destruct (digest_empty (tk_Digest a)) eqn:Ed.
    + assert (overlay_digests out !! id = None) as Ho.
      { destruct (overlay_digests out !! id) as [y|] eqn:Ey; [|done]. apply Hov in Ey as (a' & mt' & ? & <- & ?). congruence. }
      rewrite (Hboot Hi Ho). split; [intros [?|?]; done|by right].
    + split; [intros [?|(b & raw & _ & <- & (_ & Ho & _) & _)]; [done|]|by left].
      assert (overlay_digests out !! bt_ID b = Some (tk_Digest a)) by (apply Hov; by exists a, mt). congruence.
  - split; [|done]. intros [?|(b & raw & _ & <- & (Hi & _) & _)]; [done|]. apply Hin in Hi as [a Ha]. unfold live_find in Ha. by rewrite Emid in Ha.
  - assert (overlay_digests out !! id = None) as Ho.
    { destruct (overlay_digests out !! id) as [y|] eqn:Ey; [|done]. apply Hov in Ey as (a' & mt' & ? & _). congruence. }
    destruct (decide (id ∈ live)) as [Hi|Hi]; [rewrite (Hboot Hi Ho); split; [intros [?|?]; done|by right]|].
    split; [intros [?|(b & raw & _ & <- & (Hi' & _) & _)]; done|]. intros Hd. exfalso. apply Hi, Hin. unfold live_find. rewrite Emid.
    destruct (baseline_find (base_tokens d) id) as [a|] eqn:Eb; [by eexists|]. apply find_boot in Eb. unfold bootstrap_digest in Hd. by rewrite Eb in Hd.
Qed.

(** *** The ids of a merge *)

Section Keys.
Context {A : Type} `{Object A} (m : gmap string (entry A)) (rev now : Z).
Lemma merge_base_keys base born out tombs born' :
  merge_base m rev now base born = (out, tombs, born') -> map me_key out = map ob_id (List.filter (base_live m) base).
Proof.
  revert born out tombs born'. induction base as [|a base IH]; intros born out tombs born' E; cbn in E; [by injection E as <- _ _|].
  assert (List.filter (base_live m) (a :: base) = (if base_live m a then [a] else []) ++ List.filter (base_live m) base) as ->
    by (cbn; by destruct (base_live m a)).
  unfold base_live at 1. destruct (m !! ob_id a) as [[b meta|t meta]|]; cbn [negb app].
  - destruct (merge_base m rev now base born) as [[out0 tombs0] born0] eqn:E0. injection E as <- _ _. cbn. f_equal. by eapply IH.
  - destruct (merge_base m rev now base born) as [[out0 tombs0] born0] eqn:E0. injection E as <- _ _. by eapply IH.
  - destruct (configMeta a rev now born) as [meta born1].
    destruct (merge_base m rev now base born1) as [[out0 tombs0] born0] eqn:E0. injection E as <- _ _. cbn. f_equal. by eapply IH.
Qed.

Lemma NoDup_list_filter {B} (f : B -> bool) l : NoDup l -> NoDup (List.filter f l).
Proof.
  induction 1 as [|x l Hx _ IH]; [constructor|]. cbn. destruct (f x); [|done]. constructor; [|done].
  intros Hin. apply Hx. apply list_elem_of_In, filter_In in Hin as [? _]. by apply list_elem_of_In.
Qed.

Lemma merge_NoDup base born out tombs born' :
  merge m rev now base born = (out, tombs, born') -> NoDup (map ob_id (List.filter (base_live m) base)) -> NoDup (map me_key out).
Proof.
  unfold merge. destruct (merge_base _ _ _ _ _) as [[out0 tombs0] born0] eqn:E0. destruct (merge_overlay _ _ _ _) as [out1 tombs1] eqn:E1.
  intros E Hn. injection E as <- _ _. rewrite map_app, (merge_base_keys _ _ _ _ _ E0).
  destruct (merge_overlay_spec _ _ _ _ _ _ E1) as (-> & _). apply list.NoDup_app. split; [done|]. split.
  - intros id Hin Hov. apply list_elem_of_In, filter_In in Hov as [_ Hov]. unfold overlay_live in Hov.
    apply andb_true_iff in Hov as [Hov _]. apply negb_true_iff, have_false in Hov. apply Hov.
    apply list_elem_of_In, in_map_iff in Hin as (a & <- & Ha). apply filter_In in Ha as [Ha _]. by apply list_elem_of_In, in_map.
  - apply NoDup_list_filter, NoDup_sorted_keys.
Qed.
End Keys.

(** ** Well-formed overlays *)

Definition entry_ok {A} `{Object A} (id : string) (e : entry A) : Prop :=
  match e with
  | Live a m =>
    ob_id a = id /\ om_ID m = id /\ om_Kind m = ob_kind A /\ om_Deleted m = false /\ om_Enabled m = ob_enabled a /\ om_Labels m = ob_labels a
    /\ (om_Source m = SourceOverride /\ om_ShadowsSource m = SourceConfig \/ om_Source m = SourceRuntime /\ om_ShadowsSource m = ""%string)
  | Dead t m => tb_ID t = id /\ tb_Kind t = ob_kind A /\ tb_Deleted t = true /\ om_ID m = id /\ om_Deleted m = true
  end.
Definition entries_ok {A} `{Object A} (m : gmap string (entry A)) : Prop := map_Forall entry_ok m.

Lemma entries_keyed {A} `{Object A} (m : gmap string (entry A)) : entries_ok m -> keyed m /\ meta_keyed m.
Proof. intros Hm. split; intros id a meta Hi; apply Hm in Hi; by destruct Hi as (? & ? & _). Qed.

(** What a token record says of its digest. *)
Definition digest_ok (t : tokenRecord) : Prop :=
  tk_HasDigest t = negb (digest_empty (tk_Digest t)) /\ (tk_Digest t = no_digest \/ exists raw, tk_Digest t = DigestToken (newSecret raw)).

Record overlay_ok (ov : overlay) : Prop := {
  oo_users : entries_ok (ov_users ov);
  oo_groups : entries_ok (ov_groups ov);
  oo_clients : entries_ok (ov_clients ov);
  oo_tokens : entries_ok (ov_tokens ov);
  oo_digests : forall id t m, ov_tokens ov !! id = Some (Live t m) -> digest_ok t;
  oo_named : forall t m, ov_tokens ov !! ""%string <> Some (Live t m);
  oo_verifiers : map_Forall (fun _ v => ValidatePHC v = Ok tt) (ov_secrets ov);
  oo_fallback : ov_fallback ov = None;
}.

(** Every secret held in memory is the verifier some live user names. *)
Definition pruned (ov : overlay) : Prop := forall k, is_Some (ov_secrets ov !! k) -> k ∈ live_ids (ov_users ov).

Lemma overlay_ok_prune ov : overlay_ok ov -> overlay_ok (pruneOverlaySecrets ov).
Proof. intros []. split; try done. intros k v Hk. apply map_lookup_filter_Some in Hk as [Hk _]. by apply (oo_verifiers0 k). Qed.
Lemma prune_pruned ov : pruned (pruneOverlaySecrets ov).
Proof. intros k [v Hk]. apply map_lookup_filter_Some in Hk as [_ Hk]. by apply have_spec in Hk. Qed.
Lemma overlay_ok_new : overlay_ok newOverlay.
Proof. split; try done; apply map_Forall_empty. Qed.

(** ** A compilation *)

Definition token_public (t : tokenRecord) : string * string * list string * bool * option Z * bool :=
  (tk_ID t, tk_Name t, tk_Scopes t, tk_Enabled t, tk_ExpiresAt t, tk_HasDigest t).
Definition token_shown (t : EffectiveToken) : string * string * list string * bool * option Z * bool :=
  (et_ID t, et_Name t, et_Scopes t, et_Enabled t, et_ExpiresAt t, et_HasDigest t).

Section Compile.
Context {Dict : Type} (regexp_Compile : string -> option (string -> bool)) (PolicyParseIP IANALocation : string -> bool)
  (IsLower IsUpper IsDigit : Z -> bool) (CompileRADIUSDictionary : Document -> result cfg_error Dict)
  (hashBaseline : Document -> result cfg_error string) (hashOverlay : overlay -> bytes -> result cfg_error string).

#[local] Notation compile := (compile regexp_Compile PolicyParseIP IANALocation IsLower IsUpper IsDigit CompileRADIUSDictionary hashBaseline hashOverlay).

(** The document a snapshot serves: valid, and made of the live objects. *)
Record serves (base : Document) (ov : overlay) (s : Snapshot Dict) (d : Document) : Prop := {
  sv_valid : document_ok regexp_Compile d;
  sv_users : forall u, u ∈ dc_Users d <-> exists id, live_find (dc_Users base) (ov_users ov) id = Some u;
  sv_groups : forall g, g ∈ dc_Groups d <-> exists id, live_find (dc_Groups base) (ov_groups ov) id = Some g;
  sv_clients : forall c, c ∈ dc_Clients d <-> exists id, live_find (dc_Clients base) (ov_clients ov) id = Some c;
  sv_access : CompileRADIUSIndex (map match_client (dc_Clients (rebuilt d))) RoleAccess CarrierRADIUSUDP = Ok (sn_radiusAccessIndex s);
  sv_acct : CompileRADIUSIndex (map match_client (dc_Clients (rebuilt d))) RoleAccounting CarrierRADIUSUDP = Ok (sn_radiusAcctIndex s);
  sv_dynauth : CompileRADIUSIndex (map match_client (dc_Clients (rebuilt d))) RoleDynamicAuthorization CarrierRADIUSUDP
    = Ok (sn_radiusDynAuthIndex s);
  sv_index : CompileClientIndex (map match_client (dc_Clients (rebuilt d))) = Ok (sn_index s);
  sv_tacacs : lift_policy (Policy.Compile regexp_Compile PolicyParseIP IANALocation
                (policy_input (dc_Users d) (dc_Groups d) (dc_Clients (rebuilt d)) (dc_FallbackRules d) (dc_Limits d))) = Ok (sn_tacacsPolicies s);
  sv_radius : lift_domain (RadiusPolicy.Compile (radius_input (rebuilt d))) = Ok (sn_radiusPolicies s);
}.

(** The token a generation was given to, and the one before. *)
Definition same_credential (s p : Snapshot Dict) (id : string) (t o : EffectiveToken) : Prop :=
  et_Enabled o = et_Enabled t /\ et_Scopes o = et_Scopes t /\ et_ExpiresAt o = et_ExpiresAt t /\ sn_tokenDigests p !! id = sn_tokenDigests s !! id.

(** The metadata of one entry, or of the baseline, in two snapshots. *)
Definition same_origin (a b : ObjectMeta) : Prop :=
  om_Source a = om_Source b /\ (om_Source b = SourceConfig \/ om_RevisionUpdated a = om_RevisionUpdated b).

Record published (previous : option (Snapshot Dict)) (lookup : option SecretLookup) (base : Document) (ov : overlay) (rev now : Z)
    (s : Snapshot Dict) : Prop := {
  pb_revision : sn_Revision s = rev;
  pb_compiled : sn_CompiledAt s = now;
  pb_settings : sn_settings s = base;
  pb_secrets : sn_runtimeSecrets s = ov_secrets ov;
  pb_users : collection_ok eu_User (fun u => u) eu_Meta (dc_Users base) (ov_users ov) rev (sn_users s) (sn_userIDs s);
  pb_groups : collection_ok eg_Group (fun g => g) eg_Meta (dc_Groups base) (ov_groups ov) rev (sn_groups s) (sn_groupIDs s);
  pb_clients : collection_ok ec_Client (fun c => c) ec_Meta (dc_Clients base) (ov_clients ov) rev (sn_clients s) (sn_clientIDs s);
  pb_tokens : collection_ok token_shown token_public et_Meta (base_tokens base) (ov_tokens ov) rev (sn_tokens s) (sn_tokenIDs s);
  pb_tables : tables_ok (sn_tokenIndex s, sn_tokenDigests s);
  pb_named : forall t, sn_tokens s !! ""%string <> Some t;
  pb_digests : forall id, sn_tokenDigests s !! id = token_digest base (ov_tokens ov) lookup id;
  pb_generation : forall id t, sn_tokens s !! id = Some t ->
    et_credentialGeneration t = rev
    \/ exists p o, previous = Some p /\ sn_tokens p !! id = Some o /\ et_credentialGeneration t = et_credentialGeneration o
         /\ same_credential s p id t o;
  pb_kept : forall id t p o dg, previous = Some p -> sn_tokens p !! id = Some o -> sn_tokens s !! id = Some t ->
    sn_tokenDigests p !! id = Some dg -> sn_tokenDigests s !! id = Some dg -> len (td_v dg) = 32 -> token_shown o = token_shown t ->
    same_origin (et_Meta o) (et_Meta t) -> et_credentialGeneration t = et_credentialGeneration o;
  pb_tombstones : forall t, t ∈ sn_tombstones s <->
    (exists id m, ov_users ov !! id = Some (Dead t m)) \/ (exists id m, ov_groups ov !! id = Some (Dead t m))
    \/ (exists id m, ov_clients ov !! id = Some (Dead t m)) \/ (exists id m, ov_tokens ov !! id = Some (Dead t m));
  pb_serves : exists d, serves base ov s d;
  (* when secrets are resolved, every live client's can be read and are strong *)
  pb_secrets_ok : forall lk id c, lookup = Some lk -> live_find (dc_Clients base) (ov_clients ov) id = Some c ->
    client_secrets_ok IsLower IsUpper IsDigit lk (dc_Security base) (resynthesize c);
}.

Lemma merged_values {A} `{Object A} (m : gmap string (entry A)) rev now base born out tombs born' :
  merge m rev now base born = (out, tombs, born') -> keyed m -> NoDup (map (fun x => ob_id (me_value x)) out) ->
  forall a, a ∈ map me_value out <-> exists id, live_find base m id = Some a.
Proof.
  intros E Hk Hn a. pose proof (merge_live m rev now _ _ _ _ _ E Hk Hn) as Hlive. rewrite list_elem_of_In, in_map_iff. split.
  - intros (x & <- & Hx). exists (ob_id (me_value x)). apply Hlive. exists x. split; [by apply list_elem_of_In|done].
  - intros [id Ha]. apply Hlive in Ha as (x & Hx & _ & <-). exists x. split; [done|by apply list_elem_of_In].
Qed.

Lemma token_generation previous digests rev meta t x :
  build_token (Dict := Dict) previous digests rev meta t = Ok x ->
  token_shown x = token_public t /\ et_Meta x = meta
  /\ (et_credentialGeneration x = rev
      \/ exists p o, previous = Some p /\ sn_tokens p !! tk_ID t = Some o /\ et_credentialGeneration x = et_credentialGeneration o
           /\ et_Enabled o = et_Enabled x /\ et_Scopes o = et_Scopes x /\ et_ExpiresAt o = et_ExpiresAt x
           /\ sn_tokenDigests p !! tk_ID t = digests !! tk_ID t)
  /\ (forall p o dg, previous = Some p -> sn_tokens p !! tk_ID t = Some o -> sn_tokenDigests p !! tk_ID t = Some dg -> digests !! tk_ID t = Some dg ->
       len (td_v dg) = 32 -> token_shown o = token_shown x -> same_origin (et_Meta o) meta -> et_credentialGeneration x = et_credentialGeneration o).
Proof.
  unfold build_token. intros E. injection E as <-. split; [done|]. split; [done|]. cbn. split.
  2:{ intros p o dg -> Eo Ed Ed' Hlen Hsh [Hs Hu]. unfold tokenCredential. rewrite Eo, Ed, Ed'. unfold token_shown in Hsh. cbn in Hsh.
      injection Hsh as _ _ E1 E2 E3 _. unfold same_incarnation, same_expiry, EqualDigest. cbn. rewrite Hlen, E1, E2, E3, Hs. cbn.
      rewrite !bool_decide_true by done. rewrite (proj2 (bytes_eqb_true _ _) eq_refl), Bool.eqb_reflx, (proj2 (str_eqb_iff _ _) eq_refl). cbn.
      destruct Hu as [-> | ->]; [done|]. by rewrite Z.eqb_refl, orb_true_r. }
  destruct previous as [p|]; [|by left]. destruct (same_incarnation _ _ _ _ _) eqn:Es; [|by left].
  unfold same_incarnation in Es. destruct (sn_tokens p !! tk_ID t) as [o|] eqn:Eo; [|done]. right. exists p, o.
  unfold same_expiry in Es. rewrite !andb_true_iff, !bool_decide_eq_true, !eqb_true_iff in Es.
  destruct Es as [[[[Eh Ed] [[Een Esc] Eex]] _] _]. do 6 (split; [done|]). unfold tokenCredential in *.
  destruct (sn_tokenDigests p !! tk_ID t) as [a|], (digests !! tk_ID t) as [b|]; cbn in *; try done.
  f_equal. destruct a as [a], b as [b]. unfold EqualDigest in Ed. cbn in Ed.
  assert (bytes_eqb a b = true) as Eab; [|apply bytes_eqb_true in Eab; congruence].
  destruct (negb _ || negb _) in Ed; [by rewrite !andb_true_iff in Ed; tauto|done].
Qed.

(** The ids of the merged tokens are distinct when those of the live bootstrap
    tokens are. *)
Lemma tokens_NoDup m rev now base born out tombs born' :
  merge m rev now (base_tokens base) born = (out, tombs, born') -> keyed m ->
  NoDup (map bt_ID (List.filter (fun b => have (map (fun x => tk_ID (me_value x)) out) (bt_ID b)) (dc_BootstrapTokens base))) ->
  NoDup (map (fun x => tk_ID (me_value x)) out).
Proof.
  intros E Hk Hn. destruct (merge_spec m rev now _ _ _ _ _ E) as (He & _ & Hl & Ho & _). rewrite list.Forall_forall in He.
  assert (forall x, x ∈ out -> tk_ID (me_value x) = me_key x) as Hid by (intros x Hx; exact (entry_of_id m rev x Hk (He x Hx))).
  rewrite (map_ext_in _ me_key) by (intros x Hx; by apply Hid, list_elem_of_In). apply (merge_NoDup m rev now _ _ _ _ _ E).
  revert Hn. unfold base_tokens. set (live := map (fun x => tk_ID (me_value x)) out).
  assert (forall b, b ∈ dc_BootstrapTokens base -> base_live m (token_of b) = true -> have live (bt_ID b) = true) as Hlive.
  { intros b Hb Hbl. apply have_spec, list_elem_of_In, in_map_iff. unfold base_live in Hbl.
    destruct (m !! ob_id (token_of b)) as [[a meta|]|] eqn:Em; [|done|].
    - destruct (Ho _ _ _ Em) as (x & Hx & Hxk). exists x. split; [by rewrite Hid|by apply list_elem_of_In].
    - destruct (Hl (token_of b)) as (x & Hx & Hxk & _); [by apply list_elem_of_In, in_map, list_elem_of_In|done|].
      exists x. split; [by rewrite Hid|by apply list_elem_of_In]. }
  clearbody live. induction (dc_BootstrapTokens base) as [|b l IH]; cbn; [done|].
  assert (forall c, c ∈ l -> base_live m (token_of c) = true -> have live (bt_ID c) = true) as Hlive' by (intros c Hc; apply Hlive; by right).
  specialize (IH Hlive'). intros Hn. destruct (base_live m (token_of b)) eqn:Eb.
  - rewrite (Hlive b) in Hn by (by left || done). cbn in Hn. apply list.NoDup_cons in Hn as [Hb Hn]. cbn. apply list.NoDup_cons. split; [|by apply IH].
    intros Hin. apply Hb. apply list_elem_of_In, in_map_iff in Hin as (t & Ht & Hin). apply filter_In in Hin as [Hin Hbl].
    apply in_map_iff in Hin as (c & <- & Hc). apply list_elem_of_In, in_map_iff. exists c. split; [done|]. apply filter_In.
    split; [done|]. apply Hlive'; [by apply list_elem_of_In|done].
  - apply IH. destruct (have live (bt_ID b)); [|done]. cbn in Hn. by apply list.NoDup_cons in Hn as [_ Hn].
Qed.

Lemma lift_match_Ok {A} (r : result config_error A) a : lift_match r = Ok a -> r = Ok a.
Proof. destruct r; by intros [= <-]. Qed.

Lemma compile_spec born previous lookup key base ov rev now touch s born' :
  compile born previous lookup key base ov rev now touch = Ok (s, born') -> overlay_ok ov -> published previous lookup base ov rev now s.
Proof.
  unfold StateManager.compile, mergeUsers, mergeGroups, mergeClients, mergeTokens. generalize (if touch then touchBaselineStamps born base rev now else born).
  clear born. intros born E [Hu Hg Hc Ht Hd Hname _ _].
  destruct (merge (ov_users ov) _ _ _ _) as [[users ut] born1] eqn:Eu.
  destruct (merge (ov_groups ov) _ _ _ _) as [[groups gt] born2] eqn:Eg.
  destruct (merge (ov_clients ov) _ _ _ _) as [[clients ct] born3] eqn:Ec.
  destruct (merge (ov_tokens ov) _ _ _ _) as [[tokens tt] born4] eqn:Et.
  cbv zeta in E. apply then_Ok in E as [_ E].
  apply rbind_Ok in E as (synth & Ev & E). apply validate_iff in Ev as [Hok ->].
  apply rbind_Ok in E as (idx & Eidx%lift_match_Ok & E). apply rbind_Ok in E as (access & Eaccess%lift_match_Ok & E).
  apply rbind_Ok in E as (acct & Eacct%lift_match_Ok & E). do 2 (apply rbind_Ok in E as (? & _ & E)).
  apply rbind_Ok in E as (dyn & Edyn%lift_match_Ok & E).
  apply rbind_Ok in E as (tac & Etac & E). apply rbind_Ok in E as (rad & Erad & E). apply rbind_Ok in E as (dict & _ & E).
  apply rbind_Ok in E as (life & Elife & E). apply rbind_Ok in E as (fb & _ & E). do 2 (apply rbind_Ok in E as (? & _ & E)).
  apply rbind_Ok in E as (um & Eum & E). apply rbind_Ok in E as (gm & Egm & E). apply rbind_Ok in E as (cm & Ecm & E).
  apply rbind_Ok in E as (tables & Etb & E). apply rbind_Ok in E as (tm & Etm & E). injection E as <- <-.
  destruct (entries_keyed _ Hu) as [Hku Hmu], (entries_keyed _ Hg) as [Hkg Hmg], (entries_keyed _ Hc) as [Hkc Hmc], (entries_keyed _ Ht) as [Hkt Hmt].
  assert (NoDup (map (fun x => us_ID (me_value x)) users)) as Hnu.
  { destruct (do_users _ _ Hok) as [_ Hn]. cbn in Hn. by rewrite map_map in Hn. }
  assert (NoDup (map (fun x => gr_ID (me_value x)) groups)) as Hng.
  { destruct (do_groups _ _ Hok) as [_ Hn]. cbn in Hn. by rewrite map_map in Hn. }
  assert (NoDup (map (fun x => cl_ID (me_value x)) clients)) as Hnc.
  { destruct (do_clients _ _ Hok) as [_ Hn]. cbn in Hn. by rewrite map_map in Hn. }
  pose proof (do_tokens _ _ Hok) as [_ Hnb]. cbn in Hnb.
  pose proof (tokens_NoDup _ _ _ _ _ _ _ _ Et Hkt Hnb) as Hnt.
  destruct (index_tokens_spec _ _ _ _ _ _ _ _ _ _ Et Hkt Hnt Hnb Etb) as [Htab Hdig].
  split; cbn; try done.
  - eapply (collection_spec (build_user regexp_Compile)); [|exact Eu|done..]. intros meta a y E. apply rbind_Ok in E as (? & _ & E). by injection E as <-.
  - eapply (collection_spec (build_group regexp_Compile)); [|exact Eg|done..]. intros meta a y E. apply rbind_Ok in E as (? & _ & E). by injection E as <-.
  - eapply (collection_spec (build_client life.1)); [|exact Ec|done..]. intros meta a y E. by injection E as <-.
  - eapply (collection_spec (build_token previous tables.2 rev)); [|exact Et|done..]. intros meta a y E. by apply token_generation in E as (? & ? & _).
  - intros t Hid. apply (fill_spec _ _ _ _ _ _ Etm Hnt) in Hid as [Hid|(y & Hy & Hid & _)]; [by rewrite lookup_empty in Hid| |intros; apply lookup_empty].
    assert (live_find (base_tokens base) (ov_tokens ov) "" = Some (me_value y)) as Hlive
      by (apply (merge_live _ _ _ _ _ _ _ _ Et Hkt Hnt); by exists y).
    unfold live_find in Hlive. destruct (ov_tokens ov !! _) as [[a m|]|] eqn:Em; [exact (Hname a m eq_refl)|done|].
    destruct (baseline_find _ _) as [b|] eqn:Eb; [|done]. apply find_some in Eb as [Eb Hb0]. apply in_map_iff in Eb as (bt & <- & Hbt).
    apply str_eqb_iff in Hb0. cbn in Hb0. destruct (do_tokens _ _ Hok) as [Hbok _]. rewrite list.Forall_forall in Hbok.
    destruct (Hbok bt) as [Hne _]; [|done]. cbn. apply list_elem_of_In, filter_In. split; [done|]. apply have_spec.
    rewrite Hb0. apply list_elem_of_In, in_map_iff. exists y. split; [done|by apply list_elem_of_In].
  - intros id t Hid. apply (fill_spec _ _ _ _ _ _ Etm Hnt) in Hid as [Hid|(y & _ & <- & Hb)]; [by rewrite lookup_empty in Hid| |intros; apply lookup_empty].
    apply token_generation in Hb as (_ & _ & Hb & _). destruct Hb as [Hb|(p & o & ? & ? & ? & ? & ? & ? & ?)]; [by left|right]. by exists p, o.
  - intros id t p o dg Hp Ho Hid. apply (fill_spec _ _ _ _ _ _ Etm Hnt) in Hid as [Hid|(y & _ & <- & Hb)]; [by rewrite lookup_empty in Hid| |intros; apply lookup_empty].
    apply token_generation in Hb as (_ & -> & _ & Hb). by apply Hb.
  - intros t. destruct (merge_spec _ _ _ _ _ _ _ _ Eu) as (_ & _ & _ & _ & Tu), (merge_spec _ _ _ _ _ _ _ _ Eg) as (_ & _ & _ & _ & Tg),
      (merge_spec _ _ _ _ _ _ _ _ Ec) as (_ & _ & _ & _ & Tc), (merge_spec _ _ _ _ _ _ _ _ Et) as (_ & _ & _ & _ & Tt).
    by rewrite !elem_of_app, Tu, Tg, Tc, Tt.
  - eexists. split; [exact Hok|..]; cbn.
    + exact (merged_values _ _ _ _ _ _ _ _ Eu Hku Hnu).
    + exact (merged_values _ _ _ _ _ _ _ _ Eg Hkg Hng).
    + exact (merged_values _ _ _ _ _ _ _ _ Ec Hkc Hnc).
    + exact Eaccess.
    + exact Eacct.
    + exact Edyn.
    + exact Eidx.
    + exact Etac.
    + exact Erad.
  - intros lk id c -> Hlive. apply rbind_Ok in Elife as (r & Er & _).
    assert (succeeds (EvaluateSecrets IsLower IsUpper IsDigit (rebuilt (synth_document base (map me_value users) (map me_value groups)
      (map me_value clients) (map (fun t => tk_ID (me_value t)) tokens) (default (dc_FallbackRules base) (ov_fallback ov)))) lk now key)) as Hs.
    { exists r. revert Er. by destruct (EvaluateSecrets _ _ _ _ _ _ _); intros [= <-]. }
    apply secrets_ok_iff in Hs. unfold secrets_ok in Hs. rewrite list.Forall_forall in Hs. apply Hs. cbn. apply list_elem_of_In, in_map.
    apply list_elem_of_In, (merged_values _ _ _ _ _ _ _ _ Ec Hkc Hnc). by exists id.
Qed.
End Compile.
