(* ===== verification/StateHistory.v ===== *)
(** * The histories of the state manager

    What holds of a manager after any sequence of calls: its overlay is well
    formed and its snapshot is the compilation of baseline and overlay
    ([manager_invariant]); a call that fails changes nothing, and one that
    succeeds publishes, under the next revision, the view its request asks for
    ([manager_refines]).  [effect] is that abstract specification, one case per
    operation, over the view of the four collections ([view_of]). *)

From stdpp Require Import gmap strings sorting.
From S2P Require Import Prelude Text Sha256 StableSort Credentials Domain Policy RadiusPolicy ClientMatch ConfigModel ConfigValidate ConfigSpec ConfigSecrets StatePatch PatchSpec StateManager StateSpec.

#[local] Open Scope Z_scope.

(** ** The shared operations on one kind *)

Section Object.
Context {A : Type} `{Object A} (base : list A) (allow : bool) (m : gmap string (entry A)) (rev now : Z).

(** An object of the baseline may be shadowed. *)
Definition may_shadow (id : string) : Prop := in_base base id = true -> allow = true.

Lemma in_base_false id : in_base base id = false <-> baseline_find base id = None.
Proof. unfold in_base. rewrite bool_decide_eq_false. by rewrite eq_None_not_Some. Qed.

Lemma put_shape id a prev :
  exists src shadows, put base m rev now id a prev
    = <[id := Live a (newOverlayMeta (ob_kind A) id (ob_display a) src shadows (ob_enabled a) (ob_labels a) rev now prev)]> m
  /\ (src = SourceOverride /\ shadows = SourceConfig \/ src = SourceRuntime /\ shadows = ""%string).
Proof. unfold put. destruct (in_base base id); eexists _, _; (split; [done|]); tauto. Qed.

Lemma entries_insert id a display src shadows prev :
  entries_ok m -> ob_id a = id -> src = SourceOverride /\ shadows = SourceConfig \/ src = SourceRuntime /\ shadows = ""%string ->
  entries_ok (<[id := Live a (newOverlayMeta (ob_kind A) id display src shadows (ob_enabled a) (ob_labels a) rev now prev)]> m).
Proof.
  intros Hm Ha Hs. apply map_Forall_insert_2; [|done]. unfold newOverlayMeta. destruct (match prev with Some _ => _ | None => _ end).
  by repeat split.
Qed.
Lemma entries_put id a prev : entries_ok m -> ob_id a = id -> entries_ok (put base m rev now id a prev).
Proof. intros Hm Ha. destruct (put_shape id a prev) as (src & shadows & -> & Hs). by apply entries_insert. Qed.

Lemma live_put id a prev j : live_find base (put base m rev now id a prev) j = if decide (j = id) then Some a else live_find base m j.
Proof.
  destruct (put_shape id a prev) as (src & shadows & -> & _). unfold live_find. case_decide as E.
  - subst. by rewrite lookup_insert_eq.
  - by rewrite lookup_insert_ne.
Qed.

(** [UpdateX] *)
Lemma update_Ok id apply m' :
  update_object base allow m rev now id apply = Ok m' ->
  exists cur next prev, live_find base m id = Some cur /\ apply cur = Ok next /\ m' = put base m rev now id next prev
    /\ (may_shadow id \/ exists a meta, m !! id = Some (Live a meta)).
Proof.
  unfold update_object. destruct (live_find base m id) as [cur|]; [|done]. rewrite then_Ok, refuse_Ok. intros [Hl E].
  apply rbind_Ok in E as (next & En & E). injection E as <-. exists cur, next, (live_meta (m !! id)). do 3 (split; [done|]).
  unfold locked in Hl. unfold may_shadow. destruct (in_base base id), allow; cbn in Hl; try (left; done). right.
  apply bool_decide_eq_false in Hl. destruct (m !! id) as [[a meta|]|]; cbn in Hl; [by exists a, meta|done..].
Qed.

(** [CreateX]: [cur] is what is published under the id. *)
Definition may_create {B} (cur : option B) (id : string) (override : bool) : Prop :=
  if in_base base id then override = true /\ allow = true else cur = None.

Lemma create_Ok id override build m' :
  create_object base allow m rev now id override build = Ok m' ->
  exists a prev, build (baseline_find base id) = Ok a /\ m' = put base m rev now id a prev /\ may_create (live_find base m id) id override.
Proof.
  unfold create_object, may_create. cbv zeta. rewrite !then_Ok, refuse_Ok. intros [_ [Hb E]]. apply rbind_Ok in E as (a & Ea & E).
  injection E as <-. exists a, (live_meta (m !! id)). do 2 (split; [done|]). destruct (in_base base id).
  - rewrite then_Ok, !refuse_Ok, !negb_false_iff in Hb. done.
  - apply refuse_Ok, bool_decide_eq_false in Hb. by apply eq_None_not_Some.
Qed.
Lemma create_user_Ok id override build m' :
  create_user_object base allow m rev now id override build = Ok m' ->
  exists a prev, build (baseline_find base id) = Ok a /\ m' = put base m rev now id a prev /\ may_create (live_find base m id) id override.
Proof.
  unfold create_user_object, may_create, in_base. case_bool_decide as Hl; destruct (baseline_find base id) as [b|] eqn:Eb; rewrite ?then_Ok, ?refuse_Ok.
  - rewrite !negb_false_iff. intros (Ho & Ha & E). apply rbind_Ok in E as (a & Ea & E). injection E as <-.
    rewrite bool_decide_true by (by eexists). by exists a, (live_meta (m !! id)).
  - by intros [_ ?].
  - rewrite !negb_false_iff. intros (Ho & Ha & E). apply rbind_Ok in E as (a & Ea & E). injection E as <-.
    rewrite bool_decide_true by (by eexists). by exists a, None.
  - intros E. apply rbind_Ok in E as (a & Ea & E). injection E as <-. rewrite bool_decide_false by (by intros []).
    exists a, None. do 2 (split; [done|]). by apply eq_None_not_Some.
Qed.

(** [DeleteX]: what is left under the id. *)
Definition after_delete (id : string) (tombstone : bool) : option A :=
  match m !! id with
  | Some (Live _ meta) => if str_eqb (om_Source meta) SourceRuntime || negb tombstone then baseline_find base id else None
  | _ => None
  end.

Lemma delete_Ok id tombstone actor stamped m' :
  delete_object base m rev now id tombstone actor stamped = Ok m' -> entries_ok m ->
  is_Some (live_find base m id) /\ entries_ok m' /\ (forall j a meta, m' !! j = Some (Live a meta) -> m !! j = Some (Live a meta))
  /\ forall j, live_find base m' j = if decide (j = id) then after_delete id tombstone else live_find base m j.
Proof.
  unfold delete_object, after_delete. intros E Hm.
  assert (entries_ok (delete id m)) as Hdel by (by apply map_Forall_delete).
  assert (forall j, live_find base (delete id m) j = if decide (j = id) then baseline_find base id else live_find base m j) as Hlive.
  { intros j. unfold live_find. case_decide as Ej; [subst; by rewrite lookup_delete_eq|by rewrite lookup_delete_ne]. }
  assert (entries_ok (<[id := bury rev now id actor stamped]> m)) as Hbury.
  { apply map_Forall_insert_2; [by repeat split|done]. }
  assert (forall j, live_find base (<[id := bury rev now id actor stamped]> m) j = if decide (j = id) then None else live_find base m j) as Hdead.
  { intros j. unfold live_find. case_decide as Ej; [subst; by rewrite lookup_insert_eq|by rewrite lookup_insert_ne]. }
  assert (forall j a meta, delete id m !! j = Some (Live a meta) -> m !! j = Some (Live a meta)) as Hd1
    by (intros j a meta Hj; by apply lookup_delete_Some in Hj as [_ Hj]).
  assert (forall j a meta, <[id := bury rev now id actor stamped]> m !! j = Some (Live a meta) -> m !! j = Some (Live a meta)) as Hd2
    by (intros j a meta Hj; apply lookup_insert_Some in Hj as [[_ Hj]|[_ Hj]]; done).
  unfold live_find at 1. destruct (m !! id) as [[a meta|t meta]|] eqn:Em; [|done|].
  - split; [by eexists|]. pose proof (Hm _ _ Em) as (_ & _ & _ & _ & _ & _ & Hs).
    assert (str_eqb (om_Source meta) SourceRuntime || str_eqb (om_Source meta) SourceOverride && negb tombstone
            = str_eqb (om_Source meta) SourceRuntime || negb tombstone) as Hr by (by destruct Hs as [[-> _]|[-> _]]).
    rewrite Hr in E. destruct (_ || negb tombstone); [by injection E as <-|]. destruct (in_base base id) eqn:Eb; cbn [negb] in E.
    + by injection E as <-.
    + injection E as <-. do 2 (split; [done|]). intros j. rewrite Hlive. apply in_base_false in Eb. by rewrite Eb.
  - unfold in_base in E. case_bool_decide as Hb; cbn [negb] in E; [|done]. by injection E as <-.
Qed.
End Object.

(** ** The published view *)

(** What a snapshot shows: the four collections, without metadata. *)
Record view := mkView {
  vw_users : gmap string User; vw_groups : gmap string Group; vw_clients : gmap string Client;
  vw_tokens : gmap string (string * string * list string * bool * option Z * bool);
}.
Definition view_of {Dict} (s : Snapshot Dict) : view :=
  mkView (eu_User <$> sn_users s) (eg_Group <$> sn_groups s) (ec_Client <$> sn_clients s) (token_shown <$> sn_tokens s).
Definition set_users (v : view) m : view := mkView m (vw_groups v) (vw_clients v) (vw_tokens v).
Definition set_groups (v : view) m : view := mkView (vw_users v) m (vw_clients v) (vw_tokens v).
Definition set_clients (v : view) m : view := mkView (vw_users v) (vw_groups v) m (vw_tokens v).
Definition set_tokens (v : view) m : view := mkView (vw_users v) (vw_groups v) (vw_clients v) m.

(** The view a document and an overlay determine. *)
Record views (base : Document) (ov : overlay) (v : view) : Prop := {
  vs_users : forall id, vw_users v !! id = live_find (dc_Users base) (ov_users ov) id;
  vs_groups : forall id, vw_groups v !! id = live_find (dc_Groups base) (ov_groups ov) id;
  vs_clients : forall id, vw_clients v !! id = live_find (dc_Clients base) (ov_clients ov) id;
  vs_tokens : forall id, vw_tokens v !! id = token_public <$> live_find (base_tokens base) (ov_tokens ov) id;
}.
Lemma views_unique base ov v w : views base ov v -> views base ov w -> v = w.
Proof.
  intros [a b c d] [a' b' c' d']. destruct v, w; cbn in *. f_equal; apply map_eq; intros id; congruence.
Qed.

Lemma fmap_id_option {A} (x : option A) : (fun a => a) <$> x = x.
Proof. by destruct x. Qed.

Section Manager.
Context {Dict : Type} (regexp_Compile : string -> option (string -> bool)) (PolicyParseIP IANALocation : string -> bool)
  (IsLower IsUpper IsDigit : Z -> bool) (CompileRADIUSDictionary : Document -> result cfg_error Dict)
  (hashBaseline : Document -> result cfg_error string) (hashOverlay : overlay -> bytes -> result cfg_error string)
  (precis : string -> option string).

#[local] Notation Manager := (@Manager Dict).
#[local] Notation published := (@published Dict regexp_Compile PolicyParseIP IANALocation IsLower IsUpper IsDigit).
#[local] Notation compile := (compile regexp_Compile PolicyParseIP IANALocation IsLower IsUpper IsDigit CompileRADIUSDictionary hashBaseline hashOverlay).
#[local] Notation mutate := (mutate regexp_Compile PolicyParseIP IANALocation IsLower IsUpper IsDigit CompileRADIUSDictionary hashBaseline hashOverlay).
#[local] Notation New := (New regexp_Compile PolicyParseIP IANALocation IsLower IsUpper IsDigit CompileRADIUSDictionary hashBaseline hashOverlay).
#[local] Notation exec := (exec regexp_Compile PolicyParseIP IANALocation IsLower IsUpper IsDigit CompileRADIUSDictionary hashBaseline hashOverlay precis).
#[local] Notation reachable :=
  (reachable regexp_Compile PolicyParseIP IANALocation IsLower IsUpper IsDigit CompileRADIUSDictionary hashBaseline hashOverlay precis).
#[local] Notation ValidateCandidate :=
  (ValidateCandidate regexp_Compile PolicyParseIP IANALocation IsLower IsUpper IsDigit CompileRADIUSDictionary hashBaseline hashOverlay).

Lemma published_views previous lookup base ov rev now s : published previous lookup base ov rev now s -> views base ov (view_of s).
Proof.
  intros [_ _ _ _ Hu Hg Hc Ht _ _ _ _ _ _ _ _]. split; intros id; cbn; rewrite lookup_fmap.
  - by rewrite (cl_values _ _ _ _ _ _ _ _ Hu), fmap_id_option.
  - by rewrite (cl_values _ _ _ _ _ _ _ _ Hg), fmap_id_option.
  - by rewrite (cl_values _ _ _ _ _ _ _ _ Hc), fmap_id_option.
  - apply (cl_values _ _ _ _ _ _ _ _ Ht).
Qed.

(** ** The invariant *)

Record coherent (m : Manager) : Prop := {
  ch_overlay : overlay_ok (mg_overlay m);
  ch_pruned : pruned (mg_overlay m);
  ch_published : exists previous now, published previous (mg_lookup m) (mg_baseline m) (mg_overlay m) (mg_revision m) now (mg_current m);
}.
Lemma coherent_view m : coherent m -> views (mg_baseline m) (mg_overlay m) (view_of (mg_current m)).
Proof. intros [_ _ (p & now & Hp)]. by eapply published_views. Qed.

(** A successful call: the revision its caller expects, the next one
    published, the hook called with the snapshot, the invariant kept. *)
Record committed (m : Manager) (expected : option Z) (now : Z) (m' : Manager) (s : Snapshot Dict) : Prop := {
  cm_expected : expected = None \/ expected = Some (mg_revision m);
  cm_current : mg_current m' = s;
  cm_revision : mg_revision m' = next_revision (mg_revision m);
  cm_hook : mg_hook m' = option_map (cons s) (mg_hook m);
  cm_lookup : mg_lookup m' = mg_lookup m;
  cm_published : published (Some (mg_current m)) (mg_lookup m') (mg_baseline m') (mg_overlay m') (mg_revision m') now s;
  cm_overlay : overlay_ok (mg_overlay m') /\ pruned (mg_overlay m');
}.

(** A mutation publishes the compilation of what [fn] returns, or changes
    nothing. *)
Lemma mutate_spec m expected now fn m' r (P : overlay -> option Document -> Prop) :
  mutate m expected now fn = (m', r) ->
  (forall ov d, fn (mg_overlay m) (next_revision (mg_revision m)) = Ok (ov, d) -> overlay_ok ov /\ P ov d) ->
  match r with
  | Err _ => m' = m
  | Ok s => committed m expected now m' s
      /\ exists ov d, mg_overlay m' = pruneOverlaySecrets ov /\ mg_baseline m' = default (mg_baseline m) d /\ P ov d
  end.
Proof.
  intros E Hfn. unfold StateManager.mutate in E. cbv zeta in E.
  destruct (checkRevision _ _ ;! _) as [[[base ov] [snap born]]|e] eqn:Eo; injection E as <- <-; [|done].
  apply then_Ok in Eo as [Er Eo]. apply rbind_Ok in Eo as ([ov0 d] & Ef & Eo). apply rbind_Ok in Eo as (c & Ec & Eo).
  injection Eo as <- <- ->. cbn [fst snd] in *. destruct (Hfn _ _ Ef) as [Hov HP].
  pose proof (overlay_ok_prune _ Hov) as Hok. pose proof (prune_pruned ov0) as Hpr. split; [|by exists ov0, d].
  split; cbn; try done.
  - unfold checkRevision in Er. destruct expected as [e|]; [|by left]. apply refuse_Ok, negb_false_iff, Z.eqb_eq in Er. right. by f_equal.
  - by eapply compile_spec.
Qed.

Lemma committed_coherent m expected now m' s : committed m expected now m' s -> coherent m'.
Proof.
  intros []. destruct cm_overlay0. split; [done|done|]. rewrite cm_current0. eauto.
Qed.

(** ** What a call asks for *)

(** The value under one id replaced, or removed. *)
Definition alter_to {V} (id : string) (x : option V) (l : gmap string V) : gmap string V := partial_alter (fun _ => x) id l.

Lemma lookup_alter_to {V} id (x : option V) l j : alter_to id x l !! j = if decide (j = id) then x else l !! j.
Proof. unfold alter_to. case_decide; [subst; apply lookup_partial_alter_eq|by apply lookup_partial_alter_ne]. Qed.

(** An object may be patched when it is live and, if it is the baseline's,
    shadowed already or allowed to be. *)
Definition may_patch {A} `{Object A} (m : Manager) (base : list A) (entries : gmap string (entry A)) (id : string) : Prop :=
  may_shadow base (allows m) id \/ exists a meta, entries !! id = Some (Live a meta).

(** A verifier override: the user refers to the memory, which holds it. *)
Definition verifier_effect (m : Manager) (key : string -> string) (set : User -> SecretRef -> User) (purpose userID : string) (phc : bytes)
    (s : Snapshot Dict) : Prop :=
  exists id cur, NormalizeUserID precis userID = Ok id /\ ValidatePHC phc = Ok tt
    /\ vw_users (view_of (mg_current m)) !! id = Some cur /\ may_patch m (dc_Users (mg_baseline m)) (ov_users (mg_overlay m)) id
    /\ view_of s = set_users (view_of (mg_current m)) (<[id := set cur (memory_ref purpose (key id))]> (vw_users (view_of (mg_current m))))
    /\ RuntimeSecret s (key id) = Some phc.

(** The snapshot [s] is what the call [o] on [m] asks for. *)
Definition effect (m : Manager) (o : operation) (s : Snapshot Dict) : Prop :=
  let base := mg_baseline m in
  let ov := mg_overlay m in
  let v := view_of (mg_current m) in
  match o with
  | OpReload d => exists doc, d = Some doc /\ sn_settings s = doc /\ views doc (if reset_overlay doc then newOverlay else ov) (view_of s)
  | OpReset => views base newOverlay (view_of s)
  | OpCreateUser req => exists id u,
      NormalizeUserID precis (nu_ID req) = Ok id /\ may_create (dc_Users base) (allows m) (vw_users v !! id) id (nu_Override req)
      /\ userFromCreate (baseline_find (dc_Users base) id) (mkCreateUser id (nu_Patch req) (nu_Override req)) = Ok u
      /\ view_of s = set_users v (<[id := u]> (vw_users v))
  | OpUpdateUser userID p => exists id cur new,
      NormalizeUserID precis userID = Ok id /\ vw_users v !! id = Some cur /\ may_patch m (dc_Users base) (ov_users ov) id
      /\ applyUserPatch cur p = Ok new /\ view_of s = set_users v (<[id := new]> (vw_users v))
  | OpDeleteUser userID tombstone _ => exists id,
      NormalizeUserID precis userID = Ok id /\ is_Some (vw_users v !! id)
      /\ view_of s = set_users v (alter_to id (after_delete (dc_Users base) (ov_users ov) id tombstone) (vw_users v))
  | OpOverrideLogin userID phc => verifier_effect m login_key with_login PurposeLoginVerifier userID phc s
  | OpOverrideEnable userID phc => verifier_effect m enable_key with_enable PurposeEnableVerifier userID phc s
  | OpCreateGroup req =>
      may_create (dc_Groups base) (allows m) (vw_groups v !! ng_ID req) (ng_ID req) (ng_Override req)
      /\ view_of s = set_groups v (<[ng_ID req := groupFromCreate (baseline_find (dc_Groups base) (ng_ID req)) req]> (vw_groups v))
  | OpUpdateGroup id p => exists cur,
      vw_groups v !! id = Some cur /\ may_patch m (dc_Groups base) (ov_groups ov) id
      /\ view_of s = set_groups v (<[id := applyGroupPatch cur p]> (vw_groups v))
  | OpDeleteGroup id tombstone _ =>
      is_Some (vw_groups v !! id)
      /\ view_of s = set_groups v (alter_to id (after_delete (dc_Groups base) (ov_groups ov) id tombstone) (vw_groups v))
  | OpCreateClient req => exists c,
      may_create (dc_Clients base) (allows m) (vw_clients v !! nc_ID req) (nc_ID req) (nc_Override req)
      /\ clientFromCreate (baseline_find (dc_Clients base) (nc_ID req)) req = Ok c
      /\ view_of s = set_clients v (<[nc_ID req := c]> (vw_clients v))
  | OpUpdateClient id p => exists cur new,
      vw_clients v !! id = Some cur /\ may_patch m (dc_Clients base) (ov_clients ov) id /\ applyClientPatch cur p = Ok new
      /\ view_of s = set_clients v (<[id := new]> (vw_clients v))
  | OpDeleteClient id tombstone _ =>
      is_Some (vw_clients v !! id)
      /\ view_of s = set_clients v (alter_to id (after_delete (dc_Clients base) (ov_clients ov) id tombstone) (vw_clients v))
  | OpCreateToken req =>
      nt_Scopes req <> [] /\ Forall (fun x => x ∈ knownScopes) (nt_Scopes req)
      /\ (is_Some (vw_tokens v !! nt_ID req) -> nt_Override req = true)
      /\ (in_base (base_tokens base) (nt_ID req) = true -> nt_Override req = true /\ allows m = true)
      /\ view_of s = set_tokens v (<[nt_ID req := token_public (token_from req)]> (vw_tokens v))
  | OpDeleteToken id tombstone _ =>
      is_Some (vw_tokens v !! id)
      /\ view_of s = set_tokens v (alter_to id (token_public <$> after_delete (base_tokens base) (ov_tokens ov) id tombstone) (vw_tokens v))
  end.

(** ** Each call does what it is asked for *)

(** A change of one object of one collection, as the manager sees it and as
    the view shows it. *)
Record changes {A B} `{Object A} (base : list A) (image : A -> B) (m m' : gmap string (entry A)) (id : string) (x : option B) : Prop := {
  cg_entries : entries_ok m';
  cg_live : forall j, image <$> live_find base m' j = if decide (j = id) then x else image <$> live_find base m j;
}.
Arguments changes {A B _}.

Lemma changes_put {A B} `{Object A} base (image : A -> B) m rev now id a prev :
  entries_ok m -> ob_id a = id -> changes base image m (put base m rev now id a prev) id (Some (image a)).
Proof. intros Hm Ha. split; [by apply entries_put|]. intros j. rewrite live_put. by destruct (decide (j = id)). Qed.
Lemma changes_delete {A B} `{Object A} base (image : A -> B) m rev now id tombstone actor stamped m' :
  delete_object base m rev now id tombstone actor stamped = Ok m' -> entries_ok m ->
  is_Some (live_find base m id) /\ changes base image m m' id (image <$> after_delete base m id tombstone).
Proof.
  intros E Hm. destruct (delete_Ok _ _ _ _ _ _ _ _ _ E Hm) as (Hl & He & _ & Hj). split; [done|]. split; [done|].
  intros j. rewrite Hj. by destruct (decide (j = id)).
Qed.
Lemma live_id {A} `{Object A} (base : list A) m id a : entries_ok m -> live_find base m id = Some a -> ob_id a = id.
Proof.
  intros Hm. unfold live_find. destruct (m !! id) as [[b meta|]|] eqn:E; [|done|by intros ?%baseline_find_id].
  intros [= <-]. destruct (entries_keyed m Hm) as [Hk _]. exact (Hk _ _ _ E).
Qed.

(** The outcome of a mutation of one collection. *)
Definition outcome_users (m m' : Manager) (expected : option Z) (now : Z) (s : Snapshot Dict) (Q : overlay -> string -> option User -> Prop) : Prop :=
  committed m expected now m' s /\ exists ov id x, Q ov id x
    /\ view_of s = set_users (view_of (mg_current m)) (alter_to id x (vw_users (view_of (mg_current m)))) /\ sn_runtimeSecrets s = ov_secrets (pruneOverlaySecrets ov).
Lemma users_outcome m expected now fn m' r (Q : overlay -> string -> option User -> Prop) :
  coherent m -> mutate m expected now fn = (m', r) ->
  (forall ov d, fn (mg_overlay m) (next_revision (mg_revision m)) = Ok (ov, d) -> overlay_ok ov /\ d = None /\ exists id x, Q ov id x
     /\ with_users ov (ov_users (mg_overlay m)) = with_secrets (mg_overlay m) (ov_secrets ov)
     /\ changes (dc_Users (mg_baseline m)) (fun u => u) (ov_users (mg_overlay m)) (ov_users ov) id x) ->
  match r with Err _ => m' = m | Ok s => outcome_users m m' expected now s Q end.
Proof.
  intros Hm E Hfn. pose proof (mutate_spec _ _ _ _ _ _ _ E Hfn) as H. destruct r as [s|]; [|done].
  destruct H as [Hc (ov & d & Hov & Hbase & -> & id & x & HQ & Heq & Hch)]. split; [done|]. exists ov, id, x. split; [done|].
  pose proof (cm_published _ _ _ _ _ Hc) as Hp. split; [|rewrite <- Hov; apply Hp].
  apply published_views in Hp. rewrite Hov, Hbase in Hp. pose proof (coherent_view m Hm) as Hw. eapply views_unique; [exact Hp|].
  injection Heq as E2 E3 E4 E5. destruct Hw as [W1 W2 W3 W4]. split; intros j; cbn; [|by rewrite E2|by rewrite E3|by rewrite E4].
  rewrite lookup_alter_to, W1. pose proof (cg_live _ _ _ _ _ _ Hch j) as Hj. rewrite !fmap_id_option in Hj. by rewrite Hj.
Qed.

Lemma groups_outcome m expected now fn m' r (Q : string -> option Group -> Prop) :
  coherent m -> mutate m expected now fn = (m', r) ->
  (forall ov d, fn (mg_overlay m) (next_revision (mg_revision m)) = Ok (ov, d) -> d = None /\ exists groups id x, Q id x
     /\ ov = with_groups (mg_overlay m) groups /\ changes (dc_Groups (mg_baseline m)) (fun g => g) (ov_groups (mg_overlay m)) groups id x) ->
  match r with Err _ => m' = m | Ok s => committed m expected now m' s /\ exists id x, Q id x
    /\ view_of s = set_groups (view_of (mg_current m)) (alter_to id x (vw_groups (view_of (mg_current m)))) end.
Proof.
  intros Hm E Hfn. eapply (mutate_spec _ _ _ _ _ _ (fun ov d => d = None /\ exists groups id x, Q id x
     /\ ov = with_groups (mg_overlay m) groups /\ changes (dc_Groups (mg_baseline m)) (fun g => g) (ov_groups (mg_overlay m)) groups id x)) in E.
  2:{ intros ov d Ef. destruct (Hfn ov d Ef) as (-> & groups & id & x & HQ & -> & Hch). split; [|split; [done|by exists groups, id, x]].
      destruct (ch_overlay _ Hm). split; try done. apply Hch. }
  destruct r as [s|]; [|done]. destruct E as [Hc (ov & d & Hov & Hbase & -> & groups & id & x & HQ & -> & Hch)]. split; [done|].
  exists id, x. split; [done|]. pose proof (cm_published _ _ _ _ _ Hc) as Hp. apply published_views in Hp. rewrite Hov, Hbase in Hp.
  eapply views_unique; [exact Hp|]. destruct (coherent_view m Hm) as [W1 W2 W3 W4]. split; intros j; cbn; [done| |done|done].
  rewrite lookup_alter_to, W2. pose proof (cg_live _ _ _ _ _ _ Hch j) as Hj. rewrite !fmap_id_option in Hj. by rewrite Hj.
Qed.

Lemma clients_outcome m expected now fn m' r (Q : string -> option Client -> Prop) :
  coherent m -> mutate m expected now fn = (m', r) ->
  (forall ov d, fn (mg_overlay m) (next_revision (mg_revision m)) = Ok (ov, d) -> d = None /\ exists clients id x, Q id x
     /\ ov = with_overlay_clients (mg_overlay m) clients
     /\ changes (dc_Clients (mg_baseline m)) (fun c => c) (ov_clients (mg_overlay m)) clients id x) ->
  match r with Err _ => m' = m | Ok s => committed m expected now m' s /\ exists id x, Q id x
    /\ view_of s = set_clients (view_of (mg_current m)) (alter_to id x (vw_clients (view_of (mg_current m)))) end.
Proof.
  intros Hm E Hfn. eapply (mutate_spec _ _ _ _ _ _ (fun ov d => d = None /\ exists clients id x, Q id x
     /\ ov = with_overlay_clients (mg_overlay m) clients
     /\ changes (dc_Clients (mg_baseline m)) (fun c => c) (ov_clients (mg_overlay m)) clients id x)) in E.
  2:{ intros ov d Ef. destruct (Hfn ov d Ef) as (-> & clients & id & x & HQ & -> & Hch). split; [|split; [done|by exists clients, id, x]].
      destruct (ch_overlay _ Hm). split; try done. apply Hch. }
  destruct r as [s|]; [|done]. destruct E as [Hc (ov & d & Hov & Hbase & -> & clients & id & x & HQ & -> & Hch)]. split; [done|].
  exists id, x. split; [done|]. pose proof (cm_published _ _ _ _ _ Hc) as Hp. apply published_views in Hp. rewrite Hov, Hbase in Hp.
  eapply views_unique; [exact Hp|]. destruct (coherent_view m Hm) as [W1 W2 W3 W4]. split; intros j; cbn; [done|done| |done].
  rewrite lookup_alter_to, W3. pose proof (cg_live _ _ _ _ _ _ Hch j) as Hj. rewrite !fmap_id_option in Hj. by rewrite Hj.
Qed.

(** Live entries of tokens carry their digest and a name. *)
Definition tokens_named (l : gmap string (entry tokenRecord)) : Prop :=
  (forall id t meta, l !! id = Some (Live t meta) -> digest_ok t) /\ forall t meta, l !! ""%string <> Some (Live t meta).
Lemma tokens_outcome m expected now fn m' r (Q : string -> option (string * string * list string * bool * option Z * bool) -> Prop) :
  coherent m -> mutate m expected now fn = (m', r) ->
  (forall ov d, fn (mg_overlay m) (next_revision (mg_revision m)) = Ok (ov, d) -> d = None /\ exists tokens id x, Q id x
     /\ ov = with_tokens (mg_overlay m) tokens /\ tokens_named tokens
     /\ changes (base_tokens (mg_baseline m)) token_public (ov_tokens (mg_overlay m)) tokens id x) ->
  match r with Err _ => m' = m | Ok s => committed m expected now m' s /\ exists id x, Q id x
    /\ view_of s = set_tokens (view_of (mg_current m)) (alter_to id x (vw_tokens (view_of (mg_current m)))) end.
Proof.
  intros Hm E Hfn. eapply (mutate_spec _ _ _ _ _ _ (fun ov d => d = None /\ exists tokens id x, Q id x
     /\ ov = with_tokens (mg_overlay m) tokens
     /\ changes (base_tokens (mg_baseline m)) token_public (ov_tokens (mg_overlay m)) tokens id x)) in E.
  2:{ intros ov d Ef. destruct (Hfn ov d Ef) as (-> & tokens & id & x & HQ & -> & [Hn1 Hn2] & Hch). split; [|split; [done|by exists tokens, id, x]].
      destruct (ch_overlay _ Hm). split; try done. apply Hch. }
  destruct r as [s|]; [|done]. destruct E as [Hc (ov & d & Hov & Hbase & -> & tokens & id & x & HQ & -> & Hch)]. split; [done|].
  exists id, x. split; [done|]. pose proof (cm_published _ _ _ _ _ Hc) as Hp. apply published_views in Hp. rewrite Hov, Hbase in Hp.
  eapply views_unique; [exact Hp|]. destruct (coherent_view m Hm) as [W1 W2 W3 W4]. split; intros j; cbn; [done|done|done|].
  rewrite lookup_alter_to, W4. pose proof (cg_live _ _ _ _ _ _ Hch j) as Hj. by rewrite Hj.
Qed.

(** *** Identifiers are kept *)

Lemma userFromCreate_id base req u : userFromCreate base req = Ok u -> us_ID u = nu_ID req.
Proof. unfold userFromCreate. cbv zeta. intros E. rewrite (up_id _ _ _ (user_patch _ _ _ E)). by destruct base. Qed.
Lemma client_patch_id cur p c : applyClientPatch cur p = Ok c -> cl_ID c = cl_ID cur.
Proof.
  unfold applyClientPatch. cbv zeta. intros (secret & _ & E)%rbind_Ok. apply rbind_Ok in E as (out & Eo & E).
  rewrite (f_equal cl_ID (applyRADIUSSecretPatch_flat _ _ _ E) : cl_ID c = cl_ID out). destruct (ul_Endpoints p) as [eps|].
  - apply then_Ok in Eo as [_ Eo]. apply then_Ok in Eo as [_ [= <-]]. unfold applyTACACSProjection. cbv zeta. by destruct (pj_Have _).
  - apply rbind_Ok in Eo as (mid & Em & [= <-]). destruct (ul_RADIUS p) as [r|]; [|by injection Em as <-].
    exact (f_equal cl_ID (applyRADIUSFlatten_flat _ _ _ Em)).
Qed.
Lemma clientFromCreate_id base req c : clientFromCreate base req = Ok c -> cl_ID c = nc_ID req.
Proof. unfold clientFromCreate. cbv zeta. intros E. rewrite (client_patch_id _ _ _ E). by destruct base. Qed.
Lemma token_from_ok req : digest_ok (token_from req).
Proof.
  split; [done|]. unfold token_from. cbn. destruct (len (nt_Material req) =? 0); [by left|right]. by exists (nt_Material req).
Qed.

(** *** The calls *)

Lemma view_user m id cur : coherent m -> live_find (dc_Users (mg_baseline m)) (ov_users (mg_overlay m)) id = cur ->
  vw_users (view_of (mg_current m)) !! id = cur.
Proof. intros Hm <-. apply (vs_users _ _ _ (coherent_view m Hm)). Qed.

(** The rest of the overlay is kept when the users change. *)
Lemma rest_of_users ov users : with_users (with_users ov users) (ov_users ov) = with_secrets ov (ov_secrets (with_users ov users)).
Proof. by destruct ov. Qed.
Lemma users_ok ov users : overlay_ok ov -> entries_ok users -> overlay_ok (with_users ov users).
Proof. intros [] ?. by split. Qed.

Lemma views_prune base ov v : views base (pruneOverlaySecrets ov) v -> views base ov v.
Proof. intros []. by split. Qed.

Definition replaces (m : Manager) (o : operation) (expected : option Z) (now : Z) (m' : Manager) (r : result cfg_error (Snapshot Dict)) : Prop :=
  match r with Err _ => m' = m | Ok s => committed m expected now m' s /\ effect m o s end.

Lemma reload_effect m d expected now m' r : coherent m -> exec m (OpReload d) expected now = (m', r) -> replaces m (OpReload d) expected now m' r.
Proof.
  intros Hm E. eapply (mutate_spec _ _ _ _ _ _ (fun ov d' => exists doc, d = Some doc /\ d' = Some doc
    /\ ov = if reset_overlay doc then newOverlay else mg_overlay m)) in E.
  2:{ intros ov d' Ef. destruct d as [doc|]; [|done]. injection Ef as <- <-. split; [|by exists doc].
      destruct (reset_overlay doc); [apply overlay_ok_new|apply ch_overlay, Hm]. }
  unfold replaces. destruct r as [s|]; [|done]. destruct E as [Hc (ov & d' & Hov & Hbase & doc & -> & -> & ->)]. split; [done|].
  exists doc. split; [done|]. pose proof (cm_published _ _ _ _ _ Hc) as Hp. split; [by rewrite (pb_settings _ _ _ _ _ _ _ _ _ _ _ _ _ Hp), Hbase|].
  apply published_views in Hp. rewrite Hov, Hbase in Hp. exact (views_prune _ _ _ Hp).
Qed.
Lemma reset_effect m expected now m' r : coherent m -> exec m OpReset expected now = (m', r) -> replaces m OpReset expected now m' r.
Proof.
  intros Hm E. eapply (mutate_spec _ _ _ _ _ _ (fun ov d' => d' = None /\ ov = newOverlay)) in E.
  2:{ intros ov d' [= <- <-]. split; [apply overlay_ok_new|done]. }
  unfold replaces. destruct r as [s|]; [|done]. destruct E as [Hc (ov & d' & Hov & Hbase & -> & ->)]. split; [done|].
  pose proof (cm_published _ _ _ _ _ Hc) as Hp. apply published_views in Hp. rewrite Hov, Hbase in Hp. exact (views_prune _ _ _ Hp).
Qed.

Lemma create_user_effect m req expected now m' r :
  coherent m -> exec m (OpCreateUser req) expected now = (m', r) -> replaces m (OpCreateUser req) expected now m' r.
Proof.
  intros Hm E. pose proof (ch_overlay _ Hm) as Hok. eapply (users_outcome _ _ _ _ _ _ (fun _ id x => exists u, x = Some u /\
    NormalizeUserID precis (nu_ID req) = Ok id /\ may_create (dc_Users (mg_baseline m)) (allows m) (vw_users (view_of (mg_current m)) !! id) id (nu_Override req)
    /\ userFromCreate (baseline_find (dc_Users (mg_baseline m)) id) (mkCreateUser id (nu_Patch req) (nu_Override req)) = Ok u)) in E; [|done|].
  2:{ intros ov d Ef. apply rbind_Ok in Ef as (id & Eid & Ef). apply rbind_Ok in Ef as (users & Eu & [= <- <-]).
      apply create_user_Ok in Eu as (u & prev & Eb & -> & Hmay). pose proof (userFromCreate_id _ _ _ Eb) as Hid.
      split; [apply users_ok; [done|]; by apply entries_put; [apply Hok|]|]. split; [done|]. exists id, (Some u). split.
      - exists u. by rewrite (view_user m id _ Hm eq_refl).
      - split; [apply rest_of_users|]. by apply (changes_put _ (fun u => u)); [apply Hok|]. }
  unfold replaces. destruct r as [s|]; [|done]. destruct E as [Hc (ov & id & x & (u & -> & ? & ? & ?) & Hv & _)]. split; [done|]. by exists id, u.
Qed.

Lemma update_user_effect m userID p expected now m' r :
  coherent m -> exec m (OpUpdateUser userID p) expected now = (m', r) -> replaces m (OpUpdateUser userID p) expected now m' r.
Proof.
  intros Hm E. pose proof (ch_overlay _ Hm) as Hok. eapply (users_outcome _ _ _ _ _ _ (fun _ id x => exists cur new, x = Some new /\
    NormalizeUserID precis userID = Ok id /\ vw_users (view_of (mg_current m)) !! id = Some cur
    /\ may_patch m (dc_Users (mg_baseline m)) (ov_users (mg_overlay m)) id /\ applyUserPatch cur p = Ok new)) in E; [|done|].
  2:{ intros ov d Ef. apply rbind_Ok in Ef as (id & Eid & Ef). apply rbind_Ok in Ef as (users & Eu & [= <- <-]).
      apply update_Ok in Eu as (cur & next & prev & El & Ea & -> & Hmay).
      pose proof (up_id _ _ _ (user_patch _ _ _ Ea)) as Hid. rewrite (live_id _ _ _ _ (oo_users _ Hok) El : us_ID cur = id) in Hid.
      split; [apply users_ok; [done|]; by apply entries_put; [apply Hok|]|]. split; [done|]. exists id, (Some next). split.
      - exists cur, next. by rewrite (view_user m id _ Hm El).
      - split; [apply rest_of_users|]. by apply (changes_put _ (fun u => u)); [apply Hok|]. }
  unfold replaces. destruct r as [s|]; [|done]. destruct E as [Hc (ov & id & x & (cur & new & -> & ? & ? & ? & ?) & Hv & _)].
  split; [done|]. by exists id, cur, new.
Qed.

Lemma delete_user_effect m userID tombstone actor expected now m' r :
  coherent m -> exec m (OpDeleteUser userID tombstone actor) expected now = (m', r) -> replaces m (OpDeleteUser userID tombstone actor) expected now m' r.
Proof.
  intros Hm E. pose proof (ch_overlay _ Hm) as Hok. eapply (users_outcome _ _ _ _ _ _ (fun _ id x =>
    x = after_delete (dc_Users (mg_baseline m)) (ov_users (mg_overlay m)) id tombstone /\
    NormalizeUserID precis userID = Ok id /\ is_Some (vw_users (view_of (mg_current m)) !! id))) in E; [|done|].
  2:{ intros ov d Ef. apply rbind_Ok in Ef as (id & Eid & Ef). apply rbind_Ok in Ef as (users & Eu & [= <- <-]).
      destruct (changes_delete _ (fun u => u) _ _ _ _ _ _ _ _ Eu) as [Hl Hch]; [apply Hok|].
      split; [apply users_ok; [done|apply Hch]|]. split; [done|]. eexists id, _. split.
      - split; [done|]. split; [done|]. by rewrite (view_user m id _ Hm eq_refl).
      - split; [apply rest_of_users|]. by rewrite fmap_id_option in Hch. }
  unfold replaces. destruct r as [s|]; [|done]. destruct E as [Hc (ov & id & x & (-> & ? & ?) & Hv & _)]. split; [done|]. by exists id.
Qed.

(** A verifier kept in memory survives the pruning: its user names it. *)
Lemma live_ids_spec l k : k ∈ live_ids l <-> exists id u meta, l !! id = Some (Live u meta) /\ k ∈ memory_ids u.
Proof.
  unfold live_ids. rewrite list_elem_of_In, in_concat. split.
  - intros (ids & Hids & Hk). apply in_map_iff in Hids as ([id e] & <- & He). apply list_elem_of_In, elem_of_map_to_list in He.
    destruct e as [u meta|]; [|done]. exists id, u, meta. split; [done|by apply list_elem_of_In].
  - intros (id & u & meta & Hl & Hk). exists (memory_ids u). split; [|by apply list_elem_of_In]. apply in_map_iff. exists (id, Live u meta).
    split; [done|]. by apply list_elem_of_In, elem_of_map_to_list.
Qed.

Lemma override_effect m key set purpose userID phc expected now m' r :
  (forall u ref, us_ID (set u ref) = us_ID u) ->
  (forall u id, key id ∈ memory_ids (set u (memory_ref purpose (key id)))) -> (forall id, key id <> ""%string) ->
  coherent m -> ValidatePHC phc = Ok tt -> mutate m expected now (override_verifier precis m key set purpose userID phc now) = (m', r) ->
  match r with Err _ => m' = m | Ok s => committed m expected now m' s /\ verifier_effect m key set purpose userID phc s end.
Proof.
  intros Hset Hkey Hne Hm Hphc E. pose proof (ch_overlay _ Hm) as Hok. eapply (users_outcome _ _ _ _ _ _ (fun ov id x => exists cur,
    x = Some (set cur (memory_ref purpose (key id))) /\ NormalizeUserID precis userID = Ok id /\ vw_users (view_of (mg_current m)) !! id = Some cur
    /\ may_patch m (dc_Users (mg_baseline m)) (ov_users (mg_overlay m)) id /\ ov_secrets (pruneOverlaySecrets ov) !! key id = Some phc)) in E; [|done|].
  2:{ intros ov d Ef. apply rbind_Ok in Ef as (id & Eid & Ef). apply rbind_Ok in Ef as (users & Eu & [= <- <-]).
      apply update_Ok in Eu as (cur & next & prev & El & [= <-] & -> & Hmay).
      pose proof (Hset cur (memory_ref purpose (key id))) as Hid. rewrite (live_id _ _ _ _ (oo_users _ Hok) El : us_ID cur = id) in Hid.
      split; [|split; [done|]].
      - destruct Hok. split; try done; [by apply entries_put|]. apply map_Forall_insert_2; done.
      - exists id, (Some (set cur (memory_ref purpose (key id)))). split.
        + exists cur. rewrite (view_user m id _ Hm El). do 4 (split; [done|]). apply map_lookup_filter_Some. cbn. rewrite lookup_insert_eq.
          split; [done|]. apply have_spec, live_ids_spec. destruct (put_shape (dc_Users (mg_baseline m)) (ov_users (mg_overlay m))
            (next_revision (mg_revision m)) now id (set cur (memory_ref purpose (key id))) prev) as (src & sh & -> & _).
          eexists id, _, _. rewrite lookup_insert_eq. split; [done|apply Hkey].
        + split; [done|]. by apply (changes_put _ (fun u => u)); [apply Hok|]. }
  destruct r as [s|]; [|done]. destruct E as [Hc (ov & id & x & (cur & -> & ? & ? & ? & Hsec) & Hv & Hs)]. split; [done|].
  exists id, cur. do 5 (split; [done|]). unfold RuntimeSecret. rewrite (proj2 (str_neq _ _) (Hne id)). by rewrite Hs.
Qed.

Lemma filter_elem {A} (f : A -> bool) l x : x ∈ l -> f x = true -> x ∈ List.filter f l.
Proof. rewrite !list_elem_of_In, filter_In. done. Qed.
Lemma override_login_effect m userID phc expected now m' r :
  coherent m -> exec m (OpOverrideLogin userID phc) expected now = (m', r) -> replaces m (OpOverrideLogin userID phc) expected now m' r.
Proof.
  intros Hm E. cbn in E. unfold OverrideLoginVerifier in E. destruct (ValidatePHC phc) as [[]|] eqn:Ep; [|by injection E as <- <-].
  apply override_effect in E; try done. intros u id. apply filter_elem; [left|done].
Qed.
Lemma override_enable_effect m userID phc expected now m' r :
  coherent m -> exec m (OpOverrideEnable userID phc) expected now = (m', r) -> replaces m (OpOverrideEnable userID phc) expected now m' r.
Proof.
  intros Hm E. cbn in E. unfold OverrideEnableVerifier in E. destruct (ValidatePHC phc) as [[]|] eqn:Ep; [|by injection E as <- <-].
  apply override_effect in E; try done. intros u id. apply filter_elem; [right; left|done].
Qed.

Lemma view_group m id cur : coherent m -> live_find (dc_Groups (mg_baseline m)) (ov_groups (mg_overlay m)) id = cur ->
  vw_groups (view_of (mg_current m)) !! id = cur.
Proof. intros Hm <-. apply (vs_groups _ _ _ (coherent_view m Hm)). Qed.
Lemma view_client m id cur : coherent m -> live_find (dc_Clients (mg_baseline m)) (ov_clients (mg_overlay m)) id = cur ->
  vw_clients (view_of (mg_current m)) !! id = cur.
Proof. intros Hm <-. apply (vs_clients _ _ _ (coherent_view m Hm)). Qed.
Lemma view_token m id cur : coherent m -> live_find (base_tokens (mg_baseline m)) (ov_tokens (mg_overlay m)) id = cur ->
  vw_tokens (view_of (mg_current m)) !! id = token_public <$> cur.
Proof. intros Hm <-. apply (vs_tokens _ _ _ (coherent_view m Hm)). Qed.

Lemma group_effect m o expected now m' r :
  coherent m -> exec m o expected now = (m', r) ->
  match o with OpCreateGroup _ | OpUpdateGroup _ _ | OpDeleteGroup _ _ _ => True | _ => False end -> replaces m o expected now m' r.
Proof.
  intros Hm E Ho. pose proof (oo_groups _ (ch_overlay _ Hm)) as Hok. destruct o as [ | | | | | | |req|id p|id t actor| | | | | ]; try done.
  - eapply (groups_outcome _ _ _ _ _ _ (fun id x => id = ng_ID req /\ x = Some (groupFromCreate (baseline_find (dc_Groups (mg_baseline m)) id) req)
      /\ may_create (dc_Groups (mg_baseline m)) (allows m) (vw_groups (view_of (mg_current m)) !! id) id (ng_Override req))) in E; [|done|].
    2:{ intros ov d Ef. apply then_Ok in Ef as [_ Ef]. apply rbind_Ok in Ef as (groups & Eu & [= <- <-]). split; [done|].
        apply create_Ok in Eu as (g & prev & [= <-] & -> & Hmay). eexists _, (ng_ID req), _. split.
        - split; [done|]. split; [done|]. by rewrite (view_group m _ _ Hm eq_refl).
        - split; [done|]. apply (changes_put _ (fun u => u)); [done|]. cbn. by destruct (baseline_find _ _). }
    destruct r as [s|]; [|done]. destruct E as [Hc (id & x & (-> & -> & ?) & Hv)]. done.
  - eapply (groups_outcome _ _ _ _ _ _ (fun j x => exists cur, j = id /\ x = Some (applyGroupPatch cur p)
      /\ vw_groups (view_of (mg_current m)) !! id = Some cur /\ may_patch m (dc_Groups (mg_baseline m)) (ov_groups (mg_overlay m)) id)) in E; [|done|].
    2:{ intros ov d Ef. apply then_Ok in Ef as [_ Ef]. apply rbind_Ok in Ef as (groups & Eu & [= <- <-]). split; [done|].
        apply update_Ok in Eu as (cur & next & prev & El & [= <-] & -> & Hmay). eexists _, id, _. split.
        - exists cur. by rewrite (view_group m id _ Hm El).
        - split; [done|]. apply (changes_put _ (fun u => u)); [done|]. exact (live_id _ _ _ _ Hok El). }
    destruct r as [s|]; [|done]. destruct E as [Hc (j & x & (cur & -> & -> & ? & ?) & Hv)]. split; [done|]. by exists cur.
  - eapply (groups_outcome _ _ _ _ _ _ (fun j x => j = id /\ x = after_delete (dc_Groups (mg_baseline m)) (ov_groups (mg_overlay m)) id t
      /\ is_Some (vw_groups (view_of (mg_current m)) !! id))) in E; [|done|].
    2:{ intros ov d Ef. apply then_Ok in Ef as [_ Ef]. apply rbind_Ok in Ef as (groups & Eu & [= <- <-]). split; [done|].
        destruct (changes_delete _ (fun u => u) _ _ _ _ _ _ _ _ Eu) as [Hl Hch]; [done|]. eexists _, id, _. split.
        - split; [done|]. split; [done|]. by rewrite (view_group m id _ Hm eq_refl).
        - split; [done|]. by rewrite fmap_id_option in Hch. }
    destruct r as [s|]; [|done]. destruct E as [Hc (j & x & (-> & -> & ?) & Hv)]. done.
Qed.

Lemma client_effect m o expected now m' r :
  coherent m -> exec m o expected now = (m', r) ->
  match o with OpCreateClient _ | OpUpdateClient _ _ | OpDeleteClient _ _ _ => True | _ => False end -> replaces m o expected now m' r.
Proof.
  intros Hm E Ho. pose proof (oo_clients _ (ch_overlay _ Hm)) as Hok. destruct o as [ | | | | | | | | | |req|id p|id t actor| | ]; try done.
  - eapply (clients_outcome _ _ _ _ _ _ (fun id x => exists c, id = nc_ID req /\ x = Some c
      /\ may_create (dc_Clients (mg_baseline m)) (allows m) (vw_clients (view_of (mg_current m)) !! id) id (nc_Override req)
      /\ clientFromCreate (baseline_find (dc_Clients (mg_baseline m)) id) req = Ok c)) in E; [|done|].
    2:{ intros ov d Ef. apply then_Ok in Ef as [_ Ef]. apply rbind_Ok in Ef as (clients & Eu & [= <- <-]). split; [done|].
        apply create_Ok in Eu as (c & prev & Eb & -> & Hmay). eexists _, (nc_ID req), _. split.
        - exists c. by rewrite (view_client m _ _ Hm eq_refl).
        - split; [done|]. apply (changes_put _ (fun u => u)); [done|]. by eapply clientFromCreate_id. }
    destruct r as [s|]; [|done]. destruct E as [Hc (id & x & (c & -> & -> & ? & ?) & Hv)]. split; [done|]. by exists c.
  - eapply (clients_outcome _ _ _ _ _ _ (fun j x => exists cur new, j = id /\ x = Some new /\ vw_clients (view_of (mg_current m)) !! id = Some cur
      /\ may_patch m (dc_Clients (mg_baseline m)) (ov_clients (mg_overlay m)) id /\ applyClientPatch cur p = Ok new)) in E; [|done|].
    2:{ intros ov d Ef. apply then_Ok in Ef as [_ Ef]. apply rbind_Ok in Ef as (clients & Eu & [= <- <-]). split; [done|].
        apply update_Ok in Eu as (cur & next & prev & El & Ea & -> & Hmay). eexists _, id, _. split.
        - exists cur, next. by rewrite (view_client m id _ Hm El).
        - split; [done|]. apply (changes_put _ (fun u => u)); [done|]. cbn. rewrite (client_patch_id _ _ _ Ea). exact (live_id _ _ _ _ Hok El). }
    destruct r as [s|]; [|done]. destruct E as [Hc (j & x & (cur & new & -> & -> & ? & ? & ?) & Hv)]. split; [done|]. by exists cur, new.
  - eapply (clients_outcome _ _ _ _ _ _ (fun j x => j = id /\ x = after_delete (dc_Clients (mg_baseline m)) (ov_clients (mg_overlay m)) id t
      /\ is_Some (vw_clients (view_of (mg_current m)) !! id))) in E; [|done|].
    2:{ intros ov d Ef. apply then_Ok in Ef as [_ Ef]. apply rbind_Ok in Ef as (clients & Eu & [= <- <-]). split; [done|].
        destruct (changes_delete _ (fun u => u) _ _ _ _ _ _ _ _ Eu) as [Hl Hch]; [done|]. eexists _, id, _. split.
        - split; [done|]. split; [done|]. by rewrite (view_client m id _ Hm eq_refl).
        - split; [done|]. by rewrite fmap_id_option in Hch. }
    destruct r as [s|]; [|done]. destruct E as [Hc (j & x & (-> & -> & ?) & Hv)]. done.
Qed.

Lemma create_token_effect m req expected now m' r :
  coherent m -> exec m (OpCreateToken req) expected now = (m', r) -> replaces m (OpCreateToken req) expected now m' r.
Proof.
  intros Hm E. pose proof (ch_overlay _ Hm) as Hok. eapply (tokens_outcome _ _ _ _ _ _ (fun id x => id = nt_ID req /\ x = Some (token_public (token_from req))
    /\ nt_Scopes req <> [] /\ Forall (fun x => x ∈ knownScopes) (nt_Scopes req)
    /\ (is_Some (vw_tokens (view_of (mg_current m)) !! nt_ID req) -> nt_Override req = true)
    /\ (in_base (base_tokens (mg_baseline m)) (nt_ID req) = true -> nt_Override req = true /\ allows m = true))) in E; [|done|].
  2:{ intros ov d Ef. cbv beta zeta in Ef. apply then_Ok in Ef as [Hid%refuse_Ok%str_neq Ef]. apply then_Ok in Ef as [Hsc Ef].
      do 4 (apply then_Ok in Ef as [?%refuse_Ok Ef]). rename H into Hlen, H0 into Hlive, H1 into Hb1, H2 into Hb2.
      rewrite (each_Ok _ (fun x => x ∈ knownScopes)) in Hsc by (intros; unfold ValidScope; by autorewrite with refused).
      rewrite and_false, negb_false_iff, bool_decide_eq_true in Hlive. rewrite and_false, negb_false_iff in Hb1, Hb2.
      destruct (if in_base _ _ then _ else _) as [src sh] eqn:Es. injection Ef as <- <-. split; [done|].
      assert (entries_ok (<[nt_ID req := Live (token_from req) (newOverlayMeta KindToken (nt_ID req) (nt_Name req) src sh (tk_Enabled (token_from req)) ∅
        (next_revision (mg_revision m)) now (live_meta (ov_tokens (mg_overlay m) !! nt_ID req)))]> (ov_tokens (mg_overlay m)))) as Hent.
      { refine (entries_insert (ov_tokens (mg_overlay m)) _ _ (nt_ID req) (token_from req) (nt_Name req) src sh _ (oo_tokens _ Hok) eq_refl _).
        destruct (in_base _ _); injection Es as <- <-; tauto. }
      eexists _, (nt_ID req), _. split; [|split; [done|split; [|split; [exact Hent|]]]].
      - do 2 (split; [done|]). rewrite (view_token m _ _ Hm eq_refl), fmap_is_Some. split; [|tauto].
        intros Hn. rewrite Hn in Hlen. done.
      - split.
        + intros id t meta Hl. apply lookup_insert_Some in Hl as [[_ [= <- _]]|[_ Hl]]; [apply token_from_ok|by eapply (oo_digests _ Hok)].
        + intros t meta Hl. apply lookup_insert_Some in Hl as [[Hi _]|[_ Hl]]; [done|by eapply (oo_named _ Hok)].
      - intros j. unfold live_find. case_decide as Ej; [subst; by rewrite lookup_insert_eq|by rewrite lookup_insert_ne]. }
  unfold replaces. destruct r as [s|]; [|done]. destruct E as [Hc (id & x & (-> & -> & ? & ? & ? & ?) & Hv)]. split; [done|]. by split_and!.
Qed.

Lemma delete_token_effect m id t actor expected now m' r :
  coherent m -> exec m (OpDeleteToken id t actor) expected now = (m', r) -> replaces m (OpDeleteToken id t actor) expected now m' r.
Proof.
  intros Hm E. pose proof (ch_overlay _ Hm) as Hok.
  eapply (tokens_outcome _ _ _ _ _ _ (fun j x => j = id /\ x = token_public <$> after_delete (base_tokens (mg_baseline m)) (ov_tokens (mg_overlay m)) id t
      /\ is_Some (vw_tokens (view_of (mg_current m)) !! id))) in E; [|done|].
  2:{ intros ov d Ef. apply then_Ok in Ef as [_ Ef]. apply rbind_Ok in Ef as (tokens & Eu & [= <- <-]). split; [done|].
      destruct (delete_Ok _ _ _ _ _ _ _ _ _ Eu) as (Hl & He & Hsub & Hj); [apply Hok|]. eexists _, id, _. split.
      - do 2 (split; [done|]). by rewrite (view_token m id _ Hm eq_refl), fmap_is_Some.
      - split; [done|]. split; [split|].
        + intros j a meta Hm'. by eapply (oo_digests _ Hok), Hsub.
        + intros a meta Hm'. by eapply (oo_named _ Hok), Hsub.
        + split; [done|]. intros j. rewrite Hj. by destruct (decide (j = id)). }
  unfold replaces. destruct r as [s|]; [|done]. by destruct E as [Hc (j & x & (-> & -> & ?) & Hv)].
Qed.

Lemma exec_step m o expected now m' r : coherent m -> exec m o expected now = (m', r) -> replaces m o expected now m' r.
Proof.
  intros Hm E. destruct o.
  - by apply reload_effect. - by apply reset_effect.
  - by apply create_user_effect. - by apply update_user_effect. - by apply delete_user_effect.
  - by apply override_login_effect. - by apply override_enable_effect.
  - by apply group_effect. - by apply group_effect. - by apply group_effect.
  - by apply client_effect. - by apply client_effect. - by apply client_effect.
  - by apply create_token_effect. - by apply delete_token_effect.
Qed.

Lemma new_coherent d lookup key hook now m : New d lookup key hook now = Ok m -> coherent m.
Proof.
  unfold StateManager.New. destruct d as [d|]; [|done]. intros E. apply rbind_Ok in E as ([s born] & Ec & E). injection E as <-.
  split; cbn; [apply overlay_ok_new|by intros k [v Hk]|]. exists None, now. eapply compile_spec; [exact Ec|apply overlay_ok_new].
Qed.

Lemma exec_coherent m o expected now : coherent m -> coherent (exec m o expected now).1.
Proof.
  intros Hm. destruct (exec m o expected now) as [m' r] eqn:E. pose proof (exec_step _ _ _ _ _ _ Hm E) as H. cbn.
  destruct r as [s|]; [by eapply committed_coherent, H|by rewrite H].
Qed.
Lemma reachable_coherent m : reachable m -> coherent m.
Proof. induction 1; [by eapply new_coherent|by apply exec_coherent]. Qed.

(** A candidate document is tried as the reload would compile it: the overlay
    is pruned already. *)
Lemma prune_id ov : pruned ov -> pruneOverlaySecrets ov = ov.
Proof.
  intros Hp. destruct ov as [u g c t s f]. unfold pruneOverlaySecrets, with_secrets. cbn. f_equal. apply map_filter_id.
  intros k v Hk. cbn. apply have_spec. apply (Hp k). by exists v.
Qed.

(** ** Properties *)

(** C5. Every state a manager reaches is coherent.  Each overlay entry is filed
    under the id and kind of its object and metadata, is an override of the
    file's or a runtime object, and a tombstone is marked deleted; token
    digests are SHA-256 digests or absent; the verifiers held in memory are
    valid PHC strings that a live user names.  The published snapshot is the
    compilation of the baseline and the overlay at the current revision: it
    holds exactly the live objects, listed sorted and without duplicates, and
    it was compiled from a document that validation accepts, with the client
    index and both policies of that document.  When secrets are resolved, every
    shared secret of a live client can be read and satisfies its policy. *)
Theorem manager_invariant m : reachable m -> coherent m.
Proof. exact (reachable_coherent m). Qed.

(** The dry run is exact. *)
Lemma dry_run m d now :
  reachable m -> (ValidateCandidate m d now = Ok tt <-> exists s, (exec m (OpReload d) None now).2 = Ok s).
Proof.
  intros Hm%reachable_coherent. unfold StateManager.ValidateCandidate. cbn [exec]. unfold Reload, StateManager.mutate. cbv zeta. cbn [checkRevision rbind].
  destruct d as [d|]; [|split; [done|intros [s E]; discriminate E]]. cbn [rbind fst snd default].
  assert (pruneOverlaySecrets (if reset_overlay d then newOverlay else mg_overlay m) = if reset_overlay d then newOverlay else mg_overlay m) as ->.
  { apply prune_id. destruct (reset_overlay d); [by intros k [v Hk]|apply Hm]. }
  rewrite bool_decide_true by (by eexists).
  destruct (compile _ _ _ _ _ _ _ _ _) as [[s born]|e]; cbn; split; try done; [by exists s|by intros [s E]].
Qed.
(** C4. A call on the manager is a transaction.  A call that fails leaves the
    manager as it was.  One that succeeds was expecting the published revision
    or none, publishes one snapshot under the next revision, calls the hook
    with it, and the published view changes as the request asks: one object
    created, patched or removed under its normalized id, everything else in the
    four collections the same; a reset shows the file again; a reload shows the
    new file, under the kept overlay or none; a verifier override is readable
    under the user's memory id.  [ValidateCandidate] accepts a file exactly
    when a reload of it would succeed. *)
Theorem manager_refines m o expected now m' r :
  reachable m -> exec m o expected now = (m', r) ->
  (forall d, ValidateCandidate m d now = Ok tt <-> exists s, (exec m (OpReload d) None now).2 = Ok s)
  /\ match r with
  | Err _ => m' = m
  | Ok s =>
    (expected = None \/ expected = Some (sn_Revision (mg_current m))) /\ mg_current m' = s
    /\ sn_Revision s = next_revision (sn_Revision (mg_current m)) /\ mg_hook m' = option_map (cons s) (mg_hook m) /\ effect m o s
  end.
Proof.
  intros Hm E. split; [intros d; by apply dry_run|]. apply reachable_coherent in Hm. pose proof (exec_step _ _ _ _ _ _ Hm E) as H. destruct r as [s|]; [|done].
  destruct H as [Hc He], Hm as [_ _ (p & t & Hp)]. rewrite (pb_revision _ _ _ _ _ _ _ _ _ _ _ _ _ Hp).
  split; [apply Hc|]. split; [apply Hc|]. split; [|split; [apply Hc|done]].
  by rewrite (pb_revision _ _ _ _ _ _ _ _ _ _ _ _ _ (cm_published _ _ _ _ _ Hc)), (cm_revision _ _ _ _ _ Hc).
Qed.

End Manager.

(** ** A small deployment *)

(** A manager of [lab_document] whose files all hold the same octets. *)
Definition lab_lookup : SecretLookup := fun _ => Ok (map Z.of_nat (seq 65 20)).
Definition lab_new : result cfg_error (Manager (Dict := unit)) :=
  New (fun _ => None) (fun _ => true) (fun _ => true) (fun _ => false) (fun _ => true) (fun _ => false)
    (fun _ => Ok tt) (fun _ => Ok "h"%string) (fun _ _ => Ok "o"%string) (Some lab_document) (Some lab_lookup) [] true 0.
#[local] Notation lab_exec :=
  (exec (Dict := unit) (fun _ => None) (fun _ => true) (fun _ => true) (fun _ => false) (fun _ => true) (fun _ => false)
    (fun _ => Ok tt) (fun _ => Ok "h"%string) (fun _ _ => Ok "o"%string) Some).
#[local] Notation lab_reachable :=
  (reachable (Dict := unit) (fun _ => None) (fun _ => true) (fun _ => true) (fun _ => false) (fun _ => true) (fun _ => false)
    (fun _ => Ok tt) (fun _ => Ok "h"%string) (fun _ _ => Ok "o"%string) Some).

Definition lab_patch (enabled : bool) : UpdateUser := mkUpdateUser None (Some enabled) None None None None None None None None None None.
Example lab_runs :
  match lab_new with
  | Ok m => is_ok (lab_exec m (OpUpdateUser "alice" (lab_patch false)) (Some 1) 5).2
            && negb (is_ok (lab_exec m (OpUpdateUser "alice" (lab_patch false)) (Some 2) 5).2)
            && negb (is_ok (lab_exec m (OpDeleteGroup "ops" true "admin") None 5).2)
  | Err _ => false
  end = true.
Proof. vm_compute. reflexivity. Qed.

Lemma manager_invariant_witness : exists m, lab_new = Ok m /\ coherent (Dict := unit) (fun _ => None) (fun _ => true) (fun _ => true)
  (fun _ => false) (fun _ => true) (fun _ => false) m.
Proof.
  destruct lab_new as [m|] eqn:E; [|vm_compute in E; discriminate E]. exists m. split; [reflexivity|].
  refine (manager_invariant _ _ _ _ _ _ _ _ _ Some m _). eapply reach_new. exact E.
Defined.

Lemma manager_refines_witness : exists m m' s, lab_new = Ok m
  /\ lab_exec m (OpUpdateUser "alice" (lab_patch false)) (Some 1) 5 = (m', Ok s)
  /\ sn_Revision s = next_revision (sn_Revision (mg_current m)) /\ effect Some m (OpUpdateUser "alice" (lab_patch false)) s.
Proof.
  pose proof lab_runs as Hr. destruct lab_new as [m|] eqn:E; [|discriminate Hr]. apply andb_true_iff in Hr as [Hr _]. apply andb_true_iff in Hr as [Hr _].
  destruct (lab_exec m (OpUpdateUser "alice" (lab_patch false)) (Some 1) 5) as [m' [s|]] eqn:Ex; [|discriminate Hr].
  exists m, m', s. split; [reflexivity|]. split; [exact Ex|].
  pose proof (manager_refines _ _ _ _ _ _ _ _ _ _ m _ _ _ _ _ (reach_new _ _ _ _ _ _ _ _ _ _ _ _ _ _ _ _ E) Ex) as (_ & _ & _ & H & _ & He).
  split; [exact H|exact He].
Defined.
