(* ===== verification/StateTokens.v ===== *)
(** * Bearers and credential generations

    Which bearer a snapshot lets in, and what a credential generation, by which
    the administrative API tells whether a session's token is still the one it
    was opened with, stands for along a history of calls ([tokens_exact]). *)

From stdpp Require Import gmap strings sorting.
From S2P Require Import Prelude Text Sha256 StableSort Credentials Domain Policy RadiusPolicy ClientMatch ConfigModel ConfigValidate ConfigSpec ConfigSecrets StatePatch PatchSpec StateManager StateSpec StateHistory.

#[local] Open Scope Z_scope.

Section Manager.
Context {Dict : Type} (regexp_Compile : string -> option (string -> bool)) (PolicyParseIP IANALocation : string -> bool)
  (IsLower IsUpper IsDigit : Z -> bool) (CompileRADIUSDictionary : Document -> result cfg_error Dict)
  (hashBaseline : Document -> result cfg_error string) (hashOverlay : overlay -> bytes -> result cfg_error string)
  (precis : string -> option string).

#[local] Notation Manager := (@Manager Dict).
#[local] Notation published := (@published Dict regexp_Compile PolicyParseIP IANALocation IsLower IsUpper IsDigit).
#[local] Notation coherent := (@coherent Dict regexp_Compile PolicyParseIP IANALocation IsLower IsUpper IsDigit).
#[local] Notation exec_step := (exec_step regexp_Compile PolicyParseIP IANALocation IsLower IsUpper IsDigit CompileRADIUSDictionary hashBaseline hashOverlay precis).
#[local] Notation compile := (compile regexp_Compile PolicyParseIP IANALocation IsLower IsUpper IsDigit CompileRADIUSDictionary hashBaseline hashOverlay).
#[local] Notation mutate := (mutate regexp_Compile PolicyParseIP IANALocation IsLower IsUpper IsDigit CompileRADIUSDictionary hashBaseline hashOverlay).
#[local] Notation New := (New regexp_Compile PolicyParseIP IANALocation IsLower IsUpper IsDigit CompileRADIUSDictionary hashBaseline hashOverlay).
#[local] Notation exec := (exec regexp_Compile PolicyParseIP IANALocation IsLower IsUpper IsDigit CompileRADIUSDictionary hashBaseline hashOverlay precis).
#[local] Notation reachable :=
  (reachable regexp_Compile PolicyParseIP IANALocation IsLower IsUpper IsDigit CompileRADIUSDictionary hashBaseline hashOverlay precis).
#[local] Notation ValidateCandidate :=
  (ValidateCandidate regexp_Compile PolicyParseIP IANALocation IsLower IsUpper IsDigit CompileRADIUSDictionary hashBaseline hashOverlay).

(** ** Bearers *)

Lemma digest_len d tokens lookup id dg :
  (forall i t meta, tokens !! i = Some (Live t meta) -> digest_ok t) -> token_digest d tokens lookup id = Some dg -> len (td_v dg) = 32.
Proof.
  intros Hok. unfold token_digest, bootstrap_digest.
  assert (match lookup with
    | Some f => match find (fun b => str_eqb (bt_ID b) id) (dc_BootstrapTokens d) with
      | Some b => if Set_ (bt_Token b) then match f (bt_Token b) with Ok raw => Some (DigestToken (newSecret raw)) | Err _ => None end else None
      | None => None end
    | None => None end = Some dg -> len (td_v dg) = 32) as Hb.
  { destruct lookup as [f|]; [|done]. destruct (find _ _) as [b|]; [|done]. destruct (Set_ _); [|done].
    destruct (f (bt_Token b)) as [raw|]; [|done]. intros [= <-]. apply len_digest. }
  destruct (tokens !! id) as [[t meta|]|] eqn:E; [|done|done]. destruct (digest_empty (tk_Digest t)) eqn:Ed; [done|].
  intros [= <-]. destruct (Hok _ _ _ E) as [_ [Hn|[raw Hr]]]; [by rewrite Hn in Ed|]. rewrite Hr. apply len_digest.
Qed.

Lemma digest_index d : len (td_v d) = 32 -> DigestIndex d = td_v d.
Proof. intros H. unfold DigestIndex. apply copy_bytes_full. by rewrite len_make_bytes. Qed.

Definition unexpired (t : EffectiveToken) (now : Z) : Prop := forall e, et_ExpiresAt t = Some e -> now < e.

Lemma authenticate_iff m raw now tok :
  coherent m ->
  AuthenticateToken (mg_current m) raw now = Some tok <->
    raw <> [] /\ et_Enabled tok = true /\ unexpired tok now
    /\ exists id, sn_tokens (mg_current m) !! id = Some tok
         /\ token_digest (mg_baseline m) (ov_tokens (mg_overlay m)) (mg_lookup m) id = Some (DigestToken (newSecret raw)).
Proof.
  intros [Hok _ (p & t0 & Hp)].
  assert (forall id dg, sn_tokenDigests (mg_current m) !! id = Some dg -> len (td_v dg) = 32) as Hlen.
  { intros id dg E. rewrite (pb_digests _ _ _ _ _ _ _ _ _ _ _ _ _ Hp) in E. eapply digest_len; [|exact E]. apply Hok. }
  assert (forall id, sn_tokenIndex (mg_current m) !! DigestIndex (DigestToken (newSecret raw)) = Some id
            <-> id <> ""%string /\ sn_tokenDigests (mg_current m) !! id = Some (DigestToken (newSecret raw))) as Hidx.
  { intros id. rewrite (pb_tables _ _ _ _ _ _ _ _ _ _ _ _ _ Hp (DigestIndex (DigestToken (newSecret raw))) id). cbn [fst snd]. split.
    - intros [Hid (d & Hd & Hi)]. split; [done|]. rewrite !digest_index in Hi by (exact (len_digest raw) || by eapply Hlen).
      rewrite Hd. destruct d. cbn in Hi. by subst.
    - intros [Hid Hd]. split; [done|]. by exists (DigestToken (newSecret raw)). }
  unfold AuthenticateToken. destruct (Z.eqb_spec (len raw) 0) as [Hr|Hr].
  { apply len_zero in Hr as ->. split; [done|]. by intros [? _]. }
  assert (raw <> []) as Hne by (by intros ->). destruct (sn_tokenIndex _ !! _) as [id|] eqn:Ei.
  - destruct (proj1 (Hidx id) eq_refl) as [Hid Hd]. rewrite (pb_digests _ _ _ _ _ _ _ _ _ _ _ _ _ Hp) in Hd.
    assert (forall j, token_digest (mg_baseline m) (ov_tokens (mg_overlay m)) (mg_lookup m) j = Some (DigestToken (newSecret raw)) ->
      is_Some (sn_tokens (mg_current m) !! j) -> j = id) as Huniq.
    { intros j Hj [t Ht]. rewrite <- (pb_digests _ _ _ _ _ _ _ _ _ _ _ _ _ Hp) in Hj. assert (Some id = Some j) as [= ->]; [|done].
      apply Hidx. split; [|done]. intros ->. by eapply (pb_named _ _ _ _ _ _ _ _ _ _ _ _ _ Hp). }
    destruct (sn_tokens _ !! id) as [t|] eqn:Et.
    + assert (tok = t -> exists id0, sn_tokens (mg_current m) !! id0 = Some tok
         /\ token_digest (mg_baseline m) (ov_tokens (mg_overlay m)) (mg_lookup m) id0 = Some (DigestToken (newSecret raw))) as Hex by (intros ->; by exists id).
      unfold unexpired. split.
      * destruct (et_Enabled t) eqn:Ee; [|done]. destruct (et_ExpiresAt t) as [e|] eqn:Ex; [destruct (Z.ltb_spec now e); [|done]|];
          intros [= <-]; (split_and!; [done|done| |by apply Hex]); intros e'; rewrite Ex; [by intros [= <-]|done].
      * intros (_ & He & Hx & j & Hj & Hjd). rewrite (Huniq j Hjd) in Hj by (by eexists). rewrite Et in Hj. injection Hj as ->. rewrite He. cbn [negb].
        destruct (et_ExpiresAt tok) as [e|]; [|done]. by rewrite (proj2 (Z.ltb_lt now e) (Hx e eq_refl)).
    + split; [done|]. intros (_ & _ & _ & j & Hj & Hjd). rewrite (Huniq j Hjd) in Hj by (by eexists). congruence.
  - split; [done|]. intros (_ & _ & _ & j & Hj & Hjd). rewrite <- (pb_digests _ _ _ _ _ _ _ _ _ _ _ _ _ Hp) in Hjd.
    assert (None = Some j); [|done]. apply Hidx. split; [|done]. intros ->. by eapply (pb_named _ _ _ _ _ _ _ _ _ _ _ _ _ Hp).
Qed.

(** ** Credential generations *)

Definition history (m : Manager) (l : list (operation * option Z * Z)) : Manager :=
  fold_left (fun m '(o, expected, now) => (exec m o expected now).1) l m.

(** No generation is newer than the snapshot. *)
Definition dated (m : Manager) : Prop := forall id t, sn_tokens (mg_current m) !! id = Some t -> et_credentialGeneration t <= mg_revision m.

Lemma next_small r : 0 <= r -> r + 1 < 2 ^ 64 -> next_revision r = r + 1.
Proof. intros. apply Z.mod_small. lia. Qed.

(** One call: the revision is the same or the next one, and a token either has
    the new revision as its generation or had this generation before. *)
Lemma step_tokens m o expected now :
  coherent m ->
  let m' := (exec m o expected now).1 in
  coherent m' /\ (m' = m \/ (mg_revision m' = next_revision (mg_revision m)
    /\ forall id t, sn_tokens (mg_current m') !! id = Some t -> et_credentialGeneration t = mg_revision m'
         \/ exists t0, sn_tokens (mg_current m) !! id = Some t0 /\ et_credentialGeneration t = et_credentialGeneration t0
              /\ same_credential (mg_current m') (mg_current m) id t t0)).
Proof.
  intros Hm. destruct (exec m o expected now) as [m' r] eqn:E. pose proof (exec_step _ _ _ _ _ _ Hm E) as H. cbn.
  destruct r as [s|]; [|by rewrite H; split; [|left]]. destruct H as [Hc _]. split; [by eapply committed_coherent|right].
  split; [apply Hc|]. rewrite (cm_current _ _ _ _ _ _ _ _ _ _ _ Hc). intros id t Ht.
  destruct (pb_generation _ _ _ _ _ _ _ _ _ _ _ _ _ (cm_published _ _ _ _ _ _ _ _ _ _ _ Hc) id t Ht) as [Hg|(p & t0 & Hp & Ht0 & Hg & Hs)]; [by left|right].
  injection Hp as <-. by exists t0.
Qed.

Lemma history_dated m l :
  coherent m -> dated m -> 0 <= mg_revision m -> mg_revision m + len l < 2 ^ 64 ->
  coherent (history m l) /\ dated (history m l) /\ mg_revision m <= mg_revision (history m l) <= mg_revision m + len l.
Proof.
  revert m. induction l as [|[[o e] now] l IH]; intros m Hm Hd Hr Hl.
  { split; [done|]. split; [done|]. cbn [history fold_left]. len_lia. }
  cbn [history fold_left]. fold (history (exec m o e now).1 l). destruct (step_tokens m o e now Hm) as [Hm' Hs].
  assert (len ((o, e, now) :: l) = 1 + len l) as Hlen by len_lia. assert (0 <= len l) by len_lia. destruct Hs as [Hs|[Hrev Hg]].
  - rewrite Hs. destruct (IH m) as (? & ? & ?); [done..|lia|]. split; [done|]. split; [done|]. lia.
  - rewrite next_small in Hrev by lia. destruct (IH _ Hm') as (? & ? & ?); [|lia|lia|split; [done|]; split; [done|]; lia].
    intros id t Ht. destruct (Hg id t Ht) as [->|(t0 & Ht0 & -> & _)]; [lia|]. specialize (Hd id t0 Ht0). lia.
Qed.

Lemma history_generation m l id t :
  coherent m -> 0 <= mg_revision m -> mg_revision m + len l < 2 ^ 64 ->
  sn_tokens (mg_current (history m l)) !! id = Some t -> et_credentialGeneration t <= mg_revision m ->
  exists t0, sn_tokens (mg_current m) !! id = Some t0 /\ et_credentialGeneration t = et_credentialGeneration t0
    /\ same_credential (mg_current (history m l)) (mg_current m) id t t0.
Proof.
  revert m. induction l as [|[[o e] now] l IH]; intros m Hm Hr Hl Ht Hg; [by exists t|].
  cbn [history fold_left] in *. fold (history (exec m o e now).1 l) in *. destruct (step_tokens m o e now Hm) as [Hm' Hs].
  assert (len ((o, e, now) :: l) = 1 + len l) as Hlen by len_lia. assert (0 <= len l) by len_lia. destruct Hs as [Hs|[Hrev Hs]].
  - rewrite Hs in *. apply IH; [done..|lia|done|done].
  - rewrite next_small in Hrev by lia. destruct (IH _ Hm') as (t1 & Ht1 & Hg1 & Hc1); [lia|lia|done|lia|].
    destruct (Hs id t1 Ht1) as [Hn|(t0 & Ht0 & Hg0 & Hc0)]; [lia|]. exists t0. split; [done|]. split; [congruence|].
    destruct Hc1 as (? & ? & ? & ?), Hc0 as (? & ? & ? & ?). repeat split; congruence.
Qed.

(** The calls that leave the tokens and the baseline alone. *)
Definition quiet (o : operation) : bool :=
  match o with OpReload _ | OpReset | OpCreateToken _ | OpDeleteToken _ _ _ => false | _ => true end.

Lemma mutate_quiet m expected now fn m' s :
  mutate m expected now fn = (m', Ok s) ->
  (forall ov d, fn (mg_overlay m) (next_revision (mg_revision m)) = Ok (ov, d) -> ov_tokens ov = ov_tokens (mg_overlay m) /\ d = None) ->
  ov_tokens (mg_overlay m') = ov_tokens (mg_overlay m) /\ mg_baseline m' = mg_baseline m.
Proof.
  intros E Hfn. unfold StateManager.mutate in E. cbv zeta in E.
  destruct (checkRevision _ _ ;! _) as [[[base ov] [snap born]]|e] eqn:Eo; injection E as <- E; [|done].
  apply then_Ok in Eo as [_ Eo]. apply rbind_Ok in Eo as ([ov0 d] & Ef & Eo). apply rbind_Ok in Eo as (c & Ec & Eo).
  injection Eo as <- <- ->. cbn. destruct (Hfn _ _ Ef) as [-> ->]. done.
Qed.

Lemma exec_quiet m o expected now m' s :
  exec m o expected now = (m', Ok s) -> quiet o = true ->
  ov_tokens (mg_overlay m') = ov_tokens (mg_overlay m) /\ mg_baseline m' = mg_baseline m.
Proof.
  intros E Hq. destruct o; try discriminate Hq; cbn in E;
    try unfold OverrideLoginVerifier in E; try unfold OverrideEnableVerifier in E; try (destruct (ValidatePHC _); [|discriminate E]);
    (eapply mutate_quiet; [exact E|]; cbn; intros ov d Ef; apply rbind_Ok in Ef as (? & _ & Ef); apply rbind_Ok in Ef as (? & _ & Ef);
     injection Ef as <- <-; done).
Qed.

Lemma same_meta_origin a rev rev' : same_origin (WithSnapshotRevision a rev) (WithSnapshotRevision a rev').
Proof. split; [done|by right]. Qed.

Lemma quiet_generation m o expected now m' s id t :
  coherent m -> exec m o expected now = (m', Ok s) -> quiet o = true ->
  sn_tokens (mg_current m) !! id = Some t -> is_Some (sn_tokenDigests (mg_current m) !! id) ->
  exists t', sn_tokens s !! id = Some t' /\ token_shown t' = token_shown t /\ sn_tokenDigests s !! id = sn_tokenDigests (mg_current m) !! id
    /\ et_credentialGeneration t' = et_credentialGeneration t.
Proof.
  intros Hm E Hq Ht [dg Hdg]. destruct (exec_step _ _ _ _ _ _ Hm E) as [Hc _]. destruct (exec_quiet _ _ _ _ _ _ E Hq) as [Etok Ebase].
  pose proof (cm_published _ _ _ _ _ _ _ _ _ _ _ Hc) as Hp'. destruct Hm as [Hok _ (p & t0 & Hp)].
  pose proof (pb_tokens _ _ _ _ _ _ _ _ _ _ _ _ _ Hp) as Ct. pose proof (pb_tokens _ _ _ _ _ _ _ _ _ _ _ _ _ Hp') as Ct'.
  pose proof (pb_digests _ _ _ _ _ _ _ _ _ _ _ _ _ Hp') as Dg'. rewrite Etok, Ebase in Ct'. rewrite Etok, Ebase, (cm_lookup _ _ _ _ _ _ _ _ _ _ _ Hc) in Dg'.
  pose proof (cl_values _ _ _ _ _ _ _ _ Ct id) as Hv. pose proof (cl_values _ _ _ _ _ _ _ _ Ct' id) as Hv'. rewrite <- Hv, Ht in Hv'.
  destruct (sn_tokens s !! id) as [t'|] eqn:Et'; [|done]. injection Hv' as Hsh.
  assert (token_shown t' = token_shown t) as Hshow by (unfold token_shown; congruence).
  assert (sn_tokenDigests s !! id = sn_tokenDigests (mg_current m) !! id) as Hds.
  { by rewrite (pb_digests _ _ _ _ _ _ _ _ _ _ _ _ _ Hp), Dg'. }
  exists t'. do 3 (split; [done|]). eapply (pb_kept _ _ _ _ _ _ _ _ _ _ _ _ _ Hp' id t' (mg_current m) t dg); try done; [by rewrite Hds| |].
  - rewrite (pb_digests _ _ _ _ _ _ _ _ _ _ _ _ _ Hp) in Hdg. eapply digest_len; [|exact Hdg]. apply Hok.
  - destruct (ov_tokens (mg_overlay m) !! id) as [[a meta|tb meta]|] eqn:Em.
    + rewrite (cl_overlaid _ _ _ _ _ _ _ _ Ct id t meta Ht) by (by rewrite Em).
      rewrite (cl_overlaid _ _ _ _ _ _ _ _ Ct' id t' meta Et') by (by rewrite Em). apply same_meta_origin.
    + rewrite Ht in Hv. unfold live_find in Hv. by rewrite Em in Hv.
    + pose proof (cl_baseline _ _ _ _ _ _ _ _ Ct id t Ht Em) as Hs1. pose proof (cl_baseline _ _ _ _ _ _ _ _ Ct' id t' Et' Em) as Hs2.
      split; [congruence|by left].
Qed.

Lemma new_dated d lookup key hook now m : New d lookup key hook now = Ok m -> mg_revision m = 1 /\ dated m.
Proof.
  unfold StateManager.New. destruct d as [d|]; [|done]. intros E. apply rbind_Ok in E as ([s born] & Ec & E). injection E as <-.
  split; [done|]. intros id t Ht. cbn in Ht. pose proof (compile_spec _ _ _ _ _ _ _ _ _ _ _ _ _ _ _ _ _ _ _ _ Ec overlay_ok_new) as Hp.
  destruct (pb_generation _ _ _ _ _ _ _ _ _ _ _ _ _ Hp id t Ht) as [->|(? & ? & ? & _)]; done.
Qed.

(** ** Properties *)

End Manager.

#[local] Notation lab_history :=
  (history (Dict := unit) (fun _ => None) (fun _ => true) (fun _ => true) (fun _ => false) (fun _ => true) (fun _ => false)
    (fun _ => Ok tt) (fun _ => Ok "h"%string) (fun _ _ => Ok "o"%string) Some).
Definition lab_bearer : bytes := map Z.of_nat (seq 65 20).
Definition lab_call (enabled : bool) (now : Z) : operation * option Z * Z := (OpUpdateUser "alice" (lab_patch enabled), None, now).

(** The token of the file keeps its generation while a user changes. *)
Example lab_tokens :
  match lab_new with
  | Ok m =>
    bool_decide (is_Some (AuthenticateToken (mg_current (lab_history m [lab_call false 5])) lab_bearer 7))
    && negb (bool_decide (is_Some (AuthenticateToken (mg_current m) [1; 2] 7)))
    && match sn_tokens (mg_current (lab_history (lab_history m [lab_call false 5]) [lab_call true 6])) !! "admin" with
       | Some t => et_credentialGeneration t =? 1
       | None => false
       end
  | Err _ => false
  end = true.
Proof. vm_compute. reflexivity. Qed.

