(* ===== verification/ControlPlane.v ===== *)
(** * The state manager behind the protocols

    The authentication service and the RADIUS/UDP listener were proved against
    what they read of a snapshot ([AuthSnapshot], [RadiusUdp.Snapshot]) and
    against an interface of the state manager ([Publisher]).  Here are the
    views of the snapshots [StateManager] publishes and its instance of the
    interface; for every state a manager reaches, who is let in is what the
    configuration and the overlay say, a published password is the one checked
    next, and the listener's snapshot is compiled from the live clients. *)

From stdpp Require Import gmap strings sorting.
From S2P Require Import Prelude Text RadiusReply RadiusUdp StableSort MsChap Credentials AaaAuthen Domain Policy RadiusPolicy NetAddr ClientMatch.
From S2P Require Import ConfigModel ConfigValidate ConfigSpec ConfigSecrets StatePatch StateManager StateSpec StateHistory.

#[local] Open Scope Z_scope.

(** ** What the AAA service reads of a snapshot *)

Definition auth_ref (r : ConfigModel.SecretRef) : AaaAuthen.SecretRef :=
  AaaAuthen.mkSecretRef (sf_File r) (sf_Environment r) (sf_MemoryID r).
Definition auth_user (u : ConfigModel.User) : AuthUser :=
  mkAuthUser (us_ID u) (us_Enabled u) (ur_ClientIDs (us_Restrictions u)) (ur_ValidAfter (us_Restrictions u))
    (ur_ValidBefore (us_Restrictions u)) (us_MustChangeLogin u) (us_MustChangeEnable u)
    (auth_ref (uc_Login (us_Credentials u))) (auth_ref (uc_Challenge (us_Credentials u))) (auth_ref (uc_Enable (us_Credentials u))).
Definition auth_client (c : ConfigModel.Client) : AuthClient := mkAuthClient (cl_Enabled c) (ca_AllowedMethods (cl_Authentication c)).

(** The limits and event switches of the settings are not in the document's
    model; they are an argument. *)
Definition auth_view {Dict} (settings : option AuthSettings) (s : StateManager.Snapshot Dict) : AuthSnapshot :=
  mkAuthSnapshot (StateManager.sn_Revision s) settings (auth_user ∘ eu_User <$> sn_users s) (auth_client ∘ ec_Client <$> StateManager.sn_clients s)
    (sn_runtimeSecrets s).

(** ** What the RADIUS/UDP listener reads of it *)

Definition udp_view {Dict} (s : StateManager.Snapshot Dict) : RadiusUdp.Snapshot :=
  RadiusUdp.mkSnapshot (StateManager.sn_Revision s) (Some (StateManager.sn_radiusAccessIndex s)) (Some (StateManager.sn_radiusAcctIndex s))
    (Some (StateManager.sn_radiusDynAuthIndex s)) (match_client ∘ ec_Client <$> StateManager.sn_clients s).

(** ** The interface of the service *)

(** The code of an error, for the two that [publishLogin] tells apart; no
    error of the matching or the policy compiler has one of them. *)
Definition code_of (e : cfg_error) : string := match e with EDomain e => de_Code e | _ => "" end.
Definition published_as {M A} (r : M * result cfg_error A) : M * result string unit :=
  (r.1, match r.2 with Ok _ => Ok tt | Err e => Err (code_of e) end).

(** *** The indexes do not see rebuilt TACACS+ endpoints *)

Lemma hasRADIUSEndpoint_exists c : ConfigModel.hasRADIUSEndpoint c = existsb is_radius (cl_Endpoints c).
Proof.
  unfold ConfigModel.hasRADIUSEndpoint, ConfigModel.radiusEndpoint. cbv zeta. change (str_eqb (ToLower (TrimSpace "")) "") with true.
  induction (cl_Endpoints c) as [|ep eps IH]; [done|]. cbn. by destruct (is_radius ep).
Qed.

Lemma no_radius_endpoint eps want : existsb is_radius eps = false -> radiusEndpoint_loop (map match_endpoint eps) want = None.
Proof.
  induction eps as [|ep eps IH]; [done|]. cbn. intros [He Hl]%orb_false_iff. rewrite (IH Hl).
  revert He. unfold is_radius. destruct (str_eqb (ep_Protocol ep) ProtocolRADIUS); [|done]. cbn.
  by destruct (ep_RADIUS ep).
Qed.

Lemma synthesized_no_radius c : existsb is_radius (synthesizeTACACSEndpoints c) = false.
Proof.
  unfold synthesizeTACACSEndpoints. induction (cm_Transports (cl_Match c)) as [|t ts IH]; [done|]. cbn.
  unfold synthesizeEndpoint. destruct (str_eqb t TransportLegacy); [|destruct (str_eqb t TransportTLS)]; done.
Qed.

Lemma match_resynthesize c want : ClientMatch.radiusEndpoint (match_client (resynthesize c)) want = ClientMatch.radiusEndpoint (match_client c) want.
Proof.
  unfold resynthesize. destruct (ConfigModel.hasRADIUSEndpoint c) eqn:E; [done|]. rewrite hasRADIUSEndpoint_exists in E.
  unfold ClientMatch.radiusEndpoint. cbn [negb match_client c_Endpoints with_endpoints cl_Endpoints].
  by rewrite !no_radius_endpoint by (done || apply synthesized_no_radius).
Qed.

Lemma compileRADIUS_resynthesize role cs i byID :
  compileRADIUS_loop role (map match_client (map resynthesize cs)) i byID = compileRADIUS_loop role (map match_client cs) i byID.
Proof.
  revert i byID. induction cs as [|c cs IH]; intros i byID; [done|]. cbn [map compileRADIUS_loop]. rewrite match_resynthesize.
  assert (c_Enabled (match_client (resynthesize c)) = c_Enabled (match_client c)) as -> by (unfold resynthesize; by case_match).
  assert (c_ID (match_client (resynthesize c)) = c_ID (match_client c)) as -> by (unfold resynthesize; by case_match).
  assert (forall ep, radiusIndexFromClient (match_client (resynthesize c)) ep i = radiusIndexFromClient (match_client c) ep i) as Hf
    by (unfold resynthesize; by case_match).
  rewrite !IH. destruct (negb _); [done|]. destruct (ClientMatch.radiusEndpoint _ _) as [ep|]; [|done].
  destruct (negb _); [done|]. rewrite Hf. destruct (radiusIndexFromClient _ _ _); [apply IH|done].
Qed.

Lemma CompileRADIUSIndex_resynthesize cs role carrier :
  CompileRADIUSIndex (map match_client (map resynthesize cs)) role carrier = CompileRADIUSIndex (map match_client cs) role carrier.
Proof. unfold CompileRADIUSIndex. by rewrite compileRADIUS_resynthesize. Qed.

Section ControlPlane.
Context {Dict : Type} (regexp_Compile : string -> option (string -> bool)) (PolicyParseIP IANALocation : string -> bool)
  (IsLower IsUpper IsDigit : Z -> bool) (CompileRADIUSDictionary : Document -> result cfg_error Dict)
  (hashBaseline : Document -> result cfg_error string) (hashOverlay : overlay -> bytes -> result cfg_error string)
  (precis : string -> option string).

#[local] Notation Manager := (@Manager Dict).
#[local] Notation exec := (exec regexp_Compile PolicyParseIP IANALocation IsLower IsUpper IsDigit CompileRADIUSDictionary hashBaseline hashOverlay precis).
#[local] Notation reachable :=
  (reachable regexp_Compile PolicyParseIP IANALocation IsLower IsUpper IsDigit CompileRADIUSDictionary hashBaseline hashOverlay precis).
#[local] Notation coherent := (@coherent Dict regexp_Compile PolicyParseIP IANALocation IsLower IsUpper IsDigit).

(** The manager at an instant of its clock. *)
Definition manager_publisher (now : Z) : Publisher Manager :=
  {| pub_OverrideLogin m user phc rev := published_as (exec m (OpOverrideLogin user phc) (Some rev) now);
     pub_OverrideEnable m user phc rev := published_as (exec m (OpOverrideEnable user phc) (Some rev) now) |}.

(** *** Users *)

Definition live_user (m : Manager) (id : string) : option ConfigModel.User := live_find (dc_Users (mg_baseline m)) (ov_users (mg_overlay m)) id.

(** The record the credential service looks up for a user. *)
Definition record_of (snap : AuthSnapshot) (secrets : AaaAuthen.SecretLookup) (client : string) (u : ConfigModel.User) : UserRecord :=
  let a := auth_user u in
  mkUserRecord (au_ID a) (au_Enabled a) (clientRestricted (au_ClientIDs a) client)
    (material snap secrets (au_Login a)) (material snap secrets (au_Challenge a)) (material snap secrets (au_Enable a))
    (au_ValidAfter a) (au_ValidBefore a) (au_MustChangeLogin a) (au_MustChangeEnable a).

Lemma store_live m settings secrets client id :
  coherent m ->
  let snap := auth_view settings (mg_current m) in
  snapshotStore snap secrets client id = record_of snap secrets client <$> live_user m id.
Proof.
  intros Hm snap. pose proof (vs_users _ _ _ (coherent_view _ _ _ _ _ _ _ Hm) id) as Hv. unfold live_user. rewrite <- Hv.
  unfold snapshotStore. subst snap. cbn [an_User auth_view]. cbn [vw_users view_of]. rewrite !lookup_fmap. by destruct (sn_users (mg_current m) !! id).
Qed.

(** A user the service may let in through a client at an instant. *)
Definition admitted (m : Manager) (client : string) (now : Z) (userID canon : string) (u : ConfigModel.User) : Prop :=
  precis userID = Some canon /\ canon <> EmptyString /\ live_user m canon = Some u /\ us_Enabled u = true
  /\ clientRestricted (ur_ClientIDs (us_Restrictions u)) client = false
  /\ (forall t, ur_ValidAfter (us_Restrictions u) = Some t -> t <= now) /\ (forall t, ur_ValidBefore (us_Restrictions u) = Some t -> now < t).

Lemma usable_admitted m settings secrets client svc now userID canon rec :
  coherent m ->
  let snap := auth_view settings (mg_current m) in
  usable precis (WithStore svc (Some (snapshotStore snap secrets client))) now userID canon rec
  <-> exists u, admitted m client now userID canon u /\ rec = record_of snap secrets client u.
Proof.
  intros Hm snap. unfold usable, admitted. cbn [cs_store WithStore]. subst snap. rewrite (store_live _ _ _ _ _ Hm). split.
  - intros (Hp & Hc & (u & Hu & ->)%fmap_Some & He & Hr & Ha & Hb). exists u. split; [|done]. done.
  - intros (u & (Hp & Hc & Hu & He & Hr & Ha & Hb) & ->). rewrite Hu. done.
Qed.

(** What a reference of a user resolves to: for its login and ENABLE
    references, the verifiers its passwords are checked against. *)
Definition resolves (snap : AuthSnapshot) (secrets : AaaAuthen.SecretLookup) (r : ConfigModel.SecretRef) : bytes :=
  v (material (p := Credentials.PurposeLoginVerifier) snap secrets (auth_ref r)).

(** *** Clients of the RADIUS/UDP listener *)

Definition live_client (m : Manager) (id : string) : option ConfigModel.Client :=
  live_find (dc_Clients (mg_baseline m)) (ov_clients (mg_overlay m)) id.
Lemma clients_compiled m :
  coherent m -> (forall id c, live_client m id = Some c -> NoDup (map ConfigModel.ep_ID (cl_Endpoints c))) ->
  exists clients, (forall c, c ∈ clients <-> exists id, live_client m id = Some c)
    /\ snapshot_compiled (udp_view (mg_current m)) (map match_client clients).
Proof.
  intros Hm Heps. pose proof (coherent_view _ _ _ _ _ _ _ Hm) as Hv. destruct Hm as [Hok _ (previous & now & Hp)].
  destruct (pb_serves _ _ _ _ _ _ _ _ _ _ _ _ _ Hp) as [d Hd]. exists (dc_Clients d). split; [apply (sv_clients _ _ _ _ _ _ _ Hd)|].
  pose proof (sv_clients _ _ _ _ _ _ _ Hd) as Hin. destruct (do_clients _ _ (sv_valid _ _ _ _ _ _ _ Hd)) as [_ Hids].
  assert (forall id c, live_client m id = Some c <-> c ∈ dc_Clients d /\ cl_ID c = id) as Hlive.
  { intros id c. split.
    - intros Hl. split; [apply Hin; by exists id|]. exact (live_id _ _ _ _ (oo_clients _ Hok) Hl).
    - intros [[id' Hl]%Hin <-]. pose proof (live_id _ _ _ _ (oo_clients _ Hok) Hl : cl_ID c = id') as <-. exact Hl. }
  split.
  - rewrite map_map. exact Hids.
  - intros c (c0 & -> & Hc)%list_elem_of_fmap. cbn. rewrite map_map. apply Hin in Hc as [id Hc]. exact (Heps id c0 Hc).
  - apply map_eq. intros id. cbn [RadiusUdp.sn_clients udp_view]. rewrite lookup_fmap, map_map.
    pose proof (vs_clients _ _ _ Hv id) as Hid. cbn [vw_clients view_of] in Hid. rewrite lookup_fmap in Hid. fold (live_client m id) in Hid.
    destruct (live_client m id) as [c|] eqn:El.
    + destruct (StateManager.sn_clients (mg_current m) !! id) as [x|]; [|done]. injection Hid as Hid. cbn. rewrite Hid. symmetry.
      apply Hlive in El as [Hc <-]. apply elem_of_list_to_map_1; [by rewrite map_map|].
      apply list_elem_of_fmap. by exists c.
    + destruct (StateManager.sn_clients (mg_current m) !! id) as [x|]; [done|]. cbn. symmetry. apply not_elem_of_list_to_map_1.
      intros ((k & c0) & -> & (c & [= -> ->] & Hc)%list_elem_of_fmap)%list_elem_of_fmap. cbn in El.
      by rewrite (proj2 (Hlive (cl_ID c) c) (conj Hc eq_refl)) in El.
  - intros idx [= <-]. rewrite <- CompileRADIUSIndex_resynthesize. exact (sv_access _ _ _ _ _ _ _ Hd).
  - intros idx [= <-]. rewrite <- CompileRADIUSIndex_resynthesize. exact (sv_acct _ _ _ _ _ _ _ Hd).
  - intros idx [= <-]. rewrite <- CompileRADIUSIndex_resynthesize. exact (sv_dynauth _ _ _ _ _ _ _ Hd).
Qed.

(** *** A change of password *)

Lemma memory_resolves settings (s : StateManager.Snapshot Dict) secrets purpose key phc :
  StateManager.RuntimeSecret s key = Some phc -> resolves (auth_view settings s) secrets (memory_ref purpose key) = phc.
Proof.
  unfold StateManager.RuntimeSecret, Policy.str_eqb. destruct (bool_decide (key = EmptyString)) eqn:Hk; [done|]. intros Hsec.
  unfold resolves, material, resolveSecret, AaaAuthen.RuntimeSecret, SecretRef_Set, Events.str_eqb.
  cbn [auth_ref memory_ref sf_File sf_Environment sf_MemoryID sr_File sr_Environment sr_MemoryID auth_view an_runtimeSecrets].
  by rewrite Hk, orb_true_r, Hsec.
Qed.

(** The change of one verifier, by the operation [o]. *)
Definition verifier_published (m m' : Manager) (rev : Z) (user : string) (phc : bytes) (must_change : ConfigModel.User -> bool)
    (ref : ConfigModel.User -> ConfigModel.SecretRef) : Prop :=
  reachable m' /\ rev = StateManager.sn_Revision (mg_current m) /\ ValidatePHC phc = Ok tt
  /\ exists id u, NormalizeUserID precis user = Ok id /\ live_user m' id = Some u /\ must_change u = false
       /\ forall settings secrets, resolves (auth_view settings (mg_current m')) secrets (ref u) = phc.

Lemma override_published m o key set purpose must_change ref user phc rev now m' r :
  reachable m -> (forall s, effect precis m o s -> verifier_effect precis m key set purpose user phc s) ->
  (forall u x, must_change (set u x) = false /\ ref (set u x) = x) ->
  published_as (exec m o (Some rev) now) = (m', r) ->
  match r with Err _ => m' = m | Ok _ => verifier_published m m' rev user phc must_change ref end.
Proof.
  intros Hr Heff Hset E. pose proof (reachable_coherent _ _ _ _ _ _ _ _ _ _ _ Hr) as Hm. unfold published_as in E.
  pose proof (reach_call _ _ _ _ _ _ _ _ _ _ m o (Some rev) now Hr) as Hr1.
  destruct (exec m o (Some rev) now) as [m1 ret] eqn:Ex. cbn in E, Hr1.
  pose proof (exec_step _ _ _ _ _ _ _ _ _ _ _ _ _ _ _ _ Hm Ex) as Hstep. destruct ret as [s|]; injection E as <- <-; [|exact Hstep].
  destruct Hstep as [Hc (id & cur & Hid & Hphc & _ & _ & Hview & Hsec)%Heff].
  pose proof (reachable_coherent _ _ _ _ _ _ _ _ _ _ _ Hr1) as Hm1. pose proof (cm_current _ _ _ _ _ _ _ _ _ _ _ Hc) as Hcur1.
  split; [done|]. split.
  { destruct (cm_expected _ _ _ _ _ _ _ _ _ _ _ Hc) as [|[= ->]]; [done|]. destruct Hm as [_ _ (p & t & Hp)].
    by rewrite (pb_revision _ _ _ _ _ _ _ _ _ _ _ _ _ Hp). }
  split; [done|]. destruct (Hset cur (memory_ref purpose (key id))) as [Hmust Href].
  exists id, (set cur (memory_ref purpose (key id))). split; [done|]. split; [|split; [done|]].
  - unfold live_user. rewrite <- (vs_users _ _ _ (coherent_view _ _ _ _ _ _ _ Hm1) id), Hcur1, Hview. cbn. apply lookup_insert_eq.
  - intros settings secrets. rewrite Href, Hcur1. by apply memory_resolves.
Qed.

(** ** Property *)

(** C6. Who is let in is what the control plane says.  In every state a state
    manager reaches: a password is accepted by the credential service over the
    published snapshot exactly when the call is live and the canonical name is
    a live, enabled user, open to the client and in its validity window, and
    the password hashes to the verifier its login reference resolves to; so a
    deleted or disabled user is refused from the next call on.  When the
    authentication service publishes a changed login or ENABLE password, the
    revision was the published one, the user is live, its duty to change it is
    over and its reference resolves to exactly the new verifier; a refusal
    leaves the manager as it was.  The snapshot of the RADIUS/UDP listener is
    compiled from the live clients, as the datagram pipeline requires, when the
    endpoint ids of each client are distinct. *)
Theorem control_plane_decides m :
  reachable m ->
  (forall IDKey settings secrets client svc cx now userID password,
     let snap := auth_view settings (mg_current m) in
     snd (VerifyASCIIOrPAP IDKey precis (WithStore svc (Some (snapshotStore snap secrets client))) cx now userID password) = Ok tt <->
     cx_cancelled cx = false /\ cx_kdf cx = true /\ exists canon u ph,
       admitted m client now userID canon u
       /\ let phc := resolves snap secrets (uc_Login (us_Credentials u)) in
          phc <> [] /\ parsePHC phc = Ok ph
          /\ IDKey password (ph_salt ph) (ph_time ph) (ph_memory ph) (ph_threads ph) (to_u32 (len (ph_hash ph))) = ph_hash ph)
  /\ (forall enable user phc rev now m' r,
        (if enable : bool then @pub_OverrideEnable _ (manager_publisher now) else @pub_OverrideLogin _ (manager_publisher now)) m user phc rev = (m', r) ->
        match r with
        | Err _ => m' = m
        | Ok _ => verifier_published m m' rev user phc (if enable then us_MustChangeEnable else us_MustChangeLogin)
                    (fun u => (if enable then uc_Enable else uc_Login) (us_Credentials u))
        end)
  /\ ((forall id c, live_client m id = Some c -> NoDup (map ConfigModel.ep_ID (cl_Endpoints c))) ->
      exists clients, (forall c, c ∈ clients <-> exists id, live_client m id = Some c)
        /\ snapshot_compiled (udp_view (mg_current m)) (map match_client clients)).
Proof.
  intros Hr. pose proof (reachable_coherent _ _ _ _ _ _ _ _ _ _ _ Hr) as Hm. split; [|split].
  - intros IDKey settings secrets client svc cx now userID password snap. rewrite password_check_login, password_accepted.
    do 2 apply and_iff_compat_l. split.
    + intros (canon & rec & ph & (u & Hu & ->)%usable_admitted & Hp); [|done]. by exists canon, u, ph.
    + intros (canon & u & ph & Hu & Hp). exists canon, (record_of snap secrets client u), ph. split; [|done].
      apply usable_admitted; [done|]. by exists u.
  - intros [] user phc rev now m' r E.
    + eapply (override_published m (OpOverrideEnable user phc)); [done|intros s Hs; exact Hs|intros u x; split; reflexivity|exact E].
    + eapply (override_published m (OpOverrideLogin user phc)); [done|intros s Hs; exact Hs|intros u x; split; reflexivity|exact E].
  - by apply clients_compiled.
Qed.
End ControlPlane.

(** The lab's manager publishes a login password for alice at its revision, and
    refuses at another one. *)
#[local] Notation lab_publisher now :=
  (manager_publisher (Dict := unit) (fun _ => None) (fun _ => true) (fun _ => true) (fun _ => false) (fun _ => true) (fun _ => false)
    (fun _ => Ok tt) (fun _ => Ok "h"%string) (fun _ _ => Ok "o"%string) Some now).
Example lab_publishes :
  match lab_new with
  | Ok m => is_ok (@pub_OverrideLogin _ (lab_publisher 5) m "alice" sample_phc 1).2
            && negb (is_ok (@pub_OverrideLogin _ (lab_publisher 5) m "alice" sample_phc 2).2)
  | Err _ => false
  end = true.
Proof. vm_compute. reflexivity. Qed.

Lemma control_plane_decides_witness : exists m m',
  lab_new = Ok m /\ @pub_OverrideLogin _ (lab_publisher 5) m "alice" sample_phc 1 = (m', Ok tt)
  /\ exists u, live_user m' "alice" = Some u /\ resolves (auth_view None (mg_current m')) None (uc_Login (us_Credentials u)) = sample_phc.
Proof.
  pose proof lab_publishes as Hp. destruct lab_new as [m|] eqn:E; [|discriminate Hp]. apply andb_true_iff in Hp as [Hp _].
  destruct (@pub_OverrideLogin _ (lab_publisher 5) m "alice" sample_phc 1) as [m' [[]|]] eqn:Ex; [|discriminate Hp].
  exists m, m'. split; [reflexivity|]. split; [exact Ex|].
  pose proof (control_plane_decides _ _ _ _ _ _ _ _ _ Some m (reach_new _ _ _ _ _ _ _ _ _ _ _ _ _ _ _ _ E)) as (_ & H & _).
  specialize (H false "alice"%string sample_phc 1 5 m' (Ok tt) Ex) as (_ & _ & _ & id & u & Hid & Hu & _ & Hres).
  unfold NormalizeUserID in Hid. cbn in Hid. injection Hid as <-. exists u. split; [exact Hu|apply Hres].
Defined.
